(* ===== verification/_CoqProject ===== *)
-Q . S2P
Prelude.v
Status.v
Varint.v
Strings.v
Record.v
RecordValue.v
RecordMeta.v
ReplLog.v
Mgl.v
MglSafe.v
BinlogSeq.v
Txn.v
Store.v
Replicate.v
Cursor.v
SkipList.v
SkipListRep.v
SkipListRead.v
SkipListWrite.v
SkipListKeep.v
SkipListRemove.v
SkipListSave.v
SkipListSpec.v
Double.v
Command.v
Elems.v
Keys.v
KeysSpec.v
KeysDel.v
Named.v
KeysRange.v
Tidy.v
Zset.v
ZsetRep.v
ZsetSpec.v
ZsetRead.v
Number.v
RedisPort.v
Bits.v
Glob.v
List.v
ListSpec.v
ListRem.v
ListCmd.v
Hash.v
HashSpec.v
HashCmd.v
Members.v
MembersSpec.v
MembersCmd.v
MembersMulti.v
MembersStore.v
MembersPop.v
Kv.v
KvBits.v
KvSpec.v
KvRead.v
KvMulti.v
KvRename.v
Expire.v
ExpireSpec.v
IndexMgr.v
IndexMgrSpec.v
Reap.v
Guards.v
GuardsLogic.v
GuardsSpec.v
GuardsSafe.v
