(* ===== verification/Prelude.v ===== *)
(** * Verification of the novadb storage core

    novadb (src/src/novadbplus) is a Redis-compatible server on top of RocksDB. A command runs in
    a session, takes guards on the store, the chunk and the key from the multi-granularity lock
    manager, deletes the key if its time has passed, reads and writes records of a transactional
    key-value store, and leaves a log of its changes, the binlog, which the replicas read. A job
    deletes the keys whose time has passed by an index of expiries. Everything the store holds, the
    binlog and the index included, is a pair of byte strings, so that the correctness of the data
    rests on the codecs that build and parse these strings, and that of concurrent commands on the
    locks. The development models the codecs, from integers up to the binlog stream; the lock
    manager and the guards, up to the interleavings of sessions; the transactions of a store with
    the ids and logs they leave, up to a replica that applies them; the cursors, the deletion and
    the expiry of keys; and the commands of sorted sets, lists, hashes, sets and strings.

    ** Conventions

    - Machine integers are [Z] with the reduction to their width written out ([wrap], [u16],
      [u32], [u64], [signed]); strings and buffers are lists of bytes; a pointer is the list of
      the bytes it reaches.
    - A function that returns a [Status] or an [Expected], or can abort, is in the monad [M] of
      Status.v: [Ret] a value, [Throw] an error status, or [Crash] with what ended the process: a
      failed invariant, a fatal log, undefined behaviour (a read outside a buffer, a shift by 64),
      an exception that nothing catches.
    - [INVARIANT_D] aborts in a debug build and only logs in a release build. The build is the
      class [BuildMode], and the theorems hold for both.
    - A command is a function from its arguments and the session's transactions to its reply and
      the store it leaves. RocksDB is a class of operations with the laws of its documentation.

    ** Files

    Codecs:
    - Prelude.v: machine integers, bytes, lists indexed by [Z], buffers, tactics.
    - Status.v (utils/status.h, utils/status.cpp, utils/invariant.h): error codes, [Status],
      [Expected] as [M], the assertion macros.
    - Varint.v (storage/varint.cpp), Strings.v (utils/string.h, utils/string.cpp), Record.v,
      RecordValue.v, RecordMeta.v (storage/record.h, storage/record.cpp), ReplLog.v
      (storage/repllog.cpp): integers, strings, keys, values, meta values and the index of expiries,
      binlogs. The class [MetaCodec] is what a meta value promises to the record that carries it.

    Locks:
    - Mgl.v (lock/mgl): modes and the conflict table, [LockSchedCtx], the sharded [MGLockMgr], the
      [MGLock] objects, and the queue that the context of a target refines. MglSafe.v: the
      refinement of the whole manager, its step relation, and safety in every reachable state.
    - Guards.v (lock/lock.cpp, and the lists of locks of network/session_ctx.cpp): the guards of
      stores, chunks and keys as programs of lock operations, and the sessions that run them.
      GuardsLogic.v: a logic for such programs in which a session knows its own lock objects.
      GuardsSpec.v: the guards in the logic, and the invariant of the system. GuardsSafe.v: what
      holds in every reachable state.

    Store:
    - BinlogSeq.v (storage/rocks/rocks_kvstore.cpp): the ids of transactions and binlogs, and the
      mark up to which readers see the binlog, as a step relation over concurrent transactions, and
      the truncation of the binlog.
    - Txn.v (the same file, and replication/repl_util.cpp): [RocksTxn], its reads, its writes and
      their log, commit and rollback, and [applySingleTxnV2]. RocksDB is the class [RocksDB] of
      operations, with the laws [RocksDBLaws]; in [RocksDBHealthy] reads and writes meet no I/O
      error and a commit may be refused; in [RocksDBCommits] every commit is accepted.
      Store.v: what a transaction promises to the structures kept in records. Replicate.v: a
      transaction on the master and its log on a replica; the instance [MemDB] of the class.
    - Cursor.v (storage/kvstore.cpp): the iterator of RocksDB as a class, and the cursors over it.
    - Elems.v, Named.v: the records of the elements of a key as a finite map. Tidy.v: the type of a
      store: every entry is a legal record under its own key.

    Keys and their expiry:
    - Command.v (commands/command.cpp, network/session_ctx.cpp): replies, the transactions that a
      session keeps, the retry loops. Keys.v (commands/command.cpp, commands/del.cpp): scanning,
      deleting and expiring whole keys; KeysSpec.v, KeysDel.v and KeysRange.v: what they do.
    - Expire.v (commands/expire.cpp) and ExpireSpec.v: EXPIRE and its kin, TTL, EXISTS, TYPE,
      PERSIST, REVISION. IndexMgr.v (server/index_manager.cpp) and IndexMgrSpec.v: the jobs that
      scan the index and delete what is due. Reap.v: what the deletion leaves alone.

    Data types:
    - SkipList.v (storage/skiplist.cpp): every operation, over the cache of nodes and the store;
      SkipListRep.v, SkipListRead.v, SkipListWrite.v, SkipListKeep.v, SkipListRemove.v,
      SkipListSave.v: the operations against the list of members ([sl_rep]); SkipListSpec.v: the
      contract. Zset.v (commands/zset.cpp), with ZsetRep.v, ZsetSpec.v and ZsetRead.v.
    - List.v (commands/list.cpp), with ListSpec.v, ListRem.v and ListCmd.v.
    - Hash.v (commands/hash.cpp), with HashSpec.v and HashCmd.v.
    - Members.v (commands/set.cpp), with MembersSpec.v, MembersCmd.v, MembersMulti.v,
      MembersStore.v and MembersPop.v.
    - Kv.v (commands/kv.cpp, and the reading of a bitmap of commands/tbitmap.cpp), with KvBits.v,
      KvSpec.v, KvRead.v, KvMulti.v and KvRename.v.
    - Double.v and Number.v (utils/string.cpp): addition and text of doubles, decimal integers.
      RedisPort.v, Bits.v, Glob.v (utils/redis_port.cpp): checksums and slots, bits, patterns.

    The manifest maps the main definitions to the lines they translate; the small helpers beside
    them are read with them.

    ** What is proved

    - Locks. [mgl_exclusion]: two objects that hold the same target have compatible modes, in
      every state that any interleaving of the objects' operations reaches. [mgl_refines_queues]:
      the manager, with its bit masks, 16-bit counters and shards, behaves as a map from targets
      to first-come-first-served queues. [mgl_total]: no operation of a reachable state fails.
      [mgl_head_granted]: the request at the head of a queue has been granted once the holders have
      let go. [LockSchedCtx_fifo], [isConflict_holders]: the order of grants, the conflict table.
    - Guards. [guard_exclusion]: a guard of a store, a chunk or a key excludes those inside it that
      conflict with it, in every interleaving of sessions. [guard_accounts]: what a session notes of
      its guards is exact, and nothing is left when nobody holds a guard, after timeouts too.
      [guard_total]: no step of a constructor or destructor fails, while sessions ask for legal modes
      and for no key that they have locked in a greater one ([acq_ok]).
    - Binlog. [binlog_prefix_stable]: no log appears at or below the mark that a reader was given,
      those that vanish are before the first log that truncation keeps, and the mark does not move
      back. [binlog_caught_up]: the mark reaches the
      last log once the transactions have ended. [binlog_ids_fresh]: ids are new.
      [replication_converges]: a transaction of record writes, committed on the master and applied
      on a replica with the same contents, gives the same contents.
    - Keys. [store_typed]: what the store holds stays well-formed. [del_correct],
      [delKeyPessimistic_correct], [expireKeyIfNeeded_correct]: deletion and expiry remove all
      records of a key and no other. [expire_correct], [persist_revision_correct],
      [ttl_reads_correct]: the commands on times. [index_exactness]: EXPIRE keeps the index of
      expiries exact, PERSIST and REVISION do not. [scan_correct]: the scan queues what is due, in
      order and without a gap. [reap_safe]: the deletion job touches no key that has not expired,
      whatever is queued and whatever commits give. [rename_correct]: RENAME, for a key of any type.
    - Commits. A theorem on a command that writes says what its one transaction saw and that it was
      committed ([commits], [committed]): the call returns, the reply is the one stated, the session
      has no transaction left and the store holds every record as the transaction saw it. It assumes
      [can_log] or [log_header]: the store has a binlog id left and the session the fields of a log's
      header. [del_correct], [rename_correct], [mset_correct], [expireKeyIfNeeded_correct] and
      [store_typed] also cover commits that the database refuses ([commit_outcome]), which change
      nothing; the others are on a database of [RocksDBCommits].
    - Sorted sets. [skiplist_refines]: any sequence of insertions, removals, range removals and
      saves followed by a reload does what it does on a sorted list; [skiplist_rank],
      [skiplist_scanByRank], [skiplist_scanByScore], [skiplist_scanByLex], [randomLevel_bounds].
      [zadd_correct], [zrem_correct], [zremrange_correct], [zcount_correct], [zrange_correct] and
      [zrank_correct]: the commands.
    - Lists: [list_ends_correct], [lrem_correct], [linsert_correct], [ltrim_correct] and others of
      ListCmd.v. Hashes: [hset_correct], [hdel_correct], [hmcas_correct]. Sets:
      [sadd_srem_correct], [set_algebra_correct], [set_store_correct], [smove_correct],
      [spop_correct]. Strings: [set_correct], [string_update_correct], [counter_correct],
      [string_reads_correct], [bitop_correct], [mset_correct].
    - Codecs. What is encoded is decoded: [varint_roundtrip], [RecordKey_roundtrip],
      [RecordValue_roundtrip], [Record_roundtrip], [meta_record_roundtrip],
      [ZSlEleValue_roundtrip], [TTLIndex_roundtrip], [ReplLog_roundtrip],
      [binlog_stream_roundtrip], [lenStr_roundtrip], [bitset_roundtrip], [hex_roundtrip]. The byte
      order of encoded keys is the order the scans rely on: [int_codec_order], [TTLIndex_order],
      [ReplLogKeyV2_order], [RecordKey_prefixPk_selects], [RecordKey_chunk_range].
    - Ports: [stringmatchlen_matches], [bitPos_exact], [crc_tables_exact], [string2ll_canonical].
    - Limits of the code, each with its input: [varintDecodeFwd_undefined] (a varint longer than
      ten bytes shifts by 70), [RecordKey_decode_length_overflow] (a forged length wraps around
      the bounds check), [RecordKey_prefixPk_overlap] and [delSubkeysRange_foreign] (keys with a
      zero byte share prefixes, and a range deletion reaches them), [TTLIndex_dbId_sign_extended],
      [TBitMap_loadMeta_eleCount], [getLogList_skips_no_command], [zadd_xx_creates] (ZADD XX leaves
      an empty set), [zincrby_same_null] (ZINCRBY by zero answers null), [zrem_retry_undefined] (a
      retry uses the transaction whose commit failed), [spop_loses_member].

    ** Bounds and fuel

    Loops that consume a list are structural on it. The others take fuel: a varint has at most
    ten groups of seven bits in 64; splitting, bitmaps, log entries and the binlog reader consume
    at least a byte a round, so the length of the input is enough, and the theorems are about
    runs with that fuel that return. Lengths are assumed below 2^60 or 2^63 where the code adds
    them in 64 bits. The 16-bit counters of the lock manager hold the locks of fewer than 65536
    objects, a condition of [step_new] and of [fresh_ok]. [std::hash] is any function of the string.
    The walks along a skip list take [walk_fuel], more than the number of nodes the meta value
    counts, and the theorems show that they end within it. A skip list has fewer than 2^30
    members; the random generator is any sequence of draws. The clock is read once a command,
    except where a command asks for it again, which is then a parameter.

    ** Not modelled

    A thread that waits in [MGLock::lock] is modelled by the state its wait ends in; the mutexes of
    a shard and of a session by atomic steps. RocksDB is the class of its operations. The commands
    do not take the guards in the model: a command is one step on the store, and that commands on
    the same key do not overlap is what the guards promise. The commands start where their arguments
    are parsed. All keys of a command are in one store. The state after a command that returns an error is the transaction it
    leaves behind, which the session rolls back.

    Left out: INCRBYFLOAT and HINCRBYFLOAT, which compute in long double; HyperLogLog and other
    floating-point estimates; BITFIELD, the other commands of bitmaps, ZUNIONSTORE, ZINTERSTORE,
    SCAN, SORT and DUMP; the catalog and the version records, which are JSON parsed by rapidjson;
    the choice of a store, which asks the cluster; the cluster itself, the network, the replication
    sessions, Lua, backups, configuration and tools, which are threads, sockets, files or other
    libraries. *)

From Stdlib Require Import Strings.Byte ZArith Lia.
From stdpp Require Import base list numbers strings countable.

Local Open Scope Z_scope.

(** * Machine integers *)

(** The reduction of an integer to an unsigned [w]-bit word. *)
Definition wrap (w z : Z) : Z := z mod 2 ^ w.

Abbreviation u16 := (wrap 16).
Abbreviation u32 := (wrap 32).
Abbreviation u64 := (wrap 64).

(** [z] is a value of the unsigned [w]-bit type. *)
Definition is_u (w z : Z) : Prop := 0 <= z < 2 ^ w.

Abbreviation is_u16 := (is_u 16).
Abbreviation is_u32 := (is_u 32).
Abbreviation is_u64 := (is_u 64).

(** The two's complement reading of a [w]-bit word. *)
Definition signed (w z : Z) : Z :=
  if 2 ^ (w - 1) <=? wrap w z then wrap w z - 2 ^ w else wrap w z.

Abbreviation s8 := (signed 8).
Abbreviation s32 := (signed 32).
Abbreviation s64 := (signed 64).

(** [z] is a value of the signed [w]-bit type. *)
Definition is_s (w z : Z) : Prop := - 2 ^ (w - 1) <= z < 2 ^ (w - 1).

Abbreviation is_s64 := (is_s 64).

(** * Bytes and strings *)

(** A [uint8_t] or [char] is a [byte]; a [std::string] or a byte buffer is a list of
    them. *)
Abbreviation bytes := (list byte).

(** The unsigned value of a byte. *)
Definition bz (b : byte) : Z := Z.of_N (Byte.to_N b).

(** The conversion of an integer to [uint8_t]. *)
Definition u8 (z : Z) : byte :=
  match Byte.of_N (Z.to_N (wrap 8 z)) with
  | Some b => b
  | None => x00
  end.

(** The value of a byte read as a (signed) [char]. *)
Definition cz (b : byte) : Z := s8 (bz b).

#[export] Instance byte_eq_dec : EqDecision byte := Byte.byte_eq_dec.
#[export] Instance byte_countable : Countable byte :=
  inj_countable Byte.to_N Byte.of_N Byte.of_to_N.

(** A string literal of the source. *)
Definition lit (s : string) : bytes := String.list_byte_of_string s.

(** The order of [std::string] and of the store's keys: byte-wise and unsigned, a proper
    prefix first. *)
Fixpoint bytes_compare (a b : bytes) : comparison :=
  match a, b with
  | [], [] => Eq
  | [], _ :: _ => Lt
  | _ :: _, [] => Gt
  | x :: a', y :: b' =>
      match bz x ?= bz y with
      | Eq => bytes_compare a' b'
      | c => c
      end
  end.

(** * Lists indexed by machine integers *)

(** The size of a container. *)
Definition zlen {A} (l : list A) : Z := Z.of_nat (length l).

(** The first [n] elements; recursion is on the list so that a huge [n] is harmless. *)
Fixpoint ztake {A} (n : Z) (l : list A) : list A :=
  match l with
  | [] => []
  | x :: l' => if n <=? 0 then [] else x :: ztake (n - 1) l'
  end.

(** What is left after the first [n] elements: the memory a pointer [p + n] reaches. *)
Fixpoint zdrop {A} (n : Z) (l : list A) : list A :=
  match l with
  | [] => []
  | x :: l' => if n <=? 0 then l else zdrop (n - 1) l'
  end.

(** The element at index [i], if there is one. *)
Fixpoint znth {A} (l : list A) (i : Z) : option A :=
  match l with
  | [] => None
  | x :: l' => if i =? 0 then Some x else znth l' (i - 1)
  end.

(** The list with index [i] overwritten; out of range nothing changes. *)
Fixpoint zset {A} (l : list A) (i : Z) (y : A) : list A :=
  match l with
  | [] => []
  | x :: l' => if i =? 0 then y :: l' else x :: zset l' (i - 1) y
  end.

(** [zfill n x] is [n] copies of [x]. *)
Definition zfill {A} (n : Z) (x : A) : list A := replicate (Z.to_nat n) x.

(** * Lemmas on words *)

Create HintDb nova.

Lemma wrap_id w z : is_u w z -> wrap w z = z.
Proof. intros H. by apply Z.mod_small. Qed.

Lemma wrap_is_u w z : 0 <= w -> is_u w (wrap w z).
Proof. intros Hw. apply Z.mod_pos_bound, Z.pow_pos_nonneg; lia. Qed.

Lemma wrap_wrap w z : wrap w (wrap w z) = wrap w z.
Proof. apply Zmod_mod. Qed.

Lemma wrap_add_l w a b : wrap w (wrap w a + b) = wrap w (a + b).
Proof. apply Zplus_mod_idemp_l. Qed.

Lemma wrap_add_r w a b : wrap w (a + wrap w b) = wrap w (a + b).
Proof. apply Zplus_mod_idemp_r. Qed.

Lemma wrap_sub_l w a b : wrap w (wrap w a - b) = wrap w (a - b).
Proof. apply Zminus_mod_idemp_l. Qed.

(** A word stored as [x + 1] is read back by subtracting one, at any width. *)
Lemma wrap_succ_pred w x : is_u w x -> wrap w (wrap w (x + 1) - 1) = x.
Proof.
  intros H. rewrite wrap_sub_l. replace (x + 1 - 1) with x by lia. by apply wrap_id.
Qed.

Lemma signed_wrap w x : 1 <= w -> is_s w x -> signed w (wrap w x) = x.
Proof.
  intros Hw [H1 H2]. unfold signed. rewrite wrap_wrap.
  assert (2 ^ w = 2 * 2 ^ (w - 1)) as E.
  { rewrite <-Z.pow_succ_r by lia. f_equal; lia. }
  unfold wrap. destruct (Z.ltb_spec x 0).
  - replace (x mod 2 ^ w) with (x + 2 ^ w).
    + destruct (Z.leb_spec (2 ^ (w - 1)) (x + 2 ^ w)); lia.
    + symmetry. rewrite <-(Z.mod_add x 1 (2 ^ w)) by lia.
      rewrite Z.mul_1_l. apply Z.mod_small. lia.
  - rewrite Z.mod_small by lia.
    destruct (Z.leb_spec (2 ^ (w - 1)) x); lia.
Qed.

Lemma is_u_le w1 w2 z : w1 <= w2 -> is_u w1 z -> is_u w2 z.
Proof.
  intros Hw [H1 H2]. split; [done|].
  eapply Z.lt_le_trans; [done|]. apply Z.pow_le_mono_r; lia.
Qed.

Lemma is_u_lor w x y : 0 <= w -> is_u w x -> is_u w y -> is_u w (Z.lor x y).
Proof.
  intros Hw [Hx1 Hx2] [Hy1 Hy2]. split; [by apply Z.lor_nonneg|].
  destruct (Z.eq_dec (Z.lor x y) 0) as [->|Hne]; [apply Z.pow_pos_nonneg; lia|].
  assert (0 <= Z.lor x y) by (by apply Z.lor_nonneg).
  apply Z.log2_lt_pow2; [lia|]. rewrite Z.log2_lor by done.
  apply Z.max_lub_lt.
  - destruct (Z.eq_dec x 0) as [->|]; [|apply Z.log2_lt_pow2; lia].
    destruct (Z.eq_dec w 0) as [->|]; [|simpl; lia].
    replace y with 0 in * by lia. done.
  - destruct (Z.eq_dec y 0) as [->|]; [|apply Z.log2_lt_pow2; lia].
    destruct (Z.eq_dec w 0) as [->|]; [|simpl; lia].
    replace x with 0 in * by lia. done.
Qed.

(** Joining two bit fields that do not overlap is addition. *)
Lemma lor_shiftl_add a k x : 0 <= k -> 0 <= x < 2 ^ k -> Z.lor (Z.shiftl a k) x = a * 2 ^ k + x.
Proof.
  intros Hk Hx. rewrite <-Z.shiftl_mul_pow2 by done.
  assert (Z.land (Z.shiftl a k) x = 0) as E.
  { apply Z.bits_inj'. intros n Hn. rewrite Z.land_spec, Z.bits_0.
    destruct (Z.ltb_spec n k).
    - by rewrite Z.shiftl_spec_low.
    - assert (Z.testbit x n = false) as ->; [|by rewrite andb_false_r].
      apply Z.testbit_false; [done|]. rewrite Z.div_small; [done|]. split; [lia|].
      eapply Z.lt_le_trans; [apply Hx|]. apply Z.pow_le_mono_r; lia. }
  by rewrite Z.add_nocarry_lxor, Z.lxor_lor.
Qed.

(** * Lemmas on bytes *)

Lemma bz_range b : 0 <= bz b < 256.
Proof. pose proof (Byte.to_N_bounded b). unfold bz. lia. Qed.

Lemma u8_bz b : u8 (bz b) = b.
Proof. by destruct b. Qed.

Lemma bz_u8 z : bz (u8 z) = z mod 256.
Proof.
  unfold bz, u8, wrap. change (2 ^ 8) with 256.
  pose proof (Z.mod_pos_bound z 256 eq_refl).
  destruct (Byte.of_N _) as [b|] eqn:E.
  - apply Byte.to_of_N in E. rewrite E. lia.
  - apply Byte.of_N_None_iff in E. lia.
Qed.

Lemma bz_u8_small z : 0 <= z < 256 -> bz (u8 z) = z.
Proof. intros H. rewrite bz_u8. by apply Z.mod_small. Qed.

Lemma signed_id w z : 0 < w -> 0 <= z < 2 ^ (w - 1) -> signed w z = z.
Proof.
  intros Hw Hz. assert (2 ^ w = 2 * 2 ^ (w - 1)) as Ew by (rewrite <-Z.pow_succ_r by lia; f_equal; lia).
  unfold signed. rewrite wrap_id by (unfold is_u; lia). destruct (Z.leb_spec (2 ^ (w - 1)) z); [lia|done].
Qed.

Lemma s64_id z : 0 <= z < 2 ^ 63 -> s64 z = z.
Proof. intros Hz. by apply signed_id. Qed.

#[export] Instance bz_inj : Inj (=) (=) bz.
Proof. intros x y E. by rewrite <-(u8_bz x), <-(u8_bz y), E. Qed.

#[export] Instance cz_inj : Inj (=) (=) cz.
Proof.
  intros x y E. apply (inj bz). pose proof (bz_range x). pose proof (bz_range y). unfold cz, signed, wrap in E.
  rewrite !Z.mod_small in E by lia. destruct (Z.leb_spec (2 ^ (8 - 1)) (bz x)), (Z.leb_spec (2 ^ (8 - 1)) (bz y)); lia.
Qed.

Lemma u8_inj x y : 0 <= x < 256 -> 0 <= y < 256 -> u8 x = u8 y -> x = y.
Proof. intros Hx Hy E. by rewrite <-(bz_u8_small x), <-(bz_u8_small y), E. Qed.

#[export] Hint Resolve bz_range : nova.

Lemma bytes_compare_refl a : bytes_compare a a = Eq.
Proof. induction a; simpl; [done|]. by rewrite Z.compare_refl. Qed.

Lemma bytes_compare_eq a b : bytes_compare a b = Eq <-> a = b.
Proof.
  split; [|intros ->; apply bytes_compare_refl].
  revert b. induction a as [|x a IH]; intros [|y b]; simpl; try done.
  destruct (Z.compare_spec (bz x) (bz y)) as [E|E|E]; try done.
  intros H. apply (inj bz) in E. by rewrite E, (IH b).
Qed.

Lemma bytes_compare_antisym a b : bytes_compare b a = CompOpp (bytes_compare a b).
Proof.
  revert b. induction a as [|x a IH]; intros [|y b]; simpl; try done.
  rewrite Z.compare_antisym. destruct (bz x ?= bz y); simpl; auto.
Qed.

Lemma bytes_compare_trans a b c :
  bytes_compare a b = Lt -> bytes_compare b c = Lt -> bytes_compare a c = Lt.
Proof.
  revert b c. induction a as [|x a IH]; intros [|y b] [|z c]; simpl; try done.
  destruct (Z.compare_spec (bz x) (bz y)), (Z.compare_spec (bz y) (bz z)); try done;
    destruct (Z.compare_spec (bz x) (bz z)); try done; try lia. apply IH.
Qed.

(** ** [operator<] of strings *)

Definition bytes_lt (a b : bytes) : bool := match bytes_compare a b with Lt => true | _ => false end.

Lemma bytes_lt_irrefl a : bytes_lt a a = false.
Proof. unfold bytes_lt. by rewrite bytes_compare_refl. Qed.

Lemma bytes_lt_antisym a b : bytes_lt a b = true -> bytes_lt b a = false.
Proof. unfold bytes_lt. rewrite (bytes_compare_antisym b a). by destruct (bytes_compare b a). Qed.

Lemma bytes_lt_total a b : bytes_lt a b = false -> bytes_lt b a = false -> a = b.
Proof.
  unfold bytes_lt. rewrite (bytes_compare_antisym a b). destruct (bytes_compare a b) eqn:E; cbn; [|done..].
  intros _ _. by apply bytes_compare_eq.
Qed.

Lemma bytes_lt_trans a b c : bytes_lt a b = true -> bytes_lt b c = true -> bytes_lt a c = true.
Proof.
  unfold bytes_lt. destruct (bytes_compare a b) eqn:E1; [done| |done]. destruct (bytes_compare b c) eqn:E2; [done| |done].
  by rewrite (bytes_compare_trans a b c).
Qed.

(** A common prefix does not matter. *)
Lemma bytes_compare_app p a b : bytes_compare (p ++ a) (p ++ b) = bytes_compare a b.
Proof. induction p; simpl; [done|]. by rewrite Z.compare_refl. Qed.

(** Blocks of equal size are compared first. *)
Lemma bytes_compare_blocks a b x y :
  length a = length b ->
  bytes_compare (a ++ x) (b ++ y) =
    match bytes_compare a b with Eq => bytes_compare x y | c => c end.
Proof.
  revert b. induction a as [|c a IH]; intros [|d b] H; simpl in *; try done.
  injection H as H. destruct (bz c ?= bz d); try done. by apply IH.
Qed.

(** * Lemmas on lists indexed by integers *)

Section ListZ.
Context {A : Type}.
Implicit Types (l k : list A) (n m i : Z).

Lemma zlen_nonneg l : 0 <= zlen l.
Proof. unfold zlen. lia. Qed.

Lemma zlen_nil : zlen ([] : list A) = 0.
Proof. done. Qed.

Lemma zlen_cons x l : zlen (x :: l) = 1 + zlen l.
Proof. unfold zlen. simpl. lia. Qed.

Lemma zlen_app l k : zlen (l ++ k) = zlen l + zlen k.
Proof. unfold zlen. rewrite length_app. lia. Qed.

Lemma zlen_rev l : zlen (rev l) = zlen l.
Proof. unfold zlen. by rewrite length_rev. Qed.

Lemma zlen_fill n (x : A) : 0 <= n -> zlen (zfill n x) = n.
Proof. intros. unfold zlen, zfill. rewrite length_replicate. lia. Qed.

Lemma ztake_take n l : ztake n l = take (Z.to_nat n) l.
Proof.
  revert n. induction l as [|x l IH]; intros n; simpl; [by rewrite take_nil|].
  destruct (Z.leb_spec n 0).
  - by replace (Z.to_nat n) with 0%nat by lia.
  - replace (Z.to_nat n) with (S (Z.to_nat (n - 1))) by lia. simpl. by rewrite IH.
Qed.

Lemma zdrop_drop n l : zdrop n l = drop (Z.to_nat n) l.
Proof.
  revert n. induction l as [|x l IH]; intros n; simpl; [by rewrite drop_nil|].
  destruct (Z.leb_spec n 0).
  - by replace (Z.to_nat n) with 0%nat by lia.
  - replace (Z.to_nat n) with (S (Z.to_nat (n - 1))) by lia. simpl. by rewrite IH.
Qed.

Lemma znth_lookup l i : 0 <= i -> znth l i = l !! Z.to_nat i.
Proof.
  revert i. induction l as [|x l IH]; intros i Hi; simpl; [by rewrite lookup_nil|].
  destruct (Z.eqb_spec i 0) as [->|]; [done|].
  replace (Z.to_nat i) with (S (Z.to_nat (i - 1))) by lia. simpl. apply IH. lia.
Qed.

Lemma zset_insert l i (y : A) : 0 <= i -> zset l i y = <[Z.to_nat i := y]> l.
Proof.
  revert i. induction l as [|x l IH]; intros i Hi; simpl; [done|].
  destruct (Z.eqb_spec i 0) as [->|]; [done|].
  replace (Z.to_nat i) with (S (Z.to_nat (i - 1))) by lia. simpl. f_equal. apply IH. lia.
Qed.

Lemma zlen_set l i (y : A) : zlen (zset l i y) = zlen l.
Proof.
  revert i. induction l as [|x l IH]; intros i; simpl; [done|].
  destruct (i =? 0); rewrite !zlen_cons; [done|]. by rewrite IH.
Qed.

Lemma znth_app_r l k i : zlen l <= i -> znth (l ++ k) i = znth k (i - zlen l).
Proof.
  intros H. pose proof (zlen_nonneg l). rewrite !znth_lookup by lia.
  unfold zlen in *. rewrite lookup_app_r by lia. f_equal. lia.
Qed.

Lemma znth_app_l l k i : 0 <= i < zlen l -> znth (l ++ k) i = znth l i.
Proof.
  intros H. rewrite !znth_lookup by lia. unfold zlen in *. rewrite lookup_app_l by lia. done.
Qed.

Lemma zset_app_here l (x y : A) k : zset (l ++ x :: k) (zlen l) y = l ++ y :: k.
Proof.
  rewrite zset_insert by apply zlen_nonneg. unfold zlen. rewrite Nat2Z.id.
  rewrite insert_app_r_alt by lia. by rewrite Nat.sub_diag.
Qed.

Lemma znth_some l i : 0 <= i < zlen l -> exists x, znth l i = Some x.
Proof.
  intros H. rewrite znth_lookup by lia. apply lookup_lt_is_Some. unfold zlen in H. lia.
Qed.

Lemma znth_zset_eq l i (y : A) : 0 <= i < zlen l -> znth (zset l i y) i = Some y.
Proof.
  intros H. rewrite zset_insert, znth_lookup by lia. apply list_lookup_insert_eq. unfold zlen in H. lia.
Qed.

Lemma znth_zset_ne l i j (y : A) : i <> j -> znth (zset l i y) j = znth l j.
Proof.
  revert i j. induction l as [|x l IH]; intros i j Hij; simpl; [done|].
  destruct (Z.eqb_spec i 0), (Z.eqb_spec j 0); simpl; rewrite ?Z.eqb_refl.
  - lia.
  - by destruct (Z.eqb_spec j 0).
  - by destruct (Z.eqb_spec j 0).
  - destruct (Z.eqb_spec j 0); [done|]. apply IH. lia.
Qed.

Lemma Forall_zset (Q : A -> Prop) l i y : Forall Q l -> Q y -> Forall Q (zset l i y).
Proof.
  intros H Hy. revert i. induction H as [|x l Hx Hl IH]; intros i; simpl; [done|].
  destruct (i =? 0); by constructor.
Qed.

Lemma zdrop_0 l : zdrop 0 l = l.
Proof. by destruct l. Qed.

Lemma zdrop_nonpos n l : n <= 0 -> zdrop n l = l.
Proof. intros. rewrite zdrop_drop. by replace (Z.to_nat n) with 0%nat by lia. Qed.

Lemma zdrop_app l k : zdrop (zlen l) (l ++ k) = k.
Proof. rewrite zdrop_drop. unfold zlen. rewrite Nat2Z.id. apply drop_app_length. Qed.

Lemma zdrop_app_eq n l k : n = zlen l -> zdrop n (l ++ k) = k.
Proof. intros ->. apply zdrop_app. Qed.

Lemma zdrop_app_plus l k n : 0 <= n -> zdrop (zlen l + n) (l ++ k) = zdrop n k.
Proof.
  intros. rewrite !zdrop_drop. unfold zlen. rewrite drop_app_ge by lia. f_equal. lia.
Qed.

Lemma zdrop_app_le l k n : 0 <= n <= zlen l -> zdrop n (l ++ k) = zdrop n l ++ k.
Proof.
  intros. rewrite !zdrop_drop. unfold zlen in *. rewrite drop_app_le by lia. done.
Qed.

Lemma zdrop_zdrop n m l : 0 <= n -> 0 <= m -> zdrop n (zdrop m l) = zdrop (m + n) l.
Proof. intros. rewrite !zdrop_drop, drop_drop. f_equal. lia. Qed.

Lemma zdrop_all n l : zlen l <= n -> zdrop n l = [].
Proof. intros. rewrite zdrop_drop. unfold zlen in *. apply drop_ge. lia. Qed.

Lemma ztake_app l k : ztake (zlen l) (l ++ k) = l.
Proof. rewrite ztake_take. unfold zlen. rewrite Nat2Z.id. apply take_app_length. Qed.

Lemma ztake_app_eq n l k : n = zlen l -> ztake n (l ++ k) = l.
Proof. intros ->. apply ztake_app. Qed.

Lemma ztake_all n l : zlen l <= n -> ztake n l = l.
Proof. intros. rewrite ztake_take. unfold zlen in *. apply take_ge. lia. Qed.

Lemma ztake_zdrop n l : ztake n l ++ zdrop n l = l.
Proof. rewrite ztake_take, zdrop_drop. apply take_drop. Qed.

Lemma zlen_take n l : 0 <= n <= zlen l -> zlen (ztake n l) = n.
Proof. intros. rewrite ztake_take. unfold zlen in *. rewrite length_take. lia. Qed.

Lemma zlen_drop n l : 0 <= n <= zlen l -> zlen (zdrop n l) = zlen l - n.
Proof. intros. rewrite zdrop_drop. unfold zlen in *. rewrite length_drop. lia. Qed.

Lemma zlen_0_nil l : zlen l = 0 -> l = [].
Proof. destruct l; [done|]. rewrite zlen_cons. pose proof (zlen_nonneg l). lia. Qed.

End ListZ.

Lemma zlen_perm {A} (l k : list A) : l ≡ₚ k -> zlen l = zlen k.
Proof. intros Hp. unfold zlen. by rewrite Hp. Qed.

Lemma zlen_map {A B} (f : A -> B) l : zlen (map f l) = zlen l.
Proof. unfold zlen. by rewrite length_map. Qed.

Lemma zlen_fmap {A B} (f : A -> B) l : zlen (f <$> l) = zlen l.
Proof. apply zlen_map. Qed.

Lemma ztake_map {A B} (f : A -> B) n l : ztake n (map f l) = map f (ztake n l).
Proof. rewrite !ztake_take. symmetry. apply fmap_take. Qed.

Lemma zdrop_map {A B} (f : A -> B) n l : zdrop n (map f l) = map f (zdrop n l).
Proof. rewrite !zdrop_drop. symmetry. apply fmap_drop. Qed.

#[export] Hint Resolve zlen_nonneg : nova.
Create Rewrite HintDb zlen.
#[export] Hint Rewrite @zlen_app @zlen_cons @zlen_rev @zlen_nil : zlen.

(** Normalises sizes, adds their non-negativity, and calls [lia]. *)
Ltac zlia :=
  autorewrite with zlen in *;
  repeat match goal with
    | |- context [zlen ?l] => 
        lazymatch goal with
        | H : 0 <= zlen l |- _ => fail
        | _ => pose proof (zlen_nonneg l)
        end
    | _ : context [zlen ?l] |- _ =>
        lazymatch goal with
        | H : 0 <= zlen l |- _ => fail
        | _ => pose proof (zlen_nonneg l)
        end
    end;
  unfold is_u, is_s in *; lia.
