(* ===== verification/Status.v ===== *)
(** Error codes, statuses and the [Expected] result type (utils/status.h, utils/status.cpp),
    and the assertion macros of utils/invariant.h.

    A function of the source that returns [Expected<T>] or [Status], or that can abort the
    process, is modelled in the monad [M]: a value, an error status, or a crash. *)

From Stdlib Require Import Strings.Byte ZArith Lia.
From stdpp Require Import base list numbers strings pretty.
From S2P Require Import Prelude.

Local Open Scope Z_scope.

(** * Error codes *)

Inductive ErrorCodes : Set :=
| ERR_OK
| ERR_NETWORK
| ERR_TIMEOUT
| ERR_INTERNAL
| ERR_MANUAL
| ERR_COMMIT_RETRY
| ERR_NOTFOUND
| ERR_DECODE
| ERR_BUSY
| ERR_EXHAUST
| ERR_EXPIRED
| ERR_OVERFLOW
| ERR_CAS
| ERR_NOT_EXPIRED
| ERR_EXTENDED_PROTOCOL
| ERR_STORE_NOT_OPEN
| ERR_LOCK_TIMEOUT
| ERR_UNKNOWN
| ERR_CLUSTER
| ERR_CONNECT_TRY
| ERR_MEMORY_LIMIT
| ERR_READY_MIGRATE
| ERR_BINLOG_DISABLED
| ERR_AUTH
| ERR_PARSEOPT
| ERR_PARSEPKT
| ERR_NAN
| ERR_FLOAT
| ERR_INTERGER
| ERR_ZSLPARSERANGE
| ERR_ZSLPARSELEXRANGE
| ERR_WRONG_TYPE
| ERR_WRONG_ARGS_SIZE
| ERR_INVALID_HLL
| ERR_NO_KEY
| ERR_OUT_OF_RANGE
| ERR_WRONG_VERSION_EP
| ERR_CLUSTER_ERR
| ERR_MOVED
| ERR_CLUSTER_REDIR_CROSS_SLOT
| ERR_CLUSTER_REDIR_DOWN_STATE
| ERR_CLUSTER_REDIR_DOWN_UNBOUND
| ERR_LUA
| ERR_LUA_NOSCRIPT.

#[export] Instance ErrorCodes_eq_dec : EqDecision ErrorCodes.
Proof. solve_decision. Defined.

(** The value of an enumerator: the numbering restarts at 100 with [ERR_AUTH]. *)
Definition ErrorCodes_num (code : ErrorCodes) : Z :=
  match code with
  | ERR_OK => 0
  | ERR_NETWORK => 1
  | ERR_TIMEOUT => 2
  | ERR_INTERNAL => 3
  | ERR_MANUAL => 4
  | ERR_COMMIT_RETRY => 5
  | ERR_NOTFOUND => 6
  | ERR_DECODE => 7
  | ERR_BUSY => 8
  | ERR_EXHAUST => 9
  | ERR_EXPIRED => 10
  | ERR_OVERFLOW => 11
  | ERR_CAS => 12
  | ERR_NOT_EXPIRED => 13
  | ERR_EXTENDED_PROTOCOL => 14
  | ERR_STORE_NOT_OPEN => 15
  | ERR_LOCK_TIMEOUT => 16
  | ERR_UNKNOWN => 17
  | ERR_CLUSTER => 18
  | ERR_CONNECT_TRY => 19
  | ERR_MEMORY_LIMIT => 20
  | ERR_READY_MIGRATE => 21
  | ERR_BINLOG_DISABLED => 22
  | ERR_AUTH => 100
  | ERR_PARSEOPT => 101
  | ERR_PARSEPKT => 102
  | ERR_NAN => 103
  | ERR_FLOAT => 104
  | ERR_INTERGER => 105
  | ERR_ZSLPARSERANGE => 106
  | ERR_ZSLPARSELEXRANGE => 107
  | ERR_WRONG_TYPE => 108
  | ERR_WRONG_ARGS_SIZE => 109
  | ERR_INVALID_HLL => 110
  | ERR_NO_KEY => 111
  | ERR_OUT_OF_RANGE => 112
  | ERR_WRONG_VERSION_EP => 113
  | ERR_CLUSTER_ERR => 114
  | ERR_MOVED => 115
  | ERR_CLUSTER_REDIR_CROSS_SLOT => 116
  | ERR_CLUSTER_REDIR_DOWN_STATE => 117
  | ERR_CLUSTER_REDIR_DOWN_UNBOUND => 118
  | ERR_LUA => 119
  | ERR_LUA_NOSCRIPT => 120
  end.

(** A line break of the reply protocol. *)
Definition crlf : bytes := [x0d; x0a].

(** [std::to_string] of an integer: its decimal digits. *)
Definition to_string (z : Z) : bytes := lit (pretty z).

Lemma lit_inj s1 s2 : lit s1 = lit s2 -> s1 = s2.
Proof.
  intros E. rewrite <-(String.string_of_list_byte_of_string s1), <-(String.string_of_list_byte_of_string s2).
  unfold lit in E. by rewrite E.
Qed.

Lemma to_string_inj z1 z2 : to_string z1 = to_string z2 -> z1 = z2.
Proof. intros E%lit_inj. by apply (inj pretty) in E. Qed.

(** * The result monad *)

(** Why a run can stop without a result: a failed [INVARIANT], [LOG(FATAL)], an undefined
    operation of C++ (an access outside a buffer, an oversized shift), an exception. *)
Inductive crash : Set :=
| CInvariant
| CFatal
| CUndefined
| CException.

(** [Ret]: the value of an [Expected<T>] (or of a plain return); [Throw]: an error status
    given back to the caller; [Crash]: the process stops or its behaviour is undefined. *)
Inductive M (A : Type) : Type :=
| Ret (a : A)
| Throw (code : ErrorCodes) (msg : bytes)
| Crash (c : crash).
Arguments Ret {A} a.
Arguments Throw {A} code msg.
Arguments Crash {A} c.

#[export] Instance M_ret : MRet M := fun A a => Ret a.
#[export] Instance M_bind : MBind M := fun A B f m =>
  match m with
  | Ret a => f a
  | Throw code msg => Throw code msg
  | Crash c => Crash c
  end.

(** Runs the handler on an error status: the source's tests of [!e.ok()] that do more than
    return [e.status()]. *)
Definition catch {A} (m : M A) (h : ErrorCodes -> bytes -> M A) : M A :=
  match m with
  | Throw code msg => h code msg
  | _ => m
  end.

(** [v[i]] and [v[i] = x]: outside the vector they are undefined. *)
Definition vec_at (l : list Z) (i : Z) : M Z :=
  match znth l i with Some v => Ret v | None => Crash CUndefined end.

Definition vec_set (l : list Z) (i x : Z) : M (list Z) :=
  match znth l i with Some _ => Ret (zset l i x) | None => Crash CUndefined end.

(** ** The assertion macros *)

(** Whether the build defines [novadb_DEBUG]: a theorem that does not fix the mode holds of
    both builds. *)
Class BuildMode := novadb_DEBUG : bool.

Definition INVARIANT (e : bool) : M unit := if e then Ret tt else Crash CInvariant.

(** In a release build [INVARIANT_D] only logs. *)
Definition INVARIANT_D {BM : BuildMode} (e : bool) : M unit :=
  if novadb_DEBUG then INVARIANT e else Ret tt.

(** * Status *)

Record Status : Set := mkStatus {
  st_errmsg : bytes;
  st_code : ErrorCodes
}.

Definition Status_ok (s : Status) : bool := bool_decide (st_code s = ERR_OK).

Definition Status_getErrStr (code : ErrorCodes) : bytes :=
  match code with
  | ERR_NAN => lit "-ERR resulting score is not a number (NaN)" ++ crlf
  | ERR_FLOAT => lit "-ERR value is not a valid float" ++ crlf
  | ERR_INTERGER => lit "-ERR value is not an integer or out of range" ++ crlf
  | ERR_PARSEOPT => lit "-ERR syntax error" ++ crlf
  | ERR_ZSLPARSERANGE => lit "-ERR min or max is not a float" ++ crlf
  | ERR_ZSLPARSELEXRANGE => lit "-ERR min or max not valid string range item" ++ crlf
  | ERR_EXTENDED_PROTOCOL => lit "-ERR invalid extended protocol input" ++ crlf
  | ERR_WRONG_TYPE => lit "-WRONGTYPE Operation against a key holding the wrong kind of value" ++ crlf
  | ERR_WRONG_ARGS_SIZE => lit "-ERR wrong number of arguments" ++ crlf
  | ERR_INVALID_HLL => lit "-INVALIDOBJ Corrupted HLL object detected" ++ crlf
  | ERR_NO_KEY => lit "-ERR no such key" ++ crlf
  | ERR_OUT_OF_RANGE => lit "-ERR index out of range" ++ crlf
  | ERR_WRONG_VERSION_EP => lit "-WRONGVERSION" ++ crlf
  | ERR_CLUSTER_REDIR_CROSS_SLOT => lit "-CROSSSLOT Keys in request don't hash to the same slot" ++ crlf
  | ERR_CLUSTER_REDIR_DOWN_STATE => lit "-CLUSTERDOWN The cluster is down" ++ crlf
  | ERR_CLUSTER_REDIR_DOWN_UNBOUND => lit "-CLUSTERDOWN Hash slot not served" ++ crlf
  | ERR_LUA_NOSCRIPT => lit "-NOSCRIPT No matching script. Please use EVAL." ++ crlf
  | ERR_BINLOG_DISABLED => lit "-ERR binlog is disabled" ++ crlf
  | ERR_MEMORY_LIMIT => lit "-ERR memory exceed client-output-buffer-limit" ++ crlf
  | _ => []
  end.

(** A read of [s[i]]; [s[s.size()]] is the terminating NUL. *)
Definition str_at (s : bytes) (i : Z) : M byte :=
  match znth (s ++ [x00]) i with
  | Some b => Ret b
  | None => Crash CUndefined
  end.

Definition Status_toString {BM : BuildMode} (s : Status) : M bytes :=
  let msg := st_errmsg s in
  if zlen msg =? 0 then Ret (Status_getErrStr (st_code s))
  else if ErrorCodes_num (st_code s) <? ErrorCodes_num ERR_AUTH then
    Ret (lit "-ERR:" ++ to_string (ErrorCodes_num (st_code s)) ++ lit ",msg:" ++ msg ++ crlf)
  else
    c0 ← str_at msg 0;
    if bool_decide (c0 = x2d) then
      c1 ← str_at msg (u64 (zlen msg - 2));
      _ ← INVARIANT_D (bool_decide (c1 = x0d));
      c2 ← str_at msg (u64 (zlen msg - 1));
      _ ← INVARIANT_D (bool_decide (c2 = x0a));
      Ret msg
    else Ret (lit "-ERR " ++ msg ++ crlf).

(** * Lemmas on the monad *)

Section Monad.
Context {BM : BuildMode}.

Lemma bind_Ret {A B} (a : A) (f : A -> M B) : (Ret a ≫= f) = f a.
Proof. done. Qed.

Lemma bind_Throw {A B} code msg (f : A -> M B) : (Throw code msg ≫= f) = Throw code msg.
Proof. done. Qed.

Lemma bind_Crash {A B} c (f : A -> M B) : (Crash c ≫= f) = Crash c.
Proof. done. Qed.

Lemma bind_Ret_inv {A B} (m : M A) (f : A -> M B) b :
  (m ≫= f) = Ret b -> exists a, m = Ret a /\ f a = Ret b.
Proof. destruct m; simpl; [eauto|done..]. Qed.

#[export] Instance Ret_inj {A} : Inj (=) (=) (@Ret A).
Proof. by intros x y [= ->]. Qed.

Lemma INVARIANT_D_true : INVARIANT_D true = Ret tt.
Proof. unfold INVARIANT_D. by destruct novadb_DEBUG. Qed.

Lemma INVARIANT_D_bind {A} (e : bool) (f : unit -> M A) : e = true -> (INVARIANT_D e ≫= f) = f tt.
Proof. intros ->. by rewrite INVARIANT_D_true. Qed.

End Monad.

(** Discharges the [INVARIANT_D] at the head of a computation with [tac]. *)
Tactic Notation "inv_d" "by" tactic3(tac) :=
  lazymatch goal with
  | |- context [INVARIANT_D ?e ≫= ?f] => rewrite (INVARIANT_D_bind e f) by tac; cbv beta
  end.

Lemma str_at_app l b k : str_at (l ++ b :: k) (zlen l) = Ret b.
Proof.
  unfold str_at. rewrite <-app_assoc, znth_app_r by lia. rewrite Z.sub_diag. done.
Qed.

Lemma str_at_app_eq l b k i : i = zlen l -> str_at (l ++ b :: k) i = Ret b.
Proof. intros ->. apply str_at_app. Qed.

(** * Properties of statuses *)

(** The reply protocol frames an error as a dash, some text and a line break. *)
Definition resp_error (r : bytes) : Prop := exists body, r = x2d :: body ++ crlf.

Lemma getErrStr_framed code : Status_getErrStr code <> [] -> resp_error (Status_getErrStr code).
Proof.
  intros H. exists (removelast (removelast (tail (Status_getErrStr code)))).
  destruct code; (vm_compute; reflexivity) || (exfalso; by apply H).
Qed.

Lemma resp_error_intro l body : resp_error (x2d :: l ++ body ++ crlf).
Proof. exists (l ++ body). by rewrite <-app_assoc. Qed.

(** The assertions on the last two characters hold of a message that ends a line. *)
Lemma toString_checks {BM : BuildMode} (body : bytes) :
  zlen (body ++ crlf) < 2 ^ 64 ->
  str_at (body ++ crlf) (u64 (zlen (body ++ crlf) - 2)) = Ret x0d /\
  str_at (body ++ crlf) (u64 (zlen (body ++ crlf) - 1)) = Ret x0a.
Proof.
  intros Hl. rewrite zlen_app in *. change (zlen crlf) with 2 in *.
  pose proof (zlen_nonneg body). rewrite !wrap_id by (unfold is_u; lia). split.
  - unfold crlf. apply str_at_app_eq. lia.
  - replace (body ++ crlf) with ((body ++ [x0d]) ++ [x0a]) by (unfold crlf; by rewrite <-app_assoc).
    apply str_at_app_eq. rewrite zlen_app. change (zlen [x0d]) with 1. lia.
Qed.

(** Every status whose text is not empty is rendered as one well-framed error reply: it
    starts with a dash and ends with a line break, provided a redis error message (code at
    least [ERR_AUTH]) that already starts with a dash also ends with a line break, as the
    code asserts. The rendering never aborts, in either build. *)
Theorem Status_toString_framed {BM : BuildMode} (s : Status) :
  zlen (st_errmsg s) < 2 ^ 64 ->
  (st_errmsg s = [] -> Status_getErrStr (st_code s) <> []) ->
  (forall rest, st_errmsg s = x2d :: rest -> exists body, st_errmsg s = body ++ crlf) ->
  exists r, Status_toString s = Ret r /\ resp_error r.
Proof.
  intros Hlen Hempty Hdash. unfold Status_toString.
  destruct s as [msg code]; cbn [st_errmsg st_code] in *.
  destruct (Z.eqb_spec (zlen msg) 0) as [E|E].
  { apply zlen_0_nil in E. eauto using getErrStr_framed. }
  destruct (_ <? _).
  { eexists; split; [done|]. do 2 rewrite (app_assoc _ _ (_ ++ crlf)).
    rewrite app_assoc. apply (resp_error_intro (lit "ERR:")). }
  destruct msg as [|c0 rest]; [done|]. change (str_at (c0 :: rest) 0) with (Ret c0).
  rewrite bind_Ret. case_bool_decide as Hc; [subst c0|].
  - destruct (Hdash rest eq_refl) as [body Hb]. rewrite Hb in *.
    destruct (toString_checks body Hlen) as [H1 H2].
    rewrite H1, bind_Ret. inv_d by done. rewrite H2, bind_Ret. inv_d by done.
    eexists; split; [done|]. destruct body as [|d body]; [done|].
    injection Hb as <- _. by exists body.
  - eexists; split; [done|]. apply (resp_error_intro (lit "ERR ")).
Qed.

Lemma Status_toString_framed_witness :
  exists r, @Status_toString true (mkStatus (lit "-MOVED 1" ++ crlf) ERR_MOVED) = Ret r
    /\ resp_error r.
Proof.
  apply Status_toString_framed; [done|done|].
  intros rest _. by exists (lit "-MOVED 1").
Defined.
