(* ===== verification/Varint.v ===== *)
(** Integer codecs (storage/varint.cpp): base-128 varints read forwards and backwards, their
    buffer and string forms, big-endian fixed-width integers, and doubles.

    A pointer into a buffer is modelled by the list of bytes it reaches; reading or writing
    beyond that list is [Crash CUndefined], and so is a shift by 64 bits or more. *)

From Stdlib Require Import Strings.Byte ZArith Lia.
From stdpp Require Import base list numbers strings.
From S2P Require Import Prelude Status.

Local Open Scope Z_scope.

(** * Encoding *)

Definition varintMaxSize (size : Z) : M Z :=
  if size =? 8 then Ret 10
  else if size =? 4 then Ret 5
  else _ ← INVARIANT false; Ret 0.

(** The loop [while (val >= 0x80)]; ten rounds are enough for a [uint64_t]
    ([varintEncode_unfold]). *)
Fixpoint varintEncode_loop (fuel : nat) (val : Z) : bytes :=
  match fuel with
  | O => []
  | S fuel' =>
      if 0x80 <=? val
      then u8 (Z.lor 0x80 (Z.land val 0x7f)) :: varintEncode_loop fuel' (Z.shiftr val 7)
      else [u8 val]
  end.

Definition varintEncode (val : Z) : bytes := varintEncode_loop 10 val.

(** A store through a pointer. *)
Definition store (buf : bytes) (i : Z) (b : byte) : M bytes :=
  if (0 <=? i) && (i <? zlen buf) then Ret (zset buf i b) else Crash CUndefined.

(** [varintEncodeBuf(buf + off, bufsize, val)]: the buffer and the number of bytes written. *)
Fixpoint varintEncodeBuf_loop (fuel : nat) (buf : bytes) (off size val : Z) : M (bytes * Z) :=
  match fuel with
  | O => Crash CUndefined
  | S fuel' =>
      if 0x80 <=? val then
        buf' ← store buf (off + size) (u8 (Z.lor 0x80 (Z.land val 0x7f)));
        varintEncodeBuf_loop fuel' buf' off (size + 1) (Z.shiftr val 7)
      else
        buf' ← store buf (off + size) (u8 val);
        Ret (buf', size + 1)
  end.

Definition varintEncodeBuf {BM : BuildMode} (buf : bytes) (off bufsize val : Z) : M (bytes * Z) :=
  '(buf', size) ← varintEncodeBuf_loop 10 buf off 0 val;
  _ ← INVARIANT_D (size <=? bufsize);
  Ret (buf', size).

Definition varintEncodeStr {BM : BuildMode} (val : Z) : M bytes :=
  '(buf, size) ← varintEncodeBuf (zfill 16 x00) 0 16 val;
  _ ← INVARIANT_D (size <? 16);
  Ret (ztake size buf).

Fixpoint varintEncodeSize_loop (fuel : nat) (size val : Z) : Z :=
  match fuel with
  | O => size
  | S fuel' => if 0x80 <=? val then varintEncodeSize_loop fuel' (size + 1) (Z.shiftr val 7) else size
  end.

Definition varintEncodeSize (val : Z) : Z := varintEncodeSize_loop 10 0 val + 1.

(** * Decoding *)

Definition decode_maxlen {A} : M A := Throw ERR_DECODE (lit "decode varint maxlen").

(** [uint64_t(b & 0x7f) << (7 * i)], undefined when the shift is 64 or more. *)
Definition varint_group (b : byte) (i : Z) : M Z :=
  if 7 * i <? 64 then Ret (u64 (Z.shiftl (Z.land (bz b) 0x7f) (7 * i))) else Crash CUndefined.

Fixpoint varintDecodeFwd_loop (input : bytes) (maxSize i ret : Z) : M (Z * Z) :=
  if i <? maxSize then
    match input with
    | [] => Crash CUndefined
    | b :: input' =>
        g ← varint_group b i;
        if negb (Z.land (bz b) 0x80 =? 0)
        then varintDecodeFwd_loop input' maxSize (i + 1) (Z.lor ret g)
        else Ret (Z.lor ret g, i + 1)
    end
  else decode_maxlen.

(** [input] is what the pointer reaches, upwards. The result is the value and the number of
    bytes read. *)
Definition varintDecodeFwd (input : bytes) (maxSize : Z) : M (Z * Z) :=
  varintDecodeFwd_loop input maxSize 0 0.

Fixpoint varintDecodeRvs_loop (input : bytes) (maxSize i ret : Z) : M (Z * Z) :=
  if i <? maxSize then
    match input with
    | [] => Crash CUndefined
    | b :: input' =>
        g ← varint_group b i;
        if negb (Z.land (bz b) 0x80 =? 0)
        then varintDecodeRvs_loop input' maxSize (i + 1) (Z.lor ret g)
        else Ret (Z.lor ret g, i + 1)
    end
  else decode_maxlen.

(** The same, for a pointer that moves down: [input] lists the bytes at [p], [p - 1], ... *)
Definition varintDecodeRvs (input : bytes) (maxSize : Z) : M (Z * Z) :=
  varintDecodeRvs_loop input maxSize 0 0.

(** * Fixed-width integers *)

(** The [n] low bytes of a word, most significant first: [htobe] and [memcpy] of the source,
    and its loops over [(v >> ((sizeof(v) - i - 1) * 8)) & 0xff]. *)
Fixpoint be_bytes (n : nat) (v : Z) : bytes :=
  match n with
  | O => []
  | S n' => u8 (Z.land (Z.shiftr v (8 * Z.of_nat n')) 0xff) :: be_bytes n' v
  end.

(** The word most significant byte first. *)
Definition be_value (l : bytes) : Z := fold_left (fun acc b => Z.lor (Z.shiftl acc 8) (bz b)) l 0.

(** The [n] bytes at a pointer. *)
Definition read_n (input : bytes) (n : Z) : M bytes :=
  if (0 <=? n) && (n <=? zlen input) then Ret (ztake n input) else Crash CUndefined.

Definition int16Encode (input : Z) : bytes := be_bytes 2 input.
Definition int32Encode (input : Z) : bytes := be_bytes 4 input.
Definition int64Encode (input : Z) : bytes := be_bytes 8 input.

Definition int16Decode (input : bytes) : M Z := l ← read_n input 2; Ret (be_value l).
Definition int32Decode (input : bytes) : M Z := l ← read_n input 4; Ret (be_value l).
Definition int64Decode (input : bytes) : M Z := l ← read_n input 8; Ret (be_value l).

(** * Doubles *)

(** A [double] is its 64-bit pattern; the code copies its bytes in memory order, the least
    significant first. *)
Fixpoint le_bytes (n : nat) (v : Z) : bytes :=
  match n with
  | O => []
  | S n' => u8 v :: le_bytes n' (Z.shiftr v 8)
  end.

Fixpoint le_value (l : bytes) : Z :=
  match l with
  | [] => 0
  | b :: l' => Z.lor (bz b) (Z.shiftl (le_value l') 8)
  end.

Definition doubleEncode (val : Z) : bytes := le_bytes 8 val.

Definition doubleDecode (input : bytes) (maxSize : Z) : M Z :=
  if maxSize <? 8 then Throw ERR_DECODE (lit "decode double maxlen")
  else l ← read_n input 8; Ret (le_value l).

(** * Arithmetic of seven-bit groups *)

Lemma split7 v : Z.lor (Z.land v 0x7f) (Z.shiftl (Z.shiftr v 7) 7) = v.
Proof.
  apply Z.bits_inj'. intros n Hn. rewrite Z.lor_spec, Z.land_spec, Z.shiftl_spec by lia.
  change 0x7f with (Z.ones 7). rewrite Z.testbit_ones_nonneg by lia.
  destruct (Z.ltb_spec n 7).
  - rewrite (Z.testbit_neg_r _ (n - 7)) by lia. by rewrite andb_true_r, orb_false_r.
  - rewrite Z.shiftr_spec by lia. rewrite andb_false_r. simpl. f_equal. lia.
Qed.

Lemma land127 v : Z.land v 0x7f = v mod 128.
Proof. change 0x7f with (Z.ones 7). by rewrite Z.land_ones. Qed.

Lemma land127_range v : 0 <= Z.land v 0x7f < 128.
Proof. rewrite land127. by apply Z.mod_pos_bound. Qed.

Lemma lor128 x : 0 <= x < 128 -> Z.lor 0x80 x = 128 + x.
Proof.
  intros H. symmetry. rewrite Z.add_nocarry_lxor, Z.lxor_lor; [done|..].
  all: apply Z.bits_inj'; intros n Hn; rewrite Z.land_spec, Z.bits_0;
    change 0x80 with (2 ^ 7); rewrite Z.pow2_bits_eqb by lia;
    destruct (Z.eqb_spec 7 n) as [<-|]; [|done]; rewrite andb_true_l;
    apply Z.bits_above_log2; [lia|];
    destruct (Z.eq_dec x 0) as [->|]; [done|]; apply Z.log2_lt_pow2; lia.
Qed.

Lemma shiftr7_range v w : 7 <= w -> is_u w v -> is_u (w - 7) (Z.shiftr v 7).
Proof.
  intros Hw [H1 H2]. rewrite Z.shiftr_div_pow2 by lia. split.
  - by apply Z.div_pos.
  - apply Z.div_lt_upper_bound; [done|]. rewrite <-Z.pow_add_r by lia.
    by replace (7 + (w - 7)) with w by lia.
Qed.

(** The byte the encoder emits while more groups follow, and the last one. *)
Definition cont_byte (v : Z) : byte := u8 (Z.lor 0x80 (Z.land v 0x7f)).

Lemma bz_cont_byte v : bz (cont_byte v) = 128 + v mod 128.
Proof.
  pose proof (land127_range v). unfold cont_byte.
  rewrite lor128, <-land127 by done. apply bz_u8_small. lia.
Qed.

Lemma cont_byte_more v : negb (Z.land (bz (cont_byte v)) 0x80 =? 0) = true.
Proof.
  rewrite bz_cont_byte. pose proof (Z.mod_pos_bound v 128 eq_refl).
  rewrite <-lor128 by done. rewrite Z.land_lor_distr_l. apply negb_true_iff, Z.eqb_neq.
  intros E. apply Z.lor_eq_0_l in E. done.
Qed.

Lemma cont_byte_low v : Z.land (bz (cont_byte v)) 0x7f = Z.land v 0x7f.
Proof.
  rewrite bz_cont_byte, !land127. rewrite <-(Z.mul_1_l 128) at 1.
  rewrite Z.add_comm, Z.mod_add by lia. apply Zmod_mod.
Qed.

Lemma last_byte_stop v : 0 <= v < 128 -> negb (Z.land (bz (u8 v)) 0x80 =? 0) = false.
Proof.
  intros H. rewrite bz_u8_small by lia. apply negb_false_iff, Z.eqb_eq.
  apply Z.bits_inj'. intros n Hn. rewrite Z.land_spec, Z.bits_0.
  change 0x80 with (2 ^ 7). rewrite Z.pow2_bits_eqb by lia.
  destruct (Z.eqb_spec 7 n) as [<-|]; [|by rewrite andb_false_r].
  rewrite andb_true_r. apply Z.bits_above_log2; [lia|].
  destruct (Z.eq_dec v 0) as [->|]; [done|]. apply Z.log2_lt_pow2; lia.
Qed.

Lemma last_byte_low v : 0 <= v < 128 -> Z.land (bz (u8 v)) 0x7f = v.
Proof. intros H. rewrite bz_u8_small, land127 by lia. by apply Z.mod_small. Qed.

(** * The encoder *)

Lemma varintEncode_fuel n m v :
  (1 <= n <= m)%nat -> is_u (7 * Z.of_nat n) v -> varintEncode_loop m v = varintEncode_loop n v.
Proof.
  revert n v. induction m as [|m IH]; intros n v Hn Hv; [lia|].
  destruct n as [|n]; [lia|]. simpl. destruct (Z.leb_spec 0x80 v); [|done].
  f_equal. destruct n as [|n].
  - unfold is_u in Hv. change (7 * Z.of_nat 1) with 7 in Hv. lia.
  - apply IH; [lia|]. replace (7 * Z.of_nat (S n)) with (7 * Z.of_nat (S (S n)) - 7) by lia.
    apply shiftr7_range; [lia|done].
Qed.

(** The loop's own equation, for every 64-bit value: the fuel is enough. *)
Lemma varintEncode_unfold v :
  is_u64 v ->
  varintEncode v = if 0x80 <=? v then cont_byte v :: varintEncode (Z.shiftr v 7) else [u8 v].
Proof.
  intros Hv. unfold varintEncode. change (varintEncode_loop 10 v) with
    (if 0x80 <=? v then cont_byte v :: varintEncode_loop 9 (Z.shiftr v 7) else [u8 v]).
  destruct (0x80 <=? v); [|done]. f_equal. symmetry. apply varintEncode_fuel; [lia|].
  apply (shiftr7_range v 64) in Hv; [|lia]. eapply is_u_le; [|done]. lia.
Qed.

(** Induction along the loop. *)
Lemma varint_ind (P : Z -> Prop) :
  (forall v, 0 <= v < 128 -> P v) ->
  (forall v, is_u64 v -> 128 <= v -> P (Z.shiftr v 7) -> P v) ->
  forall v, is_u64 v -> P v.
Proof.
  intros Hlast Hmore v Hv. assert (0 <= v) as H0 by apply Hv. revert v H0 Hv.
  apply (Z_lt_induction (fun v => is_u64 v -> P v)). intros v IH Hv.
  destruct (Z.ltb_spec v 128); [apply Hlast; split; [apply Hv|done]|].
  assert (0 <= Z.shiftr v 7 < v).
  { rewrite Z.shiftr_div_pow2 by lia. split; [apply Z.div_pos|apply Z.div_lt]; lia. }
  apply Hmore; [done..|]. apply IH; [done|]. unfold is_u in *. lia.
Qed.

Lemma varintEncode_last v : 0 <= v < 128 -> varintEncode v = [u8 v].
Proof.
  intros H. rewrite varintEncode_unfold by (unfold is_u; lia).
  destruct (Z.leb_spec 0x80 v); [lia|done].
Qed.

Lemma varintEncode_more v :
  is_u64 v -> 128 <= v -> varintEncode v = cont_byte v :: varintEncode (Z.shiftr v 7).
Proof.
  intros H H'. rewrite varintEncode_unfold by done. destruct (Z.leb_spec 0x80 v); [done|lia].
Qed.

Lemma varintEncode_len_loop n v :
  is_u (7 * Z.of_nat n) v -> (1 <= n)%nat -> 1 <= zlen (varintEncode_loop n v) <= Z.of_nat n.
Proof.
  revert v. induction n as [|n IH]; intros v Hv Hn; [lia|]. simpl.
  destruct (Z.leb_spec 0x80 v); [|change (zlen [u8 v]) with 1; lia].
  rewrite zlen_cons. destruct n as [|n].
  - unfold is_u in Hv. change (7 * Z.of_nat 1) with 7 in Hv. lia.
  - enough (1 <= zlen (varintEncode_loop (S n) (Z.shiftr v 7)) <= Z.of_nat (S n)) by lia.
    apply IH; [|lia]. replace (7 * Z.of_nat (S n)) with (7 * Z.of_nat (S (S n)) - 7) by lia.
    apply shiftr7_range; [lia|done].
Qed.

Lemma varintEncode_len v : is_u64 v -> 1 <= zlen (varintEncode v) <= 10.
Proof.
  intros H. apply (varintEncode_len_loop 10); [|lia]. eapply is_u_le; [|done]. lia.
Qed.

(** Induction along the loop with its fuel. *)
Lemma varint_loop_ind (P : nat -> Z -> Prop) :
  (forall n v, 0 <= v < 128 -> P (S n) v) ->
  (forall n v, 128 <= v -> is_u (7 * Z.of_nat (S n)) (Z.shiftr v 7) -> P (S n) (Z.shiftr v 7) ->
    P (S (S n)) v) ->
  forall n v, is_u (7 * Z.of_nat (S n)) v -> P (S n) v.
Proof.
  intros Hlast Hmore n. induction n as [|n IH]; intros v Hv.
  - apply Hlast. exact Hv.
  - destruct (Z.ltb_spec v 128); [apply Hlast; split; [apply Hv|done]|].
    assert (is_u (7 * Z.of_nat (S n)) (Z.shiftr v 7)).
    { replace (7 * Z.of_nat (S n)) with (7 * Z.of_nat (S (S n)) - 7) by lia.
      apply shiftr7_range; [lia|done]. }
    auto.
Qed.

Lemma varint_loop_last n v : 0 <= v < 128 -> varintEncode_loop (S n) v = [u8 v].
Proof. intros. simpl. destruct (Z.leb_spec 0x80 v); [lia|done]. Qed.

Lemma varint_loop_more n v :
  128 <= v -> varintEncode_loop (S n) v = cont_byte v :: varintEncode_loop n (Z.shiftr v 7).
Proof. intros. simpl. destruct (Z.leb_spec 0x80 v); [done|lia]. Qed.

Lemma is_u64_fuel v : is_u64 v -> is_u (7 * Z.of_nat 10) v.
Proof. apply is_u_le. lia. Qed.

Lemma varintEncodeSize_spec v : is_u64 v -> varintEncodeSize v = zlen (varintEncode v).
Proof.
  intros Hv. apply is_u64_fuel in Hv. unfold varintEncodeSize, varintEncode.
  rewrite <-(Z.add_0_l (zlen _)). generalize 0 as k. revert v Hv.
  apply (varint_loop_ind (fun n v => forall k,
    varintEncodeSize_loop n k v + 1 = k + zlen (varintEncode_loop n v))).
  - intros n v Hv k. rewrite varint_loop_last by done. simpl.
    destruct (Z.leb_spec 0x80 v); [lia|done].
  - intros n v Hv _ IH k. rewrite varint_loop_more by done.
    rewrite zlen_cons. specialize (IH (k + 1)). rewrite Z.add_assoc, <-IH. simpl.
    destruct (Z.leb_spec 0x80 v); [done|lia].
Qed.

(** ** Writing through a pointer *)

Lemma store_app pre b0 post b : store (pre ++ b0 :: post) (zlen pre) b = Ret (pre ++ b :: post).
Proof.
  unfold store. rewrite zset_app_here. rewrite zlen_app, zlen_cons.
  pose proof (zlen_nonneg pre). pose proof (zlen_nonneg post).
  destruct (Z.leb_spec 0 (zlen pre)), (Z.ltb_spec (zlen pre) (zlen pre + (1 + zlen post))); done || lia.
Qed.

Lemma varintEncodeBuf_loop_spec n v :
  is_u (7 * Z.of_nat (S n)) v ->
  forall pre mid post off size,
    zlen pre = off + size -> zlen mid = zlen (varintEncode_loop (S n) v) ->
    varintEncodeBuf_loop (S n) (pre ++ mid ++ post) off size v
    = Ret (pre ++ varintEncode_loop (S n) v ++ post, size + zlen (varintEncode_loop (S n) v)).
Proof.
  revert n v. apply (varint_loop_ind (fun n v => forall pre mid post off size, _ -> _ ->
    varintEncodeBuf_loop n (pre ++ mid ++ post) off size v
    = Ret (pre ++ varintEncode_loop n v ++ post, size + zlen (varintEncode_loop n v)))).
  - intros n v Hv pre mid post off size Hpre. rewrite varint_loop_last by done.
    intros Hmid. destruct mid as [|b0 mid]; [done|].
    rewrite zlen_cons in Hmid. change (zlen [u8 v]) with 1 in *.
    rewrite (zlen_0_nil mid) by (pose proof (zlen_nonneg mid); lia). cbn.
    destruct (Z.leb_spec 0x80 v); [lia|]. by rewrite <-Hpre, store_app.
  - intros n v Hv _ IH pre mid post off size Hpre. rewrite varint_loop_more by done.
    rewrite zlen_cons. pose proof (zlen_nonneg (varintEncode_loop (S n) (Z.shiftr v 7))).
    intros Hmid. destruct mid as [|b0 mid]; [rewrite zlen_nil in Hmid; lia|].
    rewrite zlen_cons in Hmid.
    change (varintEncodeBuf_loop (S (S n)) ?b off size v) with
      (if 0x80 <=? v then
         buf' ← store b (off + size) (cont_byte v);
         varintEncodeBuf_loop (S n) buf' off (size + 1) (Z.shiftr v 7)
       else buf' ← store b (off + size) (u8 v); Ret (buf', size + 1)).
    destruct (Z.leb_spec 0x80 v); [|lia]. rewrite <-Hpre. simpl app. rewrite store_app, bind_Ret.
    replace (pre ++ cont_byte v :: mid ++ post) with ((pre ++ [cont_byte v]) ++ mid ++ post)
      by (by rewrite <-app_assoc).
    rewrite IH; [|rewrite zlen_app; change (zlen [_]) with 1; lia|lia].
    rewrite <-!app_assoc. f_equal. f_equal. lia.
Qed.

(** Inside a buffer that has room, the varint replaces as many bytes at the offset. *)
Lemma varintEncodeBuf_spec {BM : BuildMode} pre mid post off bufsize v :
  is_u64 v -> zlen pre = off -> zlen mid = zlen (varintEncode v) -> zlen mid <= bufsize ->
  varintEncodeBuf (pre ++ mid ++ post) off bufsize v
  = Ret (pre ++ varintEncode v ++ post, zlen (varintEncode v)).
Proof.
  intros Hv Hpre Hmid Hsz. apply is_u64_fuel in Hv. unfold varintEncodeBuf.
  rewrite varintEncodeBuf_loop_spec by (done || lia). rewrite bind_Ret.
  change (varintEncode_loop 10 v) with (varintEncode v). rewrite Z.add_0_l.
  inv_d by (apply Z.leb_le; lia). done.
Qed.

Lemma zfill_split {A} n m (x : A) : 0 <= n -> 0 <= m -> zfill (n + m) x = zfill n x ++ zfill m x.
Proof. intros. unfold zfill. by rewrite Z2Nat.inj_add, replicate_add. Qed.

Lemma varintEncodeStr_spec {BM : BuildMode} v : is_u64 v -> varintEncodeStr v = Ret (varintEncode v).
Proof.
  intros Hv. pose proof (varintEncode_len v Hv) as Hl. unfold varintEncodeStr.
  replace 16 with (zlen (varintEncode v) + (16 - zlen (varintEncode v))) at 1 by lia.
  rewrite zfill_split by lia.
  pose proof (varintEncodeBuf_spec [] (zfill (zlen (varintEncode v)) x00)
    (zfill (16 - zlen (varintEncode v)) x00) 0 16 v) as E. cbn [app] in E.
  rewrite E; [|done|done|by rewrite zlen_fill by lia|rewrite zlen_fill; lia].
  rewrite bind_Ret. inv_d by (apply Z.ltb_lt; lia). by rewrite ztake_app.
Qed.

(** A buffer of [size] bytes of which the first [offset] are written. *)
Definition filled (size : Z) (l : bytes) : bytes := l ++ zfill (size - zlen l) x00.

(** Appending a varint to a partly filled buffer with room for any varint. *)
Lemma varintEncodeBuf_filled {BM : BuildMode} size l off v :
  is_u64 v -> off = zlen l -> zlen l + 10 <= size ->
  varintEncodeBuf (filled size l) off (size - off) v
  = Ret (filled size (l ++ varintEncode v), zlen (varintEncode v)).
Proof.
  intros Hv -> Hs. pose proof (varintEncode_len v Hv). unfold filled.
  replace (size - zlen l) with (zlen (varintEncode v) + (size - zlen (l ++ varintEncode v))) at 1
    by (rewrite zlen_app; lia).
  rewrite zfill_split by (rewrite ?zlen_app; lia).
  rewrite varintEncodeBuf_spec; [|done|done|by rewrite zlen_fill by lia|rewrite zlen_fill; lia].
  by rewrite app_assoc.
Qed.

(** * The decoders *)

Lemma varint_group_id b i v :
  7 * i < 64 -> Z.land (bz b) 0x7f = v -> is_u64 (Z.shiftl v (7 * i)) ->
  varint_group b i = Ret (Z.shiftl v (7 * i)).
Proof.
  intros Hi Hb Hv. unfold varint_group. rewrite Hb, wrap_id by done.
  destruct (Z.ltb_spec (7 * i) 64); [done|lia].
Qed.

Lemma shiftl_lor_group v i :
  0 <= i ->
  Z.lor (Z.shiftl (Z.land v 0x7f) (7 * i)) (Z.shiftl (Z.shiftr v 7) (7 * (i + 1)))
  = Z.shiftl v (7 * i).
Proof.
  intros Hi. replace (7 * (i + 1)) with (7 + 7 * i) by lia.
  rewrite <-Z.shiftl_shiftl, <-Z.shiftl_lor by lia. by rewrite split7.
Qed.

Lemma is_u_shiftl_sub v w i :
  0 <= i -> 0 <= w <= v -> is_u64 (Z.shiftl v i) -> is_u64 (Z.shiftl w i).
Proof.
  intros Hi Hw. unfold is_u. rewrite !Z.shiftl_mul_pow2 by done.
  pose proof (Z.pow_pos_nonneg 2 i). nia.
Qed.

Lemma shiftr_shiftl_le v i :
  0 <= v -> 0 <= i -> is_u64 (Z.shiftl v (7 * i)) -> is_u64 (Z.shiftl (Z.shiftr v 7) (7 * (i + 1))).
Proof.
  intros Hv Hi. replace (7 * (i + 1)) with (7 + 7 * i) by lia.
  rewrite <-Z.shiftl_shiftl by lia. apply is_u_shiftl_sub; [lia|].
  rewrite Z.shiftr_div_pow2, Z.shiftl_mul_pow2 by lia. split.
  - apply Z.mul_nonneg_nonneg; [apply Z.div_pos|]; lia.
  - rewrite Z.mul_comm. apply Z.mul_div_le. lia.
Qed.

Lemma group_shift_small v i :
  0 <= i -> 1 <= v -> is_u64 (Z.shiftl v (7 * i)) -> 7 * i < 64.
Proof.
  intros Hi Hv [_ H]. rewrite Z.shiftl_mul_pow2 in H by lia.
  apply (Z.pow_lt_mono_r_iff 2); [lia..|]. nia.
Qed.

(** The forward loop on an encoded value, at any round. *)
Lemma varintDecodeFwd_loop_spec n v :
  is_u (7 * Z.of_nat (S n)) v ->
  forall rest maxSize i ret,
    0 <= i -> 7 * i < 64 -> is_u64 (Z.shiftl v (7 * i)) ->
    i + zlen (varintEncode_loop (S n) v) <= maxSize ->
    varintDecodeFwd_loop (varintEncode_loop (S n) v ++ rest) maxSize i ret
    = Ret (Z.lor ret (Z.shiftl v (7 * i)), i + zlen (varintEncode_loop (S n) v)).
Proof.
  revert n v. apply (varint_loop_ind (fun n v => forall rest maxSize i ret, _ -> _ -> _ -> _ ->
    varintDecodeFwd_loop (varintEncode_loop n v ++ rest) maxSize i ret
    = Ret (Z.lor ret (Z.shiftl v (7 * i)), i + zlen (varintEncode_loop n v)))).
  - intros n v Hv rest maxSize i ret Hi Hi' Hs. rewrite varint_loop_last by done.
    change (zlen [u8 v]) with 1. intros Hm. cbn [app varintDecodeFwd_loop].
    destruct (Z.ltb_spec i maxSize); [|lia].
    rewrite (varint_group_id _ _ v) by (done || by apply last_byte_low).
    by rewrite bind_Ret, last_byte_stop.
  - intros n v Hv _ IH rest maxSize i ret Hi Hi' Hs. rewrite varint_loop_more by done.
    rewrite zlen_cons. intros Hm. cbn [app varintDecodeFwd_loop].
    pose proof (zlen_nonneg (varintEncode_loop (S n) (Z.shiftr v 7))).
    destruct (Z.ltb_spec i maxSize); [|lia].
    rewrite (varint_group_id _ _ (Z.land v 0x7f)); [|done|apply cont_byte_low|].
    2: { apply (is_u_shiftl_sub v); [lia| |done]. rewrite land127.
         pose proof (Z.mod_le v 128). pose proof (Z.mod_pos_bound v 128). lia. }
    rewrite bind_Ret, cont_byte_more.
    assert (is_u64 (Z.shiftl (Z.shiftr v 7) (7 * (i + 1)))) by (apply shiftr_shiftl_le; [lia..|done]).
    assert (1 <= Z.shiftr v 7).
    { rewrite Z.shiftr_div_pow2 by lia. apply Z.div_le_lower_bound; lia. }
    rewrite IH; [|lia|by eapply group_shift_small; [lia|..]|done|lia].
    rewrite <-Z.lor_assoc, shiftl_lor_group by done. f_equal. f_equal. lia.
Qed.

Lemma varintDecodeRvs_Fwd input maxSize i ret :
  varintDecodeRvs_loop input maxSize i ret = varintDecodeFwd_loop input maxSize i ret.
Proof.
  revert i ret. induction input as [|b input IH]; intros i ret; simpl; [done|].
  destruct (_ <? _); [|done]. destruct (varint_group b i); [|done..].
  rewrite !bind_Ret. by rewrite IH.
Qed.

Lemma varintDecodeFwd_encode v rest maxSize :
  is_u64 v -> zlen (varintEncode v) <= maxSize ->
  varintDecodeFwd (varintEncode v ++ rest) maxSize = Ret (v, zlen (varintEncode v)).
Proof.
  intros Hv Hm. unfold varintDecodeFwd.
  change (varintEncode v) with (varintEncode_loop 10 v) in *.
  rewrite (varintDecodeFwd_loop_spec 9); [|by apply is_u64_fuel|lia|lia|by rewrite Z.shiftl_0_r|done].
  by rewrite Z.shiftl_0_r, Z.lor_0_l, Z.add_0_l.
Qed.

Lemma varintDecodeRvs_encode v rest maxSize :
  is_u64 v -> zlen (varintEncode v) <= maxSize ->
  varintDecodeRvs (varintEncode v ++ rest) maxSize = Ret (v, zlen (varintEncode v)).
Proof.
  intros. unfold varintDecodeRvs. rewrite varintDecodeRvs_Fwd. by apply varintDecodeFwd_encode.
Qed.

(** ** Decoding arbitrary input *)

(** The continuation bit of a byte. *)
Definition cont (b : byte) : Prop := Z.land (bz b) 0x80 <> 0.

Lemma varint_group_inv b i g :
  0 <= i -> varint_group b i = Ret g -> is_u64 g /\ 7 * i < 64.
Proof.
  unfold varint_group. destruct (Z.ltb_spec (7 * i) 64); [|done].
  intros _ [= <-]. split; [by apply wrap_is_u|done].
Qed.

Lemma varintDecodeFwd_loop_bounds input maxSize i ret v n :
  0 <= i -> is_u64 ret -> varintDecodeFwd_loop input maxSize i ret = Ret (v, n) ->
  is_u64 v /\ i < n <= maxSize /\ n <= 10 /\ n - i <= zlen input.
Proof.
  revert i ret. induction input as [|b input IH]; intros i ret Hi Hr; simpl.
  { by destruct (_ <? _). }
  destruct (Z.ltb_spec i maxSize); [|done]. rewrite zlen_cons.
  destruct (varint_group b i) as [g| |] eqn:Eg; [|done..]. rewrite bind_Ret.
  apply varint_group_inv in Eg as [Hg Hi']; [|done].
  assert (is_u64 (Z.lor ret g)) by (by apply is_u_lor).
  destruct (negb _).
  - intros E. apply IH in E; [|lia|done]. unfold is_u in *. lia.
  - intros [= <- <-]. pose proof (zlen_nonneg input). split; [done|lia].
Qed.

(** A successful decode yields a 64-bit value, reads at least one byte and at most ten, and
    never more than it was allowed or given. *)
Lemma varintDecodeFwd_bounds input maxSize v n :
  varintDecodeFwd input maxSize = Ret (v, n) ->
  is_u64 v /\ 1 <= n <= maxSize /\ n <= 10 /\ n <= zlen input.
Proof. intros E. apply varintDecodeFwd_loop_bounds in E; [unfold is_u in *; lia|done..]. Qed.

Lemma varintDecodeFwd_loop_crash input maxSize i ret :
  0 <= i <= 10 -> maxSize - i <= zlen input ->
  varintDecodeFwd_loop input maxSize i ret = Crash CUndefined <->
  10 < maxSize /\ Forall cont (ztake (10 - i) input).
Proof.
  revert i ret. induction input as [|b input IH]; intros i ret Hi Hlen; simpl.
  - rewrite zlen_nil in Hlen. destruct (Z.ltb_spec i maxSize); [lia|].
    split; [done|lia].
  - rewrite zlen_cons in Hlen. destruct (Z.ltb_spec i maxSize); [|split; [done|lia]].
    unfold varint_group. destruct (Z.ltb_spec (7 * i) 64); cycle 1.
    + destruct (Z.leb_spec (10 - i) 0); [|lia]. split; [|done]. intros _. split; [lia|done].
    + rewrite bind_Ret. destruct (Z.leb_spec (10 - i) 0); [lia|].
      rewrite Forall_cons. unfold cont at 1.
      destruct (Z.eqb_spec (Z.land (bz b) 0x80) 0) as [E|E]; simpl negb; cbn iota.
      * split; [done|]. by intros (_ & ? & _).
      * rewrite IH by lia. replace (10 - (i + 1)) with (10 - i - 1) by lia. tauto.
Qed.

(** * Fixed-width codecs *)

Lemma length_be_bytes n v : length (be_bytes n v) = n.
Proof. induction n; simpl; congruence. Qed.

Lemma zlen_be_bytes n v : zlen (be_bytes n v) = Z.of_nat n.
Proof. unfold zlen. by rewrite length_be_bytes. Qed.

Lemma be_bytes_cons n v :
  be_bytes (S n) v = u8 (v / 2 ^ (8 * Z.of_nat n)) :: be_bytes n v.
Proof.
  simpl. f_equal. rewrite Z.shiftr_div_pow2 by lia. change 0xff with (Z.ones 8).
  rewrite Z.land_ones by lia. apply (inj bz). rewrite !bz_u8. apply Zmod_mod.
Qed.

Lemma pow2_byte n : 2 ^ (8 * Z.of_nat (S n)) = 256 * 2 ^ (8 * Z.of_nat n).
Proof. replace (8 * Z.of_nat (S n)) with (8 + 8 * Z.of_nat n) by lia. by rewrite Z.pow_add_r by lia. Qed.

Lemma pow2_pos n : 0 < 2 ^ (8 * Z.of_nat n).
Proof. apply Z.pow_pos_nonneg; lia. Qed.

Lemma div_mod_mul v p q : 0 < p -> 0 < q -> (v mod (p * q)) / p = (v / p) mod q.
Proof.
  intros. rewrite Z.rem_mul_r, Z.add_comm, Z.mul_comm, Z.div_add_l by lia.
  rewrite (Z.div_small (v mod p)) by (by apply Z.mod_pos_bound). lia.
Qed.

Lemma be_bytes_mod n v : be_bytes n (v mod 2 ^ (8 * Z.of_nat n)) = be_bytes n v.
Proof.
  enough (forall m, (n <= m)%nat -> be_bytes n (v mod 2 ^ (8 * Z.of_nat m)) = be_bytes n v) by auto.
  induction n as [|n IH]; intros m Hm; [done|].
  rewrite !be_bytes_cons, IH by lia. f_equal. apply (inj bz). rewrite !bz_u8.
  pose proof (pow2_pos n).
  replace (8 * Z.of_nat m) with (8 * Z.of_nat n + (8 + 8 * (Z.of_nat m - Z.of_nat (S n)))) by lia.
  rewrite (Z.pow_add_r 2 (8 * Z.of_nat n)) by lia.
  rewrite div_mod_mul by (apply Z.pow_pos_nonneg; lia).
  apply Z.mod_mod_divide. rewrite Z.pow_add_r by lia. apply Z.divide_factor_l.
Qed.

Lemma be_value_acc l acc :
  fold_left (fun acc b => Z.lor (Z.shiftl acc 8) (bz b)) l acc
  = acc * 2 ^ (8 * zlen l) + be_value l.
Proof.
  unfold be_value. revert acc. induction l as [|b l IH]; intros acc; cbn [fold_left].
  { change (acc = acc * 1 + 0). lia. }
  rewrite Z.shiftl_0_l, Z.lor_0_l, IH, (IH (bz b)), zlen_cons.
  rewrite lor_shiftl_add by (try lia; apply bz_range).
  replace (8 * (1 + zlen l)) with (8 + 8 * zlen l) by lia.
  rewrite Z.pow_add_r by (pose proof (zlen_nonneg l); lia). lia.
Qed.

Lemma be_value_cons b l : be_value (b :: l) = bz b * 2 ^ (8 * zlen l) + be_value l.
Proof.
  unfold be_value at 1. cbn [fold_left]. rewrite Z.shiftl_0_l, Z.lor_0_l. apply be_value_acc.
Qed.

Lemma be_value_bytes n v : be_value (be_bytes n v) = v mod 2 ^ (8 * Z.of_nat n).
Proof.
  induction n as [|n IH]; [by rewrite Z.mod_1_r|].
  rewrite be_bytes_cons, be_value_cons, zlen_be_bytes, IH, bz_u8, pow2_byte.
  rewrite (Z.mul_comm 256), Z.rem_mul_r by (pose proof (pow2_pos n); lia). lia.
Qed.

Lemma be_value_range l : 0 <= be_value l < 2 ^ (8 * zlen l).
Proof.
  induction l as [|b l IH]; [done|]. rewrite be_value_cons, zlen_cons.
  replace (8 * (1 + zlen l)) with (8 + 8 * zlen l) by lia.
  rewrite Z.pow_add_r by (pose proof (zlen_nonneg l); lia).
  pose proof (bz_range b). nia.
Qed.

Lemma be_bytes_value l : be_bytes (length l) (be_value l) = l.
Proof.
  induction l as [|b l IH]; [done|]. simpl length. rewrite be_bytes_cons, be_value_cons.
  pose proof (be_value_range l) as Hr. unfold zlen in *. f_equal.
  - rewrite Z.div_add_l, Z.div_small by (pose proof (pow2_pos (length l)); lia).
    rewrite Z.add_0_r. apply u8_bz.
  - rewrite <-be_bytes_mod, Z.add_comm, Z.mod_add, be_bytes_mod; [done|].
    pose proof (pow2_pos (length l)). lia.
Qed.

Lemma read_n_app l k n : n = zlen l -> read_n (l ++ k) n = Ret l.
Proof.
  intros ->. unfold read_n. rewrite ztake_app, zlen_app.
  pose proof (zlen_nonneg l). pose proof (zlen_nonneg k).
  destruct (Z.leb_spec 0 (zlen l)), (Z.leb_spec (zlen l) (zlen l + zlen k)); done || lia.
Qed.

Lemma read_n_be n v rest : read_n (be_bytes n v ++ rest) (Z.of_nat n) = Ret (be_bytes n v).
Proof. apply read_n_app. by rewrite zlen_be_bytes. Qed.

Lemma int16_roundtrip v rest : is_u16 v -> int16Decode (int16Encode v ++ rest) = Ret v.
Proof.
  intros H. unfold int16Decode, int16Encode. rewrite (read_n_be 2), bind_Ret, be_value_bytes.
  by rewrite Z.mod_small.
Qed.

Lemma int32_roundtrip v rest : is_u32 v -> int32Decode (int32Encode v ++ rest) = Ret v.
Proof.
  intros H. unfold int32Decode, int32Encode. rewrite (read_n_be 4), bind_Ret, be_value_bytes.
  by rewrite Z.mod_small.
Qed.

Lemma int64_roundtrip v rest : is_u64 v -> int64Decode (int64Encode v ++ rest) = Ret v.
Proof.
  intros H. unfold int64Decode, int64Encode. rewrite (read_n_be 8), bind_Ret, be_value_bytes.
  by rewrite Z.mod_small.
Qed.

(** ** The order of big-endian integers *)

Lemma be_compare_mod n a b :
  bytes_compare (be_bytes n a) (be_bytes n b)
  = (a mod 2 ^ (8 * Z.of_nat n) ?= b mod 2 ^ (8 * Z.of_nat n)).
Proof.
  induction n as [|n IH]; [by rewrite !Z.mod_1_r|].
  rewrite !be_bytes_cons. simpl bytes_compare. rewrite IH, !bz_u8, pow2_byte, (Z.mul_comm 256).
  pose proof (pow2_pos n) as Hp. set (p := 2 ^ (8 * Z.of_nat n)) in *.
  rewrite !(Z.rem_mul_r _ p 256) by lia.
  pose proof (Z.mod_pos_bound a p Hp). pose proof (Z.mod_pos_bound b p Hp).
  set (qa := (a / p) mod 256). set (qb := (b / p) mod 256).
  destruct (Z.compare_spec qa qb) as [E|E|E]; symmetry.
  - rewrite E. destruct (Z.compare_spec (a mod p) (b mod p)) as [E'|E'|E'].
    + rewrite E'. apply Z.compare_refl.
    + apply Z.compare_lt_iff. lia.
    + apply Z.compare_gt_iff. lia.
  - apply Z.compare_lt_iff. nia.
  - apply Z.compare_gt_iff. nia.
Qed.

Lemma be_compare n a b :
  is_u (8 * Z.of_nat n) a -> is_u (8 * Z.of_nat n) b ->
  bytes_compare (be_bytes n a) (be_bytes n b) = (a ?= b).
Proof. intros Ha Hb. by rewrite be_compare_mod, !Z.mod_small. Qed.

Lemma be_bytes_inj n a b :
  is_u (8 * Z.of_nat n) a -> is_u (8 * Z.of_nat n) b -> be_bytes n a = be_bytes n b -> a = b.
Proof.
  intros Ha Hb E. apply Z.compare_eq. rewrite <-(be_compare n) by done.
  by apply bytes_compare_eq.
Qed.

(** ** Doubles *)

Lemma length_le_bytes n v : length (le_bytes n v) = n.
Proof. revert v. induction n; intros; simpl; [done|]. by f_equal. Qed.

Lemma le_value_bytes n v : le_value (le_bytes n v) = v mod 2 ^ (8 * Z.of_nat n).
Proof.
  revert v. induction n as [|n IH]; intros v; [by rewrite Z.mod_1_r|].
  simpl le_bytes. simpl le_value. rewrite IH, Z.lor_comm, lor_shiftl_add, bz_u8 by
    (try lia; apply bz_range).
  rewrite pow2_byte, Z.rem_mul_r, Z.shiftr_div_pow2 by (try apply pow2_pos; lia).
  change (2 ^ 8) with 256. lia.
Qed.

Lemma double_roundtrip v rest maxSize :
  is_u64 v -> 8 <= maxSize -> doubleDecode (doubleEncode v ++ rest) maxSize = Ret v.
Proof.
  intros Hv Hm. unfold doubleDecode. destruct (Z.ltb_spec maxSize 8); [lia|].
  unfold doubleEncode. rewrite read_n_app by (unfold zlen; by rewrite length_le_bytes).
  by rewrite bind_Ret, le_value_bytes, Z.mod_small.
Qed.

(** * Reading a string at a moving offset *)

(** [s.c_str()]: the characters and the terminating NUL. *)
Definition c_str (s : bytes) : bytes := s ++ [x00].

(** [varintDecodeFwd(cstr + offset, s.size() - offset)] followed by the advance of [offset]:
    the idiom of every header decoder. *)
Definition varint_next (s : bytes) (offset : Z) : M (Z * Z) :=
  '(v, n) ← varintDecodeFwd (zdrop offset (c_str s)) (u64 (zlen s - offset));
  Ret (v, offset + n).

(** What is left of [s] at [offset] is [rest]. *)
Definition at_offset (s : bytes) (offset : Z) (rest : bytes) : Prop :=
  exists pre, s = pre ++ rest /\ offset = zlen pre.

Lemma at_offset_start s : at_offset s 0 s.
Proof. by exists []. Qed.

Lemma at_offset_skip s offset a rest :
  at_offset s offset (a ++ rest) -> at_offset s (offset + zlen a) rest.
Proof.
  intros (pre & -> & ->). exists (pre ++ a). rewrite zlen_app, <-app_assoc. done.
Qed.

Lemma at_offset_cons s offset b rest :
  at_offset s offset (b :: rest) -> at_offset s (offset + 1) rest.
Proof. apply (at_offset_skip _ _ [b]). Qed.

Lemma at_offset_zdrop s offset rest : at_offset s offset rest -> zdrop offset s = rest.
Proof. intros (pre & -> & ->). apply zdrop_app. Qed.

Lemma at_offset_ptr s offset rest :
  at_offset s offset rest -> zdrop offset (c_str s) = rest ++ [x00].
Proof. intros (pre & -> & ->). unfold c_str. rewrite <-app_assoc. apply zdrop_app. Qed.

Lemma at_offset_len s offset rest :
  at_offset s offset rest -> 0 <= offset /\ zlen s = offset + zlen rest.
Proof. intros (pre & -> & ->). rewrite zlen_app. pose proof (zlen_nonneg pre). lia. Qed.

Lemma at_offset_left s offset rest :
  zlen s < 2 ^ 64 -> at_offset s offset rest -> u64 (zlen s - offset) = zlen rest.
Proof.
  intros Hs H. apply at_offset_len in H as [H0 H]. pose proof (zlen_nonneg rest).
  rewrite wrap_id by (unfold is_u; lia). lia.
Qed.

Lemma varint_next_at s offset v rest :
  zlen s < 2 ^ 64 -> is_u64 v -> at_offset s offset (varintEncode v ++ rest) ->
  varint_next s offset = Ret (v, offset + zlen (varintEncode v)) /\
  at_offset s (offset + zlen (varintEncode v)) rest.
Proof.
  intros Hs Hv H. split; [|by apply at_offset_skip]. unfold varint_next.
  rewrite (at_offset_ptr _ _ _ H), (at_offset_left _ _ _ Hs H), <-app_assoc, zlen_app.
  rewrite varintDecodeFwd_encode; [done|done|]. pose proof (zlen_nonneg rest). lia.
Qed.

(** Runs the next [varint_next] of a decoder on the encoding at its offset; [H] moves along.
    The size of the string must be bounded in the context. *)
Ltac varint_step H :=
  match type of H with
  | at_offset ?s ?o (varintEncode ?v ++ ?r) =>
      let E := fresh "E" in let H' := fresh "H" in
      assert (varint_next s o = Ret (v, o + zlen (varintEncode v)) /\
              at_offset s (o + zlen (varintEncode v)) r) as [E H'];
      [apply varint_next_at; [lia|solve [done|auto with nova]|exact H]|rewrite E, bind_Ret; clear E H; rename H' into H]
  end.

(** * Properties *)

(** A varint is read back exactly, from both ends: the forward decoder on the encoded
    bytes followed by anything, and the backward decoder on the reversed bytes preceded by
    anything (read from the last byte down), give the value and the encoded size, for every
    64-bit value and every size limit that admits the encoding. *)
Theorem varint_roundtrip v maxSize :
  is_u64 v -> zlen (varintEncode v) <= maxSize ->
  (forall rest, varintDecodeFwd (varintEncode v ++ rest) maxSize = Ret (v, zlen (varintEncode v))) /\
  (forall pre, varintDecodeRvs (rev (pre ++ rev (varintEncode v))) maxSize
    = Ret (v, zlen (varintEncode v))).
Proof.
  intros Hv Hm. split; intros.
  - by apply varintDecodeFwd_encode.
  - rewrite rev_app_distr, rev_involutive. by apply varintDecodeRvs_encode.
Qed.

Lemma varint_roundtrip_witness :
  zlen (varintEncode 300) = 2 /\
  varintDecodeFwd (varintEncode 300 ++ [x07]) 10 = Ret (300, 2).
Proof.
  split; [reflexivity|].
  destruct (varint_roundtrip 300 10) as [H _]; [unfold is_u; lia|vm_compute; discriminate|].
  exact (H [x07]).
Defined.

(** The four encoders agree: for every 64-bit value [varintEncodeSize] is the number of
    bytes [varintEncode] produces, between 1 and [varintMaxSize(sizeof(uint64_t))];
    [varintEncodeStr] gives those bytes; and [varintEncodeBuf], at any offset of a buffer with
    room, overwrites exactly that many bytes with them and touches nothing else. *)
Theorem varint_encoders_agree {BM : BuildMode} v :
  is_u64 v ->
  varintEncodeSize v = zlen (varintEncode v) /\
  varintMaxSize 8 = Ret 10 /\ 1 <= zlen (varintEncode v) <= 10 /\
  varintEncodeStr v = Ret (varintEncode v) /\
  (forall pre mid post bufsize,
    zlen mid = varintEncodeSize v -> zlen mid <= bufsize ->
    varintEncodeBuf (pre ++ mid ++ post) (zlen pre) bufsize v
    = Ret (pre ++ varintEncode v ++ post, zlen mid)).
Proof.
  intros Hv. pose proof (varintEncodeSize_spec v Hv) as Hs.
  split; [done|]. split; [done|]. split; [by apply varintEncode_len|].
  split; [by apply varintEncodeStr_spec|].
  intros pre mid post bufsize Hm Hb. rewrite Hs in Hm. rewrite Hm.
  by apply varintEncodeBuf_spec.
Qed.

Lemma varint_encoders_agree_witness :
  varintEncodeSize (2 ^ 64 - 1) = 10 /\
  @varintEncodeStr true (2 ^ 64 - 1) = Ret (varintEncode (2 ^ 64 - 1)).
Proof.
  destruct (@varint_encoders_agree true (2 ^ 64 - 1)) as (_ & _ & _ & H & _); [unfold is_u; lia|].
  split; [reflexivity|exact H].
Defined.

(** The forward decoder is defined on every buffer that holds [maxSize] bytes, except
    exactly when more than ten bytes may be read and the first ten all carry the continuation
    bit: then it shifts a 64-bit word by 70 bits, which is undefined. *)
Theorem varintDecodeFwd_undefined input maxSize :
  maxSize <= zlen input ->
  varintDecodeFwd input maxSize = Crash CUndefined <->
  10 < maxSize /\ Forall cont (ztake 10 input).
Proof. intros H. apply varintDecodeFwd_loop_crash; lia. Qed.

Lemma varintDecodeFwd_undefined_witness :
  varintDecodeFwd (zfill 11 xff) 11 = Crash CUndefined.
Proof.
  apply varintDecodeFwd_undefined; [vm_compute; discriminate|].
  split; [lia|]. vm_compute. repeat constructor; discriminate.
Defined.

(** Fixed-width integers round-trip and sort: [int64Encode] (and its 16 and 32 bit forms)
    is inverted by its decoder whatever follows, and the byte-wise order of two encodings,
    which is the order of the store's keys, is the numeric order of the integers. *)
Theorem int_codec_order v w :
  is_u64 v -> is_u64 w ->
  (forall rest, int64Decode (int64Encode v ++ rest) = Ret v) /\
  (is_u32 v -> forall rest, int32Decode (int32Encode v ++ rest) = Ret v) /\
  (is_u16 v -> forall rest, int16Decode (int16Encode v ++ rest) = Ret v) /\
  bytes_compare (int64Encode v) (int64Encode w) = (v ?= w).
Proof.
  intros Hv Hw. split; [intros; by apply int64_roundtrip|].
  split; [intros; by apply int32_roundtrip|]. split; [intros; by apply int16_roundtrip|].
  by apply (be_compare 8).
Qed.

Lemma int_codec_order_witness :
  int64Encode 258 = [x00; x00; x00; x00; x00; x00; x01; x02] /\
  bytes_compare (int64Encode 258) (int64Encode 1000) = Lt.
Proof.
  destruct (int_codec_order 258 1000) as (_ & _ & _ & H); [unfold is_u; lia..|].
  split; [reflexivity|]. rewrite H. reflexivity.
Defined.
