(* ===== verification/Strings.v ===== *)
(** String utilities (utils/string.h, utils/string.cpp): case folding, hexadecimal, trimming,
    splitting, length-prefixed strings, and the encodings of slot bitmaps. *)

From Stdlib Require Import Strings.Byte ZArith Lia.
From stdpp Require Import base list numbers strings.
From S2P Require Import Prelude Status Varint.

Local Open Scope Z_scope.

(** * Case and options *)

(** [tolower] and [toupper] of the C locale. *)
Definition tolower (b : byte) : byte := if (65 <=? bz b) && (bz b <=? 90) then u8 (bz b + 32) else b.
Definition toupper (b : byte) : byte := if (97 <=? bz b) && (bz b <=? 122) then u8 (bz b - 32) else b.

Definition toLower (s : bytes) : bytes := map tolower s.
Definition toUpper (s : bytes) : bytes := map toupper s.

Definition isOptionOn (s : bytes) : bool :=
  let x := toLower s in
  bool_decide (x = lit "on") || bool_decide (x = lit "1") || bool_decide (x = lit "true")
  || bool_decide (x = lit "yes").

(** * Hexadecimal *)

Definition hex_lookup : bytes := lit "0123456789ABCDEF".

(** [lookup[i]] for [i] masked to four bits. *)
Definition hex_digit (i : Z) : byte := match znth hex_lookup i with Some b => b | None => x00 end.

Definition hexlify (s : bytes) : bytes :=
  concat (map (fun b => [hex_digit (Z.land (Z.shiftr (cz b) 4) 0xf); hex_digit (Z.land (cz b) 0x0f)]) s).

(** Indexed by the signed character plus 128. *)
Definition table_hex : list Z :=
  zfill 176 (-1) ++ [0; 1; 2; 3; 4; 5; 6; 7; 8; 9] ++ zfill 7 (-1) ++ [10; 11; 12; 13; 14; 15] ++
  zfill 26 (-1) ++ [10; 11; 12; 13; 14; 15] ++ zfill 25 (-1).

Definition hex_value (b : byte) : M Z :=
  match znth table_hex (cz b + 128) with Some v => Ret v | None => Crash CUndefined end.

Fixpoint unhexlify_loop (s : bytes) : M bytes :=
  match s with
  | a :: b :: s' =>
      high ← hex_value a;
      low ← hex_value b;
      if (high =? -1) || (low =? -1) then Throw ERR_DECODE (lit "invalid hex str") else
      rest ← unhexlify_loop s';
      Ret (u8 (Z.lor (Z.shiftl high 4) low) :: rest)
  | _ => Ret []
  end.

Definition unhexlify (s : bytes) : M bytes :=
  if zlen s mod 2 =? 1 then Throw ERR_DECODE (lit "invalid hex size") else unhexlify_loop s.

(** * Trimming *)

Fixpoint drop_while (p : byte -> bool) (s : bytes) : bytes :=
  match s with
  | [] => []
  | b :: s' => if p b then drop_while p s' else s
  end.

(** [strchr(cset, ch)]: it also finds the terminating NUL. *)
Definition in_cset (cset : bytes) (ch : byte) : bool := bool_decide (ch ∈ c_str cset).

Definition sdsltrim (s cset : bytes) : bytes := drop_while (in_cset cset) s.
Definition sdsrtrim (s cset : bytes) : bytes := rev (drop_while (in_cset cset) (rev s)).
Definition sdstrim (s cset : bytes) : bytes := sdsrtrim (sdsltrim s cset) cset.

(** Blank, form feed, line feed, carriage return, tab, vertical tab. *)
Definition trim_pattern : bytes := [x20; x0c; x0a; x0d; x09; x0b].

Definition is_blank (b : byte) : bool := bool_decide (b ∈ trim_pattern).

Definition trim_left (str : bytes) : bytes := drop_while is_blank str.
Definition trim_right (str : bytes) : bytes := rev (drop_while is_blank (rev str)).
Definition trim (str : bytes) : bytes := trim_left (trim_right str).

(** * Splitting *)

(** [s.find(delim)]: the position of the first occurrence. *)
Fixpoint find_first (s delim : bytes) : option Z :=
  if bool_decide (delim `prefix_of` s) then Some 0 else
  match s with
  | [] => None
  | _ :: s' => match find_first s' delim with Some i => Some (i + 1) | None => None end
  end.

(** The loop of [stringSplit]: [s] is the part from [pos] on; every round consumes at least the
    delimiter, so the length of the string bounds the rounds. *)
Fixpoint stringSplit_loop (fuel : nat) (s delim : bytes) : list bytes :=
  match fuel, s with
  | _, [] => []
  | O, _ => []
  | S fuel', _ =>
      match find_first s delim with
      | None => [s]
      | Some i => ztake i s :: stringSplit_loop fuel' (zdrop (i + zlen delim) s) delim
      end
  end.

Definition stringSplit (s delim : bytes) : list bytes :=
  if zlen delim =? 0 then [] else stringSplit_loop (length s) s delim.

(** * Length-prefixed strings *)

(** [memcpy(buf + off, src, src.size())]. *)
Definition memcpy (buf : bytes) (off : Z) (src : bytes) : M bytes :=
  if (0 <=? off) && (off + zlen src <=? zlen buf)
  then Ret (ztake off buf ++ src ++ zdrop (off + zlen src) buf)
  else Crash CUndefined.

Section LenStr.
Context {BM : BuildMode}.

(** [lenStrEncode(std::stringstream&, val)]: the stream and the number of bytes written. *)
Definition lenStrEncode_ss (ss val : bytes) : M (bytes * Z) :=
  sizeStr ← varintEncodeStr (zlen val);
  Ret (ss ++ sizeStr ++ val, zlen sizeStr + zlen val).

Definition lenStrEncode (val : bytes) : M bytes :=
  sizeStr ← varintEncodeStr (zlen val);
  Ret (sizeStr ++ val).

(** [lenStrEncode(dest + off, destsize, val)]. *)
Definition lenStrEncode_buf (dest : bytes) (off destsize : Z) (val : bytes) : M (bytes * Z) :=
  '(dest, size) ← varintEncodeBuf dest off destsize (zlen val);
  _ ← INVARIANT_D (size + zlen val <=? destsize);
  dest ← memcpy dest (off + size) val;
  Ret (dest, size + zlen val).

Definition lenStrEncodeSize (val : bytes) : Z := varintEncodeSize (zlen val) + zlen val.

(** [lenStrDecode(ptr, max_size)]: the string and the number of bytes read. *)
Definition lenStrDecode_ptr (ptr : bytes) (max_size : Z) : M (bytes * Z) :=
  '(keySize, offset) ← varintDecodeFwd ptr max_size;
  if u64 (max_size - offset) <? keySize then Throw ERR_DECODE (lit "invalid string") else
  str ← read_n (zdrop offset ptr) keySize;
  Ret (str, offset + keySize).

Definition lenStrDecode (str : bytes) : M (bytes * Z) := lenStrDecode_ptr (c_str str) (zlen str).

End LenStr.

(** * Slot bitmaps *)

Definition CLUSTER_SLOTS : Z := 16384.

(** A [std::bitset] is the list of its bits. *)
Fixpoint run_length (bits : list bool) : nat :=
  match bits with true :: l => S (run_length l) | _ => O end.

(** The loop of [bitsetEncodeVec]: [bits] are the bits from [idx] on. *)
Fixpoint bitsetEncodeVec_loop (fuel : nat) (bits : list bool) (idx : Z) : list Z :=
  match fuel, bits with
  | O, _ | _, [] => []
  | S fuel', false :: l => bitsetEncodeVec_loop fuel' l (idx + 1)
  | S fuel', true :: _ =>
      let n := run_length bits in
      u16 idx :: u16 (Z.of_nat n) :: bitsetEncodeVec_loop fuel' (drop n bits) (idx + Z.of_nat n)
  end.

Definition bitsetEncodeVec (bitmap : list bool) : list Z :=
  bitsetEncodeVec_loop (length bitmap) bitmap 0.

(** The loop [for (j = pos; j < pos + n; j++) bitmap.set(j)]. *)
Fixpoint set_run (bitmap : list bool) (pos : Z) (n : nat) : list bool :=
  match n with
  | O => bitmap
  | S n' => set_run (zset bitmap pos true) (pos + 1) n'
  end.

Fixpoint bitsetDecodeVec_loop (size : Z) (vec : list Z) (last_pos : Z) (bitmap : list bool)
  : M (list bool) :=
  match vec with
  | pos :: pageLength :: vec' =>
      if pos <=? last_pos then Throw ERR_DECODE (lit "bitset error input") else
      let len := pos + pageLength in
      if size <? len then Throw ERR_DECODE (lit "bitset error length") else
      bitsetDecodeVec_loop size vec' (if pos <? len then len - 1 else last_pos)
        (set_run bitmap pos (Z.to_nat pageLength))
  | _ => Ret bitmap
  end.

Definition bitsetDecodeVec (size : Z) (vec : list Z) : M (list bool) :=
  if negb (zlen vec mod 2 =? 0)
  then Throw ERR_DECODE (lit "bitsetIntDecode bitset error length")
  else bitsetDecodeVec_loop size vec (-1) (zfill size false).

(** [CopyUint] of a word of [n] bytes. *)
Definition CopyUint (buf : bytes) (n : nat) (element : Z) : bytes := buf ++ be_bytes n element.

Definition bitsetEncodeSize (bitmap : list bool) : Z := u32 (4 + zlen (bitsetEncodeVec bitmap) * 2).

Definition bitsetEncode (bitmap : list bool) : bytes :=
  let vec := bitsetEncodeVec bitmap in
  let encsize := u32 (4 + 2 * zlen vec) in
  fold_left (fun key v => CopyUint key 2 v) vec (CopyUint [] 4 encsize).

(** The loop [while (offset < decodeSize)], which reads two bytes a round. *)
Fixpoint read_u16s (fuel : nat) (str : bytes) (offset decodeSize : Z) : M (list Z) :=
  match fuel with
  | O => Ret []
  | S fuel' =>
      if offset <? decodeSize then
        pos ← int16Decode (zdrop offset str);
        vec ← read_u16s fuel' str (offset + 2) decodeSize;
        Ret (pos :: vec)
      else Ret []
  end.

Definition bitsetDecode_ptr (size : Z) (str : bytes) (max_size : Z) : M (list bool) :=
  if max_size <? 4 then Throw ERR_DECODE (lit "bitsetDecode too small") else
  decodeSize ← int32Decode str;
  if max_size <? decodeSize then Throw ERR_DECODE (lit "bitsetDecode size too small") else
  vec ← read_u16s (length str) str 4 decodeSize;
  bitsetDecodeVec size vec.

Definition bitsetDecode (size : Z) (str : bytes) : M (list bool) :=
  bitsetDecode_ptr size (c_str str) (zlen str).

(** * Lemmas *)

(** ** Hexadecimal *)

(** The digits of a byte, read back: one evaluation for each byte. *)
Definition hex_byte_check (b : byte) : bool :=
  match hex_value (hex_digit (Z.land (Z.shiftr (cz b) 4) 0xf)), hex_value (hex_digit (Z.land (cz b) 0x0f)) with
  | Ret h, Ret l => negb ((h =? -1) || (l =? -1)) && (bz (u8 (Z.lor (Z.shiftl h 4) l)) =? bz b)
  | _, _ => false
  end.

Lemma hex_byte b :
  exists h l, hex_value (hex_digit (Z.land (Z.shiftr (cz b) 4) 0xf)) = Ret h /\
    hex_value (hex_digit (Z.land (cz b) 0x0f)) = Ret l /\
    (h =? -1) || (l =? -1) = false /\ u8 (Z.lor (Z.shiftl h 4) l) = b.
Proof.
  assert (hex_byte_check b = true) as H by (destruct b; vm_compute; reflexivity). unfold hex_byte_check in H.
  destruct (hex_value (hex_digit (Z.land (Z.shiftr (cz b) 4) 0xf))) as [h| |]; [|done..].
  destruct (hex_value (hex_digit (Z.land (cz b) 0x0f))) as [l| |]; [|done..].
  apply andb_true_iff in H as [H1%negb_true_iff H2%Z.eqb_eq]. exists h, l. split_and!; try done. by apply bz_inj.
Qed.

Lemma unhexlify_loop_hexlify s : unhexlify_loop (hexlify s) = Ret s.
Proof.
  induction s as [|b s IH]; [done|]. unfold hexlify in *. cbn [map concat app unhexlify_loop].
  destruct (hex_byte b) as (h & l & E1 & E2 & E3 & E4).
  by rewrite E1, bind_Ret, E2, bind_Ret, E3, IH, bind_Ret, E4.
Qed.

Lemma zlen_hexlify s : zlen (hexlify s) = 2 * zlen s.
Proof.
  unfold hexlify. induction s as [|b s IH]; [done|]. cbn [map concat].
  rewrite zlen_app, IH, !zlen_cons. change (zlen []) with 0. lia.
Qed.

(** A digit read back is the digit, in upper case. *)
Definition hex_digit_check (a : byte) : bool :=
  match hex_value a with
  | Ret h => (h =? -1) || ((0 <=? h) && (h <? 16) && (bz (hex_digit h) =? bz (toupper a)))
  | _ => true
  end.

Lemma hex_value_digit a h :
  hex_value a = Ret h -> (h =? -1) = false -> 0 <= h < 16 /\ hex_digit h = toupper a.
Proof.
  intros E Hh. assert (hex_digit_check a = true) as H by (destruct a; vm_compute; reflexivity).
  unfold hex_digit_check in H. rewrite E, Hh in H. cbn [orb] in H.
  rewrite !andb_true_iff, Z.leb_le, Z.ltb_lt, Z.eqb_eq in H. destruct H as [H1 H2]. split; [done|]. by apply bz_inj.
Qed.

Lemma hexlify_nibbles h l :
  0 <= h < 16 -> 0 <= l < 16 ->
  hex_digit (Z.land (Z.shiftr (cz (u8 (Z.lor (Z.shiftl h 4) l))) 4) 0xf) = hex_digit h /\
  hex_digit (Z.land (cz (u8 (Z.lor (Z.shiftl h 4) l))) 0x0f) = hex_digit l.
Proof.
  intros Hh Hl. assert (forall P : Z -> Prop, (forall i, (i < 16)%nat -> P (Z.of_nat i)) ->
    forall z, 0 <= z < 16 -> P z) as Hn.
  { intros P HP z Hz. rewrite <-(Z2Nat.id z) by lia. apply HP. lia. }
  revert h Hh. apply Hn. intros i Hi. revert l Hl. apply Hn. intros j Hj.
  do 16 (destruct i as [|i]; [do 16 (destruct j as [|j]; [split; vm_compute; reflexivity|]); lia|]). lia.
Qed.

Lemma hexlify_unhexlify_loop s r : Nat.Even (length s) -> unhexlify_loop s = Ret r -> hexlify r = toUpper s.
Proof.
  revert r. induction s as [s IH] using (induction_ltof1 _ length). unfold ltof in IH. intros r He.
  destruct s as [|a [|b s]]; [by intros [= <-]|by destruct He as [[|k] ?]; cbn in *; lia|].
  cbn [unhexlify_loop]. destruct (hex_value a) as [h| |] eqn:Ea; [rewrite bind_Ret|done|done].
  destruct (hex_value b) as [l| |] eqn:Eb; [rewrite bind_Ret|done|done].
  destruct ((h =? -1) || (l =? -1)) eqn:E; [done|]. apply orb_false_iff in E as [E1 E2].
  destruct (unhexlify_loop s) as [r'| |] eqn:Er; [rewrite bind_Ret|done|done]. intros H.
  apply (inj Ret) in H as <-. destruct (hex_value_digit _ _ Ea E1) as [Hh Dh], (hex_value_digit _ _ Eb E2) as [Hl Dl].
  destruct (hexlify_nibbles h l Hh Hl) as [N1 N2]. unfold hexlify, toUpper in *. cbn [map concat app].
  rewrite N1, N2, Dh, Dl. do 2 f_equal. apply IH; [cbn; lia| |done].
  destruct He as [k Hk]. exists (k - 1)%nat. cbn in Hk. lia.
Qed.

(** ** Length-prefixed strings *)

Lemma varintEncodeBuf_fill {BM : BuildMode} size l off bufsize v :
  is_u64 v -> off = zlen l -> zlen l + zlen (varintEncode v) <= size -> zlen (varintEncode v) <= bufsize ->
  varintEncodeBuf (filled size l) off bufsize v
  = Ret (filled size (l ++ varintEncode v), zlen (varintEncode v)).
Proof.
  intros Hv -> Hs Hb. pose proof (varintEncode_len v Hv). unfold filled.
  replace (size - zlen l) with (zlen (varintEncode v) + (size - zlen (l ++ varintEncode v))) at 1
    by (rewrite zlen_app; lia).
  rewrite zfill_split by (rewrite ?zlen_app; lia).
  rewrite varintEncodeBuf_spec; [|done|done|by rewrite zlen_fill by lia|rewrite zlen_fill; lia].
  by rewrite app_assoc.
Qed.

Lemma zlen_filled size l : zlen l <= size -> zlen (filled size l) = size.
Proof. intros H. unfold filled. rewrite zlen_app, zlen_fill by lia. lia. Qed.

Lemma memcpy_filled size l off k :
  off = zlen l -> zlen l + zlen k <= size -> memcpy (filled size l) off k = Ret (filled size (l ++ k)).
Proof.
  intros -> Hs. pose proof (zlen_nonneg l). pose proof (zlen_nonneg k). unfold memcpy.
  rewrite zlen_filled by lia. destruct (Z.leb_spec 0 (zlen l)); [|lia].
  destruct (Z.leb_spec (zlen l + zlen k) size); [|lia]. cbn [andb]. f_equal. unfold filled.
  rewrite ztake_app, zlen_app.
  replace (size - zlen l) with (zlen k + (size - (zlen l + zlen k))) at 1 by lia.
  rewrite zfill_split, zdrop_app_plus by lia. rewrite zdrop_app_eq by (by rewrite zlen_fill by lia).
  by rewrite <-app_assoc.
Qed.

Definition len_str (val : bytes) : bytes := varintEncode (zlen val) ++ val.

Lemma zlen_u64 (val : bytes) : zlen val < 2 ^ 63 -> is_u64 (zlen val).
Proof. intros H. pose proof (zlen_nonneg val). unfold is_u. lia. Qed.

Lemma lenStrEncodeSize_spec val : zlen val < 2 ^ 63 -> lenStrEncodeSize val = zlen (len_str val).
Proof.
  intros H. unfold lenStrEncodeSize, len_str. by rewrite varintEncodeSize_spec, zlen_app by by apply zlen_u64.
Qed.

Section LenStrLemmas.
Context {BM : BuildMode}.

Lemma lenStrEncode_buf_fill size l off destsize val :
  zlen val < 2 ^ 63 -> off = zlen l -> zlen l + zlen (len_str val) <= size ->
  zlen (len_str val) <= destsize ->
  lenStrEncode_buf (filled size l) off destsize val = Ret (filled size (l ++ len_str val), zlen (len_str val)).
Proof.
  intros Hv -> Hs Hd. unfold len_str in *. rewrite zlen_app in *. pose proof (zlen_nonneg val).
  unfold lenStrEncode_buf. rewrite varintEncodeBuf_fill; [|by apply zlen_u64|done|lia|lia].
  rewrite bind_Ret. inv_d by (apply Z.leb_le; lia).
  rewrite memcpy_filled by (rewrite zlen_app; lia). by rewrite bind_Ret, <-app_assoc.
Qed.

Lemma lenStrDecode_ptr_spec val rest max_size :
  zlen val < 2 ^ 63 -> zlen (len_str val) <= max_size -> max_size < 2 ^ 64 ->
  lenStrDecode_ptr (len_str val ++ rest) max_size = Ret (val, zlen (len_str val)).
Proof.
  intros Hv Hm Hx. unfold len_str in *. rewrite zlen_app in *. pose proof (zlen_nonneg val).
  pose proof (varintEncode_len _ (zlen_u64 _ Hv)). unfold lenStrDecode_ptr. rewrite <-app_assoc.
  rewrite varintDecodeFwd_encode, bind_Ret by (by apply zlen_u64) || lia.
  rewrite wrap_id by (unfold is_u; lia). destruct (Z.ltb_spec (max_size - zlen (varintEncode (zlen val))) (zlen val)); [lia|].
  rewrite zdrop_app, read_n_app, bind_Ret by done. done.
Qed.

End LenStrLemmas.

(** ** Slot bitmaps *)

Lemma run_length_spec bits : bits = replicate (run_length bits) true ++ drop (run_length bits) bits.
Proof. induction bits as [|[] l IH]; [done| |done]. cbn. by rewrite <-IH. Qed.

Lemma set_run_fill pre n post :
  set_run (pre ++ replicate n false ++ post) (zlen pre) n = pre ++ replicate n true ++ post.
Proof.
  revert pre. induction n as [|n IH]; intros pre; [done|]. cbn [set_run replicate app].
  rewrite zset_app_here. specialize (IH (pre ++ [true])). rewrite zlen_app in IH.
  change (zlen [true]) with 1 in IH. rewrite <-!app_assoc in IH. exact IH.
Qed.

Lemma replicate_split {A} n m (x : A) : replicate (n + m) x = replicate n x ++ replicate m x.
Proof. apply replicate_add. Qed.

(** Decoding the pages of the bits from [idx] on, with the bits before already set. *)
Lemma bitset_pages fuel : forall bits pre last size,
  (length bits <= fuel)%nat -> size = zlen pre + zlen bits -> size < 2 ^ 16 -> last < zlen pre ->
  bitsetDecodeVec_loop size (bitsetEncodeVec_loop fuel bits (zlen pre)) last
    (pre ++ replicate (length bits) false) = Ret (pre ++ bits).
Proof.
  induction fuel as [|fuel IH]; intros bits pre last size Hf Hs Hlt Hlast.
  { destruct bits; [done|cbn in Hf; lia]. }
  destruct bits as [|[] l]; [done| |].
  - cbn [bitsetEncodeVec_loop]. cbv zeta. set (bits := true :: l) in *.
    pose proof (run_length_spec bits) as Hrun. set (n := run_length bits) in *.
    assert (1 <= n)%nat as Hn by (unfold n, bits; cbn; lia). set (rest := drop n bits) in *.
    assert (length bits = n + length rest)%nat as Hlen
      by (rewrite Hrun at 1; by rewrite length_app, length_replicate).
    pose proof (zlen_nonneg pre). assert (zlen bits = Z.of_nat n + zlen rest) as Hz by (unfold zlen; lia).
    pose proof (zlen_nonneg rest).
    assert (zlen (replicate n true) = Z.of_nat n) as Hr by (unfold zlen; by rewrite length_replicate).
    rewrite !wrap_id by (unfold is_u; lia). cbn [bitsetDecodeVec_loop].
    destruct (Z.leb_spec (zlen pre) last); [lia|].
    destruct (Z.ltb_spec size (zlen pre + Z.of_nat n)); [lia|].
    destruct (Z.ltb_spec (zlen pre) (zlen pre + Z.of_nat n)); [|lia].
    rewrite Nat2Z.id, Hlen, replicate_split, set_run_fill, app_assoc.
    specialize (IH rest (pre ++ replicate n true) (zlen pre + Z.of_nat n - 1) size).
    rewrite zlen_app, Hr in IH. rewrite IH by lia. by rewrite <-app_assoc, <-Hrun.
  - cbn [bitsetEncodeVec_loop length replicate]. specialize (IH l (pre ++ [false]) last size).
    rewrite zlen_app, <-!app_assoc in IH. change (zlen [false]) with 1 in IH. rewrite zlen_cons in Hs.
    apply IH; cbn in Hf; lia.
Qed.

Lemma bitsetEncodeVec_even fuel : forall bits idx, exists k, zlen (bitsetEncodeVec_loop fuel bits idx) = 2 * k.
Proof.
  induction fuel as [|fuel IH]; intros bits idx; [by exists 0|]. destruct bits as [|[] l]; [by exists 0| |apply IH].
  cbn [bitsetEncodeVec_loop]. destruct (IH (drop (run_length (true :: l)) (true :: l))
    (idx + Z.of_nat (run_length (true :: l)))) as [k E]. exists (k + 1). cbv zeta. rewrite !zlen_cons, E. lia.
Qed.

Lemma bitsetDecodeVec_encode bitmap :
  zlen bitmap < 2 ^ 16 -> bitsetDecodeVec (zlen bitmap) (bitsetEncodeVec bitmap) = Ret bitmap.
Proof.
  intros H. unfold bitsetDecodeVec, bitsetEncodeVec.
  destruct (bitsetEncodeVec_even (length bitmap) bitmap 0) as [k E]. rewrite E.
  rewrite Z.mul_comm, Z.mod_mul by done. cbn [Z.eqb negb].
  pose proof (bitset_pages (length bitmap) bitmap [] (-1) (zlen bitmap)) as P. cbn [app] in P.
  change (zlen []) with 0 in P. unfold zfill. unfold zlen at 2. rewrite Nat2Z.id. apply P; lia.
Qed.

(** The number of pages is small, and every entry is a 16-bit word. *)
Lemma bitsetEncodeVec_bound fuel : forall bits idx,
  zlen (bitsetEncodeVec_loop fuel bits idx) <= 2 * zlen bits /\
  Forall (fun v => is_u16 v) (bitsetEncodeVec_loop fuel bits idx).
Proof.
  induction fuel as [|fuel IH]; intros bits idx; [split; [pose proof (zlen_nonneg bits); cbn [bitsetEncodeVec_loop]; rewrite zlen_nil; lia|done]|].
  destruct bits as [|[] l]; [done| |].
  - cbn [bitsetEncodeVec_loop]. cbv zeta. set (n := run_length (true :: l)).
    destruct (IH (drop n (true :: l)) (idx + Z.of_nat n)) as [H1 H2]. split.
    + rewrite !zlen_cons. assert (zlen (drop n (true :: l)) <= zlen l); [|lia].
      unfold zlen. rewrite length_drop. unfold n. cbn. lia.
    + repeat (apply Forall_cons; split); [by apply wrap_is_u..|done].
  - cbn [bitsetEncodeVec_loop]. rewrite zlen_cons. destruct (IH l (idx + 1)) as [H1 H2]. split; [lia|done].
Qed.

Lemma bitsetEncode_bytes vec acc :
  fold_left (fun key v => CopyUint key 2 v) vec acc = acc ++ concat (map (be_bytes 2) vec).
Proof.
  revert acc. induction vec as [|v vec IH]; intros acc; [by rewrite app_nil_r|]. cbn [fold_left map concat].
  rewrite IH. unfold CopyUint. by rewrite <-app_assoc.
Qed.

Lemma zlen_u16s vec : zlen (concat (map (be_bytes 2) vec)) = 2 * zlen vec.
Proof.
  induction vec as [|v vec IH]; [done|]. cbn [map concat]. rewrite zlen_app, zlen_be_bytes, zlen_cons, IH. lia.
Qed.

Lemma read_u16s_spec str vec : forall fuel offset rest decodeSize,
  Forall (fun v => is_u16 v) vec -> (length vec <= fuel)%nat -> 0 <= offset ->
  zdrop offset str = concat (map (be_bytes 2) vec) ++ rest -> decodeSize = offset + 2 * zlen vec ->
  read_u16s fuel str offset decodeSize = Ret vec.
Proof.
  induction vec as [|v vec IH]; intros fuel offset rest decodeSize Hv Hf Ho Hs ->.
  { change (zlen []) with 0. destruct fuel; [done|]. cbn [read_u16s].
    destruct (Z.ltb_spec offset (offset + 2 * 0)); [lia|done]. }
  apply Forall_cons in Hv as [Hv Hvs]. destruct fuel as [|fuel]; [cbn in Hf; lia|].
  rewrite zlen_cons. pose proof (zlen_nonneg vec). cbn [read_u16s].
  destruct (Z.ltb_spec offset (offset + 2 * (1 + zlen vec))); [|lia].
  cbn [map concat] in Hs. rewrite <-app_assoc in Hs. rewrite Hs.
  change (be_bytes 2 v) with (int16Encode v). rewrite int16_roundtrip, bind_Ret by done.
  rewrite (IH fuel (offset + 2) rest), bind_Ret; [done|done|cbn in Hf; lia|lia| |lia].
  rewrite <-zdrop_zdrop, Hs by lia. apply zdrop_app_eq. by rewrite zlen_be_bytes.
Qed.

(** ** Splitting *)

Lemma find_first_spec s delim i :
  find_first s delim = Some i ->
  0 <= i /\ s = ztake i s ++ delim ++ zdrop (i + zlen delim) s.
Proof.
  revert i. induction s as [|b s IH]; intros i; cbn [find_first]; case_bool_decide as Hp.
  - intros [= <-]. destruct Hp as [k E]. split; [done|]. by destruct delim.
  - done.
  - intros [= <-]. destruct Hp as [k E]. split; [done|]. rewrite Z.add_0_l.
    change (ztake 0 (b :: s)) with (@nil byte). cbn [app]. rewrite E at 2. by rewrite zdrop_app.
  - destruct (find_first s delim) as [j|] eqn:Ej; [|done]. intros [= <-]. destruct (IH _ eq_refl) as [Hj E].
    split; [lia|]. pose proof (zlen_nonneg delim).
    replace (ztake (j + 1) (b :: s)) with (b :: ztake j s).
    2: { cbn [ztake]. destruct (Z.leb_spec (j + 1) 0); [lia|]. by replace (j + 1 - 1) with j by lia. }
    replace (zdrop (j + 1 + zlen delim) (b :: s)) with (zdrop (j + zlen delim) s).
    2: { cbn [zdrop]. destruct (Z.leb_spec (j + 1 + zlen delim) 0); [lia|]. f_equal. lia. }
    cbn [app]. by rewrite <-E.
Qed.

(** The parts with a delimiter after each. *)
Definition join_delim (l : list bytes) (delim : bytes) : bytes := concat (map (fun p => p ++ delim) l).

Lemma stringSplit_loop_spec delim fuel : forall s,
  0 < zlen delim -> (length s <= fuel)%nat ->
  join_delim (stringSplit_loop fuel s delim) delim = s \/
  join_delim (stringSplit_loop fuel s delim) delim = s ++ delim.
Proof.
  induction fuel as [|fuel IH]; intros s Hd Hf; [left; by destruct s; [|cbn in Hf; lia]|].
  destruct s as [|b s]; [by left|]. set (t := b :: s) in *.
  change (stringSplit_loop (S fuel) t delim) with
    (match find_first t delim with
     | None => [t]
     | Some i => ztake i t :: stringSplit_loop fuel (zdrop (i + zlen delim) t) delim
     end).
  destruct (find_first t delim) as [i|] eqn:E; [|right; unfold join_delim; cbn; by rewrite app_nil_r].
  destruct (find_first_spec _ _ _ E) as [Hi Ht]. unfold join_delim in *. cbn [map concat].
  destruct (IH (zdrop (i + zlen delim) t) Hd) as [-> | ->].
  - rewrite zdrop_drop, length_drop. unfold zlen in *. subst t. cbn in *. lia.
  - left. rewrite <-app_assoc. by symmetry.
  - right. rewrite app_assoc. rewrite <-(app_assoc (ztake i t)). by rewrite <-Ht.
Qed.

(** * Properties *)

(** Hexadecimal text and bytes convert into each other: decoding the text of a byte string
    gives the string, and any text that decodes is the text of its result up to letter case. *)
Theorem hex_roundtrip (s : bytes) :
  unhexlify (hexlify s) = Ret s /\
  (forall r, unhexlify s = Ret r -> hexlify r = toUpper s).
Proof.
  unfold unhexlify. rewrite zlen_hexlify, Z.mul_comm, Z.mod_mul by done. split.
  - apply unhexlify_loop_hexlify.
  - intros r. destruct (Z.eqb_spec (zlen s mod 2) 1) as [E|E]; [done|]. apply hexlify_unhexlify_loop.
    apply Nat.even_spec. destruct (Nat.even (length s)) eqn:Ev; [done|]. destruct E.
    assert (Nat.odd (length s) = true) as [k Hk]%Nat.odd_spec by (by rewrite <-Nat.negb_even, Ev).
    unfold zlen. rewrite Hk. replace (Z.of_nat (2 * k + 1)) with (1 + Z.of_nat k * 2) by lia.
    by rewrite Z.mod_add.
Qed.

(** A length-prefixed string is written the same way by the three encoders (a string, a
    stream, a buffer with exactly the announced room) and read back exactly, whatever follows. *)
Theorem lenStr_roundtrip {BM : BuildMode} (val rest ss : bytes) (max_size : Z) :
  zlen val < 2 ^ 63 -> lenStrEncodeSize val <= max_size -> max_size < 2 ^ 64 ->
  exists e, lenStrEncode val = Ret e /\ zlen e = lenStrEncodeSize val /\
    lenStrEncode_ss ss val = Ret (ss ++ e, zlen e) /\
    lenStrEncode_buf (zfill (zlen e) x00) 0 (zlen e) val = Ret (e, zlen e) /\
    lenStrDecode_ptr (e ++ rest) max_size = Ret (val, zlen e).
Proof.
  intros Hv Hm Hx. rewrite lenStrEncodeSize_spec in * by done. exists (len_str val).
  unfold lenStrEncode, lenStrEncode_ss. rewrite varintEncodeStr_spec, !bind_Ret by by apply zlen_u64.
  split_and!; try done.
  - unfold len_str. by rewrite zlen_app.
  - pose proof (lenStrEncode_buf_fill (zlen (len_str val)) [] 0 (zlen (len_str val)) val Hv eq_refl) as E.
    unfold filled in E. cbn [app] in E. rewrite zlen_nil, Z.sub_0_r, Z.sub_diag in E. cbn [zfill] in E.
    rewrite E by lia. unfold zfill. cbn. by rewrite app_nil_r.
  - by apply lenStrDecode_ptr_spec.
Qed.

Lemma lenStr_roundtrip_witness :
  exists e, @lenStrEncode true (lit "abc") = Ret e /\ zlen e = lenStrEncodeSize (lit "abc") /\
    @lenStrEncode_ss true [x02] (lit "abc") = Ret ([x02] ++ e, zlen e) /\
    @lenStrEncode_buf true (zfill (zlen e) x00) 0 (zlen e) (lit "abc") = Ret (e, zlen e) /\
    lenStrDecode_ptr (e ++ [xff]) 5 = Ret (lit "abc", zlen e).
Proof. by apply (@lenStr_roundtrip true (lit "abc") [xff] [x02] 5). Defined.

(** A slot bitmap of fewer than 65536 bits is restored by both encodings, the page list and
    its binary form, and the binary form has the announced size. *)
Theorem bitset_roundtrip (bitmap : list bool) :
  zlen bitmap < 2 ^ 16 ->
  bitsetDecodeVec (zlen bitmap) (bitsetEncodeVec bitmap) = Ret bitmap /\
  bitsetDecode (zlen bitmap) (bitsetEncode bitmap) = Ret bitmap /\
  zlen (bitsetEncode bitmap) = bitsetEncodeSize bitmap.
Proof.
  intros H. pose proof (bitsetDecodeVec_encode bitmap H) as D. split; [done|].
  destruct (bitsetEncodeVec_bound (length bitmap) bitmap 0) as [Hb Hu]. fold (bitsetEncodeVec bitmap) in Hb, Hu.
  unfold bitsetDecode, bitsetEncode, bitsetEncodeSize. rewrite bitsetEncode_bytes.
  set (vec := bitsetEncodeVec bitmap) in *. pose proof (zlen_nonneg vec). unfold CopyUint. cbn [app].
  rewrite !(wrap_id 32) by (unfold is_u; lia). set (n := 4 + 2 * zlen vec).
  assert (zlen (be_bytes 4 n ++ concat (map (be_bytes 2) vec)) = n) as Hn
    by (rewrite zlen_app, zlen_be_bytes, zlen_u16s; unfold n; lia).
  rewrite Hn. split; [|unfold n; lia]. unfold bitsetDecode_ptr, c_str.
  destruct (Z.ltb_spec n 4); [unfold n in *; lia|]. rewrite <-app_assoc.
  change (be_bytes 4 n) with (int32Encode n). rewrite int32_roundtrip, bind_Ret by (unfold is_u, n; lia).
  rewrite Z.ltb_irrefl. rewrite (read_u16s_spec _ vec _ 4 [x00]), bind_Ret; [done|done| |lia| |done].
  - pose proof (zlen_u16s vec) as E. unfold zlen in E. rewrite !length_app. lia.
  - apply zdrop_app_eq. unfold int32Encode. by rewrite zlen_be_bytes.
Qed.

Lemma bitset_roundtrip_witness :
  bitsetDecodeVec 5 (bitsetEncodeVec [true; true; false; false; true]) = Ret [true; true; false; false; true] /\
  bitsetDecode 5 (bitsetEncode [true; true; false; false; true]) = Ret [true; true; false; false; true] /\
  zlen (bitsetEncode [true; true; false; false; true]) = bitsetEncodeSize [true; true; false; false; true].
Proof. by apply (bitset_roundtrip [true; true; false; false; true]). Defined.

(** Splitting loses nothing: putting the delimiter back after every part gives the string,
    or the string followed by one delimiter when it does not end in one. *)
Theorem stringSplit_join (s delim : bytes) :
  delim <> [] ->
  join_delim (stringSplit s delim) delim = s \/ join_delim (stringSplit s delim) delim = s ++ delim.
Proof.
  intros H. assert (0 < zlen delim) as Hd.
  { destruct delim as [|b d]; [done|]. rewrite zlen_cons. pose proof (zlen_nonneg d). lia. }
  unfold stringSplit. destruct (Z.eqb_spec (zlen delim) 0); [lia|]. by apply stringSplit_loop_spec.
Qed.

Lemma stringSplit_join_witness :
  join_delim (stringSplit (lit "1..9") (lit "..")) (lit "..") = lit "1..9" \/
  join_delim (stringSplit (lit "1..9") (lit "..")) (lit "..") = lit "1..9" ++ lit "..".
Proof. by apply (stringSplit_join (lit "1..9") (lit "..")). Defined.
