(* ===== verification/Record.v ===== *)
(** Record types and record keys (storage/record.h, storage/record.cpp): the tags of the
    record kinds and the physical layout of every key of the store,
    [chunkid | type | dbid | pk | 0 | version | sk | reversed varint of len(pk) | reserved]. *)

From Stdlib Require Import Strings.Byte ZArith Lia.
From stdpp Require Import base list numbers strings sets.
From S2P Require Import Prelude Status Varint.

Local Open Scope Z_scope.

(** * Reserved chunk and database ids *)

Definition LUASCRIPT_CHUNKID : Z := 0xFFFD0000.
Definition VERSIONMETA_CHUNKID : Z := 0xFFFE0000.
Definition ADMINCMD_CHUNKID : Z := 0xFFFE0001.
Definition TTLINDEX_CHUNKID : Z := 0xFFFF0000.
Definition REPLLOGKEYV2_META_CHUNKID : Z := 0xFFFFFE01.
Definition REPLLOGKEY_CHUNKID : Z := 0xFFFFFF00.
Definition REPLLOGKEYV2_CHUNKID : Z := 0xFFFFFF01.
Definition TTLINDEX_DBID : Z := 0xFFFF0000.
Definition REPLLOGKEYV2_DBID : Z := 0xFFFFFF01.
Definition VERSIONMETA_DBID : Z := 0xFFFE0000.

(** * Record types *)

Inductive RecordType : Set :=
| RT_INVALID
| RT_META
| RT_KV
| RT_LIST_META
| RT_LIST_ELE
| RT_HASH_META
| RT_HASH_ELE
| RT_SET_META
| RT_SET_ELE
| RT_ZSET_META
| RT_ZSET_S_ELE
| RT_ZSET_H_ELE
| RT_BINLOG
| RT_TTL_INDEX
| RT_DATA_META
| RT_TBITMAP_META
| RT_TBITMAP_ELE.

#[export] Instance RecordType_eq_dec : EqDecision RecordType.
Proof. solve_decision. Defined.

Definition isDataMetaType (t : RecordType) : bool :=
  match t with
  | RT_HASH_META | RT_LIST_META | RT_ZSET_META | RT_SET_META | RT_KV | RT_TBITMAP_META => true
  | _ => false
  end.

Definition getRealKeyType (t : RecordType) : RecordType :=
  if isDataMetaType t then RT_DATA_META else t.

Definition isKeyType (t : RecordType) : bool := negb (isDataMetaType t).

(** The [RT_DATA_META] case falls through to [false]. *)
Definition isRealEleType {BM : BuildMode} (keyType valueType : RecordType) : M bool :=
  match keyType with
  | RT_HASH_ELE | RT_SET_ELE | RT_ZSET_H_ELE | RT_LIST_ELE | RT_TBITMAP_ELE => Ret true
  | RT_DATA_META =>
      if bool_decide (valueType = RT_KV) || bool_decide (valueType = RT_TBITMAP_META)
      then Ret true else Ret false
  | RT_ZSET_S_ELE | RT_BINLOG | RT_TTL_INDEX | RT_META => Ret false
  | _ => _ ← INVARIANT_D false; Ret false
  end.

Definition rt2Char (t : RecordType) : M byte :=
  match t with
  | RT_META => Ret "M"%byte
  | RT_DATA_META => Ret "D"%byte
  | RT_KV => Ret "a"%byte
  | RT_LIST_META => Ret "L"%byte
  | RT_LIST_ELE => Ret "l"%byte
  | RT_HASH_META => Ret "H"%byte
  | RT_HASH_ELE => Ret "h"%byte
  | RT_SET_META => Ret "S"%byte
  | RT_SET_ELE => Ret "s"%byte
  | RT_ZSET_META => Ret "Z"%byte
  | RT_ZSET_H_ELE => Ret "c"%byte
  | RT_ZSET_S_ELE => Ret "z"%byte
  | RT_TBITMAP_META => Ret "T"%byte
  | RT_TBITMAP_ELE => Ret "t"%byte
  | RT_TTL_INDEX => Ret (u8 (255 - 1))
  | RT_BINLOG => Ret (u8 255)
  | RT_INVALID => Crash CFatal
  end.

Definition char2Rt {BM : BuildMode} (t : byte) : M RecordType :=
  match t with
  | "M"%byte => Ret RT_META
  | "D"%byte => Ret RT_DATA_META
  | "a"%byte => Ret RT_KV
  | "L"%byte => Ret RT_LIST_META
  | "l"%byte => Ret RT_LIST_ELE
  | "H"%byte => Ret RT_HASH_META
  | "h"%byte => Ret RT_HASH_ELE
  | "S"%byte => Ret RT_SET_META
  | "s"%byte => Ret RT_SET_ELE
  | "Z"%byte => Ret RT_ZSET_META
  | "z"%byte => Ret RT_ZSET_S_ELE
  | "c"%byte => Ret RT_ZSET_H_ELE
  | "T"%byte => Ret RT_TBITMAP_META
  | "t"%byte => Ret RT_TBITMAP_ELE
  | xfe => Ret RT_TTL_INDEX
  | xff => Ret RT_BINLOG
  | _ => _ ← INVARIANT_D false; Ret RT_INVALID
  end.

Definition rt2Str {BM : BuildMode} (t : RecordType) : M bytes :=
  match t with
  | RT_KV => Ret (lit "STRING")
  | RT_LIST_META | RT_LIST_ELE => Ret (lit "LIST")
  | RT_HASH_META | RT_HASH_ELE => Ret (lit "HASH")
  | RT_SET_META | RT_SET_ELE => Ret (lit "SET")
  | RT_ZSET_META | RT_ZSET_H_ELE | RT_ZSET_S_ELE => Ret (lit "ZSET")
  | RT_TBITMAP_META | RT_TBITMAP_ELE => Ret (lit "TBITMAP")
  | _ => _ ← INVARIANT_D false; Ret []
  end.

(** * Record keys *)

Record RecordKey : Set := mkRecordKey {
  rk_chunkId : Z;
  rk_dbId : Z;
  rk_type : RecordType;
  rk_valueType : RecordType;
  rk_pk : bytes;
  rk_sk : bytes;
  rk_version : Z;
  rk_fmtVsn : byte
}.

(** The constructor: a data record is keyed by [RT_DATA_META], whatever its real type. *)
Definition RecordKey_new (chunkId dbid : Z) (type : RecordType) (pk sk : bytes) (version : Z)
  : RecordKey :=
  mkRecordKey chunkId dbid (getRealKeyType type) type pk sk version x00.

Definition RecordKey_default : RecordKey :=
  mkRecordKey 0 0 (getRealKeyType RT_INVALID) RT_INVALID [] [] 0 x00.

Definition CHUNKID_OFFSET : Z := 0.
Definition TYPE_OFFSET : Z := CHUNKID_OFFSET + 4.
Definition DBID_OFFSET : Z := TYPE_OFFSET + 1.
Definition PK_OFFSET : Z := DBID_OFFSET + 4.

(** [RecordKey::getHdrSize]. *)
Definition getHdrSize : Z := PK_OFFSET.

Section RecordKey.
Context {BM : BuildMode}.

Definition RecordKey_encodePrefixPk (k : RecordKey) : M bytes :=
  let chunk := be_bytes 4 (rk_chunkId k) in
  _ ← INVARIANT_D (isKeyType (rk_type k));
  c ← rt2Char (rk_type k);
  let db := be_bytes 4 (rk_dbId k) in
  _ ← INVARIANT_D ((rk_version k =? 0) || (rk_version k =? 2 ^ 64 - 1));
  Ret (chunk ++ [c] ++ db ++ rk_pk k ++ [x00] ++ varintEncode (rk_version k)).

Definition RecordKey_prefixPk (k : RecordKey) : M bytes := RecordKey_encodePrefixPk k.

Definition RecordKey_prefixSlotType (k : RecordKey) : M bytes :=
  c ← rt2Char (rk_type k);
  Ret (be_bytes 4 (rk_chunkId k) ++ [c]).

Definition RecordKey_prefixChunkid (k : RecordKey) : bytes := be_bytes 4 (rk_chunkId k).

Definition RecordKey_prefixReplLogV2 : M bytes :=
  c ← rt2Char RT_BINLOG;
  Ret ([xff; xff; xff; x01] ++ [c] ++ [xff; xff; xff; x01]).

Definition RecordKey_prefixTTLIndex : M bytes :=
  c ← rt2Char RT_TTL_INDEX;
  Ret ([xff; xff; x00; x00] ++ [c] ++ [xff; xff; x00; x00]).

Definition RecordKey_prefixVersionMeta : M bytes :=
  c ← rt2Char RT_META;
  Ret ([xff; xfe; x00; x00] ++ [c] ++ [xff; xfe; x00; x00]).

Definition RecordKey_getRecordType (k : RecordKey) : M RecordType :=
  _ ← INVARIANT_D (isKeyType (rk_type k));
  Ret (rk_type k).

Definition RecordKey_getRecordValueType (k : RecordKey) : M RecordType :=
  _ ← INVARIANT_D (bool_decide (rk_type k = getRealKeyType (rk_valueType k)));
  _ ← INVARIANT_D (negb (bool_decide (rk_valueType k = RT_DATA_META)));
  Ret (rk_valueType k).

Definition RecordKey_encode (k : RecordKey) : M bytes :=
  prefix ← RecordKey_encodePrefixPk k;
  let lenPK := varintEncode (zlen (rk_pk k)) in
  Ret (prefix ++ rk_sk k ++ rev lenPK ++ [rk_fmtVsn k]).

(** [sizeof(TRSV)]. *)
Definition rsvd : Z := 1.

Definition RecordKey_minSize : Z := getHdrSize + rsvd + 3.

Definition RecordKey_decodeChunkId (key : bytes) : M Z :=
  _ ← INVARIANT_D (getHdrSize <? zlen key);
  int32Decode (zdrop CHUNKID_OFFSET (c_str key)).

Definition RecordKey_decodeDbId (key : bytes) : M Z :=
  _ ← INVARIANT_D (getHdrSize <? zlen key);
  int32Decode (zdrop DBID_OFFSET (c_str key)).

(** [decodeType(const char* data, size_t size)]. *)
Definition RecordKey_decodeType_buf (data : bytes) (size : Z) : M RecordType :=
  _ ← INVARIANT_D (getHdrSize <? size);
  c ← (match znth data TYPE_OFFSET with Some c => Ret c | None => Crash CUndefined end);
  type ← char2Rt c;
  _ ← INVARIANT_D (isKeyType type);
  _ ← INVARIANT_D (negb (bool_decide (type = RT_INVALID)));
  Ret type.

Definition RecordKey_decodeType (key : bytes) : M RecordType :=
  _ ← INVARIANT_D (getHdrSize <? zlen key);
  RecordKey_decodeType_buf (c_str key) (zlen key).

(** The bytes below the reserved one, read downwards from [c_str + size - rsvd - 1]. *)
Definition below_rsvd (key : bytes) : bytes := rev (ztake (zlen key - rsvd) key).

Definition RecordKey_decode (key : bytes) : M RecordKey :=
  if zlen key <? RecordKey_minSize then Throw ERR_DECODE (lit "invalid recordkey") else
  let offset := getHdrSize in
  chunkid ← RecordKey_decodeChunkId key;
  type ← RecordKey_decodeType key;
  dbid ← RecordKey_decodeDbId key;
  '(pkLen, rvsOffset) ← varintDecodeRvs (below_rsvd key) (u64 (zlen key - rsvd - offset));
  if zlen key <? u64 (offset + rsvd + rvsOffset + pkLen + 1)
  then Throw ERR_DECODE (lit "invalid sk len") else
  pk ← read_n (zdrop offset (c_str key)) pkLen;
  let ptr := zdrop (offset + pkLen + 1) (c_str key) in
  let left := u64 (zlen key - offset - rsvd - rvsOffset - pkLen - 1) in
  '(version, versionLen) ←
    catch (varintDecodeFwd ptr left) (fun _ _ => Throw ERR_DECODE (lit "invalid version len"));
  _ ← INVARIANT_D (version =? 0);
  let skLen := u64 (left - versionLen) in
  sk ← (if negb (skLen =? 0) then read_n (zdrop versionLen ptr) skLen else Ret []);
  Ret (RecordKey_new chunkid dbid type pk sk version).

(** [RecordKey::validate]; [RT_INVALID] accepts every type. *)
Definition RecordKey_validate (key : bytes) (type : RecordType) : M bool :=
  if zlen key <? RecordKey_minSize then Throw ERR_DECODE (lit "invalid recordkey") else
  let offset := getHdrSize in
  thisType ← RecordKey_decodeType key;
  if negb (bool_decide (type = RT_INVALID)) && negb (bool_decide (type = thisType))
  then Throw ERR_DECODE (lit "mismatch key type") else
  '(pkLen, rvsOffset) ← varintDecodeRvs (below_rsvd key) (u64 (zlen key - rsvd - offset));
  if zlen key <? u64 (offset + rsvd + rvsOffset + pkLen + 1)
  then Throw ERR_DECODE (lit "invalid sk len") else
  let ptr := zdrop (offset + pkLen + 1) (c_str key) in
  let left := u64 (zlen key - offset - rsvd - rvsOffset - pkLen - 1) in
  '(version, _) ←
    catch (varintDecodeFwd ptr left) (fun _ _ => Throw ERR_DECODE (lit "invalid version len"));
  if negb (version =? 0) then Throw ERR_DECODE (lit "invalid version in record key") else
  Ret true.

(** [RecordKey::operator==]: the value type is not compared. *)
Definition RecordKey_eqb (a b : RecordKey) : bool :=
  (rk_chunkId a =? rk_chunkId b) && (rk_dbId a =? rk_dbId b) &&
  bool_decide (rk_type a = rk_type b) && bool_decide (rk_pk a = rk_pk b) &&
  bool_decide (rk_sk a = rk_sk b) && (rk_version a =? rk_version b) &&
  bool_decide (rk_fmtVsn a = rk_fmtVsn b).

End RecordKey.

(** Arithmetic on the fixed offsets of a key. *)
Ltac hdr_lia :=
  unfold is_u, RecordKey_minSize, rsvd, getHdrSize, PK_OFFSET, DBID_OFFSET, TYPE_OFFSET,
    CHUNKID_OFFSET in *; lia.

(** * Tags *)

Section Tags.
Context {BM : BuildMode}.

Lemma rt2Char_some t : t <> RT_INVALID -> exists c, rt2Char t = Ret c.
Proof. destruct t; simpl; eauto. done. Qed.

Lemma char2Rt_rt2Char t c : rt2Char t = Ret c -> char2Rt c = Ret t.
Proof. destruct t; simpl; intros [= <-]; reflexivity. Qed.

Lemma rt2Char_inj t t' c : rt2Char t = Ret c -> rt2Char t' = Ret c -> t = t'.
Proof. intros H H'. apply char2Rt_rt2Char in H, H'. congruence. Qed.

Lemma rt2Char_char2Rt c t : char2Rt c = Ret t -> t <> RT_INVALID -> rt2Char t = Ret c.
Proof.
  intros H Ht. destruct c; simpl in H;
    try (injection H as <-; reflexivity); exfalso; apply Ht;
    unfold INVARIANT_D in H; destruct novadb_DEBUG; simpl in H; congruence.
Qed.

End Tags.

(** * The layout of keys *)

(** The keys the store builds: 32-bit ids, a storable key type, version 0 (the code asserts
    it), the reserved byte 0, and components of realistic size. *)
Definition RecordKey_wf (k : RecordKey) : Prop :=
  is_u32 (rk_chunkId k) /\ is_u32 (rk_dbId k) /\
  isKeyType (rk_type k) = true /\ rk_type k <> RT_INVALID /\
  rk_version k = 0 /\ rk_fmtVsn k = x00 /\ zlen (rk_pk k) + zlen (rk_sk k) < 2 ^ 62.

(** What is before and after the primary key. *)
Definition rk_hdr (k : RecordKey) (c : byte) : bytes :=
  be_bytes 4 (rk_chunkId k) ++ [c] ++ be_bytes 4 (rk_dbId k).

Definition rk_tail (k : RecordKey) : bytes :=
  rk_sk k ++ rev (varintEncode (zlen (rk_pk k))) ++ [x00].

Lemma zlen_rk_hdr k c : zlen (rk_hdr k c) = 9.
Proof. unfold rk_hdr. rewrite !zlen_app, !zlen_be_bytes. done. Qed.

Section Layout.
Context {BM : BuildMode}.

Lemma RecordKey_prefixPk_eq k c :
  RecordKey_wf k -> rt2Char (rk_type k) = Ret c ->
  RecordKey_prefixPk k = Ret (rk_hdr k c ++ rk_pk k ++ [x00; x00]).
Proof.
  intros (_ & _ & Ht & _ & Hv & _) Hc. unfold RecordKey_prefixPk, RecordKey_encodePrefixPk.
  inv_d by done. rewrite Hc, bind_Ret, Hv. inv_d by done.
  unfold rk_hdr. by rewrite <-!app_assoc.
Qed.

Lemma RecordKey_encode_eq k c :
  RecordKey_wf k -> rt2Char (rk_type k) = Ret c ->
  RecordKey_encode k = Ret (rk_hdr k c ++ rk_pk k ++ [x00; x00] ++ rk_tail k).
Proof.
  intros Hwf Hc. unfold RecordKey_encode.
  change (RecordKey_encodePrefixPk k) with (RecordKey_prefixPk k).
  rewrite (RecordKey_prefixPk_eq k c) by done. rewrite bind_Ret.
  destruct Hwf as (_ & _ & _ & _ & _ & -> & _).
  unfold rk_tail. by rewrite <-!app_assoc.
Qed.

Lemma RecordKey_encode_total k :
  RecordKey_wf k -> exists c, rt2Char (rk_type k) = Ret c /\
    RecordKey_encode k = Ret (rk_hdr k c ++ rk_pk k ++ [x00; x00] ++ rk_tail k).
Proof.
  intros Hwf. destruct (rt2Char_some (rk_type k)) as [c Hc]; [apply Hwf|].
  eauto using RecordKey_encode_eq.
Qed.

(** ** Reading the parts of an encoded key *)

Definition rk_raw (k : RecordKey) (c : byte) : bytes :=
  rk_hdr k c ++ rk_pk k ++ [x00; x00] ++ rk_tail k.

Lemma zlen_rk_raw k c :
  zlen (rk_raw k c)
  = 12 + zlen (rk_pk k) + zlen (rk_sk k) + zlen (varintEncode (zlen (rk_pk k))).
Proof.
  unfold rk_raw, rk_tail. rewrite !zlen_app, zlen_rk_hdr, zlen_rev.
  change (zlen [x00; x00]) with 2. change (zlen [x00]) with 1. lia.
Qed.

Lemma pk_len_u64 k : RecordKey_wf k -> is_u64 (zlen (rk_pk k)).
Proof.
  intros (_ & _ & _ & _ & _ & _ & H). pose proof (zlen_nonneg (rk_pk k)).
  pose proof (zlen_nonneg (rk_sk k)). unfold is_u. lia.
Qed.

Lemma rk_raw_size k c :
  RecordKey_wf k -> 13 <= zlen (rk_raw k c) < 2 ^ 63 /\
  1 <= zlen (varintEncode (zlen (rk_pk k))) <= 10.
Proof.
  intros Hwf. pose proof (varintEncode_len _ (pk_len_u64 k Hwf)) as Hl.
  destruct Hwf as (_ & _ & _ & _ & _ & _ & H). rewrite zlen_rk_raw.
  pose proof (zlen_nonneg (rk_pk k)). pose proof (zlen_nonneg (rk_sk k)). lia.
Qed.

(** The header fields are read from any key with a header and something after it. *)
Lemma decodeChunkId_hdr k c rest :
  is_u32 (rk_chunkId k) -> 0 < zlen rest ->
  RecordKey_decodeChunkId (rk_hdr k c ++ rest) = Ret (rk_chunkId k).
Proof.
  intros Hu Hr. unfold RecordKey_decodeChunkId.
  inv_d by (apply Z.ltb_lt; rewrite zlen_app, zlen_rk_hdr; hdr_lia).
  unfold CHUNKID_OFFSET. rewrite zdrop_0. unfold c_str, rk_hdr.
  rewrite <-!app_assoc. by apply int32_roundtrip.
Qed.

Lemma decodeDbId_hdr k c rest :
  is_u32 (rk_dbId k) -> 0 < zlen rest ->
  RecordKey_decodeDbId (rk_hdr k c ++ rest) = Ret (rk_dbId k).
Proof.
  intros Hu Hr. unfold RecordKey_decodeDbId.
  inv_d by (apply Z.ltb_lt; rewrite zlen_app, zlen_rk_hdr; hdr_lia).
  unfold c_str, rk_hdr. rewrite <-!app_assoc.
  rewrite (app_assoc _ [c]), zdrop_app_eq by (by rewrite zlen_app, zlen_be_bytes).
  by apply int32_roundtrip.
Qed.

Lemma decodeType_hdr k c rest :
  isKeyType (rk_type k) = true -> rk_type k <> RT_INVALID -> rt2Char (rk_type k) = Ret c ->
  0 < zlen rest -> RecordKey_decodeType (rk_hdr k c ++ rest) = Ret (rk_type k).
Proof.
  intros Ht Hi Hc Hr. unfold RecordKey_decodeType, RecordKey_decodeType_buf.
  do 2 inv_d by (apply Z.ltb_lt; rewrite zlen_app, zlen_rk_hdr; hdr_lia).
  assert (znth (c_str (rk_hdr k c ++ rest)) TYPE_OFFSET = Some c) as ->.
  { unfold c_str, rk_hdr. rewrite <-!app_assoc.
    rewrite znth_app_r by (rewrite zlen_be_bytes; done). by rewrite zlen_be_bytes. }
  rewrite bind_Ret, (char2Rt_rt2Char _ _ Hc), bind_Ret. inv_d by done.
  inv_d by (by rewrite bool_decide_eq_false_2). done.
Qed.

Lemma rk_raw_nonempty k : 0 < zlen (rk_pk k ++ [x00; x00] ++ rk_tail k).
Proof.
  rewrite zlen_app, zlen_app. change (zlen [x00; x00]) with 2.
  pose proof (zlen_nonneg (rk_pk k)). pose proof (zlen_nonneg (rk_tail k)). lia.
Qed.

Lemma decodeChunkId_raw k c :
  RecordKey_wf k -> RecordKey_decodeChunkId (rk_raw k c) = Ret (rk_chunkId k).
Proof. intros Hwf. apply decodeChunkId_hdr; [apply Hwf|apply rk_raw_nonempty]. Qed.

Lemma decodeDbId_raw k c :
  RecordKey_wf k -> RecordKey_decodeDbId (rk_raw k c) = Ret (rk_dbId k).
Proof. intros Hwf. apply decodeDbId_hdr; [apply Hwf|apply rk_raw_nonempty]. Qed.

Lemma decodeType_raw k c :
  RecordKey_wf k -> rt2Char (rk_type k) = Ret c ->
  RecordKey_decodeType (rk_raw k c) = Ret (rk_type k).
Proof. intros Hwf Hc. apply decodeType_hdr; [apply Hwf|apply Hwf|done|apply rk_raw_nonempty]. Qed.

Lemma decodePkLen_raw k c :
  RecordKey_wf k ->
  varintDecodeRvs (below_rsvd (rk_raw k c)) (u64 (zlen (rk_raw k c) - rsvd - getHdrSize))
  = Ret (zlen (rk_pk k), zlen (varintEncode (zlen (rk_pk k)))).
Proof.
  intros Hwf. pose proof (rk_raw_size k c Hwf) as [Hs Hl]. unfold below_rsvd.
  assert (rk_raw k c = ((rk_hdr k c ++ rk_pk k ++ [x00; x00] ++ rk_sk k) ++
    rev (varintEncode (zlen (rk_pk k)))) ++ [x00]) as E.
  { unfold rk_raw, rk_tail. by rewrite <-!app_assoc. }
  rewrite E at 2. rewrite ztake_app_eq.
  2: { rewrite E, zlen_app. unfold rsvd. change (zlen [x00]) with 1. lia. }
  rewrite rev_app_distr, rev_involutive.
  apply varintDecodeRvs_encode; [by apply pk_len_u64|].
  rewrite wrap_id by (hdr_lia).
  rewrite zlen_rk_raw. pose proof (zlen_nonneg (rk_pk k)). pose proof (zlen_nonneg (rk_sk k)).
  hdr_lia.
Qed.

End Layout.

(** * Decoding an encoded key *)

Section Decode.
Context {BM : BuildMode}.

Lemma rk_raw_at_pk k c :
  at_offset (rk_raw k c) getHdrSize (rk_pk k ++ [x00; x00] ++ rk_tail k).
Proof. exists (rk_hdr k c). split; [done|]. by rewrite zlen_rk_hdr. Qed.

Lemma rk_raw_at_version k c :
  at_offset (rk_raw k c) (getHdrSize + zlen (rk_pk k) + 1) ([x00] ++ rk_tail k).
Proof.
  apply (at_offset_skip _ _ [x00]), at_offset_skip, rk_raw_at_pk.
Qed.

(** The bounds test of [decode] and [validate] passes, and [left] is the version and the
    secondary key. *)
Lemma rk_raw_left k c :
  RecordKey_wf k ->
  let lenPK := zlen (varintEncode (zlen (rk_pk k))) in
  (zlen (rk_raw k c) <? u64 (getHdrSize + rsvd + lenPK + zlen (rk_pk k) + 1)) = false /\
  u64 (zlen (rk_raw k c) - getHdrSize - rsvd - lenPK - zlen (rk_pk k) - 1) = 1 + zlen (rk_sk k).
Proof.
  intros Hwf. pose proof (rk_raw_size k c Hwf) as [Hs Hl]. cbv zeta.
  pose proof (zlen_nonneg (rk_pk k)). pose proof (zlen_nonneg (rk_sk k)).
  rewrite zlen_rk_raw in *. rewrite !wrap_id by hdr_lia.
  split; [apply Z.ltb_ge|]; hdr_lia.
Qed.

Lemma decode_version_raw k c left :
  1 <= left ->
  catch (varintDecodeFwd (zdrop (getHdrSize + zlen (rk_pk k) + 1) (c_str (rk_raw k c))) left)
    (fun _ _ => Throw ERR_DECODE (lit "invalid version len")) = Ret (0, 1).
Proof.
  intros H. rewrite (at_offset_ptr _ _ _ (rk_raw_at_version k c)), <-app_assoc.
  change [x00] with (varintEncode 0) at 1. by rewrite varintDecodeFwd_encode.
Qed.

Lemma RecordKey_decode_raw k c :
  RecordKey_wf k -> rt2Char (rk_type k) = Ret c ->
  RecordKey_decode (rk_raw k c)
  = Ret (RecordKey_new (rk_chunkId k) (rk_dbId k) (rk_type k) (rk_pk k) (rk_sk k) 0).
Proof.
  intros Hwf Hc. pose proof (rk_raw_size k c Hwf) as [Hs Hl]. unfold RecordKey_decode.
  destruct (Z.ltb_spec (zlen (rk_raw k c)) RecordKey_minSize); [hdr_lia|].
  rewrite decodeChunkId_raw, bind_Ret, decodeType_raw, bind_Ret, decodeDbId_raw, bind_Ret by done.
  rewrite decodePkLen_raw, bind_Ret by done.
  destruct (rk_raw_left k c Hwf) as [-> ->].
  rewrite (at_offset_ptr _ _ _ (rk_raw_at_pk k c)), <-app_assoc, read_n_app, bind_Ret by done.
  pose proof (zlen_nonneg (rk_sk k)) as Hsk.
  rewrite decode_version_raw, bind_Ret by lia. inv_d by done.
  replace (1 + zlen (rk_sk k) - 1) with (zlen (rk_sk k)) by lia.
  pose proof (zlen_nonneg (rk_pk k)). rewrite zlen_rk_raw in Hs. rewrite wrap_id by hdr_lia.
  rewrite zdrop_zdrop by hdr_lia.
  rewrite (at_offset_ptr _ _ (rk_tail k)) by (apply (at_offset_skip _ _ [x00]), rk_raw_at_version).
  unfold rk_tail. rewrite <-!app_assoc.
  destruct (Z.eqb_spec (zlen (rk_sk k)) 0) as [E|E]; cbn [negb].
  - by rewrite bind_Ret, (zlen_0_nil _ E).
  - by rewrite read_n_app, bind_Ret.
Qed.

Lemma RecordKey_validate_raw k c type :
  RecordKey_wf k -> rt2Char (rk_type k) = Ret c ->
  RecordKey_validate (rk_raw k c) type =
    if bool_decide (type = RT_INVALID \/ type = rk_type k) then Ret true
    else Throw ERR_DECODE (lit "mismatch key type").
Proof.
  intros Hwf Hc. pose proof (rk_raw_size k c Hwf) as [Hs Hl]. unfold RecordKey_validate.
  destruct (Z.ltb_spec (zlen (rk_raw k c)) RecordKey_minSize); [hdr_lia|].
  rewrite decodeType_raw, bind_Ret by done.
  rewrite bool_decide_or, <-negb_orb.
  destruct (bool_decide _ || bool_decide _); [|done]. cbn [negb].
  rewrite decodePkLen_raw, bind_Ret by done. destruct (rk_raw_left k c Hwf) as [-> ->].
  pose proof (zlen_nonneg (rk_sk k)). by rewrite decode_version_raw, bind_Ret by lia.
Qed.

End Decode.

(** * Equality of keys *)

Section Equality.

Definition RecordKey_equiv (a b : RecordKey) : Prop := RecordKey_eqb a b = true.

Lemma RecordKey_equiv_fields a b :
  RecordKey_equiv a b <->
  rk_chunkId a = rk_chunkId b /\ rk_dbId a = rk_dbId b /\ rk_type a = rk_type b /\
  rk_pk a = rk_pk b /\ rk_sk a = rk_sk b /\ rk_version a = rk_version b /\
  rk_fmtVsn a = rk_fmtVsn b.
Proof.
  unfold RecordKey_equiv, RecordKey_eqb.
  rewrite !andb_true_iff, !bool_decide_eq_true, !Z.eqb_eq. tauto.
Qed.

#[export] Instance RecordKey_equiv_equivalence : Equivalence RecordKey_equiv.
Proof.
  split.
  - intros a. by apply RecordKey_equiv_fields.
  - intros a b. rewrite !RecordKey_equiv_fields. intuition congruence.
  - intros a b c. rewrite !RecordKey_equiv_fields. intuition congruence.
Qed.

(** Keys the program considers equal have the same bytes. *)
#[export] Instance RecordKey_encode_proper {BM : BuildMode} :
  Proper (RecordKey_equiv ==> (=)) RecordKey_encode.
Proof.
  intros a b. rewrite RecordKey_equiv_fields. intros (E1 & E2 & E3 & E4 & E5 & E6 & E7).
  unfold RecordKey_encode, RecordKey_encodePrefixPk. by rewrite E1, E2, E3, E4, E5, E6, E7.
Qed.

End Equality.

Lemma isKeyType_real t : isKeyType t = true -> getRealKeyType t = t.
Proof. by destruct t. Qed.

Lemma RecordKey_wf_new chunkId dbid type pk sk :
  is_u32 chunkId -> is_u32 dbid -> type <> RT_INVALID -> zlen pk + zlen sk < 2 ^ 62 ->
  RecordKey_wf (RecordKey_new chunkId dbid type pk sk 0).
Proof. intros. repeat split; try apply H; try apply H0; try done; by destruct type. Qed.

Lemma RecordKey_decode_encode {BM : BuildMode} k s :
  RecordKey_wf k -> RecordKey_encode k = Ret s ->
  exists k', RecordKey_decode s = Ret k' /\ RecordKey_equiv k' k /\ rk_valueType k' = rk_type k.
Proof.
  intros Hwf Hs. destruct (RecordKey_encode_total k Hwf) as (c & Hc & E).
  rewrite E in Hs. apply (inj Ret) in Hs as <-. eexists. split; [by apply RecordKey_decode_raw|].
  split; [|done]. apply RecordKey_equiv_fields. destruct Hwf as (_ & _ & Ht & _ & Hv & Hf & _).
  cbn. rewrite isKeyType_real; [done|done].
Qed.

(** ** Headers and prefixes *)

Lemma rk_hdr_inj k1 k2 c1 c2 :
  RecordKey_wf k1 -> RecordKey_wf k2 ->
  rt2Char (rk_type k1) = Ret c1 -> rt2Char (rk_type k2) = Ret c2 ->
  rk_hdr k1 c1 = rk_hdr k2 c2 ->
  rk_chunkId k1 = rk_chunkId k2 /\ rk_type k1 = rk_type k2 /\ rk_dbId k1 = rk_dbId k2.
Proof.
  intros (Hc1 & Hd1 & _) (Hc2 & Hd2 & _) H1 H2. unfold rk_hdr. intros E.
  apply app_inj_1 in E as [E1 E]; [|by rewrite !length_be_bytes].
  apply app_inj_1 in E as [[= ->] E2]; [|done].
  split; [by apply (be_bytes_inj 4)|]. split; [by eapply (rt2Char_inj (BM := false))|].
  by apply (be_bytes_inj 4).
Qed.

Lemma nul_free_split (a b r r' : bytes) :
  x00 ∉ a -> x00 ∉ b -> a ++ x00 :: r = b ++ x00 :: r' -> a = b.
Proof.
  revert b. induction a as [|x a IH]; intros [|y b] Ha Hb E; simpl in E; simplify_eq.
  - done.
  - set_solver.
  - set_solver.
  - f_equal. eapply IH; [set_solver|set_solver|done].
Qed.

Lemma compare_chunk k c (l : bytes) (n : Z) :
  RecordKey_wf k -> is_u32 n ->
  bytes_compare (rk_raw k c) (be_bytes 4 n ++ l) =
    match rk_chunkId k ?= n with
    | Eq => bytes_compare (zdrop 4 (rk_raw k c)) l
    | o => o
    end.
Proof.
  intros Hwf Hn. unfold rk_raw, rk_hdr. rewrite <-!app_assoc.
  rewrite bytes_compare_blocks by (by rewrite !length_be_bytes).
  rewrite (be_compare 4) by (done || apply Hwf).
  rewrite zdrop_app_eq by (by rewrite zlen_be_bytes). done.
Qed.

(** * Properties *)

(** C31: a well-formed key survives the store: [encode] succeeds, [decode] of its bytes succeeds
    in both builds, and the key read back is equal ([operator==]) to the one written; the
    decoders of its single fields and [validate] agree with it. *)
Theorem RecordKey_roundtrip {BM : BuildMode} (k : RecordKey) :
  RecordKey_wf k ->
  exists s k',
    RecordKey_encode k = Ret s /\ RecordKey_decode s = Ret k' /\ RecordKey_eqb k' k = true /\
    RecordKey_decodeChunkId s = Ret (rk_chunkId k) /\ RecordKey_decodeDbId s = Ret (rk_dbId k) /\
    RecordKey_decodeType s = Ret (rk_type k) /\
    (forall type, RecordKey_validate s type =
      if bool_decide (type = RT_INVALID \/ type = rk_type k) then Ret true
      else Throw ERR_DECODE (lit "mismatch key type")).
Proof.
  intros Hwf. destruct (RecordKey_encode_total k Hwf) as (c & Hc & E).
  destruct (RecordKey_decode_encode k _ Hwf E) as (k' & Hd & He & _).
  exists (rk_raw k c), k'. split_and!; try done.
  - by apply decodeChunkId_raw.
  - by apply decodeDbId_raw.
  - by apply decodeType_raw.
  - intros type. by apply RecordKey_validate_raw.
Qed.

Lemma RecordKey_roundtrip_witness :
  exists s k',
    @RecordKey_encode true (RecordKey_new 7 1 RT_HASH_ELE (lit "user:1") (lit "name") 0) = Ret s /\
    @RecordKey_decode true s = Ret k' /\
    RecordKey_eqb k' (RecordKey_new 7 1 RT_HASH_ELE (lit "user:1") (lit "name") 0) = true.
Proof.
  destruct (@RecordKey_roundtrip true (RecordKey_new 7 1 RT_HASH_ELE (lit "user:1") (lit "name") 0))
    as (s & k' & H1 & H2 & H3 & _).
  - apply RecordKey_wf_new; done.
  - exists s, k'. done.
Defined.

Lemma prefixPk_selects {BM : BuildMode} k1 k2 p s :
  RecordKey_wf k1 -> RecordKey_wf k2 -> x00 ∉ rk_pk k1 -> x00 ∉ rk_pk k2 ->
  RecordKey_prefixPk k1 = Ret p -> RecordKey_encode k2 = Ret s ->
  p `prefix_of` s <->
  rk_chunkId k1 = rk_chunkId k2 /\ rk_type k1 = rk_type k2 /\ rk_dbId k1 = rk_dbId k2 /\
  rk_pk k1 = rk_pk k2.
Proof.
  intros Hw1 Hw2 Hn1 Hn2 Hp Hs.
  destruct (rt2Char_some (rk_type k1)) as [c1 Hc1]; [apply Hw1|].
  destruct (rt2Char_some (rk_type k2)) as [c2 Hc2]; [apply Hw2|].
  rewrite (RecordKey_prefixPk_eq k1 c1) in Hp by done. apply (inj Ret) in Hp as <-.
  rewrite (RecordKey_encode_eq k2 c2) in Hs by done. apply (inj Ret) in Hs as <-. split.
  - intros [r E]. rewrite <-!app_assoc in E.
    apply app_inj_1 in E as [Eh E]; [|done].
    apply (rk_hdr_inj k2 k1 c2 c1) in Eh as (-> & -> & ->); [|done..].
    apply nul_free_split in E; [|done..]. done.
  - intros (E1 & E2 & E3 & E4). rewrite E2 in Hc1. rewrite Hc2 in Hc1. apply (inj Ret) in Hc1 as ->.
    exists (rk_tail k2). unfold rk_hdr. by rewrite E1, E3, E4, <-!app_assoc.
Qed.

(** The prefix of a primary key selects exactly that key's records: when no primary key
    contains a NUL byte, [prefixPk] of one key is a prefix of the encoding of another
    precisely when chunk, type, database and primary key are the same. *)
Theorem RecordKey_prefixPk_selects {BM : BuildMode} k1 k2 p s :
  RecordKey_wf k1 -> RecordKey_wf k2 -> x00 ∉ rk_pk k1 -> x00 ∉ rk_pk k2 ->
  RecordKey_prefixPk k1 = Ret p -> RecordKey_encode k2 = Ret s ->
  p `prefix_of` s <->
  rk_chunkId k1 = rk_chunkId k2 /\ rk_type k1 = rk_type k2 /\ rk_dbId k1 = rk_dbId k2 /\
  rk_pk k1 = rk_pk k2.
Proof. apply prefixPk_selects. Qed.

Lemma RecordKey_prefixPk_selects_witness :
  exists p s,
    @RecordKey_prefixPk false (RecordKey_new 3 0 RT_SET_ELE (lit "k") [] 0) = Ret p /\
    @RecordKey_encode false (RecordKey_new 3 0 RT_SET_ELE (lit "k") (lit "m") 0) = Ret s /\
    p `prefix_of` s.
Proof.
  eexists _, _. split; [reflexivity|]. split; [reflexivity|].
  apply (@RecordKey_prefixPk_selects false (RecordKey_new 3 0 RT_SET_ELE (lit "k") [] 0)
    (RecordKey_new 3 0 RT_SET_ELE (lit "k") (lit "m") 0)); try reflexivity.
  - by apply RecordKey_wf_new.
  - by apply RecordKey_wf_new.
  - by apply (bool_decide_unpack _).
  - by apply (bool_decide_unpack _).
  - done.
Defined.

(** The padding zero does not separate primary keys that contain NUL bytes: the prefix of
    one key is a prefix of a record of a different key, so a prefix scan meets foreign
    records (the comment in [encodePrefixPk] assumes hexadecimal keys). *)
Theorem RecordKey_prefixPk_overlap {BM : BuildMode} (pk sk : bytes) (chunk db : Z) :
  is_u32 chunk -> is_u32 db -> zlen pk + zlen sk < 2 ^ 60 ->
  exists k1 k2 p s,
    rk_pk k1 = pk /\ rk_pk k1 <> rk_pk k2 /\ rk_sk k2 = sk /\
    RecordKey_wf k1 /\ RecordKey_wf k2 /\
    RecordKey_prefixPk k1 = Ret p /\ RecordKey_encode k2 = Ret s /\ p `prefix_of` s.
Proof.
  intros Hc Hd Hl. pose proof (zlen_nonneg pk). pose proof (zlen_nonneg sk).
  assert (RecordKey_wf (RecordKey_new chunk db RT_HASH_ELE pk [] 0)) as W1.
  { apply RecordKey_wf_new; [done..|]. rewrite zlen_nil. lia. }
  assert (RecordKey_wf (RecordKey_new chunk db RT_HASH_ELE (pk ++ [x00; x00]) sk 0)) as W2.
  { apply RecordKey_wf_new; [done..|]. rewrite zlen_app. change (zlen [x00; x00]) with 2. lia. }
  exists (RecordKey_new chunk db RT_HASH_ELE pk [] 0),
    (RecordKey_new chunk db RT_HASH_ELE (pk ++ [x00; x00]) sk 0).
  eexists _, _. split; [done|]. split.
  { cbn. intros E. apply (f_equal zlen) in E. rewrite zlen_app in E.
    change (zlen [x00; x00]) with 2 in E. lia. }
  do 3 (split; [done|]).
  split; [by apply RecordKey_prefixPk_eq|]. split; [by apply RecordKey_encode_eq|].
  unfold rk_hdr. cbn [rk_chunkId rk_dbId rk_pk RecordKey_new].
  eexists. rewrite <-!app_assoc. done.
Qed.

Lemma RecordKey_prefixPk_overlap_witness :
  exists k1 k2 p s,
    rk_pk k1 = lit "a" /\ rk_pk k1 <> rk_pk k2 /\ rk_sk k2 = lit "f" /\
    RecordKey_wf k1 /\ RecordKey_wf k2 /\
    @RecordKey_prefixPk false k1 = Ret p /\ @RecordKey_encode false k2 = Ret s /\ p `prefix_of` s.
Proof. apply (@RecordKey_prefixPk_overlap false (lit "a") (lit "f") 5 0); done. Defined.

(** The records of a chunk are contiguous in the store: a key's bytes lie at or above the
    prefix of chunk [n] and below the prefix of chunk [n + 1] precisely when its chunk is [n];
    so migrating or deleting the byte range of a slot touches that slot only, and chunk ids
    order keys (the replication log, at 0xFFFFFF01, comes after all data). *)
Theorem RecordKey_chunk_range {BM : BuildMode} k lo hi s :
  RecordKey_wf k -> RecordKey_wf lo -> RecordKey_wf hi ->
  rk_chunkId hi = rk_chunkId lo + 1 -> RecordKey_encode k = Ret s ->
  (bytes_compare s (RecordKey_prefixChunkid lo) <> Lt /\
   bytes_compare s (RecordKey_prefixChunkid hi) = Lt) <-> rk_chunkId k = rk_chunkId lo.
Proof.
  intros Hk Hlo Hhi E Hs. destruct (RecordKey_encode_total k Hk) as (c & Hc & E').
  rewrite E' in Hs. apply (inj Ret) in Hs as <-. unfold RecordKey_prefixChunkid.
  change (_ ++ _) with (rk_raw k c).
  rewrite <-(app_nil_r (be_bytes 4 (rk_chunkId lo))), <-(app_nil_r (be_bytes 4 (rk_chunkId hi))).
  rewrite !compare_chunk by (done || apply Hlo || apply Hhi). rewrite E.
  assert (forall l : bytes, bytes_compare l [] <> Lt) as Hnil by (by intros [|? ?]).
  pose proof (Hnil (zdrop 4 (rk_raw k c))).
  destruct (Z.compare_spec (rk_chunkId k) (rk_chunkId lo)),
    (Z.compare_spec (rk_chunkId k) (rk_chunkId lo + 1)); split; intuition (congruence || lia).
Qed.

Lemma RecordKey_chunk_range_witness :
  exists s, @RecordKey_encode false (RecordKey_new 9 0 RT_KV (lit "k") [] 0) = Ret s /\
    bytes_compare s (RecordKey_prefixChunkid (RecordKey_new 10 0 RT_KV [] [] 0)) = Lt.
Proof.
  eexists. split; [reflexivity|].
  edestruct (@RecordKey_chunk_range false (RecordKey_new 9 0 RT_KV (lit "k") [] 0)
    (RecordKey_new 9 0 RT_KV [] [] 0) (RecordKey_new 10 0 RT_KV [] [] 0)) as [_ H];
    [by apply RecordKey_wf_new..|reflexivity|reflexivity|]. by apply H.
Defined.

(** C37: the length check of [decode] is done in wrapping 64-bit arithmetic: on a key whose
    length field is [2^64 - 1] the check passes and [decode], in either build, asks for a
    string of that length instead of returning an error. *)
Theorem RecordKey_decode_length_overflow {BM : BuildMode} (chunk db : Z) :
  is_u32 chunk -> is_u32 db ->
  RecordKey_decode (rk_hdr (RecordKey_new chunk db RT_KV [] [] 0) "D"%byte ++
    rev (varintEncode (2 ^ 64 - 1)) ++ [x00]) = Crash CUndefined.
Proof.
  intros Hc Hd. set (k := RecordKey_new chunk db RT_KV [] [] 0).
  set (rest := rev (varintEncode (2 ^ 64 - 1)) ++ [x00]).
  assert (zlen (rk_hdr k "D"%byte ++ rest) = 20) as Hl by (by rewrite zlen_app, zlen_rk_hdr).
  unfold RecordKey_decode, below_rsvd. rewrite Hl.
  change (20 <? RecordKey_minSize) with false. cbv iota zeta.
  rewrite decodeChunkId_hdr, bind_Ret, decodeType_hdr, bind_Ret, decodeDbId_hdr, bind_Ret by done.
  unfold rest. rewrite app_assoc, ztake_app_eq by (by rewrite zlen_app, zlen_rk_hdr).
  rewrite rev_app_distr, rev_involutive.
  rewrite varintDecodeRvs_encode by (done || vm_compute; discriminate).
  rewrite bind_Ret.
  change (20 <? _) with false. cbv iota.
  set (s := c_str _). assert (zlen s = 21) as Hs.
  { unfold s, c_str. by rewrite !zlen_app, zlen_rk_hdr. }
  unfold read_n. rewrite zlen_drop, Hs by (rewrite Hs; hdr_lia). done.
Qed.

Lemma RecordKey_decode_length_overflow_witness :
  @RecordKey_decode false (rk_hdr (RecordKey_new 1 0 RT_KV [] [] 0) "D"%byte ++
    rev (varintEncode (2 ^ 64 - 1)) ++ [x00]) = Crash CUndefined.
Proof. apply (@RecordKey_decode_length_overflow false 1 0); done. Defined.
