(* ===== verification/RecordValue.v ===== *)
(** Record values and records (storage/record.h, storage/record.cpp): the header
    [type | ttl | version | versionEP | cas | pieceSize | totalSize] in front of the user
    value, its decoders and validator, and the pair of key and value. *)

From Stdlib Require Import Strings.Byte ZArith Lia.
From stdpp Require Import base list numbers strings.
From S2P Require Import Prelude Status Varint Record.

Local Open Scope Z_scope.

Record RecordValue : Set := mkRecordValue {
  rv_type : RecordType;
  rv_ttl : Z;
  rv_version : Z;
  rv_versionEP : Z;
  rv_cas : Z;
  rv_pieceSize : Z;
  rv_totalSize : Z;
  rv_value : bytes
}.

(** [(uint64_t)-1]. *)
Definition MAXU64 : Z := 2 ^ 64 - 1.

(** [RecordValue(RecordType type)]. *)
Definition RecordValue_of_type (type : RecordType) : RecordValue :=
  mkRecordValue type 0 0 MAXU64 (-1) MAXU64 MAXU64 [].

(** [RecordValue(double v, RecordType type)]: the score of a zset member. *)
Definition RecordValue_of_double (v : Z) (type : RecordType) : RecordValue :=
  mkRecordValue type 0 0 MAXU64 (-1) MAXU64 MAXU64 (doubleEncode v).

(** The constructor from a value: [_totalSize] is always [-1]. *)
Definition RecordValue_new (val : bytes) (type : RecordType) (versionEp ttl cas version pieceSize : Z)
  : RecordValue :=
  mkRecordValue type ttl version versionEp cas pieceSize MAXU64 val.

(** The constructor of an update: it inherits cas, version and piece size from the value it
    replaces, if there is one. *)
Definition RecordValue_update (val : bytes) (type : RecordType) (versionEp ttl : Z)
  (oldRV : M RecordValue) : RecordValue :=
  let rv := RecordValue_new val type versionEp ttl (-1) 0 MAXU64 in
  match oldRV with
  | Ret old =>
      mkRecordValue (rv_type rv) (rv_ttl rv) (rv_version old) (rv_versionEP rv) (rv_cas old)
        (rv_pieceSize old) (rv_totalSize rv) (rv_value rv)
  | _ => rv
  end.

Definition RecordValue_setTtl (rv : RecordValue) (ttl : Z) : RecordValue :=
  mkRecordValue (rv_type rv) ttl (rv_version rv) (rv_versionEP rv) (rv_cas rv)
    (rv_pieceSize rv) (rv_totalSize rv) (rv_value rv).

Definition RecordValue_setCas (rv : RecordValue) (cas : Z) : RecordValue :=
  mkRecordValue (rv_type rv) (rv_ttl rv) (rv_version rv) (rv_versionEP rv) cas
    (rv_pieceSize rv) (rv_totalSize rv) (rv_value rv).

Definition RecordValue_minSize : Z := 7.

(** [memset(buf + off, b, n)]. *)
Definition memset (buf : bytes) (off n : Z) (b : byte) : M bytes :=
  if (0 <=? off) && (0 <=? n) && (off + n <=? zlen buf)
  then Ret (ztake off buf ++ zfill n b ++ zdrop (off + n) buf)
  else Crash CUndefined.

(** [_cas + 1] on a signed 64-bit integer. *)
Definition cas_succ (cas : Z) : M Z :=
  if cas =? 2 ^ 63 - 1 then Crash CUndefined else Ret (u64 (cas + 1)).

Section RecordValue.
Context {BM : BuildMode}.

(** The header is written into a buffer of 128 bytes, which is then cut. *)
Definition RecordValue_encode (rv : RecordValue) : M bytes :=
  let size := 128 in
  let output := zfill size x00 in
  c ← rt2Char (rv_type rv);
  output ← store output 0 c;
  let offset := 1 in
  '(output, offset) ←
    (if isDataMetaType (rv_type rv) then
       '(output, n) ← varintEncodeBuf output offset (size - offset) (rv_ttl rv);
       let offset := offset + n in
       '(output, n) ← varintEncodeBuf output offset (size - offset) (rv_version rv);
       let offset := offset + n in
       _ ← INVARIANT_D (rv_version rv =? 0);
       '(output, n) ← varintEncodeBuf output offset (size - offset) (u64 (rv_versionEP rv + 1));
       let offset := offset + n in
       cas1 ← cas_succ (rv_cas rv);
       '(output, n) ← varintEncodeBuf output offset (size - offset) cas1;
       let offset := offset + n in
       '(output, n) ← varintEncodeBuf output offset (size - offset) (u64 (rv_pieceSize rv + 1));
       let offset := offset + n in
       _ ← INVARIANT_D (rv_pieceSize rv =? MAXU64);
       '(output, n) ← varintEncodeBuf output offset (size - offset) (u64 (rv_totalSize rv + 1));
       let offset := offset + n in
       _ ← INVARIANT_D (rv_totalSize rv =? MAXU64);
       Ret (output, offset)
     else
       _ ← INVARIANT_D (rv_ttl rv =? 0);
       _ ← INVARIANT_D (rv_version rv =? 0);
       _ ← INVARIANT_D (rv_versionEP rv =? MAXU64);
       _ ← INVARIANT_D (rv_cas rv =? -1);
       _ ← INVARIANT_D (rv_pieceSize rv =? MAXU64);
       _ ← INVARIANT_D (rv_totalSize rv =? MAXU64);
       output ← memset output offset (RecordValue_minSize - offset) x00;
       Ret (output, RecordValue_minSize));
  Ret (ztake offset output ++ rv_value rv).

Definition RecordValue_decode (value : bytes) : M RecordValue :=
  if zlen value <? RecordValue_minSize
  then Throw ERR_DECODE (lit "too small RecordValue") else
  c ← str_at value 0;
  let offset := 1 in
  typeForMeta ← char2Rt c;
  '(offset, ttl, version, versionEP, cas, pieceSize) ←
    (if isDataMetaType typeForMeta then
       '(ttl, offset) ← varint_next value offset;
       '(version, offset) ← varint_next value offset;
       _ ← INVARIANT_D (version =? 0);
       '(v, offset) ← varint_next value offset;
       let versionEP := u64 (v - 1) in
       '(v, offset) ← varint_next value offset;
       let cas := s64 (u64 (v - 1)) in
       '(v, offset) ← varint_next value offset;
       let pieceSize := u64 (v - 1) in
       _ ← INVARIANT_D (pieceSize =? MAXU64);
       '(v, offset) ← varint_next value offset;
       let totalSize := u64 (v - 1) in
       _ ← INVARIANT_D (totalSize =? MAXU64);
       if zlen value <? offset then
         Throw ERR_DECODE (lit "marshaled value content, offset:" ++ to_string offset ++
                           lit ",ttl:" ++ to_string ttl)
       else Ret (offset, ttl, version, versionEP, cas, pieceSize)
     else Ret (RecordValue_minSize, 0, 0, MAXU64, -1, MAXU64));
  rawValue ← (if offset <? zlen value
              then read_n (zdrop offset (c_str value)) (zlen value - offset) else Ret []);
  Ret (RecordValue_new rawValue typeForMeta versionEP ttl cas version pieceSize).

(** [RecordValue::validate]; [RT_INVALID] accepts every type. *)
Definition RecordValue_validate (value : bytes) (type : RecordType) : M bool :=
  if zlen value <? RecordValue_minSize
  then Throw ERR_DECODE (lit "too small RecordValue") else
  c ← str_at value 0;
  let offset := 1 in
  typeForMeta ← char2Rt c;
  if negb (bool_decide (type = RT_INVALID)) && negb (bool_decide (type = typeForMeta))
  then Throw ERR_DECODE (lit "record type mismatch") else
  '(_, offset) ← varint_next value offset;
  '(_, offset) ← varint_next value offset;
  '(_, offset) ← varint_next value offset;
  '(_, offset) ← varint_next value offset;
  '(v, offset) ← varint_next value offset;
  let pieceSize := u64 (v - 1) in
  '(v, offset) ← varint_next value offset;
  let totalSize := u64 (v - 1) in
  if pieceSize <? totalSize then Throw ERR_DECODE (lit "invalid pieceSize") else
  if negb (totalSize =? u64 (zlen value - offset)) && negb (totalSize =? MAXU64)
  then Throw ERR_DECODE (lit "invalid totalSize") else
  Ret true.

Definition RecordValue_decodeHdrSize (value : bytes) : M Z :=
  if zlen value <? 7 then Throw ERR_DECODE (lit "too small RecordValue") else
  let offset := 1 in
  '(_, offset) ← varint_next value offset;
  '(_, offset) ← varint_next value offset;
  '(_, offset) ← varint_next value offset;
  '(_, offset) ← varint_next value offset;
  '(_, offset) ← varint_next value offset;
  '(_, offset) ← varint_next value offset;
  Ret offset.

(** [RecordValue::decodeType(const char* value, size_t size)]. *)
Definition RecordValue_decodeType (value : bytes) : M RecordType :=
  c ← str_at value 0;
  char2Rt c.

Definition RecordValue_decodeHdrSizeNoMeta (value : bytes) : M Z :=
  if zlen value <? RecordValue_minSize then Throw ERR_DECODE (lit "too small RecordValue") else
  type ← RecordValue_decodeType value;
  _ ← INVARIANT_D (negb (isDataMetaType type));
  Ret RecordValue_minSize.

(** A value whose expiry cannot be read is treated as having none. *)
Definition RecordValue_decodeTtl (value : bytes) : M Z :=
  catch ('(ttl, _) ← varint_next value 1; Ret ttl) (fun _ _ => Ret 0).

(** [RecordValue::operator==]. *)
Definition RecordValue_eqb (a b : RecordValue) : bool :=
  (rv_ttl a =? rv_ttl b) && (rv_cas a =? rv_cas b) && (rv_version a =? rv_version b) &&
  bool_decide (rv_type a = rv_type b) && (rv_versionEP a =? rv_versionEP b) &&
  (rv_totalSize a =? rv_totalSize b) && (rv_pieceSize a =? rv_pieceSize b) &&
  bool_decide (rv_value a = rv_value b).

(** ** Records *)

Definition Rec_encode (k : RecordKey) (v : RecordValue) : M (bytes * bytes) :=
  ks ← RecordKey_encode k;
  vs ← RecordValue_encode v;
  Ret (ks, vs).

Definition Rec_decode (key value : bytes) : M (RecordKey * RecordValue) :=
  k ← RecordKey_decode key;
  v ← RecordValue_decode value;
  Ret (k, v).

End RecordValue.

(** * The layout of values *)

(** The values the program builds (the code asserts the fixed fields): version 0, no pieces;
    a value that is not the meta of a data key carries no header information. *)
Definition RecordValue_wf (rv : RecordValue) : Prop :=
  rv_type rv <> RT_INVALID /\ is_u64 (rv_ttl rv) /\ rv_version rv = 0 /\
  is_u64 (rv_versionEP rv) /\ - 2 ^ 63 <= rv_cas rv < 2 ^ 63 - 1 /\
  rv_pieceSize rv = MAXU64 /\ rv_totalSize rv = MAXU64 /\ zlen (rv_value rv) < 2 ^ 62 /\
  (isDataMetaType (rv_type rv) = false ->
    rv_ttl rv = 0 /\ rv_versionEP rv = MAXU64 /\ rv_cas rv = -1).

(** The value an update replaces, if there is one. *)
Definition old_ok (old : M RecordValue) : Prop := match old with Ret rv => RecordValue_wf rv | _ => True end.
Definition old_ttl (old : M RecordValue) : Z := match old with Ret rv => rv_ttl rv | _ => 0 end.

Lemma update_wf val type ep old :
  isDataMetaType type = true -> zlen val < 2 ^ 62 -> is_u64 ep -> old_ok old ->
  RecordValue_wf (RecordValue_update val type ep (old_ttl old) old).
Proof.
  intros Ht Hl He Ho. assert (type <> RT_INVALID) by (by intros ->). unfold RecordValue_update, RecordValue_new, old_ttl.
  destruct old as [rv| |]; cbn in *.
  - destruct Ho as (_ & H1 & H2 & H3 & H4 & H5 & _ & _). unfold RecordValue_wf; cbn. rewrite Ht. by split_and!; try done; apply H4.
  - unfold RecordValue_wf, MAXU64; cbn. rewrite Ht. unfold is_u in *. split_and!; try done; lia.
  - unfold RecordValue_wf, MAXU64; cbn. rewrite Ht. unfold is_u in *. split_and!; try done; lia.
Qed.

Lemma update_value val t ep ttl old :
  rv_value (RecordValue_update val t ep ttl old) = val /\ rv_ttl (RecordValue_update val t ep ttl old) = ttl /\
  rv_type (RecordValue_update val t ep ttl old) = t.
Proof. by destruct old. Qed.

(** The encoded header after the type tag, and the whole value. *)
Definition rv_body (rv : RecordValue) : bytes :=
  varintEncode (rv_ttl rv) ++ varintEncode 0 ++ varintEncode (u64 (rv_versionEP rv + 1)) ++
  varintEncode (u64 (rv_cas rv + 1)) ++ varintEncode 0 ++ varintEncode 0 ++ rv_value rv.

Definition rv_raw (rv : RecordValue) (c : byte) : bytes := c :: rv_body rv.

Lemma is_u64_0 : is_u64 0.
Proof. unfold is_u. lia. Qed.

#[export] Hint Resolve is_u64_0 : nova.
#[export] Hint Extern 1 (is_u _ (wrap _ _)) => (apply wrap_is_u; lia) : nova.

Section ValueLayout.
Context {BM : BuildMode}.

Lemma store_filled_0 size c : 0 < size -> store (zfill size x00) 0 c = Ret (filled size [c]).
Proof.
  intros H. replace size with (1 + (size - 1)) at 1 by lia. rewrite zfill_split by lia.
  apply (store_app [] x00 (zfill (size - 1) x00) c).
Qed.

Lemma ztake_filled size l off : off = zlen l -> ztake off (filled size l) = l.
Proof. intros ->. apply ztake_app. Qed.

(** Appends the next varint of a header under construction. *)
Ltac hdr_put :=
  rewrite varintEncodeBuf_filled; [rewrite bind_Ret|auto with nova|..];
  [|rewrite ?zlen_app; try reflexivity; change (zlen [_]) with 1; lia|].

Lemma RecordValue_encode_eq rv c :
  RecordValue_wf rv -> rt2Char (rv_type rv) = Ret c -> RecordValue_encode rv = Ret (rv_raw rv c).
Proof.
  intros (Hi & Httl & Hver & Hep & Hcas & Hps & Hts & Hval & Hnm) Hc.
  unfold RecordValue_encode. rewrite Hc, bind_Ret, store_filled_0, bind_Ret by lia.
  rewrite Hver, Hps, Hts.
  assert (u64 (MAXU64 + 1) = 0) as -> by done.
  pose proof (varintEncode_len (rv_ttl rv) Httl).
  pose proof (varintEncode_len 0 is_u64_0).
  pose proof (varintEncode_len (u64 (rv_versionEP rv + 1)) ltac:(auto with nova)).
  pose proof (varintEncode_len (u64 (rv_cas rv + 1)) ltac:(auto with nova)).
  destruct (isDataMetaType (rv_type rv)) eqn:Hm.
  - hdr_put; [|change (zlen [c]) with 1; lia].
    hdr_put; [|rewrite ?zlen_app; change (zlen [c]) with 1; lia]. inv_d by done.
    hdr_put; [|rewrite ?zlen_app; change (zlen [c]) with 1; lia].
    unfold cas_succ. destruct (Z.eqb_spec (rv_cas rv) (2 ^ 63 - 1)); [lia|]. rewrite bind_Ret.
    hdr_put; [|rewrite ?zlen_app; change (zlen [c]) with 1; lia].
    hdr_put; [|rewrite ?zlen_app; change (zlen [c]) with 1; lia]. inv_d by done.
    hdr_put; [|rewrite ?zlen_app; change (zlen [c]) with 1; lia]. inv_d by done.
    rewrite bind_Ret. rewrite ztake_filled by (rewrite ?zlen_app; change (zlen [c]) with 1; lia).
    unfold rv_raw, rv_body. by rewrite <-!app_assoc.
  - destruct (Hnm eq_refl) as (E1 & E2 & E3). do 6 inv_d by (by rewrite ?E1, ?E2, ?E3).
    change (memset _ _ _ _) with (Ret (A := bytes) (filled 128 [c; x00; x00; x00; x00; x00; x00])).
    rewrite !bind_Ret, ztake_filled by done.
    unfold rv_raw, rv_body. by rewrite E1, E2, E3.
Qed.

End ValueLayout.

(** * Decoding an encoded value *)

Section ValueDecode.
Context {BM : BuildMode}.

Lemma rv_raw_at rv c : at_offset (rv_raw rv c) 1 (rv_body rv).
Proof. by exists [c]. Qed.

Lemma str_at_raw rv c : str_at (rv_raw rv c) 0 = Ret c.
Proof. done. Qed.

Lemma rv_raw_size rv c : RecordValue_wf rv -> 7 <= zlen (rv_raw rv c) < 2 ^ 63.
Proof.
  intros (_ & Httl & _ & _ & _ & _ & _ & Hval & _). unfold rv_raw, rv_body.
  rewrite zlen_cons, !zlen_app.
  pose proof (varintEncode_len (rv_ttl rv) Httl).
  pose proof (varintEncode_len 0 is_u64_0).
  pose proof (varintEncode_len (u64 (rv_versionEP rv + 1)) ltac:(auto with nova)).
  pose proof (varintEncode_len (u64 (rv_cas rv + 1)) ltac:(auto with nova)).
  pose proof (zlen_nonneg (rv_value rv)). lia.
Qed.

(** The offset of the user value. *)
Definition rv_hdrSize (rv : RecordValue) : Z :=
  1 + zlen (varintEncode (rv_ttl rv)) + zlen (varintEncode 0) +
  zlen (varintEncode (u64 (rv_versionEP rv + 1))) + zlen (varintEncode (u64 (rv_cas rv + 1))) +
  zlen (varintEncode 0) + zlen (varintEncode 0).

(** Reads the six header varints of an encoded value, one after the other. *)
Ltac read_header H := do 6 varint_step H.

Lemma RecordValue_decode_raw rv c :
  RecordValue_wf rv -> rt2Char (rv_type rv) = Ret c -> RecordValue_decode (rv_raw rv c) = Ret rv.
Proof.
  intros Hwf Hc. pose proof (rv_raw_size rv c Hwf) as Hs.
  destruct Hwf as (Hi & Httl & Hver & Hep & Hcas & Hps & Hts & Hval & Hnm).
  unfold RecordValue_decode. destruct (Z.ltb_spec (zlen (rv_raw rv c)) RecordValue_minSize).
  { unfold RecordValue_minSize in *. lia. }
  rewrite str_at_raw, bind_Ret, (char2Rt_rt2Char _ _ Hc), bind_Ret.
  pose proof (rv_raw_at rv c) as Hat.
  destruct rv as [t ttl ver ep cas ps ts val].
  cbn [rv_type rv_ttl rv_version rv_versionEP rv_cas rv_pieceSize rv_totalSize rv_value] in *; subst.
  destruct (isDataMetaType t) eqn:Hm.
  - unfold rv_body in Hat.
    cbn [rv_type rv_ttl rv_version rv_versionEP rv_cas rv_pieceSize rv_totalSize rv_value] in Hat.
    varint_step Hat. varint_step Hat. inv_d by done.
    varint_step Hat. varint_step Hat.
    varint_step Hat. inv_d by done. varint_step Hat. inv_d by done.
    apply at_offset_len in Hat as Hlen. destruct Hlen as [Hoff Hlen].
    set (off := 1 + _ + _ + _ + _ + _ + _) in *.
    pose proof (zlen_nonneg val) as Hv0.
    destruct (Z.ltb_spec (zlen (rv_raw (mkRecordValue t ttl 0 ep cas MAXU64 MAXU64 val) c)) off); [lia|].
    rewrite bind_Ret. rewrite wrap_succ_pred by done.
    assert (s64 (u64 (u64 (cas + 1) - 1)) = cas) as ->.
    { rewrite wrap_sub_l. replace (cas + 1 - 1) with cas by lia.
      apply signed_wrap; [lia|]. unfold is_s. lia. }
    change (u64 (0 - 1)) with MAXU64. rewrite Hlen.
    replace (off + zlen val - off) with (zlen val) by lia.
    destruct (Z.ltb_spec off (off + zlen val)).
    + by rewrite (at_offset_ptr _ _ _ Hat), read_n_app, bind_Ret.
    + by rewrite bind_Ret, (zlen_0_nil val) by lia.
  - destruct (Hnm eq_refl) as (-> & -> & ->).
    rewrite bind_Ret.
    assert (at_offset (rv_raw (mkRecordValue t 0 0 MAXU64 (-1) MAXU64 MAXU64 val) c) 7 val) as Hat'.
    { by exists [c; x00; x00; x00; x00; x00; x00]. }
    apply at_offset_len in Hat' as Hlen. destruct Hlen as [Hoff Hlen].
    pose proof (zlen_nonneg val). unfold RecordValue_minSize. rewrite Hlen.
    replace (7 + zlen val - 7) with (zlen val) by lia.
    destruct (Z.ltb_spec 7 (7 + zlen val)).
    + by rewrite (at_offset_ptr _ _ _ Hat'), read_n_app, bind_Ret.
    + by rewrite bind_Ret, (zlen_0_nil val) by lia.
Qed.

Lemma RecordValue_decodeHdrSize_raw rv c :
  RecordValue_wf rv -> RecordValue_decodeHdrSize (rv_raw rv c) = Ret (rv_hdrSize rv).
Proof.
  intros Hwf. pose proof (rv_raw_size rv c Hwf) as Hs. destruct Hwf as (_ & Httl & _).
  unfold RecordValue_decodeHdrSize. destruct (Z.ltb_spec (zlen (rv_raw rv c)) 7); [lia|].
  pose proof (rv_raw_at rv c) as Hat. unfold rv_body in Hat. read_header Hat. done.
Qed.

Lemma RecordValue_validate_raw rv c type :
  RecordValue_wf rv -> rt2Char (rv_type rv) = Ret c ->
  RecordValue_validate (rv_raw rv c) type =
    if bool_decide (type = RT_INVALID \/ type = rv_type rv) then Ret true
    else Throw ERR_DECODE (lit "record type mismatch").
Proof.
  intros Hwf Hc. pose proof (rv_raw_size rv c Hwf) as Hs. destruct Hwf as (_ & Httl & _).
  unfold RecordValue_validate. destruct (Z.ltb_spec (zlen (rv_raw rv c)) RecordValue_minSize).
  { unfold RecordValue_minSize in *. lia. }
  rewrite str_at_raw, bind_Ret, (char2Rt_rt2Char _ _ Hc), bind_Ret.
  rewrite bool_decide_or, <-negb_orb.
  destruct (bool_decide _ || bool_decide _); [|done]. cbn [negb].
  pose proof (rv_raw_at rv c) as Hat. unfold rv_body in Hat. read_header Hat.
  by rewrite andb_false_r.
Qed.

Lemma RecordValue_decodeTtl_raw rv c :
  RecordValue_wf rv -> RecordValue_decodeTtl (rv_raw rv c) = Ret (rv_ttl rv).
Proof.
  intros Hwf. pose proof (rv_raw_size rv c Hwf) as Hs. destruct Hwf as (_ & Httl & _).
  unfold RecordValue_decodeTtl. pose proof (rv_raw_at rv c) as Hat. unfold rv_body in Hat.
  by varint_step Hat.
Qed.

Lemma RecordValue_decodeType_raw rv c :
  rt2Char (rv_type rv) = Ret c -> RecordValue_decodeType (rv_raw rv c) = Ret (rv_type rv).
Proof. intros Hc. unfold RecordValue_decodeType. rewrite str_at_raw, bind_Ret. by apply char2Rt_rt2Char. Qed.

(** For the element types the header has a fixed size. *)
Lemma RecordValue_decodeHdrSizeNoMeta_raw rv c :
  RecordValue_wf rv -> rt2Char (rv_type rv) = Ret c -> isDataMetaType (rv_type rv) = false ->
  RecordValue_decodeHdrSizeNoMeta (rv_raw rv c) = Ret (rv_hdrSize rv).
Proof.
  intros Hwf Hc Hm. pose proof (rv_raw_size rv c Hwf). unfold RecordValue_decodeHdrSizeNoMeta.
  destruct (Z.ltb_spec (zlen (rv_raw rv c)) RecordValue_minSize); [unfold RecordValue_minSize in *; lia|].
  rewrite RecordValue_decodeType_raw, bind_Ret by done. inv_d by (by rewrite Hm).
  destruct Hwf as (_ & _ & _ & _ & _ & _ & _ & _ & Hnm). destruct (Hnm Hm) as (E1 & E2 & E3).
  unfold rv_hdrSize. by rewrite E1, E2, E3.
Qed.

Lemma rv_value_at rv c : at_offset (rv_raw rv c) (rv_hdrSize rv) (rv_value rv).
Proof. unfold rv_hdrSize. do 6 apply at_offset_skip. apply rv_raw_at. Qed.

End ValueDecode.

(** * Properties *)

Lemma RecordValue_eqb_refl rv : RecordValue_eqb rv rv = true.
Proof. unfold RecordValue_eqb. by rewrite !Z.eqb_refl, !bool_decide_true. Qed.

Lemma RecordValue_encode_total {BM : BuildMode} rv :
  RecordValue_wf rv -> exists c, rt2Char (rv_type rv) = Ret c /\ RecordValue_encode rv = Ret (rv_raw rv c).
Proof.
  intros Hwf. destruct (rt2Char_some (rv_type rv)) as [c Hc]; [apply Hwf|].
  eauto using RecordValue_encode_eq.
Qed.

(** A well-formed value survives the store, in both builds: [encode] stays inside its
    128-byte header buffer and succeeds, [decode] gives back exactly the value written, and
    the partial readers agree with it: [decodeType], [decodeTtl], [decodeHdrSize] (the user
    value starts at that offset), [decodeHdrSizeNoMeta] on the element types, and
    [validate], which rejects precisely another type. *)
Theorem RecordValue_roundtrip {BM : BuildMode} (rv : RecordValue) :
  RecordValue_wf rv ->
  exists s,
    RecordValue_encode rv = Ret s /\ RecordValue_decode s = Ret rv /\
    RecordValue_decodeType s = Ret (rv_type rv) /\ RecordValue_decodeTtl s = Ret (rv_ttl rv) /\
    (exists n, RecordValue_decodeHdrSize s = Ret n /\ zdrop n s = rv_value rv) /\
    (isDataMetaType (rv_type rv) = false ->
      RecordValue_decodeHdrSizeNoMeta s = RecordValue_decodeHdrSize s) /\
    (forall type, RecordValue_validate s type =
      if bool_decide (type = RT_INVALID \/ type = rv_type rv) then Ret true
      else Throw ERR_DECODE (lit "record type mismatch")).
Proof.
  intros Hwf. destruct (RecordValue_encode_total rv Hwf) as (c & Hc & E).
  exists (rv_raw rv c). rewrite RecordValue_decodeHdrSize_raw by done. split_and!.
  - done.
  - by apply RecordValue_decode_raw.
  - by apply RecordValue_decodeType_raw.
  - by apply RecordValue_decodeTtl_raw.
  - eexists. split; [done|]. apply at_offset_zdrop, rv_value_at.
  - intros Hm. by apply RecordValue_decodeHdrSizeNoMeta_raw.
  - intros type. by apply RecordValue_validate_raw.
Qed.

Lemma RecordValue_roundtrip_witness :
  exists s, @RecordValue_encode true (RecordValue_new (lit "v") RT_KV 3 1700000000000 7 0 MAXU64) = Ret s /\
    @RecordValue_decode true s = Ret (RecordValue_new (lit "v") RT_KV 3 1700000000000 7 0 MAXU64).
Proof.
  destruct (@RecordValue_roundtrip true (RecordValue_new (lit "v") RT_KV 3 1700000000000 7 0 MAXU64))
    as (s & H1 & H2 & _); [|by exists s].
  unfold RecordValue_wf, is_u, MAXU64; cbn; repeat split; try done; lia.
Defined.

(** Whole records round-trip: writing a key and a value and reading both back gives a key
    equal to the one written and the same value. *)
Theorem Record_roundtrip {BM : BuildMode} (k : RecordKey) (rv : RecordValue) :
  RecordKey_wf k -> RecordValue_wf rv ->
  exists ks vs k', Rec_encode k rv = Ret (ks, vs) /\ Rec_decode ks vs = Ret (k', rv) /\
    RecordKey_equiv k' k.
Proof.
  intros Hk Hv. destruct (RecordKey_encode_total k Hk) as (c & Hc & Ek).
  destruct (RecordValue_encode_total rv Hv) as (d & Hd & Ev).
  destruct (RecordKey_decode_encode k _ Hk Ek) as (k' & Dk & He & _).
  eexists _, _, k'. unfold Rec_encode, Rec_decode. rewrite Ek, Ev.
  split; [done|]. rewrite Dk, bind_Ret, RecordValue_decode_raw by done. done.
Qed.

Lemma Record_roundtrip_witness :
  exists ks vs k',
    @Rec_encode true (RecordKey_new 1 0 RT_SET_ELE (lit "s") (lit "m") 0) (RecordValue_of_type RT_SET_ELE)
      = Ret (ks, vs) /\
    @Rec_decode true ks vs = Ret (k', RecordValue_of_type RT_SET_ELE) /\
    RecordKey_equiv k' (RecordKey_new 1 0 RT_SET_ELE (lit "s") (lit "m") 0).
Proof.
  apply (@Record_roundtrip true); [by apply RecordKey_wf_new|].
  unfold RecordValue_wf, is_u, MAXU64; cbn; repeat split; try done; lia.
Defined.
