(* ===== verification/RecordMeta.v ===== *)
(** The values behind the keys (storage/record.h, storage/record.cpp): the meta values of
    lists, hashes, sets, bitmaps and sorted sets, the elements of a sorted set's skip list,
    the expiry index, the version meta, and the element counters. *)

From Stdlib Require Import Strings.Byte ZArith Lia.
From stdpp Require Import base list numbers strings.
From S2P Require Import Prelude Status Varint Record RecordValue.

Local Open Scope Z_scope.

(** * Lists *)

Record ListMetaValue : Set := mkListMeta { lm_head : Z; lm_tail : Z }.

Definition ListMetaValue_encode (m : ListMetaValue) : bytes :=
  varintEncode (lm_head m) ++ varintEncode (lm_tail m).

Definition ListMetaValue_decode (val : bytes) : M ListMetaValue :=
  '(head, offset) ← varint_next val 0;
  '(tail, offset) ← varint_next val offset;
  Ret (mkListMeta head tail).

(** * Hashes *)

Record HashMetaValue : Set := mkHashMeta { hm_count : Z }.

Definition HashMetaValue_encode (m : HashMetaValue) : bytes := varintEncode (hm_count m).

Definition HashMetaValue_decode (val : bytes) : M HashMetaValue :=
  '(count, _) ← varint_next val 0;
  Ret (mkHashMeta count).

(** * Sets *)

Record SetMetaValue : Set := mkSetMeta { sm_count : Z; sm_skIndex : bytes }.

Definition SetMetaValue_encode (m : SetMetaValue) : bytes :=
  varintEncode (sm_count m) ++ (if 0 <? zlen (sm_skIndex m) then sm_skIndex m else []).

Definition SetMetaValue_decode (val : bytes) : M SetMetaValue :=
  '(count, offset) ← varint_next val 0;
  if offset <? zlen val then
    sk ← read_n (zdrop offset (c_str val)) (zlen val - offset);
    Ret (mkSetMeta count sk)
  else Ret (mkSetMeta count []).

(** * Bitmaps *)

Record TBitMapMetaValue : Set := mkTBitMapMeta {
  tb_bitAmount : Z;
  tb_count : Z;
  tb_eleCount : Z;
  tb_fragmentLen : Z;
  tb_firstFragment : bytes
}.

(** [TBitMapMetaValue(uint64_t fragmentLen)]. *)
Definition TBitMapMetaValue_new (fragmentLen : Z) : TBitMapMetaValue :=
  mkTBitMapMeta 0 0 1 fragmentLen [].

(** [operator=(TBitMapMetaValue&&)]: what the assigned object holds afterwards. *)
Definition TBitMapMetaValue_assign (self o : TBitMapMetaValue) : TBitMapMetaValue :=
  mkTBitMapMeta (tb_bitAmount o) (tb_count o) (tb_eleCount self) (tb_fragmentLen o)
    (tb_firstFragment o).

Definition TBitMapMetaValue_encode (m : TBitMapMetaValue) : bytes :=
  varintEncode (tb_bitAmount m) ++ varintEncode (tb_count m) ++ varintEncode (tb_eleCount m) ++
  varintEncode (tb_fragmentLen m) ++ [x00] ++ tb_firstFragment m.

(** The first fragment is [std::string(c_str + offset, size - offset)]; past the end the size
    wraps around and the constructor throws [std::length_error]. *)
Definition TBitMapMetaValue_decode {BM : BuildMode} (val : bytes) : M TBitMapMetaValue :=
  '(bitAmount, offset) ← varint_next val 0;
  '(count, offset) ← varint_next val offset;
  '(eleCount, offset) ← varint_next val offset;
  '(fragmentLen, offset) ← varint_next val offset;
  c ← str_at val offset;
  _ ← INVARIANT_D (bool_decide (c = x00));
  let offset := offset + 1 in
  fragment ← (if zlen val <? offset then Crash CException
              else read_n (zdrop offset (c_str val)) (zlen val - offset));
  Ret (mkTBitMapMeta bitAmount count eleCount fragmentLen fragment).

Definition TBitMapMetaValue_byteAmount (m : TBitMapMetaValue) : Z :=
  Z.shiftr (tb_bitAmount m) 3 + (if negb (Z.land (tb_bitAmount m) 7 =? 0) then 1 else 0).

(** A division by zero when the fragment length is 0 is undefined. *)
Definition TBitMapMetaValue_fragmentAmount (m : TBitMapMetaValue) : M Z :=
  if tb_fragmentLen m =? 0 then Crash CUndefined else
  let byteAmount := TBitMapMetaValue_byteAmount m in
  Ret (byteAmount / tb_fragmentLen m +
       (if negb (byteAmount mod tb_fragmentLen m =? 0) then 1 else 0)).

(** How [TSetBitCommand::run] (commands/tbitmap.cpp) gets the meta value of a key: a fresh one,
    assigned from the stored value when the key exists. *)
Definition TBitMap_loadMeta {BM : BuildMode} (fragmentLen : Z) (stored : option bytes)
  : M TBitMapMetaValue :=
  match stored with
  | None => Ret (TBitMapMetaValue_new fragmentLen)
  | Some val =>
      m ← TBitMapMetaValue_decode val;
      Ret (TBitMapMetaValue_assign (TBitMapMetaValue_new fragmentLen) m)
  end.

(** * Sorted sets *)

Definition MAX_LAYER : Z := 32.
Definition MIN_POS : Z := 128.
Definition HEAD_ID : Z := 1.

Record ZSlMetaValue : Set := mkZSlMeta {
  zm_level : Z;
  zm_maxLevel : Z;
  zm_count : Z;
  zm_tail : Z;
  zm_posAlloc : Z
}.

Definition ZSlMetaValue_new (lvl count tail : Z) : ZSlMetaValue :=
  mkZSlMeta lvl MAX_LAYER count tail MIN_POS.

Definition ZSlMetaValue_encode {BM : BuildMode} (m : ZSlMetaValue) : M bytes :=
  _ ← INVARIANT_D (zm_maxLevel m =? MAX_LAYER);
  Ret (varintEncode (zm_level m) ++ varintEncode (zm_maxLevel m) ++ varintEncode (zm_count m) ++
       varintEncode (zm_tail m) ++ varintEncode (zm_posAlloc m)).

(** The fields narrower than 64 bits are truncated on assignment. *)
Definition ZSlMetaValue_decode {BM : BuildMode} (val : bytes) : M ZSlMetaValue :=
  '(level, offset) ← varint_next val 0;
  '(maxLevel, offset) ← varint_next val offset;
  _ ← INVARIANT_D (wrap 8 maxLevel =? MAX_LAYER);
  '(count, offset) ← varint_next val offset;
  '(tail, offset) ← varint_next val offset;
  '(posAlloc, offset) ← varint_next val offset;
  Ret (mkZSlMeta (wrap 8 level) (wrap 8 maxLevel) (u32 count) tail posAlloc).

Record ZSlEleValue : Set := mkZSlEle {
  ze_forward : list Z;
  ze_span : list Z;
  ze_score : Z;
  ze_backward : Z;
  ze_changed : bool;
  ze_subKey : bytes
}.

Definition ZSlEleValue_new (score : Z) (subkey : bytes) : ZSlEleValue :=
  mkZSlEle (zfill (MAX_LAYER + 1) 0) (zfill (MAX_LAYER + 1) 0) score 0 false subkey.

Definition ZSlEleValue_getForward (e : ZSlEleValue) (layer : Z) : M Z :=
  match znth (ze_forward e) layer with Some v => Ret v | None => Crash CUndefined end.

Definition ZSlEleValue_getSpan (e : ZSlEleValue) (layer : Z) : M Z :=
  match znth (ze_span e) layer with Some v => Ret v | None => Crash CUndefined end.

Definition ZSlEleValue_setBackward (e : ZSlEleValue) (pointer : Z) : ZSlEleValue :=
  mkZSlEle (ze_forward e) (ze_span e) (ze_score e) pointer true (ze_subKey e).

(** Writing outside the vectors is undefined. *)
Definition ZSlEleValue_setForward (e : ZSlEleValue) (layer pointer : Z) : M ZSlEleValue :=
  if (0 <=? layer) && (layer <? zlen (ze_forward e)) then
    Ret (mkZSlEle (zset (ze_forward e) layer pointer) (ze_span e) (ze_score e) (ze_backward e) true
           (ze_subKey e))
  else Crash CUndefined.

Definition ZSlEleValue_setSpan (e : ZSlEleValue) (layer span : Z) : M ZSlEleValue :=
  if (0 <=? layer) && (layer <? zlen (ze_span e)) then
    Ret (mkZSlEle (ze_forward e) (zset (ze_span e) layer span) (ze_score e) (ze_backward e) true
           (ze_subKey e))
  else Crash CUndefined.

Definition ZSlEleValue_encode (e : ZSlEleValue) : bytes :=
  concat (map varintEncode (ze_forward e)) ++ concat (map varintEncode (ze_span e)) ++
  doubleEncode (ze_score e) ++ varintEncode (ze_backward e) ++
  varintEncode (zlen (ze_subKey e)) ++ ze_subKey e.

(** The loop that reads [n] varints into an array. *)
Fixpoint varint_array (n : nat) (val : bytes) (offset : Z) : M (list Z * Z) :=
  match n with
  | O => Ret ([], offset)
  | S n' =>
      '(v, offset) ← varint_next val offset;
      '(vs, offset) ← varint_array n' val offset;
      Ret (v :: vs, offset)
  end.

Definition ZSlEleValue_decode (val : bytes) : M ZSlEleValue :=
  '(forward, offset) ← varint_array (Z.to_nat (MAX_LAYER + 1)) val 0;
  '(span, offset) ← varint_array (Z.to_nat (MAX_LAYER + 1)) val offset;
  score ← doubleDecode (zdrop offset (c_str val)) (u64 (zlen val - offset));
  let offset := offset + 8 in
  '(backward, offset) ← varint_next val offset;
  '(keyLen, offset) ← varint_next val offset;
  if negb (u64 (offset + keyLen) =? zlen val)
  then Throw ERR_DECODE (lit "invalid skiplist key len") else
  subKey ← read_n (zdrop offset (c_str val)) keyLen;
  Ret (mkZSlEle forward (map u32 span) score backward false subKey).

(** * The expiry index *)

Inductive IndexType : Set := IT_TTL | IT_INVALID.

Definition it2Char (t : IndexType) : M byte :=
  match t with IT_TTL => Ret (u8 116) | IT_INVALID => Crash CFatal end.

Definition char2It (t : byte) : M IndexType :=
  if bz t =? 116 then Ret IT_TTL else Crash CFatal.

Record TTLIndex : Set := mkTTLIndex {
  ti_priKey : bytes;
  ti_type : RecordType;
  ti_dbId : Z;
  ti_ttl : Z
}.

(** The class takes its chunk id from the database id constant and conversely. *)
Definition TTLIndex_CHUNKID : Z := TTLINDEX_DBID.
Definition TTLIndex_DBID : Z := TTLINDEX_CHUNKID.

Section TTLIndex.
Context {BM : BuildMode}.

Definition TTLIndex_ttlIndex (t : TTLIndex) : M bytes :=
  _ ← INVARIANT_D (isDataMetaType (ti_type t));
  c ← rt2Char (ti_type t);
  Ret (be_bytes 8 (ti_ttl t) ++ be_bytes 4 (ti_dbId t) ++ [c] ++ ti_priKey t).

(** The loop [acc = (acc << 8) | conv(index[offset + i])] in a [w]-bit accumulator. *)
Fixpoint index_fold (w : Z) (conv : byte -> Z) (index : bytes) (offset : Z) (n : nat) (acc : Z)
  : M Z :=
  match n with
  | O => Ret acc
  | S n' =>
      b ← str_at index offset;
      index_fold w conv index (offset + 1) n' (Z.lor (wrap w (Z.shiftl acc 8)) (wrap w (conv b)))
  end.

Definition TTLIndex_decodeTTL (index : bytes) : M Z := index_fold 64 bz index 0 8 0.

(** Here [index[offset + i]] is a [char], converted to [uint32_t] with its sign. *)
Definition TTLIndex_decodeDBId (index : bytes) : M Z := index_fold 32 cz index 8 4 0.

Definition TTLIndex_decodeType (index : bytes) : M RecordType :=
  c ← str_at index 12;
  char2Rt c.

(** [index.substr(13)] throws when the index is shorter. *)
Definition TTLIndex_decodePriKey (index : bytes) : M bytes :=
  if zlen index <? 13 then Crash CException else Ret (zdrop 13 index).

Definition TTLIndex_encode (t : TTLIndex) : M bytes :=
  partial ← TTLIndex_ttlIndex t;
  RecordKey_encode (RecordKey_new TTLIndex_CHUNKID TTLIndex_DBID RT_TTL_INDEX partial [] 0).

Definition TTLIndex_decode (rk : RecordKey) : M TTLIndex :=
  let index := rk_pk rk in
  if zlen index <? 8 + 1 + 4 then Throw ERR_DECODE (lit "Invalid keylen") else
  ttl ← TTLIndex_decodeTTL index;
  dbId ← TTLIndex_decodeDBId index;
  type ← TTLIndex_decodeType index;
  priKey ← TTLIndex_decodePriKey index;
  _ ← INVARIANT_D (negb (bool_decide (type = RT_DATA_META)));
  Ret (mkTTLIndex priKey type dbId ttl).

End TTLIndex.

(** * Version metas *)

Record VersionMeta : Set := mkVersionMeta { vm_timestamp : Z; vm_version : Z; vm_name : bytes }.

(** [operator<]: the version [UINT64_MAX] stands for no version and is below all others. *)
Definition VersionMeta_ltb {BM : BuildMode} (lhs rhs : VersionMeta) : M bool :=
  _ ← INVARIANT_D (bool_decide (vm_name lhs = vm_name rhs));
  if vm_version lhs =? MAXU64 then Ret true
  else if vm_version rhs =? MAXU64 then Ret false
  else Ret (vm_version lhs <? vm_version rhs).

(** * Element counters *)

Section Counters.
Context {BM : BuildMode}.

Definition RecordValue_getEleType (rv : RecordValue) : M RecordType :=
  _ ← INVARIANT_D (isDataMetaType (rv_type rv));
  match rv_type rv with
  | RT_KV => Ret RT_DATA_META
  | RT_LIST_META => Ret RT_LIST_ELE
  | RT_HASH_META => Ret RT_HASH_ELE
  | RT_ZSET_META => Ret RT_ZSET_H_ELE
  | RT_SET_META => Ret RT_SET_ELE
  | RT_TBITMAP_META => Ret RT_TBITMAP_ELE
  | _ => _ ← INVARIANT_D false; Ret RT_DATA_META
  end.

(** The shared tail of the undecodable cases: assert, then count nothing. *)
Definition count_or_zero {A} (m : M A) (f : A -> M Z) : M Z :=
  match m with
  | Ret a => f a
  | Throw _ _ => _ ← INVARIANT_D false; Ret 0
  | Crash c => Crash c
  end.

Definition RecordValue_getEleCnt (rv : RecordValue) : M Z :=
  _ ← INVARIANT_D (isDataMetaType (rv_type rv));
  match rv_type rv with
  | RT_KV => Ret 1
  | RT_LIST_META =>
      count_or_zero (ListMetaValue_decode (rv_value rv)) (fun m => Ret (u64 (lm_tail m - lm_head m)))
  | RT_HASH_META => count_or_zero (HashMetaValue_decode (rv_value rv)) (fun m => Ret (hm_count m))
  | RT_SET_META => count_or_zero (SetMetaValue_decode (rv_value rv)) (fun m => Ret (sm_count m))
  | RT_ZSET_META =>
      count_or_zero (ZSlMetaValue_decode (rv_value rv))
        (fun m => _ ← INVARIANT_D (1 <? zm_count m); Ret (u32 (zm_count m - 1)))
  | RT_TBITMAP_META =>
      count_or_zero (TBitMapMetaValue_decode (rv_value rv)) (fun m => Ret (tb_eleCount m))
  | _ => _ ← INVARIANT_D false; Ret 0
  end.

Definition RecordValue_isBigKey (rv : RecordValue) (valueSize eleCnt : Z) : M bool :=
  if valueSize <=? zlen (rv_value rv) then Ret true
  else cnt ← RecordValue_getEleCnt rv; Ret (eleCnt <=? cnt).

(** [rcd_util::getSubKeyCount]. *)
Definition getSubKeyCount (key : RecordKey) (val : RecordValue) : M Z :=
  type ← RecordKey_getRecordType key;
  _ ← INVARIANT_D (bool_decide (type = RT_DATA_META));
  match rv_type val with
  | RT_KV => Ret 1
  | RT_HASH_META => m ← HashMetaValue_decode (rv_value val); Ret (hm_count m)
  | RT_LIST_META => m ← ListMetaValue_decode (rv_value val); Ret (u64 (lm_tail m - lm_head m))
  | RT_SET_META => m ← SetMetaValue_decode (rv_value val); Ret (sm_count m)
  | RT_ZSET_META => m ← ZSlMetaValue_decode (rv_value val); Ret (zm_count m)
  | RT_TBITMAP_META => m ← TBitMapMetaValue_decode (rv_value val); Ret (tb_eleCount m)
  | _ => Throw ERR_INTERNAL (lit "not support")
  end.

(** [rcd_util::makeInvalidErrStr]. *)
Definition makeInvalidErrStr (type : RecordType) (key : bytes) (metaCnt eleCnt : Z) : M bytes :=
  t ← rt2Str type;
  Ret (lit "Invalid " ++ t ++ lit ":" ++ key ++ lit ", meta number is " ++ to_string metaCnt ++
       lit ", element number is " ++ to_string eleCnt).

End Counters.

(** * The meta codecs behind one interface *)

(** What the commands rely on for a meta value: a legal value is encoded, and decoding the
    encoding gives it back. *)
Class MetaCodec (A : Type) : Type := {
  meta_encode : A -> M bytes;
  meta_decode : bytes -> M A;
  meta_wf : A -> Prop;
  meta_law : forall m, meta_wf m ->
    exists s, meta_encode m = Ret s /\ meta_decode s = Ret m /\ zlen s <= 2 ^ 61 + 64
}.

Ltac meta_size := rewrite ?zlen_app, ?zlen_cons, ?zlen_nil; cbn [zlen];
  repeat match goal with
  | |- context [zlen (varintEncode ?v)] =>
      lazymatch goal with
      | _ : 1 <= zlen (varintEncode v) <= 10 |- _ => fail
      | _ => let H := fresh in
             assert (1 <= zlen (varintEncode v) <= 10) as H
               by (apply varintEncode_len; solve [done|auto with nova])
      end
  end; lia.

Lemma ListMetaValue_law m :
  is_u64 (lm_head m) /\ is_u64 (lm_tail m) ->
  exists s, Ret (ListMetaValue_encode m) = Ret s /\ ListMetaValue_decode s = Ret m /\
    zlen s <= 2 ^ 61 + 64.
Proof.
  destruct m as [h t]; cbn [lm_head lm_tail]. intros [Hh Ht]. eexists. split; [done|].
  unfold ListMetaValue_encode; cbn [lm_head lm_tail].
  assert (zlen (varintEncode h ++ varintEncode t) <= 2 ^ 61 + 64) as Hs by meta_size.
  split; [|done]. unfold ListMetaValue_decode.
  pose proof (at_offset_start (varintEncode h ++ varintEncode t)) as Ha.
  rewrite <-(app_nil_r (varintEncode t)) in Ha at 2.
  varint_step Ha. varint_step Ha. done.
Qed.

Lemma HashMetaValue_law m :
  is_u64 (hm_count m) ->
  exists s, Ret (HashMetaValue_encode m) = Ret s /\ HashMetaValue_decode s = Ret m /\
    zlen s <= 2 ^ 61 + 64.
Proof.
  destruct m as [n]; cbn [hm_count]. intros Hn. eexists. split; [done|].
  unfold HashMetaValue_encode; cbn [hm_count].
  assert (zlen (varintEncode n) <= 2 ^ 61 + 64) as Hs by meta_size.
  split; [|done]. unfold HashMetaValue_decode.
  pose proof (at_offset_start (varintEncode n)) as Ha.
  rewrite <-(app_nil_r (varintEncode n)) in Ha at 2. varint_step Ha. done.
Qed.

Lemma read_n_at s offset rest :
  at_offset s offset rest -> read_n (zdrop offset (c_str s)) (zlen s - offset) = Ret rest.
Proof.
  intros H. rewrite (at_offset_ptr _ _ _ H). apply read_n_app.
  apply at_offset_len in H. lia.
Qed.

Lemma SetMetaValue_law m :
  is_u64 (sm_count m) /\ zlen (sm_skIndex m) <= 2 ^ 61 ->
  exists s, Ret (SetMetaValue_encode m) = Ret s /\ SetMetaValue_decode s = Ret m /\
    zlen s <= 2 ^ 61 + 64.
Proof.
  destruct m as [n sk]; cbn [sm_count sm_skIndex]. intros [Hn Hk].
  exists (varintEncode n ++ sk). pose proof (zlen_nonneg sk) as Hsk.
  assert (zlen (varintEncode n ++ sk) <= 2 ^ 61 + 64) as Hs by meta_size.
  split_and!; [|unfold SetMetaValue_decode|done].
  - unfold SetMetaValue_encode; cbn [sm_count sm_skIndex]. destruct (Z.ltb_spec 0 (zlen sk)); [done|].
    by destruct sk; [|rewrite zlen_cons in *; pose proof (zlen_nonneg sk); lia].
  - pose proof (at_offset_start (varintEncode n ++ sk)) as Ha. varint_step Ha.
    pose proof (at_offset_len _ _ _ Ha) as [_ Hl]. rewrite (read_n_at _ _ _ Ha).
    destruct (Z.ltb_spec (0 + zlen (varintEncode n)) (zlen (varintEncode n ++ sk))); [done|].
    by destruct sk; [|rewrite zlen_cons in *; pose proof (zlen_nonneg sk); lia].
Qed.

Definition TBitMapMetaValue_wf (m : TBitMapMetaValue) : Prop :=
  is_u64 (tb_bitAmount m) /\ is_u64 (tb_count m) /\ is_u64 (tb_eleCount m) /\
  is_u64 (tb_fragmentLen m) /\ zlen (tb_firstFragment m) <= 2 ^ 61.

Lemma str_at_at s offset b rest : at_offset s offset (b :: rest) -> str_at s offset = Ret b.
Proof. intros (pre & -> & ->). by apply str_at_app_eq. Qed.

Lemma TBitMapMetaValue_law {BM : BuildMode} m :
  TBitMapMetaValue_wf m ->
  exists s, Ret (TBitMapMetaValue_encode m) = Ret s /\ TBitMapMetaValue_decode s = Ret m /\
    zlen s <= 2 ^ 61 + 64.
Proof.
  destruct m as [b c e l f]; intros (Hb & Hc & He & Hl & Hf); cbn in *.
  pose proof (zlen_nonneg f).
  set (s := TBitMapMetaValue_encode (mkTBitMapMeta b c e l f)). exists s. split; [done|].
  assert (zlen s <= 2 ^ 61 + 64) as Hs by (unfold s, TBitMapMetaValue_encode; cbn [tb_bitAmount tb_count tb_eleCount tb_fragmentLen tb_firstFragment]; meta_size).
  split; [|done]. unfold TBitMapMetaValue_decode.
  pose proof (at_offset_start s) as Ha. unfold s at 2 in Ha. unfold TBitMapMetaValue_encode in Ha.
  cbn [tb_bitAmount tb_count tb_eleCount tb_fragmentLen tb_firstFragment] in Ha.
  do 4 varint_step Ha. rewrite (str_at_at _ _ _ _ Ha), bind_Ret. inv_d by done.
  apply at_offset_cons in Ha. rewrite (read_n_at _ _ _ Ha).
  destruct (Z.ltb_spec (zlen s) (0 + zlen (varintEncode b) + zlen (varintEncode c) +
    zlen (varintEncode e) + zlen (varintEncode l) + 1)); [|done].
  apply at_offset_len in Ha. lia.
Qed.

(** The maximal level is fixed by every constructor. *)
Definition ZSlMetaValue_wf (m : ZSlMetaValue) : Prop :=
  is_u 8 (zm_level m) /\ zm_maxLevel m = MAX_LAYER /\ is_u32 (zm_count m) /\
  is_u64 (zm_tail m) /\ is_u64 (zm_posAlloc m).

Lemma is_u8_u64 z : is_u 8 z -> is_u64 z.
Proof. by apply is_u_le. Qed.

Lemma is_u32_u64 z : is_u32 z -> is_u64 z.
Proof. by apply is_u_le. Qed.

Lemma ZSlMetaValue_law {BM : BuildMode} m :
  ZSlMetaValue_wf m ->
  exists s, ZSlMetaValue_encode m = Ret s /\ ZSlMetaValue_decode s = Ret m /\
    zlen s <= 2 ^ 61 + 64.
Proof.
  destruct m as [l x c t p]; intros (Hl & Hx & Hc & Ht & Hp);
    cbn [zm_level zm_maxLevel zm_count zm_tail zm_posAlloc] in *. subst x.
  pose proof (is_u8_u64 _ Hl) as Hl'. pose proof (is_u32_u64 _ Hc) as Hc'.
  assert (is_u64 MAX_LAYER) as Hm by done.
  unfold ZSlMetaValue_encode; cbn [zm_level zm_maxLevel zm_count zm_tail zm_posAlloc].
  inv_d by done. eexists. split; [done|].
  match goal with |- ZSlMetaValue_decode ?x = _ /\ _ => set (s := x) end.
  assert (zlen s <= 2 ^ 61 + 64) as Hs by (unfold s; meta_size). split; [|done].
  pose proof (at_offset_start s) as Ha. unfold s at 2 in Ha.
  rewrite <-(app_nil_r (varintEncode p)) in Ha. unfold ZSlMetaValue_decode.
  do 2 varint_step Ha. inv_d by done. do 3 varint_step Ha.
  by rewrite !wrap_id by done.
Qed.

#[export] Instance ListMeta_codec : MetaCodec ListMetaValue :=
  {| meta_encode m := Ret (ListMetaValue_encode m); meta_law := ListMetaValue_law |}.
#[export] Instance HashMeta_codec : MetaCodec HashMetaValue :=
  {| meta_encode m := Ret (HashMetaValue_encode m); meta_law := HashMetaValue_law |}.
#[export] Instance SetMeta_codec : MetaCodec SetMetaValue :=
  {| meta_encode m := Ret (SetMetaValue_encode m); meta_law := SetMetaValue_law |}.
#[export] Instance TBitMapMeta_codec {BM : BuildMode} : MetaCodec TBitMapMetaValue :=
  {| meta_encode m := Ret (TBitMapMetaValue_encode m); meta_law := TBitMapMetaValue_law |}.
#[export] Instance ZSlMeta_codec {BM : BuildMode} : MetaCodec ZSlMetaValue :=
  {| meta_law := ZSlMetaValue_law |}.

(** * Skip list elements *)

Lemma varint_array_at s vs : forall offset rest,
  zlen s < 2 ^ 64 -> Forall (fun v => is_u64 v) vs ->
  at_offset s offset (concat (map varintEncode vs) ++ rest) ->
  exists offset', varint_array (length vs) s offset = Ret (vs, offset') /\
    at_offset s offset' rest.
Proof.
  induction vs as [|v vs IH]; intros offset rest Hs Hf Ha; [by exists offset|].
  apply Forall_cons in Hf as [Hv Hf]. cbn [map concat length varint_array] in *.
  rewrite <-app_assoc in Ha. varint_step Ha.
  destruct (IH _ _ Hs Hf Ha) as (o & E & Ho). exists o. by rewrite E, bind_Ret.
Qed.

Lemma varint_array_size vs :
  Forall (fun v => is_u64 v) vs -> zlen (concat (map varintEncode vs)) <= 10 * zlen vs.
Proof.
  induction 1 as [|v vs Hv _ IH]; [done|]. cbn [map concat].
  rewrite zlen_app, zlen_cons. pose proof (varintEncode_len v Hv). lia.
Qed.

Definition ZSlEleValue_wf (e : ZSlEleValue) : Prop :=
  zlen (ze_forward e) = MAX_LAYER + 1 /\ zlen (ze_span e) = MAX_LAYER + 1 /\
  Forall (fun v => is_u64 v) (ze_forward e) /\ Forall (fun v => is_u32 v) (ze_span e) /\
  is_u64 (ze_score e) /\ is_u64 (ze_backward e) /\ zlen (ze_subKey e) <= 2 ^ 61.

Lemma Forall_u32_u64 vs : Forall (fun v => is_u32 v) vs -> Forall (fun v => is_u64 v) vs.
Proof. intros H. eapply Forall_impl; [exact H|]. intros v. apply is_u32_u64. Qed.

Lemma map_u32_id vs : Forall (fun v => is_u32 v) vs -> map u32 vs = vs.
Proof.
  induction 1 as [|v vs Hv _ IH]; [done|]. cbn [map]. by rewrite IH, wrap_id.
Qed.

Lemma zlen_doubleEncode v : zlen (doubleEncode v) = 8.
Proof. unfold doubleEncode, zlen. by rewrite length_le_bytes. Qed.

Lemma ZSlEleValue_size e :
  ZSlEleValue_wf e -> zlen (ZSlEleValue_encode e) <= 2 ^ 61 + 700.
Proof.
  intros (Hf & Hp & Ff & Fp & Hs & Hb & Hk). unfold ZSlEleValue_encode, MAX_LAYER in *.
  pose proof (varint_array_size _ Ff). pose proof (varint_array_size _ (Forall_u32_u64 _ Fp)).
  pose proof (zlen_nonneg (ze_subKey e)).
  assert (is_u64 (zlen (ze_subKey e))) by (unfold is_u; lia).
  rewrite !zlen_app, zlen_doubleEncode. meta_size.
Qed.

Lemma ZSlEleValue_decode_encode e :
  ZSlEleValue_wf e -> ze_changed e = false -> ZSlEleValue_decode (ZSlEleValue_encode e) = Ret e.
Proof.
  intros Hwf Hch. pose proof (ZSlEleValue_size e Hwf) as Hsz.
  destruct Hwf as (Hf & Hp & Ff & Fp & Hs & Hb & Hk).
  pose proof (at_offset_start (ZSlEleValue_encode e)) as Ha. unfold ZSlEleValue_encode at 2 in Ha.
  set (s := ZSlEleValue_encode e) in *. pose proof (zlen_nonneg (ze_subKey e)).
  assert (is_u64 (zlen (ze_subKey e))) as Hku by (unfold is_u; lia).
  assert (zlen s < 2 ^ 64) as Hlt by lia. unfold ZSlEleValue_decode.
  replace (Z.to_nat (MAX_LAYER + 1)) with (length (ze_forward e)) at 1 by (unfold zlen in *; lia).
  destruct (varint_array_at _ _ _ _ Hlt Ff Ha) as (o1 & E1 & H1). rewrite E1, bind_Ret.
  replace (Z.to_nat (MAX_LAYER + 1)) with (length (ze_span e)) by (unfold zlen in *; lia).
  destruct (varint_array_at _ _ _ _ Hlt (Forall_u32_u64 _ Fp) H1) as (o2 & E2 & H2).
  rewrite E2, bind_Ret, (at_offset_left _ _ _ Hlt H2), (at_offset_ptr _ _ _ H2), <-app_assoc.
  rewrite double_roundtrip, bind_Ret; [|done|rewrite zlen_app, zlen_doubleEncode; auto with nova].
  2: { match goal with |- _ <= 8 + zlen ?l => pose proof (zlen_nonneg l); lia end. }
  apply at_offset_skip in H2. rewrite zlen_doubleEncode in H2. cbv zeta.
  varint_step H2. varint_step H2. pose proof (at_offset_len _ _ _ H2) as [Ho Hl].
  rewrite wrap_id by (unfold is_u; lia). rewrite Hl, Z.eqb_refl. cbn [negb].
  rewrite (at_offset_ptr _ _ _ H2), read_n_app, bind_Ret by done.
  rewrite map_u32_id by done. by destruct e; cbn in *; subst.
Qed.

(** * The expiry index *)

Definition TTLIndex_wf (t : TTLIndex) : Prop :=
  is_u64 (ti_ttl t) /\ is_u32 (ti_dbId t) /\ isDataMetaType (ti_type t) = true /\
  zlen (ti_priKey t) < 2 ^ 61.

(** Reading bytes whose conversion keeps their value rebuilds the big-endian word. *)
Lemma index_fold_at w conv l : forall index offset rest acc,
  Forall (fun b => conv b = bz b) l -> at_offset index offset (l ++ rest) ->
  0 <= acc -> acc * 2 ^ (8 * zlen l) + be_value l < 2 ^ w -> 8 <= w ->
  index_fold w conv index offset (length l) acc = Ret (acc * 2 ^ (8 * zlen l) + be_value l).
Proof.
  induction l as [|b l IH]; intros index offset rest acc Hf Ha Hacc Hlt Hw.
  { change (Ret acc = Ret (acc * 1 + 0)). f_equal. lia. }
  apply Forall_cons in Hf as [Hb Hf]. cbn [length index_fold app] in *.
  rewrite (str_at_at _ _ _ _ Ha), bind_Ret, Hb. apply at_offset_cons in Ha.
  rewrite be_value_cons, zlen_cons in *. pose proof (be_value_range l). pose proof (zlen_nonneg l).
  pose proof (bz_range b). replace (2 ^ (8 * (1 + zlen l))) with (256 * 2 ^ (8 * zlen l)) in *
    by (rewrite Z.mul_add_distr_l, Z.pow_add_r by lia; lia).
  assert (0 < 2 ^ (8 * zlen l)) by (apply Z.pow_pos_nonneg; lia).
  assert (2 ^ 8 <= 2 ^ w) by (apply Z.pow_le_mono_r; lia).
  assert (acc * 256 + bz b < 2 ^ w) by nia.
  rewrite (wrap_id w (Z.shiftl acc 8)), wrap_id
    by (unfold is_u; rewrite ?Z.shiftl_mul_pow2 by lia; lia).
  rewrite lor_shiftl_add by lia. change (2 ^ 8) with 256.
  rewrite (IH _ _ rest) by (done || nia). f_equal. nia.
Qed.

Definition ti_raw (t : TTLIndex) (c : byte) : bytes :=
  be_bytes 8 (ti_ttl t) ++ be_bytes 4 (ti_dbId t) ++ [c] ++ ti_priKey t.

Definition ti_key (t : TTLIndex) (c : byte) : RecordKey :=
  RecordKey_new TTLIndex_CHUNKID TTLIndex_DBID RT_TTL_INDEX (ti_raw t c) [] 0.

Section TTLIndexLemmas.
Context {BM : BuildMode}.

Lemma zlen_ti_raw t c : zlen (ti_raw t c) = 13 + zlen (ti_priKey t).
Proof. unfold ti_raw. rewrite !zlen_app, !zlen_be_bytes, zlen_cons, zlen_nil. lia. Qed.

Lemma ti_key_wf t c : TTLIndex_wf t -> RecordKey_wf (ti_key t c).
Proof.
  intros (_ & _ & _ & H). apply RecordKey_wf_new; try done.
  rewrite zlen_ti_raw, zlen_nil. lia.
Qed.

Lemma TTLIndex_encode_total t :
  TTLIndex_wf t -> exists c, rt2Char (ti_type t) = Ret c /\
    TTLIndex_encode t = RecordKey_encode (ti_key t c).
Proof.
  intros (_ & _ & Ht & _). destruct (rt2Char_some (ti_type t)) as [c Hc]; [by intros E; rewrite E in Ht|].
  exists c. split; [done|]. unfold TTLIndex_encode, TTLIndex_ttlIndex. inv_d by done.
  by rewrite Hc, !bind_Ret.
Qed.

Lemma ti_raw_dbId_at t c : at_offset (ti_raw t c) 8 (be_bytes 4 (ti_dbId t) ++ [c] ++ ti_priKey t).
Proof. exists (be_bytes 8 (ti_ttl t)). split; [done|]. by rewrite zlen_be_bytes. Qed.

Lemma TTLIndex_decodeTTL_raw t c : is_u64 (ti_ttl t) -> TTLIndex_decodeTTL (ti_raw t c) = Ret (ti_ttl t).
Proof.
  intros H. unfold TTLIndex_decodeTTL. rewrite <-(length_be_bytes 8 (ti_ttl t)) at 1.
  erewrite index_fold_at; [|by apply Forall_true|apply at_offset_start|lia| |lia];
    rewrite be_value_bytes, Z.mod_small by done; [f_equal; lia|]. unfold is_u in H. lia.
Qed.

Lemma cz_bz b : bz b < 128 -> cz b = bz b.
Proof. by destruct b. Qed.

Lemma cz_u8_neg d : 128 <= d < 256 -> cz (u8 d) = d - 256.
Proof.
  intros H. unfold cz, signed. rewrite bz_u8_small by lia. rewrite wrap_id by (unfold is_u; lia).
  destruct (Z.leb_spec (2 ^ (8 - 1)) d) as [E|E]; [lia|]. change (2 ^ (8 - 1)) with 128 in E. lia.
Qed.

Lemma TTLIndex_decodeDBId_raw t c :
  is_u32 (ti_dbId t) -> Forall (fun b => bz b < 128) (be_bytes 4 (ti_dbId t)) ->
  TTLIndex_decodeDBId (ti_raw t c) = Ret (ti_dbId t).
Proof.
  intros H Hf. unfold TTLIndex_decodeDBId. rewrite <-(length_be_bytes 4 (ti_dbId t)) at 1.
  erewrite index_fold_at; [| |apply ti_raw_dbId_at|lia| |lia].
  - rewrite be_value_bytes, Z.mod_small by done. done.
  - eapply Forall_impl; [exact Hf|]. apply cz_bz.
  - rewrite be_value_bytes, Z.mod_small by done. unfold is_u in H. lia.
Qed.

(** The whole decoder, once the database id is known. *)
Lemma TTLIndex_decode_raw t c d k :
  TTLIndex_wf t -> rt2Char (ti_type t) = Ret c -> rk_pk k = ti_raw t c ->
  TTLIndex_decodeDBId (ti_raw t c) = Ret d ->
  TTLIndex_decode k = Ret (mkTTLIndex (ti_priKey t) (ti_type t) d (ti_ttl t)).
Proof.
  intros (Hu & _ & Ht & _) Hc Hk Hd. unfold TTLIndex_decode. rewrite Hk.
  pose proof (zlen_ti_raw t c) as Hl. pose proof (zlen_nonneg (ti_priKey t)).
  destruct (Z.ltb_spec (zlen (ti_raw t c)) (8 + 1 + 4)); [lia|].
  rewrite TTLIndex_decodeTTL_raw, bind_Ret, Hd, bind_Ret by done.
  pose proof (ti_raw_dbId_at t c) as Ha. apply at_offset_skip in Ha.
  rewrite zlen_be_bytes in Ha. change (8 + Z.of_nat 4) with 12 in Ha.
  unfold TTLIndex_decodeType. rewrite (str_at_at _ _ _ _ Ha), bind_Ret.
  rewrite (char2Rt_rt2Char _ _ Hc), bind_Ret. apply at_offset_cons in Ha.
  unfold TTLIndex_decodePriKey. destruct (Z.ltb_spec (zlen (ti_raw t c)) 13); [lia|].
  change (12 + 1) with 13 in Ha. rewrite (at_offset_zdrop _ _ _ Ha), bind_Ret.
  inv_d by (by destruct (ti_type t)). done.
Qed.

(** What is stored and read back through the key. *)
Lemma TTLIndex_stored t d :
  TTLIndex_wf t -> (forall c, TTLIndex_decodeDBId (ti_raw t c) = Ret d) ->
  exists s k, TTLIndex_encode t = Ret s /\ RecordKey_decode s = Ret k /\
    TTLIndex_decode k = Ret (mkTTLIndex (ti_priKey t) (ti_type t) d (ti_ttl t)).
Proof.
  intros Hwf Hd. destruct (TTLIndex_encode_total t Hwf) as (c & Hc & E).
  destruct (RecordKey_encode_total _ (ti_key_wf t c Hwf)) as (c' & _ & Es).
  destruct (RecordKey_decode_encode _ _ (ti_key_wf t c Hwf) Es) as (k & Dk & Hk & _).
  eexists _, k. rewrite E, Es. split_and!; [done..|].
  eapply TTLIndex_decode_raw; [done..| |done]. by apply RecordKey_equiv_fields in Hk as (_&_&_&->&_).
Qed.

End TTLIndexLemmas.

(** * Properties *)

(** The meta value [m] survives the store in a record of the type: its bytes are written under the key
    in a record value and read back, key and value, and what is read is decoded to [m], with the expiry,
    version and revision that were written. *)
Definition survives {BM : BuildMode} {A : Type} (encoded : M bytes) (decode : bytes -> M A) (m : A) (k : RecordKey)
  (type : RecordType) (ttl versionEP cas : Z) : Prop :=
  exists val ks vs k' rv,
    encoded = Ret val /\
    Rec_encode k (RecordValue_new val type versionEP ttl cas 0 MAXU64) = Ret (ks, vs) /\
    Rec_decode ks vs = Ret (k', rv) /\ RecordKey_equiv k' k /\
    rv_type rv = type /\ rv_ttl rv = ttl /\ rv_versionEP rv = versionEP /\ rv_cas rv = cas /\
    decode (rv_value rv) = Ret m.

Lemma meta_survives {BM : BuildMode} `{MetaCodec A} (m : A) (k : RecordKey)
  (type : RecordType) (ttl versionEP cas : Z) :
  meta_wf m -> RecordKey_wf k -> isDataMetaType type = true -> is_u64 ttl -> is_u64 versionEP ->
  - 2 ^ 63 <= cas < 2 ^ 63 - 1 -> survives (meta_encode m) meta_decode m k type ttl versionEP cas.
Proof.
  intros Hm Hk Ht Hu Hv Hc. destruct (meta_law m Hm) as (val & E & D & Hs).
  set (rv := RecordValue_new val type versionEP ttl cas 0 MAXU64).
  assert (RecordValue_wf rv) as Hrv.
  { unfold RecordValue_wf. cbn [rv rv_type rv_ttl rv_version rv_versionEP rv_cas rv_pieceSize
      rv_totalSize rv_value RecordValue_new]. rewrite Ht. split_and!; try done; try lia.
    by intros ->. }
  destruct (RecordKey_encode_total k Hk) as (c & Hkc & Ek).
  destruct (RecordValue_encode_total rv Hrv) as (d & Hd & Ev).
  destruct (RecordKey_decode_encode k _ Hk Ek) as (k' & Dk & He & _).
  eexists val, _, _, k', rv. unfold Rec_encode, Rec_decode. fold rv. rewrite Ek, Ev.
  split_and!; [done|done| |done..]. rewrite Dk, bind_Ret, RecordValue_decode_raw by done. done.
Qed.

(** C32: the meta values of lists, hashes, sets, bitmaps and sorted sets survive the store: written
    under a key in a record value of their type and read back, key and value, they are decoded to the
    same fields, with the expiry, version and revision that were written. The fields have their machine
    widths, and the place of a set and the first fragment of a bitmap at most 2^61 bytes. *)
Theorem meta_record_roundtrip {BM : BuildMode} (k : RecordKey) (ttl versionEP cas : Z) :
  RecordKey_wf k -> is_u64 ttl -> is_u64 versionEP -> - 2 ^ 63 <= cas < 2 ^ 63 - 1 ->
  (forall head tail, is_u64 head -> is_u64 tail -> let m := mkListMeta head tail in
     survives (Ret (ListMetaValue_encode m)) ListMetaValue_decode m k RT_LIST_META ttl versionEP cas) /\
  (forall count, is_u64 count -> let m := mkHashMeta count in
     survives (Ret (HashMetaValue_encode m)) HashMetaValue_decode m k RT_HASH_META ttl versionEP cas) /\
  (forall count skIndex, is_u64 count -> zlen skIndex <= 2 ^ 61 -> let m := mkSetMeta count skIndex in
     survives (Ret (SetMetaValue_encode m)) SetMetaValue_decode m k RT_SET_META ttl versionEP cas) /\
  (forall bitAmount count eleCount fragmentLen firstFragment,
     is_u64 bitAmount -> is_u64 count -> is_u64 eleCount -> is_u64 fragmentLen -> zlen firstFragment <= 2 ^ 61 ->
     let m := mkTBitMapMeta bitAmount count eleCount fragmentLen firstFragment in
     survives (Ret (TBitMapMetaValue_encode m)) TBitMapMetaValue_decode m k RT_TBITMAP_META ttl versionEP cas) /\
  (forall level count tail posAlloc, is_u 8 level -> is_u32 count -> is_u64 tail -> is_u64 posAlloc ->
     let m := mkZSlMeta level MAX_LAYER count tail posAlloc in
     survives (ZSlMetaValue_encode m) ZSlMetaValue_decode m k RT_ZSET_META ttl versionEP cas).
Proof.
  intros Hk Ht Hv Hc. split_and!.
  - intros head tail H1 H2 m. by apply (meta_survives (H := ListMeta_codec) m).
  - intros count H1 m. by apply (meta_survives (H := HashMeta_codec) m).
  - intros count sk H1 H2 m. by apply (meta_survives (H := SetMeta_codec) m).
  - intros b c e l f H1 H2 H3 H4 H5 m. apply (meta_survives (H := TBitMapMeta_codec) m); [by split_and!|done..].
  - intros level count tail pos H1 H2 H3 H4 m. apply (meta_survives (H := ZSlMeta_codec) m); [by split_and!|done..].
Qed.

Lemma meta_record_roundtrip_witness :
  survives (BM := true) (Ret (SetMetaValue_encode (mkSetMeta 3 (lit "b")))) SetMetaValue_decode (mkSetMeta 3 (lit "b"))
    (RecordKey_new 1 0 RT_SET_META (lit "s") [] 0) RT_SET_META 9 7 0 /\
  survives (BM := true) (@ZSlMetaValue_encode true (mkZSlMeta 3 MAX_LAYER 5 130 134)) (@ZSlMetaValue_decode true) (mkZSlMeta 3 MAX_LAYER 5 130 134)
    (RecordKey_new 1 0 RT_SET_META (lit "s") [] 0) RT_ZSET_META 9 7 0.
Proof.
  destruct (@meta_record_roundtrip true (RecordKey_new 1 0 RT_SET_META (lit "s") [] 0) 9 7 0) as (_ & _ & Hs & _ & Hz).
  - by apply RecordKey_wf_new.
  - done.
  - done.
  - lia.
  - split; [by apply Hs|by apply Hz].
Defined.

(** A node of a sorted set's skip list survives the store: the 33 forward pointers, the 33
    spans, the score, the back pointer and the member are read back, and the node read is not
    marked as changed. *)
Theorem ZSlEleValue_roundtrip (e : ZSlEleValue) :
  ZSlEleValue_wf e ->
  ZSlEleValue_decode (ZSlEleValue_encode e) =
    Ret (mkZSlEle (ze_forward e) (ze_span e) (ze_score e) (ze_backward e) false (ze_subKey e)).
Proof.
  intros H. by apply (ZSlEleValue_decode_encode
    (mkZSlEle (ze_forward e) (ze_span e) (ze_score e) (ze_backward e) false (ze_subKey e))).
Qed.

Lemma ZSlEleValue_roundtrip_witness :
  ZSlEleValue_decode (ZSlEleValue_encode (ZSlEleValue_setBackward (ZSlEleValue_new 5 (lit "m")) 130)) =
    Ret (mkZSlEle (zfill 33 0) (zfill 33 0) 5 130 false (lit "m")).
Proof.
  apply (ZSlEleValue_roundtrip (ZSlEleValue_setBackward (ZSlEleValue_new 5 (lit "m")) 130)).
  unfold ZSlEleValue_wf; split_and!; try done;
    by apply Forall_replicate.
Defined.

(** An entry of the expiry index survives the store when the bytes of its database id are
    below 0x80 (so for the ids 0 to 127): encoded as a key, decoded as a key, it gives the same
    expiry time, type, database and key. *)
Theorem TTLIndex_roundtrip {BM : BuildMode} (t : TTLIndex) :
  TTLIndex_wf t -> Forall (fun b => bz b < 128) (be_bytes 4 (ti_dbId t)) ->
  exists s k, TTLIndex_encode t = Ret s /\ RecordKey_decode s = Ret k /\ TTLIndex_decode k = Ret t.
Proof.
  intros Hwf Hf. destruct (TTLIndex_stored t (ti_dbId t) Hwf) as (s & k & E & D & H).
  - intros c. apply TTLIndex_decodeDBId_raw; [apply Hwf|done].
  - exists s, k. rewrite E, D, H. by destruct t.
Qed.

Lemma TTLIndex_roundtrip_witness :
  exists s k, @TTLIndex_encode true (mkTTLIndex (lit "k") RT_KV 15 1700000000000) = Ret s /\
    @RecordKey_decode true s = Ret k /\
    @TTLIndex_decode true k = Ret (mkTTLIndex (lit "k") RT_KV 15 1700000000000).
Proof.
  apply (@TTLIndex_roundtrip true); [done|]. by repeat (apply Forall_cons; split).
Defined.

(** For the database ids 128 to 255 the expiry index is read back with another database:
    the low byte is OR-ed in as a signed char, which sets the 24 bits above it. *)
Theorem TTLIndex_dbId_sign_extended {BM : BuildMode} (t : TTLIndex) :
  TTLIndex_wf t -> 128 <= ti_dbId t < 256 ->
  exists s k, TTLIndex_encode t = Ret s /\ RecordKey_decode s = Ret k /\
    TTLIndex_decode k =
      Ret (mkTTLIndex (ti_priKey t) (ti_type t) (ti_dbId t + 0xFFFFFF00) (ti_ttl t)).
Proof.
  intros Hwf Hd. apply TTLIndex_stored; [done|]. intros c. unfold TTLIndex_decodeDBId.
  pose proof (ti_raw_dbId_at t c) as Ha. destruct t as [pk ty d ttl]; cbn [ti_dbId ti_priKey] in *.
  assert (be_bytes 4 d = [x00; x00; x00; u8 d]) as E.
  { rewrite !be_bytes_cons. change (be_bytes 0 d) with (@nil byte).
    rewrite !Z.div_small by (cbn; lia). change (2 ^ (8 * Z.of_nat 0)) with 1. by rewrite Z.div_1_r. }
  rewrite E in Ha. cbn [app] in Ha. cbn [index_fold].
  do 3 (rewrite (str_at_at _ _ _ _ Ha), bind_Ret; apply at_offset_cons in Ha).
  rewrite (str_at_at _ _ _ _ Ha), bind_Ret. change (cz x00) with 0. f_equal.
  rewrite (cz_u8_neg d Hd). change (d - 256) with (d + -256).
  cbn -[wrap Z.add]. rewrite Z.lor_0_l. unfold wrap. rewrite <-(Z.mod_add _ 1) by done.
  rewrite Z.mod_small; lia.
Qed.

Lemma TTLIndex_dbId_sign_extended_witness :
  exists s k, @TTLIndex_encode false (mkTTLIndex (lit "k") RT_KV 200 9) = Ret s /\
    @RecordKey_decode false s = Ret k /\
    @TTLIndex_decode false k = Ret (mkTTLIndex (lit "k") RT_KV (200 + 0xFFFFFF00) 9).
Proof.
  by apply (@TTLIndex_dbId_sign_extended false (mkTTLIndex (lit "k") RT_KV 200 9)).
Defined.

(** The expiry index is scanned in the order of expiry: of two entries the one that expires
    earlier has the smaller key, and every entry has the prefix the scan starts from. *)
Theorem TTLIndex_order {BM : BuildMode} (t1 t2 : TTLIndex) :
  TTLIndex_wf t1 -> TTLIndex_wf t2 ->
  exists s1 s2 p, TTLIndex_encode t1 = Ret s1 /\ TTLIndex_encode t2 = Ret s2 /\
    RecordKey_prefixTTLIndex = Ret p /\ p `prefix_of` s1 /\
    (ti_ttl t1 < ti_ttl t2 -> bytes_compare s1 s2 = Lt).
Proof.
  intros H1 H2. destruct (TTLIndex_encode_total t1 H1) as (c1 & _ & E1).
  destruct (TTLIndex_encode_total t2 H2) as (c2 & _ & E2).
  destruct (rt2Char_some RT_TTL_INDEX) as [c Hc]; [done|].
  rewrite E1, E2, (RecordKey_encode_eq _ c), (RecordKey_encode_eq _ c) by (done || by apply ti_key_wf).
  eexists _, _, _. split_and!; [done|done|unfold RecordKey_prefixTTLIndex; by rewrite Hc, bind_Ret|..].
  - by eexists.
  - intros Hlt. change (rk_hdr (ti_key t2 c2) c) with (rk_hdr (ti_key t1 c1) c).
    rewrite bytes_compare_app. cbn [ti_key RecordKey_new rk_pk]. unfold ti_raw. rewrite <-!app_assoc.
    rewrite bytes_compare_blocks by (by rewrite !length_be_bytes).
    rewrite be_compare by (apply H1 || apply H2). by rewrite (proj2 (Z.compare_lt_iff _ _) Hlt).
Qed.

Lemma TTLIndex_order_witness :
  exists s1 s2 p, @TTLIndex_encode true (mkTTLIndex (lit "b") RT_KV 0 255) = Ret s1 /\
    @TTLIndex_encode true (mkTTLIndex (lit "a") RT_KV 0 256) = Ret s2 /\
    RecordKey_prefixTTLIndex = Ret p /\ p `prefix_of` s1 /\
    (255 < 256 -> bytes_compare s1 s2 = Lt).
Proof. by apply (@TTLIndex_order true (mkTTLIndex (lit "b") RT_KV 0 255) (mkTTLIndex (lit "a") RT_KV 0 256)). Defined.

(** Loading an existing bitmap for a write forgets its number of elements: the assigned meta
    value has every field of the stored one except the element count, which is 1. *)
Theorem TBitMap_loadMeta_eleCount {BM : BuildMode} (m : TBitMapMetaValue) (fragmentLen : Z) :
  TBitMapMetaValue_wf m ->
  TBitMap_loadMeta fragmentLen (Some (TBitMapMetaValue_encode m)) =
    Ret (mkTBitMapMeta (tb_bitAmount m) (tb_count m) 1 (tb_fragmentLen m) (tb_firstFragment m)).
Proof.
  intros H. destruct (TBitMapMetaValue_law m H) as (s & E & D & _).
  apply (inj Ret) in E as ->. unfold TBitMap_loadMeta. by rewrite D.
Qed.

Lemma TBitMap_loadMeta_eleCount_witness :
  @TBitMap_loadMeta false 1024 (Some (TBitMapMetaValue_encode (mkTBitMapMeta 90000 3 4 1024 [x80]))) =
    Ret (mkTBitMapMeta 90000 3 1 1024 [x80]).
Proof. by apply (@TBitMap_loadMeta_eleCount false (mkTBitMapMeta 90000 3 4 1024 [x80])). Defined.

Lemma ceil_div a b :
  0 < b -> a / b + (if negb (a mod b =? 0) then 1 else 0) = - ((- a) / b).
Proof.
  intros Hb. destruct (Z.eqb_spec (a mod b) 0) as [E|E]; cbn [negb].
  - rewrite Z.div_opp_l_z by lia. lia.
  - rewrite Z.div_opp_l_nz by lia. lia.
Qed.

Lemma TBitMapMetaValue_byteAmount_ceil m :
  TBitMapMetaValue_byteAmount m = - ((- tb_bitAmount m) / 8).
Proof.
  unfold TBitMapMetaValue_byteAmount. change 7 with (Z.ones 3).
  rewrite Z.land_ones, Z.shiftr_div_pow2 by lia. by apply ceil_div.
Qed.

(** The number of fragments is the least number of fragments of [fragmentLen] bytes that hold
    the bits: that many fragments have at least as many bits, one fewer does not. *)
Theorem TBitMapMetaValue_fragmentAmount_least (m : TBitMapMetaValue) :
  0 <= tb_bitAmount m -> 0 < tb_fragmentLen m ->
  exists n, TBitMapMetaValue_fragmentAmount m = Ret n /\
    forall k, n <= k <-> tb_bitAmount m <= 8 * (tb_fragmentLen m * k).
Proof.
  intros Hb Hf. unfold TBitMapMetaValue_fragmentAmount.
  destruct (Z.eqb_spec (tb_fragmentLen m) 0); [lia|]. eexists. split; [done|].
  rewrite ceil_div, TBitMapMetaValue_byteAmount_ceil, Z.opp_involutive by done. intros k.
  rewrite Z.opp_le_mono, Z.opp_involutive, Z.div_div by lia.
  assert (- k <= - tb_bitAmount m / (8 * tb_fragmentLen m) <->
          8 * tb_fragmentLen m * - k <= - tb_bitAmount m); [|lia].
  split; intros H; [|by apply Z.div_le_lower_bound; lia].
  pose proof (Z.mul_div_le (- tb_bitAmount m) (8 * tb_fragmentLen m)). nia.
Qed.

Lemma TBitMapMetaValue_fragmentAmount_least_witness :
  exists n, TBitMapMetaValue_fragmentAmount (mkTBitMapMeta 8193 1 1 1024 []) = Ret n /\
    forall k, n <= k <-> 8193 <= 8 * (1024 * k).
Proof. by apply (TBitMapMetaValue_fragmentAmount_least (mkTBitMapMeta 8193 1 1 1024 [])). Defined.

(** What a meta value of a type counts as elements. *)
Inductive Meta : Set :=
  | MList (m : ListMetaValue) | MHash (m : HashMetaValue) | MSet (m : SetMetaValue)
  | MTBitMap (m : TBitMapMetaValue) | MZSet (m : ZSlMetaValue).

Definition Meta_type (m : Meta) : RecordType :=
  match m with
  | MList _ => RT_LIST_META | MHash _ => RT_HASH_META | MSet _ => RT_SET_META
  | MTBitMap _ => RT_TBITMAP_META | MZSet _ => RT_ZSET_META
  end.

Definition Meta_encode {BM : BuildMode} (m : Meta) : M bytes :=
  match m with
  | MList m => meta_encode m | MHash m => meta_encode m | MSet m => meta_encode m
  | MTBitMap m => meta_encode m | MZSet m => meta_encode m
  end.

(** Legal: encodable, a list's tail not before its head, a sorted set with the head of its skip
    list and at least one member. *)
Definition Meta_wf {BM : BuildMode} (m : Meta) : Prop :=
  match m with
  | MList m => meta_wf m /\ lm_head m <= lm_tail m
  | MHash m => meta_wf m
  | MSet m => meta_wf m
  | MTBitMap m => meta_wf m
  | MZSet m => meta_wf m /\ 1 < zm_count m
  end.

(** The elements of the value behind the meta value. *)
Definition Meta_count (m : Meta) : Z :=
  match m with
  | MList m => lm_tail m - lm_head m | MHash m => hm_count m | MSet m => sm_count m
  | MTBitMap m => tb_eleCount m | MZSet m => zm_count m - 1
  end.

Definition Meta_head (m : Meta) : Z := match m with MZSet _ => 1 | _ => 0 end.

(** The element counters agree with the meta value: [getEleCnt] gives the number of elements
    of every type, and [getSubKeyCount] the same except that it also counts the head of a sorted
    set's skip list. *)
Theorem element_counters {BM : BuildMode} (m : Meta) (rv : RecordValue) (k : RecordKey) :
  Meta_wf m -> Meta_encode m = Ret (rv_value rv) -> rv_type rv = Meta_type m ->
  rk_type k = RT_DATA_META ->
  RecordValue_getEleCnt rv = Ret (Meta_count m) /\
  getSubKeyCount k rv = Ret (Meta_count m + Meta_head m).
Proof.
  intros Hwf He Ht Hk. unfold RecordValue_getEleCnt, getSubKeyCount, RecordKey_getRecordType.
  rewrite Ht, Hk.
  destruct m as [m|m|m|m|m]; cbn [Meta_type Meta_count Meta_head Meta_wf Meta_encode] in *;
    [destruct Hwf as [Hwf Hc]| | | |destruct Hwf as [Hwf Hc]];
    destruct (meta_law m Hwf) as (s & E & D & _); rewrite E in He;
    apply (inj Ret) in He as ->;
    cbn [meta_decode ListMeta_codec HashMeta_codec SetMeta_codec TBitMapMeta_codec ZSlMeta_codec] in D;
    rewrite D, !bind_Ret; cbn [count_or_zero]; (split; [inv_d by done|inv_d by done; rewrite bind_Ret; inv_d by done]);
    rewrite ?Z.add_0_r; try done.
  1,2: rewrite wrap_id; [done|]; destruct Hwf; unfold is_u in *; lia.
  - inv_d by (apply Z.ltb_lt; lia). destruct Hwf as (_ & _ & Hu & _).
    by rewrite wrap_id by (unfold is_u in *; lia).
  - f_equal. lia.
Qed.

Lemma element_counters_witness :
  @RecordValue_getEleCnt true (RecordValue_new (ListMetaValue_encode (mkListMeta 5 9)) RT_LIST_META 0 0 0 0 MAXU64)
    = Ret 4.
Proof.
  apply (@element_counters true (MList (mkListMeta 5 9)) _ (RecordKey_new 0 0 RT_LIST_META [] [] 0)); done.
Defined.
