(* ===== verification/ReplLog.v ===== *)
(** The replication log (storage/repllog.cpp, storage/record.h): binlog keys, log entries and
    log values, the raw accessors, and the binlog stream with its writer and reader. *)

From Stdlib Require Import Strings.Byte ZArith Lia.
From stdpp Require Import base list numbers strings.
From S2P Require Import Prelude Status Varint Strings Record RecordValue.

Local Open Scope Z_scope.

(** * Binlog keys *)

Definition ReplLogKeyV2_CHUNKID : Z := REPLLOGKEYV2_CHUNKID.
Definition ReplLogKeyV2_DBID : Z := REPLLOGKEYV2_DBID.
Definition BINLOG_OFFSET : Z := PK_OFFSET.

(** A key is its binlog id. *)
Record ReplLogKeyV2 : Set := mkReplLogKey { rlk_binlogId : Z }.

Section ReplLogKeyV2.
Context {BM : BuildMode}.

Definition ReplLogKeyV2_decode_rk (rk : RecordKey) : M ReplLogKeyV2 :=
  type ← RecordKey_getRecordType rk;
  if negb (bool_decide (type = RT_BINLOG)) then
    c ← rt2Char type;
    Throw ERR_DECODE (lit "ReplLogKeyV2::decode:it is not a valid binlog type " ++ [c])
  else if negb (rk_chunkId rk =? ReplLogKeyV2_CHUNKID) || negb (rk_dbId rk =? ReplLogKeyV2_DBID)
  then Throw ERR_DECODE (lit "ReplLogKeyV2::decode:chunkid or dbid is invalied")
  else if negb (zlen (rk_pk rk) =? 8) then Throw ERR_DECODE (lit "invalid keylen")
  else
    binlogId ← int64Decode (c_str (rk_pk rk));
    if negb (zlen (rk_sk rk) =? 0) then Throw ERR_DECODE (lit "invalid seccondkeylen")
    else Ret (mkReplLogKey binlogId).

Definition ReplLogKeyV2_decode (rawKey : bytes) : M ReplLogKeyV2 :=
  rk ← RecordKey_decode rawKey;
  ReplLogKeyV2_decode_rk rk.

Definition ReplLogKeyV2_encode (k : ReplLogKeyV2) : M bytes :=
  RecordKey_encode
    (RecordKey_new ReplLogKeyV2_CHUNKID ReplLogKeyV2_DBID RT_BINLOG (int64Encode (rlk_binlogId k)) [] 0).

End ReplLogKeyV2.

(** * Log entries *)

(** A [ReplOp] is its [uint8_t]: the decoder casts any byte to it. *)
Record ReplLogValueEntryV2 : Set := mkEntry {
  re_op : byte;
  re_timestamp : Z;
  re_key : bytes;
  re_val : bytes
}.

Definition ReplLogValueEntryV2_encodeSize (e : ReplLogValueEntryV2) : Z :=
  1 + varintEncodeSize (re_timestamp e) + lenStrEncodeSize (re_key e) + lenStrEncodeSize (re_val e).

(** A failing [lenStrDecode] is reported as a bad entry. *)
Definition or_decode_error {A} (m : M A) (msg : bytes) : M A :=
  match m with Throw _ _ => Throw ERR_DECODE msg | m => m end.

Section ReplLogValueEntryV2.
Context {BM : BuildMode}.

(** [decode(rawVal, maxSize, &decodeSize)]: the entry and the number of bytes read. *)
Definition ReplLogValueEntryV2_decode (rawVal : bytes) (maxSize : Z) : M (ReplLogValueEntryV2 * Z) :=
  if maxSize <=? 1 then Throw ERR_DECODE (lit "invalid replvalueentry len") else
  l ← read_n rawVal 1;
  let op := hd x00 l in
  let offset := 1 in
  '(timestamp, n) ← varintDecodeFwd (zdrop offset rawVal) (maxSize - offset);
  let offset := offset + n in
  '(key, n) ← or_decode_error (lenStrDecode_ptr (zdrop offset rawVal) (maxSize - offset))
                (lit "invalid replvalueentry len");
  let offset := offset + n in
  '(val, n) ← or_decode_error (lenStrDecode_ptr (zdrop offset rawVal) (maxSize - offset))
                (lit "invalid replvalueentry len");
  let offset := offset + n in
  Ret (mkEntry op timestamp key val, offset).

(** [encode(dest + off, destSize)]: the buffer and the number of bytes written. *)
Definition ReplLogValueEntryV2_encode_buf (e : ReplLogValueEntryV2) (dest : bytes) (off destSize : Z)
  : M (bytes * Z) :=
  _ ← INVARIANT_D (ReplLogValueEntryV2_encodeSize e <=? destSize);
  dest ← store dest off (re_op e);
  let offset := 1 in
  '(dest, n) ← varintEncodeBuf dest (off + offset) (destSize - offset) (re_timestamp e);
  let offset := offset + n in
  '(dest, n) ← lenStrEncode_buf dest (off + offset) (destSize - offset) (re_key e);
  let offset := offset + n in
  '(dest, n) ← lenStrEncode_buf dest (off + offset) (destSize - offset) (re_val e);
  let offset := offset + n in
  _ ← INVARIANT_D (offset =? ReplLogValueEntryV2_encodeSize e);
  Ret (dest, offset).

Definition ReplLogValueEntryV2_encode (e : ReplLogValueEntryV2) : M bytes :=
  let size := ReplLogValueEntryV2_encodeSize e in
  '(val, offset) ← ReplLogValueEntryV2_encode_buf e (zfill size x00) 0 size;
  _ ← INVARIANT_D (offset =? size);
  Ret val.

End ReplLogValueEntryV2.

(** * Log values *)

Definition RV_CHUNKID_OFFSET : Z := 0.
Definition RV_FLAG_OFFSET : Z := RV_CHUNKID_OFFSET + 4.
Definition RV_TXNID_OFFSET : Z := RV_FLAG_OFFSET + 2.
Definition RV_TIMESTAMP_OFFSET : Z := RV_TXNID_OFFSET + 8.
Definition RV_VERSIONEP_OFFSET : Z := RV_TIMESTAMP_OFFSET + 8.
Definition FIXED_HEADER_SIZE : Z := RV_VERSIONEP_OFFSET + 8.

(** [_data] points at the bytes of the log value, [_dataSize] is how many count; the flag is
    its [uint16_t]. *)
Record ReplLogValueV2 : Set := mkReplLogValue {
  rl_chunkId : Z;
  rl_flag : Z;
  rl_txnId : Z;
  rl_timestamp : Z;
  rl_versionEp : Z;
  rl_cmd : bytes;
  rl_data : bytes;
  rl_dataSize : Z
}.

Definition ReplLogValueV2_getHdrSize (v : ReplLogValueV2) : Z :=
  FIXED_HEADER_SIZE + varintEncodeSize (zlen (rl_cmd v)) + zlen (rl_cmd v).

Definition ReplLogValueV2_isEqualHdr (a b : ReplLogValueV2) : bool :=
  (rl_chunkId a =? rl_chunkId b) && (rl_flag a =? rl_flag b) && (rl_txnId a =? rl_txnId b) &&
  (rl_timestamp a =? rl_timestamp b) && (rl_versionEp a =? rl_versionEp b) &&
  bool_decide (rl_cmd a = rl_cmd b).

Section ReplLogValueV2.
Context {BM : BuildMode}.

(** [int32Encode(&header[offset], v)] and its like, as a copy into the buffer. *)
Definition ReplLogValueV2_encodeHdr (v : ReplLogValueV2) : M bytes :=
  let hdrSize := ReplLogValueV2_getHdrSize v in
  let header := zfill hdrSize x00 in
  header ← memcpy header 0 (int32Encode (rl_chunkId v));
  let offset := 4 in
  header ← memcpy header offset (int16Encode (rl_flag v));
  let offset := offset + 2 in
  header ← memcpy header offset (int64Encode (rl_txnId v));
  let offset := offset + 8 in
  header ← memcpy header offset (int64Encode (rl_timestamp v));
  let offset := offset + 8 in
  header ← memcpy header offset (int64Encode (rl_versionEp v));
  let offset := offset + 8 in
  _ ← INVARIANT_D (offset =? FIXED_HEADER_SIZE);
  '(header, size) ← lenStrEncode_buf header offset (hdrSize - offset) (rl_cmd v);
  let offset := offset + size in
  _ ← INVARIANT_D (offset =? hdrSize);
  Ret header.

Fixpoint encode_entries (vec : list ReplLogValueEntryV2) (val : bytes) (offset allocSize : Z)
  : M (bytes * Z) :=
  match vec with
  | [] => Ret (val, offset)
  | e :: vec' =>
      '(val, len) ← ReplLogValueEntryV2_encode_buf e val offset (allocSize - offset);
      _ ← INVARIANT_D (0 <? len);
      encode_entries vec' val (offset + len) allocSize
  end.

(** [val.resize(allocSize)] appends zeros; the record value has [versionEP] -1. *)
Definition ReplLogValueV2_encode (v : ReplLogValueV2) (vec : list ReplLogValueEntryV2) : M bytes :=
  val ← ReplLogValueV2_encodeHdr v;
  let offset := zlen val in
  let allocSize := fold_left (fun n e => n + ReplLogValueEntryV2_encodeSize e) vec offset in
  '(val, offset) ← encode_entries vec (val ++ zfill (allocSize - offset) x00) offset allocSize;
  _ ← INVARIANT_D (offset =? allocSize);
  RecordValue_encode (RecordValue_new val RT_BINLOG MAXU64 0 (-1) 0 MAXU64).

(** [decode(str, size)]. *)
Definition ReplLogValueV2_decode_ptr (str : bytes) (size : Z) : M ReplLogValueV2 :=
  if size <? FIXED_HEADER_SIZE
  then Throw ERR_DECODE (lit "ReplLogValueV2::decode() error, too small") else
  chunkid ← int32Decode (zdrop RV_CHUNKID_OFFSET str);
  flag ← int16Decode (zdrop RV_FLAG_OFFSET str);
  txnid ← int64Decode (zdrop RV_TXNID_OFFSET str);
  timestamp ← int64Decode (zdrop RV_TIMESTAMP_OFFSET str);
  versionEp ← int64Decode (zdrop RV_VERSIONEP_OFFSET str);
  match lenStrDecode_ptr (zdrop FIXED_HEADER_SIZE str) (size - FIXED_HEADER_SIZE) with
  | Throw code msg =>
      s ← Status_toString (mkStatus msg code);
      Throw ERR_DECODE (lit "ReplLogValueV2::decode() error:" ++ s)
  | Crash c => Crash c
  | Ret (cmd, _) => Ret (mkReplLogValue chunkid flag txnid timestamp versionEp cmd str size)
  end.

Definition ReplLogValueV2_decode (s : bytes) : M ReplLogValueV2 :=
  type ← RecordValue_decodeType s;
  if negb (bool_decide (type = RT_BINLOG)) then
    c ← rt2Char type;
    Throw ERR_DECODE (lit "ReplLogValueV2::decode: it is not a valid binlog type" ++ [c])
  else
    hdrSize ← RecordValue_decodeHdrSizeNoMeta s;
    ReplLogValueV2_decode_ptr (zdrop hdrSize (c_str s)) (u64 (zlen s - hdrSize)).

(** The loop over the entries from [curSize] on; every entry takes at least two bytes, so the
    reachable bytes bound the rounds. *)
Fixpoint entries_from (fuel : nat) (data : bytes) (curSize dataSize : Z)
  : M (list ReplLogValueEntryV2 * Z) :=
  match fuel with
  | O => Crash CUndefined
  | S fuel' =>
      if curSize <? dataSize then
        '(e, oneSize) ← ReplLogValueEntryV2_decode (zdrop curSize data) (dataSize - curSize);
        '(es, offset) ← entries_from fuel' data (curSize + oneSize) dataSize;
        Ret (e :: es, offset)
      else Ret ([], curSize)
  end.

Definition ReplLogValueV2_getLogList (v : ReplLogValueV2) : M (list ReplLogValueEntryV2) :=
  '(result, _) ← or_decode_error
     (entries_from (S (length (rl_data v))) (rl_data v) FIXED_HEADER_SIZE (rl_dataSize v))
     (lit "decode error.");
  Ret result.

End ReplLogValueV2.

(** * Raw logs *)

Definition TXNID_UNINITED : Z := 0.
Definition CHUNKID_UNINITED : Z := 0xFFFFFFFF.

Record ReplLogRawV2 : Set := mkRaw { raw_key : bytes; raw_val : bytes }.

Section ReplLogRawV2.
Context {BM : BuildMode}.

Definition ReplLogRawV2_of_record (k : RecordKey) (v : RecordValue) : M ReplLogRawV2 :=
  '(key, val) ← Rec_encode k v;
  Ret (mkRaw key val).

Definition ReplLogRawV2_getBinlogId (r : ReplLogRawV2) : M Z :=
  if zlen (raw_key r) <? RecordKey_minSize
  then _ ← INVARIANT_D false; Ret TXNID_UNINITED
  else int64Decode (zdrop BINLOG_OFFSET (c_str (raw_key r))).

(** The common body of the accessors of the value: check the size, skip the record header and
    read a field, or give the default. *)
Definition raw_field (r : ReplLogRawV2) (default : Z) (decode : bytes -> M Z) (offset : Z) : M Z :=
  if zlen (raw_val r) <? RecordValue_minSize + FIXED_HEADER_SIZE
  then _ ← INVARIANT_D false; Ret default else
  match RecordValue_decodeHdrSizeNoMeta (raw_val r) with
  | Throw _ _ => _ ← INVARIANT_D false; Ret default
  | Crash c => Crash c
  | Ret rvHdrSize => decode (zdrop (rvHdrSize + offset) (c_str (raw_val r)))
  end.

Definition ReplLogRawV2_getVersionEp (r : ReplLogRawV2) : M Z :=
  raw_field r MAXU64 int64Decode RV_VERSIONEP_OFFSET.

Definition ReplLogRawV2_getTimestamp (r : ReplLogRawV2) : M Z :=
  raw_field r 0 int64Decode RV_TIMESTAMP_OFFSET.

Definition ReplLogRawV2_getChunkId (r : ReplLogRawV2) : M Z :=
  raw_field r CHUNKID_UNINITED int32Decode RV_CHUNKID_OFFSET.

End ReplLogRawV2.

(** * Whole logs *)

Record ReplLogV2 : Set := mkReplLog {
  log_key : ReplLogKeyV2;
  log_val : ReplLogValueV2;
  log_entrys : list ReplLogValueEntryV2
}.

Section ReplLogV2.
Context {BM : BuildMode}.

Definition ReplLogV2_decode (key value : bytes) : M ReplLogV2 :=
  k ← ReplLogKeyV2_decode key;
  v ← ReplLogValueV2_decode value;
  match entries_from (S (length (rl_data v))) (rl_data v) (ReplLogValueV2_getHdrSize v) (rl_dataSize v) with
  | Throw code msg => _ ← INVARIANT_D false; Throw code msg
  | Crash c => Crash c
  | Ret (entrys, offset) =>
      if negb (offset =? rl_dataSize v)
      then Throw ERR_DECODE (lit "invalid repllogvaluev2 value len")
      else Ret (mkReplLog k v entrys)
  end.

(** [_entrys.rbegin()] of no entries is undefined. *)
Definition ReplLogV2_getTimestamp (l : ReplLogV2) : M Z :=
  _ ← INVARIANT_D (negb (bool_decide (log_entrys l = [])));
  match last (log_entrys l) with
  | None => Crash CUndefined
  | Some e =>
      _ ← INVARIANT_D (rl_timestamp (log_val l) =? re_timestamp e);
      Ret (re_timestamp e)
  end.

End ReplLogV2.

(** * The binlog stream *)

Definition HEADERSIZE : Z := 1.
Definition BINLOG_VERSION : byte := x02.

Inductive BinlogFlag : Set := BF_NORMAL | BF_FLUSH | BF_MIGRATE.

Record BinlogWriter : Set := mkWriter {
  bw_curSize : Z;
  bw_maxSize : Z;
  bw_curCnt : Z;
  bw_maxCnt : Z;
  bw_flag : BinlogFlag;
  bw_ss : bytes
}.

Record BinlogReader : Set := mkReader { br_pos : Z; br_val : bytes }.

Definition BinlogReader_new (s : bytes) : BinlogReader := mkReader 0 s.

Section Binlog.
Context {BM : BuildMode}.

(** [Binlog::writeHeader]: the stream and the number of bytes written. *)
Definition Binlog_writeHeader (ss : bytes) : M (bytes * Z) :=
  _ ← INVARIANT_D (HEADERSIZE =? 1);
  Ret (ss ++ [BINLOG_VERSION], HEADERSIZE).

(** [decodeHeader(str, size)], which does not look at the size. *)
Definition Binlog_decodeHeader (str : bytes) : M Z :=
  l ← read_n str 1;
  _ ← INVARIANT_D (bool_decide (l = [BINLOG_VERSION]));
  Ret (if bool_decide (l = [BINLOG_VERSION]) then HEADERSIZE else MAXU64).

Definition Binlog_writeRepllogRaw (ss : bytes) (r : ReplLogRawV2) : M (bytes * Z) :=
  '(ss, n1) ← lenStrEncode_ss ss (raw_key r);
  '(ss, n2) ← lenStrEncode_ss ss (raw_val r);
  Ret (ss, n1 + n2).

Definition BinlogWriter_new (maxSize maxCount : Z) : M BinlogWriter :=
  '(ss, n) ← Binlog_writeHeader [];
  Ret (mkWriter n maxSize 0 maxCount BF_NORMAL ss).

Definition BinlogWriter_writerFull (w : BinlogWriter) : bool :=
  (bw_maxSize w <=? bw_curSize w) || (bw_maxCnt w <=? bw_curCnt w).

Definition BinlogWriter_writeRepllogRaw (w : BinlogWriter) (r : ReplLogRawV2) : M (BinlogWriter * bool) :=
  '(ss, n) ← Binlog_writeRepllogRaw (bw_ss w) r;
  let w := mkWriter (u64 (bw_curSize w + n)) (bw_maxSize w) (u32 (bw_curCnt w + 1)) (bw_maxCnt w)
             (bw_flag w) ss in
  Ret (w, BinlogWriter_writerFull w).

Definition BinlogWriter_resetWriter (w : BinlogWriter) : M BinlogWriter :=
  '(ss, n) ← Binlog_writeHeader [];
  Ret (mkWriter n (bw_maxSize w) 0 (bw_maxCnt w) BF_NORMAL ss).

Definition BinlogWriter_setFlag (w : BinlogWriter) (flag : BinlogFlag) : BinlogWriter :=
  mkWriter (bw_curSize w) (bw_maxSize w) (bw_curCnt w) (bw_maxCnt w) flag (bw_ss w).

(** The reading of one log, shared by [next] and [nextV2]: the raw key and value and the reader
    that has moved past them. After a failure the same reader fails again the same way. *)
Definition binlog_error {A} (m : M A) : M A :=
  match m with
  | Throw code msg =>
      s ← Status_toString (mkStatus msg code);
      Throw ERR_DECODE (lit "invalid binlog format" ++ s)
  | m => m
  end.

Definition BinlogReader_step (r : BinlogReader) : M (bytes * bytes * BinlogReader) :=
  let val := br_val r in
  pos ← (if br_pos r =? 0 then
           size ← Binlog_decodeHeader (c_str val);
           if zlen val <? size then Throw ERR_DECODE (lit "invalid binlog") else Ret size
         else Ret (br_pos r));
  if pos =? zlen val then Throw ERR_EXHAUST [] else
  _ ← INVARIANT (pos <? zlen val);
  let offset := pos in
  '(key, n) ← binlog_error (lenStrDecode_ptr (zdrop offset (c_str val)) (zlen val - offset));
  let offset := offset + n in
  '(value, n) ← binlog_error (lenStrDecode_ptr (zdrop offset (c_str val)) (zlen val - offset));
  let offset := offset + n in
  Ret (key, value, mkReader offset val).

Definition BinlogReader_next (r : BinlogReader) : M (ReplLogRawV2 * BinlogReader) :=
  '(key, value, r) ← BinlogReader_step r;
  Ret (mkRaw key value, r).

(** [nextV2] moves past the log before it decodes it. *)
Definition BinlogReader_nextV2 (r : BinlogReader) : M (M ReplLogV2 * BinlogReader) :=
  '(key, value, r) ← BinlogReader_step r;
  Ret (ReplLogV2_decode key value, r).

End Binlog.

(** * Layout of the entries *)

Definition entry_wf (e : ReplLogValueEntryV2) : Prop :=
  is_u64 (re_timestamp e) /\ zlen (re_key e) < 2 ^ 63 /\ zlen (re_val e) < 2 ^ 63.

Definition entry_raw (e : ReplLogValueEntryV2) : bytes :=
  [re_op e] ++ varintEncode (re_timestamp e) ++ len_str (re_key e) ++ len_str (re_val e).

Lemma zlen_len_str val : zlen val < 2 ^ 63 -> 1 <= zlen (len_str val) <= 10 + zlen val.
Proof.
  intros H. unfold len_str. rewrite zlen_app. pose proof (varintEncode_len _ (zlen_u64 _ H)).
  pose proof (zlen_nonneg val). lia.
Qed.

Lemma entry_size e :
  entry_wf e -> ReplLogValueEntryV2_encodeSize e = zlen (entry_raw e) /\ 4 <= zlen (entry_raw e).
Proof.
  intros (Ht & Hk & Hv). unfold ReplLogValueEntryV2_encodeSize, entry_raw.
  rewrite varintEncodeSize_spec, !lenStrEncodeSize_spec, !zlen_app by (done || lia).
  change (zlen [re_op e]) with 1. pose proof (varintEncode_len _ Ht).
  pose proof (zlen_len_str (re_key e)). pose proof (zlen_len_str (re_val e)). lia.
Qed.

Lemma store_filled size l off b :
  off = zlen l -> zlen l < size -> store (filled size l) off b = Ret (filled size (l ++ [b])).
Proof.
  intros -> H. pose proof (zlen_nonneg l). unfold filled.
  replace (size - zlen l) with (1 + (size - zlen (l ++ [b]))) at 1 by (rewrite zlen_app; change (zlen [b]) with 1; lia).
  rewrite zfill_split by (rewrite ?zlen_app; change (zlen [b]) with 1; lia).
  change (zfill 1 x00) with [x00]. cbn [app]. rewrite store_app. by rewrite <-app_assoc.
Qed.

Section EntryLayout.
Context {BM : BuildMode}.

Lemma entry_encode_fill e size l off destSize :
  entry_wf e -> off = zlen l -> zlen l + zlen (entry_raw e) <= size -> zlen (entry_raw e) <= destSize ->
  ReplLogValueEntryV2_encode_buf e (filled size l) off destSize
  = Ret (filled size (l ++ entry_raw e), zlen (entry_raw e)).
Proof.
  intros Hwf -> Hs Hd. destruct (entry_size e Hwf) as [Hsz _]. destruct Hwf as (Ht & Hk & Hv).
  unfold ReplLogValueEntryV2_encode_buf. inv_d by (apply Z.leb_le; lia). clear Hsz.
  pose proof (varintEncode_len _ Ht) as Hl1. pose proof (zlen_len_str (re_key e)) as Hl2.
  pose proof (zlen_len_str (re_val e)) as Hl3.
  assert (zlen (entry_raw e) = 1 + zlen (varintEncode (re_timestamp e)) + zlen (len_str (re_key e))
    + zlen (len_str (re_val e))) as Hz.
  { unfold entry_raw. rewrite !zlen_app. change (zlen [re_op e]) with 1. lia. }
  rewrite store_filled, bind_Ret by lia. cbv zeta.
  rewrite varintEncodeBuf_fill, bind_Ret; [|done|rewrite zlen_app; done|rewrite zlen_app; change (zlen [re_op e]) with 1; lia|lia].
  rewrite lenStrEncode_buf_fill, bind_Ret;
    [|lia|rewrite !zlen_app; change (zlen [re_op e]) with 1; lia|rewrite !zlen_app; change (zlen [re_op e]) with 1; lia|lia].
  rewrite lenStrEncode_buf_fill, bind_Ret;
    [|lia|rewrite !zlen_app; change (zlen [re_op e]) with 1; lia|rewrite !zlen_app; change (zlen [re_op e]) with 1; lia|lia].
  inv_d by (apply Z.eqb_eq; destruct (entry_size e) as [-> _]; [done|lia]).
  rewrite Hz. unfold entry_raw. by rewrite <-!app_assoc.
Qed.

Lemma entry_decode e rest maxSize :
  entry_wf e -> zlen (entry_raw e) <= maxSize < 2 ^ 64 ->
  ReplLogValueEntryV2_decode (entry_raw e ++ rest) maxSize = Ret (e, zlen (entry_raw e)).
Proof.
  intros Hwf Hm. destruct (entry_size e Hwf) as [_ Hsz]. destruct Hwf as (Ht & Hk & Hv).
  pose proof (varintEncode_len _ Ht) as Hl1. pose proof (zlen_len_str (re_key e)) as Hl2.
  pose proof (zlen_len_str (re_val e)) as Hl3. unfold ReplLogValueEntryV2_decode.
  destruct (Z.leb_spec maxSize 1); [lia|]. unfold entry_raw in Hm, Hsz |- *.
  rewrite !zlen_app in Hm, Hsz |- *. change (zlen [re_op e]) with 1 in *.
  set (tail := varintEncode (re_timestamp e) ++ len_str (re_key e) ++ len_str (re_val e) ++ rest).
  replace (([re_op e] ++ varintEncode (re_timestamp e) ++ len_str (re_key e) ++ len_str (re_val e)) ++ rest)
    with (re_op e :: tail) by (unfold tail; by rewrite <-!app_assoc).
  change (re_op e :: tail) with ([re_op e] ++ tail). rewrite read_n_app, bind_Ret by done. cbv zeta.
  rewrite zdrop_app_eq by done. unfold tail. rewrite varintDecodeFwd_encode, bind_Ret by (done || lia).
  rewrite app_assoc, zdrop_app_eq by (rewrite zlen_app; done).
  rewrite lenStrDecode_ptr_spec by lia. cbn [or_decode_error]. rewrite bind_Ret.
  rewrite app_assoc, zdrop_app_eq by (rewrite !zlen_app; change (zlen [re_op e]) with 1; lia).
  rewrite lenStrDecode_ptr_spec by lia. cbn [or_decode_error]. rewrite bind_Ret.
  destruct e. cbn [re_op re_timestamp re_key re_val]. do 2 f_equal. lia.
Qed.

End EntryLayout.

(** * Layout of the values *)

Definition value_wf (v : ReplLogValueV2) : Prop :=
  is_u32 (rl_chunkId v) /\ is_u16 (rl_flag v) /\ is_u64 (rl_txnId v) /\ is_u64 (rl_timestamp v) /\
  is_u64 (rl_versionEp v) /\ zlen (rl_cmd v) < 2 ^ 60.

Definition fixed_raw (v : ReplLogValueV2) : bytes :=
  int32Encode (rl_chunkId v) ++ int16Encode (rl_flag v) ++ int64Encode (rl_txnId v) ++
  int64Encode (rl_timestamp v) ++ int64Encode (rl_versionEp v).

Definition hdr_raw (v : ReplLogValueV2) : bytes := fixed_raw v ++ len_str (rl_cmd v).

Definition entries_raw (es : list ReplLogValueEntryV2) : bytes := concat (map entry_raw es).

Lemma zlen_fixed_raw v : zlen (fixed_raw v) = FIXED_HEADER_SIZE.
Proof. unfold fixed_raw, int16Encode, int32Encode, int64Encode. by rewrite !zlen_app, !zlen_be_bytes. Qed.

Lemma hdr_size v : value_wf v -> ReplLogValueV2_getHdrSize v = zlen (hdr_raw v).
Proof.
  intros (_ & _ & _ & _ & _ & Hc). unfold ReplLogValueV2_getHdrSize, hdr_raw, len_str.
  rewrite varintEncodeSize_spec by (apply zlen_u64; lia). rewrite !zlen_app, zlen_fixed_raw. lia.
Qed.

Lemma filled_full l : filled (zlen l) l = l.
Proof. unfold filled. rewrite Z.sub_diag. cbn. apply app_nil_r. Qed.

Section ValueLayout.
Context {BM : BuildMode}.

Lemma encodeHdr_raw v : value_wf v -> ReplLogValueV2_encodeHdr v = Ret (hdr_raw v).
Proof.
  intros Hwf. pose proof (hdr_size v Hwf) as Hh. destruct Hwf as (_ & _ & _ & _ & _ & Hc).
  pose proof (zlen_len_str (rl_cmd v)) as Hl. unfold ReplLogValueV2_encodeHdr. rewrite Hh.
  assert (zlen (hdr_raw v) = FIXED_HEADER_SIZE + zlen (len_str (rl_cmd v))) as Hz
    by (unfold hdr_raw; by rewrite zlen_app, zlen_fixed_raw).
  specialize (Hl ltac:(lia)). remember (zlen (hdr_raw v)) as size eqn:Hsize.
  change FIXED_HEADER_SIZE with 30 in *.
  replace (zfill size x00) with (filled size []) by (unfold filled; cbn; by rewrite Z.sub_0_r).
  do 5 (rewrite memcpy_filled, bind_Ret by
    (done || (unfold int16Encode, int32Encode, int64Encode; rewrite ?zlen_app, ?zlen_be_bytes;
              change (zlen []) with 0; lia))).
  inv_d by done. cbn [app]. rewrite <-!app_assoc. fold (fixed_raw v).
  rewrite lenStrEncode_buf_fill, bind_Ret; [|lia|by rewrite zlen_fixed_raw|rewrite zlen_fixed_raw; change FIXED_HEADER_SIZE with 30; lia|lia].
  inv_d by (apply Z.eqb_eq; lia). fold (hdr_raw v). by rewrite Hsize, filled_full.
Qed.

Lemma encode_entries_fill es : forall size l,
  Forall entry_wf es -> zlen l + zlen (entries_raw es) <= size ->
  encode_entries es (filled size l) (zlen l) size
  = Ret (filled size (l ++ entries_raw es), zlen (l ++ entries_raw es)).
Proof.
  induction es as [|e es IH]; intros size l Hwf Hs.
  { unfold entries_raw. cbn. by rewrite app_nil_r. }
  apply Forall_cons in Hwf as [He Hes]. unfold entries_raw in *. cbn [map concat encode_entries] in *.
  rewrite zlen_app in Hs. pose proof (zlen_nonneg (concat (map entry_raw es))).
  destruct (entry_size e He) as [_ Hsz].
  rewrite entry_encode_fill, bind_Ret by (done || lia). inv_d by (apply Z.ltb_lt; lia).
  rewrite <-zlen_app, IH by (done || rewrite ?zlen_app; lia). by rewrite <-!app_assoc.
Qed.

Lemma alloc_size es n :
  Forall entry_wf es ->
  fold_left (fun n e => n + ReplLogValueEntryV2_encodeSize e) es n = n + zlen (entries_raw es).
Proof.
  intros H. revert n. induction H as [|e es He _ IH]; intros n; [change (zlen (entries_raw [])) with 0; cbn [fold_left]; lia|].
  cbn [fold_left]. rewrite IH. unfold entries_raw. cbn [map concat]. rewrite zlen_app.
  destruct (entry_size e He) as [-> _]. lia.
Qed.

(** The record value a log value is stored in. *)
Definition log_rv (v : ReplLogValueV2) (es : list ReplLogValueEntryV2) : RecordValue :=
  RecordValue_new (hdr_raw v ++ entries_raw es) RT_BINLOG MAXU64 0 (-1) 0 MAXU64.

Lemma ReplLogValueV2_encode_eq v es :
  value_wf v -> Forall entry_wf es -> ReplLogValueV2_encode v es = RecordValue_encode (log_rv v es).
Proof.
  intros Hv Hes. unfold ReplLogValueV2_encode. rewrite encodeHdr_raw, bind_Ret by done. cbv zeta.
  rewrite alloc_size by done. set (size := zlen (hdr_raw v) + zlen (entries_raw es)).
  change (hdr_raw v ++ zfill (size - zlen (hdr_raw v)) x00) with (filled size (hdr_raw v)).
  rewrite encode_entries_fill, bind_Ret by (done || unfold size; lia).
  inv_d by (apply Z.eqb_eq; rewrite zlen_app; done).
  unfold size. by rewrite <-zlen_app, filled_full.
Qed.

(** A log of any length is encoded. *)
Lemma log_rv_encode v es : exists s, RecordValue_encode (log_rv v es) = Ret s.
Proof. unfold log_rv. generalize (hdr_raw v ++ entries_raw es) as val. intros val. destruct BM; eexists; lazy; reflexivity. Qed.

Lemma log_rv_wf v es :
  zlen (hdr_raw v ++ entries_raw es) < 2 ^ 62 -> RecordValue_wf (log_rv v es).
Proof. intros H. unfold RecordValue_wf, log_rv; cbn [RecordValue_new rv_type rv_ttl rv_version rv_versionEP
  rv_cas rv_pieceSize rv_totalSize rv_value]. by split_and!. Qed.

(** The fixed fields, at their offsets. *)
Lemma fixed_fields v rest :
  value_wf v ->
  int32Decode (zdrop RV_CHUNKID_OFFSET (fixed_raw v ++ rest)) = Ret (rl_chunkId v) /\
  int16Decode (zdrop RV_FLAG_OFFSET (fixed_raw v ++ rest)) = Ret (rl_flag v) /\
  int64Decode (zdrop RV_TXNID_OFFSET (fixed_raw v ++ rest)) = Ret (rl_txnId v) /\
  int64Decode (zdrop RV_TIMESTAMP_OFFSET (fixed_raw v ++ rest)) = Ret (rl_timestamp v) /\
  int64Decode (zdrop RV_VERSIONEP_OFFSET (fixed_raw v ++ rest)) = Ret (rl_versionEp v).
Proof.
  intros (H1 & H2 & H3 & H4 & H5 & _). unfold fixed_raw. rewrite <-!app_assoc.
  assert (forall A (l : list A) k n, n = zlen l -> zdrop n (l ++ k) = k) as Hd by (intros; by apply zdrop_app_eq).
  split_and!.
  - unfold RV_CHUNKID_OFFSET. rewrite zdrop_0. by apply int32_roundtrip.
  - rewrite Hd by (unfold int32Encode; by rewrite zlen_be_bytes). by apply int16_roundtrip.
  - rewrite app_assoc, Hd by (unfold int16Encode, int32Encode; by rewrite zlen_app, !zlen_be_bytes). by apply int64_roundtrip.
  - rewrite !app_assoc, <-(app_assoc _ (int64Encode (rl_versionEp v))), <-(app_assoc _ (int64Encode (rl_timestamp v))).
    rewrite Hd by (unfold int16Encode, int32Encode, int64Encode; by rewrite !zlen_app, !zlen_be_bytes). by apply int64_roundtrip.
  - rewrite !app_assoc, <-(app_assoc _ (int64Encode (rl_versionEp v))).
    rewrite Hd by (unfold int16Encode, int32Encode, int64Encode; by rewrite !zlen_app, !zlen_be_bytes). by apply int64_roundtrip.
Qed.

End ValueLayout.

(** * Reading the layout back *)

Section Reading.
Context {BM : BuildMode}.

(** A log value with the bytes it points at. *)
Definition with_data (v : ReplLogValueV2) (data : bytes) (size : Z) : ReplLogValueV2 :=
  mkReplLogValue (rl_chunkId v) (rl_flag v) (rl_txnId v) (rl_timestamp v) (rl_versionEp v) (rl_cmd v)
    data size.

Lemma decode_ptr_raw v rest size :
  value_wf v -> zlen (hdr_raw v) <= size < 2 ^ 63 ->
  ReplLogValueV2_decode_ptr (hdr_raw v ++ rest) size = Ret (with_data v (hdr_raw v ++ rest) size).
Proof.
  intros Hwf Hs. unfold ReplLogValueV2_decode_ptr. unfold hdr_raw in *. rewrite zlen_app, zlen_fixed_raw in Hs.
  rewrite <-app_assoc. pose proof (fixed_fields v (len_str (rl_cmd v) ++ rest) Hwf) as (-> & -> & -> & -> & ->).
  destruct Hwf as (_ & _ & _ & _ & _ & Hc). pose proof (zlen_len_str (rl_cmd v) ltac:(lia)).
  change FIXED_HEADER_SIZE with 30 in *. destruct (Z.ltb_spec size 30); [lia|]. rewrite !bind_Ret.
  rewrite zdrop_app_eq by (by rewrite zlen_fixed_raw). by rewrite lenStrDecode_ptr_spec by lia.
Qed.

Lemma ReplLogValueV2_decode_raw v es c :
  value_wf v -> zlen (hdr_raw v ++ entries_raw es) < 2 ^ 62 -> rt2Char RT_BINLOG = Ret c ->
  ReplLogValueV2_decode (rv_raw (log_rv v es) c) =
    Ret (with_data v ((hdr_raw v ++ entries_raw es) ++ [x00]) (zlen (hdr_raw v ++ entries_raw es))).
Proof.
  intros Hv Hs Hc. pose proof (log_rv_wf v es Hs) as Hwf. unfold ReplLogValueV2_decode.
  rewrite RecordValue_decodeType_raw, bind_Ret by done.
  change (rv_type (log_rv v es)) with RT_BINLOG. cbn [negb bool_decide]. rewrite bool_decide_eq_true_2 by done.
  cbn [negb]. rewrite RecordValue_decodeHdrSizeNoMeta_raw, bind_Ret by done.
  pose proof (rv_value_at (log_rv v es) c) as Ha.
  assert (zlen (rv_raw (log_rv v es) c) < 2 ^ 64) as Hlt by (pose proof (rv_raw_size _ c Hwf); lia).
  rewrite (at_offset_ptr _ _ _ Ha), (at_offset_left _ _ _ Hlt Ha).
  change (rv_value (log_rv v es)) with (hdr_raw v ++ entries_raw es). rewrite <-app_assoc.
  apply decode_ptr_raw; [done|]. rewrite zlen_app in *. pose proof (zlen_nonneg (entries_raw es)). lia.
Qed.

Lemma entries_from_raw es : forall fuel pre rest dataSize,
  Forall entry_wf es -> (length es < fuel)%nat -> dataSize = zlen pre + zlen (entries_raw es) ->
  dataSize < 2 ^ 64 ->
  entries_from fuel (pre ++ entries_raw es ++ rest) (zlen pre) dataSize = Ret (es, dataSize).
Proof.
  induction es as [|e es IH]; intros fuel pre rest dataSize Hwf Hf -> Hd;
    (destruct fuel as [|fuel]; [cbn in Hf; lia|]); cbn [entries_from].
  { change (zlen (entries_raw [])) with 0. rewrite Z.add_0_r, Z.ltb_irrefl. done. }
  apply Forall_cons in Hwf as [He Hes]. destruct (entry_size e He) as [_ Hsz].
  unfold entries_raw in *. cbn [map concat] in *. rewrite zlen_app in *. pose proof (zlen_nonneg (concat (map entry_raw es))).
  pose proof (zlen_nonneg pre).
  destruct (Z.ltb_spec (zlen pre) (zlen pre + (zlen (entry_raw e) + zlen (concat (map entry_raw es))))); [|lia].
  rewrite zdrop_app, <-app_assoc, entry_decode, bind_Ret by (done || lia).
  specialize (IH fuel (pre ++ entry_raw e) rest (zlen pre + (zlen (entry_raw e) + zlen (concat (map entry_raw es))))).
  rewrite zlen_app, <-!app_assoc in IH. rewrite IH, bind_Ret; [done|done|cbn in Hf; lia|lia|done].
Qed.

Lemma entries_count es : Forall entry_wf es -> (length es <= length (entries_raw es))%nat.
Proof.
  induction 1 as [|e es He _ IH]; [done|]. unfold entries_raw in *. cbn [map concat length].
  rewrite length_app. destruct (entry_size e He) as [_ H]. unfold zlen in H. lia.
Qed.

Definition log_rk (id : Z) : RecordKey :=
  RecordKey_new ReplLogKeyV2_CHUNKID ReplLogKeyV2_DBID RT_BINLOG (int64Encode id) [] 0.

Lemma log_rk_wf id : RecordKey_wf (log_rk id).
Proof. by apply RecordKey_wf_new. Qed.

Lemma ReplLogKeyV2_decode_raw id s :
  is_u64 id -> ReplLogKeyV2_encode (mkReplLogKey id) = Ret s ->
  ReplLogKeyV2_decode s = Ret (mkReplLogKey id).
Proof.
  intros Hid Hs. change (RecordKey_encode (log_rk id) = Ret s) in Hs.
  destruct (RecordKey_decode_encode _ _ (log_rk_wf id) Hs) as (k & Dk & He & _).
  unfold ReplLogKeyV2_decode. rewrite Dk, bind_Ret. apply RecordKey_equiv_fields in He.
  destruct He as (E1 & E2 & E3 & E4 & E5 & _). unfold ReplLogKeyV2_decode_rk, RecordKey_getRecordType.
  cbn [log_rk RecordKey_new rk_chunkId rk_dbId rk_type rk_pk rk_sk] in *. rewrite E3.
  inv_d by done. rewrite bind_Ret, E1, E2, E4, E5. rewrite bool_decide_eq_true_2 by done. rewrite !Z.eqb_refl.
  change (zlen (int64Encode id) =? 8) with true. cbn [negb orb]. unfold c_str. rewrite int64_roundtrip, bind_Ret by done. done.
Qed.

End Reading.

(** * The stream *)

Definition raw_wf (r : ReplLogRawV2) : Prop := zlen (raw_key r) < 2 ^ 60 /\ zlen (raw_val r) < 2 ^ 60.

Definition raw_wire (r : ReplLogRawV2) : bytes := len_str (raw_key r) ++ len_str (raw_val r).

Definition stream (rs : list ReplLogRawV2) : bytes := [BINLOG_VERSION] ++ concat (map raw_wire rs).

Section Stream.
Context {BM : BuildMode}.

(** Writes logs one after the other, as long as the caller wants to. *)
Fixpoint write_all (w : BinlogWriter) (rs : list ReplLogRawV2) : M BinlogWriter :=
  match rs with
  | [] => Ret w
  | r :: rs' => '(w, _) ← BinlogWriter_writeRepllogRaw w r; write_all w rs'
  end.

(** Reads logs until the reader is exhausted. *)
Fixpoint read_all (fuel : nat) (r : BinlogReader) : M (list ReplLogRawV2) :=
  match fuel with
  | O => Crash CUndefined
  | S fuel' =>
      match BinlogReader_next r with
      | Ret (x, r) => xs ← read_all fuel' r; Ret (x :: xs)
      | Throw ERR_EXHAUST _ => Ret []
      | Throw code msg => Throw code msg
      | Crash c => Crash c
      end
  end.

Lemma lenStrEncode_ss_eq ss val :
  zlen val < 2 ^ 60 -> lenStrEncode_ss ss val = Ret (ss ++ len_str val, zlen (len_str val)).
Proof.
  intros H. unfold lenStrEncode_ss. rewrite varintEncodeStr_spec, bind_Ret by (apply zlen_u64; lia).
  unfold len_str. by rewrite zlen_app.
Qed.

Lemma Binlog_writeRepllogRaw_eq ss r :
  raw_wf r -> Binlog_writeRepllogRaw ss r = Ret (ss ++ raw_wire r, zlen (raw_wire r)).
Proof.
  intros [Hk Hv]. unfold Binlog_writeRepllogRaw. rewrite !lenStrEncode_ss_eq, !bind_Ret by done.
  unfold raw_wire. rewrite lenStrEncode_ss_eq, bind_Ret by done. by rewrite zlen_app, <-app_assoc.
Qed.

(** The writer's counters describe its stream. *)
Definition writer_of (w : BinlogWriter) (rs : list ReplLogRawV2) : Prop :=
  bw_ss w = stream rs /\ bw_curSize w = u64 (zlen (stream rs)) /\ bw_curCnt w = u32 (zlen rs).

Lemma stream_snoc rs r : stream (rs ++ [r]) = stream rs ++ raw_wire r.
Proof. unfold stream. rewrite map_app, concat_app. cbn. by rewrite app_nil_r. Qed.

Lemma writer_write w rs r :
  writer_of w rs -> raw_wf r ->
  exists w', BinlogWriter_writeRepllogRaw w r = Ret (w', BinlogWriter_writerFull w') /\
    writer_of w' (rs ++ [r]) /\ bw_maxSize w' = bw_maxSize w /\ bw_maxCnt w' = bw_maxCnt w.
Proof.
  intros (E1 & E2 & E3) Hr. unfold BinlogWriter_writeRepllogRaw.
  rewrite Binlog_writeRepllogRaw_eq, bind_Ret by done. eexists. split; [done|]. split; [|done].
  unfold writer_of. cbn [bw_ss bw_curSize bw_curCnt]. rewrite E1, E2, E3, stream_snoc, !wrap_add_l.
  split; [done|]. rewrite !zlen_app. done.
Qed.

Lemma write_all_stream rs : forall w rs0,
  writer_of w rs0 -> Forall raw_wf rs ->
  exists w', write_all w rs = Ret w' /\ writer_of w' (rs0 ++ rs) /\
    bw_maxSize w' = bw_maxSize w /\ bw_maxCnt w' = bw_maxCnt w.
Proof.
  induction rs as [|r rs IH]; intros w rs0 Hw Hf; [exists w; by rewrite app_nil_r|].
  apply Forall_cons in Hf as [Hr Hf]. destruct (writer_write _ _ _ Hw Hr) as (w1 & E & Hw1 & M1 & M2).
  destruct (IH _ _ Hw1 Hf) as (w2 & E2 & Hw2 & M3 & M4). exists w2. cbn [write_all]. rewrite E, bind_Ret, E2.
  rewrite <-app_assoc in Hw2. split_and!; [done|done|congruence|congruence].
Qed.

Lemma raw_wire_size r : raw_wf r -> 2 <= zlen (raw_wire r).
Proof.
  intros [Hk Hv]. unfold raw_wire. rewrite zlen_app. pose proof (zlen_len_str (raw_key r) ltac:(lia)).
  pose proof (zlen_len_str (raw_val r) ltac:(lia)). lia.
Qed.

(** The position of a reader that has read the logs [rs]: 0 is as good as the header. *)
Lemma reader_next rs r rest pos :
  raw_wf r -> zlen (stream (rs ++ r :: rest)) < 2 ^ 63 ->
  pos = zlen (stream rs) \/ (pos = 0 /\ rs = []) ->
  BinlogReader_next (mkReader pos (stream (rs ++ r :: rest))) =
    Ret (r, mkReader (zlen (stream (rs ++ [r]))) (stream (rs ++ r :: rest))).
Proof.
  intros Hr Hs Hpos. pose proof (raw_wire_size r Hr) as Hrs. destruct Hr as [Hk Hv].
  set (s := stream (rs ++ r :: rest)) in *. set (tail := concat (map raw_wire rest)).
  assert (at_offset s (zlen (stream rs)) (raw_wire r ++ tail)) as Ha.
  { exists (stream rs). split; [|done]. unfold s, stream, tail. rewrite map_app, concat_app. cbn [map concat].
    by rewrite <-app_assoc. }
  assert (1 <= zlen (stream rs)) as H1.
  { unfold stream. rewrite zlen_app. change (zlen [BINLOG_VERSION]) with 1.
    pose proof (zlen_nonneg (concat (map raw_wire rs))). lia. }
  unfold BinlogReader_next, BinlogReader_step. cbn [br_val br_pos].
  pose proof (at_offset_len _ _ _ Ha) as [_ Hl]. rewrite zlen_app in Hl. pose proof (zlen_nonneg tail).
  assert ((if pos =? 0 then
             size ← Binlog_decodeHeader (c_str s);
             if zlen s <? size then Throw ERR_DECODE (lit "invalid binlog") else Ret size
           else Ret pos) = Ret (zlen (stream rs))) as ->.
  { destruct Hpos as [->|[-> ->]]; [destruct (Z.eqb_spec (zlen (stream rs)) 0); [lia|done]|].
    unfold Binlog_decodeHeader. change (c_str s) with ([BINLOG_VERSION] ++ (concat (map raw_wire ([] ++ r :: rest)) ++ [x00])).
    rewrite read_n_app, bind_Ret by done. inv_d by done. rewrite bool_decide_eq_true_2, bind_Ret by done.
    change (zlen (stream [])) with 1 in *. destruct (Z.ltb_spec (zlen s) HEADERSIZE); [unfold HEADERSIZE in *; lia|done]. }
  rewrite bind_Ret. destruct (Z.eqb_spec (zlen (stream rs)) (zlen s)); [lia|].
  unfold INVARIANT. destruct (Z.ltb_spec (zlen (stream rs)) (zlen s)); [|lia]. rewrite bind_Ret.
  unfold raw_wire in *. rewrite zlen_app in *. rewrite <-app_assoc in Ha.
  pose proof (zlen_nonneg (len_str (raw_key r))). pose proof (zlen_nonneg (len_str (raw_val r))).
  rewrite (at_offset_ptr _ _ _ Ha), <-app_assoc, lenStrDecode_ptr_spec by lia. cbn [binlog_error].
  rewrite bind_Ret. apply at_offset_skip in Ha.
  rewrite (at_offset_ptr _ _ _ Ha), <-app_assoc, lenStrDecode_ptr_spec by lia. cbn [binlog_error].
  rewrite !bind_Ret. destruct r. cbn [raw_key raw_val] in *. do 3 f_equal.
  rewrite stream_snoc. unfold raw_wire. rewrite !zlen_app. cbn [raw_key raw_val]. lia.
Qed.

Lemma reader_end rs pos :
  pos = zlen (stream rs) \/ (pos = 0 /\ rs = []) ->
  BinlogReader_next (mkReader pos (stream rs)) = Throw ERR_EXHAUST [].
Proof.
  intros [->|[-> ->]]; unfold BinlogReader_next, BinlogReader_step; cbn [br_val br_pos].
  - destruct (Z.eqb_spec (zlen (stream rs)) 0) as [E|E].
    + unfold stream in E. rewrite zlen_app in E. change (zlen [BINLOG_VERSION]) with 1 in E.
      pose proof (zlen_nonneg (concat (map raw_wire rs))). lia.
    + by rewrite bind_Ret, Z.eqb_refl.
  - cbn [Z.eqb]. unfold Binlog_decodeHeader. change (c_str (stream [])) with ([BINLOG_VERSION] ++ [x00]).
    rewrite read_n_app, bind_Ret by done. inv_d by done. by rewrite bool_decide_eq_true_2.
Qed.

Lemma read_all_stream rest : forall fuel rs pos,
  Forall raw_wf rest -> (length rest < fuel)%nat -> zlen (stream (rs ++ rest)) < 2 ^ 63 ->
  pos = zlen (stream rs) \/ (pos = 0 /\ rs = []) ->
  read_all fuel (mkReader pos (stream (rs ++ rest))) = Ret rest.
Proof.
  induction rest as [|r rest IH]; intros fuel rs pos Hf Hn Hs Hpos;
    (destruct fuel as [|fuel]; [cbn in Hn; lia|]); cbn [read_all].
  { rewrite app_nil_r. by rewrite reader_end. }
  apply Forall_cons in Hf as [Hr Hf]. rewrite reader_next by done.
  replace (rs ++ r :: rest) with ((rs ++ [r]) ++ rest) in * by (by rewrite <-app_assoc).
  rewrite IH; [done|done|cbn in Hn; lia|done|by left].
Qed.

End Stream.

Section RawFields.
Context {BM : BuildMode}.

Lemma raw_field_read k v es c default decode offset x :
  value_wf v -> zlen (hdr_raw v ++ entries_raw es) < 2 ^ 62 -> rt2Char RT_BINLOG = Ret c -> 0 <= offset ->
  decode (zdrop offset ((hdr_raw v ++ entries_raw es) ++ [x00])) = Ret x ->
  raw_field (mkRaw k (rv_raw (log_rv v es) c)) default decode offset = Ret x.
Proof.
  intros Hv Hs Hc Ho Hx. pose proof (log_rv_wf v es Hs) as Hwf. unfold raw_field. cbn [raw_val].
  rewrite RecordValue_decodeHdrSizeNoMeta_raw by done.
  pose proof (rv_value_at (log_rv v es) c) as Ha. pose proof (at_offset_len _ _ _ Ha) as [_ Hl].
  change (rv_value (log_rv v es)) with (hdr_raw v ++ entries_raw es) in *.
  assert (0 <= rv_hdrSize (log_rv v es)) by (by destruct (at_offset_len _ _ _ Ha)).
  assert (zlen (hdr_raw v) >= FIXED_HEADER_SIZE) as Hh.
  { unfold hdr_raw. rewrite zlen_app, zlen_fixed_raw. pose proof (zlen_nonneg (len_str (rl_cmd v))). lia. }
  assert (rv_hdrSize (log_rv v es) = RecordValue_minSize) as Hm by done.
  destruct (Z.ltb_spec (zlen (rv_raw (log_rv v es) c)) (RecordValue_minSize + FIXED_HEADER_SIZE)) as [Hlt|_].
  { rewrite zlen_app in Hl. pose proof (zlen_nonneg (entries_raw es)). lia. }
  rewrite <-zdrop_zdrop, (at_offset_ptr _ _ _ Ha) by lia. exact Hx.
Qed.

Lemma raw_binlog_id (id : Z) (c : byte) val : is_u64 id -> rt2Char RT_BINLOG = Ret c -> ReplLogRawV2_getBinlogId (mkRaw (rk_raw (log_rk id) c) val) = Ret id.
Proof.
  intros Ha Hc. pose proof (rk_raw_size (log_rk id) c (log_rk_wf id)) as [Hs _]. unfold ReplLogRawV2_getBinlogId. cbn [raw_key].
  destruct (Z.ltb_spec (zlen (rk_raw (log_rk id) c)) RecordKey_minSize)
    as [H|_]; [unfold RecordKey_minSize, getHdrSize, rsvd, PK_OFFSET, DBID_OFFSET, TYPE_OFFSET, CHUNKID_OFFSET in H; lia|].
  unfold rk_raw, c_str. rewrite <-app_assoc, zdrop_app_eq by (by rewrite zlen_rk_hdr).
  cbn [log_rk RecordKey_new rk_pk]. rewrite <-app_assoc. by apply int64_roundtrip.
Qed.

End RawFields.

(** * Properties *)

(** C33: a replication log survives the store: the key and the value written for a binlog id, a
    header and a list of entries decode to the same id, header and entries, and the accessors
    of the undecoded log read the same id, revision, time and chunk. *)
Theorem ReplLog_roundtrip {BM : BuildMode} (id : Z) (v : ReplLogValueV2) (es : list ReplLogValueEntryV2) :
  is_u64 id -> value_wf v -> Forall entry_wf es -> zlen (hdr_raw v ++ entries_raw es) < 2 ^ 62 ->
  exists ks vs v',
    ReplLogKeyV2_encode (mkReplLogKey id) = Ret ks /\ ReplLogValueV2_encode v es = Ret vs /\
    ReplLogV2_decode ks vs = Ret (mkReplLog (mkReplLogKey id) v' es) /\
    ReplLogValueV2_isEqualHdr v' v = true /\
    ReplLogRawV2_getBinlogId (mkRaw ks vs) = Ret id /\
    ReplLogRawV2_getVersionEp (mkRaw ks vs) = Ret (rl_versionEp v) /\
    ReplLogRawV2_getTimestamp (mkRaw ks vs) = Ret (rl_timestamp v) /\
    ReplLogRawV2_getChunkId (mkRaw ks vs) = Ret (rl_chunkId v).
Proof.
  intros Hid Hv Hes Hs. destruct (RecordKey_encode_total _ (log_rk_wf id)) as (ck & Hck & Ek).
  destruct (RecordValue_encode_total _ (log_rv_wf v es Hs)) as (c & Hc & Ev).
  change (rv_type (log_rv v es)) with RT_BINLOG in Hc.
  eexists _, _, _. split; [exact Ek|]. rewrite ReplLogValueV2_encode_eq by done. split; [exact Ev|].
  split; [|split_and!].
  - unfold ReplLogV2_decode. rewrite (ReplLogKeyV2_decode_raw id _ Hid Ek), bind_Ret.
    rewrite ReplLogValueV2_decode_raw, bind_Ret by done. cbn [with_data rl_data rl_dataSize].
    rewrite (hdr_size (with_data _ _ _)) by done. change (hdr_raw (with_data v _ _)) with (hdr_raw v).
    rewrite <-app_assoc, entries_from_raw; [by rewrite Z.eqb_refl|done| |by rewrite zlen_app|lia].
    pose proof (entries_count es Hes). rewrite !length_app. lia.
  - unfold ReplLogValueV2_isEqualHdr. cbn [with_data rl_chunkId rl_flag rl_txnId rl_timestamp rl_versionEp rl_cmd].
    by rewrite !Z.eqb_refl, bool_decide_eq_true_2.
  - by apply raw_binlog_id.
  - apply raw_field_read; try done. unfold hdr_raw. rewrite <-!app_assoc.
    by apply (fixed_fields v (len_str (rl_cmd v) ++ entries_raw es ++ [x00]) Hv).
  - apply raw_field_read; try done. unfold hdr_raw. rewrite <-!app_assoc.
    by apply (fixed_fields v (len_str (rl_cmd v) ++ entries_raw es ++ [x00]) Hv).
  - apply raw_field_read; try done. unfold hdr_raw. rewrite <-!app_assoc.
    by apply (fixed_fields v (len_str (rl_cmd v) ++ entries_raw es ++ [x00]) Hv).
Qed.

(** A log of one SET, used by the examples. *)
Definition demo_entry : ReplLogValueEntryV2 := mkEntry x01 1700000000000 (lit "k") (lit "v").
Definition demo_value : ReplLogValueV2 := mkReplLogValue 5 3 77 1700000000000 9 (lit "set") [] 0.

Lemma demo_entry_wf : entry_wf demo_entry.
Proof. done. Qed.

Lemma ReplLog_roundtrip_witness :
  exists ks vs v',
    @ReplLogKeyV2_encode true (mkReplLogKey 42) = Ret ks /\ @ReplLogValueV2_encode true demo_value [demo_entry] = Ret vs /\
    @ReplLogV2_decode true ks vs = Ret (mkReplLog (mkReplLogKey 42) v' [demo_entry]) /\
    ReplLogValueV2_isEqualHdr v' demo_value = true /\
    @ReplLogRawV2_getBinlogId true (mkRaw ks vs) = Ret 42 /\
    @ReplLogRawV2_getVersionEp true (mkRaw ks vs) = Ret 9 /\
    @ReplLogRawV2_getTimestamp true (mkRaw ks vs) = Ret 1700000000000 /\
    @ReplLogRawV2_getChunkId true (mkRaw ks vs) = Ret 5.
Proof.
  apply (@ReplLog_roundtrip true 42 demo_value [demo_entry]); try done.
  apply Forall_singleton, demo_entry_wf.
Defined.

(** The binlog is scanned in the order of the binlog ids: of two keys the one with the smaller
    id is smaller, every key has the prefix of the binlog, and the id is read off the raw key. *)
Theorem ReplLogKeyV2_order {BM : BuildMode} (a b : Z) (val : bytes) :
  is_u64 a -> is_u64 b ->
  exists sa sb p, ReplLogKeyV2_encode (mkReplLogKey a) = Ret sa /\ ReplLogKeyV2_encode (mkReplLogKey b) = Ret sb /\
    RecordKey_prefixReplLogV2 = Ret p /\ p `prefix_of` sa /\
    bytes_compare sa sb = (a ?= b) /\
    ReplLogRawV2_getBinlogId (mkRaw sa val) = Ret a.
Proof.
  intros Ha Hb. destruct (rt2Char_some RT_BINLOG) as [c Hc]; [done|]. unfold ReplLogKeyV2_encode.
  cbn [rlk_binlogId]. fold (log_rk a) (log_rk b).
  rewrite !(RecordKey_encode_eq _ c) by (apply log_rk_wf || done).
  eexists _, _, _. split_and!; [done|done|unfold RecordKey_prefixReplLogV2; by rewrite Hc, bind_Ret|..].
  - by eexists.
  - change (rk_hdr (log_rk b) c) with (rk_hdr (log_rk a) c). rewrite bytes_compare_app.
    cbn [log_rk RecordKey_new rk_pk]. unfold int64Encode.
    rewrite bytes_compare_blocks by (by rewrite !length_be_bytes). rewrite be_compare by done.
    destruct (Z.compare_spec a b) as [->|H|H]; [by apply bytes_compare_eq|done..].
  - by apply raw_binlog_id.
Qed.

Lemma ReplLogKeyV2_order_witness :
  exists sa sb p, @ReplLogKeyV2_encode true (mkReplLogKey 255) = Ret sa /\
    @ReplLogKeyV2_encode true (mkReplLogKey 256) = Ret sb /\
    RecordKey_prefixReplLogV2 = Ret p /\ p `prefix_of` sa /\ bytes_compare sa sb = (255 ?= 256) /\
    @ReplLogRawV2_getBinlogId true (mkRaw sa []) = Ret 255.
Proof. by apply (@ReplLogKeyV2_order true 255 256 []). Defined.

(** The binlog sent to a replica is read back whole: the logs written to a writer, in any
    number, are what a reader of its bytes returns one by one, followed by ERR_EXHAUST. *)
Theorem binlog_stream_roundtrip {BM : BuildMode} (maxSize maxCnt : Z) (rs : list ReplLogRawV2) :
  Forall raw_wf rs -> zlen (stream rs) < 2 ^ 63 ->
  exists w0 w, BinlogWriter_new maxSize maxCnt = Ret w0 /\ write_all w0 rs = Ret w /\
    read_all (S (length rs)) (BinlogReader_new (bw_ss w)) = Ret rs.
Proof.
  intros Hf Hs. unfold BinlogWriter_new, Binlog_writeHeader. inv_d by done. rewrite bind_Ret.
  eexists. destruct (write_all_stream rs (mkWriter HEADERSIZE maxSize 0 maxCnt BF_NORMAL [BINLOG_VERSION]) [])
    as (w & E & (Hw & _) & _); [done|done|].
  exists w. split; [done|]. split; [exact E|]. rewrite Hw. apply (read_all_stream rs _ []); [done|lia|done|by right].
Qed.

Lemma binlog_stream_roundtrip_witness :
  exists w0 w, @BinlogWriter_new true 100 10 = Ret w0 /\
    @write_all true w0 [mkRaw (lit "a") (lit "1"); mkRaw (lit "b") []] = Ret w /\
    @read_all true 3 (BinlogReader_new (bw_ss w)) = Ret [mkRaw (lit "a") (lit "1"); mkRaw (lit "b") []].
Proof.
  apply (@binlog_stream_roundtrip true 100 10 [mkRaw (lit "a") (lit "1"); mkRaw (lit "b") []]); [|done].
  by repeat (apply Forall_cons; split).
Defined.

(** The writer reports that it is full exactly when its stream has reached the size limit or
    its number of logs the count limit, and a reset writer is as good as a new one. *)
Theorem BinlogWriter_full {BM : BuildMode} (w : BinlogWriter) (rs : list ReplLogRawV2) (r : ReplLogRawV2) :
  writer_of w rs -> raw_wf r -> zlen (stream (rs ++ [r])) < 2 ^ 63 -> zlen rs < 2 ^ 32 - 1 ->
  (exists w' full, BinlogWriter_writeRepllogRaw w r = Ret (w', full) /\ writer_of w' (rs ++ [r]) /\
    (full = true <-> bw_maxSize w <= zlen (stream (rs ++ [r])) \/ bw_maxCnt w <= zlen (rs ++ [r]))) /\
  BinlogWriter_resetWriter w = BinlogWriter_new (bw_maxSize w) (bw_maxCnt w).
Proof.
  intros Hw Hr Hs Hc. split; [|done]. destruct (writer_write _ _ _ Hw Hr) as (w' & E & Hw' & M1 & M2).
  exists w', (BinlogWriter_writerFull w'). split_and!; [done|done|]. destruct Hw' as (_ & E2 & E3).
  unfold BinlogWriter_writerFull. rewrite E2, E3, M1, M2, orb_true_iff, !Z.leb_le.
  pose proof (zlen_nonneg rs). pose proof (zlen_nonneg (stream (rs ++ [r]))).
  rewrite !wrap_id; [done|unfold is_u; rewrite zlen_app; change (zlen [r]) with 1; lia|unfold is_u; lia].
Qed.

Lemma BinlogWriter_full_witness :
  exists w' full, @BinlogWriter_writeRepllogRaw true (mkWriter 1 4 0 10 BF_NORMAL [x02]) (mkRaw (lit "a") []) = Ret (w', full) /\
    writer_of w' [mkRaw (lit "a") []] /\
    (full = true <-> 4 <= zlen (stream [mkRaw (lit "a") []]) \/ 10 <= zlen [mkRaw (lit "a") []]).
Proof. by apply (@BinlogWriter_full true (mkWriter 1 4 0 10 BF_NORMAL [x02]) [] (mkRaw (lit "a") [])). Defined.

(** The bytes of the example log. *)
Definition ret_bytes (m : M bytes) : bytes := match m with Ret s => s | _ => [] end.
Definition demo_ks : bytes := Eval vm_compute in ret_bytes (@ReplLogKeyV2_encode true (mkReplLogKey 42)).
Definition demo_vs : bytes := Eval vm_compute in ret_bytes (@ReplLogValueV2_encode true demo_value [demo_entry]).

(** [getLogList] does not give the entries of a log: it starts right after the fixed header,
    where the name of the command is, so on a log of one SET it fails while decoding the log
    gives the entry. *)
Theorem getLogList_skips_no_command {BM : BuildMode} :
  ReplLogKeyV2_encode (mkReplLogKey 42) = Ret demo_ks /\
  ReplLogValueV2_encode demo_value [demo_entry] = Ret demo_vs /\
  exists log, ReplLogV2_decode demo_ks demo_vs = Ret log /\ log_entrys log = [demo_entry] /\
    ReplLogValueV2_getLogList (log_val log) = Throw ERR_DECODE (lit "decode error.").
Proof.
  split; [by destruct BM; vm_compute|]. split; [by destruct BM; vm_compute|].
  exists (mkReplLog (mkReplLogKey 42) (with_data demo_value (zdrop 7 (c_str demo_vs)) (zlen demo_vs - 7)) [demo_entry]).
  split; [by destruct BM; vm_compute|]. split; [done|]. by destruct BM; vm_compute.
Qed.
