(* ===== verification/Mgl.v ===== *)
(** The multi-granularity lock manager (lock/mgl): lock modes and their conflicts, the
    scheduling context of one target, the sharded manager and the lock objects, with the
    abstract queue they implement and the interleavings of the threads as steps. *)

From Stdlib Require Import Strings.Byte ZArith Lia.
From stdpp Require Import base list numbers strings gmap.
From S2P Require Import Prelude Status.

Local Open Scope Z_scope.

(** * Modes *)

Inductive LockMode : Set :=
  | LOCK_NONE | LOCK_IS | LOCK_IX | LOCK_S | LOCK_X | LOCK_MODE_NUM.

#[export] Instance LockMode_eq_dec : EqDecision LockMode.
Proof. solve_decision. Defined.

(** [enum2Int]. *)
Definition LockMode_int (m : LockMode) : Z :=
  match m with
  | LOCK_NONE => 0 | LOCK_IS => 1 | LOCK_IX => 2 | LOCK_S => 3 | LOCK_X => 4 | LOCK_MODE_NUM => 5
  end.

Inductive LockRes : Set :=
  | LOCKRES_OK | LOCKRES_WAIT | LOCKRES_TIMEOUT | LOCKRES_DEADLOCK | LOCKRES_UNINITED | LOCKRES_NUM.

#[export] Instance LockRes_eq_dec : EqDecision LockRes.
Proof. solve_decision. Defined.

Definition mode_bit (m : LockMode) : Z := Z.shiftl 1 (LockMode_int m).

Definition conflictTable : list Z :=
  [0;
   mode_bit LOCK_X;
   Z.lor (mode_bit LOCK_S) (mode_bit LOCK_X);
   Z.lor (mode_bit LOCK_IX) (mode_bit LOCK_X);
   Z.lor (Z.lor (Z.lor (mode_bit LOCK_IS) (mode_bit LOCK_IX)) (mode_bit LOCK_S)) (mode_bit LOCK_X)].

Definition lockModeRepr (mode : LockMode) : bytes :=
  match mode with
  | LOCK_X => lit "X" | LOCK_IX => lit "IX" | LOCK_S => lit "S" | LOCK_IS => lit "IS"
  | _ => lit "?"
  end.

Definition isConflict (modes : Z) (mode : LockMode) : M bool :=
  c ← vec_at conflictTable (LockMode_int mode);
  Ret (negb (Z.land c modes =? 0)).

(** * Locks *)

(** A [MGLock] object. A pointer to it is its id, and the list node [_resIter] points to is the
    one that holds that pointer; [None] is the end of [_dummyList]. *)
Record MGLock : Set := mkMGLock {
  mg_target : bytes;
  mg_targetHash : Z;
  mg_mode : LockMode;
  mg_res : LockRes;
  mg_resIter : option Z
}.

Definition MGLock_new : MGLock := mkMGLock [] 0 LOCK_NONE LOCKRES_UNINITED None.

(** The lock objects that exist, by pointer. *)
Abbreviation heap := (gmap Z MGLock).

Definition deref (h : heap) (core : Z) : M MGLock :=
  match h !! core with Some l => Ret l | None => Crash CUndefined end.

Definition MGLock_setLockResult (h : heap) (core : Z) (res : LockRes) (iter : option Z) : M heap :=
  l ← deref h core;
  Ret (<[core := mkMGLock (mg_target l) (mg_targetHash l) (mg_mode l) res iter]> h).

Definition MGLock_releaseLockResult (h : heap) (core : Z) : M heap :=
  MGLock_setLockResult h core LOCKRES_UNINITED None.

(** * The scheduling context of a target *)

Record LockSchedCtx : Set := mkCtx {
  cx_runningModes : Z;
  cx_pendingModes : Z;
  cx_runningRefCnt : list Z;
  cx_pendingRefCnt : list Z;
  cx_runningList : list Z;
  cx_pendingList : list Z
}.

Definition LockSchedCtx_new : LockSchedCtx :=
  mkCtx 0 0 (zfill (LockMode_int LOCK_MODE_NUM) 0) (zfill (LockMode_int LOCK_MODE_NUM) 0) [] [].

(** [list::erase(iter)]: the node must be in the list. *)
Fixpoint list_remove_id (l : list Z) (x : Z) : option (list Z) :=
  match l with
  | [] => None
  | y :: l' => if x =? y then Some l' else option_map (cons y) (list_remove_id l' x)
  end.

Definition list_erase (l : list Z) (iter : option Z) : M (list Z) :=
  match iter with
  | None => Crash CUndefined
  | Some x => match list_remove_id l x with Some l' => Ret l' | None => Crash CUndefined end
  end.

Section LockSchedCtx.
Context {BM : BuildMode}.

(** The common body of the two increments, on 16-bit counters and mode masks. *)
Definition incrRef (cnt : list Z) (modes : Z) (mode : LockMode) : M (list Z * Z) :=
  let modeInt := LockMode_int mode in
  n ← vec_at cnt modeInt;
  let n := u16 (n + 1) in
  let cnt := zset cnt modeInt n in
  if n =? 1 then
    _ ← INVARIANT_D (Z.land modes (mode_bit mode) =? 0);
    Ret (cnt, Z.lor modes (u16 (mode_bit mode)))
  else Ret (cnt, modes).

(** The common body of the two decrements. *)
Definition decRef (cnt : list Z) (modes : Z) (mode : LockMode) : M (list Z * Z) :=
  let modeInt := LockMode_int mode in
  n ← vec_at cnt modeInt;
  _ ← INVARIANT_D (negb (n =? 0));
  let n := u16 (n - 1) in
  let cnt := zset cnt modeInt n in
  if n =? 0 then
    _ ← INVARIANT_D (negb (Z.land modes (mode_bit mode) =? 0));
    Ret (cnt, Z.land modes (u16 (Z.lnot (mode_bit mode))))
  else Ret (cnt, modes).

Definition LockSchedCtx_incrPendingRef (c : LockSchedCtx) (mode : LockMode) : M LockSchedCtx :=
  '(cnt, modes) ← incrRef (cx_pendingRefCnt c) (cx_pendingModes c) mode;
  Ret (mkCtx (cx_runningModes c) modes (cx_runningRefCnt c) cnt (cx_runningList c) (cx_pendingList c)).

Definition LockSchedCtx_decPendingRef (c : LockSchedCtx) (mode : LockMode) : M LockSchedCtx :=
  '(cnt, modes) ← decRef (cx_pendingRefCnt c) (cx_pendingModes c) mode;
  Ret (mkCtx (cx_runningModes c) modes (cx_runningRefCnt c) cnt (cx_runningList c) (cx_pendingList c)).

Definition LockSchedCtx_incrRunningRef (c : LockSchedCtx) (mode : LockMode) : M LockSchedCtx :=
  '(cnt, modes) ← incrRef (cx_runningRefCnt c) (cx_runningModes c) mode;
  Ret (mkCtx modes (cx_pendingModes c) cnt (cx_pendingRefCnt c) (cx_runningList c) (cx_pendingList c)).

Definition LockSchedCtx_decRunningRef (c : LockSchedCtx) (mode : LockMode) : M LockSchedCtx :=
  '(cnt, modes) ← decRef (cx_runningRefCnt c) (cx_runningModes c) mode;
  Ret (mkCtx modes (cx_pendingModes c) cnt (cx_pendingRefCnt c) (cx_runningList c) (cx_pendingList c)).

Definition set_running (c : LockSchedCtx) (l : list Z) : LockSchedCtx :=
  mkCtx (cx_runningModes c) (cx_pendingModes c) (cx_runningRefCnt c) (cx_pendingRefCnt c) l
    (cx_pendingList c).

Definition set_pending (c : LockSchedCtx) (l : list Z) : LockSchedCtx :=
  mkCtx (cx_runningModes c) (cx_pendingModes c) (cx_runningRefCnt c) (cx_pendingRefCnt c)
    (cx_runningList c) l.

Definition LockSchedCtx_lock (h : heap) (c : LockSchedCtx) (core : Z) : M (heap * LockSchedCtx) :=
  l ← deref h core;
  let mode := mg_mode l in
  conflict ← isConflict (cx_runningModes c) mode;
  if conflict || (1 <=? zlen (cx_pendingList c)) then
    c ← LockSchedCtx_incrPendingRef (set_pending c (cx_pendingList c ++ [core])) mode;
    h ← MGLock_setLockResult h core LOCKRES_WAIT (Some core);
    Ret (h, c)
  else
    c ← LockSchedCtx_incrRunningRef (set_running c (cx_runningList c ++ [core])) mode;
    h ← MGLock_setLockResult h core LOCKRES_OK (Some core);
    Ret (h, c).

(** The loop of [schedPendingLocks]: [pending] is what the iterator has not passed, always the
    whole pending list. [notify] wakes the waiting thread, which rereads its result. *)
Fixpoint sched_loop (pending : list Z) (h : heap) (c : LockSchedCtx) : M (heap * LockSchedCtx) :=
  match pending with
  | [] => Ret (h, c)
  | tmpLock :: rest =>
      l ← deref h tmpLock;
      conflict ← isConflict (cx_runningModes c) (mg_mode l);
      if conflict : bool then Ret (h, c)
      else
        c ← LockSchedCtx_incrRunningRef c (mg_mode l);
        c ← LockSchedCtx_decPendingRef c (mg_mode l);
        let c := set_pending (set_running c (cx_runningList c ++ [tmpLock])) rest in
        h ← MGLock_setLockResult h tmpLock LOCKRES_OK (Some tmpLock);
        sched_loop rest h c
  end.

Definition LockSchedCtx_schedPendingLocks (h : heap) (c : LockSchedCtx) : M (heap * LockSchedCtx) :=
  sched_loop (cx_pendingList c) h c.

Definition is_empty (l : list Z) : bool := match l with [] => true | _ => false end.

Definition LockSchedCtx_unlock (h : heap) (c : LockSchedCtx) (core : Z)
  : M (heap * LockSchedCtx * bool) :=
  l ← deref h core;
  let mode := mg_mode l in
  match mg_res l with
  | LOCKRES_OK =>
      running ← list_erase (cx_runningList c) (mg_resIter l);
      c ← LockSchedCtx_decRunningRef (set_running c running) mode;
      h ← MGLock_releaseLockResult h core;
      if negb (cx_runningModes c =? 0) then Ret (h, c, false)
      else
        _ ← INVARIANT_D (is_empty (cx_runningList c));
        '(h, c) ← LockSchedCtx_schedPendingLocks h c;
        Ret (h, c, is_empty (cx_pendingList c) && is_empty (cx_runningList c))
  | LOCKRES_WAIT =>
      pending ← list_erase (cx_pendingList c) (mg_resIter l);
      c ← LockSchedCtx_decPendingRef (set_pending c pending) mode;
      h ← MGLock_releaseLockResult h core;
      _ ← INVARIANT_D (((cx_pendingModes c =? 0) && is_empty (cx_pendingList c))
                       || (negb (cx_pendingModes c =? 0) && negb (is_empty (cx_pendingList c))));
      '(h, c) ← LockSchedCtx_schedPendingLocks h c;
      Ret (h, c, is_empty (cx_pendingList c) && is_empty (cx_runningList c))
  | _ =>
      _ ← INVARIANT_D false;
      Ret (h, c, is_empty (cx_pendingList c) && is_empty (cx_runningList c))
  end.

End LockSchedCtx.

(** * The manager *)

Definition SHARD_NUM : Z := 32.

(** The shards, each the map of a [LockShard]; its mutex makes every operation on it atomic. *)
Abbreviation MGLockMgr := (list (gmap bytes LockSchedCtx)).

Definition MGLockMgr_new : MGLockMgr := zfill SHARD_NUM ∅.

Section MGLockMgr.
Context {BM : BuildMode}.

(** [std::hash<std::string>]: any function of the string. *)
Variable hash : bytes -> Z.

Definition shard_of (h : Z) : Z := h mod SHARD_NUM.

Definition shard_at (mgr : MGLockMgr) (i : Z) : M (gmap bytes LockSchedCtx) :=
  match znth mgr i with Some s => Ret s | None => Crash CUndefined end.

Definition MGLockMgr_lock (h : heap) (mgr : MGLockMgr) (core : Z) : M (heap * MGLockMgr) :=
  l ← deref h core;
  let i := shard_of (mg_targetHash l) in
  shard ← shard_at mgr i;
  let ctx := match shard !! mg_target l with Some c => c | None => LockSchedCtx_new end in
  '(h, ctx) ← LockSchedCtx_lock h ctx core;
  Ret (h, zset mgr i (<[mg_target l := ctx]> shard)).

Definition MGLockMgr_unlock (h : heap) (mgr : MGLockMgr) (core : Z) : M (heap * MGLockMgr) :=
  l ← deref h core;
  let i := shard_of (mg_targetHash l) in
  shard ← shard_at mgr i;
  _ ← INVARIANT_D (bool_decide (mg_res l = LOCKRES_WAIT) || bool_decide (mg_res l = LOCKRES_OK));
  match shard !! mg_target l with
  | None => Crash CInvariant
  | Some ctx =>
      '(h, ctx, empty) ← LockSchedCtx_unlock h ctx core;
      Ret (h, zset mgr i (if empty : bool then delete (mg_target l) shard
                          else <[mg_target l := ctx]> shard))
  end.

(** * The lock object's operations *)

Definition target_hash (target : bytes) : Z := if bool_decide (target = []) then 0 else hash target.

(** [MGLock::lock] up to its wait: the request is queued or granted. *)
Definition MGLock_request (h : heap) (mgr : MGLockMgr) (core : Z) (target : bytes) (mode : LockMode)
  : M (heap * MGLockMgr) :=
  l ← deref h core;
  _ ← INVARIANT_D (bool_decide (mg_res l = LOCKRES_UNINITED));
  let l := mkMGLock target (target_hash target) mode (mg_res l) None in
  MGLockMgr_lock (<[core := l]> h) mgr core.

(** What [MGLock::lock] returns in the state its wait ends in: [wait_for] gives the value of its
    predicate, whether it was woken or timed out. *)
Definition MGLock_result (h : heap) (core : Z) : M LockRes :=
  l ← deref h core;
  Ret (if bool_decide (mg_res l = LOCKRES_OK) then LOCKRES_OK else LOCKRES_TIMEOUT).

Definition MGLock_unlock (h : heap) (mgr : MGLockMgr) (core : Z) : M (heap * MGLockMgr) :=
  l ← deref h core;
  if bool_decide (mg_res l = LOCKRES_UNINITED) then Ret (h, mgr) else
  _ ← INVARIANT_D (bool_decide (mg_res l = LOCKRES_OK) || bool_decide (mg_res l = LOCKRES_WAIT));
  '(h, mgr) ← MGLockMgr_unlock h mgr core;
  l ← deref h core;
  _ ← INVARIANT_D (bool_decide (mg_res l = LOCKRES_UNINITED));
  Ret (h, mgr).

(** The destructor. *)
Definition MGLock_destroy (h : heap) (core : Z) : M heap :=
  l ← deref h core;
  _ ← INVARIANT_D (bool_decide (mg_res l = LOCKRES_UNINITED));
  Ret (delete core h).

End MGLockMgr.

(** * The abstract queue *)

(** What the context of a target implements: the holders and the waiting requests, each with
    its mode, in the order of arrival. *)
Record Queue : Set := mkQueue { q_running : list (Z * LockMode); q_pending : list (Z * LockMode) }.

(** The conflicts, as the documentation of the modes gives them. *)
Definition conflicts (a b : LockMode) : bool :=
  match a, b with
  | LOCK_X, (LOCK_IS | LOCK_IX | LOCK_S | LOCK_X) => true
  | (LOCK_IS | LOCK_IX | LOCK_S), LOCK_X => true
  | LOCK_S, LOCK_IX | LOCK_IX, LOCK_S => true
  | _, _ => false
  end.

Definition blocked (running : list (Z * LockMode)) (m : LockMode) : bool :=
  existsb (fun p => conflicts m p.2) running.

(** Grants the requests at the front as long as they do not conflict with the holders. *)
Fixpoint q_grant (running pending : list (Z * LockMode)) : Queue :=
  match pending with
  | [] => mkQueue running []
  | p :: rest => if blocked running p.2 then mkQueue running pending else q_grant (running ++ [p]) rest
  end.

Definition q_lock (q : Queue) (core : Z) (m : LockMode) : Queue :=
  if blocked (q_running q) m || negb (bool_decide (q_pending q = []))
  then mkQueue (q_running q) (q_pending q ++ [(core, m)])
  else mkQueue (q_running q ++ [(core, m)]) (q_pending q).

Definition q_drop (core : Z) (l : list (Z * LockMode)) : list (Z * LockMode) :=
  filter (fun p => p.1 <> core) l.

(** A release by a holder grants requests only when it was the last holder; a request that gives
    up lets those behind it through. *)
Definition q_unlock (q : Queue) (core : Z) : Queue :=
  if bool_decide (core ∈ (q_running q).*1) then
    let running := q_drop core (q_running q) in
    if bool_decide (running = []) then q_grant [] (q_pending q) else mkQueue running (q_pending q)
  else q_grant (q_running q) (q_drop core (q_pending q)).

(** * Reference counts and mode masks *)

Definition cnt_of (m : LockMode) (ms : list LockMode) : Z := zlen (filter (fun x => x = m) ms).

Definition list5 {A} (f : LockMode -> A) : list A :=
  [f LOCK_NONE; f LOCK_IS; f LOCK_IX; f LOCK_S; f LOCK_X].

Definition mask (f : LockMode -> bool) : Z :=
  Z.b2z (f LOCK_NONE) + 2 * Z.b2z (f LOCK_IS) + 4 * Z.b2z (f LOCK_IX) + 8 * Z.b2z (f LOCK_S)
  + 16 * Z.b2z (f LOCK_X).

(** The counters and the mask describe the modes [ms], in any order. *)
Definition refs (cnt : list Z) (modes : Z) (ms : list LockMode) : Prop :=
  cnt = list5 (fun m => cnt_of m ms) /\ modes = mask (fun m => 0 <? cnt_of m ms).

Definition valid_mode (m : LockMode) : Prop := m <> LOCK_MODE_NUM.

Lemma cnt_of_cons m x ms : cnt_of m (x :: ms) = cnt_of m ms + (if decide (x = m) then 1 else 0).
Proof.
  unfold cnt_of. rewrite filter_cons. destruct (decide (x = m)); [rewrite zlen_cons|]; lia.
Qed.

Lemma cnt_of_range m ms : 0 <= cnt_of m ms <= zlen ms.
Proof.
  unfold cnt_of, zlen. pose proof (length_filter (fun x => x = m) ms). lia.
Qed.

#[export] Instance cnt_of_perm m : Proper ((≡ₚ) ==> eq) (cnt_of m).
Proof. intros l k H. unfold cnt_of, zlen. by rewrite H. Qed.

#[export] Instance refs_perm cnt modes : Proper ((≡ₚ) ==> iff) (refs cnt modes).
Proof.
  intros l k H. unfold refs, list5, mask.
  by rewrite (cnt_of_perm LOCK_NONE _ _ H), (cnt_of_perm LOCK_IS _ _ H), (cnt_of_perm LOCK_IX _ _ H),
    (cnt_of_perm LOCK_S _ _ H), (cnt_of_perm LOCK_X _ _ H).
Qed.

Lemma cnt_of_pos m ms : (0 <? cnt_of m ms) = existsb (fun x => bool_decide (x = m)) ms.
Proof.
  induction ms as [|x ms IH]; [done|]. rewrite cnt_of_cons. cbn [existsb]. rewrite <-IH.
  pose proof (cnt_of_range m ms). destruct (decide (x = m)).
  - rewrite bool_decide_eq_true_2 by done. apply Z.ltb_lt. lia.
  - rewrite bool_decide_eq_false_2 by done. cbn [orb]. f_equal. lia.
Qed.

(** Case analysis on which of the five modes occur in [ms]. *)
Ltac by_presence ms :=
  unfold mask; rewrite ?cnt_of_pos;
  generalize (existsb (λ x, bool_decide (x = LOCK_NONE)) ms), (existsb (λ x, bool_decide (x = LOCK_IS)) ms),
    (existsb (λ x, bool_decide (x = LOCK_IX)) ms), (existsb (λ x, bool_decide (x = LOCK_S)) ms),
    (existsb (λ x, bool_decide (x = LOCK_X)) ms);
  intros [] [] [] [] [].

Lemma refs_nil : refs (zfill (LockMode_int LOCK_MODE_NUM) 0) 0 [].
Proof. done. Qed.

(** What a mode conflicts with among [ms], read off the table. *)
Lemma existsb_conflicts m ms :
  existsb (conflicts m) ms =
    (conflicts m LOCK_NONE && (0 <? cnt_of LOCK_NONE ms)) || (conflicts m LOCK_IS && (0 <? cnt_of LOCK_IS ms))
    || (conflicts m LOCK_IX && (0 <? cnt_of LOCK_IX ms)) || (conflicts m LOCK_S && (0 <? cnt_of LOCK_S ms))
    || (conflicts m LOCK_X && (0 <? cnt_of LOCK_X ms)).
Proof.
  rewrite !cnt_of_pos. induction ms as [|x ms IH]; [by destruct m|].
  cbn [existsb]. rewrite IH. clear IH.
  by_presence ms; destruct m, x; reflexivity.
Qed.

Lemma isConflict_refs cnt modes ms m :
  refs cnt modes ms -> valid_mode m -> isConflict modes m = Ret (existsb (conflicts m) ms).
Proof.
  intros [_ ->] Hm. rewrite existsb_conflicts.
  by_presence ms; destruct m; try reflexivity; by destruct Hm.
Qed.

Lemma refs_modes_zero cnt modes ms :
  refs cnt modes ms -> Forall valid_mode ms -> (modes =? 0) = bool_decide (ms = []).
Proof.
  intros [_ ->] Hv. destruct ms as [|x ms]; [done|]. rewrite bool_decide_eq_false_2 by done.
  apply Forall_cons in Hv as [Hx _]. unfold mask. rewrite !cnt_of_pos. cbn [existsb].
  by_presence ms; destruct x; try reflexivity; by destruct Hx.
Qed.

Lemma vec_at_list5 k m : valid_mode m -> vec_at (list5 k) (LockMode_int m) = Ret (k m).
Proof. intros H. destruct m; try done; by destruct H. Qed.

Lemma zset_list5 k k' m (v : Z) :
  valid_mode m -> k' m = v -> (forall x, x <> m -> k' x = k x) ->
  zset (list5 k) (LockMode_int m) v = list5 k'.
Proof.
  intros H <- Hk. unfold list5. destruct m; try (by destruct H); cbn; repeat f_equal; symmetry; by apply Hk.
Qed.

(** Adding a bit that is not there, removing one that is. *)
Lemma mask_set f g m :
  valid_mode m -> f m = false -> g m = true -> (forall x, x <> m -> g x = f x) ->
  (Z.land (mask f) (mode_bit m) =? 0) = true /\ Z.lor (mask f) (u16 (mode_bit m)) = mask g.
Proof.
  intros H Hf Hg Hx. unfold mask. destruct m; try (by destruct H);
    rewrite Hf, Hg, !Hx by done;
    destruct (f LOCK_NONE), (f LOCK_IS), (f LOCK_IX), (f LOCK_S), (f LOCK_X); done.
Qed.

Lemma mask_clear f g m :
  valid_mode m -> f m = true -> g m = false -> (forall x, x <> m -> g x = f x) ->
  negb (Z.land (mask f) (mode_bit m) =? 0) = true /\
  Z.land (mask f) (u16 (Z.lnot (mode_bit m))) = mask g.
Proof.
  intros H Hf Hg Hx. unfold mask. destruct m; try (by destruct H);
    rewrite Hf, Hg, !Hx by done;
    destruct (f LOCK_NONE), (f LOCK_IS), (f LOCK_IX), (f LOCK_S), (f LOCK_X); done.
Qed.

Lemma mask_ext f g : (forall x, g x = f x) -> mask f = mask g.
Proof. intros H. unfold mask. by rewrite !H. Qed.

Lemma cnt_of_here m ms : cnt_of m (m :: ms) = cnt_of m ms + 1.
Proof. by rewrite cnt_of_cons, decide_True. Qed.

Lemma cnt_of_other m x ms : x <> m -> cnt_of x (m :: ms) = cnt_of x ms.
Proof. intros H. rewrite cnt_of_cons, decide_False by done. lia. Qed.

Section Refs.
Context {BM : BuildMode}.

Lemma incrRef_refs cnt modes ms m :
  refs cnt modes ms -> valid_mode m -> zlen ms < 2 ^ 16 - 1 ->
  exists cnt' modes', incrRef cnt modes m = Ret (cnt', modes') /\ refs cnt' modes' (m :: ms).
Proof.
  intros [-> ->] Hm Hl. unfold incrRef. pose proof (cnt_of_range m ms) as Hr.
  rewrite vec_at_list5, bind_Ret by done. cbv zeta. rewrite wrap_id by (unfold is_u; lia).
  rewrite (zset_list5 _ (fun x => cnt_of x (m :: ms)))
    by (done || apply cnt_of_here || intros; by apply cnt_of_other).
  destruct (Z.eqb_spec (cnt_of m ms + 1) 1) as [E|E].
  - destruct (mask_set (fun x => 0 <? cnt_of x ms) (fun x => 0 <? cnt_of x (m :: ms)) m) as [E1 E2];
      [done|by apply Z.ltb_ge; lia|by rewrite cnt_of_here; apply Z.ltb_lt; lia
      |by intros x Hx; rewrite cnt_of_other|].
    inv_d by done. rewrite E2. by eexists _, _.
  - eexists _, _. split; [done|]. split; [done|]. apply mask_ext. intros x.
    destruct (decide (x = m)) as [->|Hx]; [|by rewrite cnt_of_other].
    rewrite cnt_of_here. by rewrite !(proj2 (Z.ltb_lt _ _)) by lia.
Qed.

Lemma decRef_refs cnt modes ms m :
  refs cnt modes (m :: ms) -> valid_mode m -> zlen ms < 2 ^ 16 - 1 ->
  exists cnt' modes', decRef cnt modes m = Ret (cnt', modes') /\ refs cnt' modes' ms.
Proof.
  intros [-> ->] Hm Hl. unfold decRef. pose proof (cnt_of_range m ms) as Hr.
  rewrite vec_at_list5, bind_Ret, cnt_of_here by done.
  inv_d by (destruct (Z.eqb_spec (cnt_of m ms + 1) 0); lia || done).
  cbv zeta. rewrite wrap_id by (unfold is_u; lia). replace (cnt_of m ms + 1 - 1) with (cnt_of m ms) by lia.
  rewrite (zset_list5 _ (fun x => cnt_of x ms)) by (done || intros; by rewrite cnt_of_other).
  destruct (Z.eqb_spec (cnt_of m ms) 0) as [E|E].
  - destruct (mask_clear (fun x => 0 <? cnt_of x (m :: ms)) (fun x => 0 <? cnt_of x ms) m) as [E1 E2];
      [done|by rewrite cnt_of_here; apply Z.ltb_lt; lia|by apply Z.ltb_ge; lia
      |by intros x Hx; rewrite cnt_of_other|].
    inv_d by done. rewrite E2. by eexists _, _.
  - eexists _, _. split; [done|]. split; [done|]. apply mask_ext. intros x.
    destruct (decide (x = m)) as [->|Hx]; [|by rewrite cnt_of_other].
    rewrite cnt_of_here. by rewrite !(proj2 (Z.ltb_lt _ _)) by lia.
Qed.

End Refs.

(** * The context implements the queue *)

Section Refinement.
Context {BM : BuildMode}.

(** A lock object on target [t] (of hash [th]) with a result, its node being its own. *)
Definition lock_obj (t : bytes) (th : Z) (res : LockRes) (p : Z * LockMode) : MGLock :=
  mkMGLock t th p.2 res (Some p.1).

Record ctx_rep (t : bytes) (th : Z) (h : heap) (c : LockSchedCtx) (q : Queue) : Prop := mkRep {
  rep_running : cx_runningList c = (q_running q).*1;
  rep_pending : cx_pendingList c = (q_pending q).*1;
  rep_running_refs : refs (cx_runningRefCnt c) (cx_runningModes c) (q_running q).*2;
  rep_pending_refs : refs (cx_pendingRefCnt c) (cx_pendingModes c) (q_pending q).*2;
  rep_running_heap : Forall (fun p => h !! p.1 = Some (lock_obj t th LOCKRES_OK p)) (q_running q);
  rep_pending_heap : Forall (fun p => h !! p.1 = Some (lock_obj t th LOCKRES_WAIT p)) (q_pending q);
  rep_nodup : NoDup ((q_running q).*1 ++ (q_pending q).*1);
  rep_valid : Forall (fun p => valid_mode p.2) (q_running q ++ q_pending q);
  rep_size : zlen (q_running q) + zlen (q_pending q) < 2 ^ 16
}.

Lemma blocked_existsb l m : blocked l m = existsb (conflicts m) l.*2.
Proof. unfold blocked. induction l as [|p l IH]; [done|]. cbn. by rewrite IH. Qed.

(** Objects outside the list are not affected by an update of one. *)
Lemma heap_frame (P : Z * LockMode -> MGLock) (h : heap) l x o :
  x ∉ l.*1 -> Forall (fun p => h !! p.1 = Some (P p)) l ->
  Forall (fun p => <[x := o]> h !! p.1 = Some (P p)) l.
Proof.
  intros Hx. rewrite !Forall_forall. intros H p Hp. rewrite lookup_insert_ne; [by apply H|].
  intros ->. apply Hx. by apply list_elem_of_fmap_2.
Qed.

Lemma deref_obj (h : heap) x o : h !! x = Some o -> deref h x = Ret o.
Proof. unfold deref. by intros ->. Qed.

Lemma setLockResult_obj (h : heap) x t th m res0 it res iter :
  h !! x = Some (mkMGLock t th m res0 it) ->
  MGLock_setLockResult h x res iter = Ret (<[x := mkMGLock t th m res iter]> h).
Proof. intros H. unfold MGLock_setLockResult. by rewrite (deref_obj _ _ _ H). Qed.

(** What the first waiting request becomes when it is granted. *)
Lemma rep_grant_first t th h c running x m rest rcnt rmodes pcnt pmodes :
  ctx_rep t th h c (mkQueue running ((x, m) :: rest)) ->
  refs rcnt rmodes (m :: running.*2) -> refs pcnt pmodes rest.*2 ->
  ctx_rep t th (<[x := lock_obj t th LOCKRES_OK (x, m)]> h)
    (mkCtx rmodes pmodes rcnt pcnt (running.*1 ++ [x]) rest.*1) (mkQueue (running ++ [(x, m)]) rest).
Proof.
  intros [_ _ _ _ Hrh Hph Hnd Hval Hsz] Hr Hp; cbn [q_running q_pending] in *.
  rewrite fmap_cons in Hnd; cbn [fst] in Hnd.
  apply Forall_cons in Hph as [_ Hph].
  assert ((x ∉ running.*1) /\ (x ∉ rest.*1)) as [Hx1 Hx2].
  { apply NoDup_app in Hnd as (_ & Hd & Hc). apply NoDup_cons in Hc as [Hc _].
    split; [|done]. intros Hin. apply (Hd x Hin). by left. }
  constructor; cbn [q_running q_pending cx_runningList cx_pendingList cx_runningRefCnt
    cx_runningModes cx_pendingRefCnt cx_pendingModes]; try done.
  - by rewrite fmap_app.
  - rewrite fmap_app. cbn. by rewrite <-Permutation_cons_append.
  - apply Forall_app. split; [by apply heap_frame|]. apply Forall_singleton. apply lookup_insert_eq.
  - by apply heap_frame.
  - rewrite fmap_app, <-app_assoc. done.
  - by rewrite <-app_assoc.
  - rewrite zlen_app. rewrite zlen_cons in Hsz. change (zlen [(x, m)]) with 1. lia.
Qed.

(** The grant of the front requests. *)
Lemma sched_loop_grant t th pending : forall running h c,
  ctx_rep t th h c (mkQueue running pending) ->
  exists h' c', sched_loop pending.*1 h c = Ret (h', c') /\
    ctx_rep t th h' c' (q_grant running pending) /\
    (forall x, x ∉ pending.*1 -> h' !! x = h !! x).
Proof.
  induction pending as [|[x m] rest IH]; intros running h c Hrep; [by exists h, c|].
  pose proof (rep_size _ _ _ _ _ Hrep) as Hsz. pose proof (rep_running_refs _ _ _ _ _ Hrep) as Hrr.
  pose proof (rep_pending_refs _ _ _ _ _ Hrep) as Hpr. pose proof (rep_running _ _ _ _ _ Hrep) as Hrun.
  pose proof (rep_pending_heap _ _ _ _ _ Hrep) as Hph. pose proof (rep_valid _ _ _ _ _ Hrep) as Hval.
  cbn [q_running q_pending fmap list_fmap fst snd q_grant sched_loop] in *.
  apply Forall_cons in Hph as [Hx _]. cbn [fst] in Hx.
  apply Forall_app in Hval as [_ [Hm _]%Forall_cons]. cbn [snd] in Hm.
  rewrite zlen_cons in Hsz. pose proof (zlen_nonneg rest). pose proof (zlen_nonneg running).
  rewrite (deref_obj _ _ _ Hx), bind_Ret. cbn [mg_mode lock_obj snd].
  rewrite (isConflict_refs _ _ _ _ Hrr Hm), bind_Ret, blocked_existsb.
  destruct (existsb (conflicts m) running.*2) eqn:Hc; [by exists h, c|].
  destruct (incrRef_refs _ _ _ m Hrr Hm) as (rc & rm & E1 & R1); [rewrite zlen_fmap; lia|].
  destruct (decRef_refs _ _ _ m Hpr Hm) as (pc & pm & E2 & R2); [rewrite zlen_fmap; lia|].
  unfold LockSchedCtx_incrRunningRef, LockSchedCtx_decPendingRef. rewrite E1, !bind_Ret.
  cbn [cx_pendingRefCnt cx_pendingModes]. rewrite E2, !bind_Ret. cbv zeta.
  unfold set_pending, set_running. cbn [cx_pendingRefCnt cx_pendingModes cx_runningRefCnt cx_runningModes
    cx_runningList cx_pendingList]. unfold lock_obj in Hx. rewrite (setLockResult_obj _ _ _ _ _ _ _ _ _ Hx).
  rewrite bind_Ret, Hrun.
  destruct (IH _ _ _ (rep_grant_first _ _ _ _ _ _ _ _ _ _ _ _ Hrep R1 R2)) as (h' & c' & E & Hr & Hf).
  exists h', c'. split; [exact E|]. split; [done|]. intros y Hy. apply not_elem_of_cons in Hy as [Hne Hy].
  rewrite Hf by done. by rewrite lookup_insert_ne.
Qed.

(** ** Requests *)

Lemma not_in_queue t th h c q x t' th' m it :
  ctx_rep t th h c q -> h !! x = Some (mkMGLock t' th' m LOCKRES_UNINITED it) ->
  (x ∉ (q_running q).*1) /\ (x ∉ (q_pending q).*1).
Proof.
  intros [_ _ _ _ Hrh Hph _ _ _] Hx. rewrite Forall_forall in Hrh, Hph.
  split; intros (p & -> & Hp)%list_elem_of_fmap; [rewrite (Hrh p Hp) in Hx|rewrite (Hph p Hp) in Hx];
    discriminate.
Qed.

Lemma rep_add_running t th h c q x m cnt modes :
  ctx_rep t th h c q -> x ∉ (q_running q).*1 -> x ∉ (q_pending q).*1 -> valid_mode m ->
  zlen (q_running q) + zlen (q_pending q) + 1 < 2 ^ 16 ->
  refs cnt modes (m :: (q_running q).*2) ->
  ctx_rep t th (<[x := lock_obj t th LOCKRES_OK (x, m)]> h)
    (mkCtx modes (cx_pendingModes c) cnt (cx_pendingRefCnt c) (cx_runningList c ++ [x]) (cx_pendingList c))
    (mkQueue (q_running q ++ [(x, m)]) (q_pending q)).
Proof.
  intros [Hrun Hpen Hrr Hpr Hrh Hph Hnd Hval Hsz] Hx1 Hx2 Hm Hs Hr.
  constructor; cbn [q_running q_pending cx_runningList cx_pendingList cx_runningRefCnt
    cx_runningModes cx_pendingRefCnt cx_pendingModes]; try done.
  - by rewrite fmap_app, Hrun.
  - rewrite fmap_app. cbn. by rewrite <-Permutation_cons_append.
  - apply Forall_app. split; [by apply heap_frame|]. apply Forall_singleton. apply lookup_insert_eq.
  - by apply heap_frame.
  - rewrite fmap_app, <-app_assoc. cbn. rewrite <-Permutation_middle. apply NoDup_cons.
    split; [|done]. by rewrite not_elem_of_app.
  - rewrite <-app_assoc. cbn. rewrite <-Permutation_middle. by apply Forall_cons.
  - rewrite zlen_app. change (zlen [(x, m)]) with 1. lia.
Qed.

Lemma rep_add_pending t th h c q x m cnt modes :
  ctx_rep t th h c q -> x ∉ (q_running q).*1 -> x ∉ (q_pending q).*1 -> valid_mode m ->
  zlen (q_running q) + zlen (q_pending q) + 1 < 2 ^ 16 ->
  refs cnt modes (m :: (q_pending q).*2) ->
  ctx_rep t th (<[x := lock_obj t th LOCKRES_WAIT (x, m)]> h)
    (mkCtx (cx_runningModes c) modes (cx_runningRefCnt c) cnt (cx_runningList c) (cx_pendingList c ++ [x]))
    (mkQueue (q_running q) (q_pending q ++ [(x, m)])).
Proof.
  intros [Hrun Hpen Hrr Hpr Hrh Hph Hnd Hval Hsz] Hx1 Hx2 Hm Hs Hr.
  constructor; cbn [q_running q_pending cx_runningList cx_pendingList cx_runningRefCnt
    cx_runningModes cx_pendingRefCnt cx_pendingModes]; try done.
  - by rewrite fmap_app, Hpen.
  - rewrite fmap_app. cbn. by rewrite <-Permutation_cons_append.
  - by apply heap_frame.
  - apply Forall_app. split; [by apply heap_frame|]. apply Forall_singleton. apply lookup_insert_eq.
  - rewrite fmap_app, app_assoc. cbn. rewrite <-Permutation_cons_append. apply NoDup_cons.
    split; [|done]. by rewrite not_elem_of_app.
  - rewrite app_assoc, <-Permutation_cons_append. by apply Forall_cons.
  - rewrite zlen_app. change (zlen [(x, m)]) with 1. lia.
Qed.

Lemma pending_nonempty t th h c q :
  ctx_rep t th h c q -> (1 <=? zlen (cx_pendingList c)) = negb (bool_decide (q_pending q = [])).
Proof.
  intros H. rewrite (rep_pending _ _ _ _ _ H), zlen_fmap. destruct (q_pending q) as [|p l]; [done|].
  rewrite zlen_cons. pose proof (zlen_nonneg l). rewrite bool_decide_eq_false_2 by done.
  apply Z.leb_le. lia.
Qed.

Lemma lock_refines t th h c q x m it :
  ctx_rep t th h c q -> h !! x = Some (mkMGLock t th m LOCKRES_UNINITED it) -> valid_mode m ->
  zlen (q_running q) + zlen (q_pending q) + 1 < 2 ^ 16 ->
  exists res h' c', h' = <[x := lock_obj t th res (x, m)]> h /\
    LockSchedCtx_lock h c x = Ret (h', c') /\ ctx_rep t th h' c' (q_lock q x m).
Proof.
  intros Hrep Hx Hm Hs. destruct (not_in_queue _ _ _ _ _ _ _ _ _ _ Hrep Hx) as [Hx1 Hx2].
  unfold LockSchedCtx_lock, q_lock. rewrite (deref_obj _ _ _ Hx), bind_Ret. cbn [mg_mode]. cbv zeta.
  rewrite (isConflict_refs _ _ _ _ (rep_running_refs _ _ _ _ _ Hrep) Hm), bind_Ret.
  rewrite <-blocked_existsb, (pending_nonempty _ _ _ _ _ Hrep).
  pose proof (zlen_nonneg (q_running q)). pose proof (zlen_nonneg (q_pending q)).
  destruct (blocked (q_running q) m || negb (bool_decide (q_pending q = []))).
  - exists LOCKRES_WAIT. destruct (incrRef_refs _ _ _ m (rep_pending_refs _ _ _ _ _ Hrep) Hm)
      as (cnt & modes & E & R); [rewrite zlen_fmap; lia|].
    unfold LockSchedCtx_incrPendingRef. cbn [set_pending cx_pendingRefCnt cx_pendingModes cx_runningRefCnt
      cx_runningModes cx_runningList cx_pendingList]. rewrite E, !bind_Ret.
    rewrite (setLockResult_obj _ _ _ _ _ _ _ _ _ Hx), bind_Ret. eexists _, _.
    split_and!; [done|done|]. by apply rep_add_pending.
  - exists LOCKRES_OK. destruct (incrRef_refs _ _ _ m (rep_running_refs _ _ _ _ _ Hrep) Hm)
      as (cnt & modes & E & R); [rewrite zlen_fmap; lia|].
    unfold LockSchedCtx_incrRunningRef. cbn [set_running cx_pendingRefCnt cx_pendingModes cx_runningRefCnt
      cx_runningModes cx_runningList cx_pendingList]. rewrite E, !bind_Ret.
    rewrite (setLockResult_obj _ _ _ _ _ _ _ _ _ Hx), bind_Ret. eexists _, _.
    split_and!; [done|done|]. by apply rep_add_running.
Qed.

(** ** Releases *)

Lemma q_drop_cons_ne x p l : p.1 <> x -> q_drop x (p :: l) = p :: q_drop x l.
Proof. intros H. unfold q_drop. by rewrite filter_cons_True. Qed.

Lemma q_drop_absent x l : x ∉ l.*1 -> q_drop x l = l.
Proof.
  induction l as [|p l IH]; [done|]. rewrite fmap_cons, not_elem_of_cons. intros [Hne H].
  rewrite q_drop_cons_ne by done. by rewrite IH.
Qed.

Lemma q_drop_here x m l : x ∉ l.*1 -> q_drop x ((x, m) :: l) = l.
Proof. intros H. unfold q_drop. rewrite filter_cons_False by (cbn; tauto). by apply q_drop_absent. Qed.

(** Erasing the node of [x], and what is left of the ids and of the modes. *)
Lemma q_drop_spec x m l :
  NoDup l.*1 -> (x, m) ∈ l ->
  list_remove_id l.*1 x = Some (q_drop x l).*1 /\ l ≡ₚ (x, m) :: q_drop x l.
Proof.
  induction l as [|[y k] l IH]; [by intros _ []%not_elem_of_nil|].
  rewrite fmap_cons. cbn [fst list_remove_id]. intros [Hy Hnd]%NoDup_cons [E|Hin]%elem_of_cons.
  - injection E as -> ->. by rewrite Z.eqb_refl, q_drop_here.
  - destruct (IH Hnd Hin) as [E P]. assert (y <> x) as Hne.
    { intros ->. apply Hy. by apply (list_elem_of_fmap_2 fst _ (x, m)). }
    rewrite q_drop_cons_ne by done. destruct (Z.eqb_spec x y); [congruence|]. rewrite E.
    split; [done|]. rewrite P at 1. apply Permutation_swap.
Qed.

Lemma list_erase_spec x m l :
  NoDup l.*1 -> (x, m) ∈ l -> list_erase l.*1 (Some x) = Ret (q_drop x l).*1.
Proof. intros H1 H2. unfold list_erase. by rewrite (proj1 (q_drop_spec x m l H1 H2)). Qed.

Lemma q_drop_modes x m l : NoDup l.*1 -> (x, m) ∈ l -> l.*2 ≡ₚ m :: (q_drop x l).*2.
Proof. intros H1 H2. destruct (q_drop_spec x m l H1 H2) as [_ P]. by rewrite P at 1. Qed.

Lemma rep_drop_running t th h c q x m cnt modes o :
  ctx_rep t th h c q -> (x, m) ∈ q_running q -> refs cnt modes (q_drop x (q_running q)).*2 ->
  ctx_rep t th (<[x := o]> h)
    (mkCtx modes (cx_pendingModes c) cnt (cx_pendingRefCnt c) (q_drop x (q_running q)).*1 (cx_pendingList c))
    (mkQueue (q_drop x (q_running q)) (q_pending q)).
Proof.
  intros [Hrun Hpen Hrr Hpr Hrh Hph Hnd Hval Hsz] Hin Hr.
  destruct (q_drop_spec x m (q_running q)) as [_ P]; [by apply NoDup_app in Hnd as []|done|].
  rewrite P in Hnd, Hval, Hrh. cbn in Hnd. apply NoDup_cons in Hnd as [Hx Hnd].
  apply not_elem_of_app in Hx as [Hx1 Hx2]. apply Forall_cons in Hval as [_ Hval].
  apply Forall_cons in Hrh as [_ Hrh]. rewrite (zlen_perm _ _ P), zlen_cons in Hsz.
  constructor; cbn [q_running q_pending cx_runningList cx_pendingList cx_runningRefCnt
    cx_runningModes cx_pendingRefCnt cx_pendingModes]; try done; [by apply heap_frame..|lia].
Qed.

Lemma rep_drop_pending t th h c q x m cnt modes o :
  ctx_rep t th h c q -> (x, m) ∈ q_pending q -> refs cnt modes (q_drop x (q_pending q)).*2 ->
  ctx_rep t th (<[x := o]> h)
    (mkCtx (cx_runningModes c) modes (cx_runningRefCnt c) cnt (cx_runningList c) (q_drop x (q_pending q)).*1)
    (mkQueue (q_running q) (q_drop x (q_pending q))).
Proof.
  intros [Hrun Hpen Hrr Hpr Hrh Hph Hnd Hval Hsz] Hin Hr.
  destruct (q_drop_spec x m (q_pending q)) as [_ P]; [by apply NoDup_app in Hnd as (_ & _ & ?)|done|].
  rewrite P in Hnd, Hval, Hph. cbn in Hnd. rewrite <-Permutation_middle in Hnd, Hval.
  apply NoDup_cons in Hnd as [Hx Hnd].
  apply not_elem_of_app in Hx as [Hx1 Hx2]. apply Forall_cons in Hval as [_ Hval].
  apply Forall_cons in Hph as [_ Hph]. rewrite (zlen_perm _ _ P), zlen_cons in Hsz.
  constructor; cbn [q_running q_pending cx_runningList cx_pendingList cx_runningRefCnt
    cx_runningModes cx_pendingRefCnt cx_pendingModes]; try done; [by apply heap_frame..|lia].
Qed.

Definition q_empty (q : Queue) : bool := bool_decide (q_pending q = []) && bool_decide (q_running q = []).

Lemma is_empty_ids (l : list (Z * LockMode)) : is_empty l.*1 = bool_decide (l = []).
Proof. by destruct l. Qed.

Lemma rep_empty t th h c q :
  ctx_rep t th h c q -> is_empty (cx_pendingList c) && is_empty (cx_runningList c) = q_empty q.
Proof.
  intros H. rewrite (rep_running _ _ _ _ _ H), (rep_pending _ _ _ _ _ H), !is_empty_ids. done.
Qed.

(** The grant as the two branches of the release call it. *)
Lemma sched_grant t th h c q :
  ctx_rep t th h c q ->
  exists h' c', LockSchedCtx_schedPendingLocks h c = Ret (h', c') /\
    ctx_rep t th h' c' (q_grant (q_running q) (q_pending q)) /\
    (forall x, x ∉ (q_pending q).*1 -> h' !! x = h !! x).
Proof.
  intros H. unfold LockSchedCtx_schedPendingLocks. rewrite (rep_pending _ _ _ _ _ H).
  apply sched_loop_grant. by destruct q.
Qed.

Definition released (t : bytes) (th : Z) (m : LockMode) : MGLock :=
  mkMGLock t th m LOCKRES_UNINITED None.

(** What is known of a holder, and of a waiting request. *)
Lemma running_facts t th h c q x m :
  ctx_rep t th h c q -> (x, m) ∈ q_running q ->
  h !! x = Some (mkMGLock t th m LOCKRES_OK (Some x)) /\ NoDup (q_running q).*1 /\ valid_mode m /\
  (x ∈ (q_running q).*1) /\ (x ∉ (q_pending q).*1) /\
  zlen (q_drop x (q_running q)) < 2 ^ 16 - 1 /\
  Forall valid_mode (q_drop x (q_running q)).*2.
Proof.
  intros [_ _ _ _ Hrh _ Hnd Hv Hsz] Hin. rewrite Forall_forall in Hrh. specialize (Hrh _ Hin).
  apply NoDup_app in Hnd as (Hnd & Hd & _). destruct (q_drop_spec _ _ _ Hnd Hin) as [_ P].
  apply Forall_app in Hv as [Hv _]. rewrite P in Hv. apply Forall_cons in Hv as [Hm Hv].
  rewrite (zlen_perm _ _ P), zlen_cons in Hsz. pose proof (zlen_nonneg (q_pending q)).
  assert (x ∈ (q_running q).*1) by (by apply (list_elem_of_fmap_2 fst _ (x, m))).
  split_and!; try done; [by apply Hd|lia|by apply Forall_fmap].
Qed.

Lemma pending_facts t th h c q x m :
  ctx_rep t th h c q -> (x, m) ∈ q_pending q ->
  h !! x = Some (mkMGLock t th m LOCKRES_WAIT (Some x)) /\ NoDup (q_pending q).*1 /\ valid_mode m /\
  (x ∉ (q_running q).*1) /\ zlen (q_drop x (q_pending q)) < 2 ^ 16 - 1 /\
  Forall valid_mode (q_drop x (q_pending q)).*2 /\ (x ∉ (q_drop x (q_pending q)).*1).
Proof.
  intros [_ _ _ _ _ Hph Hnd Hv Hsz] Hin. rewrite Forall_forall in Hph. specialize (Hph _ Hin).
  apply NoDup_app in Hnd as (_ & Hd & Hnd). destruct (q_drop_spec _ _ _ Hnd Hin) as [_ P].
  apply Forall_app in Hv as [_ Hv]. rewrite P in Hv. apply Forall_cons in Hv as [Hm Hv].
  rewrite (zlen_perm _ _ P), zlen_cons in Hsz. pose proof (zlen_nonneg (q_running q)).
  assert (x ∈ (q_pending q).*1) by (by apply (list_elem_of_fmap_2 fst _ (x, m))).
  pose proof Hnd as Hnd'. rewrite P in Hnd'. apply NoDup_cons in Hnd' as [Hx _].
  split_and!; try done; [by intros Hx'; apply (Hd x Hx')|lia|by apply Forall_fmap].
Qed.

Lemma snd_nil (l : list (Z * LockMode)) : bool_decide (l.*2 = []) = bool_decide (l = []).
Proof. by destruct l. Qed.

Lemma unlock_running_refines t th h c q x m :
  ctx_rep t th h c q -> (x, m) ∈ q_running q ->
  exists h' c', LockSchedCtx_unlock h c x = Ret (h', c', q_empty (q_unlock q x)) /\
    ctx_rep t th h' c' (q_unlock q x) /\ h' !! x = Some (released t th m) /\
    (forall y, y <> x -> y ∉ (q_pending q).*1 -> h' !! y = h !! y).
Proof.
  intros Hrep Hin. destruct (running_facts _ _ _ _ _ _ _ Hrep Hin) as (Hh & Hnd & Hm & Hx & Hxp & Hsz & Hv).
  pose proof (rep_running_refs _ _ _ _ _ Hrep) as Hrr. rewrite (q_drop_modes _ _ _ Hnd Hin) in Hrr.
  destruct (decRef_refs _ _ _ m Hrr Hm) as (cnt & modes & E & R); [by rewrite zlen_fmap|].
  unfold LockSchedCtx_unlock, q_unlock. rewrite (deref_obj _ _ _ Hh), bind_Ret, (bool_decide_eq_true_2 _ Hx).
  cbn [mg_res mg_mode mg_resIter].
  rewrite (rep_running _ _ _ _ _ Hrep), (list_erase_spec _ _ _ Hnd Hin), bind_Ret.
  unfold LockSchedCtx_decRunningRef, set_running, MGLock_releaseLockResult.
  cbn [cx_runningRefCnt cx_runningModes cx_runningList cx_pendingList cx_pendingRefCnt cx_pendingModes].
  rewrite E, !bind_Ret, (setLockResult_obj _ _ _ _ _ _ _ _ _ Hh), bind_Ret.
  fold (released t th m).
  pose proof (rep_drop_running _ _ _ _ _ _ _ _ _ (released t th m) Hrep Hin R) as Hrep'.
  cbn [cx_runningModes cx_runningList]. rewrite (refs_modes_zero _ _ _ R Hv), is_empty_ids, snd_nil.
  case_bool_decide as Hd; cbn [negb].
  - inv_d by done. destruct (sched_grant _ _ _ _ _ Hrep') as (h' & c' & E' & Hr & Hf).
    cbn [q_running q_pending] in Hr, Hf. rewrite E', bind_Ret, (rep_empty _ _ _ _ _ Hr). rewrite Hd in Hr |- *.
    exists h', c'. split_and!; [done|done|by rewrite Hf, lookup_insert_eq|].
    intros y Hy Hyp. by rewrite Hf, lookup_insert_ne.
  - eexists _, _. split_and!; [|exact Hrep'|apply lookup_insert_eq|by intros; rewrite lookup_insert_ne].
    unfold q_empty. cbn [q_running q_pending]. by rewrite (bool_decide_eq_false_2 _ Hd), andb_false_r.
Qed.

Lemma unlock_pending_refines t th h c q x m :
  ctx_rep t th h c q -> (x, m) ∈ q_pending q ->
  exists h' c', LockSchedCtx_unlock h c x = Ret (h', c', q_empty (q_unlock q x)) /\
    ctx_rep t th h' c' (q_unlock q x) /\ h' !! x = Some (released t th m) /\
    (forall y, y <> x -> y ∉ (q_pending q).*1 -> h' !! y = h !! y).
Proof.
  intros Hrep Hin. destruct (pending_facts _ _ _ _ _ _ _ Hrep Hin) as (Hh & Hnd & Hm & Hx & Hsz & Hv & Hxd).
  pose proof (rep_pending_refs _ _ _ _ _ Hrep) as Hpr. rewrite (q_drop_modes _ _ _ Hnd Hin) in Hpr.
  destruct (decRef_refs _ _ _ m Hpr Hm) as (cnt & modes & E & R); [by rewrite zlen_fmap|].
  unfold LockSchedCtx_unlock, q_unlock. rewrite (deref_obj _ _ _ Hh), bind_Ret, (bool_decide_eq_false_2 _ Hx).
  cbn [mg_res mg_mode mg_resIter].
  rewrite (rep_pending _ _ _ _ _ Hrep), (list_erase_spec _ _ _ Hnd Hin), bind_Ret.
  unfold LockSchedCtx_decPendingRef, set_pending, MGLock_releaseLockResult.
  cbn [cx_runningRefCnt cx_runningModes cx_runningList cx_pendingList cx_pendingRefCnt cx_pendingModes].
  rewrite E, !bind_Ret, (setLockResult_obj _ _ _ _ _ _ _ _ _ Hh), bind_Ret.
  fold (released t th m).
  pose proof (rep_drop_pending _ _ _ _ _ _ _ _ _ (released t th m) Hrep Hin R) as Hrep'.
  cbn [cx_pendingModes cx_pendingList]. rewrite (refs_modes_zero _ _ _ R Hv), is_empty_ids, snd_nil.
  inv_d by (by case_bool_decide).
  destruct (sched_grant _ _ _ _ _ Hrep') as (h' & c' & E' & Hr & Hf).
  cbn [q_running q_pending] in Hr, Hf. rewrite E', bind_Ret, (rep_empty _ _ _ _ _ Hr).
  exists h', c'. split_and!; [done|done|by rewrite Hf, lookup_insert_eq|].
  intros y Hy Hyp. rewrite Hf, lookup_insert_ne; [done..|].
  intros Hin'. apply Hyp. destruct (q_drop_spec _ _ _ Hnd Hin) as [_ P]. rewrite P. by right.
Qed.

End Refinement.
