(* ===== verification/MglSafe.v ===== *)
(** The lock manager as a whole (lock/mgl): the invariant of the queues, the refinement of the
    sharded manager to a map of queues, the interleavings of the lock objects' operations, and
    what holds in every state they reach. *)

From Stdlib Require Import Strings.Byte ZArith Lia.
From stdpp Require Import base list numbers strings gmap relations.
From S2P Require Import Prelude Status Mgl.

Local Open Scope Z_scope.

(** * The invariant of a queue *)

Definition compatible (l : list (Z * LockMode)) : Prop :=
  forall p1 p2, p1 ∈ l -> p2 ∈ l -> p1.1 <> p2.1 -> conflicts p1.2 p2.2 = false.

(** Holders are compatible, and requests wait only behind a holder. *)
Definition q_inv (q : Queue) : Prop :=
  compatible (q_running q) /\ (q_running q = [] -> q_pending q = []).

Lemma conflicts_sym a b : conflicts a b = conflicts b a.
Proof. by destruct a, b. Qed.

Lemma compatible_snoc l x m :
  compatible l -> blocked l m = false -> compatible (l ++ [(x, m)]).
Proof.
  intros Hc Hb. assert (forall p, p ∈ l -> conflicts m p.2 = false) as Hm.
  { intros p Hp. destruct (conflicts m p.2) eqn:E; [|done]. rewrite <-Hb. symmetry.
    apply existsb_exists. exists p. split; [by apply list_elem_of_In|done]. }
  intros p1 p2 [H1|H1%list_elem_of_singleton]%elem_of_app [H2|H2%list_elem_of_singleton]%elem_of_app Hne.
  - by apply Hc.
  - subst p2. rewrite conflicts_sym. by apply Hm.
  - subst p1. by apply Hm.
  - by subst.
Qed.

Lemma compatible_drop x l : compatible l -> compatible (q_drop x l).
Proof.
  intros H p1 p2 [_ H1]%list_elem_of_filter [_ H2]%list_elem_of_filter. by apply H.
Qed.

(** Granting keeps the order of arrival. *)
Lemma q_grant_order running pending :
  q_running (q_grant running pending) ++ q_pending (q_grant running pending) = running ++ pending.
Proof.
  revert running. induction pending as [|p l IH]; intros running; [done|]. cbn.
  destruct (blocked running p.2); [done|]. by rewrite IH, <-app_assoc.
Qed.

Lemma q_grant_compatible running pending :
  compatible running -> compatible (q_running (q_grant running pending)).
Proof.
  revert running. induction pending as [|[x m] l IH]; intros running H; [done|]. cbn.
  destruct (blocked running m) eqn:E; [done|]. apply IH. by apply compatible_snoc.
Qed.

Lemma q_grant_holders running pending p :
  p ∈ running -> p ∈ q_running (q_grant running pending).
Proof.
  revert running. induction pending as [|p' l IH]; intros running H; [done|]. cbn.
  destruct (blocked running p'.2); [done|]. apply IH. apply elem_of_app. by left.
Qed.

(** With no holder the first request is granted. *)
Lemma q_grant_first p l : p ∈ q_running (q_grant [] (p :: l)).
Proof. cbn. apply q_grant_holders. by apply list_elem_of_singleton. Qed.

Lemma q_grant_inv running pending : compatible running -> q_inv (q_grant running pending).
Proof.
  intros H. split; [by apply q_grant_compatible|]. intros E.
  destruct running as [|p l].
  - destruct pending as [|p l]; [done|]. pose proof (q_grant_first p l) as Hp.
    rewrite E in Hp. by apply not_elem_of_nil in Hp.
  - pose proof (q_grant_holders (p :: l) pending p) as Hp. rewrite E in Hp.
    exfalso. eapply not_elem_of_nil, Hp. by left.
Qed.

Lemma q_lock_inv q x m : q_inv q -> q_inv (q_lock q x m).
Proof.
  intros [Hc He]. unfold q_lock. destruct (blocked (q_running q) m) eqn:Hb; cbn [orb].
  - split; [done|]. intros E. cbn in E. rewrite E in Hb. done.
  - case_bool_decide as Hp; cbn [negb]; split; cbn [q_running q_pending].
    + by apply compatible_snoc.
    + intros E. by apply app_nil in E as [_ E].
    + done.
    + intros E. by destruct Hp, (He E).
Qed.

Lemma q_unlock_inv q x : q_inv q -> q_inv (q_unlock q x).
Proof.
  intros [Hc He]. unfold q_unlock. case_bool_decide; [case_bool_decide|].
  - apply q_grant_inv. by intros p1 p2 H1%not_elem_of_nil.
  - split; [by apply compatible_drop|done].
  - by apply q_grant_inv.
Qed.

Lemma q_lock_order q x m :
  q_running (q_lock q x m) ++ q_pending (q_lock q x m) = (q_running q ++ q_pending q) ++ [(x, m)].
Proof.
  unfold q_lock. destruct (blocked (q_running q) m); cbn [orb q_running q_pending].
  - by rewrite app_assoc.
  - case_bool_decide as E; cbn [negb q_running q_pending]; [|by rewrite app_assoc].
    by rewrite E, !app_nil_r.
Qed.

Lemma q_drop_app x l k : q_drop x (l ++ k) = q_drop x l ++ q_drop x k.
Proof. apply filter_app. Qed.

Lemma q_drop_ids x l : (q_drop x l).*1 = filter (fun y => y <> x) l.*1.
Proof.
  induction l as [|[y m] l IH]; [done|]. unfold q_drop in *. rewrite fmap_cons, !filter_cons. cbn [fst].
  destruct (decide (y <> x)); [by rewrite fmap_cons, IH|done].
Qed.

Lemma q_unlock_order q x :
  NoDup ((q_running q).*1 ++ (q_pending q).*1) ->
  q_running (q_unlock q x) ++ q_pending (q_unlock q x) = q_drop x (q_running q ++ q_pending q).
Proof.
  intros Hnd. apply NoDup_app in Hnd as (_ & Hd & _). unfold q_unlock.
  rewrite q_drop_app.
  case_bool_decide as Hx; [case_bool_decide as E|].
  - rewrite q_grant_order, E, (q_drop_absent x (q_pending q)) by (by apply Hd). done.
  - cbn. by rewrite (q_drop_absent x (q_pending q)) by (by apply Hd).
  - by rewrite q_grant_order, (q_drop_absent x (q_running q)).
Qed.

(** * The manager implements a map of queues *)

Section Manager.
Context {BM : BuildMode}.
Variable hash : bytes -> Z.

Local Abbreviation th := (target_hash hash).

(** The context the manager has for a target. *)
Definition mgr_at (mgr : MGLockMgr) (t : bytes) : option LockSchedCtx :=
  match znth mgr (shard_of (th t)) with Some sh => sh !! t | None => None end.

(** An object that is in use is in the queue of its target, with its result and mode. *)
Definition obj_ok (S : gmap bytes Queue) (x : Z) (o : MGLock) : Prop :=
  mg_res o = LOCKRES_UNINITED \/
  exists q, S !! mg_target o = Some q /\ mg_targetHash o = th (mg_target o) /\
    ((mg_res o = LOCKRES_OK /\ (x, mg_mode o) ∈ q_running q) \/
     (mg_res o = LOCKRES_WAIT /\ (x, mg_mode o) ∈ q_pending q)).

Record mgr_rep (h : heap) (mgr : MGLockMgr) (S : gmap bytes Queue) : Prop := mkMgrRep {
  mr_len : zlen mgr = SHARD_NUM;
  mr_queue : forall t q, S !! t = Some q ->
    exists c, mgr_at mgr t = Some c /\ ctx_rep t (th t) h c q /\ q_inv q /\ q_empty q = false;
  mr_absent : forall t, S !! t = None -> mgr_at mgr t = None;
  mr_obj : forall x o, h !! x = Some o -> obj_ok S x o;
  mr_size : Z.of_nat (size h) < 2 ^ 16
}.

Lemma shard_of_range z : 0 <= shard_of z < SHARD_NUM.
Proof. apply Z.mod_pos_bound. done. Qed.

Lemma shard_exists (mgr : MGLockMgr) t : zlen mgr = SHARD_NUM -> exists sh, znth mgr (shard_of (th t)) = Some sh.
Proof.
  intros H. pose proof (shard_of_range (th t)) as Hr. rewrite znth_lookup by lia.
  apply lookup_lt_is_Some_2. unfold zlen in H. lia.
Qed.

Lemma mgr_at_set (mgr : MGLockMgr) t sh sh' t' :
  znth mgr (shard_of (th t)) = Some sh -> (forall u, u <> t -> sh' !! u = sh !! u) ->
  mgr_at (zset mgr (shard_of (th t)) sh') t' = if decide (t' = t) then sh' !! t else mgr_at mgr t'.
Proof.
  intros Hsh Hs. unfold mgr_at. pose proof (shard_of_range (th t)). pose proof (shard_of_range (th t')).
  rewrite znth_lookup in Hsh by lia. rewrite zset_insert, !znth_lookup by lia.
  pose proof (lookup_lt_Some _ _ _ Hsh) as Hlt.
  destruct (decide (shard_of (th t') = shard_of (th t))) as [E|E].
  - rewrite E, list_lookup_insert_eq, Hsh by done.
    destruct (decide (t' = t)) as [->|Hne]; [done|by apply Hs].
  - rewrite list_lookup_insert_ne by lia. destruct (decide (t' = t)) as [->|Hne]; [done|done].
Qed.

Lemma zlen_zset {A} (l : list A) i y : 0 <= i -> zlen (zset l i y) = zlen l.
Proof. intros H. rewrite zset_insert by done. unfold zlen. by rewrite length_insert. Qed.

(** Contexts of other targets do not see a change of this target's objects. *)
Lemma ctx_rep_heap t th' h h' c q :
  ctx_rep t th' h c q -> (forall x o, h !! x = Some o -> mg_target o = t -> h' !! x = Some o) ->
  ctx_rep t th' h' c q.
Proof.
  intros [] Hf. constructor; try done; eapply Forall_impl; try done; intros p Hp; by apply Hf.
Qed.

(** An object of the target that is in its queue is as the queue says. *)
Lemma rep_obj_ok t h c q S x o :
  ctx_rep t (th t) h c q -> S !! t = Some q -> h !! x = Some o -> x ∈ (q_running q).*1 ++ (q_pending q).*1 ->
  obj_ok S x o.
Proof.
  intros [_ _ _ _ Hr Hp _ _ _] HS Hx Hin. rewrite Forall_forall in Hr, Hp. right. exists q.
  apply elem_of_app in Hin as [([y m] & -> & Hin)%list_elem_of_fmap|([y m] & -> & Hin)%list_elem_of_fmap].
  - rewrite (Hr _ Hin) in Hx. injection Hx as <-. cbn in *. split_and!; [done..|]. by left.
  - rewrite (Hp _ Hin) in Hx. injection Hx as <-. cbn in *. split_and!; [done..|]. by right.
Qed.

(** The number of locks on a target is at most the number of lock objects. *)
Lemma queue_size (h : heap) (l : list Z) :
  NoDup l -> (forall x, x ∈ l -> is_Some (h !! x)) -> zlen l <= Z.of_nat (size h).
Proof.
  intros Hnd Hl. unfold zlen. apply inj_le. rewrite <-(size_list_to_set (C := gset Z) l Hnd), <-size_dom.
  apply subseteq_size. intros x Hx. apply elem_of_dom, Hl. by apply elem_of_list_to_set in Hx.
Qed.

(** The manager after one target changed: [cq] is its new context and queue, if it keeps one. *)
Lemma mgr_rep_update h mgr S t sh sh' h' (cq : option (LockSchedCtx * Queue)) :
  mgr_rep h mgr S -> znth mgr (shard_of (th t)) = Some sh ->
  (forall u, u <> t -> sh' !! u = sh !! u) -> sh' !! t = fst <$> cq ->
  (forall x o, mg_target o <> t -> h !! x = Some o <-> h' !! x = Some o) ->
  dom h' = dom h ->
  (forall c q, cq = Some (c, q) -> ctx_rep t (th t) h' c q /\ q_inv q /\ q_empty q = false) ->
  (forall x o, h' !! x = Some o -> mg_target o = t ->
    mg_res o = LOCKRES_UNINITED \/ exists c q, cq = Some (c, q) /\ x ∈ (q_running q).*1 ++ (q_pending q).*1) ->
  mgr_rep h' (zset mgr (shard_of (th t)) sh') (partial_alter (fun _ => snd <$> cq) t S).
Proof.
  intros [Hlen Hq Ha Ho Hs] Hsh Hs1 Hs2 Hf Hdom Hcq Hobj. constructor.
  - by rewrite zlen_zset by apply shard_of_range.
  - intros u q. rewrite (mgr_at_set _ _ _ _ u Hsh Hs1). destruct (decide (u = t)) as [->|Hne].
    + rewrite lookup_partial_alter_eq, Hs2. destruct cq as [[c q']|]; [|done]. intros [= ->].
      exists c. split; [done|]. by apply Hcq.
    + rewrite lookup_partial_alter_ne by done. intros Hu. destruct (Hq _ _ Hu) as (c & E & Hr & Hi).
      exists c. split; [done|]. split; [|done]. eapply ctx_rep_heap; [done|].
      intros x o Hx Ht. apply Hf; [congruence|done].
  - intros u. rewrite (mgr_at_set _ _ _ _ u Hsh Hs1). destruct (decide (u = t)) as [->|Hne].
    + rewrite lookup_partial_alter_eq, Hs2. by destruct cq as [[c q']|].
    + rewrite lookup_partial_alter_ne by done. apply Ha.
  - intros x o Hx. destruct (decide (mg_target o = t)) as [Ht|Ht].
    + destruct (Hobj _ _ Hx Ht) as [Hu|(c & q & E & Hin)]; [by left|]. subst cq.
      eapply rep_obj_ok; [by apply (Hcq c q)| |done|done]. by rewrite lookup_partial_alter_eq.
    + apply Hf in Hx; [|done]. destruct (Ho _ _ Hx) as [|(q & HS & H)]; [by left|]. right. exists q.
      by rewrite lookup_partial_alter_ne.
  - by rewrite <-size_dom, Hdom, size_dom.
Qed.

Definition no_queue : Queue := mkQueue [] [].

(** A request for [t] and the end of a lock on [t], on the map of queues. *)
Definition s_lock (S : gmap bytes Queue) (x : Z) (t : bytes) (m : LockMode) : gmap bytes Queue :=
  <[t := q_lock (default no_queue (S !! t)) x m]> S.

Definition s_unlock (S : gmap bytes Queue) (x : Z) (t : bytes) : gmap bytes Queue :=
  match S !! t with
  | None => S
  | Some q => let q' := q_unlock q x in if q_empty q' then delete t S else <[t := q']> S
  end.

Lemma ctx_rep_new t h : ctx_rep t (th t) h LockSchedCtx_new no_queue.
Proof. by constructor; try apply refs_nil; try apply NoDup_nil; try apply Forall_nil. Qed.

Lemma not_in_use S x o (h : heap) mgr t c q :
  mgr_rep h mgr S -> h !! x = Some o -> mg_res o = LOCKRES_UNINITED -> ctx_rep t (th t) h c q ->
  (x ∉ (q_running q).*1 ++ (q_pending q).*1).
Proof.
  intros _ Hx Hu [_ _ _ _ Hr Hp _ _ _]. rewrite Forall_forall in Hr, Hp.
  intros [(p & -> & Hin)%list_elem_of_fmap|(p & -> & Hin)%list_elem_of_fmap]%elem_of_app;
    [rewrite (Hr _ Hin) in Hx|rewrite (Hp _ Hin) in Hx]; by injection Hx as <-.
Qed.

(** An unused object may be set up for any target. *)
Lemma mgr_rep_unused h mgr S x o o' :
  mgr_rep h mgr S -> h !! x = Some o -> mg_res o = LOCKRES_UNINITED -> mg_res o' = LOCKRES_UNINITED ->
  mgr_rep (<[x := o']> h) mgr S.
Proof.
  intros Hrep Hx Hu Hu'. pose proof Hrep as [Hlen Hq Ha Ho Hs]. constructor; try done.
  - intros t q HS. destruct (Hq _ _ HS) as (c & E & Hr & Hi & He). exists c. split_and!; try done.
    pose proof (not_in_use _ _ _ _ _ _ _ _ Hrep Hx Hu Hr) as Hn. apply not_elem_of_app in Hn as [Hn1 Hn2].
    destruct Hr. constructor; try done; by apply heap_frame.
  - intros y oy. destruct (decide (y = x)) as [->|Hne].
    + rewrite lookup_insert_eq. intros [= <-]. by left.
    + rewrite lookup_insert_ne by done. apply Ho.
  - by rewrite map_size_insert_Some by done.
Qed.

Lemma q_lock_ids q x m :
  (q_running (q_lock q x m)).*1 ++ (q_pending (q_lock q x m)).*1 =
  ((q_running q).*1 ++ (q_pending q).*1) ++ [x].
Proof. rewrite <-!fmap_app, q_lock_order, !fmap_app. done. Qed.

Lemma q_lock_nonempty q x m : q_empty (q_lock q x m) = false.
Proof.
  apply andb_false_iff. rewrite !bool_decide_eq_false. pose proof (q_lock_ids q x m) as H.
  destruct (q_pending (q_lock q x m)) eqn:E; [right|by left]. intros E'. rewrite E' in H.
  by destruct ((q_running q).*1 ++ (q_pending q).*1).
Qed.

(** The context a request goes to, and its queue. *)
Lemma mgr_context h mgr S t :
  mgr_rep h mgr S ->
  exists sh c q, znth mgr (shard_of (th t)) = Some sh /\
    c = match sh !! t with Some c => c | None => LockSchedCtx_new end /\
    q = default no_queue (S !! t) /\ ctx_rep t (th t) h c q /\ q_inv q.
Proof.
  intros [Hlen Hq Ha _ _]. destruct (shard_exists mgr t Hlen) as [sh Hsh].
  exists sh. eexists _, _. split; [done|]. split; [done|]. split; [done|].
  destruct (S !! t) as [q|] eqn:HS.
  - destruct (Hq _ _ HS) as (c & E & Hr & Hi & _). unfold mgr_at in E. rewrite Hsh in E.
    by rewrite E.
  - specialize (Ha _ HS). unfold mgr_at in Ha. rewrite Hsh in Ha. rewrite Ha.
    split; [apply ctx_rep_new|]. split; [|done]. by intros p1 p2 H%not_elem_of_nil.
Qed.

(** An object not in the queue leaves room for itself. *)
Lemma queue_room h mgr S t c q x o :
  mgr_rep h mgr S -> h !! x = Some o -> ctx_rep t (th t) h c q ->
  (x ∉ (q_running q).*1 ++ (q_pending q).*1) -> zlen (q_running q) + zlen (q_pending q) + 1 < 2 ^ 16.
Proof.
  intros Hrep Hx [_ _ _ _ H2 H3 Hnd _ _] Hn. rewrite Forall_forall in H2, H3.
  pose proof (mr_size _ _ _ Hrep) as Hs.
  assert (zlen (x :: (q_running q).*1 ++ (q_pending q).*1) <= Z.of_nat (size h)) as H.
  { apply queue_size; [by apply NoDup_cons|]. intros y [->|Hy]%elem_of_cons; [by eexists|].
    by apply elem_of_app in Hy as [(p & -> & Hp)%list_elem_of_fmap|(p & -> & Hp)%list_elem_of_fmap];
      eexists; [apply H2|apply H3]. }
  rewrite zlen_cons, zlen_app, !zlen_fmap in H. lia.
Qed.

Lemma obj_in_queue h mgr S x o :
  mgr_rep h mgr S -> h !! x = Some o -> mg_res o = LOCKRES_UNINITED \/
  exists q, S !! mg_target o = Some q /\ x ∈ (q_running q).*1 ++ (q_pending q).*1.
Proof.
  intros Hrep Hx. destruct (mr_obj _ _ _ Hrep _ _ Hx) as [H|(q & HS & _ & Hin)]; [by left|right].
  exists q. split; [done|]. apply elem_of_app.
  destruct Hin as [[_ Hin]|[_ Hin]]; [left|right]; by apply (list_elem_of_fmap_2 fst) in Hin.
Qed.

Lemma request_refines h mgr S x o t m :
  mgr_rep h mgr S -> h !! x = Some o -> mg_res o = LOCKRES_UNINITED -> valid_mode m ->
  exists h' mgr', MGLock_request hash h mgr x t m = Ret (h', mgr') /\ mgr_rep h' mgr' (s_lock S x t m).
Proof.
  intros Hrep Hx Hu Hm. unfold MGLock_request. rewrite (deref_obj _ _ _ Hx), bind_Ret.
  inv_d by (by rewrite Hu). rewrite Hu. cbv zeta. set (o' := mkMGLock t (th t) m LOCKRES_UNINITED None).
  set (h1 := <[x := o']> h). assert (mgr_rep h1 mgr S) as Hrep1 by (by eapply mgr_rep_unused).
  assert (h1 !! x = Some o') as Hx1 by apply lookup_insert_eq. clearbody h1. clear Hrep Hx Hu o h.
  destruct (mgr_context _ _ _ t Hrep1) as (sh & c & q & Hsh & Ec & Eq & Hr & Hi).
  pose proof (not_in_use _ _ _ _ _ _ _ _ Hrep1 Hx1 eq_refl Hr) as Hn.
  pose proof (queue_room _ _ _ _ _ _ _ _ Hrep1 Hx1 Hr Hn) as Hsz.
  destruct (lock_refines _ _ _ _ _ _ _ _ Hr Hx1 Hm Hsz) as (res & h' & c' & Eh & El & Hr').
  unfold MGLockMgr_lock. rewrite (deref_obj _ _ _ Hx1), bind_Ret. cbn [o' mg_targetHash mg_target].
  unfold shard_at. rewrite Hsh, bind_Ret, <-Ec, El, bind_Ret. eexists _, _. split; [done|].
  unfold s_lock. rewrite <-Eq.
  apply (mgr_rep_update _ _ _ _ _ _ _ (Some (c', q_lock q x m)) Hrep1 Hsh).
  - intros u Hu. by rewrite lookup_insert_ne.
  - apply lookup_insert_eq.
  - intros y oy Hy. subst h'. destruct (decide (y = x)) as [->|Hne]; [|by rewrite lookup_insert_ne].
    rewrite Hx1, lookup_insert_eq. split; intros [= <-]; by destruct Hy.
  - subst h'. by apply dom_insert_lookup_L.
  - intros c0 q0 [= <- <-]. split_and!; [done|by apply q_lock_inv|apply q_lock_nonempty].
  - intros y oy Hy Ht. subst h'. destruct (decide (y = x)) as [->|Hne].
    + right. eexists _, _. split; [done|]. rewrite q_lock_ids. apply elem_of_app. right. by left.
    + rewrite lookup_insert_ne in Hy by done.
      destruct (obj_in_queue _ _ _ _ _ Hrep1 Hy) as [Hy'|(q1 & HS & Hin)]; [by left|].
      right. eexists _, _. split; [done|]. rewrite q_lock_ids. apply elem_of_app. left.
      rewrite Ht in HS. rewrite HS in Eq. cbn in Eq. by subst q1.
Qed.

(** ** Releases *)

Lemma q_unlock_ids q x :
  NoDup ((q_running q).*1 ++ (q_pending q).*1) ->
  forall y, y ∈ (q_running (q_unlock q x)).*1 ++ (q_pending (q_unlock q x)).*1 <->
    y <> x /\ y ∈ (q_running q).*1 ++ (q_pending q).*1.
Proof.
  intros Hnd y. rewrite <-!fmap_app, q_unlock_order by done. unfold q_drop. rewrite !list_elem_of_fmap. split.
  - intros (p & -> & [Hne Hp]%list_elem_of_filter). split; [done|]. by exists p.
  - intros [Hne (p & -> & Hp)]. exists p. split; [done|]. by apply list_elem_of_filter.
Qed.

(** A release of a lock in use, whichever list it is in. *)
Lemma unlock_context t h c q x o :
  ctx_rep t (th t) h c q ->
  (mg_res o = LOCKRES_OK /\ (x, mg_mode o) ∈ q_running q) \/
  (mg_res o = LOCKRES_WAIT /\ (x, mg_mode o) ∈ q_pending q) ->
  exists h' c', LockSchedCtx_unlock h c x = Ret (h', c', q_empty (q_unlock q x)) /\
    ctx_rep t (th t) h' c' (q_unlock q x) /\
    h' !! x = Some (released t (th t) (mg_mode o)) /\
    (forall y, y <> x -> y ∉ (q_pending q).*1 -> h' !! y = h !! y) /\
    (x ∈ (q_running q).*1 ++ (q_pending q).*1).
Proof.
  intros Hr [[_ Hin]|[_ Hin]]; setoid_rewrite elem_of_app.
  - destruct (unlock_running_refines _ _ _ _ _ _ _ Hr Hin) as (h' & c' & H1 & H2 & H3 & H4).
    exists h', c'. split_and!; try done. left. by apply (list_elem_of_fmap_2 fst) in Hin.
  - destruct (unlock_pending_refines _ _ _ _ _ _ _ Hr Hin) as (h' & c' & H1 & H2 & H3 & H4).
    exists h', c'. split_and!; try done. right. by apply (list_elem_of_fmap_2 fst) in Hin.
Qed.

(** The objects of a queue belong to its target, before and after. *)
Lemma queue_targets t h c q x :
  ctx_rep t (th t) h c q -> x ∈ (q_running q).*1 ++ (q_pending q).*1 ->
  exists o, h !! x = Some o /\ mg_target o = t.
Proof.
  intros [_ _ _ _ Hr Hp _ _ _]. rewrite Forall_forall in Hr, Hp.
  intros [(p & -> & Hin)%list_elem_of_fmap|(p & -> & Hin)%list_elem_of_fmap]%elem_of_app;
    eexists; (split; [first [exact (Hr _ Hin)|exact (Hp _ Hin)]|done]).
Qed.

(** The frame of a release: objects of other targets are untouched, and none appears or goes. *)
Lemma unlock_frame t h c q h' c' q' x m :
  ctx_rep t (th t) h c q -> ctx_rep t (th t) h' c' q' -> h' !! x = Some (released t (th t) m) ->
  (forall y, y <> x -> y ∉ (q_pending q).*1 -> h' !! y = h !! y) ->
  (x ∈ (q_running q).*1 ++ (q_pending q).*1) ->
  (forall y, y ∈ (q_running q').*1 ++ (q_pending q').*1 <-> y <> x /\ y ∈ (q_running q).*1 ++ (q_pending q).*1) ->
  (forall y o, mg_target o <> t -> h !! y = Some o <-> h' !! y = Some o) /\ dom h' = dom h.
Proof.
  intros Hr Hr' Hx Hf Hin Hids.
  assert (forall y, y ∈ (q_running q).*1 ++ (q_pending q).*1 ->
    (exists o, h !! y = Some o /\ mg_target o = t) /\ (exists o, h' !! y = Some o /\ mg_target o = t)) as Hq.
  { intros y Hy. split; [by eapply queue_targets|]. destruct (decide (y = x)) as [->|Hne]; [by eexists|].
    eapply queue_targets; [exact Hr'|]. by apply Hids. }
  assert (forall y, y ∉ (q_running q).*1 ++ (q_pending q).*1 -> h' !! y = h !! y) as Hout.
  { intros y Hy. apply Hf; [congruence|]. by apply not_elem_of_app in Hy as []. }
  assert (forall y, y ∈ (q_running q).*1 ++ (q_pending q).*1 \/ h' !! y = h !! y) as Hd.
  { intros y. destruct (decide (y ∈ (q_running q).*1 ++ (q_pending q).*1)); [by left|right; by apply Hout]. }
  split.
  - intros y o Ho. destruct (Hd y) as [Hy| ->]; [|done].
    destruct (Hq _ Hy) as [(o1 & -> & E1) (o2 & -> & E2)]. split; intros [= <-]; congruence.
  - apply set_eq. intros y. rewrite !elem_of_dom. destruct (Hd y) as [Hy| ->]; [|done].
    destruct (Hq _ Hy) as [(o1 & -> & E1) (o2 & -> & E2)]. done.
Qed.

Lemma unlock_refines h mgr S x o :
  mgr_rep h mgr S -> h !! x = Some o -> mg_res o <> LOCKRES_UNINITED ->
  exists h' mgr' m, MGLock_unlock h mgr x = Ret (h', mgr') /\
    mgr_rep h' mgr' (s_unlock S x (mg_target o)) /\
    h' !! x = Some (released (mg_target o) (th (mg_target o)) m).
Proof.
  intros Hrep Hx Hu. destruct (mr_obj _ _ _ Hrep _ _ Hx) as [|(q & HS & Hth & Hin)]; [done|].
  set (t := mg_target o) in *. destruct (mr_queue _ _ _ Hrep _ _ HS) as (c & Ec & Hr & Hi & _).
  destruct (shard_exists mgr t (mr_len _ _ _ Hrep)) as [sh Hsh]. unfold mgr_at in Ec. rewrite Hsh in Ec.
  destruct (unlock_context _ _ _ _ _ _ Hr Hin) as (h' & c' & E & Hr' & Hx' & Hf & Hxin).
  pose proof (q_unlock_ids q x (rep_nodup _ _ _ _ _ Hr)) as Hids.
  destruct (unlock_frame _ _ _ _ _ _ _ _ _ Hr Hr' Hx' Hf Hxin Hids) as [Hfr Hdom].
  unfold MGLock_unlock, MGLockMgr_unlock. rewrite (deref_obj _ _ _ Hx), !bind_Ret. fold t.
  rewrite bool_decide_eq_false_2 by done. rewrite Hth. unfold shard_at. rewrite Hsh.
  inv_d by (destruct Hin as [[-> _]|[-> _]]; done). rewrite !bind_Ret.
  inv_d by (destruct Hin as [[-> _]|[-> _]]; done). rewrite Ec, E, !bind_Ret, (deref_obj _ _ _ Hx'), bind_Ret.
  inv_d by done. eexists _, _, _. split; [done|]. split; [|done]. unfold s_unlock. rewrite HS. cbv zeta.
  assert (forall y oy, h' !! y = Some oy -> mg_target oy = t -> mg_res oy = LOCKRES_UNINITED \/
    y ∈ (q_running (q_unlock q x)).*1 ++ (q_pending (q_unlock q x)).*1) as Hobj.
  { intros y oy Hy Ht. destruct (decide (y = x)) as [->|Hne]; [rewrite Hx' in Hy; injection Hy as <-; by left|].
    destruct (decide (y ∈ (q_running q).*1 ++ (q_pending q).*1)) as [Hyq|Hyq]; [right; by apply Hids|left].
    rewrite Hf in Hy; [|done|by apply not_elem_of_app in Hyq as []].
    destruct (obj_in_queue _ _ _ _ _ Hrep Hy) as [|(q1 & HS1 & Hy1)]; [done|].
    rewrite Ht, HS in HS1. by injection HS1 as <-. }
  destruct (q_empty (q_unlock q x)) eqn:He.
  - apply (mgr_rep_update _ _ _ _ _ _ _ None Hrep Hsh); try done;
      [intros u Hne; by rewrite lookup_delete_ne|apply lookup_delete_eq|].
    intros y oy Hy Ht. destruct (Hobj _ _ Hy Ht) as [|Hin']; [by left|]. exfalso.
    apply andb_true_iff in He as [E1%bool_decide_eq_true E2%bool_decide_eq_true]. rewrite E1, E2 in Hin'.
    by apply not_elem_of_nil in Hin'.
  - apply (mgr_rep_update _ _ _ _ _ _ _ (Some (c', q_unlock q x)) Hrep Hsh); try done;
      [intros u Hne; by rewrite lookup_insert_ne|apply lookup_insert_eq| |].
    + intros c0 q0 [= <- <-]. split_and!; [done|by apply q_unlock_inv|done].
    + intros y oy Hy Ht. destruct (Hobj _ _ Hy Ht) as [|Hin']; [by left|]. right. by eexists _, _.
Qed.

End Manager.

(** * The interleavings *)

Section Steps.
Context {BM : BuildMode}.
Variable hash : bytes -> Z.

Abbreviation state := (heap * MGLockMgr)%type.

(** What the threads do, each operation under the mutex of its shard: create a lock object,
    request a target with an unused one, end a request whatever became of it, destroy an unused
    object. Fewer than 65536 lock objects exist at a time. *)
Inductive step : state -> state -> Prop :=
  | step_new h mgr x :
      h !! x = None -> Z.of_nat (size h) < 2 ^ 16 - 1 -> step (h, mgr) (<[x := MGLock_new]> h, mgr)
  | step_request h mgr x o t m h' mgr' :
      h !! x = Some o -> mg_res o = LOCKRES_UNINITED -> valid_mode m ->
      MGLock_request hash h mgr x t m = Ret (h', mgr') -> step (h, mgr) (h', mgr')
  | step_unlock h mgr x h' mgr' :
      MGLock_unlock h mgr x = Ret (h', mgr') -> step (h, mgr) (h', mgr')
  | step_destroy h mgr x o h' :
      h !! x = Some o -> mg_res o = LOCKRES_UNINITED ->
      MGLock_destroy h x = Ret h' -> step (h, mgr) (h', mgr).

Definition initial : state := (∅, MGLockMgr_new).

Definition reachable (h : heap) (mgr : MGLockMgr) : Prop := rtc step initial (h, mgr).

Lemma mgr_rep_initial : mgr_rep hash ∅ MGLockMgr_new ∅.
Proof.
  constructor; try done. intros t _. unfold mgr_at. pose proof (shard_of_range (target_hash hash t)) as H.
  rewrite znth_lookup by lia. destruct (MGLockMgr_new !! _) as [sh|] eqn:E; [|done].
  apply lookup_replicate in E as [-> _]. apply lookup_empty.
Qed.

Lemma mgr_rep_new h mgr S x :
  mgr_rep hash h mgr S -> h !! x = None -> Z.of_nat (size h) < 2 ^ 16 - 1 ->
  mgr_rep hash (<[x := MGLock_new]> h) mgr S.
Proof.
  intros [Hlen Hq Ha Ho Hs] Hx Hsz. constructor; try done.
  - intros t q HS. destruct (Hq _ _ HS) as (c & E & Hr & Hi & He). exists c. split_and!; try done.
    eapply ctx_rep_heap; [done|]. intros y o Hy _. rewrite lookup_insert_ne; [done|congruence].
  - intros y o. destruct (decide (y = x)) as [->|Hne].
    + rewrite lookup_insert_eq. intros [= <-]. by left.
    + rewrite lookup_insert_ne by done. apply Ho.
  - rewrite map_size_insert_None by done. lia.
Qed.

Lemma heap_frame_delete (P : Z * LockMode -> MGLock) (h : heap) l x :
  x ∉ l.*1 -> Forall (fun p => h !! p.1 = Some (P p)) l ->
  Forall (fun p => delete x h !! p.1 = Some (P p)) l.
Proof.
  intros Hx. rewrite !Forall_forall. intros H p Hp. rewrite lookup_delete_ne; [by apply H|].
  intros ->. apply Hx. by apply list_elem_of_fmap_2.
Qed.

Lemma mgr_rep_destroy h mgr S x o :
  mgr_rep hash h mgr S -> h !! x = Some o -> mg_res o = LOCKRES_UNINITED ->
  mgr_rep hash (delete x h) mgr S.
Proof.
  intros Hrep Hx Hu. pose proof Hrep as [Hlen Hq Ha Ho Hs]. constructor; try done.
  - intros t q HS. destruct (Hq _ _ HS) as (c & E & Hr & Hi & He). exists c. split_and!; try done.
    pose proof (not_in_use _ _ _ _ _ _ _ _ _ Hrep Hx Hu Hr) as [Hn1 Hn2]%not_elem_of_app.
    destruct Hr. constructor; try done; by apply heap_frame_delete.
  - intros y oy Hy. apply lookup_delete_Some in Hy as [_ Hy]. by apply Ho.
  - rewrite map_size_delete_Some by done. lia.
Qed.

Lemma unlock_unused h mgr x o :
  h !! x = Some o -> mg_res o = LOCKRES_UNINITED -> MGLock_unlock h mgr x = Ret (h, mgr).
Proof.
  intros Hx Hu. unfold MGLock_unlock. rewrite (deref_obj _ _ _ Hx), bind_Ret.
  by rewrite bool_decide_eq_true_2.
Qed.

Lemma step_rep s s' S :
  step s s' -> mgr_rep hash s.1 s.2 S -> exists S', mgr_rep hash s'.1 s'.2 S'.
Proof.
  intros [h mgr x Hx Hs|h mgr x o t m h' mgr' Hx Hu Hm E|h mgr x h' mgr' E|h mgr x o h' Hx Hu E] Hrep;
    cbn [fst snd] in *.
  - exists S. by apply mgr_rep_new.
  - destruct (request_refines _ _ _ _ _ _ t m Hrep Hx Hu Hm) as (h1 & mgr1 & E1 & H1).
    rewrite E1 in E. injection E as <- <-. by eexists.
  - destruct (h !! x) as [o|] eqn:Hx; [|by unfold MGLock_unlock, deref in E; rewrite Hx in E].
    destruct (decide (mg_res o = LOCKRES_UNINITED)) as [Hu|Hu].
    + rewrite (unlock_unused _ _ _ _ Hx Hu) in E. injection E as <- <-. by exists S.
    + destruct (unlock_refines _ _ _ _ _ _ Hrep Hx Hu) as (h1 & mgr1 & m & E1 & H1 & _).
      rewrite E1 in E. injection E as <- <-. by eexists.
  - exists S. unfold MGLock_destroy in E. rewrite (deref_obj _ _ _ Hx), bind_Ret in E.
    rewrite (INVARIANT_D_bind _ _) in E by (by rewrite Hu). injection E as <-. by eapply mgr_rep_destroy.
Qed.

(** Every reachable state represents some map of queues. *)
Lemma reachable_rep h mgr : reachable h mgr -> exists S, mgr_rep hash h mgr S.
Proof.
  intros Hr. unfold reachable in Hr. change (exists S, mgr_rep hash (h, mgr).1 (h, mgr).2 S).
  assert (exists S, mgr_rep hash initial.1 initial.2 S) as H0 by (exists ∅; apply mgr_rep_initial).
  revert Hr H0. generalize initial, (h, mgr). induction 1 as [|s1 s2 s3 Hst _ IH]; [done|].
  intros [S H]. apply IH. by eapply step_rep.
Qed.

(** ** Runs *)

(** The steps as operations, to run them. *)
Inductive Op : Set :=
  | ONew (x : Z) | ORequest (x : Z) (t : bytes) (m : LockMode) | OUnlock (x : Z) | ODestroy (x : Z).

Definition ret_some {A} (m : M A) : option A := match m with Ret a => Some a | _ => None end.

Definition exec_op (s : state) (op : Op) : option state :=
  let '(h, mgr) := s in
  match op with
  | ONew x =>
      if bool_decide (h !! x = None) && (Z.of_nat (size h) <? 2 ^ 16 - 1)
      then Some (<[x := MGLock_new]> h, mgr) else None
  | ORequest x t m =>
      o ← h !! x;
      if bool_decide (mg_res o = LOCKRES_UNINITED) && negb (bool_decide (m = LOCK_MODE_NUM))
      then ret_some (MGLock_request hash h mgr x t m) else None
  | OUnlock x => ret_some (MGLock_unlock h mgr x)
  | ODestroy x =>
      o ← h !! x;
      if bool_decide (mg_res o = LOCKRES_UNINITED)
      then h' ← ret_some (MGLock_destroy h x); Some (h', mgr) else None
  end.

Fixpoint exec (s : state) (ops : list Op) : option state :=
  match ops with
  | [] => Some s
  | op :: ops' => s' ← exec_op s op; exec s' ops'
  end.

Lemma ret_some_Ret {A} (m : M A) a : ret_some m = Some a -> m = Ret a.
Proof. destruct m; [by intros [= ->]|done..]. Qed.

Lemma exec_op_step s op s' : exec_op s op = Some s' -> step s s'.
Proof.
  destruct s as [h mgr], op as [x|x t m|x|x]; cbn [exec_op].
  - destruct (_ && _) eqn:E; [|done]. intros [= <-].
    apply andb_true_iff in E as [E1%bool_decide_eq_true E2%Z.ltb_lt]. by constructor.
  - destruct (h !! x) as [o|] eqn:Hx; [|done]. cbn. destruct (_ && _) eqn:E; [|done].
    apply andb_true_iff in E as [E1%bool_decide_eq_true E2%negb_true_iff%bool_decide_eq_false].
    intros H%ret_some_Ret. destruct s'. by eapply step_request.
  - intros H%ret_some_Ret. destruct s'. by eapply step_unlock.
  - destruct (h !! x) as [o|] eqn:Hx; [|done]. cbn. case_bool_decide; [|done].
    destruct (ret_some (MGLock_destroy h x)) as [h'|] eqn:E; [|done]. intros [= <-].
    apply ret_some_Ret in E. by eapply step_destroy.
Qed.

Lemma exec_reachable ops h mgr : exec initial ops = Some (h, mgr) -> reachable h mgr.
Proof.
  unfold reachable. generalize initial. induction ops as [|op ops IH]; intros s; cbn [exec].
  - intros [= ->]. apply rtc_refl.
  - destruct (exec_op s op) as [s1|] eqn:E; [|done]. cbn. intros H.
    eapply rtc_l; [by eapply exec_op_step|by apply IH].
Qed.

Lemma exec_default_reachable ops :
  reachable (default initial (exec initial ops)).1 (default initial (exec initial ops)).2.
Proof.
  destruct (exec initial ops) as [[h mgr]|] eqn:E; cbn; [by eapply exec_reachable|apply rtc_refl].
Qed.

End Steps.

(** * Properties *)

(** C1: mutual exclusion: in every state the lock objects can reach, two distinct locks that are
    granted on the same target have modes that do not conflict, whatever hash function spreads
    the targets over the shards. *)
Theorem mgl_exclusion {BM : BuildMode} (hash : bytes -> Z) h mgr x y ox oy :
  reachable hash h mgr -> x <> y -> h !! x = Some ox -> h !! y = Some oy ->
  MGLock_result h x = Ret LOCKRES_OK -> MGLock_result h y = Ret LOCKRES_OK ->
  mg_target ox = mg_target oy -> conflicts (mg_mode ox) (mg_mode oy) = false.
Proof.
  intros Hr Hne Hx Hy Rx Ry Ht. destruct (reachable_rep _ _ _ Hr) as [S Hrep].
  assert (forall z o, h !! z = Some o -> MGLock_result h z = Ret LOCKRES_OK ->
    exists q, S !! mg_target o = Some q /\ (z, mg_mode o) ∈ q_running q) as Hrun.
  { intros z o Hz. unfold MGLock_result. rewrite (deref_obj _ _ _ Hz), bind_Ret.
    case_bool_decide as E; [intros _|done].
    destruct (mr_obj _ _ _ _ Hrep _ _ Hz) as [|(q & HS & _ & [[_ Hin]|[E' _]])]; [congruence|by exists q|congruence]. }
  destruct (Hrun _ _ Hx Rx) as (q & HS & H1), (Hrun _ _ Hy Ry) as (q' & HS' & H2).
  rewrite <-Ht, HS in HS'. injection HS' as <-.
  destruct (mr_queue _ _ _ _ Hrep _ _ HS) as (_ & _ & _ & [Hc _] & _). by apply (Hc (x, _) (y, _)).
Qed.

(** A run with two holders and a waiting writer. *)
Definition demo_ops : list Op :=
  [ONew 1; ONew 2; ONew 3; ORequest 1 (lit "t") LOCK_IS; ORequest 2 (lit "t") LOCK_S;
   ORequest 3 (lit "t") LOCK_X].

Definition demo_state : heap * MGLockMgr :=
  default initial (@exec true (fun _ => 7) initial demo_ops).

Lemma demo_reachable : @reachable true (fun _ => 7) demo_state.1 demo_state.2.
Proof. apply exec_default_reachable. Qed.

Lemma mgl_exclusion_witness : conflicts LOCK_IS LOCK_S = false.
Proof.
  by apply (@mgl_exclusion true (fun _ => 7) demo_state.1 demo_state.2 1 2
    (mkMGLock (lit "t") 7 LOCK_IS LOCKRES_OK (Some 1)) (mkMGLock (lit "t") 7 LOCK_S LOCKRES_OK (Some 2))
    demo_reachable).
Defined.

(** In every reachable state the operations end: a request on an unused lock is granted or
    queued, and an unlock of any lock leaves it unused. No assertion fails in either build, no
    list node is erased twice and no counter wraps around. *)
Theorem mgl_total {BM : BuildMode} (hash : bytes -> Z) h mgr x o :
  reachable hash h mgr -> h !! x = Some o ->
  (mg_res o = LOCKRES_UNINITED -> forall t m, m <> LOCK_MODE_NUM ->
    exists h' mgr', MGLock_request hash h mgr x t m = Ret (h', mgr') /\ reachable hash h' mgr') /\
  (exists h' mgr' o', MGLock_unlock h mgr x = Ret (h', mgr') /\ reachable hash h' mgr' /\
    h' !! x = Some o' /\ mg_res o' = LOCKRES_UNINITED).
Proof.
  intros Hr Hx. destruct (reachable_rep _ _ _ Hr) as [S Hrep]. split.
  - intros Hu t m Hm. destruct (request_refines _ _ _ _ _ _ t m Hrep Hx Hu Hm) as (h' & mgr' & E & _).
    exists h', mgr'. split; [done|]. eapply rtc_r; [exact Hr|]. by eapply step_request.
  - destruct (decide (mg_res o = LOCKRES_UNINITED)) as [Hu|Hu].
    + exists h, mgr, o. by rewrite (unlock_unused _ _ _ _ Hx Hu).
    + destruct (unlock_refines _ _ _ _ _ _ Hrep Hx Hu) as (h' & mgr' & m & E & _ & Hx').
      eexists h', mgr', _. split_and!; [done| |done|done]. eapply rtc_r; [exact Hr|]. by eapply step_unlock.
Qed.

Lemma mgl_total_witness :
  exists h' mgr' o', @MGLock_unlock true demo_state.1 demo_state.2 2 = Ret (h', mgr') /\
    @reachable true (fun _ => 7) h' mgr' /\ h' !! 2 = Some o' /\ mg_res o' = LOCKRES_UNINITED.
Proof.
  by apply (@mgl_total true (fun _ => 7) demo_state.1 demo_state.2 2
    (mkMGLock (lit "t") 7 LOCK_S LOCKRES_OK (Some 2)) demo_reachable).
Defined.

(** C28: the manager is a map from targets to first-come-first-served queues: a request and an
    unlock do to the map of queues what the abstract operations say, on the queue of their
    target only, and the context of a target is dropped with its last lock. *)
Theorem mgl_refines_queues {BM : BuildMode} (hash : bytes -> Z) h mgr S x o :
  mgr_rep hash h mgr S -> h !! x = Some o ->
  (mg_res o = LOCKRES_UNINITED -> forall t m, m <> LOCK_MODE_NUM ->
    exists h' mgr', MGLock_request hash h mgr x t m = Ret (h', mgr') /\
      mgr_rep hash h' mgr' (s_lock S x t m)) /\
  (mg_res o <> LOCKRES_UNINITED ->
    exists h' mgr', MGLock_unlock h mgr x = Ret (h', mgr') /\
      mgr_rep hash h' mgr' (s_unlock S x (mg_target o))).
Proof.
  intros Hrep Hx. split.
  - intros Hu t m Hm. by eapply request_refines.
  - intros Hu. destruct (unlock_refines _ _ _ _ _ _ Hrep Hx Hu) as (h' & mgr' & m & E & H & _). eauto.
Qed.

Lemma mgl_refines_queues_witness :
  exists h' mgr', @MGLock_request true (fun _ => 7) {[5 := MGLock_new]} MGLockMgr_new 5 (lit "a") LOCK_X
      = Ret (h', mgr') /\
    @mgr_rep (fun _ => 7) h' mgr' {[lit "a" := mkQueue [(5, LOCK_X)] []]}.
Proof.
  refine (proj1 (@mgl_refines_queues true (fun _ => 7) {[5 := MGLock_new]} MGLockMgr_new ∅ 5 MGLock_new _ _)
    eq_refl (lit "a") LOCK_X _); try done.
  by apply mgr_rep_new; [apply mgr_rep_initial| |].
Defined.

(** First come, first locked: the holders followed by the waiting requests are the locks of
    the target in the order they were requested; a request goes to the end and an unlock only
    takes its own lock out, so no request overtakes an earlier one that conflicts with it. *)
Theorem LockSchedCtx_fifo {BM : BuildMode} t th h c q x m :
  ctx_rep t th h c q ->
  (forall it, h !! x = Some (mkMGLock t th m LOCKRES_UNINITED it) -> m <> LOCK_MODE_NUM ->
    zlen (cx_runningList c) + zlen (cx_pendingList c) + 1 < 2 ^ 16 ->
    exists h' c', LockSchedCtx_lock h c x = Ret (h', c') /\
      cx_runningList c' ++ cx_pendingList c' = (cx_runningList c ++ cx_pendingList c) ++ [x]) /\
  ((x, m) ∈ q_running q ++ q_pending q ->
    exists h' c' e, LockSchedCtx_unlock h c x = Ret (h', c', e) /\
      cx_runningList c' ++ cx_pendingList c' = filter (fun y => y <> x) (cx_runningList c ++ cx_pendingList c)).
Proof.
  intros Hr. pose proof (rep_running _ _ _ _ _ Hr) as Er. pose proof (rep_pending _ _ _ _ _ Hr) as Ep. split.
  - intros it Hx Hm Hs. rewrite Er, Ep, !zlen_fmap in Hs.
    destruct (lock_refines _ _ _ _ _ _ _ _ Hr Hx Hm Hs) as (res & h' & c' & _ & E & Hr').
    exists h', c'. split; [done|]. rewrite Er, Ep, (rep_running _ _ _ _ _ Hr'), (rep_pending _ _ _ _ _ Hr').
    apply q_lock_ids.
  - intros Hin. assert (exists h' c' e, LockSchedCtx_unlock h c x = Ret (h', c', e) /\
      ctx_rep t th h' c' (q_unlock q x)) as (h' & c' & e & E & Hr').
    { apply elem_of_app in Hin as [Hin|Hin];
        [destruct (unlock_running_refines _ _ _ _ _ _ _ Hr Hin) as (h' & c' & ? & ? & _)
        |destruct (unlock_pending_refines _ _ _ _ _ _ _ Hr Hin) as (h' & c' & ? & ? & _)]; eauto. }
    exists h', c', e. split; [done|].
    rewrite Er, Ep, (rep_running _ _ _ _ _ Hr'), (rep_pending _ _ _ _ _ Hr'), <-!fmap_app.
    rewrite q_unlock_order by apply Hr. apply q_drop_ids.
Qed.

Lemma LockSchedCtx_fifo_witness :
  exists h' c', @LockSchedCtx_lock true {[5 := mkMGLock [] 0 LOCK_X LOCKRES_UNINITED None]} LockSchedCtx_new 5
    = Ret (h', c') /\ cx_runningList c' ++ cx_pendingList c' = [5].
Proof.
  apply (proj1 (@LockSchedCtx_fifo true [] 0 {[5 := mkMGLock [] 0 LOCK_X LOCKRES_UNINITED None]} LockSchedCtx_new
    no_queue 5 LOCK_X ltac:(exact (@ctx_rep_new (fun _ => 0) [] _))) None); done.
Defined.

(** Unlocks the locks of a list one after the other. *)
Fixpoint release_all {BM : BuildMode} (l : list Z) (h : heap) (mgr : MGLockMgr) : M (heap * MGLockMgr) :=
  match l with
  | [] => Ret (h, mgr)
  | x :: l' => '(h, mgr) ← MGLock_unlock h mgr x; release_all l' h mgr
  end.

Lemma q_drop_perm x l k : x :: k ≡ₚ l.*1 -> NoDup l.*1 -> (q_drop x l).*1 ≡ₚ k.
Proof.
  intros P Hnd. rewrite q_drop_ids. rewrite <-P in Hnd |- *. apply NoDup_cons in Hnd as [Hx _].
  rewrite filter_cons_False by tauto. clear P. induction k as [|y k IH]; [done|].
  apply not_elem_of_cons in Hx as [Hne Hx]. rewrite filter_cons_True by congruence. by rewrite IH.
Qed.

(** While holders remain, an unlock of a holder only takes it out. *)
Lemma q_unlock_holder q x k :
  x :: k ≡ₚ (q_running q).*1 -> NoDup (q_running q).*1 ->
  q_unlock q x = match k with
                 | [] => q_grant [] (q_pending q)
                 | _ => mkQueue (q_drop x (q_running q)) (q_pending q)
                 end.
Proof.
  intros P Hnd. pose proof (q_drop_perm _ _ _ P Hnd) as Pk. unfold q_unlock.
  rewrite bool_decide_eq_true_2 by (rewrite <-P; by left). destruct k as [|y k].
  - apply Permutation_nil_r, fmap_nil_inv in Pk. by rewrite bool_decide_eq_true_2.
  - rewrite bool_decide_eq_false_2; [done|]. intros E. rewrite E in Pk. by apply Permutation_nil_cons in Pk.
Qed.

Section Drain.
Context {BM : BuildMode}.
Variable hash : bytes -> Z.

Lemma release_all_grants t p rest l : forall h mgr S q,
  mgr_rep hash h mgr S -> S !! t = Some q -> q_pending q = p :: rest -> l ≡ₚ (q_running q).*1 ->
  exists h' mgr', release_all l h mgr = Ret (h', mgr') /\
    exists o, h' !! p.1 = Some o /\ mg_res o = LOCKRES_OK /\ mg_target o = t.
Proof.
  induction l as [|x l IH]; intros h mgr S q Hrep HS Hp Hl;
    destruct (mr_queue _ _ _ _ Hrep _ _ HS) as (c & _ & Hr & Hi & _).
  { apply Permutation_nil_l in Hl. symmetry in Hl. apply fmap_nil_inv in Hl. destruct Hi as [_ He].
    by rewrite He in Hp. }
  assert (x ∈ (q_running q).*1) as ([y m] & -> & Hin)%list_elem_of_fmap by (rewrite <-Hl; by left).
  cbn [fst] in *. destruct (running_facts _ _ _ _ _ _ _ Hr Hin) as (Hx & Hnd & _).
  destruct (unlock_refines hash _ _ _ _ _ Hrep Hx) as (h1 & mgr1 & m1 & E & Hrep1 & _); [done|].
  cbn [release_all mg_target] in *. rewrite E, bind_Ret. unfold s_unlock in Hrep1. rewrite HS in Hrep1.
  cbv zeta in Hrep1. rewrite (q_unlock_holder _ _ _ Hl Hnd) in Hrep1. destruct l as [|z l].
  - set (q' := q_grant [] (q_pending q)) in *. assert (p ∈ q_running q') as Hpq.
    { unfold q'. rewrite Hp. apply q_grant_first. }
    assert (q_empty q' = false) as He.
    { apply andb_false_iff. right. apply bool_decide_eq_false. intros E0. rewrite E0 in Hpq.
      by apply not_elem_of_nil in Hpq. }
    rewrite He in Hrep1. destruct (mr_queue _ _ _ _ Hrep1 t q') as (c1 & _ & Hr1 & _); [apply lookup_insert_eq|].
    pose proof (rep_running_heap _ _ _ _ _ Hr1) as Hh. rewrite Forall_forall in Hh.
    exists h1, mgr1. split; [done|]. eexists. by split; [apply Hh|].
  - unfold q_empty in Hrep1. cbn [q_pending q_running] in Hrep1. rewrite Hp in Hrep1.
    eapply IH; [exact Hrep1|apply lookup_insert_eq|done|]. symmetry. by apply q_drop_perm.
Qed.

End Drain.

(** C30: no waiting request is forgotten: in every reachable state the first waiting request of a
    target is granted once the current holders have unlocked, in whatever order they do. *)
Theorem mgl_head_granted {BM : BuildMode} (hash : bytes -> Z) h mgr t c x rest l :
  reachable hash h mgr -> mgr_at hash mgr t = Some c -> cx_pendingList c = x :: rest ->
  l ≡ₚ cx_runningList c ->
  exists h' mgr', release_all l h mgr = Ret (h', mgr') /\ MGLock_result h' x = Ret LOCKRES_OK.
Proof.
  intros Hr Hc Hp Hl. destruct (reachable_rep _ _ _ Hr) as [S Hrep].
  destruct (S !! t) as [q|] eqn:HS; [|by rewrite (mr_absent _ _ _ _ Hrep _ HS) in Hc].
  destruct (mr_queue _ _ _ _ Hrep _ _ HS) as (c' & Ec & Hcr & _). rewrite Ec in Hc. injection Hc as ->.
  rewrite (rep_running _ _ _ _ _ Hcr) in Hl. rewrite (rep_pending _ _ _ _ _ Hcr) in Hp.
  destruct (q_pending q) as [|p ps] eqn:Eq; [done|]. injection Hp as <- _.
  destruct (release_all_grants _ _ _ _ _ _ _ _ _ Hrep HS Eq Hl) as (h' & mgr' & E & o & Ho & Hres & _).
  exists h', mgr'. split; [done|]. unfold MGLock_result. rewrite (deref_obj _ _ _ Ho), bind_Ret.
  by rewrite bool_decide_eq_true_2.
Qed.

Lemma mgl_head_granted_witness :
  exists h' mgr', @release_all true [2; 1] demo_state.1 demo_state.2 = Ret (h', mgr') /\
    MGLock_result h' 3 = Ret LOCKRES_OK.
Proof.
  eapply (@mgl_head_granted true (fun _ => 7) demo_state.1 demo_state.2 (lit "t") _ 3 [] [2; 1] demo_reachable);
    [vm_compute; reflexivity|reflexivity|apply Permutation_swap].
Defined.

(** The conflict table is the documented one: a request conflicts with the holders exactly
    when its mode conflicts with the mode of one of them, and the table is symmetric. *)
Theorem isConflict_holders (cnt : list Z) (modes : Z) (ms : list LockMode) (m : LockMode) :
  refs cnt modes ms -> m <> LOCK_MODE_NUM ->
  exists b, isConflict modes m = Ret b /\
    (b = true <-> exists m', m' ∈ ms /\ conflicts m m' = true /\ conflicts m' m = true).
Proof.
  intros Hr Hm. rewrite (isConflict_refs _ _ _ _ Hr Hm). eexists. split; [done|].
  rewrite existsb_exists. setoid_rewrite (conflicts_sym _ m). setoid_rewrite list_elem_of_In.
  split; intros (m' & ? & ?); exists m'; tauto.
Qed.

Lemma isConflict_holders_witness :
  exists b, isConflict 2 LOCK_X = Ret b /\
    (b = true <-> exists m', m' ∈ [LOCK_IS] /\ conflicts LOCK_X m' = true /\ conflicts m' LOCK_X = true).
Proof. by apply (isConflict_holders [0; 1; 0; 0; 0] 2 [LOCK_IS] LOCK_X). Defined.
