(* ===== verification/BinlogSeq.v ===== *)
(** Transaction and binlog ids of a store (storage/rocks/rocks_kvstore.cpp): how ids are given
    out, how the ends of concurrent transactions move the mark up to which readers see the
    binlog, and what a reader below the mark can rely on. *)

From Stdlib Require Import Strings.Byte ZArith Lia.
From stdpp Require Import base list numbers strings gmap relations sorting.
From S2P Require Import Prelude Status ReplLog.

Local Open Scope Z_scope.

(** * Ordered maps *)

(** A [std::map] with integer keys is the list of its bindings in the order of the keys. *)
Abbreviation omap_t A := (list (Z * A)).

Fixpoint om_find {A} (m : omap_t A) (k : Z) : option A :=
  match m with
  | [] => None
  | (k', v) :: m' => if k =? k' then Some v else om_find m' k
  end.

(** [insert] keeps a binding that is already there. *)
Fixpoint om_insert {A} (m : omap_t A) (k : Z) (v : A) : omap_t A :=
  match m with
  | [] => [(k, v)]
  | (k', v') :: m' =>
      if k <? k' then (k, v) :: m
      else if k =? k' then m
      else (k', v') :: om_insert m' k v
  end.

(** An assignment through the iterator at [k]. *)
Fixpoint om_assign {A} (m : omap_t A) (k : Z) (v : A) : omap_t A :=
  match m with
  | [] => []
  | (k', v') :: m' => if k =? k' then (k', v) :: m' else (k', v') :: om_assign m' k v
  end.

(** * The store's counters *)

Inductive StoreMode : Set := READ_WRITE | REPLICATE_ONLY | STORE_NONE.

#[export] Instance StoreMode_eq_dec : EqDecision StoreMode.
Proof. solve_decision. Defined.

Record RocksKVStore : Set := mkStore {
  ks_isRunning : bool;
  ks_mode : StoreMode;
  ks_nextTxnSeq : Z;
  ks_nextBinlogSeq : Z;
  ks_highestVisible : Z;
  ks_aliveTxns : gmap Z (bool * Z);
  ks_aliveBinlogs : omap_t (bool * Z)
}.

Definition MIN_VALID_TXNID : Z := 1.

(** What [restart] sets, [last] being the id of the last log of the binlog column family. *)
Definition RocksKVStore_restart (mode : StoreMode) (last : option Z) (nextBinlogSeq : Z) : RocksKVStore :=
  match last with
  | Some binlogId =>
      let maxCommitId := binlogId in
      let next := u64 (maxCommitId + 1) in
      mkStore true mode next next maxCommitId ∅ []
  | None => mkStore true mode nextBinlogSeq nextBinlogSeq (u64 (nextBinlogSeq - 1)) ∅ []
  end.

Section RocksKVStore.
Context {BM : BuildMode}.

Definition pinning_txns {A} : M A :=
  Throw ERR_INTERNAL (lit "it's upperlayer's duty to guarantee no pinning txns alive").

Definition RocksKVStore_stop (ks : RocksKVStore) : M RocksKVStore :=
  if negb (size (ks_aliveTxns ks) =? 0)%nat then pinning_txns else
  Ret (mkStore false (ks_mode ks) (ks_nextTxnSeq ks) (ks_nextBinlogSeq ks) (ks_highestVisible ks)
         (ks_aliveTxns ks) (ks_aliveBinlogs ks)).

Definition RocksKVStore_setMode (ks : RocksKVStore) (mode : StoreMode) : M RocksKVStore :=
  if negb (size (ks_aliveTxns ks) =? 0)%nat then pinning_txns else
  if bool_decide (ks_mode ks = mode) then Ret ks else
  seq ←
    (match mode with
     | READ_WRITE =>
         _ ← INVARIANT_D (bool_decide (ks_mode ks = REPLICATE_ONLY));
         Ret (if ks_nextTxnSeq ks <=? ks_highestVisible ks then u64 (ks_highestVisible ks + 1)
              else ks_nextTxnSeq ks)
     | _ =>
         _ ← INVARIANT_D (bool_decide (ks_mode ks = READ_WRITE));
         Ret (ks_nextTxnSeq ks)
     end);
  Ret (mkStore (ks_isRunning ks) mode seq (ks_nextBinlogSeq ks) (ks_highestVisible ks)
         (ks_aliveTxns ks) (ks_aliveBinlogs ks)).

Definition RocksKVStore_addUnCommitedTxnInLock (ks : RocksKVStore) (txnId : Z) : M RocksKVStore :=
  match ks_aliveTxns ks !! txnId with
  | Some _ => Crash CFatal
  | None =>
      Ret (mkStore (ks_isRunning ks) (ks_mode ks) (ks_nextTxnSeq ks) (ks_nextBinlogSeq ks)
             (ks_highestVisible ks) (<[txnId := (false, TXNID_UNINITED)]> (ks_aliveTxns ks))
             (ks_aliveBinlogs ks))
  end.

(** [sess] is whether the session of the transaction is one that only replicates, when there is
    a session. The result is the new transaction's id and whether it only replicates. *)
Definition RocksKVStore_createTransaction (ks : RocksKVStore) (sess : option bool)
  : M (RocksKVStore * Z * bool) :=
  if negb (ks_isRunning ks) then Throw ERR_INTERNAL (lit "db stopped!") else
  let txnId := ks_nextTxnSeq ks in
  let ks := mkStore (ks_isRunning ks) (ks_mode ks) (u64 (txnId + 1)) (ks_nextBinlogSeq ks)
              (ks_highestVisible ks) (ks_aliveTxns ks) (ks_aliveBinlogs ks) in
  let replOnly := match sess with
                  | Some r => r
                  | None => bool_decide (ks_mode ks = REPLICATE_ONLY)
                  end in
  ks ← RocksKVStore_addUnCommitedTxnInLock ks txnId;
  Ret (ks, txnId, replOnly).

(** [RocksTxn::setBinlogId]. *)
Definition RocksTxn_setBinlogId (old binlogId : Z) : M Z :=
  _ ← INVARIANT_D (old =? TXNID_UNINITED);
  Ret binlogId.

(** Registers [binlogId] for the transaction, what [assignBinlogIdIfNeeded] and
    [setNextBinlogSeq] end with. *)
Definition add_alive_binlog (ks : RocksKVStore) (next binlogId txnId : Z) : M RocksKVStore :=
  _ ← INVARIANT_D (bool_decide (om_find (ks_aliveBinlogs ks) binlogId = None));
  let binlogs := om_insert (ks_aliveBinlogs ks) binlogId (false, txnId) in
  let it := ks_aliveTxns ks !! txnId in
  _ ← INVARIANT_D (match it with Some (done, _) => negb done | None => false end);
  match it with
  | None => Crash CUndefined
  | Some (done, _) =>
      Ret (mkStore (ks_isRunning ks) (ks_mode ks) (ks_nextTxnSeq ks) next (ks_highestVisible ks)
             (<[txnId := (done, binlogId)]> (ks_aliveTxns ks)) binlogs)
  end.

(** [cur] is the transaction's binlog id; the result has its new one. *)
Definition RocksKVStore_assignBinlogIdIfNeeded (ks : RocksKVStore) (txnId cur : Z)
  : M (RocksKVStore * Z) :=
  if cur =? TXNID_UNINITED then
    let binlogId := ks_nextBinlogSeq ks in
    id ← RocksTxn_setBinlogId cur binlogId;
    ks ← add_alive_binlog ks (u64 (binlogId + 1)) binlogId txnId;
    Ret (ks, id)
  else Ret (ks, cur).

Definition RocksKVStore_setNextBinlogSeq (ks : RocksKVStore) (binlogId txnId cur : Z) (replOnly : bool)
  : M (RocksKVStore * Z) :=
  _ ← INVARIANT_D replOnly;
  id ← RocksTxn_setBinlogId cur binlogId;
  ks ← add_alive_binlog ks (u64 (binlogId + 1)) binlogId txnId;
  Ret (ks, id).

(** The loop over the first binlogs that are done. *)
Fixpoint pop_done (next : Z) (m : omap_t (bool * Z)) (visible : Z) : M (omap_t (bool * Z) * Z) :=
  match m with
  | [] => Ret ([], visible)
  | (id, (done, txn)) :: m' =>
      if negb done then Ret (m, visible)
      else if negb (txn =? TXNID_UNINITED) then
        _ ← INVARIANT_D (id <=? next);
        pop_done next m' id
      else pop_done next m' visible
  end.

Definition om_begin {A} (m : omap_t A) : option Z :=
  match m with [] => None | (k, _) :: _ => Some k end.

Definition RocksKVStore_markCommittedInLock (ks : RocksKVStore) (txnId binlogTxnId : Z)
  : M RocksKVStore :=
  if negb (ks_isRunning ks) then Crash CFatal else
  let it := ks_aliveTxns ks !! txnId in
  _ ← INVARIANT_D (bool_decide (is_Some it));
  match it with
  | None => Crash CUndefined
  | Some (done, binlogId) =>
      _ ← INVARIANT_D (negb done);
      let txns := delete txnId (ks_aliveTxns ks) in
      if negb (binlogId =? TXNID_UNINITED) then
        let i := om_find (ks_aliveBinlogs ks) binlogId in
        _ ← INVARIANT_D (bool_decide (is_Some i));
        match i with
        | None => Crash CUndefined
        | Some (_, t) =>
            _ ← INVARIANT_D ((t =? txnId) || (t =? TXNID_UNINITED));
            let binlogs := om_assign (ks_aliveBinlogs ks) binlogId (true, binlogTxnId) in
            '(binlogs, visible) ←
              (if bool_decide (om_begin binlogs = Some binlogId)
               then pop_done (ks_nextBinlogSeq ks) binlogs (ks_highestVisible ks)
               else Ret (binlogs, ks_highestVisible ks));
            Ret (mkStore (ks_isRunning ks) (ks_mode ks) (ks_nextTxnSeq ks) (ks_nextBinlogSeq ks)
                   visible txns binlogs)
        end
      else Ret (mkStore (ks_isRunning ks) (ks_mode ks) (ks_nextTxnSeq ks) (ks_nextBinlogSeq ks)
                  (ks_highestVisible ks) txns (ks_aliveBinlogs ks))
  end.

(** The public form takes the lock around it. *)
Definition RocksKVStore_markCommitted (ks : RocksKVStore) (txnId binlogTxnId : Z) : M RocksKVStore :=
  RocksKVStore_markCommittedInLock ks txnId binlogTxnId.

Definition RocksKVStore_getHighestBinlogId (ks : RocksKVStore) : Z := ks_highestVisible ks.
Definition RocksKVStore_getNextBinlogSeq (ks : RocksKVStore) : Z := ks_nextBinlogSeq ks.

Definition RocksKVStore_getUncommittedTxns (ks : RocksKVStore) : gset Z :=
  dom (filter (fun p => p.2.1 = false) (ks_aliveTxns ks)).

End RocksKVStore.

(** * Lemmas on ordered maps *)

Section OrderedMap.
Context {A : Type}.
Implicit Types (m : omap_t A) (k : Z) (v : A).

Definition om_sorted m : Prop := StronglySorted Z.lt m.*1.

Lemma om_sorted_app m1 k v m2 :
  om_sorted (m1 ++ (k, v) :: m2) ->
  Forall (fun p => p.1 < k) m1 /\ Forall (fun p => k < p.1) m2 /\ om_sorted m1 /\ om_sorted m2.
Proof.
  unfold om_sorted. rewrite fmap_app, fmap_cons. cbn [fst]. intros H.
  apply StronglySorted_app in H as (Hlt & H1 & H2). apply StronglySorted_inv in H2 as [H2 Hk].
  split_and!; try done.
  - apply Forall_forall. intros p Hp. apply Hlt; [by apply list_elem_of_fmap_2|constructor].
  - rewrite Forall_fmap in Hk. exact Hk.
Qed.

Lemma om_find_app m1 k v m2 : Forall (fun p => p.1 < k) m1 -> om_find (m1 ++ (k, v) :: m2) k = Some v.
Proof.
  induction 1 as [|[k' v'] m Hlt _ IH]; cbn; [by rewrite Z.eqb_refl|].
  cbn in Hlt. by rewrite (proj2 (Z.eqb_neq k k')) by lia.
Qed.

Lemma om_find_above m k : Forall (fun p => p.1 < k) m -> om_find m k = None.
Proof.
  induction 1 as [|[k' v'] m Hlt _ IH]; cbn; [done|].
  cbn in Hlt. by rewrite (proj2 (Z.eqb_neq k k')) by lia.
Qed.

Lemma om_insert_above m k v : Forall (fun p => p.1 < k) m -> om_insert m k v = m ++ [(k, v)].
Proof.
  induction 1 as [|[k' v'] m Hlt _ IH]; cbn; [done|]. cbn in Hlt.
  rewrite (proj2 (Z.ltb_ge k k')), (proj2 (Z.eqb_neq k k')) by lia. by rewrite IH.
Qed.

Lemma om_assign_app m1 k v v' m2 :
  Forall (fun p => p.1 < k) m1 -> om_assign (m1 ++ (k, v) :: m2) k v' = m1 ++ (k, v') :: m2.
Proof.
  induction 1 as [|[k' w] m Hlt _ IH]; cbn; [by rewrite Z.eqb_refl|].
  cbn in Hlt. rewrite (proj2 (Z.eqb_neq k k')) by lia. by rewrite IH.
Qed.

Lemma om_sorted_snoc m k v : om_sorted m -> Forall (fun p => p.1 < k) m -> om_sorted (m ++ [(k, v)]).
Proof.
  unfold om_sorted. intros Hs Hk. rewrite fmap_app. apply StronglySorted_app. split_and!; [|done|].
  - intros x y Hx Hy. apply list_elem_of_singleton in Hy as ->.
    apply list_elem_of_fmap in Hx as (p & -> & Hp). rewrite Forall_forall in Hk. by apply Hk.
  - by repeat constructor.
Qed.

End OrderedMap.

Lemma pop_done_spec {BM : BuildMode} next (m : omap_t (bool * Z)) : forall v,
  Forall (fun p => p.1 < next) m ->
  exists popped m' v', pop_done next m v = Ret (m', v') /\ m = popped ++ m' /\
    Forall (fun p => p.2.1 = true) popped /\
    (forall id d t, head m' = Some (id, (d, t)) -> d = false) /\
    ((v' = v /\ Forall (fun p => p.2.2 = 0) popped) \/
     (exists p1 t p2, popped = p1 ++ (v', (true, t)) :: p2 /\ t <> 0 /\ Forall (fun p => p.2.2 = 0) p2)).
Proof.
  induction m as [|[id [d t]] m IH]; intros v Hn; cbn [pop_done].
  { exists [], [], v. split_and!; try done. by left. }
  apply Forall_cons in Hn as [Hid Hn]. cbn in Hid. destruct d; cbn [negb].
  2: { exists [], ((id, (false, t)) :: m), v. split_and!; try done; [by intros ??? [= _ <- _]|by left]. }
  destruct (Z.eqb_spec t TXNID_UNINITED) as [Ht|Ht]; cbn [negb].
  - destruct (IH v Hn) as (pp & m' & v' & E & -> & Hp & Hh & Hv). exists ((id, (true, t)) :: pp), m', v'.
    split_and!; [done|done|by constructor|done|]. destruct Hv as [[-> Hz]|(p1 & t' & p2 & -> & Hv)].
    + left. split; [done|]. by constructor.
    + right. by exists ((id, (true, t)) :: p1), t', p2.
  - inv_d by lia. destruct (IH id Hn) as (pp & m' & v' & E & -> & Hp & Hh & Hv).
    exists ((id, (true, t)) :: pp), m', v'. split_and!; [done|done|by constructor|done|]. right.
    destruct Hv as [[-> Hz]|(p1 & t' & p2 & -> & Hv)]; [by exists [], t, pp|by exists ((id, (true, t)) :: p1), t', p2].
Qed.

(** * Interleavings of transactions *)

(** The store, the transactions that have not ended with their binlog ids, and the ids of the
    logs that the binlog column family holds. *)
Record sys : Set := mkSys {
  sy_store : RocksKVStore;
  sy_live : gmap Z Z;
  sy_durable : gset Z
}.

Section Steps.
Context {BM : BuildMode}.

(** What concurrent transactions do, each call under the store's mutex: begin, take a binlog id,
    write the log to the column family, end after that or without it, change the mode. On a
    replica the id comes with the log of the master: the steps are those in which it is not below the
    next id, which [setNextBinlogSeq] does not check (the sender sends its logs in order). The counters
    stay below the largest 64-bit number. *)
Inductive sys_step : sys -> sys -> Prop :=
  | ss_begin ks live dur sess ks' t r :
      RocksKVStore_createTransaction ks sess = Ret (ks', t, r) -> ks_nextTxnSeq ks < 2 ^ 64 - 1 ->
      sys_step (mkSys ks live dur) (mkSys ks' (<[t := TXNID_UNINITED]> live) dur)
  | ss_assign ks live dur t b ks' b' :
      live !! t = Some b -> ks_nextBinlogSeq ks < 2 ^ 64 - 1 ->
      RocksKVStore_assignBinlogIdIfNeeded ks t b = Ret (ks', b') ->
      sys_step (mkSys ks live dur) (mkSys ks' (<[t := b']> live) dur)
  | ss_setnext ks live dur t id ks' b' :
      live !! t = Some TXNID_UNINITED -> ks_nextBinlogSeq ks <= id < 2 ^ 64 - 1 ->
      RocksKVStore_setNextBinlogSeq ks id t TXNID_UNINITED true = Ret (ks', b') ->
      sys_step (mkSys ks live dur) (mkSys ks' (<[t := b']> live) dur)
  | ss_write ks live dur t b :
      live !! t = Some b -> b <> TXNID_UNINITED ->
      sys_step (mkSys ks live dur) (mkSys ks live ({[b]} ∪ dur))
  | ss_commit ks live dur t b ks' :
      live !! t = Some b -> (b = TXNID_UNINITED \/ b ∈ dur) ->
      RocksKVStore_markCommitted ks t (if b =? TXNID_UNINITED then TXNID_UNINITED else t) = Ret ks' ->
      sys_step (mkSys ks live dur) (mkSys ks' (delete t live) dur)
  | ss_abort ks live dur t b ks' :
      live !! t = Some b -> b ∉ dur ->
      RocksKVStore_markCommitted ks t TXNID_UNINITED = Ret ks' ->
      sys_step (mkSys ks live dur) (mkSys ks' (delete t live) dur)
  | ss_mode ks live dur mode ks' :
      RocksKVStore_setMode ks mode = Ret ks' -> ks_highestVisible ks < 2 ^ 64 - 1 ->
      sys_step (mkSys ks live dur) (mkSys ks' live dur).

(** ** Truncation *)

Fixpoint list_min (l : list Z) : option Z :=
  match l with
  | [] => None
  | x :: l' => Some (match list_min l' with Some y => Z.min x y | None => x end)
  end.

(** [createRepllogCursorV2(from)->next()]: the first log from an id on, up to the mark. *)
Definition first_log (dur : gset Z) (hv from : Z) : option Z :=
  list_min (filter (fun b => from <= b <= hv) (elements dur)).

(** The loop of [truncateBinlogV2] that looks for the first log to keep: a log of every [num] is looked
    at, until one is after [newEnd] or is not older than [keepMs] at [curTs]. *)
Fixpoint truncate_loop (fuel : nat) (first : Z -> option Z) (ts : Z -> Z) (num newEnd keepMs curTs nextTry newStart : Z) : Z :=
  match fuel with
  | O => newStart
  | S fuel' =>
      let nextTry := u64 (nextTry + num) in
      if newEnd <? u64 (nextTry - 1) then newStart else
      match first (u64 (nextTry - 1)) with
      | None => newStart
      | Some id =>
          if (newEnd <? id) || (negb (keepMs =? 0) && (u64 (curTs - keepMs) <=? ts id)) then newStart
          else truncate_loop fuel' first ts num newEnd keepMs curTs nextTry nextTry
      end
  end.

(** What [truncateBinlogV2] keeps the logs from; a round moves by [num], which is not 0. *)
Definition RocksKVStore_truncateBinlogV2 (ks : RocksKVStore) (dur : gset Z) (ts : Z -> Z) (num keepMs curTs start newEnd : Z) : Z :=
  truncate_loop (S (Z.to_nat (newEnd - start))) (first_log dur (RocksKVStore_getHighestBinlogId ks)) ts num newEnd keepMs curTs start start.

(** A truncation that keeps the logs from [cut] on: [deleteFilesInRange] deletes the files that only
    hold older logs, so that some of these may stay. [newEnd] is the end that was asked for or, when
    logs are dumped first, the last log that was. *)
Inductive sys_truncate (cut : Z) : sys -> sys -> Prop :=
  | st_delete ks live dur ts num keepMs curTs start newEnd gone :
      0 < num -> RocksKVStore_truncateBinlogV2 ks dur ts num keepMs curTs start newEnd = cut -> cut <> start ->
      gone ⊆ dur -> (forall b, b ∈ gone -> b < cut) ->
      sys_truncate cut (mkSys ks live dur) (mkSys ks live (dur ∖ gone)).

(** A run of transactions and truncations; [cut] is the first log that all of its truncations keep. *)
Inductive sys_run : Z -> sys -> sys -> Prop :=
  | run_refl s : sys_run 0 s s
  | run_step cut s1 s2 s3 : sys_step s1 s2 -> sys_run cut s2 s3 -> sys_run cut s1 s3
  | run_truncate cut cut' s1 s2 s3 : sys_truncate cut' s1 s2 -> sys_run cut s2 s3 -> sys_run (Z.max cut' cut) s1 s3.

(** A store that has just been opened, with the logs it holds. *)
Definition sys_start (mode : StoreMode) (last : option Z) (nextBinlogSeq : Z) (dur : gset Z) : sys :=
  mkSys (RocksKVStore_restart mode last nextBinlogSeq) ∅ dur.

(** The logs on disk end with [last]; without any, ids start at [nextBinlogSeq]. *)
Definition start_ok (last : option Z) (nextBinlogSeq : Z) (dur : gset Z) : Prop :=
  MIN_VALID_TXNID <= nextBinlogSeq < 2 ^ 64 /\
  match last with
  | Some id => MIN_VALID_TXNID <= id < 2 ^ 64 - 1 /\ id ∈ dur /\ forall b, b ∈ dur -> MIN_VALID_TXNID <= b <= id
  | None => dur = ∅
  end.

Definition sys_reachable (s : sys) : Prop :=
  exists mode last next dur cut, start_ok last next dur /\ sys_run cut (sys_start mode last next dur) s.

(** The invariant of the alive binlogs: they lie between the mark and the next id, the ones that
    are not done are those of the live transactions, the done ones carry a transaction exactly
    when their log was written, and every log above the mark is among them. *)
Record binlogs_ok (live : gmap Z Z) (dur : gset Z) (next hv : Z) (m : omap_t (bool * Z)) : Prop := mkBinlogs {
  bo_sorted : om_sorted m;
  bo_bounds : forall k v, (k, v) ∈ m -> hv < k < next;
  bo_pending : forall k t, (k, (false, t)) ∈ m <-> live !! t = Some k /\ k <> 0;
  bo_done : forall k t, (k, (true, t)) ∈ m -> t <> 0 <-> k ∈ dur;
  bo_durable : forall b, b ∈ dur -> b <= hv \/ exists v, (b, v) ∈ m
}.

Record sys_inv (s : sys) : Prop := mkInv {
  si_running : ks_isRunning (sy_store s) = true;
  si_txns : forall t, ks_aliveTxns (sy_store s) !! t = pair false <$> sy_live s !! t;
  si_ids : forall t b, sy_live s !! t = Some b -> 0 < t < ks_nextTxnSeq (sy_store s);
  si_seq : 0 < ks_nextTxnSeq (sy_store s) < 2 ^ 64;
  si_binlogs : binlogs_ok (sy_live s) (sy_durable s) (ks_nextBinlogSeq (sy_store s))
    (ks_highestVisible (sy_store s)) (ks_aliveBinlogs (sy_store s));
  si_head : forall k d t, head (ks_aliveBinlogs (sy_store s)) = Some (k, (d, t)) -> d = false;
  si_visible : 0 <= ks_highestVisible (sy_store s) < ks_nextBinlogSeq (sy_store s);
  si_next : ks_nextBinlogSeq (sy_store s) < 2 ^ 64;
  si_nonzero : 0 ∉ sy_durable s
}.

Lemma sys_inv_empty mode ts nb hv dur :
  0 < ts < 2 ^ 64 -> 0 <= hv < nb -> nb < 2 ^ 64 -> (forall b, b ∈ dur -> 0 < b <= hv) ->
  sys_inv (mkSys (mkStore true mode ts nb hv ∅ []) ∅ dur).
Proof.
  intros Hts Hhv Hnb Hd. constructor; cbn [sy_store sy_live sy_durable ks_isRunning ks_aliveTxns
    ks_nextTxnSeq ks_nextBinlogSeq ks_highestVisible ks_aliveBinlogs]; try done.
  - constructor.
    + constructor.
    + by intros k v ?%elem_of_nil.
    + intros k t. rewrite lookup_empty. split; [by intros ?%elem_of_nil|by intros [? _]].
    + by intros k t ?%elem_of_nil.
    + intros b Hb%Hd. left. lia.
  - intros H%Hd. lia.
Qed.

Lemma sys_inv_start mode last next dur :
  start_ok last next dur -> sys_inv (sys_start mode last next dur).
Proof.
  unfold start_ok, MIN_VALID_TXNID. intros [Hn Hl]. destruct last as [id|]; unfold sys_start, RocksKVStore_restart.
  - destruct Hl as (Hid & Hin & Hle). rewrite wrap_id by (unfold is_u; lia).
    apply sys_inv_empty; try lia. intros b Hb%Hle. lia.
  - subst dur. rewrite wrap_id by (unfold is_u; lia). by apply sys_inv_empty; try lia.
Qed.

Lemma om_sorted_popped (p1 : omap_t (bool * Z)) k v p2 m' q :
  om_sorted ((p1 ++ (k, v) :: p2) ++ m') -> q ∈ m' -> k < q.1.
Proof.
  rewrite <-app_assoc. cbn [app]. intros (_ & H & _)%om_sorted_app Hq. rewrite Forall_forall in H.
  apply H, elem_of_app. by right.
Qed.

(** Taking the done binlogs off the front moves the mark to the last written log. *)
Lemma pop_done_ok live dur next hv m :
  binlogs_ok live dur next hv m -> hv < next ->
  exists m' hv', pop_done next m hv = Ret (m', hv') /\ binlogs_ok live dur next hv' m' /\
    (forall k d t, head m' = Some (k, (d, t)) -> d = false) /\ hv <= hv' < next.
Proof.
  intros [Hs Hb Hp Hd Hdur] Hhv.
  destruct (pop_done_spec next m hv) as (pp & m' & hv' & E & -> & Htrue & Hh & Hv).
  { apply Forall_forall. intros [k v] Hk. cbn. apply (Hb _ _ Hk). }
  rewrite Forall_forall in Htrue.
  assert (hv <= hv' < next /\ (forall q, q ∈ m' -> hv' < q.1) /\
          (forall k t, (k, (true, t)) ∈ pp -> t <> 0 -> k <= hv')) as (Hle & Hlt & Hbelow).
  { destruct Hv as [[-> Hz]|(p1 & t & p2 & -> & Ht & Hz)]; rewrite Forall_forall in Hz; split_and!; try done; try lia.
    - intros [k v] Hq. cbn. apply (Hb k v), elem_of_app. by right.
    - intros k t Hk. by specialize (Hz _ Hk).
    - assert (hv < hv' < next); [|lia]. apply (Hb _ (true, t)). by rewrite !elem_of_app, elem_of_cons; auto.
    - assert (hv < hv' < next); [|lia]. apply (Hb _ (true, t)). by rewrite !elem_of_app, elem_of_cons; auto.
    - intros q. by apply om_sorted_popped with (v := (true, t)) (p1 := p1) (p2 := p2).
    - intros k t' [Hk|[[= -> _]|Hk]%elem_of_cons]%elem_of_app Ht'; [|lia|by specialize (Hz _ Hk)].
      rewrite <-app_assoc in Hs. apply om_sorted_app in Hs as [Hs _]. rewrite Forall_forall in Hs.
      specialize (Hs _ Hk). cbn in Hs. lia. }
  exists m', hv'. split_and!; try done; try lia. constructor.
  - unfold om_sorted in *. rewrite fmap_app in Hs. by eapply StronglySorted_app_1_r.
  - intros k v Hk. split; [by apply (Hlt _ Hk)|]. apply (Hb k v), elem_of_app. by right.
  - intros k t. rewrite <-Hp, elem_of_app. split; [by right|]. by intros [Hk%Htrue|].
  - intros k t Hk. apply Hd, elem_of_app. by right.
  - intros b Hb'. destruct (Hdur b Hb') as [|[[d t] [Hk|Hk]%elem_of_app]]; [left; lia| |right; by eexists].
    left. pose proof (Htrue _ Hk) as Hdt. cbn in Hdt. subst d. apply (Hbelow b t Hk), (Hd b t); [|done].
    apply elem_of_app. by left.
Qed.

(** ** Each call returns and keeps the invariant *)

Lemma create_ok ks live dur sess :
  sys_inv (mkSys ks live dur) -> ks_nextTxnSeq ks < 2 ^ 64 - 1 ->
  exists ks' r, RocksKVStore_createTransaction ks sess = Ret (ks', ks_nextTxnSeq ks, r) /\
    sys_inv (mkSys ks' (<[ks_nextTxnSeq ks := TXNID_UNINITED]> live) dur) /\
    ks_highestVisible ks' = ks_highestVisible ks.
Proof.
  intros [Hr Ht Hi Hq [Hs Hb Hp Hd Hdur] Hh Hv Hn H0] Hlt; cbn [sy_store sy_live sy_durable] in *.
  assert (live !! ks_nextTxnSeq ks = None) as Hfresh.
  { destruct (live !! _) as [b|] eqn:E; [|done]. apply Hi in E. lia. }
  unfold RocksKVStore_createTransaction, RocksKVStore_addUnCommitedTxnInLock. rewrite Hr.
  cbn [negb ks_aliveTxns]. rewrite Ht, Hfresh, wrap_id by (unfold is_u; lia). cbn [fmap option_fmap option_map].
  rewrite bind_Ret. eexists _, _. split_and!; [done| |done].
  constructor; cbn [sy_store sy_live sy_durable ks_isRunning ks_aliveTxns ks_nextTxnSeq ks_nextBinlogSeq
    ks_highestVisible ks_aliveBinlogs]; try done; try lia.
  - intros t. destruct (decide (t = ks_nextTxnSeq ks)) as [->|]; [by rewrite !lookup_insert_eq|].
    by rewrite !lookup_insert_ne.
  - intros t b. destruct (decide (t = ks_nextTxnSeq ks)) as [->|]; [lia|].
    rewrite lookup_insert_ne by done. intros E%Hi. lia.
  - constructor; try done. intros k t. rewrite Hp.
    destruct (decide (t = ks_nextTxnSeq ks)) as [->|]; [|by rewrite lookup_insert_ne].
    rewrite Hfresh, lookup_insert_eq. split; [by intros [? _]|]. by intros [[= <-] ?].
Qed.

Lemma add_alive_ok ks live dur t id :
  sys_inv (mkSys ks live dur) -> live !! t = Some TXNID_UNINITED -> ks_nextBinlogSeq ks <= id < 2 ^ 64 - 1 ->
  exists ks', add_alive_binlog ks (u64 (id + 1)) id t = Ret ks' /\
    sys_inv (mkSys ks' (<[t := id]> live) dur) /\ ks_highestVisible ks' = ks_highestVisible ks.
Proof.
  intros [Hr Ht Hi Hq [Hs Hb Hp Hd Hdur] Hh Hv Hn H0] Hlive Hid; cbn [sy_store sy_live sy_durable] in *.
  assert (Forall (fun p => p.1 < id) (ks_aliveBinlogs ks)) as Hall.
  { apply Forall_forall. intros [k v] Hk%Hb. cbn. lia. }
  unfold add_alive_binlog. rewrite om_find_above, om_insert_above by done. inv_d by done.
  rewrite Ht, Hlive, wrap_id by (unfold is_u; lia). cbn [fmap option_fmap option_map]. inv_d by done.
  eexists. split_and!; [done| |done].
  constructor; cbn [sy_store sy_live sy_durable ks_isRunning ks_aliveTxns ks_nextTxnSeq ks_nextBinlogSeq
    ks_highestVisible ks_aliveBinlogs]; try done; try lia.
  - intros t'. destruct (decide (t' = t)) as [->|]; [by rewrite !lookup_insert_eq|].
    by rewrite !lookup_insert_ne.
  - intros t' b. destruct (decide (t' = t)) as [->|]; [intros _; by eapply Hi|].
    rewrite lookup_insert_ne by done. apply Hi.
  - constructor.
    + by apply om_sorted_snoc.
    + intros k v [Hk%Hb|[= -> _]%list_elem_of_singleton]%elem_of_app; lia.
    + intros k t'. rewrite elem_of_app, list_elem_of_singleton, Hp.
      destruct (decide (t' = t)) as [->|Hne].
      * rewrite lookup_insert_eq, Hlive. split; [intros [[[= <-] ?]|[= ->]]; [done|split; [done|lia]]|].
        intros [[= <-] _]. by right.
      * rewrite lookup_insert_ne by done. split; [by intros [?|[= _ ->]]|by left].
    + intros k t' [Hk|[=]%list_elem_of_singleton]%elem_of_app. by apply Hd.
    + intros b [|[v Hv']]%Hdur; [by left|right]. exists v. apply elem_of_app. by left.
  - intros k d t'. destruct (ks_aliveBinlogs ks); cbn; [by intros [= _ <- _]|apply Hh].
Qed.

Lemma om_sorted_unique {A} (m1 : omap_t A) k v m2 w :
  om_sorted (m1 ++ (k, v) :: m2) -> (k, w) ∈ m1 ++ (k, v) :: m2 -> w = v.
Proof.
  intros (H1 & H2 & _)%om_sorted_app [Hk|[[= ->]|Hk]%elem_of_cons]%elem_of_app; [|done|];
    rewrite Forall_forall in H1, H2; [apply H1 in Hk|apply H2 in Hk]; cbn in Hk; lia.
Qed.

(** A binlog marked as done, its transaction taken out. *)
Lemma mark_binlogs_ok live dur next hv m1 b t m2 bt :
  binlogs_ok live dur next hv (m1 ++ (b, (false, t)) :: m2) -> (bt <> 0 <-> b ∈ dur) ->
  binlogs_ok (delete t live) dur next hv (m1 ++ (b, (true, bt)) :: m2).
Proof.
  intros [Hs Hb Hp Hd Hdur] Hbt.
  assert (forall k w, k <> b -> (k, w) ∈ m1 ++ (b, (true, bt)) :: m2 <-> (k, w) ∈ m1 ++ (b, (false, t)) :: m2) as Hne.
  { intros k w Hk. rewrite !elem_of_app, !elem_of_cons. split; intros [|[[=]|]]; try tauto; congruence. }
  assert (om_sorted (m1 ++ (b, (true, bt)) :: m2)) as Hs'.
  { unfold om_sorted in *. by rewrite fmap_app, fmap_cons in *. }
  constructor; [done| | | |].
  - intros k v Hk. destruct (decide (k = b)) as [->|Hkb]; [|by apply (Hb k v), Hne].
    apply (Hb b (false, t)), elem_of_app. rewrite elem_of_cons. auto.
  - intros k t'. destruct (decide (k = b)) as [->|Hkb].
    + split; [by intros [=]%(om_sorted_unique _ _ _ _ _ Hs')|]. intros [[Hne' Hl]%lookup_delete_Some H0].
      assert ((b, (false, t')) ∈ m1 ++ (b, (false, t)) :: m2) as Hin by by apply Hp.
      apply (om_sorted_unique _ _ _ _ _ Hs) in Hin. by injection Hin as ->.
    + rewrite (Hne k _ Hkb), Hp. destruct (decide (t' = t)) as [->|]; [|by rewrite lookup_delete_ne].
      rewrite lookup_delete_eq. split; [intros [Hl _]|by intros [? _]].
      assert (live !! t = Some b /\ b <> 0) as [Hl' _]; [|congruence].
      apply Hp, elem_of_app. rewrite elem_of_cons. auto.
  - intros k t'. destruct (decide (k = b)) as [->|Hkb]; [|rewrite Hne by done; apply Hd].
    by intros [= ->]%(om_sorted_unique _ _ _ _ _ Hs').
  - intros c [|[v Hv]]%Hdur; [by left|right]. destruct (decide (c = b)) as [->|Hcb]; [|exists v; by apply Hne].
    exists (true, bt). apply elem_of_app. rewrite elem_of_cons. auto.
Qed.

Lemma delete_live_ok ks live dur t (P : sys_inv (mkSys ks live dur)) :
  (forall t', delete t (ks_aliveTxns ks) !! t' = pair false <$> delete t live !! t') /\
  (forall t' b, delete t live !! t' = Some b -> 0 < t' < ks_nextTxnSeq ks).
Proof.
  destruct P as [Hr Ht Hi _ _ _ _ _ _]; cbn [sy_store sy_live] in *. split.
  - intros t'. destruct (decide (t' = t)) as [->|]; [by rewrite !lookup_delete_eq|by rewrite !lookup_delete_ne].
  - intros t' b [_ E]%lookup_delete_Some. by eapply Hi.
Qed.

Lemma mark_ok ks live dur t b bt :
  sys_inv (mkSys ks live dur) -> live !! t = Some b -> (b <> 0 -> (bt <> 0 <-> b ∈ dur)) ->
  exists ks', RocksKVStore_markCommitted ks t bt = Ret ks' /\
    sys_inv (mkSys ks' (delete t live) dur) /\ ks_highestVisible ks <= ks_highestVisible ks'.
Proof.
  intros Hinv Hl Hbt. destruct (delete_live_ok _ _ _ t Hinv) as [Ht' Hi'].
  destruct Hinv as [Hr Ht Hi Hq Hbo Hh Hv Hn H0]; cbn [sy_store sy_live sy_durable] in *.
  unfold RocksKVStore_markCommitted, RocksKVStore_markCommittedInLock. rewrite Hr, (Ht t), Hl.
  cbn [negb fmap option_fmap option_map]. inv_d by by apply bool_decide_eq_true_2. inv_d by done.
  destruct (Z.eqb_spec b TXNID_UNINITED) as [->|Hb]; cbn [negb].
  { eexists. split_and!; [done| |cbn; lia]. constructor; try done. cbn [sy_store sy_live sy_durable ks_isRunning
      ks_aliveTxns ks_nextTxnSeq ks_nextBinlogSeq ks_highestVisible ks_aliveBinlogs].
    destruct Hbo as [Hs Hb Hp Hd Hdur]. constructor; try done. intros k t'. rewrite Hp.
    destruct (decide (t' = t)) as [->|]; [|by rewrite lookup_delete_ne].
    rewrite lookup_delete_eq, Hl. split; [by intros [[= <-] ?]|by intros [? _]]. }
  assert ((b, (false, t)) ∈ ks_aliveBinlogs ks) as (m1 & m2 & Em)%list_elem_of_split by by apply (bo_pending _ _ _ _ _ Hbo).
  pose proof (mark_binlogs_ok live dur _ _ m1 b t m2 bt ltac:(rewrite <-Em; exact Hbo) (Hbt Hb)) as Hbo'.
  pose proof (bo_sorted _ _ _ _ _ Hbo) as Hs. rewrite Em in Hs. apply om_sorted_app in Hs as (H1 & H2 & _).
  rewrite Em, om_find_app, om_assign_app by done. inv_d by by apply bool_decide_eq_true_2.
  inv_d by by rewrite Z.eqb_refl. case_bool_decide as Hhead.
  - destruct (pop_done_ok _ _ _ _ _ Hbo') as (m' & hv' & E & Hok & Hh' & Hle); [lia|].
    rewrite E, bind_Ret. eexists. split_and!; [done| |cbn; lia].
    constructor; cbn [sy_store sy_live sy_durable ks_isRunning ks_aliveTxns ks_nextTxnSeq ks_nextBinlogSeq
      ks_highestVisible ks_aliveBinlogs]; try done; lia.
  - rewrite bind_Ret. eexists. split_and!; [done| |cbn; lia]. constructor; try done.
    cbn [sy_store ks_aliveBinlogs]. rewrite Em in Hh. destruct m1 as [|p m1]; [|done].
    by destruct Hhead.
Qed.

Lemma setMode_ok ks live dur mode ks' :
  sys_inv (mkSys ks live dur) -> RocksKVStore_setMode ks mode = Ret ks' ->
  ks_highestVisible ks < 2 ^ 64 - 1 ->
  sys_inv (mkSys ks' live dur) /\ ks_highestVisible ks' = ks_highestVisible ks.
Proof.
  intros Hinv E Hlt. unfold RocksKVStore_setMode in E. destruct (negb _) eqn:Hsz; [done|].
  case_bool_decide; [by injection E as <-|].
  apply bind_Ret_inv in E as (seq & Es & [= <-]). split; [|done].
  destruct Hinv as [Hr Ht Hi Hq Hbo Hh Hv Hn H0]; cbn [sy_store sy_live sy_durable] in *.
  assert (ks_nextTxnSeq ks <= seq /\ 0 < seq < 2 ^ 64) as Hseq.
  { destruct mode; apply bind_Ret_inv in Es as ([] & _ & [= <-]); try lia.
    destruct (Z.leb_spec (ks_nextTxnSeq ks) (ks_highestVisible ks)); [|lia].
    rewrite wrap_id by (unfold is_u; lia). lia. }
  constructor; cbn [sy_store sy_live sy_durable ks_isRunning ks_aliveTxns ks_nextTxnSeq ks_nextBinlogSeq
    ks_highestVisible ks_aliveBinlogs]; try done; try lia.
  intros t b Hb%Hi. lia.
Qed.

Lemma write_ok ks live dur t b :
  sys_inv (mkSys ks live dur) -> live !! t = Some b -> b <> TXNID_UNINITED ->
  sys_inv (mkSys ks live ({[b]} ∪ dur)) /\ ks_highestVisible ks < b.
Proof.
  intros [Hr Ht Hi Hq Hbo Hh Hv Hn H0] Hl Hb; cbn [sy_store sy_live sy_durable] in *.
  assert ((b, (false, t)) ∈ ks_aliveBinlogs ks) as Hin by by apply (bo_pending _ _ _ _ _ Hbo).
  split; [|by apply (bo_bounds _ _ _ _ _ Hbo) in Hin as [? _]]. constructor; cbn [sy_store sy_live sy_durable]; try done.
  - destruct Hbo as [Hs Hbd Hp Hd Hdur]. constructor; try done.
    + intros k t' Hk. rewrite (Hd k t' Hk), elem_of_union, elem_of_singleton. split; [by right|].
      intros [->|]; [|done]. apply list_elem_of_split in Hin as (m1 & m2 & Em). rewrite Em in Hs, Hk.
      by apply (om_sorted_unique _ _ _ _ _ Hs) in Hk.
    + intros c [->%elem_of_singleton|Hc%Hdur]%elem_of_union; [right; by eexists|done].
  - intros [E%elem_of_singleton|]%elem_of_union; [by rewrite <-E in Hb|done].
Qed.

Lemma sys_step_ok s s' :
  sys_step s s' -> sys_inv s ->
  sys_inv s' /\ ks_highestVisible (sy_store s) <= ks_highestVisible (sy_store s') /\
  (forall b, b <= ks_highestVisible (sy_store s) -> b ∈ sy_durable s' <-> b ∈ sy_durable s).
Proof.
  intros [ks live dur sess ks' t r E Hlt|ks live dur t b ks' b' Hl Hlt E|ks live dur t id ks' b' Hl Hid E
    |ks live dur t b Hl Hb|ks live dur t b ks' Hl Hb E|ks live dur t b ks' Hl Hb E|ks live dur mode ks' E Hlt] Hinv;
    cbn [sy_store sy_live sy_durable].
  - destruct (create_ok _ _ _ sess Hinv Hlt) as (k1 & r1 & E1 & Hi & Hh). rewrite E1 in E. injection E as <- <- <-.
    split_and!; [done|lia|done].
  - unfold RocksKVStore_assignBinlogIdIfNeeded, RocksTxn_setBinlogId in E.
    destruct (Z.eqb_spec b TXNID_UNINITED) as [->|Hb].
    + rewrite (INVARIANT_D_bind _ _) in E by done.
      destruct (add_alive_ok _ _ _ t (ks_nextBinlogSeq ks) Hinv Hl) as (k1 & E1 & Hi & Hh); [lia|].
      rewrite bind_Ret, E1, bind_Ret in E. injection E as <- <-. split_and!; [done|lia|done].
    + injection E as <- <-. rewrite insert_id by done. split_and!; [done|lia|done].
  - unfold RocksKVStore_setNextBinlogSeq, RocksTxn_setBinlogId in E. rewrite !(INVARIANT_D_bind _ _) in E by done.
    destruct (add_alive_ok _ _ _ t id Hinv Hl) as (k1 & E1 & Hi & Hh); [lia|].
    rewrite bind_Ret, E1, bind_Ret in E. injection E as <- <-. split_and!; [done|lia|done].
  - destruct (write_ok _ _ _ _ _ Hinv Hl Hb) as [Hi Hlt]. split_and!; [done|lia|].
    intros c Hc. rewrite elem_of_union, elem_of_singleton. split; [intros [->|]; [lia|done]|by right].
  - destruct (mark_ok _ _ _ _ _ (if b =? TXNID_UNINITED then TXNID_UNINITED else t) Hinv Hl) as (k1 & E1 & Hi & Hh).
    { intros Hb0. rewrite (proj2 (Z.eqb_neq b TXNID_UNINITED)) by done. destruct Hb as [|Hb]; [done|].
      split; [done|]. intros _. apply (si_ids _ Hinv) in Hl. cbn in Hl. lia. }
    rewrite E1 in E. injection E as <-. done.
  - destruct (mark_ok _ _ _ _ _ TXNID_UNINITED Hinv Hl) as (k1 & E1 & Hi & Hh).
    { intros _. split; [by intros ?|by intros ?]. }
    rewrite E1 in E. injection E as <-. done.
  - destruct (setMode_ok _ _ _ _ _ Hinv E Hlt) as [Hi Hh]. split_and!; [done|lia|done].
Qed.

Lemma list_min_in l b : list_min l = Some b -> b ∈ l.
Proof.
  revert b. induction l as [|x l IH]; intros b; [done|]. cbn. intros [= <-]. rewrite elem_of_cons.
  destruct (list_min l) as [y|]; [|by left]. specialize (IH y eq_refl). destruct (Z.min_spec x y) as [[_ ->]|[_ ->]]; auto.
Qed.

(** Only logs that readers see are looked at, so nothing above the mark is deleted. *)
Lemma truncate_loop_cut dur hv ts num newEnd keepMs curTs fuel : forall nextTry newStart, 0 <= hv ->
  truncate_loop fuel (first_log dur hv) ts num newEnd keepMs curTs nextTry newStart <= hv + 1 \/
  truncate_loop fuel (first_log dur hv) ts num newEnd keepMs curTs nextTry newStart = newStart.
Proof.
  induction fuel as [|fuel IH]; intros nextTry newStart Hhv; cbn [truncate_loop]; [by right|].
  destruct (_ <? _); [by right|]. destruct (first_log dur hv _) as [id|] eqn:E; [|by right]. destruct (_ || _); [by right|].
  left. apply list_min_in in E. apply list_elem_of_filter in E as [Hid _].
  assert (u64 (nextTry + num) <= hv + 1) as Hle.
  { revert Hid. unfold wrap. pose proof (Z.mod_pos_bound (nextTry + num) (2 ^ 64) ltac:(lia)) as Hm.
    set (n := (nextTry + num) mod 2 ^ 64) in *. destruct (decide (n = 0)) as [->|Hn]; [lia|]. rewrite Z.mod_small by lia. lia. }
  destruct (IH (u64 (nextTry + num)) (u64 (nextTry + num)) Hhv) as [H| ->]; lia.
Qed.

(** The rounds of [RocksKVStore_truncateBinlogV2] are enough, as far as the ids do not wrap around. *)
Lemma truncate_loop_enough first ts num newEnd keepMs curTs f1 : forall f2 nextTry newStart,
  0 < num -> 0 <= nextTry <= newEnd + 1 -> newEnd + 1 + num < 2 ^ 64 ->
  (Z.to_nat (newEnd + 1 - nextTry) <= f1)%nat -> (f1 <= f2)%nat ->
  truncate_loop f1 first ts num newEnd keepMs curTs nextTry newStart =
  truncate_loop f2 first ts num newEnd keepMs curTs nextTry newStart.
Proof.
  induction f1 as [|f1 IH]; intros [|f2] nextTry newStart Hn Ht Hb H1 H2; cbn [truncate_loop]; try done; try lia;
    rewrite !wrap_id by (unfold is_u; rewrite ?wrap_id by (unfold is_u; lia); lia); destruct (Z.ltb_spec newEnd (nextTry + num - 1)); try done.
  - exfalso. lia.
  - destruct (first _) as [id|]; [|done]. destruct (_ || _); [done|]. apply IH; lia.
Qed.

Lemma sys_truncate_ok cut s s' :
  sys_truncate cut s s' -> sys_inv s ->
  sys_inv s' /\ cut <= ks_highestVisible (sy_store s) + 1 /\ sy_store s' = sy_store s /\
  (forall b, b ∈ sy_durable s' -> b ∈ sy_durable s) /\ (forall b, cut <= b -> b ∈ sy_durable s -> b ∈ sy_durable s').
Proof.
  intros [ks live dur ts num keepMs curTs start newEnd gone Hn Ec Hne Hsub Hgone] [Hr Ht Hi Hq [Hs Hb Hp Hd Hdur] Hh Hv Hnx H0];
    cbn [sy_store sy_live sy_durable] in *.
  assert (cut <= ks_highestVisible ks + 1) as Hc.
  { destruct (truncate_loop_cut dur (ks_highestVisible ks) ts num newEnd keepMs curTs (S (Z.to_nat (newEnd - start))) start start) as [H|H];
      [lia| |]; unfold RocksKVStore_truncateBinlogV2, RocksKVStore_getHighestBinlogId in Ec; congruence. }
  assert (forall b, cut <= b -> b ∈ dur ∖ gone <-> b ∈ dur) as Hk.
  { intros b Hb'. rewrite elem_of_difference. split; [by intros [? _]|]. intros Hin. split; [done|]. intros Hg%Hgone. lia. }
  split_and!; [|done|done|by intros b [? _]%elem_of_difference|by intros b Hcb; apply Hk].
  constructor; cbn [sy_store sy_live sy_durable]; try done.
  - constructor; try done.
    + intros k t Hkt. rewrite (Hd k t Hkt), Hk; [done|]. apply Hb in Hkt. lia.
    + intros b [Hin _]%elem_of_difference. by apply Hdur.
  - by intros [? _]%elem_of_difference.
Qed.

(** What a run does to the logs that readers saw before it. *)
Lemma sys_run_ok cut s s' :
  sys_run cut s s' -> sys_inv s ->
  sys_inv s' /\ ks_highestVisible (sy_store s) <= ks_highestVisible (sy_store s') /\ cut <= ks_highestVisible (sy_store s') + 1 /\
  (forall b, b <= ks_highestVisible (sy_store s) -> b ∈ sy_durable s' -> b ∈ sy_durable s) /\
  (forall b, cut <= b <= ks_highestVisible (sy_store s) -> b ∈ sy_durable s -> b ∈ sy_durable s').
Proof.
  induction 1 as [s|cut s1 s2 s3 Hst _ IH|cut cut' s1 s2 s3 Hst _ IH]; intros Hinv.
  - split_and!; try done; [pose proof (si_visible _ Hinv); lia].
  - destruct (sys_step_ok _ _ Hst Hinv) as (Hi & Hle & Hd). destruct (IH Hi) as (Hi' & Hle' & Hc & H1 & H2).
    split_and!; [done|lia|done| |]; intros b Hb Hin; [apply Hd, H1; lia || done|apply H2; [lia|apply Hd; lia || done]].
  - destruct (sys_truncate_ok _ _ _ Hst Hinv) as (Hi & Hc' & Es & H3 & H4). destruct (IH Hi) as (Hi' & Hle' & Hc & H1 & H2).
    rewrite Es in *. split_and!; [done|lia|lia| |]; intros b Hb Hin; [by apply H3, H1|apply H2; [lia|apply H4; [lia|done]]].
Qed.

Lemma sys_reachable_inv s : sys_reachable s -> sys_inv s.
Proof.
  intros (mode & last & next & dur & cut & Hok & Hr). apply (sys_inv_start mode) in Hok. by apply (sys_run_ok _ _ _ Hr).
Qed.

Lemma run_steps s s' : rtc sys_step s s' -> sys_run 0 s s'.
Proof. induction 1; [constructor|by eapply run_step]. Qed.

(** ** Runs *)

(** The steps as operations, to run them. *)
Inductive SysOp : Set :=
  | SBegin | SAssign (t : Z) | SWrite (t : Z) | SCommit (t : Z) | SAbort (t : Z).

Definition of_M {A} (m : M A) : option A := match m with Ret a => Some a | _ => None end.

Definition sys_exec1 (s : sys) (op : SysOp) : option sys :=
  let 'mkSys ks live dur := s in
  match op with
  | SBegin =>
      if ks_nextTxnSeq ks <? 2 ^ 64 - 1 then
        '(ks, t, _) ← of_M (RocksKVStore_createTransaction ks None);
        Some (mkSys ks (<[t := TXNID_UNINITED]> live) dur)
      else None
  | SAssign t =>
      b ← live !! t;
      if ks_nextBinlogSeq ks <? 2 ^ 64 - 1 then
        '(ks, b) ← of_M (RocksKVStore_assignBinlogIdIfNeeded ks t b);
        Some (mkSys ks (<[t := b]> live) dur)
      else None
  | SWrite t =>
      b ← live !! t;
      if b =? TXNID_UNINITED then None else Some (mkSys ks live ({[b]} ∪ dur))
  | SCommit t =>
      b ← live !! t;
      if (b =? TXNID_UNINITED) || bool_decide (b ∈ dur) then
        ks ← of_M (RocksKVStore_markCommitted ks t (if b =? TXNID_UNINITED then TXNID_UNINITED else t));
        Some (mkSys ks (delete t live) dur)
      else None
  | SAbort t =>
      b ← live !! t;
      if bool_decide (b ∈ dur) then None else
        ks ← of_M (RocksKVStore_markCommitted ks t TXNID_UNINITED);
        Some (mkSys ks (delete t live) dur)
  end.

Lemma of_M_Some {A} (m : M A) a : of_M m = Some a -> m = Ret a.
Proof. destruct m; cbn; [by intros [= ->]|done..]. Qed.

Lemma sys_exec1_step s op s' : sys_exec1 s op = Some s' -> sys_step s s'.
Proof.
  destruct s as [ks live dur], op as [|t|t|t|t]; cbn [sys_exec1].
  - destruct (Z.ltb_spec (ks_nextTxnSeq ks) (2 ^ 64 - 1)); [|done].
    intros ([[k t] r] & E%of_M_Some & [= <-])%bind_Some. by eapply ss_begin.
  - intros (b & Hl & E)%bind_Some. destruct (Z.ltb_spec (ks_nextBinlogSeq ks) (2 ^ 64 - 1)); [|done].
    apply bind_Some in E as ([k b'] & E%of_M_Some & [= <-]). by eapply ss_assign.
  - intros (b & Hl & E)%bind_Some. destruct (Z.eqb_spec b TXNID_UNINITED); [done|].
    injection E as <-. by eapply ss_write.
  - intros (b & Hl & E)%bind_Some. destruct (_ || _) eqn:Hc; [|done].
    apply bind_Some in E as (k & E%of_M_Some & [= <-]). eapply ss_commit; [done| |done].
    apply orb_true_iff in Hc as [?%Z.eqb_eq|?%bool_decide_eq_true]; auto.
  - intros (b & Hl & E)%bind_Some. case_bool_decide as Hc; [done|].
    apply bind_Some in E as (k & E%of_M_Some & [= <-]). by eapply ss_abort.
Qed.

Fixpoint sys_exec (s : sys) (ops : list SysOp) : option sys :=
  match ops with
  | [] => Some s
  | op :: ops' => s' ← sys_exec1 s op; sys_exec s' ops'
  end.

Lemma sys_exec_steps ops : forall s s', sys_exec s ops = Some s' -> rtc sys_step s s'.
Proof.
  induction ops as [|op ops IH]; cbn [sys_exec]; intros s s'; [by intros [= ->]|].
  intros (s1 & E%sys_exec1_step & H)%bind_Some. by eapply rtc_l; [|apply IH].
Qed.

End Steps.

(** * What readers and writers of the binlog can rely on *)

(** C27: the logs that a reader sees up to [getHighestBinlogId] do not change under it: whatever
    transactions and truncations follow, the mark only moves up and stays below the next id, no log with
    an id at or below the mark appears, the only ones that vanish are those before the first log that the
    truncations keep, and no truncation reaches above the mark. On a replica the logs of the master come
    with increasing ids. *)
Theorem binlog_prefix_stable {BM : BuildMode} s s' cut :
  sys_reachable s -> sys_run cut s s' ->
  RocksKVStore_getHighestBinlogId (sy_store s) <= RocksKVStore_getHighestBinlogId (sy_store s')
    < RocksKVStore_getNextBinlogSeq (sy_store s') /\
  cut <= RocksKVStore_getHighestBinlogId (sy_store s') + 1 /\
  (forall b, b <= RocksKVStore_getHighestBinlogId (sy_store s) -> b ∈ sy_durable s' -> b ∈ sy_durable s) /\
  (forall b, cut <= b <= RocksKVStore_getHighestBinlogId (sy_store s) -> b ∈ sy_durable s -> b ∈ sy_durable s').
Proof.
  intros Hr%sys_reachable_inv Hst. destruct (sys_run_ok _ _ _ Hst Hr) as (Hi & Hle & Hc & H1 & H2).
  pose proof (si_visible _ Hi). unfold RocksKVStore_getHighestBinlogId, RocksKVStore_getNextBinlogSeq. split_and!; try done; lia.
Qed.

(** Two transactions, the first still writing its log when the second has ended. *)
Definition demo_before : sys :=
  default (sys_start READ_WRITE None 1 ∅)
    (@sys_exec true (sys_start READ_WRITE None 1 ∅) [SBegin; SBegin; SAssign 1; SAssign 2; SWrite 2; SCommit 2]).

Definition demo_after : sys := default demo_before (@sys_exec true demo_before [SWrite 1; SCommit 1]).

Lemma sys_exec_default {BM : BuildMode} s ops : rtc sys_step s (default s (sys_exec s ops)).
Proof. destruct (sys_exec s ops) eqn:E; [by eapply sys_exec_steps|done]. Qed.

Lemma demo_before_reachable : @sys_reachable true demo_before.
Proof. exists READ_WRITE, None, 1, ∅, 0. split; [done|]. apply run_steps, sys_exec_default. Qed.

(** Then the first log is truncated. *)
Definition demo_cut : sys := mkSys (sy_store demo_after) (sy_live demo_after) (sy_durable demo_after ∖ {[1]}).

Lemma binlog_prefix_stable_witness :
  (0 <= RocksKVStore_getHighestBinlogId (sy_store demo_cut) < RocksKVStore_getNextBinlogSeq (sy_store demo_cut)) /\
  2 <= RocksKVStore_getHighestBinlogId (sy_store demo_cut) + 1 /\
  (forall b, b <= 2 -> b ∈ sy_durable demo_cut -> b ∈ sy_durable demo_after) /\
  (forall b, 2 <= b <= 2 -> b ∈ sy_durable demo_after -> b ∈ sy_durable demo_cut).
Proof.
  assert (@sys_reachable true demo_after) as Hr.
  { destruct demo_before_reachable as (mode & last & next & dur & cut & Hok & Hr).
    exists READ_WRITE, None, 1, ∅, 0. split; [done|]. apply run_steps. etransitivity; apply sys_exec_default. }
  destruct (@binlog_prefix_stable true demo_after demo_cut 2 Hr) as (H1 & H2 & H3 & H4).
  - apply (run_truncate 0 2 _ demo_cut); [|constructor].
    apply (st_delete 2 (sy_store demo_after) (sy_live demo_after) (sy_durable demo_after) (fun _ => 5) 1 0 9 1 1 {[1]}); try done.
    + intros b ->%elem_of_singleton. apply (bool_decide_unpack (1 ∈ sy_durable demo_after)). vm_compute. exact I.
    + intros b ->%elem_of_singleton. done.
  - split; [|done]. split; [|apply H1]. etransitivity; [|apply H1]. by vm_compute.
Defined.

(** C36: once no transaction is running the mark has reached every log: nothing that was written
    stays hidden from the readers, in whatever order the transactions ended. *)
Theorem binlog_caught_up {BM : BuildMode} s b :
  sys_reachable s -> sy_live s = ∅ -> b ∈ sy_durable s ->
  b <= RocksKVStore_getHighestBinlogId (sy_store s).
Proof.
  intros Hr%sys_reachable_inv Hl Hb. destruct Hr as [_ _ _ _ Hbo Hh _ _ _]. unfold RocksKVStore_getHighestBinlogId.
  destruct (bo_durable _ _ _ _ _ Hbo b Hb) as [|[v Hv]]; [done|].
  destruct (ks_aliveBinlogs (sy_store s)) as [|[k [d t]] m] eqn:Em; [by apply elem_of_nil in Hv|].
  specialize (Hh k d t eq_refl). subst d. assert (sy_live s !! t = Some k) as E; [|by rewrite Hl, lookup_empty in E].
  apply (bo_pending _ _ _ _ _ Hbo). constructor.
Qed.

Lemma binlog_caught_up_witness : 2 <= RocksKVStore_getHighestBinlogId (sy_store demo_after).
Proof.
  apply (@binlog_caught_up true demo_after 2); [|vm_compute; reflexivity|].
  - exists READ_WRITE, None, 1, ∅, 0. split; [done|]. apply run_steps. etransitivity; apply sys_exec_default.
  - apply (bool_decide_unpack (2 ∈ sy_durable demo_after)). vm_compute. exact I.
Defined.

(** In every reachable state the calls of a running transaction succeed, in both builds, and
    a binlog id that is assigned is above the mark, new, and no other transaction's. *)
Theorem binlog_ids_fresh {BM : BuildMode} s t :
  sys_reachable s -> sy_live s !! t = Some TXNID_UNINITED ->
  ks_nextBinlogSeq (sy_store s) < 2 ^ 64 - 1 ->
  exists ks' id, RocksKVStore_assignBinlogIdIfNeeded (sy_store s) t TXNID_UNINITED = Ret (ks', id) /\
    RocksKVStore_getHighestBinlogId (sy_store s) < id /\ (id ∉ sy_durable s) /\
    (forall t', sy_live s !! t' <> Some id) /\
    (exists ks'', RocksKVStore_markCommitted ks' t t = Ret ks'') /\
    (exists ks'', RocksKVStore_markCommitted ks' t TXNID_UNINITED = Ret ks'').
Proof.
  destruct s as [ks live dur]. cbn [sy_store sy_live sy_durable]. intros Hr%sys_reachable_inv Hl Hn.
  destruct (add_alive_ok _ _ _ t (ks_nextBinlogSeq ks) Hr Hl) as (ks' & E & Hi & _); [lia|].
  exists ks', (ks_nextBinlogSeq ks).
  unfold RocksKVStore_assignBinlogIdIfNeeded, RocksTxn_setBinlogId, RocksKVStore_getHighestBinlogId.
  rewrite Z.eqb_refl. inv_d by done. rewrite bind_Ret, E, bind_Ret.
  destruct Hr as [_ _ Hids _ Hbo _ Hv _ _]; cbn [sy_store sy_live sy_durable] in *.
  assert (forall v, (ks_nextBinlogSeq ks, v) ∉ ks_aliveBinlogs ks) as Hnew.
  { intros v H%(bo_bounds _ _ _ _ _ Hbo). lia. }
  assert (<[t := ks_nextBinlogSeq ks]> live !! t = Some (ks_nextBinlogSeq ks)) as Ht by apply lookup_insert_eq.
  assert (ks_nextBinlogSeq ks ∉ dur) as Hnd.
  { intros [|[v H]]%(bo_durable _ _ _ _ _ Hbo); [lia|by apply Hnew in H]. }
  split_and!; [done|lia|done| | |].
  - intros t' H'. apply (Hnew (false, t')), (bo_pending _ _ _ _ _ Hbo). split; [done|lia].
  - destruct (write_ok _ _ _ _ _ Hi Ht) as [Hw _]; [unfold TXNID_UNINITED; lia|].
    destruct (mark_ok _ _ _ _ _ t Hw Ht) as (k & Ek & _); [|by exists k].
    intros _. split; [by intros _; apply elem_of_union_l, elem_of_singleton|]. intros _. apply Hids in Hl. lia.
  - destruct (mark_ok _ _ _ _ _ TXNID_UNINITED Hi Ht) as (k & Ek & _); [|by exists k].
    intros _. split; [by intros ?|by intros ?].
Qed.

Lemma binlog_ids_fresh_witness :
  let s := default (sys_start READ_WRITE (Some 5) 1 {[5]})
             (@sys_exec true (sys_start READ_WRITE (Some 5) 1 {[5]}) [SBegin; SBegin; SAssign 6]) in
  exists ks' id, @RocksKVStore_assignBinlogIdIfNeeded true (sy_store s) 7 TXNID_UNINITED = Ret (ks', id) /\ (id ∉ sy_durable s).
Proof.
  intros s. destruct (@binlog_ids_fresh true s 7) as (ks' & id & E & _ & H & _); [|reflexivity|reflexivity|by exists ks', id].
  exists READ_WRITE, (Some 5), 1, {[5]}, 0. split; [|apply run_steps, sys_exec_default].
  split; [done|]. split_and!; [done|done|by apply elem_of_singleton|]. by intros b ->%elem_of_singleton.
Defined.
