(* ===== verification/Txn.v ===== *)
(** Transactions of a store (storage/rocks/rocks_kvstore.cpp) and the application of a binlog on a
    replica (replication/repl_util.cpp): reads and writes with the log they leave, commit, and
    what a replica makes of the log. RocksDB itself is an interface with its documented laws. *)

From Stdlib Require Import Strings.Byte ZArith Lia.
From stdpp Require Import base list numbers strings gmap.
From S2P Require Import Prelude Status Varint Strings Record RecordValue ReplLog BinlogSeq.

Local Open Scope Z_scope.

(** * RocksDB *)

Inductive ColumnFamily : Set := CF_Default | CF_Binlog.

#[export] Instance ColumnFamily_eq_dec : EqDecision ColumnFamily.
Proof. solve_decision. Defined.

(** A [rocksdb::Status] with what the call gives when it is ok: [RBusy] answers to [IsBusy] or
    [IsTryAgain]. *)
Inductive rocks (A : Type) : Type :=
  | ROk (a : A)
  | RNotFound (msg : bytes)
  | RBusy (msg : bytes)
  | RCorruption (msg : bytes)
  | RError (msg : bytes).
Arguments ROk {A} a.
Arguments RNotFound {A} msg.
Arguments RBusy {A} msg.
Arguments RCorruption {A} msg.
Arguments RError {A} msg.

(** The calls the store makes; [T] is the database as a transaction sees it, its own writes
    included. *)
Class RocksDB (T : Type) : Type := {
  rdb_get : T -> ColumnFamily -> bytes -> rocks bytes;
  rdb_put : T -> ColumnFamily -> bytes -> bytes -> rocks T;
  rdb_del : T -> ColumnFamily -> bytes -> rocks T;
  rdb_del_range : T -> ColumnFamily -> bytes -> bytes -> rocks T;
  rdb_del_files : T -> ColumnFamily -> bytes -> bytes -> bool -> rocks T;
  rdb_commit : T -> rocks T
}.

Definition rdb_read {T} `{RocksDB T} (t : T) (cf : ColumnFamily) (k : bytes) : option bytes :=
  match rdb_get t cf k with ROk v => Some v | _ => None end.

(** What a put, a delete and a commit do when they are ok. *)
Class RocksDBLaws (T : Type) `{RocksDB T} : Prop := {
  rdb_read_put t cf k v t' : rdb_put t cf k v = ROk t' ->
    forall cf' k', rdb_read t' cf' k' = if decide ((cf', k') = (cf, k)) then Some v else rdb_read t cf' k';
  rdb_read_del t cf k t' : rdb_del t cf k = ROk t' ->
    forall cf' k', rdb_read t' cf' k' = if decide ((cf', k') = (cf, k)) then None else rdb_read t cf' k';
  rdb_read_commit t t' : rdb_commit t = ROk t' -> forall cf k, rdb_read t' cf k = rdb_read t cf k
}.

(** A database whose reads and writes meet no error. Its commits may be refused, not corrupted. *)
Class RocksDBHealthy (T : Type) `{RocksDB T} : Prop := {
  rdb_get_healthy t cf k : (exists v, rdb_get t cf k = ROk v) \/ (exists msg, rdb_get t cf k = RNotFound msg);
  rdb_put_healthy t cf k v : exists t', rdb_put t cf k v = ROk t';
  rdb_del_healthy t cf k : exists t', rdb_del t cf k = ROk t';
  rdb_commit_intact t msg : rdb_commit t <> RCorruption msg
}.

(** A database whose commits meet no error and no conflict either. *)
Class RocksDBCommits (T : Type) `{RocksDB T} : Prop := {
  rdb_commit_healthy t : exists t', rdb_commit t = ROk t'
}.

(** Databases with the same contents. *)
Definition rdb_equiv {T} `{RocksDB T} (t1 t2 : T) : Prop :=
  forall cf k, rdb_read t1 cf k = rdb_read t2 cf k.

(** * The store's settings *)

Record StoreCfg : Set := mkCfg {
  cfg_enableRepllog : bool;
  cfg_forceRecovery : Z;
  cfg_binlogUsingDefaultCF : bool;
  cfg_isCatalog : bool
}.

Definition RocksKVStore_getDataColumnFamilyHandle : ColumnFamily := CF_Default.

Definition RocksKVStore_getBinlogColumnFamilyHandle (cfg : StoreCfg) : ColumnFamily :=
  if cfg_binlogUsingDefaultCF cfg then CF_Default else CF_Binlog.

Definition RocksKVStore_getColumnFamilyHandleByRecordType (cfg : StoreCfg) (type : RecordType)
  : ColumnFamily :=
  if bool_decide (type = RT_BINLOG) then RocksKVStore_getBinlogColumnFamilyHandle cfg
  else RocksKVStore_getDataColumnFamilyHandle.

(** [handleRocksdbError] on a status that is not ok. *)
Definition RocksKVStore_handleRocksdbError {A B} (cfg : StoreCfg) (s : rocks A) : M B :=
  match s with
  | ROk _ => Throw ERR_INTERNAL (lit "OK")
  | RCorruption msg =>
      if cfg_forceRecovery cfg =? 0 then Crash CInvariant else Throw ERR_INTERNAL msg
  | RNotFound msg | RBusy msg | RError msg => Throw ERR_INTERNAL msg
  end.

Definition rocks_ok {A} (cfg : StoreCfg) (s : rocks A) : M A :=
  match s with ROk a => Ret a | _ => RocksKVStore_handleRocksdbError cfg s end.

(** The status as a value, for the callers that go on after an error. *)
Definition status_of {A} (m : M A) : M (M A) := match m with Crash c => Crash c | m => Ret m end.

(** * Transactions *)

Definition CHUNKID_MULTI : Z := 0xFFFFFFFE.
Definition CHUNKID_FLUSH : Z := 0xFFFFFFFD.
Definition CHUNKID_MIGRATE : Z := 0xFFFFFFFC.
Definition CHUNKID_DEL_RANGE : Z := 0xFFFFFFFB.

(** The values of [ReplOp]. *)
Definition REPL_OP_SET : byte := x01.
Definition REPL_OP_DEL : byte := x02.
Definition REPL_OP_STMT : byte := x03.
Definition REPL_OP_SPEC : byte := x04.
Definition REPL_OP_DEL_RANGE : byte := x05.
Definition REPL_OP_DEL_FILES_INCLUDE_END : byte := x06.
Definition REPL_OP_DEL_FILES_EXCLUDE_END : byte := x07.

Definition REPL_GROUP_START : Z := 1.
Definition REPL_GROUP_END : Z := 2.

Section Txn.
Context {BM : BuildMode} {T : Type} `{RocksDB T}.

Record RocksTxn : Type := mkTxn {
  tx_txnId : Z;
  tx_binlogId : Z;
  tx_chunkId : Z;
  tx_replOnly : bool;
  tx_done : bool;
  tx_replLogValues : list ReplLogValueEntryV2;
  tx_db : T
}.

Definition RocksTxn_new (txnId : Z) (replOnly : bool) (db : T) : RocksTxn :=
  mkTxn txnId TXNID_UNINITED CHUNKID_UNINITED replOnly false [] db.

Definition tx_with_db (tx : RocksTxn) (db : T) : RocksTxn :=
  mkTxn (tx_txnId tx) (tx_binlogId tx) (tx_chunkId tx) (tx_replOnly tx) (tx_done tx) (tx_replLogValues tx) db.

Definition tx_with_binlogId (tx : RocksTxn) (id : Z) : RocksTxn :=
  mkTxn (tx_txnId tx) id (tx_chunkId tx) (tx_replOnly tx) (tx_done tx) (tx_replLogValues tx) (tx_db tx).

(** [_replLogValues.emplace_back] *)
Definition tx_emplace (tx : RocksTxn) (e : ReplLogValueEntryV2) : RocksTxn :=
  mkTxn (tx_txnId tx) (tx_binlogId tx) (tx_chunkId tx) (tx_replOnly tx) (tx_done tx)
    (tx_replLogValues tx ++ [e]) (tx_db tx).

Definition RocksTxn_setChunkId (tx : RocksTxn) (chunkId : Z) : M RocksTxn :=
  let set c := mkTxn (tx_txnId tx) (tx_binlogId tx) c (tx_replOnly tx) (tx_done tx)
                 (tx_replLogValues tx) (tx_db tx) in
  if tx_chunkId tx =? CHUNKID_UNINITED then Ret (set chunkId)
  else if chunkId =? CHUNKID_FLUSH then Ret (set chunkId)
  else if negb (tx_chunkId tx =? chunkId) then
    _ ← INVARIANT_D (negb (tx_chunkId tx =? CHUNKID_FLUSH));
    Ret (set CHUNKID_MULTI)
  else Ret tx.

Definition RocksTxn_getKV (cfg : StoreCfg) (tx : RocksTxn) (key : bytes) : M bytes :=
  type ← RecordKey_decodeType key;
  match rdb_get (tx_db tx) (RocksKVStore_getColumnFamilyHandleByRecordType cfg type) key with
  | ROk value => Ret value
  | RNotFound msg => Throw ERR_NOTFOUND msg
  | s => RocksKVStore_handleRocksdbError cfg s
  end.

(** The key is decoded to log a warning when the transaction has 65535 entries. *)
Definition warn_too_big (tx : RocksTxn) (key : bytes) : M unit :=
  if zlen (tx_replLogValues tx) =? 65535 then
    match RecordKey_decode key with Crash c => Crash c | _ => Ret tt end
  else Ret tt.

(** What [setKV] and [delKV] log, [now] being [msSinceEpoch()]. *)
Definition log_entry (cfg : StoreCfg) (tx : RocksTxn) (op : byte) (ts now : Z) (key val : bytes)
  : M RocksTxn :=
  if cfg_enableRepllog cfg then
    _ ← INVARIANT_D (negb (cfg_isCatalog cfg));
    chunkId ← RecordKey_decodeChunkId key;
    tx ← RocksTxn_setChunkId tx chunkId;
    _ ← warn_too_big tx key;
    Ret (tx_emplace tx (mkEntry op (u64 (if negb (ts =? 0) then ts else now)) key val))
  else Ret tx.

Definition txn_is_replOnly {A} : M A := Throw ERR_INTERNAL (lit "txn is replOnly").

Definition RocksTxn_setKV (cfg : StoreCfg) (tx : RocksTxn) (key val : bytes) (ts now : Z) : M RocksTxn :=
  if tx_replOnly tx then txn_is_replOnly else
  db ← rocks_ok cfg (rdb_put (tx_db tx) RocksKVStore_getDataColumnFamilyHandle key val);
  log_entry cfg (tx_with_db tx db) REPL_OP_SET ts now key val.

Definition RocksTxn_setKVWithoutBinlog (cfg : StoreCfg) (tx : RocksTxn) (key val : bytes) : M RocksTxn :=
  db ← rocks_ok cfg (rdb_put (tx_db tx) RocksKVStore_getDataColumnFamilyHandle key val);
  Ret (tx_with_db tx db).

Definition RocksTxn_delKV (cfg : StoreCfg) (tx : RocksTxn) (key : bytes) (ts now : Z) : M RocksTxn :=
  if tx_replOnly tx then txn_is_replOnly else
  type ← RecordKey_decodeType key;
  db ← rocks_ok cfg (rdb_del (tx_db tx) (RocksKVStore_getColumnFamilyHandleByRecordType cfg type) key);
  log_entry cfg (tx_with_db tx db) REPL_OP_DEL ts now key [].

Definition RocksTxn_addDeleteRangeBinlog (cfg : StoreCfg) (tx : RocksTxn) (begin end_ : bytes) (now : Z)
  : M RocksTxn :=
  if tx_replOnly tx then txn_is_replOnly else
  if cfg_enableRepllog cfg then
    _ ← INVARIANT_D (negb (cfg_isCatalog cfg));
    tx ← RocksTxn_setChunkId tx CHUNKID_DEL_RANGE;
    Ret (tx_emplace tx (mkEntry REPL_OP_DEL_RANGE now begin end_))
  else Ret tx.

Definition RocksTxn_addDeleteFilesInRangeBinlog (cfg : StoreCfg) (tx : RocksTxn) (begin end_ : bytes)
  (include_end : bool) (now : Z) : M RocksTxn :=
  if tx_replOnly tx then txn_is_replOnly else
  if cfg_enableRepllog cfg then
    _ ← INVARIANT_D (negb (cfg_isCatalog cfg));
    tx ← RocksTxn_setChunkId tx CHUNKID_DEL_RANGE;
    let op := if include_end then REPL_OP_DEL_FILES_INCLUDE_END else REPL_OP_DEL_FILES_EXCLUDE_END in
    Ret (tx_emplace tx (mkEntry op now begin end_))
  else Ret tx.

(** [flushall] and [migrate]; [cmd] is the command of the session, or "flush" without one. *)
Definition log_special (cfg : StoreCfg) (tx : RocksTxn) (chunkId : Z) (e : ReplLogValueEntryV2)
  : M RocksTxn :=
  if tx_replOnly tx then txn_is_replOnly else
  if negb (cfg_enableRepllog cfg) then Throw ERR_INTERNAL (lit "repllog is not enable") else
  _ ← INVARIANT_D (negb (cfg_isCatalog cfg));
  tx ← RocksTxn_setChunkId tx chunkId;
  _ ← INVARIANT_D (bool_decide (tx_replLogValues tx = []));
  Ret (tx_emplace tx e).

Definition RocksTxn_flushall (cfg : StoreCfg) (tx : RocksTxn) (cmd : bytes) (now : Z) : M RocksTxn :=
  log_special cfg tx CHUNKID_FLUSH (mkEntry REPL_OP_STMT now cmd []).

Definition RocksTxn_migrate (cfg : StoreCfg) (tx : RocksTxn) (now : Z) : M RocksTxn :=
  log_special cfg tx CHUNKID_MIGRATE (mkEntry REPL_OP_SPEC now [] []).

(** [deleteRangeWithoutBinlog] and [deleteFilesInRangeWithoutBinlog] on the data. *)
Definition del_range_data (cfg : StoreCfg) (tx : RocksTxn) (begin end_ : bytes) : M RocksTxn :=
  db ← rocks_ok cfg (rdb_del_range (tx_db tx) RocksKVStore_getDataColumnFamilyHandle begin end_);
  Ret (tx_with_db tx db).

Definition del_files_data (cfg : StoreCfg) (tx : RocksTxn) (begin end_ : bytes) (include_end : bool)
  : M RocksTxn :=
  db ← rocks_ok cfg (rdb_del_files (tx_db tx) RocksKVStore_getDataColumnFamilyHandle begin end_ include_end);
  Ret (tx_with_db tx db).

(** The cases of statements and specials have no [break]: in a release build they go on into the
    deletion of a range. *)
Definition RocksTxn_applyBinlog (cfg : StoreCfg) (tx : RocksTxn) (e : ReplLogValueEntryV2) : M RocksTxn :=
  if negb (tx_replOnly tx) then Throw ERR_INTERNAL (lit "txn is not replOnly or migrationOnly") else
  let handle := RocksKVStore_getDataColumnFamilyHandle in
  let op := re_op e in
  if bool_decide (op = REPL_OP_SET) then
    db ← rocks_ok cfg (rdb_put (tx_db tx) handle (re_key e) (re_val e));
    Ret (tx_with_db tx db)
  else if bool_decide (op = REPL_OP_DEL) then
    db ← rocks_ok cfg (rdb_del (tx_db tx) handle (re_key e));
    Ret (tx_with_db tx db)
  else if bool_decide (op = REPL_OP_STMT) then
    _ ← INVARIANT_D false;
    _ ← INVARIANT_D false;
    del_range_data cfg tx (re_key e) (re_val e)
  else if bool_decide (op = REPL_OP_SPEC) then
    _ ← INVARIANT_D false;
    del_range_data cfg tx (re_key e) (re_val e)
  else if bool_decide (op = REPL_OP_DEL_RANGE) then del_range_data cfg tx (re_key e) (re_val e)
  else if bool_decide (op = REPL_OP_DEL_FILES_INCLUDE_END) then
    del_files_data cfg tx (re_key e) (re_val e) true
  else if bool_decide (op = REPL_OP_DEL_FILES_EXCLUDE_END) then
    del_files_data cfg tx (re_key e) (re_val e) false
  else
    _ ← INVARIANT_D false;
    Throw ERR_DECODE (lit "not a valid binlog").

(** [setBinlogKV(binlogId, logKey, logValue)]: the log of the master, under its id. The counters
    have changed even when the write fails. *)
Definition RocksTxn_setBinlogKV_id (cfg : StoreCfg) (ks : RocksKVStore) (tx : RocksTxn) (binlogId : Z)
  (logKey logValue : bytes) : M (RocksKVStore * M RocksTxn) :=
  if negb (tx_replOnly tx) then Ret (ks, Throw ERR_INTERNAL (lit "txn is not replOnly")) else
  '(ks, id) ← RocksKVStore_setNextBinlogSeq ks binlogId (tx_txnId tx) (tx_binlogId tx) (tx_replOnly tx);
  _ ← INVARIANT_D (negb (id =? TXNID_UNINITED));
  db ← status_of (rocks_ok cfg (rdb_put (tx_db tx) (RocksKVStore_getBinlogColumnFamilyHandle cfg) logKey logValue));
  Ret (ks, db ← db; Ret (tx_with_db (tx_with_binlogId tx id) db)).

(** [setBinlogKV(key, value)]: the log of a migration, under an id of this store. *)
Definition RocksTxn_setBinlogKV (cfg : StoreCfg) (ks : RocksKVStore) (tx : RocksTxn) (key value : bytes)
  : M (RocksKVStore * M RocksTxn) :=
  match ReplLogKeyV2_decode key with
  | Crash c => Crash c
  | Throw _ _ => Ret (ks, Throw ERR_INTERGER (lit "ReplLogKeyV2::decode failed"))
  | Ret _ =>
      '(ks, id) ← RocksKVStore_assignBinlogIdIfNeeded ks (tx_txnId tx) (tx_binlogId tx);
      _ ← INVARIANT_D (negb (id =? TXNID_UNINITED));
      logkey ← ReplLogKeyV2_encode (mkReplLogKey id);
      db ← status_of (rocks_ok cfg (rdb_put (tx_db tx) (RocksKVStore_getBinlogColumnFamilyHandle cfg) logkey value));
      Ret (ks, db ← db; Ret (tx_with_db (tx_with_binlogId tx id) db))
  end.

Definition RocksTxn_delBinlog (cfg : StoreCfg) (tx : RocksTxn) (log : ReplLogRawV2) : M RocksTxn :=
  db ← rocks_ok cfg (rdb_del (tx_db tx) (RocksKVStore_getBinlogColumnFamilyHandle cfg) (raw_key log));
  Ret (tx_with_db tx db).

(** Writes the log of the transaction: the result has the id of the transaction if there is one,
    and the error if the write failed. *)
Definition commit_log (cfg : StoreCfg) (ks : RocksKVStore) (tx : RocksTxn) (cmd : bytes) (versionEp : Z)
  : M (RocksKVStore * RocksTxn * Z * M unit) :=
  match last (tx_replLogValues tx) with
  | None => Ret (ks, tx, TXNID_UNINITED, Ret tt)
  | Some back =>
      _ ← INVARIANT_D (negb (tx_replOnly tx));
      '(ks, id) ← RocksKVStore_assignBinlogIdIfNeeded ks (tx_txnId tx) (tx_binlogId tx);
      let tx := tx_with_binlogId tx id in
      _ ← INVARIANT_D (negb (id =? TXNID_UNINITED));
      let oriFlag := Z.lor REPL_GROUP_START REPL_GROUP_END in
      let val := mkReplLogValue (tx_chunkId tx) oriFlag (tx_txnId tx) (re_timestamp back) versionEp cmd [] 0 in
      key ← ReplLogKeyV2_encode (mkReplLogKey id);
      value ← ReplLogValueV2_encode val (tx_replLogValues tx);
      match rdb_put (tx_db tx) (RocksKVStore_getBinlogColumnFamilyHandle cfg) key value with
      | ROk db => Ret (ks, tx_with_db tx db, tx_txnId tx, Ret tt)
      | s =>
          e ← status_of (RocksKVStore_handleRocksdbError cfg s);
          Ret (ks, tx, TXNID_UNINITED, e)
      end
  end.

(** [commit], with the command and the version of the session. The guard marks the transaction as
    committed whether it succeeds or not, so the result is the store's counters and the database
    after it, and what the call returns: the transaction's id or an error. A failed transaction
    leaves the database [db0] it began with. *)
Definition RocksTxn_commit (cfg : StoreCfg) (ks : RocksKVStore) (db0 : T) (tx : RocksTxn) (cmd : bytes)
  (versionEp : Z) : M (RocksKVStore * T * M Z) :=
  _ ← INVARIANT_D (negb (tx_done tx));
  '(ks, tx, binlogTxnId, e) ← commit_log cfg ks tx cmd versionEp;
  let binlogTxnId :=
    if tx_replOnly tx && negb (tx_binlogId tx =? TXNID_UNINITED) then tx_txnId tx else binlogTxnId in
  '(db, binlogTxnId, r) ←
    (match e with
     | Throw code msg => Ret (db0, TXNID_UNINITED, Throw code msg)
     | Crash c => Crash c
     | Ret _ =>
         match rdb_commit (tx_db tx) with
         | ROk db => Ret (db, binlogTxnId, Ret (tx_txnId tx))
         | RBusy msg => Ret (db0, TXNID_UNINITED, Throw ERR_COMMIT_RETRY msg)
         | s =>
             e ← status_of (RocksKVStore_handleRocksdbError cfg s);
             Ret (db0, TXNID_UNINITED, e)
         end
     end);
  _ ← (if negb (tx_replOnly tx) then
         INVARIANT_D ((binlogTxnId =? tx_txnId tx) || (binlogTxnId =? TXNID_UNINITED))
       else Ret tt);
  ks ← RocksKVStore_markCommitted ks (tx_txnId tx) binlogTxnId;
  Ret (ks, db, r).

(** [rollback], [s] being the status of RocksDB's rollback: what it returns, after the guard. *)
Definition RocksTxn_rollback (cfg : StoreCfg) (ks : RocksKVStore) (tx : RocksTxn) (s : rocks unit)
  : M (RocksKVStore * M unit) :=
  _ ← INVARIANT_D (negb (tx_done tx));
  e ← status_of (rocks_ok cfg s);
  ks ← RocksKVStore_markCommitted ks (tx_txnId tx) TXNID_UNINITED;
  Ret (ks, e).

(** The destructor of a transaction that was neither committed nor rolled back. *)
Definition RocksTxn_destroy (ks : RocksKVStore) (tx : RocksTxn) : M RocksKVStore :=
  if tx_done tx then Ret ks else
  _ ← INVARIANT_D (bool_decide (tx_replLogValues tx = []));
  RocksKVStore_markCommitted ks (tx_txnId tx) TXNID_UNINITED.

(** * Records of the store *)

Definition RocksKVStore_getKV (cfg : StoreCfg) (key : RecordKey) (tx : RocksTxn) : M RecordValue :=
  k ← RecordKey_encode key;
  s ← RocksTxn_getKV cfg tx k;
  RecordValue_decode s.

Definition RocksKVStore_setKV (cfg : StoreCfg) (key : RecordKey) (value : RecordValue) (tx : RocksTxn) (now : Z)
  : M RocksTxn :=
  k ← RecordKey_encode key;
  v ← RecordValue_encode value;
  RocksTxn_setKV cfg tx k v 0 now.

Definition RocksKVStore_delKV (cfg : StoreCfg) (key : RecordKey) (tx : RocksTxn) (now : Z) : M RocksTxn :=
  k ← RecordKey_encode key;
  RocksTxn_delKV cfg tx k 0 now.

(** * Applying a log *)

Inductive BinlogApplyMode : Set := KEEP_BINLOG_ID | NEW_BINLOG_ID.

(** The loop over the entries of a log from [offset] on: the last timestamp, the offset it ends
    at, and the transaction. Every entry takes bytes, so that the size bounds the rounds. *)
Fixpoint apply_entries (fuel : nat) (cfg : StoreCfg) (tx : RocksTxn) (data : bytes) (offset dataSize ts : Z)
  : M (RocksTxn * Z * Z) :=
  match fuel with
  | O => Crash CUndefined
  | S fuel' =>
      if offset <? dataSize then
        '(entry, size) ← ReplLogValueEntryV2_decode (zdrop offset data) (dataSize - offset);
        tx ← RocksTxn_applyBinlog cfg tx entry;
        apply_entries fuel' cfg tx data (offset + size) dataSize (re_timestamp entry)
      else Ret (tx, offset, ts)
  end.

(** What [applySingleTxnV2] does before it stores the log: the key, the transaction and the last
    timestamp. *)
Definition apply_data (cfg : StoreCfg) (tx : RocksTxn) (logKey logValue : bytes)
  : M (ReplLogKeyV2 * RocksTxn * Z) :=
  key ← ReplLogKeyV2_decode logKey;
  value ← ReplLogValueV2_decode logValue;
  let dataSize := rl_dataSize value in
  '(tx, offset, timestamp) ←
    apply_entries (S (Z.to_nat dataSize)) cfg tx (rl_data value) (ReplLogValueV2_getHdrSize value) dataSize 0;
  if negb (offset =? dataSize) then Throw ERR_INTERNAL (lit "bad binlog") else
  Ret (key, tx, timestamp).

Definition store_log (cfg : StoreCfg) (ks : RocksKVStore) (tx : RocksTxn) (key : ReplLogKeyV2)
  (logKey logValue : bytes) (mode : BinlogApplyMode) : M (RocksKVStore * M RocksTxn) :=
  match mode with
  | KEEP_BINLOG_ID =>
      let binlogId := rlk_binlogId key in
      if binlogId <=? RocksKVStore_getHighestBinlogId ks then
        Ret (ks, Throw ERR_MANUAL (lit "binlogId:" ++ to_string binlogId ++
          lit " can't be smaller than highestBinlogId:" ++ to_string (RocksKVStore_getHighestBinlogId ks)))
      else RocksTxn_setBinlogKV_id cfg ks tx binlogId logKey logValue
  | NEW_BINLOG_ID => RocksTxn_setBinlogKV cfg ks tx logKey logValue
  end.

(** [applySingleTxnV2] in the session of a replica or of a migration: the counters and the
    database after it, and the timestamp and the id of the log. [replOnly] is whether the
    session only replicates, which a migration sets. *)
Definition applySingleTxnV2 (cfg : StoreCfg) (ks : RocksKVStore) (db : T) (replOnly : bool)
  (logKey logValue : bytes) (mode : BinlogApplyMode) (cmd : bytes) (versionEp : Z)
  : M (RocksKVStore * T * M (Z * Z)) :=
  let slave := match mode with KEEP_BINLOG_ID => replOnly | NEW_BINLOG_ID => true end in
  if negb slave then
    _ ← INVARIANT_D false;
    Ret (ks, db, Throw ERR_INTERNAL (lit "It is not a slave"))
  else
  '(ks, txnId, replOnly) ← RocksKVStore_createTransaction ks (Some slave);
  let tx0 := RocksTxn_new txnId replOnly db in
  d ← status_of (apply_data cfg tx0 logKey logValue);
  '(ks, tx) ←
    (match d with
     | Ret (key, tx, timestamp) =>
         '(ks, tx) ← store_log cfg ks tx key logKey logValue mode;
         Ret (ks, tx ← tx; Ret (tx, timestamp))
     | Throw code msg => Ret (ks, Throw code msg)
     | Crash c => Crash c
     end);
  match tx with
  | Crash c => Crash c
  | Throw code msg =>
      ks ← RocksTxn_destroy ks tx0;
      Ret (ks, db, Throw code msg)
  | Ret (tx, timestamp) =>
      '(ks, db, r) ← RocksTxn_commit cfg ks db tx cmd versionEp;
      Ret (ks, db, _ ← r; Ret (timestamp, tx_binlogId tx))
  end.

End Txn.
Arguments RocksTxn T : clear implicits.
