(* ===== verification/Store.v ===== *)
(** What a transaction of the store (storage/rocks/rocks_kvstore.cpp) promises to the structures
    kept in records: a record that has been written is read back, the other records are as they
    were, and a record that has been deleted is not found. *)

From Stdlib Require Import Strings.Byte ZArith Lia.
From stdpp Require Import base list numbers strings pretty gmap.
From S2P Require Import Prelude Status Varint Record RecordValue ReplLog BinlogSeq Txn.

Local Open Scope Z_scope.

(** * Decimal numbers as keys *)

Lemma zlen_lit s : zlen (lit s) = Z.of_nat (String.length s).
Proof.
  unfold lit, zlen, String.list_byte_of_string. rewrite length_map. f_equal. by induction s; simpl; f_equal.
Qed.

Lemma pretty_N_go_length k : forall x s, (x < 10 ^ N.of_nat k)%N ->
  (String.length (pretty_N_go x s) <= k + String.length s)%nat.
Proof.
  induction k as [|k IH]; intros x s Hx.
  - assert (x = 0%N) as -> by (change (10 ^ N.of_nat 0)%N with 1%N in Hx; lia). by rewrite pretty_N_go_0.
  - destruct (decide (x = 0%N)) as [->|Hn]; [rewrite pretty_N_go_0; lia|].
    rewrite pretty_N_go_step by lia. etransitivity; [apply IH|simpl; lia].
    apply N.Div0.div_lt_upper_bound. rewrite Nat2N.inj_succ, N.pow_succ_r' in Hx. lia.
Qed.

Lemma zlen_to_string z : is_u64 z -> zlen (to_string z) <= 20.
Proof.
  intros [H0 H1]. unfold to_string. rewrite zlen_lit.
  destruct z as [|p|p]; [done| |lia]. change (pretty (Z.pos p)) with (pretty (N.pos p)).
  unfold pretty, pretty_N. destruct (decide _); [done|].
  pose proof (pretty_N_go_length 20 (N.pos p) "" ltac:(lia)) as Hl. cbn [String.length] in Hl. lia.
Qed.

(** * Records *)

(** The keys of the data. *)
Definition data_key (k : RecordKey) : Prop :=
  RecordKey_wf k /\ rk_type k <> RT_BINLOG /\ rk_chunkId k <> CHUNKID_FLUSH.

Lemma RecordKey_encode_inj {BM : BuildMode} k1 k2 s :
  RecordKey_wf k1 -> RecordKey_wf k2 -> RecordKey_encode k1 = Ret s -> RecordKey_encode k2 = Ret s ->
  RecordKey_equiv k1 k2.
Proof.
  intros H1 H2 E1 E2. destruct (RecordKey_decode_encode k1 s H1 E1) as (k & D1 & Q1 & _).
  destruct (RecordKey_decode_encode k2 s H2 E2) as (k' & D2 & Q2 & _). rewrite D1 in D2. simplify_eq.
  by rewrite <-Q1.
Qed.

Lemma rv_raw_bound rv c : RecordValue_wf rv -> zlen (rv_raw rv c) <= 61 + zlen (rv_value rv).
Proof.
  intros (_ & Httl & _). unfold rv_raw, rv_body. rewrite zlen_cons, !zlen_app.
  pose proof (varintEncode_len _ Httl). pose proof (varintEncode_len 0 is_u64_0).
  pose proof (varintEncode_len (u64 (rv_versionEP rv + 1)) ltac:(auto with nova)).
  pose proof (varintEncode_len (u64 (rv_cas rv + 1)) ltac:(auto with nova)). lia.
Qed.

Section Store.
Context {BM : BuildMode} {T : Type} `{RocksDBLaws T} {HH : RocksDBHealthy T}.
Variable cfg : StoreCfg.

(** The bytes of a record of the data. *)
Definition raw_record (tx : RocksTxn T) (k : RecordKey) : option bytes :=
  match RecordKey_encode k with Ret s => rdb_read (tx_db tx) CF_Default s | _ => None end.

(** A read sees those bytes. *)
Lemma getKV_raw k (tx : RocksTxn T) :
  data_key k ->
  match raw_record tx k with
  | Some s => RocksKVStore_getKV cfg k tx = RecordValue_decode s
  | None => exists msg, RocksKVStore_getKV cfg k tx = Throw ERR_NOTFOUND msg
  end.
Proof.
  intros (Hk & Ht & _). unfold raw_record, RocksKVStore_getKV.
  destruct (RecordKey_encode_total k Hk) as (c & Hc & E). rewrite E, bind_Ret.
  unfold RocksTxn_getKV. fold (rk_raw k c). rewrite (decodeType_raw k c) by done. rewrite bind_Ret.
  unfold RocksKVStore_getColumnFamilyHandleByRecordType. rewrite bool_decide_eq_false_2 by done.
  unfold rdb_read. destruct (rdb_get_healthy (tx_db tx) CF_Default (rk_raw k c)) as [[v Ev]|[msg Em]].
  - unfold RocksKVStore_getDataColumnFamilyHandle. by rewrite Ev.
  - unfold RocksKVStore_getDataColumnFamilyHandle. rewrite Em. by exists msg.
Qed.

(** A read depends on nothing else. *)
Lemma getKV_frame k (tx tx' : RocksTxn T) v :
  data_key k -> raw_record tx' k = raw_record tx k ->
  RocksKVStore_getKV cfg k tx = Ret v -> RocksKVStore_getKV cfg k tx' = Ret v.
Proof.
  intros Hk E. pose proof (getKV_raw k tx Hk) as H1. pose proof (getKV_raw k tx' Hk) as H2.
  rewrite E in H2. destruct (raw_record tx k); [by rewrite H1, H2|].
  destruct H1 as [msg ->]. done.
Qed.

(** ** Writes *)

(** A transaction that takes writes. *)
Definition writable (tx : RocksTxn T) : Prop :=
  tx_replOnly tx = false /\ tx_done tx = false /\ is_u32 (tx_chunkId tx) /\ tx_chunkId tx <> CHUNKID_FLUSH.

(** [tx'] is [tx] with the record [k] set to the bytes [s], or deleted. *)
Definition wrote_record (tx tx' : RocksTxn T) (k : RecordKey) (s : option bytes) : Prop :=
  writable tx' /\ raw_record tx' k = s /\
  forall k', data_key k' -> ~ RecordKey_equiv k' k -> raw_record tx' k' = raw_record tx k'.

Hypothesis Hcat : cfg_isCatalog cfg = false.

Lemma setChunkId_writable (tx : RocksTxn T) c :
  writable tx -> is_u32 c -> c <> CHUNKID_FLUSH ->
  exists tx', RocksTxn_setChunkId tx c = Ret tx' /\ writable tx' /\ tx_db tx' = tx_db tx /\
    tx_replLogValues tx' = tx_replLogValues tx.
Proof.
  intros (Hr & Hdn & Hu & Hf) Hc Hcf. unfold RocksTxn_setChunkId, writable.
  destruct (Z.eqb_spec (tx_chunkId tx) CHUNKID_UNINITED); [by eexists|].
  destruct (Z.eqb_spec c CHUNKID_FLUSH); [done|]. destruct (Z.eqb_spec (tx_chunkId tx) c) as [->|]; cbn [negb].
  - by exists tx.
  - inv_d by (by rewrite (proj2 (Z.eqb_neq _ _))). by eexists.
Qed.

Lemma log_entry_writable (tx : RocksTxn T) k s op ts now val :
  writable tx -> data_key k -> RecordKey_encode k = Ret s ->
  exists tx', log_entry cfg tx op ts now s val = Ret tx' /\ writable tx' /\ tx_db tx' = tx_db tx.
Proof.
  intros Hw (Hk & _ & Hf) Hs. unfold log_entry. destruct (cfg_enableRepllog cfg); [|by exists tx].
  destruct (RecordKey_encode_total k Hk) as (c & Hc & E). rewrite E in Hs. apply (inj Ret) in Hs as Es.
  inv_d by (by rewrite Hcat).
  replace (RecordKey_decodeChunkId s) with (Ret (rk_chunkId k)) by (subst s; symmetry; by apply decodeChunkId_raw).
  rewrite bind_Ret. destruct (setChunkId_writable tx (rk_chunkId k) Hw) as (tx' & -> & Hw' & Edb & _);
    [apply Hk|done|]. rewrite bind_Ret. unfold warn_too_big.
  destruct (RecordKey_decode_encode k s Hk) as (k' & -> & _); [by subst s|].
  destruct (_ =? 65535); rewrite bind_Ret; by eexists.
Qed.

(** What a commit needs to log the writes: no id yet, and entries that can be encoded. *)
Definition log_ok (tx : RocksTxn T) : Prop := tx_binlogId tx = TXNID_UNINITED /\ Forall entry_wf (tx_replLogValues tx).

(** [tx'] is the same transaction as [tx], with more writes. *)
Definition kept (tx tx' : RocksTxn T) : Prop := tx_txnId tx' = tx_txnId tx /\ (log_ok tx -> log_ok tx').

#[export] Instance kept_preorder : PreOrder kept.
Proof. split; [by split|]. intros x y z [E1 H1] [E2 H2]. split; [congruence|auto]. Qed.

Lemma setChunkId_kept (tx tx' : RocksTxn T) c : RocksTxn_setChunkId tx c = Ret tx' -> kept tx tx' /\ tx_replLogValues tx' = tx_replLogValues tx.
Proof.
  unfold RocksTxn_setChunkId. destruct (_ =? CHUNKID_UNINITED); [by intros [= <-]|]. destruct (_ =? CHUNKID_FLUSH); [by intros [= <-]|].
  destruct (negb _); [by intros (_ & _ & [= <-])%bind_Ret_inv|by intros [= <-]].
Qed.

Lemma log_entry_kept (tx tx' : RocksTxn T) op ts now s val :
  log_entry cfg tx op ts now s val = Ret tx' -> zlen s < 2 ^ 63 -> zlen val < 2 ^ 63 -> kept tx tx'.
Proof.
  unfold log_entry. destruct (cfg_enableRepllog cfg); [|by intros [= <-]]. intros (_ & _ & E)%bind_Ret_inv Hs Hv.
  apply bind_Ret_inv in E as (c & _ & E). apply bind_Ret_inv in E as (tx1 & [[Ei Hl] El]%setChunkId_kept & E). apply bind_Ret_inv in E as (_ & _ & [= <-]).
  split; [done|]. intros [Hb He]%Hl. split; [done|]. cbn [tx_emplace tx_replLogValues]. apply Forall_app. split; [done|]. apply Forall_singleton.
  split_and!; [|done|done]. cbn [re_timestamp]. auto with nova.
Qed.

(** The effect of a write on the records, from its effect on the database. *)
Lemma wrote_record_intro (tx tx' : RocksTxn T) k s ov :
  data_key k -> RecordKey_encode k = Ret s -> writable tx' ->
  (forall cf' k', rdb_read (tx_db tx') cf' k' =
     if decide ((cf', k') = (CF_Default, s)) then ov else rdb_read (tx_db tx) cf' k') ->
  wrote_record tx tx' k ov.
Proof.
  intros (Hk & _) Es Hw Hr. unfold wrote_record, raw_record. rewrite Es, Hr, decide_True by done.
  split_and!; [done|done|]. intros k' (Hk' & _) Hn.
  destruct (RecordKey_encode_total k' Hk') as (c & _ & E). fold (rk_raw k' c) in E.
  rewrite E, Hr, decide_False; [done|].
  intros Eq. apply (f_equal snd) in Eq. cbn [snd] in Eq. rewrite Eq in E. by apply Hn, (RecordKey_encode_inj k' k s).
Qed.

Lemma setKV_ok k v (tx : RocksTxn T) now :
  data_key k -> RecordValue_wf v -> writable tx ->
  exists tx' s, RocksKVStore_setKV cfg k v tx now = Ret tx' /\ wrote_record tx tx' k (Some s) /\
    RecordValue_decode s = Ret v.
Proof.
  intros Hk Hv Hw. unfold RocksKVStore_setKV, RocksTxn_setKV.
  destruct (RecordKey_encode_total k ltac:(apply Hk)) as (c & Hc & E).
  destruct (RecordValue_encode_total v Hv) as (cv & Hcv & Ev). rewrite E, Ev, !bind_Ret.
  assert (tx_replOnly tx = false) as -> by apply Hw.
  destruct (rdb_put_healthy (tx_db tx) RocksKVStore_getDataColumnFamilyHandle (rk_raw k c) (rv_raw v cv)) as [db Edb].
  fold (rk_raw k c). rewrite Edb. cbn [rocks_ok]. rewrite bind_Ret.
  destruct (log_entry_writable (tx_with_db tx db) k (rk_raw k c) REPL_OP_SET 0 now (rv_raw v cv) Hw Hk E)
    as (tx' & -> & Hw' & Hdb).
  exists tx', (rv_raw v cv). split_and!; [done| |by apply RecordValue_decode_raw].
  apply (wrote_record_intro _ _ _ _ _ Hk E Hw'). intros cf' k'. rewrite Hdb. by apply rdb_read_put.
Qed.

Lemma delKV_ok k (tx : RocksTxn T) now :
  data_key k -> writable tx ->
  exists tx', RocksKVStore_delKV cfg k tx now = Ret tx' /\ wrote_record tx tx' k None.
Proof.
  intros Hk Hw. unfold RocksKVStore_delKV, RocksTxn_delKV.
  destruct (RecordKey_encode_total k ltac:(apply Hk)) as (c & Hc & E). rewrite E, bind_Ret.
  assert (tx_replOnly tx = false) as -> by apply Hw.
  fold (rk_raw k c). rewrite (decodeType_raw k c) by (done || apply Hk). rewrite bind_Ret.
  unfold RocksKVStore_getColumnFamilyHandleByRecordType. rewrite bool_decide_eq_false_2 by apply Hk.
  destruct (rdb_del_healthy (tx_db tx) RocksKVStore_getDataColumnFamilyHandle (rk_raw k c)) as [db Edb].
  rewrite Edb. cbn [rocks_ok]. rewrite bind_Ret.
  destruct (log_entry_writable (tx_with_db tx db) k (rk_raw k c) REPL_OP_DEL 0 now [] Hw Hk E)
    as (tx' & -> & Hw' & Hdb).
  exists tx'. split; [done|]. apply (wrote_record_intro _ _ _ _ _ Hk E Hw'). intros cf' k'.
  rewrite Hdb. by apply rdb_read_del.
Qed.

Lemma setKV_kept k v (tx tx' : RocksTxn T) now :
  RocksKVStore_setKV cfg k v tx now = Ret tx' -> data_key k -> RecordValue_wf v -> kept tx tx'.
Proof.
  intros E (Hk & _) Hv. unfold RocksKVStore_setKV, RocksTxn_setKV in E. destruct (RecordKey_encode_total k Hk) as (c & Hc & Ek).
  destruct (RecordValue_encode_total v Hv) as (cv & Hcv & Ev). fold (rk_raw k c) in Ek. rewrite Ek, Ev, !bind_Ret in E. destruct (tx_replOnly tx); [done|].
  apply bind_Ret_inv in E as (db & _ & E). apply log_entry_kept in E; [done|apply (rk_raw_size k c Hk)|]. pose proof (rv_raw_bound v cv Hv).
  assert (zlen (rv_value v) < 2 ^ 62) by apply Hv. lia.
Qed.

Lemma delKV_kept k (tx tx' : RocksTxn T) now : RocksKVStore_delKV cfg k tx now = Ret tx' -> data_key k -> kept tx tx'.
Proof.
  intros E (Hk & _). unfold RocksKVStore_delKV, RocksTxn_delKV in E. destruct (RecordKey_encode_total k Hk) as (c & Hc & Ek).
  fold (rk_raw k c) in Ek. rewrite Ek, bind_Ret in E. destruct (tx_replOnly tx); [done|]. apply bind_Ret_inv in E as (type & _ & E).
  apply bind_Ret_inv in E as (db & _ & E). apply log_entry_kept in E; [done|apply (rk_raw_size k c Hk)|done].
Qed.

(** ** Commit *)

(** The log of a transaction is no record of the data. *)
Lemma commit_log_records ks (tx : RocksTxn T) cmd ep ks' tx' id u :
  commit_log cfg ks tx cmd ep = Ret (ks', tx', id, Ret u) ->
  forall k, data_key k -> raw_record tx' k = raw_record tx k.
Proof.
  unfold commit_log. destruct (last (tx_replLogValues tx)) as [back|]; [|by intros [= <- <- <- _]].
  intros (_ & _ & E)%bind_Ret_inv. apply bind_Ret_inv in E as ([ks1 bid] & _ & E). apply bind_Ret_inv in E as (_ & _ & E).
  apply bind_Ret_inv in E as (lk & Ek & E). apply bind_Ret_inv in E as (lv & _ & E). cbn [tx_with_binlogId tx_db] in E.
  destruct (rdb_put (tx_db tx) _ lk lv) as [db|msg|msg|msg|msg] eqn:Ep; try by apply bind_Ret_inv in E as (e & Ee & [= <- <- <- ->]); cbn in Ee; repeat case_match.
  injection E as <- <- <- _. intros k (Hk & Ht & _). unfold raw_record. destruct (RecordKey_encode_total k Hk) as (c & _ & Es). rewrite Es. cbn [tx_with_db tx_db].
  rewrite (rdb_read_put _ _ _ _ _ Ep), decide_False; [done|]. intros Eq. apply (f_equal snd) in Eq. cbn [snd] in Eq. rewrite Eq in Es.
  apply Ht. apply (RecordKey_encode_inj k (log_rk bid) lk Hk (log_rk_wf bid) Es) in Ek.
  by apply RecordKey_equiv_fields in Ek as (_ & _ & -> & _).
Qed.

(** A commit that is ok leaves the records that the transaction saw. *)
Lemma commit_records ks db0 (tx : RocksTxn T) cmd ep ks' db id :
  RocksTxn_commit cfg ks db0 tx cmd ep = Ret (ks', db, Ret id) ->
  forall (tx' : RocksTxn T) k, tx_db tx' = db -> data_key k -> raw_record tx' k = raw_record tx k.
Proof.
  unfold RocksTxn_commit. intros (_ & _ & E)%bind_Ret_inv. apply bind_Ret_inv in E as ([[[ks1 tx1] bid] e] & El & E).
  apply bind_Ret_inv in E as ([[db1 bid'] r] & E1 & E). apply bind_Ret_inv in E as (_ & _ & E). apply bind_Ret_inv in E as (ks2 & _ & [= _ <- ->]).
  destruct e as [u| |]; [|by injection E1|done].
  destruct (rdb_commit (tx_db tx1)) as [db2|msg|msg|msg|msg] eqn:Ec; try by (apply bind_Ret_inv in E1 as (e & Ee & E1); injection E1 as ? ? ?; subst; cbn in Ee; repeat case_match).
  2:{ by injection E1. }
  injection E1 as -> _ _. intros tx' k Edb Hk. rewrite <-(commit_log_records _ _ _ _ _ _ _ _ El k Hk). unfold raw_record.
  destruct (RecordKey_encode k); [|done..]. rewrite Edb. by apply rdb_read_commit.
Qed.

(** The log of a transaction that the session opened is written, under a new id. *)
Lemma commit_log_total ks live dur (tx : RocksTxn T) cmd ep :
  sys_inv (mkSys ks live dur) -> live !! tx_txnId tx = Some TXNID_UNINITED -> ks_nextBinlogSeq ks < 2 ^ 64 - 1 ->
  writable tx -> log_ok tx -> zlen cmd < 2 ^ 60 -> is_u64 ep ->
  exists ks1 tx1 b bid, commit_log cfg ks tx cmd ep = Ret (ks1, tx1, bid, Ret tt) /\
    tx_txnId tx1 = tx_txnId tx /\ tx_replOnly tx1 = false /\ sys_inv (mkSys ks1 (<[tx_txnId tx := b]> live) dur) /\ (b ∉ dur) /\
    bid = (if b =? TXNID_UNINITED then TXNID_UNINITED else tx_txnId tx).
Proof.
  intros Hinv Hl Hn (Hr & Hdn & Hc & _) [Hb He] Hcmd Hep. unfold commit_log. destruct (last (tx_replLogValues tx)) as [back|] eqn:Hlast.
  2:{ exists ks, tx, TXNID_UNINITED, TXNID_UNINITED. rewrite insert_id by done. split_and!; try done. apply (si_nonzero _ Hinv). }
  assert (0 < tx_txnId tx < 2 ^ 64) as Htid by (pose proof (si_ids _ Hinv _ _ Hl); pose proof (si_seq _ Hinv); cbn in *; lia).
  assert (ks_nextBinlogSeq ks <> TXNID_UNINITED) as Hn0 by (pose proof (si_visible _ Hinv); unfold TXNID_UNINITED; cbn in *; lia).
  destruct (add_alive_ok _ _ _ _ (ks_nextBinlogSeq ks) Hinv Hl) as (ks1 & E1 & Hi1 & _); [lia|].
  inv_d by by rewrite Hr. rewrite Hb. unfold RocksKVStore_assignBinlogIdIfNeeded, RocksTxn_setBinlogId. rewrite Z.eqb_refl. inv_d by done.
  rewrite bind_Ret, E1, !bind_Ret. inv_d by by rewrite (proj2 (Z.eqb_neq _ _)).
  cbn [tx_with_binlogId tx_chunkId tx_txnId tx_replLogValues tx_db tx_replOnly tx_binlogId].
  destruct (RecordKey_encode_total _ (log_rk_wf (ks_nextBinlogSeq ks))) as (ck & _ & Ek).
  change (ReplLogKeyV2_encode (mkReplLogKey (ks_nextBinlogSeq ks))) with (RecordKey_encode (log_rk (ks_nextBinlogSeq ks))). rewrite Ek, bind_Ret.
  assert (is_u64 (re_timestamp back)) as Hts by (rewrite Forall_forall in He; by apply (He back), last_Some_elem_of).
  set (v := mkReplLogValue _ _ _ _ _ _ _ _). assert (value_wf v) as Hv by (unfold v, value_wf, is_u; cbn; split_and!; (apply Hc || apply Hts || apply Hep || lia || done)).
  rewrite (ReplLogValueV2_encode_eq v _ Hv He). destruct (log_rv_encode v (tx_replLogValues tx)) as [s ->]. rewrite bind_Ret.
  destruct (rdb_put_healthy (tx_db tx) (RocksKVStore_getBinlogColumnFamilyHandle cfg) (rk_raw (log_rk (ks_nextBinlogSeq ks)) ck) s) as [db Ep].
  unfold rk_raw in Ep. rewrite Ep. exists ks1. eexists _, (ks_nextBinlogSeq ks), _. split; [reflexivity|]. split_and!; try done.
  - intros Hin. apply (bo_durable _ _ _ _ _ (si_binlogs _ Hinv)) in Hin as [?|[w Hw]]; [pose proof (si_visible _ Hinv); cbn in *; lia|].
    apply (bo_bounds _ _ _ _ _ (si_binlogs _ Hinv)) in Hw. cbn in Hw. lia.
  - by rewrite (proj2 (Z.eqb_neq _ _)).
Qed.

(** What a commit of [tx] that returned [r] leaves of the database [db0]: the records that the
    transaction saw or, when the database refuses the commit, what was there. *)
Definition commit_outcome (db0 : T) (tx : RocksTxn T) (db : T) (r : M Z) : Prop :=
  match r with
  | Ret id => id = tx_txnId tx /\ forall (tx' : RocksTxn T) k, tx_db tx' = db -> data_key k -> raw_record tx' k = raw_record tx k
  | Throw _ _ => db = db0 /\ exists t, forall t', rdb_commit t <> ROk t'
  | Crash _ => False
  end.

(** The commit of a transaction that has not ended returns. *)
Lemma commit_total ks live dur (db0 : T) (tx : RocksTxn T) cmd ep :
  sys_inv (mkSys ks live dur) -> live !! tx_txnId tx = Some TXNID_UNINITED -> ks_nextBinlogSeq ks < 2 ^ 64 - 1 ->
  writable tx -> log_ok tx -> zlen cmd < 2 ^ 60 -> is_u64 ep ->
  exists ks' db' r dur', RocksTxn_commit cfg ks db0 tx cmd ep = Ret (ks', db', r) /\ sys_inv (mkSys ks' (delete (tx_txnId tx) live) dur') /\
    commit_outcome db0 tx db' r.
Proof.
  intros Hinv Hl Hn Hw Hlog Hcmd Hep. destruct (commit_log_total ks live dur tx cmd ep Hinv Hl Hn Hw Hlog Hcmd Hep) as (ks1 & tx1 & b & bid & El & Eid & Ero & Hi & Hb & ->).
  pose proof (lookup_insert_eq live (tx_txnId tx) b) as Hl1. assert (delete (tx_txnId tx) (<[tx_txnId tx := b]> live) = delete (tx_txnId tx) live) as Ed by apply delete_insert_eq.
  assert (exists ks2 dur', RocksKVStore_markCommitted ks1 (tx_txnId tx) (if b =? TXNID_UNINITED then TXNID_UNINITED else tx_txnId tx) = Ret ks2 /\ sys_inv (mkSys ks2 (delete (tx_txnId tx) live) dur')) as (ks2 & dur2 & Em & Hi2).
  { rewrite <-Ed. destruct (Z.eqb_spec b TXNID_UNINITED) as [Eb|Hb0].
    - destruct (mark_ok _ _ _ _ _ TXNID_UNINITED Hi Hl1) as (ks2 & E & Hi2 & _); [done|]. by exists ks2, dur.
    - destruct (write_ok _ _ _ _ _ Hi Hl1 Hb0) as [Hi' _]. destruct (mark_ok _ _ _ _ _ (tx_txnId tx) Hi' Hl1) as (ks2 & E & Hi2 & _); [|by exists ks2, ({[b]} ∪ dur)].
      intros _. split; [intros _; by apply elem_of_union_l, elem_of_singleton|]. intros _. pose proof (si_ids _ Hi _ _ Hl1) as Ht. cbn in Ht. unfold TXNID_UNINITED. lia. }
  destruct (mark_ok _ _ _ _ _ TXNID_UNINITED Hi Hl1) as (ks3 & Em' & Hi3 & _); [by intros _; split; [by intros []|]|]. rewrite Ed in Hi3.
  assert (forall ks' db' r, RocksTxn_commit cfg ks db0 tx cmd ep = Ret (ks', db', r) -> r = Ret (tx_txnId tx) -> forall (tx' : RocksTxn T) k, tx_db tx' = db' -> data_key k -> raw_record tx' k = raw_record tx k) as Hrec.
  { intros ks' db' r E ->. exact (commit_records ks db0 tx cmd ep ks' db' _ E). }
  unfold RocksTxn_commit in *. rewrite (INVARIANT_D_bind _ _) in * by (by rewrite (proj1 (proj2 Hw))). rewrite El, bind_Ret, Ero, Eid in *. cbn [andb] in *.
  destruct (rdb_commit (tx_db tx1)) as [db2|msg|msg|msg|msg] eqn:Ec; cbn [RocksKVStore_handleRocksdbError status_of] in *;
    [|..|destruct (rdb_commit_intact _ _ Ec)|]; rewrite ?bind_Ret in *; cbn [negb] in *; rewrite (INVARIANT_D_bind _ _) in * by (destruct (b =? _); rewrite ?Z.eqb_refl, ?orb_true_r; done).
  1: rewrite Em, bind_Ret in *; exists ks2, db2, (Ret (tx_txnId tx)), dur2; split_and!; [done|done|split; [done|by apply (Hrec ks2 db2 _ eq_refl)]].
  all: rewrite Em', bind_Ret in *; eexists ks3, db0, _, dur; split_and!; [reflexivity|done|split; [done|]]; exists (tx_db tx1); intros t'; by rewrite Ec.
Qed.

End Store.
