(* ===== verification/Replicate.v ===== *)
(** From a transaction on the master to the same contents on a replica (storage/rocks,
    replication/repl_util.cpp): the writes of a transaction, its log, and the application of the
    log, over the interface of RocksDB and an instance of it in memory. *)

From Stdlib Require Import Strings.Byte ZArith Lia.
From stdpp Require Import base list numbers strings gmap relations.
From S2P Require Import Prelude Status Varint Strings Record RecordValue ReplLog BinlogSeq Txn Store.

Local Open Scope Z_scope.

(** * What a log says *)

(** The contents of a database. *)
Abbreviation contents := (ColumnFamily -> bytes -> option bytes).

(** The contents after an entry that sets or deletes a key of the data. *)
Definition play1 (e : ReplLogValueEntryV2) (r : contents) : contents := fun cf k =>
  if decide ((cf, k) = (CF_Default, re_key e))
  then (if decide (re_op e = REPL_OP_SET) then Some (re_val e) else None) else r cf k.

Definition play (es : list ReplLogValueEntryV2) (r : contents) : contents :=
  fold_left (fun r e => play1 e r) es r.

Definition is_data_entry (e : ReplLogValueEntryV2) : Prop :=
  re_op e = REPL_OP_SET \/ re_op e = REPL_OP_DEL.

Lemma play1_ext e (r1 r2 : contents) :
  (forall cf k, r1 cf k = r2 cf k) -> forall cf k, play1 e r1 cf k = play1 e r2 cf k.
Proof. intros H cf k. unfold play1. destruct (decide _); [done|apply H]. Qed.

Lemma play_ext es : forall r1 r2 : contents,
  (forall cf k, r1 cf k = r2 cf k) -> forall cf k, play es r1 cf k = play es r2 cf k.
Proof. induction es as [|e es IH]; intros r1 r2 H; [done|]. apply IH. by apply play1_ext. Qed.

(** * Writes of a transaction *)

(** A write of a command, at a time. *)
Inductive TxnOp : Set :=
  | TSet (key : RecordKey) (value : RecordValue) (now : Z)
  | TDel (key : RecordKey) (now : Z).

Definition op_key (op : TxnOp) : RecordKey := match op with TSet k _ _ | TDel k _ => k end.
Definition op_now (op : TxnOp) : Z := match op with TSet _ _ n | TDel _ n => n end.

(** A bound on the bytes of the log entry of a write. *)
Definition op_size (op : TxnOp) : Z :=
  200 + zlen (rk_pk (op_key op)) + zlen (rk_sk (op_key op)) +
  match op with TSet _ v _ => zlen (rv_value v) | TDel _ _ => 0 end.

Definition ops_size (ops : list TxnOp) : Z := foldr (fun op n => op_size op + n) 0 ops.

(** Records of the data, with the chunk of a slot. *)
Definition op_wf (op : TxnOp) : Prop :=
  RecordKey_wf (op_key op) /\ rk_type (op_key op) <> RT_BINLOG /\ rk_chunkId (op_key op) <> CHUNKID_FLUSH /\
  is_u64 (op_now op) /\ match op with TSet _ v _ => RecordValue_wf v | TDel _ _ => True end.

Section Writes.
Context {BM : BuildMode} {T : Type} `{RocksDB T}.

Definition run_op (cfg : StoreCfg) (tx : RocksTxn T) (op : TxnOp) : M (RocksTxn T) :=
  match op with
  | TSet key value now => RocksKVStore_setKV cfg key value tx now
  | TDel key now => RocksKVStore_delKV cfg key tx now
  end.

Fixpoint run_ops (cfg : StoreCfg) (tx : RocksTxn T) (ops : list TxnOp) : M (RocksTxn T) :=
  match ops with
  | [] => Ret tx
  | op :: ops' => tx ← run_op cfg tx op; run_ops cfg tx ops'
  end.

End Writes.

Lemma entry_raw_bound op ts k v :
  is_u64 ts -> zlen k < 2 ^ 60 -> zlen v < 2 ^ 60 ->
  entry_wf (mkEntry op ts k v) /\ zlen (entry_raw (mkEntry op ts k v)) <= 31 + zlen k + zlen v.
Proof.
  intros Ht Hk Hv. split; [split_and!; cbn [re_timestamp re_key re_val]; (done || lia)|]. unfold entry_raw. cbn [re_op re_timestamp re_key re_val]. rewrite !zlen_app.
  change (zlen [op]) with 1. pose proof (varintEncode_len _ Ht).
  pose proof (zlen_len_str k ltac:(lia)). pose proof (zlen_len_str v ltac:(lia)). lia.
Qed.

Lemma rk_raw_bound k c : RecordKey_wf k -> zlen (rk_raw k c) <= 22 + zlen (rk_pk k) + zlen (rk_sk k).
Proof. intros Hwf. pose proof (rk_raw_size k c Hwf). rewrite zlen_rk_raw. lia. Qed.

(** * The master *)

Section Master.
Context {BM : BuildMode} {T : Type} `{RocksDBLaws T} {HH : RocksDBHealthy T} {HC : RocksDBCommits T}.
Variable cfg : StoreCfg.
Hypothesis Hlog : cfg_enableRepllog cfg = true.
Hypothesis Hcat : cfg_isCatalog cfg = false.

(** A transaction in the middle of its writes. *)
Definition writing (tx : RocksTxn T) : Prop :=
  tx_replOnly tx = false /\ is_u32 (tx_chunkId tx) /\ tx_chunkId tx <> CHUNKID_FLUSH.

(** [tx'] is [tx] after the entries [es]. *)
Definition wrote (tx tx' : RocksTxn T) (es : list ReplLogValueEntryV2) : Prop :=
  tx_txnId tx' = tx_txnId tx /\ tx_binlogId tx' = tx_binlogId tx /\ tx_done tx' = tx_done tx /\
  writing tx' /\ tx_replLogValues tx' = tx_replLogValues tx ++ es /\
  Forall entry_wf es /\ Forall is_data_entry es /\
  forall cf k, rdb_read (tx_db tx') cf k = play es (rdb_read (tx_db tx)) cf k.

Lemma setChunkId_ok (tx : RocksTxn T) c :
  writing tx -> is_u32 c -> c <> CHUNKID_FLUSH ->
  exists c', RocksTxn_setChunkId tx c =
    Ret (mkTxn (tx_txnId tx) (tx_binlogId tx) c' (tx_replOnly tx) (tx_done tx) (tx_replLogValues tx) (tx_db tx)) /\
    is_u32 c' /\ c' <> CHUNKID_FLUSH.
Proof.
  intros (_ & Hu & Hf) Hc Hcf. unfold RocksTxn_setChunkId. destruct (Z.eqb_spec (tx_chunkId tx) CHUNKID_UNINITED); [by eexists|].
  destruct (Z.eqb_spec c CHUNKID_FLUSH); [done|]. destruct (Z.eqb_spec (tx_chunkId tx) c) as [->|]; cbn [negb].
  - exists (tx_chunkId tx). by destruct tx.
  - inv_d by (by rewrite (proj2 (Z.eqb_neq _ _))). eexists. by split_and!.
Qed.

(** The log entry of a write on the key [k]. *)
Lemma log_entry_ok (tx : RocksTxn T) k s op now val :
  writing tx -> RecordKey_wf k -> RecordKey_encode k = Ret s -> rk_chunkId k <> CHUNKID_FLUSH -> is_u64 now ->
  exists c', log_entry cfg tx op 0 now s val =
    Ret (mkTxn (tx_txnId tx) (tx_binlogId tx) c' (tx_replOnly tx) (tx_done tx)
           (tx_replLogValues tx ++ [mkEntry op now s val]) (tx_db tx)) /\
    is_u32 c' /\ c' <> CHUNKID_FLUSH.
Proof.
  intros Hw Hk Hs Hf Hn. destruct (RecordKey_encode_total k Hk) as (c & Hc & E). rewrite E in Hs. apply (inj Ret) in Hs as Es.
  unfold log_entry. cbn [negb Z.eqb]. rewrite (wrap_id 64 now Hn). rewrite Hlog. inv_d by (by rewrite Hcat).
  replace (RecordKey_decodeChunkId s) with (Ret (rk_chunkId k)) by (subst s; symmetry; by apply decodeChunkId_raw).
  rewrite bind_Ret. destruct (setChunkId_ok tx (rk_chunkId k) Hw) as (c' & Ec & Hc'); [apply Hk|done|].
  rewrite Ec, bind_Ret. exists c'. split; [|done]. unfold warn_too_big. cbn [tx_replLogValues].
  destruct (RecordKey_decode_encode k s Hk) as (k' & Dk & _); [by subst s|]. rewrite Dk.
  by destruct (_ =? 65535).
Qed.

Lemma run_op_ok (tx : RocksTxn T) op :
  writing tx -> op_wf op -> op_size op < 2 ^ 59 ->
  exists tx' e, run_op cfg tx op = Ret tx' /\ wrote tx tx' [e] /\ zlen (entry_raw e) <= op_size op.
Proof.
  intros Hw (Hk & Ht & Hf & Hn & Hv) Hsz. destruct (RecordKey_encode_total (op_key op) Hk) as (c & Hc & E).
  pose proof (rk_raw_bound (op_key op) c Hk) as Hkb. change (RecordKey_encode (op_key op) = Ret (rk_raw (op_key op) c)) in E.
  pose proof (zlen_nonneg (rk_pk (op_key op))). pose proof (zlen_nonneg (rk_sk (op_key op))).
  assert (tx_replOnly tx = false) as Hr by apply Hw.
  unfold op_size in *. destruct op as [key value now|key now]; cbn [op_key op_now run_op] in *.
  - destruct (RecordValue_encode_total value Hv) as (cv & Hcv & Ev). pose proof (rv_raw_bound value cv Hv) as Hvb.
    pose proof (zlen_nonneg (rv_value value)). unfold RocksKVStore_setKV, RocksTxn_setKV. rewrite E, Ev, !bind_Ret, Hr.
    destruct (rdb_put_healthy (tx_db tx) RocksKVStore_getDataColumnFamilyHandle (rk_raw key c) (rv_raw value cv)) as [db Edb].
    rewrite Edb. cbn [rocks_ok]. rewrite bind_Ret.
    destruct (log_entry_ok (tx_with_db tx db) key _ REPL_OP_SET now (rv_raw value cv) Hw Hk E Hf Hn) as (c' & -> & Hu & Hnf).
    destruct (entry_raw_bound REPL_OP_SET now (rk_raw key c) (rv_raw value cv) Hn) as [He Hb]; [lia|lia|].
    eexists _, (mkEntry REPL_OP_SET now (rk_raw key c) (rv_raw value cv)). split_and!; [done| |lia]. unfold wrote; cbn. split_and!; try done; [by apply Forall_singleton|by apply Forall_singleton; left|].
    intros cf k. rewrite (rdb_read_put _ _ _ _ _ Edb). unfold play1. cbn [re_key re_op re_val]. by destruct (decide _).
  - unfold RocksKVStore_delKV, RocksTxn_delKV. rewrite E, bind_Ret, Hr.
    rewrite (decodeType_raw key c) by done. rewrite bind_Ret.
    unfold RocksKVStore_getColumnFamilyHandleByRecordType. rewrite bool_decide_eq_false_2 by done.
    destruct (rdb_del_healthy (tx_db tx) RocksKVStore_getDataColumnFamilyHandle (rk_raw key c)) as [db Edb].
    rewrite Edb. cbn [rocks_ok]. rewrite bind_Ret.
    destruct (log_entry_ok (tx_with_db tx db) key _ REPL_OP_DEL now [] Hw Hk E Hf Hn) as (c' & -> & Hu & Hnf).
    destruct (entry_raw_bound REPL_OP_DEL now (rk_raw key c) [] Hn) as [He Hb]; [lia|done|]. change (zlen []) with 0 in Hb.
    eexists _, (mkEntry REPL_OP_DEL now (rk_raw key c) []). split_and!; [done| |lia]. unfold wrote; cbn. split_and!; try done; [by apply Forall_singleton|by apply Forall_singleton; right|].
    intros cf k. rewrite (rdb_read_del _ _ _ _ Edb). unfold play1. cbn [re_key re_op]. by destruct (decide _).
Qed.

Lemma run_ops_ok ops : forall tx : RocksTxn T,
  writing tx -> Forall op_wf ops -> ops_size ops < 2 ^ 59 ->
  exists tx' es, run_ops cfg tx ops = Ret tx' /\ wrote tx tx' es /\
    zlen (entries_raw es) <= ops_size ops /\ length es = length ops.
Proof.
  induction ops as [|op ops IH]; intros tx Hw Hwf Hsz; cbn [run_ops ops_size foldr] in *.
  { exists tx, []. split_and!; try done. unfold wrote. rewrite app_nil_r. by split_and!. }
  fold (ops_size ops) in *. apply Forall_cons in Hwf as [Hop Hops].
  assert (0 <= ops_size ops /\ 0 <= op_size op) as [Hn1 Hn2].
  { assert (forall o, 0 <= op_size o) as Ho; [|split; [|apply Ho]].
    - intros o. unfold op_size. pose proof (zlen_nonneg (rk_pk (op_key o))).
      pose proof (zlen_nonneg (rk_sk (op_key o))). destruct o as [? v ?|]; [pose proof (zlen_nonneg (rv_value v))|]; lia.
    - clear -Ho. induction ops as [|o ops IH]; cbn; [lia|]. specialize (Ho o). fold (ops_size ops). lia. }
  destruct (run_op_ok tx op Hw Hop) as (tx1 & e & E1 & (Hid & Hb & Hd & Hw1 & Hl & He & Hde & Hr) & Hz); [lia|].
  destruct (IH tx1 Hw1 Hops) as (tx2 & es & E2 & (Hid2 & Hb2 & Hd2 & Hw2 & Hl2 & He2 & Hde2 & Hr2) & Hz2 & Hlen); [lia|].
  exists tx2, (e :: es). rewrite E1, bind_Ret, E2. split; [done|]. split; [|split].
  - unfold wrote. split_and!; try congruence; try apply Hw2.
    + by rewrite Hl2, Hl, <-app_assoc.
    + constructor; [by inversion He|done].
    + constructor; [by inversion Hde|done].
    + intros cf k. rewrite Hr2. cbn [play fold_left]. fold (play es). by apply play_ext.
  - unfold entries_raw in *. cbn [map concat]. rewrite zlen_app. lia.
  - cbn. by rewrite Hlen.
Qed.

(** A log that is written and committed once its transaction has an id. *)
Lemma log_steps s t id ks1 live dur ks2 :
  sys_step s (mkSys ks1 (<[t := id]> live) dur) -> id <> TXNID_UNINITED ->
  RocksKVStore_markCommitted ks1 t t = Ret ks2 ->
  rtc sys_step s (mkSys ks2 (delete t (<[t := id]> live)) ({[id]} ∪ dur)).
Proof.
  intros Hs Hid E. pose proof (lookup_insert_eq live t id) as Hl. eapply rtc_l; [exact Hs|].
  eapply rtc_l; [by eapply ss_write|]. apply rtc_once. apply ss_commit with (b := id); try done.
  - right. by apply elem_of_union_l, elem_of_singleton.
  - by rewrite (proj2 (Z.eqb_neq _ _)).
Qed.

(** The contents with one more binding. *)
Definition put1 (cf : ColumnFamily) (k v : bytes) (r : contents) : contents := fun cf' k' =>
  if decide ((cf', k') = (cf, k)) then Some v else r cf' k'.

(** The header a transaction gives its log. *)
Definition txn_log (tx : RocksTxn T) (ts : Z) (cmd : bytes) (ep : Z) : ReplLogValueV2 :=
  mkReplLogValue (tx_chunkId tx) (Z.lor REPL_GROUP_START REPL_GROUP_END) (tx_txnId tx) ts ep cmd [] 0.

Lemma txn_log_wf (tx : RocksTxn T) es e cmd ep :
  writing tx -> 0 <= tx_txnId tx < 2 ^ 64 -> last es = Some e -> Forall entry_wf es ->
  zlen (entries_raw es) < 2 ^ 60 -> zlen cmd < 2 ^ 60 -> is_u64 ep ->
  let v := txn_log tx (re_timestamp e) cmd ep in
  value_wf v /\ zlen (hdr_raw v ++ entries_raw es) < 2 ^ 62.
Proof.
  intros Hw Htid Hlast Hwf Hsz Hcmd Hep v. split.
  - assert (is_u64 (re_timestamp e)) as Hts.
    { rewrite Forall_forall in Hwf. apply (Hwf e). by apply last_Some_elem_of. }
    unfold v, value_wf, txn_log; cbn [rl_chunkId rl_flag rl_txnId rl_timestamp rl_versionEp rl_cmd].
    split_and!; try apply Hw; done.
  - rewrite zlen_app. unfold hdr_raw. rewrite zlen_app, zlen_fixed_raw. change FIXED_HEADER_SIZE with 30.
    pose proof (zlen_len_str (rl_cmd v)). cbn [v txn_log rl_cmd] in *. lia.
Qed.

Lemma commit_ok ks live dur (db0 : T) (tx : RocksTxn T) es e cmd ep :
  sys_inv (mkSys ks live dur) -> live !! tx_txnId tx = Some TXNID_UNINITED ->
  ks_nextBinlogSeq ks < 2 ^ 64 - 1 -> writing tx -> tx_binlogId tx = TXNID_UNINITED -> tx_done tx = false ->
  tx_replLogValues tx = es -> last es = Some e -> Forall entry_wf es -> zlen (entries_raw es) < 2 ^ 60 ->
  zlen cmd < 2 ^ 60 -> is_u64 ep ->
  let v := txn_log tx (re_timestamp e) cmd ep in
  exists ks' db' lk lv, RocksTxn_commit cfg ks db0 tx cmd ep = Ret (ks', db', Ret (tx_txnId tx)) /\
    ReplLogKeyV2_encode (mkReplLogKey (ks_nextBinlogSeq ks)) = Ret lk /\ ReplLogValueV2_encode v es = Ret lv /\
    value_wf v /\ zlen (hdr_raw v ++ entries_raw es) < 2 ^ 62 /\
    (forall cf k, rdb_read db' cf k =
      put1 (RocksKVStore_getBinlogColumnFamilyHandle cfg) lk lv (rdb_read (tx_db tx)) cf k) /\
    rtc sys_step (mkSys ks live dur) (mkSys ks' (delete (tx_txnId tx) live) ({[ks_nextBinlogSeq ks]} ∪ dur)).
Proof.
  intros Hinv Hl Hn Hw Hb Hd Hes Hlast Hwf Hsz Hcmd Hep v.
  assert (0 < tx_txnId tx < 2 ^ 64) as Htid.
  { pose proof (si_ids _ Hinv _ _ Hl). pose proof (si_seq _ Hinv). cbn in *. lia. }
  destruct (txn_log_wf tx es e cmd ep Hw ltac:(lia) Hlast Hwf Hsz Hcmd Hep) as [Hv Hsize]. fold v in Hv, Hsize.
  destruct (RecordKey_encode_total _ (log_rk_wf (ks_nextBinlogSeq ks))) as (ck & _ & Ek).
  destruct (RecordValue_encode_total _ (log_rv_wf v es Hsize)) as (c & Hc & Ev).
  rewrite <-ReplLogValueV2_encode_eq in Ev by done.
  assert (ks_nextBinlogSeq ks <> TXNID_UNINITED) as Hn0 by (pose proof (si_visible _ Hinv); unfold TXNID_UNINITED; cbn in *; lia).
  destruct (add_alive_ok _ _ _ _ (ks_nextBinlogSeq ks) Hinv Hl) as (ks1 & E1 & Hi1 & _); [lia|].
  pose proof (lookup_insert_eq live (tx_txnId tx) (ks_nextBinlogSeq ks)) as Hl1.
  destruct (write_ok _ _ _ _ _ Hi1 Hl1) as [Hi2 _]; [done|].
  destruct (mark_ok _ _ _ _ _ (tx_txnId tx) Hi2 Hl1) as (ks2 & E2 & _).
  { intros _. split; [intros _; by apply elem_of_union_l, elem_of_singleton|lia]. }
  destruct (rdb_put_healthy (tx_db tx) (RocksKVStore_getBinlogColumnFamilyHandle cfg)
    (rk_raw (log_rk (ks_nextBinlogSeq ks)) ck) (rv_raw (log_rv v es) c)) as [db1 Ep].
  destruct (rdb_commit_healthy db1) as [db2 Ec].
  exists ks2, db2, (rk_raw (log_rk (ks_nextBinlogSeq ks)) ck), (rv_raw (log_rv v es) c).
  split_and!; try done.
  - unfold RocksTxn_commit, commit_log. inv_d by by rewrite Hd. rewrite Hes, Hlast. inv_d by by rewrite (proj1 Hw).
    rewrite Hb. unfold RocksKVStore_assignBinlogIdIfNeeded, RocksTxn_setBinlogId. rewrite Z.eqb_refl. inv_d by done.
    rewrite bind_Ret, E1, !bind_Ret.
    inv_d by by rewrite (proj2 (Z.eqb_neq _ _)).
    cbn [tx_with_binlogId tx_chunkId tx_txnId tx_replLogValues tx_db tx_replOnly tx_binlogId].
    change (ReplLogKeyV2_encode (mkReplLogKey (ks_nextBinlogSeq ks))) with (RecordKey_encode (log_rk (ks_nextBinlogSeq ks))).
    rewrite Ek, bind_Ret, Hes. fold (txn_log tx (re_timestamp e) cmd ep). fold v. rewrite Ev, bind_Ret.
    unfold rk_raw in Ep. rewrite Ep, bind_Ret. cbn [tx_with_db tx_with_binlogId tx_replOnly tx_txnId tx_binlogId tx_db].
    rewrite (proj1 Hw). cbn [andb negb]. rewrite Ec, bind_Ret. inv_d by by rewrite Z.eqb_refl.
    rewrite E2, bind_Ret. done.
  - intros cf k. rewrite (rdb_read_commit _ _ Ec). apply (rdb_read_put _ _ _ _ _ Ep).
  - rewrite <-(delete_insert_eq live (tx_txnId tx) (ks_nextBinlogSeq ks)). apply (log_steps _ _ _ ks1); try done.
    apply ss_assign with (b := TXNID_UNINITED); try done.
    unfold RocksKVStore_assignBinlogIdIfNeeded, RocksTxn_setBinlogId. rewrite Z.eqb_refl. inv_d by done.
    by rewrite bind_Ret, E1.
Qed.

End Master.

(** * The replica *)

Section Replica.
Context {BM : BuildMode} {T : Type} `{RocksDBLaws T} {HH : RocksDBHealthy T} {HC : RocksDBCommits T}.
Variable cfg : StoreCfg.

Lemma applyBinlog_ok (tx : RocksTxn T) e :
  tx_replOnly tx = true -> is_data_entry e ->
  exists db, RocksTxn_applyBinlog cfg tx e = Ret (tx_with_db tx db) /\
    forall cf k, rdb_read db cf k = play1 e (rdb_read (tx_db tx)) cf k.
Proof.
  intros Hr [Ho|Ho]; unfold RocksTxn_applyBinlog, play1; rewrite Hr, Ho; cbn [negb].
  - rewrite bool_decide_eq_true_2 by done.
    destruct (rdb_put_healthy (tx_db tx) RocksKVStore_getDataColumnFamilyHandle (re_key e) (re_val e)) as [db E].
    exists db. rewrite E. split; [done|]. apply (rdb_read_put _ _ _ _ _ E).
  - rewrite bool_decide_eq_false_2, bool_decide_eq_true_2 by done.
    destruct (rdb_del_healthy (tx_db tx) RocksKVStore_getDataColumnFamilyHandle (re_key e)) as [db E].
    exists db. rewrite E. split; [done|]. apply (rdb_read_del _ _ _ _ E).
Qed.

Definition last_ts (es : list ReplLogValueEntryV2) (ts : Z) : Z :=
  match last es with Some e => re_timestamp e | None => ts end.

Lemma last_ts_cons e es ts : last_ts (e :: es) ts = last_ts es (re_timestamp e).
Proof. unfold last_ts. rewrite last_cons. by destruct (last es). Qed.

Lemma tx_with_db_id (tx : RocksTxn T) : tx_with_db tx (tx_db tx) = tx.
Proof. by destruct tx. Qed.

Lemma apply_entries_raw es : forall fuel (tx : RocksTxn T) pre rest dataSize ts,
  tx_replOnly tx = true -> Forall entry_wf es -> Forall is_data_entry es -> (length es < fuel)%nat ->
  dataSize = zlen pre + zlen (entries_raw es) -> dataSize < 2 ^ 64 ->
  exists db, apply_entries fuel cfg tx (pre ++ entries_raw es ++ rest) (zlen pre) dataSize ts
      = Ret (tx_with_db tx db, dataSize, last_ts es ts) /\
    forall cf k, rdb_read db cf k = play es (rdb_read (tx_db tx)) cf k.
Proof.
  induction es as [|e es IH]; intros fuel tx pre rest dataSize ts Hr Hwf Hde Hf -> Hd;
    (destruct fuel as [|fuel]; [cbn in Hf; lia|]); cbn [apply_entries].
  { exists (tx_db tx). change (zlen (entries_raw [])) with 0. by rewrite Z.add_0_r, Z.ltb_irrefl, tx_with_db_id. }
  apply Forall_cons in Hwf as [He Hes], Hde as [Hd1 Hd2]. destruct (entry_size e He) as [_ Hsz].
  unfold entries_raw in *. cbn [map concat] in *. rewrite zlen_app in *.
  pose proof (zlen_nonneg (concat (map entry_raw es))). pose proof (zlen_nonneg pre).
  destruct (Z.ltb_spec (zlen pre) (zlen pre + (zlen (entry_raw e) + zlen (concat (map entry_raw es))))); [|lia].
  rewrite zdrop_app, <-app_assoc, entry_decode, bind_Ret by (done || lia).
  destruct (applyBinlog_ok tx e Hr Hd1) as (db1 & -> & Hdb1). rewrite bind_Ret.
  destruct (IH fuel (tx_with_db tx db1) (pre ++ entry_raw e) rest
    (zlen pre + (zlen (entry_raw e) + zlen (concat (map entry_raw es)))) (re_timestamp e))
    as (db2 & E & Hdb2); try done; [cbn in Hf; lia|rewrite zlen_app; lia|].
  rewrite zlen_app, <-!app_assoc in E. exists db2. rewrite E, last_ts_cons. split; [done|].
  intros cf k. rewrite Hdb2. cbn [play fold_left]. fold (play es). by apply play_ext.
Qed.

Lemma apply_data_ok (tx : RocksTxn T) id v es lk lv :
  tx_replOnly tx = true -> is_u64 id -> value_wf v -> Forall entry_wf es -> Forall is_data_entry es ->
  zlen (hdr_raw v ++ entries_raw es) < 2 ^ 62 ->
  ReplLogKeyV2_encode (mkReplLogKey id) = Ret lk -> ReplLogValueV2_encode v es = Ret lv ->
  exists db, apply_data cfg tx lk lv = Ret (mkReplLogKey id, tx_with_db tx db, last_ts es 0) /\
    forall cf k, rdb_read db cf k = play es (rdb_read (tx_db tx)) cf k.
Proof.
  intros Hr Hid Hv Hwf Hde Hs Ek Ev. rewrite ReplLogValueV2_encode_eq in Ev by done.
  destruct (RecordValue_encode_total _ (log_rv_wf v es Hs)) as (c & Hc & Ev'). rewrite Ev' in Ev.
  apply (inj Ret) in Ev as <-. unfold apply_data. rewrite (ReplLogKeyV2_decode_raw id _ Hid Ek), bind_Ret.
  rewrite ReplLogValueV2_decode_raw, bind_Ret by done. cbv zeta. cbn [with_data rl_data rl_dataSize].
  rewrite (hdr_size (with_data _ _ _)) by done. change (hdr_raw (with_data v _ _)) with (hdr_raw v).
  destruct (apply_entries_raw es (S (Z.to_nat (zlen (hdr_raw v ++ entries_raw es)))) tx (hdr_raw v) [x00]
    (zlen (hdr_raw v ++ entries_raw es)) 0) as (db & E & Hdb); try done; [|by rewrite zlen_app|lia|].
  { pose proof (entries_count es Hwf). unfold zlen. rewrite Nat2Z.id, length_app. lia. }
  exists db. rewrite <-app_assoc, E, bind_Ret, Z.eqb_refl. done.
Qed.

Lemma create_fields ks b ks' t r :
  RocksKVStore_createTransaction ks (Some b) = Ret (ks', t, r) ->
  r = b /\ ks_nextBinlogSeq ks' = ks_nextBinlogSeq ks.
Proof.
  unfold RocksKVStore_createTransaction, RocksKVStore_addUnCommitedTxnInLock. destruct (negb _); [done|].
  cbn [ks_aliveTxns]. destruct (ks_aliveTxns ks !! _); [done|]. by intros [= <- <- <-].
Qed.

Lemma commit_replica_ok ks (db0 : T) t id c db1 db2 ks' cmd ep :
  id <> TXNID_UNINITED -> rdb_commit db1 = ROk db2 -> RocksKVStore_markCommitted ks t t = Ret ks' ->
  RocksTxn_commit cfg ks db0 (mkTxn t id c true false [] db1) cmd ep = Ret (ks', db2, Ret t).
Proof.
  intros Hid Ec Em. unfold RocksTxn_commit, commit_log. cbn [tx_done tx_replLogValues last]. inv_d by done.
  rewrite bind_Ret. cbn [tx_replOnly tx_binlogId tx_txnId tx_db]. rewrite (proj2 (Z.eqb_neq id _)) by done. cbn [negb andb].
  by rewrite Ec, !bind_Ret, Em.
Qed.

(** A replica that applies a log of data entries ends with what the log says and the log itself. *)
Lemma replica_ok ks live dur (db : T) id v es lk lv cmd ep :
  sys_inv (mkSys ks live dur) -> ks_nextTxnSeq ks < 2 ^ 64 - 1 ->
  ks_nextBinlogSeq ks <= id < 2 ^ 64 - 1 -> value_wf v -> Forall entry_wf es -> Forall is_data_entry es ->
  zlen (hdr_raw v ++ entries_raw es) < 2 ^ 62 ->
  ReplLogKeyV2_encode (mkReplLogKey id) = Ret lk -> ReplLogValueV2_encode v es = Ret lv ->
  exists ks' db', applySingleTxnV2 cfg ks db true lk lv KEEP_BINLOG_ID cmd ep
      = Ret (ks', db', Ret (last_ts es 0, id)) /\
    (forall cf k, rdb_read db' cf k =
      put1 (RocksKVStore_getBinlogColumnFamilyHandle cfg) lk lv (play es (rdb_read db)) cf k) /\
    rtc sys_step (mkSys ks live dur) (mkSys ks' live ({[id]} ∪ dur)).
Proof.
  intros Hinv Hnt Hid Hv Hwf Hde Hs Ek Ev. pose proof (si_visible _ Hinv) as Hvis. cbn [sy_store] in Hvis.
  assert (id <> TXNID_UNINITED) as Hid0 by (unfold TXNID_UNINITED; lia).
  destruct (create_ok _ _ _ (Some true) Hinv Hnt) as (ks1 & r & E1 & Hi1 & Hhv). set (t := ks_nextTxnSeq ks) in *.
  destruct (create_fields _ _ _ _ _ E1) as [-> Hnext].
  assert (live !! t = None) as Hfresh.
  { destruct (live !! t) as [b|] eqn:E; [|done]. pose proof (si_ids _ Hinv _ _ E) as Hx. cbn in Hx. lia. }
  pose proof (lookup_insert_eq live t TXNID_UNINITED) as Hl1.
  destruct (add_alive_ok _ _ _ t id Hi1 Hl1) as (ks2 & E2 & Hi2 & _); [lia|]. rewrite insert_insert_eq in Hi2.
  pose proof (lookup_insert_eq live t id) as Hl2.
  destruct (write_ok _ _ _ _ _ Hi2 Hl2) as [Hi3 _]; [done|].
  destruct (mark_ok _ _ _ _ _ t Hi3 Hl2) as (ks3 & E3 & _).
  { intros _. split; [intros _; by apply elem_of_union_l, elem_of_singleton|].
    intros _. pose proof (si_ids _ Hi2 _ _ Hl2) as Hx. cbn in Hx. lia. }
  destruct (apply_data_ok (RocksTxn_new t true db) id v es lk lv) as (db1 & E4 & Hdb1); try done; [unfold is_u; lia|].
  destruct (rdb_put_healthy db1 (RocksKVStore_getBinlogColumnFamilyHandle cfg) lk lv) as [db2 E5].
  destruct (rdb_commit_healthy db2) as [db3 E6].
  assert (RocksKVStore_setNextBinlogSeq ks1 id t TXNID_UNINITED true = Ret (ks2, id)) as E7.
  { unfold RocksKVStore_setNextBinlogSeq, RocksTxn_setBinlogId. do 2 inv_d by done. by rewrite bind_Ret, E2. }
  exists ks3, db3. split_and!.
  - unfold applySingleTxnV2. cbn [negb]. rewrite E1, bind_Ret, E4. cbn [status_of]. rewrite bind_Ret.
    cbn [store_log rlk_binlogId]. unfold RocksKVStore_getHighestBinlogId.
    rewrite (proj2 (Z.leb_gt _ _)) by lia. unfold RocksTxn_setBinlogKV_id.
    cbn [tx_with_db RocksTxn_new tx_replOnly negb tx_txnId tx_binlogId tx_db]. rewrite E7, bind_Ret.
    inv_d by by rewrite (proj2 (Z.eqb_neq _ _)). rewrite E5. cbn [rocks_ok status_of]. rewrite !bind_Ret.
    unfold tx_with_binlogId, tx_with_db.
    cbn [RocksTxn_new tx_replOnly tx_txnId tx_chunkId tx_binlogId tx_db tx_done tx_replLogValues].
    by rewrite (commit_replica_ok _ _ _ _ _ _ _ _ _ _ Hid0 E6 E3).
  - intros cf k. rewrite (rdb_read_commit _ _ E6), (rdb_read_put _ _ _ _ _ E5). unfold put1.
    destruct (decide _); [done|apply Hdb1].
  - eapply rtc_l; [by apply (ss_begin _ _ _ (Some true) _ _ _ E1)|].
    replace live with (delete t (<[t := id]> live)) at 2 by (by rewrite delete_insert_id).
    apply (log_steps _ _ _ ks2); try done. rewrite <-(insert_insert_eq live t id TXNID_UNINITED). apply ss_setnext with (id := id); [done|lia|done].
Qed.

End Replica.

(** * A database in memory *)

#[export] Instance ColumnFamily_countable : Countable ColumnFamily.
Proof.
  apply (inj_countable' (fun cf => match cf with CF_Default => true | CF_Binlog => false end)
    (fun b : bool => if b then CF_Default else CF_Binlog)). by intros [].
Defined.

Abbreviation MemDB := (gmap (ColumnFamily * bytes) bytes).

(** Whether [k] of [cf'] is in the range that starts at [begin]. *)
Definition in_range (cf cf' : ColumnFamily) (begin end_ k : bytes) (include_end : bool) : bool :=
  bool_decide (cf = cf') &&
  match bytes_compare begin k with Gt => false | _ => true end &&
  match bytes_compare k end_ with Lt => true | Eq => include_end | Gt => false end.

Definition mem_del_range (t : MemDB) (cf : ColumnFamily) (begin end_ : bytes) (include_end : bool) : MemDB :=
  filter (fun p => in_range cf p.1.1 begin end_ p.1.2 include_end = false) t.

#[export] Instance MemDB_RocksDB : RocksDB MemDB := {|
  rdb_get t cf k := match t !! (cf, k) with Some v => ROk v | None => RNotFound (lit "NotFound: ") end;
  rdb_put t cf k v := ROk (<[(cf, k) := v]> t);
  rdb_del t cf k := ROk (delete (cf, k) t);
  rdb_del_range t cf b e := ROk (mem_del_range t cf b e false);
  rdb_del_files t cf b e incl := ROk (mem_del_range t cf b e incl);
  rdb_commit t := ROk t
|}.

Lemma mem_read (t : MemDB) cf k : rdb_read t cf k = t !! (cf, k).
Proof. unfold rdb_read. cbn. by destruct (t !! (cf, k)). Qed.

(** A database on which every commit meets a conflict. *)
Definition busy_db : RocksDB MemDB := {|
  rdb_get := rdb_get;
  rdb_put := rdb_put;
  rdb_del := rdb_del;
  rdb_del_range := rdb_del_range;
  rdb_del_files := rdb_del_files;
  rdb_commit t := RBusy (lit "Resource busy: ")
|}.

#[export] Instance MemDB_laws : RocksDBLaws MemDB.
Proof.
  constructor.
  - intros t cf k v t' [= <-] cf' k'. rewrite !mem_read. destruct (decide _) as [->|]; [apply lookup_insert_eq|].
    by rewrite lookup_insert_ne.
  - intros t cf k t' [= <-] cf' k'. rewrite !mem_read. destruct (decide _) as [->|]; [apply lookup_delete_eq|].
    by rewrite lookup_delete_ne.
  - by intros t t' [= <-].
Qed.

#[export] Instance MemDB_healthy : RocksDBHealthy MemDB.
Proof.
  constructor; try (intros; by eexists); [|done]. intros t cf k. cbn. destruct (t !! (cf, k)); eauto.
Qed.

#[export] Instance MemDB_commits : RocksDBCommits MemDB.
Proof. constructor. intros t. by exists t. Qed.

(** * Replication *)

(** C4: replication converges: a transaction that writes records of the data on the master runs
    and commits; the log it leaves in the binlog, applied by a replica with the same contents
    and no newer log, is accepted under the master's id and leaves the replica with the
    contents of the master, data and binlog; on both sides the ids go through the steps of
    BinlogSeq.v. *)
Theorem replication_converges {BM : BuildMode} {T : Type} `{RocksDBLaws T} {HH : RocksDBHealthy T} {HC : RocksDBCommits T}
    (cfg : StoreCfg) (ops : list TxnOp) ks live dur t (db : T) cmd ep ksr liver durr (dbr : T) cmd' ep' :
  cfg_enableRepllog cfg = true -> cfg_isCatalog cfg = false ->
  ops <> [] -> Forall op_wf ops -> ops_size ops < 2 ^ 59 -> zlen cmd < 2 ^ 60 -> is_u64 ep ->
  sys_reachable (mkSys ks live dur) -> live !! t = Some TXNID_UNINITED -> ks_nextBinlogSeq ks < 2 ^ 64 - 1 ->
  sys_reachable (mkSys ksr liver durr) -> ks_nextTxnSeq ksr < 2 ^ 64 - 1 ->
  ks_nextBinlogSeq ksr <= ks_nextBinlogSeq ks -> rdb_equiv dbr db ->
  exists tx ks' db' logKey logValue ksr' dbr' ts,
    run_ops cfg (RocksTxn_new t false db) ops = Ret tx /\
    RocksTxn_commit cfg ks db tx cmd ep = Ret (ks', db', Ret t) /\
    rdb_read db' (RocksKVStore_getBinlogColumnFamilyHandle cfg) logKey = Some logValue /\
    applySingleTxnV2 cfg ksr dbr true logKey logValue KEEP_BINLOG_ID cmd' ep'
      = Ret (ksr', dbr', Ret (ts, ks_nextBinlogSeq ks)) /\
    rdb_equiv dbr' db' /\
    rtc sys_step (mkSys ks live dur) (mkSys ks' (delete t live) ({[ks_nextBinlogSeq ks]} ∪ dur)) /\
    rtc sys_step (mkSys ksr liver durr) (mkSys ksr' liver ({[ks_nextBinlogSeq ks]} ∪ durr)).
Proof.
  intros Hlog Hcat Hne Hwf Hsz Hcmd Hep Hinv%sys_reachable_inv Hl Hn Hinvr%sys_reachable_inv Hnt Hle Heq.
  destruct (run_ops_ok cfg Hlog Hcat ops (RocksTxn_new t false db)) as (tx & es & Er & Hw & Hz & Hlen); try done.
  destruct Hw as (Hid & Hb & Hd & Hw & Hes & Hewf & Hde & Hrd). cbn [RocksTxn_new tx_replLogValues app tx_db tx_txnId] in *.
  destruct (last es) as [e|] eqn:Hlast; [|apply last_None in Hlast; rewrite Hlast in Hlen; by destruct ops].
  destruct (commit_ok cfg ks live dur db tx es e cmd ep) as (ks' & db' & lk & lv & Ec & Ek & Ev & Hv & Hs & Hrd' & Hst);
    try done; [by rewrite Hid|lia|].
  destruct (replica_ok cfg ksr liver durr dbr (ks_nextBinlogSeq ks)
    (txn_log tx (re_timestamp e) cmd ep) es lk lv cmd' ep' Hinvr Hnt)
    as (ksr' & dbr' & Ea & Hra & Hsr); try done.
  rewrite Hid in *. exists tx, ks', db', lk, lv, ksr', dbr', (last_ts es 0). split_and!; try done.
  - rewrite Hrd'. unfold put1. by rewrite decide_True.
  - intros cf k. rewrite Hra, Hrd'. unfold put1. destruct (decide _); [done|]. rewrite Hrd. apply play_ext, Heq.
Qed.

(** A transaction that sets a key and deletes another. *)
Definition demo_cfg : StoreCfg := mkCfg true 0 false false.

Definition demo_writes : list TxnOp :=
  [TSet (RecordKey_new 5 0 RT_KV (lit "a") [] 0) (RecordValue_new (lit "1") RT_KV MAXU64 0 (-1) 0 MAXU64) 1700000000000;
   TDel (RecordKey_new 7 0 RT_HASH_ELE (lit "h") (lit "f") 0) 1700000000001].

Definition demo_master : sys :=
  default (sys_start READ_WRITE None 1 ∅) (@sys_exec true (sys_start READ_WRITE None 1 ∅) [SBegin]).

Definition demo_replica : sys := sys_start REPLICATE_ONLY None 1 ∅.

Lemma sys_eta s : mkSys (sy_store s) (sy_live s) (sy_durable s) = s.
Proof. by destruct s. Qed.

Lemma demo_writes_wf : Forall op_wf demo_writes.
Proof.
  apply Forall_cons; split; [|apply Forall_singleton].
  - split; [by apply RecordKey_wf_new|]. by unfold RecordValue_wf; split_and!.
  - split; [by apply RecordKey_wf_new|]. by split_and!.
Qed.

Lemma replication_converges_witness :
  exists tx ks' db' logKey logValue ksr' dbr' ts,
    @run_ops true MemDB _ demo_cfg (RocksTxn_new 1 false ∅) demo_writes = Ret tx /\
    @RocksTxn_commit true MemDB _ demo_cfg (sy_store demo_master) ∅ tx (lit "set") 3 = Ret (ks', db', Ret 1) /\
    @applySingleTxnV2 true MemDB _ demo_cfg (sy_store demo_replica) ∅ true logKey logValue KEEP_BINLOG_ID [] 0
      = Ret (ksr', dbr', Ret (ts, 1)) /\
    rdb_equiv dbr' db'.
Proof.
  destruct (@replication_converges true MemDB _ _ _ _ demo_cfg demo_writes (sy_store demo_master) (sy_live demo_master)
    (sy_durable demo_master) 1 ∅ (lit "set") 3 (sy_store demo_replica) ∅ ∅ ∅ [] 0)
    as (tx & ks' & db' & lk & lv & ksr' & dbr' & ts & E1 & E2 & _ & E3 & Heq & _);
    [done|done|done|apply demo_writes_wf|done|done|done| |reflexivity|reflexivity| |done|done|done|].
  - exists READ_WRITE, None, 1, ∅, 0. split; [done|]. rewrite sys_eta. apply run_steps, sys_exec_default.
  - exists REPLICATE_ONLY, None, 1, ∅, 0. split; [done|constructor].
  - by exists tx, ks', db', lk, lv, ksr', dbr', ts.
Defined.
