(* ===== verification/Cursor.v ===== *)
(** The cursors of a store (storage/kvstore.cpp, storage/rocks/rocks_kvstore.cpp): the iterator of
    RocksDB as an interface, the cursor over it, and the cursors over the data, the binlogs, the
    index of expiries and the slots that stop where their records end. *)

From Stdlib Require Import Strings.Byte ZArith Lia Sorting.Sorted.
From stdpp Require Import base list numbers strings gmap sorting.
From S2P Require Import Prelude Status Varint Strings Record RecordValue RecordMeta ReplLog BinlogSeq Txn Store Replicate.

Local Open Scope Z_scope.

(** * The iterator of RocksDB *)

(** What an iterator goes over: the entries in the order of their keys, up to the end or to the
    error it meets. *)
Record Scan : Set := mkScan {
  scan_entries : list (bytes * bytes);
  scan_error : option bytes
}.

(** [NewIterator] and [GetIterator], with [iterate_upper_bound]. *)
Class RocksIter (T : Type) `{RocksDB T} : Type := {
  rdb_scan : T -> ColumnFamily -> option bytes -> Scan
}.

Definition below (upper : option bytes) (k : bytes) : bool :=
  match upper with None => true | Some u => bytes_lt k u end.

Definition entry_lt (a b : bytes * bytes) : Prop := bytes_lt (fst a) (fst b) = true.

(** An iterator that meets no error goes over the contents in the order of the keys. *)
Class RocksIterLaws (T : Type) `{RocksIter T} : Prop := {
  scan_sorted t cf upper : StronglySorted entry_lt (scan_entries (rdb_scan t cf upper));
  scan_content t cf upper : scan_error (rdb_scan t cf upper) = None ->
    forall k v, (k, v) ∈ scan_entries (rdb_scan t cf upper) <-> rdb_read t cf k = Some v /\ below upper k = true
}.

Class RocksIterHealthy (T : Type) `{RocksIter T} : Prop := {
  scan_healthy t cf upper : scan_error (rdb_scan t cf upper) = None
}.

(** * RocksKVCursor *)

(** [cu_pos] is the place of the iterator: it is not valid in front of the first entry and behind
    the last one. *)
Record RocksKVCursor : Set := mkCursor {
  cu_scan : Scan;
  cu_pos : Z;
  cu_seeked : bool
}.

Definition RocksKVCursor_new (s : Scan) : RocksKVCursor := mkCursor s (-1) false.

(** [Seek]: the first entry whose key is not below the target. *)
Definition seek_pos (entries : list (bytes * bytes)) (target : bytes) : Z :=
  zlen (List.filter (fun e => bytes_lt (fst e) target) entries).

Definition RocksKVCursor_seek (c : RocksKVCursor) (prefix : bytes) : RocksKVCursor :=
  mkCursor (cu_scan c) (seek_pos (scan_entries (cu_scan c)) prefix) true.

(** [SeekToLast]; an iterator cannot go past an error. *)
Definition RocksKVCursor_seekToLast (c : RocksKVCursor) : RocksKVCursor :=
  let n := zlen (scan_entries (cu_scan c)) in
  mkCursor (cu_scan c) (match scan_error (cu_scan c) with None => n - 1 | Some _ => n end) true.

(** [_it->status()] and [_it->Valid()], as both are asked for. *)
Definition cursor_entry (c : RocksKVCursor) : M (bytes * bytes) :=
  match znth (scan_entries (cu_scan c)) (cu_pos c) with
  | Some e => Ret e
  | None =>
      match scan_error (cu_scan c) with
      | Some msg => if cu_pos c =? zlen (scan_entries (cu_scan c)) then Throw ERR_INTERNAL msg else Throw ERR_EXHAUST (lit "no more data")
      | None => Throw ERR_EXHAUST (lit "no more data")
      end
  end.

Definition cursor_move (c : RocksKVCursor) (d : Z) : RocksKVCursor := mkCursor (cu_scan c) (cu_pos c + d) (cu_seeked c).

Section Cursor.
Context {BM : BuildMode}.

Definition RocksKVCursor_next (c : RocksKVCursor) : M (RocksKVCursor * M (RecordKey * RecordValue)) :=
  _ ← INVARIANT (cu_seeked c);
  match cursor_entry c with
  | Ret (key, val) => r ← status_of (Rec_decode key val); Ret (cursor_move c 1, r)
  | Throw code msg => Ret (c, Throw code msg)
  | Crash k => Crash k
  end.

Definition RocksKVCursor_prev (c : RocksKVCursor) : M (RocksKVCursor * M unit) :=
  _ ← INVARIANT (cu_seeked c);
  match cursor_entry c with
  | Ret _ => Ret (cursor_move c (-1), Ret tt)
  | Throw code msg => Ret (c, Throw code msg)
  | Crash k => Crash k
  end.

Definition RocksKVCursor_key (c : RocksKVCursor) : M (M bytes) :=
  _ ← INVARIANT (cu_seeked c);
  status_of ('(key, _) ← cursor_entry c; Ret key).

(** * Cursors that start by themselves *)

(** A cursor with its own [_seeked]. *)
Record DataCursor : Set := mkDataCursor {
  dc_base : RocksKVCursor;
  dc_seeked : bool
}.

Definition DataCursor_new (s : Scan) : DataCursor := mkDataCursor (RocksKVCursor_new s) false.

Definition DataCursor_seek (c : DataCursor) (prefix : bytes) : DataCursor :=
  mkDataCursor (RocksKVCursor_seek (dc_base c) prefix) true.

Definition DataCursor_seekToLast (c : DataCursor) : DataCursor :=
  mkDataCursor (RocksKVCursor_seekToLast (dc_base c)) true.

(** [if (!_seeked)]: a cursor that has not been placed starts at [first]. *)
Definition start_at (first : M bytes) (c : DataCursor) : M DataCursor :=
  if dc_seeked c then Ret c else p ← first; Ret (DataCursor_seek c p).

(** The records that [keep] holds for; any other record is the end. *)
Definition next_of_kind (first : M bytes) (keep : RecordKey -> bool) (msg : bytes) (c : DataCursor)
  : M (DataCursor * M (RecordKey * RecordValue)) :=
  c ← start_at first c;
  '(b, expRcd) ← RocksKVCursor_next (dc_base c);
  Ret (mkDataCursor b true, rcd ← expRcd; if keep (fst rcd) then Ret rcd else Throw ERR_EXHAUST msg).

Definition prev_of_kind (first : M bytes) (c : DataCursor) : M (DataCursor * M unit) :=
  c ← start_at first c;
  '(b, s) ← RocksKVCursor_prev (dc_base c);
  Ret (mkDataCursor b true, s).

Definition key_of_kind (first : M bytes) (keep : bytes -> M bool) (msg : bytes) (c : DataCursor) : M (DataCursor * M bytes) :=
  c ← start_at first c;
  expKey ← RocksKVCursor_key (dc_base c);
  match expKey with
  | Ret key => b ← keep key; Ret (c, if b : bool then Ret key else Throw ERR_EXHAUST msg)
  | e => Ret (c, e)
  end.

(** The data of the keys: the chunks are slots. *)
Definition BasicDataCursor_next : DataCursor -> M (DataCursor * M (RecordKey * RecordValue)) :=
  next_of_kind (Ret []) (fun k => rk_chunkId k <? CLUSTER_SLOTS) (lit "no more basic data").

Definition BasicDataCursor_prev : DataCursor -> M (DataCursor * M unit) := prev_of_kind (Ret []).

Definition BasicDataCursor_key : DataCursor -> M (DataCursor * M bytes) :=
  key_of_kind (Ret []) (fun key => id ← RecordKey_decodeChunkId key; Ret (id <? CLUSTER_SLOTS)) (lit "no more basic data").

(** Everything in front of the binlogs. *)
Definition AllDataCursor_next : DataCursor -> M (DataCursor * M (RecordKey * RecordValue)) :=
  next_of_kind (Ret []) (fun k => rk_chunkId k <? REPLLOGKEYV2_META_CHUNKID) (lit "no more AllData").

Definition AllDataCursor_prev : DataCursor -> M (DataCursor * M unit) := prev_of_kind (Ret []).

Definition AllDataCursor_key : DataCursor -> M (DataCursor * M bytes) :=
  key_of_kind (Ret []) (fun key => id ← RecordKey_decodeChunkId key; Ret (id <? REPLLOGKEYV2_META_CHUNKID)) (lit "no more AllData").

(** The binlogs. *)
Definition BinlogCursor_next : DataCursor -> M (DataCursor * M (RecordKey * RecordValue)) :=
  next_of_kind RecordKey_prefixReplLogV2 (fun k => bool_decide (rk_type k = RT_BINLOG)) (lit "no more binlog").

Definition BinlogCursor_prev : DataCursor -> M (DataCursor * M unit) := prev_of_kind RecordKey_prefixReplLogV2.

Definition BinlogCursor_key : DataCursor -> M (DataCursor * M bytes) :=
  key_of_kind RecordKey_prefixReplLogV2 (fun key => type ← RecordKey_decodeType key; Ret (bool_decide (type = RT_BINLOG))) (lit "no more binlog").

(** * The index of expiries *)

Record TTLIndexCursor : Set := mkTTLCursor {
  tc_until : Z;
  tc_base : RocksKVCursor
}.

Definition TTLIndexCursor_new (s : Scan) (until : Z) : M TTLIndexCursor :=
  p ← RecordKey_prefixTTLIndex;
  Ret (mkTTLCursor until (RocksKVCursor_seek (RocksKVCursor_new s) p)).

Definition TTLIndexCursor_seek (c : TTLIndexCursor) (target : bytes) : TTLIndexCursor :=
  mkTTLCursor (tc_until c) (RocksKVCursor_seek (tc_base c) target).

Definition TTLIndexCursor_key (c : TTLIndexCursor) : M (M bytes) := RocksKVCursor_key (tc_base c).

Definition TTLIndexCursor_next (c : TTLIndexCursor) : M (TTLIndexCursor * M TTLIndex) :=
  '(b, expRcd) ← RocksKVCursor_next (tc_base c);
  let c := mkTTLCursor (tc_until c) b in
  match expRcd with
  | Ret (rk, _) =>
      if negb (bool_decide (rk_type rk = RT_TTL_INDEX)) then Ret (c, Throw ERR_EXHAUST (lit "no more ttl index")) else
      explk ← status_of (TTLIndex_decode rk);
      Ret (c, t ← explk; if tc_until c <? ti_ttl t then Throw ERR_NOT_EXPIRED (lit "read until ttl") else Ret t)
  | Throw code msg => Ret (c, Throw code msg)
  | Crash k => Crash k
  end.

(** * Slots *)

(** The meta records of a slot. *)
Definition SlotCursor_new (s : Scan) (slot : Z) : M RocksKVCursor :=
  p ← RecordKey_prefixSlotType (RecordKey_new slot 0 RT_DATA_META [] [] 0);
  Ret (RocksKVCursor_seek (RocksKVCursor_new s) p).

Definition SlotCursor_next (slot : Z) (c : RocksKVCursor) : M (RocksKVCursor * M (RecordKey * RecordValue)) :=
  '(c, expRcd) ← RocksKVCursor_next c;
  Ret (c, rcd ← expRcd;
    if negb (bool_decide (rk_type (fst rcd) = RT_DATA_META)) || negb (rk_chunkId (fst rcd) =? slot)
    then Throw ERR_EXHAUST (lit "no more primary key") else Ret rcd).

(** The records of the slots from [begin] to below [end_]. *)
Definition SlotsCursor_new (s : Scan) (begin : Z) : RocksKVCursor :=
  RocksKVCursor_seek (RocksKVCursor_new s) (RecordKey_prefixChunkid (RecordKey_new begin 0 RT_DATA_META [] [] 0)).

Definition SlotsCursor_next (end_ : Z) (c : RocksKVCursor) : M (RocksKVCursor * M (RecordKey * RecordValue)) :=
  '(c, expRcd) ← RocksKVCursor_next c;
  Ret (c, rcd ← expRcd;
    if u32 (end_ - 1) <? rk_chunkId (fst rcd) then Throw ERR_EXHAUST (lit "no more primary key") else Ret rcd).

(** * The cursors of a transaction *)

Context {T : Type} `{RocksIter T}.

Definition RocksTxn_createDataCursor (tx : RocksTxn T) : DataCursor :=
  DataCursor_new (rdb_scan (tx_db tx) CF_Default None).

Definition RocksTxn_createAllDataCursor (tx : RocksTxn T) : DataCursor :=
  DataCursor_new (rdb_scan (tx_db tx) CF_Default None).

Definition RocksTxn_createBinlogCursor (cfg : StoreCfg) (tx : RocksTxn T) : DataCursor :=
  DataCursor_new (rdb_scan (tx_db tx) (RocksKVStore_getBinlogColumnFamilyHandle cfg) None).

(** The chunk after [chunkId] as the upper bound. *)
Definition bounded_scan (tx : RocksTxn T) (chunkId : Z) : Scan :=
  rdb_scan (tx_db tx) CF_Default (Some (RecordKey_prefixChunkid (RecordKey_new (u32 (chunkId + 1)) 0 RT_INVALID [] [] 0))).

Definition RocksTxn_createTTLIndexCursor (tx : RocksTxn T) (until : Z) : M TTLIndexCursor :=
  TTLIndexCursor_new (bounded_scan tx TTLIndex_CHUNKID) until.

Definition RocksTxn_createSlotCursor (tx : RocksTxn T) (slot : Z) : M RocksKVCursor :=
  SlotCursor_new (bounded_scan tx slot) slot.

Definition RocksTxn_createSlotsCursor (tx : RocksTxn T) (start end_ : Z) : RocksKVCursor :=
  SlotsCursor_new (bounded_scan tx end_) start.

End Cursor.

(** * Prefixes in the order of the keys *)

Lemma bytes_lt_prefix p k : p `prefix_of` k -> bytes_lt k p = false.
Proof.
  intros [s ->]. unfold bytes_lt. rewrite <-(app_nil_r p) at 2. rewrite bytes_compare_app. by destruct s.
Qed.

(** The keys with a prefix are next to each other. *)
Lemma prefix_between p : forall k k', bytes_lt k p = false -> bytes_lt k k' = true -> p `prefix_of` k' -> p `prefix_of` k.
Proof.
  unfold bytes_lt. induction p as [|c p IH]; intros k k' Hp Hk [s ->]; [apply prefix_nil|].
  destruct k as [|d k]; [done|]. cbn [bytes_compare app] in *.
  destruct (Z.compare_spec (bz d) (bz c)) as [E|E|E]; [|done..].
  apply (inj bz) in E as ->. apply prefix_cons, (IH k (p ++ s)); [done|done|by exists s].
Qed.

Lemma filter_in_order {A} (R : A -> A -> Prop) (f : A -> bool) l : StronglySorted R l -> StronglySorted R (List.filter f l).
Proof.
  induction 1 as [|x l _ IH Hx]; [constructor|]. cbn [List.filter]. destruct (f x); [|done]. constructor; [done|].
  apply Forall_forall. intros y Hy. rewrite Forall_forall in Hx. apply Hx. rewrite list_elem_of_In in *. by apply filter_In in Hy as [? _].
Qed.

Lemma seek_rest l p : StronglySorted entry_lt l -> zdrop (seek_pos l p) l = List.filter (fun e => negb (bytes_lt (fst e) p)) l.
Proof.
  unfold seek_pos. induction 1 as [|e l Hs IH Hf]; [done|]. cbn [List.filter]. destruct (bytes_lt (fst e) p) eqn:E; cbn [negb].
  - rewrite zlen_cons. pose proof (zlen_nonneg (List.filter (fun e => bytes_lt e.1 p) l)).
    by rewrite (zdrop_app_plus [e] l).
  - assert (Forall (fun e' => bytes_lt (fst e') p = false) l) as Hl.
    { eapply Forall_impl; [exact Hf|]. intros e' He. cbn. destruct (bytes_lt (fst e') p) eqn:E'; [|done].
      by rewrite (bytes_lt_trans _ _ _ He E') in E. }
    clear -Hl. replace (List.filter (fun e => bytes_lt e.1 p) l) with (@nil (bytes * bytes)) by (induction Hl as [|x k Hx _ IH]; [done|]; cbn; by rewrite Hx).
    change (zlen []) with 0. rewrite zdrop_0. f_equal. induction Hl as [|x k Hx _ IH]; [done|]. cbn. by rewrite Hx, <-IH.
Qed.

Definition has_prefix (p : bytes) (e : bytes * bytes) : bool := bool_decide (p `prefix_of` fst e).

(** From the prefix on: the entries with the prefix, then the others. *)
Lemma seek_split l p : StronglySorted entry_lt l ->
  exists later, zdrop (seek_pos l p) l = List.filter (has_prefix p) l ++ later /\ Forall (fun e => has_prefix p e = false) later.
Proof.
  intros Hs. rewrite seek_rest by done. induction Hs as [|e l Hs IH Hf]; [by exists []|]. cbn [List.filter]. destruct IH as (later & E & Hl).
  unfold has_prefix at 1. case_bool_decide as Hp; [rewrite bytes_lt_prefix by done; cbn [negb]; exists later; by rewrite E|].
  destruct (bytes_lt (fst e) p) eqn:Elt; cbn [negb]; [by exists later|]. exists (e :: later).
  assert (List.filter (has_prefix p) l = []) as En; [|rewrite E, En; split; [done|constructor; [by apply bool_decide_eq_false|done]]].
  clear -Hf Hp Elt. induction Hf as [|x l Hx _ IH]; [done|]. cbn [List.filter]. unfold has_prefix at 1. rewrite bool_decide_false; [done|].
  intros Hpx. apply Hp. by apply (prefix_between p _ (fst x)).
Qed.

(** * A cursor and what is left for it *)

Section Steps.
Context {BM : BuildMode}.

(** A cursor that has been placed, with the entries [l] in front of it. *)
Definition cursor_at (c : RocksKVCursor) (l : list (bytes * bytes)) : Prop :=
  cu_seeked c = true /\ scan_error (cu_scan c) = None /\ 0 <= cu_pos c /\ zdrop (cu_pos c) (scan_entries (cu_scan c)) = l.

Lemma cursor_at_nil c : cursor_at c [] -> RocksKVCursor_next c = Ret (c, Throw ERR_EXHAUST (lit "no more data")).
Proof.
  intros (Hk & He & Hp & Hd). unfold RocksKVCursor_next, cursor_entry. rewrite Hk, He. cbn [INVARIANT]. rewrite bind_Ret.
  replace (znth (scan_entries (cu_scan c)) (cu_pos c)) with (@None (bytes * bytes)); [done|]. symmetry.
  rewrite znth_lookup by done. rewrite zdrop_drop in Hd. rewrite <-(Nat.add_0_r (Z.to_nat (cu_pos c))), <-lookup_drop. by rewrite Hd.
Qed.

Lemma cursor_at_cons c k v l rk rv : cursor_at c ((k, v) :: l) -> Rec_decode k v = Ret (rk, rv) ->
  exists c', RocksKVCursor_next c = Ret (c', Ret (rk, rv)) /\ cursor_at c' l.
Proof.
  intros (Hk & He & Hp & Hd) Hr. unfold RocksKVCursor_next, cursor_entry. rewrite Hk. cbn [INVARIANT]. rewrite bind_Ret.
  replace (znth (scan_entries (cu_scan c)) (cu_pos c)) with (Some (k, v)).
  2: { symmetry. rewrite znth_lookup by done. rewrite zdrop_drop in Hd. rewrite <-(Nat.add_0_r (Z.to_nat (cu_pos c))), <-lookup_drop. by rewrite Hd. }
  rewrite Hr. exists (cursor_move c 1). split; [done|]. split_and!; [done|done|cbn; lia|]. cbn. rewrite <-zdrop_zdrop by lia. rewrite Hd.
  exact (zdrop_app [(k, v)] l).
Qed.

(** From a key with the prefix on. *)
Lemma seek_split_from l p from : StronglySorted entry_lt l -> p `prefix_of` from ->
  exists later, zdrop (seek_pos l from) l = List.filter (fun e => negb (bytes_lt (fst e) from)) (List.filter (has_prefix p) l) ++ later /\
    Forall (fun e => has_prefix p e = false) later.
Proof.
  intros Hs Hp. destruct (seek_split l p Hs) as (later & E & Hl). rewrite seek_rest in * by done. exists (List.filter (fun e => negb (bytes_lt (fst e) from)) later).
  split; [|apply Forall_forall; intros e [He _]%list_elem_of_In%filter_In; rewrite Forall_forall in Hl; by apply Hl, list_elem_of_In].
  rewrite <-List.filter_app, <-E. clear E Hl later Hs. induction l as [|e l IH]; [done|]. cbn [List.filter]. destruct (bytes_lt (fst e) from) eqn:Ef; cbn [negb].
  - destruct (bytes_lt (fst e) p); cbn [negb List.filter]; rewrite ?Ef; done.
  - assert (bytes_lt (fst e) p = false) as ->; [|cbn [negb List.filter]; rewrite Ef; cbn [negb]; by f_equal].
    destruct (bytes_lt (fst e) p) eqn:Ep; [|done]. pose proof (bytes_lt_prefix p from Hp) as Hf. destruct (bytes_lt p from) eqn:E2.
    + by rewrite (bytes_lt_trans _ _ _ Ep E2) in Ef.
    + by rewrite (bytes_lt_total _ _ E2 Hf), Ef in Ep.
Qed.

Lemma cursor_at_seek s p from : scan_error s = None -> StronglySorted entry_lt (scan_entries s) -> p `prefix_of` from ->
  exists later, cursor_at (RocksKVCursor_seek (RocksKVCursor_new s) from)
      (List.filter (fun e => negb (bytes_lt (fst e) from)) (List.filter (has_prefix p) (scan_entries s)) ++ later) /\
    Forall (fun e => has_prefix p e = false) later.
Proof.
  intros He Hs Hp. destruct (seek_split_from (scan_entries s) p from Hs Hp) as (later & E & Hl). exists later. split; [|done].
  split_and!; [done|done|apply zlen_nonneg|exact E].
Qed.

End Steps.

(** * The database in memory *)

Definition entry_le (a b : bytes * bytes) : Prop := bytes_lt (fst b) (fst a) = false.

#[export] Instance entry_le_dec : RelDecision entry_le.
Proof. intros a b. unfold entry_le. apply _. Defined.

#[export] Instance entry_le_total : Total entry_le.
Proof.
  intros a b. unfold entry_le. destruct (bytes_lt (fst b) (fst a)) eqn:E; [right|by left]. by apply bytes_lt_antisym.
Qed.

#[export] Instance entry_le_trans : Transitive entry_le.
Proof.
  intros a b c Hab Hbc. unfold entry_le in *. apply not_true_is_false. intros Hca.
  destruct (bytes_lt (fst b) (fst c)) eqn:E; [by rewrite (bytes_lt_trans _ _ _ E Hca) in Hab|].
  by rewrite (bytes_lt_total _ _ E Hbc), Hca in Hab.
Qed.

Definition mem_entries (t : MemDB) (cf : ColumnFamily) (upper : option bytes) : list (bytes * bytes) :=
  omap (fun '(cf', k, v) => if bool_decide (cf' = cf) && below upper k then Some (k, v) else None) (map_to_list t).

#[export] Instance MemDB_iter : RocksIter MemDB := {|
  rdb_scan t cf upper := mkScan (merge_sort entry_le (mem_entries t cf upper)) None
|}.

Lemma mem_entries_spec t cf upper k v : (k, v) ∈ mem_entries t cf upper <-> t !! (cf, k) = Some v /\ below upper k = true.
Proof.
  unfold mem_entries. rewrite list_elem_of_omap. split.
  - intros ([[cf' k'] v'] & Hin & E). apply elem_of_map_to_list in Hin. case_bool_decide; cbn [andb] in E; [|done]. subst cf'.
    destruct (below upper k') eqn:Eb; [|done]. by simplify_eq.
  - intros [E Hb]. exists (cf, k, v). rewrite elem_of_map_to_list. by rewrite bool_decide_true, Hb.
Qed.

Lemma mem_entries_keys t cf upper : NoDup (map fst (mem_entries t cf upper)).
Proof.
  unfold mem_entries. pose proof (NoDup_fst_map_to_list t) as Hn. induction (map_to_list t) as [|[[cf' k] v] l IH]; [constructor|].
  cbn in Hn. apply NoDup_cons in Hn as [Hni Hn]. cbn. case_bool_decide; cbn [andb]; [|by apply IH]. destruct (below upper k); [|by apply IH]. subst cf'.
  cbn. apply NoDup_cons. split; [|by apply IH]. intros (e & -> & Hin)%list_elem_of_fmap. destruct e as [k' v']. apply Hni.
  apply list_elem_of_omap in Hin as ([[cf1 k1] v1] & Hin & E). case_bool_decide; cbn [andb] in E; [|done]. destruct (below upper k1); [|done].
  simplify_eq. apply list_elem_of_fmap. by exists (cf, k', v').
Qed.

Lemma sorted_strict l : StronglySorted entry_le l -> NoDup (map fst l) -> StronglySorted entry_lt l.
Proof.
  induction 1 as [|e l _ IH Hf]; intros Hn; [constructor|]. cbn in Hn. apply NoDup_cons in Hn as [Hni Hn]. constructor; [by apply IH|].
  apply Forall_forall. intros x Hx. rewrite Forall_forall in Hf. specialize (Hf x Hx). unfold entry_lt, entry_le in *.
  destruct (bytes_lt (fst e) (fst x)) eqn:E; [done|]. destruct Hni. rewrite (bytes_lt_total _ _ E Hf). by apply list_elem_of_fmap_2.
Qed.

#[export] Instance MemDB_iter_laws : RocksIterLaws MemDB.
Proof.
  constructor.
  - intros t cf upper. apply sorted_strict; [apply (StronglySorted_merge_sort entry_le)|]. cbn.
    rewrite (merge_sort_Permutation entry_le). apply mem_entries_keys.
  - intros t cf upper _ k v. cbn. rewrite (merge_sort_Permutation entry_le), mem_entries_spec. by rewrite mem_read.
Qed.

#[export] Instance MemDB_iter_healthy : RocksIterHealthy MemDB.
Proof. by constructor. Qed.
