(* ===== verification/SkipList.v ===== *)
(** The skip list of a sorted set (storage/skiplist.cpp): nodes kept in the store and loaded into a
    cache, ordered by score and member, with spans that give ranks; the operations on it and the
    ranges of scores, members and ranks. *)

From Stdlib Require Import Strings.Byte ZArith Lia.
From stdpp Require Import base list numbers strings gmap sorting.
From S2P Require Import Prelude Status Varint Record RecordValue RecordMeta ReplLog BinlogSeq Txn.

Local Open Scope Z_scope.

(** * Scores *)

(** A [double] is its 64 bits; its comparisons are those of IEEE 754: no order with a NaN, and
    otherwise the order of the magnitudes with their signs, the two zeros being equal. *)
Definition dbl_mag (b : Z) : Z := Z.land b (2 ^ 63 - 1).
Definition dbl_nan (b : Z) : bool := 0x7FF0000000000000 <? dbl_mag b.
Definition dbl_key (b : Z) : Z := if Z.testbit b 63 then - dbl_mag b else dbl_mag b.

Definition dbl_lt (a b : Z) : bool := negb (dbl_nan a) && negb (dbl_nan b) && (dbl_key a <? dbl_key b).
Definition dbl_le (a b : Z) : bool := negb (dbl_nan a) && negb (dbl_nan b) && (dbl_key a <=? dbl_key b).
Definition dbl_eq (a b : Z) : bool := negb (dbl_nan a) && negb (dbl_nan b) && (dbl_key a =? dbl_key b).

(** * Ranges *)

Record Zrangespec : Set := mkRange { zr_min : Z; zr_max : Z; zr_minex : bool; zr_maxex : bool }.
Record Zlexrangespec : Set := mkLexRange { zl_min : bytes; zl_max : bytes; zl_minex : bool; zl_maxex : bool }.

Definition ZLEXMIN : bytes := lit "minstring".
Definition ZLEXMAX : bytes := lit "maxstring".

Definition compareStringObjectsForLexRange (a b : bytes) : Z :=
  if bool_decide (a = b) then 0
  else if bool_decide (a = ZLEXMIN) || bool_decide (b = ZLEXMAX) then -1
  else if bool_decide (a = ZLEXMAX) || bool_decide (b = ZLEXMIN) then 1
  else if bytes_lt a b then -1 else 1.

Definition zslValueGteMin (value : Z) (spec : Zrangespec) : bool :=
  if zr_minex spec then dbl_lt (zr_min spec) value else dbl_le (zr_min spec) value.

Definition zslValueLteMax (value : Z) (spec : Zrangespec) : bool :=
  if zr_maxex spec then dbl_lt value (zr_max spec) else dbl_le value (zr_max spec).

Definition zslLexValueGteMin (value : bytes) (spec : Zlexrangespec) : bool :=
  if zl_minex spec then 0 <? compareStringObjectsForLexRange value (zl_min spec)
  else 0 <=? compareStringObjectsForLexRange value (zl_min spec).

Definition zslLexValueLteMax (value : bytes) (spec : Zlexrangespec) : bool :=
  if zl_maxex spec then compareStringObjectsForLexRange value (zl_max spec) <? 0
  else compareStringObjectsForLexRange value (zl_max spec) <=? 0.

Definition slCmp (score0 : Z) (subk0 : bytes) (score1 : Z) (subk1 : bytes) : M Z :=
  if dbl_eq score0 score1 && bool_decide (subk0 = subk1) then Ret 0
  else if dbl_lt score0 score1 || (dbl_eq score0 score1 && bytes_lt subk0 subk1) then Ret (-1)
  else if dbl_lt score1 score0 || (dbl_eq score0 score1 && bytes_lt subk1 subk0) then Ret 1
  else Crash CInvariant.

(** * The list *)

Record SkipList : Set := mkSkipList {
  sl_maxLevel : Z;
  sl_level : Z;
  sl_count : Z;
  sl_tail : Z;
  sl_posAlloc : Z;
  sl_chunkId : Z;
  sl_dbId : Z;
  sl_pk : bytes;
  sl_cache : gmap Z ZSlEleValue
}.

Definition SkipList_new (chunkId dbId : Z) (pk : bytes) (meta : ZSlMetaValue) : SkipList :=
  mkSkipList (zm_maxLevel meta) (zm_level meta) (zm_count meta) (zm_tail meta) (zm_posAlloc meta)
    chunkId dbId pk ∅.

Definition sl_with_cache (sl : SkipList) (cache : gmap Z ZSlEleValue) : SkipList :=
  mkSkipList (sl_maxLevel sl) (sl_level sl) (sl_count sl) (sl_tail sl) (sl_posAlloc sl) (sl_chunkId sl)
    (sl_dbId sl) (sl_pk sl) cache.

Definition sl_with_level (sl : SkipList) (level : Z) : SkipList :=
  mkSkipList (sl_maxLevel sl) level (sl_count sl) (sl_tail sl) (sl_posAlloc sl) (sl_chunkId sl)
    (sl_dbId sl) (sl_pk sl) (sl_cache sl).

Definition sl_with_count (sl : SkipList) (count : Z) : SkipList :=
  mkSkipList (sl_maxLevel sl) (sl_level sl) count (sl_tail sl) (sl_posAlloc sl) (sl_chunkId sl)
    (sl_dbId sl) (sl_pk sl) (sl_cache sl).

Definition sl_with_tail (sl : SkipList) (tail : Z) : SkipList :=
  mkSkipList (sl_maxLevel sl) (sl_level sl) (sl_count sl) tail (sl_posAlloc sl) (sl_chunkId sl)
    (sl_dbId sl) (sl_pk sl) (sl_cache sl).

Definition SKIPLIST_INVALID_POS : Z := 2 ^ 64 - 1.

(** [randomLevel], [draws n] being the [n]-th number the generator gives. *)
Fixpoint randomLevel_loop (fuel : nat) (draws : nat -> Z) (maxLevel lvl : Z) : Z :=
  match fuel with
  | O => lvl
  | S fuel' =>
      if (draws 0%nat <? 1) && (lvl <? maxLevel)
      then randomLevel_loop fuel' (fun n => draws (S n)) maxLevel (lvl + 1) else lvl
  end.

Definition SkipList_randomLevel (draws : nat -> Z) (maxLevel : Z) : Z :=
  randomLevel_loop (Z.to_nat maxLevel) draws maxLevel 1.

(** [makeNode]: the node and its position, from the allocator. *)
Definition SkipList_makeNode (sl : SkipList) (score : Z) (subkey : bytes) : SkipList * Z * ZSlEleValue :=
  let pos := u64 (sl_posAlloc sl + 1) in
  (mkSkipList (sl_maxLevel sl) (sl_level sl) (sl_count sl) (sl_tail sl) pos (sl_chunkId sl) (sl_dbId sl)
     (sl_pk sl) (sl_cache sl), pos, ZSlEleValue_new score subkey).

(** [cache[pos]->]: a position that is not cached gives a null pointer. *)
Definition cached (sl : SkipList) (pos : Z) : M ZSlEleValue :=
  match sl_cache sl !! pos with Some e => Ret e | None => Crash CUndefined end.

(** A setter called on [cache[pos]]. *)
Definition modify (sl : SkipList) (pos : Z) (f : ZSlEleValue -> M ZSlEleValue) : M SkipList :=
  e ← cached sl pos;
  e ← f e;
  Ret (sl_with_cache sl (<[pos := e]> (sl_cache sl))).

Definition SkipList_getCacheNode (sl : SkipList) (pos : Z) : M ZSlEleValue :=
  match sl_cache sl !! pos with Some e => Ret e | None => Crash CInvariant end.

(** The key of a node. *)
Definition node_key (sl : SkipList) (pointer : Z) : RecordKey :=
  RecordKey_new (sl_chunkId sl) (sl_dbId sl) RT_ZSET_S_ELE (sl_pk sl) (to_string pointer) 0.

Section SkipList.
Context {BM : BuildMode} {T : Type} `{RocksDB T}.
Variable cfg : StoreCfg.

(** ** Nodes *)

Definition SkipList_getNode (sl : SkipList) (tx : RocksTxn T) (pointer : Z) : M (SkipList * ZSlEleValue) :=
  match sl_cache sl !! pointer with
  | Some e => Ret (sl, e)
  | None =>
      rv ← RocksKVStore_getKV cfg (node_key sl pointer) tx;
      e ← ZSlEleValue_decode (rv_value rv);
      Ret (sl_with_cache sl (<[pointer := e]> (sl_cache sl)), e)
  end.

Definition SkipList_delNode (sl : SkipList) (tx : RocksTxn T) (pointer now : Z) : M (SkipList * RocksTxn T) :=
  let sl := sl_with_cache sl (delete pointer (sl_cache sl)) in
  tx ← RocksKVStore_delKV cfg (node_key sl pointer) tx now;
  Ret (sl, tx).

Definition SkipList_saveNode (sl : SkipList) (tx : RocksTxn T) (pointer : Z) (val : ZSlEleValue) (now : Z)
  : M (SkipList * RocksTxn T) :=
  let rv := RecordValue_new (ZSlEleValue_encode val) RT_ZSET_S_ELE MAXU64 0 (-1) 0 MAXU64 in
  match sl_cache sl !! pointer with
  | None => Crash CInvariant
  | Some e =>
      _ ← INVARIANT (ze_changed e);
      let e := mkZSlEle (ze_forward e) (ze_span e) (ze_score e) (ze_backward e) false (ze_subKey e) in
      let sl := sl_with_cache sl (<[pointer := e]> (sl_cache sl)) in
      tx ← RocksKVStore_setKV cfg (node_key sl pointer) rv tx now;
      Ret (sl, tx)
  end.

(** The loop of [save] over the cache, a [std::map], in the order of the positions. *)
Fixpoint save_nodes (ps : list Z) (sl : SkipList) (tx : RocksTxn T) (now : Z) : M (SkipList * RocksTxn T) :=
  match ps with
  | [] => Ret (sl, tx)
  | p :: ps' =>
      e ← cached sl p;
      '(sl, tx) ← (if ze_changed e then SkipList_saveNode sl tx p e now else Ret (sl, tx));
      save_nodes ps' sl tx now
  end.

Definition cache_order (sl : SkipList) : list Z := merge_sort Z.le (elements (dom (sl_cache sl))).

Definition SkipList_save (sl : SkipList) (tx : RocksTxn T) (oldValue : M RecordValue) (versionEP now : Z)
  : M (SkipList * RocksTxn T) :=
  '(sl, tx) ← save_nodes (cache_order sl) sl tx now;
  let rk := RecordKey_new (sl_chunkId sl) (sl_dbId sl) RT_ZSET_META (sl_pk sl) [] 0 in
  let mv := mkZSlMeta (sl_level sl) MAX_LAYER (sl_count sl) (sl_tail sl) (sl_posAlloc sl) in
  let ttl := match oldValue with Ret rv => rv_ttl rv | _ => 0 end in
  val ← ZSlMetaValue_encode mv;
  tx ← RocksKVStore_setKV cfg rk (RecordValue_update val RT_ZSET_META versionEP ttl oldValue) tx now;
  Ret (sl, tx).

(** ** Searching *)

(** The inner loop of the searches, along level [i] from [pos] while [test] holds of the next
    node; [test] sees what has been traversed so far and the span to that node. The functions
    that do not count ignore the two. A list of [sl_count] nodes needs no more rounds. *)
Fixpoint walk (fuel : nat) (sl : SkipList) (tx : RocksTxn T) (test : Z -> Z -> ZSlEleValue -> M bool)
  (i pos tmpPos traversed : Z) : M (SkipList * Z * Z) :=
  match fuel with
  | O => Crash CUndefined
  | S fuel' =>
      if tmpPos =? 0 then Ret (sl, pos, traversed) else
      '(sl, next) ← SkipList_getNode sl tx tmpPos;
      cur ← cached sl pos;
      span ← ZSlEleValue_getSpan cur i;
      go ← test traversed span next;
      if go : bool then
        fwd ← ZSlEleValue_getForward next i;
        walk fuel' sl tx test i tmpPos fwd (u32 (traversed + span))
      else Ret (sl, pos, traversed)
  end.

Definition walk_fuel (sl : SkipList) : nat := S (Z.to_nat (sl_count sl)).

(** What a search leaves: where it stands, what it has traversed, the two for every level it has
    finished, from the lowest up, and whether it stopped early. *)
Record Search : Set := mkSearch {
  se_pos : Z;
  se_traversed : Z;
  se_trace : list (Z * Z);
  se_stopped : bool
}.

(** The outer loop, from level [n] down to 1; [stop] is the test at the end of a level. *)
Fixpoint descend (n : nat) (sl : SkipList) (tx : RocksTxn T) (test : Z -> Z -> ZSlEleValue -> M bool)
  (stop : Z -> ZSlEleValue -> bool) (pos traversed : Z) (trace : list (Z * Z)) : M (SkipList * Search) :=
  match n with
  | O => Ret (sl, mkSearch pos traversed trace false)
  | S n' =>
      let i := Z.of_nat n in
      cur ← cached sl pos;
      tmpPos ← ZSlEleValue_getForward cur i;
      '(sl, pos, traversed) ← walk (walk_fuel sl) sl tx test i pos tmpPos traversed;
      cur ← cached sl pos;
      if stop traversed cur then Ret (sl, mkSearch pos traversed trace true)
      else descend n' sl tx test stop pos traversed ((pos, traversed) :: trace)
  end.

(** A search from the head. *)
Definition search (sl : SkipList) (tx : RocksTxn T) (test : Z -> Z -> ZSlEleValue -> M bool)
  (stop : Z -> ZSlEleValue -> bool) : M (SkipList * Search) :=
  '(sl, _) ← SkipList_getNode sl tx HEAD_ID;
  descend (Z.to_nat (sl_level sl)) sl tx test stop HEAD_ID 0 [].

Definition never (_ : Z) (_ : ZSlEleValue) : bool := false.

(** The vectors [update] and [rank] of a search, of size [maxLevel + 1]. *)
Definition level_vector (sl : SkipList) (l : list Z) : M (list Z) :=
  if sl_maxLevel sl <? zlen l then Crash CUndefined
  else Ret (0 :: l ++ zfill (sl_maxLevel sl - zlen l) 0).

Definition SkipList_getEleByRank (sl : SkipList) (tx : RocksTxn T) (rank : Z) : M (SkipList * option ZSlEleValue) :=
  '(sl, s) ← search sl tx (fun traversed span _ => Ret (u32 (traversed + span) <=? rank))
               (fun traversed _ => traversed =? rank);
  if se_stopped s then
    e ← cached sl (se_pos s);
    Ret (sl, Some e)
  else Ret (sl, None).

Definition SkipList_rank (sl : SkipList) (tx : RocksTxn T) (score : Z) (subkey : bytes) : M (SkipList * Z) :=
  '(sl, s) ← search sl tx (fun _ _ e => cmp ← slCmp (ze_score e) (ze_subKey e) score subkey; Ret (cmp <=? 0))
               (fun rank x => negb (rank =? 0) && bool_decide (ze_subKey x = subkey));
  if se_stopped s then Ret (sl, se_traversed s)
  else
    _ ← INVARIANT_D false;
    Throw ERR_INTERNAL (lit "not reachable").

(** ** Removing *)

(** One round of the loop of [removeInternal]. *)
Definition remove_level (pos : Z) (update : list Z) (i : Z) (sl : SkipList) : M SkipList :=
  u ← vec_at update i;
  toupdate ← cached sl u;
  fwd ← ZSlEleValue_getForward toupdate i;
  span ← ZSlEleValue_getSpan toupdate i;
  if negb (fwd =? pos) then modify sl u (fun e => ZSlEleValue_setSpan e i (u32 (span - 1)))
  else
    _ ← INVARIANT (HEAD_ID <=? u);
    node ← cached sl pos;
    s ← ZSlEleValue_getSpan node i;
    sl ← modify sl u (fun e => ZSlEleValue_setSpan e i (u32 (span + s - 1)));
    node ← cached sl pos;
    f ← ZSlEleValue_getForward node i;
    modify sl u (fun e => ZSlEleValue_setForward e i f).

(** A loop over levels. *)
Fixpoint for_levels (levels : list Z) (body : Z -> SkipList -> M SkipList) (sl : SkipList) : M SkipList :=
  match levels with
  | [] => Ret sl
  | i :: levels' => sl ← body i sl; for_levels levels' body sl
  end.

(** The loop that lowers the level while the head has nothing on it. *)
Fixpoint lower_level (n : nat) (sl : SkipList) : M Z :=
  match n with
  | O => Ret 0
  | S n' =>
      if 1 <? Z.of_nat n then
        head ← cached sl HEAD_ID;
        fwd ← ZSlEleValue_getForward head (Z.of_nat n);
        if fwd =? 0 then lower_level n' sl else Ret (Z.of_nat n)
      else Ret (Z.of_nat n)
  end.

Definition SkipList_removeInternal (sl : SkipList) (tx : RocksTxn T) (pos : Z) (update : list Z) (now : Z)
  : M (SkipList * RocksTxn T) :=
  sl ← for_levels (seqZ 1 (sl_level sl)) (remove_level pos update) sl;
  node ← cached sl pos;
  btmFwd ← ZSlEleValue_getForward node 1;
  sl ← (if negb (btmFwd =? 0) then
          '(sl, _) ← SkipList_getNode sl tx btmFwd;
          node ← cached sl pos;
          modify sl btmFwd (fun e => Ret (ZSlEleValue_setBackward e (ze_backward node)))
        else Ret (sl_with_tail sl (ze_backward node)));
  let sl := sl_with_count sl (u32 (sl_count sl - 1)) in
  level ← lower_level (Z.to_nat (sl_level sl)) sl;
  SkipList_delNode (sl_with_level sl level) tx pos now.

Definition SkipList_remove (sl : SkipList) (tx : RocksTxn T) (score : Z) (subkey : bytes) (now : Z)
  : M (SkipList * RocksTxn T) :=
  '(sl, s) ← search sl tx (fun _ _ e => cmp ← slCmp (ze_score e) (ze_subKey e) score subkey; Ret (cmp <? 0)) never;
  update ← level_vector sl (map fst (se_trace s));
  cur ← cached sl (se_pos s);
  pos ← ZSlEleValue_getForward cur 1;
  node ← cached sl pos;
  cmp ← slCmp (ze_score node) (ze_subKey node) score subkey;
  _ ← INVARIANT (cmp =? 0);
  SkipList_removeInternal sl tx pos update now.

(** The loop of the range removals: [cond] is the test on what has been traversed and on the node
    at [pos], [result] what has been removed so far. *)
Fixpoint remove_while (fuel : nat) (sl : SkipList) (tx : RocksTxn T) (cond : Z -> ZSlEleValue -> bool)
  (update : list Z) (pos traversed : Z) (result : list (Z * bytes)) (now : Z)
  : M (SkipList * RocksTxn T * list (Z * bytes)) :=
  match fuel with
  | O => Crash CUndefined
  | S fuel' =>
      if pos =? 0 then Ret (sl, tx, result) else
      node ← cached sl pos;
      if negb (cond traversed node) then Ret (sl, tx, result) else
      nxt ← ZSlEleValue_getForward node 1;
      '(sl, tx) ← SkipList_removeInternal sl tx pos update now;
      sl ← (if negb (nxt =? 0) then '(sl, _) ← SkipList_getNode sl tx nxt; Ret sl else Ret sl);
      remove_while fuel' sl tx cond update nxt (u32 (traversed + 1))
        (result ++ [(ze_score node, ze_subKey node)]) now
  end.

(** The common shape of the range removals: [test] finds the node before the range. *)
Definition remove_range (sl : SkipList) (tx : RocksTxn T) (test : Z -> Z -> ZSlEleValue -> M bool)
  (cond : Z -> ZSlEleValue -> bool) (now : Z) : M (SkipList * RocksTxn T * list (Z * bytes)) :=
  '(sl, s) ← search sl tx test never;
  update ← level_vector sl (map fst (se_trace s));
  cur ← cached sl (se_pos s);
  pos ← ZSlEleValue_getForward cur 1;
  remove_while (walk_fuel sl) sl tx cond update pos (u32 (se_traversed s + 1)) [] now.

(** The ranks start at 1 and the range includes both ends. *)
Definition SkipList_removeRangeByRank (sl : SkipList) (tx : RocksTxn T) (start end_ now : Z)
  : M (SkipList * RocksTxn T * list (Z * bytes)) :=
  remove_range sl tx (fun traversed span _ => Ret (u32 (traversed + span) <? start))
    (fun traversed _ => traversed <=? end_) now.

Definition SkipList_removeRangeByLex (sl : SkipList) (tx : RocksTxn T) (range : Zlexrangespec) (now : Z)
  : M (SkipList * RocksTxn T * list (Z * bytes)) :=
  remove_range sl tx (fun _ _ e => Ret (negb (zslLexValueGteMin (ze_subKey e) range)))
    (fun _ e => zslLexValueLteMax (ze_subKey e) range) now.

Definition SkipList_removeRangeByScore (sl : SkipList) (tx : RocksTxn T) (range : Zrangespec) (now : Z)
  : M (SkipList * RocksTxn T * list (Z * bytes)) :=
  remove_range sl tx
    (fun _ _ e => Ret ((zr_minex range && dbl_le (ze_score e) (zr_min range)) ||
                       (negb (zr_minex range) && dbl_lt (ze_score e) (zr_min range))))
    (fun _ e => if zr_maxex range then dbl_lt (ze_score e) (zr_max range)
                else dbl_le (ze_score e) (zr_max range)) now.

(** ** Ranges *)

(** What [isInRange] and [isInLexRange] do once the range is not empty: the tail reaches the start
    of the range and the first node its end. *)
Definition range_meets (sl : SkipList) (tx : RocksTxn T) (gte lte : ZSlEleValue -> bool) : M (SkipList * bool) :=
  if sl_tail sl =? 0 then Ret (sl, false) else
  '(sl, tail) ← SkipList_getNode sl tx (sl_tail sl);
  if negb (gte tail) then Ret (sl, false) else
  '(sl, head) ← SkipList_getNode sl tx HEAD_ID;
  first ← ZSlEleValue_getForward head 1;
  if first =? 0 then Ret (sl, false) else
  '(sl, node) ← SkipList_getNode sl tx first;
  Ret (sl, lte node).

Definition SkipList_isInRange (sl : SkipList) (tx : RocksTxn T) (range : Zrangespec) : M (SkipList * bool) :=
  if dbl_lt (zr_max range) (zr_min range) ||
     (dbl_eq (zr_min range) (zr_max range) && (zr_minex range || zr_maxex range))
  then Ret (sl, false)
  else range_meets sl tx (fun e => zslValueGteMin (ze_score e) range) (fun e => zslValueLteMax (ze_score e) range).

Definition SkipList_isInLexRange (sl : SkipList) (tx : RocksTxn T) (range : Zlexrangespec) : M (SkipList * bool) :=
  if (0 <? compareStringObjectsForLexRange (zl_min range) (zl_max range)) ||
     (bool_decide (zl_min range = zl_max range) && (zl_minex range || zl_maxex range))
  then Ret (sl, false)
  else range_meets sl tx (fun e => zslLexValueGteMin (ze_subKey e) range)
         (fun e => zslLexValueLteMax (ze_subKey e) range).

(** The first and the last node of a range that [inrange] says is met. *)
Definition first_in (sl : SkipList) (tx : RocksTxn T) (inrange : bool) (gte lte : ZSlEleValue -> bool)
  : M (SkipList * Z) :=
  if negb inrange then Ret (sl, SKIPLIST_INVALID_POS) else
  '(sl, s) ← search sl tx (fun _ _ e => Ret (negb (gte e))) never;
  cur ← cached sl (se_pos s);
  pos ← ZSlEleValue_getForward cur 1;
  _ ← INVARIANT (negb (pos =? 0));
  node ← cached sl pos;
  Ret (sl, if negb (lte node) then SKIPLIST_INVALID_POS else pos).

Definition last_in (sl : SkipList) (tx : RocksTxn T) (inrange : bool) (gte lte : ZSlEleValue -> bool)
  : M (SkipList * Z) :=
  if negb inrange then Ret (sl, SKIPLIST_INVALID_POS) else
  '(sl, s) ← search sl tx (fun _ _ e => Ret (lte e)) never;
  let pos := se_pos s in
  _ ← INVARIANT (negb (pos =? 0));
  node ← cached sl pos;
  Ret (sl, if negb (gte node) then SKIPLIST_INVALID_POS else pos).

Definition SkipList_firstInRange (sl : SkipList) (tx : RocksTxn T) (range : Zrangespec) : M (SkipList * Z) :=
  '(sl, inrange) ← SkipList_isInRange sl tx range;
  first_in sl tx inrange (fun e => zslValueGteMin (ze_score e) range) (fun e => zslValueLteMax (ze_score e) range).

Definition SkipList_lastInRange (sl : SkipList) (tx : RocksTxn T) (range : Zrangespec) : M (SkipList * Z) :=
  '(sl, inrange) ← SkipList_isInRange sl tx range;
  last_in sl tx inrange (fun e => zslValueGteMin (ze_score e) range) (fun e => zslValueLteMax (ze_score e) range).

Definition SkipList_firstInLexRange (sl : SkipList) (tx : RocksTxn T) (range : Zlexrangespec) : M (SkipList * Z) :=
  '(sl, inrange) ← SkipList_isInLexRange sl tx range;
  first_in sl tx inrange (fun e => zslLexValueGteMin (ze_subKey e) range)
    (fun e => zslLexValueLteMax (ze_subKey e) range).

Definition SkipList_lastInLexRange (sl : SkipList) (tx : RocksTxn T) (range : Zlexrangespec) : M (SkipList * Z) :=
  '(sl, inrange) ← SkipList_isInLexRange sl tx range;
  last_in sl tx inrange (fun e => zslLexValueGteMin (ze_subKey e) range)
    (fun e => zslLexValueLteMax (ze_subKey e) range).

(** ** Scanning *)

(** Where a scan goes from a node. *)
Definition next_of (rev : bool) (e : ZSlEleValue) : M Z :=
  if rev then Ret (ze_backward e) else ZSlEleValue_getForward e 1.

(** The loop that skips [offset] nodes; [None] if the list ends before. *)
Fixpoint scan_skip (fuel : nat) (sl : SkipList) (tx : RocksTxn T) (rev : bool) (ln : ZSlEleValue) (offset : Z)
  : M (SkipList * option ZSlEleValue) :=
  match fuel with
  | O => Crash CUndefined
  | S fuel' =>
      if offset =? 0 then Ret (sl, Some ln) else
      nxt ← next_of rev ln;
      if nxt =? 0 then Ret (sl, None) else
      '(sl, ln) ← SkipList_getNode sl tx nxt;
      scan_skip fuel' sl tx rev ln (offset - 1)
  end.

(** The loop that collects up to [limit] nodes of the range. *)
Fixpoint scan_take (fuel : nat) (sl : SkipList) (tx : RocksTxn T) (rev : bool) (inside : ZSlEleValue -> bool)
  (ln : ZSlEleValue) (limit : Z) (result : list (Z * bytes)) : M (SkipList * list (Z * bytes)) :=
  match fuel with
  | O => Crash CUndefined
  | S fuel' =>
      if limit =? 0 then Ret (sl, result) else
      if negb (inside ln) then Ret (sl, result) else
      let result := result ++ [(ze_score ln, ze_subKey ln)] in
      nxt ← next_of rev ln;
      if nxt =? 0 then Ret (sl, result) else
      '(sl, ln) ← SkipList_getNode sl tx nxt;
      scan_take fuel' sl tx rev inside ln (limit - 1) result
  end.

(** What both scans do from the position they found. *)
Definition scan_from (sl : SkipList) (tx : RocksTxn T) (pos offset limit : Z) (rev : bool)
  (gte lte : ZSlEleValue -> bool) : M (SkipList * list (Z * bytes)) :=
  if pos =? SKIPLIST_INVALID_POS then Ret (sl, []) else
  ln ← cached sl pos;
  '(sl, ln) ← scan_skip (walk_fuel sl) sl tx rev ln offset;
  match ln with
  | None => Ret (sl, [])
  | Some ln => scan_take (walk_fuel sl) sl tx rev (if rev then gte else lte) ln limit []
  end.

Definition SkipList_scanByScore (sl : SkipList) (tx : RocksTxn T) (range : Zrangespec) (offset limit : Z)
  (rev : bool) : M (SkipList * list (Z * bytes)) :=
  '(sl, pos) ← (if rev then SkipList_lastInRange sl tx range else SkipList_firstInRange sl tx range);
  scan_from sl tx pos offset limit rev (fun e => zslValueGteMin (ze_score e) range)
    (fun e => zslValueLteMax (ze_score e) range).

Definition SkipList_scanByLex (sl : SkipList) (tx : RocksTxn T) (range : Zlexrangespec) (offset limit : Z)
  (rev : bool) : M (SkipList * list (Z * bytes)) :=
  '(sl, pos) ← (if rev then SkipList_lastInLexRange sl tx range else SkipList_firstInLexRange sl tx range);
  scan_from sl tx pos offset limit rev (fun e => zslLexValueGteMin (ze_subKey e) range)
    (fun e => zslLexValueLteMax (ze_subKey e) range).

(** The loop of [scanByRank]: a null [ln] breaks its invariant. *)
Fixpoint scan_rank (fuel : nat) (sl : SkipList) (tx : RocksTxn T) (rev : bool) (ln : option ZSlEleValue)
  (len : Z) (result : list (Z * bytes)) : M (SkipList * list (Z * bytes)) :=
  match fuel with
  | O => Crash CUndefined
  | S fuel' =>
      if len =? 0 then Ret (sl, result) else
      let len := len - 1 in
      match ln with
      | None => Crash CInvariant
      | Some ln =>
          let result := result ++ [(ze_score ln, ze_subKey ln)] in
          if len =? 0 then Ret (sl, result) else
          nxt ← next_of rev ln;
          '(sl, ln) ← SkipList_getNode sl tx nxt;
          scan_rank fuel' sl tx rev (Some ln) len result
      end
  end.

Definition SkipList_scanByRank (sl : SkipList) (tx : RocksTxn T) (start len : Z) (rev : bool)
  : M (SkipList * list (Z * bytes)) :=
  '(sl, ln) ←
    (if rev then
       '(sl, tail) ← SkipList_getNode sl tx (sl_tail sl);
       if 0 <? start then SkipList_getEleByRank sl tx (u32 (sl_count sl - 1 - start)) else Ret (sl, Some tail)
     else
       '(sl, head) ← SkipList_getNode sl tx HEAD_ID;
       first ← ZSlEleValue_getForward head 1;
       '(sl, node) ← SkipList_getNode sl tx first;
       if 0 <? start then SkipList_getEleByRank sl tx (u32 (start + 1)) else Ret (sl, Some node));
  scan_rank (walk_fuel sl) sl tx rev ln len [].

(** ** Inserting *)

(** The rounds of the two loops of [insert] that link the new node [p], and of the one that adds
    levels. *)
Definition new_level (i : Z) (sl : SkipList) : M SkipList :=
  modify sl HEAD_ID (fun e => ZSlEleValue_setSpan e i (u32 (sl_count sl - 1))).

Definition link_level (p : Z) (update rank : list Z) (i : Z) (sl : SkipList) : M SkipList :=
  u ← vec_at update i;
  _ ← INVARIANT (HEAD_ID <=? u);
  _ ← INVARIANT (bool_decide (is_Some (sl_cache sl !! u)));
  cur ← cached sl u;
  fwd ← ZSlEleValue_getForward cur i;
  sl ← modify sl p (fun e => ZSlEleValue_setForward e i fwd);
  sl ← modify sl u (fun e => ZSlEleValue_setForward e i p);
  r1 ← vec_at rank 1;
  ri ← vec_at rank i;
  cur ← cached sl u;
  span ← ZSlEleValue_getSpan cur i;
  sl ← modify sl p (fun e => ZSlEleValue_setSpan e i (u32 (span - u32 (r1 - ri))));
  modify sl u (fun e => ZSlEleValue_setSpan e i (u32 (u32 (r1 - ri) + 1))).

Definition skip_level (update : list Z) (i : Z) (sl : SkipList) : M SkipList :=
  u ← vec_at update i;
  cur ← cached sl u;
  span ← ZSlEleValue_getSpan cur i;
  modify sl u (fun e => ZSlEleValue_setSpan e i (u32 (span + 1))).

(** [rank[i] = 0] and [update[i] = HEAD_ID] for the levels from [lo] to [hi]. *)
Fixpoint raise_vectors (levels : list Z) (update rank : list Z) : M (list Z * list Z) :=
  match levels with
  | [] => Ret (update, rank)
  | i :: levels' =>
      rank ← vec_set rank i 0;
      update ← vec_set update i HEAD_ID;
      raise_vectors levels' update rank
  end.

Definition INT32_MAX : Z := 2 ^ 31 - 1.

(** [lvl] is what [randomLevel] gives. *)
Definition SkipList_insert (sl : SkipList) (tx : RocksTxn T) (score : Z) (subkey : bytes) (lvl : Z) : M SkipList :=
  if INT32_MAX / 2 <=? sl_count sl then Throw ERR_INTERNAL (lit "zset count reach limit") else
  '(sl, s) ← search sl tx
    (fun _ _ e =>
       _ ← INVARIANT (negb (bool_decide (ze_subKey e = subkey)));
       cmp ← slCmp (ze_score e) (ze_subKey e) score subkey;
       Ret (cmp <? 0)) never;
  update ← level_vector sl (map fst (se_trace s));
  rank ← level_vector sl (map snd (se_trace s));
  let level := sl_level sl in
  '(update, rank) ← raise_vectors (seqZ (level + 1) (lvl - level)) update rank;
  sl ← for_levels (seqZ (level + 1) (lvl - level)) new_level sl;
  let sl := if level <? lvl then sl_with_level sl lvl else sl in
  let '(sl, p, node) := SkipList_makeNode sl score subkey in
  let sl := sl_with_cache sl (<[p := node]> (sl_cache sl)) in
  sl ← for_levels (seqZ 1 lvl) (link_level p update rank) sl;
  sl ← for_levels (seqZ (lvl + 1) (sl_level sl - lvl)) (skip_level update) sl;
  u ← vec_at update 1;
  sl ← modify sl p (fun e => Ret (ZSlEleValue_setBackward e (if u =? HEAD_ID then 0 else u)));
  node ← cached sl p;
  btmFwd ← ZSlEleValue_getForward node 1;
  sl ← (if negb (btmFwd =? 0) then
          '(sl, _) ← SkipList_getNode sl tx btmFwd;
          modify sl btmFwd (fun e => Ret (ZSlEleValue_setBackward e p))
        else Ret (sl_with_tail sl p));
  Ret (sl_with_count sl (u32 (sl_count sl + 1))).

End SkipList.

Definition SkipList_getCount (sl : SkipList) : Z := sl_count sl.
Definition SkipList_getLevel (sl : SkipList) : Z := sl_level sl.
Definition SkipList_getAlloc (sl : SkipList) : Z := sl_posAlloc sl.
Definition SkipList_getTail (sl : SkipList) : Z := sl_tail sl.
