(* ===== verification/SkipListRep.v ===== *)
(** The list of members that a skip list (storage/skiplist.cpp) represents: the levels as links
    with distances over one list of nodes, the backward pointers, the nodes of the cache and of
    the store; and what a search along the levels finds. *)

From Stdlib Require Import Strings.Byte ZArith Lia.
From stdpp Require Import base list numbers strings gmap sorting.
From S2P Require Import Prelude Status Varint Record RecordValue RecordMeta ReplLog BinlogSeq Txn Store SkipList.

Local Open Scope Z_scope.

(** * Levels *)

(** A node of the list: where it is kept, its member and the levels it is on. *)
Record anode : Set := mkANode { an_pos : Z; an_score : Z; an_key : bytes; an_height : Z }.

Definition head_node : anode := mkANode HEAD_ID 0 [] MAX_LAYER.

(** From a node that [l] follows, the next node on level [i] and how far it is; without one, the
    null position and the distance to the end. *)
Fixpoint link (l : list anode) (i : Z) : Z * Z :=
  match l with
  | [] => (0, 0)
  | a :: l' => if i <=? an_height a then (an_pos a, 1) else (fst (link l' i), 1 + snd (link l' i))
  end.

Definition low (i : Z) (a : anode) : Prop := an_height a < i.

Lemma link_low l k i : Forall (low i) l -> link (l ++ k) i = (fst (link k i), zlen l + snd (link k i)).
Proof.
  induction 1 as [|a l Ha _ IH]; cbn [link app]; [by destruct (link k i)|].
  unfold low in Ha. destruct (Z.leb_spec i (an_height a)); [lia|]. rewrite IH, zlen_cons. cbn [fst snd]. f_equal. lia.
Qed.

Lemma link_none l i : Forall (low i) l -> link l i = (0, zlen l).
Proof. intros Hl. rewrite <-(app_nil_r l) at 1. rewrite link_low by done. cbn. f_equal. lia. Qed.

Lemma link_here l a k i : Forall (low i) l -> i <= an_height a -> link (l ++ a :: k) i = (an_pos a, zlen l + 1).
Proof. intros Hl Ha. rewrite link_low by done. cbn [link]. by destruct (Z.leb_spec i (an_height a)); [|lia]. Qed.

(** What follows a node of the level does not matter. *)
Lemma link_stop l a k k' i : i <= an_height a -> link (l ++ a :: k) i = link (l ++ a :: k') i.
Proof.
  intros Ha. induction l as [|b l IH]; cbn [link app].
  - by destruct (Z.leb_spec i (an_height a)); [|lia].
  - by rewrite IH.
Qed.

(** The first node of the level, if there is one. *)
Lemma first_on_level l i :
  Forall (low i) l \/ exists l1 a l2, l = l1 ++ a :: l2 /\ Forall (low i) l1 /\ i <= an_height a.
Proof.
  induction l as [|b l [IH|(l1 & a & l2 & -> & H1 & Ha)]]; [by left| |].
  - destruct (Z.le_gt_cases i (an_height b)); [right; by exists [], b, l|left; by constructor].
  - right. destruct (Z.le_gt_cases i (an_height b)); [by exists [], b, (l1 ++ a :: l2)|].
    exists (b :: l1), a, l2. split_and!; [done|by constructor|done].
Qed.

(** The last one. *)
Definition last_of (L : list anode) (i : Z) (P : list anode) (u : anode) (S : list anode) : Prop :=
  L = P ++ u :: S /\ i <= an_height u /\ Forall (low i) S.

Lemma last_of_bottom L P u S : Forall (fun a => 1 <= an_height a) L -> last_of L 1 P u S -> S = [] /\ L = P ++ [u].
Proof.
  intros HL (-> & _ & HS). destruct S as [|a S]; [done|]. exfalso.
  apply Forall_app in HL as [_ HL]. inversion HL as [|? ? _ HS' ]; subst. inversion HS'; subst.
  inversion HS as [|? ? Ha]; subst. unfold low in Ha. lia.
Qed.

Lemma Forall_mid {A} (Q : A -> Prop) l a k : Forall Q (l ++ a :: k) -> Q a.
Proof. intros [_ H]%Forall_app. by inversion H. Qed.

(** * Nodes *)

Abbreviation nodemap := (Z -> option ZSlEleValue).

(** What a node has on a level. *)
Definition slot (N : nodemap) (p i : Z) : option (Z * Z) :=
  e ← N p; f ← znth (ze_forward e) i; s ← znth (ze_span e) i; Some (f, s).

(** Every node of level [i] points to the next one and knows how far it is. *)
Fixpoint level_ok (N : nodemap) (i : Z) (l : list anode) : Prop :=
  match l with
  | [] => True
  | a :: l' => (i <= an_height a -> slot N (an_pos a) i = Some (link l' i)) /\ level_ok N i l'
  end.

Lemma level_ok_at N i P u l : level_ok N i (P ++ u :: l) -> i <= an_height u -> slot N (an_pos u) i = Some (link l i).
Proof. induction P as [|a P IH]; cbn [level_ok app]; intros [H1 H2]; auto. Qed.

Lemma level_ok_suffix N i P l : level_ok N i (P ++ l) -> level_ok N i l.
Proof. induction P as [|a P IH]; [done|]. intros [_ H]. by apply IH. Qed.

Lemma level_ok_ext N N' i l :
  (forall a, a ∈ l -> i <= an_height a -> slot N' (an_pos a) i = slot N (an_pos a) i) ->
  level_ok N i l -> level_ok N' i l.
Proof.
  induction l as [|a l IH]; [done|]. intros Hs [H1 H2]. split.
  - intros Ha. rewrite Hs; [by apply H1|left|done].
  - apply IH; [|done]. intros b Hb. apply Hs. by right.
Qed.

(** To replace what follows the last node [u] of the level in [L], it is enough to set the slot
    of [u]. *)
Lemma level_ok_splice N N' i L B C P u S :
  level_ok N i (L ++ B) -> last_of L i P u S ->
  (forall a, a ∈ P -> slot N' (an_pos a) i = slot N (an_pos a) i) ->
  slot N' (an_pos u) i = Some (link (S ++ C) i) -> level_ok N' i C ->
  level_ok N' i (L ++ C).
Proof.
  intros HL (-> & Hu & HS) Hsame Hslot HC. induction P as [|a P IH]; cbn [level_ok app] in *.
  - split; [by intros|]. clear HL Hslot Hsame. induction HS as [|b S Hb _ IHS]; cbn [level_ok app]; [done|].
    split; [|done]. unfold low in Hb. lia.
  - destruct HL as [Ha HL]. split.
    + intros Hi. rewrite Hsame by left. rewrite Ha by done. f_equal. rewrite <-!app_assoc. cbn [app]. by apply link_stop.
    + apply IH; [done|]. intros b Hb. apply Hsame. by right.
Qed.

(** ** Backward pointers *)

(** The nodes of [l] after the position [prev] point back, and the last position is [tl]. *)
Fixpoint backs (N : nodemap) (prev : Z) (l : list anode) (tl : Z) : Prop :=
  match l with
  | [] => tl = prev
  | a :: l' => (exists e, N (an_pos a) = Some e /\ ze_backward e = prev) /\ backs N (an_pos a) l' tl
  end.

(** The position of the last node, [d] if there is none. *)
Definition last_pos (l : list anode) (d : Z) : Z := match last l with Some a => an_pos a | None => d end.

Lemma last_pos_cons a l d : last_pos (a :: l) d = last_pos l (an_pos a).
Proof. by destruct l using rev_ind; [|unfold last_pos; rewrite app_comm_cons, !last_snoc]. Qed.

Lemma backs_app N l k : forall prev tl,
  backs N prev (l ++ k) tl <-> backs N prev l (last_pos l prev) /\ backs N (last_pos l prev) k tl.
Proof.
  induction l as [|a l IH]; intros prev tl; cbn [backs app]; [by unfold last_pos; simpl; intuition|].
  rewrite IH, last_pos_cons. tauto.
Qed.

Lemma backs_tail N l : forall prev tl, backs N prev l tl -> tl = last_pos l prev.
Proof. induction l as [|a l IH]; intros prev tl; cbn [backs]; [done|]. rewrite last_pos_cons. intros [_ H]. by apply IH. Qed.

Lemma backs_ext N N' l : forall prev tl,
  (forall a e, a ∈ l -> N (an_pos a) = Some e -> exists e', N' (an_pos a) = Some e' /\ ze_backward e' = ze_backward e) ->
  backs N prev l tl -> backs N' prev l tl.
Proof.
  induction l as [|a l IH]; intros prev tl Hs; cbn [backs]; [done|]. intros [(e & He & Hb) Hl]. split.
  - destruct (Hs a e) as (e' & He' & Hb'); [left|done|]. exists e'. by rewrite Hb'.
  - apply IH; [|done]. intros b e' Hin. apply Hs. by right.
Qed.

(** * The nodes of a list in a transaction *)

(** Changes of a node on the levels in [D] only. *)
Definition same_but (D : Z -> Prop) (e e' : ZSlEleValue) : Prop :=
  (ZSlEleValue_wf e -> ZSlEleValue_wf e') /\ ze_score e' = ze_score e /\ ze_subKey e' = ze_subKey e /\
  ze_backward e' = ze_backward e /\ (ze_changed e' = false -> e' = e) /\
  forall j, ~ D j -> znth (ze_forward e') j = znth (ze_forward e) j /\ znth (ze_span e') j = znth (ze_span e) j.

Lemma same_but_refl D e : same_but D e e.
Proof. by unfold same_but. Qed.

Lemma same_but_trans (D1 D2 D : Z -> Prop) e1 e2 e3 :
  (forall j, D1 j -> D j) -> (forall j, D2 j -> D j) ->
  same_but D1 e1 e2 -> same_but D2 e2 e3 -> same_but D e1 e3.
Proof.
  intros S1 S2 (W1 & A1 & B1 & C1 & F1 & H1) (W2 & A2 & B2 & C2 & F2 & H2). unfold same_but. split_and!; try congruence; [by auto| |].
  - intros Hc. pose proof (F2 Hc) as ->. by apply F1.
  - intros j Hj. destruct (H1 j) as [P1 Q1]; [by auto|]. destruct (H2 j) as [P2 Q2]; [by auto|]. by rewrite P2, Q2.
Qed.

(** [e] with the slot of level [i] set. *)
Definition set_slot (e : ZSlEleValue) (i f s : Z) : ZSlEleValue :=
  mkZSlEle (zset (ze_forward e) i f) (zset (ze_span e) i s) (ze_score e) (ze_backward e) true (ze_subKey e).

Lemma set_slot_same e i f s : is_u64 f -> is_u32 s -> same_but (eq i) e (set_slot e i f s).
Proof.
  intros Hf Hs. unfold same_but, set_slot; cbn. split_and!; try done.
  - intros (L1 & L2 & F1 & F2 & Hr). unfold ZSlEleValue_wf; cbn. rewrite !zlen_set.
    split_and!; [done|done|by apply Forall_zset|by apply Forall_zset|apply Hr..].
  - intros j Hj. by rewrite !znth_zset_ne.
Qed.

Section Nodes.
Context {BM : BuildMode} {T : Type} `{RocksDB T}.
Variable cfg : StoreCfg.

(** The node the store keeps at a position. *)
Definition load (sl : SkipList) (tx : RocksTxn T) (p : Z) : option ZSlEleValue :=
  match (rv ← RocksKVStore_getKV cfg (node_key sl p) tx; ZSlEleValue_decode (rv_value rv)) with
  | Ret e => Some e
  | _ => None
  end.

(** The node at a position: the cache covers the store. *)
Definition nodes (sl : SkipList) (tx : RocksTxn T) : nodemap := fun p =>
  match sl_cache sl !! p with Some e => Some e | None => load sl tx p end.

(** [sl'] is [sl] with more of its nodes in the cache. *)
Definition loaded (tx : RocksTxn T) (sl sl' : SkipList) : Prop :=
  exists c, sl' = sl_with_cache sl c /\ sl_cache sl ⊆ c /\ forall p e, c !! p = Some e -> nodes sl tx p = Some e.

Lemma load_with_cache sl c tx p : load (sl_with_cache sl c) tx p = load sl tx p.
Proof. done. Qed.

Lemma loaded_nodes tx sl sl' p : loaded tx sl sl' -> nodes sl' tx p = nodes sl tx p.
Proof.
  intros (c & -> & Hsub & Hc). unfold nodes at 1. cbn [sl_cache sl_with_cache].
  destruct (c !! p) as [e|] eqn:E; [symmetry; by apply Hc|]. rewrite load_with_cache. unfold nodes.
  destruct (sl_cache sl !! p) eqn:E'; [|done]. by rewrite (lookup_weaken _ _ _ _ E' Hsub) in E.
Qed.

Lemma loaded_refl tx sl : loaded tx sl sl.
Proof.
  exists (sl_cache sl). split_and!; [by destruct sl|done|]. intros p e E. unfold nodes. by rewrite E.
Qed.

Lemma loaded_trans tx sl1 sl2 sl3 : loaded tx sl1 sl2 -> loaded tx sl2 sl3 -> loaded tx sl1 sl3.
Proof.
  intros H1 H2. pose proof H1 as (c1 & -> & S1 & C1). destruct H2 as (c2 & -> & S2 & C2).
  exists c2. split_and!; [done|by etransitivity|]. intros p e E. apply C2 in E. by rewrite (loaded_nodes _ _ _ _ H1) in E.
Qed.

(** A cached node stays in the cache. *)
Lemma loaded_cached tx sl sl' p e : loaded tx sl sl' -> cached sl p = Ret e -> cached sl' p = Ret e.
Proof.
  intros (c & -> & Hsub & _). unfold cached. cbn [sl_cache sl_with_cache].
  destruct (sl_cache sl !! p) eqn:E; [|done]. by rewrite (lookup_weaken _ _ _ _ E Hsub).
Qed.

Lemma cached_nodes sl tx p e : cached sl p = Ret e -> nodes sl tx p = Some e.
Proof. unfold cached, nodes. destruct (sl_cache sl !! p); [|done]. by intros [= ->]. Qed.

Lemma getNode_ok sl tx p e :
  nodes sl tx p = Some e ->
  exists sl', SkipList_getNode cfg sl tx p = Ret (sl', e) /\ loaded tx sl sl' /\ cached sl' p = Ret e.
Proof.
  intros E. unfold SkipList_getNode. unfold nodes in E. destruct (sl_cache sl !! p) as [e'|] eqn:Ec.
  - exists sl. simplify_eq. split_and!; [done|apply loaded_refl|]. unfold cached. by rewrite Ec.
  - pose proof E as El. unfold load in E. destruct (RocksKVStore_getKV _ _ _) as [rv| |] eqn:Eg; [|done..].
    rewrite bind_Ret. cbn in E.     destruct (ZSlEleValue_decode _) as [e'| |] eqn:Ed; [|done..]. simplify_eq. rewrite bind_Ret. eexists. split_and!; [done| |].
    + eexists. split_and!; [done|by apply insert_subseteq|]. intros q e' Eq. unfold nodes.
      destruct (decide (q = p)) as [->|Hn].
      * rewrite lookup_insert_eq in Eq. simplify_eq. by rewrite Ec.
      * rewrite lookup_insert_ne in Eq by done. by rewrite Eq.
    + unfold cached. cbn. by rewrite lookup_insert_eq.
Qed.

(** A setter on a cached node. *)
Lemma modify_ok sl p e e' f :
  cached sl p = Ret e -> f e = Ret e' -> modify sl p f = Ret (sl_with_cache sl (<[p := e']> (sl_cache sl))).
Proof. intros E Ef. unfold modify. by rewrite E, bind_Ret, Ef, bind_Ret. Qed.

Lemma cached_insert sl p e q :
  cached (sl_with_cache sl (<[p := e]> (sl_cache sl))) q = if decide (q = p) then Ret e else cached sl q.
Proof.
  unfold cached. cbn [sl_cache sl_with_cache]. destruct (decide (q = p)) as [->|].
  - by rewrite lookup_insert_eq.
  - by rewrite lookup_insert_ne.
Qed.

Lemma nodes_insert sl tx p e q :
  nodes (sl_with_cache sl (<[p := e]> (sl_cache sl))) tx q = if decide (q = p) then Some e else nodes sl tx q.
Proof.
  unfold nodes. cbn [sl_cache sl_with_cache]. destruct (decide (q = p)) as [->|].
  - by rewrite lookup_insert_eq.
  - by rewrite lookup_insert_ne.
Qed.

(** ** Getters and setters inside the vectors *)

Lemma wf_slot e i : ZSlEleValue_wf e -> 0 <= i <= MAX_LAYER ->
  exists f s, ZSlEleValue_getForward e i = Ret f /\ ZSlEleValue_getSpan e i = Ret s /\
    znth (ze_forward e) i = Some f /\ znth (ze_span e) i = Some s /\ is_u64 f /\ is_u32 s.
Proof.
  intros (L1 & L2 & F1 & F2 & _) Hi. unfold ZSlEleValue_getForward, ZSlEleValue_getSpan.
  destruct (znth_some (ze_forward e) i) as [f Ef]; [lia|]. destruct (znth_some (ze_span e) i) as [s Es]; [lia|].
  rewrite Ef, Es. exists f, s. rewrite znth_lookup in Ef, Es by lia.
  split_and!; try done; [by eapply Forall_lookup_1 in F1|by eapply Forall_lookup_1 in F2].
Qed.

Lemma slot_get N p e i f s :
  N p = Some e -> slot N p i = Some (f, s) ->
  ZSlEleValue_getForward e i = Ret f /\ ZSlEleValue_getSpan e i = Ret s.
Proof.
  intros E. unfold slot, ZSlEleValue_getForward, ZSlEleValue_getSpan. rewrite E. cbn.
  destruct (znth (ze_forward e) i); cbn; [|done]. destruct (znth (ze_span e) i); cbn; [|done]. by intros [= -> ->].
Qed.

Lemma setForward_ok e i f :
  ZSlEleValue_wf e -> 0 <= i <= MAX_LAYER ->
  ZSlEleValue_setForward e i f =
    Ret (mkZSlEle (zset (ze_forward e) i f) (ze_span e) (ze_score e) (ze_backward e) true (ze_subKey e)).
Proof.
  intros (L1 & _) Hi. unfold ZSlEleValue_setForward. rewrite L1.
  by destruct (Z.leb_spec 0 i), (Z.ltb_spec i (MAX_LAYER + 1)); try lia.
Qed.

Lemma setSpan_ok e i s :
  zlen (ze_span e) = MAX_LAYER + 1 -> 0 <= i <= MAX_LAYER ->
  ZSlEleValue_setSpan e i s =
    Ret (mkZSlEle (ze_forward e) (zset (ze_span e) i s) (ze_score e) (ze_backward e) true (ze_subKey e)).
Proof.
  intros L2 Hi. unfold ZSlEleValue_setSpan. rewrite L2.
  by destruct (Z.leb_spec 0 i), (Z.ltb_spec i (MAX_LAYER + 1)); try lia.
Qed.

Lemma slot_set_slot N p e i f s :
  N p = Some (set_slot e i f s) -> ZSlEleValue_wf e -> 0 <= i <= MAX_LAYER -> slot N p i = Some (f, s).
Proof.
  intros E (L1 & L2 & _) Hi. unfold slot. rewrite E. cbn. rewrite !znth_zset_eq by lia. done.
Qed.

End Nodes.

(** * Searching *)

(** A node that is where it should be. *)
Definition good (N : nodemap) (a : anode) : Prop :=
  an_pos a <> 0 /\ exists e, N (an_pos a) = Some e /\ ZSlEleValue_wf e.

(** A search finds the end of [L] when its test holds of the nodes of [L] after the first, and
    fails on those of [B]: the test sees the node and two numbers whose sum is its index. *)
Definition test_ok (N : nodemap) (test : Z -> Z -> ZSlEleValue -> M bool) (L B : list anode) : Prop :=
  (forall P v S t s e, L = P ++ v :: S -> P <> [] -> t + s = zlen P -> 0 <= t -> N (an_pos v) = Some e ->
     test t s e = Ret true) /\
  (forall P v S t s e, B = P ++ v :: S -> t + s = zlen L + zlen P -> 0 <= t -> N (an_pos v) = Some e ->
     test t s e = Ret false).

Definition in_cache (sl : SkipList) (p : Z) : Prop := exists e, cached sl p = Ret e.

(** Where the search stands when it leaves level [i]. *)
Definition found_at (L : list anode) (sl : SkipList) (i pos traversed : Z) : Prop :=
  exists P u S, last_of L i P u S /\ pos = an_pos u /\ traversed = zlen P /\ in_cache sl (an_pos u).

(** What a search down from level [n] leaves in [s], [trace] being the levels above [n]. *)
Definition search_post (N : nodemap) (L B : list anode) (stop : Z -> ZSlEleValue -> bool) (sl : SkipList)
  (n : nat) (trace : list (Z * Z)) (s : Search) : Prop :=
  if se_stopped s then
    exists i e, 1 <= i <= Z.of_nat n /\ found_at L sl i (se_pos s) (se_traversed s) /\ N (se_pos s) = Some e /\
      stop (se_traversed s) e = true
  else
    (exists tr, se_trace s = tr ++ trace /\ length tr = n /\
       forall j pt, tr !! j = Some pt -> found_at L sl (Z.of_nat (S j)) (fst pt) (snd pt)) /\
    ((0 < n)%nat ->
       found_at L sl 1 (se_pos s) (se_traversed s) /\
       (exists e, N (se_pos s) = Some e /\ stop (se_traversed s) e = false) /\
       forall v B', B = v :: B' -> 1 <= an_height v -> in_cache sl (an_pos v)).

Section Search.
Context {BM : BuildMode} {T : Type} `{RocksDB T}.
Variable cfg : StoreCfg.
Variable tx : RocksTxn T.
Variable N : nodemap.
Variable test : Z -> Z -> ZSlEleValue -> M bool.
Variables L B : list anode.
Hypothesis Hgood : Forall (good N) (L ++ B).
Hypothesis Htest : test_ok N test L B.
Hypothesis Hlen : zlen (L ++ B) < 2 ^ 32.

Definition views (sl : SkipList) : Prop := forall p, nodes cfg sl tx p = N p.

Lemma loaded_in_cache sl sl' p : loaded cfg tx sl sl' -> in_cache sl p -> in_cache sl' p.
Proof. intros Hl [e He]. exists e. by eapply loaded_cached. Qed.

Lemma loaded_views sl sl' : views sl -> loaded cfg tx sl sl' -> views sl'.
Proof. intros Hv Hl p. by rewrite (loaded_nodes _ _ _ _ _ Hl). Qed.

(** One round reads the next node and the span to it. *)
Lemma walk_step fuel sl i P u k f s t :
  views sl -> level_ok N i (L ++ B) -> 1 <= i <= MAX_LAYER -> L ++ B = P ++ u :: k -> i <= an_height u ->
  in_cache sl (an_pos u) -> link k i = (f, s) -> f <> 0 -> (exists e, N f = Some e) ->
  exists sl' e, loaded cfg tx sl sl' /\ N f = Some e /\ in_cache sl' f /\
    walk cfg (S fuel) sl tx test i (an_pos u) f t =
      (go ← test t s e;
       if go : bool then fwd ← ZSlEleValue_getForward e i; walk cfg fuel sl' tx test i f fwd (u32 (t + s))
       else Ret (sl', an_pos u, t)).
Proof.
  intros Hv Hok Hi E Hu [eu Hc] Hlk Hf [e He]. rewrite E in Hok.
  pose proof (level_ok_at _ _ _ _ _ Hok Hu) as Hs. rewrite Hlk in Hs.
  destruct (getNode_ok cfg sl tx f e) as (sl' & Eg & Hl & Hcf); [by rewrite Hv|].
  exists sl', e. split_and!; [done|done|by exists e|]. cbn [walk].
  destruct (Z.eqb_spec f 0); [done|]. rewrite Eg, bind_Ret, (loaded_cached _ _ _ _ _ _ Hl Hc), bind_Ret.
  destruct (slot_get N (an_pos u) eu i f s) as [_ ->]; [|done|by rewrite bind_Ret].
  rewrite <-(Hv (an_pos u)). by apply cached_nodes.
Qed.

Lemma walk_ok i fuel : forall sl P u S0,
  views sl -> level_ok N i (L ++ B) -> 1 <= i <= MAX_LAYER -> L = P ++ u :: S0 -> i <= an_height u ->
  in_cache sl (an_pos u) -> (length S0 < fuel)%nat ->
  exists sl' P' u' S', walk cfg fuel sl tx test i (an_pos u) (fst (link (S0 ++ B) i)) (zlen P) =
      Ret (sl', an_pos u', zlen P') /\ loaded cfg tx sl sl' /\ last_of L i P' u' S' /\
    in_cache sl' (an_pos u') /\ forall v B', B = v :: B' -> i <= an_height v -> in_cache sl' (an_pos v).
Proof.
  induction fuel as [|fuel IH]; [lia|]. intros sl P u S0 Hv Hok Hi HL Hu Hc Hf.
  assert (L ++ B = P ++ u :: (S0 ++ B)) as HLB by (by rewrite HL, <-app_assoc).
  pose proof (zlen_nonneg P) as HP.
  destruct (first_on_level S0 i) as [Hlow|(S1 & v & S2 & -> & H1 & Hiv)].
  - rewrite (link_low _ _ _ Hlow). cbn [fst]. destruct (first_on_level B i) as [HB|(B1 & v & B2 & EB & H1 & Hiv)].
    + rewrite (link_none _ _ HB). cbn [fst walk]. exists sl, P, u, S0.
      split_and!; [done|apply loaded_refl|done|done|]. intros v B' EB. rewrite EB in HB.
      inversion HB as [|? ? Hlv]; subst. unfold low in Hlv. lia.
    + assert (link B i = (an_pos v, zlen B1 + 1)) as El by (rewrite EB; by apply link_here).
      rewrite El. cbn [fst].
      assert (good N v) as [Hn (e' & He' & _)].
      { rewrite EB, app_assoc in Hgood. by eapply Forall_mid. }
      destruct (walk_step fuel sl i P u (S0 ++ B) (an_pos v) (zlen S0 + (zlen B1 + 1)) (zlen P) Hv Hok Hi HLB Hu Hc)
        as (sl' & e & Hl & He & Hcv & ->); [by rewrite (link_low _ _ _ Hlow), El|done|by eexists|].
      destruct Htest as [_ Htf]. rewrite (Htf B1 v B2 _ _ e EB); [|subst L; rewrite zlen_app, zlen_cons; lia|lia|done].
      rewrite bind_Ret. exists sl', P, u, S0. split_and!; [done|done|done|by eapply loaded_in_cache|].
      intros w B' -> Hw. destruct B1 as [|b B1]; cbn in EB; simplify_eq; [done|]. inversion H1 as [|? ? Hb]; subst. unfold low in Hb. lia.
  - rewrite <-app_assoc, <-app_comm_cons. rewrite (link_here _ _ _ _ H1 Hiv). cbn [fst].
    assert (good N v) as [Hn (e' & He' & Hwf)].
    { rewrite HL in Hgood. rewrite <-app_assoc, <-app_comm_cons, <-app_assoc in Hgood. rewrite app_comm_cons, app_assoc in Hgood. by eapply Forall_mid. }
    destruct (walk_step fuel sl i P u ((S1 ++ v :: S2) ++ B) (an_pos v) (zlen S1 + 1) (zlen P) Hv Hok Hi HLB Hu Hc)
      as (sl' & e & Hl & He & Hcv & ->); [rewrite <-app_assoc; by apply link_here|done|by eexists|].
    assert (L = (P ++ u :: S1) ++ v :: S2) as HL' by (by rewrite HL, <-app_assoc).
    assert (zlen (P ++ u :: S1) = zlen P + (zlen S1 + 1)) as Ez by (rewrite zlen_app, zlen_cons; lia).
    destruct Htest as [Htt _]. rewrite (Htt (P ++ u :: S1) v S2 _ _ e HL'); [|by destruct P|lia|lia|done].
    rewrite bind_Ret. rewrite HL', <-app_assoc in Hok.
    destruct (slot_get N (an_pos v) e i _ _ He (eq_trans (level_ok_at _ _ _ _ _ Hok Hiv) (f_equal Some (surjective_pairing _)))) as [-> _].
    rewrite bind_Ret, wrap_id, <-Ez by (rewrite HL', zlen_app in Hlen; rewrite zlen_app in Hlen; pose proof (zlen_nonneg S1);
      pose proof (zlen_nonneg B); pose proof (zlen_nonneg (v :: S2)); unfold is_u; lia).
    destruct (IH sl' (P ++ u :: S1) v S2) as (sl2 & P' & u' & S' & E' & Hl' & Hlast & Hc' & Hb);
      [by eapply loaded_views|by rewrite HL', <-app_assoc|done|done|done|done|rewrite length_app in Hf; cbn in Hf; lia|].
    exists sl2, P', u', S'. split_and!; [done|by eapply loaded_trans|done|done|done].
Qed.

Lemma found_at_loaded sl sl' i pos traversed :
  loaded cfg tx sl sl' -> found_at L sl i pos traversed -> found_at L sl' i pos traversed.
Proof. intros Hl (P & u & S0 & ? & ? & ? & ?). exists P, u, S0. split_and!; [done..|by eapply loaded_in_cache]. Qed.

Lemma descend_ok stop n : forall sl P u S0 trace,
  views sl -> (forall i, 1 <= i <= Z.of_nat n -> level_ok N i (L ++ B)) -> Z.of_nat n <= MAX_LAYER ->
  L = P ++ u :: S0 -> Z.of_nat n <= an_height u -> in_cache sl (an_pos u) -> zlen L <= sl_count sl ->
  exists sl' s, descend cfg n sl tx test stop (an_pos u) (zlen P) trace = Ret (sl', s) /\
    loaded cfg tx sl sl' /\ search_post N L B stop sl' n trace s.
Proof.
  induction n as [|n IH]; intros sl P u S0 trace Hv Hok Hmax HL Hu Hc Hcnt.
  { exists sl. eexists. cbn [descend]. split_and!; [done|apply loaded_refl|]. split; [by exists []|lia]. }
  cbn [descend]. set (i := Z.of_nat (S n)) in *. assert (level_ok N i (L ++ B)) as Hoki by (apply Hok; lia).
  destruct Hc as [eu Hc]. rewrite Hc, bind_Ret.
  assert (N (an_pos u) = Some eu) as HNu by (rewrite <-Hv; by apply cached_nodes).
  assert (slot N (an_pos u) i = Some (link (S0 ++ B) i)) as Hs.
  { apply (level_ok_at N i P); [|done]. by rewrite HL, <-app_assoc in Hoki. }
  rewrite (surjective_pairing (link _ _)) in Hs. destruct (slot_get _ _ _ _ _ _ HNu Hs) as [-> _]. rewrite bind_Ret.
  destruct (walk_ok i (walk_fuel sl) sl P u S0) as (sl1 & P1 & u1 & S1 & -> & Hl1 & Hlast & [e1 Hc1] & Hb1);
    [done|done|lia|done|done|by eexists| |].
  { subst L. rewrite zlen_app, zlen_cons in Hcnt. pose proof (zlen_nonneg P). unfold walk_fuel, zlen in *. lia. }
  rewrite bind_Ret, Hc1, bind_Ret.
  assert (views sl1) as Hv1 by (by eapply loaded_views).
  assert (N (an_pos u1) = Some e1) as HN1 by (rewrite <-Hv1; by apply cached_nodes).
  assert (found_at L sl1 i (an_pos u1) (zlen P1)) as Hfound by (exists P1, u1, S1; split_and!; [done..|by eexists]).
  destruct (stop (zlen P1) e1) eqn:Estop.
  { eexists sl1, _. split_and!; [done|done|]. unfold search_post; cbn. exists i, e1. split_and!; try done; lia. }
  destruct Hlast as (HL1 & Hi1 & HS1).
  destruct (IH sl1 P1 u1 S1 ((an_pos u1, zlen P1) :: trace)) as (sl2 & s & E & Hl2 & Hpost);
    [done|intros j Hj; apply Hok; lia|lia|done|lia|by eexists| |].
  { by destruct Hl1 as (c & -> & _). }
  exists sl2, s. split_and!; [done|by eapply loaded_trans|]. unfold search_post in *. destruct (se_stopped s) eqn:Est.
  - destruct Hpost as (j & e & Hj & Hpost). exists j, e. split; [lia|done].
  - destruct Hpost as [(tr & Htr & Hlen' & Hfind) Hbot]. split.
    + exists (tr ++ [(an_pos u1, zlen P1)]). split_and!; [by rewrite <-app_assoc|rewrite length_app; cbn; lia|].
      intros j pt. rewrite lookup_app_Some. intros [Hj|[Hj Hpt]]; [by apply Hfind|].
      destruct (j - length tr)%nat as [|m] eqn:Em; [|by destruct m]. cbn in Hpt. injection Hpt as <-. cbn [fst snd].
      assert (j = n) as -> by lia. by eapply found_at_loaded.
    + intros _. destruct n as [|n]; [|apply Hbot; lia]. cbn in E. injection E as <- <-. cbn. split_and!; [done|by eexists|].
      intros v B' EB Hv'. by apply (Hb1 v B').
Qed.

End Search.

(** * The representation *)

(** The node at [an_pos a] carries the member of [a]. *)
Definition node_is (N : nodemap) (a : anode) : Prop :=
  exists e, N (an_pos a) = Some e /\ ZSlEleValue_wf e /\ ze_score e = an_score a /\ ze_subKey e = an_key a.

(** The members of a list of nodes. *)
Abbreviation member := (Z * bytes)%type.
Definition members (xs : list anode) : list member := map (fun a => (an_score a, an_key a)) xs.

(** The keys of the nodes are keys of data records. *)
Definition sl_ids (sl : SkipList) : Prop :=
  is_u32 (sl_chunkId sl) /\ sl_chunkId sl <> CHUNKID_FLUSH /\ is_u32 (sl_dbId sl) /\ zlen (sl_pk sl) < 2 ^ 61.

Section Rep.
Context {BM : BuildMode} {T : Type} `{RocksDB T}.
Variable cfg : StoreCfg.

(** The list [sl] keeps the nodes [xs] in this order. *)
Record sl_rep (tx : RocksTxn T) (sl : SkipList) (xs : list anode) : Prop := mkSlRep {
  sr_ids : sl_ids sl;
  sr_max : sl_maxLevel sl = MAX_LAYER;
  sr_level : 1 <= sl_level sl <= MAX_LAYER;
  sr_count : sl_count sl = 1 + zlen xs /\ sl_count sl <= INT32_MAX / 2;
  sr_alloc : HEAD_ID <= sl_posAlloc sl < SKIPLIST_INVALID_POS;
  sr_pos : Forall (fun a => HEAD_ID < an_pos a <= sl_posAlloc sl) xs;
  sr_nodup : NoDup (map an_pos xs);
  sr_height : Forall (fun a => 1 <= an_height a <= sl_level sl) xs;
  sr_head : exists e, nodes cfg sl tx HEAD_ID = Some e /\ ZSlEleValue_wf e /\
    forall i, sl_level sl < i <= MAX_LAYER -> znth (ze_forward e) i = Some 0;
  sr_nodes : Forall (node_is (nodes cfg sl tx)) xs;
  sr_levels : forall i, 1 <= i <= sl_level sl -> level_ok (nodes cfg sl tx) i (head_node :: xs);
  sr_back : backs (nodes cfg sl tx) 0 xs (sl_tail sl);
  sr_clean : forall p e, p ∈ map an_pos (head_node :: xs) -> sl_cache sl !! p = Some e -> ze_changed e = false ->
    load cfg sl tx p = Some e;
  sr_dirty : forall p e, sl_cache sl !! p = Some e -> ze_changed e = true -> ZSlEleValue_wf e /\ is_u64 p
}.

Lemma load_unchanged sl (tx : RocksTxn T) p e : load cfg sl tx p = Some e -> ze_changed e = false.
Proof.
  unfold load. destruct (RocksKVStore_getKV _ _ _) as [rv| |]; [|done..]. cbn.
  destruct (ZSlEleValue_decode _) as [e'| |] eqn:E; [|done..]. intros [= ->]. unfold ZSlEleValue_decode in E.
  repeat match type of E with
    | (_ ≫= _) = Ret _ => apply bind_Ret_inv in E as (? & _ & E)
    | (let '(_, _) := ?x in _) = _ => destruct x
    | (if ?b then _ else _) = _ => destruct b; [done|]
    | _ => progress cbv zeta in E
    end.
  by apply (inj Ret) in E as <-.
Qed.

(** Loading nodes changes nothing. *)
Lemma rep_loaded tx sl sl' xs : sl_rep tx sl xs -> loaded cfg tx sl sl' -> sl_rep tx sl' xs.
Proof.
  intros R Hl. assert (forall p, nodes cfg sl' tx p = nodes cfg sl tx p) as HN by (intros; by eapply loaded_nodes).
  assert (forall l i, level_ok (nodes cfg sl tx) i l -> level_ok (nodes cfg sl' tx) i l) as Hlev.
  { intros l i. apply level_ok_ext. intros a _ _. unfold slot. by rewrite HN. }
  destruct Hl as (c & -> & Hsub & Hc). destruct R. constructor; cbn [sl_maxLevel sl_level sl_count sl_tail sl_posAlloc
    sl_chunkId sl_dbId sl_pk sl_cache sl_with_cache]; try done.
  - by rewrite HN.
  - eapply Forall_impl; [done|]. intros a (e & He & Hw). exists e. by rewrite HN.
  - intros i Hi. apply Hlev. by apply sr_levels0.
  - eapply backs_ext; [|done]. intros a e _ He. exists e. by rewrite HN.
  - intros p e Hin Ep Hch. apply Hc in Ep. unfold nodes in Ep. destruct (sl_cache sl !! p) eqn:Ec; [|done]. simplify_eq. by apply sr_clean0.
  - intros p e Ep Hch. apply Hc in Ep. unfold nodes in Ep. destruct (sl_cache sl !! p) eqn:Ec; [simplify_eq; by apply sr_dirty0|].
    apply load_unchanged in Ep. congruence.
Qed.

Lemma rep_good tx sl xs : sl_rep tx sl xs -> Forall (good (nodes cfg sl tx)) (head_node :: xs).
Proof.
  intros R. destruct R. constructor.
  - split; [done|]. destruct sr_head0 as (e & ? & ? & _). by exists e.
  - apply Forall_forall. intros a Ha. split.
    + rewrite Forall_forall in sr_pos0. apply sr_pos0 in Ha. unfold HEAD_ID in Ha. lia.
    + rewrite Forall_forall in sr_nodes0. destruct (sr_nodes0 a Ha) as (e & ? & ? & _). by exists e.
Qed.

Lemma rep_len tx sl xs : sl_rep tx sl xs -> zlen (head_node :: xs) < 2 ^ 31.
Proof. intros R. destruct (sr_count _ _ _ R) as [E Hc]. rewrite zlen_cons, <-E. change (INT32_MAX / 2) with 1073741823 in Hc. lia. Qed.

(** A search of a list of nodes [A ++ B] for the end of [A]. *)
Lemma search_ok tx sl A B test stop :
  sl_rep tx sl (A ++ B) -> test_ok (nodes cfg sl tx) test (head_node :: A) B ->
  exists sl' s, search cfg sl tx test stop = Ret (sl', s) /\ loaded cfg tx sl sl' /\
    search_post (nodes cfg sl tx) (head_node :: A) B stop sl' (Z.to_nat (sl_level sl)) [] s /\ in_cache sl' HEAD_ID.
Proof.
  intros R Ht. pose proof (sr_level _ _ _ R) as Hlev. destruct (sr_count _ _ _ R) as [Hcnt _].
  destruct (sr_head _ _ _ R) as (eh & Hh & Hw & _). unfold search.
  destruct (getNode_ok cfg sl tx HEAD_ID eh Hh) as (sl1 & -> & Hl1 & Hc1). rewrite bind_Ret.
  pose proof (rep_loaded _ _ _ _ R Hl1) as R1.
  assert (sl_level sl1 = sl_level sl /\ sl_count sl1 = sl_count sl) as [Elev Ecnt] by (by destruct Hl1 as (c & -> & _)).
  destruct (descend_ok cfg tx (nodes cfg sl tx) test (head_node :: A) B) with (stop := stop) (n := Z.to_nat (sl_level sl1))
    (sl := sl1) (P := @nil anode) (u := head_node) (S0 := A) (trace := @nil (Z * Z)) as (sl2 & s & E & Hl2 & Hpost).
  - by apply (rep_good _ _ (A ++ B)).
  - done.
  - rewrite <-app_comm_cons. pose proof (rep_len _ _ _ R). lia.
  - intros p. by apply loaded_nodes.
  - intros i Hi. apply (sr_levels _ _ _ R). lia.
  - lia.
  - done.
  - cbn. lia.
  - by exists eh.
  - rewrite Ecnt, Hcnt, zlen_cons, zlen_app. pose proof (zlen_nonneg B). lia.
  - rewrite Elev in Hpost. exists sl2, s. split; [done|]. split; [by eapply loaded_trans|]. split; [done|].
    eapply loaded_in_cache; [exact Hl2|by exists eh].
Qed.

End Rep.
