(* ===== verification/SkipListRead.v ===== *)
(** Reading a skip list (storage/skiplist.cpp): the order of the members, ranks, and the scans by
    rank, by score and by member, as functions of the list of members it represents. *)

From Stdlib Require Import Strings.Byte ZArith Lia.
From stdpp Require Import base list numbers strings gmap sorting.
From S2P Require Import Prelude Status Varint Record RecordValue RecordMeta ReplLog BinlogSeq Txn Store SkipList SkipListRep.

Local Open Scope Z_scope.

(** * The order of members *)

Definition mlt (x y : member) : bool :=
  (dbl_key (fst x) <? dbl_key (fst y)) || ((dbl_key (fst x) =? dbl_key (fst y)) && bytes_lt (snd x) (snd y)).

(** A sorted set: no score is a NaN, the members are sorted and distinct. *)
Definition zset_ok (l : list member) : Prop :=
  Forall (fun x => dbl_nan (fst x) = false) l /\ StronglySorted (fun x y => mlt x y = true) l /\ NoDup (map snd l).

Lemma mlt_irrefl x : mlt x x = false.
Proof. unfold mlt. by rewrite Z.ltb_irrefl, Z.eqb_refl, bytes_lt_irrefl. Qed.

Lemma mlt_antisym x y : mlt x y = true -> mlt y x = false.
Proof.
  unfold mlt. rewrite (Z.eqb_sym (dbl_key (fst y))).
  destruct (Z.ltb_spec (dbl_key (fst x)) (dbl_key (fst y))), (Z.ltb_spec (dbl_key (fst y)) (dbl_key (fst x))),
    (Z.eqb_spec (dbl_key (fst x)) (dbl_key (fst y))); cbn; try lia; try done. apply bytes_lt_antisym.
Qed.

(** Members that [slCmp] does not tell apart. *)
Definition meq (x y : member) : Prop := dbl_key (fst x) = dbl_key (fst y) /\ snd x = snd y.

Lemma mlt_total x y : mlt x y = false -> mlt y x = false -> meq x y.
Proof.
  unfold mlt, meq. rewrite (Z.eqb_sym (dbl_key (fst y))).
  destruct (Z.ltb_spec (dbl_key (fst x)) (dbl_key (fst y))), (Z.ltb_spec (dbl_key (fst y)) (dbl_key (fst x))),
    (Z.eqb_spec (dbl_key (fst x)) (dbl_key (fst y))); cbn; try lia; try done. intros. split; [done|by apply bytes_lt_total].
Qed.

Lemma slCmp_spec s1 k1 s2 k2 :
  dbl_nan s1 = false -> dbl_nan s2 = false ->
  slCmp s1 k1 s2 k2 = Ret (if mlt (s1, k1) (s2, k2) then -1 else if mlt (s2, k2) (s1, k1) then 1 else 0).
Proof.
  intros N1 N2. unfold slCmp, dbl_eq, dbl_lt, mlt. rewrite N1, N2. cbn [negb andb fst snd]. rewrite (Z.eqb_sym (dbl_key s2)).
  destruct (Z.ltb_spec (dbl_key s1) (dbl_key s2)), (Z.ltb_spec (dbl_key s2) (dbl_key s1)),
    (Z.eqb_spec (dbl_key s1) (dbl_key s2)); cbn [andb orb]; try lia; try done.
  destruct (bool_decide_reflect (k1 = k2)) as [->|Hn]; [by rewrite bytes_lt_irrefl|].
  destruct (bytes_lt k1 k2) eqn:E1; [done|]. destruct (bytes_lt k2 k1) eqn:E2; [done|].
  by destruct Hn; apply bytes_lt_total.
Qed.

(** The member of a node. *)
Abbreviation mem := (fun a : anode => (an_score a, an_key a)).

(** ** Splitting a sorted set *)

Lemma sorted_app {A} (R : A -> A -> Prop) l k :
  StronglySorted R (l ++ k) <-> StronglySorted R l /\ StronglySorted R k /\ Forall (fun x => Forall (R x) k) l.
Proof.
  induction l as [|a l IH]; cbn [app].
  - split; [intros; split_and!; [constructor|done|done]|tauto].
  - split.
    + inversion 1 as [|? ? Hl Ha]; subst. apply IH in Hl as (H1 & H2 & H3). apply Forall_app in Ha as [Ha Hk].
      split_and!; [by constructor|done|by constructor].
    + intros (H1 & H2 & H3). inversion H1; inversion H3; subst. constructor; [by apply IH|]. by apply Forall_app.
Qed.

Lemma zset_ok_app l k : zset_ok (l ++ k) -> zset_ok l /\ zset_ok k /\ Forall (fun x => Forall (fun y => mlt x y = true) k) l.
Proof.
  intros (H1 & H2 & H3). apply Forall_app in H1 as [N1 N2]. apply sorted_app in H2 as (S1 & S2 & S3).
  rewrite map_app in H3. apply NoDup_app in H3 as (D1 & _ & D2). by split_and!.
Qed.

Lemma members_app xs ys : members (xs ++ ys) = members xs ++ members ys.
Proof. apply map_app. Qed.

Lemma zset_before xs ys a b :
  zset_ok (members (xs ++ ys)) -> a ∈ xs -> b ∈ ys -> mlt (an_score a, an_key a) (an_score b, an_key b) = true.
Proof.
  rewrite members_app. intros (_ & _ & H)%zset_ok_app Ha Hb. rewrite Forall_forall in H.
  assert ((an_score a, an_key a) ∈ members xs) as Ha' by (apply list_elem_of_fmap; by exists a).
  specialize (H _ Ha'). rewrite Forall_forall in H. apply H. apply list_elem_of_fmap. by exists b.
Qed.

Lemma zset_nan xs a : zset_ok (members xs) -> a ∈ xs -> dbl_nan (an_score a) = false.
Proof.
  intros (H & _) Ha. rewrite Forall_forall in H. apply (H (an_score a, an_key a)). apply list_elem_of_fmap. by exists a.
Qed.

(** * Tests of a search *)

Lemma head_split A P v S : head_node :: A = P ++ v :: S -> P <> [] -> v ∈ A /\ exists P', A = P' ++ v :: S /\ zlen P = 1 + zlen P'.
Proof.
  intros E HP. destruct P as [|h P]; [done|]. cbn in E. simplify_eq. split; [set_solver|]. exists P. by rewrite zlen_cons.
Qed.

(** A test of the member of the next node. *)
Lemma test_ok_member N (f : ZSlEleValue -> M bool) A B :
  Forall (node_is N) (A ++ B) ->
  (forall a e, a ∈ A -> ze_score e = an_score a -> ze_subKey e = an_key a -> f e = Ret true) ->
  (forall a e, a ∈ B -> ze_score e = an_score a -> ze_subKey e = an_key a -> f e = Ret false) ->
  test_ok N (fun _ _ e => f e) (head_node :: A) B.
Proof.
  intros HN HA HB. rewrite Forall_forall in HN. split.
  - intros P v S t s e E HP _ _ He. destruct (head_split _ _ _ _ E HP) as [Hv _].
    destruct (HN v) as (e' & He' & _ & ? & ?); [set_solver|]. rewrite He in He'. simplify_eq. by apply (HA v).
  - intros P v S t s e -> _ _ He. destruct (HN v) as (e' & He' & _ & ? & ?); [set_solver|].
    rewrite He in He'. simplify_eq. apply (HB v); [set_solver|done|done].
Qed.

(** A test of the index of the next node. *)
Lemma test_ok_index N (f : Z -> bool) A B :
  1 + zlen (A ++ B) < 2 ^ 32 ->
  (forall i, 1 <= i <= zlen A -> f i = true) -> (forall i, zlen A < i <= zlen (A ++ B) -> f i = false) ->
  test_ok N (fun t s _ => Ret (f (u32 (t + s)))) (head_node :: A) B.
Proof.
  intros Hlen HA HB. rewrite zlen_app in *. split.
  - intros P v S t s e E HP Hts Ht _. destruct (head_split _ _ _ _ E HP) as (_ & P' & -> & HP').
    rewrite zlen_app, zlen_cons in *. pose proof (zlen_nonneg P'). pose proof (zlen_nonneg S). pose proof (zlen_nonneg B).
    rewrite Hts, wrap_id by (unfold is_u; lia). f_equal. apply HA. lia.
  - intros P v S t s e -> Hts Ht _. rewrite zlen_app, !zlen_cons in *. pose proof (zlen_nonneg P). pose proof (zlen_nonneg S).
    pose proof (zlen_nonneg A). rewrite Hts, wrap_id by (unfold is_u; lia). f_equal. apply HB. lia.
Qed.

Section Read.
Context {BM : BuildMode} {T : Type} `{RocksDB T}.
Variable cfg : StoreCfg.
Variable tx : RocksTxn T.

(** The list [sl] represents the sorted set [l]. *)
Definition represents (sl : SkipList) (l : list member) : Prop :=
  zset_ok l /\ exists xs, sl_rep cfg tx sl xs /\ members xs = l.

Lemma represents_loaded sl sl' l : represents sl l -> loaded cfg tx sl sl' -> represents sl' l.
Proof. intros (Hz & xs & R & E) Hl. split; [done|]. exists xs. split; [by eapply rep_loaded|done]. Qed.

Lemma rep_heights sl xs : sl_rep cfg tx sl xs -> Forall (fun a => 1 <= an_height a) (head_node :: xs).
Proof.
  intros R. constructor; [done|]. eapply Forall_impl; [apply (sr_height _ _ _ _ R)|]. cbn. lia.
Qed.

(** The node a search stops at on a level; on the lowest it is the last one before [B]. *)
Lemma found_bottom sl sl' A B pos t :
  sl_rep cfg tx sl (A ++ B) -> found_at (head_node :: A) sl' 1 pos t ->
  t = zlen A /\ pos = an_pos (default head_node (last A)).
Proof.
  intros R (P & u & S & Hlast & -> & -> & _). pose proof (rep_heights _ _ R) as Hh.
  destruct (last_of_bottom (head_node :: A) P u S) as [-> E].
  { inversion Hh as [|? ? H1 Hh' ]; subst. apply Forall_app in Hh' as [Hh' _]. by constructor. }
  { done. }
  destruct A as [|a A] using rev_ind; [by destruct P as [|? [|]]; cbn in E; simplify_eq|].
  rewrite app_comm_cons in E. apply app_inj_tail in E as [<- <-]. rewrite last_snoc, zlen_app, zlen_cons. split; [|done].
  rewrite zlen_cons, zlen_nil. lia.
Qed.

(** The position of the first node. *)
Definition next_pos (l : list anode) : Z := match l with [] => 0 | b :: _ => an_pos b end.

Lemma link_1 l : Forall (fun a => 1 <= an_height a) l -> fst (link l 1) = next_pos l.
Proof. destruct 1; [done|]. cbn. by destruct (Z.leb_spec 1 (an_height x)); [|lia]. Qed.

(** A search that does not stop early: the trace, and the node after the one it ends at. *)
Definition trace_ok (L : list anode) (sl : SkipList) (n : nat) (tr : list (Z * Z)) : Prop :=
  length tr = n /\ forall j pt, tr !! j = Some pt -> found_at L sl (Z.of_nat (S j)) (fst pt) (snd pt).

Lemma search_next sl A X test :
  sl_rep cfg tx sl (A ++ X) -> test_ok (nodes cfg sl tx) test (head_node :: A) X ->
  exists sl' s eu, search cfg sl tx test never = Ret (sl', s) /\ loaded cfg tx sl sl' /\
    (trace_ok (head_node :: A) sl' (Z.to_nat (sl_level sl)) (se_trace s) /\ se_traversed s = zlen A /\
     se_pos s = an_pos (default head_node (last A))) /\
    cached sl' (se_pos s) = Ret eu /\ ZSlEleValue_getForward eu 1 = Ret (next_pos X) /\
    (forall y X', X = y :: X' -> exists e, cached sl' (an_pos y) = Ret e /\ ze_score e = an_score y /\ ze_subKey e = an_key y) /\
    in_cache sl' HEAD_ID.
Proof.
  intros R Ht. destruct (search_ok cfg tx sl A X test never R Ht) as (sl' & s & E & Hl & Hpost & Hhead).
  unfold search_post in Hpost. pose proof (sr_level _ _ _ _ R) as Hlev.
  destruct (se_stopped s); [by destruct Hpost as (? & ? & _ & _ & _ & ?)|].
  destruct Hpost as [(tr & Etr & Hlen & Htr) Hbot]. destruct Hbot as (Hfound & _ & Hnext); [lia|].
  pose proof (rep_loaded _ _ _ _ _ R Hl) as R2. pose proof (rep_heights _ _ R2) as Hh.
  destruct (found_bottom _ _ _ _ _ _ R Hfound) as [Et Epos].
  destruct Hfound as (P & u & S0 & Hlast & Ep & _ & [eu Hcu]). exists sl', s, eu.
  assert (Forall (fun a => 1 <= an_height a) (head_node :: A) /\ Forall (fun a => 1 <= an_height a) X) as [HhA HhX].
  { by rewrite app_comm_cons, Forall_app in Hh. }
  split; [done|]. split; [done|]. split; [rewrite Etr, app_nil_r; by repeat split|]. rewrite Ep. split; [done|]. split; [|split; [|done]].
  - destruct (last_of_bottom _ _ _ _ HhA Hlast) as [_ EA].
    pose proof (sr_levels _ _ _ _ R2 1) as Hok. rewrite app_comm_cons, EA, <-app_assoc in Hok.
    pose proof (level_ok_at _ _ P u X (Hok ltac:(pose proof (sr_level _ _ _ _ R2); lia)) ltac:(apply Hlast)) as Hs.
    rewrite (surjective_pairing (link X 1)), link_1 in Hs by done.
    by destruct (slot_get _ _ _ _ _ _ (cached_nodes _ _ tx _ _ Hcu) Hs).
  - intros y X' ->. inversion HhX as [|? ? Hy1]; subst. destruct (Hnext y X' eq_refl Hy1) as [ey Hcy]. exists ey.
    pose proof (sr_nodes _ _ _ _ R2) as Hns. destruct (Forall_mid _ _ _ _ Hns) as (e' & He' & _ & Hse & Hke).
    rewrite (cached_nodes _ _ tx _ _ Hcy) in He'. by simplify_eq.
Qed.

(** ** Ranks *)

(** The node of rank [r], the head for 0, nothing beyond the last. *)
Lemma getEleByRank_ok sl xs r :
  sl_rep cfg tx sl xs -> 0 <= r ->
  exists sl' o, SkipList_getEleByRank cfg sl tx r = Ret (sl', o) /\ loaded cfg tx sl sl' /\
    match znth (head_node :: xs) r with
    | Some a => exists e, o = Some e /\ nodes cfg sl tx (an_pos a) = Some e /\ cached sl' (an_pos a) = Ret e
    | None => o = None
    end.
Proof.
  intros R Hr. set (A := ztake r xs). set (B := zdrop r xs).
  assert (A ++ B = xs) as EAB by apply ztake_zdrop. pose proof (rep_len _ _ _ _ R) as Hlen. rewrite zlen_cons in Hlen.
  assert (sl_rep cfg tx sl (A ++ B)) as R' by (by rewrite EAB).
  assert (zlen A = Z.min r (zlen xs)) as HA.
  { unfold A. destruct (Z.le_gt_cases r (zlen xs)); [rewrite zlen_take; lia|rewrite ztake_all; lia]. }
  unfold SkipList_getEleByRank.
  destruct (search_ok cfg tx sl A B (fun t s _ => Ret (u32 (t + s) <=? r)) (fun t _ => t =? r) R') as (sl' & s & -> & Hl & Hpost & Hhead).
  { apply (test_ok_index _ (fun i => i <=? r)); [rewrite EAB; lia| |]; intros i Hi; rewrite ?EAB in Hi; lia. }
  rewrite bind_Ret. unfold search_post in Hpost. pose proof (sr_level _ _ _ _ R) as Hlev.
  destruct (se_stopped s).
  - destruct Hpost as (i & e & Hi & (P & u & S & (HL & Hu & HS) & Ep & Et & [e' Hc]) & He & Est). rewrite Ep in *.
    rewrite Hc, bind_Ret. exists sl', (Some e'). split_and!; [done|done|]. apply Z.eqb_eq in Est. rewrite Et in Est.
    replace (head_node :: xs) with (P ++ u :: S ++ B) by (by rewrite <-EAB, (app_comm_cons A B), HL, <-app_assoc).
    rewrite znth_app_r by lia. rewrite Est, Z.sub_diag. cbn. exists e'. split_and!; [done| |done].
    rewrite <-(loaded_nodes _ _ _ _ _ Hl). by apply cached_nodes.
  - destruct Hpost as [_ Hbot]. destruct Hbot as (Hf & (e & He & Est) & _); [lia|].
    destruct (found_bottom _ _ _ _ _ _ R' Hf) as [Et _]. rewrite Et in Est. apply Z.eqb_neq in Est.
    exists sl', None. split_and!; [done|done|].
    destruct (znth (head_node :: xs) r) as [a|] eqn:E; [|done]. exfalso. rewrite znth_lookup in E by lia.
    apply lookup_lt_Some in E. cbn in E. unfold zlen in *. lia.
Qed.

(** Two nodes of a sorted set with the same member name are the same. *)
Lemma zset_key_split A x B P u S :
  zset_ok (members (A ++ x :: B)) -> A ++ x :: B = P ++ u :: S -> an_key u = an_key x -> A = P /\ x = u /\ B = S.
Proof.
  intros (_ & _ & Hd) E Ek. unfold members in Hd. rewrite map_map in Hd. cbn [snd] in Hd.
  assert (NoDup (map an_key (A ++ x :: B))) as Hk by done. clear Hd.
  assert ((A ++ x :: B) !! length A = Some x) as E1 by by apply list_lookup_middle.
  assert ((A ++ x :: B) !! length P = Some u) as E2 by (rewrite E; by apply list_lookup_middle).
  assert (length A = length P) as El.
  { apply (NoDup_lookup _ _ _ (an_key x) Hk).
    - rewrite list_lookup_fmap, E1. done.
    - rewrite list_lookup_fmap, E2. cbn. by rewrite Ek. }
  apply app_inj_1 in E as [-> [= -> ->]]; done.
Qed.

Lemma rank_ok sl xs A x B score key :
  sl_rep cfg tx sl xs -> zset_ok (members xs) -> xs = A ++ x :: B -> dbl_nan score = false ->
  dbl_key score = dbl_key (an_score x) -> key = an_key x ->
  exists sl', SkipList_rank cfg sl tx score key = Ret (sl', zlen A + 1) /\ loaded cfg tx sl sl'.
Proof.
  intros R Hz Exs Hn Hs Hk. assert (xs = (A ++ [x]) ++ B) as Exs' by (by rewrite <-app_assoc).
  assert (forall y, mlt y (score, key) = mlt y (an_score x, an_key x)) as M1 by (intros [? ?]; unfold mlt; cbn; by rewrite Hs, Hk).
  assert (forall y, mlt (score, key) y = mlt (an_score x, an_key x) y) as M2 by (intros [? ?]; unfold mlt; cbn; by rewrite Hs, Hk).
  assert (sl_rep cfg tx sl ((A ++ [x]) ++ B)) as R' by (by rewrite <-Exs').
  unfold SkipList_rank.
  destruct (search_ok cfg tx sl (A ++ [x]) B (fun _ _ e => cmp ← slCmp (ze_score e) (ze_subKey e) score key; Ret (cmp <=? 0))
    (fun rank x => negb (rank =? 0) && bool_decide (ze_subKey x = key)) R') as (sl' & s & -> & Hl & Hpost & Hhead).
  { apply (test_ok_member _ (fun e => cmp ← slCmp (ze_score e) (ze_subKey e) score key; Ret (cmp <=? 0))).
    - rewrite <-Exs'. apply (sr_nodes _ _ _ _ R).
    - intros a e Ha -> ->. rewrite slCmp_spec; [|apply (zset_nan xs); [done|]; rewrite Exs'; apply elem_of_app; by left|done]. rewrite bind_Ret, M1, M2.
      apply elem_of_app in Ha as [Ha|Ha]; [|apply list_elem_of_singleton in Ha as ->; by rewrite !mlt_irrefl].
      rewrite Exs in Hz. by rewrite (zset_before A (x :: B) a x Hz Ha) by left.
    - intros a e Ha -> ->. rewrite slCmp_spec; [|apply (zset_nan xs); [done|]; rewrite Exs'; apply elem_of_app; by right|done]. rewrite bind_Ret, M1, M2.
      rewrite Exs' in Hz. pose proof (zset_before (A ++ [x]) B x a Hz ltac:(set_solver) Ha) as Hlt.
      by rewrite (mlt_antisym _ _ Hlt), Hlt. }
  rewrite bind_Ret. exists sl'. unfold search_post in Hpost. pose proof (sr_level _ _ _ _ R) as Hlev.
  pose proof (sr_nodes _ _ _ _ R) as HN. rewrite Forall_forall in HN.
  destruct (se_stopped s).
  - destruct Hpost as (i & e & Hi & (P & u & S & (HL & Hu & HS) & Ep & Et & _) & He & Est).
    apply andb_true_iff in Est as [Ht Hsub%bool_decide_eq_true]. rewrite negb_true_iff, Z.eqb_neq in Ht. rewrite Et in *.
    destruct (head_split _ _ _ _ HL) as (Hin & P' & E' & HP'); [by intros ->|].
    destruct (HN u) as (e' & He' & _ & _ & Hku); [rewrite Exs'; apply elem_of_app; by left|].
    rewrite Ep, He' in He. simplify_eq.
    assert (A ++ x :: B = P' ++ u :: (S ++ B)) as Esplit.
    { change (A ++ x :: B) with (A ++ [x] ++ B). by rewrite app_assoc, E', <-app_assoc. }
    destruct (zset_key_split A x B P' u (S ++ B)) as (-> & _ & _); [done|done|congruence|].
    split; [|done]. f_equal. f_equal. lia.
  - exfalso. destruct Hpost as [_ Hbot]. destruct Hbot as (Hf & (e & He & Est) & _); [lia|].
    destruct (found_bottom _ _ _ _ _ _ R' Hf) as [Et Ep]. rewrite last_snoc in Ep. cbn in Ep.
    destruct (HN x) as (e' & He' & _ & _ & Hku); [rewrite Exs; apply elem_of_app; right; left|]. rewrite Ep, He' in He. simplify_eq.
    rewrite Et, zlen_app, zlen_cons, zlen_nil, bool_decide_eq_true_2 in Est by done. pose proof (zlen_nonneg A).
    destruct (Z.eqb_spec (zlen A + (1 + 0)) 0); [lia|done].
Qed.

(** ** Walking along the lowest level *)

(** The nodes of [l] follow each other in the direction of [rev]. *)
Fixpoint path (N : nodemap) (rev : bool) (l : list anode) : Prop :=
  match l with
  | [] => True
  | a :: l' =>
      (exists e, N (an_pos a) = Some e /\ ze_score e = an_score a /\ ze_subKey e = an_key a /\
         next_of rev e = Ret (next_pos l')) /\ path N rev l'
  end.

Lemma path_suffix N rev l k : path N rev (l ++ k) -> path N rev k.
Proof. induction l as [|a l IH]; [done|]. intros [_ Hp]. by apply IH. Qed.

Lemma path_forward_gen N l :
  Forall (node_is N) l -> Forall (fun a => 1 <= an_height a) l -> level_ok N 1 l -> path N false l.
Proof.
  induction 1 as [|a l (e & He & Hw & Hs & Hk) _ IH]; [done|]. inversion 1 as [|? ? Ha Hl]; subst. intros [Hslot Hok]. split; [|by apply IH].
  exists e. split_and!; try done. specialize (Hslot Ha). rewrite (surjective_pairing (link l 1)), link_1 in Hslot by done.
  cbn [next_of]. by destruct (slot_get _ _ _ _ _ _ He Hslot).
Qed.

Lemma path_forward sl xs : sl_rep cfg tx sl xs -> path (nodes cfg sl tx) false xs.
Proof.
  intros R. pose proof (rep_heights _ _ R) as Hh. inversion Hh; subst. apply path_forward_gen; [apply (sr_nodes _ _ _ _ R)|done|].
  apply (sr_levels _ _ _ _ R 1). pose proof (sr_level _ _ _ _ R). lia.
Qed.

Lemma path_backward_gen N l : forall k,
  Forall (node_is N) l -> backs N (next_pos k) l (last_pos l (next_pos k)) -> path N true k -> path N true (rev l ++ k).
Proof.
  induction l as [|a l IH]; intros k Hn Hb Hk; [done|]. inversion Hn as [|? ? (e & He & Hw & Hs & Hke) Hl]; subst.
  destruct Hb as [(e' & He' & Hbe) Hb]. rewrite He' in He. simplify_eq. cbn [rev]. rewrite <-app_assoc. cbn [app].
  rewrite last_pos_cons in Hb. apply (IH (a :: k)); [done|done|]. split; [|done]. exists e. split_and!; try done. cbn [next_of]. by rewrite Hbe.
Qed.

Lemma path_backward sl xs : sl_rep cfg tx sl xs -> path (nodes cfg sl tx) true (rev xs).
Proof.
  intros R. rewrite <-(app_nil_r (rev xs)). apply path_backward_gen; [apply (sr_nodes _ _ _ _ R)| |done].
  pose proof (sr_back _ _ _ _ R) as Hb. cbn [next_pos]. by rewrite <-(backs_tail _ _ _ _ Hb).
Qed.

Section Scan.
Variable N : nodemap.
Variable rev : bool.

Definition nonzero (l : list anode) : Prop := Forall (fun a => an_pos a <> 0) l.

Lemma scan_skip_ok fuel : forall sl a l offset e,
  (forall p, nodes cfg sl tx p = N p) -> path N rev (a :: l) -> nonzero (a :: l) -> N (an_pos a) = Some e ->
  0 <= offset -> (length (a :: l) <= fuel)%nat ->
  exists sl' o, scan_skip cfg fuel sl tx rev e offset = Ret (sl', o) /\ loaded cfg tx sl sl' /\
    match zdrop offset (a :: l) with
    | [] => o = None
    | b :: _ => exists e', o = Some e' /\ N (an_pos b) = Some e'
    end.
Proof.
  induction fuel as [|fuel IH]; intros sl a l offset e HN Hp Hz He Ho Hf; cbn [length] in Hf; [lia|]. cbn [scan_skip zdrop].
  destruct (Z.eqb_spec offset 0) as [->|Hn].
  { exists sl, (Some e). split_and!; [done|apply loaded_refl|]. by exists e. }
  destruct Hp as [(e' & He' & _ & _ & Hnext) Hp]. rewrite He in He'. simplify_eq. rewrite Hnext, bind_Ret.
  destruct (Z.leb_spec offset 0); [lia|]. inversion Hz as [|? ? Ha Hl]; subst. destruct l as [|b l]; cbn [next_pos].
  { exists sl, None. split_and!; [done|apply loaded_refl|done]. }
  inversion Hl as [|? ? Hb Hl']; subst. destruct (Z.eqb_spec (an_pos b) 0); [done|].
  pose proof Hp as [(eb & Hb' & _) _].
  destruct (getNode_ok cfg sl tx (an_pos b) eb) as (sl1 & -> & Hl1 & _); [by rewrite HN|]. rewrite bind_Ret.
  destruct (IH sl1 b l (offset - 1) eb) as (sl2 & o & E & Hl2 & Hm); [|done|done|done|lia|cbn [length] in *; lia|].
  { intros p. by rewrite (loaded_nodes _ _ _ _ _ Hl1). }
  exists sl2, o. split_and!; [done|by eapply loaded_trans|done].
Qed.

Fixpoint take_while (h : member -> bool) (l : list member) : list member :=
  match l with [] => [] | x :: l' => if h x then x :: take_while h l' else [] end.

Lemma scan_take_ok (inside : ZSlEleValue -> bool) h fuel : forall sl a l limit e res,
  (forall p, nodes cfg sl tx p = N p) -> path N rev (a :: l) -> nonzero (a :: l) -> N (an_pos a) = Some e ->
  (forall e, inside e = h (ze_score e, ze_subKey e)) -> 0 <= limit -> (length (a :: l) <= fuel)%nat ->
  exists sl', scan_take cfg fuel sl tx rev inside e limit res =
      Ret (sl', res ++ ztake limit (take_while h (members (a :: l)))) /\ loaded cfg tx sl sl'.
Proof.
  induction fuel as [|fuel IH]; intros sl a l limit e res HN Hp Hz He Hin Ho Hf; cbn [length] in Hf; [lia|]. cbn [scan_take members map].
  pose proof Hp as [(e' & He' & Hs & Hk & Hnext) Hp']. rewrite He in He'. simplify_eq. rewrite Hin, Hs, Hk. cbn [take_while].
  destruct (Z.eqb_spec limit 0) as [->|Hn].
  { exists sl. split; [|apply loaded_refl]. f_equal. f_equal. by destruct (h _); rewrite ?app_nil_r. }
  destruct (h (an_score a, an_key a)); cbn [negb ztake]; [|exists sl; by rewrite app_nil_r; split; [|apply loaded_refl]].
  rewrite Hnext, bind_Ret. destruct (Z.leb_spec limit 0); [lia|].
  inversion Hz as [|? ? Ha Hl]; subst. destruct l as [|b l]; cbn [next_pos].
  { exists sl. split; [done|apply loaded_refl]. }
  inversion Hl as [|? ? Hb Hl']; subst. destruct (Z.eqb_spec (an_pos b) 0); [done|].
  pose proof Hp' as [(eb & Hb' & _) _].
  destruct (getNode_ok cfg sl tx (an_pos b) eb) as (sl1 & -> & Hl1 & _); [by rewrite HN|]. rewrite bind_Ret.
  destruct (IH sl1 b l (limit - 1) eb (res ++ [(an_score a, an_key a)])) as (sl2 & -> & Hl2); [|done|done|done|done|lia|cbn [length] in *; lia|].
  { intros p. by rewrite (loaded_nodes _ _ _ _ _ Hl1). }
  exists sl2. split; [by rewrite <-app_assoc|by eapply loaded_trans].
Qed.

Lemma scan_rank_ok fuel : forall sl a l len e res,
  (forall p, nodes cfg sl tx p = N p) -> path N rev (a :: l) -> N (an_pos a) = Some e ->
  0 < len <= zlen (a :: l) -> (length (a :: l) <= fuel)%nat ->
  exists sl', scan_rank cfg fuel sl tx rev (Some e) len res =
      Ret (sl', res ++ ztake len (members (a :: l))) /\ loaded cfg tx sl sl'.
Proof.
  induction fuel as [|fuel IH]; intros sl a l len e res HN Hp He Hlen Hf; cbn [length] in Hf; [lia|]. cbn [scan_rank members map].
  destruct (Z.eqb_spec len 0); [lia|]. pose proof Hp as [(e' & He' & Hs & Hk & Hnext) Hp']. rewrite He in He'. simplify_eq.
  rewrite Hs, Hk. cbn [ztake]. destruct (Z.leb_spec len 0); [lia|]. rewrite zlen_cons in Hlen.
  destruct (Z.eqb_spec (len - 1) 0) as [->|Hn].
  { exists sl. split; [|apply loaded_refl]. f_equal. f_equal. by destruct l. }
  destruct l as [|b l]; [unfold zlen in Hlen; cbn in Hlen; lia|]. rewrite Hnext, bind_Ret. cbn [next_pos]. pose proof Hp' as [(eb & Hb' & _) _].
  destruct (getNode_ok cfg sl tx (an_pos b) eb) as (sl1 & -> & Hl1 & _); [by rewrite HN|]. rewrite bind_Ret.
  destruct (IH sl1 b l (len - 1) eb (res ++ [(an_score a, an_key a)])) as (sl2 & -> & Hl2); [|done|done|lia|cbn [length] in *; lia|].
  { intros p. by rewrite (loaded_nodes _ _ _ _ _ Hl1). }
  exists sl2. split; [by rewrite <-app_assoc|by eapply loaded_trans].
Qed.

End Scan.

Lemma rep_nonzero sl xs : sl_rep cfg tx sl xs -> nonzero xs.
Proof. intros R. eapply Forall_impl; [apply (sr_pos _ _ _ _ R)|]. unfold HEAD_ID. cbn. lia. Qed.

Lemma rep_first sl xs :
  sl_rep cfg tx sl xs ->
  exists sl' e, SkipList_getNode cfg sl tx HEAD_ID = Ret (sl', e) /\ loaded cfg tx sl sl' /\
    ZSlEleValue_getForward e 1 = Ret (next_pos xs).
Proof.
  intros R. destruct (sr_head _ _ _ _ R) as (e & He & _ & _). destruct (getNode_ok cfg sl tx HEAD_ID e He) as (sl' & E & Hl & _).
  exists sl', e. split_and!; [done|done|]. pose proof (sr_level _ _ _ _ R). pose proof (rep_heights _ _ R) as Hh. inversion Hh; subst.
  destruct (sr_levels _ _ _ _ R 1) as [Hs _]; [lia|]. specialize (Hs ltac:(done)).
  rewrite (surjective_pairing (link xs 1)), link_1 in Hs by done. by destruct (slot_get _ _ _ _ _ _ He Hs).
Qed.

Lemma rep_fuel sl xs : sl_rep cfg tx sl xs -> (length xs < walk_fuel sl)%nat.
Proof. intros R. destruct (sr_count _ _ _ _ R) as [E _]. unfold walk_fuel. rewrite E. unfold zlen. lia. Qed.

(** ** Scanning by rank *)

Lemma zdrop_znth {A} (l : list A) i : 0 <= i < zlen l -> exists a, zdrop i l = a :: zdrop (i + 1) l /\ znth l i = Some a.
Proof.
  intros Hi. destruct (znth_some l i Hi) as [a E]. exists a. split; [|done]. rewrite znth_lookup in E by lia.
  rewrite !zdrop_drop. rewrite (drop_S _ _ _ E). f_equal. f_equal. lia.
Qed.

Lemma znth_rev {A} (l : list A) i : 0 <= i < zlen l -> znth (rev l) i = znth l (zlen l - 1 - i).
Proof.
  intros Hi. rewrite !znth_lookup by lia. unfold zlen in *. rewrite rev_alt. change (rev_append l []) with (reverse l).
  rewrite reverse_lookup by lia. f_equal. lia.
Qed.

Lemma zlen_members xs : zlen (members xs) = zlen xs.
Proof. unfold zlen, members. by rewrite length_map. Qed.

Lemma zdrop_members n xs : zdrop n (members xs) = members (zdrop n xs).
Proof. rewrite !zdrop_drop. symmetry. apply fmap_drop. Qed.

Lemma ztake_members n xs : ztake n (members xs) = members (ztake n xs).
Proof. rewrite !ztake_take. symmetry. apply fmap_take. Qed.

Lemma rev_members xs : rev (members xs) = members (rev xs).
Proof. symmetry. apply map_rev. Qed.

(** The rest of a scan by rank, from the node at [start] in the direction of the scan. *)
Lemma scan_rank_from sl ys rv start len a e :
  path (nodes cfg sl tx) rv ys -> (length ys < walk_fuel sl)%nat -> 0 <= start -> 0 < len -> start + len <= zlen ys ->
  znth ys start = Some a -> nodes cfg sl tx (an_pos a) = Some e ->
  exists sl', scan_rank cfg (walk_fuel sl) sl tx rv (Some e) len [] =
      Ret (sl', ztake len (zdrop start (members ys))) /\ loaded cfg tx sl sl'.
Proof.
  intros Hp Hf Hs Hl Hle Ha He. destruct (zdrop_znth ys start) as (a' & Ed & Ea); [lia|]. rewrite Ha in Ea. simplify_eq.
  rewrite zdrop_members, Ed.
  apply (scan_rank_ok (nodes cfg sl tx) rv (walk_fuel sl) sl a' (zdrop (start + 1) ys) len e []); [done| |done| |].
  - rewrite <-Ed. rewrite <-(ztake_zdrop start ys) in Hp. by apply path_suffix in Hp.
  - rewrite <-Ed, zlen_drop by lia. lia.
  - rewrite <-Ed, zdrop_drop, length_drop. lia.
Qed.

Lemma rank_node sl xs rv start a :
  sl_rep cfg tx sl xs -> 0 <= start < zlen xs -> znth (if rv : bool then rev xs else xs) start = Some a ->
  znth (head_node :: xs) (if rv then zlen xs - start else start + 1) = Some a.
Proof.
  intros R Hs Ha. cbn [znth]. destruct rv.
  - rewrite znth_rev in Ha by lia. destruct (Z.eqb_spec (zlen xs - start) 0); [lia|]. rewrite <-Ha. f_equal. lia.
  - destruct (Z.eqb_spec (start + 1) 0); [lia|]. rewrite <-Ha. f_equal. lia.
Qed.

(** The element of that node. *)
Lemma rank_element sl sl1 xs rv start a r :
  sl_rep cfg tx sl xs -> 0 <= start < zlen xs -> znth (if rv : bool then rev xs else xs) start = Some a ->
  loaded cfg tx sl sl1 -> r = (if rv then zlen xs - start else start + 1) ->
  exists sl2 e, SkipList_getEleByRank cfg sl1 tx r = Ret (sl2, Some e) /\ loaded cfg tx sl sl2 /\
    nodes cfg sl tx (an_pos a) = Some e.
Proof.
  intros R Hs Ha Hl1 Er. pose proof (rep_loaded _ _ _ _ _ R Hl1) as R1.
  destruct (getEleByRank_ok sl1 xs r R1) as (sl2 & o & E & Hl2 & Ho); [destruct rv; lia|].
  rewrite Er in Ho. rewrite (rank_node sl xs rv start a R) in Ho by done. destruct Ho as (e & -> & He & _).
  exists sl2, e. split_and!; [done|by eapply loaded_trans|]. by rewrite <-(loaded_nodes _ _ _ _ _ Hl1).
Qed.

(** The last node of the list. *)
Lemma rep_last sl xs z :
  sl_rep cfg tx sl xs -> last xs = Some z ->
  sl_tail sl = an_pos z /\ exists e, nodes cfg sl tx (an_pos z) = Some e /\ ze_score e = an_score z /\ ze_subKey e = an_key z.
Proof.
  intros R Ez. pose proof (backs_tail _ _ _ _ (sr_back _ _ _ _ R)) as Et. unfold last_pos in Et. rewrite Ez in Et.
  split; [done|]. pose proof (sr_nodes _ _ _ _ R) as Hn. apply last_Some in Ez as [xs' ->].
  destruct (Forall_mid _ _ _ _ Hn) as (e & He & _ & Hs & Hk). by exists e.
Qed.

(** The node a scan by rank starts at. *)
Lemma scan_rank_start sl xs rv start a :
  sl_rep cfg tx sl xs -> 0 <= start < zlen xs -> znth (if rv : bool then rev xs else xs) start = Some a ->
  exists sl' e,
    (if rv then
       '(sl, tail) ← SkipList_getNode cfg sl tx (sl_tail sl);
       if 0 <? start then SkipList_getEleByRank cfg sl tx (u32 (sl_count sl - 1 - start)) else Ret (sl, Some tail)
     else
       '(sl, head) ← SkipList_getNode cfg sl tx HEAD_ID;
       first ← ZSlEleValue_getForward head 1;
       '(sl, node) ← SkipList_getNode cfg sl tx first;
       if 0 <? start then SkipList_getEleByRank cfg sl tx (u32 (start + 1)) else Ret (sl, Some node)) =
    Ret (sl', Some e) /\ loaded cfg tx sl sl' /\ nodes cfg sl tx (an_pos a) = Some e.
Proof.
  intros R Hs Ha. pose proof (rep_len _ _ _ _ R) as Hlen. rewrite zlen_cons in Hlen. destruct (sr_count _ _ _ _ R) as [Ecnt _]. destruct rv.
  - destruct (last xs) as [z|] eqn:Ez; [|apply last_None in Ez; subst; unfold zlen in Hs; cbn in Hs; lia].
    destruct (rep_last sl xs z R Ez) as (Et & et & Het & _ & _). rewrite Et.
    destruct (getNode_ok cfg sl tx _ et Het) as (sl1 & -> & Hl1 & _). rewrite bind_Ret. destruct (Z.ltb_spec 0 start).
    + apply (rank_element _ _ xs true start); [done..|].
      replace (sl_count sl1) with (sl_count sl) by (by destruct Hl1 as (c & -> & _)). rewrite Ecnt, wrap_id by (unfold is_u; lia). lia.
    + exists sl1, et. split_and!; [done|done|]. assert (start = 0) as -> by lia. apply last_Some in Ez as [xs' ->].
      rewrite rev_app_distr in Ha. cbn in Ha. by simplify_eq.
  - destruct (rep_first sl xs R) as (sl1 & eh & -> & Hl1 & Hfw). rewrite bind_Ret, Hfw, bind_Ret.
    pose proof (rep_loaded _ _ _ _ _ R Hl1) as R1. destruct xs as [|x xs]; [unfold zlen in Hs; cbn in Hs; lia|]. cbn [next_pos].
    pose proof (sr_nodes _ _ _ _ R1) as Hn. inversion Hn as [|? ? (ex & Hex & _) _]; subst.
    destruct (getNode_ok cfg sl1 tx (an_pos x) ex Hex) as (sl2 & -> & Hl2 & _). rewrite bind_Ret.
    pose proof (loaded_trans _ _ _ _ _ Hl1 Hl2) as Hl12. destruct (Z.ltb_spec 0 start).
    + apply (rank_element _ _ (x :: xs) false start); [done..|]. by rewrite wrap_id by (unfold is_u; lia).
    + exists sl2, ex. split_and!; [done|done|]. assert (start = 0) as -> by lia. cbn in Ha. simplify_eq.
      by rewrite <-(loaded_nodes _ _ _ _ _ Hl1).
Qed.

Lemma scanByRank_ok sl xs start len rv :
  sl_rep cfg tx sl xs -> 0 <= start -> 0 < len -> start + len <= zlen xs ->
  exists sl', SkipList_scanByRank cfg sl tx start len rv =
      Ret (sl', ztake len (zdrop start (if rv : bool then rev (members xs) else members xs))) /\ loaded cfg tx sl sl'.
Proof.
  intros R Hs Hl Hle. set (ys := if rv then rev xs else xs).
  assert (zlen ys = zlen xs) as Eys by (unfold ys; destruct rv; by rewrite ?zlen_rev).
  destruct (zdrop_znth ys start) as (a & _ & Ha); [lia|].
  destruct (scan_rank_start sl xs rv start a R) as (sl1 & e & E & Hl1 & He); [lia|done|].
  unfold SkipList_scanByRank. rewrite E, bind_Ret. pose proof (rep_loaded _ _ _ _ _ R Hl1) as R1.
  destruct (scan_rank_from sl1 ys rv start len a e) as (sl' & E' & Hl'); [| |done|done|lia|done| |].
  - unfold ys. destruct rv; [by apply path_backward|by apply path_forward].
  - pose proof (rep_fuel _ _ R1). unfold zlen in Eys. lia.
  - by rewrite (loaded_nodes _ _ _ _ _ Hl1).
  - exists sl'. split; [|by eapply loaded_trans]. rewrite E'. unfold ys. by destruct rv; rewrite ?rev_members.
Qed.

(** ** Ranges *)

(** A test that, along the list, once it holds holds on; and one that once it fails fails on. *)
Definition rising (g : member -> bool) (l : list member) : Prop :=
  StronglySorted (fun x y => g x = true -> g y = true) l.
Definition falling (h : member -> bool) (l : list member) : Prop :=
  StronglySorted (fun x y => h y = true -> h x = true) l.

Lemma falling_rising h l : falling h l <-> rising (fun x => negb (h x)) l.
Proof.
  unfold falling, rising. split; induction 1 as [|x l _ IH HF]; constructor; try done;
    (eapply Forall_impl; [exact HF|]); intros y; cbn; destruct (h x), (h y); cbn; auto.
Qed.

Lemma rising_split g xs : rising g (members xs) ->
  exists A X, xs = A ++ X /\ Forall (fun a => g (mem a) = false) A /\ Forall (fun a => g (mem a) = true) X.
Proof.
  induction xs as [|a xs IH]; [by exists [], []|]. cbn [members map]. inversion 1 as [|? ? Hr HF]; subst.
  destruct (g (an_score a, an_key a)) eqn:E.
  - exists [], (a :: xs). split_and!; [done|done|]. constructor; [done|]. apply Forall_map in HF.
    eapply Forall_impl; [exact HF|]. intros b Hb. by apply Hb.
  - destruct (IH Hr) as (A & X & -> & HA & HX). exists (a :: A), X. split_and!; [done|by constructor|done].
Qed.

Lemma falling_split h xs : falling h (members xs) ->
  exists Y C, xs = Y ++ C /\ Forall (fun a => h (mem a) = true) Y /\ Forall (fun a => h (mem a) = false) C.
Proof.
  intros (Y & C & -> & HY & HC)%falling_rising%rising_split. exists Y, C.
  split_and!; [done|..]; (eapply Forall_impl; [done|]); intros a; cbn; by destruct (h _).
Qed.

(** Going backwards. *)
Lemma falling_rev g xs : rising g (members xs) -> falling g (members (rev xs)).
Proof.
  rewrite <-rev_members. induction (members xs) as [|x l IH]; [constructor|]. inversion 1 as [|? ? Hr HF]; subst. cbn [rev].
  apply sorted_app. split_and!; [by apply IH|by repeat constructor|]. apply Forall_rev. eapply Forall_impl; [exact HF|].
  intros y Hy. by constructor.
Qed.

Lemma falling_app h l k : falling h (l ++ k) -> falling h k.
Proof. by intros (_ & ? & _)%sorted_app. Qed.

(** What a scan collects from the first node that passes [g] on. *)
Lemma scan_window g h A X offset limit :
  0 <= offset -> falling h (members X) ->
  Forall (fun a => g (mem a) = false) A -> Forall (fun a => g (mem a) = true) X ->
  ztake limit (take_while h (zdrop offset (members X))) =
  ztake limit (zdrop offset (List.filter (fun x => g x && h x) (members (A ++ X)))).
Proof.
  intros Ho Hf HA HX. f_equal. rewrite members_app, List.filter_app.
  assert (List.filter (fun x => g x && h x) (members A) = []) as ->.
  { clear -HA. induction HA as [|a A E _ IH]; [done|]. cbn [members map List.filter]. by rewrite E. }
  assert (List.filter (fun x => g x && h x) (members X) = take_while h (members X)) as ->.
  { clear -HX Hf. induction HX as [|a X E _ IH]; [done|]. cbn [members map List.filter take_while]. rewrite E. cbn [andb].
    inversion Hf as [|? ? Hf' HF]; subst. change (map _ X) with (members X) in *. destruct (h (an_score a, an_key a)) eqn:Eh; [by rewrite IH|].
    clear IH Hf Hf' E. induction HF as [|y l Hy _ IHl]; [done|]. cbn [List.filter]. destruct (h y) eqn:Ey; [by specialize (Hy eq_refl); congruence|].
    by rewrite andb_false_r. }
  cbn [app]. clear HA HX. revert offset Ho. induction X as [|a X IH]; intros offset Ho; [done|].
  cbn [members map take_while zdrop]. inversion Hf as [|? ? Hf' HF]; subst.
  destruct (Z.leb_spec offset 0); cbn [take_while].
  - assert (offset = 0) as -> by lia. by rewrite zdrop_0.
  - destruct (h (an_score a, an_key a)) eqn:Eh; cbn [zdrop].
    + destruct (Z.leb_spec offset 0); [lia|]. apply IH; [done|lia].
    + change (map _ X) with (members X) in *. destruct (zdrop (offset - 1) (members X)) as [|y l] eqn:Ed; [done|]. cbn [take_while].
      assert (y ∈ members X) as Hy by (rewrite <-(ztake_zdrop (offset - 1) (members X)), Ed; set_solver).
      rewrite Forall_forall in HF. destruct (h y) eqn:Ey; [by pose proof (HF y Hy Ey)|done].
Qed.

(** The rest of a scan, from the position found. *)
Lemma scan_from_ok sl sl1 A b X rv offset limit (gte lte : ZSlEleValue -> bool) g h :
  loaded cfg tx sl sl1 -> path (nodes cfg sl tx) rv (A ++ b :: X) -> nonzero (b :: X) -> (length (b :: X) <= walk_fuel sl)%nat ->
  an_pos b <> SKIPLIST_INVALID_POS -> in_cache sl1 (an_pos b) -> 0 <= offset -> 0 <= limit ->
  (forall e, (if rv then gte else lte) e = h (ze_score e, ze_subKey e)) ->
  falling h (members (b :: X)) -> Forall (fun a => g (mem a) = false) A -> Forall (fun a => g (mem a) = true) (b :: X) ->
  exists sl', scan_from cfg sl1 tx (an_pos b) offset limit rv gte lte =
      Ret (sl', ztake limit (zdrop offset (List.filter (fun x => g x && h x) (members (A ++ b :: X))))) /\ loaded cfg tx sl sl'.
Proof.
  intros Hl Hp Hz Hf Hb [e Hc] Ho Hli Hin Hfall HA HX. unfold scan_from. destruct (Z.eqb_spec (an_pos b) SKIPLIST_INVALID_POS); [done|].
  rewrite Hc, bind_Ret. set (N := nodes cfg sl tx) in *. apply path_suffix in Hp.
  assert (forall p, nodes cfg sl1 tx p = N p) as HN by (intros; by apply loaded_nodes).
  assert (walk_fuel sl1 = walk_fuel sl) as Ef by (by destruct Hl as (c & -> & _)).
  destruct (scan_skip_ok N rv (walk_fuel sl1) sl1 b X offset e) as (sl2 & o & -> & Hl2 & Hm); [done|done|done| |done|by rewrite Ef|].
  { rewrite <-HN. by apply cached_nodes. }
  rewrite bind_Ret. rewrite <-(scan_window g h A (b :: X) offset limit) by done. rewrite zdrop_members.
  pose proof (ztake_zdrop offset (b :: X)) as Esp. destruct (zdrop offset (b :: X)) as [|c Y] eqn:Ed.
  - subst o. exists sl2. split; [|by eapply loaded_trans]. cbn. by destruct limit.
  - destruct Hm as (e' & -> & He'). rewrite <-Esp in Hp, Hz. apply path_suffix in Hp. apply Forall_app in Hz as [_ Hz].
    assert (walk_fuel sl2 = walk_fuel sl) as Ef2 by (by destruct Hl2 as (c' & -> & _)).
    destruct (scan_take_ok N rv (if rv then gte else lte) h (walk_fuel sl2) sl2 c Y limit e' []) as (sl3 & -> & Hl3); [|done|done|done|done|done| |].
    + intros p. by rewrite (loaded_nodes _ _ _ _ _ Hl2).
    + rewrite Ef2. etransitivity; [|exact Hf]. rewrite <-Esp, length_app. lia.
    + exists sl3. split; [done|]. eapply loaded_trans; [exact Hl|]. by eapply loaded_trans.
Qed.

Section Range.
Variables (gte lte : ZSlEleValue -> bool) (g h : member -> bool).
Hypothesis Hgte : forall e, gte e = g (ze_score e, ze_subKey e).
Hypothesis Hlte : forall e, lte e = h (ze_score e, ze_subKey e).

Definition both (x : member) : bool := g x && h x.

Lemma filter_none (f : member -> bool) xs : Forall (fun a => f (mem a) = false) xs -> List.filter f (members xs) = [].
Proof. induction 1 as [|a xs E _ IH]; [done|]. cbn [members map List.filter]. by rewrite E. Qed.

Lemma Forall_both_g xs : Forall (fun a => g (mem a) = false) xs -> Forall (fun a => both (mem a) = false) xs.
Proof. intros HF. eapply Forall_impl; [exact HF|]. intros a E. unfold both. by rewrite E. Qed.

Lemma Forall_both_h xs : Forall (fun a => h (mem a) = false) xs -> Forall (fun a => both (mem a) = false) xs.
Proof. intros HF. eapply Forall_impl; [exact HF|]. intros a E. unfold both. by rewrite E, andb_false_r. Qed.

(** Whether the last node passes the start of the range and the first one its end. *)
Lemma range_meets_ok sl xs :
  sl_rep cfg tx sl xs ->
  exists sl', range_meets cfg sl tx gte lte =
      Ret (sl', match xs, last xs with x :: _, Some z => g (mem z) && h (mem x) | _, _ => false end) /\ loaded cfg tx sl sl'.
Proof.
  intros R. unfold range_meets. pose proof (backs_tail _ _ _ _ (sr_back _ _ _ _ R)) as Et. unfold last_pos in Et.
  destruct xs as [|x xs]; [rewrite Et; exists sl; split; [done|apply loaded_refl]|].
  destruct (last (x :: xs)) as [z|] eqn:Ez; [|by apply last_None in Ez].
  destruct (rep_last _ _ _ R Ez) as (_ & ez & Hez & Hsz & Hkz).
  assert (an_pos z <> 0) as Hz.
  { apply last_Some in Ez as [ys Ey]. pose proof (rep_nonzero _ _ R) as Hn. rewrite Ey in Hn. by apply Forall_mid in Hn. }
  rewrite Et. destruct (Z.eqb_spec (an_pos z) 0); [done|].
  destruct (getNode_ok cfg sl tx _ ez Hez) as (sl1 & -> & Hl1 & _). rewrite bind_Ret, Hgte, Hsz, Hkz.
  destruct (g (an_score z, an_key z)); cbn [negb andb]; [|by exists sl1].
  pose proof (rep_loaded _ _ _ _ _ R Hl1) as R1. destruct (rep_first _ _ R1) as (sl2 & eh & -> & Hl2 & Hfw).
  rewrite bind_Ret, Hfw, bind_Ret. cbn [next_pos]. pose proof (rep_nonzero _ _ R) as Hn. inversion Hn; subst.
  destruct (Z.eqb_spec (an_pos x) 0); [done|]. pose proof (rep_loaded _ _ _ _ _ R1 Hl2) as R2.
  pose proof (sr_nodes _ _ _ _ R2) as Hns. inversion Hns as [|? ? (ex & Hex & _ & Hsx & Hkx) _]; subst.
  destruct (getNode_ok cfg sl2 tx _ ex Hex) as (sl3 & -> & Hl3 & _). rewrite bind_Ret, Hlte, Hsx, Hkx.
  exists sl3. split; [done|]. eapply loaded_trans; [exact Hl1|]. by eapply loaded_trans.
Qed.

(** The test for an empty range before it. *)
Lemma in_range_ok sl xs (em : bool) :
  sl_rep cfg tx sl xs -> (em = true -> Forall (fun a => both (mem a) = false) xs) ->
  exists sl' b, (if em then Ret (sl, false) else range_meets cfg sl tx gte lte) = Ret (sl', b) /\ loaded cfg tx sl sl' /\
    if b then em = false /\ exists x z xs' xs'', xs = x :: xs' /\ xs = xs'' ++ [z] /\ g (mem z) = true /\ h (mem x) = true
    else em = true \/ match xs, last xs with x :: _, Some z => g (mem z) = false \/ h (mem x) = false | _, _ => xs = [] end.
Proof.
  intros R Hem. destruct em; [exists sl, false; split_and!; [done|apply loaded_refl|by left]|].
  destruct (range_meets_ok sl xs R) as (sl' & -> & Hl). eexists sl', _. split_and!; [done|done|].
  destruct xs as [|x xs]; [by right|]. destruct (last (x :: xs)) as [z|] eqn:Ez; [|by apply last_None in Ez].
  destruct (g (an_score z, an_key z)) eqn:Eg; cbn [andb]; [|right; by left].
  destruct (h (an_score x, an_key x)) eqn:Eh; [|right; by right].
  split; [done|]. apply last_Some in Ez as [ys Ey]. by exists x, z, xs, ys.
Qed.

Lemma not_met_empty xs :
  rising g (members xs) -> falling h (members xs) ->
  match xs, last xs with x :: _, Some z => g (mem z) = false \/ h (mem x) = false | _, _ => xs = [] end ->
  Forall (fun a => both (mem a) = false) xs.
Proof.
  intros Hr Hf Hn. destruct xs as [|x xs]; [done|]. destruct (last (x :: xs)) as [z|] eqn:Ez; [|by apply last_None in Ez].
  destruct Hn as [Hg|Hh].
  - apply Forall_both_g. destruct (rising_split g (x :: xs) Hr) as (A & X & E & HA & HX).
    destruct X as [|b X]; [by rewrite app_nil_r in E; rewrite E|]. exfalso. rewrite E in Ez.
    apply last_Some in Ez as [ys Ey]. destruct (exists_last (l := b :: X)) as (X' & b' & Eb); [done|].
    rewrite Eb, app_assoc in Ey. apply app_inj_tail in Ey as [_ ->]. rewrite Eb in HX. apply Forall_mid in HX. cbn in HX. congruence.
  - apply Forall_both_h. destruct (falling_split h (x :: xs) Hf) as (Y & C & E & HY & HC).
    destruct Y as [|y Y]; [by rewrite E|]. cbn in E. simplify_eq. inversion HY as [|? ? Hy]; subst. cbn in *. congruence.
Qed.

(** What [first_in] and [last_in] find, in the direction of the scan: nothing, and no node is in
    the range, or the first node that passes [p], and it is in the range. *)
Definition found_start (ys : list anode) (p : member -> bool) (sl : SkipList) (pos : Z) : Prop :=
  (pos = SKIPLIST_INVALID_POS /\ Forall (fun a => both (mem a) = false) ys) \/
  exists A b X, ys = A ++ b :: X /\ pos = an_pos b /\ in_cache sl pos /\
    Forall (fun a => p (mem a) = false) A /\ Forall (fun a => p (mem a) = true) (b :: X) /\ both (mem b) = true.

Lemma first_in_ok sl xs em :
  sl_rep cfg tx sl xs -> rising g (members xs) -> falling h (members xs) ->
  (em = true -> Forall (fun a => both (mem a) = false) xs) ->
  exists sl' pos, ('(sl, inrange) ← (if em : bool then Ret (sl, false) else range_meets cfg sl tx gte lte);
      first_in cfg sl tx inrange gte lte) = Ret (sl', pos) /\ loaded cfg tx sl sl' /\ found_start xs g sl' pos.
Proof.
  intros R Hr Hf Hem. destruct (in_range_ok sl xs em R Hem) as (sl1 & b & -> & Hl1 & Hb). rewrite bind_Ret. unfold first_in.
  destruct b; cbn [negb].
  2:{ exists sl1, SKIPLIST_INVALID_POS. split_and!; [done|done|]. left. split; [done|]. destruct Hb as [Hb|Hb]; [by apply Hem|by apply not_met_empty]. }
  destruct Hb as (_ & x & z & xs' & xs'' & Ex & Ez & Hgz & Hhx). destruct (rising_split g xs Hr) as (A & X & E & HA & HX).
  pose proof (rep_loaded _ _ _ _ _ R Hl1) as R1. rewrite E in R1.
  destruct (search_next sl1 A X (fun _ _ e => Ret (negb (gte e))) R1) as (sl2 & s & eu & -> & Hl2 & _ & Hcu & Hfw & Hnext & _).
  { apply (test_ok_member _ (fun e => Ret (negb (gte e)))); [apply (sr_nodes _ _ _ _ R1)|..]; intros a e Ha Es Ek; rewrite Hgte, Es, Ek.
    - rewrite Forall_forall in HA. by rewrite (HA a Ha).
    - rewrite Forall_forall in HX. by rewrite (HX a Ha). }
  rewrite bind_Ret, Hcu, bind_Ret, Hfw, bind_Ret. destruct X as [|y X]; cbn [next_pos].
  { exfalso. rewrite app_nil_r in E. rewrite E in Ez. rewrite Ez in HA. apply Forall_mid in HA. cbn in HA. congruence. }
  assert (an_pos y <> 0) as Hy0 by (pose proof (rep_nonzero _ _ R1) as Hn; by apply Forall_mid in Hn).
  destruct (Z.eqb_spec (an_pos y) 0); [done|]. cbn [negb INVARIANT]. rewrite bind_Ret.
  destruct (Hnext y X eq_refl) as (ey & Hcy & Hse & Hke). rewrite Hcy, bind_Ret, Hlte, Hse, Hke.
  eexists sl2, _. split_and!; [done|by eapply loaded_trans|]. destruct (h (an_score y, an_key y)) eqn:Ehy; cbn [negb].
  - right. exists A, y, X. split_and!; [done|done|by eexists|done|done|]. inversion HX as [|? ? Hgy _]; subst. unfold both. cbn. cbn in Hgy. by rewrite Hgy, Ehy.
  - left. split; [done|]. rewrite E. apply Forall_app. split; [by apply Forall_both_g|]. apply Forall_both_h.
    rewrite E, members_app in Hf. apply falling_app in Hf. cbn [members map] in Hf. inversion Hf as [|? ? _ HF]; subst.
    constructor; [done|]. apply Forall_map in HF. eapply Forall_impl; [exact HF|]. intros c. cbn. rewrite Ehy. destruct (h (an_score c, an_key c)); [|done]. intros Hc. by specialize (Hc eq_refl).
Qed.

Lemma last_in_ok sl xs em :
  sl_rep cfg tx sl xs -> rising g (members xs) -> falling h (members xs) ->
  (em = true -> Forall (fun a => both (mem a) = false) xs) ->
  exists sl' pos, ('(sl, inrange) ← (if em : bool then Ret (sl, false) else range_meets cfg sl tx gte lte);
      last_in cfg sl tx inrange gte lte) = Ret (sl', pos) /\ loaded cfg tx sl sl' /\ found_start (rev xs) h sl' pos.
Proof.
  intros R Hr Hf Hem. destruct (in_range_ok sl xs em R Hem) as (sl1 & b & -> & Hl1 & Hb). rewrite bind_Ret. unfold last_in.
  destruct b; cbn [negb].
  2:{ exists sl1, SKIPLIST_INVALID_POS. split_and!; [done|done|]. left. split; [done|]. apply Forall_rev.
      destruct Hb as [Hb|Hb]; [by apply Hem|by apply not_met_empty]. }
  destruct Hb as (_ & x & z & xs' & xs'' & Ex & Ez & Hgz & Hhx). destruct (falling_split h xs Hf) as (Y & C & E & HY & HC).
  pose proof (rep_loaded _ _ _ _ _ R Hl1) as R1. rewrite E in R1.
  destruct (search_next sl1 Y C (fun _ _ e => Ret (lte e)) R1) as (sl2 & s & eu & -> & Hl2 & (_ & _ & Ep) & Hcu & _ & _ & _).
  { apply (test_ok_member _ (fun e => Ret (lte e))); [apply (sr_nodes _ _ _ _ R1)|..]; intros a e Ha Es Ek; rewrite Hlte, Es, Ek.
    - rewrite Forall_forall in HY. by rewrite (HY a Ha).
    - rewrite Forall_forall in HC. by rewrite (HC a Ha). }
  rewrite bind_Ret, Hcu, bind_Ret. pose proof (rep_loaded _ _ _ _ _ R1 Hl2) as R2.
  destruct (exists_last (l := Y)) as (Y' & y & ->).
  { intros ->. cbn in E. rewrite E in Ex. rewrite Ex in HC. inversion HC. cbn in *. congruence. }
  rewrite last_snoc in Ep. cbn in Ep. rewrite Ep in *.
  assert (an_pos y <> 0) as Hy0.
  { pose proof (rep_nonzero _ _ R1) as Hn. rewrite <-app_assoc in Hn. by apply Forall_mid in Hn. }
  destruct (Z.eqb_spec (an_pos y) 0); [done|]. cbn [negb INVARIANT]. rewrite bind_Ret.
  pose proof (sr_nodes _ _ _ _ R2) as Hns. rewrite <-app_assoc in Hns. destruct (Forall_mid _ _ _ _ Hns) as (e' & He' & _ & Hse & Hke).
  rewrite (cached_nodes _ _ tx _ _ Hcu) in He'. simplify_eq. rewrite Hgte, Hse, Hke.
  eexists sl2, _. split_and!; [done|by eapply loaded_trans|]. destruct (g (an_score y, an_key y)) eqn:Egy; cbn [negb].
  - right. exists (rev C), y, (rev Y'). split_and!.
    + by rewrite E, !rev_app_distr.
    + done.
    + by eexists.
    + by apply Forall_rev.
    + apply Forall_app in HY as [HY Hy]. inversion Hy; subst. constructor; [done|by apply Forall_rev].
    + apply Forall_app in HY as [_ Hy]. inversion Hy as [|? ? Hhy _]; subst. unfold both. cbn. cbn in Hhy. by rewrite Egy, Hhy.
  - left. split; [done|]. apply Forall_rev. rewrite E. apply Forall_app. split; [|by apply Forall_both_h]. apply Forall_both_g.
    rewrite E, members_app in Hr. apply sorted_app in Hr as (Hr & _ & _). destruct (rising_split g _ Hr) as (A & X & EA & HA & HX).
    destruct X as [|c X]; [by rewrite app_nil_r in EA; rewrite EA|]. exfalso.
    destruct (exists_last (l := c :: X)) as (X' & c' & Ec); [done|]. rewrite Ec, app_assoc in EA.
    apply app_inj_tail in EA as [_ ->]. rewrite Ec in HX. apply Forall_mid in HX. cbn in HX. congruence.
Qed.

(** Both scans, from the start they find. *)
Lemma scan_found sl sl1 xs pos rv offset limit :
  sl_rep cfg tx sl xs -> loaded cfg tx sl sl1 -> rising g (members xs) -> falling h (members xs) -> 0 <= offset -> 0 <= limit ->
  found_start (if rv : bool then rev xs else xs) (if rv then h else g) sl1 pos ->
  exists sl', scan_from cfg sl1 tx pos offset limit rv gte lte =
      Ret (sl', ztake limit (zdrop offset (List.filter both (if rv then rev (members xs) else members xs)))) /\
    loaded cfg tx sl sl'.
Proof.
  intros R Hl Hr Hf Ho Hli Hstart. destruct Hstart as [[-> Hnone]|(A & b & X & E & -> & Hc & HA & HX & _)].
  { exists sl1. split; [|done]. unfold scan_from. rewrite Z.eqb_refl. f_equal. f_equal.
    assert (List.filter both (if rv then rev (members xs) else members xs) = []) as ->.
    { destruct rv; [rewrite rev_members|]; by apply filter_none. }
    by destruct limit. }
  assert (nonzero (A ++ b :: X)) as Hn.
  { rewrite <-E. destruct rv; [apply Forall_rev|]; by eapply rep_nonzero. }
  assert (length (A ++ b :: X) < walk_fuel sl)%nat as Hfu.
  { rewrite <-E. pose proof (rep_fuel _ _ R). by destruct rv; rewrite ?length_rev. }
  assert (an_pos b <> SKIPLIST_INVALID_POS) as Hinv.
  { assert (b ∈ xs) as Hb.
    { assert (b ∈ (if rv then rev xs else xs)) as Hb by (rewrite E; apply elem_of_app; right; left).
      destruct rv; [|done]. apply list_elem_of_In. rewrite in_rev. by apply list_elem_of_In. }
    pose proof (sr_pos _ _ _ _ R) as Hp. rewrite Forall_forall in Hp. apply Hp in Hb. pose proof (sr_alloc _ _ _ _ R). lia. }
  assert (path (nodes cfg sl tx) rv (A ++ b :: X)) as Hpath.
  { rewrite <-E. destruct rv; [by apply path_backward|by apply path_forward]. }
  rewrite length_app in Hfu.
  destruct (scan_from_ok sl sl1 A b X rv offset limit gte lte (if rv then h else g) (if rv then g else h) Hl Hpath)
    as (sl' & -> & Hl'); [by apply Forall_app in Hn as [_ ?]|lia|done|done|done|done| | |done|done|].
  - intros e. by destruct rv.
  - assert (falling (if rv then g else h) (members (A ++ b :: X))) as Hfall; [|by rewrite members_app in Hfall; apply falling_app in Hfall].
    rewrite <-E. destruct rv; [|done]. by apply falling_rev.
  - exists sl'. split; [|done]. rewrite <-E. f_equal. f_equal. f_equal. f_equal. destruct rv; [|done].
    rewrite rev_members. apply filter_ext. intros x. apply andb_comm.
Qed.

End Range.
End Read.

(** * Ranges of scores and of members *)

Lemma sorted_impl {A} (R Q : A -> A -> Prop) (D : A -> Prop) l :
  Forall D l -> (forall x y, D x -> D y -> R x y -> Q x y) -> StronglySorted R l -> StronglySorted Q l.
Proof.
  intros HD HI. induction 1 as [|x l _ IH HF]; [constructor|]. inversion HD as [|? ? Dx Dl]; subst.
  constructor; [by apply IH|]. rewrite Forall_forall in *. intros y Hy. apply HI; [done|by apply Dl|by apply HF].
Qed.

Definition score_in (r : Zrangespec) (x : member) : bool := zslValueGteMin (fst x) r && zslValueLteMax (fst x) r.
Definition lex_in (r : Zlexrangespec) (x : member) : bool := zslLexValueGteMin (snd x) r && zslLexValueLteMax (snd x) r.

Lemma mlt_key_le x y : mlt x y = true -> dbl_key (fst x) <= dbl_key (fst y).
Proof.
  unfold mlt. destruct (Z.ltb_spec (dbl_key (fst x)) (dbl_key (fst y))), (Z.eqb_spec (dbl_key (fst x)) (dbl_key (fst y)));
    cbn; try lia; try done.
Qed.

Lemma score_rising r l : zset_ok l -> rising (fun x => zslValueGteMin (fst x) r) l.
Proof.
  intros (Hn & Hs & _). eapply sorted_impl; [exact Hn| |exact Hs]. intros x y Nx Ny Hlt%mlt_key_le.
  unfold zslValueGteMin, dbl_lt, dbl_le. rewrite Nx, Ny. destruct (zr_minex r), (dbl_nan (zr_min r)); cbn; try done; lia.
Qed.

Lemma score_falling r l : zset_ok l -> falling (fun x => zslValueLteMax (fst x) r) l.
Proof.
  intros (Hn & Hs & _). eapply sorted_impl; [exact Hn| |exact Hs]. intros x y Nx Ny Hlt%mlt_key_le.
  unfold zslValueLteMax, dbl_lt, dbl_le. rewrite Nx, Ny. destruct (zr_maxex r), (dbl_nan (zr_max r)); cbn; try done; lia.
Qed.

(** The test of [isInRange] for an empty range. *)
Definition score_empty (r : Zrangespec) : bool :=
  dbl_lt (zr_max r) (zr_min r) || (dbl_eq (zr_min r) (zr_max r) && (zr_minex r || zr_maxex r)).

Lemma score_empty_none r x : score_empty r = true -> score_in r x = false.
Proof.
  unfold score_empty, score_in, zslValueGteMin, zslValueLteMax, dbl_lt, dbl_le, dbl_eq. intros E. apply not_true_is_false. intros E'.
  destruct (dbl_nan (zr_min r)), (dbl_nan (zr_max r)), (zr_minex r), (zr_maxex r), (dbl_nan (fst x)); cbn in *; try done; lia.
Qed.

(** The order of the members of a set whose scores are all equal. *)
Definition same_score (l : list member) : Prop := exists k, Forall (fun x => dbl_key (fst x) = k) l.

(** Members that the range functions do not take for the ends of the order. *)
Definition plain (x : member) : Prop := snd x <> ZLEXMIN /\ snd x <> ZLEXMAX.

Lemma lex_compare a b : a <> ZLEXMIN -> a <> ZLEXMAX ->
  compareStringObjectsForLexRange a b =
    if bool_decide (b = ZLEXMAX) then -1 else if bool_decide (b = ZLEXMIN) then 1
    else if bool_decide (a = b) then 0 else if bytes_lt a b then -1 else 1.
Proof.
  intros H1 H2. unfold compareStringObjectsForLexRange. rewrite (bool_decide_eq_false_2 (a = ZLEXMIN)), (bool_decide_eq_false_2 (a = ZLEXMAX)) by done.
  cbn [orb]. repeat case_bool_decide; subst; done.
Qed.

(** Comparing two members with the same bound. *)
Lemma lex_compare_le a a' b : a <> ZLEXMIN -> a <> ZLEXMAX -> a' <> ZLEXMIN -> a' <> ZLEXMAX -> bytes_lt a a' = true ->
  compareStringObjectsForLexRange a b <= compareStringObjectsForLexRange a' b.
Proof.
  intros H1 H2 H3 H4 Hlt. rewrite !lex_compare by done. destruct (bool_decide (b = ZLEXMAX)), (bool_decide (b = ZLEXMIN)); try lia.
  destruct (bool_decide_reflect (a = b)) as [->|Ha], (bool_decide_reflect (a' = b)) as [->|Ha'].
  - by rewrite bytes_lt_irrefl in Hlt.
  - rewrite (bytes_lt_antisym _ _ Hlt). lia.
  - rewrite Hlt. lia.
  - destruct (bytes_lt a' b) eqn:E; [by rewrite (bytes_lt_trans _ _ _ Hlt E)|]. destruct (bytes_lt a b); lia.
Qed.

Lemma lex_sorted l : zset_ok l -> same_score l -> StronglySorted (fun x y => bytes_lt (snd x) (snd y) = true) l.
Proof.
  intros (_ & Hs & _) [k Hk]. eapply sorted_impl; [exact Hk| |exact Hs]. intros x y Ex Ey. unfold mlt.
  rewrite Ex, Ey, Z.ltb_irrefl, Z.eqb_refl. done.
Qed.

Lemma lex_rising r l : zset_ok l -> same_score l -> Forall plain l -> rising (fun x => zslLexValueGteMin (snd x) r) l.
Proof.
  intros Hz Hs Hp. eapply sorted_impl; [exact Hp| |by apply lex_sorted]. intros x y [X1 X2] [Y1 Y2] Hlt.
  pose proof (lex_compare_le _ _ (zl_min r) X1 X2 Y1 Y2 Hlt). unfold zslLexValueGteMin. destruct (zl_minex r); lia.
Qed.

Lemma lex_falling r l : zset_ok l -> same_score l -> Forall plain l -> falling (fun x => zslLexValueLteMax (snd x) r) l.
Proof.
  intros Hz Hs Hp. eapply sorted_impl; [exact Hp| |by apply lex_sorted]. intros x y [X1 X2] [Y1 Y2] Hlt.
  pose proof (lex_compare_le _ _ (zl_max r) X1 X2 Y1 Y2 Hlt). unfold zslLexValueLteMax. destruct (zl_maxex r); lia.
Qed.

Definition lex_empty (r : Zlexrangespec) : bool :=
  (0 <? compareStringObjectsForLexRange (zl_min r) (zl_max r)) ||
  (bool_decide (zl_min r = zl_max r) && (zl_minex r || zl_maxex r)).

Lemma lex_empty_none r x : plain x -> lex_empty r = true -> lex_in r x = false.
Proof.
  intros [X1 X2] E. apply not_true_is_false. unfold lex_in, zslLexValueGteMin, zslLexValueLteMax.
  rewrite !lex_compare by done. unfold lex_empty, compareStringObjectsForLexRange in E. destruct r as [mn mx mne mxe]; cbn [zl_min zl_max zl_minex zl_maxex] in *.
  intros E'. apply andb_true_iff in E' as [Eg Eh].
  destruct (bool_decide_reflect (mn = mx)) as [->|Hne].
  { destruct (bool_decide (mx = ZLEXMAX)), (bool_decide (mx = ZLEXMIN)), (bool_decide (snd x = mx)),
      (bytes_lt (snd x) mx), mne, mxe; done. }
  destruct (bool_decide (mn = ZLEXMIN)) eqn:E1; [done|]. destruct (bool_decide (mx = ZLEXMAX)) eqn:E2; [by rewrite orb_true_r in E|].
  destruct (bool_decide (mn = ZLEXMAX)); [by destruct mne|]. destruct (bool_decide (mx = ZLEXMIN)); [by destruct mxe|]. cbn [orb] in E.
  destruct (bytes_lt mn mx) eqn:El; [done|].
  assert (bytes_lt mx mn = true) as Hgt by (destruct (bytes_lt mx mn) eqn:?; [done|]; by destruct Hne; apply bytes_lt_total).
  destruct (bool_decide_reflect (snd x = mn)) as [Ex|Hx]; [|destruct (bytes_lt (snd x) mn) eqn:Ea; [by destruct mne|]].
  - destruct (bool_decide_reflect (snd x = mx)) as [Ex'|_]; [congruence|]. rewrite Ex, El in Eh. by destruct mxe.
  - destruct (bool_decide_reflect (snd x = mx)) as [Ex'|_]; [by rewrite Ex', Hgt in Ea|].
    destruct (bytes_lt (snd x) mx) eqn:Eb; [|by destruct mxe]. by rewrite (bytes_lt_trans _ _ _ Eb Hgt) in Ea.
Qed.

Section RangeScans.
Context {BM : BuildMode} {T : Type} `{RocksDB T}.
Variable cfg : StoreCfg.
Variable tx : RocksTxn T.

Lemma Forall_members (Q : member -> Prop) xs : Forall Q (members xs) -> Forall (fun a => Q (mem a)) xs.
Proof. apply Forall_map. Qed.

Lemma Forall_all {A} (Q : A -> Prop) l : (forall x, Q x) -> Forall Q l.
Proof. intros HQ. by apply Forall_forall. Qed.

Lemma score_none r xs : score_empty r = true -> Forall (fun a => both (fun x => zslValueGteMin (fst x) r) (fun x => zslValueLteMax (fst x) r) (mem a) = false) xs.
Proof. intros E. apply Forall_all. intros a. by apply (score_empty_none r (mem a)). Qed.

Lemma lex_none r xs :
  Forall plain (members xs) -> lex_empty r = true ->
  Forall (fun a => both (fun x => zslLexValueGteMin (snd x) r) (fun x => zslLexValueLteMax (snd x) r) (mem a) = false) xs.
Proof. intros Hp E. apply Forall_members in Hp. eapply Forall_impl; [exact Hp|]. intros a Ha. by apply (lex_empty_none r (mem a)). Qed.

(** The ends of a range of scores. *)
Lemma scoreRange_ends sl xs r :
  sl_rep cfg tx sl xs -> zset_ok (members xs) ->
  let g := fun x : member => zslValueGteMin (fst x) r in let h := fun x : member => zslValueLteMax (fst x) r in
  (exists sl' pos, SkipList_firstInRange cfg sl tx r = Ret (sl', pos) /\ loaded cfg tx sl sl' /\ found_start g h xs g sl' pos) /\
  (exists sl' pos, SkipList_lastInRange cfg sl tx r = Ret (sl', pos) /\ loaded cfg tx sl sl' /\ found_start g h (rev xs) h sl' pos).
Proof.
  intros R Hz g h. pose proof (score_rising r _ Hz) as Hr. pose proof (score_falling r _ Hz) as Hf.
  split; [apply (first_in_ok cfg tx (fun e => zslValueGteMin (ze_score e) r) (fun e => zslValueLteMax (ze_score e) r) g h ltac:(done) ltac:(done) sl xs (score_empty r) R Hr Hf)|
    apply (last_in_ok cfg tx (fun e => zslValueGteMin (ze_score e) r) (fun e => zslValueLteMax (ze_score e) r) g h ltac:(done) ltac:(done) sl xs (score_empty r) R Hr Hf)];
    apply score_none.
Qed.

(** The ends of a range of keys. *)
Lemma lexRange_ends sl xs r :
  sl_rep cfg tx sl xs -> zset_ok (members xs) -> same_score (members xs) -> Forall plain (members xs) ->
  let g := fun x : member => zslLexValueGteMin (snd x) r in let h := fun x : member => zslLexValueLteMax (snd x) r in
  (exists sl' pos, SkipList_firstInLexRange cfg sl tx r = Ret (sl', pos) /\ loaded cfg tx sl sl' /\ found_start g h xs g sl' pos) /\
  (exists sl' pos, SkipList_lastInLexRange cfg sl tx r = Ret (sl', pos) /\ loaded cfg tx sl sl' /\ found_start g h (rev xs) h sl' pos).
Proof.
  intros R Hz Hs Hp g h. pose proof (lex_rising r _ Hz Hs Hp) as Hr. pose proof (lex_falling r _ Hz Hs Hp) as Hf.
  split; [apply (first_in_ok cfg tx (fun e => zslLexValueGteMin (ze_subKey e) r) (fun e => zslLexValueLteMax (ze_subKey e) r) g h ltac:(done) ltac:(done) sl xs (lex_empty r) R Hr Hf)|
    apply (last_in_ok cfg tx (fun e => zslLexValueGteMin (ze_subKey e) r) (fun e => zslLexValueLteMax (ze_subKey e) r) g h ltac:(done) ltac:(done) sl xs (lex_empty r) R Hr Hf)];
    by apply lex_none.
Qed.

Lemma scanByScore_ok sl xs r offset limit rv :
  sl_rep cfg tx sl xs -> zset_ok (members xs) -> 0 <= offset -> 0 <= limit ->
  exists sl', SkipList_scanByScore cfg sl tx r offset limit rv =
      Ret (sl', ztake limit (zdrop offset (List.filter (score_in r) (if rv : bool then rev (members xs) else members xs)))) /\
    loaded cfg tx sl sl'.
Proof.
  intros R Hz Ho Hl. unfold SkipList_scanByScore. pose proof (score_rising r _ Hz) as Hr. pose proof (score_falling r _ Hz) as Hf.
  destruct (scoreRange_ends sl xs r R Hz) as [(sl1 & p1 & E1 & Hl1 & H1) (sl2 & p2 & E2 & Hl2 & H2)]. destruct rv.
  - rewrite E2, bind_Ret. by apply (scan_found cfg tx _ _ (fun x => zslValueGteMin (fst x) r) (fun x => zslValueLteMax (fst x) r) ltac:(done) ltac:(done) sl sl2 xs p2 true).
  - rewrite E1, bind_Ret. by apply (scan_found cfg tx _ _ (fun x => zslValueGteMin (fst x) r) (fun x => zslValueLteMax (fst x) r) ltac:(done) ltac:(done) sl sl1 xs p1 false).
Qed.

Lemma scanByLex_ok sl xs r offset limit rv :
  sl_rep cfg tx sl xs -> zset_ok (members xs) -> same_score (members xs) -> Forall plain (members xs) -> 0 <= offset -> 0 <= limit ->
  exists sl', SkipList_scanByLex cfg sl tx r offset limit rv =
      Ret (sl', ztake limit (zdrop offset (List.filter (lex_in r) (if rv : bool then rev (members xs) else members xs)))) /\
    loaded cfg tx sl sl'.
Proof.
  intros R Hz Hs Hp Ho Hl. unfold SkipList_scanByLex. pose proof (lex_rising r _ Hz Hs Hp) as Hr. pose proof (lex_falling r _ Hz Hs Hp) as Hf.
  destruct (lexRange_ends sl xs r R Hz Hs Hp) as [(sl1 & p1 & E1 & Hl1 & H1) (sl2 & p2 & E2 & Hl2 & H2)]. destruct rv.
  - rewrite E2, bind_Ret. by apply (scan_found cfg tx _ _ (fun x => zslLexValueGteMin (snd x) r) (fun x => zslLexValueLteMax (snd x) r) ltac:(done) ltac:(done) sl sl2 xs p2 true).
  - rewrite E1, bind_Ret. by apply (scan_found cfg tx _ _ (fun x => zslLexValueGteMin (snd x) r) (fun x => zslLexValueLteMax (snd x) r) ltac:(done) ltac:(done) sl sl1 xs p1 false).
Qed.

End RangeScans.
