(* ===== verification/SkipListWrite.v ===== *)
(** Changing a skip list (storage/skiplist.cpp): the loops over the levels that link a node and
    unlink it, and insertion. *)

From Stdlib Require Import Strings.Byte ZArith Lia.
From stdpp Require Import base list numbers strings gmap sorting.
From S2P Require Import Prelude Status Varint Record RecordValue RecordMeta ReplLog BinlogSeq Txn Store SkipList SkipListRep SkipListRead.

Local Open Scope Z_scope.

(** * Changes of levels *)

Section Frame.
Context {BM : BuildMode} {T : Type} `{RocksDB T}.
Variable cfg : StoreCfg.
Variable tx : RocksTxn T.

(** [sl'] is [sl] with changes of cached nodes on the levels in [D] only. *)
Definition frame (D : Z -> Prop) (sl sl' : SkipList) : Prop :=
  exists c, sl' = sl_with_cache sl c /\
    (forall p, option_Forall2 (same_but D) (sl_cache sl !! p) (c !! p)) /\
    forall p e, c !! p = Some e -> sl_cache sl !! p = Some e \/ (ZSlEleValue_wf e /\ is_u64 p).

Lemma frame_refl D sl : frame D sl sl.
Proof.
  exists (sl_cache sl). split_and!; [by destruct sl| |by left]. intros p.
  destruct (sl_cache sl !! p); constructor. apply same_but_refl.
Qed.

Lemma frame_trans (D1 D2 D : Z -> Prop) sl1 sl2 sl3 :
  (forall j, D1 j -> D j) -> (forall j, D2 j -> D j) -> frame D1 sl1 sl2 -> frame D2 sl2 sl3 -> frame D sl1 sl3.
Proof.
  intros I1 I2 (c1 & -> & H1 & W1) (c2 & -> & H2 & W2). exists c2. split_and!; [done| |].
  - intros p. specialize (H1 p). specialize (H2 p). cbn in H2. inversion H1 as [e1 e2 S1 E1 E2|E1 E2]; rewrite <-E2 in H2.
    + inversion H2; subst. constructor. by apply (same_but_trans D1 D2 D e1 e2).
    + inversion H2; subst. constructor.
  - intros p e E. destruct (W2 p e E) as [E'|]; [|by right]. cbn in E'. by apply W1.
Qed.

Lemma frame_cached D sl sl' p e :
  frame D sl sl' -> cached sl p = Ret e -> exists e', cached sl' p = Ret e' /\ same_but D e e'.
Proof.
  intros (c & -> & Hc & _) E. unfold cached in *. cbn. specialize (Hc p). destruct (sl_cache sl !! p); [|done].
  injection E as ->. inversion Hc; subst. eauto.
Qed.

Lemma frame_nodes D sl sl' p : frame D sl sl' -> option_Forall2 (same_but D) (nodes cfg sl tx p) (nodes cfg sl' tx p).
Proof.
  intros (c & -> & Hc & _). unfold nodes. cbn. specialize (Hc p). inversion Hc as [? ? ? E1 E2|E1 E2].
  - by constructor.
  - change (load cfg (sl_with_cache sl c) tx p) with (load cfg sl tx p).
    destruct (load cfg sl tx p); constructor. apply same_but_refl.
Qed.

Lemma frame_slot D sl sl' p i : frame D sl sl' -> ~ D i -> slot (nodes cfg sl' tx) p i = slot (nodes cfg sl tx) p i.
Proof.
  intros Hf Hi. unfold slot. destruct (frame_nodes D sl sl' p Hf) as [e e' (_ & _ & _ & _ & _ & Hs)|]; [|done].
  cbn. destruct (Hs i Hi) as [-> ->]. done.
Qed.

Lemma frame_level_ok D sl sl' i l :
  frame D sl sl' -> ~ D i -> level_ok (nodes cfg sl tx) i l -> level_ok (nodes cfg sl' tx) i l.
Proof. intros Hf Hi. apply level_ok_ext. intros a _ _. by apply (frame_slot D). Qed.

Lemma frame_scalars D sl sl' : frame D sl sl' ->
  sl_maxLevel sl' = sl_maxLevel sl /\ sl_level sl' = sl_level sl /\ sl_count sl' = sl_count sl /\
  sl_tail sl' = sl_tail sl /\ sl_posAlloc sl' = sl_posAlloc sl /\ sl_chunkId sl' = sl_chunkId sl /\
  sl_dbId sl' = sl_dbId sl /\ sl_pk sl' = sl_pk sl.
Proof. by intros (c & -> & _). Qed.

(** Setting the slot of a cached node. *)
Lemma frame_set_slot sl p e i f s :
  cached sl p = Ret e -> ZSlEleValue_wf e -> is_u64 p -> is_u64 f -> is_u32 s ->
  frame (eq i) sl (sl_with_cache sl (<[p := set_slot e i f s]> (sl_cache sl))).
Proof.
  intros Ec Hw Hp Hf Hs. unfold cached in Ec. destruct (sl_cache sl !! p) as [e'|] eqn:E; [|done]. injection Ec as ->.
  pose proof (set_slot_same e i f s Hf Hs) as Hsame. eexists. split_and!; [done| |].
  - intros q. destruct (decide (q = p)) as [->|Hn].
    + rewrite E, lookup_insert_eq. by constructor.
    + rewrite lookup_insert_ne by done. destruct (sl_cache sl !! q); constructor. apply same_but_refl.
  - intros q e' Eq. destruct (decide (q = p)) as [->|Hn].
    + rewrite lookup_insert_eq in Eq. injection Eq as <-. right. split; [|done]. by apply Hsame.
    + rewrite lookup_insert_ne in Eq by done. by left.
Qed.

(** A loop over levels, each round of which makes its level right for the list [l] and leaves the
    other levels alone. *)
Lemma for_levels_ok body l levels : forall sl0 sl done_,
  NoDup (done_ ++ levels) ->
  (forall i sl, i ∈ levels -> frame (fun j => j ∈ done_ ++ levels /\ j <> i) sl0 sl ->
     exists sl', body i sl = Ret sl' /\ frame (eq i) sl sl' /\ level_ok (nodes cfg sl' tx) i l) ->
  frame (fun j => j ∈ done_) sl0 sl -> (forall i, i ∈ done_ -> level_ok (nodes cfg sl tx) i l) ->
  exists sl', for_levels levels body sl = Ret sl' /\ frame (fun j => j ∈ done_ ++ levels) sl0 sl' /\
    forall i, i ∈ done_ ++ levels -> level_ok (nodes cfg sl' tx) i l.
Proof.
  induction levels as [|i levels IH]; intros sl0 sl dn Hd Hbody Hf Hok.
  - exists sl. rewrite app_nil_r. done.
  - cbn [for_levels]. assert (i ∉ dn) as Hi.
    { apply NoDup_app in Hd as (_ & Hd & _). intros Hin. apply (Hd i Hin). left. }
    destruct (Hbody i sl) as (sl1 & -> & Hf1 & Hok1); [left| |].
    { eapply (frame_trans (fun j => j ∈ dn) (fun _ => False)); [|done|exact Hf|apply frame_refl].
      intros j Hj. split; [apply elem_of_app; by left|]. by intros ->. }
    rewrite bind_Ret. assert (dn ++ i :: levels = (dn ++ [i]) ++ levels) as E by (by rewrite <-app_assoc). rewrite E in *.
    apply (IH sl0 sl1 (dn ++ [i])); [done| | |].
    + intros j sl' Hj Hf'. apply Hbody; [by right|done].
    + eapply (frame_trans _ (eq i)); [..|exact Hf|exact Hf1]; intros j Hj; apply elem_of_app; [by left|right; subst; left].
    + intros j Hj. apply elem_of_app in Hj as [Hj|Hj].
      * eapply frame_level_ok; [exact Hf1| |by apply Hok]. by intros ->.
      * by apply list_elem_of_singleton in Hj as ->.
Qed.

End Frame.

Lemma link_bound l i : 0 <= snd (link l i) <= zlen l.
Proof.
  induction l as [|a l IH]; cbn [link]; [done|]. rewrite zlen_cons. pose proof (zlen_nonneg l). destruct (i <=? an_height a); cbn [snd]; lia.
Qed.

Lemma zset_same {A} (l : list A) i x : znth l i = Some x -> zset l i x = l.
Proof.
  revert i. induction l as [|y l IH]; intros i; cbn; [done|]. destruct (i =? 0); [by intros [= ->]|]. intros E. by rewrite IH.
Qed.

Section Levels.
Context {BM : BuildMode} {T : Type} `{RocksDB T}.
Variable cfg : StoreCfg.
Variable tx : RocksTxn T.

(** The last node [u] of [L] on level [i], cached, and the slot it has before [B]. *)
Lemma last_slot sl i L B P u S eu :
  level_ok (nodes cfg sl tx) i (L ++ B) -> last_of L i P u S -> cached sl (an_pos u) = Ret eu ->
  ZSlEleValue_wf eu -> 1 <= i <= MAX_LAYER -> 
  ZSlEleValue_getForward eu i = Ret (fst (link B i)) /\ ZSlEleValue_getSpan eu i = Ret (zlen S + snd (link B i)) /\
  znth (ze_forward eu) i = Some (fst (link B i)) /\ is_u64 (fst (link B i)).
Proof.
  intros Hok (-> & Hu & HS) Hc Hw Hi. rewrite <-app_assoc in Hok. cbn in Hok.
  pose proof (level_ok_at _ _ _ _ _ Hok Hu) as Hs. rewrite (link_low _ _ _ HS) in Hs.
  destruct (slot_get _ _ _ _ _ _ (cached_nodes cfg _ tx _ _ Hc) Hs) as [Ef Es]. split_and!; [done|done|..].
  - unfold ZSlEleValue_getForward in Ef. destruct (znth (ze_forward eu) i); [by injection Ef as ->|done].
  - destruct (wf_slot eu i Hw) as (f & s & Ef' & _ & _ & _ & Hf & _); [lia|]. rewrite Ef in Ef'. by injection Ef' as ->.
Qed.

Lemma pos_ne_before L i P u S a : last_of L i P u S -> NoDup (map an_pos L) -> a ∈ P -> an_pos a <> an_pos u.
Proof.
  intros (-> & _ & _) Hd Ha E. rewrite map_app in Hd. apply NoDup_app in Hd as (_ & Hd & _).
  apply (Hd (an_pos a)); [by apply list_elem_of_fmap_2|]. rewrite E. cbn. left.
Qed.

(** One slot set: the others are the same. *)
Lemma slot_insert sl p e i f s q :
  q <> p -> slot (nodes cfg (sl_with_cache sl (<[p := set_slot e i f s]> (sl_cache sl))) tx) q i = slot (nodes cfg sl tx) q i.
Proof. intros Hn. unfold slot. rewrite nodes_insert. by destruct (decide (q = p)). Qed.

Lemma slot_insert_here sl p e i f s :
  ZSlEleValue_wf e -> 1 <= i <= MAX_LAYER ->
  slot (nodes cfg (sl_with_cache sl (<[p := set_slot e i f s]> (sl_cache sl))) tx) p i = Some (f, s).
Proof. intros Hw Hi. eapply slot_set_slot; [|exact Hw|lia]. rewrite nodes_insert. by destruct (decide (p = p)). Qed.

(** ** Linking a node *)

Lemma link_level_run sl p i update rank u eu ep f s r1 ri :
  cached sl p = Ret ep -> ZSlEleValue_wf ep -> cached sl u = Ret eu -> ZSlEleValue_wf eu -> u <> p -> HEAD_ID <= u ->
  1 <= i <= MAX_LAYER -> vec_at update i = Ret u -> vec_at rank 1 = Ret r1 -> vec_at rank i = Ret ri ->
  ZSlEleValue_getForward eu i = Ret f -> ZSlEleValue_getSpan eu i = Ret s ->
  link_level p update rank i sl =
    let sl1 := sl_with_cache sl (<[p := set_slot ep i f (u32 (s - u32 (r1 - ri)))]> (sl_cache sl)) in
    Ret (sl_with_cache sl1 (<[u := set_slot eu i p (u32 (u32 (r1 - ri) + 1))]> (sl_cache sl1))).
Proof.
  intros Hp Wp Hu Wu Hn HH Hi Eu E1 Ei Ef Es. unfold link_level. rewrite Eu, bind_Ret.
  assert ((HEAD_ID <=? u) = true) as -> by lia. cbn [INVARIANT]. rewrite bind_Ret.
  assert (is_Some (sl_cache sl !! u)) as Hsome by (unfold cached in Hu; destruct (sl_cache sl !! u); [by eexists|done]).
  rewrite bool_decide_eq_true_2 by done. cbn [INVARIANT]. rewrite bind_Ret, Hu, bind_Ret, Ef, bind_Ret.
  rewrite (modify_ok _ _ _ _ _ Hp (setForward_ok ep i f Wp ltac:(lia))), bind_Ret.
  erewrite modify_ok; [|rewrite cached_insert, decide_False by done; exact Hu|apply (setForward_ok eu i p Wu); lia].
  rewrite bind_Ret, E1, bind_Ret, Ei, bind_Ret, cached_insert, decide_True, bind_Ret by done.
  change (ZSlEleValue_getSpan _ i) with (ZSlEleValue_getSpan eu i). rewrite Es, bind_Ret.
  erewrite modify_ok; [|rewrite cached_insert, decide_False, cached_insert, decide_True by done; done|apply setSpan_ok; [apply Wp|lia]].
  rewrite bind_Ret.
  erewrite modify_ok; [|rewrite cached_insert, decide_False, cached_insert, decide_True by done; done|apply setSpan_ok; [apply Wu|lia]].
  cbv zeta. f_equal. unfold sl_with_cache; cbn. f_equal. unfold set_slot.
  apply map_eq. intros q. destruct (decide (q = u)) as [->|]; [by rewrite !lookup_insert_eq|].
  rewrite !(lookup_insert_ne _ u q) by done. destruct (decide (q = p)) as [->|]; [by rewrite !lookup_insert_eq|].
  by rewrite !lookup_insert_ne by done.
Qed.

(** The positions of the list are distinct from a new one. *)
Lemma pos_new L x B a : NoDup (map an_pos (L ++ x :: B)) -> a ∈ L ++ B -> an_pos a <> an_pos x.
Proof.
  rewrite map_app. cbn [map]. intros Hd Ha E. apply NoDup_app in Hd as (_ & H1 & H2). apply NoDup_cons in H2 as [H2 _].
  apply elem_of_app in Ha as [Ha|Ha].
  - apply (H1 (an_pos a)); [by apply list_elem_of_fmap_2|]. rewrite E. left.
  - apply H2. rewrite <-E. by apply list_elem_of_fmap_2.
Qed.

Lemma NoDup_pos_left L x B : NoDup (map an_pos (L ++ x :: B)) -> NoDup (map an_pos L).
Proof. rewrite map_app. by intros (? & _)%NoDup_app. Qed.

Lemma last_of_in L i P u S : last_of L i P u S -> u ∈ L.
Proof. intros (-> & _). apply elem_of_app. right. left. Qed.

Lemma link_level_ok sl i L B P u S x update rank ep eu :
  level_ok (nodes cfg sl tx) i (L ++ B) -> last_of L i P u S -> NoDup (map an_pos (L ++ x :: B)) ->
  1 <= i <= MAX_LAYER -> i <= an_height x -> zlen (L ++ B) < 2 ^ 31 ->
  cached sl (an_pos x) = Ret ep -> ZSlEleValue_wf ep -> is_u64 (an_pos x) ->
  cached sl (an_pos u) = Ret eu -> ZSlEleValue_wf eu -> is_u64 (an_pos u) -> HEAD_ID <= an_pos u ->
  vec_at update i = Ret (an_pos u) -> vec_at rank 1 = Ret (zlen L - 1) -> vec_at rank i = Ret (zlen P) ->
  exists sl', link_level (an_pos x) update rank i sl = Ret sl' /\ frame (eq i) sl sl' /\
    level_ok (nodes cfg sl' tx) i (L ++ x :: B).
Proof.
  intros Hok Hlast Hd Hi Hx Hlen Cp Wp Up Cu Wu Uu Hu Eu E1 Ei.
  destruct (last_slot sl i L B P u S eu Hok Hlast Cu Wu Hi) as (Ef & Es & _ & Uf).
  pose proof Hlast as (EL & _ & HS). pose proof (link_bound B i) as Hb. rewrite zlen_app in Hlen.
  assert (zlen L = zlen P + 1 + zlen S) as ELen by (rewrite EL, zlen_app, zlen_cons; lia).
  pose proof (zlen_nonneg P). pose proof (zlen_nonneg S).
  assert (an_pos u <> an_pos x) as Hn.
  { apply (pos_new L x B); [done|]. apply elem_of_app. left. by eapply last_of_in. }
  erewrite link_level_run; try done. cbv zeta.
  replace (u32 (zlen L - 1 - zlen P)) with (zlen S) by (rewrite wrap_id; unfold is_u; lia).
  replace (u32 (zlen S + snd (link B i) - zlen S)) with (snd (link B i)) by (rewrite wrap_id; unfold is_u; lia).
  replace (u32 (zlen S + 1)) with (zlen S + 1) by (rewrite wrap_id; unfold is_u; lia).
  set (sl1 := sl_with_cache sl _). eexists. split_and!; [done| |].
  - apply (frame_trans (eq i) (eq i) (eq i) sl sl1); [done|done|..].
    + apply frame_set_slot; try done. unfold is_u; lia.
    + apply frame_set_slot; try done; [|unfold is_u; lia]. unfold sl1. rewrite cached_insert. by destruct (decide _).
  - assert (slot (nodes cfg sl1 tx) (an_pos x) i = Some (link B i)) as Hsx.
    { unfold sl1. rewrite slot_insert_here by done. by destruct (link B i). }
    assert (forall a, a ∈ L ++ B -> an_pos a <> an_pos u -> slot (nodes cfg (sl_with_cache sl1
      (<[an_pos u := set_slot eu i (an_pos x) (zlen S + 1)]> (sl_cache sl1))) tx) (an_pos a) i = slot (nodes cfg sl tx) (an_pos a) i) as Hsame.
    { intros a Ha Hau. rewrite slot_insert by done. unfold sl1. apply slot_insert. by apply (pos_new L x B). }
    eapply level_ok_splice; [exact Hok|exact Hlast|..].
    + intros a Ha. apply Hsame; [rewrite EL, <-app_assoc; apply elem_of_app; by left|]. eapply pos_ne_before; [exact Hlast|by eapply NoDup_pos_left|done].
    + rewrite slot_insert_here by done. by rewrite link_here.
    + cbn [level_ok]. split.
      * intros _. rewrite slot_insert by congruence. done.
      * eapply level_ok_ext; [|by eapply level_ok_suffix]. intros a Ha _. apply Hsame; [apply elem_of_app; by right|].
        intros E. rewrite map_app in Hd. apply NoDup_app in Hd as (_ & Hd & _). apply (Hd (an_pos u)).
        { apply list_elem_of_fmap_2. by eapply last_of_in. }
        rewrite <-E. right. by apply list_elem_of_fmap_2.
Qed.

(** ** Setting the slot of one node *)

Lemma level_ok_low N i l : Forall (low i) l -> level_ok N i l.
Proof. induction 1 as [|a l Ha _ IH]; [done|]. split; [|done]. unfold low in Ha. lia. Qed.

Lemma pos_after L C u c : NoDup (map an_pos (L ++ C)) -> u ∈ L -> c ∈ C -> an_pos c <> an_pos u.
Proof.
  rewrite map_app. intros (_ & Hd & _)%NoDup_app Hu Hc E. apply (Hd (an_pos u)); [by apply list_elem_of_fmap_2|].
  rewrite <-E. by apply list_elem_of_fmap_2.
Qed.

Lemma set_last_ok sl i L B C P u S eu f s :
  level_ok (nodes cfg sl tx) i (L ++ B) -> last_of L i P u S -> NoDup (map an_pos (L ++ C)) -> 1 <= i <= MAX_LAYER ->
  ZSlEleValue_wf eu -> level_ok (nodes cfg sl tx) i C -> link (S ++ C) i = (f, s) ->
  level_ok (nodes cfg (sl_with_cache sl (<[an_pos u := set_slot eu i f s]> (sl_cache sl))) tx) i (L ++ C).
Proof.
  intros Hok Hlast Hd Hi Wu HC El. assert (NoDup (map an_pos L)) as HdL by (rewrite map_app in Hd; by apply NoDup_app in Hd as (? & _)).
  eapply level_ok_splice; [exact Hok|exact Hlast|..].
  - intros a Ha. apply slot_insert. by eapply pos_ne_before.
  - rewrite slot_insert_here by done. by rewrite El.
  - eapply level_ok_ext; [|exact HC]. intros a Ha _. apply slot_insert. eapply pos_after; [exact Hd|by eapply last_of_in|done].
Qed.

Lemma setSpan_slot e i f s : znth (ze_forward e) i = Some f -> ZSlEleValue_wf e -> 1 <= i <= MAX_LAYER ->
  ZSlEleValue_setSpan e i s = Ret (set_slot e i f s).
Proof. intros Ef Hw Hi. rewrite setSpan_ok; [|apply Hw|lia]. unfold set_slot. by rewrite (zset_same _ _ _ Ef). Qed.

Lemma skip_level_ok sl i L B P u S x update eu :
  level_ok (nodes cfg sl tx) i (L ++ B) -> last_of L i P u S -> NoDup (map an_pos (L ++ x :: B)) ->
  1 <= i <= MAX_LAYER -> an_height x < i -> zlen (L ++ B) < 2 ^ 31 ->
  cached sl (an_pos u) = Ret eu -> ZSlEleValue_wf eu -> is_u64 (an_pos u) -> vec_at update i = Ret (an_pos u) ->
  exists sl', skip_level update i sl = Ret sl' /\ frame (eq i) sl sl' /\ level_ok (nodes cfg sl' tx) i (L ++ x :: B).
Proof.
  intros Hok Hlast Hd Hi Hx Hlen Cu Wu Uu Eu. destruct (last_slot sl i L B P u S eu Hok Hlast Cu Wu Hi) as (Ef & Es & Ez & Uf).
  pose proof Hlast as (EL & _ & HS). pose proof (link_bound B i) as Hb. rewrite zlen_app in Hlen.
  assert (zlen L = zlen P + 1 + zlen S) as ELen by (rewrite EL, zlen_app, zlen_cons; lia).
  pose proof (zlen_nonneg P). pose proof (zlen_nonneg S).
  unfold skip_level. rewrite Eu, bind_Ret, Cu, bind_Ret, Es, bind_Ret, wrap_id by (unfold is_u; lia).
  rewrite (modify_ok _ _ _ _ _ Cu (setSpan_slot eu i _ _ Ez Wu Hi)). eexists. split_and!; [done| |].
  - apply frame_set_slot; try done. unfold is_u; lia.
  - eapply set_last_ok; try done.
    + cbn [level_ok]. split; [lia|by eapply level_ok_suffix].
    + rewrite link_low by done. cbn [link]. destruct (Z.leb_spec i (an_height x)); [lia|]. cbn [fst snd]. f_equal. lia.
Qed.

Lemma new_level_ok sl i xs eh :
  cached sl HEAD_ID = Ret eh -> ZSlEleValue_wf eh -> znth (ze_forward eh) i = Some 0 -> 1 <= i <= MAX_LAYER ->
  Forall (low i) xs -> zlen xs < 2 ^ 31 -> sl_count sl = 1 + zlen xs ->
  exists sl', new_level i sl = Ret sl' /\ frame (eq i) sl sl' /\ level_ok (nodes cfg sl' tx) i (head_node :: xs).
Proof.
  intros Ch Wh Ez Hi Hlow Hlen Ecnt. pose proof (zlen_nonneg xs). unfold new_level. rewrite Ecnt.
  replace (u32 (1 + zlen xs - 1)) with (zlen xs) by (rewrite wrap_id; unfold is_u; lia).
  rewrite (modify_ok _ _ _ _ _ Ch (setSpan_slot eh i _ _ Ez Wh Hi)). eexists. split_and!; [done| |].
  - apply frame_set_slot; try done. unfold is_u; lia.
  - split; [|by apply level_ok_low]. intros _. cbn [an_pos head_node]. rewrite slot_insert_here by done. by rewrite link_none.
Qed.

(** ** Unlinking a node *)

Lemma link_ne i L x B : NoDup (map an_pos (L ++ x :: B)) -> an_pos x <> 0 -> fst (link B i) <> an_pos x.
Proof.
  intros Hd Hx. destruct (first_on_level B i) as [Hl|(B1 & b & B2 & EB & Hl & Hb')].
  - rewrite link_none by done. cbn. congruence.
  - rewrite EB, link_here by done. cbn. apply (pos_after (L ++ [x]) B x b); [by rewrite <-app_assoc|apply elem_of_app; right; left|].
    rewrite EB. apply elem_of_app. right. left.
Qed.

Lemma remove_level_ok sl i L B P u S x update ex eu :
  level_ok (nodes cfg sl tx) i (L ++ x :: B) -> last_of L i P u S -> NoDup (map an_pos (L ++ x :: B)) ->
  1 <= i <= MAX_LAYER -> zlen (L ++ x :: B) < 2 ^ 31 ->
  cached sl (an_pos x) = Ret ex -> ZSlEleValue_wf ex ->
  cached sl (an_pos u) = Ret eu -> ZSlEleValue_wf eu -> is_u64 (an_pos u) -> HEAD_ID <= an_pos u -> an_pos x <> 0 ->
  vec_at update i = Ret (an_pos u) ->
  exists sl', remove_level (an_pos x) update i sl = Ret sl' /\ frame (eq i) sl sl' /\ level_ok (nodes cfg sl' tx) i (L ++ B).
Proof.
  intros Hok Hlast Hd Hi Hlen Cx Wx Cu Wu Uu Hu Hx0 Eu.
  destruct (last_slot sl i L (x :: B) P u S eu Hok Hlast Cu Wu Hi) as (Ef & Es & Ez & Uf).
  pose proof Hlast as (EL & _ & HS). pose proof (link_bound B i) as Hb. rewrite zlen_app, zlen_cons in Hlen.
  assert (zlen L = zlen P + 1 + zlen S) as ELen by (rewrite EL, zlen_app, zlen_cons; lia).
  pose proof (zlen_nonneg P). pose proof (zlen_nonneg S). cbn [link] in *.
  assert (NoDup (map an_pos (L ++ B))) as HdLB.
  { rewrite map_app in *. cbn in Hd. apply NoDup_app in Hd as (D1 & D2 & D3). apply NoDup_cons in D3 as [_ D3].
    apply NoDup_app. split_and!; [done| |done]. intros q Hq Hq'. apply (D2 q Hq). by right. }
  assert (level_ok (nodes cfg sl tx) i B) as HB by (pose proof (level_ok_suffix _ _ _ _ Hok) as [_ ?]; done).
  unfold remove_level. rewrite Eu, bind_Ret, Cu, bind_Ret, Ef, bind_Ret, Es, bind_Ret.
  destruct (Z.leb_spec i (an_height x)) as [Hx|Hx]; cbn [fst snd] in *.
  - rewrite Z.eqb_refl. cbn [negb]. assert ((HEAD_ID <=? an_pos u) = true) as -> by lia. cbn [INVARIANT].
    pose proof (level_ok_suffix _ _ _ _ Hok) as [Hsx _]. specialize (Hsx Hx).
    rewrite (surjective_pairing (link B i)) in Hsx. destruct (slot_get _ _ _ _ _ _ (cached_nodes cfg _ tx _ _ Cx) Hsx) as [Efx Esx].
    rewrite bind_Ret, Cx, bind_Ret, Esx, bind_Ret. rewrite wrap_id by (unfold is_u; lia).
    rewrite (modify_ok _ _ _ _ _ Cu (setSpan_ok eu i _ ltac:(apply Wu) ltac:(lia))), bind_Ret.
    assert (an_pos x <> an_pos u) as Hne by (eapply pos_after; [exact Hd|by eapply last_of_in|left]).
    rewrite cached_insert, decide_False, Cx, bind_Ret, Efx, bind_Ret by done.
    assert (is_u64 (fst (link B i))) as Uf'.
    { destruct (wf_slot ex i Wx) as (f & s & Ef' & _ & _ & _ & ? & _); [lia|]. rewrite Efx in Ef'. by injection Ef' as ->. }
    erewrite modify_ok; [|rewrite cached_insert, decide_True by done; done|].
    2:{ apply setForward_ok; [|lia]. destruct Wu as (W1 & W2 & W3 & W4 & W5). unfold ZSlEleValue_wf; cbn. rewrite zlen_set.
        split_and!; try done; [apply Forall_zset; [done|unfold is_u; lia]|apply W5..]. }
    cbn [sl_cache sl_with_cache ze_forward ze_span ze_score ze_backward ze_subKey]. rewrite insert_insert_eq.
    eexists. split_and!; [done| |].
    + apply (frame_set_slot sl (an_pos u) eu i (fst (link B i)) (zlen S + 1 + snd (link B i) - 1)); try done. unfold is_u; lia.
    + apply (set_last_ok sl i L (x :: B) B P u S eu (fst (link B i)) (zlen S + 1 + snd (link B i) - 1)); try done.
      rewrite link_low by done. f_equal. lia.
  - pose proof (link_ne i L x B Hd Hx0) as Hne. destruct (Z.eqb_spec (fst (link B i)) (an_pos x)); [done|]. cbn [negb]. rewrite wrap_id by (unfold is_u; lia).
    rewrite (modify_ok _ _ _ _ _ Cu (setSpan_slot eu i _ _ Ez Wu Hi)). eexists. split_and!; [done| |].
    + apply frame_set_slot; try done. unfold is_u; lia.
    + apply (set_last_ok sl i L (x :: B) B P u S); try done. rewrite link_low by done. f_equal. lia.
Qed.

End Levels.

(** * The vectors of a search *)

Section Vectors.
Context {BM : BuildMode} {T : Type} `{RocksDB T}.
Variable cfg : StoreCfg.
Variable tx : RocksTxn T.

(** For each level up to [n], [update] has the last node of [L] on it and [rank] its index. *)
Definition vectors_ok (L : list anode) (sl : SkipList) (n : Z) (update rank : list Z) : Prop :=
  forall i, 1 <= i <= n -> exists P u S, last_of L i P u S /\ vec_at update i = Ret (an_pos u) /\
    vec_at rank i = Ret (zlen P) /\ in_cache sl (an_pos u).

Lemma level_vector_ok sl l :
  zlen l <= sl_maxLevel sl -> exists v, level_vector sl l = Ret v /\ zlen v = sl_maxLevel sl + 1 /\
    forall i, 1 <= i <= zlen l -> znth v i = znth l (i - 1).
Proof.
  intros Hl. unfold level_vector. destruct (Z.ltb_spec (sl_maxLevel sl) (zlen l)); [lia|]. eexists. split_and!; [done|..].
  - rewrite zlen_cons, zlen_app, zlen_fill; lia.
  - intros i Hi. cbn [znth]. destruct (Z.eqb_spec i 0); [lia|]. apply znth_app_l. lia.
Qed.

Lemma trace_vectors L sl n tr update rank :
  trace_ok L sl n tr -> (forall i, 1 <= i <= zlen tr -> znth update i = znth (map fst tr) (i - 1)) ->
  (forall i, 1 <= i <= zlen tr -> znth rank i = znth (map snd tr) (i - 1)) ->
  vectors_ok L sl (Z.of_nat n) update rank.
Proof.
  intros [Hn Htr] Hu Hr i Hi. destruct (znth_some tr (i - 1)) as [pt Ept]; [unfold zlen; lia|].
  rewrite znth_lookup in Ept by lia. assert (forall f : Z * Z -> Z, znth (map f tr) (i - 1) = Some (f pt)) as Hmap.
  { intros f. rewrite znth_lookup by lia. by rewrite list_lookup_fmap, Ept. }
  destruct (Htr _ _ Ept) as (P & u & S0 & Hlast & Ep & Et & Hc).
  replace (Z.of_nat (S (Z.to_nat (i - 1)))) with i in Hlast by lia. exists P, u, S0. unfold vec_at.
  rewrite Hu, Hr, !Hmap, Ep, Et by (unfold zlen; lia). done.
Qed.

Lemma raise_vectors_ok levels : forall update rank,
  (forall i, i ∈ levels -> 0 <= i < zlen update /\ 0 <= i < zlen rank) ->
  exists update' rank', raise_vectors levels update rank = Ret (update', rank') /\
    forall i, (i ∈ levels -> vec_at update' i = Ret HEAD_ID /\ vec_at rank' i = Ret 0) /\
              (i ∉ levels -> vec_at update' i = vec_at update i /\ vec_at rank' i = vec_at rank i).
Proof.
  induction levels as [|i levels IH]; intros update rank Hr; [exists update, rank; split; [done|]; intros i; split; [by intros ?%not_elem_of_nil|done]|].
  destruct (Hr i) as [Hu Hk]; [left|]. cbn [raise_vectors]. unfold vec_set.
  destruct (znth_some rank i Hk) as [r Er]. destruct (znth_some update i Hu) as [u Eu]. rewrite Er, bind_Ret, Eu, bind_Ret.
  destruct (IH (zset update i HEAD_ID) (zset rank i 0)) as (update' & rank' & E & Hv).
  { intros j Hj. rewrite !zlen_set. apply Hr. by right. }
  exists update', rank'. split; [done|]. intros j. destruct (Hv j) as [H1 H2]. destruct (decide (j ∈ levels)) as [Hj|Hj].
  - split; [by auto|]. intros Hn. destruct Hn. by right.
  - destruct (H2 Hj) as [E1 E2]. rewrite E1, E2. unfold vec_at. split.
    + intros Hin. inversion Hin; [|done]. subst. by rewrite !znth_zset_eq.
    + intros Hn. rewrite !znth_zset_ne; [done|..]; intros ->; apply Hn; left.
Qed.

(** The vectors after new levels have been added. *)
Lemma vectors_raised A sl level lvl update rank :
  vectors_ok (head_node :: A) sl level update rank -> 1 <= level -> lvl <= MAX_LAYER ->
  zlen update = MAX_LAYER + 1 -> zlen rank = MAX_LAYER + 1 -> Forall (fun a => an_height a <= level) A -> in_cache sl HEAD_ID ->
  exists update' rank', raise_vectors (seqZ (level + 1) (lvl - level)) update rank = Ret (update', rank') /\
    vectors_ok (head_node :: A) sl (Z.max level lvl) update' rank'.
Proof.
  intros Hv Hl Hm Lu Lr HA Hh. destruct (raise_vectors_ok (seqZ (level + 1) (lvl - level)) update rank) as (update' & rank' & E & Hr).
  { intros i [Hi1 Hi2]%elem_of_seqZ. lia. }
  exists update', rank'. split; [done|]. intros i Hi. destruct (Hr i) as [H1 H2]. destruct (decide (i <= level)) as [Hle|Hgt].
  - destruct H2 as [E1 E2]; [intros [? ?]%elem_of_seqZ; lia|]. rewrite E1, E2. apply Hv. lia.
  - destruct H1 as [E1 E2]; [apply elem_of_seqZ; lia|]. exists [], head_node, A. split_and!; try done.
    + split_and!; [done|cbn; lia|]. eapply Forall_impl; [exact HA|]. unfold low. cbn. lia.
Qed.

End Vectors.

(** * The structure of a list *)

Section Core.
Context {BM : BuildMode} {T : Type} `{RocksDB T}.
Variable cfg : StoreCfg.

(** What [sl_rep] says but for the counter, the backward pointers and the state of the store. *)
Record sl_core (tx : RocksTxn T) (sl : SkipList) (xs : list anode) : Prop := mkSlCore {
  co_ids : sl_ids sl;
  co_max : sl_maxLevel sl = MAX_LAYER;
  co_level : 1 <= sl_level sl <= MAX_LAYER;
  co_alloc : HEAD_ID <= sl_posAlloc sl < SKIPLIST_INVALID_POS;
  co_pos : Forall (fun a => HEAD_ID < an_pos a <= sl_posAlloc sl) xs;
  co_nodup : NoDup (map an_pos xs);
  co_height : Forall (fun a => 1 <= an_height a <= sl_level sl) xs;
  co_head : exists e, nodes cfg sl tx HEAD_ID = Some e /\ ZSlEleValue_wf e /\
    forall i, sl_level sl < i <= MAX_LAYER -> znth (ze_forward e) i = Some 0;
  co_nodes : Forall (node_is (nodes cfg sl tx)) xs;
  co_levels : forall i, 1 <= i <= sl_level sl -> level_ok (nodes cfg sl tx) i (head_node :: xs);
  co_dirty : forall p e, sl_cache sl !! p = Some e -> ze_changed e = true -> ZSlEleValue_wf e /\ is_u64 p
}.

(** The same fields, but for the counter and the tail. *)
Definition same_ids (sl sl' : SkipList) : Prop :=
  sl_maxLevel sl' = sl_maxLevel sl /\ sl_level sl' = sl_level sl /\ sl_posAlloc sl' = sl_posAlloc sl /\
  sl_chunkId sl' = sl_chunkId sl /\ sl_dbId sl' = sl_dbId sl /\ sl_pk sl' = sl_pk sl.

(** The same node but for the backward pointer. *)
Definition same_links (e e' : ZSlEleValue) : Prop :=
  (ZSlEleValue_wf e -> ZSlEleValue_wf e') /\ ze_score e' = ze_score e /\ ze_subKey e' = ze_subKey e /\
  ze_forward e' = ze_forward e /\ ze_span e' = ze_span e.

Lemma core_ext_tx tx tx' sl sl' xs :
  sl_core tx sl xs -> same_ids sl sl' ->
  (forall a, a ∈ head_node :: xs -> option_Forall2 same_links (nodes cfg sl tx (an_pos a)) (nodes cfg sl' tx' (an_pos a))) ->
  (forall p e, sl_cache sl' !! p = Some e -> ze_changed e = true -> ZSlEleValue_wf e /\ is_u64 p) ->
  sl_core tx' sl' xs.
Proof.
  intros C (Em & El & Ea & Ec & Ed & Ep) HN Hd. destruct C. constructor; rewrite ?Em, ?El, ?Ea; try done.
  - unfold sl_ids. by rewrite Ec, Ed, Ep.
  - destruct co_head0 as (e & He & Hw & Hz). pose proof (HN head_node ltac:(left)) as Hn. cbn in Hn. rewrite He in Hn.
    inversion Hn as [? e' (W & _ & _ & F & _) E1 E2|]; subst. exists e'. split_and!; [done|by apply W|]. by rewrite F.
  - rewrite Forall_forall in co_nodes0 |- *. intros a Ha. destruct (co_nodes0 a Ha) as (e & He & Hw & Hs & Hk). pose proof (HN a ltac:(by right)) as Hn. rewrite He in Hn.
    inversion Hn as [? e' (W & S & K & _) E1 E2|]; subst. exists e'. split_and!; [done|by apply W|congruence|congruence].
  - intros i Hi. eapply level_ok_ext; [|by apply co_levels0]. intros a Ha _. unfold slot.
    destruct (HN a Ha) as [e e' (_ & _ & _ & F & S)|]; [cbn; by rewrite F, S|done].
Qed.

End Core.

Section CoreTx.
Context {BM : BuildMode} {T : Type} `{RocksDB T}.
Variable cfg : StoreCfg.
Variable tx : RocksTxn T.

Definition sl_clean (sl : SkipList) (xs : list anode) : Prop :=
  forall p e, p ∈ map an_pos (head_node :: xs) -> sl_cache sl !! p = Some e -> ze_changed e = false -> load cfg sl tx p = Some e.

Lemma rep_core sl xs : sl_rep cfg tx sl xs -> sl_core cfg tx sl xs.
Proof. intros R. destruct R. by constructor. Qed.

Lemma core_rep sl xs :
  sl_core cfg tx sl xs -> sl_count sl = 1 + zlen xs -> sl_count sl <= INT32_MAX / 2 ->
  backs (nodes cfg sl tx) 0 xs (sl_tail sl) -> sl_clean sl xs -> sl_rep cfg tx sl xs.
Proof. intros C Hc Hm Hb Hcl. destruct C. by constructor. Qed.

Lemma core_ext sl sl' xs :
  sl_core cfg tx sl xs -> same_ids sl sl' ->
  (forall q, option_Forall2 same_links (nodes cfg sl tx q) (nodes cfg sl' tx q)) ->
  (forall p e, sl_cache sl' !! p = Some e -> ze_changed e = true -> ZSlEleValue_wf e /\ is_u64 p) ->
  sl_core cfg tx sl' xs.
Proof. intros C Hi HN. apply (core_ext_tx cfg tx tx sl); auto. Qed.

Lemma same_links_refl e : same_links e e.
Proof. by unfold same_links. Qed.

Lemma core_loaded sl sl' xs : sl_core cfg tx sl xs -> loaded cfg tx sl sl' -> sl_core cfg tx sl' xs.
Proof.
  intros C Hl. apply (core_ext sl); [done|by destruct Hl as (c & -> & _)|..].
  - intros q. rewrite (loaded_nodes _ _ _ _ _ Hl). destruct (nodes cfg sl tx q); constructor. apply same_links_refl.
  - destruct Hl as (c & -> & _ & Hc). cbn. intros p e Ep Hch. apply Hc in Ep. unfold nodes in Ep.
    destruct (sl_cache sl !! p) eqn:E; [injection Ep as ->; by apply (co_dirty _ _ _ _ C)|]. apply load_unchanged in Ep. congruence.
Qed.

Lemma clean_loaded sl sl' xs : sl_clean sl xs -> loaded cfg tx sl sl' -> sl_clean sl' xs.
Proof.
  intros Hc (c & -> & _ & Hn) p e Hin Ep Hch. cbn in Ep. apply Hn in Ep. unfold nodes in Ep. unfold sl_clean in Hc.
  change (load cfg (sl_with_cache sl c) tx p) with (load cfg sl tx p).
  destruct (sl_cache sl !! p) eqn:E; [|done]. injection Ep as ->. by apply Hc.
Qed.

(** Setting the backward pointer of a cached node. *)
Lemma core_setBackward sl xs p e prev :
  sl_core cfg tx sl xs -> cached sl p = Ret e -> ZSlEleValue_wf e -> is_u64 p -> is_u64 prev ->
  sl_core cfg tx (sl_with_cache sl (<[p := ZSlEleValue_setBackward e prev]> (sl_cache sl))) xs.
Proof.
  intros C Hc Hw Hp Hv. assert (ZSlEleValue_wf (ZSlEleValue_setBackward e prev)) as Hw'.
  { destruct Hw as (? & ? & ? & ? & ? & ? & ?). by unfold ZSlEleValue_wf; cbn; split_and!. }
  apply (core_ext sl); [done|done|..].
  - intros q. rewrite nodes_insert. destruct (decide (q = p)) as [->|].
    + rewrite (cached_nodes cfg _ tx _ _ Hc). constructor. by unfold same_links.
    + destruct (nodes cfg sl tx q); constructor. apply same_links_refl.
  - cbn. intros q e' Eq Hch. destruct (decide (q = p)) as [->|].
    + rewrite lookup_insert_eq in Eq. by injection Eq as <-.
    + rewrite lookup_insert_ne in Eq by done. by apply (co_dirty _ _ _ _ C).
Qed.

Lemma clean_setBackward sl xs p e prev :
  sl_clean sl xs -> sl_clean (sl_with_cache sl (<[p := ZSlEleValue_setBackward e prev]> (sl_cache sl))) xs.
Proof.
  intros Hc q e' Hin Eq Hch. cbn in Eq. destruct (decide (q = p)) as [->|].
  - rewrite lookup_insert_eq in Eq. by injection Eq as <-.
  - rewrite lookup_insert_ne in Eq by done. by apply Hc.
Qed.

Lemma core_good sl xs : sl_core cfg tx sl xs -> Forall (good (nodes cfg sl tx)) (head_node :: xs).
Proof.
  intros C. destruct C. constructor.
  - split; [done|]. destruct co_head0 as (e & ? & ? & _). by exists e.
  - apply Forall_forall. intros a Ha. rewrite Forall_forall in co_pos0, co_nodes0. split.
    + apply co_pos0 in Ha. unfold HEAD_ID in Ha. lia.
    + destruct (co_nodes0 a Ha) as (e & ? & ? & _). by exists e.
Qed.

Lemma core_u64 sl xs : sl_core cfg tx sl xs -> Forall (fun a => HEAD_ID <= an_pos a /\ is_u64 (an_pos a)) (head_node :: xs).
Proof.
  intros C. constructor; [done|]. eapply Forall_impl; [apply (co_pos _ _ _ _ C)|]. pose proof (co_alloc _ _ _ _ C). unfold is_u, SKIPLIST_INVALID_POS, HEAD_ID in *. cbn. lia.
Qed.

End CoreTx.

(** * Insertion *)

(** Insertion into a sorted set. *)
Fixpoint zset_add (x : member) (l : list member) : list member :=
  match l with
  | [] => [x]
  | y :: l' => if mlt y x then y :: zset_add x l' else x :: l
  end.

Lemma zset_add_split x A B :
  Forall (fun y => mlt y x = true) A -> Forall (fun y => mlt y x = false) B -> zset_add x (A ++ B) = A ++ x :: B.
Proof.
  intros HA HB. induction HA as [|y A Hy _ IH]; cbn [zset_add app]; [|by rewrite Hy, IH].
  destruct HB as [|y B Hy _]; [done|]. cbn [zset_add]. by rewrite Hy.
Qed.

Lemma mlt_trans x y z : mlt x y = true -> mlt y z = true -> mlt x z = true.
Proof.
  unfold mlt. destruct (Z.ltb_spec (dbl_key (fst x)) (dbl_key (fst y))), (Z.ltb_spec (dbl_key (fst y)) (dbl_key (fst z))),
    (Z.eqb_spec (dbl_key (fst x)) (dbl_key (fst y))), (Z.eqb_spec (dbl_key (fst y)) (dbl_key (fst z))),
    (Z.ltb_spec (dbl_key (fst x)) (dbl_key (fst z))), (Z.eqb_spec (dbl_key (fst x)) (dbl_key (fst z))); cbn; try lia; try done.
  apply bytes_lt_trans.
Qed.

Lemma zset_add_perm y l : zset_add y l ≡ₚ y :: l.
Proof.
  induction l as [|z l IH]; cbn [zset_add]; [done|]. destruct (mlt z y); [|done]. rewrite IH. apply Permutation_swap.
Qed.

Lemma zset_add_ok y l : zset_ok l -> snd y ∉ map snd l -> dbl_nan (fst y) = false -> zset_ok (zset_add y l).
Proof.
  intros (Hn & Hs & Hd) Hy Hyn. unfold zset_ok. split_and!.
  - rewrite zset_add_perm. by constructor.
  - clear Hn Hd. induction Hs as [|z l Hs IH HF]; cbn [zset_add]; [by repeat constructor|]. cbn [map] in Hy.
    apply not_elem_of_cons in Hy as [Hz Hl]. destruct (mlt z y) eqn:E.
    + constructor; [by apply IH|]. rewrite zset_add_perm. by constructor.
    + assert (mlt y z = true) as Hyz.
      { destruct (mlt y z) eqn:E'; [done|]. destruct (mlt_total _ _ E E') as [_ Ek]. congruence. }
      constructor; [by constructor|]. constructor; [done|]. eapply Forall_impl; [exact HF|]. intros w. by apply mlt_trans.
  - rewrite zset_add_perm. cbn [map]. by apply NoDup_cons.
Qed.

(** Where a new member goes. *)
Lemma zset_split xs (y : member) :
  zset_ok (members xs) -> snd y ∉ map snd (members xs) ->
  exists A B, xs = A ++ B /\ Forall (fun a => mlt (mem a) y = true) A /\ Forall (fun a => mlt y (mem a) = true) B.
Proof.
  intros (Hn & Hs & Hd) Hy. destruct (rising_split (fun x => mlt y x) xs) as (A & B & E & HA & HB).
  { eapply sorted_impl; [exact Hn| |exact Hs]. intros a b _ _ Hab Hya. by eapply mlt_trans. }
  exists A, B. split_and!; [done| |done]. rewrite Forall_forall in HA |- *. intros a Ha. specialize (HA a Ha). cbn in HA.
  destruct (mlt (mem a) y) eqn:E'; [done|]. destruct (mlt_total _ _ E' HA) as [_ Ek]. cbn in Ek. destruct Hy. rewrite <-Ek.
  apply list_elem_of_fmap. exists (mem a). split; [done|]. apply list_elem_of_fmap. exists a. split; [done|]. rewrite E. apply elem_of_app. by left.
Qed.

Section Insert.
Context {BM : BuildMode} {T : Type} `{RocksDB T}.
Variable cfg : StoreCfg.
Variable tx : RocksTxn T.

Lemma frame_in_cache D sl sl' p : frame D sl sl' -> in_cache sl p -> in_cache sl' p.
Proof. intros Hf [e He]. destruct (frame_cached D sl sl' p e Hf He) as (e' & He' & _). by exists e'. Qed.

Lemma frame_good D sl sl' a : frame D sl sl' -> good (nodes cfg sl tx) a -> good (nodes cfg sl' tx) a.
Proof.
  intros Hf [Hn (e & He & Hw)]. split; [done|]. pose proof (frame_nodes cfg tx D sl sl' (an_pos a) Hf) as Hp.
  rewrite He in Hp. inversion Hp as [? e' (Hw' & _)|]; subst. exists e'. auto.
Qed.

Lemma good_cached sl a : good (nodes cfg sl tx) a -> in_cache sl (an_pos a) ->
  exists e, cached sl (an_pos a) = Ret e /\ ZSlEleValue_wf e.
Proof.
  intros [_ (e & He & Hw)] [e' Hc]. rewrite (cached_nodes cfg _ tx _ _ Hc) in He. injection He as ->. by exists e.
Qed.

(** The two loops over the levels: the new node [x], which is cached, is linked into the levels
    up to its height and counted in those above. *)
Lemma link_loops sl A B x lev update rank :
  (forall i, 1 <= i <= lev -> level_ok (nodes cfg sl tx) i ((head_node :: A) ++ B)) ->
  Forall (good (nodes cfg sl tx)) (head_node :: A) -> good (nodes cfg sl tx) x -> in_cache sl (an_pos x) ->
  NoDup (map an_pos ((head_node :: A) ++ x :: B)) ->
  Forall (fun a => HEAD_ID <= an_pos a /\ is_u64 (an_pos a)) (x :: head_node :: A) ->
  vectors_ok (head_node :: A) sl lev update rank -> Forall (fun a => 1 <= an_height a) A ->
  1 <= an_height x <= lev -> lev <= MAX_LAYER -> zlen ((head_node :: A) ++ B) < 2 ^ 31 ->
  exists sl1 sl', for_levels (seqZ 1 (an_height x)) (link_level (an_pos x) update rank) sl = Ret sl1 /\
    sl_level sl1 = sl_level sl /\
    for_levels (seqZ (an_height x + 1) (lev - an_height x)) (skip_level update) sl1 = Ret sl' /\
    frame (fun j => 1 <= j <= lev) sl sl' /\
    forall i, 1 <= i <= lev -> level_ok (nodes cfg sl' tx) i ((head_node :: A) ++ x :: B).
Proof.
  intros Hok HL Hx Cx Hd Hpos Hv HhA Hhx Hlev Hlen. set (L := head_node :: A) in *. set (hx := an_height x) in *.
  inversion Hpos as [|? ? [_ Ux] HposL]; subst.
  assert (vec_at rank 1 = Ret (zlen L - 1)) as Hr1.
  { destruct (Hv 1) as (P & u & S0 & Hlast & _ & Er & _); [lia|]. destruct (last_of_bottom L P u S0) as [_ E]; [by constructor|done|].
    rewrite Er, E, zlen_app, zlen_cons, zlen_nil. f_equal. lia. }
  assert (forall i D sl1, 1 <= i <= lev -> frame D sl sl1 -> exists P u S eu, last_of L i P u S /\ vec_at update i = Ret (an_pos u) /\
    vec_at rank i = Ret (zlen P) /\ cached sl1 (an_pos u) = Ret eu /\ ZSlEleValue_wf eu /\ HEAD_ID <= an_pos u /\ is_u64 (an_pos u)) as Hget.
  { intros i D sl1 Hi Hf. destruct (Hv i Hi) as (P & u & S0 & Hlast & Eu & Er & Hc). pose proof (last_of_in _ _ _ _ _ Hlast) as Hin.
    rewrite Forall_forall in HL, HposL. destruct (good_cached sl1 u) as (eu & Ceu & Weu);
      [eapply frame_good; [exact Hf|by apply HL]|by eapply frame_in_cache|]. exists P, u, S0, eu. by destruct (HposL u Hin). }
  destruct (for_levels_ok cfg tx (link_level (an_pos x) update rank) (L ++ x :: B) (seqZ 1 hx) sl sl []) as (sl1 & E1 & Hf1 & Hok1);
    [by apply NoDup_seqZ| |apply frame_refl|by intros i ?%not_elem_of_nil|].
  { intros i sl1 [Hi1 Hi2]%elem_of_seqZ Hf. destruct (Hget i _ sl1 ltac:(lia) Hf) as (P & u & S0 & eu & Hlast & Eu & Er & Cu & Wu & Hu & Uu).
    destruct (good_cached sl1 x) as (ex & Cex & Wex); [by eapply frame_good|by eapply frame_in_cache|].
    apply (link_level_ok cfg tx sl1 i L B P u S0 x update rank ex eu); try done; try lia.
    eapply frame_level_ok; [exact Hf|by intros []|]. apply Hok. lia. }
  cbn [app] in Hf1, Hok1.
  destruct (for_levels_ok cfg tx (skip_level update) (L ++ x :: B) (seqZ (hx + 1) (lev - hx)) sl1 sl1 []) as (sl2 & E2 & Hf2 & Hok2);
    [by apply NoDup_seqZ| |apply frame_refl|by intros i ?%not_elem_of_nil|].
  { intros i sl2 [Hi1 Hi2]%elem_of_seqZ Hf.
    assert (frame (fun j => j <> i) sl sl2) as Hf'.
    { eapply frame_trans; [| |exact Hf1|exact Hf]; [intros j [? ?]%elem_of_seqZ; lia|by intros j []]. }
    destruct (Hget i _ sl2 ltac:(lia) Hf') as (P & u & S0 & eu & Hlast & Eu & Er & Cu & Wu & Hu & Uu).
    apply (skip_level_ok cfg tx sl2 i L B P u S0 x update eu); try done; try lia.
    eapply frame_level_ok; [exact Hf'|auto|]. apply Hok. lia. }
  cbn [app] in Hf2, Hok2. exists sl1, sl2. split_and!; [done|by destruct (frame_scalars _ _ _ Hf1) as (_ & -> & _)|done|..].
  - eapply frame_trans; [| |exact Hf1|exact Hf2]; intros j [? ?]%elem_of_seqZ; lia.
  - intros i Hi. destruct (decide (i <= hx)) as [Hle|Hgt].
    + eapply frame_level_ok; [exact Hf2|intros [? ?]%elem_of_seqZ; lia|]. apply Hok1. apply elem_of_seqZ. lia.
    + apply Hok2. apply elem_of_seqZ. lia.
Qed.

(** Adding levels to the head. *)
Lemma raise_loop sl xs lvl :
  sl_rep cfg tx sl xs -> in_cache sl HEAD_ID -> lvl <= MAX_LAYER ->
  exists sl', for_levels (seqZ (sl_level sl + 1) (lvl - sl_level sl)) new_level sl = Ret sl' /\
    frame (fun j => sl_level sl < j <= lvl) sl sl' /\
    forall i, 1 <= i <= Z.max (sl_level sl) lvl -> level_ok (nodes cfg sl' tx) i (head_node :: xs).
Proof.
  intros R Ch Hlvl. destruct (sr_head _ _ _ _ R) as (eh & Hh & Wh & Hz). pose proof (rep_len _ _ _ _ R) as Hlen. rewrite zlen_cons in Hlen.
  destruct (sr_count _ _ _ _ R) as [Ecnt _]. pose proof (sr_level _ _ _ _ R) as Hlev. destruct Ch as [eh' Ch].
  assert (eh' = eh) as -> by (pose proof (cached_nodes cfg _ tx _ _ Ch); congruence).
  destruct (for_levels_ok cfg tx new_level (head_node :: xs) (seqZ (sl_level sl + 1) (lvl - sl_level sl)) sl sl []) as (sl1 & -> & Hf1 & Hok1);
    [by apply NoDup_seqZ| |apply frame_refl|by intros i ?%not_elem_of_nil|].
  { intros i sl1 [Hi1 Hi2]%elem_of_seqZ Hf. destruct (frame_cached _ _ _ _ _ Hf Ch) as (e & Ce & (We & _ & _ & _ & _ & Hs)).
    apply (new_level_ok cfg tx sl1 i xs e); [done|by apply We| |lia| |lia|].
    - destruct (Hs i) as [-> _]; [by intros []|]. apply Hz. lia.
    - eapply Forall_impl; [apply (sr_height _ _ _ _ R)|]. unfold low. cbn. lia.
    - by destruct (frame_scalars _ _ _ Hf) as (_ & _ & -> & _). }
  cbn [app] in *. exists sl1. split_and!; [done|..].
  - eapply (frame_trans _ (fun _ => False)); [| |exact Hf1|apply frame_refl]; [intros j [? ?]%elem_of_seqZ; lia|done].
  - intros i Hi. destruct (decide (i <= sl_level sl)) as [Hle|Hgt].
    + eapply frame_level_ok; [exact Hf1|intros [? ?]%elem_of_seqZ; lia|]. apply (sr_levels _ _ _ _ R). lia.
    + apply Hok1. apply elem_of_seqZ. lia.
Qed.

(** The new node, in the cache and not linked yet. *)
Definition with_node (sl : SkipList) (lvl score : Z) (subkey : bytes) : SkipList :=
  mkSkipList (sl_maxLevel sl) (Z.max (sl_level sl) lvl) (sl_count sl) (sl_tail sl) (sl_posAlloc sl + 1) (sl_chunkId sl)
    (sl_dbId sl) (sl_pk sl) (<[sl_posAlloc sl + 1 := ZSlEleValue_new score subkey]> (sl_cache sl)).

Lemma nodes_with_node sl lvl score subkey q :
  nodes cfg (with_node sl lvl score subkey) tx q =
    if decide (q = sl_posAlloc sl + 1) then Some (ZSlEleValue_new score subkey) else nodes cfg sl tx q.
Proof.
  unfold nodes. cbn [sl_cache with_node]. destruct (decide (q = sl_posAlloc sl + 1)) as [->|].
  - by rewrite lookup_insert_eq.
  - by rewrite lookup_insert_ne.
Qed.

Lemma new_node_wf score subkey : is_u64 score -> zlen subkey <= 2 ^ 61 -> ZSlEleValue_wf (ZSlEleValue_new score subkey).
Proof.
  intros Hs Hk. unfold ZSlEleValue_wf, ZSlEleValue_new. cbn [ze_forward ze_span ze_score ze_backward ze_subKey].
  rewrite !zlen_fill by done. split_and!; try done; unfold zfill; by apply Forall_replicate.
Qed.

(** The position of a new node is not taken. *)
Lemma fresh_ne sl xs x a :
  sl_rep cfg tx sl xs -> an_pos x = sl_posAlloc sl + 1 -> a ∈ head_node :: xs -> an_pos a <> an_pos x.
Proof.
  intros R Hx Ha. pose proof (sr_alloc _ _ _ _ R). apply elem_of_cons in Ha as [->|Ha]; [cbn; lia|].
  pose proof (sr_pos _ _ _ _ R) as Hp. rewrite Forall_forall in Hp. apply Hp in Ha. lia.
Qed.

Lemma NoDup_head xs sl : sl_rep cfg tx sl xs -> NoDup (map an_pos (head_node :: xs)).
Proof.
  intros R. cbn [map]. apply NoDup_cons. split; [|apply (sr_nodup _ _ _ _ R)]. intros (a & E & Ha)%list_elem_of_fmap.
  pose proof (sr_pos _ _ _ _ R) as Hp. rewrite Forall_forall in Hp. apply Hp in Ha. cbn in E. lia.
Qed.

Lemma NoDup_insert L B x :
  NoDup (map an_pos (L ++ B)) -> (forall a, a ∈ L ++ B -> an_pos a <> an_pos x) -> NoDup (map an_pos (L ++ x :: B)).
Proof.
  intros Hd Hn. rewrite map_app in *. cbn [map]. apply NoDup_app in Hd as (D1 & D2 & D3). apply NoDup_app. split_and!; [done| |].
  - intros q Hq Hq'. apply elem_of_cons in Hq' as [->|Hq']; [|by apply (D2 q)]. apply list_elem_of_fmap in Hq as (a & E & Ha).
    apply (Hn a); [apply elem_of_app; by left|done].
  - apply NoDup_cons. split; [|done]. intros (a & E & Ha)%list_elem_of_fmap. apply (Hn a); [apply elem_of_app; by right|done].
Qed.

(** The nodes of [sl'] are those of [sl] with changes on levels, and the new node [x]. *)
Lemma with_node_core sl sl1 sl2 A B x :
  sl_rep cfg tx sl (A ++ B) -> frame (fun j => sl_level sl < j <= an_height x) sl sl1 ->
  an_pos x = sl_posAlloc sl + 1 -> sl_posAlloc sl + 1 < SKIPLIST_INVALID_POS -> is_u64 (an_score x) -> zlen (an_key x) <= 2 ^ 61 ->
  1 <= an_height x <= MAX_LAYER ->
  frame (fun j => 1 <= j <= Z.max (sl_level sl) (an_height x)) (with_node sl1 (an_height x) (an_score x) (an_key x)) sl2 ->
  (forall i, 1 <= i <= Z.max (sl_level sl) (an_height x) -> level_ok (nodes cfg sl2 tx) i ((head_node :: A) ++ x :: B)) ->
  sl_core cfg tx sl2 (A ++ x :: B) /\
  (forall q e, q <> an_pos x -> nodes cfg sl tx q = Some e -> exists e', nodes cfg sl2 tx q = Some e' /\ ze_backward e' = ze_backward e) /\
  (forall q e, q ∈ map an_pos (head_node :: A ++ B) -> sl_cache sl2 !! q = Some e -> ze_changed e = false -> load cfg sl2 tx q = Some e).
Proof.
  intros R Hf1 Hx Halloc Us Uk Hh Hf2 Hok. set (D := fun j => 1 <= j <= Z.max (sl_level sl) (an_height x)) in *.
  destruct (frame_scalars _ _ _ Hf1) as (Em & El & Ec & Et & Ea & I1 & I2 & I3).
  destruct (frame_scalars _ _ _ Hf2) as (Em2 & El2 & Ec2 & Et2 & Ea2 & J1 & J2 & J3). cbn in Em2, El2, Ec2, Et2, Ea2, J1, J2, J3.
  pose proof (sr_level _ _ _ _ R) as Hlev. pose proof (sr_alloc _ _ _ _ R) as Hal.
  assert (forall q, q <> an_pos x -> option_Forall2 (same_but D) (nodes cfg sl tx q) (nodes cfg sl2 tx q)) as HN.
  { intros q Hq. pose proof (frame_nodes cfg tx _ _ _ q Hf1) as H1. pose proof (frame_nodes cfg tx _ _ _ q Hf2) as H2.
    rewrite nodes_with_node, decide_False in H2 by congruence. inversion H1 as [e1 e2 S1 E1 E2|E1 E2]; rewrite <-E2 in H2; inversion H2 as [? e3 S2 E3|]; subst; constructor.
    eapply same_but_trans; [| |exact S1|exact S2]; unfold D; intros; lia. }
  assert (exists ex, nodes cfg sl2 tx (an_pos x) = Some ex /\ same_but D (ZSlEleValue_new (an_score x) (an_key x)) ex) as (ex & Hex & Sx).
  { pose proof (frame_nodes cfg tx _ _ _ (an_pos x) Hf2) as H2. rewrite nodes_with_node, decide_True in H2 by congruence.
    inversion H2 as [? ex Sx E3 E4|]; subst. by exists ex. }
  assert (forall a, a ∈ A ++ B -> an_pos a <> an_pos x) as Hnew by (intros a Ha; eapply fresh_ne; [exact R|done|by right]).
  split_and!.
  - constructor.
    + destruct (sr_ids _ _ _ _ R) as (? & ? & ? & ?). unfold sl_ids. by rewrite J1, J2, J3, I1, I2, I3.
    + rewrite Em2, Em. apply (sr_max _ _ _ _ R).
    + rewrite El2, El. lia.
    + rewrite Ea2, Ea. lia.
    + rewrite Ea2, Ea. pose proof (sr_pos _ _ _ _ R) as Hp. apply Forall_app in Hp as [HpA HpB]. apply Forall_app. split; [|constructor].
      * eapply Forall_impl; [exact HpA|]. cbn. lia.
      * rewrite Hx. lia.
      * eapply Forall_impl; [exact HpB|]. cbn. lia.
    + apply NoDup_insert; [apply (sr_nodup _ _ _ _ R)|done].
    + rewrite El2, El. pose proof (sr_height _ _ _ _ R) as Hp. apply Forall_app in Hp as [HpA HpB]. apply Forall_app. split; [|constructor; [lia|]];
        (eapply Forall_impl; [eassumption|]); cbn; lia.
    + destruct (sr_head _ _ _ _ R) as (eh & He & Hw & Hz). pose proof (HN HEAD_ID ltac:(rewrite Hx; unfold HEAD_ID in *; lia)) as Hn. rewrite He in Hn.
      inversion Hn as [? e' (W & _ & _ & _ & _ & S) E1 E2|]; subst. exists e'. split_and!; [done|by apply W|].
      rewrite El2, El. intros i Hi. destruct (S i) as [-> _]; [unfold D; lia|]. apply Hz. lia.
    + assert (forall a, a ∈ A ++ B -> node_is (nodes cfg sl2 tx) a) as Hold.
      { intros a Ha. pose proof (sr_nodes _ _ _ _ R) as Hn. rewrite Forall_forall in Hn. destruct (Hn a Ha) as (e & He & Hw & Hs & Hk).
        pose proof (HN (an_pos a) (Hnew a Ha)) as Hp. rewrite He in Hp. inversion Hp as [? e' (W & S & K & _) E1 E2|]; subst.
        exists e'. split_and!; [done|by apply W|congruence|congruence]. }
      apply Forall_app. split; [|constructor].
      * apply Forall_forall. intros a Ha. apply Hold. apply elem_of_app. by left.
      * destruct Sx as (W & S & K & _). exists ex. split_and!; [done| |done|done]. by apply W, new_node_wf.
      * apply Forall_forall. intros a Ha. apply Hold. apply elem_of_app. by right.
    + rewrite El2, El. intros i Hi. apply Hok. lia.
    + destruct Hf2 as (c2 & -> & _ & W2). cbn. intros p e E Hch. destruct (W2 p e E) as [E'|]; [|done]. cbn in E'.
      destruct (decide (p = sl_posAlloc sl1 + 1)) as [->|Hn]; [rewrite lookup_insert_eq in E'; by injection E' as <-|].
      rewrite lookup_insert_ne in E' by done. destruct Hf1 as (c1 & -> & _ & W1). cbn in E'. destruct (W1 p e E') as [E''|]; [|done]. by apply (sr_dirty _ _ _ _ R).
  - intros q e Hq He. pose proof (HN q Hq) as Hp. rewrite He in Hp. inversion Hp as [? e' (_ & _ & _ & Hb & _)|]; subst. by exists e'.
  - intros q e Hin E Hch. assert (q <> an_pos x) as Hq by (apply list_elem_of_fmap in Hin as (a & -> & Ha); by eapply fresh_ne).
    replace (load cfg sl2 tx q) with (load cfg sl tx q).
    2:{ unfold load, node_key. by rewrite J1, J2, J3, I1, I2, I3. }
    destruct Hf2 as (c2 & -> & S2 & _). cbn in E. specialize (S2 q). cbn in S2. rewrite E, lookup_insert_ne in S2 by (rewrite Ea; congruence).
    destruct Hf1 as (c1 & -> & S1 & _). cbn in S2. specialize (S1 q).
    inversion S2 as [e1 ? (_ & _ & _ & _ & Ch2 & _) E1 E2|]; subst. rewrite <-E1 in S1. inversion S1 as [e0 ? (_ & _ & _ & _ & Ch1 & _) E3 E4|]; subst.
    pose proof (Ch2 Hch) as <-. pose proof (Ch1 Hch) as <-. by apply (sr_clean _ _ _ _ R).
Qed.

Lemma backs_insert N N' A B x tl ex :
  backs N 0 (A ++ B) tl -> N' (an_pos x) = Some ex -> ze_backward ex = last_pos A 0 ->
  (forall a, a ∈ A -> forall e, N (an_pos a) = Some e -> exists e', N' (an_pos a) = Some e' /\ ze_backward e' = ze_backward e) ->
  match B with
  | [] => True
  | b :: B' => (exists eb, N' (an_pos b) = Some eb /\ ze_backward eb = an_pos x) /\
      forall a, a ∈ B' -> forall e, N (an_pos a) = Some e -> exists e', N' (an_pos a) = Some e' /\ ze_backward e' = ze_backward e
  end ->
  backs N' 0 (A ++ x :: B) (match B with [] => an_pos x | _ => tl end).
Proof.
  intros [HA HB]%backs_app Hx Hbx HsA HsB. apply backs_app. split.
  - eapply backs_ext; [|exact HA]. intros a e Ha. by apply HsA.
  - cbn [backs]. split; [by exists ex|]. destruct B as [|b B]; [done|]. destruct HB as [_ HB], HsB as [Hb Hs]. cbn [backs]. split; [done|].
    eapply backs_ext; [|exact HB]. intros a e Ha. by apply Hs.
Qed.

(** The last steps: the backward pointers of the new node and of the one after it, or the tail. *)
Definition insert_end (sl : SkipList) (p prev : Z) : M SkipList :=
  sl ← modify sl p (fun e => Ret (ZSlEleValue_setBackward e prev));
  node ← cached sl p;
  btmFwd ← ZSlEleValue_getForward node 1;
  sl ← (if negb (btmFwd =? 0) then
          '(sl, _) ← SkipList_getNode cfg sl tx btmFwd;
          modify sl btmFwd (fun e => Ret (ZSlEleValue_setBackward e p))
        else Ret (sl_with_tail sl p));
  Ret (sl_with_count sl (u32 (sl_count sl + 1))).

Lemma core_tail_count sl xs tl n : sl_core cfg tx sl xs -> sl_core cfg tx (sl_with_count (sl_with_tail sl tl) n) xs.
Proof.
  intros C. apply (core_ext cfg tx sl); [done|done|..].
  - intros q. change (nodes cfg (sl_with_count (sl_with_tail sl tl) n) tx q) with (nodes cfg sl tx q).
    destruct (nodes cfg sl tx q); constructor. apply same_links_refl.
  - apply (co_dirty _ _ _ _ C).
Qed.

(** The node after a cached one. *)
Lemma core_next sl A x B ex :
  sl_core cfg tx sl (A ++ x :: B) -> cached sl (an_pos x) = Ret ex -> ZSlEleValue_getForward ex 1 = Ret (next_pos B).
Proof.
  intros C Cx. pose proof (co_height _ _ _ _ C) as Hh. apply Forall_app in Hh as [_ Hh]. inversion Hh as [|? ? Hx HhB]; subst.
  assert (Forall (fun a => 1 <= an_height a) B) as HB by (eapply Forall_impl; [exact HhB|]; cbn; lia).
  pose proof (co_levels _ _ _ _ C 1) as Hok. rewrite app_comm_cons in Hok. pose proof (co_level _ _ _ _ C).
  pose proof (level_ok_at _ _ _ _ _ (Hok ltac:(lia)) ltac:(lia)) as Hs.
  rewrite (surjective_pairing (link B 1)), link_1 in Hs by done. by destruct (slot_get _ _ _ _ _ _ (cached_nodes cfg _ tx _ _ Cx) Hs).
Qed.

(** A node of the list that is cached. *)
Lemma core_cached sl A x B ex :
  sl_core cfg tx sl (A ++ x :: B) -> cached sl (an_pos x) = Ret ex -> ZSlEleValue_wf ex /\ is_u64 (an_pos x) /\ an_pos x <> 0.
Proof.
  intros C Cx. pose proof (core_good _ _ _ _ C) as Hg. pose proof (core_u64 _ _ _ _ C) as Hu. rewrite app_comm_cons in Hg, Hu.
  pose proof (Forall_mid _ _ _ _ Hu) as [_ Ux]. pose proof (Forall_mid _ _ _ _ Hg) as [Hx0 (ex' & Hex & Wex)].
  rewrite (cached_nodes cfg _ tx _ _ Cx) in Hex. by injection Hex as <-.
Qed.

Lemma core_last_u64 sl A x B : sl_core cfg tx sl (A ++ x :: B) -> is_u64 (last_pos A 0).
Proof.
  intros C. pose proof (core_u64 _ _ _ _ C) as Hu. unfold last_pos. destruct (last A) as [a|] eqn:Ea; [|done].
  apply last_Some in Ea as [A' ->]. inversion Hu as [|? ? _ Hu']; subst. rewrite <-app_assoc in Hu'. by apply Forall_mid in Hu' as [_ ?].
Qed.

(** The backward pointers of [sl] are those of [sl0], but for the new node. *)
Definition same_backs (sl0 sl : SkipList) (x : anode) : Prop :=
  forall q e, q <> an_pos x -> nodes cfg sl0 tx q = Some e -> exists e', nodes cfg sl tx q = Some e' /\ ze_backward e' = ze_backward e.

Lemma set_prev_ok sl sl0 A B x ex :
  sl_core cfg tx sl (A ++ x :: B) -> cached sl (an_pos x) = Ret ex -> same_backs sl0 sl x ->
  (forall q e, q ∈ map an_pos (head_node :: A ++ B) -> sl_cache sl !! q = Some e -> ze_changed e = false -> load cfg sl tx q = Some e) ->
  let sl1 := sl_with_cache sl (<[an_pos x := ZSlEleValue_setBackward ex (last_pos A 0)]> (sl_cache sl)) in
  sl_core cfg tx sl1 (A ++ x :: B) /\ cached sl1 (an_pos x) = Ret (ZSlEleValue_setBackward ex (last_pos A 0)) /\
  same_backs sl0 sl1 x /\ sl_clean cfg tx sl1 (A ++ x :: B).
Proof.
  intros C Cx HN Hcl sl1. destruct (core_cached _ _ _ _ _ C Cx) as (Wx & Ux & _). split_and!.
  - apply core_setBackward; try done. by eapply core_last_u64.
  - unfold sl1. by rewrite cached_insert, decide_True.
  - intros q e Hq He. unfold sl1. rewrite nodes_insert, decide_False by done. by apply HN.
  - intros q e Hin Eq Hch. unfold sl1 in Eq. cbn in Eq. destruct (decide (q = an_pos x)) as [->|]; [rewrite lookup_insert_eq in Eq; by injection Eq as <-|].
    rewrite lookup_insert_ne in Eq by done. apply Hcl; [|done|done]. rewrite app_comm_cons, map_app in Hin |- *. cbn [map] in Hin.
    apply elem_of_app in Hin as [Hin|Hin]; [apply elem_of_app; by left|]. apply elem_of_cons in Hin as [->|Hin]; [done|]. apply elem_of_app. by right.
Qed.

Lemma count_after sl (A : list anode) x B : sl_count sl = 1 + zlen (A ++ B) -> sl_count sl < INT32_MAX / 2 ->
  u32 (sl_count sl + 1) = 1 + zlen (A ++ x :: B) /\ 1 + zlen (A ++ x :: B) <= INT32_MAX / 2.
Proof.
  change (INT32_MAX / 2) with 1073741823. rewrite !zlen_app, zlen_cons. intros E Hm. pose proof (zlen_nonneg A). pose proof (zlen_nonneg B).
  rewrite wrap_id by (unfold is_u; lia). lia.
Qed.

Lemma insert_end_ok sl sl0 A B x ex :
  sl_core cfg tx sl (A ++ x :: B) -> cached sl (an_pos x) = Ret ex -> same_backs sl0 sl x ->
  (forall q e, q ∈ map an_pos (head_node :: A ++ B) -> sl_cache sl !! q = Some e -> ze_changed e = false -> load cfg sl tx q = Some e) ->
  backs (nodes cfg sl0 tx) 0 (A ++ B) (sl_tail sl) -> sl_count sl = 1 + zlen (A ++ B) -> sl_count sl < INT32_MAX / 2 ->
  exists sl', insert_end sl (an_pos x) (last_pos A 0) = Ret sl' /\ sl_rep cfg tx sl' (A ++ x :: B).
Proof.
  intros C Cx HN Hcl Hb Hcnt Hmax. destruct (set_prev_ok _ _ _ _ _ _ C Cx HN Hcl) as (C1 & Cx1 & HN1 & Hcl1).
  destruct (count_after sl A x B Hcnt Hmax) as [Ec Hm]. pose proof (co_nodup _ _ _ _ C) as Hd.
  assert (forall a, a ∈ A ++ B -> an_pos a <> an_pos x) as Hne by (intros a; by apply pos_new).
  unfold insert_end. rewrite (modify_ok _ _ _ (ZSlEleValue_setBackward ex (last_pos A 0)) _ Cx) by done. rewrite bind_Ret.
  set (ex1 := ZSlEleValue_setBackward ex (last_pos A 0)) in *. set (sl1 := sl_with_cache sl _) in *.
  rewrite Cx1, bind_Ret, (core_next _ _ _ _ _ C1 Cx1), bind_Ret. destruct B as [|b B]; cbn [next_pos].
  - rewrite Z.eqb_refl. cbn [negb]. rewrite bind_Ret. eexists. split; [done|]. cbn [sl_count sl_with_tail].
    change (sl_count sl1) with (sl_count sl). rewrite Ec. apply core_rep; [by apply core_tail_count|done|done| |exact Hcl1].
    apply (backs_insert (nodes cfg sl0 tx) (nodes cfg sl1 tx) A [] x (sl_tail sl) ex1); [done|by apply cached_nodes|done| |done].
    intros a Ha e He. apply HN1; [apply Hne; apply elem_of_app; by left|done].
  - assert (A ++ x :: b :: B = (A ++ [x]) ++ b :: B) as Eb by (by rewrite <-app_assoc).
    pose proof (core_good _ _ _ _ C1) as Hg. rewrite Eb, app_comm_cons in Hg. destruct (Forall_mid _ _ _ _ Hg) as [Hb0 (eb & Heb & Web)].
    destruct (Z.eqb_spec (an_pos b) 0); [done|]. cbn [negb].
    destruct (getNode_ok cfg sl1 tx (an_pos b) eb Heb) as (sl2 & -> & Hl2 & Cb). rewrite bind_Ret.
    rewrite (modify_ok _ _ _ (ZSlEleValue_setBackward eb (an_pos x)) _ Cb), bind_Ret by done.
    pose proof (core_loaded cfg tx _ _ _ C1 Hl2) as C2. destruct (core_cached _ _ _ _ _ C Cx) as (_ & Ux & _).
    rewrite Eb in C2. destruct (core_cached _ _ _ _ _ C2 Cb) as (_ & Ub & _). rewrite <-Eb in C2.
    eexists. split; [done|]. cbn [sl_count sl_with_cache]. assert (sl_count sl2 = sl_count sl /\ sl_tail sl2 = sl_tail sl) as [-> Et2] by (by destruct Hl2 as (c & -> & _)).
    rewrite Ec. set (sl3 := sl_with_cache sl2 _). apply core_rep; [|done|done| |].
    + apply (core_tail_count sl3 _ (sl_tail sl3)). by apply core_setBackward.
    + change (sl_tail (sl_with_count sl3 (1 + zlen (A ++ x :: b :: B)))) with (sl_tail sl2). rewrite Et2.
      assert (forall q, nodes cfg (sl_with_count sl3 (1 + zlen (A ++ x :: b :: B))) tx q =
        if decide (q = an_pos b) then Some (ZSlEleValue_setBackward eb (an_pos x)) else nodes cfg sl1 tx q) as HN3.
      { intros q. transitivity (nodes cfg sl3 tx q); [done|]. unfold sl3. rewrite nodes_insert.
        by rewrite (loaded_nodes _ _ _ _ _ Hl2). }
      assert (forall a, a ∈ A ++ B -> an_pos a <> an_pos b) as Hneb.
      { intros a Ha. apply (pos_new A b B); [|done]. rewrite map_app in Hd |- *. cbn in Hd |- *. apply NoDup_app in Hd as (D1 & D2 & D3).
        apply NoDup_cons in D3 as [_ D3]. apply NoDup_app. split_and!; [done| |done]. intros q Hq Hq'. apply (D2 q Hq). by right. }
      apply (backs_insert (nodes cfg sl0 tx) _ A (b :: B) x (sl_tail sl) ex1); [done| |done| |].
      * rewrite HN3, decide_False; [by apply cached_nodes|]. intros E. apply (Hne b); [apply elem_of_app; right; left|done].
      * intros a Ha e He. rewrite HN3, decide_False by (apply Hneb, elem_of_app; by left). apply HN1; [apply Hne, elem_of_app; by left|done].
      * split; [eexists; rewrite HN3, decide_True by done; done|]. intros a Ha e He. rewrite HN3, decide_False by (apply Hneb, elem_of_app; by right).
        apply HN1; [apply Hne, elem_of_app; right; by right|done].
    + apply (clean_setBackward cfg tx sl2). by eapply clean_loaded.
Qed.

(** The search for the place of a new member. *)
Lemma insert_search sl A B score key :
  sl_rep cfg tx sl (A ++ B) -> zset_ok (members (A ++ B)) -> dbl_nan score = false -> key ∉ map snd (members (A ++ B)) ->
  Forall (fun a => mlt (mem a) (score, key) = true) A -> Forall (fun a => mlt (score, key) (mem a) = true) B ->
  test_ok (nodes cfg sl tx) (fun _ _ e =>
    _ ← INVARIANT (negb (bool_decide (ze_subKey e = key)));
    cmp ← slCmp (ze_score e) (ze_subKey e) score key; Ret (cmp <? 0)) (head_node :: A) B.
Proof.
  intros R Hz Hn Hk HA HB. assert (forall a, a ∈ A ++ B -> negb (bool_decide (an_key a = key)) = true) as Hkey.
  { intros a Ha. rewrite bool_decide_eq_false_2; [done|]. intros <-. apply Hk. apply list_elem_of_fmap. exists (mem a). split; [done|].
    apply list_elem_of_fmap. by exists a. }
  apply (test_ok_member _ (fun e => _ ← INVARIANT (negb (bool_decide (ze_subKey e = key)));
    cmp ← slCmp (ze_score e) (ze_subKey e) score key; Ret (cmp <? 0))); [apply (sr_nodes _ _ _ _ R)|..].
  - intros a e Ha -> ->. assert (a ∈ A ++ B) as Ha' by (apply elem_of_app; by left). rewrite Hkey by done. cbn [INVARIANT]. rewrite bind_Ret.
    rewrite slCmp_spec by (done || by apply (zset_nan (A ++ B))). rewrite bind_Ret. rewrite Forall_forall in HA. by rewrite (HA a Ha).
  - intros a e Ha -> ->. assert (a ∈ A ++ B) as Ha' by (apply elem_of_app; by right). rewrite Hkey by done. cbn [INVARIANT]. rewrite bind_Ret.
    rewrite slCmp_spec by (done || by apply (zset_nan (A ++ B))). rewrite bind_Ret. rewrite Forall_forall in HB. specialize (HB a Ha). cbn in HB.
    by rewrite (mlt_antisym _ _ HB), HB.
Qed.

(** The levels of a list in which the node [x] has been put. *)
Lemma insert_levels sl A B x update rank :
  sl_rep cfg tx sl (A ++ B) -> vectors_ok (head_node :: A) sl (sl_level sl) update rank ->
  zlen update = MAX_LAYER + 1 -> zlen rank = MAX_LAYER + 1 -> in_cache sl HEAD_ID ->
  an_pos x = sl_posAlloc sl + 1 -> sl_posAlloc sl + 1 < SKIPLIST_INVALID_POS -> is_u64 (an_score x) -> zlen (an_key x) <= 2 ^ 61 ->
  1 <= an_height x <= MAX_LAYER ->
  exists update' rank' sl1 sl2 sl3 ex,
    raise_vectors (seqZ (sl_level sl + 1) (an_height x - sl_level sl)) update rank = Ret (update', rank') /\
    for_levels (seqZ (sl_level sl + 1) (an_height x - sl_level sl)) new_level sl = Ret sl1 /\
    for_levels (seqZ 1 (an_height x)) (link_level (an_pos x) update' rank') (with_node sl1 (an_height x) (an_score x) (an_key x)) = Ret sl2 /\
    for_levels (seqZ (an_height x + 1) (sl_level sl2 - an_height x)) (skip_level update') sl2 = Ret sl3 /\
    sl_core cfg tx sl3 (A ++ x :: B) /\ same_backs sl sl3 x /\ cached sl3 (an_pos x) = Ret ex /\
    vec_at update' 1 = Ret (an_pos (default head_node (last A))) /\
    sl_count sl3 = sl_count sl /\ sl_tail sl3 = sl_tail sl /\ sl_level sl1 = sl_level sl /\ sl_posAlloc sl1 = sl_posAlloc sl /\
    (forall q e, q ∈ map an_pos (head_node :: A ++ B) -> sl_cache sl3 !! q = Some e -> ze_changed e = false -> load cfg sl3 tx q = Some e).
Proof.
  intros R Hv Lu Lr Ch Hx Hal Us Uk Hh. pose proof (sr_level _ _ _ _ R) as Hlev. pose proof (sr_alloc _ _ _ _ R) as Hall.
  pose proof (rep_heights _ _ _ _ R) as Hhs. inversion Hhs as [|? ? _ Hhs']; subst. apply Forall_app in Hhs' as [HhA HhB].
  destruct (vectors_raised A sl (sl_level sl) (an_height x) update rank) as (update' & rank' & Er & Hv'); try done; try lia.
  { pose proof (sr_height _ _ _ _ R) as Hp. apply Forall_app in Hp as [HpA _]. eapply Forall_impl; [exact HpA|]. cbn. lia. }
  destruct (raise_loop sl (A ++ B) (an_height x) R Ch) as (sl1 & E1 & Hf1 & Hok1); [lia|].
  destruct (frame_scalars _ _ _ Hf1) as (_ & El1 & Ec1 & Et1 & Ea1 & _).
  set (sd := with_node sl1 (an_height x) (an_score x) (an_key x)).
  assert (forall a, a ∈ head_node :: A ++ B -> an_pos a <> an_pos x) as Hne by (intros a Ha; by eapply fresh_ne).
  assert (forall q, q <> an_pos x -> nodes cfg sd tx q = nodes cfg sl1 tx q) as HNd.
  { intros q Hq. unfold sd. rewrite nodes_with_node, decide_False; [done|congruence]. }
  assert (in_cache sd (an_pos x)) as Cx by (eexists; unfold sd, cached; cbn; by rewrite Ea1, Hx, lookup_insert_eq).
  assert (forall q, q <> an_pos x -> in_cache sl q -> in_cache sd q) as Hcd.
  { intros q Hq Hc. destruct (frame_in_cache _ _ _ _ Hf1 Hc) as [e He]. exists e. unfold sd, cached. cbn. by rewrite lookup_insert_ne by congruence. }
  destruct (link_loops sd A B x (Z.max (sl_level sl) (an_height x)) update' rank') as (sl2 & sl3 & E2 & El2 & E3 & Hf3 & Hok3); try done; try lia.
  - intros i Hi. eapply level_ok_ext; [|by apply Hok1]. intros a Ha _. unfold slot. rewrite HNd; [done|by apply Hne].
  - pose proof (rep_good _ _ _ _ R) as Hg. rewrite app_comm_cons in Hg. apply Forall_app in Hg as [Hg _]. rewrite Forall_forall in Hg |- *.
    intros a Ha. unfold good. rewrite HNd; [by eapply frame_good; [|apply Hg]|]. apply Hne. rewrite app_comm_cons. apply elem_of_app. by left.
  - split; [unfold HEAD_ID in *; lia|]. exists (ZSlEleValue_new (an_score x) (an_key x)). split; [|by apply new_node_wf].
    unfold sd. rewrite nodes_with_node, decide_True; [done|congruence].
  - apply NoDup_insert; [|done]. by eapply NoDup_head.
  - constructor; [rewrite Hx; unfold is_u, SKIPLIST_INVALID_POS, HEAD_ID in *; lia|].
    pose proof (core_u64 _ _ _ _ (rep_core _ _ _ _ R)) as Hu. rewrite app_comm_cons in Hu. by apply Forall_app in Hu as [Hu _].
  - intros i Hi. destruct (Hv' i Hi) as (P & u & S0 & Hlast & Eu & Ei & Cu). exists P, u, S0. split_and!; try done; [apply Hlast..|].
    apply Hcd; [|done]. apply Hne. rewrite app_comm_cons. apply elem_of_app. left. by eapply last_of_in.
  - rewrite <-app_comm_cons. pose proof (rep_len _ _ _ _ R). lia.
  - destruct (with_node_core sl sl1 sl3 A B x R Hf1) as (C & Hb & Hcl); try done.
    destruct Cx as [ex0 Cx]. destruct (frame_cached _ _ _ _ _ Hf3 Cx) as (ex & Cx3 & _).
    destruct (frame_scalars _ _ _ Hf3) as (_ & El3 & Ec3 & Et3 & _). cbn in El3, Ec3, Et3.
    exists update', rank', sl1, sl2, sl3, ex. fold sd. rewrite Er, E1, E2, El2. cbn [sl_level with_node sd]. rewrite El1, E3.
    split_and!; try done; try congruence.
    destruct (Hv' 1) as (P & u & S0 & Hlast & Eu & _ & _); [lia|]. rewrite Eu. f_equal.
    destruct (last_of_bottom (head_node :: A) P u S0) as [_ EA]; [by constructor|done|].
    destruct A as [|a A] using rev_ind; [by destruct P as [|? [|]]; cbn in EA; simplify_eq|].
    rewrite app_comm_cons in EA. apply app_inj_tail in EA as [_ <-]. by rewrite last_snoc.
Qed.

(** The search of a list and the two vectors it fills. *)
Lemma search_vectors sl A B test :
  sl_rep cfg tx sl (A ++ B) -> test_ok (nodes cfg sl tx) test (head_node :: A) B ->
  exists sl' s update rank eu, search cfg sl tx test never = Ret (sl', s) /\ loaded cfg tx sl sl' /\
    level_vector sl' (map fst (se_trace s)) = Ret update /\ level_vector sl' (map snd (se_trace s)) = Ret rank /\
    zlen update = MAX_LAYER + 1 /\ zlen rank = MAX_LAYER + 1 /\
    vectors_ok (head_node :: A) sl' (sl_level sl) update rank /\ se_traversed s = zlen A /\
    cached sl' (se_pos s) = Ret eu /\ ZSlEleValue_getForward eu 1 = Ret (next_pos B) /\
    (forall y B', B = y :: B' -> exists e, cached sl' (an_pos y) = Ret e /\ ze_score e = an_score y /\ ze_subKey e = an_key y) /\
    in_cache sl' HEAD_ID.
Proof.
  intros R Ht. destruct (search_next cfg tx sl A B test R Ht) as (sl' & s & eu & E & Hl & (Htr & Et & _) & Cu & Hfw & Hnext & Ch).
  pose proof (rep_loaded _ _ _ _ _ R Hl) as R'. pose proof (sr_level _ _ _ _ R) as Hlev. pose proof (sr_max _ _ _ _ R') as Hmax.
  assert (forall f : Z * Z -> Z, zlen (map f (se_trace s)) = sl_level sl) as Hlen.
  { intros f. destruct Htr as [Hn _]. unfold zlen. rewrite length_map, Hn. lia. }
  assert (zlen (se_trace s) = sl_level sl) as Hlen' by (by rewrite <-(Hlen fst); unfold zlen; rewrite length_map).
  destruct (level_vector_ok sl' (map fst (se_trace s))) as (update & Eu & Lu & Hu); [rewrite Hlen; lia|].
  destruct (level_vector_ok sl' (map snd (se_trace s))) as (rank & Er & Lr & Hr); [rewrite Hlen; lia|].
  exists sl', s, update, rank, eu. split; [done|]. split; [done|]. split; [done|]. split; [done|].
  split; [by rewrite Lu, Hmax|]. split; [by rewrite Lr, Hmax|]. split; [|done].
  rewrite <-(Z2Nat.id (sl_level sl)) by lia. eapply trace_vectors; [exact Htr|..]; intros i Hi; [apply Hu|apply Hr]; rewrite Hlen; lia.
Qed.

Lemma insert_ok sl xs score key lvl :
  sl_rep cfg tx sl xs -> zset_ok (members xs) -> key ∉ map snd (members xs) -> dbl_nan score = false -> is_u64 score ->
  zlen key <= 2 ^ 61 -> 1 <= lvl <= MAX_LAYER -> sl_count sl < INT32_MAX / 2 -> sl_posAlloc sl + 1 < SKIPLIST_INVALID_POS ->
  exists sl' xs', SkipList_insert cfg sl tx score key lvl = Ret sl' /\ sl_rep cfg tx sl' xs' /\
    members xs' = zset_add (score, key) (members xs).
Proof.
  intros R Hz Hk Hn Us Uk Hlvl Hcnt Hal. destruct (zset_split xs (score, key) Hz Hk) as (A & B & -> & HA & HB).
  unfold SkipList_insert. destruct (Z.leb_spec (INT32_MAX / 2) (sl_count sl)); [lia|].
  destruct (search_vectors sl A B _ R (insert_search sl A B score key R Hz Hn Hk HA HB))
    as (sl1 & s & update & rank & eu & -> & Hl & Eu & Er & Lu & Lr & Hv & _ & _ & _ & _ & Ch).
  rewrite bind_Ret, Eu, bind_Ret, Er, bind_Ret. pose proof (rep_loaded _ _ _ _ _ R Hl) as R1.
  assert (sl_level sl1 = sl_level sl /\ sl_posAlloc sl1 = sl_posAlloc sl /\ sl_count sl1 = sl_count sl) as (El & Ea & Ec) by (by destruct Hl as (c & -> & _)).
  set (x := mkANode (sl_posAlloc sl1 + 1) score key lvl). rewrite <-El in Hv.
  destruct (insert_levels sl1 A B x update rank R1 Hv Lu Lr Ch) as (update' & rank' & sl2 & sl3 & sl4 & ex & Erv & E2 & E3 & E4 & C & Hb & Cx & Ev1 & Ec4 & Et4 & El2 & Ea2 & Hcl);
    try done; [by rewrite Ea|]. cbn [an_height an_pos an_score an_key x] in *. rewrite Erv, bind_Ret, E2, bind_Ret.
  assert (SkipList_makeNode (if sl_level sl1 <? lvl then sl_with_level sl2 lvl else sl2) score key =
    (mkSkipList (sl_maxLevel sl2) (Z.max (sl_level sl1) lvl) (sl_count sl2) (sl_tail sl2) (sl_posAlloc sl1 + 1) (sl_chunkId sl2) (sl_dbId sl2) (sl_pk sl2) (sl_cache sl2),
     sl_posAlloc sl1 + 1, ZSlEleValue_new score key)) as ->.
  { unfold SkipList_makeNode. pose proof (sr_alloc _ _ _ _ R1). destruct (Z.ltb_spec (sl_level sl1) lvl); cbn; rewrite Ea2, (wrap_id 64) by (unfold is_u, SKIPLIST_INVALID_POS, HEAD_ID in *; lia).
    - by rewrite Z.max_r by lia.
    - by rewrite Z.max_l, El2 by lia. }
  replace (sl_with_cache _ _) with (with_node sl2 lvl score key).
  2:{ unfold with_node, sl_with_cache. cbn. by rewrite El2, Ea2. }
  rewrite E3, bind_Ret, E4, bind_Ret, Ev1, bind_Ret.
  assert ((if an_pos (default head_node (last A)) =? HEAD_ID then 0 else an_pos (default head_node (last A))) = last_pos A 0) as ->.
  { unfold last_pos. destruct (last A) as [a|] eqn:Ela; cbn; [|done]. apply last_Some in Ela as [A' ->].
    pose proof (sr_pos _ _ _ _ R1) as Hp. rewrite <-app_assoc in Hp. apply Forall_mid in Hp. destruct (Z.eqb_spec (an_pos a) HEAD_ID); [lia|done]. }
  destruct (sr_count _ _ _ _ R1) as [Ecn _].
  destruct (insert_end_ok sl4 sl1 A B x ex C Cx Hb Hcl) as (sl5 & E5 & R5); [rewrite Et4; apply (sr_back _ _ _ _ R1)|congruence|lia|].
  unfold insert_end in E5. cbn [an_pos x] in E5. exists sl5, (A ++ x :: B). split; [exact E5|]. split; [done|].
  rewrite !members_app. cbn [members map]. rewrite zset_add_split; [done|..].
  - apply Forall_map. exact HA.
  - apply Forall_map. eapply Forall_impl; [exact HB|]. intros b Hb'. by apply mlt_antisym.
Qed.

(** A set that is too large takes no more. *)
Lemma insert_full sl score key lvl :
  INT32_MAX / 2 <= sl_count sl -> SkipList_insert cfg sl tx score key lvl = Throw ERR_INTERNAL (lit "zset count reach limit").
Proof. intros Hc. unfold SkipList_insert. by destruct (Z.leb_spec (INT32_MAX / 2) (sl_count sl)); [|lia]. Qed.


End Insert.
