(* ===== verification/SkipListKeep.v ===== *)
(** What the operations of a skip list never touch: whose list it is, its maximal level and, except
    for [insert], the allocator of positions. *)

From Stdlib Require Import Strings.Byte ZArith Lia.
From stdpp Require Import base list numbers strings gmap.
From S2P Require Import Prelude Status Varint Record RecordValue RecordMeta Txn SkipList.

Local Open Scope Z_scope.

(** What holds of the result of a run that returns. *)
Definition ensures {A} (m : M A) (P : A -> Prop) : Prop := forall a, m = Ret a -> P a.

Lemma ensures_Ret {A} (a : A) P : P a -> ensures (Ret a) P.
Proof. by intros Ha b [= <-]. Qed.

Lemma ensures_Throw {A} c msg (P : A -> Prop) : ensures (Throw c msg) P.
Proof. by intros a. Qed.

Lemma ensures_Crash {A} c (P : A -> Prop) : ensures (Crash c) P.
Proof. by intros a. Qed.

Lemma ensures_bind {A B} (m : M A) (f : A -> M B) Q P :
  ensures m Q -> (forall a, Q a -> ensures (f a) P) -> ensures (m ≫= f) P.
Proof. intros Hm Hf b (a & E & Eb)%bind_Ret_inv. by apply (Hf a); [apply Hm|]. Qed.

Lemma ensures_skip {A B} (m : M A) (f : A -> M B) P : (forall a, ensures (f a) P) -> ensures (m ≫= f) P.
Proof. intros Hf b (a & E & Eb)%bind_Ret_inv. by apply (Hf a). Qed.

Lemma ensures_if {A} (b : bool) (m1 m2 : M A) P : ensures m1 P -> ensures m2 P -> ensures (if b then m1 else m2) P.
Proof. by destruct b. Qed.

Create HintDb keep discriminated.
#[export] Hint Constants Opaque : keep.
#[export] Hint Resolve ensures_Ret ensures_Throw ensures_Crash : keep.

(** Steps that say what they keep, then the steps that do not matter. *)
Ltac split_pairs := repeat match goal with a : _ * _ |- _ => destruct a end; cbn [fst snd] in *.
Ltac keep1 :=
  match goal with
  | |- ensures (let _ := _ in _) _ => cbn zeta
  | |- ensures (if _ then _ else _) _ => apply ensures_if
  | |- ensures (_ ≫= _) _ =>
      first [eapply ensures_bind; [solve [eauto 4 with keep]|intros; split_pairs] | apply ensures_skip; intros; split_pairs]
  | |- _ => solve [eauto 4 with keep]
  end.
(** A step of several, whose result is a list that is kept. *)
Ltac keep_block Q := eapply (ensures_bind _ _ Q); [|intros; split_pairs].

Ltac keep := repeat keep1.

(** The same list, with the same allocator. *)
Definition kept (sl sl' : SkipList) : Prop :=
  sl_maxLevel sl' = sl_maxLevel sl /\ sl_posAlloc sl' = sl_posAlloc sl /\
  sl_chunkId sl' = sl_chunkId sl /\ sl_dbId sl' = sl_dbId sl /\ sl_pk sl' = sl_pk sl.

#[export] Instance kept_preorder : PreOrder kept.
Proof. split; [by intros sl|]. intros a b c (? & ? & ? & ? & ?) (? & ? & ? & ? & ?). unfold kept. split_and!; congruence. Qed.

Lemma kept_refl sl : kept sl sl.
Proof. done. Qed.

Lemma kept_cache a sl c : kept a sl -> kept a (sl_with_cache sl c).
Proof. done. Qed.

Lemma kept_level a sl l : kept a sl -> kept a (sl_with_level sl l).
Proof. done. Qed.

Lemma kept_count a sl l : kept a sl -> kept a (sl_with_count sl l).
Proof. done. Qed.

Lemma kept_tail a sl l : kept a sl -> kept a (sl_with_tail sl l).
Proof. done. Qed.

#[export] Hint Resolve kept_refl kept_cache kept_level kept_count kept_tail : keep.

Section Keep.
Context {BM : BuildMode} {T : Type} `{RocksDB T}.
Variable cfg : StoreCfg.
Variable sl0 : SkipList.

Lemma modify_kept sl p f : kept sl0 sl -> ensures (modify sl p f) (kept sl0).
Proof. intros Hk. unfold modify. keep. Qed.
Hint Resolve modify_kept : keep.

Lemma getNode_kept sl (tx : RocksTxn T) p : kept sl0 sl -> ensures (SkipList_getNode cfg sl tx p) (fun r => kept sl0 (fst r)).
Proof. intros Hk. unfold SkipList_getNode. destruct (sl_cache sl !! p); keep. Qed.
Hint Resolve getNode_kept : keep.

Lemma walk_kept (tx : RocksTxn T) test i fuel : forall sl pos tmp t,
  kept sl0 sl -> ensures (walk cfg fuel sl tx test i pos tmp t) (fun r => kept sl0 (fst (fst r))).
Proof. induction fuel as [|fuel IH]; intros sl pos tmp t Hk; cbn [walk]; keep. Qed.
Hint Resolve walk_kept : keep.

Lemma descend_kept (tx : RocksTxn T) test stop n : forall sl pos t tr,
  kept sl0 sl -> ensures (descend cfg n sl tx test stop pos t tr) (fun r => kept sl0 (fst r)).
Proof. induction n as [|n IH]; intros sl pos t tr Hk; cbn [descend]; keep. Qed.
Hint Resolve descend_kept : keep.

Lemma search_kept sl (tx : RocksTxn T) test stop : kept sl0 sl -> ensures (search cfg sl tx test stop) (fun r => kept sl0 (fst r)).
Proof. intros Hk. unfold search. keep. Qed.
Hint Resolve search_kept : keep.

Lemma for_levels_kept levels body : forall sl,
  (forall i sl, kept sl0 sl -> ensures (body i sl) (kept sl0)) -> kept sl0 sl -> ensures (for_levels levels body sl) (kept sl0).
Proof. induction levels as [|i levels IH]; intros sl Hb Hk; cbn [for_levels]; keep. Qed.

Lemma remove_level_kept pos update i sl : kept sl0 sl -> ensures (remove_level pos update i sl) (kept sl0).
Proof. intros Hk. unfold remove_level. keep. Qed.

Lemma new_level_kept i sl : kept sl0 sl -> ensures (new_level i sl) (kept sl0).
Proof. intros Hk. unfold new_level. keep. Qed.

Lemma link_level_kept p update rank i sl : kept sl0 sl -> ensures (link_level p update rank i sl) (kept sl0).
Proof. intros Hk. unfold link_level. keep. Qed.

Lemma skip_level_kept update i sl : kept sl0 sl -> ensures (skip_level update i sl) (kept sl0).
Proof. intros Hk. unfold skip_level. keep. Qed.
Hint Resolve for_levels_kept remove_level_kept new_level_kept link_level_kept skip_level_kept : keep.

Lemma delNode_kept sl (tx : RocksTxn T) p now : kept sl0 sl -> ensures (SkipList_delNode cfg sl tx p now) (fun r => kept sl0 (fst r)).
Proof. intros Hk. unfold SkipList_delNode. keep. Qed.
Hint Resolve delNode_kept : keep.

Lemma removeInternal_kept sl (tx : RocksTxn T) p update now :
  kept sl0 sl -> ensures (SkipList_removeInternal cfg sl tx p update now) (fun r => kept sl0 (fst r)).
Proof.
  intros Hk. unfold SkipList_removeInternal. do 3 keep1. keep_block (kept sl0); keep.
Qed.
Hint Resolve removeInternal_kept : keep.

Lemma remove_kept sl (tx : RocksTxn T) score key now :
  kept sl0 sl -> ensures (SkipList_remove cfg sl tx score key now) (fun r => kept sl0 (fst r)).
Proof. intros Hk. unfold SkipList_remove. keep. Qed.

Lemma remove_while_kept cond update now fuel : forall sl (tx : RocksTxn T) pos t res,
  kept sl0 sl -> ensures (remove_while cfg fuel sl tx cond update pos t res now) (fun r => kept sl0 (fst (fst r))).
Proof.
  induction fuel as [|fuel IH]; intros sl tx pos t res Hk; cbn [remove_while]; do 5 (try keep1).
  keep_block (kept sl0); keep.
Qed.
Hint Resolve remove_while_kept : keep.

Lemma remove_range_kept sl (tx : RocksTxn T) test cond now :
  kept sl0 sl -> ensures (remove_range cfg sl tx test cond now) (fun r => kept sl0 (fst (fst r))).
Proof. intros Hk. unfold remove_range. keep. Qed.

Lemma makeNode_kept sl score key sl' p e :
  SkipList_makeNode sl score key = (sl', p, e) -> kept sl0 sl ->
  kept (mkSkipList (sl_maxLevel sl0) (sl_level sl0) (sl_count sl0) (sl_tail sl0) (u64 (sl_posAlloc sl0 + 1)) (sl_chunkId sl0)
    (sl_dbId sl0) (sl_pk sl0) (sl_cache sl0)) sl'.
Proof. intros [= <- <- <-] (? & E & ? & ? & ?). unfold kept. cbn. by rewrite E. Qed.

Lemma saveNode_kept sl (tx : RocksTxn T) p e now : kept sl0 sl -> ensures (SkipList_saveNode cfg sl tx p e now) (fun r => kept sl0 (fst r)).
Proof. intros Hk. unfold SkipList_saveNode. cbn zeta. destruct (sl_cache sl !! p); keep. Qed.
Hint Resolve saveNode_kept : keep.

Lemma save_nodes_kept ps now : forall sl (tx : RocksTxn T),
  kept sl0 sl -> ensures (save_nodes cfg ps sl tx now) (fun r => kept sl0 (fst r)).
Proof.
  induction ps as [|p ps IH]; intros sl tx Hk; cbn [save_nodes]; try keep1.
  keep_block (fun r : SkipList * RocksTxn T => kept sl0 (fst r)); keep.
Qed.

End Keep.

(** [insert] takes one position. *)
Lemma insert_kept {BM : BuildMode} {T : Type} `{RocksDB T} cfg sl (tx : RocksTxn T) score key lvl :
  ensures (SkipList_insert cfg sl tx score key lvl) (fun sl' =>
    sl_maxLevel sl' = sl_maxLevel sl /\ sl_posAlloc sl' = u64 (sl_posAlloc sl + 1) /\
    sl_chunkId sl' = sl_chunkId sl /\ sl_dbId sl' = sl_dbId sl /\ sl_pk sl' = sl_pk sl).
Proof.
  unfold SkipList_insert. keep1; [keep|]. eapply ensures_bind; [by apply (search_kept cfg sl)|]. intros [sl1 s] K1. cbn [fst] in K1.
  do 2 keep1. cbn zeta. keep1. eapply ensures_bind; [apply (for_levels_kept sl); [intros; by apply new_level_kept|done]|]. intros sl2 K2. cbn beta.
  assert (kept sl (if sl_level sl1 <? lvl then sl_with_level sl2 lvl else sl2)) as K2' by (by destruct (_ <? _)).
  destruct (SkipList_makeNode _ score key) as [[sl3 p] e] eqn:Em. pose proof (makeNode_kept _ _ _ _ _ _ _ Em K2') as K3. cbn zeta.
  match type of K3 with kept ?a _ => set (sl' := a) in *; change (ensures ?m _) with (ensures m (kept sl')) end.
  eapply ensures_bind; [apply (for_levels_kept sl'); [intros; by apply link_level_kept|by apply kept_cache]|]. intros sl4 K4. cbn beta.
  eapply ensures_bind; [apply (for_levels_kept sl'); [intros; by apply skip_level_kept|done]|]. intros sl5 K5. cbn beta.
  keep1. eapply ensures_bind; [by apply (modify_kept sl')|]. intros sl6 K6. cbn beta. do 2 keep1.
  keep_block (kept sl'); [apply ensures_if|]; [|keep..]. eapply ensures_bind; [by apply (getNode_kept cfg sl')|].
  intros [sl7 e7] K7. cbn [fst] in K7. by apply modify_kept.
Qed.
