(* ===== verification/SkipListRemove.v ===== *)
(** Removing from a skip list (storage/skiplist.cpp): a node, and the ranges of ranks, scores and
    members; the node is deleted from the store too. *)

From Stdlib Require Import Strings.Byte ZArith Lia.
From stdpp Require Import base list numbers strings gmap sorting.
From S2P Require Import Prelude Status Varint Record RecordValue RecordMeta ReplLog BinlogSeq Txn Store SkipList SkipListRep.
From S2P Require Import SkipListRead SkipListWrite SkipListKeep.

Local Open Scope Z_scope.

(** * The loop over the levels *)

Section Levels.
Context {BM : BuildMode} {T : Type} `{RocksDB T}.
Variable cfg : StoreCfg.
Variable tx : RocksTxn T.

(** A round changes the node of [update] only. *)
Lemma remove_level_keep p update i sl sl' u q :
  remove_level p update i sl = Ret sl' -> vec_at update i = Ret u -> q <> u -> cached sl' q = cached sl q.
Proof.
  intros E Eu Hq. unfold remove_level in E. rewrite Eu, bind_Ret in E.
  apply bind_Ret_inv in E as (e & Ce & E). apply bind_Ret_inv in E as (f & _ & E). apply bind_Ret_inv in E as (s & _ & E).
  destruct (negb (f =? p)).
  - unfold modify in E. rewrite Ce, bind_Ret in E. apply bind_Ret_inv in E as (e' & _ & E). apply (inj Ret) in E as <-. rewrite cached_insert. by destruct (decide (q = u)).
  - apply bind_Ret_inv in E as (? & _ & E). apply bind_Ret_inv in E as (nd & _ & E). apply bind_Ret_inv in E as (s' & _ & E).
    apply bind_Ret_inv in E as (sl1 & E1 & E). unfold modify in E1. rewrite Ce, bind_Ret in E1. apply bind_Ret_inv in E1 as (e' & _ & E1). apply (inj Ret) in E1 as <-.
    apply bind_Ret_inv in E as (nd' & _ & E). apply bind_Ret_inv in E as (f' & _ & E). unfold modify in E.
    apply bind_Ret_inv in E as (e2 & _ & E). apply bind_Ret_inv in E as (e3 & _ & E). apply (inj Ret) in E as <-.
    rewrite !cached_insert. by destruct (decide (q = u)).
Qed.

Lemma for_levels_keep body q levels : forall sl sl',
  (forall i s s', i ∈ levels -> body i s = Ret s' -> cached s' q = cached s q) ->
  for_levels levels body sl = Ret sl' -> cached sl' q = cached sl q.
Proof.
  induction levels as [|i levels IH]; intros sl sl' Hb E; cbn in E; [by apply (inj Ret) in E as <-|].
  apply bind_Ret_inv in E as (sl1 & E1 & E). rewrite (IH sl1 sl'); [|intros j s s' Hj; apply Hb; by right|done].
  apply (Hb i); [left|done].
Qed.

(** What [removeInternal] needs of [update]: the last node of [L] on each level, cached. *)
Definition update_ok (L : list anode) (sl : SkipList) (n : Z) (update : list Z) : Prop :=
  forall i, 1 <= i <= n -> exists P u S, last_of L i P u S /\ vec_at update i = Ret (an_pos u) /\ in_cache sl (an_pos u).

Lemma NoDup_remove L x B : NoDup (map an_pos (L ++ x :: B)) -> NoDup (map an_pos (L ++ B)).
Proof.
  rewrite !map_app. cbn [map]. intros (D1 & D2 & D3)%NoDup_app. apply NoDup_cons in D3 as [_ D3].
  apply NoDup_app. split_and!; [done| |done]. intros q Hq Hq'. apply (D2 q Hq). by right.
Qed.

Lemma unlink_loop sl A x B update :
  sl_rep cfg tx sl (A ++ x :: B) -> in_cache sl (an_pos x) -> update_ok (head_node :: A) sl (sl_level sl) update ->
  exists sl', for_levels (seqZ 1 (sl_level sl)) (remove_level (an_pos x) update) sl = Ret sl' /\
    frame (fun j => 1 <= j <= sl_level sl) sl sl' /\ cached sl' (an_pos x) = cached sl (an_pos x) /\
    forall i, 1 <= i <= sl_level sl -> level_ok (nodes cfg sl' tx) i ((head_node :: A) ++ B).
Proof.
  intros R [ex Cx] Hu. set (L := head_node :: A) in *. pose proof (rep_core _ _ _ _ R) as C. pose proof (sr_level _ _ _ _ R) as Hlev.
  destruct (core_cached _ _ _ _ _ _ _ C Cx) as (Wx & Ux & Hx0).
  assert (NoDup (map an_pos (L ++ x :: B))) as Hd by (unfold L; rewrite <-app_comm_cons; by eapply NoDup_head).
  pose proof (core_good _ _ _ _ C) as Hg. rewrite app_comm_cons in Hg. apply Forall_app in Hg as [HgL _]. rewrite Forall_forall in HgL.
  pose proof (core_u64 _ _ _ _ C) as Hp. rewrite app_comm_cons in Hp. apply Forall_app in Hp as [HpL _]. rewrite Forall_forall in HpL.
  destruct (for_levels_ok cfg tx (remove_level (an_pos x) update) (L ++ B) (seqZ 1 (sl_level sl)) sl sl []) as (sl1 & E1 & Hf1 & Hok1);
    [by apply NoDup_seqZ| |apply frame_refl|by intros i ?%not_elem_of_nil|].
  { intros i sl1 [Hi1 Hi2]%elem_of_seqZ Hf. destruct (Hu i ltac:(lia)) as (P & u & S0 & Hlast & Eu & Cu). pose proof (last_of_in _ _ _ _ _ Hlast) as Hin.
    destruct (good_cached cfg tx sl1 u) as (eu & Ceu & Weu); [eapply frame_good; [exact Hf|by apply HgL]|by eapply frame_in_cache|].
    destruct (frame_cached _ _ _ _ _ Hf Cx) as (ex' & Cx' & (Wx' & _)). destruct (HpL u Hin) as [Hu1 Hu2].
    apply (remove_level_ok cfg tx sl1 i L B P u S0 x update ex' eu); try done; try lia; [|unfold L; rewrite <-app_comm_cons; pose proof (rep_len _ _ _ _ R); lia|by apply Wx'].
    eapply frame_level_ok; [exact Hf|by intros []|]. apply (sr_levels _ _ _ _ R). lia. }
  cbn [app] in *. exists sl1. split_and!; [done| |..].
  - eapply (frame_trans _ (fun _ => False)); [| |exact Hf1|apply frame_refl]; [intros j [? ?]%elem_of_seqZ; lia|done].
  - eapply for_levels_keep; [|exact E1]. intros i s s' [Hi1 Hi2]%elem_of_seqZ E. destruct (Hu i ltac:(lia)) as (P & u & S0 & Hlast & Eu & Cu).
    eapply remove_level_keep; [exact E|exact Eu|]. eapply pos_after; [exact Hd|by eapply last_of_in|left].
  - intros i Hi. apply Hok1. apply elem_of_seqZ. lia.
Qed.

(** ** The level *)

(** The level is lowered to one that still has every node. *)
Lemma lower_level_ok sl eh n :
  cached sl HEAD_ID = Ret eh -> ZSlEleValue_wf eh -> (0 < n)%nat -> Z.of_nat n <= MAX_LAYER ->
  exists m, lower_level n sl = Ret m /\ 1 <= m <= Z.of_nat n /\ forall i, m < i <= Z.of_nat n -> znth (ze_forward eh) i = Some 0.
Proof.
  intros Ch Wh. induction n as [|n IH]; [lia|]. intros _ Hn. cbn [lower_level]. destruct (Z.ltb_spec 1 (Z.of_nat (S n))).
  2:{ exists (Z.of_nat (S n)). split_and!; [done|lia|lia|lia]. }
  rewrite Ch, bind_Ret. destruct (wf_slot eh (Z.of_nat (S n)) Wh) as (f & s & -> & _ & Ef & _); [lia|]. rewrite bind_Ret.
  destruct (Z.eqb_spec f 0) as [->|].
  - destruct IH as (m & -> & Hm & Hz); [lia|lia|]. exists m. split_and!; [done|lia|lia|]. intros i Hi.
    destruct (decide (i = Z.of_nat (S n))) as [->|]; [done|]. apply Hz. lia.
  - exists (Z.of_nat (S n)). split_and!; [done|lia|lia|lia].
Qed.

(** A level on which the head has no successor has no node. *)
Lemma link_zero l i : Forall (fun a => an_pos a <> 0) l -> fst (link l i) = 0 -> Forall (low i) l.
Proof.
  intros Hl E. destruct (first_on_level l i) as [?|(l1 & a & l2 & -> & H1 & Ha)]; [done|]. rewrite link_here in E by done. cbn in E.
  by apply Forall_mid in Hl.
Qed.

(** ** The structure after each step *)

(** The backward pointers and the unchanged nodes survive changes of levels. *)
Lemma frame_backs D sl sl' q e :
  frame D sl sl' -> nodes cfg sl tx q = Some e -> exists e', nodes cfg sl' tx q = Some e' /\ ze_backward e' = ze_backward e.
Proof.
  intros Hf He. pose proof (frame_nodes cfg tx _ _ _ q Hf) as Hp. rewrite He in Hp. inversion Hp as [? e' (_ & _ & _ & Hb & _)|]; subst. by exists e'.
Qed.

Lemma frame_clean D sl sl' xs : frame D sl sl' -> sl_clean cfg tx sl xs -> sl_clean cfg tx sl' xs.
Proof.
  intros (c & -> & Hs & _) Hc q e Hin E Hch. cbn in E. specialize (Hs q). rewrite E in Hs. inversion Hs as [e0 ? (_ & _ & _ & _ & Ch & _) E0|]; subst.
  pose proof (Ch Hch) as ->. by apply Hc.
Qed.

Lemma clean_sub sl xs ys : (forall a, a ∈ ys -> a ∈ xs) -> sl_clean cfg tx sl xs -> sl_clean cfg tx sl ys.
Proof.
  intros Hs Hc q e Hin. apply Hc. cbn [map] in *. apply elem_of_cons in Hin as [->|Hin]; [left|]. right.
  apply list_elem_of_fmap in Hin as (a & -> & Ha). apply list_elem_of_fmap_2. by apply Hs.
Qed.

(** Fewer nodes, whose levels have been put right. *)
Lemma core_unlinked sl sl' xs ys :
  sl_core cfg tx sl xs -> frame (fun j => 1 <= j <= sl_level sl) sl sl' -> (forall a, a ∈ ys -> a ∈ xs) -> NoDup (map an_pos ys) ->
  (forall i, 1 <= i <= sl_level sl -> level_ok (nodes cfg sl' tx) i (head_node :: ys)) -> sl_core cfg tx sl' ys.
Proof.
  intros C Hf Hs Hd Hok. destruct (frame_scalars _ _ _ Hf) as (Em & El & Ec & Et & Ea & I1 & I2 & I3).
  assert (forall Q : anode -> Prop, Forall Q xs -> Forall Q ys) as Hsub.
  { intros Q HQ. rewrite Forall_forall in HQ |- *. auto. }
  assert (forall q e, nodes cfg sl tx q = Some e -> exists e', nodes cfg sl' tx q = Some e' /\ same_but (fun j => 1 <= j <= sl_level sl) e e') as HN.
  { intros q e He. pose proof (frame_nodes cfg tx _ _ _ q Hf) as Hp. rewrite He in Hp. inversion Hp as [? e' S|]; subst. by exists e'. }
  pose proof (co_level _ _ _ _ C). constructor; rewrite ?Em, ?El, ?Ea; try apply C; try done.
  - unfold sl_ids. rewrite I1, I2, I3. apply C.
  - apply Hsub, C.
  - apply Hsub, C.
  - destruct (co_head _ _ _ _ C) as (e & He & Hw & Hz). destruct (HN _ _ He) as (e' & He' & (W & _ & _ & _ & _ & S)). exists e'.
    split_and!; [done|by apply W|]. intros i Hi. destruct (S i) as [-> _]; [lia|]. apply Hz. lia.
  - apply Hsub. eapply Forall_impl; [apply (co_nodes _ _ _ _ C)|]. intros a (e & He & Hw & Hs' & Hk).
    destruct (HN _ _ He) as (e' & He' & (W & S & K & _)). exists e'. split_and!; [done|by apply W|congruence|congruence].
  - destruct Hf as (c & -> & _ & Hw). cbn. intros q e E Hch. destruct (Hw q e E) as [E'|]; [|done]. by apply (co_dirty _ _ _ _ C).
Qed.

Lemma core_lower sl ys eh m :
  sl_core cfg tx sl ys -> nodes cfg sl tx HEAD_ID = Some eh -> 1 <= m <= sl_level sl ->
  (forall i, m < i <= sl_level sl -> znth (ze_forward eh) i = Some 0) -> sl_core cfg tx (sl_with_level sl m) ys.
Proof.
  intros C Hh Hm Hz. pose proof (co_level _ _ _ _ C) as Hlev. pose proof (core_good _ _ _ _ C) as Hg.
  assert (Forall (fun a => an_pos a <> 0) ys) as Hn by (inversion Hg; subst; eapply Forall_impl; [eassumption|]; by intros a []).
  assert (forall i, m < i <= sl_level sl -> Forall (low i) ys) as Hlow.
  { intros i Hi. apply link_zero; [done|]. destruct (co_levels _ _ _ _ C i) as [Hs _]; [lia|]. specialize (Hs ltac:(cbn; lia)).
    unfold slot in Hs. cbn in Hs. rewrite Hh in Hs. cbn in Hs. rewrite Hz in Hs by lia. cbn in Hs. destruct (znth (ze_span eh) i); [|done]. cbn in Hs.
    injection Hs as Hs. by rewrite <-Hs. }
  constructor; cbn [sl_level sl_with_level sl_maxLevel sl_posAlloc]; try apply C; try done; try lia.
  - pose proof (co_height _ _ _ _ C) as Hh'. rewrite Forall_forall in Hh' |- *. intros a Ha. specialize (Hh' a Ha). split; [lia|].
    destruct (decide (an_height a <= m)); [done|]. specialize (Hlow (an_height a) ltac:(lia)). rewrite Forall_forall in Hlow.
    specialize (Hlow a Ha). unfold low in Hlow. lia.
  - destruct (co_head _ _ _ _ C) as (e & He & Hw & Hz'). rewrite Hh in He. injection He as <-. exists eh. split_and!; [done|done|].
    intros i Hi. destruct (decide (i <= sl_level sl)); [apply Hz; lia|apply Hz'; lia].
  - intros i Hi. apply (co_levels _ _ _ _ C). lia.
Qed.

(** ** Backward pointers *)

Lemma backs_remove N N' A B x tl :
  backs N 0 (A ++ x :: B) tl ->
  (forall a, a ∈ A -> forall e, N (an_pos a) = Some e -> exists e', N' (an_pos a) = Some e' /\ ze_backward e' = ze_backward e) ->
  match B with
  | [] => True
  | b :: B' => (exists eb, N' (an_pos b) = Some eb /\ ze_backward eb = last_pos A 0) /\
      forall a, a ∈ B' -> forall e, N (an_pos a) = Some e -> exists e', N' (an_pos a) = Some e' /\ ze_backward e' = ze_backward e
  end ->
  backs N' 0 (A ++ B) (match B with [] => last_pos A 0 | _ => tl end).
Proof.
  intros [HA HB]%backs_app HsA HsB. apply backs_app. split.
  - eapply backs_ext; [|exact HA]. intros a e Ha. by apply HsA.
  - destruct HB as [_ HB]. destruct B as [|b B]; [done|]. destruct HB as [_ HB], HsB as [Hb Hs]. cbn [backs]. split; [done|].
    eapply backs_ext; [|exact HB]. intros a e Ha. by apply Hs.
Qed.

(** The part of [removeInternal] that sets them. *)
Definition remove_back (sl : SkipList) (pos btmFwd back : Z) : M SkipList :=
  if negb (btmFwd =? 0) then
    '(sl, _) ← SkipList_getNode cfg sl tx btmFwd;
    node ← cached sl pos;
    modify sl btmFwd (fun e => Ret (ZSlEleValue_setBackward e (ze_backward node)))
  else Ret (sl_with_tail sl back).

Definition keeps (sl sl' : SkipList) : Prop :=
  sl_count sl' = sl_count sl /\ sl_level sl' = sl_level sl /\ sl_chunkId sl' = sl_chunkId sl /\ sl_dbId sl' = sl_dbId sl /\
  sl_pk sl' = sl_pk sl /\ forall q, in_cache sl q -> in_cache sl' q.

Lemma remove_back_ok sl0 sl A B x ex :
  sl_core cfg tx sl (A ++ B) -> cached sl (an_pos x) = Ret ex -> ze_backward ex = last_pos A 0 -> is_u64 (last_pos A 0) ->
  (forall q e, nodes cfg sl0 tx q = Some e -> exists e', nodes cfg sl tx q = Some e' /\ ze_backward e' = ze_backward e) ->
  sl_clean cfg tx sl (A ++ B) -> backs (nodes cfg sl0 tx) 0 (A ++ x :: B) (sl_tail sl) ->
  exists sl', remove_back sl (an_pos x) (next_pos B) (ze_backward ex) = Ret sl' /\ sl_core cfg tx sl' (A ++ B) /\
    sl_clean cfg tx sl' (A ++ B) /\ backs (nodes cfg sl' tx) 0 (A ++ B) (sl_tail sl') /\ keeps sl sl'.
Proof.
  intros C Cx Hbx Ul HN Hcl Hb. unfold remove_back. destruct B as [|b B]; cbn [next_pos].
  - rewrite Z.eqb_refl. cbn [negb]. rewrite Hbx. exists (sl_with_tail sl (last_pos A 0)). split; [done|]. split; [|split; [exact Hcl|split; [|done]]].
    + by apply (core_tail_count cfg tx sl _ (last_pos A 0) (sl_count sl)).
    + apply (backs_remove (nodes cfg sl0 tx) (nodes cfg sl tx) A [] x (sl_tail sl)); [done| |done]. intros a _. apply HN.
  - pose proof (core_good _ _ _ _ C) as Hg. rewrite app_comm_cons in Hg. destruct (Forall_mid _ _ _ _ Hg) as [Hb0 (eb & Heb & Web)].
    destruct (Z.eqb_spec (an_pos b) 0); [done|]. cbn [negb].
    destruct (getNode_ok cfg sl tx (an_pos b) eb Heb) as (sl2 & -> & Hl2 & Cb). rewrite bind_Ret, (loaded_cached _ _ _ _ _ _ Hl2 Cx), bind_Ret, Hbx.
    rewrite (modify_ok _ _ _ (ZSlEleValue_setBackward eb (last_pos A 0)) _ Cb) by done.
    pose proof (core_loaded cfg tx _ _ _ C Hl2) as C2. destruct (core_cached _ _ _ _ _ _ _ C2 Cb) as (_ & Ub & _).
    set (sl3 := sl_with_cache sl2 _). exists sl3. split; [done|]. split; [by apply core_setBackward|]. split; [by apply clean_setBackward; eapply clean_loaded|].
    assert (forall q, nodes cfg sl3 tx q = if decide (q = an_pos b) then Some (ZSlEleValue_setBackward eb (last_pos A 0)) else nodes cfg sl tx q) as HN3.
    { intros q. unfold sl3. rewrite nodes_insert. by rewrite (loaded_nodes _ _ _ _ _ Hl2). }
    assert (sl_tail sl3 = sl_tail sl /\ keeps sl sl3) as [Et Hk].
    { assert (forall q, in_cache sl q -> in_cache sl3 q) as Hc.
      { intros q Hq. destruct (loaded_in_cache _ _ _ _ _ Hl2 Hq) as [e He]. unfold in_cache, sl3. rewrite cached_insert. destruct (decide _); by eexists. }
      destruct Hl2 as (c & -> & _). by unfold keeps. }
    rewrite Et. split; [|done].
    assert (forall a, a ∈ A ++ B -> an_pos a <> an_pos b) as Hne by (intros a; apply pos_new; apply (co_nodup _ _ _ _ C)).
    apply (backs_remove (nodes cfg sl0 tx) _ A (b :: B) x (sl_tail sl)); [done|..].
    + intros a Ha e He. rewrite HN3, decide_False by (apply Hne, elem_of_app; by left). by apply HN.
    + split; [eexists; rewrite HN3, decide_True by done; done|]. intros a Ha e He.
      rewrite HN3, decide_False by (apply Hne, elem_of_app; by right). by apply HN.
Qed.

End Levels.

(** * Deleting the node *)

Lemma node_data_key sl p : sl_ids sl -> is_u64 p -> data_key (node_key sl p).
Proof.
  intros (Hc & Hf & Hd & Hk) Hp. unfold data_key, node_key. split_and!; [|done|done].
  apply RecordKey_wf_new; [done|done|done|]. pose proof (zlen_to_string p Hp). lia.
Qed.

Lemma node_key_inj sl p q : RecordKey_equiv (node_key sl p) (node_key sl q) -> p = q.
Proof. intros (_ & _ & _ & _ & E & _)%RecordKey_equiv_fields. by apply to_string_inj. Qed.

(** The records that are no nodes of the list. *)
Definition foreign (sl : SkipList) (k : RecordKey) : Prop :=
  data_key k /\ forall p, ~ RecordKey_equiv k (node_key sl p).

Lemma foreign_kept sl sl' k : kept sl sl' -> foreign sl k -> foreign sl' k.
Proof. intros (_ & _ & E1 & E2 & E3) [Hd Hn]. split; [done|]. intros p. unfold node_key. rewrite E1, E2, E3. apply Hn. Qed.

Section Delete.
Context {BM : BuildMode} {T : Type} `{RocksDBLaws T} {HH : RocksDBHealthy T}.
Variable cfg : StoreCfg.

(** A node is read from the bytes of its record. *)
Lemma load_frame (tx tx' : RocksTxn T) sl p :
  sl_ids sl -> is_u64 p -> raw_record tx' (node_key sl p) = raw_record tx (node_key sl p) -> load cfg sl tx' p = load cfg sl tx p.
Proof.
  intros Hi Hp E. pose proof (getKV_raw cfg (node_key sl p) tx (node_data_key sl p Hi Hp)) as H1.
  pose proof (getKV_raw cfg (node_key sl p) tx' (node_data_key sl p Hi Hp)) as H2. rewrite E in H2. unfold load.
  destruct (raw_record tx (node_key sl p)); [by rewrite H1, H2|]. destruct H1 as [m1 ->], H2 as [m2 ->]. done.
Qed.

(** The nodes other than the one deleted. *)
Lemma nodes_deleted (tx tx' : RocksTxn T) sl p q :
  sl_ids sl -> is_u64 p -> is_u64 q -> q <> p -> wrote_record tx tx' (node_key sl p) None ->
  nodes cfg (sl_with_cache sl (delete p (sl_cache sl))) tx' q = nodes cfg sl tx q.
Proof.
  intros Hi Hp Hq Hn (_ & _ & Hw). unfold nodes. cbn [sl_cache sl_with_cache]. rewrite lookup_delete_ne by done.
  destruct (sl_cache sl !! q); [done|]. change (load cfg (sl_with_cache sl _) tx' q) with (load cfg sl tx' q).
  apply load_frame; [done|done|]. apply Hw; [by apply node_data_key|]. by intros ?%node_key_inj.
Qed.

Lemma core_deleted (tx tx' : RocksTxn T) sl ys p :
  sl_core cfg tx sl ys -> is_u64 p -> (forall a, a ∈ head_node :: ys -> an_pos a <> p) -> wrote_record tx tx' (node_key sl p) None ->
  sl_core cfg tx' (sl_with_cache sl (delete p (sl_cache sl))) ys.
Proof.
  intros C Hp Hn Hw. pose proof (core_u64 _ _ _ _ C) as Hu. rewrite Forall_forall in Hu.
  apply (core_ext_tx cfg tx tx' sl); [done|done|..].
  - intros a Ha. rewrite (nodes_deleted tx tx' sl p (an_pos a)); [|apply C|done|by apply Hu|by apply Hn|done].
    destruct (nodes cfg sl tx (an_pos a)); constructor. apply same_links_refl.
  - cbn. intros q e E Hch. apply lookup_delete_Some in E as [_ E]. by apply (co_dirty _ _ _ _ C).
Qed.

Lemma clean_deleted (tx tx' : RocksTxn T) sl ys p :
  sl_core cfg tx sl ys -> sl_clean cfg tx sl ys -> is_u64 p -> (forall a, a ∈ head_node :: ys -> an_pos a <> p) ->
  wrote_record tx tx' (node_key sl p) None -> sl_clean cfg tx' (sl_with_cache sl (delete p (sl_cache sl))) ys.
Proof.
  intros C Hc Hp Hn (_ & _ & Hw) q e Hin E Hch. cbn in E. apply lookup_delete_Some in E as [Hq E].
  change (load cfg (sl_with_cache sl _) tx' q) with (load cfg sl tx' q). rewrite <-(Hc q e Hin E Hch).
  pose proof (core_u64 _ _ _ _ C) as Hu. rewrite Forall_forall in Hu. apply list_elem_of_fmap in Hin as (a & -> & Ha).
  destruct (Hu a Ha) as [_ Ua]. apply load_frame; [apply C|done|]. apply Hw; [apply node_data_key; [apply C|done]|]. by intros ?%node_key_inj.
Qed.

Hypothesis Hcat : cfg_isCatalog cfg = false.

Lemma delNode_ok (tx : RocksTxn T) sl p now :
  sl_ids sl -> is_u64 p -> writable tx ->
  exists tx', SkipList_delNode cfg sl tx p now = Ret (sl_with_cache sl (delete p (sl_cache sl)), tx') /\ writable tx' /\
    wrote_record tx tx' (node_key sl p) None.
Proof.
  intros Hi Hp Hw. unfold SkipList_delNode. change (node_key (sl_with_cache sl (delete p (sl_cache sl))) p) with (node_key sl p).
  destruct (delKV_ok cfg Hcat (node_key sl p) tx now (node_data_key sl p Hi Hp) Hw) as (tx' & -> & Hwr). rewrite bind_Ret.
  exists tx'. split_and!; [done|apply Hwr|done..].
Qed.

(** The last steps of [removeInternal]: the counter, the level and the node itself. *)
Lemma remove_finish (tx : RocksTxn T) sl ys p now :
  sl_core cfg tx sl ys -> sl_clean cfg tx sl ys -> backs (nodes cfg sl tx) 0 ys (sl_tail sl) -> in_cache sl HEAD_ID ->
  u32 (sl_count sl - 1) = 1 + zlen ys -> 1 + zlen ys <= INT32_MAX / 2 -> is_u64 p ->
  (forall a, a ∈ head_node :: ys -> an_pos a <> p) -> writable tx ->
  exists sl' tx',
    (let sl := sl_with_count sl (u32 (sl_count sl - 1)) in
     level ← lower_level (Z.to_nat (sl_level sl)) sl;
     SkipList_delNode cfg (sl_with_level sl level) tx p now) = Ret (sl', tx') /\
    sl_rep cfg tx' sl' ys /\ sl_level sl' <= sl_level sl /\ (forall q, in_cache sl q -> q <> p -> in_cache sl' q) /\
    writable tx' /\ wrote_record tx tx' (node_key sl p) None.
Proof.
  intros C Hcl Hb [eh Ch] En Hmax Hp Hne Hw. cbv zeta. set (n := u32 (sl_count sl - 1)) in *. pose proof (co_level _ _ _ _ C) as Hlev.
  destruct (co_head _ _ _ _ C) as (eh' & Heh & Weh & _). assert (eh' = eh) as -> by (pose proof (cached_nodes cfg _ tx _ _ Ch); congruence).
  cbn [sl_level sl_with_count].
  destruct (lower_level_ok (sl_with_count sl n) eh (Z.to_nat (sl_level sl))) as (m & -> & Hm & Hz); [done|done|lia|lia|]. rewrite bind_Ret.
  rewrite Z2Nat.id in Hm, Hz by lia. pose proof (core_lower cfg tx sl ys eh m C Heh Hm Hz) as C3. set (sl3 := sl_with_level (sl_with_count sl n) m).
  assert (sl_core cfg tx sl3 ys) as C3' by (exact (core_tail_count cfg tx _ _ (sl_tail sl) n C3)).
  destruct (delNode_ok tx sl3 p now) as (tx' & -> & Hw' & Hwr); [apply C3'|done|done|].
  eexists _, tx'. split; [done|]. split; [|split; [cbn; lia|split; [|split; [done|exact Hwr]]]].
  - apply core_rep; [by eapply core_deleted|done|cbn [sl_count sl3 sl_with_cache sl_with_level sl_with_count]; lia| |by eapply clean_deleted].
    cbn [sl_tail sl_with_cache sl3 sl_with_level sl_with_count]. eapply backs_ext; [|exact Hb]. intros a e Ha He.
    exists e. split; [|done]. pose proof (core_u64 _ _ _ _ C3') as Hu3. rewrite Forall_forall in Hu3.
    rewrite (nodes_deleted tx tx' sl3 p (an_pos a)); [exact He|apply C3'|done|apply Hu3; by right|apply Hne; by right|done].
  - intros q [e He] Hn. exists e. unfold cached in *. cbn. by rewrite lookup_delete_ne.
Qed.

Lemma removeInternal_ok (tx : RocksTxn T) sl A x B update now :
  sl_rep cfg tx sl (A ++ x :: B) -> in_cache sl (an_pos x) -> in_cache sl HEAD_ID ->
  update_ok (head_node :: A) sl (sl_level sl) update -> writable tx ->
  exists sl' tx', SkipList_removeInternal cfg sl tx (an_pos x) update now = Ret (sl', tx') /\ sl_rep cfg tx' sl' (A ++ B) /\
    in_cache sl' HEAD_ID /\ update_ok (head_node :: A) sl' (sl_level sl') update /\ writable tx' /\
    wrote_record tx tx' (node_key sl (an_pos x)) None.
Proof.
  intros R Cx Ch Hu Hw. destruct (unlink_loop cfg tx sl A x B update R Cx Hu) as (sl1 & E1 & Hf1 & Ek & Hok1).
  destruct Cx as [ex Cx]. rewrite Cx in Ek. pose proof (rep_core _ _ _ _ R) as C. destruct (core_cached _ _ _ _ _ _ _ C Cx) as (Wx & Ux & Hx0).
  assert (NoDup (map an_pos (A ++ B))) as Hd by (eapply NoDup_remove, C).
  assert (forall a, a ∈ A ++ B -> a ∈ A ++ x :: B) as Hsub by (intros a; rewrite !elem_of_app, elem_of_cons; tauto).
  assert (sl_core cfg tx sl1 (A ++ B)) as C1 by (by eapply core_unlinked).
  assert (sl_clean cfg tx sl1 (A ++ B)) as Hcl1.
  { eapply frame_clean; [exact Hf1|]. eapply clean_sub; [exact Hsub|]. exact (sr_clean _ _ _ _ R). }
  destruct (frame_scalars _ _ _ Hf1) as (_ & El1 & Ec1 & Et1 & Ea1 & I1 & I2 & I3).
  pose proof (sr_back _ _ _ _ R) as Hb. assert (ze_backward ex = last_pos A 0) as Hbx.
  { apply backs_app in Hb as [_ [(e & He & Hbe) _]]. rewrite (cached_nodes cfg _ tx _ _ Cx) in He. by injection He as ->. }
  destruct (remove_back_ok cfg tx sl sl1 A B x ex C1 Ek Hbx) as (sl2 & E2 & C2 & Hcl2 & Hb2 & (Ec2 & El2 & J1 & J2 & J3 & Hcc));
    [by eapply core_last_u64|intros q e; by eapply frame_backs|done|by rewrite Et1|].
  unfold SkipList_removeInternal. rewrite E1, bind_Ret, Ek, bind_Ret, (core_next _ _ _ _ _ _ _ C Cx), bind_Ret. unfold remove_back in E2.
  rewrite E2, bind_Ret. destruct (sr_count _ _ _ _ R) as [Ecn Hmax].
  assert (zlen (A ++ x :: B) = 1 + zlen (A ++ B)) as Ez by (rewrite !zlen_app, zlen_cons; lia). pose proof (zlen_nonneg (A ++ B)).
  assert (forall a, a ∈ head_node :: A ++ B -> an_pos a <> an_pos x) as Hne.
  { intros a Ha. rewrite app_comm_cons in Ha. eapply (pos_new (head_node :: A) x B); [|done]. rewrite <-app_comm_cons. by eapply NoDup_head. }
  destruct (remove_finish tx sl2 (A ++ B) (an_pos x) now) as (sl3 & tx' & E3 & R3 & Hle & Hcache & Hw' & Hwr); try done.
  - apply Hcc. by eapply frame_in_cache.
  - rewrite Ec2, Ec1, Ecn, wrap_id; [lia|]. change (INT32_MAX / 2) with 1073741823 in Hmax. unfold is_u. lia.
  - lia.
  - exists sl3, tx'. split; [exact E3|]. split; [done|].
    assert (forall q, in_cache sl q -> q <> an_pos x -> in_cache sl3 q) as Hc by (intros q Hq; apply Hcache, Hcc; by eapply frame_in_cache).
    split; [apply Hc; [done|]; apply (Hne head_node); left|]. split; [|split; [done|]].
    + intros i Hi. destruct (Hu i) as (P & u & S0 & Hlast & Eu & Cu); [lia|]. exists P, u, S0. split; [done|]. split; [done|].
      apply Hc; [done|]. apply Hne. rewrite app_comm_cons. apply elem_of_app. left. by eapply last_of_in.
    + unfold node_key in *. by rewrite J1, J2, J3, I1, I2, I3 in Hwr.
Qed.

(** ** A member *)

Lemma vectors_update L sl n update rank : vectors_ok L sl n update rank -> update_ok L sl n update.
Proof. intros Hv i Hi. destruct (Hv i Hi) as (P & u & S0 & ? & ? & _ & ?). by exists P, u, S0. Qed.

Lemma remove_ok (tx : RocksTxn T) sl A x B score key now :
  sl_rep cfg tx sl (A ++ x :: B) -> zset_ok (members (A ++ x :: B)) -> writable tx ->
  dbl_nan score = false -> dbl_key score = dbl_key (an_score x) -> key = an_key x ->
  exists sl' tx', SkipList_remove cfg sl tx score key now = Ret (sl', tx') /\ sl_rep cfg tx' sl' (A ++ B) /\ writable tx' /\
    wrote_record tx tx' (node_key sl (an_pos x)) None.
Proof.
  intros R Hz Hw Hn Hs Hk.
  assert (forall y, mlt y (score, key) = mlt y (mem x)) as M1 by (intros [? ?]; unfold mlt; cbn; by rewrite Hs, Hk).
  assert (forall y, mlt (score, key) y = mlt (mem x) y) as M2 by (intros [? ?]; unfold mlt; cbn; by rewrite Hs, Hk).
  assert (test_ok (nodes cfg sl tx) (fun _ _ e => cmp ← slCmp (ze_score e) (ze_subKey e) score key; Ret (cmp <? 0)) (head_node :: A) (x :: B)) as Ht.
  { apply (test_ok_member _ (fun e => cmp ← slCmp (ze_score e) (ze_subKey e) score key; Ret (cmp <? 0))); [apply (sr_nodes _ _ _ _ R)|..];
      intros a e Ha -> ->; (rewrite slCmp_spec; [|eapply zset_nan; [exact Hz|]; apply elem_of_app; by (left + right)|done]); rewrite bind_Ret, M1, M2.
    - by rewrite (zset_before A (x :: B) a x Hz Ha) by left.
    - apply elem_of_cons in Ha as [->|Ha]; [by rewrite !mlt_irrefl|].
      assert (mlt (mem x) (mem a) = true) as Hlt.
      { eapply (zset_before (A ++ [x]) B); [by rewrite <-app_assoc|apply elem_of_app; right; left|done]. }
      cbn in Hlt. by rewrite (mlt_antisym _ _ Hlt), Hlt. }
  destruct (search_vectors cfg tx sl A (x :: B) _ R Ht) as (sl1 & s & update & rank & eu & E & Hl & Eu & _ & _ & _ & Hv & _ & Cu & Hfw & Hnext & Ch).
  unfold SkipList_remove. rewrite E, bind_Ret, Eu, bind_Ret, Cu, bind_Ret, Hfw, bind_Ret. cbn [next_pos].
  destruct (Hnext x B eq_refl) as (ex & Cx & Hsx & Hkx). rewrite Cx, bind_Ret, Hsx, Hkx.
  assert (dbl_nan (an_score x) = false) as Hnx by (eapply zset_nan; [exact Hz|]; apply elem_of_app; right; left).
  rewrite slCmp_spec by done. rewrite bind_Ret, M1, M2, !mlt_irrefl. change (INVARIANT _) with (Ret tt). rewrite bind_Ret.
  pose proof (rep_loaded _ _ _ _ _ R Hl) as R1. assert (sl_level sl1 = sl_level sl) as El by (by destruct Hl as (c & -> & _)). rewrite <-El in Hv.
  destruct (removeInternal_ok tx sl1 A x B update now R1) as (sl2 & tx' & -> & R2 & _ & _ & Hw' & Hwr); [by eexists|done|by eapply vectors_update|done|].
  exists sl2, tx'. split; [done|]. split; [done|]. split; [done|]. by destruct Hl as (c & -> & _).
Qed.

(** ** Ranges *)

(** Only nodes of the list have been deleted. *)
Definition stays (sl : SkipList) (tx tx' : RocksTxn T) : Prop :=
  writable tx' /\ forall k, foreign sl k -> raw_record tx' k = raw_record tx k.

Lemma stays_refl sl (tx : RocksTxn T) : writable tx -> stays sl tx tx.
Proof. done. Qed.

Lemma stays_trans sl sl' (tx tx1 tx2 : RocksTxn T) p :
  wrote_record tx tx1 (node_key sl p) None -> kept sl sl' -> stays sl' tx1 tx2 -> stays sl tx tx2.
Proof.
  intros (_ & _ & H1) Hk [Hw H2]. split; [done|]. intros k Hf. rewrite (H2 k (foreign_kept _ _ _ Hk Hf)). apply H1; apply Hf.
Qed.

(** The loop removes the nodes [B1] when its test holds of them and fails on the next one. *)
Lemma remove_while_ok cond update now A B2 : forall B1 fuel (tx : RocksTxn T) sl t res,
  sl_rep cfg tx sl (A ++ B1 ++ B2) -> in_cache sl HEAD_ID -> update_ok (head_node :: A) sl (sl_level sl) update -> writable tx ->
  (forall y B', B1 ++ B2 = y :: B' -> in_cache sl (an_pos y)) -> (length B1 < fuel)%nat ->
  (forall P v S e, B1 = P ++ v :: S -> ze_score e = an_score v -> ze_subKey e = an_key v -> cond (u32 (t + zlen P)) e = true) ->
  (forall v S e, B2 = v :: S -> ze_score e = an_score v -> ze_subKey e = an_key v -> cond (u32 (t + zlen B1)) e = false) ->
  exists sl' tx', remove_while cfg fuel sl tx cond update (next_pos (B1 ++ B2)) (u32 t) res now =
      Ret (sl', tx', res ++ members B1) /\ sl_rep cfg tx' sl' (A ++ B2) /\ stays sl tx tx'.
Proof.
  induction B1 as [|y B1 IH]; intros fuel tx sl t res R Ch Hu Hw Hc Hf Ht1 Ht2; (destruct fuel as [|fuel]; [cbn in Hf; lia|]); cbn [remove_while app].
  - destruct B2 as [|b B2]; cbn [next_pos]; [exists sl, tx; by rewrite Z.eqb_refl, app_nil_r|].
    destruct (Hc b B2 eq_refl) as [eb Cb]. destruct (core_cached _ _ _ _ _ _ _ (rep_core _ _ _ _ R) Cb) as (_ & _ & Hb0).
    destruct (Z.eqb_spec (an_pos b) 0); [done|]. rewrite Cb, bind_Ret. pose proof (sr_nodes _ _ _ _ R) as Hn. destruct (Forall_mid _ _ _ _ Hn) as (e & He & _ & Hs & Hk).
    rewrite (cached_nodes cfg _ tx _ _ Cb) in He. injection He as ->. specialize (Ht2 b B2 e eq_refl Hs Hk). rewrite zlen_nil, Z.add_0_r in Ht2.
    rewrite Ht2. cbn [negb]. exists sl, tx. by rewrite app_nil_r.
  - cbn [next_pos]. destruct (Hc y (B1 ++ B2) eq_refl) as [ey Cy]. cbn [app] in R. destruct (core_cached _ _ _ _ _ _ _ (rep_core _ _ _ _ R) Cy) as (_ & _ & Hy0).
    destruct (Z.eqb_spec (an_pos y) 0); [done|]. rewrite Cy, bind_Ret. pose proof (sr_nodes _ _ _ _ R) as Hn. destruct (Forall_mid _ _ _ _ Hn) as (e & He & _ & Hs & Hk).
    rewrite (cached_nodes cfg _ tx _ _ Cy) in He. injection He as ->. pose proof (Ht1 [] y B1 e eq_refl Hs Hk) as Hct. rewrite zlen_nil, Z.add_0_r in Hct.
    rewrite Hct. cbn [negb]. rewrite (core_next _ _ _ _ _ _ _ (rep_core _ _ _ _ R) Cy), bind_Ret.
    destruct (removeInternal_ok tx sl A y (B1 ++ B2) update now R) as (sl1 & tx1 & E1 & R1 & Ch1 & Hu1 & Hw1 & Hwr); [by eexists|done|done|done|].
    pose proof (removeInternal_kept cfg sl sl tx (an_pos y) update now (kept_refl sl) _ E1) as Hk1. cbn [fst] in Hk1. rewrite E1, bind_Ret.
    assert (exists sl2, (if negb (next_pos (B1 ++ B2) =? 0) then '(sl, _) ← SkipList_getNode cfg sl1 tx1 (next_pos (B1 ++ B2)); Ret sl else Ret sl1) = Ret sl2 /\
      loaded cfg tx1 sl1 sl2 /\ forall z B', B1 ++ B2 = z :: B' -> in_cache sl2 (an_pos z)) as (sl2 & -> & Hl2 & Hc2).
    { destruct (B1 ++ B2) as [|z B'] eqn:EB; cbn [next_pos]; [exists sl1; split; [done|split; [apply loaded_refl|done]]|].
      pose proof (rep_good _ _ _ _ R1) as Hg. rewrite app_comm_cons in Hg. destruct (Forall_mid _ _ _ _ Hg) as [Hz0 (ez & Hez & _)].
      destruct (Z.eqb_spec (an_pos z) 0); [done|]. cbn [negb]. destruct (getNode_ok cfg sl1 tx1 (an_pos z) ez Hez) as (sl2 & -> & Hl2 & Cz).
      exists sl2. split; [done|]. split; [done|]. intros w B'' [= -> ->]. by eexists. }
    rewrite bind_Ret. assert (u32 (u32 t + 1) = u32 (t + 1)) as -> by apply wrap_add_l.
    destruct (IH fuel tx1 sl2 (t + 1) (res ++ [(ze_score e, ze_subKey e)])) as (sl3 & tx3 & -> & R3 & Hw3); try done.
    + by eapply rep_loaded.
    + by eapply loaded_in_cache.
    + replace (sl_level sl2) with (sl_level sl1) by (by destruct Hl2 as (c & -> & _)). intros i Hi. destruct (Hu1 i Hi) as (P & u & S0 & ? & ? & ?).
      exists P, u, S0. split; [done|]. split; [done|]. by eapply loaded_in_cache.
    + cbn in Hf. lia.
    + intros P v S e' -> Hs' Hk'. specialize (Ht1 (y :: P) v S e' eq_refl Hs' Hk'). rewrite zlen_cons in Ht1. by rewrite <-Z.add_assoc.
    + intros v S e' E Hs' Hk'. specialize (Ht2 v S e' E Hs' Hk'). rewrite zlen_cons in Ht2. by rewrite <-Z.add_assoc.
    + exists sl3, tx3. split; [|split; [done|]].
      2:{ eapply stays_trans; [exact Hwr| |exact Hw3]. etrans; [exact Hk1|]. by destruct Hl2 as (c & -> & _). }
      rewrite <-app_assoc. cbn [members map app]. by rewrite Hs, Hk.
Qed.

Lemma remove_range_ok (tx : RocksTxn T) sl A B1 B2 test cond now :
  sl_rep cfg tx sl (A ++ B1 ++ B2) -> writable tx -> test_ok (nodes cfg sl tx) test (head_node :: A) (B1 ++ B2) ->
  (forall P v S e, B1 = P ++ v :: S -> ze_score e = an_score v -> ze_subKey e = an_key v -> cond (u32 (zlen A + 1 + zlen P)) e = true) ->
  (forall v S e, B2 = v :: S -> ze_score e = an_score v -> ze_subKey e = an_key v -> cond (u32 (zlen A + 1 + zlen B1)) e = false) ->
  exists sl' tx', remove_range cfg sl tx test cond now = Ret (sl', tx', members B1) /\ sl_rep cfg tx' sl' (A ++ B2) /\ stays sl tx tx'.
Proof.
  intros R Hw Ht H1 H2.
  destruct (search_vectors cfg tx sl A (B1 ++ B2) _ R Ht) as (sl1 & s & update & rank & eu & E & Hl & Eu & _ & _ & _ & Hv & Et & Cu & Hfw & Hnext & Ch).
  unfold remove_range. rewrite E, bind_Ret, Eu, bind_Ret, Cu, bind_Ret, Hfw, bind_Ret, Et. pose proof (rep_loaded _ _ _ _ _ R Hl) as R1.
  assert (sl_level sl1 = sl_level sl) as El by (by destruct Hl as (c & -> & _)). rewrite <-El in Hv.
  assert (kept sl sl1) as Hk by (by destruct Hl as (c & -> & _)).
  destruct (remove_while_ok cond update now A B2 B1 (walk_fuel sl1) tx sl1 (zlen A + 1) []) as (sl' & tx' & E' & R' & Hst); try done.
  - by eapply vectors_update.
  - intros y B' EB. destruct (Hnext y B' EB) as (e & He & _). by eexists.
  - pose proof (rep_fuel _ _ _ _ R1) as Hf. rewrite !length_app in Hf. lia.
  - exists sl', tx'. split; [done|]. split; [done|]. split; [apply Hst|]. intros k Hf. by apply Hst, (foreign_kept sl).
Qed.

(** A range of ranks, both ends included. *)
Lemma removeRangeByRank_ok (tx : RocksTxn T) sl xs start end_ now :
  sl_rep cfg tx sl xs -> writable tx -> 1 <= start <= end_ ->
  exists sl' tx' ys, SkipList_removeRangeByRank cfg sl tx start end_ now =
      Ret (sl', tx', ztake (end_ - start + 1) (zdrop (start - 1) (members xs))) /\ sl_rep cfg tx' sl' ys /\ stays sl tx tx' /\
    members ys = ztake (start - 1) (members xs) ++ zdrop end_ (members xs).
Proof.
  intros R Hw Hse. set (A := ztake (start - 1) xs). set (B1 := ztake (end_ - start + 1) (zdrop (start - 1) xs)). set (B2 := zdrop end_ xs).
  assert (zdrop (end_ - start + 1) (zdrop (start - 1) xs) = B2) as EB2 by (rewrite zdrop_zdrop by lia; unfold B2; f_equal; lia).
  assert (A ++ B1 ++ B2 = xs) as Exs by (unfold A, B1; by rewrite <-EB2, !ztake_zdrop).
  assert (zlen A = Z.min (start - 1) (zlen xs) /\ zlen B1 = Z.max 0 (Z.min (end_ - start + 1) (zlen xs - (start - 1)))) as [LA LB].
  { pose proof (zlen_nonneg xs). unfold A, B1. rewrite !ztake_take, zdrop_drop. unfold zlen. rewrite !length_take, length_drop. lia. }
  pose proof (rep_len _ _ _ _ R) as Hlen. rewrite zlen_cons in Hlen. pose proof (zlen_nonneg A). pose proof (zlen_nonneg B1).
  assert (zlen xs = zlen A + zlen B1 + zlen B2) as Lxs by (rewrite <-Exs, !zlen_app; lia).
  destruct (remove_range_ok tx sl A B1 B2 (fun t s _ => Ret (u32 (t + s) <? start)) (fun t _ => t <=? end_) now) as (sl' & tx' & E & R' & Hw').
  - by rewrite Exs.
  - done.
  - apply (test_ok_index _ (fun i => i <? start)); [rewrite Exs; lia| |]; intros i Hi; rewrite ?Exs in Hi; lia.
  - intros P v S e E _ _. assert (zlen B1 = zlen P + 1 + zlen S) as EL by (rewrite E, zlen_app, zlen_cons; lia). pose proof (zlen_nonneg S). pose proof (zlen_nonneg P).
    pose proof (zlen_nonneg B2). rewrite wrap_id by (unfold is_u; lia). lia.
  - intros v S e E _ _. assert (zlen B2 = 1 + zlen S) as EL by (rewrite E, zlen_cons; lia). pose proof (zlen_nonneg S).
    rewrite wrap_id by (unfold is_u; lia). lia.
  - exists sl', tx', (A ++ B2). split; [|split; [done|split; [done|]]].
    + unfold SkipList_removeRangeByRank. rewrite E. by rewrite zdrop_members, ztake_members.
    + by rewrite members_app, zdrop_members, ztake_members.
Qed.

(** A range of scores or members. *)
Lemma remove_filter (tx : RocksTxn T) sl xs (g h : member -> bool) test cond now :
  sl_rep cfg tx sl xs -> writable tx -> rising g (members xs) -> falling h (members xs) ->
  (forall a e, a ∈ xs -> ze_score e = an_score a -> test e = negb (g (an_score a, ze_subKey e))) ->
  (forall t e, cond t e = h (ze_score e, ze_subKey e)) ->
  exists sl' tx' ys, remove_range cfg sl tx (fun _ _ e => Ret (test e)) cond now = Ret (sl', tx', List.filter (both g h) (members xs)) /\
    sl_rep cfg tx' sl' ys /\ stays sl tx tx' /\ members ys = List.filter (fun x => negb (both g h x)) (members xs).
Proof.
  intros R Hw Hr Hf Htest Hcond. destruct (rising_split g xs Hr) as (A & X & -> & HA & HX).
  assert (falling h (members X)) as HfX by (rewrite members_app in Hf; by eapply falling_app).
  destruct (falling_split h X HfX) as (B1 & B2 & -> & HB1 & HB2). apply Forall_app in HX as [HX1 HX2].
  destruct (remove_range_ok tx sl A B1 B2 (fun _ _ e => Ret (test e)) cond now R Hw) as (sl' & tx' & E & R' & Hw').
  - rewrite Forall_forall in HA, HX1, HX2. apply (test_ok_member _ (fun e => Ret (test e))); [apply (sr_nodes _ _ _ _ R)|..]; intros a e Ha Es Ek;
      (rewrite (Htest a e), Ek by (done || apply elem_of_app; (by left) || by right)).
    + by rewrite (HA a Ha).
    + apply elem_of_app in Ha as [Ha|Ha]; [by rewrite (HX1 a Ha)|by rewrite (HX2 a Ha)].
  - intros P v S e -> Es Ek. rewrite Hcond, Es, Ek. by apply Forall_mid in HB1.
  - intros v S e -> Es Ek. rewrite Hcond, Es, Ek. by inversion HB2.
  - assert (forall (f : member -> bool) ys, Forall (fun a => f (mem a) = true) ys -> List.filter f (members ys) = members ys) as Hall.
    { intros f ys. induction 1 as [|a ys Ef _ IH]; [done|]. cbn [members map List.filter]. rewrite Ef. f_equal. apply IH. }
    assert (Forall (fun a => both g h (mem a) = true) B1) as Hb1.
    { rewrite Forall_forall in HX1, HB1 |- *. intros a Ha. unfold both. by rewrite (HX1 a Ha), (HB1 a Ha). }
    pose proof (Forall_both_g g h A HA) as HbA. pose proof (Forall_both_h g h B2 HB2) as Hb2.
    assert (forall ys, Forall (fun a => both g h (mem a) = false) ys -> Forall (fun a => negb (both g h (mem a)) = true) ys) as Hneg.
    { intros ys Hys. eapply Forall_impl; [exact Hys|]. intros a Ea. by rewrite Ea. }
    exists sl', tx', (A ++ B2). split; [|split; [done|split; [done|]]]; rewrite ?members_app, !List.filter_app.
    + rewrite E, (filter_none _ A HbA), (filter_none _ B2 Hb2), (Hall _ B1 Hb1), app_nil_r. done.
    + rewrite (Hall (fun x => negb (both g h x)) A), (Hall (fun x => negb (both g h x)) B2) by (by apply Hneg).
      rewrite (filter_none (fun x => negb (both g h x)) B1); [done|]. eapply Forall_impl; [exact Hb1|]. intros a Ea. by rewrite Ea.
Qed.

Lemma removeRangeByScore_ok (tx : RocksTxn T) sl xs r now :
  sl_rep cfg tx sl xs -> zset_ok (members xs) -> writable tx -> dbl_nan (zr_min r) = false ->
  exists sl' tx' ys, SkipList_removeRangeByScore cfg sl tx r now = Ret (sl', tx', List.filter (score_in r) (members xs)) /\
    sl_rep cfg tx' sl' ys /\ stays sl tx tx' /\ members ys = List.filter (fun x => negb (score_in r x)) (members xs).
Proof.
  intros R Hz Hw Hn. pose proof (score_rising r _ Hz) as Hr. pose proof (score_falling r _ Hz) as Hf. unfold SkipList_removeRangeByScore.
  destruct (remove_filter tx sl xs (fun x => zslValueGteMin (fst x) r) (fun x => zslValueLteMax (fst x) r)
    (fun e => (zr_minex r && dbl_le (ze_score e) (zr_min r)) || (negb (zr_minex r) && dbl_lt (ze_score e) (zr_min r)))
    (fun _ e => if zr_maxex r then dbl_lt (ze_score e) (zr_max r) else dbl_le (ze_score e) (zr_max r)) now R Hw Hr Hf) as (sl' & tx' & ys & E & Hys); [| |by exists sl', tx', ys].
  - intros a e Ha Es. pose proof (zset_nan xs a Hz Ha) as Na. unfold zslValueGteMin, dbl_le, dbl_lt. cbn [fst]. rewrite Es, !Na, !Hn. cbn [negb andb].
    destruct (zr_minex r); cbn [negb andb orb]; [by rewrite orb_false_r, Z.leb_antisym|by rewrite Z.ltb_antisym].
  - done.
Qed.

Lemma removeRangeByLex_ok (tx : RocksTxn T) sl xs r now :
  sl_rep cfg tx sl xs -> zset_ok (members xs) -> same_score (members xs) -> Forall plain (members xs) -> writable tx ->
  exists sl' tx' ys, SkipList_removeRangeByLex cfg sl tx r now = Ret (sl', tx', List.filter (lex_in r) (members xs)) /\
    sl_rep cfg tx' sl' ys /\ stays sl tx tx' /\ members ys = List.filter (fun x => negb (lex_in r x)) (members xs).
Proof.
  intros R Hz Hs Hp Hw. pose proof (lex_rising r _ Hz Hs Hp) as Hr. pose proof (lex_falling r _ Hz Hs Hp) as Hf. unfold SkipList_removeRangeByLex.
  destruct (remove_filter tx sl xs (fun x => zslLexValueGteMin (snd x) r) (fun x => zslLexValueLteMax (snd x) r)
    (fun e => negb (zslLexValueGteMin (ze_subKey e) r)) (fun _ e => zslLexValueLteMax (ze_subKey e) r) now R Hw Hr Hf) as (sl' & tx' & ys & E & Hys); [done|done|by exists sl', tx', ys].
Qed.

End Delete.
