(* ===== verification/SkipListSave.v ===== *)
(** Saving a skip list (storage/skiplist.cpp): the changed nodes and the meta value are written to
    the store, and the list read back from it is the same. *)

From Stdlib Require Import Strings.Byte ZArith Lia.
From stdpp Require Import base list numbers strings gmap sorting.
From S2P Require Import Prelude Status Varint Record RecordValue RecordMeta ReplLog BinlogSeq Txn Store SkipList SkipListRep.
From S2P Require Import SkipListRead SkipListWrite SkipListRemove.

Local Open Scope Z_scope.

(** A node that has been saved. *)
Definition saved (e : ZSlEleValue) : ZSlEleValue :=
  mkZSlEle (ze_forward e) (ze_span e) (ze_score e) (ze_backward e) false (ze_subKey e).

Lemma saved_wf e : ZSlEleValue_wf e -> ZSlEleValue_wf (saved e).
Proof. done. Qed.

Lemma node_record_wf e : ZSlEleValue_wf e -> RecordValue_wf (RecordValue_new (ZSlEleValue_encode e) RT_ZSET_S_ELE MAXU64 0 (-1) 0 MAXU64).
Proof.
  intros Hw. pose proof (ZSlEleValue_size e Hw). unfold RecordValue_wf, RecordValue_new, MAXU64; cbn [rv_type rv_ttl rv_version rv_versionEP rv_cas rv_pieceSize rv_totalSize rv_value].
  unfold is_u. split_and!; try done; lia.
Qed.

Lemma bool_decide_cons_ne (q p : Z) ps : q <> p -> bool_decide (q ∈ p :: ps) = bool_decide (q ∈ ps).
Proof. intros Hn. apply bool_decide_ext. rewrite elem_of_cons. tauto. Qed.

Section Save.
Context {BM : BuildMode} {T : Type} `{RocksDBLaws T} {HH : RocksDBHealthy T}.
Variable cfg : StoreCfg.
Hypothesis Hcat : cfg_isCatalog cfg = false.

Lemma saveNode_ok (tx : RocksTxn T) sl p e now :
  sl_ids sl -> writable tx -> sl_cache sl !! p = Some e -> ze_changed e = true -> ZSlEleValue_wf e -> is_u64 p ->
  exists tx', SkipList_saveNode cfg sl tx p e now = Ret (sl_with_cache sl (<[p := saved e]> (sl_cache sl)), tx') /\ writable tx' /\
    load cfg sl tx' p = Some (saved e) /\ (forall q, is_u64 q -> q <> p -> load cfg sl tx' q = load cfg sl tx q) /\
    forall k, foreign sl k -> raw_record tx' k = raw_record tx k.
Proof.
  intros Hi Hw Hp Hch He Hu. unfold SkipList_saveNode. rewrite Hp, Hch. cbn [INVARIANT]. rewrite bind_Ret.
  change (node_key (sl_with_cache sl _) p) with (node_key sl p).
  destruct (setKV_ok cfg Hcat (node_key sl p) _ tx now (node_data_key sl p Hi Hu) (node_record_wf e He) Hw) as (tx' & s & -> & (Hw' & Hr & Hf) & Hd).
  rewrite bind_Ret. exists tx'. split_and!; [done|apply Hw'..| | |].
  - pose proof (getKV_raw cfg (node_key sl p) tx' (node_data_key sl p Hi Hu)) as Hg. rewrite Hr in Hg. unfold load. rewrite Hg, Hd.
    transitivity (match ZSlEleValue_decode (ZSlEleValue_encode (saved e)) with Ret e => Some e | _ => None end); [done|].
    by rewrite (ZSlEleValue_decode_encode (saved e)).
  - intros q Hq Hn. apply load_frame; [done|done|]. apply Hf; [by apply node_data_key|]. by intros ?%node_key_inj.
  - intros k [Hk Hn]. by apply Hf.
Qed.

(** What the store has after the nodes [ps] of the cache have been saved. *)
Definition saved_load (sl : SkipList) (tx : RocksTxn T) (ps : list Z) (q : Z) : option ZSlEleValue :=
  match sl_cache sl !! q with
  | Some e => if bool_decide (q ∈ ps) && ze_changed e then Some (saved e) else load cfg sl tx q
  | None => load cfg sl tx q
  end.

Lemma save_nodes_ok ps : forall (tx : RocksTxn T) sl now,
  NoDup ps -> (forall p, p ∈ ps -> is_Some (sl_cache sl !! p)) -> sl_ids sl -> writable tx ->
  (forall p e, sl_cache sl !! p = Some e -> ze_changed e = true -> ZSlEleValue_wf e /\ is_u64 p) ->
  exists c tx', save_nodes cfg ps sl tx now = Ret (sl_with_cache sl c, tx') /\ writable tx' /\
    (forall q, is_u64 q -> load cfg sl tx' q = saved_load sl tx ps q) /\
    forall k, foreign sl k -> raw_record tx' k = raw_record tx k.
Proof.
  induction ps as [|p ps IH]; intros tx sl now Hd Hin Hi Hw Hdirty; cbn [save_nodes].
  { exists (sl_cache sl), tx. split_and!; [by destruct sl|apply Hw..| |done]. intros q _. unfold saved_load. by destruct (sl_cache sl !! q). }
  apply NoDup_cons in Hd as [Hp Hd]. destruct (Hin p) as [e Ep]; [left|]. unfold cached. rewrite Ep, bind_Ret. destruct (ze_changed e) eqn:Ech.
  - destruct (Hdirty p e Ep Ech) as [We Up]. destruct (saveNode_ok tx sl p e now Hi Hw Ep Ech We Up) as (tx1 & -> & Hw1 & Hl1 & Hf1 & Ho1). rewrite bind_Ret.
    set (sl1 := sl_with_cache sl _). destruct (IH tx1 sl1 now) as (c & tx2 & -> & Hw2 & Hl2 & Ho2); [done| |done|done| |].
    { intros q Hq. unfold sl1. cbn. destruct (decide (q = p)) as [->|]; [rewrite lookup_insert_eq; by eexists|]. rewrite lookup_insert_ne by done. apply Hin. by right. }
    { intros q e' Eq Hch. unfold sl1 in Eq. cbn in Eq. destruct (decide (q = p)) as [->|]; [rewrite lookup_insert_eq in Eq; by injection Eq as <-|].
      rewrite lookup_insert_ne in Eq by done. by apply Hdirty. }
    exists c, tx2. split_and!; [done|apply Hw2..| |intros k Hk; by rewrite (Ho2 k Hk), (Ho1 k Hk)]. intros q Hq. change (load cfg sl tx2 q) with (load cfg sl1 tx2 q). rewrite Hl2 by done. unfold saved_load, sl1. cbn.
    change (load cfg (sl_with_cache sl _) tx1 q) with (load cfg sl tx1 q). destruct (decide (q = p)) as [->|Hn].
    + rewrite lookup_insert_eq, Ep, Ech. cbn. rewrite andb_false_r, bool_decide_eq_true_2 by left. done.
    + rewrite lookup_insert_ne, Hf1 by done. destruct (sl_cache sl !! q); [|done].
      by rewrite bool_decide_cons_ne.
  - rewrite bind_Ret. destruct (IH tx sl now) as (c & tx2 & -> & Hw2 & Hl2 & Ho2); [done|intros q Hq; apply Hin; by right|done|done|done|].
    exists c, tx2. split_and!; [done|apply Hw2..| |done]. intros q Hq. rewrite Hl2 by done. unfold saved_load. destruct (sl_cache sl !! q) eqn:Eq; [|done].
    destruct (decide (q = p)) as [->|Hn]; [rewrite Ep in Eq; injection Eq as <-; by rewrite Ech, !andb_false_r|].
    by rewrite bool_decide_cons_ne.
Qed.

Lemma cache_order_perm sl : cache_order sl ≡ₚ elements (dom (sl_cache sl)).
Proof. apply merge_sort_Permutation. Qed.

Lemma cache_order_in sl p : p ∈ cache_order sl <-> is_Some (sl_cache sl !! p).
Proof. by rewrite cache_order_perm, elem_of_elements, elem_of_dom. Qed.

(** The nodes of the list, all of them saved. *)
Lemma saved_nodes (tx : RocksTxn T) sl xs a e :
  sl_rep cfg tx sl xs -> a ∈ head_node :: xs -> nodes cfg sl tx (an_pos a) = Some e -> saved_load sl tx (cache_order sl) (an_pos a) = Some (saved e).
Proof.
  intros R Ha He. unfold saved_load, nodes in *. destruct (sl_cache sl !! an_pos a) as [e'|] eqn:E.
  - injection He as ->. rewrite bool_decide_eq_true_2 by (apply cache_order_in; by eexists). cbn. destruct (ze_changed e) eqn:Ech; [done|].
    rewrite (sr_clean _ _ _ _ R (an_pos a) e) by (done || by apply list_elem_of_fmap_2). f_equal. destruct e; cbn in *; by subst.
  - pose proof (load_unchanged _ _ _ _ _ He) as Hch. rewrite He. f_equal. destruct e; cbn in *; by subst.
Qed.
(** ** The meta value *)

(** The key of the meta value of a list. *)
Definition meta_key (sl : SkipList) : RecordKey := RecordKey_new (sl_chunkId sl) (sl_dbId sl) RT_ZSET_META (sl_pk sl) [] 0.

Lemma meta_data_key sl : sl_ids sl -> data_key (meta_key sl).
Proof.
  intros (Hc & Hf & Hd & Hk). unfold data_key, meta_key. split_and!; [|done|done].
  apply RecordKey_wf_new; [done|done|done|]. change (zlen []) with 0. lia.
Qed.

Lemma meta_node_key sl p : ~ RecordKey_equiv (node_key sl p) (meta_key sl).
Proof. by intros (_ & _ & E & _)%RecordKey_equiv_fields. Qed.

(** The meta record of a list. *)
Definition sl_meta (sl : SkipList) : ZSlMetaValue :=
  mkZSlMeta (sl_level sl) MAX_LAYER (sl_count sl) (sl_tail sl) (sl_posAlloc sl).

(** A list is saved, and read back it has the same nodes. *)
Lemma save_ok (tx : RocksTxn T) sl xs old ep now :
  sl_rep cfg tx sl xs -> writable tx -> is_u64 ep -> old_ok old ->
  exists sl' tx' rv, SkipList_save cfg sl tx old ep now = Ret (sl', tx') /\ writable tx' /\
    RocksKVStore_getKV cfg (meta_key sl) tx' = Ret rv /\ (rv_ttl rv = old_ttl old /\ rv_type rv = RT_ZSET_META /\ RecordValue_wf rv) /\ ZSlMetaValue_decode (rv_value rv) = Ret (sl_meta sl) /\
    sl_rep cfg tx' (SkipList_new (sl_chunkId sl) (sl_dbId sl) (sl_pk sl) (sl_meta sl)) xs /\
    forall k, foreign sl k -> ~ RecordKey_equiv k (meta_key sl) -> raw_record tx' k = raw_record tx k.
Proof.
  intros R Hw Hep Hold. pose proof (sr_ids _ _ _ _ R) as Hi. unfold SkipList_save.
  destruct (save_nodes_ok (cache_order sl) tx sl now) as (c & tx1 & -> & Hw1 & Hl1 & Ho1);
    [rewrite cache_order_perm; apply NoDup_elements|intros p; apply cache_order_in|done|done|exact (sr_dirty _ _ _ _ R)|]. rewrite bind_Ret.
  cbn [sl_chunkId sl_dbId sl_pk sl_level sl_count sl_tail sl_posAlloc sl_with_cache].
  set (mv := sl_meta sl). change (mkZSlMeta _ _ _ _ _) with mv.
  pose proof (sr_level _ _ _ _ R) as Hlev. destruct (sr_count _ _ _ _ R) as [Ecn Hmax]. pose proof (sr_alloc _ _ _ _ R) as Hal.
  assert (is_u64 (sl_tail sl)) as Ht.
  { rewrite (backs_tail _ _ _ _ (sr_back _ _ _ _ R)). unfold last_pos. destruct (last xs) as [z|] eqn:Ez; [|done]. apply last_Some in Ez as [xs' E].
    pose proof (core_u64 _ _ _ _ (rep_core _ _ _ _ R)) as Hu. rewrite E, app_comm_cons in Hu. by apply Forall_mid in Hu as [_ ?]. }
  assert (ZSlMetaValue_wf mv) as Hmv.
  { unfold ZSlMetaValue_wf, mv, sl_meta; cbn. change (INT32_MAX / 2) with 1073741823 in Hmax. pose proof (zlen_nonneg xs). unfold is_u, SKIPLIST_INVALID_POS, HEAD_ID, MAX_LAYER in *.
    split_and!; try done; lia. }
  destruct (ZSlMetaValue_law mv Hmv) as (val & -> & Hdec & Hsz). rewrite bind_Ret. fold (meta_key sl). fold (old_ttl old).
  destruct (setKV_ok cfg Hcat (meta_key sl) (RecordValue_update val RT_ZSET_META ep (old_ttl old) old) tx1 now) as (tx2 & s & -> & (Hw2 & Hr2 & Hf2) & Hd2);
    [by apply meta_data_key|apply update_wf; [done|lia|done|done]|done|]. rewrite bind_Ret.
  assert (forall q, is_u64 q -> load cfg sl tx2 q = saved_load sl tx (cache_order sl) q) as Hl2.
  { intros q Hq. rewrite <-Hl1 by done. apply load_frame; [done|done|]. apply Hf2; [by apply node_data_key|apply meta_node_key]. }
  eexists _, tx2, _. split; [done|]. split; [done|]. split; [|split; [|split; [|split]]].
  - pose proof (getKV_raw cfg (meta_key sl) tx2 (meta_data_key sl Hi)) as Hg. rewrite Hr2 in Hg. by rewrite Hg, Hd2.
  - split; [apply update_value|]. split; [by destruct old|]. apply update_wf; [done|lia|done|done].
  - by rewrite (proj1 (update_value _ _ _ _ _)).
  - set (sl' := SkipList_new _ _ _ _). pose proof (core_u64 _ _ _ _ (rep_core _ _ _ _ R)) as Hu. rewrite Forall_forall in Hu.
    assert (forall a e, a ∈ head_node :: xs -> nodes cfg sl tx (an_pos a) = Some e -> nodes cfg sl' tx2 (an_pos a) = Some (saved e)) as HN.
    { intros a e Ha He. unfold nodes, sl'. cbn. rewrite lookup_empty. change (load cfg (SkipList_new _ _ _ _) tx2 (an_pos a)) with (load cfg sl tx2 (an_pos a)).
      rewrite Hl2 by (by apply Hu). by eapply saved_nodes. }
    apply core_rep; [|done|done| |by intros p e _ E; unfold sl' in E; cbn in E; rewrite lookup_empty in E].
    + apply (core_ext_tx cfg tx tx2 sl); [by apply rep_core|unfold same_ids; cbn; by rewrite (sr_max _ _ _ _ R)|..].
      * intros a Ha. pose proof (rep_good _ _ _ _ R) as Hg. rewrite Forall_forall in Hg. destruct (Hg a Ha) as [_ (e & He & _)]. rewrite (HN a e Ha He), He.
        constructor. by unfold same_links.
      * intros p e E. unfold sl' in E. cbn in E. by rewrite lookup_empty in E.
    + eapply backs_ext; [|exact (sr_back _ _ _ _ R)]. intros a e Ha He. exists (saved e). split; [|done]. apply HN; [by right|done].
  - intros k Hk Hm. rewrite <-Ho1 by done. apply Hf2; [apply Hk|done].
Qed.

End Save.
