(* ===== verification/SkipListSpec.v ===== *)
(** What a skip list (storage/skiplist.cpp) promises: every operation, seen through the sorted set
    the list represents. *)

From Stdlib Require Import Strings.Byte ZArith Lia.
From stdpp Require Import base list numbers strings gmap sorting.
From S2P Require Import Prelude Status Varint Record RecordValue RecordMeta ReplLog BinlogSeq Txn Store Replicate SkipList SkipListRep.
From S2P Require Import SkipListRead SkipListWrite SkipListRemove SkipListSave SkipListKeep.

Local Open Scope Z_scope.

(** * The empty list *)

(** The head node of a new list. *)
Definition head_value : ZSlEleValue := ZSlEleValue_new 0 [].

Section Empty.
Context {BM : BuildMode} {T : Type} `{RocksDB T}.
Variable cfg : StoreCfg.

Lemma new_slot e i : e = head_value -> 0 <= i <= MAX_LAYER -> znth (ze_forward e) i = Some 0 /\ znth (ze_span e) i = Some 0.
Proof.
  intros -> Hi. unfold head_value, ZSlEleValue_new. cbn [ze_forward ze_span]. unfold zfill. rewrite znth_lookup by lia.
  split; apply lookup_replicate_2; unfold MAX_LAYER in *; lia.
Qed.

Lemma empty_rep (tx : RocksTxn T) chunkId dbId pk :
  let sl := SkipList_new chunkId dbId pk (ZSlMetaValue_new 1 1 0) in
  sl_ids sl -> load cfg sl tx HEAD_ID = Some head_value -> sl_rep cfg tx sl [].
Proof.
  intros sl Hi Hl. assert (nodes cfg sl tx HEAD_ID = Some head_value) as Hh by done.
  assert (ZSlEleValue_wf head_value) as Hw by (by apply new_node_wf).
  constructor; try done; try (by intros p e _ E); try (by constructor).
  - exists head_value. split_and!; [done|apply Hw..|]. intros i Hi'. by apply new_slot; [|cbn in Hi'; lia].
  - intros i Hi'. split; [|done]. intros _. unfold slot. change (an_pos head_node) with HEAD_ID. rewrite Hh. cbn in Hi'.
    destruct (new_slot head_value i eq_refl) as [Ef Es]; [unfold MAX_LAYER; lia|]. cbn [mbind option_bind]. by rewrite Ef, Es.
Qed.

End Empty.

(** * Sorted sets *)

Lemma members_split xs P x S : members xs = P ++ x :: S -> exists A a B, xs = A ++ a :: B /\ members A = P /\ mem a = x /\ members B = S.
Proof.
  intros (A & C & -> & EA & EC)%map_eq_app. apply map_eq_cons in EC as (a & B & -> & Ea & EB).
  exists A, a, B. by split_and!.
Qed.

(** The members of a sorted set, without the one that has the key. *)
Definition zset_rem (key : bytes) (l : list member) : list member := List.filter (fun x => negb (bool_decide (snd x = key))) l.

Lemma zset_rem_id key l : key ∉ map snd l -> zset_rem key l = l.
Proof.
  induction l as [|x l IH]; [done|]. cbn [map zset_rem List.filter]. intros [Hx Hl]%not_elem_of_cons.
  rewrite bool_decide_eq_false_2 by congruence. cbn [negb]. f_equal. by apply IH.
Qed.

Lemma zset_rem_split P x S : NoDup (map snd (P ++ x :: S)) -> zset_rem (snd x) (P ++ x :: S) = P ++ S.
Proof.
  rewrite map_app. cbn [map]. intros (HP & Hn & HS)%NoDup_app. apply NoDup_cons in HS as [Hx _]. unfold zset_rem. rewrite List.filter_app.
  cbn [List.filter]. rewrite bool_decide_eq_true_2 by done. cbn [negb]. fold (zset_rem (snd x) P). fold (zset_rem (snd x) S).
  rewrite !zset_rem_id; [done|done|]. intros Hin. apply (Hn _ Hin). left.
Qed.

Lemma zset_ok_sublist l l' : l' `sublist_of` l -> zset_ok l -> zset_ok l'.
Proof.
  intros Hsub (Hn & Hs & Hd). split_and!.
  - rewrite Forall_forall in *. intros x Hx. apply Hn. by eapply elem_of_sublist.
  - clear Hn Hd. induction Hsub as [|x l1 l2 Hsub IH|x l1 l2 Hsub IH]; [done|..]; inversion Hs as [|? ? Hs' HF]; subst; [|by apply IH].
    constructor; [by apply IH|]. rewrite Forall_forall in *. intros y Hy. apply HF. by eapply elem_of_sublist.
  - eapply sublist_NoDup; [exact Hd|]. by apply fmap_sublist.
Qed.

Lemma filter_sublist {A} (f : A -> bool) l : List.filter f l `sublist_of` l.
Proof. induction l as [|x l IH]; [done|]. cbn [List.filter]. destruct (f x); by constructor. Qed.

Lemma ztake_zdrop_sublist {A} (l : list A) i j : 0 <= i <= j -> ztake i l ++ zdrop j l `sublist_of` l.
Proof.
  intros Hi. rewrite <-(ztake_zdrop i l) at 3. apply sublist_app; [done|]. replace j with (i + (j - i)) by lia. rewrite <-zdrop_zdrop by lia.
  rewrite zdrop_drop. apply sublist_drop.
Qed.

(** * Levels *)

(** The fuel of [randomLevel] is enough: more draws change nothing. *)
Lemma randomLevel_loop_bound fuel : forall draws maxLevel lvl,
  1 <= lvl <= maxLevel -> lvl <= randomLevel_loop fuel draws maxLevel lvl <= maxLevel.
Proof.
  induction fuel as [|fuel IH]; intros draws maxLevel lvl Hl; cbn [randomLevel_loop]; [lia|].
  destruct (draws 0%nat <? 1); cbn [andb]; [|lia]. destruct (Z.ltb_spec lvl maxLevel); [|lia].
  specialize (IH (fun n => draws (S n)) maxLevel (lvl + 1) ltac:(lia)). lia.
Qed.

Lemma randomLevel_loop_fuel extra fuel : forall draws maxLevel lvl,
  maxLevel - lvl <= Z.of_nat fuel -> randomLevel_loop (fuel + extra) draws maxLevel lvl = randomLevel_loop fuel draws maxLevel lvl.
Proof.
  induction fuel as [|fuel IH]; intros draws maxLevel lvl Hf; cbn [Nat.add randomLevel_loop].
  - destruct extra; cbn [randomLevel_loop]; [done|]. destruct (Z.ltb_spec lvl maxLevel); [lia|]. by rewrite andb_false_r.
  - destruct ((draws 0%nat <? 1) && (lvl <? maxLevel)); [|done]. apply IH. lia.
Qed.

(** [randomLevel] returns, whatever the generator draws, a level between 1 and the maximal
    level of the list: the loop ends at the maximal level, and more rounds change nothing. *)
Theorem randomLevel_bounds (draws : nat -> Z) (maxLevel : Z) (extra : nat) :
  1 <= maxLevel ->
  1 <= SkipList_randomLevel draws maxLevel <= maxLevel /\
  randomLevel_loop (Z.to_nat maxLevel + extra) draws maxLevel 1 = SkipList_randomLevel draws maxLevel /\
  ((forall n, 1 <= draws n) -> SkipList_randomLevel draws maxLevel = 1) /\
  ((forall n, draws n < 1) -> SkipList_randomLevel draws maxLevel = maxLevel).
Proof.
  intros Hm. unfold SkipList_randomLevel. split_and!.
  - apply randomLevel_loop_bound. lia.
  - apply randomLevel_loop_bound. lia.
  - apply randomLevel_loop_fuel. lia.
  - intros Hd. destruct (Z.to_nat maxLevel); cbn [randomLevel_loop]; [done|]. specialize (Hd 0%nat). by destruct (Z.ltb_spec (draws 0%nat) 1); [lia|].
  - intros Hd. replace maxLevel with (1 + Z.of_nat (Z.to_nat (maxLevel - 1))) at 3 by lia.
    replace (Z.to_nat maxLevel) with (S (Z.to_nat (maxLevel - 1))) by lia.
    assert (forall k fuel d lvl, (forall n, d n < 1) -> lvl + Z.of_nat k = maxLevel -> (k < fuel)%nat ->
      randomLevel_loop fuel d maxLevel lvl = lvl + Z.of_nat k) as Hgen.
    { induction k as [|k IH]; intros fuel d lvl Hd' El Hf; (destruct fuel as [|fuel]; [lia|]); cbn [randomLevel_loop].
      - destruct (Z.ltb_spec lvl maxLevel); [lia|]. rewrite andb_false_r. lia.
      - pose proof (Hd' 0%nat). destruct (Z.ltb_spec (d 0%nat) 1); [|lia]. destruct (Z.ltb_spec lvl maxLevel); [|lia]. cbn [andb].
        rewrite IH; [lia|by intros n; apply Hd'|lia|lia]. }
    apply (Hgen (Z.to_nat (maxLevel - 1))); [done|lia|lia].
Qed.

Lemma randomLevel_bounds_witness :
  SkipList_randomLevel (fun n => Z.of_nat n - 2) 32 = 4 /\ 1 <= SkipList_randomLevel (fun n => Z.of_nat n - 2) 32 <= 32.
Proof. split; [reflexivity|]. apply (randomLevel_bounds (fun n => Z.of_nat n - 2) 32 5). lia. Defined.

(** * Reading *)

Section Reading.
Context {BM : BuildMode} {T : Type} `{RocksDB T}.
Variable cfg : StoreCfg.

Lemma represents_reads (tx : RocksTxn T) sl sl' l xs :
  sl_rep cfg tx sl xs -> zset_ok l -> members xs = l -> loaded cfg tx sl sl' -> represents cfg tx sl' l.
Proof. intros R Hz E Hl. eapply represents_loaded; [|exact Hl]. split; [done|]. by exists xs. Qed.

(** Ranks count from 1 in the order of the set: [rank] gives a member its place, [getEleByRank]
    the element of a place, and neither changes the set. *)
Theorem skiplist_rank (tx : RocksTxn T) sl (A B : list member) score key :
  represents cfg tx sl (A ++ (score, key) :: B) ->
  exists sl1 sl2 e,
    SkipList_rank cfg sl tx score key = Ret (sl1, zlen A + 1) /\ represents cfg tx sl1 (A ++ (score, key) :: B) /\
    SkipList_getEleByRank cfg sl1 tx (zlen A + 1) = Ret (sl2, Some e) /\ ze_score e = score /\ ze_subKey e = key /\
    represents cfg tx sl2 (A ++ (score, key) :: B).
Proof.
  intros (Hz & xs & R & E). destruct (members_split _ _ _ _ E) as (A' & a & B' & Exs & EA & Ea & EB). injection Ea as Es Ek.
  rewrite <-E in Hz. rewrite <-EA, zlen_members, EA.
  destruct (rank_ok cfg tx sl xs A' a B' score key R Hz Exs) as (sl1 & E1 & Hl1).
  { rewrite <-Es. apply (zset_nan xs a Hz). rewrite Exs. apply elem_of_app. right. left. }
  { by rewrite Es. }
  { done. }
  pose proof (rep_loaded _ _ _ _ _ R Hl1) as R1. pose proof (zlen_nonneg A').
  destruct (getEleByRank_ok cfg tx sl1 xs (zlen A' + 1) R1) as (sl2 & o & E2 & Hl2 & Ho); [lia|].
  replace (znth (head_node :: xs) (zlen A' + 1)) with (Some a) in Ho.
  2:{ rewrite Exs, znth_lookup by lia. unfold zlen. replace (Z.to_nat (Z.of_nat (length A') + 1)) with (S (length A')) by lia.
      cbn. symmetry. by apply list_lookup_middle. }
  destruct Ho as (e & -> & He & _). pose proof (sr_nodes _ _ _ _ R1) as Hn. rewrite Exs in Hn. apply Forall_mid in Hn as (e' & He' & _ & Hs' & Hk').
  rewrite He in He'. injection He' as <-. rewrite E in Hz. exists sl1, sl2, e. rewrite Hs', Hk'.
  split_and!; try done; eapply represents_reads; eauto using loaded_trans, loaded_refl.
Qed.

(** [scanByRank] lists the members from place [start] on, [len] of them, in the order of the
    set or backwards. *)
Theorem skiplist_scanByRank (tx : RocksTxn T) sl l start len (rv : bool) :
  represents cfg tx sl l -> 0 <= start -> 0 < len -> start + len <= zlen l ->
  exists sl', SkipList_scanByRank cfg sl tx start len rv = Ret (sl', ztake len (zdrop start (if rv then rev l else l))) /\
    represents cfg tx sl' l.
Proof.
  intros (Hz & xs & R & E) Hs Hl Hle. rewrite <-E, zlen_members in Hle.
  destruct (scanByRank_ok cfg tx sl xs start len rv R Hs Hl Hle) as (sl' & E' & Hl'). rewrite E in E'. exists sl'.
  split; [done|]. by eapply represents_reads.
Qed.

(** [scanByScore] lists the members with a score in the range, without the first [offset] and
    not more than [limit], in the order of the set or backwards; an empty range, an empty set and
    infinite bounds included. *)
Theorem skiplist_scanByScore (tx : RocksTxn T) sl l range offset limit (rv : bool) :
  represents cfg tx sl l -> 0 <= offset -> 0 <= limit ->
  exists sl', SkipList_scanByScore cfg sl tx range offset limit rv =
      Ret (sl', ztake limit (zdrop offset (List.filter (score_in range) (if rv then rev l else l)))) /\
    represents cfg tx sl' l.
Proof.
  intros (Hz & xs & R & E) Ho Hl. rewrite <-E in Hz. destruct (scanByScore_ok cfg tx sl xs range offset limit rv R Hz Ho Hl) as (sl' & E' & Hl').
  rewrite E in E', Hz. exists sl'. split; [done|]. by eapply represents_reads.
Qed.

(** In a set whose members all have one score, [scanByLex] lists the members in the range of
    keys, without the first [offset] and not more than [limit], in the order of the set or
    backwards. The keys minstring and maxstring stand for the ends of a range and are no members. *)
Theorem skiplist_scanByLex (tx : RocksTxn T) sl l range offset limit (rv : bool) :
  represents cfg tx sl l -> same_score l -> Forall plain l -> 0 <= offset -> 0 <= limit ->
  exists sl', SkipList_scanByLex cfg sl tx range offset limit rv =
      Ret (sl', ztake limit (zdrop offset (List.filter (lex_in range) (if rv then rev l else l)))) /\
    represents cfg tx sl' l.
Proof.
  intros (Hz & xs & R & E) Hs Hp Ho Hl. rewrite <-E in Hz, Hs, Hp.
  destruct (scanByLex_ok cfg tx sl xs range offset limit rv R Hz Hs Hp Ho Hl) as (sl' & E' & Hl').
  rewrite E in E', Hz. exists sl'. split; [done|]. by eapply represents_reads.
Qed.

End Reading.

(** * Changing *)

(** The calls that change a list, with the time of the call; [ZReload] is [save], and the list a
    later command makes of the records. *)
Inductive ZOp : Type :=
  | ZInsert (score : Z) (key : bytes) (lvl : Z)
  | ZRemove (score : Z) (key : bytes)
  | ZRemoveByRank (start end_ : Z)
  | ZRemoveByScore (range : Zrangespec)
  | ZRemoveByLex (range : Zlexrangespec)
  | ZReload (old : M RecordValue) (versionEP : Z).

(** What the caller has to see to. *)
Definition op_pre (l : list member) (o : ZOp) : Prop :=
  match o with
  | ZInsert score key lvl => (key ∉ map snd l) /\ dbl_nan score = false /\ is_u64 score /\ zlen key <= 2 ^ 61 /\ 1 <= lvl <= MAX_LAYER
  | ZRemove score key => (score, key) ∈ l
  | ZRemoveByRank start end_ => 1 <= start <= end_
  | ZRemoveByScore range => dbl_nan (zr_min range) = false
  | ZRemoveByLex range => same_score l /\ Forall plain l
  | ZReload old ep => is_u64 ep /\ old_ok old
  end.

(** The sorted set afterwards, and the members a range removal returns. *)
Definition op_spec (l : list member) (o : ZOp) : list member * list member :=
  match o with
  | ZInsert score key _ => (zset_add (score, key) l, [])
  | ZRemove _ key => (zset_rem key l, [])
  | ZRemoveByRank start end_ => (ztake (start - 1) l ++ zdrop end_ l, ztake (end_ - start + 1) (zdrop (start - 1) l))
  | ZRemoveByScore range => (List.filter (fun x => negb (score_in range x)) l, List.filter (score_in range) l)
  | ZRemoveByLex range => (List.filter (fun x => negb (lex_in range x)) l, List.filter (lex_in range) l)
  | ZReload _ _ => (l, [])
  end.

Fixpoint ops_pre (l : list member) (os : list ZOp) : Prop :=
  match os with [] => True | o :: os' => op_pre l o /\ ops_pre (fst (op_spec l o)) os' end.

Fixpoint ops_spec (l : list member) (os : list ZOp) : list member * list (list member) :=
  match os with
  | [] => (l, [])
  | o :: os' => let r := ops_spec (fst (op_spec l o)) os' in (fst r, snd (op_spec l o) :: snd r)
  end.

Section Changing.
Context {BM : BuildMode} {T : Type} `{RocksDBLaws T} {HH : RocksDBHealthy T}.
Variable cfg : StoreCfg.

Definition op_run (sl : SkipList) (tx : RocksTxn T) (now : Z) (o : ZOp) : M (SkipList * RocksTxn T * list member) :=
  match o with
  | ZInsert score key lvl => sl ← SkipList_insert cfg sl tx score key lvl; Ret (sl, tx, [])
  | ZRemove score key => '(sl, tx) ← SkipList_remove cfg sl tx score key now; Ret (sl, tx, [])
  | ZRemoveByRank start end_ => SkipList_removeRangeByRank cfg sl tx start end_ now
  | ZRemoveByScore range => SkipList_removeRangeByScore cfg sl tx range now
  | ZRemoveByLex range => SkipList_removeRangeByLex cfg sl tx range now
  | ZReload old ep =>
      '(sl, tx) ← SkipList_save cfg sl tx old ep now;
      rv ← RocksKVStore_getKV cfg (RecordKey_new (sl_chunkId sl) (sl_dbId sl) RT_ZSET_META (sl_pk sl) [] 0) tx;
      meta ← ZSlMetaValue_decode (rv_value rv);
      Ret (SkipList_new (sl_chunkId sl) (sl_dbId sl) (sl_pk sl) meta, tx, [])
  end.

Fixpoint ops_run (sl : SkipList) (tx : RocksTxn T) (now : Z) (os : list ZOp) : M (SkipList * RocksTxn T * list (list member)) :=
  match os with
  | [] => Ret (sl, tx, [])
  | o :: os' =>
      '(sl, tx, res) ← op_run sl tx now o;
      '(sl, tx, rest) ← ops_run sl tx now os';
      Ret (sl, tx, res :: rest)
  end.

Hypothesis Hcat : cfg_isCatalog cfg = false.

(** The step of one call: the set of the specification, and a position taken at most. *)
Definition op_steps (tx : RocksTxn T) sl l now o : Prop :=
  exists sl' tx', op_run sl tx now o = Ret (sl', tx', snd (op_spec l o)) /\ writable tx' /\
    represents cfg tx' sl' (fst (op_spec l o)) /\ sl_posAlloc sl' <= sl_posAlloc sl + 1.

Lemma insert_steps (tx : RocksTxn T) sl l now score key lvl :
  represents cfg tx sl l -> writable tx -> zlen l + 1 < INT32_MAX / 2 -> sl_posAlloc sl + 1 < SKIPLIST_INVALID_POS ->
  op_pre l (ZInsert score key lvl) -> op_steps tx sl l now (ZInsert score key lvl).
Proof.
  intros (Hz & xs & R & E) Hw Hc Ha (Hk & Hn & Hu & Hl & Hlvl). rewrite <-E in Hz, Hk. destruct (sr_count _ _ _ _ R) as [Ec _].
  destruct (insert_ok cfg tx sl xs score key lvl R Hz Hk Hn Hu Hl Hlvl) as (sl' & xs' & E' & R' & Ex); [|done|].
  { rewrite Ec, <-(zlen_members xs), E. lia. }
  destruct (insert_kept cfg sl tx score key lvl sl' E') as (_ & Ep & _). exists sl', tx. cbn [op_run]. rewrite E', bind_Ret. rewrite E in *.
  pose proof (sr_alloc _ _ _ _ R). unfold HEAD_ID, SKIPLIST_INVALID_POS in *. rewrite wrap_id in Ep by (unfold is_u; lia).
  split_and!; [done|apply Hw..|split; [by apply zset_add_ok|by exists xs']|lia].
Qed.

Lemma remove_steps (tx : RocksTxn T) sl l now score key :
  represents cfg tx sl l -> writable tx -> op_pre l (ZRemove score key) -> op_steps tx sl l now (ZRemove score key).
Proof.
  intros (Hz & xs & R & E) Hw (P & S & ->)%list_elem_of_split. destruct (members_split _ _ _ _ E) as (A & a & B & -> & EA & Ea & EB).
  injection Ea as Es Ek. rewrite <-E in Hz.
  destruct (remove_ok cfg Hcat tx sl A a B score key now R Hz Hw) as (sl' & tx' & E' & R' & Hw' & _); [|by rewrite Es|done|].
  { rewrite <-Es. apply (zset_nan _ a Hz). apply elem_of_app. right. left. }
  exists sl', tx'. cbn [op_run]. rewrite E', bind_Ret. destruct (remove_kept cfg sl sl tx score key now (kept_refl sl) _ E') as (_ & Ep & _).
  cbn [fst] in Ep. split_and!; [done|apply Hw'..| |lia]. cbn [op_spec fst]. rewrite E in Hz. split.
  - eapply zset_ok_sublist; [apply filter_sublist|done].
  - exists (A ++ B). split; [done|]. destruct Hz as (_ & _ & Hd). pose proof (zset_rem_split P (score, key) S Hd) as Er. cbn [snd] in Er.
    by rewrite Er, members_app, EA, EB.
Qed.

(** A range removal: the set of the specification, with only nodes deleted. *)
Definition range_result (tx : RocksTxn T) sl l now o : Prop :=
  exists sl' tx', op_run sl tx now o = Ret (sl', tx', snd (op_spec l o)) /\ represents cfg tx' sl' (fst (op_spec l o)) /\
    stays sl tx tx' /\ kept sl sl'.

Lemma range_shape (tx : RocksTxn T) sl l now o test cond :
  represents cfg tx sl l -> (forall sl tx, op_run sl tx now o = remove_range cfg sl tx test cond now) ->
  fst (op_spec l o) `sublist_of` l ->
  (forall xs, sl_rep cfg tx sl xs -> members xs = l -> exists sl' tx' ys, op_run sl tx now o = Ret (sl', tx', snd (op_spec l o)) /\
     sl_rep cfg tx' sl' ys /\ stays sl tx tx' /\ members ys = fst (op_spec l o)) ->
  range_result tx sl l now o.
Proof.
  intros (Hz & xs & R & E) Ho Hsub Hrun. destruct (Hrun xs R E) as (sl' & tx' & ys & E' & R' & Hw' & Ey). exists sl', tx'.
  split; [done|]. split; [split; [by eapply zset_ok_sublist|by exists ys]|]. split; [done|]. rewrite Ho in E'.
  by apply (remove_range_kept cfg sl sl tx test cond now (kept_refl sl) _ E').
Qed.

Definition is_range (o : ZOp) : Prop :=
  match o with ZRemoveByRank _ _ | ZRemoveByScore _ | ZRemoveByLex _ => True | _ => False end.

Lemma range_ok (tx : RocksTxn T) sl l now o :
  is_range o -> represents cfg tx sl l -> writable tx -> op_pre l o -> range_result tx sl l now o.
Proof.
  intros Ho Hr Hw Hp. destruct o; try done.
  - eapply range_shape; [done|by intros|apply ztake_zdrop_sublist; cbn in Hp; lia|]. intros xs R <-. by apply removeRangeByRank_ok.
  - eapply range_shape; [done|by intros|apply filter_sublist|]. intros xs R <-. apply removeRangeByScore_ok; try done. by destruct Hr.
  - eapply range_shape; [done|by intros|apply filter_sublist|]. intros xs R <-. destruct Hp, Hr as [? _]. by apply removeRangeByLex_ok.
Qed.

Lemma range_steps (tx : RocksTxn T) sl l now o : range_result tx sl l now o -> op_steps tx sl l now o.
Proof.
  intros (sl' & tx' & E & Hr & [Hw _] & (_ & Ep & _)). exists sl', tx'. split; [done|]. split; [done|]. split; [done|]. lia.
Qed.

Lemma reload_steps (tx : RocksTxn T) sl l now old ep :
  represents cfg tx sl l -> writable tx -> op_pre l (ZReload old ep) -> op_steps tx sl l now (ZReload old ep).
Proof.
  intros (Hz & xs & R & E) Hw (Hep & Hold).
  destruct (save_ok cfg Hcat tx sl xs old ep now R Hw Hep Hold) as (sl' & tx' & rv & E' & Hw' & Eg & _ & Ed & R' & _).
  assert (kept sl sl') as (_ & _ & Ec & Edb & Epk).
  { unfold SkipList_save in E'. apply bind_Ret_inv in E' as ([sl1 tx1] & E1 & E2). cbn zeta in E2. apply bind_Ret_inv in E2 as (val & _ & E2).
    apply bind_Ret_inv in E2 as (tx2 & _ & [= <- _]). by apply (save_nodes_kept cfg sl _ _ _ _ (kept_refl sl) _ E1). }
  eexists _, tx'. cbn [op_run]. rewrite E', bind_Ret, Ec, Edb, Epk. fold (meta_key sl). rewrite Eg, bind_Ret, Ed, bind_Ret.
  split; [done|]. split; [done|]. split; [split; [done|by exists xs]|]. cbn. lia.
Qed.

Lemma op_ok (tx : RocksTxn T) sl l now o :
  represents cfg tx sl l -> writable tx -> zlen l + 1 < INT32_MAX / 2 -> sl_posAlloc sl + 1 < SKIPLIST_INVALID_POS ->
  op_pre l o -> op_steps tx sl l now o.
Proof.
  intros Hr Hw Hc Ha Hp. destruct o; [by apply insert_steps|by apply remove_steps|..|by apply reload_steps]; by apply range_steps, range_ok.
Qed.

Lemma op_spec_len l o : op_pre l o -> zlen (fst (op_spec l o)) <= zlen l + 1.
Proof.
  intros Hp. assert (forall l', l' `sublist_of` l -> zlen l' <= zlen l + 1) as Hs by (intros l' Hl%sublist_length; unfold zlen; lia).
  destruct o; cbn [op_spec fst]; try (apply Hs, filter_sublist); try (apply Hs; done).
  - unfold zlen. rewrite zset_add_perm. cbn [length]. lia.
  - apply Hs, ztake_zdrop_sublist. cbn in Hp. lia.
Qed.

Lemma ops_ok (os : list ZOp) : forall (tx : RocksTxn T) sl l now,
  represents cfg tx sl l -> writable tx ->
  zlen l + zlen os < INT32_MAX / 2 -> sl_posAlloc sl + zlen os < SKIPLIST_INVALID_POS -> ops_pre l os ->
  exists sl' tx', ops_run sl tx now os = Ret (sl', tx', snd (ops_spec l os)) /\ writable tx' /\
    represents cfg tx' sl' (fst (ops_spec l os)).
Proof.
  induction os as [|o os IH]; intros tx sl l now Hr Hw Hc Ha Hp; cbn [ops_run ops_spec]; [by exists sl, tx|].
  destruct Hp as [Hp Hps]. rewrite zlen_cons in Hc, Ha. pose proof (zlen_nonneg os).
  destruct (op_ok tx sl l now o Hr Hw ltac:(lia) ltac:(lia) Hp) as (sl1 & tx1 & E1 & Hw1 & Hr1 & Ha1).
  pose proof (op_spec_len l o Hp). destruct (IH tx1 sl1 (fst (op_spec l o)) now Hr1 Hw1 ltac:(lia) ltac:(lia) Hps) as (sl2 & tx2 & E2 & Hw2 & Hr2).
  rewrite E1, bind_Ret, E2, bind_Ret. by exists sl2, tx2.
Qed.

(** C5: a skip list implements a sorted set: over any sequence of insertions, removals of a member,
    of a range of ranks, of scores or of keys, and of saves after which the list is made anew
    from its records, the calls return and give what the same sequence gives on a list of
    members sorted by score and key, in every build. *)
Theorem skiplist_refines (os : list ZOp) (tx : RocksTxn T) sl l now :
  represents cfg tx sl l -> writable tx ->
  zlen l + zlen os < INT32_MAX / 2 -> sl_posAlloc sl + zlen os < SKIPLIST_INVALID_POS -> ops_pre l os ->
  exists sl' tx', ops_run sl tx now os = Ret (sl', tx', snd (ops_spec l os)) /\ writable tx' /\
    represents cfg tx' sl' (fst (ops_spec l os)).
Proof. apply ops_ok. Qed.

End Changing.

(** * A list over the database of Replicate.v *)

#[local] Instance demo_build : BuildMode := true.

(** The head of the list of the set s of database 0, chunk 5. *)
Definition demo_list : SkipList := SkipList_new 5 0 (lit "s") (ZSlMetaValue_new 1 1 0).

Definition demo_start : M (RocksTxn MemDB) :=
  RocksKVStore_setKV demo_cfg (node_key demo_list HEAD_ID)
    (RecordValue_new (ZSlEleValue_encode head_value) RT_ZSET_S_ELE MAXU64 0 (-1) 0 MAXU64) (RocksTxn_new 1 false ∅) 0.

Definition demo_tx : RocksTxn MemDB := Eval vm_compute in match demo_start with Ret tx => tx | _ => RocksTxn_new 1 false ∅ end.

Lemma demo_empty : represents demo_cfg demo_tx demo_list [].
Proof.
  split; [repeat constructor|]. exists []. split; [|done]. apply empty_rep; [by vm_compute|]. by vm_compute.
Qed.

Lemma demo_writable : writable demo_tx.
Proof. by vm_compute. Qed.

(** The doubles 1, 2 and 3. *)
Definition d1 : Z := 0x3FF0000000000000.
Definition d2 : Z := 0x4000000000000000.
Definition d3 : Z := 0x4008000000000000.

Definition demo_calls : list ZOp :=
  [ZInsert d2 (lit "b") 1; ZInsert d1 (lit "c") 3; ZInsert d2 (lit "a") 2; ZReload (Throw ERR_NOTFOUND []) 0;
   ZInsert d3 (lit "z") 1; ZRemove d1 (lit "c"); ZRemoveByScore (mkRange d2 d2 false false); ZReload (Throw ERR_NOTFOUND []) 0].

Lemma insert_pre l score key lvl :
  bool_decide (key ∉ map snd l) && negb (dbl_nan score) && bool_decide (is_u64 score) && bool_decide (zlen key <= 2 ^ 61) &&
    bool_decide (1 <= lvl <= MAX_LAYER) = true -> op_pre l (ZInsert score key lvl).
Proof. rewrite !andb_true_iff, negb_true_iff, !bool_decide_eq_true. by intros [[[[? ?] ?] ?] ?]. Qed.

Lemma demo_pre : ops_pre [] demo_calls.
Proof.
  unfold demo_calls. cbn [ops_pre]. do 3 (split; [apply insert_pre; by vm_compute|]). split; [by split|].
  split; [apply insert_pre; by vm_compute|]. split; [cbn [op_pre]; apply (bool_decide_unpack _); by vm_compute|]. by split.
Qed.

Lemma skiplist_refines_witness :
  exists sl' tx', ops_run demo_cfg demo_list demo_tx 0 demo_calls =
      Ret (sl', tx', [[]; []; []; []; []; []; [(d2, lit "a"); (d2, lit "b")]; []]) /\
    represents demo_cfg tx' sl' [(d3, lit "z")].
Proof.
  destruct (skiplist_refines demo_cfg eq_refl demo_calls demo_tx demo_list [] 0) as (sl' & tx' & E & _ & R).
  - exact demo_empty.
  - exact demo_writable.
  - reflexivity.
  - reflexivity.
  - exact demo_pre.
  - replace (ops_spec [] demo_calls) with ([(d3, lit "z")], [[]; []; []; []; []; []; [(d2, lit "a"); (d2, lit "b")]; []]) in * by (by vm_compute).
    exists sl', tx'. split; [exact E|exact R].
Defined.

(** The set with c of score 1 and a, b of score 2. *)
Definition demo_set : list member := [(d1, lit "c"); (d2, lit "a"); (d2, lit "b")].

Lemma demo_filled : exists sl tx, represents demo_cfg tx sl demo_set.
Proof.
  destruct (ops_ok demo_cfg eq_refl [ZInsert d2 (lit "b") 1; ZInsert d1 (lit "c") 3; ZInsert d2 (lit "a") 2] demo_tx demo_list [] 0)
    as (sl & tx & _ & _ & R); [exact demo_empty|exact demo_writable|reflexivity|reflexivity| |].
  - cbn [ops_pre]. by do 3 (split; [apply insert_pre; by vm_compute|]).
  - exists sl, tx. replace demo_set with (fst (ops_spec [] [ZInsert d2 (lit "b") 1; ZInsert d1 (lit "c") 3; ZInsert d2 (lit "a") 2])) by (by vm_compute).
    exact R.
Qed.

Lemma skiplist_rank_witness :
  exists sl tx sl1 sl2 e, represents demo_cfg tx sl demo_set /\
    SkipList_rank demo_cfg sl tx d2 (lit "a") = Ret (sl1, 2) /\
    SkipList_getEleByRank demo_cfg sl1 tx 2 = Ret (sl2, Some e) /\ ze_subKey e = lit "a".
Proof.
  destruct demo_filled as (sl & tx & R).
  destruct (skiplist_rank demo_cfg tx sl [(d1, lit "c")] [(d2, lit "b")] d2 (lit "a") R) as (sl1 & sl2 & e & E1 & _ & E2 & _ & Ek & _).
  exists sl, tx, sl1, sl2, e. split; [exact R|]. split; [exact E1|]. split; [exact E2|exact Ek].
Defined.

Lemma skiplist_scanByRank_witness :
  exists sl tx sl', represents demo_cfg tx sl demo_set /\
    SkipList_scanByRank demo_cfg sl tx 0 2 true = Ret (sl', [(d2, lit "b"); (d2, lit "a")]).
Proof.
  destruct demo_filled as (sl & tx & R).
  destruct (skiplist_scanByRank demo_cfg tx sl demo_set 0 2 true R) as (sl' & E & _); [by vm_compute..|].
  exists sl, tx, sl'. split; [exact R|exact E].
Defined.

Lemma skiplist_scanByScore_witness :
  exists sl tx sl', represents demo_cfg tx sl demo_set /\
    SkipList_scanByScore demo_cfg sl tx (mkRange d1 d2 true false) 1 10 false = Ret (sl', [(d2, lit "b")]).
Proof.
  destruct demo_filled as (sl & tx & R).
  destruct (skiplist_scanByScore demo_cfg tx sl demo_set (mkRange d1 d2 true false) 1 10 false R) as (sl' & E & _); [by vm_compute..|].
  exists sl, tx, sl'. split; [exact R|exact E].
Defined.

(** Three members of score 1. *)
Definition demo_flat : list member := [(d1, lit "a"); (d1, lit "b"); (d1, lit "c")].

Lemma demo_flat_filled : exists sl tx, represents demo_cfg tx sl demo_flat.
Proof.
  destruct (ops_ok demo_cfg eq_refl [ZInsert d1 (lit "b") 1; ZInsert d1 (lit "c") 3; ZInsert d1 (lit "a") 2] demo_tx demo_list [] 0)
    as (sl & tx & _ & _ & R); [exact demo_empty|exact demo_writable|reflexivity|reflexivity| |].
  - cbn [ops_pre]. by do 3 (split; [apply insert_pre; by vm_compute|]).
  - exists sl, tx. replace demo_flat with (fst (ops_spec [] [ZInsert d1 (lit "b") 1; ZInsert d1 (lit "c") 3; ZInsert d1 (lit "a") 2])) by (by vm_compute).
    exact R.
Qed.

Lemma skiplist_scanByLex_witness :
  exists sl tx sl', represents demo_cfg tx sl demo_flat /\
    SkipList_scanByLex demo_cfg sl tx (mkLexRange ZLEXMIN (lit "c") false true) 0 10 true = Ret (sl', [(d1, lit "b"); (d1, lit "a")]).
Proof.
  destruct demo_flat_filled as (sl & tx & R).
  destruct (skiplist_scanByLex demo_cfg tx sl demo_flat (mkLexRange ZLEXMIN (lit "c") false true) 0 10 true R) as (sl' & E & _).
  - exists (dbl_key d1). by repeat constructor.
  - apply (bool_decide_unpack _). by vm_compute.
  - by vm_compute.
  - by vm_compute.
  - exists sl, tx, sl'. split; [exact R|exact E].
Defined.
