(* ===== verification/Double.v ===== *)
(** Doubles as their 64 bits: addition in IEEE 754 double precision, and the decimal text that
    [dtos] of utils/string.cpp gives. *)

From Stdlib Require Import Strings.Byte ZArith Lia Floats.SpecFloat.
From stdpp Require Import base list numbers strings.
From S2P Require Import Prelude Status Varint SkipList.

Local Open Scope Z_scope.

(** * Arithmetic *)

Definition dbl_prec : Z := 53.
Definition dbl_emax : Z := 1024.

(** The fields of a double. *)
Definition dbl_sign (b : Z) : bool := Z.testbit b 63.
Definition dbl_exp (b : Z) : Z := Z.land (Z.shiftr b 52) 0x7FF.
Definition dbl_frac (b : Z) : Z := Z.land b (2 ^ 52 - 1).

Definition dbl_to_sf (b : Z) : spec_float :=
  let s := dbl_sign b in
  let e := dbl_exp b in
  let f := dbl_frac b in
  if e =? 0x7FF then (if f =? 0 then S754_infinity s else S754_nan)
  else if e =? 0 then
    match f with Zpos p => S754_finite s p (-1074) | _ => S754_zero s end
  else match f + 2 ^ 52 with Zpos p => S754_finite s p (e - 1075) | _ => S754_zero s end.

Definition dbl_quiet_nan : Z := 0x7FF8000000000000.

Definition dbl_of_sf (x : spec_float) : Z :=
  let sgn (s : bool) : Z := if s then 2 ^ 63 else 0 in
  u64 match x with
      | S754_zero s => sgn s
      | S754_infinity s => sgn s + Z.shiftl 0x7FF 52
      | S754_nan => dbl_quiet_nan
      | S754_finite s m e =>
          if Zpos m <? 2 ^ 52 then sgn s + Zpos m else sgn s + Z.shiftl (e + 1075) 52 + (Zpos m - 2 ^ 52)
      end.

(** [a + b], rounded to nearest, ties to even. *)
Definition dbl_add (a b : Z) : Z := dbl_of_sf (SFadd dbl_prec dbl_emax (dbl_to_sf a) (dbl_to_sf b)).

Definition dbl_inf (b : Z) : bool := dbl_mag b =? 0x7FF0000000000000.

(** * Decimal text *)

(** [n / d] rounded to an integer, ties to even. *)
Definition div_even (n d : Z) : Z :=
  let q := n / d in
  let r := n mod d in
  if 2 * r <? d then q else if d <? 2 * r then q + 1 else if Z.even q then q else q + 1.

(** The exponent of the first significant digit of [n / d]. *)
Fixpoint exp10_loop (fuel : nat) (n d x : Z) : Z :=
  match fuel with
  | O => x
  | S fuel' =>
      let above := if 0 <=? x + 1 then 10 ^ (x + 1) * d <=? n else d <=? n * 10 ^ (- (x + 1)) in
      if above then exp10_loop fuel' n d (x + 1) else x
  end.

(** The estimate from the binary logarithm is at most 3 below. *)
Definition exp10 (n d : Z) : Z := exp10_loop 4 n d ((Z.log2 n - Z.log2 d - 1) * 30103 / 100000 - 1).

(** The decimal digits of [v], [k] of them. *)
Fixpoint digits10 (k : nat) (v : Z) : bytes :=
  match k with
  | O => []
  | S k' => digits10 k' (v / 10) ++ [u8 (v mod 10 + 48)]
  end.

Fixpoint drop_zeros (l : bytes) : bytes :=
  match l with
  | [] => []
  | b :: l' => if bool_decide (b = x30) then drop_zeros l' else l
  end.

Definition strip_zeros (l : bytes) : bytes := rev (drop_zeros (rev l)).

(** A fraction after the point, without its trailing zeros. *)
Definition fraction (l : bytes) : bytes := match strip_zeros l with [] => [] | f => lit "." ++ f end.

(** The conversion of printf with the format %.17g, for [n / d > 0]. *)
Definition printf_g17 (n d : Z) : bytes :=
  let x0 := exp10 n d in
  let scaled x := if 0 <=? 16 - x then div_even (n * 10 ^ (16 - x)) d else div_even n (d * 10 ^ (x - 16)) in
  let v0 := scaled x0 in
  let '(v, x) := if 10 ^ 17 <=? v0 then (10 ^ 16, x0 + 1) else (v0, x0) in
  let ds := digits10 17 v in
  if (-4 <=? x) && (x <? 17) then
    if 0 <=? x then ztake (x + 1) ds ++ fraction (zdrop (x + 1) ds)
    else lit "0" ++ fraction (zfill (- x - 1) x30 ++ ds)
  else
    ztake 1 ds ++ fraction (zdrop 1 ds) ++ lit "e" ++ (if x <? 0 then lit "-" else lit "+") ++
    (if Z.abs x <? 10 then lit "0" else []) ++ to_string (Z.abs x).

Definition dtos (d : Z) : bytes :=
  if dbl_inf d then (if dbl_sign d then lit "-inf" else lit "inf")
  else
    (if dbl_sign d then lit "-" else []) ++
    match dbl_to_sf d with
    | S754_nan => lit "nan"
    | S754_finite _ m e => if 0 <=? e then printf_g17 (Zpos m * 2 ^ e) 1 else printf_g17 (Zpos m) (2 ^ (- e))
    | _ => lit "0"
    end.
