(* ===== verification/Command.v ===== *)
(** What the commands share (commands/command.cpp, network/session_ctx.cpp): replies, the
    transaction of a session, the deletion of a meta record with its expiry index. *)

From Stdlib Require Import Strings.Byte ZArith Lia.
From stdpp Require Import base list numbers strings gmap.
From S2P Require Import Prelude Status Varint Strings Record RecordValue RecordMeta ReplLog BinlogSeq Txn Store.

Local Open Scope Z_scope.

(** * Replies *)

Definition Command_fmtErr (s : bytes) : bytes :=
  match s with
  | x2d :: _ => s
  | _ => lit "-ERR " ++ s ++ crlf
  end.

Definition Command_fmtNull : bytes := lit "$-1" ++ crlf.
Definition Command_fmtOK : bytes := lit "+OK" ++ crlf.
Definition Command_fmtOne : bytes := lit ":1" ++ crlf.
Definition Command_fmtZero : bytes := lit ":0" ++ crlf.
Definition Command_fmtLongLong (v : Z) : bytes := lit ":" ++ to_string v ++ crlf.
Definition Command_fmtBusyKey : bytes := lit "-BUSYKEY Target key name already exists." ++ crlf.
Definition Command_fmtZeroBulkLen : bytes := lit "*0" ++ crlf.
Definition Command_fmtMultiBulkLen (ss : bytes) (l : Z) : bytes := ss ++ lit "*" ++ to_string l ++ crlf.
Definition Command_fmtBulk (s : bytes) : bytes := lit "$" ++ to_string (zlen s) ++ crlf ++ s ++ crlf.
Definition Command_fmtStatus (s : bytes) : bytes := lit "+" ++ s ++ crlf.

(** * The session *)

(** The parts of a session that the commands look at. *)
Record SessionCtx : Set := mkSess {
  sc_dbId : Z;
  sc_versionEP : Z;
  sc_replOnly : bool;
  sc_cmd : bytes
}.

Section Command.
Context {BM : BuildMode} {T : Type} `{RocksDB T}.
Variable cfg : StoreCfg.

(** A store, its committed contents, and the transaction that the session has on it. *)
Record World : Type := mkWorld {
  w_store : RocksKVStore;
  w_db : T;
  w_txn : option (RocksTxn T)
}.

Definition SessionCtx_createTransaction (sess : SessionCtx) (w : World) : M (World * RocksTxn T) :=
  match w_txn w with
  | Some tx => Ret (w, tx)
  | None =>
      '(ks, txnId, replOnly) ← RocksKVStore_createTransaction (w_store w) (Some (sc_replOnly sess));
      let tx := RocksTxn_new txnId replOnly (w_db w) in
      Ret (mkWorld ks (w_db w) (Some tx), tx)
  end.

(** A transaction once [commit] has run: [_done] is set, [_txn] is reset. *)
Definition tx_finish (tx : RocksTxn T) : RocksTxn T :=
  mkTxn (tx_txnId tx) (tx_binlogId tx) (tx_chunkId tx) (tx_replOnly tx) true (tx_replLogValues tx) (tx_db tx).

(** An access through [_txn], a null pointer in a transaction that is done. *)
Definition txn_access (tx : RocksTxn T) : M unit := if tx_done tx then Crash CUndefined else Ret tt.

(** The transaction leaves the session when its commit is ok, and stays in it otherwise. *)
Definition SessionCtx_commitTransaction (sess : SessionCtx) (w : World) (tx : RocksTxn T) : M (World * M Z) :=
  _ ← INVARIANT_D (bool_decide (is_Some (w_txn w)));
  '(ks, db, r) ← RocksTxn_commit cfg (w_store w) (w_db w) tx (sc_cmd sess) (sc_versionEP sess);
  match r with
  | Ret id => Ret (mkWorld ks db None, Ret id)
  | e => Ret (mkWorld ks db (Some (tx_finish tx)), e)
  end.

(** [commitAll] of a session that has one transaction: it leaves the session in any case. *)
Definition SessionCtx_commitAll (sess : SessionCtx) (w : World) (tx : RocksTxn T) : M (World * M unit) :=
  '(ks, db, r) ← RocksTxn_commit cfg (w_store w) (w_db w) tx (sc_cmd sess) (sc_versionEP sess);
  Ret (mkWorld ks db None, _ ← r; Ret tt).

(** The commit, and the reply when it is ok. *)
Definition commit_reply (sess : SessionCtx) (w : World) (tx : RocksTxn T) (reply : bytes) : M (World * M bytes) :=
  '(w, commitStatus) ← SessionCtx_commitTransaction sess w tx;
  Ret (w, _ ← commitStatus; Ret reply).

(** A step whose error the command returns: what has been committed stays. *)
Definition or_return {A B} (w : World) (m : M A) (k : A -> M (World * M B)) : M (World * M B) :=
  match m with
  | Ret a => k a
  | Throw c msg => Ret (w, Throw c msg)
  | Crash c => Crash c
  end.

(** [INVARIANT_D] that a result is ok, before its status is returned. *)
Definition expect_ok {A} (m : M A) : M A :=
  match m with
  | Throw c msg => _ ← INVARIANT_D false; Throw c msg
  | _ => m
  end.

(** A read that may find nothing: the other errors are returned. *)
Definition find_record (m : M RecordValue) : M (option RecordValue) :=
  match m with
  | Ret rv => Ret (Some rv)
  | Throw ERR_NOTFOUND _ => Ret None
  | Throw c msg => Throw c msg
  | Crash c => Crash c
  end.

(** Whether a meta record was read; without one, there is nothing to do for the key. *)
Definition meta_or_none (m : M RecordValue) : M (option RecordValue) :=
  match m with
  | Ret rv => Ret (Some rv)
  | Throw ERR_NOTFOUND _ | Throw ERR_EXPIRED _ => Ret None
  | Throw c msg => Throw c msg
  | Crash c => Crash c
  end.

Definition Command_delKeyAndTTL (sess : SessionCtx) (mk : RecordKey) (val : RecordValue) (tx : RocksTxn T) (now : Z)
  : M (RocksTxn T) :=
  tx ← RocksKVStore_delKV cfg mk tx now;
  if (0 <? rv_ttl val) && negb (bool_decide (rv_type val = RT_KV)) then
    k ← TTLIndex_encode (mkTTLIndex (rk_pk mk) (rv_type val) (sc_dbId sess) (rv_ttl val));
    RocksTxn_delKV cfg tx k 0 now
  else Ret tx.

(** The loops over [RETRY_CNT] around a command. *)
Definition RETRY_CNT : nat := 3.

Fixpoint retry {A} (n : nat) (run : World -> M (World * M A)) (w : World) : M (World * M A) :=
  match n with
  | O => _ ← INVARIANT_D false; Ret (w, Throw ERR_INTERNAL (lit "not reachable"))
  | S n' =>
      '(w, s) ← run w;
      match s with
      | Throw ERR_COMMIT_RETRY msg => if Nat.eqb n' 0 then Ret (w, s) else retry n' run w
      | _ => Ret (w, s)
      end
  end.

End Command.

(** * Ranges of places *)

(** Indices from the end are negative; [None] is an empty range. *)
Definition clip_range (llen start end_ : Z) : option (Z * Z) :=
  let start := if start <? 0 then llen + start else start in
  let end_ := if end_ <? 0 then llen + end_ else end_ in
  let start := if start <? 0 then 0 else start in
  if (end_ <? start) || (llen <=? start) then None
  else Some (start, if llen <=? end_ then llen - 1 else end_).

Lemma clip_range_bounds len start end_ s e : 0 <= len -> clip_range len start end_ = Some (s, e) -> 0 <= s <= e /\ e < len.
Proof.
  intros Hl. unfold clip_range. set (s1 := if start <? 0 then _ else _). set (e1 := if end_ <? 0 then _ else _).
  destruct (Z.ltb_spec s1 0), (Z.ltb_spec e1 (if s1 <? 0 then 0 else s1)); cbn [orb].
  all: repeat match goal with |- context [?a <? ?b] => destruct (Z.ltb_spec a b) | |- context [?a <=? ?b] => destruct (Z.leb_spec a b) end; cbn [orb]; try done.
  all: intros [= <- <-]; lia.
Qed.

