(* ===== verification/Elems.v ===== *)
(** The records of the elements of a key: lists, hashes and sets keep every element in a record of
    its own. What a transaction of the store makes of a family of such records, as a finite map. *)

From Stdlib Require Import Strings.Byte ZArith Lia.
From stdpp Require Import base list numbers strings gmap.
From S2P Require Import Prelude Status Varint Record RecordValue RecordMeta ReplLog BinlogSeq Txn Store Command.

Local Open Scope Z_scope.

(** A family of keys of the data: [key k] is the key of the element [k], for the [k] that are
    [ok]. Different elements have different keys. *)
Class KeyFamily {K : Type} (key : K -> RecordKey) (ok : K -> Prop) : Prop := {
  family_data k : ok k -> data_key (key k);
  family_inj k1 k2 : ok k1 -> ok k2 -> RecordKey_equiv (key k1) (key k2) -> k1 = k2
}.

Section Elems.
Context {BM : BuildMode} {T : Type} `{RocksDBLaws T} {HH : RocksDBHealthy T}.
Variable cfg : StoreCfg.
Hypothesis Hcat : cfg_isCatalog cfg = false.
Context `{Countable K} (key : K -> RecordKey) (ok : K -> Prop) `{!KeyFamily key ok}.
Variable type : RecordType.

(** A record of an element with the value [v], or none. *)
Definition elem_at (tx : RocksTxn T) (k : RecordKey) (o : option bytes) : Prop :=
  match o with
  | Some v => exists rv, RocksKVStore_getKV cfg k tx = Ret rv /\ RecordValue_wf rv /\ rv_type rv = type /\ rv_value rv = v
  | None => exists msg, RocksKVStore_getKV cfg k tx = Throw ERR_NOTFOUND msg
  end.

(** The records of the family are those of the map. *)
Definition elems (tx : RocksTxn T) (m : gmap K bytes) : Prop :=
  writable tx /\ forall k, ok k -> elem_at tx (key k) (m !! k).

(** The keys of other records, and two transactions that agree on them. *)
Definition outside (k : RecordKey) : Prop := data_key k /\ forall j, ok j -> ~ RecordKey_equiv k (key j).

Definition same_outside (tx tx' : RocksTxn T) : Prop := forall k, outside k -> raw_record tx' k = raw_record tx k.

#[export] Instance same_outside_preorder : PreOrder same_outside.
Proof. split; [by intros tx k|]. intros tx1 tx2 tx3 E12 E23 k Hk. by rewrite E23, E12. Qed.

Lemma elem_at_frame tx tx' k o : data_key k -> raw_record tx' k = raw_record tx k -> elem_at tx k o -> elem_at tx' k o.
Proof.
  intros Hk Er Ha. pose proof (getKV_raw cfg k tx Hk) as G1. pose proof (getKV_raw cfg k tx' Hk) as G2. rewrite Er in G2.
  unfold elem_at in *. destruct (raw_record tx k); [by rewrite G2, <-G1|]. destruct G1 as [m1 G1]. rewrite G1 in Ha.
  destruct o; [by destruct Ha as (? & ? & _)|done].
Qed.

Lemma elems_get tx m k v :
  elems tx m -> ok k -> m !! k = Some v ->
  exists rv, RocksKVStore_getKV cfg (key k) tx = Ret rv /\ RecordValue_wf rv /\ rv_type rv = type /\ rv_value rv = v.
Proof. intros [_ He] Hk E. specialize (He k Hk). by rewrite E in He. Qed.

Lemma elems_none tx m k :
  elems tx m -> ok k -> m !! k = None -> exists msg, RocksKVStore_getKV cfg (key k) tx = Throw ERR_NOTFOUND msg.
Proof. intros [_ He] Hk E. specialize (He k Hk). by rewrite E in He. Qed.

(** A record of the family written or deleted. *)
Lemma elems_wrote tx tx' m k s o :
  elems tx m -> ok k -> wrote_record tx tx' (key k) s -> elem_at tx' (key k) o ->
  elems tx' (partial_alter (fun _ => o) k m) /\ same_outside tx tx'.
Proof.
  intros [_ He] Hk (Hw & _ & Hr) Ha. split; [split; [done|]|].
  - intros j Hj. destruct (decide (j = k)) as [->|Hn]; [by rewrite lookup_partial_alter_eq|].
    rewrite lookup_partial_alter_ne by done. apply (elem_at_frame tx); [by apply family_data| |by apply He].
    apply Hr; [by apply family_data|]. intros E. by apply Hn, family_inj.
  - intros k' [Hd Hf]. apply Hr; [done|]. by apply Hf.
Qed.

Lemma elems_set tx m k rv now :
  elems tx m -> ok k -> RecordValue_wf rv -> rv_type rv = type ->
  exists tx', RocksKVStore_setKV cfg (key k) rv tx now = Ret tx' /\ elems tx' (<[k := rv_value rv]> m) /\ same_outside tx tx'.
Proof.
  intros He Hk Hwf Ht. pose proof (family_data k Hk) as Hd.
  destruct (setKV_ok cfg Hcat (key k) rv tx now Hd Hwf (proj1 He)) as (tx' & s & E & W & Ed). exists tx'. split; [done|].
  apply (elems_wrote tx tx' m k (Some s) (Some (rv_value rv)) He Hk W). exists rv.
  pose proof (getKV_raw cfg (key k) tx' Hd) as Hg. rewrite (proj1 (proj2 W)) in Hg. by rewrite Hg.
Qed.

Lemma elems_del tx m k now :
  elems tx m -> ok k ->
  exists tx', RocksKVStore_delKV cfg (key k) tx now = Ret tx' /\ elems tx' (delete k m) /\ same_outside tx tx'.
Proof.
  intros He Hk. pose proof (family_data k Hk) as Hd.
  destruct (delKV_ok cfg Hcat (key k) tx now Hd (proj1 He)) as (tx' & E & W). exists tx'. split; [done|].
  apply (elems_wrote tx tx' m k None None He Hk W). pose proof (getKV_raw cfg (key k) tx' Hd) as Hg. by rewrite (proj1 (proj2 W)) in Hg.
Qed.

(** A record outside the family written or deleted. *)
Lemma elems_other tx tx' m k s : elems tx m -> outside k -> wrote_record tx tx' k s -> elems tx' m.
Proof.
  intros [_ He] [_ Ho] (Hw & _ & Hr). split; [done|]. intros j Hj. apply (elem_at_frame tx); [by apply family_data| |by apply He].
  apply Hr; [by apply family_data|]. intros E. apply (Ho j Hj). by symmetry.
Qed.

End Elems.

(** * The meta record *)

Section Meta.
Context {BM : BuildMode} {T : Type} `{RocksDBLaws T} {HH : RocksDBHealthy T}.
Variable cfg : StoreCfg.
Variable sess : SessionCtx.
Hypothesis Hcat : cfg_isCatalog cfg = false.
Hypothesis Hdb : is_u32 (sc_dbId sess).

Lemma getKV_none (tx : RocksTxn T) k : data_key k -> raw_record tx k = None -> exists msg, RocksKVStore_getKV cfg k tx = Throw ERR_NOTFOUND msg.
Proof. intros Hk E. pose proof (getKV_raw cfg k tx Hk) as Hg. by rewrite E in Hg. Qed.

(** [delKeyAndTTL] deletes the meta record and, of a key that expires, its entry of the index. *)
Lemma delKeyAndTTL_ok (tx : RocksTxn T) mk rv now :
  writable tx -> data_key mk -> zlen (rk_pk mk) < 2 ^ 61 -> RecordValue_wf rv -> isDataMetaType (rv_type rv) = true ->
  exists tx1 tx', Command_delKeyAndTTL cfg sess mk rv tx now = Ret tx' /\ wrote_record tx tx1 mk None /\
    (tx' = tx1 \/ exists k, rk_type k = RT_TTL_INDEX /\ data_key k /\ wrote_record tx1 tx' k None).
Proof.
  intros Hw Hmk Hpk Hwf Hty. destruct (delKV_ok cfg Hcat mk tx now Hmk Hw) as (tx1 & E1 & W1).
  unfold Command_delKeyAndTTL. rewrite E1, bind_Ret.
  destruct ((0 <? rv_ttl rv) && negb (bool_decide (rv_type rv = RT_KV))); [|exists tx1, tx1; by auto]. set (t := mkTTLIndex _ _ _ _).
  assert (TTLIndex_wf t) as Ht by (unfold TTLIndex_wf, t; cbn; by split; [apply Hwf|]).
  destruct (TTLIndex_encode_total t Ht) as (c & _ & Et). rewrite Et.
  assert (data_key (ti_key t c)) as Hd by (split; [by apply ti_key_wf|done]).
  destruct (delKV_ok cfg Hcat (ti_key t c) tx1 now Hd) as (tx2 & E2 & W2); [apply W1|].
  exists tx1, tx2. split; [exact E2|]. split; [done|]. right. by exists (ti_key t c).
Qed.

(** What a commit that is ok leaves is what the next transaction of the session sees. *)
Lemma commit_kept w (tx : RocksTxn T) w1 id :
  SessionCtx_commitTransaction cfg sess w tx = Ret (w1, Ret id) ->
  w_txn w1 = None /\ forall (tx' : RocksTxn T) k, tx_db tx' = w_db w1 -> data_key k -> raw_record tx' k = raw_record tx k.
Proof.
  unfold SessionCtx_commitTransaction. intros (_ & _ & E)%bind_Ret_inv. apply bind_Ret_inv in E as ([[ks db] r] & Ec & E).
  destruct r as [id'| |]; [|done|done]. injection E as <- <-. split; [done|]. intros tx' k Edb Hk. by apply (commit_records cfg _ _ _ _ _ _ _ _ Ec).
Qed.

(** The transaction [tx] of the session, which began in this store and has not ended, while the store
    has an id for its log. *)
Definition opened (w : World (T := T)) (tx : RocksTxn T) : Prop :=
  is_Some (w_txn w) /\ log_ok tx /\ ks_nextBinlogSeq (w_store w) < 2 ^ 64 - 1 /\
  exists live dur, sys_inv (mkSys (w_store w) live dur) /\ live !! tx_txnId tx = Some TXNID_UNINITED.

(** What the commit of [tx'] leaves: no transaction in the session, the records that [tx'] saw, and the
    counters of the store in order. *)
Definition committed (tx' : RocksTxn T) (w : World (T := T)) : Prop :=
  w_txn w = None /\ (exists live dur, sys_inv (mkSys (w_store w) live dur)) /\
  forall (tx : RocksTxn T) k, tx_db tx = w_db w -> data_key k -> raw_record tx k = raw_record tx' k.

(** The session has what the header of a log holds. *)
Definition log_header : Prop := is_u64 (sc_versionEP sess) /\ zlen (sc_cmd sess) < 2 ^ 60.

(** Both commits of the session, on a database that accepts them. *)
Lemma commit_opened {HC : RocksDBCommits T} w (tx tx' : RocksTxn T) : log_header -> opened w tx -> kept tx tx' -> writable tx' ->
  exists w' id, SessionCtx_commitTransaction cfg sess w tx' = Ret (w', Ret id) /\ SessionCtx_commitAll cfg sess w tx' = Ret (w', Ret tt) /\ committed tx' w'.
Proof.
  intros [Hep Hcmd] ([tx0 Et] & Hlog & Hn & live & dur & Hi & Hl) [Eid Hk] Hw. rewrite <-Eid in Hl.
  destruct (commit_total cfg (w_store w) live dur (w_db w) tx' (sc_cmd sess) (sc_versionEP sess) Hi Hl Hn Hw (Hk Hlog) Hcmd Hep) as (ks & db & r & dur' & E & Hi' & Hr).
  destruct r as [id| |]; [|by destruct Hr as (_ & t & Hc); destruct (rdb_commit_healthy t) as [t' ?%Hc]|done]. destruct Hr as [-> Hr].
  exists (mkWorld ks db None), (tx_txnId tx'). unfold SessionCtx_commitTransaction, SessionCtx_commitAll. rewrite E, !bind_Ret.
  split; [inv_d by (rewrite Et; by apply bool_decide_eq_true_2); done|]. split; [done|]. split; [done|]. split; [by eexists _, _|done].
Qed.

Lemma create_new (w w1 : World (T := T)) tx :
  SessionCtx_createTransaction sess w = Ret (w1, tx) -> w_txn w = None -> sc_replOnly sess = false -> tx_db tx = w_db w /\ writable tx.
Proof.
  unfold SessionCtx_createTransaction. intros E En Hr. rewrite En in E. apply bind_Ret_inv in E as ([[ks t] r] & Ek & [= _ <-]). split; [done|].
  assert (r = false) as ->; [|done]. unfold RocksKVStore_createTransaction in Ek. destruct (negb _); [done|].
  apply bind_Ret_inv in Ek as (ks' & _ & [= _ _ <-]). done.
Qed.

(** ** Records of other keys *)

(** The records of the keys other than [pk] stay, apart from the index of expiries; [tx'] is the same
    transaction as [tx]. *)
Definition untouched (pk : bytes) (tx tx' : RocksTxn T) : Prop :=
  kept tx tx' /\ forall k, data_key k -> rk_pk k <> pk -> rk_type k <> RT_TTL_INDEX -> raw_record tx' k = raw_record tx k.

#[export] Instance untouched_preorder pk : PreOrder (untouched pk).
Proof. split; [by intros tx|]. intros x y z [K1 Hxy] [K2 Hyz]. split; [by transitivity y|]. intros k Hd Hp Ht. by rewrite Hyz, Hxy. Qed.

Lemma wrote_untouched tx tx' k s : kept tx tx' -> wrote_record tx tx' k s -> untouched (rk_pk k) tx tx'.
Proof. intros Hk (_ & _ & Hr). split; [done|]. intros k' Hd Hp _. apply Hr; [done|]. by intros (_ & _ & _ & E & _)%RecordKey_equiv_fields. Qed.

Lemma set_untouched tx tx' k rv now :
  RocksKVStore_setKV cfg k rv tx now = Ret tx' -> data_key k -> RecordValue_wf rv -> writable tx -> untouched (rk_pk k) tx tx'.
Proof.
  intros E Hk Hwf Hw. pose proof (setKV_kept cfg k rv tx tx' now E Hk Hwf) as Hkp.
  destruct (setKV_ok cfg Hcat k rv tx now Hk Hwf Hw) as (tx1 & s & E1 & W & _). rewrite E in E1. injection E1 as <-.
  by apply (wrote_untouched _ _ k (Some s)).
Qed.

Lemma del_untouched tx tx' k now :
  RocksKVStore_delKV cfg k tx now = Ret tx' -> data_key k -> writable tx -> untouched (rk_pk k) tx tx'.
Proof.
  intros E Hk Hw. pose proof (delKV_kept cfg k tx tx' now E Hk) as Hkp.
  destruct (delKV_ok cfg Hcat k tx now Hk Hw) as (tx1 & E1 & W). rewrite E in E1. injection E1 as <-.
  by apply (wrote_untouched _ _ k None).
Qed.

(** [delKeyAndTTL] logs a meta record and at most one entry of the index. *)
Lemma drop_kept (tx tx' : RocksTxn T) mk rv now :
  Command_delKeyAndTTL cfg sess mk rv tx now = Ret tx' -> data_key mk -> zlen (rk_pk mk) < 2 ^ 61 -> RecordValue_wf rv -> isDataMetaType (rv_type rv) = true -> kept tx tx'.
Proof.
  unfold Command_delKeyAndTTL. intros (tx1 & E1 & E)%bind_Ret_inv Hmk Hpk Hwf Hty. pose proof (delKV_kept cfg mk tx tx1 now E1 Hmk) as K1.
  destruct (_ && _); [|by injection E as <-]. transitivity tx1; [done|]. set (t := mkTTLIndex _ _ _ _) in E.
  assert (TTLIndex_wf t) as Ht by (unfold TTLIndex_wf, t; cbn; by split; [apply Hwf|]). destruct (TTLIndex_encode_total t Ht) as (c & _ & Et). rewrite Et in E.
  apply (delKV_kept cfg (ti_key t c) tx1 tx' now E). split; [by apply ti_key_wf|done].
Qed.

Lemma drop_untouched tx tx' mk rv now :
  Command_delKeyAndTTL cfg sess mk rv tx now = Ret tx' -> writable tx -> data_key mk -> zlen (rk_pk mk) < 2 ^ 61 -> RecordValue_wf rv ->
  isDataMetaType (rv_type rv) = true -> untouched (rk_pk mk) tx tx'.
Proof.
  intros E Hw Hmk Hpk Hwf Hty. pose proof (drop_kept tx tx' mk rv now E Hmk Hpk Hwf Hty) as Hkp. split; [done|].
  destruct (delKeyAndTTL_ok tx mk rv now Hw Hmk Hpk Hwf Hty) as (tx1 & tx2 & E2 & W1 & W2). rewrite E in E2. injection E2 as <-.
  assert (forall k, data_key k -> rk_pk k <> rk_pk mk -> raw_record tx1 k = raw_record tx k) as U1.
  { intros k' Hd Hp. apply W1; [done|]. by intros (_ & _ & _ & Ep & _)%RecordKey_equiv_fields. }
  destruct W2 as [->|(k & Hk & _ & (_ & _ & Hr))]; [by intros k' Hd Hp _; apply U1|]. intros k' Hd Hp Ht. rewrite Hr; [by apply U1|done|].
  intros (_ & _ & Ek & _)%RecordKey_equiv_fields. apply Ht. by rewrite Ek.
Qed.

(** ** A key that is a meta record and elements *)

Context `{Countable K} (key : K -> RecordKey) (ok : K -> Prop) `{!KeyFamily key ok}.
Variables (type mtype : RecordType) (mk : RecordKey).
Hypothesis Hkeys : forall k, ok k -> rk_type (key k) = type.
Hypothesis Htype : rk_type mk <> type /\ RT_TTL_INDEX <> type /\ rk_type mk <> RT_TTL_INDEX.
Hypothesis Hmk : data_key mk /\ zlen (rk_pk mk) < 2 ^ 61.
Hypothesis Hmtype : isDataMetaType mtype = true.

(** The meta record [rv] and the elements [m]. *)
Definition held (tx : RocksTxn T) (rv : RecordValue) (m : gmap K bytes) : Prop :=
  RocksKVStore_getKV cfg mk tx = Ret rv /\ RecordValue_wf rv /\ rv_type rv = mtype /\ elems cfg key ok type tx m.

(** Another transaction that sees the same elements. *)
Lemma elems_same tx tx' m :
  elems cfg key ok type tx m -> writable tx' -> (forall k, ok k -> raw_record tx' (key k) = raw_record tx (key k)) -> elems cfg key ok type tx' m.
Proof.
  intros [_ He] Hw Hr. split; [done|]. intros k Hk. apply (elem_at_frame cfg type tx); [by apply family_data| |by apply He]. by apply Hr.
Qed.

(** Neither. *)
Definition absent (tx : RocksTxn T) : Prop :=
  (exists msg, RocksKVStore_getKV cfg mk tx = Throw ERR_NOTFOUND msg) /\ elems cfg key ok type tx ∅.

Lemma outside_type k : data_key k -> rk_type k <> type -> outside key ok k.
Proof. intros Hk Ht. split; [done|]. intros j Hj (_ & _ & E & _)%RecordKey_equiv_fields. apply Ht. by rewrite E, Hkeys. Qed.

(** [setKV] of the meta record. *)
Lemma set_meta tx m rv now :
  elems cfg key ok type tx m -> RecordValue_wf rv -> rv_type rv = mtype ->
  exists tx', RocksKVStore_setKV cfg mk rv tx now = Ret tx' /\ held tx' rv m.
Proof.
  intros He Hwf Ht. destruct (setKV_ok cfg Hcat mk rv tx now (proj1 Hmk) Hwf (proj1 He)) as (tx' & s & E & W & Ed).
  exists tx'. split; [done|]. split; [|split; [done|split; [done|]]].
  - pose proof (getKV_raw cfg mk tx' (proj1 Hmk)) as Hg. rewrite (proj1 (proj2 W)) in Hg. by rewrite Hg.
  - eapply elems_other; [done|done| |done]. apply outside_type; [apply Hmk|apply Htype].
Qed.

(** [delKeyAndTTL] of a key whose elements are deleted. *)
Lemma drop_meta tx rv now :
  elems cfg key ok type tx ∅ -> RecordValue_wf rv -> rv_type rv = mtype ->
  exists tx', Command_delKeyAndTTL cfg sess mk rv tx now = Ret tx' /\ absent tx'.
Proof.
  intros He Hwf Ht. destruct (delKeyAndTTL_ok tx mk rv now (proj1 He) (proj1 Hmk) (proj2 Hmk) Hwf) as (tx1 & tx' & E & W1 & W2); [by rewrite Ht|].
  exists tx'. split; [done|]. assert (elems cfg key ok type tx1 ∅) as He1.
  { eapply elems_other; [done|done| |done]. apply outside_type; [apply Hmk|apply Htype]. }
  destruct W2 as [->|(k & Hk & Hd & W2)]; (split; [apply getKV_none; [apply Hmk|]|]); [by destruct W1 as (_ & -> & _)|done|..].
  - destruct W2 as (_ & _ & Hr). rewrite Hr; [by destruct W1 as (_ & -> & _)|apply Hmk|].
    intros (_ & _ & Ek & _)%RecordKey_equiv_fields. apply (proj2 (proj2 Htype)). by rewrite Ek.
  - eapply elems_other; [done|done| |done]. apply outside_type; [done|]. rewrite Hk. apply Htype.
Qed.

End Meta.
