(* ===== verification/Keys.v ===== *)
(** Whole keys (commands/command.cpp, commands/del.cpp): scanning the records of a key with a
    cursor, deleting a key with its elements, and the expiry of a key when it is read. *)

From Stdlib Require Import Strings.Byte ZArith Lia Sorting.Sorted.
From stdpp Require Import base list numbers strings gmap sorting.
From S2P Require Import Prelude Status Varint Strings Record RecordValue RecordMeta ReplLog BinlogSeq Txn Store Replicate Cursor Command Elems.

Local Open Scope Z_scope.

(** * Scanning *)

(** The bytes of a record besides its strings, on x86-64. *)
Definition MEMORY_USED_BESIDES_KEY : Z := 4 + 4 + 4 + 4 + 32 + 32 + 8 + 1.
Definition MEMORY_USED_BESIDES_VALUE : Z := 4 + 8 + 8 + 8 + 8 + 8 + 8 + 32.

Definition record_memory (rcd : RecordKey * RecordValue) : Z :=
  MEMORY_USED_BESIDES_KEY + zlen (rk_pk (fst rcd)) + zlen (rk_sk (fst rcd)) + MEMORY_USED_BESIDES_VALUE + zlen (rv_value (snd rcd)).

Section Scan.
Context {BM : BuildMode}.

(** The loops that collect the records with a prefix, at most [limit] of them; [memLimit] is the
    check of the memory that the command has used. *)
Fixpoint prefix_loop (fuel : nat) (memLimit : Z -> M unit) (limit : Z) (prefix : bytes) (cursor : DataCursor) (used : Z)
  (result : list (RecordKey * RecordValue)) : M (list (RecordKey * RecordValue)) :=
  match fuel with
  | O => Crash CUndefined
  | S fuel' =>
      if limit <=? zlen result then Ret result else
      '(cursor, exptRcd) ← BasicDataCursor_next cursor;
      match exptRcd with
      | Throw ERR_EXHAUST _ => Ret result
      | Throw code msg => Throw code msg
      | Crash c => Crash c
      | Ret rcd =>
          p ← RecordKey_prefixPk (fst rcd);
          if negb (bool_decide (p = prefix)) then Ret result else
          let used := used + record_memory rcd in
          _ ← memLimit used;
          prefix_loop fuel' memLimit limit prefix cursor used (result ++ [rcd])
      end
  end.

Context {T : Type} `{RocksIter T}.

(** As many rounds as there are records. *)
Definition scan_fuel (tx : RocksTxn T) : nat := S (S (length (scan_entries (rdb_scan (tx_db tx) CF_Default None)))).

Definition prefix_records (memLimit : Z -> M unit) (limit : Z) (prefix from : bytes) (result : list (RecordKey * RecordValue)) (tx : RocksTxn T)
  : M (list (RecordKey * RecordValue)) :=
  prefix_loop (scan_fuel tx) memLimit limit prefix (DataCursor_seek (RocksTxn_createDataCursor tx) from) 0 result.

(** The loops without a limit. *)
Definition no_limit (tx : RocksTxn T) : Z := Z.of_nat (scan_fuel tx).

Definition Command_scan (memLimit : Z -> M unit) (pk from : bytes) (cnt : Z) (tx : RocksTxn T) : M (bytes * list (RecordKey * RecordValue)) :=
  start ← (if bool_decide (from = lit "0") then Ret pk else unhexlify from);
  let limit := u64 (cnt + 1) in
  result ← prefix_records memLimit limit pk start [] tx;
  if zlen result =? limit then
    match last result with
    | Some rcd => k ← RecordKey_encode (fst rcd); Ret (hexlify k, removelast result)
    | None => Crash CUndefined
    end
  else Ret (lit "0", result).

Definition Command_scanSimple (memLimit : Z -> M unit) (pk from : bytes) (cnt : Z) (tx : RocksTxn T) : M (list (RecordKey * RecordValue)) :=
  prefix_records memLimit cnt pk (if bool_decide (from = lit "0") then pk else from) [] tx.

End Scan.

(** * Deleting *)

(** The settings of the server. *)
Record ServerParams : Set := mkParams {
  sp_noexpire : bool;
  sp_elementLimitForSingleDelete : Z;
  sp_elementLimitForSingleDeleteZset : Z
}.

Definition Command_useDeleteRange (eleCount : Z) (valueType : RecordType) (cfg : ServerParams) : bool :=
  if bool_decide (valueType = RT_KV) then false
  else if bool_decide (valueType = RT_ZSET_META) then sp_elementLimitForSingleDeleteZset cfg <=? eleCount
  else sp_elementLimitForSingleDelete cfg <=? eleCount.

(** The types of the element records of a value. *)
Definition ele_types {BM : BuildMode} (valueType : RecordType) : M (list RecordType) :=
  match valueType with
  | RT_HASH_META => Ret [RT_HASH_ELE]
  | RT_LIST_META => Ret [RT_LIST_ELE]
  | RT_SET_META => Ret [RT_SET_ELE]
  | RT_ZSET_META => Ret [RT_ZSET_S_ELE; RT_ZSET_H_ELE]
  | RT_TBITMAP_META => Ret [RT_TBITMAP_ELE]
  | _ => _ ← INVARIANT_D false; Ret []
  end.

Definition VERSIONEP_UNINITED : Z := MAXU64.

Section Delete.
Context {BM : BuildMode} {T : Type} `{RocksIter T}.
Variable cfg : StoreCfg.
Variable now : Z.

(** A transaction that goes out of scope with the status of a call. *)
Definition drop_txn {B} (ks : RocksKVStore) (db : T) (tx : RocksTxn T) (e : M B) : M (RocksKVStore * T * M B) :=
  ks ← RocksTxn_destroy ks tx;
  Ret (ks, db, e).

Definition or_drop {A B} (ks : RocksKVStore) (db : T) (tx : RocksTxn T) (m : M A) (k : A -> M (RocksKVStore * T * M B)) : M (RocksKVStore * T * M B) :=
  match m with
  | Ret a => k a
  | Throw c msg => drop_txn ks db tx (Throw c msg)
  | Crash c => Crash c
  end.

(** A transaction of the store, with the session it is for. *)
Definition open_txn {B} (ks : RocksKVStore) (db : T) (sess : option bool) (k : RocksKVStore -> RocksTxn T -> M (RocksKVStore * T * M B))
  : M (RocksKVStore * T * M B) :=
  match RocksKVStore_createTransaction ks sess with
  | Ret (ks, txnId, replOnly) => k ks (RocksTxn_new txnId replOnly db)
  | Throw c msg => Ret (ks, db, Throw c msg)
  | Crash c => Crash c
  end.

Definition close_txn (ks : RocksKVStore) (db : T) (tx : RocksTxn T) (cmd : bytes) (ep : Z) : M (RocksKVStore * T * M unit) :=
  '(ks, db, r) ← RocksTxn_commit cfg ks db tx cmd ep;
  Ret (ks, db, _ ← r; Ret tt).

(** The range goes from the database itself; its log is a transaction without a session. *)
Definition RocksKVStore_deleteRange (ks : RocksKVStore) (db : T) (begin end_ : bytes) : M (RocksKVStore * T * M unit) :=
  match rocks_ok cfg (rdb_del_range db RocksKVStore_getDataColumnFamilyHandle begin end_) with
  | Throw c msg => Ret (ks, db, Throw c msg)
  | Crash c => Crash c
  | Ret db =>
      open_txn ks db None (fun ks tx =>
      or_drop ks db tx (RocksTxn_addDeleteRangeBinlog cfg tx begin end_ now) (fun tx =>
      close_txn ks db tx [] VERSIONEP_UNINITED))
  end.

(** The ranges of the element types, from the prefix with version 0 to the one with the greatest
    version. *)
Fixpoint delete_ranges (mk : RecordKey) (types : list RecordType) (ks : RocksKVStore) (db : T) : M (RocksKVStore * T * M unit) :=
  match types with
  | [] => Ret (ks, db, Ret tt)
  | type :: types' =>
      start ← RecordKey_prefixPk (RecordKey_new (rk_chunkId mk) (rk_dbId mk) type (rk_pk mk) [] 0);
      end_ ← RecordKey_prefixPk (RecordKey_new (rk_chunkId mk) (rk_dbId mk) type (rk_pk mk) [] MAXU64);
      '(ks, db, s) ← RocksKVStore_deleteRange ks db start end_;
      match s with
      | Ret _ => delete_ranges mk types' ks db
      | e => Ret (ks, db, e)
      end
  end.

Definition Command_delSubkeysRange (mk : RecordKey) (valueType : RecordType) (ks : RocksKVStore) (db : T) : M (RocksKVStore * T * M unit) :=
  type ← RecordKey_getRecordType mk;
  _ ← INVARIANT_D (bool_decide (type = RT_DATA_META));
  if bool_decide (valueType = RT_KV) then _ ← INVARIANT_D false; Ret (ks, db, Throw ERR_INTERNAL (lit "it can't be a KV string")) else
  types ← ele_types valueType;
  delete_ranges mk types ks db.

(** The entry of the index of expiries, if the key is in it. *)
Definition del_index (ictx : option TTLIndex) (tx : RocksTxn T) : M (RocksTxn T) :=
  match ictx with
  | Some t => if bool_decide (ti_type t = RT_KV) then Ret tx else k ← TTLIndex_encode t; RocksTxn_delKV cfg tx k 0 now
  | None => Ret tx
  end.

(** A large key: its elements go by ranges, then the meta record in a transaction of its own, which
    has not written anything yet when the ranges have gone. *)
Definition Command_delKeyPessimisticInLock (sess : SessionCtx) (mk : RecordKey) (valueType : RecordType) (ictx : option TTLIndex)
  (ks : RocksKVStore) (db : T) : M (RocksKVStore * T * M unit) :=
  open_txn ks db (Some (sc_replOnly sess)) (fun ks tx =>
  '(ks, db, ret) ← Command_delSubkeysRange mk valueType ks db;
  or_drop ks db tx ret (fun _ =>
  or_drop ks db tx (RocksKVStore_delKV cfg mk (tx_with_db tx db) now) (fun tx =>
  or_drop ks db tx (del_index ictx tx) (fun tx =>
  close_txn ks db tx (sc_cmd sess) (sc_versionEP sess))))).

(** The keys of the elements of the types, at most [subCount] in all. *)
Fixpoint pending_delete (mk : RecordKey) (subCount : Z) (types : list RecordType) (tx : RocksTxn T) (pending : list (RecordKey * RecordValue))
  : M (list (RecordKey * RecordValue)) :=
  match types with
  | [] => Ret pending
  | type :: types' =>
      prefix ← RecordKey_prefixPk (RecordKey_new (rk_chunkId mk) (rk_dbId mk) type (rk_pk mk) [] 0);
      pending ← prefix_records (fun _ => Ret tt) subCount prefix prefix pending tx;
      pending_delete mk subCount types' tx pending
  end.

Fixpoint del_all (keys : list RecordKey) (tx : RocksTxn T) : M (RocksTxn T) :=
  match keys with
  | [] => Ret tx
  | k :: keys' => tx ← expect_ok (RocksKVStore_delKV cfg k tx now); del_all keys' tx
  end.

Definition MAXU32 : Z := 2 ^ 32 - 1.

Definition Command_partialDelSubKeys (subCount : Z) (mk : RecordKey) (valueType : RecordType) (deleteMeta : bool) (tx : RocksTxn T)
  (ictx : option TTLIndex) : M (RocksTxn T * Z) :=
  _ ← (if deleteMeta && negb (subCount =? MAXU32) then expect_ok (Throw ERR_PARSEOPT (lit "delmeta with limited subcount")) else Ret tt);
  type ← RecordKey_getRecordType mk;
  _ ← INVARIANT_D (bool_decide (type = RT_DATA_META));
  if bool_decide (valueType = RT_KV) then tx ← expect_ok (RocksKVStore_delKV cfg mk tx now); Ret (tx, 1) else
  types ← ele_types valueType;
  pending ← pending_delete mk subCount types tx [];
  let keys := map fst pending ++ (if deleteMeta then [mk] else []) in
  tx ← del_all keys tx;
  tx ← expect_ok (del_index ictx tx);
  Ret (tx, u32 (zlen keys)).

Definition Command_delKeyOptimismInLock (rk : RecordKey) (valueType : RecordType) (tx : RocksTxn T) (ictx : option TTLIndex) : M (RocksTxn T) :=
  '(tx, _) ← Command_partialDelSubKeys MAXU32 rk valueType true tx ictx;
  Ret tx.

(** * Expiry *)

Variable srv : ServerParams.
Variable sess : SessionCtx.
(** The version of the commands between MULTI and EXEC. *)
Variable multi : option Z.
Variable chunkId : Z.

Definition SessionCtx_verifyVersion (keyVersion : Z) : bool :=
  match multi with
  | Some txnVersion =>
      if negb (txnVersion =? sc_versionEP sess) then false else negb ((txnVersion <? keyVersion) && negb (keyVersion =? MAXU64))
  | None =>
      if sc_versionEP sess =? MAXU64 then true else negb ((sc_versionEP sess <=? keyVersion) && negb (keyVersion =? MAXU64))
  end.

Definition wrong_type (key : bytes) : bytes :=
  lit "-WRONGTYPE Operation against a key holding the wrong kind of value(" ++ key ++ lit ")" ++ crlf.

(** The session that deletes an expired key. It logs a "del" for a session that runs a command, which
    has the key among its arguments, and no command for the session of a job, which has none. *)
Definition expire_session (ks : RocksKVStore) : SessionCtx :=
  mkSess (sc_dbId sess) VERSIONEP_UNINITED (bool_decide (ks_mode ks = REPLICATE_ONLY)) (if bool_decide (sc_cmd sess = []) then [] else lit "del").

(** Every round of the loop returns. *)
Definition Command_expireKeyIfNeeded (currentTs : Z) (key : bytes) (tp : RecordType) (hasVersion : bool) (ks : RocksKVStore) (db : T)
  : M (RocksKVStore * T * M RecordValue) :=
  let sg := expire_session ks in
  let mk := RecordKey_new chunkId (sc_dbId sess) tp key [] 0 in
  open_txn ks db (Some (sc_replOnly sg)) (fun ks tx =>
  or_drop ks db tx (RocksKVStore_getKV cfg mk tx) (fun eValue =>
  let targetTtl := rv_ttl eValue in
  let valueType := rv_type eValue in
  if sp_noexpire srv || (targetTtl =? 0) || (currentTs <? targetTtl) then
    if negb (bool_decide (valueType = tp)) && negb (bool_decide (tp = RT_DATA_META)) then drop_txn ks db tx (Throw ERR_WRONG_TYPE (wrong_type key))
    else if hasVersion && negb (SessionCtx_verifyVersion (rv_versionEP eValue)) then drop_txn ks db tx (Throw ERR_WRONG_VERSION_EP [])
    else drop_txn ks db tx (Ret eValue)
  else if tx_replOnly tx then drop_txn ks db tx (Throw ERR_EXPIRED [])
  else
    or_drop ks db tx (getSubKeyCount mk eValue) (fun cnt =>
    let ictx := mkTTLIndex key valueType (sc_dbId sess) targetTtl in
    if Command_useDeleteRange cnt valueType srv then
      '(ks, db, s) ← Command_delKeyPessimisticInLock sg mk valueType (Some ictx) ks db;
      drop_txn ks db tx (_ ← s; Throw ERR_EXPIRED [])
    else
      or_drop ks db tx (Command_delKeyOptimismInLock mk valueType tx (Some ictx)) (fun tx =>
      '(ks, db, eCmt) ← RocksTxn_commit cfg ks db tx (sc_cmd sg) (sc_versionEP sg);
      Ret (ks, db, _ ← eCmt; Throw ERR_EXPIRED []))))).

(** * DEL *)

(** [delKey] with a transaction that has not written anything: the large keys do not go through it. *)
Fixpoint delKey_rounds (n : nat) (mk : RecordKey) (ks : RocksKVStore) (db : T) (tx : RocksTxn T) : M (RocksKVStore * T * M (RocksTxn T)) :=
  match n with
  | O => _ ← INVARIANT_D false; Ret (ks, db, Throw ERR_INTERNAL (lit "not reachable"))
  | S n' =>
      eValue ← status_of (find_record (RocksKVStore_getKV cfg mk tx));
      match eValue with
      | Ret None => Ret (ks, db, Ret tx)
      | Ret (Some eValue) =>
          let valueType := rv_type eValue in
          cnt ← status_of (getSubKeyCount mk eValue);
          match cnt with
          | Ret cnt =>
              let t := mkTTLIndex (rk_pk mk) valueType (sc_dbId sess) (rv_ttl eValue) in
              let ictx := if 0 <? ti_ttl t then Some t else None in
              if Command_useDeleteRange cnt valueType srv then
                '(ks, db, s) ← Command_delKeyPessimisticInLock sess mk valueType ictx ks db;
                Ret (ks, db, _ ← s; Ret (tx_with_db tx db))
              else
                s ← status_of (Command_delKeyOptimismInLock mk valueType tx ictx);
                match s with
                | Throw ERR_COMMIT_RETRY msg => if Nat.eqb n' 0 then Ret (ks, db, s) else delKey_rounds n' mk ks db tx
                | _ => Ret (ks, db, s)
                end
          | Throw c msg => Ret (ks, db, Throw c msg)
          | Crash c => Crash c
          end
      | Throw c msg => Ret (ks, db, Throw c msg)
      | Crash c => Crash c
      end
  end.

Definition Command_delKey (key : bytes) (tp : RecordType) (ks : RocksKVStore) (db : T) (tx : RocksTxn T) : M (RocksKVStore * T * M (RocksTxn T)) :=
  delKey_rounds RETRY_CNT (RecordKey_new chunkId (sc_dbId sess) tp key [] 0) ks db tx.

(** Whether the key was there, and the transaction that deletes it; it sees what the expiry has
    committed. *)
Definition Command_delKeyChkExpire (currentTs : Z) (key : bytes) (tp : RecordType) (ks : RocksKVStore) (db : T) (tx : RocksTxn T)
  : M (RocksKVStore * T * M (RocksTxn T * bool)) :=
  '(ks, db, rv) ← Command_expireKeyIfNeeded currentTs key tp true ks db;
  let tx := tx_with_db tx db in
  match rv with
  | Throw ERR_EXPIRED _ | Throw ERR_NOTFOUND _ => Ret (ks, db, Ret (tx, false))
  | Throw c msg => Ret (ks, db, Throw c msg)
  | Crash c => Crash c
  | Ret _ =>
      '(ks, db, s) ← Command_delKey key tp ks db tx;
      match s with
      | Throw ERR_NOTFOUND _ => Ret (ks, db, Ret (tx, false))
      | Throw c msg => Ret (ks, db, Throw c msg)
      | Crash c => Crash c
      | Ret tx => Ret (ks, db, Ret (tx, true))
      end
  end.

(** DEL of one key in a session without a transaction. *)
Definition Del_run (currentTs : Z) (key : bytes) (w : World) : M (World * M bytes) :=
  '(w, tx) ← SessionCtx_createTransaction sess w;
  '(ks, db, done) ← Command_delKeyChkExpire currentTs key RT_DATA_META (w_store w) (w_db w) tx;
  match done with
  | Throw c msg => Ret (mkWorld ks db (w_txn w), Throw c msg)
  | Crash c => Crash c
  | Ret (tx, b) =>
      '(w, s) ← SessionCtx_commitAll cfg sess (mkWorld ks db (Some tx)) tx;
      Ret (w, Ret (Command_fmtLongLong (if b : bool then 1 else 0)))
  end.

End Delete.

(** The meta record of a key, as the commands read it. *)
Definition read_meta {BM : BuildMode} {T : Type} `{RocksIter T} (cfg : StoreCfg) (now : Z) (srv : ServerParams) (sess : SessionCtx) (multi : option Z)
  (chunkId currentTs : Z) (tp : RecordType) (key : bytes) (w : World (T := T)) : M (World (T := T) * M RecordValue) :=
  '(ks, db, rv) ← Command_expireKeyIfNeeded cfg now srv sess multi chunkId currentTs key tp true (w_store w) (w_db w);
  Ret (mkWorld ks db (w_txn w), rv).
