(* ===== verification/KeysSpec.v ===== *)
(** Whole keys: what a cursor finds of a key is its elements, and deleting a key leaves none of its
    records. *)

From Stdlib Require Import Strings.Byte ZArith Lia Sorting.Sorted.
From stdpp Require Import base list numbers strings gmap sorting.
From S2P Require Import Prelude Status Varint Strings Record RecordValue RecordMeta ReplLog BinlogSeq Txn Store Replicate Cursor Command Elems Keys.

Local Open Scope Z_scope.

(** * The records under a prefix *)

Section Scan.
Context {BM : BuildMode}.

(** An entry of the database that is a record. *)
Definition entry_record (e : bytes * bytes) (r : RecordKey * RecordValue) : Prop :=
  Rec_decode (fst e) (snd e) = Ret r /\ RecordKey_wf (fst r) /\ RecordKey_encode (fst r) = Ret (fst e) /\ RecordValue_wf (snd r).

Lemma entry_record_unique e r r' : entry_record e r -> entry_record e r' -> r = r'.
Proof. intros [E _] [E' _]. rewrite E in E'. by apply (inj Ret) in E'. Qed.

(** A cursor at these entries finds no more records of the prefix. *)
Definition stops (prefix : bytes) (later : list (bytes * bytes)) : Prop :=
  match later with
  | [] => True
  | e :: _ => exists r p, entry_record e r /\ RecordKey_prefixPk (fst r) = Ret p /\ (rk_chunkId (fst r) < CLUSTER_SLOTS -> p <> prefix)
  end.

Lemma basic_next_nil c : dc_seeked c = true -> cursor_at (dc_base c) [] ->
  exists c', BasicDataCursor_next c = Ret (c', Throw ERR_EXHAUST (lit "no more data")).
Proof.
  intros Hs Hc. unfold BasicDataCursor_next, next_of_kind, start_at. rewrite Hs, bind_Ret, (cursor_at_nil _ Hc). by eexists.
Qed.

Lemma basic_next_cons c e l r : dc_seeked c = true -> cursor_at (dc_base c) (e :: l) -> entry_record e r ->
  exists c', BasicDataCursor_next c = Ret (c', if rk_chunkId (fst r) <? CLUSTER_SLOTS then Ret r else Throw ERR_EXHAUST (lit "no more basic data")) /\
    dc_seeked c' = true /\ cursor_at (dc_base c') l.
Proof.
  intros Hs Hc (Hd & _). destruct e as [k v], r as [rk rv]. destruct (cursor_at_cons _ _ _ _ _ _ Hc Hd) as (b & E & Hb).
  unfold BasicDataCursor_next, next_of_kind, start_at. rewrite Hs, bind_Ret, E. exists (mkDataCursor b true). by split.
Qed.

Lemma prefix_loop_ok mem limit prefix (Hmem : forall u, mem u = Ret tt) good recs :
  Forall2 entry_record good recs -> Forall (fun r => rk_chunkId (fst r) < CLUSTER_SLOTS /\ RecordKey_prefixPk (fst r) = Ret prefix) recs ->
  forall fuel c used result later,
  dc_seeked c = true -> cursor_at (dc_base c) (good ++ later) -> stops prefix later -> (length good < fuel)%nat ->
  prefix_loop fuel mem limit prefix c used result = Ret (result ++ ztake (limit - zlen result) recs).
Proof.
  induction 1 as [|e r good recs Her _ IH]; intros Hall fuel c used result later Hs Hc Hst Hf; (destruct fuel as [|fuel]; [cbn in Hf; lia|]); cbn [length] in Hf;
    cbn [prefix_loop]; (destruct (Z.leb_spec limit (zlen result)); [rewrite ztake_take; replace (Z.to_nat _) with 0%nat by lia; by rewrite app_nil_r|]).
  - rewrite (ztake_all _ []) by (change (zlen (@nil (RecordKey * RecordValue))) with 0; lia). rewrite app_nil_r. cbn [app] in Hc.
    destruct later as [|e later]; [by destruct (basic_next_nil c Hs Hc) as (c' & ->)|]. destruct Hst as (r & p & Her & Ep & Hne).
    destruct (basic_next_cons c e later r Hs Hc Her) as (c' & -> & _). rewrite bind_Ret. destruct (Z.ltb_spec (rk_chunkId (fst r)) CLUSTER_SLOTS) as [Hlt|]; [|done].
    rewrite Ep, bind_Ret, bool_decide_false by auto. done.
  - inversion Hall as [|? ? [Hlt Ep] Hall']; subst. cbn [app] in Hc. destruct (basic_next_cons c e _ r Hs Hc Her) as (c' & -> & Hs' & Hc').
    rewrite bind_Ret. rewrite (proj2 (Z.ltb_lt _ _)) by done. rewrite Ep, bind_Ret, bool_decide_true by done. cbn [negb]. rewrite Hmem, bind_Ret.
    rewrite (IH Hall' fuel c' _ (result ++ [r]) later Hs' Hc' Hst) by lia. rewrite zlen_app. change (zlen [r]) with 1. rewrite <-app_assoc. do 2 f_equal.
    rewrite !ztake_take. replace (Z.to_nat (limit - zlen result)) with (S (Z.to_nat (limit - (zlen result + 1)))) by lia. done.
Qed.

End Scan.

(** * A database of records *)

Section Tidy.
Context {BM : BuildMode} {T : Type} `{RocksIterLaws T} {HL : RocksDBLaws T} {HH : RocksDBHealthy T} {HI : RocksIterHealthy T}.

(** Every entry is a record, and no key of the data has a zero in it. *)
Definition tidy (t : T) : Prop :=
  forall k v, rdb_read t CF_Default k = Some v ->
  exists r, entry_record (k, v) r /\ (rk_chunkId (fst r) < CLUSTER_SLOTS -> x00 ∉ rk_pk (fst r)).

Definition decoded (e : bytes * bytes) : option (RecordKey * RecordValue) :=
  match Rec_decode (fst e) (snd e) with Ret r => Some r | _ => None end.

Lemma decoded_record e r r' : entry_record e r' -> decoded e = Some r -> r' = r.
Proof. unfold decoded. intros [-> _]. congruence. Qed.

(** The records whose keys have the prefix. *)
Definition key_records (t : T) (p : bytes) : list (RecordKey * RecordValue) :=
  omap decoded (List.filter (has_prefix p) (scan_entries (rdb_scan t CF_Default None))).

Lemma scan_entry t e : e ∈ scan_entries (rdb_scan t CF_Default None) <-> rdb_read t CF_Default (fst e) = Some (snd e).
Proof. destruct e as [k v]. rewrite (scan_content t CF_Default None (scan_healthy _ _ _) k v). cbn. tauto. Qed.

Lemma decoded_forall2 l : Forall (fun e => exists r, entry_record e r) l -> Forall2 entry_record l (omap decoded l).
Proof.
  induction 1 as [|e l (r & Hr) _ IH]; [constructor|]. cbn. unfold decoded at 1. destruct Hr as (Hd & Hr). rewrite Hd. by constructor.
Qed.

Lemma tidy_entries t : tidy t -> Forall (fun e => exists r, entry_record e r /\ (rk_chunkId (fst r) < CLUSTER_SLOTS -> x00 ∉ rk_pk (fst r)))
  (scan_entries (rdb_scan t CF_Default None)).
Proof. intros Ht. apply Forall_forall. intros [k v] Hin%scan_entry. by apply Ht. Qed.

Lemma elem_of_filter_bool {A} (f : A -> bool) (l : list A) x : x ∈ List.filter f l <-> x ∈ l /\ f x = true.
Proof. rewrite !list_elem_of_In, filter_In. done. Qed.

(** A key of the data whose elements are looked for. *)
Definition scan_key (k : RecordKey) : Prop := RecordKey_wf k /\ rk_chunkId k < CLUSTER_SLOTS /\ x00 ∉ rk_pk k.

Definition same_key (a b : RecordKey) : Prop :=
  rk_chunkId a = rk_chunkId b /\ rk_type a = rk_type b /\ rk_dbId a = rk_dbId b /\ rk_pk a = rk_pk b.

Lemma same_prefix k k' p : RecordKey_wf k' -> same_key k k' -> RecordKey_wf k -> RecordKey_prefixPk k = Ret p -> RecordKey_prefixPk k' = Ret p.
Proof.
  intros Hw' (E1 & E2 & E3 & E4) Hw <-. unfold RecordKey_prefixPk, RecordKey_encodePrefixPk. rewrite E1, E2, E3, E4.
  destruct Hw as (_ & _ & _ & _ & -> & _), Hw' as (_ & _ & _ & _ & -> & _). done.
Qed.

(** Under a prefix there are the records of its key. *)
Lemma entry_prefix t k p e r : tidy t -> scan_key k -> RecordKey_prefixPk k = Ret p -> e ∈ scan_entries (rdb_scan t CF_Default None) ->
  entry_record e r -> has_prefix p e = true <-> same_key k (fst r).
Proof.
  intros Ht (Hw & Hc & Hn) Hp Hin Her. apply scan_entry in Hin. destruct e as [ek ev]. destruct (Ht _ _ Hin) as (r' & Her' & Hn').
  rewrite (entry_record_unique _ _ _ Her' Her) in *. clear Her' r'. destruct Her as (_ & Hwr & Her & _). unfold has_prefix. rewrite bool_decide_eq_true.
  destruct (decide (rk_chunkId (fst r) < CLUSTER_SLOTS)) as [Hlt|Hge]; [unfold same_key; cbn [fst]; apply (prefixPk_selects k (fst r) p ek); auto|]. split; [|intros [E _]; lia].
  intros Hpre. exfalso. destruct (rt2Char_some (rk_type k)) as [c1 Hc1]; [apply Hw|]. destruct (rt2Char_some (rk_type (fst r))) as [c2 Hc2]; [apply Hwr|].
  rewrite (RecordKey_prefixPk_eq k c1) in Hp by done. apply (inj Ret) in Hp as <-. rewrite (RecordKey_encode_eq (fst r) c2) in Her by done.
  apply (inj Ret) in Her. cbn [fst] in Her, Hpre. rewrite <-Her in Hpre. destruct Hpre as [x E]. rewrite <-!app_assoc in E. apply app_inj_1 in E as [Eh _]; [|done].
  apply (rk_hdr_inj (fst r) k c2 c1) in Eh as (Ec & _); [lia|done..].
Qed.

Lemma key_records_same t k p : tidy t -> scan_key k -> RecordKey_prefixPk k = Ret p ->
  Forall (fun r => rk_chunkId (fst r) < CLUSTER_SLOTS /\ RecordKey_prefixPk (fst r) = Ret p) (key_records t p).
Proof.
  intros Ht Hk Hp. apply Forall_forall. intros r (e & Hin & Hd)%list_elem_of_omap. apply elem_of_filter_bool in Hin as [Hin Hpre].
  pose proof (tidy_entries t Ht) as Hall. rewrite Forall_forall in Hall. destruct (Hall e Hin) as (r' & Her & _).
  pose proof (decoded_record _ _ _ Her Hd); subst r'.
  apply (entry_prefix t k p e r) in Hpre as Hs; [|done..]. split; [destruct Hs as [<- _]; apply Hk|].
  apply (same_prefix k); [apply Her|done|apply Hk|done].
Qed.

(** The records from a key on. *)
Definition key_records_from (t : T) (p from : bytes) : list (RecordKey * RecordValue) :=
  omap decoded (List.filter (fun e => negb (bytes_lt (fst e) from)) (List.filter (has_prefix p) (scan_entries (rdb_scan t CF_Default None)))).

Lemma key_records_all t p : key_records_from t p p = key_records t p.
Proof.
  unfold key_records_from, key_records. f_equal. induction (scan_entries _) as [|e l IH]; [done|]. cbn [List.filter]. destruct (has_prefix p e) eqn:Hp; [|exact IH].
  apply bool_decide_eq_true in Hp. cbn [List.filter]. rewrite bytes_lt_prefix by done. cbn [negb]. by f_equal.
Qed.

(** A cursor at a key with the prefix of [k]. *)
Lemma scan_start (tx : RocksTxn T) k p from : tidy (tx_db tx) -> scan_key k -> RecordKey_prefixPk k = Ret p -> p `prefix_of` from ->
  let c := DataCursor_seek (RocksTxn_createDataCursor tx) from in
  let recs := key_records_from (tx_db tx) p from in
  exists good later, Forall2 entry_record good recs /\
    Forall (fun r => rk_chunkId (fst r) < CLUSTER_SLOTS /\ RecordKey_prefixPk (fst r) = Ret p) recs /\
    dc_seeked c = true /\ cursor_at (dc_base c) (good ++ later) /\ stops p later /\ (length good < scan_fuel tx)%nat.
Proof.
  intros Ht Hk Hp Hfrom c recs. unfold c, scan_fuel, RocksTxn_createDataCursor, DataCursor_seek, DataCursor_new.
  set (s := rdb_scan (tx_db tx) CF_Default None). pose proof (tidy_entries _ Ht) as Hall. fold s in Hall.
  destruct (cursor_at_seek s p from (scan_healthy _ _ _) (scan_sorted _ _ _) Hfrom) as (later & Hc & Hl). rewrite Forall_forall in Hall.
  exists (List.filter (fun e => negb (bytes_lt (fst e) from)) (List.filter (has_prefix p) (scan_entries s))), later. split; [|split; [|split; [done|split; [exact Hc|split]]]].
  - apply decoded_forall2, Forall_forall. intros e [[Hin _]%elem_of_filter_bool _]%elem_of_filter_bool. destruct (Hall e Hin) as (r & Her & _). by exists r.
  - pose proof (key_records_same _ k p Ht Hk Hp) as Hsame. rewrite Forall_forall in Hsame. apply Forall_forall. intros r (e & Hin & Hd)%list_elem_of_omap.
    apply elem_of_filter_bool in Hin as [Hin _]. apply Hsame, list_elem_of_omap. by exists e.
  - destruct later as [|e later]; [done|]. inversion Hl as [|? ? He _]; subst. destruct Hc as (_ & _ & _ & Hd).
    assert (e ∈ scan_entries s) as Hin.
    { rewrite <-(ztake_zdrop (cu_pos (RocksKVCursor_seek (RocksKVCursor_new s) from)) (scan_entries s)). cbn [cu_scan RocksKVCursor_seek RocksKVCursor_new] in Hd.
      rewrite Hd. apply elem_of_app. right. apply elem_of_app. right. constructor. }
    destruct (Hall e Hin) as (r & Her & _). destruct (rt2Char_some (rk_type (fst r))) as [ch Hcc]; [apply Her|].
    eexists r, _. split; [done|]. split; [apply (RecordKey_prefixPk_eq _ ch); [apply Her|done]|]. intros Hlt Ep.
    assert (has_prefix p e = true) as Hpre; [|congruence]. unfold has_prefix. rewrite bool_decide_eq_true. destruct Her as (_ & Hwr & Her & _).
    rewrite (RecordKey_encode_eq _ ch) in Her by done. apply (inj Ret) in Her. rewrite <-Her, <-Ep. exists (rk_tail (fst r)). by rewrite <-!app_assoc.
  - pose proof (List.filter_length_le (has_prefix p) (scan_entries s)). pose proof (List.filter_length_le (fun e => negb (bytes_lt (fst e) from)) (List.filter (has_prefix p) (scan_entries s))). lia.
Qed.

Lemma prefix_records_from_ok mem limit k p from result (tx : RocksTxn T) :
  (forall u, mem u = Ret tt) -> tidy (tx_db tx) -> scan_key k -> RecordKey_prefixPk k = Ret p -> p `prefix_of` from ->
  prefix_records mem limit p from result tx = Ret (result ++ ztake (limit - zlen result) (key_records_from (tx_db tx) p from)).
Proof.
  intros Hmem Ht Hk Hp Hfrom. destruct (scan_start tx k p from Ht Hk Hp Hfrom) as (good & later & Hg & Hr & Hs & Hc & Hst & Hf). by apply (prefix_loop_ok mem limit p Hmem good _ Hg Hr) with (later := later).
Qed.

Lemma prefix_records_ok mem limit k p result (tx : RocksTxn T) :
  (forall u, mem u = Ret tt) -> tidy (tx_db tx) -> scan_key k -> RecordKey_prefixPk k = Ret p ->
  prefix_records mem limit p p result tx = Ret (result ++ ztake (limit - zlen result) (key_records (tx_db tx) p)).
Proof. intros Hmem Ht Hk Hp. by rewrite (prefix_records_from_ok mem limit k p p result tx Hmem Ht Hk Hp), key_records_all. Qed.

(** They are the records at or behind it in the order of the store, in that order. *)
Definition encoded_key (k : RecordKey) : bytes := match RecordKey_encode k with Ret s => s | _ => [] end.

Lemma entry_encoded e r : entry_record e r -> encoded_key (fst r) = fst e.
Proof. intros (_ & _ & E & _). unfold encoded_key. by rewrite E. Qed.

Lemma in_key_records_from t p from r : tidy t -> r ∈ key_records_from t p from <-> r ∈ key_records t p /\ bytes_lt (encoded_key (fst r)) from = false.
Proof.
  intros Ht. pose proof (tidy_entries t Ht) as Hall. rewrite Forall_forall in Hall. unfold key_records_from, key_records. rewrite !list_elem_of_omap. split.
  - intros (e & [He Hf]%elem_of_filter_bool & Hd). pose proof He as [Hin _]%elem_of_filter_bool. destruct (Hall e Hin) as (r' & Her & _). pose proof (decoded_record _ _ _ Her Hd); subst r'.
    split; [by exists e|]. rewrite (entry_encoded e r Her). by apply negb_true_iff.
  - intros ((e & He & Hd) & Hf). pose proof He as [Hin _]%elem_of_filter_bool. destruct (Hall e Hin) as (r' & Her & _). pose proof (decoded_record _ _ _ Her Hd); subst r'.
    exists e. split; [|done]. apply elem_of_filter_bool. rewrite (entry_encoded e r Her) in Hf. by rewrite Hf.
Qed.

Lemma key_records_from_sorted t p from : tidy t -> StronglySorted (fun a b => bytes_lt (encoded_key (fst a)) (encoded_key (fst b)) = true) (key_records_from t p from).
Proof.
  intros Ht. unfold key_records_from. set (es := List.filter _ _). assert (StronglySorted entry_lt es) as Hs by (do 2 apply filter_in_order; apply scan_sorted).
  assert (Forall (fun e => exists r, entry_record e r) es) as Hall.
  { pose proof (tidy_entries t Ht) as Hall. rewrite Forall_forall in *. intros e [[He _]%elem_of_filter_bool _]%elem_of_filter_bool. destruct (Hall e He) as (r & Her & _). by exists r. }
  clearbody es. induction Hs as [|e l _ IH Hf]; [constructor|]. apply Forall_cons in Hall as [(r & Her) Hall]. cbn [omap list_omap]. destruct (decoded e) as [r'|] eqn:Ed; [|by apply IH].
  pose proof (decoded_record _ _ _ Her Ed); subst r'. constructor; [by apply IH|]. apply Forall_forall. intros r2 (e2 & Hin & Hd2)%list_elem_of_omap. rewrite Forall_forall in *.
  destruct (Hall e2 Hin) as (r2' & Her2). pose proof (decoded_record _ _ _ Her2 Hd2); subst r2'. rewrite (entry_encoded e r), (entry_encoded e2 r2) by done. by apply Hf.
Qed.

Lemma in_key_records t k p r : tidy t -> scan_key k -> RecordKey_prefixPk k = Ret p ->
  r ∈ key_records t p <-> same_key k (fst r) /\ exists ek ev, rdb_read t CF_Default ek = Some ev /\ entry_record (ek, ev) r.
Proof.
  intros Ht Hk Hp. unfold key_records. rewrite list_elem_of_omap. split.
  - intros (e & Hin & Hd). apply elem_of_filter_bool in Hin as [Hin Hpre]. pose proof Hin as Hr. apply scan_entry in Hr. destruct e as [ek ev]. cbn [fst snd] in Hr.
    destruct (Ht _ _ Hr) as (r' & Her & _). pose proof (decoded_record _ _ _ Her Hd); subst r'.
    split; [by apply (entry_prefix t k p (ek, ev))|by exists ek, ev].
  - intros (Hs & ek & ev & Hr & Her). exists (ek, ev). assert ((ek, ev) ∈ scan_entries (rdb_scan t CF_Default None)) as Hin by by apply scan_entry. split.
    + apply elem_of_filter_bool. split; [done|]. by apply (entry_prefix t k p _ r).
    + unfold decoded. destruct Her as [-> _]. done.
Qed.

Lemma same_key_equiv a b : RecordKey_wf a -> RecordKey_wf b -> same_key a b -> rk_sk a = rk_sk b -> RecordKey_equiv a b.
Proof.
  intros (_ & _ & _ & _ & Hv & Hf & _) (_ & _ & _ & _ & Hv' & Hf' & _) (E1 & E2 & E3 & E4) E5. apply RecordKey_equiv_fields. by rewrite Hv, Hf, Hv', Hf'.
Qed.

(** The records of a key differ in their secondary keys. *)
Lemma key_records_NoDup t k p : tidy t -> scan_key k -> RecordKey_prefixPk k = Ret p -> NoDup (map (fun r => rk_sk (fst r)) (key_records t p)).
Proof.
  intros Ht Hk Hp. assert (forall r, r ∈ key_records t p -> same_key k (fst r) /\ RecordKey_wf (fst r)) as Hsame.
  { intros r Hin. apply (in_key_records t k p r Ht Hk Hp) in Hin as (Hs & ek & ev & _ & _ & Hw & _). done. }
  pose proof (tidy_entries t Ht) as Hall. unfold key_records in *. pose proof (scan_sorted t CF_Default None) as Hso. revert Hsame Hall Hso.
  generalize (scan_entries (rdb_scan t CF_Default None)) as l. induction l as [|e l IH]; intros Hsame Hall Hso; [constructor|].
  apply StronglySorted_inv in Hso as [Hso Hlt]. apply Forall_cons in Hall as [(r & Her & _) Hall]. cbn [List.filter] in *.
  destruct (has_prefix p e); [|by apply IH]. assert (decoded e = Some r) as Hde by (unfold decoded; by rewrite (proj1 Her)). destruct Her as (_ & Hwr & He & _).
  cbn in Hsame |- *. rewrite Hde in Hsame |- *. cbn. apply NoDup_cons. split; [|apply IH; [intros r' Hr'; apply Hsame; by constructor|done|done]].
  intros (r' & Esk & Hr')%list_elem_of_fmap. pose proof Hr' as (e' & Hin & Hd')%list_elem_of_omap. apply elem_of_filter_bool in Hin as [Hin _].
  rewrite Forall_forall in Hall, Hlt. destruct (Hall e' Hin) as (r2 & Her2 & _). pose proof (decoded_record _ _ _ Her2 Hd'); subst r2.
  destruct (Hsame r) as [(A1 & A2 & A3 & A4) _]; [constructor|]. destruct (Hsame r') as [(B1 & B2 & B3 & B4) Hw']; [by constructor|].
  assert (RecordKey_equiv (fst r) (fst r')) as Heq by (apply same_key_equiv; [done|done|split_and!; congruence|done]).
  destruct Her2 as (_ & _ & He2 & _). rewrite Heq, He2 in He. apply (inj Ret) in He. specialize (Hlt e' Hin). unfold entry_lt in Hlt. rewrite He, bytes_lt_irrefl in Hlt. done.
Qed.

End Tidy.

(** ** Writes keep the database tidy *)

Section Writes.
Context {BM : BuildMode} {T : Type} `{RocksDBLaws T}.

Lemma record_entry k rv ks vs : RecordKey_wf k -> RecordValue_wf rv -> RecordKey_encode k = Ret ks -> RecordValue_encode rv = Ret vs ->
  exists r, entry_record (ks, vs) r /\ rk_chunkId (fst r) = rk_chunkId k /\ rk_pk (fst r) = rk_pk k.
Proof.
  intros Hk Hv Ek Ev. destruct (RecordKey_decode_encode k ks Hk Ek) as (k' & Dk & Hq & _). destruct (RecordValue_encode_total rv Hv) as (c & Hc & Ev').
  rewrite Ev' in Ev. apply (inj Ret) in Ev as <-. exists (k', rv). pose proof Hq as (E1 & E2 & E3 & E4 & E5 & E6 & E7)%RecordKey_equiv_fields. split; [|done]. split_and!.
  - cbn [fst snd]. unfold Rec_decode. rewrite Dk, bind_Ret, RecordValue_decode_raw by done. done.
  - cbn. destruct Hk as (A & B & C & D & E & F & G). unfold RecordKey_wf. by rewrite E1, E2, E3, E4, E5, E6, E7.
  - cbn. rewrite <-Ek. by apply RecordKey_encode_proper.
  - done.
Qed.

Lemma tidy_put (t t' : T) k rv ks vs : tidy t -> RecordKey_wf k -> (rk_chunkId k < CLUSTER_SLOTS -> x00 ∉ rk_pk k) -> RecordValue_wf rv -> RecordKey_encode k = Ret ks -> RecordValue_encode rv = Ret vs ->
  rdb_put t CF_Default ks vs = ROk t' -> tidy t'.
Proof.
  intros Ht Hk Hn Hv Ek Ev Ep k' v'. rewrite (rdb_read_put _ _ _ _ _ Ep). destruct (decide _) as [E|]; [|apply Ht]. intros [= <-]. injection E as ->.
  destruct (record_entry k rv ks vs Hk Hv Ek Ev) as (r & Hr & Ec & Epk). exists r. split; [done|]. by rewrite Epk, Ec.
Qed.

Lemma tidy_del (t t' : T) cf ks : tidy t -> rdb_del t cf ks = ROk t' -> tidy t'.
Proof. intros Ht Ed k v. rewrite (rdb_read_del _ _ _ _ Ed). destruct (decide _); [done|apply Ht]. Qed.

End Writes.

(** * Elements that are kept under their names *)

(** The element [sk] of the key [pk], as hashes and sets keep it. *)
Definition sub_key (chunkId dbId : Z) (type : RecordType) (pk sk : bytes) : RecordKey := RecordKey_new chunkId dbId type pk sk 0.

Definition sub_ok (pk sk : bytes) : Prop := zlen pk + zlen sk < 2 ^ 62.

(** A key of the data with element records of a type. *)
Record ele_place (chunkId dbId : Z) (type : RecordType) : Prop := mkPlace {
  ep_chunk : is_u32 chunkId /\ chunkId < CLUSTER_SLOTS;
  ep_db : is_u32 dbId;
  ep_type : isKeyType type = true /\ type <> RT_INVALID /\ type <> RT_BINLOG
}.

Section Named.
Context {BM : BuildMode} {T : Type} `{RocksIterLaws T} {HL : RocksDBLaws T} {HH : RocksDBHealthy T} {HI : RocksIterHealthy T}.
Variable cfg : StoreCfg.
Variables (chunkId dbId : Z) (type : RecordType) (pk : bytes).
Hypothesis Hplace : ele_place chunkId dbId type.

#[local] Abbreviation key := (sub_key chunkId dbId type pk).
#[local] Abbreviation ok := (sub_ok pk).

Lemma sub_key_type sk : rk_type (key sk) = type.
Proof. cbn. apply isKeyType_real, Hplace. Qed.

Lemma sub_key_wf sk : ok sk -> RecordKey_wf (key sk).
Proof. intros Hs. apply RecordKey_wf_new; [apply Hplace..|done]. Qed.

Lemma sub_key_data sk : ok sk -> data_key (key sk).
Proof.
  intros Hs. split; [by apply sub_key_wf|]. rewrite sub_key_type. split; [apply Hplace|]. cbn. pose proof (ep_chunk _ _ _ Hplace) as [_ Hc].
  unfold CLUSTER_SLOTS, CHUNKID_FLUSH in *. lia.
Qed.

#[export] Instance sub_family : KeyFamily key ok.
Proof. split; [apply sub_key_data|]. by intros k1 k2 _ _ (_ & _ & _ & _ & E & _)%RecordKey_equiv_fields. Qed.

Hypothesis Hpk : x00 ∉ pk.

Lemma sub_scan_key sk : ok sk -> scan_key (key sk).
Proof. intros Hs. split; [by apply sub_key_wf|]. split; [apply (ep_chunk _ _ _ Hplace)|done]. Qed.

(** A record under the prefix is the record of an element, and the other way round. *)
Lemma sub_record t p r : tidy t -> ok [] -> RecordKey_prefixPk (key []) = Ret p ->
  r ∈ key_records t p <-> RecordKey_equiv (key (rk_sk (fst r))) (fst r) /\ exists ek ev, rdb_read t CF_Default ek = Some ev /\ entry_record (ek, ev) r.
Proof.
  intros Ht Hn Hp. rewrite (in_key_records t (key []) p r Ht (sub_scan_key _ Hn) Hp). split; (intros (Hs & ek & ev & Hr & Her); split; [|by exists ek, ev]).
  - apply same_key_equiv; [apply sub_key_wf| |done|done]; [|apply Her]. destruct Hs as (_ & _ & _ & E), Her as (_ & (_ & _ & _ & _ & _ & _ & Hl) & _). unfold sub_ok. cbn in E. by rewrite E.
  - apply RecordKey_equiv_fields in Hs as (E1 & E2 & E3 & E4 & _). by split_and!.
Qed.

(** What a cursor finds are the elements. *)
Lemma family_records (tx : RocksTxn T) m p : tidy (tx_db tx) -> ok [] -> RecordKey_prefixPk (key []) = Ret p ->
  elems cfg key ok type tx m -> map_Forall (fun sk _ => ok sk) m ->
  map (fun r => (rk_sk (fst r), rv_value (snd r))) (key_records (tx_db tx) p) ≡ₚ map_to_list m.
Proof.
  intros Ht Hn Hp He Hm. apply NoDup_Permutation; [|apply NoDup_map_to_list|].
  { eapply (NoDup_fmap_1 fst). rewrite <-list_fmap_compose. apply (key_records_NoDup _ (key []) p Ht (sub_scan_key _ Hn) Hp). }
  intros [sk v]. rewrite elem_of_map_to_list, list_elem_of_fmap. split.
  - intros (r & [= -> ->] & Hr). apply (sub_record _ _ _ Ht Hn Hp) in Hr as (Hq & ek & ev & Hrd & Hd & Hw & Hek & _).
    assert (ok (rk_sk (fst r))) as Hok.
    { apply RecordKey_equiv_fields in Hq as (_ & _ & _ & E & _). destruct Hw as (_ & _ & _ & _ & _ & _ & Hl). unfold sub_ok. cbn in E. by rewrite E. }
    pose proof (proj2 He _ Hok) as Ha. pose proof (getKV_raw cfg (key (rk_sk (fst r))) tx (sub_key_data _ Hok)) as Hg.
    assert (RecordKey_encode (key (rk_sk (fst r))) = Ret ek) as Hek' by (etransitivity; [by apply RecordKey_encode_proper|exact Hek]).
    unfold raw_record in Hg. rewrite Hek', Hrd in Hg. cbn [fst snd] in Hd.
    assert (RecordValue_decode ev = Ret (snd r)) as Hv by (unfold Rec_decode in Hd; apply bind_Ret_inv in Hd as (k' & _ & Hd); by apply bind_Ret_inv in Hd as (v' & -> & [= <-])).
    unfold elem_at in Ha. destruct (m !! rk_sk (fst r)) as [v|]; [destruct Ha as (rv & E & _ & _ & <-)|destruct Ha as (msg & E)]; rewrite Hg, Hv in E; congruence.
  - intros Em. specialize (Hm _ _ Em). cbn in Hm. destruct (elems_get cfg key ok type tx m sk v He Hm Em) as (rv & Eg & _ & _ & Ev).
    pose proof (getKV_raw cfg (key sk) tx (sub_key_data _ Hm)) as Hg. destruct (raw_record tx (key sk)) as [ev|] eqn:Er; [|destruct Hg as (? & Hg); congruence].
    unfold raw_record in Er. destruct (RecordKey_encode (key sk)) as [ek| |] eqn:Eek; [|done..]. destruct (Ht _ _ Er) as (r & Her & _). pose proof Her as (Hd & Hw & Hek & _).
    assert (RecordKey_equiv (key sk) (fst r)) as Hq by (apply (RecordKey_encode_inj _ _ ek); [by apply sub_key_wf|done|done|done]).
    pose proof Hq as (_ & _ & _ & _ & Esk & _)%RecordKey_equiv_fields. cbn in Esk. exists r. split.
    + rewrite <-Esk, <-Ev. f_equal. cbn [fst snd] in Hd. unfold Rec_decode in Hd. apply bind_Ret_inv in Hd as (k' & _ & Hd). apply bind_Ret_inv in Hd as (v' & Hv & [= <-]). cbn. rewrite Hg in Eg. congruence.
    + apply (sub_record _ _ _ Ht Hn Hp). rewrite <-Esk. split; [done|]. by exists ek, ev.
Qed.

End Named.
