(* ===== verification/KeysDel.v ===== *)
(** Deleting and expiring whole keys: the records that go and the records that stay. *)

From Stdlib Require Import Strings.Byte ZArith Lia Sorting.Sorted.
From stdpp Require Import base list numbers strings gmap sorting.
From S2P Require Import Prelude Status Varint Strings Record RecordValue RecordMeta ReplLog BinlogSeq Txn Store Replicate Cursor Command Elems Keys KeysSpec.

Local Open Scope Z_scope.

(** * Deleting records one by one *)

Section Delete.
Context {BM : BuildMode} {T : Type} `{RocksIterLaws T} {HL : RocksDBLaws T} {HH : RocksDBHealthy T} {HI : RocksIterHealthy T}.
Variable cfg : StoreCfg.
Hypothesis Hcat : cfg_isCatalog cfg = false.
Variable now : Z.

Lemma raw_record_equiv (tx : RocksTxn T) k k' : RecordKey_equiv k k' -> raw_record tx k = raw_record tx k'.
Proof. intros E. unfold raw_record. by rewrite (RecordKey_encode_proper _ _ E). Qed.

(** Whether [k] is one of the keys. *)
Definition among (keys : list RecordKey) (k : RecordKey) : bool := existsb (RecordKey_eqb k) keys.

Lemma among_spec keys k : among keys k = true <-> exists j, j ∈ keys /\ RecordKey_equiv k j.
Proof. unfold among. rewrite existsb_exists. by setoid_rewrite list_elem_of_In. Qed.

(** [tx'] is [tx] without the records of the keys. *)
Definition without (keys : list RecordKey) (tx tx' : RocksTxn T) : Prop :=
  writable tx' /\ kept tx tx' /\ forall k, data_key k -> raw_record tx' k = if among keys k then None else raw_record tx k.

Lemma del_all_ok keys : forall tx : RocksTxn T, writable tx -> Forall data_key keys -> exists tx', del_all cfg now keys tx = Ret tx' /\ without keys tx tx'.
Proof.
  induction keys as [|j keys IH]; intros tx Hw Hk; [by exists tx|]. apply Forall_cons in Hk as [Hj Hk]. cbn [del_all].
  destruct (delKV_ok cfg Hcat j tx now Hj Hw) as (tx1 & E1 & Hw1 & Hn & Hf). pose proof (delKV_kept cfg j tx tx1 now E1 Hj) as K1. rewrite E1. cbn [expect_ok]. rewrite bind_Ret.
  destruct (IH tx1 Hw1 Hk) as (tx2 & E2 & Hw2 & K2 & Hr). exists tx2. split; [done|]. split; [done|]. split; [by transitivity tx1|]. intros k Hd. rewrite (Hr k Hd).
  change (among (j :: keys) k) with (RecordKey_eqb k j || among keys k). destruct (among keys k); [by rewrite orb_true_r|]. rewrite orb_false_r.
  destruct (RecordKey_eqb k j) eqn:E; [by rewrite (raw_record_equiv tx1 k j)|]. apply Hf; [done|]. unfold RecordKey_equiv. congruence.
Qed.

(** The keys of the index of expiries that go with a key. *)
Definition index_keys (ictx : option TTLIndex) : list RecordKey :=
  match ictx with
  | Some t =>
      if bool_decide (ti_type t = RT_KV) then []
      else match rt2Char (ti_type t) with Ret c => [ti_key t c] | _ => [] end
  | None => []
  end.

Lemma del_index_ok ictx (tx : RocksTxn T) : writable tx -> (forall t, ictx = Some t -> TTLIndex_wf t) ->
  exists tx', del_index cfg now ictx tx = Ret tx' /\ without (index_keys ictx) tx tx'.
Proof.
  intros Hw Hi. destruct ictx as [t|]; [|exists tx; split; [done|]; by split]. specialize (Hi t eq_refl). unfold del_index, index_keys.
  case_bool_decide; [exists tx; split; [done|]; by split|]. destruct (TTLIndex_encode_total t Hi) as (c & Hc & Et). rewrite Hc, Et.
  assert (data_key (ti_key t c)) as Hd by (split; [by apply ti_key_wf|done]).
  destruct (delKV_ok cfg Hcat (ti_key t c) tx now Hd Hw) as (tx' & E & Hw' & Hn & Hf). exists tx'. split; [exact E|]. split; [done|]. split; [exact (delKV_kept cfg _ tx tx' now E Hd)|].
  intros k Hk. change (among [ti_key t c] k) with (RecordKey_eqb k (ti_key t c) || false). rewrite orb_false_r.
  destruct (RecordKey_eqb k (ti_key t c)) eqn:Ek; [by rewrite (raw_record_equiv tx' k (ti_key t c))|]. apply Hf; [done|]. unfold RecordKey_equiv. congruence.
Qed.

(** * The elements of a key *)

Variables (chunkId dbId : Z) (pk : bytes).
Hypothesis Hpk : x00 ∉ pk.
Hypothesis Hlen : zlen pk < 2 ^ 61.

(** The records of the key with one of the types. *)
Definition element_of (types : list RecordType) (k : RecordKey) : Prop :=
  rk_chunkId k = chunkId /\ rk_dbId k = dbId /\ rk_pk k = pk /\ rk_type k ∈ types.

#[export] Instance element_of_dec types k : Decision (element_of types k).
Proof. unfold element_of. apply _. Defined.

Lemma empty_ok : sub_ok pk [].
Proof. unfold sub_ok. change (zlen []) with 0. lia. Qed.

Lemma sub_prefix type : ele_place chunkId dbId type -> exists p, RecordKey_prefixPk (sub_key chunkId dbId type pk []) = Ret p.
Proof.
  intros Hp. pose proof (sub_key_wf _ _ _ _ Hp _ empty_ok) as Hw. destruct (rt2Char_some (rk_type (sub_key chunkId dbId type pk []))) as [c Hc]; [apply Hw|].
  eexists. by apply (RecordKey_prefixPk_eq _ c).
Qed.

Lemma zlen_key_records (t : T) p : zlen (key_records t p) <= zlen (scan_entries (rdb_scan t CF_Default None)).
Proof.
  unfold key_records, zlen. generalize (scan_entries (rdb_scan t CF_Default None)) as l. induction l as [|e l IH]; [done|].
  cbn [List.filter]. destruct (has_prefix p e); cbn; [destruct (decoded e); cbn; lia|lia].
Qed.

(** A record of the key is found under the prefix of its type. *)
Lemma key_among (tx : RocksTxn T) k type p : tidy (tx_db tx) -> ele_place chunkId dbId type -> RecordKey_prefixPk (sub_key chunkId dbId type pk []) = Ret p ->
  data_key k -> rk_chunkId k = chunkId -> rk_dbId k = dbId -> rk_pk k = pk -> rk_type k = type -> raw_record tx k <> None ->
  among (map fst (key_records (tx_db tx) p)) k = true.
Proof.
  intros Ht Hp Epre (Hw & _) Ec Ed Ek Et Hr. unfold raw_record in Hr. destruct (RecordKey_encode k) as [ek| |] eqn:Eek; [|done..].
  destruct (rdb_read (tx_db tx) CF_Default ek) as [ev|] eqn:Erd; [|done]. destruct (Ht _ _ Erd) as (r & Her & _).
  assert (RecordKey_equiv k (fst r)) as Hq by (destruct Her as (_ & Hwr & Hekr & _); by apply (RecordKey_encode_inj _ _ ek)).
  apply among_spec. exists (fst r). split; [|done]. apply list_elem_of_fmap. exists r. split; [done|].
  apply (sub_record _ _ _ _ Hp Hpk _ _ _ Ht empty_ok Epre). split; [|by exists ek, ev].
  apply RecordKey_equiv_fields in Hq as (A & B & C & D & E & F & G). apply RecordKey_equiv_fields. rewrite sub_key_type by done. cbn.
  destruct Hw as (_ & _ & _ & _ & Hv & Hfm & _). split_and!; congruence.
Qed.

(** The keys that the cursors collect for the types: keys of elements, and all whose records are there. *)
Lemma pending_ok mk (tx : RocksTxn T) limit types : tidy (tx_db tx) -> rk_chunkId mk = chunkId -> rk_dbId mk = dbId -> rk_pk mk = pk ->
  zlen (scan_entries (rdb_scan (tx_db tx) CF_Default None)) * zlen types < limit ->
  Forall (ele_place chunkId dbId) types ->
  exists l, pending_delete mk limit types tx [] = Ret l /\ Forall (fun r => data_key (fst r) /\ element_of types (fst r)) l /\
    forall k, data_key k -> element_of types k -> raw_record tx k <> None -> among (map fst l) k = true.
Proof.
  intros Ht Ec Ed Ep Hl Hall. enough (forall acc, zlen acc + zlen (scan_entries (rdb_scan (tx_db tx) CF_Default None)) * zlen types < limit ->
    exists l, pending_delete mk limit types tx acc = Ret (acc ++ l) /\ Forall (fun r => data_key (fst r) /\ element_of types (fst r)) l /\
      forall k, data_key k -> element_of types k -> raw_record tx k <> None -> among (map fst l) k = true) as Hgo.
  { destruct (Hgo [] ltac:(change (zlen []) with 0; lia)) as (l & E & R). by exists l. }
  clear Hl. induction Hall as [|type types Hp _ IH]; intros acc Hl.
  { exists []. rewrite app_nil_r. split; [done|]. split; [constructor|]. intros k _ (_ & _ & _ & Hin). by apply elem_of_nil in Hin. }
  cbn [pending_delete]. rewrite Ec, Ed, Ep. destruct (sub_prefix type Hp) as (p & Epre). fold (sub_key chunkId dbId type pk []). rewrite Epre, bind_Ret.
  rewrite (prefix_records_ok _ limit (sub_key chunkId dbId type pk []) p acc tx) by (done || by apply sub_scan_key, empty_ok). rewrite bind_Ret.
  set (l1 := key_records (tx_db tx) p). assert (zlen l1 <= zlen (scan_entries (rdb_scan (tx_db tx) CF_Default None))) as Hl1 by apply zlen_key_records.
  rewrite zlen_cons in Hl. pose proof (zlen_nonneg acc). pose proof (zlen_nonneg types). pose proof (zlen_nonneg l1). rewrite ztake_all by nia.
  destruct (IH (acc ++ l1)) as (l2 & E2 & Hf2 & Hr2); [rewrite zlen_app; nia|]. exists (l1 ++ l2). rewrite E2, <-app_assoc. split; [done|]. split.
  - apply Forall_app. split; [|eapply Forall_impl; [exact Hf2|]; intros r [Hd (A & B & C & D)]; split; [done|]; split_and!; [done..|by constructor]].
    apply Forall_forall. intros r Hr. apply (sub_record _ _ _ _ Hp Hpk _ _ _ Ht empty_ok Epre) in Hr as (Hq & ek & ev & _ & _ & Hw & _).
    apply RecordKey_equiv_fields in Hq as (A & B & C & D & _). rewrite sub_key_type in C by done. cbn in A, B, D. split.
    + split; [done|]. rewrite <-C. split; [apply Hp|]. rewrite <-A. pose proof (ep_chunk _ _ _ Hp) as [_ Hc]. unfold CLUSTER_SLOTS, CHUNKID_FLUSH in *. lia.
    + split_and!; [done..|]. rewrite <-C. constructor.
  - intros k Hk He Hr. unfold among. rewrite map_app, existsb_app. apply orb_true_iff. destruct (decide (rk_type k = type)) as [Et|Hn]; [left|right].
    + destruct He as (A & B & C & _). by apply (key_among tx k type p).
    + apply Hr2; [done| |done]. destruct He as (A & B & C & D). split_and!; [done..|]. by apply elem_of_cons in D as [D|D].
Qed.

(** * The whole key *)

(** The meta record. *)
Definition whole_key (tp : RecordType) : RecordKey := RecordKey_new chunkId dbId tp pk [] 0.

(** [tx'] is [tx] without the elements of the types, the meta record and the entry of the index. *)
Definition key_gone (types : list RecordType) (mk : RecordKey) (idx : list RecordKey) (tx tx' : RocksTxn T) : Prop :=
  writable tx' /\ kept tx tx' /\
  forall k, data_key k -> raw_record tx' k = if bool_decide (element_of types k) || among (mk :: idx) k then None else raw_record tx k.

Lemma among_app a b k : among (a ++ b) k = among a k || among b k.
Proof. apply existsb_app. Qed.

Lemma optimism_ok mk (tx : RocksTxn T) valueType types ictx :
  tidy (tx_db tx) -> writable tx -> data_key mk -> rk_type mk = RT_DATA_META -> rk_chunkId mk = chunkId -> rk_dbId mk = dbId -> rk_pk mk = pk ->
  valueType <> RT_KV -> ele_types valueType = Ret types -> Forall (ele_place chunkId dbId) types -> (forall t, ictx = Some t -> TTLIndex_wf t) ->
  zlen (scan_entries (rdb_scan (tx_db tx) CF_Default None)) * zlen types < MAXU32 ->
  exists tx', Command_delKeyOptimismInLock cfg now mk valueType tx ictx = Ret tx' /\ key_gone types mk (index_keys ictx) tx tx'.
Proof.
  intros Ht Hw Hmk Htype Ec Ed Ek Hkv Hty Hall Hi Hl. unfold Command_delKeyOptimismInLock, Command_partialDelSubKeys. rewrite Z.eqb_refl. cbn [andb negb].
  rewrite bind_Ret. unfold RecordKey_getRecordType. inv_d by apply Hmk. rewrite bind_Ret. inv_d by (by rewrite Htype). rewrite bool_decide_false by done.
  rewrite Hty, bind_Ret. destruct (pending_ok mk tx MAXU32 types Ht Ec Ed Ek Hl Hall) as (l & -> & Hf & Hr). rewrite bind_Ret.
  destruct (del_all_ok (map fst l ++ [mk]) tx Hw) as (tx1 & -> & Hw1 & K1 & Hd1).
  { apply Forall_app. split; [|by constructor]. apply Forall_fmap. eapply Forall_impl; [exact Hf|]. by intros r [? _]. }
  rewrite bind_Ret. destruct (del_index_ok ictx tx1 Hw1 Hi) as (tx2 & -> & Hw2 & K2 & Hd2). cbn [expect_ok]. rewrite !bind_Ret. exists tx2. split; [done|]. split; [done|]. split; [by transitivity tx1|].
  intros k Hk. rewrite (Hd2 k Hk), (Hd1 k Hk), among_app. change (among (mk :: index_keys ictx) k) with (RecordKey_eqb k mk || among (index_keys ictx) k).
  change (among [mk] k) with (RecordKey_eqb k mk || false). rewrite orb_false_r. destruct (among (index_keys ictx) k); [by rewrite !orb_true_r|]. rewrite orb_false_r.
  destruct (RecordKey_eqb k mk); [by rewrite !orb_true_r|]. rewrite !orb_false_r. destruct (among (map fst l) k) eqn:Ea.
  - rewrite bool_decide_true; [done|]. apply among_spec in Ea as (j & Hj & Hq). apply list_elem_of_fmap in Hj as (r & -> & Hin).
    rewrite Forall_forall in Hf. destruct (Hf r Hin) as [_ (A & B & C & D)]. apply RecordKey_equiv_fields in Hq as (E1 & E2 & E3 & E4 & _).
    unfold element_of. by rewrite E1, E2, E3, E4.
  - case_bool_decide as He; [|done]. destruct (raw_record tx k) eqn:Er; [|done]. rewrite Hr in Ea; [done|done|done|by rewrite Er].
Qed.

(** The types of the elements of a value. *)
Definition ele_list (valueType : RecordType) : list RecordType :=
  match valueType with
  | RT_HASH_META => [RT_HASH_ELE]
  | RT_LIST_META => [RT_LIST_ELE]
  | RT_SET_META => [RT_SET_ELE]
  | RT_ZSET_META => [RT_ZSET_S_ELE; RT_ZSET_H_ELE]
  | RT_TBITMAP_META => [RT_TBITMAP_ELE]
  | _ => []
  end.

Hypothesis Hplace : is_u32 chunkId /\ chunkId < CLUSTER_SLOTS.
Hypothesis Hdb : is_u32 dbId.

Lemma ele_list_place valueType : Forall (ele_place chunkId dbId) (ele_list valueType).
Proof. destruct valueType; cbn [ele_list]; repeat (apply Forall_nil_2 || apply Forall_cons_2); (split; [done|done|by split_and!]). Qed.

Lemma whole_key_data tp : getRealKeyType tp = RT_DATA_META -> data_key (whole_key tp) /\ rk_type (whole_key tp) = RT_DATA_META.
Proof.
  intros Htp. split; [|done]. split; [|split; [cbn; by rewrite Htp|cbn; unfold CLUSTER_SLOTS, CHUNKID_FLUSH in *; lia]].
  apply RecordKey_wf_new; [apply Hplace|done|by intros ->|]. change (zlen []) with 0. lia.
Qed.

(** A key of any type that is not deleted by ranges. *)
Lemma optimism_any tp (tx : RocksTxn T) valueType ictx :
  tidy (tx_db tx) -> writable tx -> getRealKeyType tp = RT_DATA_META -> isDataMetaType valueType = true ->
  (forall t, ictx = Some t -> TTLIndex_wf t /\ ti_type t = valueType) ->
  zlen (scan_entries (rdb_scan (tx_db tx) CF_Default None)) * 2 < MAXU32 ->
  exists tx', Command_delKeyOptimismInLock cfg now (whole_key tp) valueType tx ictx = Ret tx' /\ key_gone (ele_list valueType) (whole_key tp) (index_keys ictx) tx tx'.
Proof.
  intros Ht Hw Htp Hv Hi Hl. destruct (whole_key_data tp Htp) as [Hd Hty]. destruct (decide (valueType = RT_KV)) as [->|Hkv].
  - unfold Command_delKeyOptimismInLock, Command_partialDelSubKeys. rewrite Z.eqb_refl. cbn [andb negb]. rewrite bind_Ret. unfold RecordKey_getRecordType.
    inv_d by apply Hd. rewrite bind_Ret. inv_d by (by rewrite Hty). rewrite bool_decide_true by done.
    destruct (delKV_ok cfg Hcat (whole_key tp) tx now Hd Hw) as (tx' & E' & Hw' & Hn & Hf). pose proof (delKV_kept cfg _ tx tx' now E' Hd) as K. rewrite E'. cbn [expect_ok]. rewrite !bind_Ret. exists tx'. split; [done|]. split; [done|]. split; [done|].
    replace (index_keys ictx) with (@nil RecordKey) by (destruct ictx as [x|]; [|done]; unfold index_keys; by rewrite bool_decide_true by apply (Hi x eq_refl)).
    intros k Hk. rewrite bool_decide_false by (by intros (_ & _ & _ & ?%elem_of_nil)). cbn [orb]. change (among [whole_key tp] k) with (RecordKey_eqb k (whole_key tp) || false).
    rewrite orb_false_r. destruct (RecordKey_eqb k (whole_key tp)) eqn:E; [by rewrite (raw_record_equiv tx' k (whole_key tp))|]. apply Hf; [done|]. unfold RecordKey_equiv. congruence.
  - apply optimism_ok; try done.
    + by destruct valueType.
    + apply ele_list_place.
    + intros t Et. by apply Hi.
    + pose proof (zlen_nonneg (scan_entries (rdb_scan (tx_db tx) CF_Default None))). assert (zlen (ele_list valueType) <= 2) by (by destruct valueType; vm_compute). nia.
Qed.

End Delete.

(** * Reading a key *)

Lemma mark_counters {BM : BuildMode} ks t b ks' : RocksKVStore_markCommitted ks t b = Ret ks' ->
  ks_mode ks' = ks_mode ks /\ ks_nextTxnSeq ks' = ks_nextTxnSeq ks /\ ks_nextBinlogSeq ks' = ks_nextBinlogSeq ks.
Proof.
  unfold RocksKVStore_markCommitted, RocksKVStore_markCommittedInLock. destruct (negb _); [done|]. intros (_ & _ & E)%bind_Ret_inv.
  destruct (ks_aliveTxns ks !! t) as [[d id]|]; [|done]. apply bind_Ret_inv in E as (_ & _ & E). destruct (negb (id =? _)); [|by injection E as <-].
  apply bind_Ret_inv in E as (_ & _ & E). destruct (om_find _ id) as [[d' t']|]; [|done]. apply bind_Ret_inv in E as (_ & _ & E).
  by apply bind_Ret_inv in E as ([bs v] & _ & [= <-]).
Qed.

Lemma create_txn_fields ks sess ks' id r : RocksKVStore_createTransaction ks sess = Ret (ks', id, r) ->
  r = match sess with Some b => b | None => bool_decide (ks_mode ks = REPLICATE_ONLY) end /\ ks_mode ks' = ks_mode ks /\ ks_nextTxnSeq ks' = u64 (ks_nextTxnSeq ks + 1) /\
  ks_nextBinlogSeq ks' = ks_nextBinlogSeq ks.
Proof.
  unfold RocksKVStore_createTransaction. destruct (negb _); [done|]. intros (ks1 & E & [= <- _ <-])%bind_Ret_inv.
  unfold RocksKVStore_addUnCommitedTxnInLock in E. cbn in E. destruct (ks_aliveTxns ks !! ks_nextTxnSeq ks); [done|]. by injection E as <-.
Qed.

(** A transaction that is opened and dropped leaves the store as it was, but for its id. *)
Lemma open_drop {BM : BuildMode} {T : Type} `{RocksDB T} ks live dur r (db : T) :
  sys_inv (mkSys ks live dur) -> ks_nextTxnSeq ks < 2 ^ 64 - 1 ->
  exists ks1 ks', RocksKVStore_createTransaction ks (Some r) = Ret (ks1, ks_nextTxnSeq ks, r) /\ sys_inv (mkSys ks' live dur) /\
    (ks_nextTxnSeq ks' = ks_nextTxnSeq ks + 1 /\ ks_nextBinlogSeq ks' = ks_nextBinlogSeq ks) /\ forall B (e : M B), drop_txn ks1 db (RocksTxn_new (ks_nextTxnSeq ks) r db) e = Ret (ks', db, e).
Proof.
  intros Hi Hn. destruct (create_ok ks live dur (Some r) Hi Hn) as (ks1 & r' & E & Hi1 & _).
  assert (r' = r) as -> by (unfold RocksKVStore_createTransaction in E; destruct (negb _); [done|]; by apply bind_Ret_inv in E as (? & _ & [= _ <-])).
  assert (live !! ks_nextTxnSeq ks = None) as Hfresh by (destruct (live !! ks_nextTxnSeq ks) as [b|] eqn:El; [|done]; pose proof (si_ids _ Hi _ _ El) as Hb; cbn in Hb; lia).
  destruct (mark_ok ks1 _ dur (ks_nextTxnSeq ks) TXNID_UNINITED TXNID_UNINITED Hi1 (lookup_insert_eq _ _ _)) as (ks' & Em & Hi' & _); [done|].
  rewrite delete_insert_id in Hi' by done. exists ks1, ks'. split; [done|]. split; [done|]. split.
  { split; [|by rewrite (proj2 (proj2 (mark_counters _ _ _ _ Em))), (proj2 (proj2 (proj2 (create_txn_fields _ _ _ _ _ E))))]. rewrite (proj1 (proj2 (mark_counters _ _ _ _ Em))), (proj1 (proj2 (proj2 (create_txn_fields _ _ _ _ _ E)))). apply wrap_id. pose proof (si_seq _ Hi) as Hs. unfold is_u. cbn in Hs. lia. }
  intros B e. unfold drop_txn, RocksTxn_destroy. cbn [RocksTxn_new tx_done tx_replLogValues tx_txnId]. inv_d by done. by rewrite Em, bind_Ret.
Qed.

(** A read depends on the database only. *)
Lemma getKV_same {BM : BuildMode} {T : Type} `{RocksDB T} cfg k (tx tx' : RocksTxn T) : tx_db tx = tx_db tx' -> RocksKVStore_getKV cfg k tx = RocksKVStore_getKV cfg k tx'.
Proof. intros E. unfold RocksKVStore_getKV, RocksTxn_getKV. by rewrite E. Qed.

Section Expire.
Context {BM : BuildMode} {T : Type} `{RocksIterLaws T} {HL : RocksDBLaws T} {HH : RocksDBHealthy T} {HI : RocksIterHealthy T}.
Variable cfg : StoreCfg.
Hypothesis Hcat : cfg_isCatalog cfg = false.
Variables (now currentTs : Z) (srv : ServerParams) (sess : SessionCtx) (multi : option Z) (chunkId : Z) (key : bytes).
Hypothesis Hkey : (x00 ∉ key) /\ zlen key < 2 ^ 61.
Hypothesis Hplace : is_u32 chunkId /\ chunkId < CLUSTER_SLOTS.
Hypothesis Hdb : is_u32 (sc_dbId sess).

Definition expired (rv : RecordValue) : bool := negb (sp_noexpire srv || (rv_ttl rv =? 0) || (currentTs <? rv_ttl rv)).

(** What a command gets of a key that has not expired. *)
Definition verdict (tp : RecordType) (hasVersion : bool) (rv : RecordValue) : M RecordValue :=
  if negb (bool_decide (rv_type rv = tp)) && negb (bool_decide (tp = RT_DATA_META)) then Throw ERR_WRONG_TYPE (wrong_type key)
  else if hasVersion && negb (SessionCtx_verifyVersion sess multi (rv_versionEP rv)) then Throw ERR_WRONG_VERSION_EP []
  else Ret rv.

#[local] Abbreviation read_key := (Command_expireKeyIfNeeded cfg now srv sess multi chunkId currentTs key).
#[local] Abbreviation mk := (whole_key chunkId (sc_dbId sess) key).

Lemma expire_ok ks live dur (db : T) tp hasVersion :
  sys_inv (mkSys ks live dur) -> ks_nextTxnSeq ks < 2 ^ 64 - 1 -> getRealKeyType tp = RT_DATA_META ->
  tidy db -> zlen (scan_entries (rdb_scan db CF_Default None)) * 2 < MAXU32 ->
  let replica := bool_decide (ks_mode ks = REPLICATE_ONLY) in
  let tx := RocksTxn_new (ks_nextTxnSeq ks) replica db in
  exists ks', sys_inv (mkSys ks' live dur) /\ (ks_nextTxnSeq ks' = ks_nextTxnSeq ks + 1 /\ ks_nextBinlogSeq ks' = ks_nextBinlogSeq ks) /\
  match RocksKVStore_getKV cfg (mk tp) tx with
  | Throw code msg => read_key tp hasVersion ks db = Ret (ks', db, Throw code msg)
  | Crash c => read_key tp hasVersion ks db = Crash c
  | Ret rv =>
      (expired rv = false -> read_key tp hasVersion ks db = Ret (ks', db, verdict tp hasVersion rv)) /\
      (expired rv = true -> replica = true -> read_key tp hasVersion ks db = Ret (ks', db, Throw ERR_EXPIRED [])) /\
      (expired rv = true -> replica = false -> RecordValue_wf rv -> isDataMetaType (rv_type rv) = true -> ks_nextBinlogSeq ks < 2 ^ 64 - 1 ->
       forall cnt, getSubKeyCount (mk tp) rv = Ret cnt -> Command_useDeleteRange cnt (rv_type rv) srv = false ->
       exists tx' ks2 db2 dur2 r, key_gone chunkId (sc_dbId sess) key (ele_list (rv_type rv)) (mk tp)
           (index_keys (Some (mkTTLIndex key (rv_type rv) (sc_dbId sess) (rv_ttl rv)))) tx tx' /\
         read_key tp hasVersion ks db = Ret (ks2, db2, _ ← r; Throw ERR_EXPIRED []) /\ commit_outcome db tx' db2 r /\ sys_inv (mkSys ks2 live dur2))
  end.
Proof.
  intros Hi Hn Htp Htd Hsz replica tx. destruct (open_drop ks live dur replica db Hi Hn) as (ks1 & ks' & Ec & Hi' & Hq & Hdrop). exists ks'. split; [done|]. split; [done|].
  fold tx in Hdrop. unfold Command_expireKeyIfNeeded, open_txn. cbn [expire_session sc_replOnly]. fold replica. rewrite Ec. fold tx.
  change (RecordKey_new chunkId (sc_dbId sess) tp key [] 0) with (mk tp). destruct (RocksKVStore_getKV cfg (mk tp) tx) as [rv|code msg|c]; cbn [or_drop]; [|apply Hdrop|done].
  unfold expired, verdict. split_and!.
  - intros ->%negb_false_iff. destruct (_ && _); [apply Hdrop|]. destruct (_ && _); apply Hdrop.
  - intros ->%negb_true_iff Hr. cbn [tx RocksTxn_new tx_replOnly]. rewrite Hr. apply Hdrop.
  - intros Hexp%negb_true_iff Hr Hwf Hm Hb cnt Hcnt Huse. rewrite Hexp. cbn [tx RocksTxn_new tx_replOnly]. fold tx. rewrite Hr, Hcnt. cbn [or_drop]. rewrite Huse.
    destruct (optimism_any cfg Hcat now chunkId (sc_dbId sess) key (proj1 Hkey) (proj2 Hkey) Hplace Hdb tp tx (rv_type rv)
      (Some (mkTTLIndex key (rv_type rv) (sc_dbId sess) (rv_ttl rv)))) as (tx' & -> & Hg); [done| |done|done| |done|].
    + split; [by cbn|]. split; [done|]. split; [by vm_compute|done].
    + intros t [= <-]. split; [|done]. split_and!; [apply Hwf|done|done|apply Hkey].
    + cbn [or_drop]. destruct (create_ok ks live dur (Some replica) Hi Hn) as (ks1' & b & Ec' & Hi1 & _). rewrite Ec in Ec'. injection Ec' as <- _.
      pose proof (create_txn_fields _ _ _ _ _ Ec) as (_ & _ & _ & Eb). pose proof Hg as (Hw' & [Eid Hk] & _).
      destruct (commit_total cfg ks1 (<[ks_nextTxnSeq ks := TXNID_UNINITED]> live) dur db tx' (sc_cmd (expire_session sess ks)) VERSIONEP_UNINITED Hi1) as (ks2 & db2 & r & dur2 & Ecm & Hi2 & Ho).
      * rewrite Eid. apply lookup_insert_eq.
      * by rewrite Eb.
      * done.
      * by apply Hk.
      * cbn [expire_session sc_cmd]. case_bool_decide; vm_compute; reflexivity.
      * by vm_compute.
      * exists tx', ks2, db2, dur2, r. cbn [expire_session sc_cmd sc_versionEP] in Ecm |- *. rewrite Ecm, bind_Ret. split; [done|]. split; [done|]. split; [done|]. rewrite Eid in Hi2. cbn [tx RocksTxn_new tx_txnId] in Hi2.
        rewrite delete_insert_id in Hi2; [done|]. destruct (live !! ks_nextTxnSeq ks) as [z|] eqn:El; [|done]. pose proof (si_ids _ Hi _ _ El) as Hz. cbn in Hz. lia.
Qed.

(** * DEL *)

#[local] Abbreviation del := (Del_run cfg now srv sess multi chunkId currentTs key).

Lemma delKey_ok tp ks (db : T) (tx : RocksTxn T) rv cnt :
  tidy (tx_db tx) -> writable tx -> zlen (scan_entries (rdb_scan (tx_db tx) CF_Default None)) * 2 < MAXU32 -> getRealKeyType tp = RT_DATA_META ->
  RocksKVStore_getKV cfg (mk tp) tx = Ret rv -> RecordValue_wf rv -> isDataMetaType (rv_type rv) = true -> getSubKeyCount (mk tp) rv = Ret cnt ->
  Command_useDeleteRange cnt (rv_type rv) srv = false ->
  let t := mkTTLIndex key (rv_type rv) (sc_dbId sess) (rv_ttl rv) in
  exists tx', Command_delKey cfg now srv sess chunkId key tp ks db tx = Ret (ks, db, Ret tx') /\
    key_gone chunkId (sc_dbId sess) key (ele_list (rv_type rv)) (mk tp) (index_keys (if 0 <? rv_ttl rv then Some t else None)) tx tx'.
Proof.
  intros Htd Hw Hsz Htp Eg Hwf Hm Hcnt Huse t. destruct (optimism_any cfg Hcat now chunkId (sc_dbId sess) key (proj1 Hkey) (proj2 Hkey) Hplace Hdb tp tx (rv_type rv)
    (if 0 <? rv_ttl rv then Some t else None)) as (tx' & E & Hg); [done|done|done|done| |done|].
  { intros t'. destruct (0 <? rv_ttl rv); [intros [= <-]|done]. split; [|done]. split_and!; [apply Hwf|done|done|apply Hkey]. }
  exists tx'. split; [|done]. unfold Command_delKey, RETRY_CNT. cbn [delKey_rounds]. change (RecordKey_new chunkId (sc_dbId sess) tp key [] 0) with (mk tp).
  rewrite Eg. cbn [find_record status_of]. rewrite bind_Ret, Hcnt. cbn [status_of]. rewrite bind_Ret, Huse. cbn [ti_ttl rk_pk whole_key RecordKey_new]. fold t. rewrite E. done.
Qed.

(** C8: a command that looks at a key gets its record while the key has not expired, or the error
    of a wrong type or version, and no record changes. An expired key is gone for it; on a replica
    the records stay. On a master, when the key is not so large that it is deleted by ranges (then
    [useDeleteRange] holds and the deletion is another one), every record of the key goes in one
    transaction that the call commits: the meta record, all its elements and its entry in the index of
    expiries, and no record of another key. When the database refuses the commit, the call returns its
    error and no record changes. *)
Theorem expireKeyIfNeeded_correct ks live dur (db : T) tp hasVersion :
  sys_inv (mkSys ks live dur) -> ks_nextTxnSeq ks < 2 ^ 64 - 1 -> getRealKeyType tp = RT_DATA_META ->
  tidy db -> zlen (scan_entries (rdb_scan db CF_Default None)) * 2 < MAXU32 ->
  let replica := bool_decide (ks_mode ks = REPLICATE_ONLY) in
  let tx := RocksTxn_new (ks_nextTxnSeq ks) replica db in
  exists ks', sys_inv (mkSys ks' live dur) /\
  match RocksKVStore_getKV cfg (mk tp) tx with
  | Throw code msg => read_key tp hasVersion ks db = Ret (ks', db, Throw code msg)
  | Crash c => read_key tp hasVersion ks db = Crash c
  | Ret rv =>
      (expired rv = false -> read_key tp hasVersion ks db = Ret (ks', db, verdict tp hasVersion rv)) /\
      (expired rv = true -> replica = true -> read_key tp hasVersion ks db = Ret (ks', db, Throw ERR_EXPIRED [])) /\
      (expired rv = true -> replica = false -> RecordValue_wf rv -> isDataMetaType (rv_type rv) = true -> ks_nextBinlogSeq ks < 2 ^ 64 - 1 ->
       forall cnt, getSubKeyCount (mk tp) rv = Ret cnt -> Command_useDeleteRange cnt (rv_type rv) srv = false ->
       exists tx' ks2 db2 dur2 r, key_gone chunkId (sc_dbId sess) key (ele_list (rv_type rv)) (mk tp)
           (index_keys (Some (mkTTLIndex key (rv_type rv) (sc_dbId sess) (rv_ttl rv)))) tx tx' /\
         read_key tp hasVersion ks db = Ret (ks2, db2, _ ← r; Throw ERR_EXPIRED []) /\ commit_outcome db tx' db2 r /\ sys_inv (mkSys ks2 live dur2))
  end.
Proof. intros Hi Hn Htp Htd Hsz replica tx. destruct (expire_ok ks live dur db tp hasVersion Hi Hn Htp Htd Hsz) as (ks' & Hi' & _ & Hm). by exists ks'. Qed.

(** The commit of the transaction of a session, on a database that may refuse it. *)
Lemma commitAll_settles ks1 live dur (db : T) (tx tx' : RocksTxn T) :
  sys_inv (mkSys ks1 (<[tx_txnId tx := TXNID_UNINITED]> live) dur) -> live !! tx_txnId tx = None -> ks_nextBinlogSeq ks1 < 2 ^ 64 - 1 -> log_header sess ->
  writable tx' -> log_ok tx -> kept tx tx' -> forall o,
  exists w2 r dur2, SessionCtx_commitAll cfg sess (mkWorld ks1 db o) tx' = Ret (w2, _ ← r; Ret tt) /\
    w_txn w2 = None /\ sys_inv (mkSys (w_store w2) live dur2) /\ commit_outcome db tx' (w_db w2) r.
Proof.
  intros Hi Hl Hb [Hep Hcmd] Hw Hlog [Eid Hk] o. destruct (commit_total cfg ks1 _ dur db tx' (sc_cmd sess) (sc_versionEP sess) Hi) as (ks2 & db2 & r & dur2 & E & Hi2 & Ho).
  - rewrite Eid. apply lookup_insert_eq.
  - done.
  - done.
  - by apply Hk.
  - done.
  - done.
  - exists (mkWorld ks2 db2 None), r, dur2. unfold SessionCtx_commitAll. cbn [w_store w_db w_txn]. rewrite E, bind_Ret. split; [done|]. split; [done|].
    rewrite Eid, delete_insert_id in Hi2 by done. done.
Qed.

(** C9: DEL of a key that is not there answers 0 and changes nothing. DEL of a key that is there, and
    not so large that it is deleted by ranges, deletes in the transaction of the session every record
    of the key and no other, the elements that a cursor finds included. It answers 1 whatever the
    commit of the transaction gives: when the database refuses it every record is still there, and the
    conflict is not reported. *)
Theorem del_correct ks live dur (db : T) :
  sys_inv (mkSys ks live dur) -> ks_nextTxnSeq ks < 2 ^ 64 - 2 -> ks_nextBinlogSeq ks < 2 ^ 64 - 1 -> ks_mode ks <> REPLICATE_ONLY -> sc_replOnly sess = false -> log_header sess ->
  tidy db -> zlen (scan_entries (rdb_scan db CF_Default None)) * 2 < MAXU32 ->
  let tx := RocksTxn_new (ks_nextTxnSeq ks) false db in
  let w := mkWorld ks db None in
  match RocksKVStore_getKV cfg (mk RT_DATA_META) tx with
  | Throw ERR_NOTFOUND _ =>
      exists w2 dur2, del w = Ret (w2, Ret Command_fmtZero) /\ w_txn w2 = None /\ sys_inv (mkSys (w_store w2) live dur2) /\
        forall (tx2 : RocksTxn T) k, tx_db tx2 = w_db w2 -> data_key k -> raw_record tx2 k = raw_record tx k
  | Ret rv =>
      RecordValue_wf rv -> isDataMetaType (rv_type rv) = true -> expired rv = false -> SessionCtx_verifyVersion sess multi (rv_versionEP rv) = true ->
      forall cnt, getSubKeyCount (mk RT_DATA_META) rv = Ret cnt -> Command_useDeleteRange cnt (rv_type rv) srv = false ->
      exists tx' w2 r dur2, key_gone chunkId (sc_dbId sess) key (ele_list (rv_type rv)) (mk RT_DATA_META)
          (index_keys (if 0 <? rv_ttl rv then Some (mkTTLIndex key (rv_type rv) (sc_dbId sess) (rv_ttl rv)) else None)) tx tx' /\
        del w = Ret (w2, Ret Command_fmtOne) /\ w_txn w2 = None /\ sys_inv (mkSys (w_store w2) live dur2) /\ commit_outcome db tx' (w_db w2) r
  | _ => True
  end.
Proof.
  intros Hi Hn Hbn Hmode Hro Hlh Htd Hsz tx w. destruct (create_ok ks live dur (Some false) Hi ltac:(lia)) as (ks0 & r & Ec & Hi0 & _).
  destruct (create_txn_fields _ _ _ _ _ Ec) as (Er & Em & Es & Eb). cbn in Er. subst r. rewrite wrap_id in Es by (pose proof (si_seq _ Hi); unfold is_u; cbn in *; lia).
  destruct (expire_ok ks0 _ dur db RT_DATA_META true Hi0 ltac:(lia) eq_refl Htd Hsz) as (ks1 & Hi1 & [_ Eb1] & Hx).
  assert (live !! tx_txnId tx = None) as Hfresh by (destruct (live !! tx_txnId tx) as [z|] eqn:El; [|done]; pose proof (si_ids _ Hi _ _ El) as Hz; cbn in Hz; lia).
  assert (ks_nextBinlogSeq ks1 < 2 ^ 64 - 1) as Hb1 by lia. assert (writable tx /\ log_ok tx) as [Hw Hlog] by by split_and!.
  rewrite Em, (bool_decide_false (ks_mode ks = REPLICATE_ONLY)) in Hx by done.
  rewrite (getKV_same cfg (mk RT_DATA_META) tx (RocksTxn_new (ks_nextTxnSeq ks0) false db)) by done.
  unfold Del_run, SessionCtx_createTransaction. cbn [w w_txn w_store w_db]. rewrite Hro, Ec, !bind_Ret. cbn [w_store w_db w_txn]. fold tx.
  unfold Command_delKeyChkExpire.
  destruct (RocksKVStore_getKV cfg (mk RT_DATA_META) (RocksTxn_new (ks_nextTxnSeq ks0) false db)) as [rv|code msg|c] eqn:Eg; [|destruct code; try done|done].
  - intros Hwf Hm Hexp Hver cnt Hcnt Huse. destruct Hx as [Hx _]. rewrite (Hx Hexp), bind_Ret. change (tx_with_db tx db) with tx. unfold verdict. rewrite (bool_decide_true (RT_DATA_META = RT_DATA_META)) by done.
    rewrite andb_false_r. cbn [negb andb]. rewrite Hver. cbn [negb].
    destruct (delKey_ok RT_DATA_META ks1 db tx rv cnt) as (tx' & E & Hg); [done|done|done|done|by rewrite <-Eg; apply getKV_same|done|done|done|done|].
    rewrite E, !bind_Ret. pose proof Hg as (Hw' & Hk & _).
    destruct (commitAll_settles ks1 live dur db tx tx' Hi1 Hfresh Hb1 Hlh Hw' Hlog Hk (Some tx')) as (w2 & r & dur2 & -> & Et2 & Hi2 & Ho). by exists tx', w2, r, dur2.
  - rewrite Hx, !bind_Ret. change (tx_with_db tx db) with tx.
    destruct (commitAll_settles ks1 live dur db tx tx Hi1 Hfresh Hb1 Hlh Hw Hlog ltac:(done) (Some tx)) as (w2 & r & dur2 & -> & Et2 & Hi2 & Ho). exists w2, dur2.
    split_and!; [done|done|done|]. intros tx2 k E2 Hk. destruct r as [id| |]; [by apply Ho| |done]. destruct Ho as [Ho _]. unfold raw_record. by rewrite E2, Ho.
Qed.

End Expire.

(** * An example *)

Definition put_record (k : RecordKey) (rv : RecordValue) (t : MemDB) : MemDB :=
  match @RecordKey_encode true k, @RecordValue_encode true rv with
  | Ret ks, Ret vs => <[(CF_Default, ks) := vs]> t
  | _, _ => t
  end.

Lemma put_record_tidy k rv t : tidy (BM := true) t -> RecordKey_wf k -> x00 ∉ rk_pk k -> RecordValue_wf rv -> tidy (BM := true) (put_record k rv t).
Proof.
  intros Ht Hk Hn Hv. unfold put_record. destruct (RecordKey_encode k) as [ks| |] eqn:Ek; [|done..]. destruct (RecordValue_encode rv) as [vs| |] eqn:Ev; [|done..].
  by eapply (tidy_put t _ k rv ks vs).
Qed.

Definition demo_session : SessionCtx := mkSess 0 MAXU64 false (lit "del").
Definition demo_params : ServerParams := mkParams false 2048 1024.
Definition demo_hash_meta : RecordValue := RecordValue_new (HashMetaValue_encode (mkHashMeta 2)) RT_HASH_META MAXU64 5 (-1) 0 MAXU64.
Definition demo_field (v : bytes) : RecordValue := RecordValue_new v RT_HASH_ELE MAXU64 0 (-1) 0 MAXU64.
Definition demo_sub (type : RecordType) (pk sk : bytes) : RecordKey := RecordKey_new 7 0 type pk sk 0.

(** A hash with two fields that expires at 5, and another hash. *)
Definition demo_hashes : MemDB :=
  put_record (demo_sub RT_HASH_META (lit "h") []) demo_hash_meta
    (put_record (demo_sub RT_HASH_ELE (lit "h") (lit "f")) (demo_field (lit "1"))
      (put_record (demo_sub RT_HASH_ELE (lit "h") (lit "g")) (demo_field (lit "2"))
        (put_record (demo_sub RT_HASH_ELE (lit "o") (lit "f")) (demo_field (lit "3")) ∅))).

Lemma demo_tidy : tidy (BM := true) demo_hashes.
Proof.
  unfold demo_hashes. repeat (apply put_record_tidy; [|by apply RecordKey_wf_new|by apply (bool_decide_unpack _)|by split_and!; (done || (unfold is_u, MAXU64; cbn; lia))]).
  by intros k v.
Qed.

Definition demo_store : RocksKVStore := mkStore true READ_WRITE 1 1 0 ∅ [].

Lemma demo_store_inv : sys_inv (mkSys demo_store ∅ ∅).
Proof. apply sys_inv_empty; [lia|lia|lia|]. intros b Hb. by apply elem_of_empty in Hb. Qed.

Lemma expireKeyIfNeeded_correct_witness : exists tx' ks2 db2 dur2 r,
  key_gone (BM := true) 7 0 (lit "h") [RT_HASH_ELE] (whole_key 7 0 (lit "h") RT_HASH_META) (index_keys (Some (mkTTLIndex (lit "h") RT_HASH_META 0 5)))
    (RocksTxn_new 1 false demo_hashes) tx' /\
  @Command_expireKeyIfNeeded true MemDB _ _ demo_cfg 9 demo_params demo_session None 7 8 (lit "h") RT_HASH_META true demo_store demo_hashes =
    Ret (ks2, db2, _ ← r; Throw ERR_EXPIRED []) /\
  commit_outcome (BM := true) demo_hashes tx' db2 r /\ sys_inv (mkSys ks2 ∅ dur2).
Proof.
  destruct (@expireKeyIfNeeded_correct true MemDB _ _ _ _ _ _ demo_cfg eq_refl 9 8 demo_params demo_session None 7 (lit "h")) with
    (ks := demo_store) (live := (∅ : gmap Z Z)) (dur := (∅ : gset Z)) (db := demo_hashes) (tp := RT_HASH_META) (hasVersion := true) as (ks' & _ & Hx).
  - split; [by apply (bool_decide_unpack _)|done].
  - split; [by split|done].
  - by split.
  - apply demo_store_inv.
  - done.
  - done.
  - apply demo_tidy.
  - vm_compute. done.
  - replace (RocksKVStore_getKV _ _ _) with (Ret demo_hash_meta : M RecordValue) in Hx by (vm_compute; done).
    destruct Hx as (_ & _ & Hx). apply (Hx eq_refl eq_refl) with (cnt := 2); [|done|done|vm_compute; done|done].
    split_and!; (done || (unfold is_u, MAXU64; cbn; lia)).
Defined.

Lemma del_correct_witness : exists tx' w2 r dur2,
  key_gone (BM := true) 7 0 (lit "h") [RT_HASH_ELE] (whole_key 7 0 (lit "h") RT_DATA_META) (index_keys (Some (mkTTLIndex (lit "h") RT_HASH_META 0 5)))
    (RocksTxn_new 1 false demo_hashes) tx' /\
  @Del_run true MemDB _ _ demo_cfg 3 demo_params demo_session None 7 3 (lit "h") (mkWorld demo_store demo_hashes None) = Ret (w2, Ret Command_fmtOne) /\
  w_txn w2 = None /\ sys_inv (mkSys (w_store w2) ∅ dur2) /\ commit_outcome (BM := true) demo_hashes tx' (w_db w2) r.
Proof.
  pose proof (@del_correct true MemDB _ _ _ _ _ _ demo_cfg eq_refl 3 3 demo_params demo_session None 7 (lit "h")) as Hx.
  specialize (Hx ltac:(split; [by apply (bool_decide_unpack _)|done]) ltac:(split; [by split|done]) ltac:(by split) demo_store ∅ ∅ demo_hashes demo_store_inv).
  specialize (Hx ltac:(done) ltac:(done) ltac:(done) ltac:(done) ltac:(by split) demo_tidy ltac:(vm_compute; done)). cbv zeta in Hx.
  replace (RocksKVStore_getKV _ _ _) with (Ret demo_hash_meta : M RecordValue) in Hx by (vm_compute; done).
  apply Hx with (cnt := 2); [|done|done|done|vm_compute; done|done]. split_and!; (done || (unfold is_u, MAXU64; cbn; lia)).
Defined.
