(* ===== verification/Named.v ===== *)
(** Keys whose elements are kept under their names, as hashes and sets are: the meta record of the
    key with the records of its elements, as a finite map, and what the reads, the writes and the
    scans of the store do to it. *)

From Stdlib Require Import Strings.Byte ZArith Lia.
From stdpp Require Import base list numbers strings gmap.
From S2P Require Import Prelude Status Varint Strings Record RecordValue RecordMeta ReplLog BinlogSeq Txn Store Replicate Cursor Command Elems Keys KeysSpec KeysDel.

Local Open Scope Z_scope.

(** The number of entries of a map. *)
Definition zsize {A} (m : gmap bytes A) : Z := Z.of_nat (size m).

Lemma zsize_nonneg {A} (m : gmap bytes A) : 0 <= zsize m.
Proof. unfold zsize. lia. Qed.

Lemma zsize_insert {A} (k : bytes) (v : A) (m : gmap bytes A) : zsize (<[k := v]> m) = match m !! k with Some _ => zsize m | None => zsize m + 1 end.
Proof. unfold zsize. rewrite map_size_insert. destruct (m !! k); cbn; lia. Qed.

Lemma zsize_delete {A} (k : bytes) (m : gmap bytes A) : zsize (delete k m) = match m !! k with Some _ => zsize m - 1 | None => zsize m end.
Proof.
  unfold zsize. rewrite map_size_delete. destruct (m !! k) eqn:E; [|done]. assert (size m <> 0)%nat; [|lia].
  intros Hz%map_size_empty_inv. subst m. by rewrite lookup_empty in E.
Qed.

Lemma zsize_0 {A} (m : gmap bytes A) : zsize m = 0 -> m = ∅.
Proof. intros E. apply map_size_empty_inv. unfold zsize in E. lia. Qed.

Lemma setCas_wf rv cas : RecordValue_wf rv -> isDataMetaType (rv_type rv) = true -> - 2 ^ 63 <= cas < 2 ^ 63 - 1 -> RecordValue_wf (RecordValue_setCas rv cas).
Proof. intros (A & B & C & D & _ & F & G & I & _) Hm Hc. unfold RecordValue_wf; cbn. rewrite Hm. split_and!; try done; (apply B || apply D || apply Hc). Qed.

(** A type of meta records, and the type of the records of its elements. *)
Class NamedType (mtype type : RecordType) : Prop := {
  nt_meta : getRealKeyType mtype = RT_DATA_META /\ isDataMetaType mtype = true;
  nt_ele : isKeyType type = true /\ type <> RT_INVALID /\ type <> RT_BINLOG;
  nt_apart : RT_DATA_META <> type /\ RT_TTL_INDEX <> type
}.

#[export] Instance hash_type : NamedType RT_HASH_META RT_HASH_ELE.
Proof. by repeat split. Qed.

#[export] Instance set_type : NamedType RT_SET_META RT_SET_ELE.
Proof. by repeat split. Qed.

Section NamedKey.
Context {BM : BuildMode} {T : Type} `{RocksIterLaws T} {HL : RocksDBLaws T} {HH : RocksDBHealthy T} {HI : RocksIterHealthy T}.
Variable cfg : StoreCfg.
Variable sess : SessionCtx.
Variables (chunkId : Z) (pk : bytes) (mtype type : RecordType).
Context `{!NamedType mtype type}.
Hypothesis Hcat : cfg_isCatalog cfg = false.
Hypothesis Hchunk : is_u32 chunkId /\ chunkId < CLUSTER_SLOTS.
Hypothesis Hdb : is_u32 (sc_dbId sess).
Hypothesis Hpk : zlen pk < 2 ^ 61.

#[local] Abbreviation key := (sub_key chunkId (sc_dbId sess) type pk).
#[local] Abbreviation ok := (sub_ok pk).

(** The meta key. *)
Definition named_key : RecordKey := whole_key chunkId (sc_dbId sess) pk mtype.

Lemma named_place : ele_place chunkId (sc_dbId sess) type.
Proof. split; [done|done|apply nt_ele]. Qed.

#[local] Instance named_family : KeyFamily key ok := sub_family _ _ _ _ named_place.

Lemma named_types k : ok k -> rk_type (key k) = type.
Proof. intros _. apply sub_key_type, named_place. Qed.

Lemma named_key_data : data_key named_key /\ zlen (rk_pk named_key) < 2 ^ 61.
Proof. split; [|done]. by apply (whole_key_data chunkId (sc_dbId sess) pk Hpk Hchunk Hdb mtype), nt_meta. Qed.

Lemma named_apart : rk_type named_key <> type /\ RT_TTL_INDEX <> type /\ rk_type named_key <> RT_TTL_INDEX.
Proof. pose proof nt_apart as [A B]. unfold named_key; cbn. rewrite (proj1 nt_meta). by split_and!. Qed.

(** The elements [m], and no other. *)
Definition named_elems (tx : RocksTxn T) (m : gmap bytes bytes) : Prop :=
  elems cfg key ok type tx m /\ map_Forall (fun sk _ => ok sk) m.

(** The meta record [rv] and the elements. *)
Definition named_held (tx : RocksTxn T) (rv : RecordValue) (m : gmap bytes bytes) : Prop :=
  RocksKVStore_getKV cfg named_key tx = Ret rv /\ RecordValue_wf rv /\ rv_type rv = mtype /\ named_elems tx m.

Definition named_gone (tx : RocksTxn T) : Prop :=
  (exists msg, RocksKVStore_getKV cfg named_key tx = Throw ERR_NOTFOUND msg) /\ named_elems tx ∅.

Lemma named_get tx m k : named_elems tx m -> ok k ->
  match m !! k with
  | Some v => exists rv, RocksKVStore_getKV cfg (key k) tx = Ret rv /\ rv_value rv = v
  | None => exists msg, RocksKVStore_getKV cfg (key k) tx = Throw ERR_NOTFOUND msg
  end.
Proof.
  intros [He _] Hk. destruct (m !! k) as [v|] eqn:E; [|by apply (elems_none cfg key ok type tx m)].
  destruct (elems_get cfg key ok type tx m k v He Hk E) as (rv & Eg & _ & _ & Ev). by exists rv.
Qed.

(** A read that may find nothing. *)
Lemma named_find tx m k : named_elems tx m -> ok k ->
  exists o, find_record (RocksKVStore_getKV cfg (key k) tx) = Ret o /\ rv_value <$> o = m !! k.
Proof.
  intros He Hk. pose proof (named_get tx m k He Hk) as Hg. destruct (m !! k) as [v|].
  - destruct Hg as (rv & -> & <-). by exists (Some rv).
  - destruct Hg as (msg & ->). by exists None.
Qed.

Lemma named_set tx m k rv now : named_elems tx m -> ok k -> RecordValue_wf rv -> rv_type rv = type ->
  exists tx', RocksKVStore_setKV cfg (key k) rv tx now = Ret tx' /\ named_elems tx' (<[k := rv_value rv]> m) /\ untouched pk tx tx' /\
    (forall j, data_key j -> rk_type j <> type -> raw_record tx' j = raw_record tx j).
Proof.
  intros [He Hm] Hk Hwf Ht. destruct (elems_set cfg Hcat key ok type tx m k rv now He Hk Hwf Ht) as (tx' & E & He' & Ho). exists tx'. split; [done|]. split.
  - split; [done|]. by apply map_Forall_insert_2.
  - split; [exact (set_untouched cfg Hcat tx tx' _ _ now E (family_data k Hk) Hwf (proj1 He))|]. intros j Hj Hn. apply Ho. by apply (outside_type key ok type named_types).
Qed.

Lemma named_del tx m k now : named_elems tx m -> ok k ->
  exists tx', RocksKVStore_delKV cfg (key k) tx now = Ret tx' /\ named_elems tx' (delete k m) /\ untouched pk tx tx'.
Proof.
  intros [He Hm] Hk. destruct (elems_del cfg Hcat key ok type tx m k now He Hk) as (tx' & E & He' & _). exists tx'. split; [done|]. split.
  - split; [done|]. by apply map_Forall_delete.
  - exact (del_untouched cfg Hcat tx tx' _ now E (family_data k Hk) (proj1 He)).
Qed.

Lemma named_set_meta tx m rv now : named_elems tx m -> RecordValue_wf rv -> rv_type rv = mtype ->
  exists tx', RocksKVStore_setKV cfg named_key rv tx now = Ret tx' /\ named_held tx' rv m /\ untouched pk tx tx'.
Proof.
  intros [He Hm] Hwf Ht. destruct (set_meta cfg Hcat key ok type mtype named_key named_types named_apart named_key_data tx m rv now He Hwf Ht) as (tx' & E & A & B & C & D).
  exists tx'. split; [done|]. split; [done|]. exact (set_untouched cfg Hcat tx tx' _ _ now E (proj1 named_key_data) Hwf (proj1 He)).
Qed.

Lemma named_drop tx rv now : named_elems tx ∅ -> RecordValue_wf rv -> rv_type rv = mtype ->
  exists tx', Command_delKeyAndTTL cfg sess named_key rv tx now = Ret tx' /\ named_gone tx' /\ untouched pk tx tx'.
Proof.
  intros [He Hm] Hwf Ht. destruct (drop_meta cfg sess Hcat Hdb key ok type mtype named_key named_types named_apart named_key_data (proj2 nt_meta) tx rv now He Hwf Ht) as (tx' & E & A & B).
  exists tx'. split; [done|]. split; [done|].
  refine (drop_untouched cfg sess Hcat Hdb tx tx' _ _ now E (proj1 He) (proj1 named_key_data) Hpk Hwf _). rewrite Ht. apply nt_meta.
Qed.

(** A meta record that was written before an element. *)
Lemma named_held_set tx rv m k v now : named_held tx rv m -> ok k -> RecordValue_wf v -> rv_type v = type ->
  exists tx', RocksKVStore_setKV cfg (key k) v tx now = Ret tx' /\ named_held tx' rv (<[k := rv_value v]> m) /\ untouched pk tx tx'.
Proof.
  intros (Hg & Hwf & Ht & He) Hk Hv Hvt. destruct (named_set tx m k v now He Hk Hv Hvt) as (tx' & E & He' & Hu & Ho). exists tx'. split; [done|]. split; [|done].
  split; [|done]. apply (getKV_frame cfg _ tx); [apply named_key_data| |done]. apply Ho; [apply named_key_data|apply named_apart].
Qed.

(** ** Scanning *)

Lemma named_scan memLimit (tx : RocksTxn T) m : (forall u, memLimit u = Ret tt) -> x00 ∉ pk -> tidy (tx_db tx) -> named_elems tx m ->
  exists p rcds, RecordKey_prefixPk (key []) = Ret p /\ prefix_records memLimit (no_limit tx) p p [] tx = Ret rcds /\
    map (fun r => (rk_sk (fst r), rv_value (snd r))) rcds ≡ₚ map_to_list m.
Proof.
  intros Hmem Hz Ht [He Hm]. destruct (sub_prefix chunkId (sc_dbId sess) pk Hpk type named_place) as [p Hp]. pose proof (empty_ok pk Hpk) as Hn.
  exists p, (key_records (tx_db tx) p). split; [done|]. split; [|by apply (family_records cfg chunkId (sc_dbId sess) type pk named_place Hz)].
  rewrite (prefix_records_ok memLimit _ (key []) p [] tx Hmem Ht (sub_scan_key _ _ _ _ named_place Hz _ Hn) Hp). f_equal.
  change (zlen []) with 0. rewrite ztake_all; [done|]. pose proof (zlen_key_records (tx_db tx) p). unfold no_limit, scan_fuel, zlen in *. lia.
Qed.

End NamedKey.

(** * Commands *)

(** The command commits [tx'] and answers. *)
Definition commits {BM : BuildMode} {T : Type} `{RocksDB T} (tx' : RocksTxn T) (reply : bytes) (result : M (World (T := T) * M bytes)) : Prop :=
  exists w2, result = Ret (w2, Ret reply) /\ committed tx' w2.

(** The log of the command can be written: the session has its header, the store an id. *)
Definition can_log (sess : SessionCtx) (ks : RocksKVStore) : Prop := log_header sess /\ ks_nextBinlogSeq ks < 2 ^ 64 - 1.

Section Read.
Context {BM : BuildMode} {T : Type} `{RocksIterLaws T} {HL : RocksDBLaws T} {HH : RocksDBHealthy T} {HI : RocksIterHealthy T}.
Variable cfg : StoreCfg.
Variable sess : SessionCtx.

Section Commits.
Context {HC : RocksDBCommits T}.
Hypothesis Hlh : log_header sess.

Lemma commit_commits (w1 : World (T := T)) tx tx' reply :
  opened w1 tx -> kept tx tx' -> writable tx' -> commits tx' reply (commit_reply cfg sess w1 tx' reply).
Proof. intros Ho Hk Hw. destruct (commit_opened cfg sess w1 tx tx' Hlh Ho Hk Hw) as (w2 & id & E & _ & Hc). exists w2. split; [|done]. unfold commit_reply. by rewrite E, bind_Ret. Qed.

Lemma retry_commits n run (w w1 : World (T := T)) tx tx' reply :
  opened w1 tx -> kept tx tx' -> writable tx' -> run w = commit_reply cfg sess w1 tx' reply -> commits tx' reply (retry (S n) run w).
Proof.
  intros Ho Hk Hw E. destruct (commit_commits w1 tx tx' reply Ho Hk Hw) as (w2 & Ec & Hc). exists w2. split; [|done]. cbn [retry]. by rewrite E, Ec, bind_Ret.
Qed.

End Commits.

Variables (now currentTs : Z) (srv : ServerParams) (multi : option Z) (chunkId : Z) (pk : bytes).
Hypothesis Hcat : cfg_isCatalog cfg = false.
Hypothesis Hpk : (x00 ∉ pk) /\ zlen pk < 2 ^ 61.
Hypothesis Hchunk : is_u32 chunkId /\ chunkId < CLUSTER_SLOTS.
Hypothesis Hdb : is_u32 (sc_dbId sess).
Hypothesis Hro : sc_replOnly sess = false.

(** The key is of the type, has not expired, and is not of a later version than the session. *)
Definition live_record (tp : RecordType) (rv : RecordValue) : Prop :=
  rv_type rv = tp /\ expired currentTs srv rv = false /\ SessionCtx_verifyVersion sess multi (rv_versionEP rv) = true.

(** A command reads the meta record and opens the transaction of the session. *)
Lemma read_open ks live dur (db : T) tp :
  sys_inv (mkSys ks live dur) -> ks_nextTxnSeq ks < 2 ^ 64 - 2 -> getRealKeyType tp = RT_DATA_META ->
  tidy db -> zlen (scan_entries (rdb_scan db CF_Default None)) * 2 < MAXU32 ->
  let r := RocksKVStore_getKV cfg (whole_key chunkId (sc_dbId sess) pk tp) (RocksTxn_new 0 false db) in
  match r with Ret rv => live_record tp rv | Throw _ _ => True | Crash _ => False end ->
  exists ks0 ks1 tx,
    read_meta cfg now srv sess multi chunkId currentTs tp pk (mkWorld ks db None) = Ret (mkWorld ks0 db None, r) /\
    SessionCtx_createTransaction sess (mkWorld ks0 db None) = Ret (mkWorld ks1 db (Some tx), tx) /\
    writable tx /\ tx_db tx = db /\ sys_inv (mkSys ks1 (<[tx_txnId tx := TXNID_UNINITED]> live) dur) /\
    (ks_nextBinlogSeq ks < 2 ^ 64 - 1 -> opened (mkWorld ks1 db (Some tx)) tx).
Proof.
  intros Hi Hn Htp Htd Hsz r Hr. destruct (expire_ok cfg Hcat now currentTs srv sess multi chunkId pk Hpk Hchunk Hdb ks live dur db tp true Hi ltac:(lia) Htp Htd Hsz) as (ks0 & Hi0 & Hq & Hx).
  destruct (create_ok ks0 live dur (Some false) Hi0 ltac:(lia)) as (ks1 & b & Ec & Hi1 & _). destruct (create_txn_fields _ _ _ _ _ Ec) as (-> & _ & _ & Eb).
  exists ks0, ks1, (RocksTxn_new (ks_nextTxnSeq ks0) false db). split; [|split; [|split; [|split; [done|split; [done|]]]]].
  - unfold read_meta. cbn [w_store w_db w_txn]. set (tx0 := RocksTxn_new _ _ db) in Hx.
    assert (RocksKVStore_getKV cfg (whole_key chunkId (sc_dbId sess) pk tp) tx0 = r) as Er by by apply getKV_same. rewrite Er in Hx.
    destruct r as [rv|code msg|]; [|by rewrite Hx|done]. destruct Hr as (Ht & He & Hv). destruct Hx as [Hx _]. rewrite (Hx He), bind_Ret. unfold verdict.
    rewrite bool_decide_true, Hv by done. done.
  - unfold SessionCtx_createTransaction. cbn [w_txn w_store w_db]. by rewrite Hro, Ec.
  - split; [done|]. split; [done|]. split; [by vm_compute|done].
  - intros Hbn. split; [by eexists|]. split; [by split|]. split; [cbn [w_store]; lia|]. exists (<[ks_nextTxnSeq ks0 := TXNID_UNINITED]> live), dur. split; [done|apply lookup_insert_eq].
Qed.

(** Records seen by two transactions over the same database. *)
Lemma named_elems_db type (tx tx' : RocksTxn T) m : tx_db tx = tx_db tx' -> writable tx' ->
  named_elems cfg sess chunkId pk type tx m -> named_elems cfg sess chunkId pk type tx' m.
Proof.
  intros E Hw [[_ He] Hm]. split; [|done]. split; [done|]. intros k Hk. specialize (He k Hk). unfold elem_at in *. by rewrite <-(getKV_same cfg _ tx tx' E).
Qed.

End Read.

(** A master that runs, a session without a transaction, a key whose name has no NUL. *)
Record command_ok {BM : BuildMode} {T : Type} `{RocksIter T} (cfg : StoreCfg) (sess : SessionCtx) (chunkId : Z) (pk : bytes)
  (ks : RocksKVStore) (live : gmap Z Z) (dur : gset Z) (db : T) : Prop := mkCommandOk {
  co_cat : cfg_isCatalog cfg = false;
  co_pk : (x00 ∉ pk) /\ zlen pk < 2 ^ 61;
  co_chunk : is_u32 chunkId /\ chunkId < CLUSTER_SLOTS;
  co_db : is_u32 (sc_dbId sess);
  co_ep : is_u64 (sc_versionEP sess);
  co_ro : sc_replOnly sess = false;
  co_inv : sys_inv (mkSys ks live dur);
  co_seq : ks_nextTxnSeq ks < 2 ^ 64 - 2;
  co_tidy : tidy db;
  co_size : zlen (scan_entries (rdb_scan db CF_Default None)) * 2 < MAXU32
}.

(** A command that answers and leaves the store as it is. *)
Definition answers {T : Type} (db : T) (result : M (World (T := T) * M bytes)) (reply : bytes) : Prop :=
  exists w', result = Ret (w', Ret reply) /\ w_db w' = db.

Ltac answered := eexists; split; reflexivity.
