(* ===== verification/KeysRange.v ===== *)
(** Large keys: their elements are deleted by ranges of keys. The range of a key holds exactly its
    elements while no key has a zero in it, and elements of other keys when one does. *)

From Stdlib Require Import Strings.Byte ZArith Lia Sorting.Sorted.
From stdpp Require Import base list numbers strings gmap sorting.
From S2P Require Import Prelude Status Varint Strings Record RecordValue RecordMeta ReplLog BinlogSeq Txn Store Replicate Cursor Command Elems Keys KeysSpec KeysDel.

Local Open Scope Z_scope.

(** What [DeleteRange] does: the entries from [b] to below [e] go. *)
Class RocksRangeLaws (T : Type) `{RocksDB T} : Prop := {
  rdb_read_del_range t cf b e t' : rdb_del_range t cf b e = ROk t' ->
    forall cf' k, rdb_read t' cf' k = if in_range cf cf' b e k false then None else rdb_read t cf' k;
  rdb_del_range_healthy t cf b e : exists t', rdb_del_range t cf b e = ROk t'
}.

#[export] Instance MemDB_range_laws : RocksRangeLaws MemDB.
Proof.
  constructor; [|by eexists]. intros t cf b e t' [= <-] cf' k. rewrite !mem_read. unfold mem_del_range. rewrite map_lookup_filter.
  destruct (t !! (cf', k)) as [v|]; cbn; [|by destruct (in_range _ _ _ _ _ _)]. destruct (in_range cf cf' b e k false) eqn:E; [by rewrite option_guard_False|by rewrite option_guard_True].
Qed.

(** * The range of a key *)

(** A key in front of its version. *)
Definition pk_prefix (k : RecordKey) (c : byte) : bytes := rk_hdr k c ++ rk_pk k ++ [x00].

Definition max_version : bytes := varintEncode MAXU64.

Section Range.
Context {BM : BuildMode}.

Lemma range_start k c : RecordKey_wf k -> rt2Char (rk_type k) = Ret c -> RecordKey_prefixPk k = Ret (pk_prefix k c ++ [x00]).
Proof. intros Hk Hc. rewrite (RecordKey_prefixPk_eq k c) by done. unfold pk_prefix. by rewrite <-!app_assoc. Qed.

Lemma range_end chunkId dbId type pk c : isKeyType type = true -> rt2Char type = Ret c ->
  RecordKey_prefixPk (RecordKey_new chunkId dbId type pk [] MAXU64) = Ret (pk_prefix (RecordKey_new chunkId dbId type pk [] 0) c ++ max_version).
Proof.
  intros Ht Hc. unfold RecordKey_prefixPk, RecordKey_encodePrefixPk. cbn [RecordKey_new rk_type rk_chunkId rk_dbId rk_pk rk_version]. rewrite isKeyType_real by done.
  inv_d by done. rewrite Hc, bind_Ret. inv_d by done. unfold pk_prefix, rk_hdr. cbn [RecordKey_new rk_type rk_chunkId rk_dbId rk_pk]. by rewrite <-!app_assoc.
Qed.

(** In the range there are exactly the keys with the prefix and a version that is not the greatest. *)
Lemma in_key_range k c s : in_range CF_Default CF_Default (pk_prefix k c ++ [x00]) (pk_prefix k c ++ max_version) s false = true <->
  exists r, s = pk_prefix k c ++ r /\ r <> [] /\ bytes_lt r max_version = true.
Proof.
  unfold in_range. rewrite bool_decide_true by done. cbn [andb]. set (q := pk_prefix k c). rewrite andb_true_iff. split.
  - intros [Hb He]. assert (bytes_lt s (q ++ max_version) = true) as Hlt by (unfold bytes_lt; by destruct (bytes_compare s (q ++ max_version))).
    assert (q `prefix_of` s) as [r ->].
    { apply (prefix_between q s (q ++ max_version)); [|done|by exists max_version]. apply not_true_is_false. intros Hq. 
      assert (bytes_lt s (q ++ [x00]) = true) as Hs.
      { apply (bytes_lt_trans _ q); [done|]. unfold bytes_lt. rewrite <-(app_nil_r q) at 1. by rewrite bytes_compare_app. }
      unfold bytes_lt in Hs. rewrite (bytes_compare_antisym s (q ++ [x00])) in Hb. by destruct (bytes_compare s (q ++ [x00])). }
    exists r. rewrite !bytes_compare_app in *. unfold bytes_lt in Hlt. rewrite bytes_compare_app in Hlt. split; [done|]. split; [by intros ->|].
    done.
  - intros (r & -> & Hr & Hlt). rewrite !bytes_compare_app. unfold bytes_lt in Hlt. split; [|by destruct (bytes_compare r max_version)].
    destruct r as [|x r]; [done|]. cbn [bytes_compare]. pose proof (bz_range x). change (bz x00) with 0. destruct (Z.compare_spec 0 (bz x)); [by destruct r|done|lia].
Qed.

(** While no key has a zero in it, that is the key's records. *)
Lemma record_in_range k c k' s : RecordKey_wf k -> RecordKey_wf k' -> rt2Char (rk_type k) = Ret c -> x00 ∉ rk_pk k ->
  (rk_chunkId k' = rk_chunkId k -> x00 ∉ rk_pk k') -> RecordKey_encode k' = Ret s ->
  in_range CF_Default CF_Default (pk_prefix k c ++ [x00]) (pk_prefix k c ++ max_version) s false = true <-> same_key k k'.
Proof.
  intros Hk Hk' Hc Hn Hn' Hs. rewrite in_key_range. destruct (rt2Char_some (rk_type k')) as [c' Hc']; [apply Hk'|].
  rewrite (RecordKey_encode_eq k' c') in Hs by done. apply (inj Ret) in Hs as <-. split.
  - intros (r & E & _ & _). unfold pk_prefix in E. rewrite <-!app_assoc in E. apply app_inj_1 in E as [Eh E]; [|done].
    apply (rk_hdr_inj k' k c' c) in Eh as (E1 & E2 & E3); [|done..]. apply nul_free_split in E; [|by apply Hn'|done]. by split_and!.
  - intros (E1 & E2 & E3 & E4). rewrite E2, Hc' in Hc. apply (inj Ret) in Hc as <-. exists (x00 :: rk_tail k').
    split; [unfold pk_prefix, rk_hdr; by rewrite E1, E3, E4, <-!app_assoc|]. split; [done|]. reflexivity.
Qed.

End Range.

(** * The counters of the store across a commit *)

Section Commit.
Context {BM : BuildMode} {T : Type} `{RocksDB T}.

Lemma assign_counters ks t b ks' id : RocksKVStore_assignBinlogIdIfNeeded ks t b = Ret (ks', id) ->
  ks_mode ks' = ks_mode ks /\ ks_nextTxnSeq ks' = ks_nextTxnSeq ks /\ (ks_nextBinlogSeq ks' = ks_nextBinlogSeq ks \/ ks_nextBinlogSeq ks' = u64 (ks_nextBinlogSeq ks + 1)).
Proof.
  unfold RocksKVStore_assignBinlogIdIfNeeded, add_alive_binlog. destruct (b =? _); [|intros [= <- _]; by auto].
  intros (? & _ & E)%bind_Ret_inv. apply bind_Ret_inv in E as (ks1 & E1 & [= <- _]). apply bind_Ret_inv in E1 as (_ & _ & E1).
  apply bind_Ret_inv in E1 as (_ & _ & E1). destruct (ks_aliveTxns ks !! t) as [[d y]|]; [|done]. injection E1 as <-. cbn. by auto.
Qed.

Lemma commit_counters cfg ks db0 (tx : RocksTxn T) cmd ep ks' db r : RocksTxn_commit cfg ks db0 tx cmd ep = Ret (ks', db, r) ->
  ks_mode ks' = ks_mode ks /\ ks_nextTxnSeq ks' = ks_nextTxnSeq ks /\ (ks_nextBinlogSeq ks' = ks_nextBinlogSeq ks \/ ks_nextBinlogSeq ks' = u64 (ks_nextBinlogSeq ks + 1)).
Proof.
  unfold RocksTxn_commit. intros (_ & _ & E)%bind_Ret_inv. apply bind_Ret_inv in E as ([[[ks1 tx1] bid] e] & El & E).
  apply bind_Ret_inv in E as ([[db1 bid'] r'] & _ & E). apply bind_Ret_inv in E as (_ & _ & E). apply bind_Ret_inv in E as (ks2 & Em & [= <- _ _]).
  apply mark_counters in Em as (-> & -> & ->). clear -El. unfold commit_log in El. destruct (last (tx_replLogValues tx)) as [b|]; [|injection El as <- _ _ _; by auto].
  apply bind_Ret_inv in El as (_ & _ & E). apply bind_Ret_inv in E as ([ks2 id] & Ea & E). apply assign_counters in Ea. apply bind_Ret_inv in E as (_ & _ & E).
  apply bind_Ret_inv in E as (lk & _ & E). apply bind_Ret_inv in E as (lv & _ & E). destruct (rdb_put _ _ lk lv); [by injection E as <- _ _ _|..];
  (apply bind_Ret_inv in E as (? & _ & E); by injection E as <- _ _ _).
Qed.

End Commit.

(** * Deleting the elements *)

Section DeleteRange.
Context {BM : BuildMode} {T : Type} `{RocksDBLaws T} {HH : RocksDBHealthy T} {HC : RocksDBCommits T} {HR : RocksRangeLaws T}.
Variable cfg : StoreCfg.
Hypothesis Hcat : cfg_isCatalog cfg = false.
Hypothesis Hlog : cfg_enableRepllog cfg = true.
Variable now : Z.
Hypothesis Hnow : is_u64 now.

(** Room for the ids of [n] more transactions in a store that takes writes. *)
Definition room (ks : RocksKVStore) (n : Z) : Prop :=
  ks_mode ks <> REPLICATE_ONLY /\ ks_nextTxnSeq ks < 2 ^ 64 - n /\ ks_nextBinlogSeq ks < 2 ^ 64 - n.

(** The bytes of a record of the data in a database. *)
Definition stored_raw (db : T) (k : RecordKey) : option bytes := raw_record (RocksTxn_new 0 false db) k.

Lemma raw_record_stored (tx : RocksTxn T) k : raw_record tx k = stored_raw (tx_db tx) k.
Proof. done. Qed.

Lemma sys_steps_inv s s' : rtc sys_step s s' -> sys_inv s -> sys_inv s'.
Proof. induction 1 as [|s1 s2 s3 H12 _ IH]; [done|]. intros Hi. apply IH. by apply (sys_step_ok s1 s2). Qed.

Lemma deleteRange_ok ks live dur (db : T) b e n : sys_inv (mkSys ks live dur) -> 1 <= n -> room ks n -> zlen b < 2 ^ 58 -> zlen e < 2 ^ 58 ->
  exists ks' db' dur', RocksKVStore_deleteRange cfg now ks db b e = Ret (ks', db', Ret tt) /\ sys_inv (mkSys ks' live dur') /\ room ks' (n - 1) /\
    forall k s, data_key k -> RecordKey_encode k = Ret s -> stored_raw db' k = if in_range CF_Default CF_Default b e s false then None else stored_raw db k.
Proof.
  intros Hi Hn1 (Hm & Htxn & Hbin) Hb He. unfold RocksKVStore_deleteRange. destruct (rdb_del_range_healthy db CF_Default b e) as [db1 E1].
  unfold RocksKVStore_getDataColumnFamilyHandle. rewrite E1. cbn [rocks_ok]. destruct (create_ok ks live dur None Hi ltac:(lia)) as (ks1 & r & Ec & Hi1 & _).
  destruct (create_txn_fields _ _ _ _ _ Ec) as (Er & Em1 & Es1 & Eb1). rewrite bool_decide_false in Er by done. subst r. unfold open_txn. rewrite Ec.
  rewrite wrap_id in Es1 by (pose proof (si_seq _ Hi); unfold is_u; cbn in *; lia).
  set (tx := RocksTxn_new (ks_nextTxnSeq ks) false db1). unfold RocksTxn_addDeleteRangeBinlog. cbn [tx_replOnly tx RocksTxn_new]. rewrite Hlog. inv_d by (by rewrite Hcat).
  fold tx. change (RocksTxn_setChunkId tx CHUNKID_DEL_RANGE) with (Ret (mkTxn (ks_nextTxnSeq ks) TXNID_UNINITED CHUNKID_DEL_RANGE false false [] db1) : M (RocksTxn T)).
  rewrite bind_Ret. set (en := mkEntry REPL_OP_DEL_RANGE now b e). cbn [or_drop]. set (tx1 := tx_emplace _ en).
  assert (live !! ks_nextTxnSeq ks = None) as Hfresh by (destruct (live !! ks_nextTxnSeq ks) as [x|] eqn:El; [|done]; pose proof (si_ids _ Hi _ _ El) as Hx; cbn in Hx; lia).
  destruct (commit_ok cfg ks1 (<[ks_nextTxnSeq ks:=TXNID_UNINITED]> live) dur db1 tx1 [en] en [] VERSIONEP_UNINITED) as (ks2 & db2 & lk & lv & E2 & _ & _ & _ & _ & _ & Hst).
  - done.
  - apply lookup_insert_eq.
  - lia.
  - split; [done|]. split; [by vm_compute|done].
  - done.
  - done.
  - done.
  - done.
  - constructor; [|constructor]. split; [done|]. cbn. lia.
  - unfold entries_raw. cbn [map concat en]. rewrite app_nil_r. unfold entry_raw. cbn [re_op re_timestamp re_key re_val]. rewrite !zlen_app. change (zlen [_]) with 1.
    unfold en. cbn [re_timestamp re_key re_val]. pose proof (varintEncode_len now Hnow). pose proof (zlen_len_str b). pose proof (zlen_len_str e). lia.
  - done.
  - by vm_compute.
  - exists ks2, db2, ({[ks_nextBinlogSeq ks1]} ∪ dur). unfold close_txn. rewrite E2, bind_Ret. split; [done|]. cbn [tx1 tx_emplace tx_txnId] in Hst. rewrite delete_insert_id in Hst by done.
    split; [by apply (sys_steps_inv _ _ Hst)|]. destruct (commit_counters _ _ _ _ _ _ _ _ _ E2) as (Em2 & Es2 & Eb2). split.
    { unfold room. rewrite Em2, Em1, Es2, Es1. split; [done|]. split; [lia|]. destruct Eb2 as [->| ->]; [lia|]. rewrite wrap_id; [lia|]. pose proof (si_visible _ Hi1). unfold is_u. cbn in *. lia. }
    intros k s Hk Hs. unfold stored_raw at 1. rewrite (commit_records cfg _ _ tx1 _ _ _ _ _ E2 _ k) by done. unfold raw_record, stored_raw, raw_record. rewrite Hs. cbn [tx1 tx_emplace tx_db RocksTxn_new].
    apply (rdb_read_del_range _ _ _ _ _ E1).
Qed.

Variables (chunkId dbId : Z) (pk : bytes).
Hypothesis Hpk : x00 ∉ pk.
Hypothesis Hlen : zlen pk < 2 ^ 57.
Hypothesis Hplace : is_u32 chunkId /\ chunkId < CLUSTER_SLOTS.
Hypothesis Hdb : is_u32 dbId.

(** The keys of the data that the theorems speak of. *)
Definition plain_key (k : RecordKey) : Prop := data_key k /\ (rk_chunkId k = chunkId -> x00 ∉ rk_pk k).

Lemma delete_ranges_ok mk types : rk_chunkId mk = chunkId -> rk_dbId mk = dbId -> rk_pk mk = pk -> Forall (ele_place chunkId dbId) types ->
  forall ks live dur (db : T) n, sys_inv (mkSys ks live dur) -> zlen types <= n -> room ks n ->
  exists ks' db' dur', delete_ranges cfg now mk types ks db = Ret (ks', db', Ret tt) /\ sys_inv (mkSys ks' live dur') /\ room ks' (n - zlen types) /\
    forall k, plain_key k -> stored_raw db' k = if bool_decide (element_of chunkId dbId pk types k) then None else stored_raw db k.
Proof.
  intros Ec Ed Ek. induction 1 as [|type types Hp _ IH]; intros ks live dur db n Hi Hn Hr.
  { exists ks, db, dur. split; [done|]. split; [done|]. change (zlen []) with 0. rewrite Z.sub_0_r. split; [done|].
    intros k _. rewrite bool_decide_false; [done|]. by intros (_ & _ & _ & ?%elem_of_nil). }
  cbn [delete_ranges]. rewrite Ec, Ed, Ek. rewrite zlen_cons in *. pose proof (zlen_nonneg types).
  assert (sub_ok pk []) as Hok by (unfold sub_ok; change (zlen []) with 0; lia). pose proof (sub_key_wf chunkId dbId type pk Hp [] Hok) as Hw.
  pose proof (sub_key_type chunkId dbId type pk Hp []) as Hst. unfold sub_key in Hst, Hw. set (sk := RecordKey_new chunkId dbId type pk [] 0) in *.
  destruct (rt2Char_some type) as [c Hc]; [apply Hp|]. rewrite (range_start sk c) by (done || by rewrite Hst). rewrite bind_Ret, (range_end chunkId dbId type pk c) by (done || apply Hp).
  fold sk. rewrite bind_Ret. assert (zlen (pk_prefix sk c) <= 10 + zlen pk) as Hz.
  { unfold pk_prefix. rewrite !zlen_app, zlen_rk_hdr. change (zlen [x00]) with 1. cbn [sk RecordKey_new rk_pk]. lia. }
  destruct (deleteRange_ok ks live dur db (pk_prefix sk c ++ [x00]) (pk_prefix sk c ++ max_version) n Hi) as (ks1 & db1 & dur1 & -> & Hi1 & Hr1 & Hd1);
    [lia|done|rewrite zlen_app; change (zlen [x00]) with 1; lia|rewrite zlen_app; change (zlen max_version) with 10; lia|].
  rewrite bind_Ret. destruct (IH ks1 live dur1 db1 (n - 1) Hi1) as (ks2 & db2 & dur2 & -> & Hi2 & Hr2 & Hd2); [lia|done|].
  exists ks2, db2, dur2. split; [done|]. split; [done|]. split; [by replace (n - (1 + zlen types)) with (n - 1 - zlen types) by lia|].
  intros k Hk. rewrite (Hd2 k Hk). destruct Hk as [Hdk Hnk]. destruct (RecordKey_encode_total k ltac:(apply Hdk)) as (ck & _ & Es).
  rewrite (Hd1 k _ Hdk Es). pose proof (record_in_range sk c k _ Hw ltac:(apply Hdk) ltac:(by rewrite Hst) Hpk Hnk Es) as Hin.
  destruct (in_range _ _ _ _ _ _).
  - destruct (proj1 Hin eq_refl) as (A & B & C & D). cbn in A, C, D. rewrite Hst in B. rewrite (bool_decide_true (element_of chunkId dbId pk (type :: types) k)); [by case_bool_decide|].
    split_and!; [done..|]. rewrite <-B. constructor.
  - assert (element_of chunkId dbId pk (type :: types) k <-> element_of chunkId dbId pk types k) as Heq; [|by rewrite (bool_decide_ext _ _ Heq)].
    unfold element_of. rewrite elem_of_cons. split; [|tauto]. intros (A & B & C & [D|D]); [|done]. exfalso.
    assert (same_key sk k) as Hsame by (split_and!; [done|by rewrite Hst|done|done]). apply Hin in Hsame. done.
Qed.

#[local] Abbreviation mk := (whole_key chunkId dbId pk).

Lemma delSubkeysRange_ok tp valueType ks live dur (db : T) n : getRealKeyType tp = RT_DATA_META -> isDataMetaType valueType = true -> valueType <> RT_KV ->
  sys_inv (mkSys ks live dur) -> 2 <= n -> room ks n ->
  exists ks' db' dur', Command_delSubkeysRange cfg now (mk tp) valueType ks db = Ret (ks', db', Ret tt) /\ sys_inv (mkSys ks' live dur') /\ room ks' (n - 2) /\
    forall k, plain_key k -> stored_raw db' k = if bool_decide (element_of chunkId dbId pk (ele_list valueType) k) then None else stored_raw db k.
Proof.
  intros Htp Hv Hkv Hi Hn Hr. destruct (whole_key_data chunkId dbId pk ltac:(lia) Hplace Hdb tp Htp) as [Hd Hty]. unfold Command_delSubkeysRange.
  assert (RecordKey_getRecordType (mk tp) = Ret RT_DATA_META) as -> by (unfold RecordKey_getRecordType; inv_d by apply Hd; by rewrite Hty).
  rewrite bind_Ret, (bool_decide_false (valueType = RT_KV)) by done. inv_d by done.
  replace (ele_types valueType) with (Ret (ele_list valueType) : M (list RecordType)) by (by destruct valueType). rewrite bind_Ret.
  assert (zlen (ele_list valueType) <= 2) by (by destruct valueType; vm_compute).
  destruct (delete_ranges_ok (mk tp) (ele_list valueType)) with (ks := ks) (live := live) (dur := dur) (db := db) (n := n) as (ks' & db' & dur' & E & Hi' & Hr' & Hs); try done; [by apply ele_list_place|lia|].
  exists ks', db', dur'. split; [done|]. split; [done|]. split; [|done]. unfold room in *. destruct Hr' as (A & B & C). split; [done|]. lia.
Qed.

(** C10: a large key is deleted by ranges: each range of its elements is deleted and logged in a
    transaction of its own, and the transaction that follows deletes the meta record and the
    entry of the index of expiries. Every record of the key is gone then, and no record of any
    other key - as long as no key of the slot has a zero byte. *)
Theorem delKeyPessimistic_correct sess tp valueType ictx ks live dur (db : T) :
  getRealKeyType tp = RT_DATA_META -> isDataMetaType valueType = true -> valueType <> RT_KV -> (forall t, ictx = Some t -> TTLIndex_wf t) -> sc_replOnly sess = false ->
  sys_inv (mkSys ks live dur) -> room ks 3 ->
  exists ks1 db1 tx', Command_delKeyPessimisticInLock cfg now sess (mk tp) valueType ictx ks db = close_txn cfg ks1 db1 tx' (sc_cmd sess) (sc_versionEP sess) /\
    writable tx' /\ (forall k, plain_key k ->
      raw_record tx' k = if bool_decide (element_of chunkId dbId pk (ele_list valueType) k) || among (mk tp :: index_keys ictx) k then None else stored_raw db k) /\
    (log_header sess -> room ks 4 ->
     exists ks2 db2 dur2, Command_delKeyPessimisticInLock cfg now sess (mk tp) valueType ictx ks db = Ret (ks2, db2, Ret tt) /\ sys_inv (mkSys ks2 live dur2) /\
       forall k, plain_key k -> stored_raw db2 k = raw_record tx' k).
Proof.
  intros Htp Hv Hkv Hix Hro Hi Hroom. unfold Command_delKeyPessimisticInLock, open_txn. rewrite Hro.
  destruct (create_ok ks live dur (Some false) Hi) as (ks0 & r & Ec & Hi0 & _); [destruct Hroom as (_ & ? & _); lia|].
  destruct (create_txn_fields _ _ _ _ _ Ec) as (Er & Em & Es & Eb). cbn in Er. subst r. rewrite Ec.
  rewrite wrap_id in Es by (pose proof (si_seq _ Hi); destruct Hroom as (_ & ? & _); unfold is_u; cbn in *; lia).
  destruct (delSubkeysRange_ok tp valueType ks0 _ dur db 2 Htp Hv Hkv Hi0) as (ks1 & db1 & dur1 & Ed & Hi1 & _ & Hs1); [lia| |].
  { unfold room in *. rewrite Em, Es, Eb. destruct Hroom as (A & B & C). split; [done|]. lia. }
  assert (room ks 4 -> ks_nextBinlogSeq ks1 < 2 ^ 64 - 1) as Hb1.
  { intros (A & B & C). destruct (delSubkeysRange_ok tp valueType ks0 _ dur db 3 Htp Hv Hkv Hi0) as (ks1' & db1' & dur1' & Ed' & _ & (_ & _ & Hb) & _); [lia| |].
    - unfold room. rewrite Em, Es, Eb. split; [done|]. lia.
    - rewrite Ed in Ed'. injection Ed' as <- <-. lia. }
  rewrite Ed.
  rewrite bind_Ret. cbn [or_drop]. destruct (whole_key_data chunkId dbId pk ltac:(lia) Hplace Hdb tp Htp) as [Hd Hty].
  assert (writable (RocksTxn_new (ks_nextTxnSeq ks) false db1 : RocksTxn T)) as Hw by (split; [done|]; split; [done|]; split; [by vm_compute|done]).
  destruct (delKV_ok cfg Hcat (mk tp) (RocksTxn_new (ks_nextTxnSeq ks) false db1) now Hd Hw) as (tx1 & E1 & Hw1 & Hn1 & Hf1). pose proof (delKV_kept cfg _ _ tx1 now E1 Hd) as K1.
  change (tx_with_db (RocksTxn_new (ks_nextTxnSeq ks) false db) db1) with (RocksTxn_new (ks_nextTxnSeq ks) false db1). rewrite E1. cbn [or_drop].
  destruct (del_index_ok cfg Hcat now ictx tx1 Hw1 Hix) as (tx2 & -> & Hw2 & K2 & Hd2). cbn [or_drop]. exists ks1, db1, tx2. split; [done|]. split; [done|]. split; cycle 1.
  { intros [Hep Hcmd] Hr4. pose proof (transitivity (R := kept) K1 K2) as [Eid Hlok]. cbn [RocksTxn_new tx_txnId] in Eid.
    destruct (commit_total cfg ks1 _ dur1 db1 tx2 (sc_cmd sess) (sc_versionEP sess) Hi1) as (ks2 & db2 & r & dur2 & Ecm & Hi2 & Ho);
      [rewrite Eid; apply lookup_insert_eq|by apply Hb1|done|by apply Hlok|done|done|].
    destruct r as [id| |]; [|by destruct Ho as (_ & t & Hc); destruct (rdb_commit_healthy t) as [t' ?%Hc]|done]. destruct Ho as [-> Ho].
    exists ks2, db2, dur2. unfold close_txn. rewrite Ecm, !bind_Ret. split; [done|]. split; [|by intros k [Hdk _]; apply Ho].
    rewrite Eid, delete_insert_id in Hi2; [done|]. destruct (live !! ks_nextTxnSeq ks) as [z|] eqn:El; [|done]. pose proof (si_ids _ Hi _ _ El) as Hz. cbn in Hz. lia. }
  intros k Hk. pose proof Hk as [Hdk _]. rewrite (Hd2 k Hdk). change (among (mk tp :: index_keys ictx) k) with (RecordKey_eqb k (mk tp) || among (index_keys ictx) k).
  destruct (among (index_keys ictx) k); [by rewrite !orb_true_r|]. rewrite orb_false_r.
  destruct (RecordKey_eqb k (mk tp)) eqn:Ek; [rewrite orb_true_r; by rewrite (raw_record_equiv tx1 k (mk tp))|]. rewrite orb_false_r.
  rewrite Hf1; [|done|unfold RecordKey_equiv; congruence]. rewrite raw_record_stored. by apply Hs1.
Qed.

End DeleteRange.

(** * Keys with a zero *)

Lemma byte_below_max (b : byte) rest : b <> xff -> bytes_lt (b :: rest) max_version = true.
Proof. intros Hb. unfold bytes_lt. change max_version with (xff :: [xff; xff; xff; xff; xff; xff; xff; xff; x01]). cbn [bytes_compare].
  assert (bz b < bz xff) as Hlt by (destruct b; try done; by destruct Hb). by rewrite (proj2 (Z.compare_lt_iff _ _) Hlt). Qed.

(** When the name of a hash continues the name of another hash of the same slot after a zero
    byte, deleting the other one as a large key deletes its fields as well: they lie in the
    range that is deleted. *)
Theorem delSubkeysRange_foreign {BM : BuildMode} {T : Type} `{RocksDBLaws T} {HH : RocksDBHealthy T} {HC : RocksDBCommits T} {HR : RocksRangeLaws T}
    cfg now ks live dur (db : T) chunkId dbId pk tp (b : byte) rest sk :
  cfg_isCatalog cfg = false -> cfg_enableRepllog cfg = true -> is_u64 now -> sys_inv (mkSys ks live dur) -> room ks 1 ->
  is_u32 chunkId /\ chunkId < CLUSTER_SLOTS -> is_u32 dbId -> zlen pk < 2 ^ 57 -> getRealKeyType tp = RT_DATA_META -> b <> xff ->
  let other := RecordKey_new chunkId dbId RT_HASH_ELE (pk ++ x00 :: b :: rest) sk 0 in
  data_key other ->
  exists ks' db', Command_delSubkeysRange cfg now (whole_key chunkId dbId pk tp) RT_HASH_META ks db = Ret (ks', db', Ret tt) /\ stored_raw db' other = None.
Proof.
  intros Hcat Hlog Hnow Hi Hr Hpl Hdb Hlen Htp Hb other Ho. destruct (whole_key_data chunkId dbId pk ltac:(lia) Hpl Hdb tp Htp) as [Hd Hty].
  unfold Command_delSubkeysRange. assert (RecordKey_getRecordType (whole_key chunkId dbId pk tp) = Ret RT_DATA_META) as -> by (unfold RecordKey_getRecordType; inv_d by apply Hd; by rewrite Hty).
  rewrite bind_Ret, (bool_decide_false (RT_HASH_META = RT_KV)) by done. inv_d by done. cbn [ele_types]. rewrite bind_Ret. cbn [delete_ranges whole_key RecordKey_new rk_chunkId rk_dbId rk_pk].
  destruct (rt2Char_some RT_HASH_ELE) as [c Hc]; [done|]. set (sk0 := RecordKey_new chunkId dbId RT_HASH_ELE pk [] 0).
  assert (RecordKey_wf sk0) as Hw by (apply RecordKey_wf_new; [apply Hpl|done|done|change (zlen []) with 0; lia]).
  rewrite (range_start sk0 c), bind_Ret, (range_end chunkId dbId RT_HASH_ELE pk c) by done. fold sk0. rewrite bind_Ret.
  assert (zlen (pk_prefix sk0 c) <= 10 + zlen pk) as Hz by (unfold pk_prefix; rewrite !zlen_app, zlen_rk_hdr; change (zlen [x00]) with 1; cbn [sk0 RecordKey_new rk_pk]; lia).
  destruct (deleteRange_ok cfg Hcat Hlog now Hnow ks live dur db (pk_prefix sk0 c ++ [x00]) (pk_prefix sk0 c ++ max_version) 1 Hi) as (ks1 & db1 & dur1 & -> & _ & _ & Hs);
    [lia|done|rewrite zlen_app; change (zlen [x00]) with 1; lia|rewrite zlen_app; change (zlen max_version) with 10; lia|].
  rewrite bind_Ret. exists ks1, db1. split; [done|]. assert (rt2Char (rk_type other) = Ret c) as Hco by exact Hc.
  rewrite (Hs other _ Ho (RecordKey_encode_eq other c ltac:(apply Ho) Hco)). rewrite (proj2 (in_key_range sk0 c _)); [done|].
  exists (b :: rest ++ [x00; x00] ++ rk_tail other). split; [unfold pk_prefix; rewrite <-!app_assoc; cbn [other RecordKey_new rk_pk sk0]; by rewrite <-!app_assoc|].
  split; [done|by apply byte_below_max].
Qed.


(** The loop over the records of a key ends at the first record of a key that continues its
    name after a zero byte, so the fields behind it are not found: they are missing from a listing
    of the hash, and when the hash is deleted they stay. *)
Theorem scan_loses_records :
  let ele pk sk := RecordKey_new 7 0 RT_HASH_ELE pk sk 0 in
  let db := put_record (ele (lit "a") (lit "b")) (demo_field (lit "1"))
    (put_record (ele (lit "a" ++ [x00; x00] ++ lit "m") (lit "x")) (demo_field (lit "2"))
      (put_record (ele (lit "a") (lit "z")) (demo_field (lit "3")) ∅)) in
  let tx : RocksTxn MemDB := RocksTxn_new 1 false db in
  let mk := RecordKey_new 7 0 RT_HASH_META (lit "a") [] 0 in
  (exists p, @RecordKey_prefixPk true (ele (lit "a") []) = Ret p /\
     option_map (map (fun r => rk_sk (fst r))) (match @prefix_records true MemDB _ _ (fun _ => Ret tt) 100 p p [] tx with Ret l => Some l | _ => None end) = Some [lit "b"]) /\
  exists tx' rv, @Command_delKeyOptimismInLock true MemDB _ _ demo_cfg 9 mk RT_HASH_META tx None = Ret tx' /\
    @RocksKVStore_getKV true MemDB _ demo_cfg (ele (lit "a") (lit "z")) tx' = Ret rv /\ rv_value rv = lit "3".
Proof.
  intros ele db tx mk. split.
  - eexists. split; [reflexivity|]. vm_compute. reflexivity.
  - assert (match @Command_delKeyOptimismInLock true MemDB _ _ demo_cfg 9 mk RT_HASH_META tx None with
      | Ret tx' => match @RocksKVStore_getKV true MemDB _ demo_cfg (ele (lit "a") (lit "z")) tx' with Ret rv => bool_decide (rv_value rv = lit "3") | _ => false end
      | _ => false end = true) as E by (vm_compute; reflexivity).
    destruct (Command_delKeyOptimismInLock demo_cfg 9 mk RT_HASH_META tx None) as [tx'| |]; [|done..].
    destruct (RocksKVStore_getKV demo_cfg (ele (lit "a") (lit "z")) tx') as [rv| |] eqn:Eg; [|done..]. exists tx', rv. by apply bool_decide_eq_true in E.
Qed.

Lemma demo_plain pk : bool_decide (x00 ∉ pk) = true -> zlen pk = 1 -> plain_key 7 (demo_sub RT_HASH_ELE pk (lit "f")).
Proof.
  intros Hn Hl. split; [split; [apply RecordKey_wf_new; [by split|by split|done|rewrite Hl; by vm_compute]|done]|]. intros _. exact (proj1 (bool_decide_eq_true _) Hn).
Qed.

Lemma delKeyPessimistic_correct_witness : exists ks1 db1 tx',
  @Command_delKeyPessimisticInLock true MemDB _ demo_cfg 9 demo_session (whole_key 7 0 (lit "h") RT_HASH_META) RT_HASH_META
    (Some (mkTTLIndex (lit "h") RT_HASH_META 0 5)) demo_store demo_hashes = @close_txn true MemDB _ demo_cfg ks1 db1 tx' (lit "del") MAXU64 /\
  raw_record (BM := true) tx' (demo_sub RT_HASH_ELE (lit "h") (lit "f")) = None /\
  raw_record (BM := true) tx' (demo_sub RT_HASH_ELE (lit "o") (lit "f")) = stored_raw (BM := true) demo_hashes (demo_sub RT_HASH_ELE (lit "o") (lit "f")).
Proof.
  destruct (@delKeyPessimistic_correct true MemDB _ _ _ _ _ demo_cfg eq_refl eq_refl 9) with (chunkId := 7) (dbId := 0) (pk := lit "h") (sess := demo_session) (tp := RT_HASH_META)
    (valueType := RT_HASH_META) (ictx := Some (mkTTLIndex (lit "h") RT_HASH_META 0 5)) (ks := demo_store) (live := (∅ : gmap Z Z)) (dur := (∅ : gset Z)) (db := demo_hashes)
    as (ks1 & db1 & tx' & E & _ & Hx & _); [by split|by apply (bool_decide_unpack _)|by vm_compute|by split|by split|done|done|done| |done|apply demo_store_inv|by split_and!|].
  - by intros t [= <-].
  - exists ks1, db1, tx'. split; [exact E|].
    pose proof (demo_plain (lit "h") eq_refl eq_refl) as H1. pose proof (demo_plain (lit "o") eq_refl eq_refl) as H2.
    split; [rewrite (Hx _ H1)|rewrite (Hx _ H2)]; match goal with |- (if ?b then _ else _) = _ => let b' := eval vm_compute in b in change b with b' end; exact eq_refl.
Defined.

(** A hash whose name goes on after a zero. *)
Definition demo_other : RecordKey := RecordKey_new 7 0 RT_HASH_ELE (lit "h" ++ [x00; x78]) (lit "f") 0.

Lemma delSubkeysRange_foreign_witness : exists ks' db',
  stored_raw (BM := true) (put_record demo_other (demo_field (lit "1")) demo_hashes) demo_other <> None /\
  @Command_delSubkeysRange true MemDB _ demo_cfg 9 (whole_key 7 0 (lit "h") RT_HASH_META) RT_HASH_META demo_store
    (put_record demo_other (demo_field (lit "1")) demo_hashes) = Ret (ks', db', Ret tt) /\
  stored_raw (BM := true) db' demo_other = None.
Proof.
  destruct (@delSubkeysRange_foreign true MemDB _ _ _ _ _ demo_cfg 9 demo_store (∅ : gmap Z Z) (∅ : gset Z) (put_record demo_other (demo_field (lit "1")) demo_hashes)
    7 0 (lit "h") RT_HASH_META x78 [] (lit "f")) as (ks' & db' & E & Hs);
    [done|done|by split|apply demo_store_inv|by split_and!|by split_and!|by split|by vm_compute|done|done|split; [by apply RecordKey_wf_new|done]|].
  exists ks', db'. split; [by vm_compute|]. split; [exact E|exact Hs].
Defined.
