(* ===== verification/Tidy.v ===== *)
(** The type of the store: every entry of its data is a legal record under its own key. Writes of
    legal records, deletions and commits keep it, and so do the functions of commands/command.cpp that
    delete a key. *)

From Stdlib Require Import Strings.Byte ZArith Lia.
From stdpp Require Import base list numbers strings gmap.
From S2P Require Import Prelude Status Varint Strings Record RecordValue RecordMeta ReplLog BinlogSeq Txn Store Replicate Cursor Command Elems Keys KeysSpec KeysDel.

Local Open Scope Z_scope.

Section Tidy.
Context {BM : BuildMode} {T : Type} `{RocksIterLaws T} {HL : RocksDBLaws T} {HH : RocksDBHealthy T} {HI : RocksIterHealthy T}.
Variable cfg : StoreCfg.
Hypothesis Hcat : cfg_isCatalog cfg = false.

Lemma log_entry_db (tx tx' : RocksTxn T) op ts now key val : log_entry cfg tx op ts now key val = Ret tx' -> tx_db tx' = tx_db tx.
Proof.
  unfold log_entry. destruct (cfg_enableRepllog cfg); [|by intros [= <-]]. intros (_ & _ & E)%bind_Ret_inv. apply bind_Ret_inv in E as (c & _ & E).
  apply bind_Ret_inv in E as (tx1 & Es & E). apply bind_Ret_inv in E as (_ & _ & [= <-]). unfold RocksTxn_setChunkId in Es.
  destruct (_ =? CHUNKID_UNINITED); [by injection Es as <-|]. destruct (c =? CHUNKID_FLUSH); [by injection Es as <-|].
  destruct (negb _); [|by injection Es as <-]. by apply bind_Ret_inv in Es as (_ & _ & [= <-]).
Qed.

Lemma rocks_ok_inv {A} (r : rocks A) a : rocks_ok cfg r = Ret a -> r = ROk a.
Proof. destruct r; cbn; intros E; [by injection E as <-|by repeat case_match..]. Qed.

(** ** Writes *)

Lemma put_tidy (tx tx' : RocksTxn T) k rv ek ev ts now : RecordKey_wf k -> (rk_chunkId k < CLUSTER_SLOTS -> x00 ∉ rk_pk k) -> RecordValue_wf rv -> RecordKey_encode k = Ret ek -> RecordValue_encode rv = Ret ev ->
  RocksTxn_setKV cfg tx ek ev ts now = Ret tx' -> tidy (tx_db tx) -> tidy (tx_db tx').
Proof.
  intros Hk Hn Hv Ek Ev. unfold RocksTxn_setKV. destruct (tx_replOnly tx); [done|]. intros (db & Ep%rocks_ok_inv & E)%bind_Ret_inv Ht.
  rewrite (log_entry_db _ _ _ _ _ _ _ E). by apply (tidy_put (tx_db tx) db k rv ek ev).
Qed.

Lemma setKV_tidy (tx tx' : RocksTxn T) k rv now : RecordKey_wf k -> (rk_chunkId k < CLUSTER_SLOTS -> x00 ∉ rk_pk k) -> RecordValue_wf rv -> RocksKVStore_setKV cfg k rv tx now = Ret tx' -> tidy (tx_db tx) -> tidy (tx_db tx').
Proof.
  intros Hk Hn Hv. unfold RocksKVStore_setKV. intros (ek & Ek & E)%bind_Ret_inv. apply bind_Ret_inv in E as (ev & Ev & E). by apply (put_tidy tx tx' k rv ek ev 0 now).
Qed.

Lemma txn_del_tidy (tx tx' : RocksTxn T) key ts now : RocksTxn_delKV cfg tx key ts now = Ret tx' -> tidy (tx_db tx) -> tidy (tx_db tx').
Proof.
  unfold RocksTxn_delKV. destruct (tx_replOnly tx); [done|]. intros (type & _ & E)%bind_Ret_inv Ht. apply bind_Ret_inv in E as (db & Ed%rocks_ok_inv & E).
  rewrite (log_entry_db _ _ _ _ _ _ _ E). by apply (tidy_del _ _ _ _ Ht Ed).
Qed.

Lemma delKV_tidy (tx tx' : RocksTxn T) k now : RocksKVStore_delKV cfg k tx now = Ret tx' -> tidy (tx_db tx) -> tidy (tx_db tx').
Proof. unfold RocksKVStore_delKV. intros (ek & _ & E)%bind_Ret_inv. by apply (txn_del_tidy _ _ _ _ _ E). Qed.

(** ** Deletions of commands *)

Lemma expect_ok_inv {A} (m : M A) a : expect_ok m = Ret a -> m = Ret a.
Proof. destruct m; cbn; [done| |done]. by intros (? & _ & ?)%bind_Ret_inv. Qed.

Lemma del_all_tidy now keys : forall tx tx' : RocksTxn T, del_all cfg now keys tx = Ret tx' -> tidy (tx_db tx) -> tidy (tx_db tx').
Proof.
  induction keys as [|k keys IH]; cbn [del_all]; intros tx tx'; [by intros [= <-]|]. intros (tx1 & E1%expect_ok_inv & E)%bind_Ret_inv Ht. apply (IH _ _ E), (delKV_tidy _ _ _ _ E1 Ht).
Qed.

Lemma del_index_tidy now ictx (tx tx' : RocksTxn T) : del_index cfg now ictx tx = Ret tx' -> tidy (tx_db tx) -> tidy (tx_db tx').
Proof.
  unfold del_index. destruct ictx as [t|]; [|by intros [= <-]]. destruct (bool_decide _); [by intros [= <-]|]. intros (k & _ & E)%bind_Ret_inv. by apply (txn_del_tidy _ _ _ _ _ E).
Qed.

Lemma optimism_tidy now mk type ictx (tx tx' : RocksTxn T) : Command_delKeyOptimismInLock cfg now mk type tx ictx = Ret tx' -> tidy (tx_db tx) -> tidy (tx_db tx').
Proof.
  unfold Command_delKeyOptimismInLock, Command_partialDelSubKeys. intros ([tx1 n] & E & [= <-])%bind_Ret_inv Ht. apply bind_Ret_inv in E as (_ & _ & E). apply bind_Ret_inv in E as (t & _ & E).
  apply bind_Ret_inv in E as (_ & _ & E). destruct (bool_decide (type = RT_KV)).
  - apply bind_Ret_inv in E as (tx2 & E2%expect_ok_inv & [= <- _]). by apply (delKV_tidy _ _ _ _ E2).
  - apply bind_Ret_inv in E as (types & _ & E). apply bind_Ret_inv in E as (pending & _ & E). apply bind_Ret_inv in E as (tx2 & E2 & E). apply bind_Ret_inv in E as (tx3 & E3%expect_ok_inv & [= <- _]).
    apply (del_index_tidy _ _ _ _ E3), (del_all_tidy _ _ _ _ E2 Ht).
Qed.

Lemma delKeyAndTTL_tidy now sess mk rv (tx tx' : RocksTxn T) : Command_delKeyAndTTL cfg sess mk rv tx now = Ret tx' -> tidy (tx_db tx) -> tidy (tx_db tx').
Proof.
  unfold Command_delKeyAndTTL. intros (tx1 & E1 & E)%bind_Ret_inv Ht. pose proof (delKV_tidy _ _ _ _ E1 Ht) as Ht1. destruct (_ && _); [|by injection E as <-].
  apply bind_Ret_inv in E as (k & _ & E). by apply (txn_del_tidy _ _ _ _ _ E).
Qed.

(** ** Commit *)

Hypothesis Hcf : cfg_binlogUsingDefaultCF cfg = false.

Lemma commit_log_tidy ks (tx : RocksTxn T) cmd ep ks' tx' id e : commit_log cfg ks tx cmd ep = Ret (ks', tx', id, e) -> tidy (tx_db tx) -> tidy (tx_db tx').
Proof.
  unfold commit_log. destruct (last (tx_replLogValues tx)) as [back|]; [|by intros [= <- <- <- _]].
  intros (_ & _ & E)%bind_Ret_inv Ht. apply bind_Ret_inv in E as ([ks1 bid] & _ & E). apply bind_Ret_inv in E as (_ & _ & E).
  apply bind_Ret_inv in E as (lk & _ & E). apply bind_Ret_inv in E as (lv & _ & E). cbn [tx_with_binlogId tx_db] in E. unfold RocksKVStore_getBinlogColumnFamilyHandle in E. rewrite Hcf in E.
  destruct (rdb_put (tx_db tx) CF_Binlog lk lv) as [db|msg|msg|msg|msg] eqn:Ep; try by apply bind_Ret_inv in E as (? & _ & [= <- <- <- _]).
  injection E as <- <- <- _. intros k v. cbn [tx_with_db tx_db]. rewrite (rdb_read_put _ _ _ _ _ Ep), decide_False by done. apply Ht.
Qed.

Lemma commit_tidy ks db0 (tx : RocksTxn T) cmd ep ks' db r : RocksTxn_commit cfg ks db0 tx cmd ep = Ret (ks', db, r) -> tidy db0 -> tidy (tx_db tx) -> tidy db.
Proof.
  unfold RocksTxn_commit. intros (_ & _ & E)%bind_Ret_inv H0' Ht. apply bind_Ret_inv in E as ([[[ks1 tx1] bid] e] & El & E).
  apply bind_Ret_inv in E as ([[db1 bid'] r'] & E1 & E). apply bind_Ret_inv in E as (_ & _ & E). apply bind_Ret_inv in E as (ks2 & _ & [= _ <- _]).
  pose proof (commit_log_tidy _ _ _ _ _ _ _ _ El Ht) as Ht1. destruct e as [u|c msg|]; [|by injection E1 as <-|done].
  destruct (rdb_commit (tx_db tx1)) as [db2|msg|msg|msg|msg] eqn:Ec; try by (apply bind_Ret_inv in E1 as (? & _ & [= <- _ _])).
  - injection E1 as <- _ _. intros k v. rewrite (rdb_read_commit _ _ Ec). apply Ht1.
  - by injection E1 as <- _ _.
Qed.

(** ** Transactions *)

Definition legal (x : TxnOp) : Prop :=
  match x with
  | TSet k rv _ => data_key k /\ (rk_chunkId k < CLUSTER_SLOTS -> x00 ∉ rk_pk k) /\ RecordValue_wf rv
  | TDel k _ => data_key k
  end.

(** The last write of a record. *)
Fixpoint last_write (k : RecordKey) (xs : list TxnOp) (old : option RecordValue) : option RecordValue :=
  match xs with
  | [] => old
  | TSet k' rv _ :: xs' => last_write k xs' (if RecordKey_eqb k k' then Some rv else old)
  | TDel k' _ :: xs' => last_write k xs' (if RecordKey_eqb k k' then None else old)
  end.

(** The record of a key that is read as [o]. *)
Definition reads_as (tx : RocksTxn T) (k : RecordKey) (o : option RecordValue) : Prop :=
  match o with
  | Some rv => RocksKVStore_getKV cfg k tx = Ret rv
  | None => exists msg, RocksKVStore_getKV cfg k tx = Throw ERR_NOTFOUND msg
  end.

Lemma reads_raw (tx tx' : RocksTxn T) k o : data_key k -> raw_record tx' k = raw_record tx k -> reads_as tx k o -> reads_as tx' k o.
Proof.
  intros Hk Er Ho. pose proof (getKV_raw cfg k tx Hk) as G1. pose proof (getKV_raw cfg k tx' Hk) as G2. rewrite Er in G2. unfold reads_as in *.
  destruct (raw_record tx k); [by rewrite G2, <-G1|]. destruct G1 as [m1 G1]. rewrite G1 in Ho. destruct o; [done|exact G2].
Qed.

Lemma wrote_reads (tx tx' : RocksTxn T) k k' s o o' : data_key k -> data_key k' -> wrote_record tx tx' k' s -> match s with Some b => exists rv, RecordValue_decode b = Ret rv /\ o' = Some rv | None => o' = None end ->
  reads_as tx k o -> reads_as tx' k (if RecordKey_eqb k k' then o' else o).
Proof.
  intros Hk Hk' (_ & Es & Hr) Hs Ho. destruct (RecordKey_eqb k k') eqn:Eq; [|apply (reads_raw tx); [done| |done]; apply Hr; [done|unfold RecordKey_equiv; congruence]].
  pose proof (getKV_raw cfg k tx' Hk) as G. rewrite (raw_record_equiv tx' k k' Eq), Es in G. destruct s as [b|]; [destruct Hs as (rv & Ed & ->); cbn; congruence|by rewrite Hs].
Qed.

Lemma run_ops_reads xs : forall tx : RocksTxn T, Forall legal xs -> writable tx -> tidy (tx_db tx) ->
  exists tx', run_ops cfg tx xs = Ret tx' /\ tidy (tx_db tx') /\ writable tx' /\ kept tx tx' /\ forall k o, data_key k -> reads_as tx k o -> reads_as tx' k (last_write k xs o).
Proof.
  induction xs as [|x xs IH]; intros tx Hall Hw Ht; [by exists tx|]. inversion Hall as [|? ? Hx Hall']; subst. destruct x as [k rv t|k t]; cbn [run_ops run_op last_write legal] in *.
  - destruct Hx as (Hk & Hn & Hv). destruct (setKV_ok cfg Hcat k rv tx t Hk Hv Hw) as (tx1 & s & E & W & Ed). rewrite E, bind_Ret.
    destruct (IH tx1 Hall' (proj1 W) (setKV_tidy _ _ _ _ _ (proj1 Hk) Hn Hv E Ht)) as (tx' & E' & Ht' & Hw' & Hkp & Hr). exists tx'. split; [done|]. split; [done|]. split; [done|].
    split; [transitivity tx1; [exact (setKV_kept cfg k rv tx tx1 t E Hk Hv)|done]|]. intros k' o Hk' Ho. apply Hr; [done|].
    apply (wrote_reads tx tx1 k' k (Some s) o (Some rv)); [done|done|done|by exists rv|done].
  - destruct (delKV_ok cfg Hcat k tx t Hx Hw) as (tx1 & E & W). rewrite E, bind_Ret.
    destruct (IH tx1 Hall' (proj1 W) (delKV_tidy _ _ _ _ E Ht)) as (tx' & E' & Ht' & Hw' & Hkp & Hr). exists tx'. split; [done|]. split; [done|]. split; [done|].
    split; [transitivity tx1; [exact (delKV_kept cfg k tx tx1 t E Hx)|done]|]. intros k' o Hk' Ho. apply Hr; [done|].
    by apply (wrote_reads tx tx1 k' k None o None).
Qed.

(** C15: the type of the store is kept. In a store whose every entry is a legal record under its own
    key, a transaction of legal writes goes through, reads back for every record the last write of it,
    and its commit, whether it succeeds, conflicts or fails, leaves a store of that type, with the
    records that the transaction read if it succeeds. A transaction that the store knows gets that far:
    its commit returns, and a commit that the database refuses changes nothing. A database that reports
    a corruption, which stops the process, is left out. *)
Theorem store_typed xs ks (db : T) id cmd ep :
  Forall legal xs -> tidy db ->
  exists tx', run_ops cfg (RocksTxn_new id false db) xs = Ret tx' /\
    (forall k o, data_key k -> reads_as (RocksTxn_new id false db) k o -> reads_as tx' k (last_write k xs o)) /\
    (forall ks' db' r, RocksTxn_commit cfg ks db tx' cmd ep = Ret (ks', db', r) -> tidy db' /\
      (forall n, r = Ret n -> forall k o, data_key k -> reads_as (RocksTxn_new id false db) k o -> reads_as (RocksTxn_new id false db') k (last_write k xs o))) /\
    forall live dur, sys_inv (mkSys ks live dur) -> live !! id = Some TXNID_UNINITED -> ks_nextBinlogSeq ks < 2 ^ 64 - 1 -> zlen cmd < 2 ^ 60 -> is_u64 ep ->
      exists ks' db' r, RocksTxn_commit cfg ks db tx' cmd ep = Ret (ks', db', r) /\ commit_outcome db tx' db' r.
Proof.
  intros Hall Ht. destruct (run_ops_reads xs (RocksTxn_new id false db) Hall) as (tx' & E & Ht' & Hw' & Hkp & Hr); [by split_and!|done|]. exists tx'. split; [done|]. split; [done|]. split.
  - intros ks' db' r Ec. split; [by apply (commit_tidy _ _ _ _ _ _ _ _ Ec)|]. intros n -> k o Hk Ho. apply (reads_raw tx'); [done| |by apply Hr].
    by apply (commit_records cfg _ _ _ _ _ _ _ _ Ec).
  - intros live dur Hi Hl Hn Hcmd Hep. destruct Hkp as [Eid Hlog]. destruct (commit_total cfg ks live dur db tx' cmd ep Hi) as (ks' & db' & r & dur' & Ec & _ & Ho);
      [by rewrite Eid|done|done|by apply Hlog; split; [|constructor]|done|done|]. by exists ks', db', r.
Qed.

End Tidy.

Definition demo_changes : list TxnOp := [TSet (demo_sub RT_HASH_ELE (lit "h") (lit "z")) (demo_field (lit "9")) 5; TDel (demo_sub RT_HASH_ELE (lit "h") (lit "f")) 6].

Lemma store_typed_witness : exists ks id tx' ks' db' r,
  @run_ops true MemDB _ demo_cfg (RocksTxn_new id false demo_hashes) demo_changes = Ret tx' /\
  @reads_as true MemDB _ demo_cfg tx' (demo_sub RT_HASH_ELE (lit "h") (lit "z")) (Some (demo_field (lit "9"))) /\
  @RocksTxn_commit true MemDB _ demo_cfg ks demo_hashes tx' (lit "hset") 3 = Ret (ks', db', r) /\ tidy (BM := true) db'.
Proof.
  assert (forall sk, zlen sk < 9 -> data_key (demo_sub RT_HASH_ELE (lit "h") sk)) as Hk by (intros sk Hl; split; [|done]; apply RecordKey_wf_new; [done|done|done|]; change (zlen (lit "h")) with 1; lia).
  destruct (create_ok demo_store ∅ ∅ (Some false) demo_store_inv) as (ks & b & Ecr & Hi & _); [reflexivity|]. destruct (create_txn_fields _ _ _ _ _ Ecr) as (_ & _ & _ & Eb).
  destruct (store_typed (BM := true) (T := MemDB) demo_cfg eq_refl eq_refl demo_changes ks demo_hashes (ks_nextTxnSeq demo_store) (lit "hset") 3) as (tx' & E & Hr & Hc & Ht).
  - apply Forall_cons. split; [|apply Forall_singleton; by apply Hk]. split; [by apply Hk|]. split; [intros _; by apply (bool_decide_unpack _)|]. by split_and!; (done || (unfold is_u, MAXU64; cbn; lia)).
  - exact demo_tidy.
  - destruct (Ht _ _ Hi) as (ks' & db' & r & Ec & _); [apply lookup_insert_eq|rewrite Eb; reflexivity|reflexivity|by split|].
    exists ks, (ks_nextTxnSeq demo_store), tx', ks', db', r. split; [exact E|]. split; [|split; [exact Ec|exact (proj1 (Hc ks' db' r Ec))]].
    apply (Hr (demo_sub RT_HASH_ELE (lit "h") (lit "z")) None); [by apply Hk|]. eexists. vm_compute. reflexivity.
Defined.
