(* ===== verification/Zset.v ===== *)
(** The commands of sorted sets (commands/zset.cpp): a set is its skip list and a record for every
    member that has the score. The arguments are parsed, the key is locked and its meta record
    has been read. *)

From Stdlib Require Import Strings.Byte ZArith Lia.
From stdpp Require Import base list numbers strings gmap.
From S2P Require Import Prelude Status Varint Strings Record RecordValue RecordMeta ReplLog BinlogSeq Txn Store SkipList Double Command.

Local Open Scope Z_scope.

(** The options of ZADD. *)
Definition ZADD_INCR : Z := Z.shiftl 1 0.
Definition ZADD_NX : Z := Z.shiftl 1 1.
Definition ZADD_XX : Z := Z.shiftl 1 2.
Definition ZADD_CH : Z := Z.shiftl 1 16.

Definition has_flag (flags f : Z) : bool := negb (Z.land flags f =? 0).

(** The record of a member. *)
Definition hash_key (sess : SessionCtx) (mk : RecordKey) (subkey : bytes) : RecordKey :=
  RecordKey_new (rk_chunkId mk) (sc_dbId sess) RT_ZSET_H_ELE (rk_pk mk) subkey 0.

(** The record of the head of the list. *)
Definition head_key (sess : SessionCtx) (mk : RecordKey) : RecordKey :=
  RecordKey_new (rk_chunkId mk) (sc_dbId sess) RT_ZSET_S_ELE (rk_pk mk) (to_string HEAD_ID) 0.

Definition score_of (rv : RecordValue) : M Z := doubleDecode (rv_value rv) (zlen (rv_value rv)).

Section Zset.
Context {BM : BuildMode} {T : Type} `{RocksDB T}.
Variable cfg : StoreCfg.
Variable sess : SessionCtx.
Variable mk : RecordKey.
Variable now : Z.

Definition list_of (meta : ZSlMetaValue) : SkipList := SkipList_new (rk_chunkId mk) (rk_dbId mk) (rk_pk mk) meta.

(** ** ZADD *)

(** The counters of [genericZadd], with the list and the transaction. *)
Record ZaddSt : Type := mkZadd {
  za_list : SkipList;
  za_txn : RocksTxn T;
  za_added : Z;
  za_updated : Z;
  za_processed : Z;
  za_newScore : Z
}.

(** One round of the loop over the members; [draws n] is what the random generator gives for the
    [n]-th node. *)
Definition zadd_entry (flags : Z) (draws : nat -> nat -> Z) (entry : bytes * Z) (st : ZaddSt) : M ZaddSt :=
  let '(subkey, score) := entry in
  let '(mkZadd sl tx added updated processed _) := st in
  let hk := hash_key sess mk subkey in
  let newScore := score in
  let lvl := SkipList_randomLevel (draws (Z.to_nat (added + updated))) (sl_maxLevel sl) in
  if dbl_nan newScore then Throw ERR_NAN [] else
  eValue ← find_record (RocksKVStore_getKV cfg hk tx);
  match eValue with
  | None =>
      if has_flag flags ZADD_XX then Ret (mkZadd sl tx added updated processed newScore) else
      sl ← SkipList_insert cfg sl tx score subkey lvl;
      tx ← RocksKVStore_setKV cfg hk (RecordValue_of_double newScore RT_ZSET_H_ELE) tx now;
      Ret (mkZadd sl tx (added + 1) updated (processed + 1) newScore)
  | Some rv =>
      if has_flag flags ZADD_NX then Ret (mkZadd sl tx added updated processed newScore) else
      oldScore ← score_of rv;
      newScore ← (if has_flag flags ZADD_INCR then
                    let newScore := dbl_add newScore oldScore in
                    if dbl_nan newScore then Throw ERR_NAN [] else Ret newScore
                  else Ret newScore);
      if dbl_eq newScore oldScore then Ret (mkZadd sl tx added updated processed newScore) else
      '(sl, tx) ← SkipList_remove cfg sl tx oldScore subkey now;
      sl ← SkipList_insert cfg sl tx newScore subkey lvl;
      tx ← RocksKVStore_setKV cfg hk (RecordValue_of_double newScore RT_ZSET_H_ELE) tx now;
      Ret (mkZadd sl tx added (updated + 1) (processed + 1) newScore)
  end.

Fixpoint zadd_loop (flags : Z) (draws : nat -> nat -> Z) (subKeys : list (bytes * Z)) (st : ZaddSt) : M ZaddSt :=
  match subKeys with
  | [] => Ret st
  | entry :: rest => st ← zadd_entry flags draws entry st; zadd_loop flags draws rest st
  end.

(** The meta value to start from; a new set gets its meta record and the head of its list. *)
Definition zadd_meta (eMeta : M RecordValue) (tx : RocksTxn T) : M (ZSlMetaValue * RocksTxn T) :=
  match eMeta with
  | Ret rv =>
      meta ← ZSlMetaValue_decode (rv_value rv);
      _ ← txn_access tx;
      Ret (meta, tx)
  | Crash c => Crash c
  | Throw code _ =>
      _ ← INVARIANT_D (bool_decide (code = ERR_NOTFOUND) || bool_decide (code = ERR_EXPIRED));
      val ← ZSlMetaValue_encode (ZSlMetaValue_new 1 1 0);
      _ ← txn_access tx;
      tx ← RocksKVStore_setKV cfg mk (RecordValue_new val RT_ZSET_META (sc_versionEP sess) 0 (-1) 0 MAXU64) tx now;
      tx ← RocksKVStore_setKV cfg (head_key sess mk)
             (RecordValue_new (ZSlEleValue_encode (ZSlEleValue_new 0 [])) RT_ZSET_S_ELE MAXU64 0 (-1) 0 MAXU64) tx now;
      meta ← (match ZSlMetaValue_decode val with Ret m => Ret m | _ => Crash CUndefined end);
      Ret (meta, tx)
  end.

(** [subKeys] is a [std::map]: sorted by key. *)
Definition genericZadd (eMeta : M RecordValue) (subKeys : list (bytes * Z)) (flags : Z) (draws : nat -> nat -> Z)
  (tx : RocksTxn T) : M (RocksTxn T * bytes) :=
  if has_flag flags ZADD_NX && has_flag flags ZADD_XX then
    Throw ERR_PARSEPKT (lit "XX and NX options at the same time are not compatible") else
  if has_flag flags ZADD_INCR && (1 <? zlen subKeys) then
    Throw ERR_PARSEPKT (lit "INCR option supports a single increment-element pair") else
  '(meta, tx) ← zadd_meta eMeta tx;
  st ← zadd_loop flags draws subKeys (mkZadd (list_of meta) tx 0 0 0 0);
  '(_, tx) ← SkipList_save cfg (za_list st) (za_txn st) eMeta (sc_versionEP sess) now;
  Ret (tx,
    if has_flag flags ZADD_INCR then
      if za_processed st =? 0 then Command_fmtNull else Command_fmtBulk (dtos (za_newScore st))
    else Command_fmtLongLong (if has_flag flags ZADD_CH then za_added st + za_updated st else za_added st)).

(** The end of ZADD and ZINCRBY: the loop over [RETRY_CNT] returns in its first round. *)
Definition ZAdd_run (w : World) (eMeta : M RecordValue) (subKeys : list (bytes * Z)) (flags : Z)
  (draws : nat -> nat -> Z) : M (World * M bytes) :=
  '(w, tx) ← SessionCtx_createTransaction sess w;
  '(tx, s) ← genericZadd eMeta subKeys flags draws tx;
  '(w, eCmt) ← SessionCtx_commitTransaction cfg sess w tx;
  Ret (w, _ ← eCmt; Ret s).

(** ** ZREM *)

Fixpoint zrem_loop (subkeys : list bytes) (sl : SkipList) (tx : RocksTxn T) (cnt : Z)
  : M (SkipList * RocksTxn T * Z) :=
  match subkeys with
  | [] => Ret (sl, tx, cnt)
  | subkey :: rest =>
      let hk := hash_key sess mk subkey in
      eValue ← find_record (RocksKVStore_getKV cfg hk tx);
      match eValue with
      | None => zrem_loop rest sl tx cnt
      | Some rv =>
          oldScore ← score_of rv;
          '(sl, tx) ← SkipList_remove cfg sl tx oldScore subkey now;
          tx ← RocksKVStore_delKV cfg hk tx now;
          zrem_loop rest sl tx (u32 (cnt + 1))
      end
  end.

(** What the removals end with: the list is saved, or the key is deleted when only the head is
    left. *)
Definition save_or_delete (eMeta : M RecordValue) (meta : RecordValue) (sl : SkipList) (tx : RocksTxn T)
  : M (RocksTxn T) :=
  if 1 <? SkipList_getCount sl then
    '(_, tx) ← SkipList_save cfg sl tx eMeta (sc_versionEP sess) now;
    Ret tx
  else
    _ ← INVARIANT (SkipList_getCount sl =? 1);
    tx ← Command_delKeyAndTTL cfg sess mk meta tx now;
    RocksKVStore_delKV cfg (head_key sess mk) tx now.

(** [genericZrem] up to the commit, and what it counts. *)
Definition zrem_work (rv : RecordValue) (subkeys : list bytes) (tx : RocksTxn T) : M (RocksTxn T * Z) :=
  meta ← ZSlMetaValue_decode (rv_value rv);
  _ ← txn_access tx;
  '(sl, tx, cnt) ← zrem_loop subkeys (list_of meta) tx 0;
  tx ← save_or_delete (Ret rv) rv sl tx;
  Ret (tx, cnt).

Definition genericZrem (w : World) (eMeta : M RecordValue) (subkeys : list bytes) : M (World * M bytes) :=
  '(w, tx) ← SessionCtx_createTransaction sess w;
  m ← meta_or_none eMeta;
  match m with
  | None => Ret (w, Ret Command_fmtZero)
  | Some rv =>
      '(tx, cnt) ← zrem_work rv subkeys tx;
      commit_reply cfg sess w tx (Command_fmtLongLong cnt)
  end.

(** The end of ZREM. *)
Definition ZRem_run (w : World) (eMeta : M RecordValue) (subkeys : list bytes) : M (World * M bytes) :=
  retry RETRY_CNT (fun w => genericZrem w eMeta subkeys) w.

(** ** ZREMRANGEBYRANK, ZREMRANGEBYSCORE, ZREMRANGEBYLEX *)

Inductive ZRemType : Set :=
  | REM_RANK (start end_ : Z)
  | REM_SCORE (range : Zrangespec)
  | REM_LEX (lexrange : Zlexrangespec).

Fixpoint del_members (result : list (Z * bytes)) (tx : RocksTxn T) : M (RocksTxn T) :=
  match result with
  | [] => Ret tx
  | v :: rest => tx ← RocksKVStore_delKV cfg (hash_key sess mk (snd v)) tx now; del_members rest tx
  end.

(** [genericZremrange] up to the commit; [None] when the range of ranks is empty. *)
Definition zremrange_work (type : ZRemType) (rv : RecordValue) (tx : RocksTxn T) : M (option (RocksTxn T * Z)) :=
  meta ← ZSlMetaValue_decode (rv_value rv);
  let sl := list_of meta in
  let remove (rem : M (SkipList * RocksTxn T * list (Z * bytes))) : M (option (RocksTxn T * Z)) :=
    _ ← txn_access tx;
    '(sl, tx, result) ← rem;
    tx ← del_members result tx;
    tx ← save_or_delete (Ret rv) rv sl tx;
    Ret (Some (tx, zlen result)) in
  match type with
  | REM_RANK start end_ =>
      match clip_range (u32 (SkipList_getCount sl - 1)) start end_ with
      | None => Ret None
      | Some (start, end_) => remove (SkipList_removeRangeByRank cfg sl tx (u32 (start + 1)) (u32 (end_ + 1)) now)
      end
  | REM_SCORE range => remove (SkipList_removeRangeByScore cfg sl tx range now)
  | REM_LEX lexrange => remove (SkipList_removeRangeByLex cfg sl tx lexrange now)
  end.

Definition genericZremrange (w : World) (eMeta : M RecordValue) (type : ZRemType) : M (World * M bytes) :=
  '(w, tx) ← SessionCtx_createTransaction sess w;
  m ← meta_or_none eMeta;
  match m with
  | None => Ret (w, Ret Command_fmtZero)
  | Some rv =>
      r ← zremrange_work type rv tx;
      match r with
      | None => Ret (w, Ret Command_fmtZero)
      | Some (tx, n) => commit_reply cfg sess w tx (Command_fmtLongLong n)
      end
  end.

Definition ZRemByRange_run (w : World) (eMeta : M RecordValue) (type : ZRemType) : M (World * M bytes) :=
  retry RETRY_CNT (fun w => genericZremrange w eMeta type) w.

(** ** Reading *)

Definition genericZRank (w : World) (mv : RecordValue) (subkey : bytes) (reverse : bool) : M (World * bytes) :=
  '(w, tx) ← SessionCtx_createTransaction sess w;
  _ ← txn_access tx;
  eValue ← find_record
    (RocksKVStore_getKV cfg (RecordKey_new (rk_chunkId mk) (rk_dbId mk) RT_ZSET_H_ELE (rk_pk mk) subkey 0) tx);
  match eValue with
  | None => Ret (w, Command_fmtNull)
  | Some rv =>
      score ← score_of rv;
      meta ← ZSlMetaValue_decode (rv_value mv);
      '(_, rank) ← SkipList_rank cfg (list_of meta) tx score subkey;
      let r := u32 (rank - 1) in
      let r := if reverse then u32 (zm_count meta - 2) - r else r in
      _ ← INVARIANT_D (0 <=? r);
      Ret (w, Command_fmtLongLong r)
  end.

(** What the reading commands start with. *)
Definition open_list (w : World) (rv : RecordValue) : M (World * RocksTxn T * SkipList) :=
  '(w, tx) ← SessionCtx_createTransaction sess w;
  meta ← ZSlMetaValue_decode (rv_value rv);
  Ret (w, tx, list_of meta).

(** ZCOUNT and ZLEXCOUNT, from the searches for the first and the last node of the range. *)
Definition count_range (sl : SkipList) (tx : RocksTxn T) (first last : SkipList -> M (SkipList * Z)) : M bytes :=
  '(sl, f) ← first sl;
  if f =? SKIPLIST_INVALID_POS then Ret Command_fmtZero else
  e ← SkipList_getCacheNode sl f;
  '(sl, rank) ← SkipList_rank cfg sl tx (ze_score e) (ze_subKey e);
  let count := u32 (SkipList_getCount sl - 1 - (rank - 1)) in
  '(sl, l) ← last sl;
  if l =? SKIPLIST_INVALID_POS then Ret (Command_fmtLongLong count) else
  e ← SkipList_getCacheNode sl l;
  '(sl, rank) ← SkipList_rank cfg sl tx (ze_score e) (ze_subKey e);
  Ret (Command_fmtLongLong (u32 (count - (SkipList_getCount sl - 1 - rank)))).

Definition ZCount_run (w : World) (rv : RecordValue) (range : Zrangespec) : M (World * bytes) :=
  '(w, tx, sl) ← open_list w rv;
  _ ← txn_access tx;
  s ← count_range sl tx (fun sl => SkipList_firstInRange cfg sl tx range) (fun sl => SkipList_lastInRange cfg sl tx range);
  Ret (w, s).

Definition ZlexCount_run (w : World) (rv : RecordValue) (range : Zlexrangespec) : M (World * bytes) :=
  '(w, tx, sl) ← open_list w rv;
  _ ← txn_access tx;
  s ← count_range sl tx (fun sl => SkipList_firstInLexRange cfg sl tx range)
        (fun sl => SkipList_lastInLexRange cfg sl tx range);
  Ret (w, s).

(** The reply with the members of a scan. *)
Fixpoint fmt_members (withscore : bool) (l : list (Z * bytes)) (ss : bytes) : bytes :=
  match l with
  | [] => ss
  | v :: rest =>
      let ss := ss ++ Command_fmtBulk (snd v) in
      fmt_members withscore rest (if withscore then ss ++ Command_fmtBulk (dtos (fst v)) else ss)
  end.

Definition members_reply (withscore : bool) (l : list (Z * bytes)) : bytes :=
  fmt_members withscore l (Command_fmtMultiBulkLen [] (if withscore then zlen l * 2 else zlen l)).

Definition ZRangeByScore_run (w : World) (rv : RecordValue) (range : Zrangespec) (offset limit : Z) (withscore rev : bool)
  : M (World * bytes) :=
  '(w, tx, sl) ← open_list w rv;
  _ ← txn_access tx;
  '(_, arr) ← SkipList_scanByScore cfg sl tx range offset limit rev;
  Ret (w, members_reply withscore arr).

Definition ZRangeByLex_run (w : World) (rv : RecordValue) (range : Zlexrangespec) (offset limit : Z) (rev : bool)
  : M (World * bytes) :=
  '(w, tx, sl) ← open_list w rv;
  _ ← txn_access tx;
  '(_, arr) ← SkipList_scanByLex cfg sl tx range offset limit rev;
  Ret (w, members_reply false arr).

Definition ZRange_run (w : World) (rv : RecordValue) (start end_ : Z) (withscore rev : bool) : M (World * bytes) :=
  '(w, tx, sl) ← open_list w rv;
  match clip_range (u32 (SkipList_getCount sl - 1)) start end_ with
  | None => Ret (w, Command_fmtZeroBulkLen)
  | Some (start, end_) =>
      _ ← txn_access tx;
      '(_, arr) ← SkipList_scanByRank cfg sl tx start (end_ - start + 1) rev;
      Ret (w, members_reply withscore arr)
  end.

Definition ZScore_run (w : World) (subkey : bytes) : M (World * bytes) :=
  '(w, tx) ← SessionCtx_createTransaction sess w;
  _ ← txn_access tx;
  eValue ← find_record (RocksKVStore_getKV cfg (hash_key sess mk subkey) tx);
  match eValue with
  | None => Ret (w, Command_fmtNull)
  | Some rv => oldScore ← score_of rv; Ret (w, Command_fmtBulk (dtos oldScore))
  end.

Definition ZCard_run (rv : RecordValue) : M bytes :=
  meta ← ZSlMetaValue_decode (rv_value rv);
  _ ← INVARIANT_D (1 <? zm_count meta);
  Ret (Command_fmtLongLong (u32 (zm_count meta - 1))).

End Zset.
