(* ===== verification/ZsetRep.v ===== *)
(** A sorted set in the store: the skip list, and for every member the record with its score
    (commands/zset.cpp). How the two change together. *)

From Stdlib Require Import Strings.Byte ZArith Lia.
From stdpp Require Import base list numbers strings gmap sorting.
From S2P Require Import Prelude Status Varint Record RecordValue RecordMeta ReplLog BinlogSeq Txn Store SkipList SkipListRep.
From S2P Require Import SkipListRead SkipListWrite SkipListRemove SkipListSave SkipListKeep SkipListSpec Double Command Elems Zset.

Local Open Scope Z_scope.

(** * The score of a member *)

Fixpoint zset_find (key : bytes) (l : list member) : option Z :=
  match l with
  | [] => None
  | x :: l' => if bool_decide (snd x = key) then Some (fst x) else zset_find key l'
  end.

Lemma zset_find_None key l : zset_find key l = None <-> key ∉ map snd l.
Proof.
  induction l as [|x l IH]; cbn [zset_find map]; [split; [intros _; apply not_elem_of_nil|done]|].
  rewrite not_elem_of_cons, <-IH. case_bool_decide as E; [split; [done|by intros [? _]]|]. split; [by intros ->|by intros [_ ?]].
Qed.

Lemma zset_find_Some key l s : zset_find key l = Some s -> (s, key) ∈ l.
Proof.
  induction l as [|[s' k] l IH]; cbn [zset_find snd fst]; [done|]. case_bool_decide as E; [intros [= ->]; subst; left|]. intros Hl. right. auto.
Qed.

(** The score only depends on what the list has. *)
Lemma zset_find_perm key l l' : NoDup (map snd l) -> l ≡ₚ l' -> zset_find key l = zset_find key l'.
Proof.
  intros Hd Hp. induction Hp as [|x l l' Hp IH|x y l|l1 l2 l3 H1 IH1 H2 IH2]; [done|..].
  - cbn [zset_find]. cbn [map] in Hd. apply NoDup_cons in Hd as [_ Hd]. by rewrite IH.
  - cbn [zset_find]. cbn [map] in Hd. apply NoDup_cons in Hd as [Hy _]. apply not_elem_of_cons in Hy as [Hy _].
    repeat case_bool_decide; congruence.
  - rewrite IH1 by done. apply IH2. eapply NoDup_Permutation_proper; [|exact Hd]. by rewrite H1.
Qed.

Lemma zset_find_add key y l :
  NoDup (map snd l) -> snd y ∉ map snd l -> zset_find key (zset_add y l) = if bool_decide (snd y = key) then Some (fst y) else zset_find key l.
Proof.
  intros Hd Hy. rewrite (zset_find_perm key (zset_add y l) (y :: l)); [done| |apply zset_add_perm].
  eapply NoDup_Permutation_proper; [by rewrite zset_add_perm|]. cbn [map]. by constructor.
Qed.

Lemma zset_find_filter key f l :
  NoDup (map snd l) ->
  zset_find key (List.filter f l) = match zset_find key l with Some s => if f (s, key) then Some s else None | None => None end.
Proof.
  induction l as [|[s k] l IH]; [done|]. cbn [map]. intros [Hk Hd]%NoDup_cons. cbn [List.filter zset_find snd fst].
  case_bool_decide as E; [subst k|].
  - destruct (f (s, key)); cbn [zset_find snd fst]; [by rewrite bool_decide_eq_true_2|]. rewrite IH by done.
    rewrite (proj2 (zset_find_None key l)) by done. done.
  - destruct (f (s, k)); cbn [zset_find snd fst]; [rewrite bool_decide_eq_false_2 by done|]; by apply IH.
Qed.

Lemma zset_find_rem key k l : NoDup (map snd l) -> zset_find key (zset_rem k l) = if bool_decide (k = key) then None else zset_find key l.
Proof.
  intros Hd. unfold zset_rem. rewrite zset_find_filter by done. cbn [snd]. destruct (zset_find key l); [|by case_bool_decide].
  repeat case_bool_decide; cbn; congruence.
Qed.

(** * The records *)

Section Rep.
Context {BM : BuildMode} {T : Type} `{RocksDBLaws T} {HH : RocksDBHealthy T}.
Variable cfg : StoreCfg.
Variable sess : SessionCtx.
Variables (chunkId : Z) (pk : bytes).
Hypothesis Hcat : cfg_isCatalog cfg = false.
Hypothesis Hchunk : is_u32 chunkId /\ chunkId <> CHUNKID_FLUSH.
Hypothesis Hdb : is_u32 (sc_dbId sess).
Hypothesis Hpk : zlen pk < 2 ^ 61.

(** The meta key of the set. *)
Definition zset_key : RecordKey := RecordKey_new chunkId (sc_dbId sess) RT_ZSET_META pk [] 0.

(** The list is the one of the set. *)
Definition own (sl : SkipList) : Prop := sl_chunkId sl = chunkId /\ sl_dbId sl = sc_dbId sess /\ sl_pk sl = pk.

Lemma own_ids sl : own sl -> sl_ids sl.
Proof. intros (E1 & E2 & E3). unfold sl_ids. rewrite E1, E2, E3. by destruct Hchunk. Qed.

Lemma own_keys sl : own sl -> meta_key sl = zset_key /\ node_key sl HEAD_ID = head_key sess zset_key.
Proof. intros (E1 & E2 & E3). unfold meta_key, node_key. by rewrite E1, E2, E3. Qed.

Lemma own_new meta : own (list_of zset_key meta).
Proof. done. Qed.

Lemma own_kept sl sl' : own sl -> kept sl sl' -> own sl'.
Proof. intros (E1 & E2 & E3) (_ & _ & K1 & K2 & K3). unfold own. by rewrite K1, K2, K3. Qed.

Definition hk (key : bytes) : RecordKey := hash_key sess zset_key key.

Lemma hk_data key : zlen key <= 2 ^ 61 -> data_key (hk key).
Proof.
  intros Hk. unfold data_key, hk, hash_key. split_and!; [|done|apply Hchunk].
  apply RecordKey_wf_new; [apply Hchunk|done|done|]. cbn. lia.
Qed.

Lemma hk_inj k1 k2 : RecordKey_equiv (hk k1) (hk k2) -> k1 = k2.
Proof. by intros (_ & _ & _ & _ & E & _)%RecordKey_equiv_fields. Qed.

Lemma hk_foreign sl key : zlen key <= 2 ^ 61 -> foreign sl (hk key).
Proof. intros Hk. split; [by apply hk_data|]. by intros p (_ & _ & E & _)%RecordKey_equiv_fields. Qed.

Lemma hk_not_meta key : ~ RecordKey_equiv (hk key) zset_key.
Proof. by intros (_ & _ & E & _)%RecordKey_equiv_fields. Qed.

Lemma hk_not_node sl p key : ~ RecordKey_equiv (node_key sl p) (hk key).
Proof. by intros (_ & _ & E & _)%RecordKey_equiv_fields. Qed.

(** The record of a key holds the score, or there is none. *)
Definition hash_at (tx : RocksTxn T) (key : bytes) (o : option Z) : Prop :=
  match o with
  | Some s => exists rv, RocksKVStore_getKV cfg (hk key) tx = Ret rv /\ score_of rv = Ret s
  | None => exists msg, RocksKVStore_getKV cfg (hk key) tx = Throw ERR_NOTFOUND msg
  end.

(** Every member has a record with its score, and only the members. *)
Definition hash_ok (tx : RocksTxn T) (l : list member) : Prop :=
  forall key, zlen key <= 2 ^ 61 -> hash_at tx key (zset_find key l).

Lemma hash_at_frame tx tx' key o :
  zlen key <= 2 ^ 61 -> raw_record tx' (hk key) = raw_record tx (hk key) -> hash_at tx key o -> hash_at tx' key o.
Proof.
  intros Hk Er Ha. pose proof (getKV_raw cfg (hk key) tx (hk_data key Hk)) as H1. unfold hash_at in *.
  pose proof (getKV_raw cfg (hk key) tx' (hk_data key Hk)) as H2. rewrite Er in H2.
  destruct (raw_record tx (hk key)); [by rewrite H2, <-H1|]. destruct H1 as [m1 H1]. rewrite H1 in Ha.
  destruct o; [by destruct Ha as (? & ? & _)|done].
Qed.

Lemma hash_ok_frame tx tx' l :
  hash_ok tx l -> (forall key, zlen key <= 2 ^ 61 -> raw_record tx' (hk key) = raw_record tx (hk key)) -> hash_ok tx' l.
Proof. intros Hh Hr key Hk. by apply (hash_at_frame tx); [done|apply Hr|apply Hh]. Qed.

(** The record of one member written or deleted. *)
Lemma hash_ok_write tx tx' l l' key s :
  hash_ok tx l -> zlen key <= 2 ^ 61 -> wrote_record tx tx' (hk key) s ->
  (forall k, k <> key -> zset_find k l' = zset_find k l) -> hash_at tx' key (zset_find key l') -> hash_ok tx' l'.
Proof.
  intros Hh Hk (_ & _ & Hr) Hf Ho k Hk'. destruct (decide (k = key)) as [->|Hn]; [done|]. rewrite Hf by done.
  apply (hash_at_frame tx); [done| |by apply Hh]. apply Hr; [by apply hk_data|by intros ?%hk_inj].
Qed.

(** ** The set *)

Lemma rep_frame (tx tx' : RocksTxn T) sl xs :
  sl_rep cfg tx sl xs -> (forall p, is_u64 p -> raw_record tx' (node_key sl p) = raw_record tx (node_key sl p)) -> sl_rep cfg tx' sl xs.
Proof.
  intros R Hr. pose proof (core_u64 _ _ _ _ (rep_core _ _ _ _ R)) as Hu. rewrite Forall_forall in Hu.
  assert (forall a, a ∈ head_node :: xs -> load cfg sl tx' (an_pos a) = load cfg sl tx (an_pos a)) as Hl.
  { intros a Ha. apply load_frame; [apply (sr_ids _ _ _ _ R)|by apply Hu|]. by apply Hr, Hu. }
  assert (forall a, a ∈ head_node :: xs -> nodes cfg sl tx' (an_pos a) = nodes cfg sl tx (an_pos a)) as HN.
  { intros a Ha. unfold nodes. by rewrite (Hl a Ha). }
  destruct (sr_count _ _ _ _ R) as [Hc Hm]. apply core_rep; try done.
  - apply (core_ext_tx cfg tx tx' sl); [by apply rep_core|done| |apply (sr_dirty _ _ _ _ R)].
    intros a Ha. rewrite HN by done. destruct (nodes cfg sl tx (an_pos a)); constructor. apply same_links_refl.
  - eapply backs_ext; [|exact (sr_back _ _ _ _ R)]. intros a e Ha He. exists e. split; [|done]. rewrite HN; [done|by right].
  - intros p e Hp E Hch. apply list_elem_of_fmap in Hp as (a & -> & Ha). rewrite Hl by done.
    apply (sr_clean _ _ _ _ R); [by apply list_elem_of_fmap_2|done|done].
Qed.

(** The list of the set in a transaction that takes writes. *)
Definition listed (tx : RocksTxn T) (sl : SkipList) (l : list member) : Prop :=
  represents cfg tx sl l /\ own sl /\ writable tx.

(** A write of a member's record leaves the list alone. *)
Lemma listed_hash tx tx' sl l key s : listed tx sl l -> zlen key <= 2 ^ 61 -> wrote_record tx tx' (hk key) s -> listed tx' sl l.
Proof.
  intros ((Hz & xs & R & E) & Ho & _) Hk (Hw & _ & Hr). split; [|done]. split; [done|]. exists xs. split; [|done].
  apply (rep_frame tx); [done|]. intros p Hp. apply Hr; [|apply hk_not_node]. by apply node_data_key; [apply own_ids|].
Qed.

Lemma score_record_wf s : RecordValue_wf (RecordValue_of_double s RT_ZSET_H_ELE).
Proof. unfold RecordValue_wf, RecordValue_of_double, RecordValue_new, MAXU64; cbn. by split_and!. Qed.

(** [setKV] and [delKV] of a member's record. *)
Lemma set_score tx sl l ls key s now :
  listed tx sl ls -> hash_ok tx l -> zlen key <= 2 ^ 61 -> is_u64 s -> zset_find key ls = Some s ->
  (forall k, k <> key -> zset_find k ls = zset_find k l) ->
  exists tx', RocksKVStore_setKV cfg (hk key) (RecordValue_of_double s RT_ZSET_H_ELE) tx now = Ret tx' /\ listed tx' sl ls /\ hash_ok tx' ls.
Proof.
  intros Hl Hh Hk Hs Hf Hf'. pose proof (hk_data key Hk) as Hd.
  destruct (setKV_ok cfg Hcat (hk key) _ tx now Hd (score_record_wf s)) as (tx' & raw & E & Hw & Ed); [apply Hl|].
  exists tx'. split; [done|]. split; [by eapply listed_hash|]. eapply hash_ok_write; [done|done|done|done|]. rewrite Hf.
  pose proof (getKV_raw cfg (hk key) tx' Hd) as Hg. rewrite (proj1 (proj2 Hw)) in Hg. eexists. rewrite Hg, Ed. split; [done|].
  unfold score_of. cbn [rv_value RecordValue_of_double RecordValue_new]. rewrite <-(app_nil_r (doubleEncode s)) at 1.
  apply double_roundtrip; [done|]. by rewrite zlen_doubleEncode.
Qed.

Lemma del_score tx sl l ls key now :
  listed tx sl ls -> hash_ok tx l -> zlen key <= 2 ^ 61 -> NoDup (map snd l) ->
  exists tx', RocksKVStore_delKV cfg (hk key) tx now = Ret tx' /\ listed tx' sl ls /\ hash_ok tx' (zset_rem key l).
Proof.
  intros Hl Hh Hk Hn. pose proof (hk_data key Hk) as Hd.
  destruct (delKV_ok cfg Hcat (hk key) tx now Hd) as (tx' & E & Hw); [apply Hl|].
  exists tx'. split; [done|]. split; [by eapply listed_hash|]. eapply (hash_ok_write tx tx' l); [done|done|done|..].
  - intros k Hne. rewrite zset_find_rem by done. by rewrite bool_decide_eq_false_2.
  - rewrite zset_find_rem by done. rewrite bool_decide_eq_true_2 by done.
    pose proof (getKV_raw cfg (hk key) tx' Hd) as Hg. by rewrite (proj1 (proj2 Hw)) in Hg.
Qed.

(** [insert] and [remove] on the list. *)
Lemma list_insert tx sl l score key lvl :
  listed tx sl l -> zset_find key l = None -> dbl_nan score = false -> is_u64 score -> zlen key <= 2 ^ 61 -> 1 <= lvl <= MAX_LAYER ->
  zlen l + 1 < INT32_MAX / 2 -> sl_posAlloc sl + 1 < SKIPLIST_INVALID_POS ->
  exists sl', SkipList_insert cfg sl tx score key lvl = Ret sl' /\ listed tx sl' (zset_add (score, key) l) /\
    sl_posAlloc sl' = sl_posAlloc sl + 1.
Proof.
  intros ((Hz & xs & R & <-) & Ho & Hw) Hf Hn Hu Hk Hlvl Hc Ha. apply zset_find_None in Hf. destruct (sr_count _ _ _ _ R) as [Ec _].
  rewrite zlen_members in Hc.
  destruct (insert_ok cfg tx sl xs score key lvl R Hz Hf Hn Hu Hk Hlvl) as (sl' & xs' & E & R' & Ex); [lia|done|].
  destruct (insert_kept cfg sl tx score key lvl sl' E) as (_ & Ep & K1 & K2 & K3). pose proof (sr_alloc _ _ _ _ R).
  unfold HEAD_ID, SKIPLIST_INVALID_POS in *. rewrite wrap_id in Ep by (unfold is_u; lia).
  exists sl'. split; [done|]. split; [|done]. split; [split; [by apply zset_add_ok|by exists xs']|]. split; [|done].
  destruct Ho as (O1 & O2 & O3). unfold own. by rewrite K1, K2, K3.
Qed.

Lemma list_remove tx sl l score key now :
  listed tx sl l -> hash_ok tx l -> zset_find key l = Some score ->
  exists sl' tx', SkipList_remove cfg sl tx score key now = Ret (sl', tx') /\ listed tx' sl' (zset_rem key l) /\ hash_ok tx' l /\
    sl_posAlloc sl' = sl_posAlloc sl.
Proof.
  intros ((Hz & xs & R & E) & Ho & Hw) Hh (P & S & El)%zset_find_Some%list_elem_of_split. rewrite El in E.
  destruct (members_split _ _ _ _ E) as (A & a & B & -> & EA & Ea & EB). injection Ea as Es Ek. rewrite El, <-E in Hz.
  destruct (remove_ok cfg Hcat tx sl A a B score key now R Hz Hw) as (sl' & tx' & E' & R' & Hw' & Hwr); [|by rewrite Es|done|].
  { rewrite <-Es. apply (zset_nan _ a Hz). apply elem_of_app. right. left. }
  pose proof (remove_kept cfg sl sl tx score key now (kept_refl sl) _ E') as Hkp. cbn [fst] in Hkp.
  exists sl', tx'. rewrite E in Hz. split; [done|]. split; [split; [|split; [by eapply own_kept|done]]|split; [|apply Hkp]].
  - split; [eapply zset_ok_sublist; [apply filter_sublist|by rewrite El]|]. exists (A ++ B). split; [done|]. rewrite El.
    destruct Hz as (_ & _ & Hd). pose proof (zset_rem_split P (score, key) S Hd) as Er. cbn [snd] in Er. by rewrite Er, members_app, EA, EB.
  - eapply hash_ok_frame; [done|]. intros k Hk. destruct Hwr as (_ & _ & Hr). apply Hr; [by apply hk_data|].
    by apply hk_foreign.
Qed.

(** ** The set between commands *)

(** The meta record [rv] of the set, with the value [meta], and the members [l]. *)
Definition stored (tx : RocksTxn T) (rv : RecordValue) (meta : ZSlMetaValue) (l : list member) : Prop :=
  RocksKVStore_getKV cfg zset_key tx = Ret rv /\ (RecordValue_wf rv /\ rv_type rv = RT_ZSET_META) /\
  ZSlMetaValue_decode (rv_value rv) = Ret meta /\ listed tx (list_of zset_key meta) l /\ hash_ok tx l.

(** The meta record, the head of the list and the records of the members are not there. *)
Definition gone (tx : RocksTxn T) : Prop :=
  (exists msg, RocksKVStore_getKV cfg zset_key tx = Throw ERR_NOTFOUND msg) /\
  raw_record tx (head_key sess zset_key) = None /\ hash_ok tx [] /\ writable tx.

Lemma zset_key_data : data_key zset_key.
Proof. unfold data_key, zset_key. split_and!; [|done|apply Hchunk]. apply RecordKey_wf_new; [apply Hchunk|done|done|]. change (zlen []) with 0. lia. Qed.

Lemma save_stored tx sl l old ep now :
  listed tx sl l -> hash_ok tx l -> is_u64 ep -> old_ok old ->
  exists sl' tx' rv, SkipList_save cfg sl tx old ep now = Ret (sl', tx') /\ stored tx' rv (sl_meta sl) l /\ rv_ttl rv = old_ttl old.
Proof.
  intros ((Hz & xs & R & E) & Ho & Hw) Hh Hep Hold. destruct (own_keys sl Ho) as [Em _].
  destruct (save_ok cfg Hcat tx sl xs old ep now R Hw Hep Hold) as (sl' & tx' & rv & Es & Hw' & Eg & (Et & Ety & Hwf) & Ed & R' & Hr).
  exists sl', tx', rv. rewrite Em in *. destruct Ho as (O1 & O2 & O3). rewrite O1, O2, O3 in R'. split; [done|]. split; [|done].
  split; [done|]. split; [done|]. split; [done|]. split; [split; [split; [done|by exists xs]|done]|].
  eapply hash_ok_frame; [done|]. intros k Hk. apply Hr; [by apply hk_foreign|apply hk_not_meta].
Qed.

(** A write of a record that is no member's leaves the members' records alone. *)
Lemma hash_ok_other tx tx' l k s :
  hash_ok tx l -> wrote_record tx tx' k s -> rk_type k <> RT_ZSET_H_ELE -> hash_ok tx' l.
Proof.
  intros Hh (_ & _ & Hr) Hk. eapply hash_ok_frame; [done|]. intros key Hl. apply Hr; [by apply hk_data|].
  intros (_ & _ & E & _)%RecordKey_equiv_fields. by apply Hk.
Qed.

Lemma head_data : data_key (head_key sess zset_key).
Proof. destruct (own_keys (list_of zset_key (ZSlMetaValue_new 1 1 0))) as [_ <-]; [done|]. by apply node_data_key; [apply own_ids|]. Qed.

Lemma delete_gone tx rv now :
  writable tx -> hash_ok tx [] -> RecordValue_wf rv -> rv_type rv = RT_ZSET_META ->
  exists tx', (tx ← Command_delKeyAndTTL cfg sess zset_key rv tx now; RocksKVStore_delKV cfg (head_key sess zset_key) tx now) = Ret tx' /\ gone tx'.
Proof.
  intros Hw Hh Hwf Hty. destruct (delKeyAndTTL_ok cfg sess Hcat Hdb tx zset_key rv now Hw zset_key_data Hpk Hwf) as (tx1 & tx2 & E & W1 & W2); [by rewrite Hty|]. rewrite E, bind_Ret.
  assert (writable tx2 /\ hash_ok tx2 [] /\ raw_record tx2 zset_key = None) as (Hw2 & Hh2 & Em2).
  { pose proof W1 as (Hw1 & Em1 & _). assert (hash_ok tx1 []) as Hh1 by (by eapply hash_ok_other). destruct W2 as [->|(k & Hk & _ & W2)]; [done|].
    split; [apply W2|]. split; [eapply hash_ok_other; [done|done|by rewrite Hk]|]. destruct W2 as (_ & _ & Hr). rewrite Hr; [done|apply zset_key_data|].
    intros (_ & _ & Ek & _)%RecordKey_equiv_fields. by rewrite Hk in Ek. }
  destruct (delKV_ok cfg Hcat (head_key sess zset_key) tx2 now head_data Hw2) as (tx3 & E3 & W3). exists tx3. split; [done|].
  pose proof W3 as (Hw3 & Eh & Hr). split; [|split; [done|split; [by eapply hash_ok_other|done]]].
  apply getKV_none; [apply zset_key_data|]. rewrite Hr; [done|apply zset_key_data|]. by intros (_ & _ & Ek & _)%RecordKey_equiv_fields.
Qed.

(** What the removals end with. *)
Lemma save_or_delete_ok tx sl l rv now :
  listed tx sl l -> hash_ok tx l -> RecordValue_wf rv -> rv_type rv = RT_ZSET_META -> is_u64 (sc_versionEP sess) ->
  exists tx', save_or_delete cfg sess zset_key now (Ret rv) rv sl tx = Ret tx' /\
    match l with
    | [] => gone tx'
    | _ => exists rv', stored tx' rv' (sl_meta sl) l /\ rv_ttl rv' = rv_ttl rv
    end.
Proof.
  intros Hl Hh Hwf Hty Hep. unfold save_or_delete, SkipList_getCount.
  assert (sl_count sl = 1 + zlen l) as Ec by (destruct Hl as ((_ & xs & R & <-) & _); rewrite zlen_members; apply (sr_count _ _ _ _ R)).
  destruct l as [|x l].
  - rewrite Ec. cbn. apply delete_gone; [apply Hl|done|done|done].
  - rewrite zlen_cons in Ec. pose proof (zlen_nonneg l). destruct (Z.ltb_spec 1 (sl_count sl)); [|lia].
    destruct (save_stored tx sl (x :: l) (Ret rv) (sc_versionEP sess) now Hl Hh Hep Hwf) as (sl' & tx' & rv' & E & Hs & Ht).
    rewrite E, bind_Ret. exists tx'. split; [done|]. by exists rv'.
Qed.

End Rep.
