(* ===== verification/ZsetSpec.v ===== *)
(** What the commands of sorted sets (commands/zset.cpp) do to the set and what they answer. *)

From Stdlib Require Import Strings.Byte ZArith Lia.
From stdpp Require Import base list numbers strings gmap sorting.
From S2P Require Import Prelude Status Varint Record RecordValue RecordMeta ReplLog BinlogSeq Txn Store Replicate SkipList SkipListRep.
From S2P Require Import SkipListRead SkipListWrite SkipListRemove SkipListSave SkipListKeep SkipListSpec Double Command Elems Zset ZsetRep.

Local Open Scope Z_scope.

(** * ZADD on a list of members *)

Inductive zeffect : Set := ZNone | ZAdded | ZUpdated.

(** The score a member is to have. *)
Definition zadd_score (flags : Z) (l : list member) (e : bytes * Z) : Z :=
  match zset_find (fst e) l with
  | Some old => if has_flag flags ZADD_INCR then dbl_add (snd e) old else snd e
  | None => snd e
  end.

(** NX keeps the members there are, XX adds none, and an equal score is no update. *)
Definition zadd_effect (flags : Z) (l : list member) (e : bytes * Z) : zeffect :=
  match zset_find (fst e) l with
  | None => if has_flag flags ZADD_XX then ZNone else ZAdded
  | Some old =>
      if has_flag flags ZADD_NX then ZNone
      else if dbl_eq (zadd_score flags l e) old then ZNone else ZUpdated
  end.

Definition zadd_set (flags : Z) (l : list member) (e : bytes * Z) : list member :=
  match zadd_effect flags l e with
  | ZNone => l
  | _ => zset_add (zadd_score flags l e, fst e) (zset_rem (fst e) l)
  end.

Definition bump (x y : zeffect) : Z := match x, y with ZAdded, ZAdded | ZUpdated, ZUpdated => 1 | _, _ => 0 end.

(** The set after all the members, and how many were added and updated. *)
Fixpoint zadd_spec (flags : Z) (l : list member) (es : list (bytes * Z)) : list member * Z * Z :=
  match es with
  | [] => (l, 0, 0)
  | e :: es' =>
      let '(l', added, updated) := zadd_spec flags (zadd_set flags l e) es' in
      (l', added + bump (zadd_effect flags l e) ZAdded, updated + bump (zadd_effect flags l e) ZUpdated)
  end.

(** The scores are numbers, before and after an increment, and the keys are of a size. *)
Fixpoint zadd_pre (flags : Z) (l : list member) (es : list (bytes * Z)) : Prop :=
  match es with
  | [] => True
  | e :: es' =>
      (is_u64 (snd e) /\ zlen (fst e) <= 2 ^ 61 /\ dbl_nan (snd e) = false /\ dbl_nan (zadd_score flags l e) = false) /\
      zadd_pre flags (zadd_set flags l e) es'
  end.

Lemma dbl_add_u64 a b : is_u64 (dbl_add a b).
Proof. apply wrap_is_u. lia. Qed.

Lemma zadd_score_u64 flags l e : is_u64 (snd e) -> is_u64 (zadd_score flags l e).
Proof. intros Hu. unfold zadd_score. destruct (zset_find _ _); [|done]. destruct (has_flag _ _); [apply dbl_add_u64|done]. Qed.

Lemma zset_rem_len key l : zlen (zset_rem key l) <= zlen l.
Proof. pose proof (sublist_length _ _ (filter_sublist (fun x => negb (bool_decide (snd x = key))) l)) as Hl. unfold zset_rem, zlen. lia. Qed.

Lemma zadd_set_len flags l e : zlen (zadd_set flags l e) <= zlen l + 1.
Proof.
  unfold zadd_set. pose proof (zset_rem_len (fst e) l). destruct (zadd_effect flags l e); [lia|..];
    (unfold zlen in *; rewrite zset_add_perm; cbn [length]; lia).
Qed.

(** The answer: the new score or null with INCR, a count otherwise. *)
Definition zadd_reply (flags : Z) (l : list member) (es : list (bytes * Z)) : bytes :=
  let '(_, added, updated) := zadd_spec flags l es in
  if has_flag flags ZADD_INCR then
    match es with
    | [e] => match zadd_effect flags l e with ZNone => Command_fmtNull | _ => Command_fmtBulk (dtos (zadd_score flags l e)) end
    | _ => Command_fmtNull
    end
  else Command_fmtLongLong (if has_flag flags ZADD_CH then added + updated else added).

(** * ZREM on a list of members *)

Definition zrem_keys (keys : list bytes) (l : list member) : list member :=
  List.filter (fun x => negb (bool_decide (snd x ∈ keys))) l.

Lemma zrem_keys_cons key keys l : zrem_keys (key :: keys) l = zrem_keys keys (zset_rem key l).
Proof.
  unfold zrem_keys, zset_rem. induction l as [|x l IH]; [done|]. cbn [List.filter].
  destruct (bool_decide_reflect (snd x = key)) as [E|E]; cbn [negb].
  - rewrite bool_decide_eq_true_2 by (rewrite E; left). cbn [negb]. exact IH.
  - cbn [List.filter]. rewrite IH. f_equal. rewrite (bool_decide_ext (snd x ∈ key :: keys) (snd x ∈ keys)) by (rewrite elem_of_cons; tauto). done.
Qed.

Lemma zrem_keys_nil l : zrem_keys [] l = l.
Proof. unfold zrem_keys. induction l as [|x l IH]; [done|]. cbn [List.filter]. rewrite bool_decide_eq_false_2 by apply not_elem_of_nil. cbn. by f_equal. Qed.

Lemma zrem_keys_len keys l : zlen (zrem_keys keys l) <= zlen l.
Proof. pose proof (sublist_length _ _ (filter_sublist (fun x => negb (bool_decide (snd x ∈ keys))) l)). unfold zrem_keys, zlen. lia. Qed.

Lemma zset_rem_found key l s : NoDup (map snd l) -> zset_find key l = Some s -> zlen (zset_rem key l) = zlen l - 1.
Proof.
  intros Hd (P & S & ->)%zset_find_Some%list_elem_of_split. pose proof (zset_rem_split P (s, key) S Hd) as E. cbn [snd] in E.
  rewrite E, !zlen_app, zlen_cons. lia.
Qed.

Lemma filter_nil_all {A} (f : A -> bool) l : Forall (fun x => f x = false) l -> List.filter f l = [].
Proof. induction 1 as [|x l E _ IH]; [done|]. cbn [List.filter]. by rewrite E. Qed.

Lemma filter_id_all {A} (f : A -> bool) l : Forall (fun x => f x = true) l -> List.filter f l = l.
Proof. induction 1 as [|x l E _ IH]; [done|]. cbn [List.filter]. rewrite E. by f_equal. Qed.

(** * Range removals on a list of members *)

(** The members a range removal takes, and those it leaves; [None] for an empty range of ranks. *)
Definition zremrange_spec (type : ZRemType) (l : list member) : option (list member * list member) :=
  match type with
  | REM_RANK start end_ =>
      match clip_range (zlen l) start end_ with
      | None => None
      | Some (s, e) => Some (ztake (e - s + 1) (zdrop s l), ztake s l ++ zdrop (e + 1) l)
      end
  | REM_SCORE range => Some (List.filter (score_in range) l, List.filter (fun x => negb (score_in range x)) l)
  | REM_LEX range => Some (List.filter (lex_in range) l, List.filter (fun x => negb (lex_in range x)) l)
  end.

(** The start of a range of scores is a number; a range of keys is taken of members of one score. *)
Definition zremrange_pre (type : ZRemType) (l : list member) : Prop :=
  match type with
  | REM_RANK _ _ => True
  | REM_SCORE range => dbl_nan (zr_min range) = false
  | REM_LEX _ => same_score l /\ Forall plain l
  end.

Lemma filter_perm (f : member -> bool) l : l ≡ₚ List.filter f l ++ List.filter (fun x => negb (f x)) l.
Proof.
  induction l as [|x l IH]; [done|]. cbn [List.filter]. destruct (f x); cbn [negb app]; [by rewrite <-IH|]. rewrite <-Permutation_middle. by rewrite <-IH.
Qed.

Lemma zremrange_perm type l out ls : zremrange_spec type l = Some (out, ls) -> l ≡ₚ out ++ ls.
Proof.
  destruct type as [start end_|range|range]; cbn [zremrange_spec]; [|intros [= <- <-]; apply filter_perm..].
  destruct (clip_range (zlen l) start end_) as [[s e]|] eqn:Ec; [|done]. intros [= <- <-].
  apply clip_range_bounds in Ec as [Hs He]; [|apply zlen_nonneg]. rewrite app_assoc, (Permutation_app_comm _ (ztake s l)), <-app_assoc.
  replace (e + 1) with (s + (e - s + 1)) by lia. rewrite <-zdrop_zdrop by lia. by rewrite !ztake_zdrop.
Qed.

Lemma zrem_keys_app keys l1 l2 : zrem_keys keys (l1 ++ l2) = zrem_keys keys l1 ++ zrem_keys keys l2.
Proof. apply List.filter_app. Qed.

(** The members that are left are those without the keys taken. *)
Lemma zrem_keys_perm l out ls : NoDup (map snd l) -> l ≡ₚ out ++ ls -> zrem_keys (map snd out) l ≡ₚ ls.
Proof.
  intros Hd Hp. assert (zrem_keys (map snd out) l ≡ₚ zrem_keys (map snd out) (out ++ ls)) as ->.
  { clear Hd. induction Hp as [|x l l' Hp IH|x y l|l1 l2 l3 H1 IH1 H2 IH2]; [done| | |by etrans]; unfold zrem_keys; cbn [List.filter].
    - destruct (bool_decide _); cbn; [done|by constructor].
    - destruct (bool_decide (snd x ∈ _)), (bool_decide (snd y ∈ _)); cbn; (reflexivity || apply Permutation_swap). }
  assert (NoDup (map snd (out ++ ls))) as Hd' by (eapply NoDup_Permutation_proper; [by rewrite <-Hp|done]).
  rewrite map_app in Hd'. apply NoDup_app in Hd' as (_ & Hx & _). rewrite zrem_keys_app.
  assert (zrem_keys (map snd out) out = []) as ->.
  { unfold zrem_keys. apply filter_nil_all. rewrite Forall_forall. intros x Hin. rewrite bool_decide_eq_true_2; [done|]. by apply list_elem_of_fmap_2. }
  cbn [app]. unfold zrem_keys. rewrite filter_id_all; [done|]. rewrite Forall_forall. intros x Hin. rewrite bool_decide_eq_false_2; [done|].
  intros Hin'. apply (Hx _ Hin'). by apply list_elem_of_fmap_2.
Qed.

Section Zset.
Context {BM : BuildMode} {T : Type} `{RocksDBLaws T} {HH : RocksDBHealthy T}.
Variable cfg : StoreCfg.
Variable sess : SessionCtx.
Variables (chunkId : Z) (pk : bytes).
Hypothesis Hcat : cfg_isCatalog cfg = false.
Hypothesis Hchunk : is_u32 chunkId /\ chunkId <> CHUNKID_FLUSH.
Hypothesis Hdb : is_u32 (sc_dbId sess).
Hypothesis Hpk : zlen pk < 2 ^ 61.

#[local] Abbreviation mk := (zset_key sess chunkId pk).
#[local] Abbreviation listed := (listed cfg sess chunkId pk).
#[local] Abbreviation hash_ok := (hash_ok cfg sess chunkId pk).

(** What the loop keeps. *)
Definition zadd_inv (st : ZaddSt) (l : list member) : Prop := listed (za_txn st) (za_list st) l /\ hash_ok (za_txn st) l.

Lemma listed_max tx sl l : listed tx sl l -> sl_maxLevel sl = MAX_LAYER.
Proof. intros ((_ & xs & R & _) & _). apply (sr_max _ _ _ _ R). Qed.

Lemma drawn_level draws sl : sl_maxLevel sl = MAX_LAYER -> 1 <= SkipList_randomLevel draws (sl_maxLevel sl) <= MAX_LAYER.
Proof. intros ->. by apply randomLevel_loop_bound. Qed.

Lemma listed_nodup tx sl l : listed tx sl l -> NoDup (map snd l).
Proof. by intros ((( _ & _ & Hd) & _) & _). Qed.

Lemma find_record_at tx key o :
  hash_at cfg sess chunkId pk tx key o ->
  exists r, find_record (RocksKVStore_getKV cfg (hk sess chunkId pk key) tx) = Ret r /\
    match o with Some s => exists rv, r = Some rv /\ score_of rv = Ret s | None => r = None end.
Proof. destruct o as [s|]; [intros (rv & -> & Es); exists (Some rv); eauto|intros (msg & ->); by exists None]. Qed.

(** A member that is new, and one that gets another score. *)
Lemma insert_member tx sl l score key lvl now :
  listed tx sl l -> hash_ok tx l -> zset_find key l = None -> dbl_nan score = false -> is_u64 score -> zlen key <= 2 ^ 61 ->
  1 <= lvl <= MAX_LAYER -> zlen l + 1 < INT32_MAX / 2 -> sl_posAlloc sl + 1 < SKIPLIST_INVALID_POS ->
  exists sl' tx', SkipList_insert cfg sl tx score key lvl = Ret sl' /\
    RocksKVStore_setKV cfg (hk sess chunkId pk key) (RecordValue_of_double score RT_ZSET_H_ELE) tx now = Ret tx' /\
    listed tx' sl' (zset_add (score, key) l) /\ hash_ok tx' (zset_add (score, key) l) /\ sl_posAlloc sl' = sl_posAlloc sl + 1.
Proof.
  intros Hl Hh Hf Hn Hu Hk Hlvl Hc Ha. pose proof (listed_nodup _ _ _ Hl) as Hd. pose proof (proj1 (zset_find_None _ _) Hf) as Hk'.
  destruct (list_insert cfg sess chunkId pk tx sl l score key lvl) as (sl' & E & Hl' & Ep); try done.
  assert (forall k, zset_find k (zset_add (score, key) l) = if bool_decide (key = k) then Some score else zset_find k l) as Hfa.
  { intros k. by rewrite zset_find_add. }
  destruct (set_score cfg sess chunkId pk Hcat Hchunk Hdb Hpk tx sl' l (zset_add (score, key) l) key score now) as (tx' & E' & Hl'' & Hh'); try done.
  { rewrite Hfa. by rewrite bool_decide_eq_true_2. }
  { intros k Hn'. rewrite Hfa. by rewrite bool_decide_eq_false_2. }
  by exists sl', tx'.
Qed.

Lemma update_member tx sl l old score key lvl now :
  listed tx sl l -> hash_ok tx l -> zset_find key l = Some old -> dbl_nan score = false -> is_u64 score -> zlen key <= 2 ^ 61 ->
  1 <= lvl <= MAX_LAYER -> zlen l + 1 < INT32_MAX / 2 -> sl_posAlloc sl + 1 < SKIPLIST_INVALID_POS ->
  exists sl1 tx1 sl' tx', SkipList_remove cfg sl tx old key now = Ret (sl1, tx1) /\ SkipList_insert cfg sl1 tx1 score key lvl = Ret sl' /\
    RocksKVStore_setKV cfg (hk sess chunkId pk key) (RecordValue_of_double score RT_ZSET_H_ELE) tx1 now = Ret tx' /\
    listed tx' sl' (zset_add (score, key) (zset_rem key l)) /\ hash_ok tx' (zset_add (score, key) (zset_rem key l)) /\
    sl_posAlloc sl' = sl_posAlloc sl + 1.
Proof.
  intros Hl Hh Hf Hn Hu Hk Hlvl Hc Ha. pose proof (listed_nodup _ _ _ Hl) as Hd.
  destruct (list_remove cfg sess chunkId pk Hcat Hchunk Hdb Hpk tx sl l old key now) as (sl1 & tx1 & E1 & Hl1 & Hh1 & Ep1); try done.
  pose proof (listed_nodup _ _ _ Hl1) as Hd1. pose proof (zset_rem_len key l).
  assert (forall k, zset_find k (zset_rem key l) = if bool_decide (key = k) then None else zset_find k l) as Hfr by (intros k; by apply zset_find_rem).
  assert (zset_find key (zset_rem key l) = None) as Hf1 by (rewrite Hfr; by rewrite bool_decide_eq_true_2).
  pose proof (proj1 (zset_find_None _ _) Hf1) as Hk1.
  destruct (list_insert cfg sess chunkId pk tx1 sl1 (zset_rem key l) score key lvl) as (sl' & E & Hl' & Ep); try done; [lia|lia|].
  destruct (set_score cfg sess chunkId pk Hcat Hchunk Hdb Hpk tx1 sl' l (zset_add (score, key) (zset_rem key l)) key score now) as (tx' & E' & Hl'' & Hh'); try done.
  { rewrite zset_find_add by done. cbn [snd fst]. by rewrite bool_decide_eq_true_2. }
  { intros k Hn'. rewrite zset_find_add, Hfr by done. cbn [snd fst]. by rewrite !bool_decide_eq_false_2. }
  exists sl1, tx1, sl', tx'. split_and!; try done; try apply Hl''. by rewrite Ep, Ep1.
Qed.

(** A round of the loop. *)
Definition zadd_round (flags : Z) (l : list member) (e : bytes * Z) (st st' : ZaddSt (T := T)) : Prop :=
  zadd_inv st' (zadd_set flags l e) /\ sl_posAlloc (za_list st') <= sl_posAlloc (za_list st) + 1 /\
  za_added st' = za_added st + bump (zadd_effect flags l e) ZAdded /\
  za_updated st' = za_updated st + bump (zadd_effect flags l e) ZUpdated /\
  za_processed st' = za_processed st + bump (zadd_effect flags l e) ZAdded + bump (zadd_effect flags l e) ZUpdated /\
  (zadd_effect flags l e <> ZNone -> za_newScore st' = zadd_score flags l e).

Lemma zadd_entry_ok flags draws now l e st :
  zadd_inv st l -> is_u64 (snd e) -> zlen (fst e) <= 2 ^ 61 -> dbl_nan (snd e) = false -> dbl_nan (zadd_score flags l e) = false ->
  zlen l + 1 < INT32_MAX / 2 -> sl_posAlloc (za_list st) + 1 < SKIPLIST_INVALID_POS ->
  exists st', zadd_entry cfg sess mk now flags draws e st = Ret st' /\ zadd_round flags l e st st'.
Proof.
  intros [Hl Hh] Hu Hk Hn Hn' Hc Ha. destruct st as [sl tx added updated processed ns], e as [key score]. cbn in *.
  set (lvl := SkipList_randomLevel _ _). assert (1 <= lvl <= MAX_LAYER) as Hlvl by (by apply drawn_level, (listed_max tx sl l)).
  pose proof (zadd_score_u64 flags l (key, score) Hu) as Hu'. rewrite Hn. fold (hk sess chunkId pk key).
  destruct (find_record_at tx key _ (Hh key Hk)) as (r & -> & Hr). rewrite bind_Ret. unfold zadd_round, zadd_set, zadd_effect, zadd_score in *. cbn [fst snd] in *.
  destruct (zset_find key l) as [old|] eqn:Ef.
  - destruct Hr as (rv & -> & Es). destruct (has_flag flags ZADD_NX); [eexists; split; [done|]; cbn; split_and!; (done || lia || apply Hl)|].
    rewrite Es, bind_Ret. set (n := if has_flag flags ZADD_INCR then dbl_add score old else score) in *.
    replace (if has_flag flags ZADD_INCR then _ else _) with (Ret n : M Z).
    2:{ unfold n in *. destruct (has_flag flags ZADD_INCR); [by rewrite Hn'|done]. }
    rewrite bind_Ret. destruct (dbl_eq n old); [eexists; split; [done|]; cbn; split_and!; (done || lia || apply Hl)|].
    destruct (update_member tx sl l old n key lvl now) as (sl1 & tx1 & sl' & tx' & -> & E2 & E3 & Hl' & Hh' & Ep); try done.
    rewrite bind_Ret, E2, bind_Ret, E3, bind_Ret. eexists. split; [done|]. cbn. rewrite Ep. split_and!; (done || lia || apply Hl').
  - subst r. destruct (has_flag flags ZADD_XX); [eexists; split; [done|]; cbn; split_and!; (done || lia || apply Hl)|].
    destruct (insert_member tx sl l score key lvl now) as (sl' & tx' & E1 & E2 & Hl' & Hh' & Ep); try done.
    rewrite E1, bind_Ret, E2, bind_Ret. eexists. split; [done|]. cbn. rewrite Ep. rewrite zset_rem_id by (by apply zset_find_None).
    split_and!; (done || lia || apply Hl').
Qed.

Lemma zadd_loop_ok flags draws now es : forall l st,
  zadd_inv st l -> zadd_pre flags l es -> zlen l + zlen es < INT32_MAX / 2 -> sl_posAlloc (za_list st) + zlen es < SKIPLIST_INVALID_POS ->
  exists st', zadd_loop cfg sess mk now flags draws es st = Ret st' /\
    let '(l', added, updated) := zadd_spec flags l es in
    zadd_inv st' l' /\ za_added st' = za_added st + added /\ za_updated st' = za_updated st + updated /\
    za_processed st' = za_processed st + added + updated /\
    (forall e, es = [e] -> zadd_effect flags l e <> ZNone -> za_newScore st' = zadd_score flags l e).
Proof.
  induction es as [|e es IH]; intros l st Hi Hp Hc Ha; cbn [zadd_loop zadd_spec].
  { exists st. split; [done|]. split; [done|]. split; [lia|]. split; [lia|]. by split; [lia|]. }
  destruct Hp as [(Hu & Hk & Hn & Hn') Hps]. rewrite zlen_cons in *. pose proof (zlen_nonneg es).
  destruct (zadd_entry_ok flags draws now l e st Hi Hu Hk Hn Hn' ltac:(lia) ltac:(lia)) as (st1 & E & Hi1 & Ha1 & E1 & E2 & E3 & E4).
  rewrite E, bind_Ret. pose proof (zadd_set_len flags l e).
  destruct (IH (zadd_set flags l e) st1 Hi1 Hps ltac:(lia) ltac:(lia)) as (st2 & E' & Hs). exists st2. split; [done|].
  destruct (zadd_spec flags (zadd_set flags l e) es) as [[l' added] updated] eqn:Esp. destruct Hs as (Hi2 & F1 & F2 & F3 & F4).
  split; [done|]. split; [lia|]. split; [lia|]. split; [lia|]. intros e' [= <- ->] Hne. cbn [zadd_loop] in E'. injection E' as <-. auto.
Qed.

(** A new set: its meta record and the head of its list. *)
Lemma zadd_meta_new tx code msg now :
  code = ERR_NOTFOUND \/ code = ERR_EXPIRED -> writable tx -> hash_ok tx [] -> is_u64 (sc_versionEP sess) ->
  exists tx', zadd_meta cfg sess mk now (Throw code msg) tx = Ret (ZSlMetaValue_new 1 1 0, tx') /\
    listed tx' (list_of mk (ZSlMetaValue_new 1 1 0)) [] /\ hash_ok tx' [].
Proof.
  intros Hcode Hw Hh Hep. assert (tx_done tx = false) as Hdone by apply Hw. unfold zadd_meta. inv_d by (by destruct Hcode as [-> | ->]).
  destruct (ZSlMetaValue_law (ZSlMetaValue_new 1 1 0)) as (val & -> & Hdec & Hsz); [by vm_compute|]. rewrite bind_Ret.
  unfold txn_access. rewrite Hdone, bind_Ret.
  destruct (setKV_ok cfg Hcat mk (RecordValue_new val RT_ZSET_META (sc_versionEP sess) 0 (-1) 0 MAXU64) tx now) as (tx1 & s1 & -> & W1 & _);
    [by apply zset_key_data| |done|].
  { unfold RecordValue_wf, RecordValue_new, MAXU64; cbn. split_and!; try done; try apply Hep; lia. }
  rewrite bind_Ret. pose proof (head_data sess chunkId pk Hchunk Hdb Hpk) as Hd. fold head_value.
  assert (ZSlEleValue_wf head_value) as Hwf by (by apply new_node_wf).
  destruct (setKV_ok cfg Hcat (head_key sess mk) _ tx1 now Hd (node_record_wf head_value Hwf)) as (tx2 & s2 & -> & W2 & Ed); [apply W1|].
  rewrite bind_Ret, Hdec, bind_Ret. exists tx2. split; [done|].
  assert (hash_ok tx2 []) as Hh2 by (eapply hash_ok_other; [..|exact W2|done]; try done; by eapply hash_ok_other).
  split; [|done]. split; [|split; [done|apply W2]]. split; [by repeat constructor|]. exists []. split; [|done].
  apply empty_rep; [by apply (own_ids sess chunkId pk)|]. unfold load. change (node_key _ HEAD_ID) with (head_key sess mk).
  pose proof (getKV_raw cfg _ tx2 Hd) as Hg. rewrite (proj1 (proj2 W2)) in Hg. rewrite Hg, Ed.
  transitivity (match ZSlEleValue_decode (ZSlEleValue_encode head_value) with Ret e => Some e | _ => None end); [done|].
  rewrite (ZSlEleValue_decode_encode head_value); [done|done|done].
Qed.

(** What a command finds: the set with its meta record, or no set, and room for [n] nodes. *)
Definition zset_found (tx : RocksTxn T) (eMeta : M RecordValue) (l : list member) (n : Z) : Prop :=
  match eMeta with
  | Ret rv => exists meta, stored cfg sess chunkId pk tx rv meta l /\ zm_posAlloc meta + n < SKIPLIST_INVALID_POS
  | Throw code _ => (code = ERR_NOTFOUND \/ code = ERR_EXPIRED) /\ l = [] /\ hash_ok tx [] /\ writable tx /\ MIN_POS + n < SKIPLIST_INVALID_POS
  | Crash _ => False
  end.

Lemma zset_found_meta tx eMeta l n now :
  zset_found tx eMeta l n -> is_u64 (sc_versionEP sess) ->
  exists meta tx', zadd_meta cfg sess mk now eMeta tx = Ret (meta, tx') /\ listed tx' (list_of mk meta) l /\ hash_ok tx' l /\
    zm_posAlloc meta + n < SKIPLIST_INVALID_POS /\ old_ok eMeta.
Proof.
  destruct eMeta as [rv|code msg|]; [|intros (Hc & -> & Hh & Hw & Hn)|done].
  - intros (meta & (_ & (Hwf & _) & Hdec & Hl & Hh) & Hn) _. exists meta, tx. cbn [zadd_meta]. rewrite Hdec, bind_Ret. unfold txn_access.
    assert (tx_done tx = false) as -> by apply Hl. by rewrite bind_Ret.
  - intros Hep. destruct (zadd_meta_new tx code msg now Hc Hw Hh Hep) as (tx' & E & Hl & Hh'). exists (ZSlMetaValue_new 1 1 0), tx'.
    split; [done|]. split; [done|]. by split.
Qed.

Lemma zadd_ok tx eMeta l es flags draws now :
  zset_found tx eMeta l (zlen es) -> is_u64 (sc_versionEP sess) ->
  has_flag flags ZADD_NX && has_flag flags ZADD_XX = false -> has_flag flags ZADD_INCR && (1 <? zlen es) = false ->
  zadd_pre flags l es -> zlen l + zlen es < INT32_MAX / 2 ->
  exists tx' rv meta, genericZadd cfg sess mk now eMeta es flags draws tx = Ret (tx', zadd_reply flags l es) /\
    stored cfg sess chunkId pk tx' rv meta (fst (fst (zadd_spec flags l es))) /\ rv_ttl rv = old_ttl eMeta.
Proof.
  intros Hf Hep Hnx Hin Hp Hc. unfold genericZadd, zadd_reply. rewrite Hnx, Hin.
  destruct (zset_found_meta tx eMeta l (zlen es) now Hf Hep) as (meta & tx1 & -> & Hl & Hh & Ha & Hold). rewrite bind_Ret.
  destruct (zadd_loop_ok flags draws now es l (mkZadd (list_of mk meta) tx1 0 0 0 0)) as (st & -> & Hs); [by split|done|done|exact Ha|].
  rewrite bind_Ret. destruct (zadd_spec flags l es) as [[l' added] updated] eqn:Esp. destruct Hs as ([Hl' Hh'] & E1 & E2 & E3 & E4).
  destruct (save_stored cfg sess chunkId pk Hcat Hchunk Hdb Hpk (za_txn st) (za_list st) l' eMeta (sc_versionEP sess) now)
    as (sl' & tx' & rv & -> & Hst & Ht); try done. rewrite bind_Ret. exists tx', rv, (sl_meta (za_list st)).
  split; [|by split]. do 2 f_equal. cbn [za_added za_updated za_processed] in *. rewrite E1, E2, E3.
  destruct (has_flag flags ZADD_INCR); [|done]. destruct es as [|e [|e' es]]; [by injection Esp as <- <- <-| |].
  - cbn [zadd_spec] in Esp. injection Esp as <- <- <-. specialize (E4 e eq_refl). destruct (zadd_effect flags l e); [done|..]; by rewrite E4.
  - rewrite !zlen_cons in Hin. pose proof (zlen_nonneg es). cbn [andb] in Hin. lia.
Qed.

(** C6: ZADD and ZINCRBY keep the skip list and the records of the members together: on a set, or
    where there is none yet, the command adds and updates the members as its options say, counts
    them, answers, and leaves a set that a later command finds, with the expiry it had. *)
Theorem zadd_correct tx eMeta l es flags draws now :
  zset_found tx eMeta l (zlen es) -> is_u64 (sc_versionEP sess) ->
  has_flag flags ZADD_NX && has_flag flags ZADD_XX = false -> has_flag flags ZADD_INCR && (1 <? zlen es) = false ->
  zadd_pre flags l es -> zlen l + zlen es < INT32_MAX / 2 ->
  exists tx' rv meta, genericZadd cfg sess mk now eMeta es flags draws tx = Ret (tx', zadd_reply flags l es) /\
    stored cfg sess chunkId pk tx' rv meta (fst (fst (zadd_spec flags l es))) /\ rv_ttl rv = old_ttl eMeta.
Proof. apply zadd_ok. Qed.

(** ** ZREM *)

Lemma zrem_loop_ok now keys : forall tx sl l cnt,
  listed tx sl l -> hash_ok tx l -> Forall (fun k => zlen k <= 2 ^ 61) keys -> 0 <= cnt -> cnt + zlen l < 2 ^ 32 ->
  exists sl' tx', zrem_loop cfg sess mk now keys sl tx cnt = Ret (sl', tx', cnt + (zlen l - zlen (zrem_keys keys l))) /\
    listed tx' sl' (zrem_keys keys l) /\ hash_ok tx' (zrem_keys keys l).
Proof.
  induction keys as [|key keys IH]; intros tx sl l cnt Hl Hh Hk Hc0 Hc; cbn [zrem_loop].
  { exists sl, tx. rewrite zrem_keys_nil, Z.sub_diag, Z.add_0_r. done. }
  inversion Hk as [|? ? Hk1 Hks]; subst. fold (hk sess chunkId pk key). rewrite zrem_keys_cons. pose proof (listed_nodup _ _ _ Hl) as Hd.
  destruct (find_record_at tx key _ (Hh key Hk1)) as (r & -> & Hr). rewrite bind_Ret. destruct (zset_find key l) as [old|] eqn:Ef.
  - destruct Hr as (rv & -> & ->). rewrite bind_Ret.
    destruct (list_remove cfg sess chunkId pk Hcat Hchunk Hdb Hpk tx sl l old key now) as (sl1 & tx1 & -> & Hl1 & Hh1 & _); try done. rewrite bind_Ret.
    destruct (del_score cfg sess chunkId pk Hcat Hchunk Hdb Hpk tx1 sl1 l (zset_rem key l) key now) as (tx2 & -> & Hl2 & Hh2); try done.
    rewrite bind_Ret. pose proof (zset_rem_found key l old Hd Ef) as El. pose proof (zlen_nonneg (zset_rem key l)).
    rewrite wrap_id by (unfold is_u; lia). destruct (IH tx2 sl1 (zset_rem key l) (cnt + 1) Hl2 Hh2 Hks) as (sl' & tx' & -> & R); [lia|lia|].
    exists sl', tx'. split; [|done]. do 2 f_equal. lia.
  - subst r. rewrite zset_rem_id by (by apply zset_find_None). by apply IH.
Qed.

(** C7: ZREM removes the members from the skip list and their records, counts those it found, and
    either saves the list or, when no member is left, deletes the meta record, the head of the list
    and the record of every member; the reply follows the commit of that transaction. *)
Theorem zrem_correct tx rv meta l keys now w w1 :
  stored cfg sess chunkId pk tx rv meta l -> is_u64 (sc_versionEP sess) -> Forall (fun k => zlen k <= 2 ^ 61) keys ->
  SessionCtx_createTransaction sess w = Ret (w1, tx) ->
  exists tx',
    genericZrem cfg sess mk now w (Ret rv) keys =
      commit_reply cfg sess w1 tx' (Command_fmtLongLong (zlen l - zlen (zrem_keys keys l))) /\
    match zrem_keys keys l with
    | [] => gone cfg sess chunkId pk tx'
    | l' => exists rv' meta', stored cfg sess chunkId pk tx' rv' meta' l' /\ rv_ttl rv' = rv_ttl rv
    end.
Proof.
  intros (_ & (Hwf & Hty) & Hdec & Hl & Hh) Hep Hk Ew. assert (tx_done tx = false) as Hd by apply Hl. unfold genericZrem, zrem_work. rewrite Ew, bind_Ret. cbn [meta_or_none]. rewrite bind_Ret, Hdec, bind_Ret.
  unfold txn_access. rewrite Hd, bind_Ret.
  assert (zlen l < 2 ^ 32) as Hc.
  { destruct Hl as ((_ & xs & R & <-) & _). rewrite zlen_members. destruct (sr_count _ _ _ _ R) as [E1 E2]. change (INT32_MAX / 2) with 1073741823 in E2. lia. }
  destruct (zrem_loop_ok now keys tx (list_of mk meta) l 0 Hl Hh Hk) as (sl' & tx1 & -> & Hl1 & Hh1); [lia|lia|]. rewrite bind_Ret, Z.add_0_l.
  destruct (save_or_delete_ok cfg sess chunkId pk Hcat Hchunk Hdb Hpk tx1 sl' (zrem_keys keys l) rv now) as (tx' & -> & Hs); try done.
  rewrite !bind_Ret. exists tx'. split; [done|]. destruct (zrem_keys keys l); [done|]. destruct Hs as (rv' & Hs & Ht). by exists rv', (sl_meta sl').
Qed.

(** ** ZREMRANGEBYRANK, ZREMRANGEBYSCORE, ZREMRANGEBYLEX *)

Lemma hash_ok_same tx l l' : hash_ok tx l -> (forall k, zset_find k l' = zset_find k l) -> hash_ok tx l'.
Proof. intros Hh Hf k Hk. rewrite Hf. by apply Hh. Qed.

Lemma del_members_ok now sl ls out : forall tx l,
  listed tx sl ls -> hash_ok tx l -> NoDup (map snd l) -> Forall (fun x => zlen (snd x) <= 2 ^ 61) out ->
  exists tx', del_members cfg sess mk now out tx = Ret tx' /\ listed tx' sl ls /\ hash_ok tx' (zrem_keys (map snd out) l).
Proof.
  induction out as [|x out IH]; intros tx l Hl Hh Hd Hk; cbn [del_members map].
  { exists tx. by rewrite zrem_keys_nil. }
  inversion Hk as [|? ? Hk1 Hks]; subst. fold (hk sess chunkId pk (snd x)).
  destruct (del_score cfg sess chunkId pk Hcat Hchunk Hdb Hpk tx sl l ls (snd x) now) as (tx1 & -> & Hl1 & Hh1); try done. rewrite bind_Ret, zrem_keys_cons.
  apply IH; try done. eapply sublist_NoDup; [exact Hd|]. apply fmap_sublist, filter_sublist.
Qed.

Lemma listed_keys tx sl l : listed tx sl l -> Forall (fun x => zlen (snd x) <= 2 ^ 61) l.
Proof.
  intros ((_ & xs & R & <-) & _). apply Forall_map. eapply Forall_impl; [apply (sr_nodes _ _ _ _ R)|].
  intros a (e & _ & Hw & _ & Hk). cbn. rewrite <-Hk. apply Hw.
Qed.

(** The call of the list that a command makes. *)
Definition rem_op (type : ZRemType) (l : list member) : option ZOp :=
  match type with
  | REM_RANK start end_ => match clip_range (zlen l) start end_ with None => None | Some (s, e) => Some (ZRemoveByRank (s + 1) (e + 1)) end
  | REM_SCORE range => Some (ZRemoveByScore range)
  | REM_LEX range => Some (ZRemoveByLex range)
  end.

Lemma rem_op_spec type l o :
  rem_op type l = Some o -> zremrange_pre type l ->
  is_range o /\ op_pre l o /\ zremrange_spec type l = Some (snd (op_spec l o), fst (op_spec l o)).
Proof.
  destruct type as [start end_|range|range]; cbn [rem_op zremrange_spec]; [|by intros [= <-]..].
  destruct (clip_range (zlen l) start end_) as [[s e]|] eqn:Ec; [|done]. intros [= <-] _. apply clip_range_bounds in Ec as [Hs He]; [|apply zlen_nonneg].
  split; [done|]. split; [cbn; lia|]. cbn [op_spec fst snd].
  by replace (s + 1 - 1) with s by lia; replace (e + 1 - (s + 1) + 1) with (e - s + 1) by lia.
Qed.

(** The removal of a range from the list and from the members' records. *)
Lemma range_removed tx sl l o out ls rv now :
  listed tx sl l -> hash_ok tx l -> is_range o -> op_pre l o -> l ≡ₚ out ++ ls -> op_spec l o = (ls, out) ->
  RecordValue_wf rv -> rv_type rv = RT_ZSET_META -> is_u64 (sc_versionEP sess) ->
  exists tx', (r ← op_run cfg sl tx now o;
      let '(sl, tx, result) := r in
      tx ← del_members cfg sess mk now result tx;
      tx ← save_or_delete cfg sess mk now (Ret rv) rv sl tx;
      Ret (Some (tx, zlen result))) = Ret (Some (tx', zlen out)) /\
    match ls with
    | [] => gone cfg sess chunkId pk tx'
    | _ => exists rv' meta', stored cfg sess chunkId pk tx' rv' meta' ls /\ rv_ttl rv' = rv_ttl rv
    end.
Proof.
  intros Hl Hh Ho Hp Hpm Eo Hwf Hty Hep. pose proof (listed_nodup _ _ _ Hl) as Hd. pose proof (listed_keys _ _ _ Hl) as Hkeys.
  destruct (range_ok cfg Hcat tx sl l now o Ho (proj1 Hl) (proj2 (proj2 Hl)) Hp) as (sl' & tx1 & -> & Hr & [Hw1 Hst] & Hkp). rewrite bind_Ret, Eo in *. cbn [fst snd] in *.
  assert (hash_ok tx1 l) as Hh1 by (eapply hash_ok_frame; try done; intros k Hk; by apply Hst, hk_foreign).
  assert (listed tx1 sl' ls) as Hl1 by (split; [done|]; split; [eapply own_kept; [apply Hl|exact Hkp]|done]).
  rewrite Hpm in Hkeys. apply Forall_app in Hkeys as [Hkeys _].
  destruct (del_members_ok now sl' ls out tx1 l Hl1 Hh1 Hd Hkeys) as (tx2 & -> & Hl2 & Hh2). rewrite bind_Ret.
  assert (hash_ok tx2 ls) as Hh2'.
  { eapply hash_ok_same; [exact Hh2|]. intros k. symmetry. apply zset_find_perm; [|by apply zrem_keys_perm].
    eapply sublist_NoDup; [exact Hd|]. apply fmap_sublist, filter_sublist. }
  destruct (save_or_delete_ok cfg sess chunkId pk Hcat Hchunk Hdb Hpk tx2 sl' ls rv now) as (tx' & -> & Hs); try done. rewrite bind_Ret.
  exists tx'. split; [done|]. destruct ls; [done|]. destruct Hs as (rv' & Hs & Ht). by exists rv', (sl_meta sl').
Qed.

(** ZREMRANGEBYRANK, ZREMRANGEBYSCORE and ZREMRANGEBYLEX remove the members of the range, with
    negative ranks counted from the end, from the skip list and their records, delete the set
    when none is left, and answer with their number; an empty range of ranks changes nothing. *)
Theorem zremrange_correct tx rv meta l type now w w1 :
  stored cfg sess chunkId pk tx rv meta l -> is_u64 (sc_versionEP sess) -> zremrange_pre type l ->
  SessionCtx_createTransaction sess w = Ret (w1, tx) ->
  match zremrange_spec type l with
  | None => genericZremrange cfg sess mk now w (Ret rv) type = Ret (w1, Ret Command_fmtZero)
  | Some (out, ls) =>
      exists tx', genericZremrange cfg sess mk now w (Ret rv) type = commit_reply cfg sess w1 tx' (Command_fmtLongLong (zlen out)) /\
        match ls with
        | [] => gone cfg sess chunkId pk tx'
        | _ => exists rv' meta', stored cfg sess chunkId pk tx' rv' meta' ls /\ rv_ttl rv' = rv_ttl rv
        end
  end.
Proof.
  intros (_ & (Hwf & Hty) & Hdec & Hl & Hh) Hep Hpre Ew. assert (tx_done tx = false) as Hd by apply Hl. unfold genericZremrange, zremrange_work. rewrite Ew, bind_Ret. cbn [meta_or_none].
  rewrite bind_Ret, Hdec, bind_Ret. unfold txn_access. rewrite Hd.
  assert (zlen l < 2 ^ 31 /\ u32 (SkipList_getCount (list_of mk meta) - 1) = zlen l) as [Hlen Ec].
  { destruct Hl as ((_ & xs & R & <-) & _). rewrite zlen_members. destruct (sr_count _ _ _ _ R) as [E1 E2]. change (INT32_MAX / 2) with 1073741823 in E2.
    unfold SkipList_getCount. pose proof (zlen_nonneg xs). rewrite E1, wrap_id by (unfold is_u; lia). lia. }
  destruct (rem_op type l) as [o|] eqn:Eop.
  - destruct (rem_op_spec type l o Eop Hpre) as (Hr & Hp & Es). rewrite Es. pose proof (zremrange_perm _ _ _ _ Es) as Hpm.
    destruct (range_removed tx (list_of mk meta) l o (snd (op_spec l o)) (fst (op_spec l o)) rv now) as (tx' & E & Hs); try done.
    { by destruct (op_spec l o). }
    exists tx'. split; [|done]. destruct type as [start end_|range|range]; cbn [rem_op] in Eop; rewrite ?Ec.
    + destruct (clip_range (zlen l) start end_) as [[s e]|] eqn:Ecl; [|done]. apply clip_range_bounds in Ecl as [? ?]; [|apply zlen_nonneg].
      rewrite !wrap_id by (unfold is_u; lia). injection Eop as <-. cbn [op_run] in E. by rewrite bind_Ret, E, bind_Ret.
    + injection Eop as <-. cbn [op_run] in E. by rewrite bind_Ret, E, bind_Ret.
    + injection Eop as <-. cbn [op_run] in E. by rewrite bind_Ret, E, bind_Ret.
  - destruct type as [start end_|range|range]; cbn [rem_op zremrange_spec] in *; [|done..]. rewrite Ec.
    destruct (clip_range (zlen l) start end_) as [[s e]|]; [done|]. by rewrite bind_Ret.
Qed.

(** ** Limits of ZADD *)

Lemma zadd_spec_xx flags es : has_flag flags ZADD_XX = true -> zadd_spec flags [] es = ([], 0, 0).
Proof.
  intros Hx. induction es as [|e es IH]; [done|]. cbn [zadd_spec]. unfold zadd_set, zadd_effect. cbn [zset_find]. rewrite Hx, IH. done.
Qed.

Lemma zadd_pre_xx flags es :
  has_flag flags ZADD_XX = true -> Forall (fun e => is_u64 (snd e) /\ zlen (fst e) <= 2 ^ 61 /\ dbl_nan (snd e) = false) es -> zadd_pre flags [] es.
Proof.
  intros Hx. induction 1 as [|e es (Hu & Hk & Hn) _ IH]; [done|]. cbn [zadd_pre]. unfold zadd_set, zadd_effect, zadd_score. cbn [zset_find].
  by rewrite Hx.
Qed.

(** ZADD with XX where there is no set, which is to add nothing, writes the meta record and the
    head of an empty list: the key exists afterwards, and ZCARD, which takes a set for non-empty,
    aborts on it in a debug build. *)
Theorem zadd_xx_creates tx msg es flags draws now :
  hash_ok tx [] -> writable tx -> is_u64 (sc_versionEP sess) -> zlen es < INT32_MAX / 2 ->
  has_flag flags ZADD_XX = true -> has_flag flags ZADD_NX = false -> has_flag flags ZADD_INCR = false ->
  Forall (fun e => is_u64 (snd e) /\ zlen (fst e) <= 2 ^ 61 /\ dbl_nan (snd e) = false) es ->
  exists tx' rv meta, genericZadd cfg sess mk now (Throw ERR_NOTFOUND msg) es flags draws tx = Ret (tx', Command_fmtLongLong 0) /\
    stored cfg sess chunkId pk tx' rv meta [] /\
    ZCard_run rv = if novadb_DEBUG then Crash CInvariant else Ret (Command_fmtLongLong 0).
Proof.
  intros Hh Hw Hep Hc Hx Hnx Hin He. pose proof (zlen_nonneg es). change (INT32_MAX / 2) with 1073741823 in Hc.
  destruct (zadd_ok tx (Throw ERR_NOTFOUND msg) [] es flags draws now) as (tx' & rv & meta & E & Hs & _); try done.
  { split; [by left|]. split; [done|]. split; [done|]. split; [done|]. unfold MIN_POS, SKIPLIST_INVALID_POS. lia. }
  { by rewrite Hnx. }
  { by rewrite Hin. }
  { by apply zadd_pre_xx. }
  unfold zadd_reply in E. rewrite (zadd_spec_xx flags es Hx) in E, Hs. rewrite Hin in E. exists tx', rv, meta.
  split; [by destruct (has_flag flags ZADD_CH)|]. split; [done|]. destruct Hs as (_ & _ & Hdec & ((_ & xs & R & E0) & _) & _).
  unfold ZCard_run, INVARIANT_D. destruct (sr_count _ _ _ _ R) as [Ecn _]. cbn in Ecn. rewrite <-(zlen_members xs), E0 in Ecn.
  rewrite Hdec, bind_Ret, Ecn. cbn. by destruct novadb_DEBUG.
Qed.

(** ZINCRBY by an amount that does not change the score, zero or one lost in rounding, answers
    null although the member exists, instead of its score; the set stays. *)
Theorem zincrby_same_null tx rv meta l key s old draws now :
  stored cfg sess chunkId pk tx rv meta l -> is_u64 (sc_versionEP sess) ->
  zlen l + 1 < INT32_MAX / 2 -> zm_posAlloc meta + 1 < SKIPLIST_INVALID_POS ->
  is_u64 s -> zlen key <= 2 ^ 61 -> dbl_nan s = false -> zset_find key l = Some old -> dbl_eq (dbl_add s old) old = true ->
  exists tx' rv' meta', genericZadd cfg sess mk now (Ret rv) [(key, s)] ZADD_INCR draws tx = Ret (tx', Command_fmtNull) /\
    stored cfg sess chunkId pk tx' rv' meta' l.
Proof.
  intros Hs Hep Hc Ha Hu Hk Hn Hf He.
  assert (zadd_score ZADD_INCR l (key, s) = dbl_add s old) as Esc by (unfold zadd_score; cbn [fst snd]; by rewrite Hf).
  assert (zadd_effect ZADD_INCR l (key, s) = ZNone) as Eef by (unfold zadd_effect; cbn [fst]; rewrite Hf, Esc, He; done).
  destruct (zadd_ok tx (Ret rv) l [(key, s)] ZADD_INCR draws now) as (tx' & rv' & meta' & E & Hs' & _); try done.
  { by exists meta. }
  { split; [|done]. split; [done|]. split; [done|]. split; [done|]. rewrite Esc. unfold dbl_eq in He. by destruct (dbl_nan (dbl_add s old)). }
  exists tx', rv', meta'. unfold zadd_reply, zadd_set in *. cbn [zadd_spec fst] in *. unfold zadd_set in *. rewrite Eef in *. done.
Qed.

End Zset.

(** * The retry of a commit *)

Section Retry.
Context {BM : BuildMode} {T : Type} `{RocksDB T}.
Variable cfg : StoreCfg.
Variable sess : SessionCtx.
Variable mk : RecordKey.
Variable now : Z.

(** A commit that fails leaves its transaction, done, in the session. *)
Lemma commit_reply_failed w (tx : RocksTxn T) reply w' c msg :
  commit_reply cfg sess w tx reply = Ret (w', Throw c msg) -> exists tx', w_txn w' = Some tx' /\ tx_done tx' = true.
Proof.
  unfold commit_reply, SessionCtx_commitTransaction. intros ([w2 e] & E & [= -> Er])%bind_Ret_inv.
  apply bind_Ret_inv in E as (_ & _ & E). apply bind_Ret_inv in E as ([[ks db] r] & _ & E).
  destruct r; injection E as <- <-; [done|by eexists|done].
Qed.

(** When the commit of ZREM meets a conflict, the retry of the command takes the transaction
    that the session still has, which is done: it goes through a null pointer instead of running
    again in a new transaction. *)
Theorem zrem_retry_undefined (w w' : World (T := T)) rv meta keys msg :
  ZSlMetaValue_decode (rv_value rv) = Ret meta ->
  genericZrem cfg sess mk now w (Ret rv) keys = Ret (w', Throw ERR_COMMIT_RETRY msg) ->
  ZRem_run cfg sess mk now w (Ret rv) keys = Crash CUndefined.
Proof.
  intros Hdec E. unfold ZRem_run, RETRY_CNT. cbn [retry]. rewrite E, bind_Ret. cbn [Nat.eqb].
  assert (exists tx', w_txn w' = Some tx' /\ tx_done tx' = true) as (tx' & Etx & Hd).
  { unfold genericZrem in E. apply bind_Ret_inv in E as ([w1 tx] & _ & E). cbn [meta_or_none] in E. rewrite bind_Ret in E.
    apply bind_Ret_inv in E as ([tx1 cnt] & _ & E). by eapply commit_reply_failed. }
  unfold genericZrem, SessionCtx_createTransaction, zrem_work, txn_access. rewrite Etx, bind_Ret. cbn [meta_or_none].
  by rewrite bind_Ret, Hdec, bind_Ret, Hd.
Qed.

End Retry.

(** * A set over the database of Replicate.v *)

#[local] Instance demo_debug : BuildMode := true.

Definition demo_sess : SessionCtx := mkSess 0 7 false (lit "zadd").

(** The set s of database 0 in chunk 5. *)
Definition demo_key : RecordKey := zset_key demo_sess 5 (lit "s").

(** A transaction on an empty database. *)
Definition demo_txn : RocksTxn MemDB := RocksTxn_new 1 false ∅.

Definition demo_draws (_ n : nat) : Z := if Nat.ltb n 2 then 0 else 1.

Definition demo_es : list (bytes * Z) := [(lit "a", d2); (lit "b", d2); (lit "c", d1)].

Lemma demo_found n : n < 2 ^ 60 -> zset_found demo_cfg demo_sess 5 (lit "s") demo_txn (Throw ERR_NOTFOUND []) [] n.
Proof.
  intros Hn. split; [by left|]. split; [done|]. split; [|split; [by vm_compute|unfold MIN_POS, SKIPLIST_INVALID_POS; lia]].
  intros key Hk. cbn [zset_find]. apply getKV_none; [by apply hk_data|].
  unfold raw_record, demo_txn. destruct (RecordKey_encode _); [|done..]. by rewrite mem_read.
Qed.

(** [zadd_pre], computed. *)
Fixpoint zadd_preb (flags : Z) (l : list member) (es : list (bytes * Z)) : bool :=
  match es with
  | [] => true
  | e :: es' =>
      bool_decide (is_u64 (snd e)) && bool_decide (zlen (fst e) <= 2 ^ 61) && negb (dbl_nan (snd e)) &&
      negb (dbl_nan (zadd_score flags l e)) && zadd_preb flags (zadd_set flags l e) es'
  end.

Lemma zadd_preb_pre flags es : forall l, zadd_preb flags l es = true -> zadd_pre flags l es.
Proof.
  induction es as [|e es IH]; intros l; [done|]. cbn [zadd_preb zadd_pre]. rewrite !andb_true_iff, !bool_decide_eq_true, !negb_true_iff.
  intros [[[[? ?] ?] ?] ?]. split; [done|by apply IH].
Qed.

Lemma zadd_correct_witness :
  exists tx' rv meta,
    genericZadd demo_cfg demo_sess demo_key 0 (Throw ERR_NOTFOUND []) demo_es 0 demo_draws demo_txn = Ret (tx', lit ":3" ++ crlf) /\
    stored demo_cfg demo_sess 5 (lit "s") tx' rv meta demo_set /\ rv_ttl rv = 0.
Proof.
  destruct (zadd_correct demo_cfg demo_sess 5 (lit "s") eq_refl ltac:(done) ltac:(done) ltac:(done) demo_txn (Throw ERR_NOTFOUND []) [] demo_es 0 demo_draws 0)
    as (tx' & rv & meta & E & Hs & Ht).
  - by apply demo_found.
  - done.
  - done.
  - done.
  - apply zadd_preb_pre. by vm_compute.
  - done.
  - replace (fst (fst (zadd_spec 0 [] demo_es))) with demo_set in Hs by (by vm_compute).
    replace (zadd_reply 0 [] demo_es) with (lit ":3" ++ crlf) in E by (by vm_compute).
    exists tx', rv, meta. split; [exact E|]. split; [exact Hs|exact Ht].
Defined.

(** The set of the three members, in its transaction. *)
Definition demo_tx1 : RocksTxn MemDB :=
  match genericZadd demo_cfg demo_sess demo_key 0 (Throw ERR_NOTFOUND []) demo_es 0 demo_draws demo_txn with Ret (tx, _) => tx | _ => demo_txn end.

Definition demo_rv : RecordValue :=
  match RocksKVStore_getKV demo_cfg demo_key demo_tx1 with Ret rv => rv | _ => RecordValue_new [] RT_KV 0 0 0 0 0 end.

Definition demo_meta : ZSlMetaValue :=
  match ZSlMetaValue_decode (rv_value demo_rv) with Ret m => m | _ => ZSlMetaValue_new 1 1 0 end.

Lemma demo_stored : stored demo_cfg demo_sess 5 (lit "s") demo_tx1 demo_rv demo_meta demo_set.
Proof.
  destruct (zadd_ok demo_cfg demo_sess 5 (lit "s") eq_refl ltac:(done) ltac:(done) ltac:(done) demo_txn (Throw ERR_NOTFOUND []) [] demo_es 0 demo_draws 0)
    as (tx' & rv & meta & E & Hs & _); [by apply demo_found|done|done|done|apply zadd_preb_pre; by vm_compute|done|].
  replace (fst (fst (zadd_spec 0 [] demo_es))) with demo_set in Hs by (by vm_compute).
  pose proof Hs as (Eg & _ & Ed & _). assert (demo_tx1 = tx') as Et by (unfold demo_tx1, demo_key; by rewrite E).
  assert (demo_rv = rv) as Er by (unfold demo_rv, demo_key; rewrite Et; by rewrite Eg).
  assert (demo_meta = meta) as Em by (unfold demo_meta; rewrite Er; by rewrite Ed).
  rewrite Et, Er, Em. exact Hs.
Qed.

(** A session that has this transaction open. *)
Definition demo_world : World := mkWorld (sy_store demo_master) ∅ (Some demo_tx1).

Lemma zrem_correct_witness :
  exists tx', genericZrem demo_cfg demo_sess demo_key 0 demo_world (Ret demo_rv) [lit "b"; lit "x"; lit "b"] =
      commit_reply demo_cfg demo_sess demo_world tx' (Command_fmtLongLong 1) /\
    exists rv' meta', stored demo_cfg demo_sess 5 (lit "s") tx' rv' meta' [(d1, lit "c"); (d2, lit "a")].
Proof.
  destruct (zrem_correct demo_cfg demo_sess 5 (lit "s") eq_refl ltac:(done) ltac:(done) ltac:(done) demo_tx1 demo_rv demo_meta demo_set
    [lit "b"; lit "x"; lit "b"] 0 demo_world demo_world) as (tx' & E & Hs).
  - exact demo_stored.
  - done.
  - apply (bool_decide_unpack _). by vm_compute.
  - reflexivity.
  - replace (zrem_keys [lit "b"; lit "x"; lit "b"] demo_set) with [(d1, lit "c"); (d2, lit "a")] in * by (by vm_compute).
    destruct Hs as (rv' & meta' & Hs & _). exists tx'. split; [exact E|]. exists rv', meta'. exact Hs.
Defined.

Lemma zremrange_correct_witness :
  exists tx', genericZremrange demo_cfg demo_sess demo_key 0 demo_world (Ret demo_rv) (REM_RANK 0 (-1)) =
      commit_reply demo_cfg demo_sess demo_world tx' (Command_fmtLongLong 3) /\ gone demo_cfg demo_sess 5 (lit "s") tx'.
Proof.
  pose proof (zremrange_correct demo_cfg demo_sess 5 (lit "s") eq_refl ltac:(done) ltac:(done) ltac:(done) demo_tx1 demo_rv demo_meta demo_set
    (REM_RANK 0 (-1)) 0 demo_world demo_world demo_stored ltac:(done) I eq_refl) as Hs.
  replace (zremrange_spec (REM_RANK 0 (-1)) demo_set) with (Some (demo_set, [] : list member)) in Hs by (by vm_compute).
  destruct Hs as (tx' & E & Hg). exists tx'. split; [exact E|exact Hg].
Defined.

Lemma zadd_xx_creates_witness :
  exists tx' rv meta,
    genericZadd demo_cfg demo_sess demo_key 0 (Throw ERR_NOTFOUND []) demo_es ZADD_XX demo_draws demo_txn = Ret (tx', Command_fmtLongLong 0) /\
    stored demo_cfg demo_sess 5 (lit "s") tx' rv meta [] /\ ZCard_run rv = Crash CInvariant.
Proof.
  destruct (zadd_xx_creates demo_cfg demo_sess 5 (lit "s") eq_refl ltac:(done) ltac:(done) ltac:(done) demo_txn [] demo_es ZADD_XX demo_draws 0)
    as (tx' & rv & meta & E & Hs & Ec).
  - destruct (demo_found 0) as (_ & _ & Hh & _); [done|exact Hh].
  - by vm_compute.
  - done.
  - done.
  - done.
  - done.
  - done.
  - apply (bool_decide_unpack _). by vm_compute.
  - exists tx', rv, meta. split; [exact E|]. split; [exact Hs|exact Ec].
Defined.

Lemma zincrby_same_null_witness :
  exists tx' rv' meta', genericZadd demo_cfg demo_sess demo_key 0 (Ret demo_rv) [(lit "b", 0)] ZADD_INCR demo_draws demo_tx1 = Ret (tx', Command_fmtNull) /\
    stored demo_cfg demo_sess 5 (lit "s") tx' rv' meta' demo_set.
Proof.
  apply (zincrby_same_null demo_cfg demo_sess 5 (lit "s") eq_refl ltac:(done) ltac:(done) ltac:(done) demo_tx1 demo_rv demo_meta demo_set (lit "b") 0 d2 demo_draws 0).
  - exact demo_stored.
  - done.
  - done.
  - apply (bool_decide_unpack _). by vm_compute.
  - done.
  - done.
  - done.
  - by vm_compute.
  - by vm_compute.
Defined.

Definition busy_zrem : M (World * M bytes) :=
  @genericZrem demo_debug MemDB busy_db demo_cfg demo_sess demo_key 0 demo_world (Ret demo_rv) [lit "b"].

Lemma zrem_retry_undefined_witness :
  exists w' msg, busy_zrem = Ret (w', Throw ERR_COMMIT_RETRY msg) /\
    @ZRem_run demo_debug MemDB busy_db demo_cfg demo_sess demo_key 0 demo_world (Ret demo_rv) [lit "b"] = Crash CUndefined.
Proof.
  assert (match busy_zrem with Ret (_, Throw ERR_COMMIT_RETRY _) => true | _ => false end = true) as Hb by (by vm_compute).
  destruct busy_zrem as [[w' r]|c m|c] eqn:E; [|discriminate Hb..]. destruct r as [s|c msg|c]; [discriminate Hb| |discriminate Hb].
  destruct c; try discriminate Hb. exists w', msg. split; [reflexivity|].
  destruct demo_stored as (_ & _ & Hdec & _). exact (@zrem_retry_undefined demo_debug MemDB busy_db demo_cfg demo_sess demo_key 0 demo_world w' demo_rv demo_meta [lit "b"] msg Hdec E).
Defined.
