(* ===== verification/ZsetRead.v ===== *)
(** What the commands that read a sorted set (commands/zset.cpp) answer. *)

From Stdlib Require Import Strings.Byte ZArith Lia.
From stdpp Require Import base list numbers strings gmap sorting.
From S2P Require Import Prelude Status Varint Record RecordValue RecordMeta ReplLog BinlogSeq Txn Store Replicate SkipList SkipListRep.
From S2P Require Import SkipListRead SkipListWrite SkipListRemove SkipListSave SkipListKeep SkipListSpec Double Command Elems Zset ZsetRep ZsetSpec.

Local Open Scope Z_scope.

Section Count.
Context {BM : BuildMode} {T : Type} `{RocksDB T}.
Variable cfg : StoreCfg.
Variable tx : RocksTxn T.

(** The rank of a node that a search has left in the cache. *)
Lemma rank_of_cached sl xs A b B :
  sl_rep cfg tx sl xs -> zset_ok (members xs) -> xs = A ++ b :: B -> in_cache sl (an_pos b) ->
  exists e sl', SkipList_getCacheNode sl (an_pos b) = Ret e /\ SkipList_rank cfg sl tx (ze_score e) (ze_subKey e) = Ret (sl', zlen A + 1) /\
    loaded cfg tx sl sl'.
Proof.
  intros R Hz E [e Ce]. pose proof (cached_nodes cfg _ tx _ _ Ce) as He. unfold cached in Ce. pose proof (sr_nodes _ _ _ _ R) as Hn. rewrite E in Hn.
  apply Forall_mid in Hn as (e' & He' & _ & Hs & Hk). rewrite He in He'. injection He' as <-.
  destruct (rank_ok cfg tx sl xs A b B (ze_score e) (ze_subKey e) R Hz E) as (sl' & Er & Hl); [|by rewrite Hs|done|].
  { rewrite Hs. apply (zset_nan xs b Hz). rewrite E. apply elem_of_app. right. left. }
  exists e, sl'. split; [|done]. unfold SkipList_getCacheNode. by destruct (sl_cache sl !! an_pos b).
Qed.

(** The members between the two ends. *)
Lemma count_between (g h : member -> bool) xs A b X Y C :
  xs = A ++ b :: X -> xs = Y ++ C -> Forall (fun a => g (mem a) = false) A -> Forall (fun a => g (mem a) = true) (b :: X) ->
  Forall (fun a => h (mem a) = true) Y -> Forall (fun a => h (mem a) = false) C -> both g h (mem b) = true ->
  zlen (List.filter (both g h) (members xs)) = zlen Y - zlen A.
Proof.
  intros E1 E2 HA HX HY HC Hb. rewrite E1 in E2. apply app_eq_inv in E2 as [(k & -> & EC)|(M & -> & EM)].
  - rewrite EC in HC. apply Forall_mid in HC. unfold both in Hb. rewrite HC, andb_false_r in Hb. done.
  - rewrite E1, EM in *. apply Forall_app in HX as [HM _]. apply Forall_app in HY as [_ HM'].
    rewrite !members_app, !List.filter_app, (filter_none (both g h) A) by (by apply Forall_both_g).
    rewrite (filter_none (both g h) C) by (by apply Forall_both_h). rewrite app_nil_r. cbn [app].
    rewrite filter_id_all; [rewrite zlen_members, zlen_app; lia|]. apply Forall_map. rewrite Forall_forall in *. intros a Ha.
    pose proof (HM a Ha) as E1'. pose proof (HM' a Ha) as E2'. unfold both. cbn in *. by rewrite E1', E2'.
Qed.

(** A search for an end of a range, whatever has been read of the list. *)
Definition finds (sl : SkipList) (xs ys : list anode) (g h p : member -> bool) (search : SkipList -> M (SkipList * Z)) : Prop :=
  forall sl1, loaded cfg tx sl sl1 -> exists sl2 pos, search sl1 = Ret (sl2, pos) /\ loaded cfg tx sl1 sl2 /\ found_start g h ys p sl2 pos.

Lemma count_range_ok sl xs g h first last :
  sl_rep cfg tx sl xs -> zset_ok (members xs) -> finds sl xs xs g h g first -> finds sl xs (rev xs) g h h last ->
  count_range cfg sl tx first last = Ret (Command_fmtLongLong (zlen (List.filter (both g h) (members xs)))).
Proof.
  intros R Hz Hfirst Hlast. unfold count_range. destruct (Hfirst sl (loaded_refl _ _ _)) as (sl1 & f & -> & Hl1 & Hf). rewrite bind_Ret.
  destruct (sr_count _ _ _ _ R) as [Ec Em]. change (INT32_MAX / 2) with 1073741823 in Em. pose proof (zlen_nonneg xs).
  assert (forall b, b ∈ xs -> an_pos b <> SKIPLIST_INVALID_POS) as Hpos.
  { intros b Hb. pose proof (sr_pos _ _ _ _ R) as Hp. rewrite Forall_forall in Hp. apply Hp in Hb. pose proof (sr_alloc _ _ _ _ R). lia. }
  destruct Hf as [[-> Hnone]|(A & b & X & E & -> & Cb & HA & HX & Hb)]; [rewrite Z.eqb_refl; by rewrite (filter_none _ xs Hnone)|].
  assert (b ∈ xs) as Hbx by (rewrite E; apply elem_of_app; right; left). destruct (Z.eqb_spec (an_pos b) SKIPLIST_INVALID_POS); [by destruct (Hpos b)|].
  pose proof (rep_loaded _ _ _ _ _ R Hl1) as R1. destruct (rank_of_cached sl1 xs A b X R1 Hz E Cb) as (e & sl2 & -> & Er & Hl2). rewrite bind_Ret, Er, bind_Ret.
  assert (loaded cfg tx sl sl2) as Hl02 by (by eapply loaded_trans). destruct (Hlast sl2 Hl02) as (sl3 & l & -> & Hl3 & Hf'). rewrite bind_Ret.
  destruct Hf' as [[-> Hnone]|(A' & b' & X' & E' & -> & Cb' & HA' & HX' & _)].
  { exfalso. apply Forall_rev in Hnone. rewrite rev_involutive, E in Hnone. apply Forall_mid in Hnone. congruence. }
  assert (xs = rev X' ++ b' :: rev A') as E2 by (rewrite <-(rev_involutive xs), E', rev_app_distr; cbn [rev]; by rewrite <-app_assoc).
  assert (b' ∈ xs) as Hbx' by (rewrite E2; apply elem_of_app; right; left). destruct (Z.eqb_spec (an_pos b') SKIPLIST_INVALID_POS); [by destruct (Hpos b')|].
  assert (loaded cfg tx sl sl3) as Hl03 by (by eapply loaded_trans). pose proof (rep_loaded _ _ _ _ _ R Hl03) as R3.
  destruct (rank_of_cached sl3 xs (rev X') b' (rev A') R3 Hz E2 Cb') as (e' & sl4 & -> & Er' & Hl4). rewrite bind_Ret, Er', bind_Ret.
  assert (zlen (List.filter (both g h) (members xs)) = zlen (rev X' ++ [b']) - zlen A) as Ecnt.
  { apply (count_between g h xs A b X (rev X' ++ [b']) (rev A') E); [by rewrite <-app_assoc|done|done|..|done].
    - apply Forall_app. inversion HX'; subst. split; [by apply Forall_rev|by constructor].
    - by apply Forall_rev. }
  pose proof (zlen_nonneg (List.filter (both g h) (members xs))) as Hnn. rewrite Ecnt, zlen_app, zlen_cons, zlen_nil in *. unfold SkipList_getCount.
  assert (sl_count sl2 = sl_count sl /\ sl_count sl4 = sl_count sl) as [-> ->].
  { split; [by destruct Hl02 as (c & -> & _)|]. destruct (loaded_trans _ _ _ _ _ Hl03 Hl4) as (c & -> & _). done. }
  assert (zlen xs = zlen A + 1 + zlen X /\ zlen xs = zlen (rev X') + 1 + zlen (rev A')) as [L1 L2].
  { split; [rewrite E at 1|rewrite E2 at 1]; rewrite zlen_app, zlen_cons; lia. }
  pose proof (zlen_nonneg A). pose proof (zlen_nonneg X). pose proof (zlen_nonneg (rev X')). pose proof (zlen_nonneg (rev A')).
  do 2 f_equal. rewrite Ec, (wrap_id 32 (1 + zlen xs - 1 - _)) by (unfold is_u; lia). rewrite wrap_id by (unfold is_u; lia). lia.
Qed.

End Count.

Section Reads.
Context {BM : BuildMode} {T : Type} `{RocksDBLaws T} {HH : RocksDBHealthy T}.
Variable cfg : StoreCfg.
Variable sess : SessionCtx.
Variables (chunkId : Z) (pk : bytes).

#[local] Abbreviation mk := (zset_key sess chunkId pk).

(** The set that a session reads, and the world once it has its transaction. *)
Definition reads (w w1 : World) (tx : RocksTxn T) (rv : RecordValue) (l : list member) : Prop :=
  SessionCtx_createTransaction sess w = Ret (w1, tx) /\ exists meta, stored cfg sess chunkId pk tx rv meta l.

Lemma reads_list w w1 tx rv l :
  reads w w1 tx rv l ->
  exists meta xs, open_list sess mk w rv = Ret (w1, tx, list_of mk meta) /\ txn_access tx = Ret tt /\ zset_ok l /\
    sl_rep cfg tx (list_of mk meta) xs /\ members xs = l /\ u32 (SkipList_getCount (list_of mk meta) - 1) = zlen l.
Proof.
  intros (Ew & meta & _ & _ & Hdec & ((Hz & xs & R & E) & _ & Hw) & _). assert (tx_done tx = false) as Hd by apply Hw. exists meta, xs. unfold open_list, txn_access. rewrite Ew, Hd, bind_Ret, Hdec, bind_Ret.
  split; [done|]. split; [done|]. split; [done|]. split; [done|]. split; [done|]. destruct (sr_count _ _ _ _ R) as [E1 E2]. change (INT32_MAX / 2) with 1073741823 in E2.
  unfold SkipList_getCount. pose proof (zlen_nonneg xs). rewrite <-E, zlen_members, E1, wrap_id by (unfold is_u; lia). lia.
Qed.

(** ZCOUNT and ZLEXCOUNT, computed from the ranks of the ends of the range, are the number of
    members in the range. *)
Theorem zcount_correct w w1 tx rv l range lexrange :
  reads w w1 tx rv l ->
  ZCount_run cfg sess mk w rv range = Ret (w1, Command_fmtLongLong (zlen (List.filter (score_in range) l))) /\
  (same_score l -> Forall plain l ->
   ZlexCount_run cfg sess mk w rv lexrange = Ret (w1, Command_fmtLongLong (zlen (List.filter (lex_in lexrange) l)))).
Proof.
  intros Hr. destruct (reads_list _ _ _ _ _ Hr) as (meta & xs & Eo & Ea & Hz & R & <- & _). unfold ZCount_run, ZlexCount_run. rewrite Eo.
  split; [|intros Hs Hp]; rewrite bind_Ret, Ea, bind_Ret.
  - rewrite (count_range_ok cfg tx _ xs (fun x => zslValueGteMin (fst x) range) (fun x => zslValueLteMax (fst x) range)); [done|done|done|..];
      intros sl1 Hl; by apply (scoreRange_ends cfg tx sl1 xs range); [eapply rep_loaded|].
  - rewrite (count_range_ok cfg tx _ xs (fun x => zslLexValueGteMin (snd x) lexrange) (fun x => zslLexValueLteMax (snd x) lexrange)); [done|done|done|..];
      intros sl1 Hl; by apply (lexRange_ends cfg tx sl1 xs lexrange); [eapply rep_loaded|..].
Qed.

(** ZRANGE, ZREVRANGE, ZRANGEBYSCORE, ZREVRANGEBYSCORE, ZRANGEBYLEX and ZREVRANGEBYLEX answer
    with the members of the range in the order of the set or backwards, with the offset, the
    limit and the scores asked for; negative ranks count from the end. *)
Theorem zrange_correct w w1 tx rv l start end_ range lexrange offset limit (withscore rv' : bool) :
  reads w w1 tx rv l -> 0 <= offset -> 0 <= limit ->
  let order := if rv' then rev l else l in
  ZRange_run cfg sess mk w rv start end_ withscore rv' =
    Ret (w1, match clip_range (zlen l) start end_ with
             | None => Command_fmtZeroBulkLen
             | Some (s, e) => members_reply withscore (ztake (e - s + 1) (zdrop s order))
             end) /\
  ZRangeByScore_run cfg sess mk w rv range offset limit withscore rv' =
    Ret (w1, members_reply withscore (ztake limit (zdrop offset (List.filter (score_in range) order)))) /\
  (same_score l -> Forall plain l ->
   ZRangeByLex_run cfg sess mk w rv lexrange offset limit rv' =
     Ret (w1, members_reply false (ztake limit (zdrop offset (List.filter (lex_in lexrange) order))))).
Proof.
  intros Hr Ho Hli order. destruct (reads_list _ _ _ _ _ Hr) as (meta & xs & Eo & Ea & Hz & R & <- & Ec).
  unfold ZRange_run, ZRangeByScore_run, ZRangeByLex_run. rewrite Eo.
  split; [|split; [|intros Hs Hp]]; rewrite bind_Ret, ?Ec, ?Ea.
  - destruct (clip_range (zlen (members xs)) start end_) as [[s e]|] eqn:Ecl; [|done]. apply clip_range_bounds in Ecl as [Hs He]; [|apply zlen_nonneg].
    rewrite zlen_members in He. destruct (scanByRank_ok cfg tx _ xs s (e - s + 1) rv' R) as (sl' & E & _); [lia|lia|lia|]. by rewrite bind_Ret, E, bind_Ret.
  - rewrite bind_Ret. destruct (scanByScore_ok cfg tx _ xs range offset limit rv' R Hz Ho Hli) as (sl' & E & _). by rewrite E, bind_Ret.
  - rewrite bind_Ret. destruct (scanByLex_ok cfg tx _ xs lexrange offset limit rv' R Hz Hs Hp Ho Hli) as (sl' & E & _). by rewrite E, bind_Ret.
Qed.

(** ZSCORE answers with the score of a member, ZRANK with the number of members before it,
    ZREVRANK with the number after it, each with null for a key that is no member, and ZCARD with
    the size of a set that has members. *)
Theorem zrank_correct w w1 tx rv l key :
  reads w w1 tx rv l -> zlen key <= 2 ^ 61 ->
  match zset_find key l with
  | None =>
      ZScore_run cfg sess mk w key = Ret (w1, Command_fmtNull) /\
      forall rev, genericZRank cfg sess mk w rv key rev = Ret (w1, Command_fmtNull)
  | Some s =>
      ZScore_run cfg sess mk w key = Ret (w1, Command_fmtBulk (dtos s)) /\
      exists A B, l = A ++ (s, key) :: B /\
        genericZRank cfg sess mk w rv key false = Ret (w1, Command_fmtLongLong (zlen A)) /\
        genericZRank cfg sess mk w rv key true = Ret (w1, Command_fmtLongLong (zlen B)) /\
        ZCard_run rv = Ret (Command_fmtLongLong (zlen l))
  end.
Proof.
  intros (Ew & meta & _ & _ & Hdec & ((Hz & xs & R & E) & _ & Hw) & Hh) Hk. assert (tx_done tx = false) as Hd by apply Hw. unfold ZScore_run, genericZRank, txn_access. rewrite Ew.
  change (RecordKey_new (rk_chunkId mk) (rk_dbId mk) RT_ZSET_H_ELE (rk_pk mk) key 0) with (hk sess chunkId pk key). fold (hk sess chunkId pk key).
  destruct (find_record_at cfg sess chunkId pk tx key _ (Hh key Hk)) as (r & Er & Hr). destruct (zset_find key l) as [s|] eqn:Ef.
  2:{ subst r. split; [|intros rev]; rewrite bind_Ret, Hd, bind_Ret, Er; by rewrite bind_Ret. }
  destruct Hr as (rv1 & -> & Es). split; [rewrite bind_Ret, Hd, bind_Ret, Er, bind_Ret, Es; by rewrite bind_Ret|].
  apply zset_find_Some in Ef. apply list_elem_of_split in Ef as (A & B & El). exists A, B. split; [done|].
  pose proof E as E'. rewrite El in E'. destruct (members_split _ _ _ _ E') as (A' & a & B' & Exs & EA & Ea & EB). injection Ea as Hs Hk'.
  destruct (sr_count _ _ _ _ R) as [Ec Em]. change (INT32_MAX / 2) with 1073741823 in Em. cbn in Ec, Em.
  assert (zlen xs = zlen A' + 1 + zlen B' /\ zlen A' = zlen A /\ zlen B' = zlen B) as (L1 & L2 & L3).
  { rewrite <-EA, <-EB, !zlen_members, Exs, zlen_app, zlen_cons. lia. }
  pose proof (zlen_nonneg A). pose proof (zlen_nonneg B). rewrite <-E in Hz.
  destruct (rank_ok cfg tx (list_of mk meta) xs A' a B' s key R Hz Exs) as (sl' & Erk & _); [|by rewrite Hs|done|].
  { rewrite <-Hs. apply (zset_nan xs a Hz). rewrite Exs. apply elem_of_app. right. left. }
  split; [|split].
  - rewrite bind_Ret, Hd, bind_Ret, Er, bind_Ret, Es, bind_Ret, Hdec, bind_Ret, Erk, bind_Ret. cbn zeta. rewrite wrap_id by (unfold is_u; lia). inv_d by lia. do 3 f_equal. lia.
  - rewrite bind_Ret, Hd, bind_Ret, Er, bind_Ret, Es, bind_Ret, Hdec, bind_Ret, Erk, bind_Ret. cbn zeta. rewrite !wrap_id by (unfold is_u; lia). inv_d by lia. do 3 f_equal. lia.
  - unfold ZCard_run. rewrite Hdec, bind_Ret. inv_d by lia. rewrite wrap_id by (unfold is_u; lia). rewrite <-E, zlen_members. do 2 f_equal. lia.
Qed.

End Reads.

(** * The set of ZsetSpec.v *)

#[local] Instance demo_mode : BuildMode := true.

Lemma demo_reads : reads demo_cfg demo_sess 5 (lit "s") demo_world demo_world demo_tx1 demo_rv demo_set.
Proof. split; [reflexivity|]. exists demo_meta. exact demo_stored. Qed.

Lemma zcount_correct_witness :
  ZCount_run demo_cfg demo_sess demo_key demo_world demo_rv (mkRange d1 d2 true false) = Ret (demo_world, Command_fmtLongLong 2).
Proof.
  destruct (zcount_correct demo_cfg demo_sess 5 (lit "s") demo_world demo_world demo_tx1 demo_rv demo_set (mkRange d1 d2 true false) (mkLexRange [] [] false false) demo_reads) as [E _].
  replace (zlen (List.filter (score_in (mkRange d1 d2 true false)) demo_set)) with 2 in E by (by vm_compute). exact E.
Defined.

Lemma zrange_correct_witness :
  ZRange_run demo_cfg demo_sess demo_key demo_world demo_rv (-2) (-1) false true =
    Ret (demo_world, lit "*2" ++ crlf ++ lit "$1" ++ crlf ++ lit "a" ++ crlf ++ lit "$1" ++ crlf ++ lit "c" ++ crlf).
Proof.
  destruct (zrange_correct demo_cfg demo_sess 5 (lit "s") demo_world demo_world demo_tx1 demo_rv demo_set (-2) (-1) (mkRange d1 d2 true false)
    (mkLexRange [] [] false false) 0 10 false true demo_reads) as [E _]; [lia|lia|].
  match type of E with _ = Ret (_, ?x) =>
    replace x with (lit "*2" ++ crlf ++ lit "$1" ++ crlf ++ lit "a" ++ crlf ++ lit "$1" ++ crlf ++ lit "c" ++ crlf) in E by (by vm_compute) end.
  exact E.
Defined.

Lemma zrank_correct_witness :
  ZScore_run demo_cfg demo_sess demo_key demo_world (lit "a") = Ret (demo_world, lit "$1" ++ crlf ++ lit "2" ++ crlf) /\
  exists A B, demo_set = A ++ (d2, lit "a") :: B /\
    genericZRank demo_cfg demo_sess demo_key demo_world demo_rv (lit "a") false = Ret (demo_world, Command_fmtLongLong (zlen A)).
Proof.
  pose proof (zrank_correct demo_cfg demo_sess 5 (lit "s") demo_world demo_world demo_tx1 demo_rv demo_set (lit "a") demo_reads ltac:(done)) as Hs.
  replace (zset_find (lit "a") demo_set) with (Some d2) in Hs by (by vm_compute). destruct Hs as [E (A & B & El & Er & _)].
  replace (Command_fmtBulk (dtos d2)) with (lit "$1" ++ crlf ++ lit "2" ++ crlf) in E by (by vm_compute).
  split; [exact E|]. exists A, B. split; [exact El|exact Er].
Defined.
