(* ===== verification/Number.v ===== *)
(** Integers in decimal: the parsers [stol], [stoul], [stoll] and [stoull] of utils/string.cpp,
    which wrap those of the C++ library, and [string2ll] of utils/redis_port.cpp. *)

From Stdlib Require Import Strings.Byte ZArith Lia.
From stdpp Require Import base list numbers strings pretty.
From S2P Require Import Prelude Status.

Local Open Scope Z_scope.

(** * Definitions *)

(** [isspace] and [isdigit] in the C locale. *)
Definition isspace (c : byte) : bool := (bz c =? 32) || (9 <=? bz c) && (bz c <=? 13).

Definition isdigit (c : byte) : bool := (48 <=? bz c) && (bz c <=? 57).

Definition digit_val (c : byte) : Z := bz c - 48.

(** ** The parsers of the C++ library *)

Fixpoint skip_space (s : bytes) : bytes :=
  match s with
  | c :: s' => if isspace c then skip_space s' else s
  | [] => []
  end.

(** A sign, if there is one. *)
Definition take_sign (s : bytes) : bool * bytes :=
  match s with
  | c :: s' => if bool_decide (c = x2d) then (true, s') else if bool_decide (c = x2b) then (false, s') else (false, s)
  | [] => (false, [])
  end.

(** The number that the digits at the start of [s] write after [v]. *)
Fixpoint take_digits (v : Z) (s : bytes) : Z :=
  match s with
  | c :: s' => if isdigit c then take_digits (10 * v + digit_val c) s' else v
  | [] => v
  end.

(** The sign and the magnitude that [strtoll] and [strtoull] read; [None] if they convert nothing,
    in which case the library throws [std::invalid_argument]. *)
Definition strto (s : bytes) : option (bool * Z) :=
  let '(neg, p) := take_sign (skip_space s) in
  match p with
  | c :: _ => if isdigit c then Some (neg, take_digits 0 p) else None
  | [] => None
  end.

(** [None] is an exception: [std::invalid_argument] or [std::out_of_range]. *)
Definition std_stoll (s : bytes) : option Z :=
  '(neg, m) ← strto s;
  let v := if neg : bool then - m else m in
  if (- 2 ^ 63 <=? v) && (v <? 2 ^ 63) then Some v else None.

(** A minus sign negates the unsigned number. *)
Definition std_stoull (s : bytes) : option Z :=
  '(neg, m) ← strto s;
  if m <? 2 ^ 64 then Some (if neg : bool then u64 (- m) else m) else None.

(** ** utils/string.cpp *)

(** A space at either end is refused. *)
Definition space_at_end (s : bytes) : bool :=
  bool_decide (head s = Some x20) || bool_decide (last s = Some x20).

Definition parse_int (s : bytes) (f : bytes -> option Z) : M Z :=
  if space_at_end s then Throw ERR_INTERGER [] else
  match f s with
  | Some v => Ret v
  | None => Throw ERR_INTERGER []
  end.

(** [long] has 64 bits, the result 32. *)
Definition stol (s : bytes) : M Z := parse_int s (fun s => v ← std_stoll s; Some (s32 v)).

Definition stoul (s : bytes) : M Z := parse_int s std_stoull.

Definition stoll (s : bytes) : M Z := parse_int s std_stoll.

Definition stoull (s : bytes) : M Z := parse_int s std_stoull.

(** ** utils/redis_port.cpp *)

Definition ULLONG_MAX : Z := 2 ^ 64 - 1.
Definition LLONG_MAX : Z := 2 ^ 63 - 1.
Definition LLONG_MIN : Z := - 2 ^ 63.

(** The loop over the digits: the number and the bytes that are left, or an overflow. *)
Fixpoint string2ll_loop (v : Z) (p : bytes) : option (Z * bytes) :=
  match p with
  | c :: p' =>
      if isdigit c then
        if ULLONG_MAX / 10 <? v then None else
        let v := u64 (v * 10) in
        if ULLONG_MAX - digit_val c <? v then None else
        string2ll_loop (u64 (v + digit_val c)) p'
      else Some (v, p)
  | [] => Some (v, [])
  end.

(** The later test for a lone zero is never reached. *)
Definition string2ll (s : bytes) : option Z :=
  if bool_decide (s = []) then None else
  if bool_decide (s = [x30]) then Some 0 else
  let negative := bool_decide (head s = Some x2d) in
  match (if negative then tail s else s) with
  | [] => None
  | c :: p =>
      if (49 <=? bz c) && (bz c <=? 57) then
        '(v, rest) ← string2ll_loop (digit_val c) p;
        if negb (bool_decide (rest = [])) then None else
        if negative then if 2 ^ 63 <? v then None else Some (s64 (u64 (- v)))
        else if LLONG_MAX <? v then None else Some v
      else None
  end.

(** * Decimal digits *)

Definition digit (d : Z) : byte := u8 (48 + d).

Lemma isdigit_range c : isdigit c = true <-> 0 <= digit_val c < 10.
Proof. unfold isdigit, digit_val. rewrite andb_true_iff, !Z.leb_le. lia. Qed.

Lemma digit_val_digit d : 0 <= d < 10 -> digit_val (digit d) = d.
Proof. intros Hd. unfold digit_val, digit. rewrite bz_u8_small; lia. Qed.

Lemma digit_digit_val c : isdigit c = true -> digit (digit_val c) = c.
Proof. intros Hc. unfold digit, digit_val. by rewrite Z.add_sub_assoc, Z.add_simpl_l, u8_bz. Qed.

Lemma isdigit_digit d : 0 <= d < 10 -> isdigit (digit d) = true.
Proof. intros Hd. by rewrite isdigit_range, digit_val_digit. Qed.

Lemma lit_app a b : lit (a +:+ b) = lit a ++ lit b.
Proof. unfold lit, String.list_byte_of_string. rewrite <-map_app. f_equal. induction a as [|c a IH]; [done|]. simpl. by f_equal. Qed.

Lemma lit_pretty_N_go n : forall s, lit (pretty_N_go n s) = lit (pretty_N_go n "") ++ lit s.
Proof.
  induction n as [n IH] using (well_founded_ind N.lt_wf_0). intros s.
  destruct (decide (n = 0%N)) as [->|Hn]; [by rewrite !pretty_N_go_0|].
  rewrite !(pretty_N_go_step n) by lia. assert (n `div` 10 < n)%N as Hlt by (apply N.div_lt; lia).
  rewrite (IH _ Hlt (String _ s)), (IH _ Hlt (String _ "")), <-app_assoc. done.
Qed.

Lemma to_string_N n : n <> 0%N -> to_string (Z.of_N n) = lit (pretty_N_go n "").
Proof. destruct n as [|p]; [done|]. done. Qed.

Lemma lit_pretty_N_char d : (d < 10)%N -> lit (String (pretty_N_char d) "") = [digit (Z.of_N d)].
Proof.
  intros Hd. assert (d ∈ N.of_nat <$> seq 0 10) as Hin.
  { apply list_elem_of_fmap. exists (N.to_nat d). split; [lia|]. apply elem_of_seq. lia. }
  clear Hd. revert d Hin. apply Forall_forall. vm_compute. repeat constructor.
Qed.

Lemma to_string_digit d : 0 <= d < 10 -> to_string d = [digit d].
Proof.
  intros Hd. destruct (decide (d = 0)) as [->|Hn]; [done|]. rewrite <-(Z2N.id d) at 1 by lia. rewrite to_string_N by lia.
  rewrite pretty_N_go_step, N.div_small, pretty_N_go_0, N.mod_small by lia. rewrite lit_pretty_N_char, Z2N.id by lia. done.
Qed.

Lemma to_string_snoc n d : 0 < n -> 0 <= d < 10 -> to_string (10 * n + d) = to_string n ++ [digit d].
Proof.
  intros Hn Hd. rewrite <-(Z2N.id n), <-(Z2N.id d) by lia. set (a := Z.to_N n). set (b := Z.to_N d).
  replace (10 * Z.of_N a + Z.of_N b) with (Z.of_N (10 * a + b)) by lia. rewrite !to_string_N by lia.
  rewrite pretty_N_go_step by lia. replace ((10 * a + b) `div` 10)%N with a by (apply (N.div_unique _ _ _ b); lia).
  replace ((10 * a + b) `mod` 10)%N with b by (apply (N.mod_unique _ _ a); lia).
  by rewrite lit_pretty_N_go, lit_pretty_N_char by lia.
Qed.

Lemma to_string_neg z : z < 0 -> to_string z = x2d :: to_string (- z).
Proof. by destruct z. Qed.

(** The digits of a positive number start with a digit that is not zero. *)
Definition leads (c : byte) : Prop := 0 < digit_val c < 10.

Lemma take_digits_snoc c p : forall v, Forall (fun x => isdigit x = true) p -> isdigit c = true ->
  take_digits v (p ++ [c]) = 10 * take_digits v p + digit_val c.
Proof.
  induction p as [|x p IH]; intros v Hp Hc; cbn [take_digits app]; [by rewrite Hc|].
  inversion Hp as [|? ? Hx Hp']; subst. rewrite Hx. by apply IH.
Qed.

Lemma take_digits_ge p : forall v, 0 <= v -> v <= take_digits v p.
Proof.
  induction p as [|c p IH]; intros v Hv; cbn [take_digits]; [lia|]. destruct (isdigit c) eqn:Hc; [|lia].
  apply isdigit_range in Hc. etrans; [|apply IH; lia]. lia.
Qed.

Lemma to_string_take_digits c p : leads c -> Forall (fun x => isdigit x = true) p -> to_string (take_digits (digit_val c) p) = c :: p.
Proof.
  intros Hc. induction p as [|x p IH] using rev_ind; intros Hp.
  - cbn [take_digits]. rewrite to_string_digit, digit_digit_val by (rewrite ?isdigit_range; unfold leads in Hc; lia). done.
  - apply Forall_app in Hp as [Hp Hx]. inversion Hx as [|? ? Hx' _]; subst. rewrite take_digits_snoc by done.
    pose proof (take_digits_ge p (digit_val c)). unfold leads in Hc. rewrite to_string_snoc, IH, digit_digit_val by (done || lia || by apply isdigit_range). done.
Qed.

Lemma to_string_digits n : 0 < n -> exists c p, to_string n = c :: p /\ leads c /\ Forall (fun x => isdigit x = true) p /\ take_digits (digit_val c) p = n.
Proof.
  induction n as [n IH] using (well_founded_ind (Z.lt_wf 0)). intros Hn. destruct (decide (n < 10)) as [Hs|Hs].
  - exists (digit n), []. rewrite to_string_digit by lia. unfold leads. cbn [take_digits]. rewrite digit_val_digit by lia. split_and!; [done|lia|lia|done|done].
  - pose proof (Z.div_mod n 10 ltac:(lia)) as Hdm. pose proof (Z.mod_pos_bound n 10 ltac:(lia)) as Hm.
    assert (0 < n / 10) as Hq by (apply Z.div_str_pos; lia). destruct (IH (n / 10)) as (c & p & E & Hc & Hp & Ev); [split; [lia|apply Z.div_lt; lia]|done|].
    exists c, (p ++ [digit (n mod 10)]). rewrite Hdm at 1. rewrite to_string_snoc, E by lia. split; [done|]. split; [done|].
    pose proof (isdigit_digit (n mod 10) Hm) as Hd. split; [by apply Forall_app; auto|]. rewrite take_digits_snoc, Ev, digit_val_digit by done. lia.
Qed.

(** * [string2ll] *)

Lemma string2ll_loop_digits p : forall v, 0 <= v < 2 ^ 64 -> Forall (fun x => isdigit x = true) p ->
  string2ll_loop v p = if take_digits v p <? 2 ^ 64 then Some (take_digits v p, []) else None.
Proof.
  induction p as [|c p IH]; intros v Hv Hp; cbn [string2ll_loop take_digits]; [by replace (v <? 2 ^ 64) with true by lia|].
  inversion Hp as [|? ? Hc Hp']; subst. rewrite Hc. apply isdigit_range in Hc. pose proof (take_digits_ge p (10 * v + digit_val c) ltac:(lia)).
  unfold ULLONG_MAX in *. change ((2 ^ 64 - 1) / 10) with 1844674407370955161. destruct (Z.ltb_spec 1844674407370955161 v).
  { destruct (Z.ltb_spec (take_digits (10 * v + digit_val c) p) (2 ^ 64)); [lia|done]. }
  rewrite (wrap_id 64 (v * 10)) by (unfold is_u; lia). destruct (Z.ltb_spec (2 ^ 64 - 1 - digit_val c) (v * 10)).
  { destruct (Z.ltb_spec (take_digits (10 * v + digit_val c) p) (2 ^ 64)); [lia|done]. }
  rewrite wrap_id by (unfold is_u; lia). rewrite IH by (done || lia). by rewrite (Z.mul_comm v 10).
Qed.

Lemma string2ll_loop_all p : forall v v', string2ll_loop v p = Some (v', []) -> Forall (fun x => isdigit x = true) p.
Proof.
  induction p as [|c p IH]; intros v v' E; cbn [string2ll_loop] in E; [done|]. destruct (isdigit c) eqn:Hc; [|by injection E].
  destruct (_ <? v); [done|]. destruct (_ <? _); [done|]. constructor; [done|]. by eapply IH.
Qed.

Lemma leads_range c : (49 <=? bz c) && (bz c <=? 57) = true <-> leads c.
Proof. rewrite andb_true_iff, !Z.leb_le. unfold leads, digit_val. lia. Qed.

Lemma leads_not_sign c : leads c -> c <> x2d /\ c <> x30 /\ c <> x2b.
Proof. intros Hc. split_and!; intros ->; by destruct Hc. Qed.

(** The number after the sign. *)
Lemma string2ll_parse c p v :
  ((49 <=? bz c) && (bz c <=? 57) = true /\ string2ll_loop (digit_val c) p = Some (v, [])) <-> 0 < v < 2 ^ 64 /\ to_string v = c :: p.
Proof.
  rewrite leads_range. split.
  - intros [Hc E]. pose proof (string2ll_loop_all _ _ _ E) as Hp. unfold leads in Hc. rewrite string2ll_loop_digits in E by (done || lia).
    pose proof (take_digits_ge p (digit_val c) ltac:(lia)). destruct (Z.ltb_spec (take_digits (digit_val c) p) (2 ^ 64)) as [Hlt|]; [|done].
    injection E as <-. split; [lia|]. by apply to_string_take_digits.
  - intros [Hv E]. destruct (to_string_digits v) as (c' & p' & E' & Hc & Hp & Ev); [lia|]. rewrite E in E'. injection E' as <- <-. split; [done|].
    unfold leads in Hc. rewrite string2ll_loop_digits, Ev by (done || lia). by replace (v <? 2 ^ 64) with true by lia.
Qed.

Lemma s64_neg v : 0 < v <= 2 ^ 63 -> s64 (u64 (- v)) = - v.
Proof. intros Hv. apply signed_wrap; [lia|]. unfold is_s. lia. Qed.

Lemma string2ll_sound s v : string2ll s = Some v -> is_s64 v /\ s = to_string v.
Proof.
  unfold string2ll, LLONG_MAX, is_s. change (64 - 1) with 63. case_bool_decide as E0; [done|]. case_bool_decide as E1; [by intros [= <-]; subst|].
  case_bool_decide as En.
  - destruct s as [|x s]; [done|]. injection En as ->. cbn [tail]. destruct s as [|c p]; [done|]. destruct (_ && _) eqn:Hc; [|done].
    destruct (string2ll_loop (digit_val c) p) as [[m rest]|] eqn:El; [|done]. cbn. case_bool_decide; [subst rest|done].
    destruct (Z.ltb_spec (2 ^ 63) m); [done|]. intros [= <-]. destruct (proj1 (string2ll_parse c p m) (conj Hc El)) as [Hm Es].
    rewrite s64_neg by lia. split; [lia|]. rewrite to_string_neg, Z.opp_involutive by lia. by rewrite Es.
  - destruct s as [|c p]; [done|]. destruct (_ && _) eqn:Hc; [|done].
    destruct (string2ll_loop (digit_val c) p) as [[m rest]|] eqn:El; [|done]. cbn. case_bool_decide; [subst rest|done].
    destruct (Z.ltb_spec (2 ^ 63 - 1) m); [done|]. intros [= <-]. destruct (proj1 (string2ll_parse c p m) (conj Hc El)) as [Hm Es]. split; [lia|done].
Qed.

Lemma string2ll_complete v : is_s64 v -> string2ll (to_string v) = Some v.
Proof.
  unfold is_s. change (64 - 1) with 63. intros Hv. destruct (decide (v = 0)) as [->|Hn]; [done|]. destruct (to_string_digits (Z.abs v)) as (c & p & E & Hc & Hp & Ev); [lia|].
  assert (0 < Z.abs v < 2 ^ 64) as Hb by lia. destruct (proj2 (string2ll_parse c p (Z.abs v)) (conj Hb E)) as [Hr El]. destruct (leads_not_sign c Hc) as (H1 & H2 & H3).
  unfold string2ll, LLONG_MAX. destruct (Z.lt_ge_cases v 0) as [Hneg|Hpos].
  - rewrite to_string_neg by done. replace (- v) with (Z.abs v) by lia. rewrite E. cbn [tail head]. rewrite !bool_decide_false, bool_decide_true by done.
    rewrite Hr, El. cbn. replace (2 ^ 63 <? Z.abs v) with false by lia. rewrite s64_neg by lia. f_equal. lia.
  - rewrite (Z.abs_eq v) in * by lia. rewrite E. cbn [tail head]. rewrite !bool_decide_false by congruence. rewrite Hr, El. cbn.
    by replace (2 ^ 63 - 1 <? v) with false by lia.
Qed.

(** * The parsers of the library *)

Lemma take_digits_app p rest : forall v, Forall (fun x => isdigit x = true) p -> (forall c, head rest = Some c -> isdigit c = false) ->
  take_digits v (p ++ rest) = take_digits v p.
Proof.
  induction p as [|x p IH]; intros v Hp Hr; cbn [app take_digits].
  - destruct rest as [|c rest]; [done|]. cbn [take_digits]. by rewrite (Hr c).
  - inversion Hp as [|? ? Hx Hp']; subst. rewrite Hx. by apply IH.
Qed.

Lemma isdigit_not_space c : isdigit c = true -> isspace c = false.
Proof. rewrite isdigit_range. unfold digit_val, isspace. intros Hc. apply orb_false_iff. rewrite andb_false_iff, !Z.leb_gt. lia. Qed.

Lemma strto_to_string v rest : (forall c, head rest = Some c -> isdigit c = false) -> strto (to_string v ++ rest) = Some (v <? 0, Z.abs v).
Proof.
  intros Hr. unfold strto. destruct (decide (v = 0)) as [->|Hn].
  { pose proof (take_digits_app [] rest 0 ltac:(done) Hr) as E. cbn [app take_digits] in E. change (Some (false, take_digits 0 rest) = Some (false, 0)). by rewrite E. }
  destruct (to_string_digits (Z.abs v)) as (c & p & E & Hc & Hp & Ev); [lia|]. destruct (leads_not_sign c Hc) as (H1 & _ & H3).
  assert (isdigit c = true) as Hd by (apply isdigit_range; unfold leads in Hc; lia). pose proof (isdigit_not_space c Hd) as Hsp.
  assert (take_digits 0 ((c :: p) ++ rest) = Z.abs v) as Et.
  { cbn [take_digits app]. rewrite Hd, Z.mul_0_r, Z.add_0_l. by rewrite take_digits_app, Ev. }
  destruct (Z.ltb_spec v 0).
  - rewrite to_string_neg by done. replace (- v) with (Z.abs v) by lia. rewrite E. cbn [app skip_space]. change (isspace x2d) with false. cbn [take_sign]. rewrite bool_decide_true by done.
    cbn [app] in Et. by rewrite Hd, Et.
  - rewrite <-(Z.abs_eq v), E at 1 by lia. cbn [app skip_space]. rewrite Hsp. cbn [take_sign]. rewrite !bool_decide_false by done. cbn [app] in Et. by rewrite Hd, Et.
Qed.

Lemma last_to_string v : last (to_string v) <> Some x20.
Proof.
  assert (forall n, 0 <= n -> last (to_string n) <> Some x20) as Hn.
  { intros n Hn. destruct (decide (n < 10)) as [Hs|Hs].
    - rewrite to_string_digit by lia. intros [= E]. pose proof (isdigit_digit n ltac:(lia)) as Hd. by rewrite E in Hd.
    - rewrite (Z.div_mod n 10) by lia. pose proof (Z.mod_pos_bound n 10 ltac:(lia)). assert (0 < n / 10) by (apply Z.div_str_pos; lia).
      rewrite to_string_snoc, last_snoc by lia. intros [= E]. pose proof (isdigit_digit (n mod 10) ltac:(lia)) as Hd. by rewrite E in Hd. }
  destruct (Z.lt_ge_cases v 0); [|by apply Hn]. rewrite to_string_neg by done. pose proof (Hn (- v) ltac:(lia)) as Hl.
  destruct (to_string (- v)) as [|c p] eqn:E; [done|]. by rewrite last_cons_cons.
Qed.

Lemma last_app_some {A} (l k : list A) : k <> [] -> last (l ++ k) = last k.
Proof. intros Hk. destruct k as [|x k] using rev_ind; [done|]. by rewrite app_assoc, !last_snoc. Qed.

Lemma to_string_ends v rest : last rest <> Some x20 -> space_at_end (to_string v ++ rest) = false.
Proof.
  intros Hl. unfold space_at_end. apply orb_false_iff. rewrite !bool_decide_eq_false. split.
  - destruct (decide (v = 0)) as [->|Hn]; [done|]. destruct (to_string_digits (Z.abs v)) as (c & p & E & Hc & _); [lia|].
    destruct (Z.lt_ge_cases v 0); [by rewrite to_string_neg|]. rewrite Z.abs_eq in E by lia. rewrite E. intros [= ->]. by destruct Hc.
  - destruct (decide (rest = [])) as [->|Hr]; [rewrite app_nil_r; apply last_to_string|]. by rewrite last_app_some.
Qed.

(** [string2ll] accepts exactly the decimal form of the 64-bit integers: no sign but a minus,
    no leading zero, no space, nothing after the digits and no overflow. *)
Theorem string2ll_canonical s v : string2ll s = Some v <-> is_s64 v /\ s = to_string v.
Proof. split; [apply string2ll_sound|]. intros [Hv ->]. by apply string2ll_complete. Qed.

(** [stoll] and [stoull] read back the decimal form of a 64-bit number, whatever follows it
    other than a digit or, at the end, a space: text after the number is not refused. [stol] keeps
    the low 32 bits of a 64-bit number, and [stoull] takes a negative number modulo 2^64. *)
Theorem int_parsers_prefix v rest :
  (forall c, head rest = Some c -> isdigit c = false) -> last rest <> Some x20 ->
  stoll (to_string v ++ rest) = (if bool_decide (is_s64 v) then Ret v else Throw ERR_INTERGER []) /\
  stol (to_string v ++ rest) = (if bool_decide (is_s64 v) then Ret (s32 v) else Throw ERR_INTERGER []) /\
  stoull (to_string v ++ rest) = (if Z.abs v <? 2 ^ 64 then Ret (u64 v) else Throw ERR_INTERGER []).
Proof.
  intros Hr Hl. unfold stoll, stol, stoull, parse_int, std_stoll, std_stoull. rewrite to_string_ends, strto_to_string by done. cbn.
  replace (if v <? 0 then - Z.abs v else Z.abs v) with v by (destruct (Z.ltb_spec v 0); lia).
  assert ((- 2 ^ 63 <=? v) && (v <? 2 ^ 63) = bool_decide (is_s64 v)) as ->.
  { apply eq_true_iff_eq. rewrite andb_true_iff, Z.leb_le, Z.ltb_lt, bool_decide_eq_true. done. }
  split; [by destruct (bool_decide _)|]. split; [by destruct (bool_decide _)|].
  destruct (Z.ltb_spec (Z.abs v) (2 ^ 64)); [|done]. f_equal. destruct (Z.ltb_spec v 0); [|rewrite wrap_id by (unfold is_u; lia); lia]. f_equal. lia.
Qed.

Lemma int_parsers_prefix_witness : stoll (lit "12abc") = Ret 12 /\ stol (lit "4294967296") = Ret 0 /\ stoull (lit "-1") = Ret (2 ^ 64 - 1).
Proof.
  split; [|split].
  - exact (proj1 (int_parsers_prefix 12 (lit "abc") ltac:(by intros c [= <-]) ltac:(done))).
  - by vm_compute.
  - by vm_compute.
Defined.
