(* ===== verification/RedisPort.v ===== *)
(** Ports of Redis (utils/redis_port.cpp): the checksums and the hash slot of a key. *)

From Stdlib Require Import Strings.Byte ZArith Lia.
From stdpp Require Import base list numbers strings sets.
From S2P Require Import Prelude Status.

Local Open Scope Z_scope.

(** * Definitions *)

Definition crc16tab : list Z :=
  [0x0000; 0x1021; 0x2042; 0x3063; 0x4084; 0x50a5; 0x60c6; 0x70e7; 0x8108; 0x9129; 0xa14a; 0xb16b;
   0xc18c; 0xd1ad; 0xe1ce; 0xf1ef; 0x1231; 0x0210; 0x3273; 0x2252; 0x52b5; 0x4294; 0x72f7; 0x62d6;
   0x9339; 0x8318; 0xb37b; 0xa35a; 0xd3bd; 0xc39c; 0xf3ff; 0xe3de; 0x2462; 0x3443; 0x0420; 0x1401;
   0x64e6; 0x74c7; 0x44a4; 0x5485; 0xa56a; 0xb54b; 0x8528; 0x9509; 0xe5ee; 0xf5cf; 0xc5ac; 0xd58d;
   0x3653; 0x2672; 0x1611; 0x0630; 0x76d7; 0x66f6; 0x5695; 0x46b4; 0xb75b; 0xa77a; 0x9719; 0x8738;
   0xf7df; 0xe7fe; 0xd79d; 0xc7bc; 0x48c4; 0x58e5; 0x6886; 0x78a7; 0x0840; 0x1861; 0x2802; 0x3823;
   0xc9cc; 0xd9ed; 0xe98e; 0xf9af; 0x8948; 0x9969; 0xa90a; 0xb92b; 0x5af5; 0x4ad4; 0x7ab7; 0x6a96;
   0x1a71; 0x0a50; 0x3a33; 0x2a12; 0xdbfd; 0xcbdc; 0xfbbf; 0xeb9e; 0x9b79; 0x8b58; 0xbb3b; 0xab1a;
   0x6ca6; 0x7c87; 0x4ce4; 0x5cc5; 0x2c22; 0x3c03; 0x0c60; 0x1c41; 0xedae; 0xfd8f; 0xcdec; 0xddcd;
   0xad2a; 0xbd0b; 0x8d68; 0x9d49; 0x7e97; 0x6eb6; 0x5ed5; 0x4ef4; 0x3e13; 0x2e32; 0x1e51; 0x0e70;
   0xff9f; 0xefbe; 0xdfdd; 0xcffc; 0xbf1b; 0xaf3a; 0x9f59; 0x8f78; 0x9188; 0x81a9; 0xb1ca; 0xa1eb;
   0xd10c; 0xc12d; 0xf14e; 0xe16f; 0x1080; 0x00a1; 0x30c2; 0x20e3; 0x5004; 0x4025; 0x7046; 0x6067;
   0x83b9; 0x9398; 0xa3fb; 0xb3da; 0xc33d; 0xd31c; 0xe37f; 0xf35e; 0x02b1; 0x1290; 0x22f3; 0x32d2;
   0x4235; 0x5214; 0x6277; 0x7256; 0xb5ea; 0xa5cb; 0x95a8; 0x8589; 0xf56e; 0xe54f; 0xd52c; 0xc50d;
   0x34e2; 0x24c3; 0x14a0; 0x0481; 0x7466; 0x6447; 0x5424; 0x4405; 0xa7db; 0xb7fa; 0x8799; 0x97b8;
   0xe75f; 0xf77e; 0xc71d; 0xd73c; 0x26d3; 0x36f2; 0x0691; 0x16b0; 0x6657; 0x7676; 0x4615; 0x5634;
   0xd94c; 0xc96d; 0xf90e; 0xe92f; 0x99c8; 0x89e9; 0xb98a; 0xa9ab; 0x5844; 0x4865; 0x7806; 0x6827;
   0x18c0; 0x08e1; 0x3882; 0x28a3; 0xcb7d; 0xdb5c; 0xeb3f; 0xfb1e; 0x8bf9; 0x9bd8; 0xabbb; 0xbb9a;
   0x4a75; 0x5a54; 0x6a37; 0x7a16; 0x0af1; 0x1ad0; 0x2ab3; 0x3a92; 0xfd2e; 0xed0f; 0xdd6c; 0xcd4d;
   0xbdaa; 0xad8b; 0x9de8; 0x8dc9; 0x7c26; 0x6c07; 0x5c64; 0x4c45; 0x3ca2; 0x2c83; 0x1ce0; 0x0cc1;
   0xef1f; 0xff3e; 0xcf5d; 0xdf7c; 0xaf9b; 0xbfba; 0x8fd9; 0x9ff8; 0x6e17; 0x7e36; 0x4e55; 0x5e74;
   0x2e93; 0x3eb2; 0x0ed1; 0x1ef0].

(** An index of a table of 256 entries is a byte. *)
Definition table_at (tab : list Z) (i : Z) : Z := nth (Z.to_nat i) tab 0.

Definition crc16_step (crc : Z) (c : byte) : Z :=
  u16 (Z.lxor (Z.shiftl crc 8) (table_at crc16tab (Z.land (Z.lxor (Z.shiftr crc 8) (cz c)) 0xff))).

(** [len] is an [int]: keys are shorter than 2^31 bytes. *)
Definition crc16 (buf : bytes) : Z := foldl crc16_step 0 buf.

Definition crc64_tab : list Z :=
  [0x0000000000000000; 0x7ad870c830358979; 0xf5b0e190606b12f2; 0x8f689158505e9b8b;
   0xc038e5739841b68f; 0xbae095bba8743ff6; 0x358804e3f82aa47d; 0x4f50742bc81f2d04;
   0xab28ecb46814fe75; 0xd1f09c7c5821770c; 0x5e980d24087fec87; 0x24407dec384a65fe;
   0x6b1009c7f05548fa; 0x11c8790fc060c183; 0x9ea0e857903e5a08; 0xe478989fa00bd371;
   0x7d08ff3b88be6f81; 0x07d08ff3b88be6f8; 0x88b81eabe8d57d73; 0xf2606e63d8e0f40a;
   0xbd301a4810ffd90e; 0xc7e86a8020ca5077; 0x4880fbd87094cbfc; 0x32588b1040a14285;
   0xd620138fe0aa91f4; 0xacf86347d09f188d; 0x2390f21f80c18306; 0x594882d7b0f40a7f;
   0x1618f6fc78eb277b; 0x6cc0863448deae02; 0xe3a8176c18803589; 0x997067a428b5bcf0;
   0xfa11fe77117cdf02; 0x80c98ebf2149567b; 0x0fa11fe77117cdf0; 0x75796f2f41224489;
   0x3a291b04893d698d; 0x40f16bccb908e0f4; 0xcf99fa94e9567b7f; 0xb5418a5cd963f206;
   0x513912c379682177; 0x2be1620b495da80e; 0xa489f35319033385; 0xde51839b2936bafc;
   0x9101f7b0e12997f8; 0xebd98778d11c1e81; 0x64b116208142850a; 0x1e6966e8b1770c73;
   0x8719014c99c2b083; 0xfdc17184a9f739fa; 0x72a9e0dcf9a9a271; 0x08719014c99c2b08;
   0x4721e43f0183060c; 0x3df994f731b68f75; 0xb29105af61e814fe; 0xc849756751dd9d87;
   0x2c31edf8f1d64ef6; 0x56e99d30c1e3c78f; 0xd9810c6891bd5c04; 0xa3597ca0a188d57d;
   0xec09088b6997f879; 0x96d1784359a27100; 0x19b9e91b09fcea8b; 0x636199d339c963f2;
   0xdf7adabd7a6e2d6f; 0xa5a2aa754a5ba416; 0x2aca3b2d1a053f9d; 0x50124be52a30b6e4;
   0x1f423fcee22f9be0; 0x659a4f06d21a1299; 0xeaf2de5e82448912; 0x902aae96b271006b;
   0x74523609127ad31a; 0x0e8a46c1224f5a63; 0x81e2d7997211c1e8; 0xfb3aa75142244891;
   0xb46ad37a8a3b6595; 0xceb2a3b2ba0eecec; 0x41da32eaea507767; 0x3b024222da65fe1e;
   0xa2722586f2d042ee; 0xd8aa554ec2e5cb97; 0x57c2c41692bb501c; 0x2d1ab4dea28ed965;
   0x624ac0f56a91f461; 0x1892b03d5aa47d18; 0x97fa21650afae693; 0xed2251ad3acf6fea;
   0x095ac9329ac4bc9b; 0x7382b9faaaf135e2; 0xfcea28a2faafae69; 0x8632586aca9a2710;
   0xc9622c4102850a14; 0xb3ba5c8932b0836d; 0x3cd2cdd162ee18e6; 0x460abd1952db919f;
   0x256b24ca6b12f26d; 0x5fb354025b277b14; 0xd0dbc55a0b79e09f; 0xaa03b5923b4c69e6;
   0xe553c1b9f35344e2; 0x9f8bb171c366cd9b; 0x10e3202993385610; 0x6a3b50e1a30ddf69;
   0x8e43c87e03060c18; 0xf49bb8b633338561; 0x7bf329ee636d1eea; 0x012b592653589793;
   0x4e7b2d0d9b47ba97; 0x34a35dc5ab7233ee; 0xbbcbcc9dfb2ca865; 0xc113bc55cb19211c;
   0x5863dbf1e3ac9dec; 0x22bbab39d3991495; 0xadd33a6183c78f1e; 0xd70b4aa9b3f20667;
   0x985b3e827bed2b63; 0xe2834e4a4bd8a21a; 0x6debdf121b863991; 0x1733afda2bb3b0e8;
   0xf34b37458bb86399; 0x8993478dbb8deae0; 0x06fbd6d5ebd3716b; 0x7c23a61ddbe6f812;
   0x3373d23613f9d516; 0x49aba2fe23cc5c6f; 0xc6c333a67392c7e4; 0xbc1b436e43a74e9d;
   0x95ac9329ac4bc9b5; 0xef74e3e19c7e40cc; 0x601c72b9cc20db47; 0x1ac40271fc15523e;
   0x5594765a340a7f3a; 0x2f4c0692043ff643; 0xa02497ca54616dc8; 0xdafce7026454e4b1;
   0x3e847f9dc45f37c0; 0x445c0f55f46abeb9; 0xcb349e0da4342532; 0xb1eceec59401ac4b;
   0xfebc9aee5c1e814f; 0x8464ea266c2b0836; 0x0b0c7b7e3c7593bd; 0x71d40bb60c401ac4;
   0xe8a46c1224f5a634; 0x927c1cda14c02f4d; 0x1d148d82449eb4c6; 0x67ccfd4a74ab3dbf;
   0x289c8961bcb410bb; 0x5244f9a98c8199c2; 0xdd2c68f1dcdf0249; 0xa7f41839ecea8b30;
   0x438c80a64ce15841; 0x3954f06e7cd4d138; 0xb63c61362c8a4ab3; 0xcce411fe1cbfc3ca;
   0x83b465d5d4a0eece; 0xf96c151de49567b7; 0x76048445b4cbfc3c; 0x0cdcf48d84fe7545;
   0x6fbd6d5ebd3716b7; 0x15651d968d029fce; 0x9a0d8ccedd5c0445; 0xe0d5fc06ed698d3c;
   0xaf85882d2576a038; 0xd55df8e515432941; 0x5a3569bd451db2ca; 0x20ed197575283bb3;
   0xc49581ead523e8c2; 0xbe4df122e51661bb; 0x3125607ab548fa30; 0x4bfd10b2857d7349;
   0x04ad64994d625e4d; 0x7e7514517d57d734; 0xf11d85092d094cbf; 0x8bc5f5c11d3cc5c6;
   0x12b5926535897936; 0x686de2ad05bcf04f; 0xe70573f555e26bc4; 0x9ddd033d65d7e2bd;
   0xd28d7716adc8cfb9; 0xa85507de9dfd46c0; 0x273d9686cda3dd4b; 0x5de5e64efd965432;
   0xb99d7ed15d9d8743; 0xc3450e196da80e3a; 0x4c2d9f413df695b1; 0x36f5ef890dc31cc8;
   0x79a59ba2c5dc31cc; 0x037deb6af5e9b8b5; 0x8c157a32a5b7233e; 0xf6cd0afa9582aa47;
   0x4ad64994d625e4da; 0x300e395ce6106da3; 0xbf66a804b64ef628; 0xc5bed8cc867b7f51;
   0x8aeeace74e645255; 0xf036dc2f7e51db2c; 0x7f5e4d772e0f40a7; 0x05863dbf1e3ac9de;
   0xe1fea520be311aaf; 0x9b26d5e88e0493d6; 0x144e44b0de5a085d; 0x6e963478ee6f8124;
   0x21c640532670ac20; 0x5b1e309b16452559; 0xd476a1c3461bbed2; 0xaeaed10b762e37ab;
   0x37deb6af5e9b8b5b; 0x4d06c6676eae0222; 0xc26e573f3ef099a9; 0xb8b627f70ec510d0;
   0xf7e653dcc6da3dd4; 0x8d3e2314f6efb4ad; 0x0256b24ca6b12f26; 0x788ec2849684a65f;
   0x9cf65a1b368f752e; 0xe62e2ad306bafc57; 0x6946bb8b56e467dc; 0x139ecb4366d1eea5;
   0x5ccebf68aecec3a1; 0x2616cfa09efb4ad8; 0xa97e5ef8cea5d153; 0xd3a62e30fe90582a;
   0xb0c7b7e3c7593bd8; 0xca1fc72bf76cb2a1; 0x45775673a732292a; 0x3faf26bb9707a053;
   0x70ff52905f188d57; 0x0a2722586f2d042e; 0x854fb3003f739fa5; 0xff97c3c80f4616dc;
   0x1bef5b57af4dc5ad; 0x61372b9f9f784cd4; 0xee5fbac7cf26d75f; 0x9487ca0fff135e26;
   0xdbd7be24370c7322; 0xa10fceec0739fa5b; 0x2e675fb4576761d0; 0x54bf2f7c6752e8a9;
   0xcdcf48d84fe75459; 0xb71738107fd2dd20; 0x387fa9482f8c46ab; 0x42a7d9801fb9cfd2;
   0x0df7adabd7a6e2d6; 0x772fdd63e7936baf; 0xf8474c3bb7cdf024; 0x829f3cf387f8795d;
   0x66e7a46c27f3aa2c; 0x1c3fd4a417c62355; 0x935745fc4798b8de; 0xe98f353477ad31a7;
   0xa6df411fbfb21ca3; 0xdc0731d78f8795da; 0x536fa08fdfd90e51; 0x29b7d047efec8728].

Definition crc64_step (crc : Z) (c : byte) : Z := Z.lxor (table_at crc64_tab (Z.lxor (wrap 8 crc) (bz c))) (Z.shiftr crc 8).

Definition crc64 (crc : Z) (s : bytes) : Z := foldl crc64_step crc s.

(** The place of the first [c] from [i] on, or the length. *)
Fixpoint find_from (c : byte) (i : Z) (s : bytes) : Z :=
  match s with
  | [] => i
  | x :: s' => if bool_decide (x = c) then i else find_from c (i + 1) s'
  end.

Definition keyHashSlot (key : bytes) : Z :=
  let keylen := zlen key in
  let s := find_from x7b 0 key in
  if s =? keylen then Z.land (crc16 key) 0x3fff else
  let e := find_from x7d (s + 1) (zdrop (s + 1) key) in
  if (e =? keylen) || (e =? s + 1) then Z.land (crc16 key) 0x3fff else
  Z.land (crc16 (ztake (e - s - 1) (zdrop (s + 1) key))) 0x3fff.

(** * Checksums *)

(** Functions that agree with the addition of polynomials over the field of two elements. *)
Definition xor_linear (f : Z -> Z) : Prop := forall a b, f (Z.lxor a b) = Z.lxor (f a) (f b).

Lemma iter_linear f n : xor_linear f -> xor_linear (Nat.iter n f).
Proof. intros Hf. induction n as [|n IH]; intros a b; [done|]. by rewrite !Nat.iter_succ, IH, Hf. Qed.

(** A property of the numbers below [n], checked one by one. *)
Lemma check_below (P : Z -> bool) n i : forallb P (seqZ 0 n) = true -> 0 <= i < n -> P i = true.
Proof. intros HP Hi. rewrite forallb_forall in HP. apply HP, list_elem_of_In, elem_of_seqZ. lia. Qed.

Lemma wrap_land w x : 0 <= w -> wrap w x = Z.land x (Z.ones w).
Proof. intros Hw. by rewrite Z.land_ones. Qed.

(** ** CRC-16 bit by bit: the register is shifted and reduced by x^16 + x^12 + x^5 + 1. *)

Definition crc16_bit (c : Z) : Z := Z.lxor (u16 (Z.shiftl c 1)) (if Z.testbit c 15 then 0x1021 else 0).

Definition crc16_ref (buf : bytes) : Z := foldl (fun crc b => Nat.iter 8 crc16_bit (Z.lxor crc (Z.shiftl (bz b) 8))) 0 buf.

Lemma crc16_bit_linear : xor_linear crc16_bit.
Proof.
  intros a b. unfold crc16_bit. rewrite Z.lxor_spec, !wrap_land, Z.shiftl_lxor by lia.
  replace (Z.land (Z.lxor (Z.shiftl a 1) (Z.shiftl b 1)) (Z.ones 16)) with (Z.lxor (Z.land (Z.shiftl a 1) (Z.ones 16)) (Z.land (Z.shiftl b 1) (Z.ones 16)))
    by (apply Z.bits_inj'; intros i Hi; rewrite !Z.lxor_spec, !Z.land_spec, Z.lxor_spec; by repeat destruct (Z.testbit _ _)).
  generalize (Z.land (Z.shiftl a 1) (Z.ones 16)), (Z.land (Z.shiftl b 1) (Z.ones 16)). intros x y.
  apply Z.bits_inj'. intros i Hi. destruct (Z.testbit a 15), (Z.testbit b 15); cbn [xorb]; rewrite !Z.lxor_spec, ?Z.bits_0; by repeat destruct (Z.testbit _ _).
Qed.

Definition crc16_tables_ok (i : Z) : bool :=
  (table_at crc16tab i =? Nat.iter 8 crc16_bit (Z.shiftl i 8)) && (Nat.iter 8 crc16_bit i =? Z.shiftl i 8) && (0 <=? table_at crc16tab i) && (table_at crc16tab i <? 2 ^ 16).

Lemma crc16_tables i : 0 <= i < 256 ->
  table_at crc16tab i = Nat.iter 8 crc16_bit (Z.shiftl i 8) /\ Nat.iter 8 crc16_bit i = Z.shiftl i 8 /\ is_u16 (table_at crc16tab i).
Proof.
  intros Hi. pose proof (check_below crc16_tables_ok 256 i ltac:(by vm_compute) Hi) as Hc. unfold crc16_tables_ok in Hc.
  rewrite !andb_true_iff, !Z.eqb_eq, Z.leb_le, Z.ltb_lt in Hc. unfold is_u. tauto.
Qed.

Lemma land_lxor_l a b m : Z.land (Z.lxor a b) m = Z.lxor (Z.land a m) (Z.land b m).
Proof. apply Z.bits_inj'. intros i Hi. rewrite !Z.lxor_spec, !Z.land_spec, Z.lxor_spec. by repeat destruct (Z.testbit _ _). Qed.

Lemma split_low c k : 0 <= k -> c = Z.lxor (Z.shiftl (Z.shiftr c k) k) (wrap k c).
Proof.
  intros Hk. apply Z.bits_inj'. intros i Hi. rewrite Z.lxor_spec, wrap_land, Z.land_spec by lia. destruct (Z.lt_ge_cases i k).
  - by rewrite Z.shiftl_spec_low, Z.ones_spec_low, andb_true_r by lia.
  - rewrite Z.shiftl_spec, Z.shiftr_spec, Z.ones_spec_high, andb_false_r, xorb_false_r by lia. f_equal. lia.
Qed.

Lemma cz_low c : Z.land (cz c) 0xff = bz c.
Proof.
  change 0xff with (Z.ones 8). rewrite <-wrap_land by lia. pose proof (bz_range c). unfold cz, signed. rewrite (wrap_id 8 (bz c)) by (unfold is_u; lia).
  destruct (_ <=? _); [|apply wrap_id; unfold is_u; lia]. unfold wrap. rewrite <-(Z.mod_add _ 1) by lia. rewrite Z.mod_small; lia.
Qed.

Lemma lxor_bound a b w : 0 <= w -> is_u w a -> is_u w b -> is_u w (Z.lxor a b).
Proof.
  intros Hw Ha Hb. assert (Z.lxor a b = wrap w (Z.lxor a b)) as ->; [|by apply wrap_is_u].
  rewrite wrap_land, land_lxor_l, <-!wrap_land by lia. by rewrite !wrap_id.
Qed.

Lemma crc16_step_ref crc c : is_u16 crc ->
  crc16_step crc c = Nat.iter 8 crc16_bit (Z.lxor crc (Z.shiftl (bz c) 8)) /\ is_u16 (crc16_step crc c).
Proof.
  intros Hc. unfold crc16_step. set (hi := Z.shiftr crc 8). assert (is_u 8 hi) as Hh.
  { unfold hi, is_u in *. rewrite Z.shiftr_div_pow2 by lia. split; [apply Z.div_pos; lia|apply Z.div_lt_upper_bound; lia]. }
  assert (Z.land hi 0xff = hi) as Eh by (change 0xff with (Z.ones 8); rewrite <-wrap_land by lia; by apply wrap_id).
  rewrite land_lxor_l, cz_low, Eh. set (i := Z.lxor hi (bz c)). assert (is_u 8 i) as Hi by (apply lxor_bound; [lia|done|apply bz_range]).
  destruct (crc16_tables i Hi) as (Et & _ & Ht). destruct (crc16_tables (wrap 8 crc) ltac:(by apply wrap_is_u)) as (_ & El & _).
  split; [|by apply wrap_is_u]. rewrite (split_low crc 8) at 2 by lia. fold hi.
  replace (Z.lxor (Z.lxor (Z.shiftl hi 8) (wrap 8 crc)) (Z.shiftl (bz c) 8)) with (Z.lxor (wrap 8 crc) (Z.shiftl i 8))
    by (unfold i; by rewrite Z.shiftl_lxor, (Z.lxor_comm (Z.shiftl hi 8) (wrap 8 crc)), Z.lxor_assoc).
  rewrite (iter_linear _ 8 crc16_bit_linear), El, <-Et, wrap_land, land_lxor_l, <-!wrap_land by lia. rewrite (wrap_id 16 (table_at _ _)) by done.
  f_equal. rewrite wrap_land by lia. apply Z.bits_inj'. intros j Hj. rewrite Z.land_spec, !wrap_land by lia.
  destruct (Z.lt_ge_cases j 8); [by rewrite !Z.shiftl_spec_low by lia|]. rewrite !Z.shiftl_spec, Z.land_spec by lia. rewrite !Z.testbit_ones by lia.
  f_equal. f_equal; lia.
Qed.

Lemma crc16_ref_ok buf : crc16 buf = crc16_ref buf /\ is_u16 (crc16 buf).
Proof.
  unfold crc16, crc16_ref. assert (is_u16 0) as H0 by done. revert H0. generalize 0 as crc. induction buf as [|c buf IH]; intros crc Hc; [done|].
  cbn [foldl]. destruct (crc16_step_ref crc c Hc) as [<- Hs]. by apply IH.
Qed.

(** ** CRC-64 bit by bit, in the reflected order of the bits. *)

Definition crc64_poly : Z := 0x95ac9329ac4bc9b5.

Definition crc64_bit (c : Z) : Z := Z.lxor (Z.shiftr c 1) (if Z.testbit c 0 then crc64_poly else 0).

Definition crc64_ref (crc : Z) (s : bytes) : Z := foldl (fun crc b => Nat.iter 8 crc64_bit (Z.lxor crc (bz b))) crc s.

Lemma crc64_bit_linear : xor_linear crc64_bit.
Proof.
  intros a b. unfold crc64_bit. rewrite Z.lxor_spec, Z.shiftr_lxor. generalize (Z.shiftr a 1), (Z.shiftr b 1). intros x y.
  apply Z.bits_inj'. intros i Hi. destruct (Z.testbit a 0), (Z.testbit b 0); cbn [xorb]; rewrite !Z.lxor_spec, ?Z.bits_0; by repeat destruct (Z.testbit _ _).
Qed.

Lemma crc64_bit_shift x k : 0 < k -> crc64_bit (Z.shiftl x k) = Z.shiftl x (k - 1).
Proof.
  intros Hk. unfold crc64_bit. rewrite Z.shiftl_spec_low, Z.lxor_0_r by lia. by rewrite Z.shiftr_shiftl_l by lia.
Qed.

Definition crc64_table_ok (i : Z) : bool := table_at crc64_tab i =? Nat.iter 8 crc64_bit i.

Lemma crc64_table i : 0 <= i < 256 -> table_at crc64_tab i = Nat.iter 8 crc64_bit i.
Proof. intros Hi. apply Z.eqb_eq. exact (check_below crc64_table_ok 256 i ltac:(by vm_compute) Hi). Qed.

Lemma crc64_step_ref crc c : crc64_step crc c = Nat.iter 8 crc64_bit (Z.lxor crc (bz c)).
Proof.
  unfold crc64_step. set (h := Z.shiftr crc 8). rewrite (split_low crc 8) at 2 by lia. fold h. rewrite Z.lxor_assoc, (iter_linear _ 8 crc64_bit_linear).
  rewrite crc64_table by (apply (lxor_bound _ _ 8); [lia|by apply wrap_is_u|apply bz_range]). rewrite Z.lxor_comm. f_equal.
  rewrite !Nat.iter_succ_r. do 8 (rewrite crc64_bit_shift by lia). change (h = Z.shiftl h 0). by rewrite Z.shiftl_0_r.
Qed.

(** The table-driven checksums are the shift registers of their polynomials: [crc16] the one of
    CRC-16/XMODEM, [crc64] the reflected one of Jones. *)
Theorem crc_tables_exact buf crc : crc16 buf = crc16_ref buf /\ crc64 crc buf = crc64_ref crc buf.
Proof.
  split; [apply crc16_ref_ok|]. unfold crc64, crc64_ref. revert crc. induction buf as [|c s IH]; intros crc; [done|]. cbn [foldl]. by rewrite crc64_step_ref, IH.
Qed.

(** * Hash slots *)

Lemma find_from_spec c s : forall i,
  ((c ∉ s) /\ find_from c i s = i + zlen s) \/ exists a b, s = a ++ c :: b /\ (c ∉ a) /\ find_from c i s = i + zlen a.
Proof.
  induction s as [|x s IH]; intros i; cbn [find_from]; [left; split; [apply not_elem_of_nil|rewrite zlen_nil; lia]|].
  case_bool_decide as E; [subst x; right; exists [], s; rewrite zlen_nil; split; [done|]; split; [apply not_elem_of_nil|lia]|].
  destruct (IH (i + 1)) as [[Hn ->]|(a & b & -> & Ha & ->)]; rewrite ?zlen_cons.
  - left. split; [by apply not_elem_of_cons|lia].
  - right. exists (x :: a), b. rewrite zlen_cons. split; [done|]. split; [by apply not_elem_of_cons|lia].
Qed.

(** The key has the hash tag [t]: what is between its first brace and the next closing one. *)
Definition tagged (key t : bytes) : Prop := exists a b, key = a ++ x7b :: t ++ x7d :: b /\ (x7b ∉ a) /\ (x7d ∉ t) /\ t <> [].

Lemma land_3fff z : Z.land z 0x3fff = z mod 16384.
Proof. change 0x3fff with (Z.ones 14). by rewrite Z.land_ones. Qed.

Lemma split_unique {A} `{EqDecision A} (c : A) a b a' b' : a ++ c :: b = a' ++ c :: b' -> c ∉ a -> c ∉ a' -> a = a' /\ b = b'.
Proof.
  revert a'. induction a as [|x a IH]; intros [|x' a'] E Ha Ha'; cbn [app] in E.
  - by injection E.
  - injection E as <- _. destruct Ha'. by apply list_elem_of_here.
  - injection E as -> _. destruct Ha. by apply list_elem_of_here.
  - injection E as <- E. apply not_elem_of_cons in Ha as [_ Ha], Ha' as [_ Ha']. destruct (IH a' E Ha Ha') as [-> ->]. done.
Qed.

(** The slot of a key is below 16384; it is the checksum of the hash tag of a key that has one,
    so that keys with the same tag share their slot, and the checksum of the whole key otherwise. *)
Theorem keyHashSlot_tag key :
  0 <= keyHashSlot key < 16384 /\ (forall t, tagged key t -> keyHashSlot key = crc16_ref t mod 16384) /\
  ((forall t, ~ tagged key t) -> keyHashSlot key = crc16_ref key mod 16384).
Proof.
  assert (forall k, 0 <= crc16 k mod 16384 < 16384) as Hb by (intros k; apply Z.mod_pos_bound; lia).
  assert (forall k, crc16 k = crc16_ref k) as Ec by (intros k; apply crc16_ref_ok).
  unfold keyHashSlot. cbv zeta. rewrite !land_3fff. destruct (find_from_spec x7b key 0) as [[Hn ->]|(a & r & -> & Ha & ->)]; rewrite Z.add_0_l.
  { rewrite Z.eqb_refl. split; [done|]. split; [|by rewrite Ec]. intros t (a & b & -> & _). clear Hb. destruct Hn. set_solver. }
  rewrite zlen_app, zlen_cons. pose proof (zlen_nonneg r). replace (zlen a =? zlen a + (1 + zlen r)) with false by lia.
  replace (zdrop (zlen a + 1) (a ++ x7b :: r)) with r by (rewrite zdrop_app_plus by lia; cbn [zdrop]; by rewrite zdrop_0).
  destruct (find_from_spec x7d r (zlen a + 1)) as [[Hn ->]|(t & b & -> & Ht & ->)].
  { replace (zlen a + 1 + zlen r =? zlen a + (1 + zlen r)) with true by lia. cbn [orb]. split; [done|]. split; [|by rewrite Ec].
    intros t (a' & b & E & Ha' & _). apply split_unique in E as [_ ->]; [|done|done]. clear Hb. destruct Hn. set_solver. }
  rewrite zlen_app, zlen_cons. pose proof (zlen_nonneg b). replace (zlen a + 1 + zlen t =? zlen a + (1 + (zlen t + (1 + zlen b)))) with false by lia. cbn [orb].
  assert (forall t', tagged (a ++ x7b :: t ++ x7d :: b) t' -> t' = t /\ t <> []) as Hu.
  { intros t' (a' & b' & E & Ha' & Ht' & Hne). apply split_unique in E as [_ E]; [|done|done]. apply split_unique in E as [-> _]; done. }
  destruct (Z.eqb_spec (zlen a + 1 + zlen t) (zlen a + 1)) as [E|E].
  { split; [done|]. split; [|by rewrite Ec]. intros t' Hg. destruct (Hu t' Hg) as [_ Hne]. destruct Hne. apply zlen_0_nil. lia. }
  replace (zlen a + 1 + zlen t - zlen a - 1) with (zlen t) by lia. rewrite ztake_app. split; [done|]. rewrite Ec.
  split; [by intros t' [-> _]%Hu|]. intros Hno. destruct (Hno t). exists a, b. split_and!; [done|done|done|]. intros ->. apply E. rewrite zlen_nil. lia.
Qed.
