(* ===== verification/Bits.v ===== *)
(** Ports of Redis (utils/redis_port.cpp): counting bits and searching for a bit, a word at a time. *)

From Stdlib Require Import Strings.Byte ZArith Lia.
From stdpp Require Import base list numbers strings.
From S2P Require Import Prelude Status RedisPort.

Local Open Scope Z_scope.

(** * Definitions *)

(** A word in memory, its first byte the lowest. *)
Fixpoint load_le (s : bytes) : Z :=
  match s with
  | [] => 0
  | c :: s' => bz c + 256 * load_le s'
  end.

(** ** popCount *)

Definition bitsinbyte : list Z :=
  [0; 1; 1; 2; 1; 2; 2; 3; 1; 2; 2; 3; 2; 3; 3; 4; 1; 2; 2; 3; 2; 3; 3; 4; 2; 3; 3; 4; 3; 4; 4; 5;
   1; 2; 2; 3; 2; 3; 3; 4; 2; 3; 3; 4; 3; 4; 4; 5; 2; 3; 3; 4; 3; 4; 4; 5; 3; 4; 4; 5; 4; 5; 5; 6;
   1; 2; 2; 3; 2; 3; 3; 4; 2; 3; 3; 4; 3; 4; 4; 5; 2; 3; 3; 4; 3; 4; 4; 5; 3; 4; 4; 5; 4; 5; 5; 6;
   2; 3; 3; 4; 3; 4; 4; 5; 3; 4; 4; 5; 4; 5; 5; 6; 3; 4; 4; 5; 4; 5; 5; 6; 4; 5; 5; 6; 5; 6; 6; 7;
   1; 2; 2; 3; 2; 3; 3; 4; 2; 3; 3; 4; 3; 4; 4; 5; 2; 3; 3; 4; 3; 4; 4; 5; 3; 4; 4; 5; 4; 5; 5; 6;
   2; 3; 3; 4; 3; 4; 4; 5; 3; 4; 4; 5; 4; 5; 5; 6; 3; 4; 4; 5; 4; 5; 5; 6; 4; 5; 5; 6; 5; 6; 6; 7;
   2; 3; 3; 4; 3; 4; 4; 5; 3; 4; 4; 5; 4; 5; 5; 6; 3; 4; 4; 5; 4; 5; 5; 6; 4; 5; 5; 6; 5; 6; 6; 7;
   3; 4; 4; 5; 4; 5; 5; 6; 4; 5; 5; 6; 5; 6; 6; 7; 4; 5; 5; 6; 5; 6; 6; 7; 5; 6; 6; 7; 6; 7; 7; 8].

(** The bytes up to a multiple of four; [addr] is the address of [p]. *)
Fixpoint pop_head (addr : Z) (p : bytes) (bits : Z) : Z * bytes :=
  match p with
  | c :: p' => if negb (Z.land addr 3 =? 0) then pop_head (addr + 1) p' (u64 (bits + table_at bitsinbyte (bz c))) else (bits, p)
  | [] => (bits, [])
  end.

(** The bits of a 32-bit word, added in groups of two, four and eight. *)
Definition pop_word (aux : Z) : Z :=
  let aux := u32 (aux - Z.land (Z.shiftr aux 1) 0x55555555) in
  let aux := u32 (Z.land aux 0x33333333 + Z.land (Z.shiftr aux 2) 0x33333333) in
  Z.shiftr (u32 (Z.land (u32 (aux + Z.shiftr aux 4)) 0x0f0f0f0f * 0x01010101)) 24.

(** Sixteen bytes at a time. *)
Fixpoint pop_blocks (fuel : nat) (p : bytes) (bits : Z) : Z * bytes :=
  match fuel with
  | O => (bits, p)
  | S fuel' =>
      if 16 <=? zlen p then
        let at_ i := pop_word (load_le (ztake 4 (zdrop i p))) in
        pop_blocks fuel' (zdrop 16 p) (u64 (bits + u32 (at_ 0 + at_ 4 + at_ 8 + at_ 12)))
      else (bits, p)
  end.

Fixpoint pop_tail (p : bytes) (bits : Z) : Z :=
  match p with
  | c :: p' => pop_tail p' (u64 (bits + table_at bitsinbyte (bz c)))
  | [] => bits
  end.

Definition popCount_ptr (addr : Z) (s : bytes) : Z :=
  let '(bits, p) := pop_head addr s 0 in
  let '(bits, p) := pop_blocks (length p) p bits in
  pop_tail p bits.

(** The bytes from [offset] to [end_]; behind the last there is the zero that ends a string. *)
Definition popCount (addr : Z) (value : bytes) (offset end_ : Z) : Z :=
  if end_ <? offset then 0 else
  if zlen value <=? offset then 0 else
  let end_ := if zlen value <? end_ then zlen value else end_ in
  popCount_ptr (addr + offset) (ztake (end_ - offset + 1) (zdrop offset (value ++ [x00]))).

(** ** bitPos *)

(** The bytes up to a multiple of eight, while they have only the other bit. *)
Fixpoint pos_head (addr : Z) (bit : bool) (p : bytes) (pos : Z) : bytes * Z :=
  match p with
  | c :: p' =>
      if negb (Z.land addr 7 =? 0) && (bz c =? if bit then 0 else 255) then pos_head (addr + 1) bit p' (pos + 8) else (p, pos)
  | [] => ([], pos)
  end.

(** Eight bytes at a time. *)
Fixpoint pos_words (fuel : nat) (bit : bool) (p : bytes) (pos : Z) : bytes * Z :=
  match fuel with
  | O => (p, pos)
  | S fuel' =>
      if (8 <=? zlen p) && (load_le (ztake 8 p) =? if bit then 0 else 2 ^ 64 - 1)
      then pos_words fuel' bit (zdrop 8 p) (pos + 64) else (p, pos)
  end.

(** The next [n] bytes, the first one the highest, zeros behind the end. *)
Fixpoint load_be (n : nat) (p : bytes) (word : Z) : Z :=
  match n with
  | O => word
  | S n' =>
      let word := u64 (Z.shiftl word 8) in
      match p with
      | c :: p' => load_be n' p' (Z.lor word (bz c))
      | [] => load_be n' [] word
      end
  end.

Section BitPos.
Context {BM : BuildMode}.

(** The scan from the bit [n - 1] down. *)
Fixpoint pos_scan (n : nat) (bit : bool) (word pos : Z) : M Z :=
  match n with
  | O => _ ← INVARIANT_D false; Ret 0
  | S n' => if Bool.eqb (negb (Z.land (2 ^ Z.of_nat n') word =? 0)) bit then Ret pos else pos_scan n' bit word (pos + 1)
  end.

Definition bitPos_ptr (addr : Z) (s : bytes) (bit : bool) : M Z :=
  let '(p, pos) := pos_head addr bit s 0 in
  let '(p, pos) := pos_words (length p) bit p pos in
  let word := load_be 8 p 0 in
  if bit && (word =? 0) then Ret (-1) else pos_scan 64 bit word pos.

(** The bytes from [start] to [end_]; a range of which the end is before the start by more than one
    makes the count wrap around. The products are of type [size_t], and the result is converted to
    [int64_t]. *)
Definition bitPos (addr : Z) (fragment : bytes) (start end_ : Z) (bit : bool) : M Z :=
  let end_ := if zlen fragment <=? end_ then u64 (zlen fragment - 1) else end_ in
  if zlen fragment <=? start then Ret (if bit then -1 else s64 (u64 (start * 8))) else
  if end_ + 1 <? start then Crash CUndefined else
  pos ← bitPos_ptr (addr + start) (ztake (end_ - start + 1) (zdrop start fragment)) bit;
  Ret (if pos =? -1 then pos else s64 (u64 (u64 (start * 8) + u64 pos))).

End BitPos.

(** * The bits of a string *)

(** From the highest bit of the first byte on. *)
Definition bits_of (c : byte) : list bool := map (Z.testbit (bz c)) [7; 6; 5; 4; 3; 2; 1; 0].

Definition bit_list (s : bytes) : list bool := concat (map bits_of s).

Definition count_ones (l : list bool) : Z := zlen (List.filter id l).

Lemma count_ones_app a b : count_ones (a ++ b) = count_ones a + count_ones b.
Proof. unfold count_ones. by rewrite List.filter_app, zlen_app. Qed.

Definition bit_count (s : bytes) : Z := count_ones (bit_list s).

Lemma bit_count_app a b : bit_count (a ++ b) = bit_count a + bit_count b.
Proof. unfold bit_count, bit_list. by rewrite map_app, concat_app, count_ones_app. Qed.

Lemma bit_count_cons c s : bit_count (c :: s) = bit_count [c] + bit_count s.
Proof. exact (bit_count_app [c] s). Qed.

Lemma check_bytes (P : byte -> bool) c : forallb (fun i => P (u8 i)) (seqZ 0 256) = true -> P c = true.
Proof. intros HP. rewrite <-(u8_bz c). apply (check_below (fun i => P (u8 i)) 256); [done|apply bz_range]. Qed.

Lemma bit_count_byte c : table_at bitsinbyte (bz c) = bit_count [c] /\ 0 <= bit_count [c] <= 8.
Proof.
  pose proof (check_bytes (fun c => (table_at bitsinbyte (bz c) =? bit_count [c]) && (0 <=? bit_count [c]) && (bit_count [c] <=? 8)) c ltac:(by vm_compute)) as Hc.
  cbn beta in Hc. rewrite !andb_true_iff, Z.eqb_eq, !Z.leb_le in Hc. tauto.
Qed.

Lemma bit_count_bound s : 0 <= bit_count s <= 8 * zlen s.
Proof.
  induction s as [|c s IH]; [done|]. rewrite bit_count_cons, zlen_cons. pose proof (bit_count_byte c). lia.
Qed.

(** * Counting *)

(** A word from the numbers of its bytes. *)
Fixpoint word_of (l : list Z) : Z :=
  match l with
  | [] => 0
  | b :: l' => b + 256 * word_of l'
  end.

Lemma testbit_high x w i : is_u w x -> 0 <= w <= i -> Z.testbit x i = false.
Proof. intros Hx Hi. rewrite <-(wrap_id w x Hx), wrap_land, Z.land_spec, Z.ones_spec_high by lia. apply andb_false_r. Qed.

Lemma land_is_u x m w : 0 <= w -> is_u w m -> is_u w (Z.land x m).
Proof.
  intros Hw Hm. assert (Z.land x m = wrap w (Z.land x m)) as ->; [|by apply wrap_is_u].
  rewrite wrap_land, <-Z.land_assoc, <-wrap_land by done. by rewrite wrap_id.
Qed.

Lemma testbit_join b y i : is_u 8 b -> 0 <= i -> Z.testbit (b + 256 * y) i = if i <? 8 then Z.testbit b i else Z.testbit y (i - 8).
Proof.
  intros Hb Hi. replace (b + 256 * y) with (Z.lor (Z.shiftl y 8) b) by (rewrite lor_shiftl_add by (unfold is_u in Hb; lia); lia).
  rewrite Z.lor_spec, Z.shiftl_spec by done. destruct (Z.ltb_spec i 8); [by rewrite Z.testbit_neg_r by lia|].
  rewrite (testbit_high b 8 i) by (done || lia). apply orb_false_r.
Qed.

Lemma land_byte b y m M k : is_u 8 b -> 0 <= k < 8 -> is_u (8 - k) m ->
  Z.land (Z.shiftr (b + 256 * y) k) (m + 256 * M) = Z.land (Z.shiftr b k) m + 256 * Z.land (Z.shiftr y k) M.
Proof.
  intros Hb Hk Hm. assert (is_u 8 m) as Hm8 by (by apply (is_u_le (8 - k)); [lia|]). apply Z.bits_inj'. intros i Hi.
  rewrite (testbit_join _ _ i) by (done || by apply land_is_u). rewrite Z.land_spec, Z.shiftr_spec, !testbit_join by (done || lia).
  rewrite !Z.land_spec. destruct (Z.ltb_spec i 8).
  - rewrite Z.shiftr_spec by lia. destruct (Z.ltb_spec (i + k) 8); [done|]. by rewrite (testbit_high m (8 - k) i), !andb_false_r by (done || lia).
  - replace (i + k <? 8) with false by lia. rewrite Z.shiftr_spec by lia. do 2 f_equal. lia.
Qed.

Lemma land_bytes k m l n : length l = n -> 0 <= k < 8 -> is_u (8 - k) m -> Forall (is_u 8) l ->
  Z.land (Z.shiftr (word_of l) k) (word_of (replicate n m)) = word_of (map (fun b => Z.land (Z.shiftr b k) m) l).
Proof.
  intros <- Hk Hm Hl. induction Hl as [|b l Hb Hl IH]; cbn [word_of length replicate map]; [by rewrite Z.land_0_r|]. by rewrite land_byte, IH.
Qed.

(** The steps of [pop_word] on a byte. *)
Definition pop2 (b : Z) : Z := b - Z.land (Z.shiftr b 1) 0x55.

Definition pop4 (b : Z) : Z := Z.land (Z.shiftr b 0) 0x33 + Z.land (Z.shiftr b 2) 0x33.

Lemma pop_byte c : is_u 8 (pop2 (bz c)) /\ let v := pop4 (pop2 (bz c)) in
  exists lo hi, v = lo + 16 * hi /\ 0 <= lo <= 4 /\ 0 <= hi <= 4 /\ lo + hi = bit_count [c].
Proof.
  set (P c := let v := pop4 (pop2 (bz c)) in (0 <=? pop2 (bz c)) && (pop2 (bz c) <? 256) && (0 <=? v) && (v mod 16 <=? 4) && (v / 16 <=? 4) && (v mod 16 + v / 16 =? bit_count [c])).
  pose proof (check_bytes P c ltac:(by vm_compute)) as Hc. unfold P in Hc. cbv zeta in Hc. rewrite !andb_true_iff, Z.eqb_eq, !Z.leb_le, Z.ltb_lt in Hc.
  destruct Hc as [[[[[H1 H2] H3] H4] H5] H6]. split; [by unfold is_u|]. exists (pop4 (pop2 (bz c)) mod 16), (pop4 (pop2 (bz c)) / 16).
  pose proof (Z.div_mod (pop4 (pop2 (bz c))) 16 ltac:(lia)). pose proof (Z.mod_pos_bound (pop4 (pop2 (bz c))) 16 ltac:(lia)).
  pose proof (Z.div_pos (pop4 (pop2 (bz c))) 16 H3 ltac:(lia)). split_and!; lia.
Qed.

Lemma word4_is_u a b c d : is_u 8 a -> is_u 8 b -> is_u 8 c -> is_u 8 d -> is_u32 (word_of [a; b; c; d]).
Proof. unfold is_u. cbn [word_of]. lia. Qed.

(** The sum of the bytes, by a multiplication. *)
Lemma sum_bytes a b c d : 0 <= a <= 8 -> 0 <= b <= 8 -> 0 <= c <= 8 -> 0 <= d <= 8 ->
  Z.shiftr (u32 (word_of [a; b; c; d] * 0x01010101)) 24 = a + b + c + d.
Proof.
  intros Ha Hb Hc Hd. set (r := a + 256 * (a + b) + 65536 * (a + b + c)).
  assert (u32 (word_of [a; b; c; d] * 0x01010101) = r + 2 ^ 24 * (a + b + c + d)) as ->.
  { symmetry. apply (Z.mod_unique _ _ ((b + c + d) + 256 * (c + d) + 65536 * d)); [left; unfold r; lia|]. unfold r. cbn [word_of]. ring. }
  rewrite Z.shiftr_div_pow2 by lia. symmetry. apply (Z.div_unique _ _ _ r); [left; unfold r; lia|lia].
Qed.

Lemma pop_word_ok a b c d : pop_word (load_le [a; b; c; d]) = bit_count [a; b; c; d].
Proof.
  destruct (pop_byte a) as (Ua & la & ha & Ea & La & Ha & Ca), (pop_byte b) as (Ub & lb & hb & Eb & Lb & Hb & Cb).
  destruct (pop_byte c) as (Uc & lc & hc & Ec & Lc & Hc & Cc), (pop_byte d) as (Ud & ld & hd & Ed & Ld & Hd & Cd).
  unfold pop_word. change (load_le [a; b; c; d]) with (word_of [bz a; bz b; bz c; bz d]).
  change 0x55555555 with (word_of (replicate 4 0x55)). change 0x33333333 with (word_of (replicate 4 0x33)). change 0x0f0f0f0f with (word_of (replicate 4 0x0f)).
  rewrite (land_bytes 1 0x55 [bz a; bz b; bz c; bz d] 4) by (done || (rewrite !Forall_cons; split_and!; [apply bz_range..|done]) || (unfold is_u; lia)).
  replace (word_of [bz a; bz b; bz c; bz d] - _) with (word_of [pop2 (bz a); pop2 (bz b); pop2 (bz c); pop2 (bz d)]) by (unfold pop2; cbn [map word_of]; ring).
  rewrite (wrap_id 32 (word_of _)) by (by apply word4_is_u). set (w2 := [pop2 (bz a); pop2 (bz b); pop2 (bz c); pop2 (bz d)]).
  assert (Forall (is_u 8) w2) as H2 by (unfold w2; by rewrite !Forall_cons).
  assert (u32 (Z.land (word_of w2) (word_of (replicate 4 0x33)) + Z.land (Z.shiftr (word_of w2) 2) (word_of (replicate 4 0x33))) =
    word_of [la + 16 * ha; lb + 16 * hb; lc + 16 * hc; ld + 16 * hd]) as ->.
  { rewrite <-(Z.shiftr_0_r (word_of w2)) at 1. rewrite (land_bytes 0 0x33 w2 4), (land_bytes 2 0x33 w2 4) by (done || (unfold is_u; lia)).
    replace (word_of (map _ w2) + word_of _) with (word_of [la + 16 * ha; lb + 16 * hb; lc + 16 * hc; ld + 16 * hd])
      by (rewrite <-Ea, <-Eb, <-Ec, <-Ed; unfold pop4, w2; cbn [map word_of]; ring).
    apply wrap_id, word4_is_u; unfold is_u; lia. }
  replace (Z.shiftr (word_of [la + 16 * ha; lb + 16 * hb; lc + 16 * hc; ld + 16 * hd]) 4) with (word_of [ha + 16 * lb; hb + 16 * lc; hc + 16 * ld; hd])
    by (rewrite Z.shiftr_div_pow2 by lia; apply (Z.div_unique _ _ _ la); [left; lia|cbn [word_of]; ring]).
  set (w := [(la + ha) + 16 * (ha + lb); (lb + hb) + 16 * (hb + lc); (lc + hc) + 16 * (hc + ld); (ld + hd) + 16 * hd]).
  replace (word_of [la + 16 * ha; lb + 16 * hb; lc + 16 * hc; ld + 16 * hd] + word_of [ha + 16 * lb; hb + 16 * lc; hc + 16 * ld; hd]) with (word_of w)
    by (unfold w; cbn [word_of]; ring).
  rewrite (wrap_id 32 (word_of w)) by (apply word4_is_u; unfold is_u; lia). rewrite <-(Z.shiftr_0_r (word_of w)).
  rewrite (land_bytes 0 0x0f w 4) by (done || (unfold is_u; lia) || (unfold w; rewrite !Forall_cons; unfold is_u; split_and!; lia || done)).
  replace (map _ w) with [la + ha; lb + hb; lc + hc; ld + hd].
  { rewrite sum_bytes by lia. rewrite (bit_count_cons a), (bit_count_cons b), (bit_count_cons c). lia. }
  assert (forall p q, 0 <= p <= 8 -> Z.land (Z.shiftr (p + 16 * q) 0) 15 = p) as Em.
  { intros p q Hp. rewrite Z.shiftr_0_r. change 15 with (Z.ones 4). rewrite Z.land_ones by lia. symmetry. apply (Z.mod_unique _ _ q); lia. }
  unfold w. cbn [map]. by rewrite !Em by lia.
Qed.

(** What is counted and what is left to count stay the same in sum. *)
Lemma pop_head_ok p : forall addr bits bits' p', 0 <= bits -> bits + bit_count p < 2 ^ 64 -> pop_head addr p bits = (bits', p') ->
  0 <= bits' /\ bits' + bit_count p' = bits + bit_count p.
Proof.
  induction p as [|c p IH]; intros addr bits bits' p' H0 Hb E; cbn [pop_head] in E; [by injection E as <- <-|].
  destruct (negb _); [|by injection E as <- <-]. rewrite bit_count_cons in *. destruct (bit_count_byte c) as [Ec Hc]. rewrite Ec in E.
  pose proof (bit_count_bound p). rewrite wrap_id in E by (unfold is_u; lia). apply IH in E as [? ?]; lia.
Qed.

Lemma pop_tail_ok p : forall bits, 0 <= bits -> bits + bit_count p < 2 ^ 64 -> pop_tail p bits = bits + bit_count p.
Proof.
  induction p as [|c p IH]; intros bits H0 Hb; cbn [pop_tail]; [by rewrite Z.add_0_r|]. rewrite bit_count_cons in *.
  destruct (bit_count_byte c) as [Ec Hc]. pose proof (bit_count_bound p). rewrite Ec, wrap_id by (unfold is_u; lia). rewrite IH; lia.
Qed.

(** Four bytes off the string at [i]. *)
Lemma pop_word_at p i j : 0 <= i -> j = i + 4 -> j <= zlen p ->
  pop_word (load_le (ztake 4 (zdrop i p))) + bit_count (zdrop j p) = bit_count (zdrop i p) /\ 0 <= pop_word (load_le (ztake 4 (zdrop i p))) <= 32.
Proof.
  intros Hi -> Hl. rewrite <-(zdrop_zdrop 4 i p) by lia. assert (4 <= zlen (zdrop i p)) as Hq by (rewrite zlen_drop; lia). revert Hq. generalize (zdrop i p). intros q Hq.
  assert (zlen (ztake 4 q) = 4) as H4 by (apply zlen_take; lia). rewrite <-(ztake_zdrop 4 q) at 3. rewrite bit_count_app.
  pose proof (bit_count_bound (ztake 4 q)) as Hb. destruct (ztake 4 q) as [|a [|b [|c [|d [|e l]]]]]; try (unfold zlen in H4; cbn in H4; lia).
  rewrite pop_word_ok. lia.
Qed.

Lemma pop_blocks_ok n : forall p bits bits' p', 0 <= bits -> bits + bit_count p < 2 ^ 64 -> pop_blocks n p bits = (bits', p') ->
  0 <= bits' /\ bits' + bit_count p' = bits + bit_count p.
Proof.
  induction n as [|n IH]; intros p bits bits' p' H0 Hb E; cbn [pop_blocks] in E; [by injection E as <- <-|].
  destruct (Z.leb_spec 16 (zlen p)) as [Hl|]; [|by injection E as <- <-].
  destruct (pop_word_at p 0 4) as [E0 B0]; [lia..|]. destruct (pop_word_at p 4 8) as [E4 B4]; [lia..|].
  destruct (pop_word_at p 8 12) as [E8 B8]; [lia..|]. destruct (pop_word_at p 12 16) as [E12 B12]; [lia..|].
  cbv beta zeta in E. rewrite zdrop_0 in *. pose proof (bit_count_bound (zdrop 16 p)).
  rewrite (wrap_id 32) in E by (unfold is_u; lia). rewrite wrap_id in E by (unfold is_u; lia). apply IH in E as [? ?]; lia.
Qed.

Lemma popCount_ptr_ok addr s : zlen s < 2 ^ 61 -> popCount_ptr addr s = bit_count s.
Proof.
  intros Hs. pose proof (bit_count_bound s). unfold popCount_ptr. destruct (pop_head addr s 0) as [b1 p1] eqn:E1.
  apply pop_head_ok in E1 as [H1 E1]; [|lia|lia]. destruct (pop_blocks (length p1) p1 b1) as [b2 p2] eqn:E2.
  apply pop_blocks_ok in E2 as [H2 E2]; [|lia|lia]. rewrite pop_tail_ok; lia.
Qed.

(** * Searching *)

(** The place of the first [b], or the length. *)
Fixpoint first_bit (b : bool) (l : list bool) : Z :=
  match l with
  | [] => 0
  | x :: l' => if Bool.eqb x b then 0 else 1 + first_bit b l'
  end.

Lemma first_bit_bound b l : 0 <= first_bit b l <= zlen l.
Proof. induction l as [|x l IH]; cbn [first_bit]; [done|]. rewrite zlen_cons. destruct (Bool.eqb x b); lia. Qed.

Lemma first_bit_skip b l k : Forall (fun x => x = negb b) l -> first_bit b (l ++ k) = zlen l + first_bit b k.
Proof.
  induction 1 as [|x l Hx Hl IH]; [done|]. subst x. cbn [app first_bit]. rewrite zlen_cons, IH. destruct b; cbn; lia.
Qed.

Lemma first_bit_found b l k : first_bit b l < zlen l -> first_bit b (l ++ k) = first_bit b l.
Proof.
  induction l as [|x l IH]; cbn [first_bit app]; [unfold zlen; cbn; lia|]. rewrite zlen_cons. destruct (Bool.eqb x b); [done|]. intros Hl. rewrite IH; lia.
Qed.

Lemma first_bit_none b l : first_bit b l = zlen l <-> Forall (fun x => x = negb b) l.
Proof.
  split.
  - induction l as [|x l IH]; [done|]. cbn [first_bit]. rewrite zlen_cons. pose proof (zlen_nonneg l). destruct (Bool.eqb x b) eqn:E; [lia|]. intros Hl.
    constructor; [by destruct x, b|]. apply IH. lia.
  - intros Hl. pose proof (first_bit_skip b l [] Hl) as E. rewrite app_nil_r in E. cbn [first_bit] in E. lia.
Qed.

Lemma zlen_bit_list s : zlen (bit_list s) = 8 * zlen s.
Proof. induction s as [|c s IH]; [done|]. change (bit_list (c :: s)) with (bits_of c ++ bit_list s). rewrite zlen_app, zlen_cons, IH. change (zlen (bits_of c)) with 8. lia. Qed.

Lemma bit_list_app a b : bit_list (a ++ b) = bit_list a ++ bit_list b.
Proof. unfold bit_list. by rewrite map_app, concat_app. Qed.

(** A byte, or a word, that has only the other bit. *)
Definition skip_byte (bit : bool) : Z := if bit then 0 else 255.

Lemma skip_byte_bits bit c : bz c = skip_byte bit <-> Forall (fun x => x = negb bit) (bits_of c).
Proof.
  pose proof (check_bytes (fun c => Bool.eqb (bz c =? skip_byte bit) (forallb (fun x => Bool.eqb x (negb bit)) (bits_of c))) c) as Hc. cbn beta in Hc.
  rewrite <-Z.eqb_eq, (Bool.eqb_prop _ _ (Hc ltac:(by destruct bit; vm_compute))), forallb_forall, Forall_forall.
  split; intros HF x Hx; [apply Bool.eqb_prop|rewrite eqb_true_iff]; apply HF; by apply list_elem_of_In.
Qed.

Lemma skip_bytes_bits bit s : Forall (fun c => bz c = skip_byte bit) s <-> Forall (fun x => x = negb bit) (bit_list s).
Proof.
  induction s as [|c s IH]; [done|]. change (bit_list (c :: s)) with (bits_of c ++ bit_list s). rewrite Forall_cons, Forall_app, IH. by rewrite skip_byte_bits.
Qed.

Lemma load_le_bound s : 0 <= load_le s < 256 ^ zlen s.
Proof.
  induction s as [|c s IH]; [done|]. cbn [load_le]. pose proof (bz_range c). pose proof (zlen_nonneg s).
  rewrite zlen_cons, Z.pow_add_r by lia. lia.
Qed.

Lemma load_le_skip (bit : bool) s : load_le s = (if bit then 0 else 256 ^ zlen s - 1) <-> Forall (fun c => bz c = skip_byte bit) s.
Proof.
  induction s as [|c s IH]; [by destruct bit|]. cbn [load_le]. rewrite Forall_cons, <-IH, zlen_cons. pose proof (bz_range c). pose proof (zlen_nonneg s).
  pose proof (load_le_bound s). rewrite Z.pow_add_r by lia. destruct bit; cbn [skip_byte]; lia.
Qed.

Lemma pos_head_ok bit p : forall addr pos p' pos', pos_head addr bit p pos = (p', pos') ->
  pos' + first_bit bit (bit_list p') = pos + first_bit bit (bit_list p) /\ pos' + 8 * zlen p' = pos + 8 * zlen p.
Proof.
  induction p as [|c p IH]; intros addr pos p' pos' E; cbn [pos_head] in E; [by injection E as <- <-|].
  destruct (_ && _) eqn:Hc; [|by injection E as <- <-]. apply andb_true_iff in Hc as [_ Hc%Z.eqb_eq]. apply IH in E as [E1 E2].
  change (bit_list (c :: p)) with (bits_of c ++ bit_list p). rewrite first_bit_skip by (by apply skip_byte_bits). change (zlen (bits_of c)) with 8.
  rewrite zlen_cons. lia.
Qed.

Lemma pos_words_ok bit n : forall p pos p' pos', (length p <= n)%nat -> pos_words n bit p pos = (p', pos') ->
  pos' + first_bit bit (bit_list p') = pos + first_bit bit (bit_list p) /\ pos' + 8 * zlen p' = pos + 8 * zlen p /\
  (8 <= zlen p' -> first_bit bit (bit_list (ztake 8 p')) < 64).
Proof.
  induction n as [|n IH]; intros p pos p' pos' Hn E; cbn [pos_words] in E.
  { injection E as <- <-. split; [done|]. split; [done|]. unfold zlen. lia. }
  destruct (Z.leb_spec 8 (zlen p)) as [Hl|]; cbn [andb] in E; [|injection E as <- <-; split; [done|]; split; [done|lia]].
  assert (zlen (ztake 8 p) = 8) as Hz by (apply zlen_take; lia). pose proof (zlen_bit_list (ztake 8 p)) as Hb.
  pose proof (load_le_skip bit (ztake 8 p)) as Hs. rewrite Hz in Hs. change (256 ^ 8 - 1) with (2 ^ 64 - 1) in Hs.
  destruct (Z.eqb_spec (load_le (ztake 8 p)) (if bit then 0 else 2 ^ 64 - 1)) as [Ew|Ew].
  - apply IH in E as (E1 & E2 & E3); [|rewrite zdrop_drop, length_drop; lia]. rewrite zlen_drop in E2 by lia. apply Hs, skip_bytes_bits in Ew.
    rewrite <-(ztake_zdrop 8 p) at 1. rewrite bit_list_app, first_bit_skip by done. split; [lia|]. split; [lia|done].
  - injection E as <- <-. split; [done|]. split; [done|]. intros _. pose proof (first_bit_bound bit (bit_list (ztake 8 p))) as Hfb.
    destruct (decide (first_bit bit (bit_list (ztake 8 p)) = zlen (bit_list (ztake 8 p)))) as [Ef|]; [|lia].
    apply first_bit_none, skip_bytes_bits, Hs in Ef. done.
Qed.

(** The bits of a word, from bit [n - 1] down. *)
Fixpoint word_bits (n : nat) (w : Z) : list bool :=
  match n with
  | O => []
  | S n' => Z.testbit w (Z.of_nat n') :: word_bits n' w
  end.

Lemma word_bits_join n c w : word_bits (n + 8) (bz c + 256 * w) = word_bits n w ++ bits_of c.
Proof.
  induction n as [|n IH].
  - unfold bits_of. cbn [word_bits Nat.add app map]. rewrite !testbit_join by (lia || apply bz_range). done.
  - cbn [word_bits Nat.add app]. rewrite IH. f_equal. rewrite testbit_join by (lia || apply bz_range).
    destruct (Z.ltb_spec (Z.of_nat (n + 8)) 8); [lia|]. f_equal. lia.
Qed.

(** The first [n] bytes of a string with zeros behind it. *)
Fixpoint pad (n : nat) (p : bytes) : bytes :=
  match n with
  | O => []
  | S n' => match p with c :: p' => c :: pad n' p' | [] => x00 :: pad n' [] end
  end.

Lemma pad_nil n : pad n [] = replicate n x00.
Proof. induction n as [|n IH]; [done|]. cbn [pad replicate]. by rewrite IH. Qed.

Lemma pad_short n p : (length p <= n)%nat -> pad n p = p ++ replicate (n - length p) x00.
Proof.
  revert p. induction n as [|n IH]; intros [|c p] Hn; cbn [length] in Hn; try lia; [done|by rewrite pad_nil|]. cbn [pad app length Nat.sub]. rewrite IH by lia. done.
Qed.

Lemma pad_long n p : (n <= length p)%nat -> pad n p = take n p.
Proof. revert p. induction n as [|n IH]; intros [|c p] Hn; cbn [length] in Hn; try lia; [done|done|]. cbn [pad take]. rewrite IH by lia. done. Qed.

Lemma length_pad n p : length (pad n p) = n.
Proof. revert p. induction n as [|n IH]; intros [|c p]; cbn [pad length]; by rewrite ?IH. Qed.

Definition word_be (w : Z) (s : bytes) : Z := foldl (fun w c => bz c + 256 * w) w s.

Lemma load_be_ok n : forall p w, 0 <= w -> (w + 1) * 256 ^ Z.of_nat n <= 2 ^ 64 -> load_be n p w = word_be w (pad n p).
Proof.
  induction n as [|n IH]; intros p w H0 Hw; [done|]. rewrite Nat2Z.inj_succ, Z.pow_succ_r in Hw by lia.
  assert (1 <= 256 ^ Z.of_nat n) by (pose proof (Z.pow_pos_nonneg 256 (Z.of_nat n)); lia). assert (256 * w + 256 <= 2 ^ 64) by nia.
  assert (u64 (Z.shiftl w 8) = 256 * w) as Es by (rewrite Z.shiftl_mul_pow2 by lia; rewrite wrap_id by (unfold is_u; lia); lia).
  assert (forall b, 0 <= b < 256 -> Z.lor (256 * w) b = b + 256 * w) as Ej.
  { intros b Hb. replace (256 * w) with (Z.shiftl w 8) at 1 by (rewrite Z.shiftl_mul_pow2; lia). rewrite lor_shiftl_add by lia. lia. }
  cbn [load_be pad]. rewrite Es. destruct p as [|c p]; cbn [word_be foldl].
  - change (bz x00 + 256 * w) with (256 * w). apply IH; [lia|nia].
  - pose proof (bz_range c). rewrite Ej by done. apply IH; [lia|nia].
Qed.

Lemma word_be_bits s : word_bits (8 * length s) (word_be 0 s) = bit_list s.
Proof.
  induction s as [|c s IH] using rev_ind; [done|]. unfold word_be. rewrite foldl_snoc, length_app. cbn [length].
  replace (8 * (length s + 1))%nat with (8 * length s + 8)%nat by lia. rewrite word_bits_join, bit_list_app. unfold word_be in IH. by rewrite IH.
Qed.

Lemma word_be_bound s : 0 <= word_be 0 s < 256 ^ zlen s.
Proof.
  induction s as [|c s IH] using rev_ind; [done|]. unfold word_be in *. rewrite foldl_snoc, zlen_app. change (zlen [c]) with 1. pose proof (zlen_nonneg s).
  pose proof (bz_range c). rewrite Z.pow_add_r by lia. lia.
Qed.

Lemma land_pow2 n w : 0 <= n -> negb (Z.land (2 ^ n) w =? 0) = Z.testbit w n.
Proof.
  intros Hn. assert (Z.land (2 ^ n) w = if Z.testbit w n then 2 ^ n else 0) as ->.
  { apply Z.bits_inj'. intros i Hi. rewrite Z.land_spec, Z.pow2_bits_eqb by done. destruct (Z.eqb_spec n i) as [->|Hne].
    - destruct (Z.testbit w i); [by rewrite Z.pow2_bits_true|by rewrite Z.bits_0].
    - cbn [andb]. destruct (Z.testbit w n); [by rewrite Z.pow2_bits_false|by rewrite Z.bits_0]. }
  destruct (Z.testbit w n); [|done]. pose proof (Z.pow_pos_nonneg 2 n). destruct (Z.eqb_spec (2 ^ n) 0); [lia|done].
Qed.

Lemma length_word_bits n w : length (word_bits n w) = n.
Proof. induction n as [|n IH]; cbn [word_bits length]; by rewrite ?IH. Qed.

Lemma pos_scan_ok {BM : BuildMode} bit w n : forall pos, first_bit bit (word_bits n w) < Z.of_nat n ->
  pos_scan n bit w pos = Ret (pos + first_bit bit (word_bits n w)).
Proof.
  induction n as [|n IH]; intros pos Hl; [cbn in Hl; lia|]. cbn [pos_scan word_bits first_bit] in *. rewrite land_pow2 by lia.
  destruct (Bool.eqb _ bit); [by rewrite Z.add_0_r|]. rewrite IH by lia. f_equal. lia.
Qed.

Lemma word_bits_zero n w : Forall (fun x => x = false) (word_bits n w) -> is_u (Z.of_nat n) w -> w = 0.
Proof.
  intros Hw Hu. apply Z.bits_inj'. intros i Hi. rewrite Z.bits_0. destruct (Z.lt_ge_cases i (Z.of_nat n)); [|by apply (testbit_high w (Z.of_nat n)); [|lia]].
  clear Hu. induction n as [|n IH]; [lia|]. cbn [word_bits] in Hw. apply Forall_cons in Hw as [H1 H2]. destruct (decide (i = Z.of_nat n)) as [->|]; [done|].
  apply IH; [done|lia].
Qed.

(** The place that a search answers with. *)
Definition pos_reply (bit : bool) (s : bytes) : Z :=
  let i := first_bit bit (bit_list s) in if bit && (i =? 8 * zlen s) then -1 else i.

Lemma bit_list_zeros n : Forall (fun x => x = false) (bit_list (replicate n x00)).
Proof. apply (skip_bytes_bits true). by apply Forall_replicate. Qed.

(** The last word, with zeros behind the end: it holds the bit that is sought, or all of them are
    the end of the string. *)
Lemma pad_first bit p : (8 <= zlen p -> first_bit bit (bit_list (ztake 8 p)) < 64) ->
  (bit = true -> first_bit bit (bit_list p) < 8 * zlen p -> first_bit bit (bit_list (pad 8 p)) = first_bit bit (bit_list p) /\ first_bit bit (bit_list p) < 64) /\
  (bit = true -> first_bit bit (bit_list p) = 8 * zlen p -> word_be 0 (pad 8 p) = 0) /\
  (bit = false -> first_bit bit (bit_list (pad 8 p)) = first_bit bit (bit_list p) /\ first_bit bit (bit_list p) < 64).
Proof.
  intros H8. pose proof (first_bit_bound bit (bit_list p)) as Hb. rewrite zlen_bit_list in Hb. destruct (Z.le_gt_cases 8 (zlen p)) as [Hl|Hl].
  - specialize (H8 Hl). assert (zlen (ztake 8 p) = 8) as Hz by (apply zlen_take; lia). rewrite pad_long by (unfold zlen in Hl; lia).
    change 8%nat with (Z.to_nat 8). rewrite <-ztake_take. assert (first_bit bit (bit_list p) = first_bit bit (bit_list (ztake 8 p))) as ->.
    { rewrite <-(ztake_zdrop 8 p) at 1. rewrite bit_list_app. apply first_bit_found. rewrite zlen_bit_list. lia. }
    split; [done|]. split; [lia|done].
  - rewrite pad_short by (unfold zlen in Hl; lia). rewrite bit_list_app. set (z := bit_list (replicate _ _)).
    assert (Forall (fun x => x = false) z) as Hz by apply bit_list_zeros.
    assert (0 < zlen z) as Hp by (unfold z; rewrite zlen_bit_list; unfold zlen in *; rewrite length_replicate; lia).
    split; [|split].
    + intros -> Hf. split; [|lia]. apply first_bit_found. by rewrite zlen_bit_list.
    + intros -> Hf. rewrite <-zlen_bit_list in Hf. apply first_bit_none in Hf. set (q := p ++ _). assert (length q = 8%nat) as Hq.
      { unfold q. rewrite length_app, length_replicate. unfold zlen in Hl. lia. }
      apply (word_bits_zero 64); [|pose proof (word_be_bound q) as Hw; unfold zlen in Hw; rewrite Hq in Hw; exact Hw].
      replace 64%nat with (8 * length q)%nat by lia. rewrite word_be_bits. unfold q. rewrite bit_list_app. by apply Forall_app.
    + intros ->. split; [|lia]. destruct (decide (first_bit false (bit_list p) = zlen (bit_list p))) as [Hf|Hf].
      * rewrite first_bit_skip by (by apply first_bit_none). rewrite Hf. destruct z as [|x z]; [done|]. apply Forall_cons in Hz as [-> _]. cbn [first_bit]. cbn. lia.
      * apply first_bit_found. rewrite zlen_bit_list in *. lia.
Qed.

Lemma bitPos_ptr_ok {BM : BuildMode} addr s bit : bitPos_ptr addr s bit = Ret (pos_reply bit s).
Proof.
  unfold bitPos_ptr, pos_reply. destruct (pos_head addr bit s 0) as [p1 pos1] eqn:E1. apply pos_head_ok in E1 as [F1 L1].
  destruct (pos_words (length p1) bit p1 pos1) as [p pos] eqn:E2. apply pos_words_ok in E2 as (F2 & L2 & H8); [|done].
  destruct (pad_first bit p H8) as (Ht & Hn & Hf). rewrite load_be_ok by (cbn; lia). pose proof (first_bit_bound bit (bit_list p)) as Hb. rewrite zlen_bit_list in Hb.
  assert (word_bits 64 (word_be 0 (pad 8 p)) = bit_list (pad 8 p)) as Ew by (rewrite <-(word_be_bits (pad 8 p)); by rewrite length_pad).
  assert (first_bit bit (bit_list (pad 8 p)) = first_bit bit (bit_list p) /\ first_bit bit (bit_list p) < 64 ->
    pos_scan 64 bit (word_be 0 (pad 8 p)) pos = Ret (first_bit bit (bit_list s))) as Hscan.
  { intros [Ef Hlt]. rewrite pos_scan_ok; rewrite Ew, Ef; [f_equal; lia|lia]. }
  destruct bit; cbn [andb].
  - destruct (Z.eqb_spec (first_bit true (bit_list s)) (8 * zlen s)) as [Ee|Ee].
    + rewrite (Hn eq_refl) by lia. done.
    + destruct (Ht eq_refl) as [Ef Hlt]; [lia|]. destruct (Z.eqb_spec (word_be 0 (pad 8 p)) 0) as [Ez|]; [|by apply Hscan].
      rewrite Ez in Ew. rewrite <-Ew in Ef. exfalso. change (first_bit true (word_bits 64 0)) with 64 in Ef. lia.
  - apply Hscan. by apply Hf.
Qed.

(** [popCount], four words at a time, is the number of bits set in the bytes of the range, at
    any alignment. *)
Theorem popCount_exact addr value offset end_ :
  0 <= offset -> zlen value < 2 ^ 60 -> popCount addr value offset end_ = bit_count (ztake (end_ - offset + 1) (zdrop offset value)).
Proof.
  intros Ho Hv. unfold popCount. destruct (Z.ltb_spec end_ offset).
  { replace (ztake (end_ - offset + 1) (zdrop offset value)) with ([] : bytes); [done|]. rewrite ztake_take. by replace (Z.to_nat (end_ - offset + 1)) with O by lia. }
  destruct (Z.leb_spec (zlen value) offset) as [Hz|Hz]; [by rewrite zdrop_all|]. rewrite zdrop_app_le by lia. set (q := zdrop offset value).
  assert (zlen q = zlen value - offset) as Hq by (unfold q; apply zlen_drop; lia).
  assert (forall n, ztake n (q ++ [x00]) = ztake n q ++ ztake (n - zlen q) [x00]) as Et.
  { intros n. rewrite !ztake_take, take_app. do 2 f_equal. unfold zlen. lia. }
  assert (forall n, bit_count (ztake n [x00]) = 0) as E0 by (intros n; cbn [ztake]; by destruct (n <=? 0)).
  assert (forall n, n <= zlen q + 1 -> zlen (ztake n (q ++ [x00])) < 2 ^ 61) as Hl.
  { intros n Hn. rewrite ztake_take. unfold zlen in *. rewrite length_take, length_app. cbn. lia. }
  destruct (Z.ltb_spec (zlen value) end_).
  - rewrite popCount_ptr_ok by (apply Hl; lia). rewrite Et, bit_count_app, E0, (ztake_all _ q), (ztake_all _ q) by lia. lia.
  - rewrite popCount_ptr_ok by (apply Hl; lia). rewrite Et, bit_count_app, E0. lia.
Qed.

Lemma popCount_exact_witness : popCount 3 (lit "abcdefghijklmnopqrstuvwxyz") 1 24 = 104.
Proof. rewrite popCount_exact; [vm_compute; reflexivity|done|done]. Defined.

(** C39: [bitPos], eight bytes at a time, is the first place in the range with the bit that is
    sought, at any alignment; for a zero that is not there it is the place behind the range, for a
    one it is -1. The search always ends with a place. A zero that is sought behind the end of the
    string is at the first bit of the range, as a number of 64 bits with a sign. *)
Theorem bitPos_exact {BM : BuildMode} addr fragment start end_ bit :
  0 <= start <= end_ -> zlen fragment < 2 ^ 60 ->
  bitPos addr fragment start end_ bit =
    Ret (if zlen fragment <=? start then if bit then -1 else s64 (start * 8)
         else let range := ztake (end_ - start + 1) (zdrop start fragment) in
              let i := first_bit bit (bit_list range) in
              if bit && (i =? 8 * zlen range) then -1 else start * 8 + i).
Proof.
  intros Hs Hz. unfold bitPos. destruct (Z.leb_spec (zlen fragment) start); [destruct bit; [done|]; unfold signed; by rewrite (wrap_id 64 (wrap 64 _)) by (by apply Z.mod_pos_bound)|].
  rewrite (wrap_id 64) by (unfold is_u; lia). cbv zeta. set (range := ztake (end_ - start + 1) (zdrop start fragment)).
  assert (ztake ((if zlen fragment <=? end_ then zlen fragment - 1 else end_) - start + 1) (zdrop start fragment) = range) as ->.
  { unfold range. destruct (Z.leb_spec (zlen fragment) end_); [|done]. rewrite !ztake_all; [done|rewrite zlen_drop; lia..]. }
  assert (zlen range <= zlen fragment - start) as Hr by (rewrite <-zlen_drop by lia; unfold range; rewrite ztake_take; unfold zlen; rewrite length_take; lia).
  replace (_ + 1 <? start) with false by (destruct (Z.leb_spec (zlen fragment) end_); lia). rewrite bitPos_ptr_ok, bind_Ret. f_equal. unfold pos_reply.
  pose proof (first_bit_bound bit (bit_list range)) as Hb. rewrite zlen_bit_list in Hb. destruct (bit && _); [done|]. destruct (Z.eqb_spec (first_bit bit (bit_list range)) (-1)); [lia|].
  rewrite !(wrap_id 64), s64_id by (unfold is_u; rewrite ?wrap_id by (unfold is_u; lia); lia). done.
Qed.

Lemma bitPos_exact_witness : bitPos (BM := true) 5 (lit "abcdefghijklmnopqrstuvwxyz") 2 20 false = Ret 16.
Proof. rewrite bitPos_exact; [vm_compute; reflexivity|done|done]. Defined.
