(* ===== verification/Glob.v ===== *)
(** Glob patterns: [stringmatchlen] of utils/redis_port.cpp, which SCAN, KEYS and CONFIG GET match
    names with. *)

From Stdlib Require Import Strings.Byte ZArith Lia.
From stdpp Require Import base list numbers strings.
From S2P Require Import Prelude Status.

Local Open Scope Z_scope.

(** * Definitions *)

(** The byte at [p + i]. A pointer is the memory it reaches, up to the zero that ends the string. *)
Definition read (p : bytes) (i : Z) : M byte :=
  match znth p i with
  | Some b => Ret b
  | None => Crash CUndefined
  end.

(** [tolower] of a [char] in the C locale. *)
Definition tolower_int (c : Z) : Z := if (65 <=? c) && (c <=? 90) then c + 32 else c.

(** The comparison of two characters. *)
Definition same_char (nocase : bool) (a b : byte) : bool :=
  if nocase then tolower_int (cz a) =? tolower_int (cz b) else bool_decide (a = b).

(** Whether [c] is between the ends of a range, in either order. *)
Definition in_class_range (nocase : bool) (a b c : byte) : bool :=
  let '(start, end_) := if cz b <? cz a then (cz b, cz a) else (cz a, cz b) in
  let low x := if nocase then tolower_int x else x in
  (low start <=? low (cz c)) && (low (cz c) <=? low end_).

(** While the byte at [p + i] is a star. *)
Fixpoint skip_stars (i : Z) (p : bytes) (patternLen : Z) : M (bytes * Z) :=
  match p with
  | [] => Crash CUndefined
  | _ :: p' => c ← read p i; if bool_decide (c = x2a) then skip_stars i p' (patternLen - 1) else Ret (p, patternLen)
  end.

Section Match.
Variable nocase : bool.

(** The loop over a class, from its first character on, to the bracket that ends it. *)
Fixpoint match_class (fuel : nat) (p : bytes) (patternLen : Z) (s : bytes) (found : bool) : M (bytes * Z * bool) :=
  match fuel with
  | O => Crash CUndefined
  | S fuel' =>
      c ← read p 0;
      if bool_decide (c = x5c) then
        c ← read p 1;
        x ← read s 0;
        match_class fuel' (zdrop 2 p) (patternLen - 2) s (found || bool_decide (c = x))
      else if bool_decide (c = x5d) then Ret (p, patternLen, found)
      else if patternLen =? 0 then Ret (p, patternLen, found)
      else
        d ← read p 1;
        if bool_decide (d = x2d) && (3 <=? patternLen) then
          e ← read p 2;
          x ← read s 0;
          match_class fuel' (zdrop 3 p) (patternLen - 3) s (found || in_class_range nocase c e x)
        else
          x ← read s 0;
          match_class fuel' (zdrop 1 p) (patternLen - 1) s (found || same_char nocase c x)
  end.

(** The loop over the pattern. *)
Fixpoint stringmatch (fuel : nat) (p : bytes) (patternLen : Z) (s : bytes) (stringLen : Z) : M bool :=
  match fuel with
  | O => Crash CUndefined
  | S fuel' =>
      (* The end of a round: a character of the string has been matched. *)
      let next p patternLen :=
        let s := zdrop 1 s in
        let stringLen := stringLen - 1 in
        if stringLen =? 0 then
          '(_, patternLen) ← skip_stars 0 p patternLen;
          Ret (patternLen =? 0)
        else stringmatch fuel' p patternLen s stringLen in
      let literal p patternLen :=
        c ← read p 0;
        x ← read s 0;
        if same_char nocase c x then next (zdrop 1 p) (patternLen - 1) else Ret false in
      if patternLen =? 0 then Ret (stringLen =? 0) else
      c ← read p 0;
      if bool_decide (c = x2a) then
        '(p, patternLen) ← skip_stars 1 p patternLen;
        if patternLen =? 1 then Ret true else
        (fix suffixes (s : bytes) (stringLen : Z) : M bool :=
           if stringLen =? 0 then Ret false else
           match s with
           | [] => Crash CUndefined
           | _ :: s' =>
               m ← stringmatch fuel' (zdrop 1 p) (patternLen - 1) s stringLen;
               if m : bool then Ret true else suffixes s' (stringLen - 1)
           end) s stringLen
      else if bool_decide (c = x3f) then
        if stringLen =? 0 then Ret false else next (zdrop 1 p) (patternLen - 1)
      else if bool_decide (c = x5b) then
        c ← read p 1;
        let not_ := bool_decide (c = x5e) in
        let '(p, patternLen) := if not_ then (zdrop 2 p, patternLen - 2) else (zdrop 1 p, patternLen - 1) in
        '(p, patternLen, found) ← match_class (length p) p patternLen s false;
        if xorb not_ found then
          (* At the end of an unfinished class the pattern has been moved back by one. *)
          if patternLen =? 0 then next p patternLen else next (zdrop 1 p) (patternLen - 1)
        else Ret false
      else if bool_decide (c = x5c) && (2 <=? patternLen) then literal (zdrop 1 p) (patternLen - 1)
      else literal p patternLen
  end.

Definition stringmatchlen (pattern string : bytes) : M bool :=
  stringmatch (S (length pattern)) (pattern ++ [x00]) (zlen pattern) (string ++ [x00]) (zlen string).

End Match.

(** * The language of a pattern *)

Inductive class_item : Set :=
| CChar (c : byte)
| CEsc (c : byte)
| CRange (a b : byte).

Inductive glob_item : Set :=
| GStar
| GOne
| GLit (c : byte)
| GEsc (c : byte)
| GClass (not_ : bool) (items : list class_item).

#[export] Instance class_item_eq_dec : EqDecision class_item.
Proof. solve_decision. Defined.

#[export] Instance glob_item_eq_dec : EqDecision glob_item.
Proof. solve_decision. Defined.

(** ** As text *)

Definition print_class_item (i : class_item) : bytes :=
  match i with
  | CChar c => [c]
  | CEsc c => [x5c; c]
  | CRange a b => [a; x2d; b]
  end.

Definition print_class (items : list class_item) : bytes := concat (map print_class_item items).

Definition print_item (i : glob_item) : bytes :=
  match i with
  | GStar => [x2a]
  | GOne => [x3f]
  | GLit c => [c]
  | GEsc c => [x5c; c]
  | GClass not_ items => x5b :: (if not_ then [x5e] else []) ++ print_class items ++ [x5d]
  end.

Definition print (g : list glob_item) : bytes := concat (map print_item g).

(** A character that starts neither an escape nor the end of the class, and is not taken for the
    start of a range. *)
Fixpoint class_ok (items : list class_item) : bool :=
  match items with
  | [] => true
  | CChar c :: rest =>
      negb (bool_decide (c = x5c)) && negb (bool_decide (c = x5d)) && negb (bool_decide (head (print_class rest) = Some x2d)) && class_ok rest
  | CEsc _ :: rest => class_ok rest
  | CRange a _ :: rest => negb (bool_decide (a = x5c)) && negb (bool_decide (a = x5d)) && class_ok rest
  end.

(** A literal is not a special character, and a class starts with a caret only if it is negated. *)
Definition item_ok (i : glob_item) : bool :=
  match i with
  | GLit c => negb (bool_decide (c ∈ [x2a; x3f; x5b; x5c]))
  | GClass not_ items => class_ok items && (not_ || negb (bool_decide (head (print_class items ++ [x5d]) = Some x5e)))
  | _ => true
  end.

Section Language.
Variable nocase : bool.

(** ** What it matches *)

(** The number of a character, of the small letter when case is ignored. *)
Definition letter (c : Z) : Z := if nocase then tolower_int c else c.

Definition class_item_has (i : class_item) (x : byte) : bool :=
  match i with
  | CChar c => bool_decide (letter (cz c) = letter (cz x))
  | CEsc c => bool_decide (c = x)
  | CRange a b => bool_decide (letter (Z.min (cz a) (cz b)) <= letter (cz x) <= letter (Z.max (cz a) (cz b)))
  end.

(** The items other than the star match one character. *)
Definition item_has (i : glob_item) (x : byte) : bool :=
  match i with
  | GStar | GOne => true
  | GLit c | GEsc c => bool_decide (letter (cz c) = letter (cz x))
  | GClass not_ items => xorb not_ (existsb (fun i => class_item_has i x) items)
  end.

Lemma same_char_letter c x : same_char nocase c x = bool_decide (letter (cz c) = letter (cz x)).
Proof.
  unfold same_char, letter. destruct nocase; apply eq_true_iff_eq; rewrite ?Z.eqb_eq, !bool_decide_eq_true; [done|].
  split; [by intros ->|by intros ?%(inj cz)].
Qed.

Lemma in_class_range_letter a b x :
  in_class_range nocase a b x = bool_decide (letter (Z.min (cz a) (cz b)) <= letter (cz x) <= letter (Z.max (cz a) (cz b))).
Proof.
  unfold in_class_range, letter. destruct (Z.ltb_spec (cz b) (cz a)).
  - rewrite Z.min_r, Z.max_l by lia. apply eq_true_iff_eq. rewrite andb_true_iff, !Z.leb_le, bool_decide_eq_true. done.
  - rewrite Z.min_l, Z.max_r by lia. apply eq_true_iff_eq. rewrite andb_true_iff, !Z.leb_le, bool_decide_eq_true. done.
Qed.

(** The strings of a pattern: a star stands for any string. *)
Inductive matches : list glob_item -> bytes -> Prop :=
| matches_nil : matches [] []
| matches_star g a s : matches g s -> matches (GStar :: g) (a ++ s)
| matches_char i g x s : i <> GStar -> item_has i x = true -> matches g s -> matches (i :: g) (x :: s).

(** ** The matcher on items *)

Fixpoint gmatch (g : list glob_item) (s : bytes) : bool :=
  match g with
  | [] => bool_decide (s = [])
  | GStar :: g' =>
      (fix suffixes (s : bytes) : bool := gmatch g' s || match s with [] => false | _ :: s' => suffixes s' end) s
  | i :: g' => match s with [] => false | x :: s' => item_has i x && gmatch g' s' end
  end.

Lemma gmatch_star g s : gmatch (GStar :: g) s = gmatch g s || match s with [] => false | _ :: s' => gmatch (GStar :: g) s' end.
Proof. by destruct s. Qed.

Lemma gmatch_char i g s : i <> GStar -> gmatch (i :: g) s = match s with [] => false | x :: s' => item_has i x && gmatch g s' end.
Proof. by destruct i. Qed.

Lemma gmatch_matches g : forall s, gmatch g s = true <-> matches g s.
Proof.
  induction g as [|i g IH]; intros s.
  - cbn [gmatch]. rewrite bool_decide_eq_true. split; [intros ->; constructor|by inversion 1].
  - destruct (decide (i = GStar)) as [->|Hi].
    + split.
      * induction s as [|x s IHs]; rewrite gmatch_star, orb_true_iff; intros [E|E]; [by apply (matches_star g []), IH|done|by apply (matches_star g []), IH|].
        apply IHs in E. inversion E as [|g' a s' Hm| ]; subst; [|done]. by apply (matches_star g (x :: a)).
      * inversion 1 as [|g' a s' Hm|]; subst; [|done]. apply IH in Hm. clear -Hm. induction a as [|x a IHa]; cbn [app]; rewrite gmatch_star; [by rewrite Hm|].
        by rewrite IHa, orb_true_r.
    + rewrite gmatch_char by done. split.
      * destruct s as [|x s]; [done|]. rewrite andb_true_iff. intros [Hx Hg]. constructor; [done|done|by apply IH].
      * inversion 1 as [|g' a s' Hm|? ? x s' _ Hx Hm]; subst; [done|]. apply IH in Hm. by rewrite Hx, Hm.
Qed.

(** Only stars match the empty string. *)
Definition is_star (i : glob_item) : bool := bool_decide (i = GStar).

Lemma gmatch_nil g : gmatch g [] = forallb is_star g.
Proof.
  induction g as [|i g IH]; [done|]. unfold is_star. cbn [forallb]. case_bool_decide as E; [subst i; by rewrite gmatch_star, orb_false_r|by rewrite gmatch_char].
Qed.

End Language.

(** * The matcher decides the language *)

Fixpoint drop_stars (g : list glob_item) : list glob_item :=
  match g with
  | GStar :: g' => drop_stars g'
  | _ => g
  end.

Lemma read_0 c p : read (c :: p) 0 = Ret c.
Proof. done. Qed.

Lemma read_1 a c p : read (a :: c :: p) 1 = Ret c.
Proof. done. Qed.

Lemma read_2 a b c p : read (a :: b :: c :: p) 2 = Ret c.
Proof. done. Qed.

Lemma zdrop_1 {A} (a : A) l : zdrop 1 (a :: l) = l.
Proof. exact (zdrop_app [a] l). Qed.

Lemma zdrop_2 {A} (a b : A) l : zdrop 2 (a :: b :: l) = l.
Proof. exact (zdrop_app [a; b] l). Qed.

Lemma zdrop_3 {A} (a b c : A) l : zdrop 3 (a :: b :: c :: l) = l.
Proof. exact (zdrop_app [a; b; c] l). Qed.

Lemma print_cons i g : print (i :: g) = print_item i ++ print g.
Proof. done. Qed.

Lemma print_item_head i : item_ok i = true -> i <> GStar -> exists c p, print_item i = c :: p /\ c <> x2a.
Proof.
  intros Hok Hi. destruct i as [| |c|c|n items]; [done|by eexists _, _|exists c, []; split; [done|]|by eexists _, _|by eexists _, _].
  intros ->. by vm_compute in Hok.
Qed.

Lemma skip_stars_0 g rest : forallb item_ok g = true ->
  skip_stars 0 (print g ++ x00 :: rest) (zlen (print g)) = Ret (print (drop_stars g) ++ x00 :: rest, zlen (print (drop_stars g))).
Proof.
  induction g as [|i g IH]; intros Hok; [done|]. cbn [forallb] in Hok. apply andb_true_iff in Hok as [Hi Hg]. destruct (decide (i = GStar)) as [->|Hn].
  - rewrite print_cons, zlen_app. cbn [print_item app drop_stars skip_stars]. rewrite read_0, bind_Ret, bool_decide_true by done.
    change (zlen [x2a]) with 1. rewrite Z.add_simpl_l. by apply IH.
  - replace (drop_stars (i :: g)) with (i :: g) by (by destruct i). destruct (print_item_head i Hi Hn) as (c & p & E & Hc). rewrite print_cons, E. cbn [app skip_stars].
    by rewrite read_0, bind_Ret, bool_decide_false.
Qed.

Lemma skip_stars_1 g : forallb item_ok g = true ->
  skip_stars 1 (x2a :: print g ++ [x00]) (1 + zlen (print g)) = Ret (x2a :: print (drop_stars g) ++ [x00], 1 + zlen (print (drop_stars g))).
Proof.
  induction g as [|i g IH]; intros Hok; [done|]. cbn [forallb] in Hok. apply andb_true_iff in Hok as [Hi Hg]. destruct (decide (i = GStar)) as [->|Hn].
  - rewrite print_cons. cbn [print_item app drop_stars skip_stars]. rewrite read_1, bind_Ret, bool_decide_true by done.
    rewrite zlen_cons. replace (1 + (1 + zlen (print g)) - 1) with (1 + zlen (print g)) by lia. by apply IH.
  - replace (drop_stars (i :: g)) with (i :: g) by (by destruct i). destruct (print_item_head i Hi Hn) as (c & p & E & Hc). rewrite print_cons, E. cbn [app skip_stars].
    by rewrite read_1, bind_Ret, bool_decide_false.
Qed.

Lemma zlen_print_item i : 1 <= zlen (print_item i).
Proof. destruct i as [| |c|c|n items]; try (by vm_compute). cbn [print_item]. rewrite zlen_cons. pose proof (zlen_nonneg ((if n then [x5e] else []) ++ print_class items ++ [x5d])). lia. Qed.

Lemma zlen_print_nil g : (zlen (print g) =? 0) = bool_decide (g = []).
Proof.
  destruct g as [|i g]; [done|]. rewrite print_cons, zlen_app, bool_decide_false by done. pose proof (zlen_print_item i). pose proof (zlen_nonneg (print g)). lia.
Qed.

Lemma drop_stars_nil g : bool_decide (drop_stars g = []) = forallb is_star g.
Proof.
  induction g as [|i g IH]; [done|]. destruct (decide (i = GStar)) as [->|Hn]; [exact IH|]. cbn [forallb]. unfold is_star at 1. rewrite (bool_decide_false (i = GStar)) by done.
  destruct i; by rewrite bool_decide_false.
Qed.

Lemma drop_stars_ok g : forallb item_ok g = true -> forallb item_ok (drop_stars g) = true.
Proof. induction g as [|i g IH]; [done|]. intros Hok. destruct i; try done. by apply IH. Qed.

Lemma length_drop_stars g : (length (print (drop_stars g)) <= length (print g))%nat.
Proof. induction g as [|i g IH]; [done|]. destruct i; try done. rewrite print_cons, length_app. cbn [drop_stars]. lia. Qed.

Lemma gmatch_drop_stars nocase g s : gmatch nocase (GStar :: drop_stars g) s = gmatch nocase (GStar :: g) s.
Proof.
  induction g as [|i g IH]; [done|]. destruct (decide (i = GStar)) as [->|Hn]; [|by destruct i]. cbn [drop_stars]. rewrite IH.
  clear IH. induction s as [|x s IHs]; rewrite (gmatch_star nocase (GStar :: g)); [by rewrite orb_false_r|]. rewrite <-IHs, (gmatch_star nocase g (x :: s)).
  by destruct (gmatch nocase g (x :: s)), (gmatch nocase (GStar :: g) s).
Qed.

(** The end of a round: a character of the string has been matched. *)
Lemma match_next nocase fuel g x s :
  (forall g s, forallb item_ok g = true -> s <> [] -> (length (print g) < fuel)%nat ->
     stringmatch nocase fuel (print g ++ [x00]) (zlen (print g)) (s ++ [x00]) (zlen s) = Ret (gmatch nocase g s)) ->
  forallb item_ok g = true -> (length (print g) < fuel)%nat ->
  (if zlen (x :: s) - 1 =? 0 then '(_, patternLen) ← skip_stars 0 (print g ++ [x00]) (zlen (print g)); Ret (patternLen =? 0)
   else stringmatch nocase fuel (print g ++ [x00]) (zlen (print g)) (zdrop 1 ((x :: s) ++ [x00])) (zlen (x :: s) - 1)) = Ret (gmatch nocase g s).
Proof.
  intros IH Hg Hl. rewrite zlen_cons, Z.add_simpl_l. destruct s as [|y s].
  - change (zlen [] =? 0) with true. rewrite skip_stars_0 by done. rewrite bind_Ret. by rewrite zlen_print_nil, drop_stars_nil, gmatch_nil.
  - rewrite zlen_cons. pose proof (zlen_nonneg s). replace (1 + zlen s =? 0) with false by lia. cbn [app]. rewrite zdrop_1.
    rewrite <-(zlen_cons y s). by apply (IH g (y :: s)).
Qed.

Lemma match_class_ok nocase x s items : forall fuel patternLen rest found,
  class_ok items = true -> (length items < fuel)%nat -> zlen (print_class items) < patternLen ->
  match_class nocase fuel (print_class items ++ x5d :: rest) patternLen (x :: s) found =
    Ret (x5d :: rest, patternLen - zlen (print_class items), found || existsb (fun i => class_item_has nocase i x) items).
Proof.
  induction items as [|i items IH]; intros fuel pl rest found Hok Hf Hl; (destruct fuel as [|fuel]; [cbn in Hf; lia|]); cbn [length] in Hf.
  - cbn [match_class print_class map concat app existsb]. rewrite !read_0, bind_Ret, bool_decide_false, bool_decide_true by done. by rewrite Z.sub_0_r, orb_false_r.
  - change (print_class (i :: items)) with (print_class_item i ++ print_class items) in *. rewrite zlen_app in *. pose proof (zlen_nonneg (print_class items)).
    cbn [existsb]. rewrite orb_assoc. destruct i as [c|c|a b]; cbn [print_class_item app class_ok class_item_has] in *; cbn [match_class];
      rewrite <-?same_char_letter, <-?in_class_range_letter.
    + rewrite !andb_true_iff, !negb_true_iff, !bool_decide_eq_false in Hok. destruct Hok as [[[H1 H2] H3] Hok].
      change (zlen [c]) with 1 in *. rewrite !read_0, bind_Ret, !bool_decide_false by done. replace (pl =? 0) with false by lia.
      destruct (print_class items ++ x5d :: rest) as [|d q] eqn:Eq; [by destruct (print_class items)|]. rewrite read_1, bind_Ret.
      assert (d <> x2d) as Hd by (destruct (print_class items); cbn in Eq, H3; [by injection Eq as <- _|injection Eq as <- _; congruence]).
      rewrite (bool_decide_false (d = x2d)) by done. cbn [andb]. rewrite bind_Ret, zdrop_1, <-Eq. rewrite IH by (done || lia). do 3 f_equal. lia.
    + change (zlen [x5c; c]) with 2 in *. rewrite !read_0, bind_Ret, bool_decide_true by done. rewrite read_1, !bind_Ret, zdrop_2.
      rewrite IH by (done || lia). do 3 f_equal. lia.
    + rewrite !andb_true_iff, !negb_true_iff, !bool_decide_eq_false in Hok. destruct Hok as [[H1 H2] Hok]. change (zlen [a; x2d; b]) with 3 in *.
      rewrite !read_0, bind_Ret, !bool_decide_false by done. replace (pl =? 0) with false by lia. rewrite read_1, bind_Ret, bool_decide_true by done.
      replace (3 <=? pl) with true by lia. cbn [andb]. rewrite read_2, !bind_Ret, zdrop_3. rewrite IH by (done || lia). do 3 f_equal. lia.
Qed.

Lemma length_print_class items : (length items <= length (print_class items))%nat.
Proof. induction items as [|i items IH]; [done|]. change (print_class (i :: items)) with (print_class_item i ++ print_class items). rewrite length_app. destruct i; cbn; lia. Qed.

Section Correct.
Variable nocase : bool.
Variable fuel : nat.
Hypothesis IH : forall g s, forallb item_ok g = true -> s <> [] -> (length (print g) < fuel)%nat ->
  stringmatch nocase fuel (print g ++ [x00]) (zlen (print g)) (s ++ [x00]) (zlen s) = Ret (gmatch nocase g s).

#[local] Abbreviation run g s := (stringmatch nocase (S fuel) (print g ++ [x00]) (zlen (print g)) (s ++ [x00]) (zlen s)).

Lemma run_star g s : forallb item_ok g = true -> s <> [] -> (length (print (GStar :: g)) < S fuel)%nat -> run (GStar :: g) s = Ret (gmatch nocase (GStar :: g) s).
Proof.
  intros Hg Hs Hl. rewrite print_cons in *. cbn [print_item app length] in *. rewrite zlen_cons. pose proof (zlen_nonneg (print g)). cbn [stringmatch].
  replace (1 + zlen (print g) =? 0) with false by lia. rewrite read_0, bind_Ret, bool_decide_true by done. rewrite skip_stars_1, bind_Ret by done.
  rewrite <-gmatch_drop_stars. pose proof (drop_stars_ok g Hg) as Hd. pose proof (length_drop_stars g). set (h := drop_stars g) in *.
  replace (1 + zlen (print h) =? 1) with (bool_decide (h = [])) by (rewrite <-zlen_print_nil; destruct (Z.eqb_spec (zlen (print h)) 0), (Z.eqb_spec (1 + zlen (print h)) 1); lia).
  case_bool_decide as Eh.
  { rewrite Eh. f_equal. symmetry. apply gmatch_matches. rewrite <-(app_nil_r s). apply matches_star, matches_nil. }
  rewrite zdrop_1, Z.add_simpl_l. assert (gmatch nocase h [] = false) as Hn.
  { rewrite gmatch_nil. destruct h as [|i h'] eqn:E; [done|]. assert (i <> GStar); [|cbn [forallb]; unfold is_star at 1; by rewrite bool_decide_false].
    clear -E. unfold h in E. induction g as [|j g IHg]; [done|]. destruct j; try (by injection E as <- _). by apply IHg. }
  clear Hs. induction s as [|x s IHs].
  { cbn. by rewrite Hn. }
  pose proof (zlen_nonneg s). cbn [app].
  change (x :: s ++ [x00]) with ((x :: s) ++ [x00]). rewrite IH by (done || lia). rewrite bind_Ret, (gmatch_star nocase h (x :: s)).
  rewrite zlen_cons, Z.add_simpl_l. replace (1 + zlen s =? 0) with false by lia. by destruct (gmatch nocase h (x :: s)).
Qed.

Lemma run_char i g x s : i <> GStar -> item_ok i = true -> forallb item_ok g = true -> (length (print (i :: g)) < S fuel)%nat ->
  run (i :: g) (x :: s) = Ret (gmatch nocase (i :: g) (x :: s)).
Proof.
  intros Hi Hok Hg Hl. rewrite gmatch_char by done. rewrite print_cons, length_app in Hl. rewrite print_cons, zlen_app. pose proof (zlen_nonneg (print g)).
  pose proof (zlen_print_item i). assert (length (print g) < fuel)%nat as Hlg by (unfold zlen in *; lia). pose proof (match_next nocase fuel g x s IH Hg Hlg) as Hn.
  cbn [stringmatch]. replace (zlen (print_item i) + zlen (print g) =? 0) with false by lia.
  destruct i as [| |c|c|n items]; [done|..]; cbn [print_item item_ok item_has app] in *; rewrite <-?same_char_letter.
  - change (zlen [x3f]) with 1 in *. rewrite !read_0, bind_Ret, bool_decide_false, bool_decide_true by done. rewrite !zdrop_1, Z.add_simpl_l in *.
    rewrite (zlen_cons x s). pose proof (zlen_nonneg s). replace (1 + zlen s =? 0) with false by lia. rewrite <-(zlen_cons x s). exact Hn.
  - change (zlen [c]) with 1 in *. apply negb_true_iff, bool_decide_eq_false in Hok. rewrite !not_elem_of_cons in Hok. destruct Hok as (H1 & H2 & H3 & H4 & _).
    rewrite !read_0, bind_Ret, !bool_decide_false by done. cbn [andb]. rewrite !bind_Ret, !zdrop_1, Z.add_simpl_l in *.
    destruct (same_char nocase c x); [exact Hn|done].
  - change (zlen [x5c; c]) with 2 in *. rewrite !read_0, bind_Ret.
    rewrite (bool_decide_false (x5c = x2a)), (bool_decide_false (x5c = x3f)), (bool_decide_false (x5c = x5b)), (bool_decide_true (x5c = x5c)) by done.
    replace (2 <=? 2 + zlen (print g)) with true by lia. cbn [andb]. cbn [app] in *. rewrite !zdrop_1 in *. rewrite ?read_0, !bind_Ret, ?zdrop_1.
    replace (2 + zlen (print g) - 1 - 1) with (zlen (print g)) by lia. destruct (same_char nocase c x); [exact Hn|done].
  - set (q := print_class items ++ x5d :: print g ++ [x00]). apply andb_true_iff in Hok as [Hc Hcaret].
    assert (length items < length q)%nat as Hf by (unfold q; rewrite length_app; pose proof (length_print_class items); cbn [length]; lia).
    set (pl := zlen (print_class items) + (1 + zlen (print g))). set (has := existsb (fun i => class_item_has nocase i x) items).
    assert (match_class nocase (length q) q pl (x :: s ++ [x00]) false = Ret (x5d :: print g ++ [x00], 1 + zlen (print g), has)) as Em.
    { unfold q. rewrite match_class_ok; [|done|done|unfold pl; lia]. do 3 f_equal. unfold pl. lia. }
    rewrite !read_0, bind_Ret, (bool_decide_false (x5b = x2a)), (bool_decide_false (x5b = x3f)), (bool_decide_true (x5b = x5b)) by done.
    replace ((((if n then [x5e] else []) ++ print_class items ++ [x5d]) ++ print g) ++ [x00]) with ((if n then [x5e] else []) ++ q)
      by (unfold q; rewrite <-!app_assoc; done).
    assert (zlen (x5b :: (if n then [x5e] else []) ++ print_class items ++ [x5d]) + zlen (print g) = 1 + (if n then 1 else 0) + pl) as ->.
    { rewrite zlen_cons, !zlen_app. unfold pl. change (zlen [x5d]) with 1. by destruct n; [change (zlen [x5e]) with 1|change (zlen []) with 0]; lia. }
    destruct n; cbn [app].
    + rewrite read_1, bind_Ret, bool_decide_true, zdrop_2 by done. replace (1 + 1 + pl - 2) with pl by lia. rewrite Em, bind_Ret.
      replace (1 + zlen (print g) =? 0) with false by lia. rewrite !zdrop_1, Z.add_simpl_l. cbn [app] in Hn. rewrite zdrop_1 in Hn. destruct (xorb true has); [exact Hn|done].
    + assert (exists d, read (x5b :: q) 1 = Ret d /\ d <> x5e) as (d & Ed & Hd).
      { cbn [orb] in Hcaret. apply negb_true_iff, bool_decide_eq_false in Hcaret. unfold q. destruct (print_class items) as [|d l]; cbn [app] in *; eexists; (split; [apply read_1|]); cbn in Hcaret; congruence. }
      rewrite Ed, bind_Ret, bool_decide_false, (zdrop_1 x5b) by done. replace (1 + 0 + pl - 1) with pl by lia.
      rewrite Em, bind_Ret.
      replace (1 + zlen (print g) =? 0) with false by lia. rewrite !zdrop_1, Z.add_simpl_l. cbn [app] in Hn. rewrite zdrop_1 in Hn. destruct (xorb false has); [exact Hn|done].
Qed.

End Correct.

Lemma stringmatch_ok nocase fuel : forall g s, forallb item_ok g = true -> s <> [] -> (length (print g) < fuel)%nat ->
  stringmatch nocase fuel (print g ++ [x00]) (zlen (print g)) (s ++ [x00]) (zlen s) = Ret (gmatch nocase g s).
Proof.
  induction fuel as [|fuel IH]; intros g s Hg Hs Hl; [lia|]. destruct s as [|x s]; [done|]. destruct g as [|i g].
  { cbn [stringmatch print map concat]. change (zlen [] =? 0) with true. rewrite zlen_cons. pose proof (zlen_nonneg s). by replace (1 + zlen s =? 0) with false by lia. }
  cbn [forallb] in Hg. apply andb_true_iff in Hg as [Hi Hg]. destruct (decide (i = GStar)) as [->|Hn]; [by apply run_star|by apply run_char].
Qed.

(** * Properties *)

(** C38: on a well-formed pattern (a sequence of stars, question marks, literal and escaped
    characters and classes of characters, escapes and ranges) and a non-empty string, the matcher
    terminates within the length of the pattern, reads no byte outside either string, and answers
    yes exactly for the strings the pattern denotes, with or without regard to case. *)
Theorem stringmatchlen_matches (nocase : bool) (g : list glob_item) (s : bytes) (Hg : forallb item_ok g = true) (Hs : s <> []) :
  exists b, stringmatchlen nocase (print g) s = Ret b /\ (b = true <-> matches nocase g s).
Proof.
  exists (gmatch nocase g s). split; [|apply gmatch_matches]. unfold stringmatchlen. apply stringmatch_ok; [done|done|lia].
Qed.

Definition demo_glob : list glob_item := [GLit x75; GStar; GEsc x2a; GClass true [CRange x30 x39; CEsc x5d]; GOne].

Lemma stringmatchlen_matches_witness :
  print demo_glob = [x75; x2a; x5c; x2a; x5b; x5e; x30; x2d; x39; x5c; x5d; x5d; x3f] /\
  exists b, stringmatchlen true (print demo_glob) [x55; x73; x2a; x78; x79] = Ret b /\ (b = true <-> matches true demo_glob [x55; x73; x2a; x78; x79]).
Proof. split; [reflexivity|]. apply (stringmatchlen_matches true demo_glob [x55; x73; x2a; x78; x79]); [reflexivity|discriminate]. Defined.

(** A class at the start of a pattern, against the empty string, is matched against the zero that
    ends it. *)
Lemma stringmatchlen_class_star nocase items : class_ok items = true -> existsb (fun i => class_item_has nocase i x00) items = false ->
  stringmatchlen nocase (print [GClass true items; GStar]) [] = Ret true.
Proof.
  intros Hc Hz. unfold stringmatchlen, print. cbn [map concat print_item app]. rewrite <-app_assoc. cbn [app]. rewrite <-app_assoc. cbn [app].
  set (q := print_class items ++ [x5d; x2a; x00]). pose proof (length_print_class items). pose proof (zlen_nonneg (print_class items)).
  change (zlen (@nil byte)) with 0. rewrite !zlen_cons, !zlen_app. change (zlen [x5d; x2a]) with 2. cbn [stringmatch].
  replace (1 + (1 + (zlen (print_class items) + 2)) =? 0) with false by lia. rewrite !read_0, bind_Ret. change (bool_decide (x5b = x2a)) with false.
  change (bool_decide (x5b = x3f)) with false. change (bool_decide (x5b = x5b)) with true. cbn beta iota. rewrite read_1, bind_Ret. change (bool_decide (x5e = x5e)) with true.
  cbn beta iota. rewrite !(zdrop_2 x5b x5e). unfold q at 2. rewrite (match_class_ok nocase x00 []), bind_Ret, Hz; [|done|unfold q; rewrite length_app; cbn [length]; lia|lia].
  replace (1 + (1 + (zlen (print_class items) + 2)) - 2 - zlen (print_class items)) with 2 by lia. done.
Qed.

(** Two patterns on which the matcher departs from the language of patterns. An unfinished
    escape in an unfinished class is read past the end of the pattern, whatever the string is; and
    a negated class followed by a star accepts the empty string, although a class stands for one
    character. *)
Theorem stringmatchlen_edges (nocase : bool) :
  (forall s, stringmatchlen nocase [x5b; x5c] s = Crash CUndefined) /\
  (forall items, class_ok items = true -> existsb (fun i => class_item_has nocase i x00) items = false ->
     stringmatchlen nocase (print [GClass true items; GStar]) [] = Ret true /\ ~ matches nocase [GClass true items; GStar] []).
Proof.
  split.
  - intros s. assert (exists x t, s ++ [x00] = x :: t) as (x & t & E) by (destruct s; eauto). unfold stringmatchlen. by rewrite E.
  - intros items Hc Hz. split; [by apply stringmatchlen_class_star|]. by rewrite <-gmatch_matches.
Qed.

Lemma stringmatchlen_edges_witness :
  stringmatchlen false (print [GClass true [CChar x61]; GStar]) [] = Ret true /\ ~ matches false [GClass true [CChar x61]; GStar] [].
Proof. apply (proj2 (stringmatchlen_edges false) [CChar x61]); reflexivity. Defined.
