(* ===== verification/List.v ===== *)
(** The commands of lists (commands/list.cpp): a list is a meta record with the places of its ends
    and a record for every place between them. The arguments are parsed, the key is locked and its
    meta record has been read. *)

From Stdlib Require Import Strings.Byte ZArith Lia.
From stdpp Require Import base list numbers strings gmap sorting.
From S2P Require Import Prelude Status Varint Strings Record RecordValue RecordMeta ReplLog BinlogSeq Txn Store Command.

Local Open Scope Z_scope.

Definition MAXSEQ : Z := 9223372036854775807.
Definition INITSEQ : Z := MAXSEQ / 2.

Inductive ListPos : Set := LP_HEAD | LP_TAIL.

Section List.
Context {BM : BuildMode} {T : Type} `{RocksDB T}.
Variable cfg : StoreCfg.
Variable sess : SessionCtx.
Variable mk : RecordKey.
Variable now : Z.

(** The record of a place. *)
Definition ele_key (idx : Z) : RecordKey :=
  RecordKey_new (rk_chunkId mk) (rk_dbId mk) RT_LIST_ELE (rk_pk mk) (to_string idx) 0.

(** The record of an element. *)
Definition ele_record (value : bytes) : RecordValue := RecordValue_new value RT_LIST_ELE MAXU64 0 (-1) 0 MAXU64.

(** The meta record that replaces [rv]. *)
Definition list_record (rv : M RecordValue) (lm : ListMetaValue) : RecordValue :=
  RecordValue_update (ListMetaValue_encode lm) RT_LIST_META (sc_versionEP sess) (old_ttl rv) rv.

Definition fmt_length (lm : ListMetaValue) : bytes := Command_fmtLongLong (s64 (u64 (lm_tail lm - lm_head lm))).

(** ** Pushing and popping *)

Definition genericPop (tx : RocksTxn T) (rv : M RecordValue) (pos : ListPos) : M (RocksTxn T * bytes) :=
  v ← rv;
  lm ← expect_ok (ListMetaValue_decode (rv_value v));
  let head := lm_head lm in
  let tail := lm_tail lm in
  _ ← INVARIANT_D (negb (head =? tail));
  if head =? tail then Throw ERR_INTERNAL (lit "invalid head or tail of list") else
  let '(idx, head, tail) :=
    match pos with
    | LP_HEAD => (head, u64 (head + 1), tail)
    | LP_TAIL => (u64 (tail - 1), head, u64 (tail - 1))
    end in
  _ ← txn_access tx;
  subRv ← RocksKVStore_getKV cfg (ele_key idx) tx;
  tx ← RocksKVStore_delKV cfg (ele_key idx) tx now;
  tx ← (if head =? tail then Command_delKeyAndTTL cfg sess mk v tx now
        else RocksKVStore_setKV cfg mk (list_record rv (mkListMeta head tail)) tx now);
  Ret (tx, rv_value subRv).

Fixpoint push_loop (pos : ListPos) (args : list bytes) (head tail : Z) (tx : RocksTxn T) : M (RocksTxn T * Z * Z) :=
  match args with
  | [] => Ret (tx, head, tail)
  | arg :: rest =>
      let '(idx, head, tail) :=
        match pos with
        | LP_HEAD => (u64 (head - 1), u64 (head - 1), tail)
        | LP_TAIL => (tail, head, u64 (tail + 1))
        end in
      tx ← RocksKVStore_setKV cfg (ele_key idx) (ele_record arg) tx now;
      push_loop pos rest head tail tx
  end.

Definition genericPush (tx : RocksTxn T) (rv : M RecordValue) (args : list bytes) (pos : ListPos) (needExist : bool)
  : M (RocksTxn T * bytes) :=
  let push lm :=
    _ ← txn_access tx;
    '(tx, head, tail) ← push_loop pos args (lm_head lm) (lm_tail lm) tx;
    let lm := mkListMeta head tail in
    tx ← RocksKVStore_setKV cfg mk (list_record rv lm) tx now;
    Ret (tx, fmt_length lm) in
  match rv with
  | Ret v => lm ← expect_ok (ListMetaValue_decode (rv_value v)); push lm
  | Throw ERR_NOTFOUND _ | Throw ERR_EXPIRED _ =>
      if needExist then Ret (tx, Command_fmtZero) else push (mkListMeta INITSEQ INITSEQ)
  | Throw c msg => Throw c msg
  | Crash c => Crash c
  end.

(** LPOP and RPOP: one round of the loop, and the command. *)
Definition pop_round (rv : M RecordValue) (pos : ListPos) (w : World) : M (World * M bytes) :=
  '(w, tx) ← SessionCtx_createTransaction sess w;
  match genericPop tx rv pos with
  | Ret (tx, s1) => commit_reply cfg sess w tx (Command_fmtBulk s1)
  | Throw ERR_NOTFOUND _ => Ret (w, Ret Command_fmtNull)
  | Throw c msg => Throw c msg
  | Crash c => Crash c
  end.

Definition ListPop_run (w : World) (rv : M RecordValue) (pos : ListPos) : M (World * M bytes) :=
  m ← meta_or_none rv;
  match m with
  | None => Ret (w, Ret Command_fmtNull)
  | Some _ => retry RETRY_CNT (pop_round rv pos) w
  end.

(** LPUSH, RPUSH, LPUSHX and RPUSHX. *)
Definition push_round (rv : M RecordValue) (args : list bytes) (pos : ListPos) (needExist : bool) (w : World)
  : M (World * M bytes) :=
  '(w, tx) ← SessionCtx_createTransaction sess w;
  '(tx, s1) ← genericPush tx rv args pos needExist;
  commit_reply cfg sess w tx s1.

Definition ListPush_run (w : World) (rv : M RecordValue) (args : list bytes) (pos : ListPos) (needExist : bool)
  : M (World * M bytes) :=
  m ← meta_or_none rv;
  match m, needExist with
  | None, true => Ret (w, Ret Command_fmtZero)
  | _, _ => retry RETRY_CNT (push_round rv args pos needExist) w
  end.

Definition LLen_run (rv : M RecordValue) : M bytes :=
  m ← meta_or_none rv;
  match m with
  | None => Ret Command_fmtZero
  | Some v => lm ← ListMetaValue_decode (rv_value v); Ret (fmt_length lm)
  end.

(** ** LTRIM *)

(** The loop that deletes [n] places from [i] on, committing after every thousand. *)
Fixpoint trim_loop (n : nat) (i : Z) (w : World) (tx : RocksTxn T) (cnt : Z) : M (World * M (RocksTxn T * Z)) :=
  match n with
  | O => Ret (w, Ret (tx, cnt))
  | S n' =>
      or_return w (RocksKVStore_delKV cfg (ele_key i) tx now) (fun tx =>
      let cnt := u64 (cnt + 1) in
      if cnt mod 1000 =? 0 then
        '(w, v) ← SessionCtx_commitTransaction cfg sess w tx;
        or_return w v (fun _ =>
        or_return w (SessionCtx_createTransaction sess w) (fun '(w, tx) =>
        trim_loop n' (i + 1) w tx cnt))
      else trim_loop n' (i + 1) w tx cnt)
  end.

Definition trimListPessimistic (w : World) (lm : ListMetaValue) (start end_ : Z) (rv : RecordValue) : M (World * M unit) :=
  '(w, tx) ← SessionCtx_createTransaction sess w;
  _ ← txn_access tx;
  let head := lm_head lm in
  let from := s64 head in
  '(w, st) ← trim_loop (Z.to_nat (s64 (u64 (start + head)) - from)) from w tx 0;
  or_return w st (fun '(tx, cnt) =>
  let from := s64 (u64 (head + end_ + 1)) in
  '(w, st) ← trim_loop (Z.to_nat (s64 (lm_tail lm) - from)) from w tx cnt;
  or_return w st (fun '(tx, cnt) =>
  or_return w
    (if u64 (lm_tail lm - lm_head lm) <=? cnt then Command_delKeyAndTTL cfg sess mk rv tx now
     else RocksKVStore_setKV cfg mk (list_record (Ret rv) (mkListMeta (u64 (start + head)) (u64 (end_ + 1 + head)))) tx now)
    (fun tx =>
  '(w, commitstatus) ← SessionCtx_commitTransaction cfg sess w tx;
  Ret (w, _ ← commitstatus; Ret tt)))).

(** The places to keep; [len, len - 1] when there are none. *)
Definition trim_range (len start end_ : Z) : Z * Z :=
  let start := if start <? 0 then len + start else start in
  let end_ := if end_ <? 0 then len + end_ else end_ in
  let start := if start <? 0 then 0 else start in
  let '(start, end_) := if (end_ <? start) || (len <=? start) then (len, len) else (start, end_) in
  (start, if len <=? end_ then len - 1 else end_).

Definition LTrim_run (w : World) (rv : M RecordValue) (start end_ : Z) : M (World * M bytes) :=
  m ← meta_or_none rv;
  match m with
  | None => Ret (w, Ret Command_fmtOK)
  | Some v =>
      lm ← ListMetaValue_decode (rv_value v);
      let len := s64 (u64 (lm_tail lm - lm_head lm)) in
      _ ← INVARIANT_D (0 <? len);
      if len <=? 0 then Throw ERR_INTERNAL (lit "invalid list") else
      let '(start, end_) := trim_range len start end_ in
      '(w, st) ← trimListPessimistic w lm start end_ v;
      Ret (w, _ ← st; Ret Command_fmtOK)
  end.

(** ** Reading *)

(** The loop of LRANGE; [memLimit] is the check of the memory that the command has used. *)
Fixpoint range_loop (n : nat) (memLimit : Z -> M unit) (start used : Z) (tx : RocksTxn T) (ss : bytes) : M bytes :=
  match n with
  | O => Ret ss
  | S n' =>
      eSubVal ← RocksKVStore_getKV cfg (ele_key start) tx;
      let used := used + zlen (rv_value eSubVal) in
      _ ← memLimit used;
      range_loop n' memLimit (start + 1) used tx (ss ++ Command_fmtBulk (rv_value eSubVal))
  end.

Definition LRange_run (w : World) (rv : M RecordValue) (memLimit : Z -> M unit) (start end_ : Z) : M (World * bytes) :=
  m ← meta_or_none rv;
  match m with
  | None => Ret (w, Command_fmtZeroBulkLen)
  | Some v =>
      '(w, tx) ← SessionCtx_createTransaction sess w;
      lm ← expect_ok (ListMetaValue_decode (rv_value v));
      let len := s64 (u64 (lm_tail lm - lm_head lm)) in
      _ ← INVARIANT_D (0 <? len);
      if len <=? 0 then Throw ERR_INTERNAL (lit "invalid list") else
      match clip_range len start end_ with
      | None => Ret (w, Command_fmtZeroBulkLen)
      | Some (start, end_) =>
          _ ← txn_access tx;
          let rangelen := end_ - start + 1 in
          ss ← range_loop (Z.to_nat rangelen) memLimit (s64 (u64 (start + lm_head lm))) 0 tx
                 (Command_fmtMultiBulkLen [] rangelen);
          Ret (w, ss)
      end
  end.

Definition LIndex_run (w : World) (rv : M RecordValue) (idx : Z) : M (World * bytes) :=
  m ← meta_or_none rv;
  match m with
  | None => Ret (w, Command_fmtNull)
  | Some v =>
      '(w, tx) ← SessionCtx_createTransaction sess w;
      lm ← expect_ok (ListMetaValue_decode (rv_value v));
      let mappingIdx := if 0 <=? idx then u64 (idx + lm_head lm) else u64 (idx + lm_tail lm) in
      if (mappingIdx <? lm_head lm) || (lm_tail lm <=? mappingIdx) then Ret (w, Command_fmtNull) else
      _ ← txn_access tx;
      eSubVal ← RocksKVStore_getKV cfg (ele_key mappingIdx) tx;
      Ret (w, Command_fmtBulk (rv_value eSubVal))
  end.

(** ** LSET *)

Definition set_round (rv : M RecordValue) (lm : ListMetaValue) (realIndex : Z) (value : bytes) (w : World)
  : M (World * M bytes) :=
  '(w, tx) ← SessionCtx_createTransaction sess w;
  _ ← txn_access tx;
  tx ← RocksKVStore_setKV cfg (ele_key realIndex) (ele_record value) tx now;
  tx ← RocksKVStore_setKV cfg mk (list_record rv lm) tx now;
  commit_reply cfg sess w tx Command_fmtOK.

Definition LSet_run (w : World) (rv : M RecordValue) (index : Z) (value : bytes) : M (World * M bytes) :=
  m ← meta_or_none rv;
  match m with
  | None => Throw ERR_NO_KEY []
  | Some v =>
      lm ← (match ListMetaValue_decode (rv_value v) with Ret lm => Ret lm | _ => Crash CUndefined end);
      let realIndex := if index <? 0 then u64 (lm_tail lm + index) else u64 (lm_head lm + index) in
      if (realIndex <? lm_head lm) || (lm_tail lm <=? realIndex) then Throw ERR_OUT_OF_RANGE [] else
      retry RETRY_CNT (set_round rv lm realIndex value) w
  end.

(** ** LREM *)

(** The search for the places to remove, which go to the end of [hole]. *)
Fixpoint lrem_scan (n : nat) (pos : ListPos) (value : bytes) (count index : Z) (hole : list Z) (tx : RocksTxn T)
  : M (list Z * RocksTxn T) :=
  match n with
  | O => Ret (hole, tx)
  | S n' =>
      expRv ← RocksKVStore_getKV cfg (ele_key index) tx;
      '(hole, tx, stop) ← (if bool_decide (rv_value expRv = value) then
                             let hole := hole ++ [index] in
                             tx ← RocksKVStore_delKV cfg (ele_key index) tx now;
                             Ret (hole, tx, (0 <=? count) && (zlen hole - 1 =? u32 count))
                           else Ret (hole, tx, false));
      if stop : bool then Ret (hole, tx) else
      lrem_scan n' pos value count (match pos with LP_HEAD => u64 (index + 1) | LP_TAIL => u64 (index - 1) end) hole tx
  end.

(** The longest segment between two holes. *)
Fixpoint lrem_gap (n : nat) (hole : list Z) (i lasthole largest : Z) (seg : Z * Z) : M (Z * Z) :=
  match n with
  | O => Ret seg
  | S n' =>
      hi ← vec_at hole i;
      hl ← vec_at hole lasthole;
      let d := u64 (hi - hl) in
      let '(largest, seg) := if largest <? d then (d, (lasthole, i)) else (largest, seg) in
      lrem_gap n' hole (i + 1) i largest seg
  end.

(** A segment left of the longest moves up, from its end on. *)
Fixpoint move_up (fuel : nat) (pos nextHole destPos : Z) (tx : RocksTxn T) : M (RocksTxn T * Z) :=
  if nextHole <? pos then
    match fuel with
    | O => Crash CUndefined
    | S fuel' =>
        eSubVal ← RocksKVStore_getKV cfg (ele_key pos) tx;
        tx ← RocksKVStore_setKV cfg (ele_key destPos) eSubVal tx now;
        move_up fuel' (u64 (pos - 1)) nextHole (u64 (destPos - 1)) tx
    end
  else Ret (tx, destPos).

(** The segments left of hole [n], from right to left. *)
Fixpoint lrem_left (n : nat) (hole : list Z) (destPos : Z) (tx : RocksTxn T) : M (RocksTxn T * Z) :=
  match n with
  | O => Ret (tx, destPos)
  | S i =>
      h1 ← vec_at hole (Z.of_nat i + 1);
      nextHole ← vec_at hole (Z.of_nat i);
      '(tx, destPos) ← move_up (Z.to_nat (u64 (h1 - 1) - nextHole)) (u64 (h1 - 1)) nextHole destPos tx;
      lrem_left i hole destPos tx
  end.

(** A segment right of the longest moves down, from its start on. *)
Fixpoint move_down (fuel : nat) (pos nextHole destPos : Z) (tx : RocksTxn T) : M (RocksTxn T * Z) :=
  if pos <? nextHole then
    match fuel with
    | O => Crash CUndefined
    | S fuel' =>
        eSubVal ← RocksKVStore_getKV cfg (ele_key pos) tx;
        tx ← RocksKVStore_setKV cfg (ele_key destPos) eSubVal tx now;
        move_down fuel' (u64 (pos + 1)) nextHole (u64 (destPos + 1)) tx
    end
  else Ret (tx, destPos).

(** [n] segments, the first one right of hole [i - 1]. *)
Fixpoint lrem_right (n : nat) (i : Z) (hole : list Z) (destPos : Z) (tx : RocksTxn T) : M (RocksTxn T * Z) :=
  match n with
  | O => Ret (tx, destPos)
  | S n' =>
      h0 ← vec_at hole (i - 1);
      nextHole ← vec_at hole i;
      '(tx, destPos) ← move_down (Z.to_nat (nextHole - u64 (h0 + 1))) (u64 (h0 + 1)) nextHole destPos tx;
      lrem_right n' (i + 1) hole destPos tx
  end.

(** The records between the old ends and the new ends. *)
Fixpoint del_ends (fuel : nat) (oldHead oldTail head tail : Z) (tx : RocksTxn T) : M (RocksTxn T) :=
  match fuel with
  | O => Crash CUndefined
  | S fuel' =>
      if negb (oldHead =? head) then
        tx ← RocksKVStore_delKV cfg (ele_key oldHead) tx now;
        del_ends fuel' (u64 (oldHead + 1)) oldTail head tail tx
      else if negb (oldTail =? tail) then
        tx ← RocksKVStore_delKV cfg (ele_key (u64 (oldTail - 1))) tx now;
        del_ends fuel' oldHead (u64 (oldTail - 1)) head tail tx
      else Ret tx
  end.

(** LREM from the holes on: the elements move next to the longest segment. *)
Definition lrem_close (lm : ListMetaValue) (hole : list Z) (tx : RocksTxn T) : M (RocksTxn T * ListMetaValue) :=
  '(lBorder, rBorder) ← lrem_gap (length hole - 1) hole 1 0 0 (0, 0);
  hl ← vec_at hole lBorder;
  hr ← vec_at hole rBorder;
  _ ← INVARIANT (hl <? hr);
  '(tx, destPos) ← lrem_left (Z.to_nat lBorder) hole hl tx;
  let head := u64 (destPos + 1) in
  '(tx, destPos) ← lrem_right (length hole - Z.to_nat (rBorder + 1)) (rBorder + 1) hole hr tx;
  let tail := destPos in
  tx ← del_ends (S (Z.to_nat (lm_tail lm - lm_head lm))) (lm_head lm) (lm_tail lm) head tail tx;
  Ret (tx, mkListMeta head tail).

(** The count of LREM is an [int32_t]. *)
Definition INT32_MIN : Z := - 2 ^ 31.

Definition LRem_run (w : World) (rv : M RecordValue) (count : Z) (value : bytes) : M (World * M bytes) :=
  m ← meta_or_none rv;
  match m with
  | None => Ret (w, Ret Command_fmtZero)
  | Some v =>
      if count =? INT32_MIN then Crash CUndefined else
      let '(pos, count) := if count <? 0 then (LP_TAIL, - count) else (LP_HEAD, count) in
      lm ← expect_ok (ListMetaValue_decode (rv_value v));
      let head := lm_head lm in
      let tail := lm_tail lm in
      let index := match pos with LP_HEAD => head | LP_TAIL => u64 (tail - 1) end in
      '(w, tx) ← SessionCtx_createTransaction sess w;
      _ ← txn_access tx;
      '(hole, tx) ← lrem_scan (Z.to_nat (u64 (tail - head))) pos value count index [u64 (head - 1)] tx;
      let hole := hole ++ [tail] in
      if zlen hole =? 2 then Ret (w, Ret Command_fmtZero) else
      let hole := match pos with LP_TAIL => merge_sort Z.le hole | LP_HEAD => hole end in
      '(tx, lm) ← lrem_close lm hole tx;
      tx ← (if lm_head lm =? lm_tail lm then Command_delKeyAndTTL cfg sess mk v tx now
            else RocksKVStore_setKV cfg mk (list_record rv lm) tx now);
      commit_reply cfg sess w tx (Command_fmtLongLong (zlen hole - 2))
  end.

(** ** LINSERT *)

(** The place of the first element that is the pivot. *)
Fixpoint find_pivot (len : nat) (index : Z) (pivot : bytes) (tx : RocksTxn T) : M (option Z) :=
  match len with
  | O => Ret None
  | S len' =>
      subRv ← RocksKVStore_getKV cfg (ele_key index) tx;
      if bool_decide (rv_value subRv = pivot) then Ret (Some index) else find_pivot len' (u64 (index + 1)) pivot tx
  end.

(** [moveLen] elements move against [step], to make room. *)
Fixpoint make_room (moveLen : nat) (step index : Z) (tx : RocksTxn T) : M (RocksTxn T * Z) :=
  match moveLen with
  | O => Ret (tx, index)
  | S n =>
      eSubVal ← RocksKVStore_getKV cfg (ele_key (u64 (index + step))) tx;
      tx ← RocksKVStore_setKV cfg (ele_key index) eSubVal tx now;
      make_room n step (u64 (index + step)) tx
  end.

Definition LInsert_run (w : World) (rv : M RecordValue) (before : bool) (pivot value : bytes) : M (World * M bytes) :=
  m ← meta_or_none rv;
  match m with
  | None => Ret (w, Ret Command_fmtZero)
  | Some v =>
      lm ← expect_ok (ListMetaValue_decode (rv_value v));
      let head := lm_head lm in
      let tail := lm_tail lm in
      '(w, tx) ← SessionCtx_createTransaction sess w;
      _ ← txn_access tx;
      p ← find_pivot (Z.to_nat (u64 (tail - head))) head pivot tx;
      match p with
      | None => Ret (w, Ret (Command_fmtLongLong (-1)))
      | Some index =>
          let leftEle := s32 (u32 (index - head)) + (if before then 0 else 1) in
          let rightEle := s32 (u32 (tail - index - 1)) + (if before then 1 else 0) in
          let '(step, head, tail, index, moveLen) :=
            if leftEle <? rightEle then (1, u64 (head - 1), tail, u64 (head - 1), leftEle)
            else (-1, head, u64 (tail + 1), u64 (u64 (tail + 1) - 1), rightEle) in
          '(tx, index) ← make_room (Z.to_nat moveLen) step index tx;
          tx ← RocksKVStore_setKV cfg (ele_key index) (ele_record value) tx now;
          let lm := mkListMeta head tail in
          tx ← RocksKVStore_setKV cfg mk (list_record rv lm) tx now;
          commit_reply cfg sess w tx (fmt_length lm)
      end
  end.

End List.

(** ** RPOPLPUSH *)

Section RPopLPush.
Context {BM : BuildMode} {T : Type} `{RocksDB T}.
Variable cfg : StoreCfg.
Variable sess : SessionCtx.
Variable now : Z.

(** RPOPLPUSH on two keys of one store, which share the transaction; [rv] is the meta record of
    the first key, [rv2] the one of the second, if it is another key. The loops over [RETRY_CNT]
    end in their first round, since only a commit asks for another. *)
Definition RPopLPush_run (mk1 mk2 : RecordKey) (w : World) (rv rv2 : M RecordValue) : M (World * M bytes) :=
  m ← meta_or_none rv;
  match m with
  | None => Ret (w, Ret Command_fmtNull)
  | Some _ =>
      '(w, tx) ← SessionCtx_createTransaction sess w;
      match genericPop cfg sess mk1 now tx rv LP_TAIL with
      | Throw ERR_NOTFOUND _ => Ret (w, Ret Command_fmtNull)
      | Throw c msg => Throw c msg
      | Crash c => Crash c
      | Ret (tx, val) =>
          let rv2 := if bool_decide (rk_pk mk1 = rk_pk mk2) then RocksKVStore_getKV cfg mk1 tx else rv2 in
          '(tx, _) ← genericPush cfg sess mk2 now tx rv2 [val] LP_HEAD false;
          '(w, _) ← SessionCtx_commitAll cfg sess w tx;
          Ret (w, Ret (Command_fmtBulk val))
      end
  end.

End RPopLPush.
