(* ===== verification/ListSpec.v ===== *)
(** What the commands of lists (commands/list.cpp) do to the list and what they answer. *)

From Stdlib Require Import Strings.Byte ZArith Lia.
From stdpp Require Import base list numbers strings gmap sorting.
From S2P Require Import Prelude Status Varint Strings Record RecordValue RecordMeta ReplLog BinlogSeq Txn Store Replicate Command Elems List.

Local Open Scope Z_scope.

Lemma zlen_pos {A} (l : list A) : l <> [] -> 0 < zlen l.
Proof. destruct l as [|x l]; [done|]. rewrite zlen_cons. pose proof (zlen_nonneg l). lia. Qed.

(** * Consecutive places *)

#[local] Abbreviation seq_map := (map_seqZ (M := gmap Z bytes)).

Lemma seq_map_cons h x l : seq_map h (x :: l) = <[h := x]> (seq_map (h + 1) l).
Proof. by rewrite map_seqZ_cons. Qed.

Lemma seq_map_snoc h x l : seq_map h (l ++ [x]) = <[h + zlen l := x]> (seq_map h l).
Proof. by rewrite map_seqZ_snoc. Qed.

Lemma znth_outside {A} (l : list A) i : i < 0 \/ zlen l <= i -> znth l i = None.
Proof.
  revert i. induction l as [|x l IH]; intros i Hi; [done|]. rewrite zlen_cons in Hi. pose proof (zlen_nonneg l). cbn [znth].
  destruct (Z.eqb_spec i 0); [lia|]. apply IH. lia.
Qed.

Lemma lookup_seq_map l : forall h i, seq_map h l !! i = znth l (i - h).
Proof.
  induction l as [|x l IH]; intros h i; [done|]. rewrite seq_map_cons. cbn [znth].
  destruct (Z.eqb_spec (i - h) 0); [replace i with h by lia; by rewrite lookup_insert_eq|].
  rewrite lookup_insert_ne by lia. rewrite IH. f_equal. lia.
Qed.

Lemma lookup_seq_map_mid h A x B : seq_map h (A ++ x :: B) !! (h + zlen A) = Some x.
Proof. rewrite lookup_seq_map, znth_app_r by lia. by replace (h + zlen A - h - zlen A) with 0 by lia. Qed.

Lemma delete_seq_head h x l : delete h (seq_map h (x :: l)) = seq_map (h + 1) l.
Proof. rewrite seq_map_cons. apply delete_insert_id. rewrite lookup_seq_map. apply znth_outside. lia. Qed.

Lemma delete_seq_last h x l : delete (h + zlen l) (seq_map h (l ++ [x])) = seq_map h l.
Proof. rewrite seq_map_snoc. apply delete_insert_id. rewrite lookup_seq_map. apply znth_outside. lia. Qed.

Lemma insert_seq h l i v : 0 <= i < zlen l -> <[h + i := v]> (seq_map h l) = seq_map h (zset l i v).
Proof.
  intros Hi. apply map_eq. intros j. rewrite lookup_seq_map. destruct (decide (j = h + i)) as [->|Hn].
  - rewrite lookup_insert_eq, Z.add_simpl_l. by rewrite znth_zset_eq.
  - rewrite lookup_insert_ne, lookup_seq_map by done. rewrite znth_zset_ne by lia. done.
Qed.

Lemma znth_window {A} (l : list A) s n j : 0 <= s -> znth (ztake n (zdrop s l)) j = if decide (0 <= j < n) then znth l (s + j) else None.
Proof.
  intros Hs. rewrite ztake_take, zdrop_drop. case_decide as Hj.
  - rewrite !znth_lookup by lia. rewrite lookup_take_lt, lookup_drop by lia. f_equal. lia.
  - apply znth_outside. unfold zlen. rewrite length_take. lia.
Qed.

(** * The list *)

Section Spec.
Context {BM : BuildMode} {T : Type} `{RocksDBLaws T} {HH : RocksDBHealthy T}.
Variable cfg : StoreCfg.
Variable sess : SessionCtx.
Variables (chunkId : Z) (pk : bytes).
Hypothesis Hcat : cfg_isCatalog cfg = false.
Hypothesis Hchunk : is_u32 chunkId /\ chunkId <> CHUNKID_FLUSH.
Hypothesis Hdb : is_u32 (sc_dbId sess).
Hypothesis Hpk : zlen pk < 2 ^ 61.

(** The meta key of the list. *)
Definition list_key : RecordKey := RecordKey_new chunkId (sc_dbId sess) RT_LIST_META pk [] 0.

#[local] Abbreviation ek := (ele_key list_key).

#[local] Instance ele_family : KeyFamily ek (is_u 64).
Proof.
  split.
  - intros i Hi. split; [|split; [done|apply Hchunk]]. apply RecordKey_wf_new; [apply Hchunk|done|done|].
    pose proof (zlen_to_string i Hi). cbn [list_key RecordKey_new rk_pk]. lia.
  - intros i j _ _ (_ & _ & _ & _ & E & _)%RecordKey_equiv_fields. by apply to_string_inj.
Qed.

Lemma list_key_data : data_key list_key /\ zlen (rk_pk list_key) < 2 ^ 61.
Proof. split; [|done]. split; [|split; [done|apply Hchunk]]. apply RecordKey_wf_new; [apply Hchunk|done|done|]. change (zlen []) with 0. lia. Qed.

(** The elements at the places of a map. *)
Definition places (tx : RocksTxn T) (m : gmap Z bytes) : Prop := elems cfg ek (is_u 64) RT_LIST_ELE tx m.

(** The meta record [rv] with the value [lm], and the elements [l] at its places, and no other. *)
Definition list_stored (tx : RocksTxn T) (rv : RecordValue) (lm : ListMetaValue) (l : list bytes) : Prop :=
  held cfg ek (is_u 64) RT_LIST_ELE RT_LIST_META list_key tx rv (seq_map (lm_head lm) l) /\
  ListMetaValue_decode (rv_value rv) = Ret lm /\ l <> [] /\
  lm_tail lm = lm_head lm + zlen l /\ 0 < lm_head lm /\ lm_tail lm < 2 ^ 63.

(** No record of the list is left. *)
Definition list_gone (tx : RocksTxn T) : Prop := absent cfg ek (is_u 64) RT_LIST_ELE list_key tx.

(** What a command has found for the key: a list, or nothing. *)
Definition list_found (tx : RocksTxn T) (rv : M RecordValue) (lm : ListMetaValue) (l : list bytes) : Prop :=
  match rv with
  | Ret v => list_stored tx v lm l
  | Throw c _ => (c = ERR_NOTFOUND \/ c = ERR_EXPIRED) /\ l = [] /\ lm = mkListMeta INITSEQ INITSEQ /\ places tx ∅
  | Crash _ => False
  end.

(** Another transaction that sees the same records of the key. *)
Definition same_list (tx tx' : RocksTxn T) : Prop :=
  writable tx' /\ forall k, data_key k -> rk_pk k = pk -> rk_type k <> RT_TTL_INDEX -> raw_record tx' k = raw_record tx k.

Lemma places_same tx tx' m : same_list tx tx' -> places tx m -> places tx' m.
Proof.
  intros [Hw Hr] Hp. eapply (elems_same cfg ek (is_u 64) RT_LIST_ELE tx); [done|done|]. intros i Hi. apply Hr; [|done|done].
  by apply (family_data (key := ek) (ok := is_u 64)).
Qed.

Lemma list_stored_same tx tx' rv lm l : same_list tx tx' -> list_stored tx rv lm l -> list_stored tx' rv lm l.
Proof.
  intros Hsm ((Hg & Hwf & Hty & He) & Hs). split; [|done]. pose proof (places_same _ _ _ Hsm He). destruct Hsm as [_ Hr]. destruct list_key_data as [Hd _].
  split; [|done]. eapply getKV_frame; [done| |done]. by apply Hr.
Qed.

Lemma list_gone_same tx tx' : same_list tx tx' -> list_gone tx -> list_gone tx'.
Proof.
  intros Hsm [[msg Hg] He]. split; [|by apply (places_same tx)]. destruct Hsm as [_ Hr]. destruct list_key_data as [Hd _].
  pose proof (getKV_raw cfg list_key tx Hd) as G1. pose proof (getKV_raw cfg list_key tx' Hd) as G2. rewrite (Hr _ Hd) in G2 by done.
  destruct (raw_record tx list_key); [by rewrite G2, <-G1; exists msg|done].
Qed.

Lemma list_found_same tx tx' rv lm l : same_list tx tx' -> list_found tx rv lm l -> list_found tx' rv lm l.
Proof.
  intros Hsm Hf. destruct rv as [v|c msg|]; [by apply (list_stored_same tx)| |done]. destruct Hf as (Hc & El & Em & Hp). split; [done|].
  split; [done|]. split; [done|]. by apply (places_same tx).
Qed.

(** [setKV] of the meta record over the places of a list. *)
Lemma save_list tx rv lm l now :
  places tx (seq_map (lm_head lm) l) -> l <> [] -> lm_tail lm = lm_head lm + zlen l -> 0 < lm_head lm -> lm_tail lm < 2 ^ 63 ->
  is_u64 (sc_versionEP sess) -> old_ok rv ->
  exists tx', RocksKVStore_setKV cfg list_key (list_record sess rv lm) tx now = Ret tx' /\
    list_stored tx' (list_record sess rv lm) lm l /\ rv_ttl (list_record sess rv lm) = old_ttl rv.
Proof.
  intros Hp Hl Et Hh Ht Hep Ho. pose proof (zlen_nonneg l).
  destruct (ListMetaValue_law lm) as (s & [= <-] & Hdec & Hsz); [unfold is_u; lia|].
  destruct (update_value (ListMetaValue_encode lm) RT_LIST_META (sc_versionEP sess) (old_ttl rv) rv) as (E1 & E2 & E3).
  destruct (set_meta cfg Hcat ek (is_u 64) RT_LIST_ELE RT_LIST_META list_key ltac:(done) ltac:(done) list_key_data tx _ (list_record sess rv lm) now Hp)
    as (tx' & E & Hs); [apply update_wf; [done|lia|done|done]|done|].
  exists tx'. split; [done|]. split; [|done]. split; [done|]. split; [|done]. unfold list_record. by rewrite E1.
Qed.

Lemma drop_list tx rv now :
  places tx ∅ -> RecordValue_wf rv -> rv_type rv = RT_LIST_META ->
  exists tx', Command_delKeyAndTTL cfg sess list_key rv tx now = Ret tx' /\ list_gone tx'.
Proof.
  intros Hp Hwf Ht. by apply (drop_meta cfg sess Hcat Hdb ek (is_u 64) RT_LIST_ELE RT_LIST_META list_key ltac:(done) ltac:(done) list_key_data ltac:(done)).
Qed.

Lemma ele_wf v : zlen v < 2 ^ 62 -> RecordValue_wf (ele_record v).
Proof. intros Hv. unfold RecordValue_wf, ele_record, RecordValue_new, MAXU64; cbn. by split_and!. Qed.

Lemma set_place tx m i v now :
  places tx m -> is_u64 i -> zlen v < 2 ^ 62 ->
  exists tx', RocksKVStore_setKV cfg (ek i) (ele_record v) tx now = Ret tx' /\ places tx' (<[i := v]> m).
Proof.
  intros Hp Hi Hv. destruct (elems_set cfg Hcat ek (is_u 64) RT_LIST_ELE tx m i (ele_record v) now Hp Hi (ele_wf v Hv) eq_refl) as (tx' & E & Hp' & _).
  by exists tx'.
Qed.

Lemma del_place tx m i now :
  places tx m -> is_u64 i -> exists tx', RocksKVStore_delKV cfg (ek i) tx now = Ret tx' /\ places tx' (delete i m).
Proof. intros Hp Hi. destruct (elems_del cfg Hcat ek (is_u 64) RT_LIST_ELE tx m i now Hp Hi) as (tx' & E & Hp' & _). by exists tx'. Qed.

Lemma get_place tx m i v :
  places tx m -> is_u64 i -> m !! i = Some v -> exists rv, RocksKVStore_getKV cfg (ek i) tx = Ret rv /\ RecordValue_wf rv /\ rv_type rv = RT_LIST_ELE /\ rv_value rv = v.
Proof. intros Hp Hi E. by apply (elems_get cfg ek (is_u 64) RT_LIST_ELE tx m i v). Qed.

Lemma set_place_untouched tx tx' m i v now :
  places tx m -> RocksKVStore_setKV cfg (ek i) (ele_record v) tx now = Ret tx' -> is_u64 i -> zlen v < 2 ^ 62 -> untouched pk tx tx'.
Proof.
  intros [Hw _] E Hi Hv. apply (set_untouched cfg Hcat tx tx' (ek i) (ele_record v) now E); [|by apply ele_wf|done].
  by apply (family_data (key := ek) (ok := is_u 64)).
Qed.

(** A place copied to another. *)
Lemma copy_place tx m i j v now :
  places tx m -> is_u64 i -> is_u64 j -> m !! i = Some v ->
  exists rv tx', RocksKVStore_getKV cfg (ek i) tx = Ret rv /\ RocksKVStore_setKV cfg (ek j) rv tx now = Ret tx' /\ places tx' (<[j := v]> m).
Proof.
  intros Hp Hi Hj E. destruct (get_place tx m i v Hp Hi E) as (rv & Eg & Hwf & Ht & <-).
  destruct (elems_set cfg Hcat ek (is_u 64) RT_LIST_ELE tx m j rv now Hp Hj Hwf Ht) as (tx' & Es & Hp' & _). by exists rv, tx'.
Qed.

(** ** Pushing and popping *)

(** The list after a push. *)
Definition pushed (pos : ListPos) (args l : list bytes) : list bytes :=
  match pos with LP_HEAD => rev args ++ l | LP_TAIL => l ++ args end.

(** The list before a pop that gives [x]. *)
Definition popped (pos : ListPos) (x : bytes) (l : list bytes) : list bytes :=
  match pos with LP_HEAD => x :: l | LP_TAIL => l ++ [x] end.

Lemma zlen_pushed pos args l : zlen (pushed pos args l) = zlen l + zlen args.
Proof. destruct pos; cbn [pushed]; rewrite zlen_app; [unfold zlen; rewrite length_rev|]; lia. Qed.

Lemma push_loop_ok pos now args : forall tx head tail l,
  places tx (seq_map head l) -> tail = head + zlen l -> zlen args < head -> tail + zlen args < 2 ^ 63 ->
  Forall (fun a => zlen a < 2 ^ 62) args ->
  exists tx' head', push_loop cfg list_key now pos args head tail tx = Ret (tx', head', head' + zlen (pushed pos args l)) /\
    places tx' (seq_map head' (pushed pos args l)) /\ head' = match pos with LP_HEAD => head - zlen args | LP_TAIL => head end /\ untouched pk tx tx'.
Proof.
  induction args as [|a args IH]; intros tx head tail l Hp -> Hh Ht Ha; cbn [push_loop].
  { exists tx, head. rewrite zlen_nil. destruct pos; cbn [pushed rev app]; rewrite ?app_nil_r; rewrite ?Z.sub_0_r; by split_and!. }
  inversion Ha as [|? ? Ha1 Has]; subst. rewrite zlen_cons in *. pose proof (zlen_nonneg args). pose proof (zlen_nonneg l).
  destruct pos.
  - rewrite !wrap_id by (unfold is_u; lia). destruct (set_place tx _ (head - 1) a now Hp) as (tx1 & E1 & Hp1); [unfold is_u; lia|done|].
    pose proof (set_place_untouched _ _ _ _ _ _ Hp E1 ltac:(unfold is_u; lia) Ha1) as U1. rewrite E1, bind_Ret.
    replace (<[head - 1:=a]> (seq_map head l)) with (seq_map (head - 1) (a :: l)) in Hp1 by (rewrite seq_map_cons; by rewrite Z.sub_add).
    destruct (IH tx1 (head - 1) (head + zlen l) (a :: l) Hp1) as (tx' & head' & -> & Hp' & -> & U2); [rewrite zlen_cons; lia|lia|lia|done|].
    exists tx', (head - (1 + zlen args)). cbn [pushed rev] in *. rewrite <-app_assoc. cbn [app]. replace (head - 1 - zlen args) with (head - (1 + zlen args)) in * by lia.
    split; [done|]. split; [done|]. split; [done|]. by etrans.
  - rewrite wrap_id by (unfold is_u; lia). destruct (set_place tx _ (head + zlen l) a now Hp) as (tx1 & E1 & Hp1); [unfold is_u; lia|done|].
    pose proof (set_place_untouched _ _ _ _ _ _ Hp E1 ltac:(unfold is_u; lia) Ha1) as U1. rewrite E1, bind_Ret.
    rewrite <-seq_map_snoc in Hp1.
    destruct (IH tx1 head (head + zlen l + 1) (l ++ [a]) Hp1) as (tx' & head' & -> & Hp' & -> & U2); [rewrite zlen_app, zlen_cons, zlen_nil; lia|lia|lia|done|].
    exists tx', head. cbn [pushed] in *. rewrite <-app_assoc in *. split; [done|]. split; [done|]. split; [done|]. by etrans.
Qed.

Lemma fmt_length_ok lm n : lm_tail lm = lm_head lm + n -> 0 <= n < 2 ^ 63 -> fmt_length lm = Command_fmtLongLong n.
Proof.
  intros E Hn. unfold fmt_length. by rewrite E, Z.add_simpl_l, wrap_id, s64_id by (unfold is_u; lia).
Qed.

Lemma push_ok tx rv lm l args pos needExist now :
  list_found tx rv lm l -> is_u64 (sc_versionEP sess) -> args <> [] -> Forall (fun a => zlen a < 2 ^ 62) args ->
  zlen args < lm_head lm -> lm_tail lm + zlen args < 2 ^ 63 -> (needExist = true -> l <> []) ->
  exists tx' rv' lm', genericPush cfg sess list_key now tx rv args pos needExist = Ret (tx', Command_fmtLongLong (zlen (pushed pos args l))) /\
    list_stored tx' rv' lm' (pushed pos args l) /\ rv_ttl rv' = old_ttl rv /\ untouched pk tx tx'.
Proof.
  intros Hfd Hep Hne Ha Hh Ht Hx.
  assert (places tx (seq_map (lm_head lm) l) /\ lm_tail lm = lm_head lm + zlen l /\ old_ok rv /\ tx_done tx = false) as (Hp & Et & Ho & Hd).
  { destruct rv as [v| |]; [|destruct Hfd as (_ & -> & -> & Hp)|done].
    - destruct Hfd as ((_ & Hwf & _ & Hp) & _ & _ & Et & _). split; [done|]. split; [done|]. split; [done|]. apply Hp.
    - split; [done|]. split; [done|]. split; [done|]. apply Hp. }
  pose proof (zlen_nonneg args). pose proof (zlen_nonneg l). pose proof (zlen_pushed pos args l) as Hz.
  destruct (push_loop_ok pos now args tx _ _ l Hp Et Hh Ht Ha) as (tx1 & head' & E & Hp1 & Eh & U1).
  pose proof (zlen_pos args Hne).
  destruct (save_list tx1 rv (mkListMeta head' (head' + zlen (pushed pos args l))) (pushed pos args l) now) as (tx' & Es & Hs & Htl);
    cbn [lm_head lm_tail]; try done.
  { intros En. rewrite En, zlen_nil in Hz. lia. }
  { destruct pos; lia. }
  { destruct pos; lia. }
  pose proof (fmt_length_ok (mkListMeta head' (head' + zlen (pushed pos args l))) (zlen (pushed pos args l)) eq_refl ltac:(lia)) as Ef.
  pose proof (set_untouched cfg Hcat _ _ _ _ _ Es (proj1 list_key_data) (proj1 (proj2 (proj1 Hs))) (proj1 Hp1)) as U2.
  eexists tx', _, _. split; [|split; [done|split; [done|by etrans]]]. unfold genericPush, txn_access. rewrite Hd.
  destruct rv as [v|c msg|]; [destruct Hfd as (_ & -> & _); cbn [expect_ok]; rewrite bind_Ret|destruct Hfd as ([->| ->] & -> & -> & _)|done].
  all: try (destruct needExist; [by destruct (Hx eq_refl)|]). all: cbn [lm_head lm_tail] in *.
  all: by rewrite bind_Ret, E, bind_Ret, Es, bind_Ret, Ef.
Qed.

Lemma pop_ok tx v lm l x pos now :
  list_stored tx v lm (popped pos x l) -> is_u64 (sc_versionEP sess) ->
  exists tx', genericPop cfg sess list_key now tx (Ret v) pos = Ret (tx', x) /\
    untouched pk tx tx' /\
    match l with
    | [] => list_gone tx'
    | _ => exists rv' lm', list_stored tx' rv' lm' l /\ rv_ttl rv' = rv_ttl v /\ lm_head lm' = match pos with LP_HEAD => lm_head lm + 1 | LP_TAIL => lm_head lm end
    end.
Proof.
  intros ((Hg & Hwf & Hty & Hp) & Hdec & _ & Et & Hh & Ht) Hep. unfold genericPop, txn_access. rewrite bind_Ret, Hdec. cbn [expect_ok].
  assert (zlen (popped pos x l) = zlen l + 1) as Hz by (destruct pos; cbn [popped]; rewrite ?zlen_app, zlen_cons, ?zlen_nil; lia).
  rewrite bind_Ret. pose proof (zlen_nonneg l). replace (lm_head lm =? lm_tail lm) with false by lia. inv_d by done.
  assert (tx_done tx = false) as -> by apply Hp.
  set (idx := match pos with LP_HEAD => lm_head lm | LP_TAIL => lm_tail lm - 1 end). set (h := match pos with LP_HEAD => lm_head lm + 1 | LP_TAIL => lm_head lm end).
  assert (seq_map (lm_head lm) (popped pos x l) !! idx = Some x /\ delete idx (seq_map (lm_head lm) (popped pos x l)) = seq_map h l) as [Ex Ed].
  { subst idx h. destruct pos; cbn [popped]; [split; [by rewrite seq_map_cons, lookup_insert_eq|apply delete_seq_head]|].
    replace (lm_tail lm - 1) with (lm_head lm + zlen l) by lia. split; [apply (lookup_seq_map_mid _ l x [])|apply delete_seq_last]. }
  destruct (get_place tx _ idx x Hp ltac:(subst idx; unfold is_u; destruct pos; lia) Ex) as (subRv & Eg & _ & _ & Ev).
  destruct (del_place tx _ idx now Hp ltac:(subst idx; unfold is_u; destruct pos; lia)) as (tx1 & Edl & Hp1). rewrite Ed in Hp1.
  pose proof (del_untouched cfg Hcat _ _ _ _ Edl (family_data (key := ek) (ok := is_u 64) idx ltac:(subst idx; unfold is_u; destruct pos; lia)) (proj1 Hp)) as U1.
  destruct l as [|y l].
  - destruct (drop_list tx1 v now Hp1 Hwf Hty) as (tx' & Es & Hgone). exists tx'.
    pose proof (drop_untouched cfg sess Hcat Hdb _ _ _ _ _ Es (proj1 Hp1) (proj1 list_key_data) Hpk Hwf ltac:(by rewrite Hty)) as U2.
    split; [|split; [by etrans|done]]. subst idx h. rewrite zlen_nil in Hz.
    destruct pos; rewrite ?wrap_id by (unfold is_u; lia); rewrite bind_Ret, Eg, bind_Ret, Edl, bind_Ret;
      match goal with |- context [?a =? ?b] => replace (a =? b) with true by lia end; by rewrite Es, bind_Ret, Ev.
  - rewrite zlen_cons in *. pose proof (zlen_nonneg l).
    destruct (save_list tx1 (Ret v) (mkListMeta h (h + (1 + zlen l))) (y :: l) now) as (tx' & Es & Hs & Htl); cbn [lm_head lm_tail]; try done.
    { by rewrite zlen_cons. }
    { subst h. destruct pos; lia. }
    { subst h. destruct pos; lia. }
    pose proof (set_untouched cfg Hcat _ _ _ _ _ Es (proj1 list_key_data) (proj1 (proj2 (proj1 Hs))) (proj1 Hp1)) as U2.
    exists tx'. split; [|split; [by etrans|eexists _, _; split; [done|split; [done|by subst h; destruct pos]]]]. subst idx h.
    destruct pos; rewrite ?wrap_id by (unfold is_u; lia); rewrite bind_Ret, Eg, bind_Ret, Edl, bind_Ret;
      match goal with |- context [?a =? ?b] => replace (a =? b) with false by lia end;
      [replace (lm_tail lm) with (lm_head lm + 1 + (1 + zlen l)) by lia|replace (lm_tail lm - 1) with (lm_head lm + (1 + zlen l)) by lia]; by rewrite Es, bind_Ret, Ev.
Qed.

(** ** Reading and overwriting *)

(** The place that an index means, from the end if it is negative. *)
Definition list_place (l : list bytes) (idx : Z) : Z := if 0 <=? idx then idx else zlen l + idx.

Lemma list_stored_done tx rv lm l : list_stored tx rv lm l -> tx_done tx = false.
Proof. intros ((_ & _ & _ & Hp) & _). apply Hp. Qed.

Lemma list_stored_len tx rv lm l : list_stored tx rv lm l -> s64 (u64 (lm_tail lm - lm_head lm)) = zlen l /\ 0 < zlen l.
Proof.
  intros (_ & _ & Hl & Et & Hh & Ht). rewrite Et, Z.add_simpl_l. pose proof (zlen_pos l Hl).
  by rewrite wrap_id, s64_id by (unfold is_u; lia).
Qed.

Lemma range_loop_ok memLimit tx h B : forall A C used ss,
  places tx (seq_map h (A ++ B ++ C)) -> 0 < h -> h + zlen (A ++ B ++ C) < 2 ^ 63 -> (forall n, memLimit n = Ret tt) ->
  range_loop cfg list_key (length B) memLimit (h + zlen A) used tx ss = Ret (ss ++ concat (map Command_fmtBulk B)).
Proof.
  induction B as [|x B IH]; intros A C used ss Hp Hh Ht Hm; cbn [range_loop length map concat]; [by rewrite app_nil_r|].
  pose proof (zlen_nonneg A). pose proof (zlen_nonneg B). pose proof (zlen_nonneg C). assert (is_u64 (h + zlen A)).
  { rewrite !zlen_app in Ht. unfold is_u. cbn [app] in Ht. rewrite zlen_cons in Ht. lia. }
  destruct (get_place tx _ (h + zlen A) x Hp) as (rv & -> & _ & _ & <-); [done|by apply lookup_seq_map_mid|]. rewrite bind_Ret, Hm, bind_Ret.
  replace (h + zlen A + 1) with (h + zlen (A ++ [rv_value rv])) by (rewrite zlen_app, zlen_cons, zlen_nil; lia).
  rewrite (IH (A ++ [rv_value rv]) C); [by rewrite <-app_assoc|by rewrite <-app_assoc|done|by rewrite <-app_assoc|done].
Qed.

Lemma lrange_ok w w1 tx v lm l memLimit start end_ :
  list_stored tx v lm l -> SessionCtx_createTransaction sess w = Ret (w1, tx) -> (forall n, memLimit n = Ret tt) ->
  LRange_run cfg sess list_key w (Ret v) memLimit start end_ =
    Ret (w1, match clip_range (zlen l) start end_ with
             | None => Command_fmtZeroBulkLen
             | Some (s, e) => Command_fmtMultiBulkLen [] (e - s + 1) ++ concat (map Command_fmtBulk (ztake (e - s + 1) (zdrop s l)))
             end).
Proof.
  intros Hs Ew Hm. destruct (list_stored_len _ _ _ _ Hs) as [El Hl]. pose proof (list_stored_done _ _ _ _ Hs) as Hd.
  destruct Hs as ((_ & _ & _ & Hp) & Hdec & _ & Et & Hh & Ht). unfold LRange_run, txn_access. cbn [meta_or_none].
  rewrite bind_Ret, Ew, bind_Ret, Hdec. cbn [expect_ok]. rewrite bind_Ret, El. inv_d by lia. replace (zlen l <=? 0) with false by lia.
  destruct (clip_range (zlen l) start end_) as [[s e]|] eqn:Ec; [|done]. apply clip_range_bounds in Ec as [Hs He]; [|lia]. rewrite Hd, bind_Ret.
  rewrite wrap_id, s64_id by (unfold is_u; lia). set (B := ztake (e - s + 1) (zdrop s l)).
  assert (l = ztake s l ++ B ++ zdrop (e - s + 1) (zdrop s l)) as Esp by (unfold B; by rewrite (ztake_zdrop (e - s + 1)), ztake_zdrop).
  assert (zlen B = e - s + 1) as HB by (apply zlen_take; rewrite zlen_drop; lia).
  replace (s + lm_head lm) with (lm_head lm + zlen (ztake s l)) by (rewrite zlen_take; lia). rewrite <-HB at 1. unfold zlen at 1. rewrite Nat2Z.id.
  rewrite Esp in Hp. rewrite (range_loop_ok memLimit tx (lm_head lm) B _ _ _ _ Hp Hh); [done| |done]. rewrite <-Esp. lia.
Qed.

(** The place of an index in 64 bits. *)
Lemma mapped_index l lm idx :
  lm_tail lm = lm_head lm + zlen l -> 0 < lm_head lm -> lm_tail lm < 2 ^ 63 -> is_s64 idx ->
  let mi := u64 ((if 0 <=? idx then lm_head lm else lm_tail lm) + idx) in
  if (mi <? lm_head lm) || (lm_tail lm <=? mi) then znth l (list_place l idx) = None
  else mi = lm_head lm + list_place l idx /\ 0 <= list_place l idx < zlen l.
Proof.
  intros Et Hh Ht Hi mi. unfold is_s in Hi. pose proof (zlen_nonneg l).
  assert (mi = lm_head lm + list_place l idx \/ list_place l idx < 0 /\ 2 ^ 63 <= mi) as Hmi.
  { subst mi. unfold list_place. destruct (Z.leb_spec 0 idx); [left; rewrite wrap_id by (unfold is_u; lia); lia|].
    destruct (Z.le_gt_cases 0 (lm_tail lm + idx)); [left; rewrite wrap_id by (unfold is_u; lia); lia|]. right. split; [lia|].
    unfold wrap. rewrite <-(Z.mod_add _ 1), Z.mod_small by lia. lia. }
  destruct (Z.ltb_spec mi (lm_head lm)); cbn [orb]; [apply znth_outside; lia|].
  destruct (Z.leb_spec (lm_tail lm) mi); [apply znth_outside; lia|lia].
Qed.

Lemma lindex_ok w w1 tx v lm l idx :
  list_stored tx v lm l -> SessionCtx_createTransaction sess w = Ret (w1, tx) -> is_s64 idx ->
  LIndex_run cfg sess list_key w (Ret v) idx =
    Ret (w1, match znth l (list_place l idx) with Some x => Command_fmtBulk x | None => Command_fmtNull end).
Proof.
  intros Hs Ew Hi. pose proof (list_stored_done _ _ _ _ Hs) as Hd. destruct Hs as ((_ & _ & _ & Hp) & Hdec & _ & Et & Hh & Ht).
  unfold LIndex_run, txn_access. cbn [meta_or_none]. rewrite bind_Ret, Ew, bind_Ret, Hdec. cbn [expect_ok]. rewrite bind_Ret.
  pose proof (mapped_index l lm idx Et Hh Ht Hi) as Hmi. cbn zeta in Hmi.
  replace (if 0 <=? idx then u64 (idx + lm_head lm) else u64 (idx + lm_tail lm)) with (u64 ((if 0 <=? idx then lm_head lm else lm_tail lm) + idx))
    by (destruct (0 <=? idx); f_equal; lia).
  destruct (_ || _); [by rewrite Hmi|]. destruct Hmi as [-> Hr]. destruct (znth_some l (list_place l idx) Hr) as [x Ex]. rewrite Ex, Hd, bind_Ret.
  destruct (get_place tx _ (lm_head lm + list_place l idx) x Hp) as (rv & -> & _ & _ & <-); [unfold is_u; lia| |by rewrite bind_Ret].
  by rewrite lookup_seq_map, Z.add_simpl_l.
Qed.

Lemma lset_round_ok w w1 tx v lm l i value now :
  list_stored tx v lm l -> SessionCtx_createTransaction sess w = Ret (w1, tx) -> 0 <= i < zlen l -> zlen value < 2 ^ 62 -> is_u64 (sc_versionEP sess) ->
  exists tx' rv', set_round cfg sess list_key now (Ret v) lm (lm_head lm + i) value w = commit_reply cfg sess w1 tx' Command_fmtOK /\
    list_stored tx' rv' lm (zset l i value) /\ rv_ttl rv' = rv_ttl v.
Proof.
  intros Hs Ew Hi Hv Hep. pose proof (list_stored_done _ _ _ _ Hs) as Hd. destruct Hs as ((_ & Hwf & _ & Hp) & Hdec & Hl & Et & Hh & Ht).
  unfold set_round, txn_access. rewrite Ew, bind_Ret, Hd, bind_Ret.
  destruct (set_place tx _ (lm_head lm + i) value now Hp) as (tx1 & -> & Hp1); [unfold is_u; lia|done|]. rewrite bind_Ret. rewrite insert_seq in Hp1 by done.
  destruct (save_list tx1 (Ret v) lm (zset l i value) now Hp1) as (tx' & -> & Hs & Htl); try done.
  { intros E. apply (f_equal zlen) in E. rewrite zlen_set, zlen_nil in E. lia. }
  { by rewrite zlen_set. }
  rewrite bind_Ret. by exists tx', (list_record sess (Ret v) lm).
Qed.

(** ** LTRIM *)

(** The elements that LTRIM keeps. *)
Definition trimmed (l : list bytes) (start end_ : Z) : list bytes :=
  match clip_range (zlen l) start end_ with
  | Some (s, e) => ztake (e - s + 1) (zdrop s l)
  | None => []
  end.

Lemma trim_range_clip len start end_ :
  0 < len -> trim_range len start end_ = match clip_range len start end_ with Some r => r | None => (len, len - 1) end.
Proof.
  intros Hl. unfold trim_range, clip_range. set (s1 := if start <? 0 then _ else _). set (e1 := if end_ <? 0 then _ else _).
  destruct (_ || _); [|done]. by destruct (Z.leb_spec len len); [|lia].
Qed.

(** What is left of the list. *)
Definition list_left (tx : RocksTxn T) (l : list bytes) (ttl : Z) : Prop :=
  match l with
  | [] => list_gone tx
  | _ => exists rv lm, list_stored tx rv lm l /\ rv_ttl rv = ttl
  end.

Lemma list_left_writable tx l ttl : list_left tx l ttl -> writable tx.
Proof. destruct l; [by intros [_ [Hw _]]|]. by intros (rv & lm & ((_ & _ & _ & [Hw _]) & _) & _). Qed.

Lemma list_left_same tx tx' l ttl : same_list tx tx' -> list_left tx l ttl -> list_left tx' l ttl.
Proof.
  intros Hsm Hl. destruct l as [|x l]; [by apply (list_gone_same tx)|]. destruct Hl as (rv & lm & Hs & Ht). exists rv, lm. split; [|done].
  by apply (list_stored_same tx).
Qed.

(** The loop of deletions: what it leaves when it ends, and that it ends in the transaction it was
    given when it deletes fewer than a thousand. *)
Lemma trim_loop_ok now n : forall i w tx cnt m,
  sc_replOnly sess = false -> places tx m -> 0 <= i -> i + Z.of_nat n < 2 ^ 63 -> 0 <= cnt -> cnt + Z.of_nat n < 2 ^ 63 ->
  (forall w' tx' cnt', trim_loop cfg sess list_key now n i w tx cnt = Ret (w', Ret (tx', cnt')) ->
     cnt' = cnt + Z.of_nat n /\ exists m', places tx' m' /\ forall k, m' !! k = if decide (i <= k < i + Z.of_nat n) then None else m !! k) /\
  (cnt + Z.of_nat n < 1000 -> exists tx', trim_loop cfg sess list_key now n i w tx cnt = Ret (w, Ret (tx', cnt + Z.of_nat n))).
Proof.
  induction n as [|n IH]; intros i w tx cnt m Hro Hp Hi Hin Hc Hcn; cbn [trim_loop].
  { rewrite Z.add_0_r. split; [|by intros _; exists tx]. intros w' tx' cnt' [= <- <- <-]. split; [lia|]. exists m. split; [done|]. intros k. by rewrite decide_False by lia. }
  destruct (del_place tx m i now Hp ltac:(unfold is_u; lia)) as (tx1 & -> & Hp1). cbn [or_return]. rewrite wrap_id by (unfold is_u; lia).
  assert (forall m' : gmap Z bytes, (forall k, m' !! k = if decide (i + 1 <= k < i + 1 + Z.of_nat n) then None else delete i m !! k) ->
    forall k, m' !! k = if decide (i <= k < i + Z.of_nat (S n)) then None else m !! k) as Hm.
  { intros m' Hm k. rewrite Hm. destruct (decide (k = i)) as [->|Hn]; [rewrite lookup_delete_eq|rewrite lookup_delete_ne by done]; repeat case_decide; done || lia. }
  destruct (Z.eqb_spec ((cnt + 1) `mod` 1000) 0) as [Em|_].
  - split; [|intros Hlt; rewrite Z.mod_small in Em by lia; lia]. intros w' tx' cnt' E.
    apply bind_Ret_inv in E as ([w1 [id| |]] & Ec & E); cbn [or_return] in E; [|done|done].
    destruct (SessionCtx_createTransaction sess w1) as [[w2 tx2]| |] eqn:Ew; cbn [or_return] in E; [|done|done].
    destruct (commit_kept cfg sess w tx1 w1 id Ec) as [Hnone Hrec]. destruct (create_new sess w1 w2 tx2 Ew Hnone Hro) as [Hdb2 Hw2].
    assert (places tx2 (delete i m)) as Hp2 by (apply (places_same tx1); [split; [done|intros k Hk _ _; by apply Hrec]|done]).
    destruct (IH (i + 1) w2 tx2 (cnt + 1) _ Hro Hp2) as [IH1 _]; [lia|lia|lia|lia|]. destruct (IH1 _ _ _ E) as (-> & m' & Hp' & Hm'). split; [lia|].
    exists m'. split; [done|]. by apply Hm.
  - destruct (IH (i + 1) w tx1 (cnt + 1) _ Hro Hp1) as [IH1 IH2]; [lia|lia|lia|lia|]. split.
    + intros w' tx' cnt' E. destruct (IH1 _ _ _ E) as (-> & m' & Hp' & Hm'). split; [lia|]. exists m'. split; [done|]. by apply Hm.
    + intros Hlt. destruct IH2 as [tx' E]; [lia|]. exists tx'. by replace (cnt + Z.of_nat (S n)) with (cnt + 1 + Z.of_nat n) by lia.
Qed.

(** The places that are kept, with both ends deleted. *)
Lemma seq_map_window h l s e (m1 m2 : gmap Z bytes) :
  0 <= s -> e < zlen l ->
  (forall k, m1 !! k = if decide (h <= k < h + s) then None else seq_map h l !! k) ->
  (forall k, m2 !! k = if decide (h + e + 1 <= k < h + zlen l) then None else m1 !! k) ->
  m2 = seq_map (h + s) (ztake (e - s + 1) (zdrop s l)).
Proof.
  intros Hs He H1 H2. apply map_eq. intros k. rewrite H2, H1, !lookup_seq_map, znth_window by done.
  destruct (decide (h <= k < h + zlen l)); [|rewrite znth_outside by lia; repeat case_decide; done || (symmetry; apply znth_outside; lia)].
  repeat case_decide; try done; try lia. f_equal. lia.
Qed.

(** The end of [trimListPessimistic]. *)
Lemma trim_end tx v lm l s e now :
  places tx (seq_map (lm_head lm + s) (ztake (e - s + 1) (zdrop s l))) -> RecordValue_wf v -> rv_type v = RT_LIST_META -> is_u64 (sc_versionEP sess) ->
  lm_tail lm = lm_head lm + zlen l -> 0 < lm_head lm -> lm_tail lm < 2 ^ 63 -> 0 <= s <= zlen l -> s - 1 <= e < zlen l ->
  exists tx', (if u64 (lm_tail lm - lm_head lm) <=? s + (zlen l - e - 1) then Command_delKeyAndTTL cfg sess list_key v tx now
     else RocksKVStore_setKV cfg list_key (list_record sess (Ret v) (mkListMeta (u64 (s + lm_head lm)) (u64 (e + 1 + lm_head lm)))) tx now) = Ret tx' /\
    list_left tx' (ztake (e - s + 1) (zdrop s l)) (rv_ttl v).
Proof.
  intros Hp Hwf Hty Hep Et Hh Ht Hs He. pose proof (zlen_nonneg l). rewrite !wrap_id by (unfold is_u; lia).
  assert (zlen (ztake (e - s + 1) (zdrop s l)) = e - s + 1) as Hz by (apply zlen_take; rewrite zlen_drop; lia).
  set (kept := ztake _ _) in *. destruct kept as [|x kept].
  - rewrite zlen_nil in Hz. replace (_ <=? _) with true by lia. by apply drop_list.
  - rewrite zlen_cons in Hz. pose proof (zlen_nonneg kept). replace (_ <=? _) with false by lia.
    destruct (save_list tx (Ret v) (mkListMeta (s + lm_head lm) (e + 1 + lm_head lm)) (x :: kept) now) as (tx' & E & Hst & Htl); cbn [lm_head lm_tail]; try done.
    { by rewrite Z.add_comm. }
    { rewrite zlen_cons. lia. }
    { lia. }
    { lia. }
    exists tx'. split; [done|]. by eexists _, _.
Qed.

Lemma trim_list_ok w w1 tx v lm l s e now :
  list_stored tx v lm l -> SessionCtx_createTransaction sess w = Ret (w1, tx) -> sc_replOnly sess = false -> is_u64 (sc_versionEP sess) ->
  0 <= s <= zlen l -> s - 1 <= e < zlen l ->
  (forall w' u, trimListPessimistic cfg sess list_key now w lm s e v = Ret (w', Ret u) ->
     forall tx', tx_db tx' = w_db w' -> writable tx' -> list_left tx' (ztake (e - s + 1) (zdrop s l)) (rv_ttl v)) /\
  (s + (zlen l - e - 1) < 1000 ->
     exists tx', trimListPessimistic cfg sess list_key now w lm s e v =
         ('(w, c) ← SessionCtx_commitTransaction cfg sess w1 tx'; Ret (w, _ ← c; Ret tt)) /\
       list_left tx' (ztake (e - s + 1) (zdrop s l)) (rv_ttl v)).
Proof.
  intros Hst Ew Hro Hep Hs He. pose proof (list_stored_done _ _ _ _ Hst) as Hd. destruct Hst as ((_ & Hwf & Hty & Hp) & _ & _ & Et & Hh & Ht).
  unfold trimListPessimistic, txn_access. rewrite Ew, bind_Ret, Hd, bind_Ret.
  replace (s64 (u64 (s + lm_head lm)) - s64 (lm_head lm)) with s by (rewrite wrap_id, !s64_id by (unfold is_u; lia); lia).
  replace (s64 (lm_tail lm) - s64 (u64 (lm_head lm + e + 1))) with (zlen l - e - 1) by (rewrite wrap_id, !s64_id by (unfold is_u; lia); lia).
  rewrite (s64_id (lm_head lm)) by lia. rewrite (wrap_id 64 (lm_head lm + e + 1)), (s64_id (lm_head lm + e + 1)) by (unfold is_u; lia).
  destruct (trim_loop_ok now (Z.to_nat s) (lm_head lm) w1 tx 0 _ Hro Hp) as [HA1 HA2]; [lia|lia|lia|lia|].
  assert (forall w3 tx3 cnt3, trim_loop cfg sess list_key now (Z.to_nat s) (lm_head lm) w1 tx 0 = Ret (w3, Ret (tx3, cnt3)) ->
    exists m1, places tx3 m1 /\ cnt3 = s /\ forall w4 tx4 cnt4, trim_loop cfg sess list_key now (Z.to_nat (zlen l - e - 1)) (lm_head lm + e + 1) w3 tx3 s = Ret (w4, Ret (tx4, cnt4)) ->
      cnt4 = s + (zlen l - e - 1) /\ places tx4 (seq_map (lm_head lm + s) (ztake (e - s + 1) (zdrop s l)))) as HB.
  { intros w3 tx3 cnt3 E. apply HA1 in E as (-> & m1 & Hp1 & Hm1). exists m1. split; [done|]. split; [lia|]. intros w4 tx4 cnt4 E.
    destruct (trim_loop_ok now (Z.to_nat (zlen l - e - 1)) (lm_head lm + e + 1) w3 tx3 s _ Hro Hp1) as [HB _]; [lia|lia|lia|lia|].
    apply HB in E as (-> & m2 & Hp2 & Hm2). split; [lia|]. rewrite <-(seq_map_window _ l s e m1 m2); [done|lia|lia|..].
    - intros k. rewrite Hm1. by rewrite Z2Nat.id by lia.
    - intros k. rewrite Hm2. by replace (lm_head lm + e + 1 + Z.of_nat (Z.to_nat (zlen l - e - 1))) with (lm_head lm + zlen l) by lia. }
  split.
  - intros w' u E. apply bind_Ret_inv in E as ([w3 [[tx3 cnt3]| |]] & EA & E); cbn [or_return] in E; [|done..].
    destruct (HB _ _ _ EA) as (m1 & _ & -> & HC). apply bind_Ret_inv in E as ([w4 [[tx4 cnt4]| |]] & EB & E); cbn [or_return] in E; [|done..].
    destruct (HC _ _ _ EB) as (-> & Hp4). destruct (trim_end tx4 v lm l s e now) as (tx5 & E5 & Hl5); try done.
    rewrite E5 in E. cbn [or_return] in E. apply bind_Ret_inv in E as ([w5 [id| |]] & EC & E); [|done..]. injection E as -> _. intros tx' Edb Hw.
    destruct (commit_kept cfg sess w4 tx5 w' id EC) as [_ Hrec]. eapply list_left_same; [|done]. split; [done|]. intros k Hk _ _. by apply Hrec.
  - intros Hlt. destruct HA2 as [tx3 EA]; [lia|]. rewrite EA, bind_Ret. cbn [or_return]. destruct (HB _ _ _ EA) as (m1 & Hp1 & E3 & HC). rewrite E3.
    destruct (trim_loop_ok now (Z.to_nat (zlen l - e - 1)) (lm_head lm + e + 1) w1 tx3 s _ Hro Hp1) as [_ HD]; [lia|lia|lia|lia|].
    destruct HD as [tx4 EB]; [lia|]. rewrite EB, bind_Ret. cbn [or_return]. destruct (HC _ _ _ EB) as (-> & Hp4).
    destruct (trim_end tx4 v lm l s e now) as (tx5 & E5 & Hl5); try done. exists tx5. by rewrite E5.
Qed.

Lemma ltrim_ok w w1 tx v lm l start end_ now :
  list_stored tx v lm l -> SessionCtx_createTransaction sess w = Ret (w1, tx) -> sc_replOnly sess = false -> is_u64 (sc_versionEP sess) ->
  (forall w', LTrim_run cfg sess list_key now w (Ret v) start end_ = Ret (w', Ret Command_fmtOK) ->
     forall tx', tx_db tx' = w_db w' -> writable tx' -> list_left tx' (trimmed l start end_) (rv_ttl v)) /\
  (zlen l - zlen (trimmed l start end_) < 1000 ->
     exists tx', LTrim_run cfg sess list_key now w (Ret v) start end_ = commit_reply cfg sess w1 tx' Command_fmtOK /\
       list_left tx' (trimmed l start end_) (rv_ttl v)).
Proof.
  intros Hs Ew Hro Hep. destruct (list_stored_len _ _ _ _ Hs) as [El Hl]. pose proof Hs as (_ & Hdec & _).
  unfold LTrim_run. cbn [meta_or_none]. rewrite bind_Ret, Hdec, bind_Ret, El. inv_d by lia. replace (zlen l <=? 0) with false by lia. rewrite trim_range_clip by done.
  assert (exists s e, match clip_range (zlen l) start end_ with Some r => r | None => (zlen l, zlen l - 1) end = (s, e) /\
    trimmed l start end_ = ztake (e - s + 1) (zdrop s l) /\ 0 <= s <= zlen l /\ s - 1 <= e < zlen l) as (s & e & -> & -> & Hse & He).
  { unfold trimmed. destruct (clip_range (zlen l) start end_) as [[s e]|] eqn:Ec.
    - apply clip_range_bounds in Ec; [|lia]. exists s, e. split_and!; done || lia.
    - exists (zlen l), (zlen l - 1). rewrite zdrop_all by done. split_and!; done || lia. }
  rewrite zlen_take by (rewrite zlen_drop; lia). destruct (trim_list_ok w w1 tx v lm l s e now Hs Ew Hro Hep Hse He) as [H1 H2]. split.
  - intros w' E. apply bind_Ret_inv in E as ([w2 [u| |]] & E & E2); [|done..]. injection E2 as ->. by eapply H1.
  - intros Hlt. destruct H2 as (tx' & E & Hl'); [lia|]. exists tx'. split; [|done]. rewrite E. unfold commit_reply.
    by destruct (SessionCtx_commitTransaction cfg sess w1 tx') as [[w3 [c| |]]| |].
Qed.

(** ** LINSERT *)

Lemma find_pivot_ok tx h pivot B : forall A,
  places tx (seq_map h (A ++ B)) -> 0 < h -> h + zlen (A ++ B) < 2 ^ 63 ->
  find_pivot cfg list_key (length B) (h + zlen A) pivot tx = Ret ((fun r => h + zlen A + Z.of_nat (fst r)) <$> list_find (fun x => x = pivot) B).
Proof.
  induction B as [|b B IH]; intros A Hp Hh Ht; cbn [find_pivot length list_find]; [done|].
  pose proof (zlen_nonneg A). pose proof (zlen_nonneg B). rewrite zlen_app, zlen_cons in Ht.
  destruct (get_place tx _ (h + zlen A) b Hp) as (rv & -> & _ & _ & <-); [unfold is_u; lia|apply lookup_seq_map_mid|]. rewrite bind_Ret.
  case_bool_decide as Eb; [rewrite decide_True by done; cbn; by rewrite Z.add_0_r|]. rewrite decide_False by done. rewrite wrap_id by (unfold is_u; lia).
  replace (h + zlen A + 1) with (h + zlen (A ++ [rv_value rv])) by (rewrite zlen_app, zlen_cons, zlen_nil; lia).
  rewrite IH; [|by rewrite <-app_assoc|done|rewrite !zlen_app, zlen_cons, zlen_nil; lia].
  f_equal. destruct (list_find _ B) as [[i x]|]; cbn; [|done]. f_equal. rewrite zlen_app, zlen_cons, zlen_nil. lia.
Qed.

(** Two maps that differ at most at one place. *)
Definition but_at (i : Z) (m m' : gmap Z bytes) : Prop := forall k, k <> i -> m !! k = m' !! k.

Lemma but_at_insert i v m m' : but_at i m m' -> m' !! i = Some v -> <[i := v]> m = m'.
Proof. intros Hb Hi. apply map_eq. intros k. destruct (decide (k = i)) as [->|]; [by rewrite lookup_insert_eq|]. rewrite lookup_insert_ne by done. by apply Hb. Qed.

Lemma but_at_seq g A x y B : but_at (g + zlen A) (seq_map g (A ++ x :: B)) (seq_map g (A ++ y :: B)).
Proof.
  intros k Hk. rewrite !lookup_seq_map. destruct (decide (zlen A < k - g)).
  - rewrite !znth_app_r by lia. cbn [znth]. by replace (k - g - zlen A =? 0) with false by lia.
  - destruct (decide (k - g < 0)); [by rewrite !znth_outside by lia|]. by rewrite !znth_app_l by lia.
Qed.

(** A free place moves to the right over [A2]. *)
Lemma make_room_left now y B A2 : forall tx m g A1,
  places tx m -> but_at (g + zlen A1) m (seq_map g (A1 ++ y :: A2 ++ B)) -> 0 <= g -> g + zlen A1 + zlen A2 + 1 < 2 ^ 63 ->
  exists tx' m', make_room cfg list_key now (length A2) 1 (g + zlen A1) tx = Ret (tx', g + zlen (A1 ++ A2)) /\ places tx' m' /\
    but_at (g + zlen (A1 ++ A2)) m' (seq_map g ((A1 ++ A2) ++ y :: B)).
Proof.
  induction A2 as [|a A2 IH]; intros tx m g A1 Hp Hb Hg Ht; cbn [make_room length].
  { exists tx, m. by rewrite app_nil_r. }
  rewrite zlen_cons in Ht. pose proof (zlen_nonneg A1). pose proof (zlen_nonneg A2). rewrite wrap_id by (unfold is_u; lia).
  destruct (copy_place tx m (g + zlen A1 + 1) (g + zlen A1) a now Hp) as (rv & tx1 & -> & E & Hp1); [unfold is_u; lia|unfold is_u; lia|..].
  { rewrite Hb by lia. replace (g + zlen A1 + 1) with (g + zlen (A1 ++ [y])) by (rewrite zlen_app, zlen_cons, zlen_nil; lia).
    replace (A1 ++ y :: (a :: A2) ++ B) with ((A1 ++ [y]) ++ a :: A2 ++ B) by (by rewrite <-app_assoc). apply lookup_seq_map_mid. }
  rewrite bind_Ret, E, bind_Ret. replace (g + zlen A1 + 1) with (g + zlen (A1 ++ [a])) by (rewrite zlen_app, zlen_cons, zlen_nil; lia).
  destruct (IH tx1 _ g (A1 ++ [a]) Hp1) as (tx' & m' & -> & R); [|done|rewrite zlen_app, zlen_cons, zlen_nil; lia|].
  - rewrite (but_at_insert _ _ m (seq_map g (A1 ++ a :: (a :: A2) ++ B))).
    + rewrite <-app_assoc. replace (A1 ++ a :: (a :: A2) ++ B) with ((A1 ++ [a]) ++ a :: A2 ++ B) by (by rewrite <-app_assoc).
      replace (A1 ++ [a] ++ y :: A2 ++ B) with ((A1 ++ [a]) ++ y :: A2 ++ B) by (by rewrite <-app_assoc). apply but_at_seq.
    + intros k Hk. rewrite Hb by done. by apply but_at_seq.
    + apply lookup_seq_map_mid.
  - exists tx', m'. by rewrite <-!app_assoc in *.
Qed.

(** A free place moves to the left over [B1]. *)
Lemma make_room_right now y A B1 : forall tx m g B2,
  places tx m -> but_at (g + zlen (A ++ B1)) m (seq_map g ((A ++ B1) ++ y :: B2)) -> 0 < g -> g + zlen (A ++ B1) + 1 < 2 ^ 63 ->
  exists tx' m', make_room cfg list_key now (length B1) (-1) (g + zlen (A ++ B1)) tx = Ret (tx', g + zlen A) /\ places tx' m' /\
    but_at (g + zlen A) m' (seq_map g (A ++ y :: B1 ++ B2)).
Proof.
  induction B1 as [|b B1 IH] using rev_ind; intros tx m g B2 Hp Hb Hg Ht.
  { exists tx, m. by rewrite app_nil_r in *. }
  rewrite length_app, Nat.add_comm. cbn [make_room length Nat.add]. rewrite app_assoc in *.
  assert (zlen ((A ++ B1) ++ [b]) = zlen (A ++ B1) + 1) as Ez by (rewrite zlen_app, zlen_cons, zlen_nil; lia). rewrite Ez in *.
  pose proof (zlen_nonneg (A ++ B1)). rewrite wrap_id by (unfold is_u; lia). replace (g + (zlen (A ++ B1) + 1) + -1) with (g + zlen (A ++ B1)) by lia.
  destruct (copy_place tx m (g + zlen (A ++ B1)) (g + (zlen (A ++ B1) + 1)) b now Hp) as (rv & tx1 & -> & E & Hp1); [unfold is_u; lia|unfold is_u; lia|..].
  { rewrite Hb by lia. rewrite <-(app_assoc (A ++ B1) [b]). apply lookup_seq_map_mid. }
  rewrite bind_Ret, E, bind_Ret.
  destruct (IH tx1 _ g (b :: B2) Hp1) as (tx' & m' & -> & Hp' & Hb'); [|done|lia|].
  - rewrite (but_at_insert _ _ m (seq_map g (((A ++ B1) ++ [b]) ++ b :: B2))).
    + rewrite <-(app_assoc (A ++ B1) [b]). apply but_at_seq.
    + intros k Hk. rewrite Hb by done. by rewrite (but_at_seq g ((A ++ B1) ++ [b]) y b B2 k) by (by rewrite Ez).
    + rewrite <-Ez. apply lookup_seq_map_mid.
  - exists tx', m'. split; [done|]. split; [done|]. by rewrite <-app_assoc.
Qed.

(** Room for one element between [A] and [B], and the element. *)
Lemma insert_place tx lm A B value now :
  places tx (seq_map (lm_head lm) (A ++ B)) -> lm_tail lm = lm_head lm + zlen (A ++ B) -> 1 < lm_head lm -> lm_tail lm + 1 < 2 ^ 63 -> zlen value < 2 ^ 62 ->
  let '(step, head, tail, index, moveLen) :=
    if zlen A <? zlen B then (1, u64 (lm_head lm - 1), lm_tail lm, u64 (lm_head lm - 1), zlen A)
    else (-1, lm_head lm, u64 (lm_tail lm + 1), u64 (u64 (lm_tail lm + 1) - 1), zlen B) in
  exists tx1 index' tx', make_room cfg list_key now (Z.to_nat moveLen) step index tx = Ret (tx1, index') /\
    RocksKVStore_setKV cfg (ek index') (ele_record value) tx1 now = Ret tx' /\ places tx' (seq_map head (A ++ value :: B)) /\
    tail = head + zlen (A ++ value :: B) /\ 0 < head /\ tail < 2 ^ 63.
Proof.
  intros Hp Et Hh Ht Hv. rewrite zlen_app in Et. pose proof (zlen_nonneg A). pose proof (zlen_nonneg B). rewrite !wrap_id by (unfold is_u; lia).
  assert (zlen (A ++ value :: B) = zlen A + zlen B + 1) as Ez by (rewrite zlen_app, zlen_cons; lia). destruct (zlen A <? zlen B).
  - destruct (make_room_left now value B A tx (seq_map (lm_head lm) (A ++ B)) (lm_head lm - 1) [] Hp) as (tx1 & m1 & E & Hp1 & Hb); [|lia|rewrite zlen_nil; lia|].
    { intros k Hk. cbn [app]. rewrite seq_map_cons, lookup_insert_ne by (rewrite zlen_nil in Hk; lia). by rewrite Z.sub_add. }
    cbn [app] in *. rewrite zlen_nil, Z.add_0_r in E. unfold zlen at 1. rewrite Nat2Z.id, E.
    destruct (set_place tx1 m1 (lm_head lm - 1 + zlen A) value now Hp1) as (tx' & E' & Hp'); [unfold is_u; lia|done|].
    eexists tx1, _, tx'. split; [done|]. split; [done|]. rewrite (but_at_insert _ _ _ _ Hb) in Hp' by apply lookup_seq_map_mid. split; [done|lia].
  - replace (lm_tail lm + 1 - 1) with (lm_head lm + zlen (A ++ B)) by (rewrite zlen_app; lia).
    destruct (make_room_right now value A B tx (seq_map (lm_head lm) (A ++ B)) (lm_head lm) [] Hp) as (tx1 & m1 & E & Hp1 & Hb); [|lia|rewrite zlen_app; lia|].
    { intros k Hk. rewrite seq_map_snoc. by rewrite lookup_insert_ne. }
    unfold zlen at 1. rewrite Nat2Z.id, E. rewrite app_nil_r in Hb.
    destruct (set_place tx1 m1 (lm_head lm + zlen A) value now Hp1) as (tx' & E' & Hp'); [unfold is_u; lia|done|].
    eexists tx1, _, tx'. split; [done|]. split; [done|]. rewrite (but_at_insert _ _ _ _ Hb) in Hp' by apply lookup_seq_map_mid. split; [done|lia].
Qed.

Lemma linsert_ok w w1 tx v lm l (before : bool) pivot value now :
  list_stored tx v lm l -> SessionCtx_createTransaction sess w = Ret (w1, tx) -> is_u64 (sc_versionEP sess) ->
  1 < lm_head lm -> lm_tail lm + 1 < 2 ^ 63 -> zlen l < 2 ^ 31 - 1 -> zlen value < 2 ^ 62 ->
  match list_find (fun x => x = pivot) l with
  | None => LInsert_run cfg sess list_key now w (Ret v) before pivot value = Ret (w1, Ret (Command_fmtLongLong (-1)))
  | Some (i, _) =>
      let p := (if before then i else S i) in
      exists tx' rv' lm', LInsert_run cfg sess list_key now w (Ret v) before pivot value = commit_reply cfg sess w1 tx' (Command_fmtLongLong (zlen l + 1)) /\
        list_stored tx' rv' lm' (take p l ++ value :: drop p l) /\ rv_ttl rv' = rv_ttl v
  end.
Proof.
  intros Hs Ew Hep Hh1 Ht1 Hl Hv. pose proof (list_stored_done _ _ _ _ Hs) as Hd. destruct Hs as ((_ & Hwf & _ & Hp) & Hdec & _ & Et & Hh & Ht).
  pose proof (find_pivot_ok tx (lm_head lm) pivot l [] Hp Hh) as Ef. cbn [app] in Ef. rewrite zlen_nil, Z.add_0_r in Ef. specialize (Ef ltac:(lia)).
  unfold LInsert_run, txn_access. cbn [meta_or_none]. rewrite bind_Ret, Hdec. cbn [expect_ok]. rewrite bind_Ret, Ew, bind_Ret, Hd, bind_Ret.
  assert (Z.to_nat (u64 (lm_tail lm - lm_head lm)) = length l) as -> by (rewrite Et, Z.add_simpl_l, wrap_id by (unfold is_u; pose proof (zlen_nonneg l); lia); unfold zlen; lia).
  rewrite Ef, bind_Ret. destruct (list_find _ l) as [[i x]|] eqn:El; cbn [fmap option_fmap option_map fst]; [|done].
  apply list_find_Some in El as (Hi%lookup_lt_Some & _ & _). set (p := if before then i else S i).
  set (A := take p l). set (B := drop p l). assert (l = A ++ B) as Esp by (symmetry; apply take_drop).
  assert (zlen A = Z.of_nat p /\ zlen B = zlen l - Z.of_nat p) as [EA EB] by (subst A B p; unfold zlen; rewrite length_take, length_drop; destruct before; lia).
  assert (s32 (u32 (lm_head lm + Z.of_nat i - lm_head lm)) + (if before then 0 else 1) = zlen A) as ->.
  { rewrite EA. unfold zlen in Hl. rewrite wrap_id, signed_id by (unfold is_u; lia). subst p. destruct before; lia. }
  assert (s32 (u32 (lm_tail lm - (lm_head lm + Z.of_nat i) - 1)) + (if before then 1 else 0) = zlen B) as ->.
  { rewrite EB, Et. unfold zlen in *. rewrite wrap_id, signed_id by (unfold is_u; lia). subst p. destruct before; lia. }
  rewrite Esp in Hp, Et. pose proof (insert_place tx lm A B value now Hp Et Hh1 Ht1 Hv) as Hins.
  destruct (if zlen A <? zlen B then _ else _) as [[[[step head] tail] index] moveLen]. destruct Hins as (tx1 & index' & tx2 & -> & E2 & Hp2 & Et2 & Hh2 & Ht2).
  rewrite bind_Ret, E2, bind_Ret.
  destruct (save_list tx2 (Ret v) (mkListMeta head tail) (A ++ value :: B) now Hp2) as (tx' & -> & Hs & Htl); try done; [by destruct A|].
  rewrite bind_Ret. eexists tx', _, _. split; [|done]. rewrite (fmt_length_ok _ (zlen l + 1)); [done|cbn|pose proof (zlen_nonneg l); lia].
  rewrite Et2, zlen_app, zlen_cons, EB, EA. lia.
Qed.

End Spec.
