(* ===== verification/ListRem.v ===== *)
(** LREM (commands/list.cpp): the search for the elements to remove, the longest segment between
    them that stays where it is, and the others that move next to it. *)

From Stdlib Require Import Strings.Byte ZArith Lia.
From stdpp Require Import base list numbers strings gmap sorting.
From S2P Require Import Prelude Status Varint Strings Record RecordValue RecordMeta ReplLog BinlogSeq Txn Store Command Elems List ListSpec.

Local Open Scope Z_scope.

#[local] Abbreviation seq_map := (map_seqZ (M := gmap Z bytes)).

(** * LREM on a list *)

(** The list without the first [n] elements that are [v]. *)
Fixpoint rem_first (n : nat) (v : bytes) (l : list bytes) : list bytes :=
  match l with
  | [] => []
  | x :: l' =>
      match n with
      | O => l
      | S n' => if bool_decide (x = v) then rem_first n' v l' else x :: rem_first n v l'
      end
  end.

(** The number of elements to remove: all for a count of zero. *)
Definition lrem_times (count : Z) (l : list bytes) : nat := if count =? 0 then length l else Z.to_nat (Z.abs count).

(** A negative count is one from the end. *)
Definition lrem_spec (count : Z) (v : bytes) (l : list bytes) : list bytes :=
  if count <? 0 then rev (rem_first (lrem_times count l) v (rev l)) else rem_first (lrem_times count l) v l.

(** * Places *)

(** The places of those elements, from [p] on in direction [d]. *)
Fixpoint removed (d : Z) (n : nat) (v : bytes) (l : list bytes) (p : Z) : list Z :=
  match l with
  | [] => []
  | x :: l' =>
      match n with
      | O => []
      | S n' => if bool_decide (x = v) then p :: removed d n' v l' (p + d) else removed d n v l' (p + d)
      end
  end.

(** The elements from [p] on that are at none of the places [H]. *)
Fixpoint lrem_keep (p : Z) (H : list Z) (l : list bytes) : list bytes :=
  match l with
  | [] => []
  | x :: l' => if bool_decide (p ∈ H) then lrem_keep (p + 1) H l' else x :: lrem_keep (p + 1) H l'
  end.

Lemma keep_app H A : forall p B, lrem_keep p H (A ++ B) = lrem_keep p H A ++ lrem_keep (p + zlen A) H B.
Proof.
  induction A as [|x A IH]; intros p B; [by rewrite zlen_nil, Z.add_0_r|]. cbn [app lrem_keep]. rewrite IH, zlen_cons, Z.add_assoc.
  by destruct (bool_decide (p ∈ H)).
Qed.

Lemma keep_ext H H' l : forall p, (forall k, p <= k < p + zlen l -> k ∈ H <-> k ∈ H') -> lrem_keep p H l = lrem_keep p H' l.
Proof.
  induction l as [|x l IH]; intros p E; [done|]. cbn [lrem_keep]. rewrite zlen_cons in E. pose proof (zlen_nonneg l).
  rewrite (bool_decide_ext (p ∈ H) (p ∈ H')) by (apply E; lia). rewrite IH; [done|]. intros k Hk. apply E. lia.
Qed.

Lemma keep_none H l : forall p, (forall k, p <= k < p + zlen l -> k ∉ H) -> lrem_keep p H l = l.
Proof.
  induction l as [|x l IH]; intros p E; [done|]. cbn [lrem_keep]. rewrite zlen_cons in E. pose proof (zlen_nonneg l).
  rewrite bool_decide_eq_false_2 by (apply E; lia). rewrite IH; [done|]. intros k Hk. apply E. lia.
Qed.

Lemma removed_bounds d n v l : forall k p,
  k ∈ removed d n v l p -> exists j, k = p + d * Z.of_nat j /\ l !! j = Some v.
Proof.
  revert n. induction l as [|x l IH]; intros n k p Hk; [by apply not_elem_of_nil in Hk|]. cbn [removed] in Hk.
  destruct n as [|n]; [by apply not_elem_of_nil in Hk|]. case_bool_decide as E; [apply elem_of_cons in Hk as [->|Hk]; [exists O; split; [lia|by rewrite E]|]|].
  all: apply IH in Hk as (j & -> & Hj); exists (S j); split; [lia|done].
Qed.

Lemma removed_keep n v l : forall p, lrem_keep p (removed 1 n v l p) l = rem_first n v l.
Proof.
  revert n. induction l as [|x l IH]; intros n p; [done|]. cbn [lrem_keep removed rem_first]. destruct n as [|n].
  { rewrite bool_decide_eq_false_2 by apply not_elem_of_nil. f_equal. apply keep_none. intros. apply not_elem_of_nil. }
  assert (forall n', p ∉ removed 1 n' v l (p + 1)) as Hp by (intros n' (j & E & _)%removed_bounds; lia).
  destruct (bool_decide_reflect (x = v)) as [E|E].
  - rewrite bool_decide_eq_true_2 by left. rewrite <-(IH n (p + 1)). apply keep_ext. intros k Hk. rewrite elem_of_cons. split; [intros [->|?]; [lia|done]|by right].
  - rewrite bool_decide_eq_false_2 by apply Hp. by rewrite IH.
Qed.

Lemma removed_keep_back n v l : forall p, lrem_keep p (removed (-1) n v (rev l) (p + zlen l - 1)) l = rev (rem_first n v (rev l)).
Proof.
  revert n. induction l as [|x l IH] using rev_ind; intros n p; [done|]. rewrite rev_unit. cbn [removed rem_first].
  rewrite zlen_app, zlen_cons, zlen_nil. replace (p + (zlen l + (1 + 0)) - 1) with (p + zlen l) by lia.
  destruct n as [|n].
  { rewrite keep_none by (intros; apply not_elem_of_nil). cbn [rev]. by rewrite rev_involutive. }
  replace (p + zlen l + -1) with (p + zlen l - 1) by lia.
  assert (forall n', p + zlen l ∉ removed (-1) n' v (rev l) (p + zlen l - 1)) as Hp by (intros n' (j & E & _)%removed_bounds; lia).
  rewrite keep_app. cbn [lrem_keep]. destruct (bool_decide_reflect (x = v)) as [E|E].
  - rewrite bool_decide_eq_true_2 by left. rewrite app_nil_r, <-(IH n p). apply keep_ext. intros k Hk. rewrite elem_of_cons.
    split; [intros [->|?]; [lia|done]|by right].
  - rewrite bool_decide_eq_false_2 by apply Hp. rewrite IH. by cbn [rev].
Qed.

Lemma elem_of_rev {A} (x : A) l : x ∈ rev l <-> x ∈ l.
Proof. by rewrite <-Permutation_rev. Qed.

Lemma zlen_removed d v l : forall n p, zlen (removed d n v l p) + zlen (rem_first n v l) = zlen l.
Proof.
  induction l as [|x l IH]; intros n p; [done|]. cbn [removed rem_first]. destruct n as [|n]; [by rewrite zlen_nil|].
  destruct (bool_decide_reflect (x = v)); rewrite !zlen_cons; [specialize (IH n (p + d))|specialize (IH (S n) (p + d))]; lia.
Qed.

Lemma removed_asc v l : forall n p, StronglySorted Z.lt (removed 1 n v l p).
Proof.
  induction l as [|x l IH]; intros n p; [constructor|]. cbn [removed]. destruct n as [|n]; [constructor|].
  destruct (bool_decide_reflect (x = v)); [|apply IH]. constructor; [apply IH|]. apply Forall_forall. intros k (j & -> & _)%removed_bounds. lia.
Qed.

Lemma removed_desc v l : forall n p, StronglySorted Z.lt (rev (removed (-1) n v l p)).
Proof.
  induction l as [|x l IH]; intros n p; [constructor|]. cbn [removed]. destruct n as [|n]; [constructor|].
  destruct (bool_decide_reflect (x = v)); [|apply IH]. cbn [rev]. apply StronglySorted_app. split; [|split; [apply IH|by repeat constructor]].
  intros a b Ha ->%list_elem_of_singleton. apply elem_of_rev, removed_bounds in Ha as (j & -> & _). lia.
Qed.

(** The places to remove, in order. *)
Definition lrem_places (count : Z) (v : bytes) (l : list bytes) (head : Z) : list Z :=
  if count <? 0 then rev (removed (-1) (lrem_times count l) v (rev l) (head + zlen l - 1)) else removed 1 (lrem_times count l) v l head.

Lemma lrem_places_keep count v l head : lrem_keep head (lrem_places count v l head) l = lrem_spec count v l.
Proof.
  unfold lrem_places, lrem_spec. destruct (count <? 0); [|apply removed_keep]. rewrite <-removed_keep_back with (p := head). apply keep_ext. intros k _. apply elem_of_rev.
Qed.

Lemma zlen_lrem_places count v l head : zlen (lrem_places count v l head) = zlen l - zlen (lrem_spec count v l).
Proof.
  unfold lrem_places, lrem_spec. destruct (count <? 0).
  - pose proof (zlen_removed (-1) v (rev l) (lrem_times count l) (head + zlen l - 1)). unfold zlen in *. rewrite !length_rev in *. lia.
  - pose proof (zlen_removed 1 v l (lrem_times count l) head). lia.
Qed.

Lemma lrem_places_ascending count v l head :
  StronglySorted Z.lt (head - 1 :: lrem_places count v l head ++ [head + zlen l]).
Proof.
  assert (forall k, k ∈ lrem_places count v l head -> head - 1 < k < head + zlen l) as Hb.
  { unfold lrem_places. intros k. destruct (count <? 0).
    - rewrite elem_of_rev. intros (j & -> & Hj%lookup_lt_Some)%removed_bounds. rewrite length_rev in Hj. unfold zlen. lia.
    - intros (j & -> & Hj%lookup_lt_Some)%removed_bounds. unfold zlen. lia. }
  pose proof (zlen_nonneg l). constructor.
  - apply StronglySorted_app. split; [intros a b Ha ->%list_elem_of_singleton; apply Hb in Ha; lia|]. split; [|by repeat constructor].
    unfold lrem_places. destruct (count <? 0); [apply removed_desc|apply removed_asc].
  - apply Forall_forall. intros k [Hk|Hk]%elem_of_app; [apply Hb in Hk; lia|apply list_elem_of_singleton in Hk as ->; lia].
Qed.

Lemma sort_holes p q D : StronglySorted Z.lt (p :: rev D ++ [q]) -> merge_sort Z.le ([p] ++ D ++ [q]) = p :: rev D ++ [q].
Proof.
  intros Hs. apply (StronglySorted_unique Z.le).
  - apply (StronglySorted_merge_sort Z.le).
  - clear -Hs. induction Hs as [|a l Hs IH Hf]; constructor; [done|]. eapply Forall_impl; [exact Hf|]. cbn. lia.
  - rewrite merge_sort_Permutation. cbn [app]. by rewrite <-(Permutation_rev D).
Qed.

(** ** Segments *)

#[local] Abbreviation ascending := (StronglySorted Z.lt).

Lemma ascending_lookup hs : forall i j a b, ascending hs -> (i < j)%nat -> hs !! i = Some a -> hs !! j = Some b -> a < b.
Proof.
  induction hs as [|h hs IH]; intros i j a b Ha Hij Ei Ej; [done|]. apply StronglySorted_inv in Ha as [Ha Hh]. rewrite Forall_forall in Hh.
  destruct j as [|j]; [lia|]. destruct i as [|i]; cbn in Ei, Ej; [injection Ei as ->; by apply Hh, list_elem_of_lookup_2 with j|].
  apply (IH i j); done || lia.
Qed.

(** Nothing between neighbours. *)
Lemma ascending_between L a b R k : ascending (L ++ a :: b :: R) -> a < k < b -> k ∉ L ++ a :: b :: R.
Proof.
  intros Hs Hk Hin. apply StronglySorted_app in Hs as (HL & _ & HR). apply StronglySorted_inv in HR as [HR Ha]. apply StronglySorted_inv in HR as [_ Hb].
  rewrite Forall_forall in Hb. apply elem_of_app in Hin as [Hin|Hin].
  - assert (k < a) by (apply HL; [done|left]). lia.
  - apply elem_of_cons in Hin as [->|Hin]; [lia|]. apply elem_of_cons in Hin as [->|Hin]; [lia|]. apply Hb in Hin. lia.
Qed.

(** The elements between the places [a] and [b] of a list that starts at [head]. *)
Definition window (head : Z) (l : list bytes) (a b : Z) : list bytes := ztake (b - a - 1) (zdrop (a + 1 - head) l).

(** The segments between consecutive places. *)
Fixpoint segments (head : Z) (l : list bytes) (hs : list Z) : list (list bytes) :=
  match hs with
  | [] => []
  | a :: rest => match rest with [] => [] | b :: _ => window head l a b :: segments head l rest end
  end.

Lemma zlen_window head l a b : head - 1 <= a -> a < b -> b <= head + zlen l -> zlen (window head l a b) = b - a - 1.
Proof. intros Ha Hab Hb. unfold window. apply zlen_take. rewrite zlen_drop; lia. Qed.

Lemma znth_window_place head l a b j : head - 1 <= a -> 0 <= j < b - a - 1 -> znth (window head l a b) j = znth l (a + 1 - head + j).
Proof. intros Ha Hj. unfold window. by rewrite znth_window, decide_True by lia. Qed.

Lemma segments_app head l A : forall b B, segments head l (A ++ b :: B) = segments head l (A ++ [b]) ++ segments head l (b :: B).
Proof.
  induction A as [|a A IH]; intros b B; [done|]. destruct A as [|a' A]; [done|]. cbn [app segments]. f_equal. apply (IH b B).
Qed.

Lemma window_split head l a b :
  head - 1 <= a -> a < b -> b < head + zlen l -> exists x, zdrop (a + 1 - head) l = window head l a b ++ x :: zdrop (b + 1 - head) l.
Proof.
  intros Ha Hab Hb. destruct (znth_some l (b - head)) as [x Ex]; [lia|]. exists x.
  rewrite <-(ztake_zdrop (b - a - 1) (zdrop (a + 1 - head) l)) at 1. unfold window. f_equal. rewrite zdrop_zdrop by lia.
  replace (a + 1 - head + (b - a - 1)) with (b - head) by lia. rewrite !zdrop_drop. rewrite znth_lookup in Ex by lia.
  rewrite (drop_S _ _ _ Ex). do 2 f_equal. lia.
Qed.

Lemma segments_keep head l H : forall p, head - 1 <= p -> ascending (p :: H ++ [head + zlen l]) ->
  concat (segments head l (p :: H ++ [head + zlen l])) = lrem_keep (p + 1) H (zdrop (p + 1 - head) l).
Proof.
  induction H as [|h H IH]; intros p Hp Hs; apply StronglySorted_inv in Hs as [Hs Hf]; cbn [app segments concat] in *.
  - apply Forall_cons_1 in Hf as [Hf _]. rewrite app_nil_r, keep_none by (intros; apply not_elem_of_nil). unfold window. apply ztake_all. rewrite zlen_drop; lia.
  - apply Forall_cons_1 in Hf as [Hph _]. pose proof Hs as Hs'. apply StronglySorted_inv in Hs' as [_ Hh]. rewrite Forall_forall in Hh.
    assert (h < head + zlen l) as Hht by (apply Hh, elem_of_app; right; left).
    destruct (window_split head l p h) as [x ->]; [lia|lia|lia|]. rewrite keep_app, zlen_window by lia. cbn [lrem_keep].
    rewrite (bool_decide_eq_true_2 (p + 1 + (h - p - 1) ∈ h :: H)) by (apply elem_of_cons; left; lia).
    rewrite keep_none.
    2:{ intros k Hk [->|Hin]%elem_of_cons; rewrite zlen_window in Hk by lia; [lia|]. assert (h < k) by (apply Hh, elem_of_app; by left). lia. }
    f_equal. rewrite (IH h) by (done || lia). replace (p + 1 + (h - p - 1) + 1) with (h + 1) by lia. apply keep_ext. intros k Hk.
    rewrite elem_of_cons. split; [by right|]. intros [->|?]; [lia|done].
Qed.

Lemma segments_len head l hs : forall p q, ascending (p :: hs ++ [q]) -> head - 1 <= p -> q <= head + zlen l ->
  zlen (concat (segments head l (p :: hs ++ [q]))) <= q - p - 1.
Proof.
  induction hs as [|h hs IH]; intros p q Hs Hp Hq; apply StronglySorted_inv in Hs as [Hs Hf]; cbn [app segments concat] in *; apply Forall_cons_1 in Hf as [Hph _].
  - rewrite app_nil_r, zlen_window by lia. lia.
  - pose proof Hs as Hs'. apply StronglySorted_inv in Hs' as [_ Hh]. rewrite Forall_forall in Hh.
    assert (h < q) by (apply Hh, elem_of_app; right; left). specialize (IH h q Hs ltac:(lia) Hq). cbn [app segments concat] in IH. rewrite zlen_app, zlen_window by lia. lia.
Qed.

Lemma znth_mid {A} (L : list A) a R : znth (L ++ a :: R) (zlen L) = Some a.
Proof. rewrite znth_app_r by lia. by rewrite Z.sub_diag. Qed.

(** * The store *)

(** The map [m] with the elements [S] from place [g] on. *)
Definition overlay (g : Z) (S : list bytes) (m : gmap Z bytes) : gmap Z bytes := seq_map g S ∪ m.

Lemma lookup_overlay g S m k : overlay g S m !! k = if decide (g <= k < g + zlen S) then znth S (k - g) else m !! k.
Proof.
  unfold overlay. case_decide as Hk.
  - destruct (znth_some S (k - g)) as [x Ex]; [lia|]. rewrite Ex. apply lookup_union_Some_l. by rewrite lookup_seq_map.
  - apply lookup_union_r. rewrite lookup_seq_map. apply znth_outside. lia.
Qed.

Lemma overlay_app g S1 S2 m : overlay g S1 (overlay (g + zlen S1) S2 m) = overlay g (S1 ++ S2) m.
Proof. unfold overlay. rewrite map_seqZ_app. by rewrite (assoc_L (∪)). Qed.

Lemma overlay_app' g S1 S2 m : overlay (g + zlen S1) S2 (overlay g S1 m) = overlay g (S1 ++ S2) m.
Proof.
  unfold overlay. rewrite map_seqZ_app, (assoc_L (∪)). f_equal. apply map_union_comm. symmetry. apply map_seqZ_app_disjoint.
Qed.

Lemma overlay_nil g m : overlay g [] m = m.
Proof. apply (left_id_L ∅ (∪)). Qed.

Section Rem.
Context {BM : BuildMode} {T : Type} `{RocksDBLaws T} {HH : RocksDBHealthy T}.
Variable cfg : StoreCfg.
Variable sess : SessionCtx.
Variables (chunkId : Z) (pk : bytes).
Hypothesis Hcat : cfg_isCatalog cfg = false.
Hypothesis Hchunk : is_u32 chunkId /\ chunkId <> CHUNKID_FLUSH.
Hypothesis Hdb : is_u32 (sc_dbId sess).
Hypothesis Hpk : zlen pk < 2 ^ 61.
Variable now : Z.

#[local] Abbreviation lk := (list_key sess chunkId pk).
#[local] Abbreviation at_places := (places cfg sess chunkId pk).

(** The search, in either direction. *)
Lemma lrem_scan_ok pos v count B : forall n p hole tx m,
  let d := match pos with LP_HEAD => 1 | LP_TAIL => -1 end in
  at_places tx m -> (forall j x, B !! j = Some x -> m !! (p + d * Z.of_nat j) = Some x) ->
  0 <= p < 2 ^ 63 -> 0 <= p + d * zlen B < 2 ^ 63 -> 1 <= zlen hole ->
  (count = 0 /\ (length B <= n)%nat \/ 0 < count < 2 ^ 31 /\ zlen hole - 1 + Z.of_nat n = count /\ (0 < n)%nat) ->
  exists tx' m', lrem_scan cfg lk now (length B) pos v count p hole tx = Ret (hole ++ removed d n v B p, tx') /\ at_places tx' m' /\
    forall k, m' !! k = if decide (k ∈ removed d n v B p) then None else m !! k.
Proof.
  induction B as [|b B IH]; intros n p hole tx m d Hp Hm Hb He Hh Hn; cbn [lrem_scan length removed].
  { exists tx, m. rewrite app_nil_r. split; [done|]. split; [done|]. intros k. by rewrite decide_False by apply not_elem_of_nil. }
  rewrite zlen_cons in He. pose proof (zlen_nonneg B). assert (d = 1 \/ d = -1) as Hd by (subst d; destruct pos; lia).
  pose proof (Hm O b eq_refl) as Hm0. rewrite Z.mul_0_r, Z.add_0_r in Hm0.
  destruct (get_place cfg sess chunkId pk tx m p b Hp ltac:(unfold is_u; lia) Hm0) as (rv & -> & _ & _ & Ev). rewrite bind_Ret, Ev.
  assert (match pos with LP_HEAD => u64 (p + 1) | LP_TAIL => u64 (p - 1) end = p + d) as -> by (subst d; destruct pos; rewrite wrap_id by (unfold is_u; lia); lia).
  destruct n as [|n]; [cbn [length] in Hn; lia|]. destruct (bool_decide_reflect (b = v)) as [Eb|Eb].
  - destruct (del_place cfg sess chunkId pk Hcat Hchunk Hdb Hpk tx m p now Hp ltac:(unfold is_u; lia)) as (tx1 & -> & Hp1). rewrite bind_Ret.
    assert (zlen (hole ++ [p]) = zlen hole + 1) as Ez by (rewrite zlen_app, zlen_cons, zlen_nil; lia). rewrite Ez. destruct (_ && _) eqn:Es; rewrite bind_Ret.
    + apply andb_prop in Es as [_ Es]. apply Z.eqb_eq in Es. assert (n = O) as ->.
      { destruct Hn as [[-> _]|(Hc & Hn & _)]; [change (u32 0) with 0 in Es; lia|]. rewrite wrap_id in Es by (unfold is_u; lia). lia. }
      exists tx1, (delete p m). assert (removed d 0 v B (p + d) = []) as -> by (by destruct B). split; [done|]. split; [done|]. intros k.
      case_decide as Hk; [apply list_elem_of_singleton in Hk as ->; apply lookup_delete_eq|]. apply lookup_delete_ne. intros ->. apply Hk. left.
    + destruct (IH n (p + d) (hole ++ [p]) tx1 (delete p m) Hp1) as (tx' & m' & E & Hp' & Hm'); fold d.
      * intros j x Ej. rewrite lookup_delete_ne by lia. rewrite <-(Hm (S j) x Ej). f_equal. lia.
      * lia.
      * lia.
      * lia.
      * rewrite Ez. destruct Hn as [[-> Hn]|(Hc & Hn & _)]; [left; cbn [length] in Hn; lia|right].
        split; [done|]. split; [lia|]. apply andb_false_iff in Es as [Es|Es]; [lia|]. rewrite wrap_id in Es by (unfold is_u; lia). lia.
      * exists tx', m'. rewrite E, <-app_assoc. split; [done|]. split; [done|]. intros k. rewrite Hm'. fold d. repeat case_decide; try done.
        -- by destruct H3; right.
        -- rewrite elem_of_cons in H3. destruct H3 as [->|]; [apply lookup_delete_eq|done].
        -- apply lookup_delete_ne. intros ->. apply H3. left.
  - rewrite bind_Ret. destruct (IH (S n) (p + d) hole tx m Hp) as (tx' & m' & E & Hp' & Hm'); fold d; [..|by exists tx', m'].
    + intros j x Ej. rewrite <-(Hm (S j) x Ej). f_equal. lia.
    + lia.
    + lia.
    + done.
    + destruct Hn as [[-> Hn]|Hn]; [left; cbn [length] in Hn; lia|by right].
Qed.

(** Some pair of neighbours is chosen. *)
Lemma lrem_gap_ok hs n : forall i largest seg,
  ascending hs -> Forall (fun h => 0 <= h < 2 ^ 63) hs -> length hs = (Z.to_nat i + n)%nat -> 1 <= i ->
  (i = 1 /\ largest = 0 /\ (0 < n)%nat \/ exists j, 1 <= j < i /\ seg = (j - 1, j)) ->
  exists j, lrem_gap n hs i (i - 1) largest seg = Ret (j - 1, j) /\ 1 <= j < zlen hs.
Proof.
  induction n as [|n IH]; intros i largest seg Ha Hu Hl Hi Hs; cbn [lrem_gap].
  { destruct Hs as [(_ & _ & Hn)|(j & Hj & ->)]; [lia|]. exists j. split; [done|]. unfold zlen. lia. }
  destruct (lookup_lt_is_Some_2 hs (Z.to_nat i)) as [hi Ei]; [lia|]. destruct (lookup_lt_is_Some_2 hs (Z.to_nat (i - 1))) as [hl El]; [lia|].
  assert (hl < hi) as Hlt.
  { apply (ascending_lookup hs (Z.to_nat (i - 1)) (Z.to_nat i)); done || lia. }
  pose proof (Forall_lookup_1 _ _ _ _ Hu Ei) as Bi. pose proof (Forall_lookup_1 _ _ _ _ Hu El) as Bl. cbn beta in Bi, Bl.
  unfold vec_at. rewrite !znth_lookup, Ei, El by lia. cbn [mbind M_bind]. rewrite wrap_id by (unfold is_u; lia).
  destruct (Z.ltb_spec largest (hi - hl)).
  - destruct (IH (i + 1) (hi - hl) (i - 1, i) Ha Hu) as (j & E & Hj); [lia|lia|right; exists i; split; [lia|done]|]. rewrite Z.add_simpl_r in E. by exists j.
  - destruct Hs as [(-> & -> & _)|(j & Hj & ->)]; [lia|].
    destruct (IH (i + 1) largest (j - 1, j) Ha Hu) as (j' & E & Hj'); [lia|lia|right; exists j; split; [lia|done]|]. rewrite Z.add_simpl_r in E. by exists j'.
Qed.

(** ** Moving a segment *)

(** The elements [S] are at the places from [g] on. *)
Definition laid (m : gmap Z bytes) (g : Z) (S : list bytes) : Prop := forall j, 0 <= j < zlen S -> m !! (g + j) = znth S j.

Lemma move_up_ok S : forall tx m a dest,
  at_places tx m -> laid m (a + 1) S -> 0 <= a -> a + zlen S <= dest -> dest < 2 ^ 63 ->
  exists tx', move_up cfg lk now (length S) (a + zlen S) a dest tx = Ret (tx', dest - zlen S) /\ at_places tx' (overlay (dest - zlen S + 1) S m).
Proof.
  induction S as [|x S IH] using rev_ind; intros tx m a dest Hp Hl Ha Hd Hu.
  { cbn [length move_up]. rewrite zlen_nil in *. replace (a <? a + 0) with false by lia. exists tx. by rewrite Z.sub_0_r, overlay_nil. }
  rewrite length_app, Nat.add_comm. cbn [length Nat.add move_up]. assert (zlen (S ++ [x]) = zlen S + 1) as Ez by (rewrite zlen_app, zlen_cons, zlen_nil; lia).
  rewrite Ez in *. pose proof (zlen_nonneg S). replace (a <? a + (zlen S + 1)) with true by lia.
  destruct (copy_place cfg sess chunkId pk Hcat Hchunk Hdb Hpk tx m (a + (zlen S + 1)) dest x now Hp) as (rv & tx1 & -> & E & Hp1); [unfold is_u; lia|unfold is_u; lia|..].
  { replace (a + (zlen S + 1)) with (a + 1 + zlen S) by lia. rewrite Hl by (rewrite Ez; lia). rewrite znth_app_r by lia. by rewrite Z.sub_diag. }
  rewrite bind_Ret, E, bind_Ret, !wrap_id by (unfold is_u; lia). replace (a + (zlen S + 1) - 1) with (a + zlen S) by lia.
  destruct (IH tx1 (<[dest := x]> m) a (dest - 1) Hp1) as (tx' & -> & Hp'); [|lia|lia|lia|].
  { intros j Hj. rewrite lookup_insert_ne by lia. rewrite Hl by (rewrite Ez; lia). by rewrite znth_app_l by lia. }
  exists tx'. replace (dest - 1 - zlen S) with (dest - (zlen S + 1)) in * by lia. split; [done|]. rewrite <-overlay_app.
  replace (dest - (zlen S + 1) + 1 + zlen S) with dest by lia. unfold overlay at 2. rewrite map_seqZ_singleton, <-insert_union_singleton_l. done.
Qed.

Lemma move_down_ok S : forall tx m a b dest,
  at_places tx m -> laid m (a + 1) S -> 0 <= dest <= a + 1 -> b = a + 1 + zlen S -> b < 2 ^ 63 ->
  exists tx', move_down cfg lk now (length S) (a + 1) b dest tx = Ret (tx', dest + zlen S) /\ at_places tx' (overlay dest S m).
Proof.
  induction S as [|x S IH]; intros tx m a b dest Hp Hl Hd -> Hu; cbn [length move_down].
  { rewrite zlen_nil in *. replace (a + 1 <? a + 1 + 0) with false by lia. exists tx. by rewrite Z.add_0_r, overlay_nil. }
  rewrite zlen_cons in *. pose proof (zlen_nonneg S). replace (a + 1 <? a + 1 + (1 + zlen S)) with true by lia.
  destruct (copy_place cfg sess chunkId pk Hcat Hchunk Hdb Hpk tx m (a + 1) dest x now Hp) as (rv & tx1 & -> & E & Hp1); [unfold is_u; lia|unfold is_u; lia|..].
  { rewrite <-(Z.add_0_r (a + 1)), Hl by (rewrite zlen_cons; lia). done. }
  rewrite bind_Ret, E, bind_Ret, !wrap_id by (unfold is_u; lia).
  destruct (IH tx1 (<[dest := x]> m) (a + 1) (a + 1 + (1 + zlen S)) (dest + 1) Hp1) as (tx' & -> & Hp'); [|lia|lia|lia|].
  { intros j Hj. rewrite lookup_insert_ne by lia. replace (a + 1 + 1 + j) with (a + 1 + (j + 1)) by lia. rewrite Hl by (rewrite zlen_cons; lia).
    cbn [znth]. replace (j + 1 =? 0) with false by lia. by rewrite Z.add_simpl_r. }
  exists tx'. replace (dest + 1 + zlen S) with (dest + (1 + zlen S)) by lia. split; [done|].
  replace (overlay dest (x :: S) m) with (overlay (dest + 1) S (<[dest := x]> m)); [done|].
  apply map_eq. intros k. rewrite !lookup_overlay, zlen_cons. cbn [znth].
  destruct (decide (k = dest)) as [->|]; [rewrite lookup_insert_eq, decide_False, decide_True by lia; by rewrite Z.sub_diag|].
  rewrite lookup_insert_ne by done. repeat case_decide; try lia; [|done]. replace (k - dest =? 0) with false by lia. f_equal. lia.
Qed.

(** ** Closing the holes *)

Section Close.
Variables (head : Z) (l : list bytes) (hole : list Z).
Hypothesis Hhead : 0 < head /\ head + zlen l < 2 ^ 63.
Hypothesis Hasc : ascending hole.
Hypothesis Hin : Forall (fun h => head - 1 <= h <= head + zlen l) hole.

(** The elements of the list are at the places between [lo] and [hi] that are no holes. *)
Definition sourced (m : gmap Z bytes) (lo hi : Z) : Prop := forall k, lo < k < hi -> k ∉ hole -> m !! k = znth l (k - head).

Lemma sourced_laid m L a b R lo hi :
  hole = L ++ a :: b :: R -> sourced m lo hi -> lo <= a -> b <= hi -> laid m (a + 1) (window head l a b) /\ zlen (window head l a b) = b - a - 1 /\ a < b.
Proof.
  intros Eh Hs Hlo Hhi. assert (head - 1 <= a /\ b <= head + zlen l) as [Ha Hb].
  { rewrite Forall_forall in Hin. split; apply Hin; rewrite Eh; apply elem_of_app; right; [left|right; left]. }
  assert (a < b) as Hab.
  { apply (ascending_lookup hole (length L) (S (length L))); [done|lia|rewrite Eh; by apply list_lookup_middle|]. rewrite Eh, lookup_app_r by lia. by replace (S (length L) - length L)%nat with 1%nat by lia. }
  rewrite zlen_window by lia. split; [|done]. intros j Hj. rewrite zlen_window in Hj by lia. rewrite znth_window_place by lia.
  rewrite Hs; [f_equal; lia|lia|]. rewrite Eh. apply ascending_between; [by rewrite <-Eh|lia].
Qed.

Lemma lrem_left_ok L : forall b R dest tx m,
  hole = L ++ b :: R -> at_places tx m -> sourced m (head - 1) b -> b <= dest < 2 ^ 63 ->
  let X := concat (segments head l (L ++ [b])) in
  exists tx', lrem_left cfg lk now (length L) hole dest tx = Ret (tx', dest - zlen X) /\ at_places tx' (overlay (dest - zlen X + 1) X m).
Proof.
  induction L as [|a L IH] using rev_ind; intros b R dest tx m Eh Hp Hs Hd X.
  { exists tx. subst X. cbn [length lrem_left app segments concat]. by rewrite zlen_nil, Z.sub_0_r, overlay_nil. }
  rewrite <-app_assoc in Eh. cbn [app] in Eh. assert (head - 1 <= a) by (rewrite Forall_forall in Hin; apply Hin; rewrite Eh; apply elem_of_app; right; left).
  destruct (sourced_laid m L a b R _ _ Eh Hs) as (Hl & Hz & Hab); [lia|lia|]. set (S := window head l a b) in *.
  rewrite length_app, Nat.add_comm. cbn [length Nat.add lrem_left]. unfold vec_at.
  replace (znth hole (Z.of_nat (length L) + 1)) with (Some b).
  2:{ rewrite Eh, znth_app_r by (unfold zlen; lia). replace (Z.of_nat (length L) + 1 - zlen L) with 1 by (unfold zlen; lia). done. }
  rewrite bind_Ret. replace (znth hole (Z.of_nat (length L))) with (Some a) by (rewrite Eh; symmetry; apply znth_mid). rewrite bind_Ret.
  rewrite wrap_id by (unfold is_u; lia). replace (b - 1) with (a + zlen S) by lia. replace (Z.to_nat (a + zlen S - a)) with (length S) by (unfold zlen; lia).
  destruct (move_up_ok S tx m a dest Hp Hl) as (tx1 & -> & Hp1); [lia|lia|lia|]. rewrite bind_Ret.
  destruct (IH a (b :: R) (dest - zlen S) tx1 _ Eh Hp1) as (tx' & -> & Hp'); [|lia|].
  { intros k Hk Hn. rewrite lookup_overlay, decide_False by lia. apply Hs; done || lia. }
  exists tx'. assert (X = concat (segments head l (L ++ [a])) ++ S) as EX.
  { subst X. rewrite <-app_assoc. cbn [app]. rewrite segments_app, concat_app. cbn [segments concat]. by rewrite app_nil_r. }
  rewrite EX, zlen_app. set (X' := concat (segments head l (L ++ [a]))) in *. replace (dest - zlen S - zlen X') with (dest - (zlen X' + zlen S)) in * by lia.
  split; [done|]. rewrite <-overlay_app. by replace (dest - (zlen X' + zlen S) + 1 + zlen X') with (dest - zlen S + 1) by lia.
Qed.

Lemma lrem_right_ok R : forall L a dest tx m,
  hole = L ++ a :: R -> at_places tx m -> sourced m a (head + zlen l + 1) -> 0 <= dest <= a ->
  let Y := concat (segments head l (a :: R)) in
  exists tx', lrem_right cfg lk now (length R) (zlen L + 1) hole dest tx = Ret (tx', dest + zlen Y) /\ at_places tx' (overlay dest Y m).
Proof.
  induction R as [|b R IH]; intros L a dest tx m Eh Hp Hs Hd Y.
  { exists tx. subst Y. cbn [length lrem_right app segments concat]. by rewrite zlen_nil, Z.add_0_r, overlay_nil. }
  assert (head - 1 <= a /\ b <= head + zlen l) as [Ha Hb].
  { rewrite Forall_forall in Hin. split; apply Hin; rewrite Eh; apply elem_of_app; right; [left|right; left]. }
  destruct (sourced_laid m L a b R _ _ Eh Hs) as (Hl & Hz & Hab); [lia|lia|]. cbn [segments concat] in Y. fold (segments head l (b :: R)) in Y.
  set (S := window head l a b) in *. cbn [length lrem_right]. unfold vec_at. rewrite Z.add_simpl_r.
  replace (znth hole (zlen L)) with (Some a) by (rewrite Eh; symmetry; apply znth_mid). rewrite bind_Ret.
  replace (znth hole (zlen L + 1)) with (Some b).
  2:{ rewrite Eh, znth_app_r by lia. by replace (zlen L + 1 - zlen L) with 1 by lia. }
  rewrite bind_Ret, wrap_id by (unfold is_u; lia). replace (Z.to_nat (b - (a + 1))) with (length S) by (unfold zlen in Hz; lia).
  destruct (move_down_ok S tx m a b dest Hp Hl) as (tx1 & -> & Hp1); [lia|lia|lia|]. rewrite bind_Ret.
  replace (zlen L + 1 + 1) with (zlen (L ++ [a]) + 1) by (rewrite zlen_app, zlen_cons, zlen_nil; lia).
  destruct (IH (L ++ [a]) b (dest + zlen S) tx1 _ ltac:(by rewrite <-app_assoc) Hp1) as (tx' & -> & Hp'); [|lia|].
  { intros k Hk Hn. rewrite lookup_overlay, decide_False by lia. apply Hs; done || lia. }
  exists tx'. subst Y. rewrite zlen_app, Z.add_assoc. split; [done|]. by rewrite <-overlay_app'.
Qed.

End Close.

Lemma del_ends_ok fuel : forall oh ot h t tx m,
  at_places tx m -> 0 <= oh <= h -> h <= t <= ot -> ot < 2 ^ 63 -> (h - oh) + (ot - t) < Z.of_nat fuel ->
  exists tx' m', del_ends cfg lk now fuel oh ot h t tx = Ret tx' /\ at_places tx' m' /\
    forall k, m' !! k = if decide (oh <= k < h \/ t <= k < ot) then None else m !! k.
Proof.
  induction fuel as [|fuel IH]; intros oh ot h t tx m Hp Hh Ht Hu Hf; [lia|]. cbn [del_ends]. destruct (Z.eqb_spec oh h) as [->|Hn]; cbn [negb].
  - destruct (Z.eqb_spec ot t) as [->|Hn']; cbn [negb].
    { exists tx, m. split; [done|]. split; [done|]. intros k. by rewrite decide_False by lia. }
    rewrite wrap_id by (unfold is_u; lia).
    destruct (del_place cfg sess chunkId pk Hcat Hchunk Hdb Hpk tx m (ot - 1) now Hp) as (tx1 & -> & Hp1); [unfold is_u; lia|]. rewrite bind_Ret.
    destruct (IH h (ot - 1) h t tx1 _ Hp1) as (tx' & m' & -> & Hp' & Hm'); [lia|lia|lia|lia|]. exists tx', m'. split; [done|]. split; [done|]. intros k. rewrite Hm'.
    destruct (decide (k = ot - 1)) as [->|]; [rewrite lookup_delete_eq|rewrite lookup_delete_ne by done]; repeat case_decide; done || lia.
  - rewrite wrap_id by (unfold is_u; lia).
    destruct (del_place cfg sess chunkId pk Hcat Hchunk Hdb Hpk tx m oh now Hp) as (tx1 & -> & Hp1); [unfold is_u; lia|]. rewrite bind_Ret.
    destruct (IH (oh + 1) ot h t tx1 _ Hp1) as (tx' & m' & -> & Hp' & Hm'); [lia|lia|lia|lia|]. exists tx', m'. split; [done|]. split; [done|]. intros k. rewrite Hm'.
    destruct (decide (k = oh)) as [->|]; [rewrite lookup_delete_eq|rewrite lookup_delete_ne by done]; repeat case_decide; done || lia.
Qed.

(** Where the moved segments meet. *)
Lemma closed_map head l rm a b X Y (m0 m3 : gmap Z bytes) L R :
  head - 1 :: rm ++ [head + zlen l] = L ++ a :: b :: R ->
  ascending (head - 1 :: rm ++ [head + zlen l]) -> X = concat (segments head l (L ++ [a])) -> Y = concat (segments head l (b :: R)) ->
  head - 1 <= a -> a < b -> b <= head + zlen l -> head <= a - zlen X + 1 -> b + zlen Y <= head + zlen l ->
  (forall k, m0 !! k = if decide (k ∈ rm) then None else seq_map head l !! k) ->
  (forall k, m3 !! k = if decide (head <= k < a - zlen X + 1 \/ b + zlen Y <= k < head + zlen l) then None
                       else overlay b Y (overlay (a - zlen X + 1) X m0) !! k) ->
  m3 = seq_map (a - zlen X + 1) (lrem_keep head rm l) /\ zlen (lrem_keep head rm l) = b + zlen Y - (a - zlen X + 1).
Proof.
  intros Eh Ha EX EY H1 H2 H3 H4 H5 Hm0 Hm3. assert (lrem_keep head rm l = X ++ window head l a b ++ Y) as ->.
  { pose proof (segments_keep head l rm (head - 1) ltac:(lia) Ha) as Hk. replace (head - 1 + 1 - head) with 0 in Hk by lia. rewrite Z.sub_add, zdrop_0 in Hk.
    rewrite <-Hk, Eh, segments_app, concat_app, <-EX. f_equal. cbn [segments concat]. f_equal. done. }
  pose proof (zlen_window head l a b H1 H2 H3) as Hw. pose proof (zlen_nonneg X). pose proof (zlen_nonneg Y). rewrite !zlen_app, Hw. split; [|lia].
  apply map_eq. intros k. rewrite Hm3, !lookup_overlay, lookup_seq_map, Hm0, lookup_seq_map.
  destruct (decide (a - zlen X + 1 <= k < b + zlen Y)) as [Hk|Hk].
  - rewrite decide_False by lia. destruct (decide (b <= k)).
    { rewrite decide_True by lia. rewrite znth_app_r, znth_app_r by lia. f_equal. lia. }
    rewrite decide_False by lia. destruct (decide (k <= a)); [rewrite decide_True by lia; by rewrite znth_app_l by lia|]. rewrite decide_False by lia.
    rewrite znth_app_r, znth_app_l, znth_window_place by lia. rewrite decide_False; [f_equal; lia|]. intros Hk'.
    apply (ascending_between L a b R k); [by rewrite <-Eh|lia|]. rewrite <-Eh. right. apply elem_of_app. by left.
  - rewrite (znth_outside (X ++ _)) by (rewrite !zlen_app, Hw; lia). destruct (decide (head <= k < a - zlen X + 1 \/ _)); [done|].
    rewrite !decide_False by lia. case_decide; [done|]. apply znth_outside. lia.
Qed.

Lemma holes_in_range head tail rm : ascending (head - 1 :: rm ++ [tail]) -> Forall (fun h => head - 1 <= h <= tail) (head - 1 :: rm ++ [tail]).
Proof.
  intros Ha. apply StronglySorted_inv in Ha as [Ha Hf]. rewrite Forall_forall in Hf. apply StronglySorted_app in Ha as (Hl & _).
  assert (head - 1 < tail) by (apply Hf, elem_of_app; right; left). apply Forall_forall. intros h [->|Hi]%elem_of_cons; [lia|]. pose proof (Hf _ Hi). split; [lia|].
  apply elem_of_app in Hi as [Hi|Hi%list_elem_of_singleton]; [|lia]. enough (h < tail) by lia. apply Hl; [done|left].
Qed.

Lemma list_split_at {A} (hs : list A) j : 1 <= j < zlen hs -> exists L a b R, hs = L ++ a :: b :: R /\ zlen L = j - 1.
Proof.
  unfold zlen. intros Hj. destruct (lookup_lt_is_Some_2 hs (Z.to_nat (j - 1))) as [a Ea]; [lia|].
  destruct (lookup_lt_is_Some_2 hs (S (Z.to_nat (j - 1)))) as [b Eb]; [lia|].
  exists (take (Z.to_nat (j - 1)) hs), a, b, (drop (S (S (Z.to_nat (j - 1)))) hs).
  rewrite <-(drop_S _ _ _ Eb), <-(drop_S _ _ _ Ea), take_drop, length_take. split; [done|lia].
Qed.

(** The segments beside the longest have room to move. *)
Lemma segments_room head l rm L a b R :
  head - 1 :: rm ++ [head + zlen l] = L ++ a :: b :: R -> ascending (head - 1 :: rm ++ [head + zlen l]) ->
  head <= a - zlen (concat (segments head l (L ++ [a]))) + 1 /\ b + zlen (concat (segments head l (b :: R))) <= head + zlen l.
Proof.
  intros Eh Ha. pose proof (holes_in_range _ _ _ Ha) as Hin. rewrite Forall_forall in Hin. rewrite Eh in Ha, Hin.
  assert (head - 1 <= b /\ a <= head + zlen l) as [Hb Hat].
  { split; [apply (Hin b)|apply (Hin a)]; apply elem_of_app; right; [right; left|left]. }
  pose proof Ha as Ha'. apply StronglySorted_app in Ha' as (_ & _ & Har). apply StronglySorted_inv in Har as [Hbr _]. split.
  - destruct L as [|p L]; [injection Eh as <- _; cbn; rewrite zlen_nil; lia|]. injection Eh as <- _. cbn [app].
    replace ((head - 1 :: L) ++ a :: b :: R) with ((head - 1 :: L ++ [a]) ++ b :: R) in Ha by (cbn [app]; by rewrite <-app_assoc).
    apply StronglySorted_app in Ha as (_ & Ha & _). pose proof (segments_len head l L (head - 1) a Ha ltac:(lia) Hat). lia.
  - destruct R as [|r R] using rev_ind.
    { replace (L ++ [a; b]) with ((L ++ [a]) ++ [b]) in Eh by (by rewrite <-app_assoc). rewrite app_comm_cons in Eh. apply app_inj_tail in Eh as [_ <-]. cbn. rewrite zlen_nil. lia. }
    replace (L ++ a :: b :: R ++ [r]) with ((L ++ a :: b :: R) ++ [r]) in Eh by (by rewrite <-app_assoc). rewrite app_comm_cons in Eh. apply app_inj_tail in Eh as [_ <-].
    pose proof (segments_len head l R b (head + zlen l) Hbr Hb ltac:(lia)). lia.
Qed.

Lemma lrem_close_ok tx m lm l rm :
  at_places tx m -> lm_tail lm = lm_head lm + zlen l -> 0 < lm_head lm -> lm_tail lm < 2 ^ 63 ->
  ascending (lm_head lm - 1 :: rm ++ [lm_tail lm]) -> (forall k, m !! k = if decide (k ∈ rm) then None else seq_map (lm_head lm) l !! k) ->
  exists tx' lm', lrem_close cfg lk now lm (lm_head lm - 1 :: rm ++ [lm_tail lm]) tx = Ret (tx', lm') /\
    at_places tx' (seq_map (lm_head lm') (lrem_keep (lm_head lm) rm l)) /\ lm_tail lm' = lm_head lm' + zlen (lrem_keep (lm_head lm) rm l) /\
    lm_head lm <= lm_head lm' /\ lm_tail lm' <= lm_tail lm.
Proof.
  intros Hp Et Hh Ht Ha Hm. unfold lrem_close. rewrite Et in *. set (head := lm_head lm) in *. pose proof (holes_in_range _ _ _ Ha) as Hin. pose proof (zlen_nonneg l).
  set (hole := head - 1 :: rm ++ [head + zlen l]) in *. destruct (lrem_gap_ok hole (length hole - 1) 1 0 (0, 0) Ha) as (j & Ej & Hj).
  { eapply Forall_impl; [exact Hin|]. cbn. lia. }
  { cbn [hole length]. change (Z.to_nat 1) with 1%nat. lia. }
  { done. }
  { left. split; [done|]. split; [done|]. cbn [hole length]. rewrite length_app. cbn [length]. lia. }
  change (1 - 1) with 0 in Ej. rewrite Ej, bind_Ret. destruct (list_split_at hole j Hj) as (L & a & b & R & Eh & HL).
  destruct (segments_room head l rm L a b R Eh Ha) as [RX RY].
  assert (sourced head l hole m (head - 1) (head + zlen l)) as Hs.
  { intros k Hk Hn. rewrite Hm, decide_False, lookup_seq_map; [done|]. intros Hi. apply Hn. right. apply elem_of_app. by left. }
  assert (head - 1 <= a /\ b <= head + zlen l) as [Hla Hbt].
  { rewrite Forall_forall in Hin. split; apply Hin; rewrite Eh; apply elem_of_app; right; [left|right; left]. }
  destruct (sourced_laid head l hole Ha Hin m L a b R _ _ Eh Hs Hla Hbt) as (_ & _ & Hab). unfold vec_at.
  replace (znth hole (j - 1)) with (Some a) by (rewrite Eh, <-HL; symmetry; apply znth_mid).
  replace (znth hole j) with (Some b) by (rewrite Eh, znth_app_r by lia; by replace (j - zlen L) with 1 by lia).
  rewrite !bind_Ret. unfold INVARIANT. replace (a <? b) with true by lia. rewrite bind_Ret. replace (Z.to_nat (j - 1)) with (length L) by (unfold zlen in HL; lia).
  destruct (lrem_left_ok head l hole (conj Hh Ht) Ha Hin L a (b :: R) a tx m Eh Hp) as (tx1 & -> & Hp1); [intros k Hk Hn; apply Hs; done || lia|lia|].
  set (X := concat (segments head l (L ++ [a]))) in *. rewrite bind_Ret. assert (hole = (L ++ [a]) ++ b :: R) as Eh' by (by rewrite <-app_assoc).
  replace (length hole - Z.to_nat (j + 1))%nat with (length R) by (rewrite Eh', !length_app; cbn [length]; unfold zlen in HL; lia).
  replace (j + 1) with (zlen (L ++ [a]) + 1) by (rewrite zlen_app, zlen_cons, zlen_nil; lia). pose proof (zlen_nonneg X).
  destruct (lrem_right_ok head l hole (conj Hh Ht) Ha Hin R (L ++ [a]) b b tx1 _ Eh' Hp1) as (tx2 & -> & Hp2); [|lia|].
  { intros k Hk Hn. rewrite lookup_overlay, decide_False by lia. destruct (decide (k < head + zlen l)); [apply Hs; done || lia|].
    destruct Hn. replace k with (head + zlen l) by lia. right. apply elem_of_app. right. left. }
  set (Y := concat (segments head l (b :: R))) in *. rewrite bind_Ret. pose proof (zlen_nonneg Y). rewrite wrap_id by (unfold is_u; lia).
  destruct (del_ends_ok (S (Z.to_nat (head + zlen l - head))) head (head + zlen l) (a - zlen X + 1) (b + zlen Y) tx2 _ Hp2) as (tx' & m3 & -> & Hp3 & Hm3); [lia|lia|lia|lia|].
  destruct (closed_map head l rm a b X Y m m3 L R Eh Ha eq_refl eq_refl Hla Hab Hbt RX RY Hm Hm3) as [-> Hz].
  rewrite bind_Ret. exists tx', (mkListMeta (a - zlen X + 1) (b + zlen Y)). cbn [lm_head lm_tail]. split; [done|]. split; [done|]. lia.
Qed.

(** ** The command *)

(** The search from the end that the count asks for, and the holes in order. *)
Lemma lrem_search_ok tx lm l count value :
  at_places tx (seq_map (lm_head lm) l) -> lm_tail lm = lm_head lm + zlen l -> l <> [] -> 0 < lm_head lm -> lm_tail lm < 2 ^ 63 -> - 2 ^ 31 < count < 2 ^ 31 ->
  let pos := if count <? 0 then LP_TAIL else LP_HEAD in
  exists tx' m hole,
    lrem_scan cfg lk now (length l) pos value (Z.abs count) (match pos with LP_HEAD => lm_head lm | LP_TAIL => u64 (lm_tail lm - 1) end) [lm_head lm - 1] tx = Ret (hole, tx') /\
    at_places tx' m /\ zlen hole = zlen (lrem_places count value l (lm_head lm)) + 1 /\
    match pos with LP_TAIL => merge_sort Z.le (hole ++ [lm_tail lm]) | LP_HEAD => hole ++ [lm_tail lm] end =
      lm_head lm - 1 :: lrem_places count value l (lm_head lm) ++ [lm_tail lm] /\
    forall k, m !! k = if decide (k ∈ lrem_places count value l (lm_head lm)) then None else seq_map (lm_head lm) l !! k.
Proof.
  intros Hp Et Hne Hh Ht Hc pos. pose proof (zlen_pos l Hne) as Hl. unfold lrem_places.
  assert (forall B : list bytes, length B = length l -> Z.abs count = 0 /\ (length B <= lrem_times count l)%nat \/
    0 < Z.abs count < 2 ^ 31 /\ zlen [lm_head lm - 1] - 1 + Z.of_nat (lrem_times count l) = Z.abs count /\ (0 < lrem_times count l)%nat) as Hn.
  { intros B HB. unfold lrem_times. change (zlen [lm_head lm - 1]) with 1. destruct (Z.eqb_spec count 0); [left; lia|right; lia]. }
  subst pos. pose proof (lrem_places_ascending count value l (lm_head lm)) as Ha. unfold lrem_places in Ha. destruct (count <? 0).
  - rewrite wrap_id by (unfold is_u; lia). rewrite <-(length_rev l).
    destruct (lrem_scan_ok LP_TAIL value (Z.abs count) (rev l) (lrem_times count l) (lm_tail lm - 1) [lm_head lm - 1] tx _ Hp) as (tx' & m & -> & Hp' & Hm).
    + intros j x Hj. rewrite lookup_seq_map, znth_lookup by (apply lookup_lt_Some in Hj; rewrite length_rev in Hj; unfold zlen in Et; lia).
      rewrite rev_alt in Hj. apply reverse_lookup_Some in Hj as [Hj Hx]. rewrite <-Hj. f_equal. unfold zlen in Et. lia.
    + lia.
    + unfold zlen. rewrite length_rev. unfold zlen in Et. lia.
    + done.
    + apply Hn, length_rev.
    + exists tx', m, ([lm_head lm - 1] ++ removed (-1) (lrem_times count l) value (rev l) (lm_tail lm - 1)). rewrite Et in *. split; [done|]. split; [done|].
      split; [cbn [app]; rewrite zlen_cons; unfold zlen; rewrite length_rev; lia|]. rewrite <-app_assoc. split; [by apply sort_holes|]. intros k. rewrite Hm.
      repeat case_decide; try done; by rewrite elem_of_rev in *.
  - destruct (lrem_scan_ok LP_HEAD value (Z.abs count) l (lrem_times count l) (lm_head lm) [lm_head lm - 1] tx _ Hp) as (tx' & m & -> & Hp' & Hm).
    + intros j x Hj. rewrite lookup_seq_map, znth_lookup by lia. rewrite <-Hj. f_equal. lia.
    + lia.
    + lia.
    + done.
    + by apply Hn.
    + eexists tx', m, _. split; [done|]. split; [done|]. split; [cbn [app]; rewrite zlen_cons; lia|done].
Qed.

Lemma lrem_ok w w1 tx v lm l count value :
  list_stored cfg sess chunkId pk tx v lm l -> SessionCtx_createTransaction sess w = Ret (w1, tx) -> is_u64 (sc_versionEP sess) -> - 2 ^ 31 < count < 2 ^ 31 ->
  let l' := lrem_spec count value l in
  if zlen l' =? zlen l then LRem_run cfg sess lk now w (Ret v) count value = Ret (w1, Ret Command_fmtZero) /\ l' = l
  else exists tx', LRem_run cfg sess lk now w (Ret v) count value = commit_reply cfg sess w1 tx' (Command_fmtLongLong (zlen l - zlen l')) /\
         list_left cfg sess chunkId pk tx' l' (rv_ttl v).
Proof.
  intros Hs Ew Hep Hc l'. pose proof (list_stored_done _ _ _ _ _ _ _ _ Hs) as Hd. destruct Hs as ((_ & Hwf & Hty & Hp) & Hdec & Hne & Et & Hh & Ht).
  unfold LRem_run, txn_access. cbn [meta_or_none]. rewrite bind_Ret. replace (count =? INT32_MIN) with false by (unfold INT32_MIN; lia).
  pose proof (lrem_search_ok tx lm l count value Hp Et Hne Hh Ht Hc) as (tx1 & m & hole & Esc & Hp1 & Hz & Eh & Hm). pose proof (zlen_lrem_places count value l (lm_head lm)) as HzP. fold l' in HzP.
  assert ((if count <? 0 then (LP_TAIL, - count) else (LP_HEAD, count)) = (if count <? 0 then LP_TAIL else LP_HEAD, Z.abs count)) as ->.
  { destruct (Z.ltb_spec count 0); f_equal; lia. }
  rewrite Hdec. cbn [expect_ok]. rewrite bind_Ret, Ew, bind_Ret, Hd, bind_Ret. pose proof (zlen_nonneg l).
  replace (Z.to_nat (u64 (lm_tail lm - lm_head lm))) with (length l) by (rewrite Et, Z.add_simpl_l, wrap_id by (unfold is_u; lia); unfold zlen; lia).
  rewrite (wrap_id 64 (lm_head lm - 1)) by (unfold is_u; lia). rewrite Esc, bind_Ret, zlen_app, zlen_cons, zlen_nil, Hz, HzP. destruct (Z.eqb_spec (zlen l') (zlen l)) as [El|El].
  { replace (zlen l - zlen l' + 1 + (1 + 0) =? 2) with true by lia. split; [done|]. subst l'. rewrite <-(lrem_places_keep count value l (lm_head lm)). apply keep_none.
    destruct (lrem_places count value l (lm_head lm)) as [|x P]; [intros; apply not_elem_of_nil|]. rewrite zlen_cons in HzP. pose proof (zlen_nonneg P). lia. }
  pose proof (zlen_nonneg (lrem_places count value l (lm_head lm))). replace (zlen l - zlen l' + 1 + (1 + 0) =? 2) with false by lia.
  replace (match (if count <? 0 then LP_TAIL else LP_HEAD) with LP_HEAD => hole ++ [lm_tail lm] | LP_TAIL => merge_sort Z.le (hole ++ [lm_tail lm]) end)
    with (lm_head lm - 1 :: lrem_places count value l (lm_head lm) ++ [lm_tail lm]) by (rewrite <-Eh; by destruct (count <? 0)).
  pose proof (lrem_places_ascending count value l (lm_head lm)) as Ha. rewrite <-Et in Ha.
  destruct (lrem_close_ok tx1 m lm l _ Hp1 Et Hh Ht Ha Hm) as (tx2 & lm' & -> & Hp2 & Et2 & Hh2 & Ht2). rewrite lrem_places_keep in Hp2, Et2. fold l' in Hp2, Et2.
  rewrite bind_Ret, zlen_cons, zlen_app, zlen_cons, zlen_nil, HzP. replace (1 + (zlen l - zlen l' + (1 + 0)) - 2) with (zlen l - zlen l') by lia. clearbody l'. destruct l' as [|x l'].
  - rewrite zlen_nil in Et2. replace (lm_head lm' =? lm_tail lm') with true by lia.
    destruct (drop_list cfg sess chunkId pk Hcat Hchunk Hdb Hpk tx2 v now Hp2 Hwf Hty) as (tx' & -> & Hg). rewrite bind_Ret. exists tx'. split; [done|exact Hg].
  - rewrite zlen_cons in Et2. pose proof (zlen_nonneg l'). replace (lm_head lm' =? lm_tail lm') with false by lia.
    destruct (save_list cfg sess chunkId pk Hcat Hchunk Hdb Hpk tx2 (Ret v) lm' (x :: l') now Hp2) as (tx' & -> & Hs & Htl); [done|by rewrite zlen_cons|lia|lia|done|done|].
    rewrite bind_Ret. exists tx'. split; [done|]. by eexists _, _.
Qed.

End Rem.
