(* ===== verification/ListCmd.v ===== *)
(** What the commands of lists (commands/list.cpp) promise. *)

From Stdlib Require Import Strings.Byte ZArith Lia.
From stdpp Require Import base list numbers strings gmap sorting.
From S2P Require Import Prelude Status Varint Strings Record RecordValue RecordMeta ReplLog BinlogSeq Txn Store Replicate Command Elems List ListSpec ListRem.

Local Open Scope Z_scope.

Section Commands.
Context {BM : BuildMode} {T : Type} `{RocksDBLaws T} {HH : RocksDBHealthy T}.
Variable cfg : StoreCfg.
Variable sess : SessionCtx.
Variables (chunkId : Z) (pk : bytes).
Hypothesis Hcat : cfg_isCatalog cfg = false.
Hypothesis Hchunk : is_u32 chunkId /\ chunkId <> CHUNKID_FLUSH.
Hypothesis Hdb : is_u32 (sc_dbId sess).
Hypothesis Hpk : zlen pk < 2 ^ 61.
Hypothesis Hep : is_u64 (sc_versionEP sess).
Variable now : Z.
Variables (w w1 : World (T := T)) (tx : RocksTxn T).
Hypothesis Hw : SessionCtx_createTransaction sess w = Ret (w1, tx).

#[local] Abbreviation lk := (list_key sess chunkId pk).
#[local] Abbreviation is_list := (list_stored cfg sess chunkId pk).
#[local] Abbreviation leaves := (list_left cfg sess chunkId pk).

(** C35: LPUSH, RPUSH, LPUSHX and RPUSHX put the elements at the end they name, creating the list
    where there is none, and answer with its length; LPOP and RPOP take the element of their end
    and delete the list with its last element. The expiry of the list stays. *)
Theorem list_ends_correct rv lm l args pos needExist :
  list_found cfg sess chunkId pk tx rv lm l ->
  (args <> [] -> Forall (fun a => zlen a < 2 ^ 62) args -> zlen args < lm_head lm -> lm_tail lm + zlen args < 2 ^ 63 -> (needExist = true -> l <> []) ->
   exists tx' rv' lm', push_round cfg sess lk now rv args pos needExist w =
       commit_reply cfg sess w1 tx' (Command_fmtLongLong (zlen (pushed pos args l))) /\
     is_list tx' rv' lm' (pushed pos args l) /\ rv_ttl rv' = old_ttl rv) /\
  (forall x l', l = popped pos x l' ->
   exists tx', pop_round cfg sess lk now rv pos w = commit_reply cfg sess w1 tx' (Command_fmtBulk x) /\ leaves tx' l' (old_ttl rv)).
Proof.
  intros Hf. split.
  - intros Hne Ha Hh Ht Hx. destruct (push_ok cfg sess chunkId pk Hcat Hchunk Hdb Hpk tx rv lm l args pos needExist now Hf Hep Hne Ha Hh Ht Hx) as (tx' & rv' & lm' & E & R & Rt & _).
    exists tx', rv', lm'. split; [|done]. unfold push_round. by rewrite Hw, bind_Ret, E.
  - intros x l' El. destruct rv as [v|c msg|]; [|destruct Hf as (_ & -> & _); by destruct pos, l'|done]. cbn [list_found] in Hf. rewrite El in Hf.
    destruct (pop_ok cfg sess chunkId pk Hcat Hchunk Hdb Hpk tx v lm l' x pos now Hf Hep) as (tx' & E & _ & R).
    exists tx'. split; [unfold pop_round; by rewrite Hw, bind_Ret, E|]. destruct l'; [done|]. destruct R as (rv' & lm' & R & Rt & _). by exists rv', lm'.
Qed.

(** C34: LREM removes the first [count] elements with the value, the last ones for a negative count
    and all for zero, moves the rest together, and leaves no record outside the places of the new
    list; without such an element it changes nothing. *)
Theorem lrem_correct v lm l count value :
  is_list tx v lm l -> - 2 ^ 31 < count < 2 ^ 31 ->
  let l' := lrem_spec count value l in
  if zlen l' =? zlen l then LRem_run cfg sess lk now w (Ret v) count value = Ret (w1, Ret Command_fmtZero) /\ l' = l
  else exists tx', LRem_run cfg sess lk now w (Ret v) count value = commit_reply cfg sess w1 tx' (Command_fmtLongLong (zlen l - zlen l')) /\
         leaves tx' l' (rv_ttl v).
Proof. intros Hs Hc. by apply lrem_ok with (lm := lm) (tx := tx). Qed.

(** LINSERT puts the value before or after the first element that is the pivot, moving the
    elements of the shorter side, and answers with the new length; without the pivot it answers
    -1 and changes nothing. *)
Theorem linsert_correct v lm l (before : bool) pivot value :
  is_list tx v lm l -> 1 < lm_head lm -> lm_tail lm + 1 < 2 ^ 63 -> zlen l < 2 ^ 31 - 1 -> zlen value < 2 ^ 62 ->
  match list_find (fun x => x = pivot) l with
  | None => LInsert_run cfg sess lk now w (Ret v) before pivot value = Ret (w1, Ret (Command_fmtLongLong (-1)))
  | Some (i, _) =>
      let p := (if before then i else S i) in
      exists tx' rv' lm', LInsert_run cfg sess lk now w (Ret v) before pivot value = commit_reply cfg sess w1 tx' (Command_fmtLongLong (zlen l + 1)) /\
        is_list tx' rv' lm' (take p l ++ value :: drop p l) /\ rv_ttl rv' = rv_ttl v
  end.
Proof. intros Hs Hh Ht Hl Hv. by apply linsert_ok with (lm := lm) (tx := tx). Qed.

(** LTRIM answers OK when the database holds the elements of the range and no other record of
    the list, in as many transactions as it took; when it deletes fewer than a thousand elements
    it is the one transaction. An empty range deletes the list. *)
Theorem ltrim_correct v lm l start end_ :
  is_list tx v lm l -> sc_replOnly sess = false ->
  (forall w', LTrim_run cfg sess lk now w (Ret v) start end_ = Ret (w', Ret Command_fmtOK) ->
     forall tx', tx_db tx' = w_db w' -> writable tx' -> leaves tx' (trimmed l start end_) (rv_ttl v)) /\
  (zlen l - zlen (trimmed l start end_) < 1000 ->
     exists tx', LTrim_run cfg sess lk now w (Ret v) start end_ = commit_reply cfg sess w1 tx' Command_fmtOK /\
       leaves tx' (trimmed l start end_) (rv_ttl v)).
Proof. intros Hs Hro. by apply ltrim_ok with (lm := lm) (tx := tx). Qed.

(** LLEN, LINDEX and LRANGE answer with the length, the element at a place and the elements of
    a range, places counted from the end when negative; LSET replaces the element of a place and
    refuses the places outside the list. *)
Theorem list_index_correct v lm l idx start end_ value memLimit :
  is_list tx v lm l -> is_s64 idx -> zlen value < 2 ^ 62 -> (forall n, memLimit n = Ret tt) ->
  LLen_run (Ret v) = Ret (Command_fmtLongLong (zlen l)) /\
  LRange_run cfg sess lk w (Ret v) memLimit start end_ =
    Ret (w1, match clip_range (zlen l) start end_ with
             | None => Command_fmtZeroBulkLen
             | Some (s, e) => Command_fmtMultiBulkLen [] (e - s + 1) ++ concat (map Command_fmtBulk (ztake (e - s + 1) (zdrop s l)))
             end) /\
  match znth l (list_place l idx) with
  | None => LIndex_run cfg sess lk w (Ret v) idx = Ret (w1, Command_fmtNull) /\ LSet_run cfg sess lk now w (Ret v) idx value = Throw ERR_OUT_OF_RANGE []
  | Some x =>
      LIndex_run cfg sess lk w (Ret v) idx = Ret (w1, Command_fmtBulk x) /\
      exists realIndex tx' rv', LSet_run cfg sess lk now w (Ret v) idx value = retry RETRY_CNT (set_round cfg sess lk now (Ret v) lm realIndex value) w /\
        set_round cfg sess lk now (Ret v) lm realIndex value w = commit_reply cfg sess w1 tx' Command_fmtOK /\
        is_list tx' rv' lm (zset l (list_place l idx) value) /\ rv_ttl rv' = rv_ttl v
  end.
Proof.
  intros Hs Hi Hv Hm. pose proof (lindex_ok cfg sess chunkId pk w w1 tx v lm l idx Hs Hw Hi) as Ei. pose proof Hs as (_ & Hdec & _ & Et & Hh & Ht).
  split; [|split; [by apply lrange_ok with (lm := lm) (tx := tx)|]].
  { unfold LLen_run. cbn [meta_or_none]. rewrite bind_Ret, Hdec, bind_Ret. pose proof (zlen_nonneg l). by rewrite (fmt_length_ok lm (zlen l)) by (done || lia). }
  pose proof (mapped_index l lm idx Et Hh Ht Hi) as Hmi. cbn zeta in Hmi. unfold LSet_run. cbn [meta_or_none]. rewrite bind_Ret, Hdec, bind_Ret.
  replace (if idx <? 0 then u64 (lm_tail lm + idx) else u64 (lm_head lm + idx)) with (u64 ((if 0 <=? idx then lm_head lm else lm_tail lm) + idx))
    by (destruct (Z.ltb_spec idx 0), (Z.leb_spec 0 idx); done || lia).
  destruct (_ || _); [by rewrite Hmi in *|]. destruct Hmi as [-> Hr]. destruct (znth_some l (list_place l idx) Hr) as [x Ex]. rewrite Ex in *. split; [done|].
  destruct (lset_round_ok cfg sess chunkId pk Hcat Hchunk Hdb Hpk w w1 tx v lm l (list_place l idx) value now Hs Hw Hr Hv Hep) as (tx' & rv' & R).
  by exists (lm_head lm + list_place l idx), tx', rv'.
Qed.

End Commands.

(** * RPOPLPUSH *)

Section Move.
Context {BM : BuildMode} {T : Type} `{RocksDBLaws T} {HH : RocksDBHealthy T}.
Variable cfg : StoreCfg.
Variable sess : SessionCtx.
Variables (chunk1 chunk2 : Z) (pk1 pk2 : bytes).
Hypothesis Hcat : cfg_isCatalog cfg = false.
Hypothesis Hchunk1 : is_u32 chunk1 /\ chunk1 <> CHUNKID_FLUSH.
Hypothesis Hchunk2 : is_u32 chunk2 /\ chunk2 <> CHUNKID_FLUSH.
Hypothesis Hdb : is_u32 (sc_dbId sess).
Hypothesis Hpk1 : zlen pk1 < 2 ^ 61.
Hypothesis Hpk2 : zlen pk2 < 2 ^ 61.
Hypothesis Hep : is_u64 (sc_versionEP sess).
Variable now : Z.
Variables (w w1 : World (T := T)) (tx : RocksTxn T).
Hypothesis Hw : SessionCtx_createTransaction sess w = Ret (w1, tx).

(** The commit of everything, whose status is not looked at. *)
Definition commit_blind (tx' : RocksTxn T) (x : bytes) : M (World * M bytes) :=
  '(w', _) ← SessionCtx_commitAll cfg sess w1 tx'; Ret (w', Ret (Command_fmtBulk x)).

Lemma untouched_same_list pk pk' tx1 tx' : untouched pk tx1 tx' -> pk' <> pk -> writable tx' -> same_list pk' tx1 tx'.
Proof. intros U Hn Hw'. split; [done|]. intros k Hk E Ht. apply U; [done|by rewrite E|done]. Qed.

(** RPOPLPUSH moves the last element of one list to the front of another, in one transaction:
    the first list keeps the rest, the second begins with the element, and both keep their expiry. *)
Theorem rpoplpush_moves v lm l x rv2 lm2 l2 :
  pk1 <> pk2 -> list_stored cfg sess chunk1 pk1 tx v lm (l ++ [x]) -> list_found cfg sess chunk2 pk2 tx rv2 lm2 l2 ->
  zlen x < 2 ^ 62 -> 1 < lm_head lm2 -> lm_tail lm2 + 1 < 2 ^ 63 ->
  exists tx' rv' lm', RPopLPush_run cfg sess now (list_key sess chunk1 pk1) (list_key sess chunk2 pk2) w (Ret v) rv2 = commit_blind tx' x /\
    list_left cfg sess chunk1 pk1 tx' l (rv_ttl v) /\ list_stored cfg sess chunk2 pk2 tx' rv' lm' (x :: l2) /\ rv_ttl rv' = old_ttl rv2.
Proof.
  intros Hn Hs Hf Hx Hh Ht. destruct (pop_ok cfg sess chunk1 pk1 Hcat Hchunk1 Hdb Hpk1 tx v lm l x LP_TAIL now Hs Hep) as (tx1 & E1 & U1 & L1).
  assert (list_left cfg sess chunk1 pk1 tx1 l (rv_ttl v)) as Hl by (destruct l; [done|]; destruct L1 as (rv' & lm' & ? & ? & _); by exists rv', lm').
  pose proof (list_left_writable _ _ _ _ _ _ _ Hl) as Hw1.
  assert (list_found cfg sess chunk2 pk2 tx1 rv2 lm2 l2) as Hf1.
  { apply (list_found_same cfg sess chunk2 pk2 Hchunk2 Hdb Hpk2 tx); [|done]. by apply (untouched_same_list pk1). }
  destruct (push_ok cfg sess chunk2 pk2 Hcat Hchunk2 Hdb Hpk2 tx1 rv2 lm2 l2 [x] LP_HEAD false now Hf1 Hep) as (tx' & rv' & lm' & E2 & L2 & Rt & U2);
    try done; [by constructor|]. exists tx', rv', lm'. split; [|split; [|done]].
  - unfold RPopLPush_run. cbn [meta_or_none]. rewrite bind_Ret, Hw, bind_Ret, E1.
    cbn [list_key RecordKey_new rk_pk]. rewrite bool_decide_false by done. fold (list_key sess chunk2 pk2). by rewrite E2, bind_Ret.
  - apply (list_left_same cfg sess chunk1 pk1 Hchunk1 Hdb Hpk1 tx1); [|done]. apply (untouched_same_list pk2); [done|done|apply L2].
Qed.

(** RPOPLPUSH of a list onto itself turns it by one place. The rest keeps the expiry, but a
    list of one element is deleted and made again on the way, and comes back without its expiry. *)
Theorem rpoplpush_rotates v lm l x :
  list_stored cfg sess chunk1 pk1 tx v lm (l ++ [x]) -> zlen x < 2 ^ 62 -> 1 < lm_head lm ->
  exists tx' rv' lm', RPopLPush_run cfg sess now (list_key sess chunk1 pk1) (list_key sess chunk1 pk1) w (Ret v) (Ret v) = commit_blind tx' x /\
    list_stored cfg sess chunk1 pk1 tx' rv' lm' (x :: l) /\ rv_ttl rv' = match l with [] => 0 | _ => rv_ttl v end.
Proof.
  intros Hs Hx Hh. destruct (pop_ok cfg sess chunk1 pk1 Hcat Hchunk1 Hdb Hpk1 tx v lm l x LP_TAIL now Hs Hep) as (tx1 & E1 & _ & L1).
  assert (exists rv2 lm2, RocksKVStore_getKV cfg (list_key sess chunk1 pk1) tx1 = rv2 /\ list_found cfg sess chunk1 pk1 tx1 rv2 lm2 l /\
    1 < lm_head lm2 /\ lm_tail lm2 + 1 < 2 ^ 63 /\ old_ttl rv2 = match l with [] => 0 | _ => rv_ttl v end) as (rv2 & lm2 & Eg & Hf & Hh2 & Ht2 & Et2).
  { destruct l as [|y l].
    - destruct L1 as [[msg Hg] He]. exists (Throw ERR_NOTFOUND msg), (mkListMeta INITSEQ INITSEQ). split; [done|]. split; [by split; [left|]|done].
    - destruct L1 as (rv' & lm' & Hs' & Et & Eh). exists (Ret rv'), lm'. pose proof Hs' as ((Hg & _) & _ & _ & Etl & _). split; [done|]. split; [done|].
      destruct Hs as (_ & _ & _ & Etl0 & _ & Hb). rewrite zlen_app in Etl0. change (zlen [x]) with 1 in Etl0. cbn [old_ttl]. split_and!; lia || done. }
  destruct (push_ok cfg sess chunk1 pk1 Hcat Hchunk1 Hdb Hpk1 tx1 rv2 lm2 l [x] LP_HEAD false now Hf Hep) as (tx' & rv' & lm' & E2 & L2 & Rt & _);
    try done; [by constructor|]. exists tx', rv', lm'. split; [|split; [done|by rewrite Rt]].
  unfold RPopLPush_run. cbn [meta_or_none]. rewrite bind_Ret, Hw, bind_Ret, E1. cbv zeta. rewrite bool_decide_true by done. by rewrite Eg, E2, bind_Ret.
Qed.

End Move.

Section Blind.
Context {BM : BuildMode} {T : Type} `{RocksDB T}.
Variable cfg : StoreCfg.
Variable sess : SessionCtx.

(** A commit that returns an error leaves the database as it was. *)
Lemma commitAll_failed (w w' : World (T := T)) tx c msg : SessionCtx_commitAll cfg sess w tx = Ret (w', Throw c msg) -> w_db w' = w_db w.
Proof.
  unfold SessionCtx_commitAll, RocksTxn_commit. intros ([[ks db] r] & E & E')%bind_Ret_inv. injection E' as <- Er. cbn [w_db].
  apply bind_Ret_inv in E as (_ & _ & E). apply bind_Ret_inv in E as ([[[ks1 tx1] id] e] & _ & E).
  apply bind_Ret_inv in E as ([[db1 id1] r1] & Eb & E). apply bind_Ret_inv in E as (_ & _ & E). apply bind_Ret_inv in E as (ks2 & _ & E).
  injection E as _ -> ->. destruct e as [u|c1 m1|]; [|by injection Eb as <- _ _|done].
  destruct (rdb_commit (tx_db tx1)); try by (injection Eb as <- _ _). { injection Eb as _ _ <-. done. }
  all: by apply bind_Ret_inv in Eb as (e & _ & [= <- _ _]).
Qed.

(** RPOPLPUSH answers with the element although the commit failed, and the database has not
    changed: neither the error nor the conflict reaches the client. *)
Theorem rpoplpush_unacknowledged mk1 mk2 now (w w1 w' : World (T := T)) tx tx1 tx2 v rv2 x n c msg :
  SessionCtx_createTransaction sess w = Ret (w1, tx) -> genericPop cfg sess mk1 now tx (Ret v) LP_TAIL = Ret (tx1, x) ->
  genericPush cfg sess mk2 now tx1 (if bool_decide (rk_pk mk1 = rk_pk mk2) then RocksKVStore_getKV cfg mk1 tx1 else rv2) [x] LP_HEAD false = Ret (tx2, n) ->
  SessionCtx_commitAll cfg sess w1 tx2 = Ret (w', Throw c msg) ->
  RPopLPush_run cfg sess now mk1 mk2 w (Ret v) rv2 = Ret (w', Ret (Command_fmtBulk x)) /\ w_db w' = w_db w1.
Proof.
  intros Ew Ep Eu Ec. split; [|by apply (commitAll_failed _ _ _ _ _ Ec)]. unfold RPopLPush_run. cbn [meta_or_none]. rewrite bind_Ret, Ew, bind_Ret, Ep.
  cbv zeta. by rewrite Eu, bind_Ret, Ec, bind_Ret.
Qed.

End Blind.

(** * Lists over the database of Replicate.v *)

#[local] Instance list_build : BuildMode := true.

Definition demo_client : SessionCtx := mkSess 0 7 false (lit "rpush").

#[local] Abbreviation none := (Throw ERR_NOTFOUND []).

(** A transaction on an empty database. *)
Definition empty_txn : RocksTxn MemDB := RocksTxn_new 1 false ∅.

Lemma empty_places pk : zlen pk < 2 ^ 61 -> places demo_cfg demo_client 5 pk empty_txn ∅.
Proof.
  intros Hpk. split; [done|]. intros i Hi. rewrite lookup_empty. apply getKV_none.
  - apply (family_data (KeyFamily := ele_family demo_client 5 pk ltac:(done) ltac:(done) Hpk)). done.
  - unfold raw_record, empty_txn. destruct (RecordKey_encode _); [|done..]. by rewrite mem_read.
Qed.

Definition demo_elems : list bytes := [lit "a"; lit "b"; lit "c"; lit "b"].

(** The list q of database 0 in chunk 5, and the key p that is not there. *)
Definition demo_q : RecordKey := list_key demo_client 5 (lit "q").

Definition demo_p : RecordKey := list_key demo_client 5 (lit "p").

Definition demo_lt : RocksTxn MemDB :=
  match genericPush demo_cfg demo_client demo_q 0 empty_txn none demo_elems LP_TAIL false with Ret (tx, _) => tx | _ => empty_txn end.

Definition demo_lv : RecordValue :=
  match RocksKVStore_getKV demo_cfg demo_q demo_lt with Ret rv => rv | _ => RecordValue_new [] RT_KV 0 0 0 0 0 end.

Definition demo_lm : ListMetaValue := mkListMeta INITSEQ (INITSEQ + 4).

Lemma demo_none tx pk : places demo_cfg demo_client 5 pk tx ∅ -> list_found demo_cfg demo_client 5 pk tx none (mkListMeta INITSEQ INITSEQ) [].
Proof. intros Hp. split; [by left|]. split; [done|]. split; [done|exact Hp]. Qed.

Lemma demo_chunk : is_u32 5 /\ 5 <> CHUNKID_FLUSH.
Proof. done. Qed.

Lemma demo_db : is_u32 (sc_dbId demo_client).
Proof. done. Qed.

Lemma demo_pk : 1 < 2 ^ 61.
Proof. done. Qed.

Lemma demo_sizes : Forall (fun a => zlen a < 2 ^ 62) demo_elems.
Proof. repeat constructor. Qed.

Lemma demo_lists :
  list_stored demo_cfg demo_client 5 (lit "q") demo_lt demo_lv demo_lm demo_elems /\
  list_found demo_cfg demo_client 5 (lit "p") demo_lt none (mkListMeta INITSEQ INITSEQ) [].
Proof.
  destruct (push_ok demo_cfg demo_client 5 (lit "q") eq_refl demo_chunk demo_db demo_pk empty_txn none (mkListMeta INITSEQ INITSEQ) [] demo_elems LP_TAIL
    false 0) as (tx' & rv & lm & E & Hs & _ & U); [by apply demo_none, empty_places|done|done|exact demo_sizes|done|done|done|].
  cbn [pushed app] in Hs. assert (demo_lt = tx') as Et by (unfold demo_lt, demo_q; by rewrite E). pose proof Hs as ((Eg & _) & Ed & _).
  assert (demo_lv = rv) as Er by (unfold demo_lv, demo_q; rewrite Et; by rewrite Eg).
  assert (ListMetaValue_decode (rv_value demo_lv) = Ret demo_lm) as Em by (by vm_compute). rewrite Er in Em. rewrite Em in Ed. injection Ed as <-.
  rewrite Et, Er. split; [exact Hs|]. apply demo_none.
  assert (same_list (lit "p") empty_txn tx') as Hsm by (destruct Hs as ((_ & _ & _ & [Hwr _]) & _); by apply (untouched_same_list (lit "q") (lit "p") empty_txn tx')).
  exact (places_same demo_cfg demo_client 5 (lit "p") demo_chunk demo_db demo_pk empty_txn tx' ∅ Hsm (empty_places (lit "p") demo_pk)).
Qed.

(** A session that has this transaction open. *)
Definition demo_lw : World := mkWorld (sy_store demo_master) ∅ (Some demo_lt).

Lemma demo_open : SessionCtx_createTransaction demo_client demo_lw = Ret (demo_lw, demo_lt).
Proof. reflexivity. Qed.

Lemma demo_ep : is_u64 (sc_versionEP demo_client).
Proof. done. Qed.

Lemma list_ends_correct_witness :
  exists tx', pop_round demo_cfg demo_client demo_q 0 (Ret demo_lv) LP_TAIL demo_lw = commit_reply demo_cfg demo_client demo_lw tx' (Command_fmtBulk (lit "b")) /\
    list_left demo_cfg demo_client 5 (lit "q") tx' [lit "a"; lit "b"; lit "c"] 0.
Proof.
  pose proof (proj1 demo_lists) as Hl.
  exact (proj2 (list_ends_correct demo_cfg demo_client 5 (lit "q") eq_refl demo_chunk demo_db demo_pk demo_ep 0 demo_lw demo_lw demo_lt demo_open
    (Ret demo_lv) demo_lm demo_elems [] LP_TAIL false Hl) (lit "b") [lit "a"; lit "b"; lit "c"] eq_refl).
Defined.

Lemma lrem_correct_witness :
  exists tx', LRem_run demo_cfg demo_client demo_q 0 demo_lw (Ret demo_lv) (-1) (lit "b") =
      commit_reply demo_cfg demo_client demo_lw tx' (Command_fmtLongLong 1) /\
    list_left demo_cfg demo_client 5 (lit "q") tx' [lit "a"; lit "b"; lit "c"] 0.
Proof.
  pose proof (proj1 demo_lists) as Hl.
  exact (lrem_correct demo_cfg demo_client 5 (lit "q") eq_refl demo_chunk demo_db demo_pk demo_ep 0 demo_lw demo_lw demo_lt demo_open
    demo_lv demo_lm demo_elems (-1) (lit "b") Hl (conj eq_refl eq_refl)).
Defined.

Lemma linsert_correct_witness :
  exists tx' rv' lm', LInsert_run demo_cfg demo_client demo_q 0 demo_lw (Ret demo_lv) false (lit "b") (lit "x") =
      commit_reply demo_cfg demo_client demo_lw tx' (Command_fmtLongLong 5) /\
    list_stored demo_cfg demo_client 5 (lit "q") tx' rv' lm' [lit "a"; lit "b"; lit "x"; lit "c"; lit "b"] /\ rv_ttl rv' = 0.
Proof.
  pose proof (proj1 demo_lists) as Hl.
  exact (linsert_correct demo_cfg demo_client 5 (lit "q") eq_refl demo_chunk demo_db demo_pk demo_ep 0 demo_lw demo_lw demo_lt demo_open
    demo_lv demo_lm demo_elems false (lit "b") (lit "x") Hl eq_refl eq_refl eq_refl eq_refl).
Defined.

Lemma ltrim_correct_witness :
  exists tx', LTrim_run demo_cfg demo_client demo_q 0 demo_lw (Ret demo_lv) 1 (-2) = commit_reply demo_cfg demo_client demo_lw tx' Command_fmtOK /\
    list_left demo_cfg demo_client 5 (lit "q") tx' [lit "b"; lit "c"] 0.
Proof.
  pose proof (proj1 demo_lists) as Hl.
  exact (proj2 (ltrim_correct demo_cfg demo_client 5 (lit "q") eq_refl demo_chunk demo_db demo_pk demo_ep 0 demo_lw demo_lw demo_lt demo_open
    demo_lv demo_lm demo_elems 1 (-2) Hl eq_refl) eq_refl).
Defined.

Lemma list_index_correct_witness :
  LIndex_run demo_cfg demo_client demo_q demo_lw (Ret demo_lv) (-2) = Ret (demo_lw, Command_fmtBulk (lit "c")).
Proof.
  pose proof (proj1 demo_lists) as Hl. assert (is_s64 (-2)) as Hi by done. assert (forall n : Z, Ret tt = Ret tt) as Hm by done.
  exact (proj1 (proj2 (proj2 (list_index_correct demo_cfg demo_client 5 (lit "q") eq_refl demo_chunk demo_db demo_pk demo_ep 0 demo_lw demo_lw demo_lt demo_open
    demo_lv demo_lm demo_elems (-2) 0 (-1) (lit "x") (fun _ => Ret tt) Hl Hi eq_refl Hm)))).
Defined.

Lemma rpoplpush_moves_witness :
  exists tx' rv' lm', RPopLPush_run demo_cfg demo_client 0 demo_q demo_p demo_lw (Ret demo_lv) none =
      commit_blind demo_cfg demo_client demo_lw tx' (lit "b") /\
    list_left demo_cfg demo_client 5 (lit "q") tx' [lit "a"; lit "b"; lit "c"] 0 /\
    list_stored demo_cfg demo_client 5 (lit "p") tx' rv' lm' [lit "b"] /\ rv_ttl rv' = 0.
Proof.
  destruct demo_lists as [Hl Hp]. assert (lit "q" <> lit "p") as Hn by discriminate.
  exact (rpoplpush_moves demo_cfg demo_client 5 5 (lit "q") (lit "p") eq_refl demo_chunk demo_chunk demo_db demo_pk demo_pk demo_ep 0 demo_lw demo_lw demo_lt
    demo_open demo_lv demo_lm [lit "a"; lit "b"; lit "c"] (lit "b") none (mkListMeta INITSEQ INITSEQ) [] Hn Hl Hp eq_refl eq_refl eq_refl).
Defined.

Lemma rpoplpush_rotates_witness :
  exists tx' rv' lm', RPopLPush_run demo_cfg demo_client 0 demo_q demo_q demo_lw (Ret demo_lv) (Ret demo_lv) =
      commit_blind demo_cfg demo_client demo_lw tx' (lit "b") /\
    list_stored demo_cfg demo_client 5 (lit "q") tx' rv' lm' [lit "b"; lit "a"; lit "b"; lit "c"] /\ rv_ttl rv' = 0.
Proof.
  destruct demo_lists as [Hl _].
  exact (rpoplpush_rotates demo_cfg demo_client 5 (lit "q") eq_refl demo_chunk demo_db demo_pk demo_ep 0 demo_lw demo_lw demo_lt
    demo_open demo_lv demo_lm [lit "a"; lit "b"; lit "c"] (lit "b") Hl eq_refl eq_refl).
Defined.

(** RPOPLPUSH of q onto itself where every commit meets a conflict: the pop, the push and the
    commit. *)
Definition busy_pop : M (RocksTxn MemDB * bytes) :=
  @genericPop list_build MemDB busy_db demo_cfg demo_client demo_q 0 demo_lt (Ret demo_lv) LP_TAIL.

Definition busy_push (tx : RocksTxn MemDB) (x : bytes) : M (RocksTxn MemDB * bytes) :=
  @genericPush list_build MemDB busy_db demo_cfg demo_client demo_q 0 tx (@RocksKVStore_getKV list_build MemDB busy_db demo_cfg demo_q tx) [x] LP_HEAD false.

Definition busy_commit (tx : RocksTxn MemDB) : M (World * M unit) :=
  @SessionCtx_commitAll list_build MemDB busy_db demo_cfg demo_client demo_lw tx.

Definition busy_fails : bool :=
  match busy_pop with
  | Ret (tx1, x) =>
      match busy_push tx1 x with
      | Ret (tx2, _) => match busy_commit tx2 with Ret (_, Throw _ _) => bool_decide (x = lit "b") | _ => false end
      | _ => false
      end
  | _ => false
  end.

Lemma rpoplpush_unacknowledged_witness :
  exists w', @RPopLPush_run list_build MemDB busy_db demo_cfg demo_client 0 demo_q demo_q demo_lw (Ret demo_lv) (Ret demo_lv) =
    Ret (w', Ret (Command_fmtBulk (lit "b"))) /\ w_db w' = w_db demo_lw.
Proof.
  assert (busy_fails = true) as Hb by (vm_compute; reflexivity). unfold busy_fails in Hb.
  destruct busy_pop as [[tx1 x]| |] eqn:E1; [|discriminate Hb..]. destruct (busy_push tx1 x) as [[tx2 n]| |] eqn:E2; [|discriminate Hb..].
  destruct (busy_commit tx2) as [[w' [|c msg|]]| |] eqn:E3; try discriminate Hb. apply bool_decide_eq_true in Hb. rewrite Hb in *. exists w'.
  exact (@rpoplpush_unacknowledged list_build MemDB busy_db demo_cfg demo_client demo_q demo_q 0 demo_lw demo_lw w' demo_lt tx1 tx2
    demo_lv (Ret demo_lv) (lit "b") n c msg demo_open E1 E2 E3).
Defined.
