(* ===== verification/Hash.v ===== *)
(** The commands of hashes (commands/hash.cpp): a hash is a meta record with the number of its
    fields and a record for every field, under the name of the field. The arguments are those
    behind the key. *)

From Stdlib Require Import Strings.Byte ZArith Lia.
From stdpp Require Import base list numbers strings gmap.
From S2P Require Import Prelude Status Varint Strings Number Record RecordValue RecordMeta ReplLog BinlogSeq Txn Store Cursor Command Keys.

Local Open Scope Z_scope.

(** Signed addition, undefined when it overflows. *)
Definition add_s64 (a b : Z) : M Z := if (LLONG_MIN <=? a + b) && (a + b <=? LLONG_MAX) then Ret (a + b) else Crash CUndefined.

(** The arguments in pairs and in triples. *)
Fixpoint pairs_of (args : list bytes) : list (bytes * bytes) :=
  match args with
  | k :: v :: rest => (k, v) :: pairs_of rest
  | _ => []
  end.

Fixpoint triples_of (args : list bytes) : list (bytes * (bytes * bytes)) :=
  match args with
  | k :: op :: v :: rest => (k, (op, v)) :: triples_of rest
  | _ => []
  end.

(** [std::map] with string keys: the entries in order, an assignment replaces the entry of its key. *)
Fixpoint smap_set {A} (k : bytes) (a : A) (l : list (bytes * A)) : list (bytes * A) :=
  match l with
  | [] => [(k, a)]
  | (k', a') :: l' =>
      if bool_decide (k = k') then (k, a) :: l'
      else if bytes_lt k k' then (k, a) :: l else (k', a') :: smap_set k a l'
  end.

(** A reply of bulk strings; [memLimit] is the check of the memory that the command has used. *)
Fixpoint fmt_bulks (memLimit : Z -> M unit) (used : Z) (rows : list (list bytes)) (ss : bytes) : M bytes :=
  match rows with
  | [] => Ret ss
  | row :: rows' =>
      let used := used + zlen (concat row) in
      _ ← memLimit used;
      fmt_bulks memLimit used rows' (ss ++ concat (map Command_fmtBulk row))
  end.

Section Hash.
Context {BM : BuildMode} {T : Type} `{RocksIter T}.
Variable cfg : StoreCfg.
Variable sess : SessionCtx.
Variable mk : RecordKey.
Variable now : Z.
(** [expireKeyIfNeeded] of the key. *)
Variable readMeta : World (T := T) -> M (World (T := T) * M RecordValue).
Variable memLimit : Z -> M unit.

#[local] Abbreviation World := (World (T := T)).

Definition field_key (sk : bytes) : RecordKey := RecordKey_new (rk_chunkId mk) (rk_dbId mk) RT_HASH_ELE (rk_pk mk) sk 0.

Definition field_record (v : bytes) : RecordValue := RecordValue_new v RT_HASH_ELE MAXU64 0 (-1) 0 MAXU64.

(** The meta record that replaces [rv]. *)
Definition hash_record (rv : M RecordValue) (hm : HashMetaValue) : RecordValue :=
  RecordValue_update (HashMetaValue_encode hm) RT_HASH_META (sc_versionEP sess) (old_ttl rv) rv.

Definition hash_meta (rv : M RecordValue) : M HashMetaValue :=
  match rv with
  | Ret v => HashMetaValue_decode (rv_value v)
  | _ => Ret (mkHashMeta 0)
  end.

(** ** Reading *)

Definition HLen_run (w : World) : M (World * M bytes) :=
  '(w, rv) ← readMeta w;
  or_return w (meta_or_none rv) (fun m =>
  match m with
  | None => Ret (w, Ret Command_fmtZero)
  | Some v => or_return w (HashMetaValue_decode (rv_value v)) (fun hm => Ret (w, Ret (Command_fmtLongLong (s64 (hm_count hm)))))
  end).

Definition HExists_run (subkey : bytes) (w : World) : M (World * M bytes) :=
  '(w, rv) ← readMeta w;
  or_return w (meta_or_none rv) (fun m =>
  match m with
  | None => Ret (w, Ret Command_fmtZero)
  | Some _ =>
      '(w, tx) ← SessionCtx_createTransaction sess w;
      _ ← txn_access tx;
      or_return w (find_record (RocksKVStore_getKV cfg (field_key subkey) tx)) (fun o =>
      Ret (w, Ret (match o with Some _ => Command_fmtOne | None => Command_fmtZero end)))
  end).

(** HGETALL, HKEYS and HVALS: the records of the fields. *)
Definition HAll_getRecords (w : World) : M (World * M (list (RecordKey * RecordValue))) :=
  '(w, rv) ← readMeta w;
  or_return w (meta_or_none rv) (fun m =>
  match m with
  | None => Ret (w, Ret [])
  | Some _ =>
      '(w, tx) ← SessionCtx_createTransaction sess w;
      _ ← txn_access tx;
      or_return w (prefix ← RecordKey_prefixPk (field_key []); prefix_records memLimit (no_limit tx) prefix prefix [] tx) (fun rcds =>
      Ret (w, Ret rcds))
  end).

(** The reply with [row] of every record. *)
Definition hall_reply (each : Z) (row : RecordKey * RecordValue -> list bytes) (w : World) : M (World * M bytes) :=
  '(w, rcds) ← HAll_getRecords w;
  or_return w rcds (fun rcds =>
  or_return w (fmt_bulks memLimit (foldr (fun r n => record_memory r + n) 0 rcds) (map row rcds) (Command_fmtMultiBulkLen [] (zlen rcds * each))) (fun ss =>
  Ret (w, Ret ss))).

Definition HGetAll_run : World -> M (World * M bytes) := hall_reply 2 (fun r => [rk_sk (fst r); rv_value (snd r)]).
Definition HKeys_run : World -> M (World * M bytes) := hall_reply 1 (fun r => [rk_sk (fst r)]).
Definition HVals_run : World -> M (World * M bytes) := hall_reply 1 (fun r => [rv_value (snd r)]).

Definition HGetRecord_getRecord (subkey : bytes) (w : World) : M (World * M RecordValue) :=
  '(w, rv) ← readMeta w;
  or_return w rv (fun _ =>
  '(w, tx) ← SessionCtx_createTransaction sess w;
  _ ← txn_access tx;
  Ret (w, RocksKVStore_getKV cfg (field_key subkey) tx)).

Definition HGet_run (subkey : bytes) (w : World) : M (World * M bytes) :=
  '(w, ercd) ← HGetRecord_getRecord subkey w;
  or_return w (meta_or_none ercd) (fun o =>
  Ret (w, Ret (match o with None => Command_fmtNull | Some v => Command_fmtBulk (rv_value v) end))).

Definition HStrlen_run (subkey : bytes) (w : World) : M (World * M bytes) :=
  '(w, ercd) ← HGetRecord_getRecord subkey w;
  or_return w (meta_or_none ercd) (fun o =>
  Ret (w, Ret (match o with None => Command_fmtZero | Some v => Command_fmtLongLong (s64 (zlen (rv_value v))) end))).

(** HMGET and HMGETVSN. *)
Fixpoint hmget_loop (args : list bytes) (tx : RocksTxn T) (used : Z) (ss : bytes) : M bytes :=
  match args with
  | [] => Ret ss
  | a :: args' =>
      o ← find_record (RocksKVStore_getKV cfg (field_key a) tx);
      match o with
      | None => hmget_loop args' tx used (ss ++ Command_fmtNull)
      | Some v =>
          let used := used + zlen (rv_value v) in
          _ ← memLimit used;
          hmget_loop args' tx used (ss ++ Command_fmtBulk (rv_value v))
      end
  end.

Definition HMGet_run (returnVsn : bool) (args : list bytes) (w : World) : M (World * M bytes) :=
  let len := Command_fmtMultiBulkLen [] (zlen args + (if returnVsn then 1 else 0)) in
  '(w, rv) ← readMeta w;
  or_return w (meta_or_none rv) (fun m =>
  match m with
  | None => Ret (w, Ret (len ++ (if returnVsn then Command_fmtNull else []) ++ concat (map (fun _ => Command_fmtNull) args)))
  | Some v =>
      '(w, tx) ← SessionCtx_createTransaction sess w;
      _ ← txn_access tx;
      or_return w (hmget_loop args tx 0 (len ++ (if returnVsn then Command_fmtBulk (to_string (rv_cas v)) else []))) (fun ss => Ret (w, Ret ss))
  end).

(** ** Writing *)

(** HINCRBY. *)
Definition hincr_body (rv : M RecordValue) (sk : bytes) (inc : Z) (tx : RocksTxn T) : M (RocksTxn T * Z) :=
  _ ← meta_or_none rv;
  hm ← hash_meta rv;
  _ ← txn_access tx;
  o ← find_record (RocksKVStore_getKV cfg (field_key sk) tx);
  '(nowVal, hm) ←
    match o with
    | Some v =>
        match stoll (rv_value v) with
        | Ret n => Ret (n, hm)
        | Throw _ _ => Throw ERR_DECODE (lit "hash value is not an integer ")
        | Crash c => Crash c
        end
    | None => Ret (0, mkHashMeta (u64 (hm_count hm + 1)))
    end;
  if (inc <? 0) && (nowVal <? 0) && (inc <? LLONG_MIN - nowVal) || (0 <? inc) && (0 <? nowVal) && (LLONG_MAX - nowVal <? inc)
  then Throw ERR_OVERFLOW (lit "increment or decrement would overflow") else
  let nowVal := nowVal + inc in
  tx ← RocksKVStore_setKV cfg mk (hash_record rv hm) tx now;
  tx ← RocksKVStore_setKV cfg (field_key sk) (field_record (to_string nowVal)) tx now;
  Ret (tx, nowVal).

Definition hincrGeneric (rv : M RecordValue) (sk : bytes) (inc : Z) (w : World) : M (World * M bytes) :=
  '(w, tx) ← SessionCtx_createTransaction sess w;
  or_return w (hincr_body rv sk inc tx) (fun '(tx, nowVal) =>
  commit_reply cfg sess w tx (Command_fmtLongLong nowVal)).

Definition HIncrBy_run (subkey val : bytes) (w : World) : M (World * M bytes) :=
  match string2ll val with
  | None => Ret (w, Throw ERR_INTERGER [])
  | Some inc =>
      '(w, rv) ← readMeta w;
      or_return w (meta_or_none rv) (fun _ =>
      retry RETRY_CNT (hincrGeneric rv subkey inc) w)
  end.

(** HSET and HMSET. *)
Fixpoint hmset_loop (rcds : list (bytes * bytes)) (inserted : Z) (tx : RocksTxn T) : M (RocksTxn T * Z) :=
  match rcds with
  | [] => Ret (tx, inserted)
  | (k, v) :: rest =>
      o ← find_record (RocksKVStore_getKV cfg (field_key k) tx);
      let inserted := match o with Some _ => inserted | None => u32 (inserted + 1) end in
      tx ← RocksKVStore_setKV cfg (field_key k) (field_record v) tx now;
      hmset_loop rest inserted tx
  end.

Definition hmset_body (rv : M RecordValue) (rcds : list (bytes * bytes)) (tx : RocksTxn T) : M (RocksTxn T * Z) :=
  hm ← hash_meta rv;
  _ ← txn_access tx;
  '(tx, inserted) ← hmset_loop rcds 0 tx;
  let hm := mkHashMeta (u64 (hm_count hm + inserted)) in
  tx ← RocksKVStore_setKV cfg mk (RecordValue_setCas (hash_record rv hm) (-1)) tx now;
  Ret (tx, inserted).

Definition hmsetGeneric (hmset : bool) (rv : M RecordValue) (rcds : list (bytes * bytes)) (w : World) : M (World * M bytes) :=
  '(w, tx) ← SessionCtx_createTransaction sess w;
  or_return w (hmset_body rv rcds tx) (fun '(tx, inserted) =>
  commit_reply cfg sess w tx (if hmset then Command_fmtOK else Command_fmtLongLong inserted)).

Definition HMSet_run (hmset : bool) (args : list bytes) (w : World) : M (World * M bytes) :=
  if negb (zlen args mod 2 =? 0) then Ret (w, Throw ERR_WRONG_ARGS_SIZE []) else
  '(w, rv) ← readMeta w;
  or_return w (meta_or_none rv) (fun _ =>
  retry RETRY_CNT (hmsetGeneric hmset rv (pairs_of args)) w).

(** HSETNX; [None] when there is nothing to write. *)
Definition hset_body (setNx : bool) (rv : M RecordValue) (sk v : bytes) (tx : RocksTxn T) : M (option (RocksTxn T * bool)) :=
  hm ← hash_meta rv;
  _ ← txn_access tx;
  o ← find_record (RocksKVStore_getKV cfg (field_key sk) tx);
  let updated := match o with Some _ => true | None => false end in
  let hm := if updated then hm else mkHashMeta (u64 (hm_count hm + 1)) in
  if setNx && updated then Ret None else
  (tx ← RocksKVStore_setKV cfg mk (hash_record rv hm) tx now;
  tx ← RocksKVStore_setKV cfg (field_key sk) (field_record v) tx now;
  Ret (Some (tx, updated))).

Definition hsetGeneric (setNx : bool) (rv : M RecordValue) (sk v : bytes) (w : World) : M (World * M bytes) :=
  '(w, tx) ← SessionCtx_createTransaction sess w;
  or_return w (hset_body setNx rv sk v tx) (fun o =>
  match o with
  | None => Ret (w, Ret Command_fmtZero)
  | Some (tx, updated) => commit_reply cfg sess w tx (if updated : bool then Command_fmtZero else Command_fmtOne)
  end).

Definition HSetNx_run (sk v : bytes) (w : World) : M (World * M bytes) :=
  '(w, rv) ← readMeta w;
  or_return w (meta_or_none rv) (fun _ =>
  retry RETRY_CNT (hsetGeneric true rv sk v) w).

(** HDEL. *)
Fixpoint hdel_loop (args : list bytes) (realDel : Z) (tx : RocksTxn T) : M (RocksTxn T * Z) :=
  match args with
  | [] => Ret (tx, realDel)
  | a :: args' =>
      o ← find_record (RocksKVStore_getKV cfg (field_key a) tx);
      match o with
      | None => hdel_loop args' realDel tx
      | Some _ =>
          tx ← RocksKVStore_delKV cfg (field_key a) tx now;
          hdel_loop args' (u32 (realDel + 1)) tx
      end
  end.

Definition hdel_body (rv : M RecordValue) (args : list bytes) (tx : RocksTxn T) : M (RocksTxn T * Z) :=
  v ← rv;
  hm ← HashMetaValue_decode (rv_value v);
  _ ← txn_access tx;
  '(tx, realDel) ← hdel_loop args 0 tx;
  _ ← INVARIANT_D (realDel <=? hm_count hm);
  tx ← (if hm_count hm <=? realDel then Command_delKeyAndTTL cfg sess mk v tx now
        else RocksKVStore_setKV cfg mk (hash_record rv (mkHashMeta (u64 (hm_count hm - realDel)))) tx now);
  Ret (tx, realDel).

Definition hdel_round (rv : M RecordValue) (args : list bytes) (w : World) : M (World * M bytes) :=
  '(w, tx) ← SessionCtx_createTransaction sess w;
  or_return w (hdel_body rv args tx) (fun '(tx, realDel) =>
  commit_reply cfg sess w tx (Command_fmtLongLong realDel)).

Definition HDel_run (args : list bytes) (w : World) : M (World * M bytes) :=
  '(w, rv) ← readMeta w;
  or_return w (meta_or_none rv) (fun m =>
  match m with
  | None => Ret (w, Ret Command_fmtZero)
  | Some _ => retry RETRY_CNT (hdel_round rv args) w
  end).

(** ** Compare and set *)

Definition OPSET : Z := 0.
Definition OPADD : Z := 1.

(** The fields in order, and how many of them existing. *)
Fixpoint hmcas_loop (uniqkeys : list (bytes * (bytes * bytes))) (existing : Z) (tx : RocksTxn T) : M (RocksTxn T * Z) :=
  match uniqkeys with
  | [] => Ret (tx, existing)
  | (k, (opstr, arg)) :: rest =>
      o ← find_record (RocksKVStore_getKV cfg (field_key k) tx);
      let existing := match o with Some _ => existing + 1 | None => existing end in
      eop ← stoul opstr;
      v ← (if (eop =? OPSET) || match o with None => eop =? OPADD | Some _ => false end then Ret arg
           else if eop =? OPADD then
             match o with
             | Some old =>
                 ev ← stoll (rv_value old);
                 ev1 ← stoll arg;
                 n ← add_s64 ev1 ev;
                 Ret (to_string n)
             | None => Ret arg
             end
           else Throw ERR_UNKNOWN []);
      tx ← RocksKVStore_setKV cfg (field_key k) (field_record v) tx now;
      hmcas_loop rest existing tx
  end.

Definition uniq_keys (subargs : list bytes) : list (bytes * (bytes * bytes)) :=
  foldl (fun l e => smap_set (fst e) (snd e) l) [] (triples_of subargs).

Definition hmcas_body (eValue : M RecordValue) (subargs : list bytes) (cmp vsn : Z) (newvsn : option Z) (tx : RocksTxn T) : M (RocksTxn T) :=
  hm ← hash_meta eValue;
  let cas := match eValue with Ret v => rv_cas v | _ => -1 end in
  let found := match eValue with Ret _ => true | _ => false end in
  if negb (cmp =? 0) && found && negb (vsn =? cas) && negb (cas =? -1) then Throw ERR_CAS [] else
  let uniqkeys := uniq_keys subargs in
  _ ← txn_access tx;
  '(tx, existing) ← hmcas_loop uniqkeys 0 tx;
  cas ← match newvsn with
        | Some v => Ret v
        | None => if negb (cmp =? 0) && found && negb (cas =? -1) then add_s64 cas 1 else add_s64 vsn 1
        end;
  let hm := mkHashMeta (u64 (hm_count hm + zlen uniqkeys - existing)) in
  RocksKVStore_setKV cfg mk (RecordValue_setCas (hash_record eValue hm) cas) tx now.

(** Every round reads the meta record again. *)
Definition hmcas (subargs : list bytes) (cmp vsn : Z) (newvsn : option Z) (w : World) : M (World * M bytes) :=
  '(w, eValue) ← readMeta w;
  or_return w (meta_or_none eValue) (fun _ =>
  '(w, tx) ← SessionCtx_createTransaction sess w;
  or_return w (hmcas_body eValue subargs cmp vsn newvsn tx) (fun tx =>
  commit_reply cfg sess w tx Command_fmtOne)).

(** A round of the loop: 0 is the reply when the version is not the expected one. *)
Definition hmcas_round (subargs : list bytes) (cmp vsn : Z) (newvsn : option Z) (w : World) : M (World * M bytes) :=
  '(w, s) ← hmcas subargs cmp vsn newvsn w;
  Ret (w, match s with Throw ERR_CAS _ => Ret Command_fmtZero | _ => s end).

Definition HMCas_run (args : list bytes) (w : World) : M (World * M bytes) :=
  match args with
  | ecmp :: evsn :: subargs =>
      if negb (zlen subargs mod 3 =? 0) then Ret (w, Throw ERR_PARSEOPT (lit "wrong number of arguments for hmcas")) else
      or_return w (stoul ecmp) (fun cmp =>
      or_return w (stoll evsn) (fun vsn =>
      if negb (cmp =? 0) && negb (cmp =? 1) then Ret (w, Throw ERR_PARSEOPT (lit "cmp should be 0 or 1")) else
      retry RETRY_CNT (hmcas_round subargs cmp vsn None) w))
  | _ => Crash CUndefined
  end.

Definition HMCasV2_run (versionIncrease : bool) (args : list bytes) (w : World) : M (World * M bytes) :=
  match args with
  | ecmp :: evsn :: enewvsn :: subargs =>
      if negb (zlen subargs mod 3 =? 0) then Ret (w, Throw ERR_PARSEOPT (lit "wrong number of arguments for hmcas")) else
      or_return w (stoull ecmp) (fun cmp =>
      or_return w (stoll evsn) (fun vsn =>
      or_return w (stoll enewvsn) (fun newvsn =>
      if negb (cmp =? 0) && negb (cmp =? 1) then Ret (w, Throw ERR_PARSEOPT (lit "cmp should be 0 or 1")) else
      if versionIncrease && (newvsn <=? vsn) && negb (cmp =? 0)
      then Ret (w, Throw ERR_PARSEOPT (lit "new version must be greater than old version")) else
      retry RETRY_CNT (hmcas_round subargs cmp vsn (Some newvsn)) w)))
  | _ => Crash CUndefined
  end.

End Hash.
