(* ===== verification/HashSpec.v ===== *)
(** What the commands of hashes (commands/hash.cpp) do to the fields and what they answer. *)

From Stdlib Require Import Strings.Byte ZArith Lia Sorting.Sorted.
From stdpp Require Import base list numbers strings gmap.
From S2P Require Import Prelude Status Varint Strings Number Record RecordValue RecordMeta ReplLog BinlogSeq Txn Store Replicate Cursor Command Elems Keys KeysSpec KeysDel Named Hash.

Local Open Scope Z_scope.

(** * Ordered maps of the library *)

Definition key_lt {A} (a b : bytes * A) : Prop := bytes_lt a.1 b.1 = true.

Lemma smap_set_map {A} k (a : A) l : list_to_map (smap_set k a l) = <[k := a]> (list_to_map l : gmap bytes A).
Proof.
  induction l as [|[k' a'] l IH]; [done|]. cbn [smap_set]. case_bool_decide as E.
  - subst k'. cbn. by rewrite insert_insert_eq.
  - destruct (bytes_lt k k'); [done|]. cbn. rewrite IH. by apply insert_insert_ne.
Qed.

Lemma smap_set_all {A} (P : bytes * A -> Prop) k a l : P (k, a) -> Forall P l -> Forall P (smap_set k a l).
Proof.
  intros Hk Hl. induction Hl as [|[k' a'] l H' Hl IH]; cbn [smap_set]; [by constructor|]. case_bool_decide; [by constructor|].
  destruct (bytes_lt k k'); by repeat constructor.
Qed.

Lemma smap_set_sorted {A} k (a : A) l : StronglySorted key_lt l -> StronglySorted key_lt (smap_set k a l).
Proof.
  intros Hl. induction Hl as [|[k' a'] l Hl IH Hall]; cbn [smap_set]; [by repeat constructor|]. case_bool_decide as E; [subst k'; by constructor|].
  destruct (bytes_lt k k') eqn:Elt.
  - constructor; [by constructor|]. constructor; [done|]. eapply Forall_impl; [exact Hall|]. intros x Hx. by apply (bytes_lt_trans _ k').
  - constructor; [done|]. apply smap_set_all; [|done]. unfold key_lt. cbn [fst]. destruct (bytes_lt k' k) eqn:E2; [done|]. by destruct (E (bytes_lt_total _ _ Elt E2)).
Qed.

Lemma sorted_keys {A} (l : list (bytes * A)) : StronglySorted key_lt l -> NoDup l.*1.
Proof.
  intros Hl. induction Hl as [|[k a] l Hl IH Hall]; [constructor|]. rewrite fmap_cons. constructor; [|done]. cbn [fst].
  intros ([k' a'] & E & Hin)%list_elem_of_fmap. cbn in E. subst k'. rewrite Forall_forall in Hall. specialize (Hall _ Hin). unfold key_lt in Hall. cbn in Hall.
  by rewrite bytes_lt_irrefl in Hall.
Qed.

(** The operation on each field is that of its last triple. *)
Definition last_ops (subargs : list bytes) : gmap bytes (bytes * bytes) := list_to_map (rev (triples_of subargs)).

Lemma uniq_keys_ok subargs : list_to_map (uniq_keys subargs) = last_ops subargs /\ NoDup (uniq_keys subargs).*1.
Proof.
  unfold uniq_keys, last_ops. set (l := triples_of subargs). clearbody l.
  assert (list_to_map (foldl (fun l e => smap_set (fst e) (snd e) l) [] l) = (list_to_map (rev l) : gmap bytes (bytes * bytes)) /\
    StronglySorted key_lt (foldl (fun l e => smap_set (fst e) (snd e) l) [] l)) as [E Hs]; [|split; [done|by apply sorted_keys]].
  induction l as [|[k a] l [IH1 IH2]] using rev_ind; [split; [done|constructor]|]. rewrite foldl_snoc, rev_unit. cbn [fst snd].
  rewrite smap_set_map, IH1. split; [done|by apply smap_set_sorted].
Qed.

Section Spec.
Context {BM : BuildMode} {T : Type} `{RocksIterLaws T} {HL : RocksDBLaws T} {HH : RocksDBHealthy T} {HI : RocksIterHealthy T}.
Variable cfg : StoreCfg.
Variable sess : SessionCtx.
Variables (chunkId : Z) (pk : bytes).
Hypothesis Hcat : cfg_isCatalog cfg = false.
Hypothesis Hchunk : is_u32 chunkId /\ chunkId < CLUSTER_SLOTS.
Hypothesis Hdb : is_u32 (sc_dbId sess).
Hypothesis Hpk : zlen pk < 2 ^ 61.
Hypothesis Hep : is_u64 (sc_versionEP sess).
Variable now : Z.

#[local] Abbreviation mk := (named_key sess chunkId pk RT_HASH_META).
#[local] Abbreviation ok := (sub_ok pk).
#[local] Abbreviation fields := (named_elems cfg sess chunkId pk RT_HASH_ELE).
#[local] Abbreviation hash_gone := (named_gone cfg sess chunkId pk RT_HASH_META RT_HASH_ELE).

(** A hash with the fields [m]: the meta record [rv] holds their number. *)
Definition hash_stored (tx : RocksTxn T) (rv : RecordValue) (m : gmap bytes bytes) : Prop :=
  named_held cfg sess chunkId pk RT_HASH_META RT_HASH_ELE tx rv m /\
  HashMetaValue_decode (rv_value rv) = Ret (mkHashMeta (zsize m)) /\ m <> ∅.

(** What a command has found for the key: a hash, or nothing. *)
Definition hash_found (tx : RocksTxn T) (rv : M RecordValue) (m : gmap bytes bytes) : Prop :=
  match rv with
  | Ret v => hash_stored tx v m
  | Throw c _ => (c = ERR_NOTFOUND \/ c = ERR_EXPIRED) /\ m = ∅ /\ fields tx ∅
  | Crash _ => False
  end.

Lemma found_parts tx rv m : hash_found tx rv m ->
  fields tx m /\ hash_meta rv = Ret (mkHashMeta (zsize m)) /\ old_ok rv /\ tx_done tx = false /\
  exists o, meta_or_none rv = Ret o /\ (o = None <-> m = ∅).
Proof.
  destruct rv as [v|c msg|]; [intros ((_ & Hwf & _ & He) & Hd & Hm)|intros (Hc & -> & He)|done].
  - split_and!; [apply He..|done|done|apply He|]. by exists (Some v).
  - split_and!; [apply He..|done|done|apply He|]. exists None. by destruct Hc as [->| ->].
Qed.

(** A field and a value that fit in a record. *)
Definition pair_ok (e : bytes * bytes) : Prop := ok e.1 /\ zlen e.2 < 2 ^ 62.

Lemma field_wf v : zlen v < 2 ^ 62 -> RecordValue_wf (field_record v).
Proof. intros Hv. unfold RecordValue_wf, field_record, RecordValue_new, MAXU64; cbn. by split_and!. Qed.

(** The meta record with the number [n], and [cas] if it is set. *)
Definition new_record (rv : M RecordValue) (n : Z) (cas : option Z) : RecordValue :=
  match cas with
  | None => hash_record sess rv (mkHashMeta n)
  | Some c => RecordValue_setCas (hash_record sess rv (mkHashMeta n)) c
  end.

Definition cas_ok (cas : option Z) : Prop := match cas with None => True | Some c => - 2 ^ 63 <= c < 2 ^ 63 - 1 end.

Lemma new_record_ok rv n cas : old_ok rv -> 0 <= n < 2 ^ 64 -> cas_ok cas ->
  RecordValue_wf (new_record rv n cas) /\ rv_type (new_record rv n cas) = RT_HASH_META /\
  HashMetaValue_decode (rv_value (new_record rv n cas)) = Ret (mkHashMeta n) /\ rv_ttl (new_record rv n cas) = old_ttl rv.
Proof.
  intros Ho Hn Hc. destruct (HashMetaValue_law (mkHashMeta n)) as (s & [= <-] & Hdec & Hsz); [cbn; unfold is_u; lia|].
  destruct (update_value (HashMetaValue_encode (mkHashMeta n)) RT_HASH_META (sc_versionEP sess) (old_ttl rv) rv) as (E1 & E2 & E3).
  assert (RecordValue_wf (hash_record sess rv (mkHashMeta n))) as Hwf by (apply update_wf; [done|lia|done|done]).
  destruct cas as [c|]; cbn [new_record]; unfold hash_record in *.
  - split; [apply setCas_wf; [done|by rewrite E3|done]|]. cbn [RecordValue_setCas rv_type rv_value rv_ttl]. by rewrite E1, E2, E3.
  - by rewrite E1, E2, E3.
Qed.

(** The meta record written over the fields. *)
Lemma save_hash tx rv m cas : fields tx m -> m <> ∅ -> zsize m < 2 ^ 64 -> old_ok rv -> cas_ok cas ->
  exists tx', RocksKVStore_setKV cfg mk (new_record rv (zsize m) cas) tx now = Ret tx' /\
    hash_stored tx' (new_record rv (zsize m) cas) m /\ untouched pk tx tx'.
Proof.
  intros He Hm Hz Ho Hc. pose proof (zsize_nonneg m). destruct (new_record_ok rv (zsize m) cas Ho ltac:(lia) Hc) as (Hwf & Ht & Hd & _).
  destruct (named_set_meta cfg sess chunkId pk RT_HASH_META RT_HASH_ELE Hcat Hchunk Hdb Hpk tx m _ now He Hwf Ht) as (tx' & E & Hh & Hu). by exists tx'.
Qed.

(** The meta record written before a field. *)
Lemma save_field tx rv m sk v : fields tx m -> pair_ok (sk, v) -> zsize m + 1 < 2 ^ 64 -> old_ok rv ->
  let m' := <[sk := v]> m in
  exists tx1 tx', RocksKVStore_setKV cfg mk (hash_record sess rv (mkHashMeta (zsize m'))) tx now = Ret tx1 /\
    RocksKVStore_setKV cfg (field_key mk sk) (field_record v) tx1 now = Ret tx' /\
    hash_stored tx' (hash_record sess rv (mkHashMeta (zsize m'))) m' /\ untouched pk tx tx'.
Proof.
  intros He [Hk Hv] Hz Ho m'. cbn [fst snd] in *. assert (0 <= zsize m' < 2 ^ 64) as Hz' by (subst m'; pose proof (zsize_nonneg m); rewrite zsize_insert; destruct (m !! sk); lia).
  destruct (new_record_ok rv (zsize m') None Ho Hz' I) as (Hwf & Ht & Hd & _). cbn [new_record] in *.
  destruct (named_set_meta cfg sess chunkId pk RT_HASH_META RT_HASH_ELE Hcat Hchunk Hdb Hpk tx m _ now He Hwf Ht) as (tx1 & E1 & Hh & U1).
  destruct (named_held_set cfg sess chunkId pk RT_HASH_META RT_HASH_ELE Hcat Hchunk Hdb Hpk tx1 _ m sk (field_record v) now Hh Hk (field_wf v Hv) eq_refl) as (tx' & E2 & Hh' & U2).
  exists tx1, tx'. split; [done|]. split; [done|]. split; [|by etrans]. split; [done|]. split; [done|]. apply insert_non_empty.
Qed.

(** ** HSET, HMSET, HSETNX *)

(** The fields after assignments and after deletions, in the order of the arguments. *)
Definition hash_set (rcds : list (bytes * bytes)) (m : gmap bytes bytes) : gmap bytes bytes := foldl (fun m e => <[e.1 := e.2]> m) m rcds.
Definition hash_del (args : list bytes) (m : gmap bytes bytes) : gmap bytes bytes := foldl (fun m k => delete k m) m args.

Lemma hash_set_size rcds : forall m, zsize m <= zsize (hash_set rcds m) <= zsize m + zlen rcds.
Proof.
  induction rcds as [|[k v] rcds IH]; intros m; cbn [hash_set foldl]; [change (zlen []) with 0; lia|]. rewrite zlen_cons.
  specialize (IH (<[k := v]> m)). rewrite zsize_insert in IH. unfold hash_set in *. cbn [fst snd]. destruct (m !! k); lia.
Qed.

Lemma hash_set_ne rcds : forall m, rcds <> [] \/ m <> ∅ -> hash_set rcds m <> ∅.
Proof.
  induction rcds as [|[k v] rcds IH]; intros m Hn; cbn [hash_set foldl]; [by destruct Hn|]. apply IH. right. apply insert_non_empty.
Qed.

Lemma hmset_loop_ok rcds : forall ins tx m, fields tx m -> Forall pair_ok rcds -> 0 <= ins -> ins + zlen rcds < 2 ^ 32 ->
  exists tx', hmset_loop cfg mk now rcds ins tx = Ret (tx', ins + (zsize (hash_set rcds m) - zsize m)) /\ fields tx' (hash_set rcds m) /\ untouched pk tx tx'.
Proof.
  induction rcds as [|[k v] rcds IH]; intros ins tx m He Hall Hi Hn; cbn [hmset_loop].
  { exists tx. cbn [hash_set foldl]. rewrite Z.sub_diag, Z.add_0_r. by split. }
  inversion Hall as [|? ? [Hk Hv] Hr]; subst. cbn [fst snd] in *. rewrite zlen_cons in Hn. pose proof (zlen_nonneg rcds).
  change (field_key mk k) with (sub_key chunkId (sc_dbId sess) RT_HASH_ELE pk k).
  destruct (named_find cfg sess chunkId pk RT_HASH_ELE tx m k He Hk) as (o & -> & Eo). rewrite bind_Ret.
  destruct (named_set cfg sess chunkId pk RT_HASH_META RT_HASH_ELE Hcat Hchunk Hdb tx m k (field_record v) now He Hk (field_wf v Hv) eq_refl) as (tx1 & -> & He1 & U1 & _).
  rewrite bind_Ret. set (ins1 := match o with Some _ => ins | None => u32 (ins + 1) end).
  assert (ins1 = ins + (zsize (<[k := v]> m) - zsize m)) as E1.
  { subst ins1. rewrite zsize_insert, <-Eo. destruct o; cbn [fmap option_fmap option_map]; [lia|]. rewrite wrap_id by (unfold is_u; lia). lia. }
  assert (ins <= ins1 <= ins + 1) as Hi1 by (rewrite E1, zsize_insert; destruct (m !! k); lia).
  destruct (IH ins1 tx1 (<[k := v]> m) He1 Hr) as (tx' & -> & He' & U2); [lia|lia|]. exists tx'. cbn [hash_set foldl fst snd]. split; [|split; [done|by etrans]].
  rewrite E1. do 2 f_equal. unfold hash_set. lia.
Qed.

Lemma hmset_ok tx rv m rcds : hash_found tx rv m -> Forall pair_ok rcds -> rcds <> [] -> zlen rcds < 2 ^ 32 -> zsize m + zlen rcds < 2 ^ 64 ->
  exists tx' rv', hmset_body cfg sess mk now rv rcds tx = Ret (tx', zsize (hash_set rcds m) - zsize m) /\
    hash_stored tx' rv' (hash_set rcds m) /\ rv_ttl rv' = old_ttl rv /\ rv_cas rv' = -1 /\ untouched pk tx tx'.
Proof.
  intros Hf Hall Hne Hl Hz. destruct (found_parts _ _ _ Hf) as (He & Hm & Ho & Hd & _). pose proof (hash_set_size rcds m) as Hs. pose proof (zsize_nonneg m).
  destruct (hmset_loop_ok rcds 0 tx m He Hall) as (tx1 & E1 & He1 & U1); [lia|lia|].
  destruct (save_hash tx1 rv (hash_set rcds m) (Some (-1)) He1) as (tx' & E2 & Hst & U2); [apply hash_set_ne; by left|lia|done|done|].
  eexists tx', _. split; [|split; [exact Hst|split; [by apply new_record_ok; [|pose proof (zsize_nonneg (hash_set rcds m)); lia|]|split; [done|by etrans]]]].
  unfold hmset_body, txn_access. rewrite Hm, bind_Ret, Hd, bind_Ret, E1, bind_Ret. cbn [hm_count].
  rewrite Z.add_0_l, Zplus_minus, wrap_id by (unfold is_u; lia). cbn [new_record] in E2. by rewrite E2.
Qed.

Lemma hset_ok setNx tx rv m sk v : hash_found tx rv m -> pair_ok (sk, v) -> zsize m + 1 < 2 ^ 64 ->
  let there := bool_decide (is_Some (m !! sk)) in
  if setNx && there then hset_body cfg sess mk now setNx rv sk v tx = Ret None
  else exists tx' rv', hset_body cfg sess mk now setNx rv sk v tx = Ret (Some (tx', there)) /\
    hash_stored tx' rv' (<[sk := v]> m) /\ rv_ttl rv' = old_ttl rv /\ untouched pk tx tx'.
Proof.
  intros Hf [Hk Hv] Hz there. cbn [fst snd] in *. destruct (found_parts _ _ _ Hf) as (He & Hm & Ho & Hd & _). pose proof (zsize_nonneg m).
  unfold hset_body, txn_access. rewrite Hm, bind_Ret, Hd, bind_Ret. change (field_key mk sk) with (sub_key chunkId (sc_dbId sess) RT_HASH_ELE pk sk).
  destruct (named_find cfg sess chunkId pk RT_HASH_ELE tx m sk He Hk) as (o & -> & Eo). rewrite bind_Ret.
  assert (match o with Some _ => true | None => false end = there) as -> by (subst there; rewrite <-Eo; by destruct o).
  assert (mkHashMeta (zsize (<[sk := v]> m)) = if there then mkHashMeta (zsize m) else mkHashMeta (u64 (zsize m + 1))) as Ehm.
  { rewrite zsize_insert. subst there. destruct (m !! sk); [done|]. cbn. by rewrite wrap_id by (unfold is_u; lia). }
  destruct (save_field tx rv m sk v He (conj Hk Hv) Hz Ho) as (tx1 & tx' & E1 & E2 & Hs & U). rewrite Ehm in *. cbn [hm_count].
  destruct (setNx && there); [done|]. eexists tx', _. split; [rewrite E1, bind_Ret; by setoid_rewrite E2|]. split; [exact Hs|]. split; [by destruct there; destruct rv|done].
Qed.

(** ** HINCRBY *)

Lemma stoll_cases s : match stoll s with Ret n => is_s64 n | Throw c msg => c = ERR_INTERGER /\ msg = [] | Crash _ => False end.
Proof.
  unfold stoll, parse_int. destruct (space_at_end s); [done|]. unfold std_stoll. destruct (strto s) as [[neg n]|]; [|done]. cbn [mbind option_bind].
  set (v := if neg then _ else _). destruct ((- 2 ^ 63 <=? v) && (v <? 2 ^ 63)) eqn:E; [|done]. apply andb_true_iff in E as [E1 E2]. unfold is_s. lia.
Qed.

Lemma zlen_to_string_s64 n : is_s64 n -> zlen (to_string n) < 2 ^ 62.
Proof.
  unfold is_s. intros Hn. destruct (Z.ltb_spec n 0).
  - rewrite to_string_neg, zlen_cons by done. pose proof (zlen_to_string (- n) ltac:(unfold is_u; lia)). lia.
  - pose proof (zlen_to_string n ltac:(unfold is_u; lia)). lia.
Qed.

(** The number of a field: 0 when there is none. *)
Definition field_number (m : gmap bytes bytes) (sk : bytes) : M Z :=
  match m !! sk with
  | None => Ret 0
  | Some v => match stoll v with Throw _ _ => Throw ERR_DECODE (lit "hash value is not an integer ") | r => r end
  end.

Lemma hincr_ok tx rv m sk inc : hash_found tx rv m -> ok sk -> is_s64 inc -> zsize m + 1 < 2 ^ 64 ->
  match field_number m sk with
  | Throw code msg => hincr_body cfg sess mk now rv sk inc tx = Throw code msg
  | Crash _ => False
  | Ret n =>
      if decide (is_s64 (n + inc)) then
        exists tx' rv', hincr_body cfg sess mk now rv sk inc tx = Ret (tx', n + inc) /\
          hash_stored tx' rv' (<[sk := to_string (n + inc)]> m) /\ rv_ttl rv' = old_ttl rv /\ untouched pk tx tx'
      else hincr_body cfg sess mk now rv sk inc tx = Throw ERR_OVERFLOW (lit "increment or decrement would overflow")
  end.
Proof.
  intros Hf Hk Hinc Hz. destruct (found_parts _ _ _ Hf) as (He & Hm & Ho & Hd & (om & Hom & _)). pose proof (zsize_nonneg m).
  unfold hincr_body, txn_access, field_number. rewrite Hom, bind_Ret, Hm, bind_Ret, Hd, bind_Ret. change (field_key mk sk) with (sub_key chunkId (sc_dbId sess) RT_HASH_ELE pk sk).
  destruct (named_find cfg sess chunkId pk RT_HASH_ELE tx m sk He Hk) as (o & -> & Eo). rewrite bind_Ret, <-Eo.
  assert (forall n hm, is_s64 n -> hm = mkHashMeta (zsize (<[sk := to_string (n + inc)]> m)) ->
    let r := if (inc <? 0) && (n <? 0) && (inc <? LLONG_MIN - n) || (0 <? inc) && (0 <? n) && (LLONG_MAX - n <? inc)
      then Throw ERR_OVERFLOW (lit "increment or decrement would overflow") else
      (tx ← RocksKVStore_setKV cfg mk (hash_record sess rv hm) tx now;
       tx ← RocksKVStore_setKV cfg (sub_key chunkId (sc_dbId sess) RT_HASH_ELE pk sk) (field_record (to_string (n + inc))) tx now; Ret (tx, n + inc)) in
    if decide (is_s64 (n + inc)) then
      exists tx' rv', r = Ret (tx', n + inc) /\ hash_stored tx' rv' (<[sk := to_string (n + inc)]> m) /\ rv_ttl rv' = old_ttl rv /\ untouched pk tx tx'
    else r = Throw ERR_OVERFLOW (lit "increment or decrement would overflow")) as Hgo.
  { intros n hm Hn -> r. subst r. unfold is_s in *. set (b := _ || _).
    assert (b = negb (bool_decide (- 2 ^ (64 - 1) <= n + inc < 2 ^ (64 - 1)))) as -> by (subst b; unfold LLONG_MIN, LLONG_MAX; case_bool_decide; lia).
    destruct (decide _) as [Hr|Hr]; [rewrite bool_decide_true by done|by rewrite bool_decide_false by done]. cbn [negb].
    destruct (save_field tx rv m sk (to_string (n + inc)) He (conj Hk (zlen_to_string_s64 _ Hr)) Hz Ho) as (tx1 & tx' & E1 & E2 & Hs & U).
    rewrite E1, bind_Ret. setoid_rewrite E2. eexists tx', _. split; [done|]. split; [exact Hs|]. split; [by destruct rv|done]. }
  destruct o as [old|]; cbn [fmap option_fmap option_map].
  - pose proof (stoll_cases (rv_value old)) as Hc. destruct (stoll (rv_value old)) as [n| |]; [|done|done]. rewrite bind_Ret. apply Hgo; [done|].
    by rewrite zsize_insert, <-Eo.
  - rewrite bind_Ret. apply Hgo; [done|]. rewrite zsize_insert, <-Eo. cbn [hm_count fmap option_fmap option_map]. by rewrite wrap_id by (unfold is_u; lia).
Qed.

(** ** HDEL *)

Lemma hash_del_size args : forall m, zsize m - zlen args <= zsize (hash_del args m) <= zsize m.
Proof.
  induction args as [|k args IH]; intros m; cbn [hash_del foldl]; [change (zlen []) with 0; lia|]. rewrite zlen_cons.
  specialize (IH (delete k m)). rewrite zsize_delete in IH. unfold hash_del in *. pose proof (zlen_nonneg args). destruct (m !! k); lia.
Qed.

Lemma hdel_loop_ok args : forall d tx m, fields tx m -> Forall ok args -> 0 <= d -> d + zlen args < 2 ^ 32 ->
  exists tx', hdel_loop cfg mk now args d tx = Ret (tx', d + (zsize m - zsize (hash_del args m))) /\ fields tx' (hash_del args m) /\ untouched pk tx tx'.
Proof.
  induction args as [|k args IH]; intros d tx m He Hall Hi Hn; cbn [hdel_loop].
  { exists tx. cbn [hash_del foldl]. rewrite Z.sub_diag, Z.add_0_r. by split. }
  inversion Hall as [|? ? Hk Hr]; subst. rewrite zlen_cons in Hn. pose proof (zlen_nonneg args).
  change (field_key mk k) with (sub_key chunkId (sc_dbId sess) RT_HASH_ELE pk k).
  destruct (named_find cfg sess chunkId pk RT_HASH_ELE tx m k He Hk) as (o & -> & Eo). rewrite bind_Ret. cbn [hash_del foldl]. destruct o as [old|]; cbn in Eo.
  - destruct (named_del cfg sess chunkId pk RT_HASH_META RT_HASH_ELE Hcat Hchunk Hdb tx m k now He Hk) as (tx1 & -> & He1 & U1). rewrite bind_Ret, wrap_id by (unfold is_u; lia).
    destruct (IH (d + 1) tx1 (delete k m) He1 Hr) as (tx' & -> & He' & U2); [lia|lia|]. exists tx'. split; [|split; [done|by etrans]].
    do 2 f_equal. rewrite zsize_delete, <-Eo. unfold hash_del. lia.
  - assert (delete k m = m) as -> by (by apply delete_id). destruct (IH d tx m He Hr) as (tx' & -> & He' & U2); [lia|lia|]. by exists tx'.
Qed.

Lemma hdel_ok tx v m args : hash_stored tx v m -> Forall ok args -> zlen args < 2 ^ 32 -> zsize m < 2 ^ 64 ->
  exists tx', hdel_body cfg sess mk now (Ret v) args tx = Ret (tx', zsize m - zsize (hash_del args m)) /\ untouched pk tx tx' /\
    (hash_del args m = ∅ -> hash_gone tx') /\
    (hash_del args m <> ∅ -> exists rv', hash_stored tx' rv' (hash_del args m) /\ rv_ttl rv' = rv_ttl v).
Proof.
  intros Hs Hall Hl Hz. pose proof Hs as ((_ & Hwf & Hty & He) & Hdec & Hm). pose proof (hash_del_size args m). pose proof (zsize_nonneg (hash_del args m)). pose proof (zsize_nonneg m).
  destruct (hdel_loop_ok args 0 tx m He Hall) as (tx1 & E1 & He1 & U1); [lia|lia|].
  unfold hdel_body, txn_access. rewrite bind_Ret, Hdec, bind_Ret. assert (tx_done tx = false) as -> by apply He. rewrite bind_Ret, E1, bind_Ret. cbn [hm_count]. rewrite Z.add_0_l.
  inv_d by lia. destruct (decide (hash_del args m = ∅)) as [Em|Em].
  - rewrite Em in *. change (zsize ∅) with 0 in *. rewrite Z.sub_0_r. replace (zsize m <=? zsize m) with true by lia.
    destruct (named_drop cfg sess chunkId pk RT_HASH_META RT_HASH_ELE Hcat Hchunk Hdb Hpk tx1 v now He1 Hwf Hty) as (tx' & -> & Hg & U2). rewrite bind_Ret.
    exists tx'. split; [done|]. split; [by etrans|]. by split.
  - assert (zsize (hash_del args m) <> 0) by (by intros ?%zsize_0). replace (zsize m <=? zsize m - zsize (hash_del args m)) with false by lia.
    destruct (save_hash tx1 (Ret v) (hash_del args m) None He1 Em ltac:(lia) Hwf I) as (tx' & E2 & Hst & U2). cbn [new_record] in *.
    rewrite wrap_id by (unfold is_u; lia). replace (zsize m - (zsize m - zsize (hash_del args m))) with (zsize (hash_del args m)) by lia. rewrite E2, bind_Ret.
    exists tx'. split; [done|]. split; [by etrans|]. split; [done|]. intros _. by eexists.
Qed.

(** ** HMCAS *)

(** The value of a field after an operation: 0 sets it, 1 adds to the number that is there. *)
Definition field_update (op arg : bytes) (old : option bytes) : M bytes :=
  eop ← stoul op;
  if eop =? OPSET then Ret arg
  else if eop =? OPADD then
    match old with
    | None => Ret arg
    | Some o => ev ← stoll o; ev1 ← stoll arg; n ← add_s64 ev1 ev; Ret (to_string n)
    end
  else Throw ERR_UNKNOWN [].

Definition update_to (m : gmap bytes bytes) (e : bytes * (bytes * bytes)) (v : bytes) : Prop :=
  field_update e.2.1 e.2.2 (m !! e.1) = Ret v.

Lemma hmcas_step_ok {A} op arg (o : option RecordValue) (F : bytes -> M A) :
  (eop ← stoul op;
   v ← (if (eop =? OPSET) || match o with None => eop =? OPADD | Some _ => false end then Ret arg
        else if eop =? OPADD then
          match o with
          | Some old => ev ← stoll (rv_value old); ev1 ← stoll arg; n ← add_s64 ev1 ev; Ret (to_string n)
          | None => Ret arg
          end
        else Throw ERR_UNKNOWN []);
   F v) = (v ← field_update op arg (rv_value <$> o); F v).
Proof.
  unfold field_update. destruct (stoul op) as [eop| |]; [|done|done]. rewrite !bind_Ret. destruct (eop =? OPSET) eqn:E; [done|]. cbn [orb].
  destruct o; cbn [fmap option_fmap option_map]; [done|]. by destruct (eop =? OPADD).
Qed.

(** The fields with the new values. *)
Definition cas_values (m : gmap bytes bytes) (u : list (bytes * (bytes * bytes))) : list (bytes * bytes) :=
  map (fun e => (e.1, match field_update e.2.1 e.2.2 (m !! e.1) with Ret v => v | _ => [] end)) u.

Definition cas_entry_ok (m : gmap bytes bytes) (e : bytes * (bytes * bytes)) : Prop :=
  ok e.1 /\ exists v, field_update e.2.1 e.2.2 (m !! e.1) = Ret v /\ zlen v < 2 ^ 62.

Lemma cas_values_insert m k v u : k ∉ u.*1 -> cas_values (<[k := v]> m) u = cas_values m u.
Proof.
  intros Hk. apply map_ext_in. intros [k' e] Hin%list_elem_of_In. cbn [fst snd]. rewrite lookup_insert_ne; [done|].
  intros ->. apply Hk. apply list_elem_of_fmap. by exists (k', e).
Qed.

Lemma cas_entry_insert m k v u : k ∉ u.*1 -> Forall (cas_entry_ok m) u -> Forall (cas_entry_ok (<[k := v]> m)) u.
Proof.
  intros Hk Hall. rewrite Forall_forall in *. intros e Hin. specialize (Hall e Hin). unfold cas_entry_ok in *. rewrite lookup_insert_ne; [done|].
  intros ->. apply Hk. apply list_elem_of_fmap. by exists e.
Qed.

Lemma hmcas_loop_ok u : forall n tx m, fields tx m -> NoDup u.*1 -> Forall (cas_entry_ok m) u ->
  let m' := hash_set (cas_values m u) m in
  exists tx', hmcas_loop cfg mk now u n tx = Ret (tx', n + (zlen u - (zsize m' - zsize m))) /\ fields tx' m' /\ untouched pk tx tx'.
Proof.
  induction u as [|[k [op arg]] u IH]; intros n tx m He Hnd Hall m'; cbn [hmcas_loop].
  { exists tx. subst m'. cbn. change (zlen []) with 0. rewrite Z.sub_diag, Z.add_0_r. by split. }
  inversion Hall as [|? ? [Hk (v & Ev & Hv)] Hr]; subst. cbn [fst snd] in *. rewrite fmap_cons in Hnd. apply NoDup_cons in Hnd as [Hnk Hnd]. cbn [fst] in Hnk.
  change (field_key mk k) with (sub_key chunkId (sc_dbId sess) RT_HASH_ELE pk k).
  destruct (named_find cfg sess chunkId pk RT_HASH_ELE tx m k He Hk) as (o & -> & Eo). rewrite bind_Ret, hmcas_step_ok, Eo, Ev, bind_Ret.
  destruct (named_set cfg sess chunkId pk RT_HASH_META RT_HASH_ELE Hcat Hchunk Hdb tx m k (field_record v) now He Hk (field_wf v Hv) eq_refl) as (tx1 & -> & He1 & U1 & _).
  rewrite bind_Ret. destruct (IH (match o with Some _ => n + 1 | None => n end) tx1 (<[k := v]> m) He1 Hnd (cas_entry_insert m k v u Hnk Hr)) as (tx' & -> & He' & U2).
  rewrite cas_values_insert in * by done. subst m'. unfold cas_values. cbn [map fst snd]. rewrite Ev. cbn [hash_set foldl fst snd].
  exists tx'. split; [|split; [exact He'|by etrans]]. rewrite zsize_insert, zlen_cons, <-Eo. do 2 f_equal. fold (cas_values m u). unfold hash_set. destruct o; cbn; lia.
Qed.

(** The fields after the operations. *)
Definition hash_cas (ops : gmap bytes (bytes * bytes)) (m : gmap bytes bytes) : gmap bytes bytes :=
  merge (fun o old =>
    match o with
    | None => old
    | Some (op, arg) => match field_update op arg old with Ret v => Some v | _ => old end
    end) ops m.

Lemma hash_set_lookup l : forall m k, NoDup l.*1 -> hash_set l m !! k = match (list_to_map l : gmap bytes bytes) !! k with Some v => Some v | None => m !! k end.
Proof.
  induction l as [|[k' v] l IH]; intros m k Hnd; [done|]. rewrite fmap_cons in Hnd. apply NoDup_cons in Hnd as [Hk Hnd]. cbn [fst] in Hk.
  cbn [hash_set foldl fst snd]. unfold hash_set in IH. rewrite IH by done. cbn [list_to_map foldr uncurry fst snd]. destruct (decide (k = k')) as [->|Hn].
  - rewrite !lookup_insert_eq. apply not_elem_of_list_to_map_1 in Hk. by setoid_rewrite Hk.
  - by rewrite !lookup_insert_ne by done.
Qed.

Lemma cas_values_keys m u : (cas_values m u).*1 = u.*1.
Proof. unfold cas_values. by rewrite <-list_fmap_compose. Qed.

Lemma cas_values_map m u : NoDup u.*1 -> Forall (cas_entry_ok m) u -> hash_set (cas_values m u) m = hash_cas (list_to_map u) m.
Proof.
  intros Hnd Hall. pose proof (cas_values_keys m u) as Hk. apply map_eq. intros k. rewrite hash_set_lookup by (by rewrite Hk). unfold hash_cas. rewrite lookup_merge.
  destruct ((list_to_map u : gmap bytes (bytes * bytes)) !! k) as [[op arg]|] eqn:Eu.
  - apply elem_of_list_to_map in Eu; [|done]. rewrite Forall_forall in Hall. destruct (Hall _ Eu) as (_ & v & Ev & _). cbn [fst snd] in Ev.
    assert ((k, v) ∈ cas_values m u) as Hin by (apply list_elem_of_fmap; exists (k, (op, arg)); cbn [fst snd]; by rewrite Ev).
    apply elem_of_list_to_map in Hin; [|by rewrite Hk]. rewrite Hin. destruct (m !! k); cbn; by rewrite Ev.
  - apply not_elem_of_list_to_map in Eu. rewrite <-Hk in Eu. apply not_elem_of_list_to_map_1 in Eu. rewrite Eu. by destruct (m !! k).
Qed.

Lemma hash_cas_size m u : zsize m <= zsize (hash_set (cas_values m u) m) <= zsize m + zlen u.
Proof. pose proof (hash_set_size (cas_values m u) m) as Hs. unfold cas_values at 3 in Hs. unfold zlen in *. rewrite length_map in Hs. lia. Qed.

(** The version that the hash has, and whether a command that compares has the wrong one. *)
Definition hash_cas_of (rv : M RecordValue) : Z := match rv with Ret v => rv_cas v | _ => -1 end.
Definition is_ret {A} (m : M A) : bool := match m with Ret _ => true | _ => false end.

Definition cas_stale (rv : M RecordValue) (cmp vsn : Z) : bool :=
  negb (cmp =? 0) && is_ret rv && negb (vsn =? hash_cas_of rv) && negb (hash_cas_of rv =? -1).

Definition next_cas (rv : M RecordValue) (cmp vsn : Z) (newvsn : option Z) : Z :=
  match newvsn with
  | Some v => v
  | None => (if negb (cmp =? 0) && is_ret rv && negb (hash_cas_of rv =? -1) then hash_cas_of rv else vsn) + 1
  end.

Definition subargs_ok (m : gmap bytes bytes) (subargs : list bytes) : Prop :=
  triples_of subargs <> [] /\ map_Forall (fun k e => cas_entry_ok m (k, e)) (last_ops subargs).

Lemma subargs_parts m subargs : subargs_ok m subargs -> Forall (cas_entry_ok m) (uniq_keys subargs) /\ uniq_keys subargs <> [].
Proof.
  intros [Hne Hm]. destruct (uniq_keys_ok subargs) as [E Hnd]. rewrite <-E in Hm. split.
  - apply Forall_forall. intros [k e] Hin. apply (Hm k e). by apply elem_of_list_to_map.
  - intros En. rewrite En in E. unfold last_ops in E. destruct (triples_of subargs) as [|[k e] l]; [done|]. cbn [rev] in E. symmetry in E.
    assert ((list_to_map (rev l ++ [(k, e)]) : gmap bytes (bytes * bytes)) !! k <> None) as Hc; [|by rewrite E in Hc].
    rewrite list_to_map_app. intros [_ Hc]%lookup_union_None. cbn in Hc. by rewrite lookup_insert_eq in Hc.
Qed.

Lemma hmcas_ok tx rv m subargs cmp vsn newvsn : hash_found tx rv m -> subargs_ok m subargs -> zsize m + zlen (uniq_keys subargs) < 2 ^ 64 ->
  if cas_stale rv cmp vsn then hmcas_body cfg sess mk now rv subargs cmp vsn newvsn tx = Throw ERR_CAS []
  else - 2 ^ 63 <= next_cas rv cmp vsn newvsn < 2 ^ 63 - 1 ->
    exists tx' rv', hmcas_body cfg sess mk now rv subargs cmp vsn newvsn tx = Ret tx' /\
      hash_stored tx' rv' (hash_cas (last_ops subargs) m) /\ rv_cas rv' = next_cas rv cmp vsn newvsn /\ rv_ttl rv' = old_ttl rv /\ untouched pk tx tx'.
Proof.
  intros Hf Hs Hz. destruct (found_parts _ _ _ Hf) as (He & Hm & Ho & Hd & _). destruct (subargs_parts _ _ Hs) as [Hall Hne]. destruct (uniq_keys_ok subargs) as [Eu Hnd].
  unfold hmcas_body. rewrite Hm, bind_Ret. unfold cas_stale, hash_cas_of, is_ret. destruct (_ && _); [done|]. intros Hc.
  set (u := uniq_keys subargs) in *. destruct (hmcas_loop_ok u 0 tx m He Hnd Hall) as (tx1 & E1 & He1 & U1). pose proof (hash_cas_size m u) as Hsz. rewrite cas_values_map, Eu in * by done.
  set (m' := hash_cas (last_ops subargs) m) in *. pose proof (zsize_nonneg m).
  assert (m' <> ∅) as Hm'.
  { subst m'. rewrite <-Eu, <-cas_values_map by done. apply hash_set_ne. left. unfold cas_values. by destruct u. }
  destruct (save_hash tx1 rv m' (Some (next_cas rv cmp vsn newvsn)) He1 Hm' ltac:(lia) Ho Hc) as (tx' & E2 & Hst & U2).
  eexists tx', _. split; [|split; [exact Hst|split; [done|split; [by apply new_record_ok; [|lia|]|by etrans]]]].
  unfold txn_access. rewrite Hd, bind_Ret, E1, bind_Ret. cbn [hm_count]. replace (u64 (zsize m + zlen u - (0 + (zlen u - (zsize m' - zsize m))))) with (zsize m')
    by (rewrite wrap_id; unfold is_u; lia).
  rewrite <-E2. cbn [new_record]. unfold next_cas, hash_cas_of, is_ret, add_s64, LLONG_MIN, LLONG_MAX in *. destruct newvsn as [v|]; [by rewrite bind_Ret|].
  destruct (_ && _); match goal with |- context [if ?b then _ else _] => replace b with true by lia end; by rewrite bind_Ret.
Qed.

(** ** Reading *)

Variable memLimit : Z -> M unit.
Hypothesis Hmem : forall u, memLimit u = Ret tt.

(** The reply for a field. *)
Definition field_reply (m : gmap bytes bytes) (sk : bytes) : bytes :=
  match m !! sk with Some v => Command_fmtBulk v | None => Command_fmtNull end.

Lemma hmget_loop_ok tx m args : forall used ss, fields tx m -> Forall ok args ->
  hmget_loop cfg mk memLimit args tx used ss = Ret (ss ++ concat (map (field_reply m) args)).
Proof.
  induction args as [|a args IH]; intros used ss He Hall; cbn [hmget_loop map concat]; [by rewrite app_nil_r|]. inversion Hall as [|? ? Hk Hr]; subst.
  change (field_key mk a) with (sub_key chunkId (sc_dbId sess) RT_HASH_ELE pk a).
  destruct (named_find cfg sess chunkId pk RT_HASH_ELE tx m a He Hk) as (o & -> & Eo). rewrite bind_Ret. unfold field_reply at 1. rewrite <-Eo, app_assoc.
  destruct o; cbn [fmap option_fmap option_map]; [rewrite Hmem, bind_Ret|]; by apply IH.
Qed.

Lemma fmt_bulks_ok rows : forall used ss, fmt_bulks memLimit used rows ss = Ret (ss ++ concat (map Command_fmtBulk (concat rows))).
Proof.
  induction rows as [|row rows IH]; intros used ss; cbn [fmt_bulks concat]; [by rewrite app_nil_r|]. rewrite Hmem, bind_Ret, IH, map_app, concat_app. by rewrite app_assoc.
Qed.

(** The fields with their values, in the order of the store. *)
Lemma hall_records tx m : fields tx m -> x00 ∉ pk -> tidy (tx_db tx) ->
  exists rcds, (prefix ← RecordKey_prefixPk (field_key mk []); prefix_records memLimit (no_limit tx) prefix prefix [] tx) = Ret rcds /\
    map (fun r => (rk_sk (fst r), rv_value (snd r))) rcds ≡ₚ map_to_list m.
Proof.
  intros He Hz Ht. change (field_key mk []) with (sub_key chunkId (sc_dbId sess) RT_HASH_ELE pk []).
  destruct (named_scan cfg sess chunkId pk RT_HASH_META RT_HASH_ELE Hchunk Hdb Hpk memLimit tx m Hmem Hz Ht He) as (p & rcds & Ep & Er & Hp). exists rcds. by rewrite Ep, bind_Ret.
Qed.

End Spec.
