(* ===== verification/HashCmd.v ===== *)
(** What the commands of hashes (commands/hash.cpp) promise, from the records in the store before
    the command to the transaction it commits. *)

From Stdlib Require Import Strings.Byte ZArith Lia.
From stdpp Require Import base list numbers strings gmap.
From S2P Require Import Prelude Status Varint Strings Number Record RecordValue RecordMeta ReplLog BinlogSeq Txn Store Replicate Cursor Command Elems Keys KeysSpec KeysDel Named Hash HashSpec.

Local Open Scope Z_scope.

Section Commands.
Context {BM : BuildMode} {T : Type} `{RocksIterLaws T} {HL : RocksDBLaws T} {HH : RocksDBHealthy T} {HI : RocksIterHealthy T} {HC : RocksDBCommits T}.
Variable cfg : StoreCfg.
Variable sess : SessionCtx.
Variables (now currentTs : Z) (srv : ServerParams) (multi : option Z) (chunkId : Z) (pk : bytes).
Variables (ks : RocksKVStore) (live : gmap Z Z) (dur : gset Z) (db : T).

#[local] Abbreviation command_ok := (command_ok cfg sess chunkId pk ks live dur db).
#[local] Abbreviation mk := (named_key sess chunkId pk RT_HASH_META).
#[local] Abbreviation readMeta := (read_meta cfg now srv sess multi chunkId currentTs RT_HASH_META pk).
#[local] Abbreviation is_hash := (hash_stored cfg sess chunkId pk).
#[local] Abbreviation gone := (named_gone cfg sess chunkId pk RT_HASH_META RT_HASH_ELE).
#[local] Abbreviation w := (mkWorld ks db None).

(** The store holds the hash [m], with the meta record that [rv] gives, or nothing. *)
Definition hash_here (rv : M RecordValue) (m : gmap bytes bytes) : Prop :=
  let tx := RocksTxn_new 0 false db in
  RocksKVStore_getKV cfg mk tx = rv /\ hash_found cfg sess chunkId pk tx rv m /\
  match rv with Ret v => live_record sess currentTs srv multi RT_HASH_META v | _ => True end.

Lemma hash_open rv m : command_ok -> hash_here rv m ->
  exists ks0 ks1 tx, readMeta w = Ret (mkWorld ks0 db None, rv) /\ SessionCtx_createTransaction sess (mkWorld ks0 db None) = Ret (mkWorld ks1 db (Some tx), tx) /\
    tx_db tx = db /\ hash_found cfg sess chunkId pk tx rv m /\ (can_log sess ks -> opened (mkWorld ks1 db (Some tx)) tx).
Proof.
  intros [Hcat Hpk Hch Hdb Hep Hro Hi Hn Htd Hsz] (<- & Hf & Hl). set (r := RocksKVStore_getKV _ _ _) in *.
  destruct (read_open cfg sess now currentTs srv multi chunkId pk Hcat Hpk Hch Hdb Hro ks live dur db RT_HASH_META Hi Hn eq_refl Htd Hsz) as (ks0 & ks1 & tx & Er & Ec & Hw & Edb & _ & Hop).
  { change (whole_key chunkId (sc_dbId sess) pk RT_HASH_META) with mk. fold r. by destruct r. }
  change (whole_key chunkId (sc_dbId sess) pk RT_HASH_META) with mk in Er. fold r in Er.
  exists ks0, ks1, tx. split; [done|]. split; [done|]. split; [done|]. split; [|by intros [_ ?]; apply Hop].
  assert (forall m', named_elems cfg sess chunkId pk RT_HASH_ELE (RocksTxn_new 0 false db) m' -> named_elems cfg sess chunkId pk RT_HASH_ELE tx m') as He
    by (intros m'; by apply (named_elems_db cfg sess chunkId pk)).
  destruct r as [v|c msg|] eqn:Ev; [|destruct Hf as (Hc & -> & Hf); split; [done|]; split; [done|by apply He]|done].
  destruct Hf as ((Hg & Hwf & Ht & Hf) & Hd). split; [|done]. split; [by rewrite (getKV_same cfg mk tx (RocksTxn_new 0 false db))|]. split; [done|]. split; [done|by apply He].
Qed.

(** The read, the transaction, and what was found, of a command on the hash. *)
Ltac open_hash Hc Hh :=
  let Er := fresh "Er" in let Ec := fresh "Ec" in
  destruct (hash_open _ _ Hc Hh) as (ks0 & ks1 & tx & Er & Ec & Edb & Hf & Hop); rewrite Er, !bind_Ret;
  destruct (found_parts cfg sess chunkId pk _ _ _ Hf) as (He & Hm & Ho & Hd & om & Hom & Hnone); rewrite ?Hom; cbn [or_return].

Lemma is_hash_writable tx rv m : is_hash tx rv m -> writable tx.
Proof. by intros ((_ & _ & _ & (? & _) & _) & _). Qed.

(** The end of a command that goes on to commit [tx']. *)
Ltac commit_hash Hop Hl U := apply (retry_commits cfg sess (proj1 Hl) _ _ _ (mkWorld _ db (Some _)) _ _ _ (Hop Hl)); [by apply U|by eapply is_hash_writable|].

Lemma pairs_of_ne args : zlen args mod 2 = 0 -> args <> [] -> pairs_of args <> [].
Proof. destruct args as [|a [|b args]]; [done|by vm_compute|done]. Qed.

(** C23: HSET and HMSET assign the fields in the order of the arguments, later ones over earlier
    ones, and commit them with the number of fields in one transaction; HSET answers with the
    number of fields that are new. The expiry of the hash stays and its version is forgotten. The
    database accepts the commit; the store holds afterwards what the transaction saw. *)
Theorem hset_correct rv m (hmset : bool) args :
  command_ok -> can_log sess ks -> hash_here rv m -> zlen args mod 2 = 0 -> args <> [] -> Forall (pair_ok pk) (pairs_of args) ->
  zlen (pairs_of args) < 2 ^ 32 -> zsize m + zlen (pairs_of args) < 2 ^ 64 ->
  let m' := hash_set (pairs_of args) m in
  exists tx tx' rv', tx_db tx = db /\ is_hash tx' rv' m' /\ rv_ttl rv' = old_ttl rv /\ rv_cas rv' = -1 /\ untouched pk tx tx' /\
    commits tx' (if hmset then Command_fmtOK else Command_fmtLongLong (zsize m' - zsize m)) (HMSet_run cfg sess mk now readMeta hmset args w).
Proof.
  intros Hc Hcl Hh Hev Hne Hall Hl Hz m'. unfold HMSet_run. rewrite Hev. cbn [negb Z.eqb]. open_hash Hc Hh.
  destruct (hmset_ok cfg sess chunkId pk (co_cat _ _ _ _ _ _ _ _ Hc) (co_chunk _ _ _ _ _ _ _ _ Hc) (co_db _ _ _ _ _ _ _ _ Hc) (proj2 (co_pk _ _ _ _ _ _ _ _ Hc)) (co_ep _ _ _ _ _ _ _ _ Hc) now tx rv m (pairs_of args) Hf Hall (pairs_of_ne args Hev Hne) Hl Hz)
    as (tx' & rv' & E & Hs & Ht & Hca & U).
  exists tx, tx', rv'. repeat (split; [done|]). commit_hash Hop Hcl U. unfold hmsetGeneric. rewrite Ec, bind_Ret. setoid_rewrite E. done.
Qed.

(** HSETNX sets a field that is not there and leaves one that is. *)
Theorem hsetnx_correct rv m sk v :
  command_ok -> can_log sess ks -> hash_here rv m -> pair_ok pk (sk, v) -> zsize m + 1 < 2 ^ 64 ->
  let result := HSetNx_run cfg sess mk now readMeta sk v w in
  exists ks1 tx, tx_db tx = db /\
  match m !! sk with
  | Some _ => result = Ret (mkWorld ks1 db (Some tx), Ret Command_fmtZero)
  | None => exists tx' rv', is_hash tx' rv' (<[sk := v]> m) /\ rv_ttl rv' = old_ttl rv /\ untouched pk tx tx' /\ commits tx' Command_fmtOne result
  end.
Proof.
  intros Hc Hcl Hh Hk Hz result. unfold result, HSetNx_run. open_hash Hc Hh. exists ks1, tx. split; [done|].
  pose proof (hset_ok cfg sess chunkId pk (co_cat _ _ _ _ _ _ _ _ Hc) (co_chunk _ _ _ _ _ _ _ _ Hc) (co_db _ _ _ _ _ _ _ _ Hc) (proj2 (co_pk _ _ _ _ _ _ _ _ Hc)) (co_ep _ _ _ _ _ _ _ _ Hc) now true tx rv m sk v Hf Hk Hz) as E. cbn zeta in E.
  destruct (m !! sk); cbn in E.
  - unfold RETRY_CNT. cbn [retry]. unfold hsetGeneric. rewrite Ec, bind_Ret. setoid_rewrite E. done.
  - destruct E as (tx' & rv' & E & Hs & Ht & U). exists tx', rv'. repeat (split; [done|]). commit_hash Hop Hcl U. unfold hsetGeneric. rewrite Ec, bind_Ret. setoid_rewrite E. done.
Qed.

(** HDEL deletes the fields, answers with the number of those that were there, and deletes the
    hash with its last field. *)
Theorem hdel_correct rv m args :
  command_ok -> can_log sess ks -> hash_here rv m -> Forall (sub_ok pk) args -> zlen args < 2 ^ 32 -> zsize m < 2 ^ 64 ->
  let m' := hash_del args m in
  let result := HDel_run cfg sess mk now readMeta args w in
  (m = ∅ -> exists ks1, result = Ret (mkWorld ks1 db None, Ret Command_fmtZero)) /\
  (m <> ∅ -> exists tx tx', tx_db tx = db /\ untouched pk tx tx' /\
     commits tx' (Command_fmtLongLong (zsize m - zsize m')) result /\
     (m' = ∅ -> gone tx') /\ (m' <> ∅ -> exists rv', is_hash tx' rv' m' /\ rv_ttl rv' = old_ttl rv)).
Proof.
  intros Hc Hcl Hh Hall Hl Hz m' result. unfold result, HDel_run. open_hash Hc Hh. split.
  - intros Em. apply Hnone in Em as ->. by exists ks0.
  - intros Hne. destruct om as [v|]; [|by destruct Hne; apply Hnone]. destruct rv as [v'|c msg|]; [|destruct Hf as (_ & -> & _); done|done].
    destruct (hdel_ok cfg sess chunkId pk (co_cat _ _ _ _ _ _ _ _ Hc) (co_chunk _ _ _ _ _ _ _ _ Hc) (co_db _ _ _ _ _ _ _ _ Hc) (proj2 (co_pk _ _ _ _ _ _ _ _ Hc)) (co_ep _ _ _ _ _ _ _ _ Hc) now tx v' m args Hf Hall Hl Hz) as (tx' & E & U & Hg & Hs).
    exists tx, tx'. repeat (split; [done|]). split; [|by split]. apply (retry_commits cfg sess (proj1 Hcl) _ _ _ (mkWorld ks1 db (Some tx)) tx _ _ (Hop Hcl)); [by apply U| |].
    { destruct (decide (m' = ∅)) as [Em|Em]; [by destruct (Hg Em) as (_ & (? & _) & _)|]. destruct (Hs Em) as (rv' & Hr & _). by eapply is_hash_writable. }
    unfold hdel_round. rewrite Ec, bind_Ret. setoid_rewrite E. done.
Qed.

(** HINCRBY adds to the number of the field, 0 when there is none, and answers with the sum; a
    sum that does not fit and a field that is not a number are errors, and nothing is written. *)
Theorem hincrby_correct rv m sk val :
  command_ok -> can_log sess ks -> hash_here rv m -> sub_ok pk sk -> zsize m + 1 < 2 ^ 64 ->
  let result := HIncrBy_run cfg sess mk now readMeta sk val w in
  match string2ll val with
  | None => result = Ret (w, Throw ERR_INTERGER [])
  | Some inc =>
      exists ks1 tx, tx_db tx = db /\
      match field_number m sk with
      | Ret n =>
          if decide (is_s64 (n + inc)) then
            exists tx' rv', is_hash tx' rv' (<[sk := to_string (n + inc)]> m) /\ rv_ttl rv' = old_ttl rv /\ untouched pk tx tx' /\
              commits tx' (Command_fmtLongLong (n + inc)) result
          else result = Ret (mkWorld ks1 db (Some tx), Throw ERR_OVERFLOW (lit "increment or decrement would overflow"))
      | _ => result = Ret (mkWorld ks1 db (Some tx), Throw ERR_DECODE (lit "hash value is not an integer "))
      end
  end.
Proof.
  intros Hc Hcl Hh Hk Hz result. unfold result, HIncrBy_run. destruct (string2ll val) as [inc|] eqn:Ev; [|done].
  apply string2ll_sound in Ev as [Hinc _]. open_hash Hc Hh. exists ks1, tx. split; [done|].
  pose proof (hincr_ok cfg sess chunkId pk (co_cat _ _ _ _ _ _ _ _ Hc) (co_chunk _ _ _ _ _ _ _ _ Hc) (co_db _ _ _ _ _ _ _ _ Hc) (proj2 (co_pk _ _ _ _ _ _ _ _ Hc)) (co_ep _ _ _ _ _ _ _ _ Hc) now tx rv m sk inc Hf Hk Hinc Hz) as E.
  assert (forall c msg, hincr_body cfg sess mk now rv sk inc tx = Throw c msg -> c <> ERR_COMMIT_RETRY ->
    retry RETRY_CNT (hincrGeneric cfg sess mk now rv sk inc) (mkWorld ks0 db None) = Ret (mkWorld ks1 db (Some tx), Throw c msg)) as Herr.
  { intros c msg Eb Hn. unfold RETRY_CNT. cbn [retry]. unfold hincrGeneric. rewrite Ec, bind_Ret. setoid_rewrite Eb. cbn. by destruct c. }
  destruct (field_number m sk) as [n|code msg|] eqn:En; [|apply Herr|done].
  - destruct (decide _); [|by apply Herr]. destruct E as (tx' & rv' & E & Hs & Ht & U). exists tx', rv'. repeat (split; [done|]). commit_hash Hop Hcl U.
    unfold hincrGeneric. rewrite Ec, bind_Ret. setoid_rewrite E. done.
  - unfold field_number in En. destruct (m !! sk); [|done]. destruct (stoll _); [done|injection En as <- <-|done]. done.
  - unfold field_number in En. destruct (m !! sk); [|done]. destruct (stoll _); [done|by injection En as <- <-|done].
Qed.

(** The result of a command that compares the version of the hash, sets or adds to the fields, and
    gives the hash the version [cas]. *)
Definition cas_result (rv : M RecordValue) (m : gmap bytes bytes) (subargs : list bytes) (cmp vsn : Z) (newvsn : option Z) (result : M (World * M bytes)) : Prop :=
  exists ks1 tx, tx_db tx = db /\
  if cas_stale rv cmp vsn then result = Ret (mkWorld ks1 db (Some tx), Ret Command_fmtZero)
  else - 2 ^ 63 <= next_cas rv cmp vsn newvsn < 2 ^ 63 - 1 ->
    exists tx' rv', is_hash tx' rv' (hash_cas (last_ops subargs) m) /\ rv_cas rv' = next_cas rv cmp vsn newvsn /\ rv_ttl rv' = old_ttl rv /\ untouched pk tx tx' /\ commits tx' Command_fmtOne result.

Lemma cas_rounds_ok rv m subargs cmp vsn newvsn :
  command_ok -> can_log sess ks -> hash_here rv m -> subargs_ok pk m subargs -> zsize m + zlen (uniq_keys subargs) < 2 ^ 64 ->
  cas_result rv m subargs cmp vsn newvsn (retry RETRY_CNT (hmcas_round cfg sess mk now readMeta subargs cmp vsn newvsn) w).
Proof.
  intros Hc Hcl Hh Hs Hz. unfold cas_result. destruct (hash_open _ _ Hc Hh) as (ks0 & ks1 & tx & Er & Ec & Edb & Hf & Hop).
  destruct (found_parts cfg sess chunkId pk _ _ _ Hf) as (_ & _ & _ & _ & om & Hom & _). exists ks1, tx. split; [done|].
  pose proof (hmcas_ok cfg sess chunkId pk (co_cat _ _ _ _ _ _ _ _ Hc) (co_chunk _ _ _ _ _ _ _ _ Hc) (co_db _ _ _ _ _ _ _ _ Hc) (proj2 (co_pk _ _ _ _ _ _ _ _ Hc)) (co_ep _ _ _ _ _ _ _ _ Hc) now tx rv m subargs cmp vsn newvsn Hf Hs Hz) as E.
  assert (forall r, hmcas_body cfg sess mk now rv subargs cmp vsn newvsn tx = r ->
    hmcas cfg sess mk now readMeta subargs cmp vsn newvsn w = or_return (mkWorld ks1 db (Some tx)) r (fun tx' => commit_reply cfg sess (mkWorld ks1 db (Some tx)) tx' Command_fmtOne)) as Hrun.
  { intros r <-. unfold hmcas. rewrite Er, bind_Ret, Hom. cbn [or_return]. rewrite Ec, bind_Ret. done. }
  destruct (cas_stale rv cmp vsn).
  - unfold RETRY_CNT. cbn [retry]. unfold hmcas_round. by rewrite (Hrun _ E).
  - intros Hv. destruct (E Hv) as (tx' & rv' & Eb & Hst & Hca & Ht & U). exists tx', rv'. repeat (split; [done|]).
    destruct (commit_commits cfg sess (proj1 Hcl) (mkWorld ks1 db (Some tx)) tx tx' Command_fmtOne (Hop Hcl)) as (w2 & Ecm & Hcm); [by apply U|by eapply is_hash_writable|].
    exists w2. split; [|done]. unfold RETRY_CNT. cbn [retry]. unfold hmcas_round. rewrite (Hrun _ Eb). cbn [or_return]. by rewrite Ecm, !bind_Ret.
Qed.

(** HMCAS and HMCASV2 change the hash only when it has the version that the command names, or
    has none, or the command does not compare; otherwise they answer 0. Of several operations on
    a field the last one counts; a field is set or its number added to; the number of fields and
    the next version are written with them in one transaction. *)
Theorem hmcas_correct rv m ecmp evsn subargs cmp vsn :
  command_ok -> can_log sess ks -> hash_here rv m -> subargs_ok pk m subargs -> zsize m + zlen (uniq_keys subargs) < 2 ^ 64 ->
  zlen subargs mod 3 = 0 -> stoul ecmp = Ret cmp -> stoll evsn = Ret vsn -> cmp = 0 \/ cmp = 1 ->
  cas_result rv m subargs cmp vsn None (HMCas_run cfg sess mk now readMeta (ecmp :: evsn :: subargs) w) /\
  forall enew newvsn inc, stoll enew = Ret newvsn -> (inc = true -> cmp = 1 -> vsn < newvsn) ->
    cas_result rv m subargs cmp vsn (Some newvsn) (HMCasV2_run cfg sess mk now readMeta inc (ecmp :: evsn :: enew :: subargs) w).
Proof.
  intros Hc Hcl Hh Hs Hz Hl Ecmp Evsn Hcmp. assert (negb (cmp =? 0) && negb (cmp =? 1) = false) as Eb by (destruct Hcmp as [-> | ->]; done). split.
  - unfold HMCas_run. rewrite Hl, Ecmp, Evsn. cbn [or_return negb Z.eqb]. rewrite Eb. by apply cas_rounds_ok.
  - intros enew newvsn inc Enew Hinc. unfold HMCasV2_run. rewrite Hl. change (stoull ecmp) with (stoul ecmp). rewrite Ecmp, Evsn, Enew. cbn [or_return negb Z.eqb]. rewrite Eb.
    replace (inc && (newvsn <=? vsn) && negb (cmp =? 0)) with false; [by apply cas_rounds_ok|]. symmetry.
    destruct inc; [|done]. destruct Hcmp as [-> | ->]; [by rewrite andb_false_r|]. specialize (Hinc eq_refl eq_refl). cbn. lia.
Qed.

(** HMCAS that adds to a number past the end of 64 bits is undefined, whereas HINCRBY refuses
    it: the sum is not checked. *)
Theorem hmcas_add_undefined rv m evsn k arg n d :
  command_ok -> hash_here rv m -> sub_ok pk k -> stoll evsn = Ret 0 -> field_number m k = Ret n -> m !! k <> None -> stoll arg = Ret d -> ~ is_s64 (n + d) ->
  HMCas_run cfg sess mk now readMeta [lit "0"; evsn; k; lit "1"; arg] w = Crash CUndefined.
Proof.
  intros Hc Hh Hk Evsn En Hsome Ed Hov. unfold HMCas_run. rewrite Evsn. change (stoul (lit "0")) with (Ret 0 : M Z). cbn [or_return negb andb Z.eqb].
  change (zlen [k; lit "1"; arg] mod 3 =? 0) with true. cbn [negb]. unfold RETRY_CNT. cbn [retry]. unfold hmcas_round, hmcas. open_hash Hc Hh. rewrite Ec, bind_Ret.
  unfold hmcas_body. rewrite Hm, bind_Ret. cbn [negb andb Z.eqb]. unfold txn_access. rewrite Hd, bind_Ret. change (uniq_keys [k; lit "1"; arg]) with [(k, (lit "1", arg))]. cbn [hmcas_loop].
  change (field_key mk k) with (sub_key chunkId (sc_dbId sess) RT_HASH_ELE pk k).
  destruct (named_find cfg sess chunkId pk RT_HASH_ELE tx m k He Hk) as (o & -> & Eo). rewrite bind_Ret, hmcas_step_ok, Eo. unfold field_number in En.
  destruct (m !! k) as [v|]; [|done]. unfold field_update. change (stoul (lit "1")) with (Ret 1 : M Z). rewrite bind_Ret. cbn [Z.eqb OPSET OPADD Pos.eqb].
  destruct (stoll v) as [n'| |]; [injection En as ->|done|done]. rewrite bind_Ret, Ed, bind_Ret. unfold add_s64.
  replace ((LLONG_MIN <=? d + n) && (d + n <=? LLONG_MAX)) with false; [done|]. unfold is_s in Hov. unfold LLONG_MIN, LLONG_MAX. lia.
Qed.

(** ** Reading *)

Variable memLimit : Z -> M unit.

#[local] Abbreviation answers := (answers db).

Lemma hlen_ok rv m : command_ok -> hash_here rv m -> zsize m < 2 ^ 63 -> answers (HLen_run readMeta w) (Command_fmtLongLong (zsize m)).
Proof.
  intros Hc Hh Hz. unfold HLen_run. open_hash Hc Hh. exists (mkWorld ks0 db None). split; [|done]. destruct rv as [v|c msg|]; [|destruct Hf as ([-> | ->] & -> & _); by injection Hom as <-|done].
  cbn in Hom, Hm. injection Hom as <-. rewrite Hm. cbn [or_return hm_count]. pose proof (zsize_nonneg m). by rewrite s64_id by lia.
Qed.

Lemma hget_ok rv m sk : command_ok -> hash_here rv m -> sub_ok pk sk ->
  answers (HGet_run cfg sess mk readMeta sk w) (field_reply m sk) /\
  answers (HStrlen_run cfg sess mk readMeta sk w) (match m !! sk with Some v => Command_fmtLongLong (zlen v) | None => Command_fmtZero end) /\
  answers (HExists_run cfg sess mk readMeta sk w) (match m !! sk with Some _ => Command_fmtOne | None => Command_fmtZero end).
Proof.
  intros Hc Hh Hk. unfold HGet_run, HStrlen_run, HExists_run, HGetRecord_getRecord, txn_access. open_hash Hc Hh. unfold field_reply.
  destruct rv as [v|c msg|]; [|destruct Hf as (Hcc & -> & _); rewrite lookup_empty|done].
  - cbn [meta_or_none] in Hom. injection Hom as <-. cbn [or_return]. rewrite Ec, !bind_Ret, Hd, !bind_Ret.
    pose proof (proj2 (proj1 He) sk Hk) as Ha. change (field_key mk sk) with (sub_key chunkId (sc_dbId sess) RT_HASH_ELE pk sk). unfold elem_at in Ha.
    destruct (m !! sk) as [x|]; [destruct Ha as (rv & -> & Hwf & _ & <-)|destruct Ha as (msg & ->)]; cbn [meta_or_none find_record or_return].
    + pose proof (zlen_nonneg (rv_value rv)). assert (zlen (rv_value rv) < 2 ^ 62) by apply Hwf. rewrite s64_id by lia.
      split; [|split]; answered.
    + split; [|split]; answered.
  - destruct Hcc as [-> | ->]; injection Hom as <-; split; [|split | |split]; answered.
Qed.

Hypothesis Hmem : forall u, memLimit u = Ret tt.

Lemma hmget_ok rv m (returnVsn : bool) args : command_ok -> hash_here rv m -> Forall (sub_ok pk) args ->
  answers (HMGet_run cfg sess mk readMeta memLimit returnVsn args w)
    (Command_fmtMultiBulkLen [] (zlen args + (if returnVsn then 1 else 0)) ++
     (if returnVsn then match rv with Ret v => Command_fmtBulk (to_string (rv_cas v)) | _ => Command_fmtNull end else []) ++ concat (map (field_reply m) args)).
Proof.
  intros Hc Hh Hall. unfold HMGet_run, txn_access. open_hash Hc Hh. destruct rv as [v|c msg|]; [|destruct Hf as (Hcc & -> & _)|done].
  - injection Hom as <-. rewrite Ec, bind_Ret, Hd, bind_Ret. rewrite (hmget_loop_ok cfg sess chunkId pk memLimit Hmem tx m args) by done. cbn [or_return]. rewrite <-app_assoc. answered.
  - assert (om = None) as -> by (destruct Hcc as [-> | ->]; by injection Hom as <-). destruct returnVsn; answered.
Qed.

Lemma concat_map_single {A B} (f : A -> B) l : concat (map (fun x => [f x]) l) = map f l.
Proof. induction l as [|x l IH]; [done|]. cbn. by f_equal. Qed.

Lemma hall_get rv m : command_ok -> hash_here rv m ->
  exists w' rcds, HAll_getRecords sess mk readMeta memLimit w = Ret (w', Ret rcds) /\ w_db w' = db /\
    map (fun r => (rk_sk (fst r), rv_value (snd r))) rcds ≡ₚ map_to_list m.
Proof.
  intros Hc Hh. unfold HAll_getRecords, txn_access. open_hash Hc Hh. destruct om as [v|].
  - destruct (hall_records cfg sess chunkId pk (co_chunk _ _ _ _ _ _ _ _ Hc) (co_db _ _ _ _ _ _ _ _ Hc) (proj2 (co_pk _ _ _ _ _ _ _ _ Hc)) memLimit Hmem tx m He (proj1 (co_pk _ _ _ _ _ _ _ _ Hc))) as (rcds & Er' & Hp); [rewrite Edb; apply Hc|].
    eexists _, rcds. rewrite Ec, bind_Ret, Hd, bind_Ret, Er'. split; [reflexivity|done].
  - assert (m = ∅) as -> by by apply Hnone. eexists _, []. split; [reflexivity|]. split; [done|]. by rewrite map_to_list_empty.
Qed.

Lemma hall_ok rv m : command_ok -> hash_here rv m ->
  exists l, l ≡ₚ map_to_list m /\
    answers (HGetAll_run sess mk readMeta memLimit w) (Command_fmtMultiBulkLen [] (zlen l * 2) ++ concat (map Command_fmtBulk (concat (map (fun e => [e.1; e.2]) l)))) /\
    answers (HKeys_run sess mk readMeta memLimit w) (Command_fmtMultiBulkLen [] (zlen l) ++ concat (map Command_fmtBulk (map fst l))) /\
    answers (HVals_run sess mk readMeta memLimit w) (Command_fmtMultiBulkLen [] (zlen l) ++ concat (map Command_fmtBulk (map snd l))).
Proof.
  intros Hc Hh. destruct (hall_get rv m Hc Hh) as (w' & rcds & E & Ew & Hp). unfold HGetAll_run, HKeys_run, HVals_run, hall_reply. rewrite E, !bind_Ret. cbn [or_return].
  rewrite !(fmt_bulks_ok memLimit Hmem). cbn [or_return]. exists (map (fun r => (rk_sk (fst r), rv_value (snd r))) rcds). split; [done|].
  replace (zlen (map (fun r : RecordKey * RecordValue => (rk_sk (fst r), rv_value (snd r))) rcds)) with (zlen rcds) by (unfold zlen; by rewrite length_map).
  rewrite Z.mul_1_r, !map_map. cbn [fst snd].
  rewrite !concat_map_single, ?map_map. split; [|split]; (exists w'; split; [reflexivity|done]).
Qed.

(** HLEN, HEXISTS, HGET, HSTRLEN, HMGET, HMGETVSN, HKEYS, HVALS and HGETALL answer with what the
    hash holds - every field once, in the order of the store - and change nothing. *)
Theorem hash_reads_correct rv m sk (returnVsn : bool) args :
  command_ok -> hash_here rv m -> zsize m < 2 ^ 63 -> sub_ok pk sk -> Forall (sub_ok pk) args ->
  answers (HLen_run readMeta w) (Command_fmtLongLong (zsize m)) /\
  answers (HGet_run cfg sess mk readMeta sk w) (field_reply m sk) /\
  answers (HStrlen_run cfg sess mk readMeta sk w) (match m !! sk with Some v => Command_fmtLongLong (zlen v) | None => Command_fmtZero end) /\
  answers (HExists_run cfg sess mk readMeta sk w) (match m !! sk with Some _ => Command_fmtOne | None => Command_fmtZero end) /\
  answers (HMGet_run cfg sess mk readMeta memLimit returnVsn args w)
    (Command_fmtMultiBulkLen [] (zlen args + (if returnVsn then 1 else 0)) ++
     (if returnVsn then match rv with Ret v => Command_fmtBulk (to_string (rv_cas v)) | _ => Command_fmtNull end else []) ++ concat (map (field_reply m) args)) /\
  exists l, l ≡ₚ map_to_list m /\
    answers (HGetAll_run sess mk readMeta memLimit w) (Command_fmtMultiBulkLen [] (zlen l * 2) ++ concat (map Command_fmtBulk (concat (map (fun e => [e.1; e.2]) l)))) /\
    answers (HKeys_run sess mk readMeta memLimit w) (Command_fmtMultiBulkLen [] (zlen l) ++ concat (map Command_fmtBulk (map fst l))) /\
    answers (HVals_run sess mk readMeta memLimit w) (Command_fmtMultiBulkLen [] (zlen l) ++ concat (map Command_fmtBulk (map snd l))).
Proof.
  intros Hc Hh Hz Hk Hall. pose proof (hget_ok rv m sk Hc Hh Hk) as (H2 & H3 & H4). split; [by apply (hlen_ok rv)|]. split; [done|]. split; [done|]. split; [done|].
  split; [by apply hmget_ok|by apply (hall_ok rv)].
Qed.

End Commands.

(** * An example *)

#[local] Instance hash_build : BuildMode := true.

Definition demo_hset : SessionCtx := mkSess 0 MAXU64 false (lit "hset").
Definition demo_hpairs : list (bytes * bytes) := [(lit "f", lit "1"); (lit "g", lit "x")].
Definition demo_hnone : M RecordValue := Throw ERR_NOTFOUND [].
Definition demo_hempty : RocksTxn MemDB := RocksTxn_new 0 false ∅.

#[local] Abbreviation demo_hkey := (named_key demo_hset 7 (lit "h") RT_HASH_META).

(** A store with the hash that HMSET of two fields makes. *)
Definition demo_htxn : RocksTxn MemDB :=
  match hmset_body demo_cfg demo_hset demo_hkey 0 demo_hnone demo_hpairs demo_hempty with Ret (tx, _) => tx | _ => demo_hempty end.

Definition demo_hdb : MemDB := tx_db demo_htxn.

Definition demo_hmeta : RecordValue := RecordValue_new (HashMetaValue_encode (mkHashMeta 2)) RT_HASH_META MAXU64 0 (-1) 0 MAXU64.

Definition demo_hmap : gmap bytes bytes := hash_set demo_hpairs ∅.

Lemma demo_hempty_fields : named_elems (BM := true) demo_cfg demo_hset 7 (lit "h") RT_HASH_ELE demo_hempty ∅.
Proof.
  split; [split|apply map_Forall_empty].
  - split; [done|]. split; [done|]. split; [by vm_compute|done].
  - intros k Hk. rewrite lookup_empty. unfold elem_at. apply getKV_none.
    + apply sub_key_data; [|done]. split; [done|done|by split_and!].
    + unfold raw_record, demo_hempty. destruct (RecordKey_encode _); [|done..]. by rewrite mem_read.
Qed.

Lemma demo_hdb_puts : demo_hdb = put_record (demo_sub RT_HASH_META (lit "h") []) demo_hmeta
  (put_record (demo_sub RT_HASH_ELE (lit "h") (lit "g")) (demo_field (lit "x")) (put_record (demo_sub RT_HASH_ELE (lit "h") (lit "f")) (demo_field (lit "1")) ∅)).
Proof. apply (bool_decide_unpack _). vm_compute. exact I. Qed.

Lemma demo_hcommand : command_ok demo_cfg demo_hset 7 (lit "h") demo_store ∅ ∅ demo_hdb.
Proof.
  split; [done|split; [by apply (bool_decide_unpack _)|done]|done|done|done|done|apply demo_store_inv|done| |vm_compute; reflexivity].
  rewrite demo_hdb_puts. repeat (apply put_record_tidy; [|by apply RecordKey_wf_new|by apply (bool_decide_unpack _)|by split_and!; (done || (unfold is_u, MAXU64; cbn; lia))]).
  by intros k v.
Qed.

Lemma demo_hread : RocksKVStore_getKV demo_cfg demo_hkey demo_htxn = Ret demo_hmeta.
Proof. vm_compute. reflexivity. Qed.

Lemma demo_hstored : hash_stored demo_cfg demo_hset 7 (lit "h") demo_htxn demo_hmeta demo_hmap.
Proof.
  destruct demo_hcommand as [Hcat Hpk Hch Hdb Hep _ _ _ _ _].
  destruct (hmset_ok demo_cfg demo_hset 7 (lit "h") Hcat Hch Hdb (proj2 Hpk) Hep 0 demo_hempty demo_hnone ∅ demo_hpairs) as (tx' & rv' & E & Hs & _).
  - split; [by left|]. split; [done|exact demo_hempty_fields].
  - by repeat constructor.
  - done.
  - done.
  - done.
  - assert (demo_htxn = tx') as Et by (unfold demo_htxn; by rewrite E). rewrite <-Et in Hs. pose proof Hs as ((Eg & _) & _). rewrite demo_hread in Eg. by injection Eg as <-.
Qed.

Lemma demo_hhere : hash_here demo_cfg demo_hset 3 demo_params None 7 (lit "h") demo_hdb (Ret demo_hmeta) demo_hmap.
Proof.
  split; [vm_compute; reflexivity|]. split; [|by split_and!]. destruct demo_hstored as ((Eg & Hwf & Ht & He) & Hd). split; [|exact Hd]. split; [vm_compute; reflexivity|].
  split; [exact Hwf|]. split; [exact Ht|]. apply (named_elems_db demo_cfg demo_hset 7 (lit "h") RT_HASH_ELE demo_htxn); [reflexivity| |exact He].
  split; [done|]. split; [done|]. split; [by vm_compute|done].
Qed.

#[local] Abbreviation demo_hread_meta := (read_meta demo_cfg 0 demo_params demo_hset None 7 3 RT_HASH_META (lit "h")).
#[local] Abbreviation demo_hw := (mkWorld demo_store demo_hdb None).

#[local] Abbreviation demo_hargs := ([lit "f"; lit "1"; lit "k"; lit "2"; lit "f"; lit "3"]).

Lemma demo_hlog : can_log demo_hset demo_store.
Proof. by repeat split. Qed.

Lemma hset_correct_witness :
  exists tx tx' rv', tx_db tx = demo_hdb /\
    hash_stored demo_cfg demo_hset 7 (lit "h") tx' rv' (hash_set (pairs_of demo_hargs) demo_hmap) /\
    rv_ttl rv' = old_ttl (Ret demo_hmeta) /\ rv_cas rv' = -1 /\ untouched (lit "h") tx tx' /\
    commits (BM := true) tx' (Command_fmtLongLong 1) (HMSet_run demo_cfg demo_hset demo_hkey 0 demo_hread_meta false demo_hargs demo_hw).
Proof.
  assert (zsize (hash_set (pairs_of demo_hargs) demo_hmap) - zsize demo_hmap = 1) as Ez by (vm_compute; reflexivity).
  pose proof (hset_correct demo_cfg demo_hset 0 3 demo_params None 7 (lit "h") demo_store ∅ ∅ demo_hdb (Ret demo_hmeta) demo_hmap false demo_hargs demo_hcommand demo_hlog demo_hhere) as Hx.
  cbn zeta in Hx. rewrite Ez in Hx. apply Hx.
  - reflexivity.
  - intros E. discriminate E.
  - by repeat constructor.
  - reflexivity.
  - vm_compute. reflexivity.
Defined.

Lemma hsetnx_correct_witness :
  exists ks1 tx, tx_db tx = demo_hdb /\
    HSetNx_run demo_cfg demo_hset demo_hkey 0 demo_hread_meta (lit "f") (lit "9") demo_hw = Ret (mkWorld ks1 demo_hdb (Some tx), Ret Command_fmtZero).
Proof.
  pose proof (hsetnx_correct demo_cfg demo_hset 0 3 demo_params None 7 (lit "h") demo_store ∅ ∅ demo_hdb (Ret demo_hmeta) demo_hmap (lit "f") (lit "9") demo_hcommand demo_hlog demo_hhere) as Hx.
  cbn zeta in Hx. assert (demo_hmap !! lit "f" = Some (lit "1")) as Ef by (vm_compute; reflexivity). rewrite Ef in Hx. apply Hx.
  - by split.
  - vm_compute. reflexivity.
Defined.

#[local] Abbreviation demo_hdel := ([lit "f"; lit "q"; lit "g"; lit "f"]).

Lemma hdel_correct_witness :
  exists tx tx', tx_db tx = demo_hdb /\ untouched (lit "h") tx tx' /\
    commits (BM := true) tx' (Command_fmtLongLong 2) (HDel_run demo_cfg demo_hset demo_hkey 0 demo_hread_meta demo_hdel demo_hw) /\
    named_gone demo_cfg demo_hset 7 (lit "h") RT_HASH_META RT_HASH_ELE tx'.
Proof.
  assert (zsize demo_hmap - zsize (hash_del demo_hdel demo_hmap) = 2) as Ez by (vm_compute; reflexivity).
  assert (hash_del demo_hdel demo_hmap = ∅) as Ed by (apply (bool_decide_unpack _); vm_compute; exact I).
  pose proof (hdel_correct demo_cfg demo_hset 0 3 demo_params None 7 (lit "h") demo_store ∅ ∅ demo_hdb (Ret demo_hmeta) demo_hmap demo_hdel demo_hcommand demo_hlog demo_hhere) as Hx.
  cbn zeta in Hx. rewrite Ez in Hx. destruct Hx as [_ Hx]; [by repeat constructor|reflexivity|vm_compute; reflexivity|].
  destruct Hx as (tx & tx' & E & U & Hc & Hg & _); [by apply (bool_decide_unpack _); vm_compute|]. exists tx, tx'. by split_and!; [..|apply Hg].
Defined.

Lemma hincrby_correct_witness :
  exists (ks1 : RocksKVStore) tx, tx_db tx = demo_hdb /\ exists tx' rv', hash_stored demo_cfg demo_hset 7 (lit "h") tx' rv' (<[lit "f" := to_string (1 + -5)]> demo_hmap) /\
    rv_ttl rv' = old_ttl (Ret demo_hmeta) /\ untouched (lit "h") tx tx' /\
    commits (BM := true) tx' (Command_fmtLongLong (1 + -5))
      (HIncrBy_run demo_cfg demo_hset demo_hkey 0 demo_hread_meta (lit "f") (lit "-5") demo_hw).
Proof.
  pose proof (hincrby_correct demo_cfg demo_hset 0 3 demo_params None 7 (lit "h") demo_store ∅ ∅ demo_hdb (Ret demo_hmeta) demo_hmap (lit "f") (lit "-5") demo_hcommand demo_hlog demo_hhere) as Hx.
  cbn zeta in Hx. assert (string2ll (lit "-5") = Some (-5)) as Ei by (vm_compute; reflexivity). rewrite Ei in Hx.
  assert (field_number demo_hmap (lit "f") = Ret 1) as En by (vm_compute; reflexivity). rewrite En in Hx. apply Hx.
  - vm_compute. reflexivity.
  - vm_compute. reflexivity.
Defined.

#[local] Abbreviation demo_hops := ([lit "f"; lit "0"; lit "zz"; lit "g"; lit "0"; lit "y"; lit "f"; lit "1"; lit "41"]).

Lemma demo_hops_ok : subargs_ok (lit "h") demo_hmap demo_hops.
Proof.
  split; [done|].
  assert (Forall (fun e => cas_entry_ok (lit "h") demo_hmap e) (map_to_list (last_ops demo_hops))) as Hall.
  - replace (map_to_list (last_ops demo_hops)) with [(lit "g", (lit "0", lit "y")); (lit "f", (lit "1", lit "41"))] by (vm_compute; reflexivity).
    repeat constructor; [exists (lit "y")|exists (lit "42")]; (split; [vm_compute; reflexivity|done]).
  - intros k e E. rewrite Forall_forall in Hall. apply (Hall (k, e)). by apply elem_of_map_to_list.
Qed.

Lemma hmcas_correct_witness :
  cas_result demo_cfg demo_hset 7 (lit "h") demo_hdb (Ret demo_hmeta) demo_hmap demo_hops 1 5 None
    (HMCas_run demo_cfg demo_hset demo_hkey 0 demo_hread_meta (lit "1" :: lit "5" :: demo_hops) demo_hw).
Proof.
  refine (proj1 (hmcas_correct demo_cfg demo_hset 0 3 demo_params None 7 (lit "h") demo_store ∅ ∅ demo_hdb (Ret demo_hmeta) demo_hmap (lit "1") (lit "5") demo_hops 1 5
    demo_hcommand demo_hlog demo_hhere demo_hops_ok _ _ _ _ _)).
  - vm_compute. reflexivity.
  - reflexivity.
  - vm_compute. reflexivity.
  - vm_compute. reflexivity.
  - by right.
Defined.

Lemma hmcas_add_undefined_witness :
  HMCas_run demo_cfg demo_hset demo_hkey 0 demo_hread_meta [lit "0"; lit "0"; lit "f"; lit "1"; lit "9223372036854775807"] demo_hw = Crash CUndefined.
Proof.
  apply (hmcas_add_undefined demo_cfg demo_hset 0 3 demo_params None 7 (lit "h") demo_store ∅ ∅ demo_hdb (Ret demo_hmeta) demo_hmap (lit "0") (lit "f") (lit "9223372036854775807") 1
    9223372036854775807 demo_hcommand demo_hhere).
  - reflexivity.
  - vm_compute. reflexivity.
  - vm_compute. reflexivity.
  - by apply (bool_decide_unpack _); vm_compute.
  - vm_compute. reflexivity.
  - unfold is_s. lia.
Defined.

Lemma hash_reads_correct_witness :
  answers demo_hdb (HGet_run demo_cfg demo_hset demo_hkey demo_hread_meta (lit "g") demo_hw) (field_reply demo_hmap (lit "g")).
Proof.
  refine (proj1 (proj2 (hash_reads_correct demo_cfg demo_hset 0 3 demo_params None 7 (lit "h") demo_store ∅ ∅ demo_hdb (fun _ => Ret tt) (fun _ => eq_refl) (Ret demo_hmeta) demo_hmap (lit "g") false []
    demo_hcommand demo_hhere _ _ _))).
  - vm_compute. reflexivity.
  - reflexivity.
  - constructor.
Defined.
