(* ===== verification/Members.v ===== *)
(** The commands of sets (commands/set.cpp): a set is a meta record with the number of its members
    and a record for every member, under its name. The meta record also keeps the member where the
    next SPOP starts. *)

From Stdlib Require Import Strings.Byte ZArith Lia.
From stdpp Require Import base list numbers strings gmap.
From S2P Require Import Prelude Status Varint Strings Number Record RecordValue RecordMeta ReplLog BinlogSeq Txn Store Cursor Command Keys.

Local Open Scope Z_scope.

(** [std::set] of strings. *)
Fixpoint sset_insert (k : bytes) (l : list bytes) : list bytes :=
  match l with
  | [] => [k]
  | k' :: l' => if bool_decide (k = k') then l else if bytes_lt k k' then k :: l else k' :: sset_insert k l'
  end.

Definition sset_erase (k : bytes) (l : list bytes) : list bytes := List.filter (fun x => negb (bool_decide (x = k))) l.

(** The loops that look at the records with a prefix. *)
Fixpoint prefix_fold {BM : BuildMode} {A} (fuel : nat) (step : A -> RecordKey * RecordValue -> M A) (prefix : bytes) (cursor : DataCursor) (acc : A) : M A :=
  match fuel with
  | O => Crash CUndefined
  | S fuel' =>
      '(cursor, exptRcd) ← BasicDataCursor_next cursor;
      match exptRcd with
      | Throw ERR_EXHAUST _ => Ret acc
      | Throw code msg => Throw code msg
      | Crash c => Crash c
      | Ret rcd =>
          p ← RecordKey_prefixPk (fst rcd);
          if negb (bool_decide (p = prefix)) then Ret acc else
          acc ← step acc rcd;
          prefix_fold fuel' step prefix cursor acc
      end
  end.

Section Members.
Context {BM : BuildMode} {T : Type} `{RocksIter T}.
Variable cfg : StoreCfg.
Variable sess : SessionCtx.
Variable now : Z.
(** The chunk of a key, and [expireKeyIfNeeded] of a key. *)
Variable chunkOf : bytes -> Z.
Variable readMeta : bytes -> World (T := T) -> M (World (T := T) * M RecordValue).
(** The check of the memory that the command has used. *)
Variable memLimit : Z -> M unit.

#[local] Abbreviation World := (World (T := T)).

Definition set_key (key : bytes) : RecordKey := RecordKey_new (chunkOf key) (sc_dbId sess) RT_SET_META key [] 0.

Definition member_key (key sk : bytes) : RecordKey := RecordKey_new (chunkOf key) (sc_dbId sess) RT_SET_ELE key sk 0.

Definition member_record : RecordValue := RecordValue_new [] RT_SET_ELE MAXU64 0 (-1) 0 MAXU64.

(** The meta record that replaces [rv]. *)
Definition set_record (rv : M RecordValue) (sm : SetMetaValue) : RecordValue :=
  RecordValue_update (SetMetaValue_encode sm) RT_SET_META (sc_versionEP sess) (old_ttl rv) rv.

(** ** SREM and SADD *)

Fixpoint srem_loop (key : bytes) (sm : SetMetaValue) (args : list bytes) (cnt : Z) (reset : bool) (tx : RocksTxn T) : M (RocksTxn T * Z * bool) :=
  match args with
  | [] => Ret (tx, cnt, reset)
  | a :: args' =>
      o ← find_record (RocksKVStore_getKV cfg (member_key key a) tx);
      match o with
      | None => srem_loop key sm args' cnt reset tx
      | Some _ =>
          tx ← RocksKVStore_delKV cfg (member_key key a) tx now;
          srem_loop key sm args' (u64 (cnt + 1)) (reset || (0 <? zlen (sm_skIndex sm)) && bool_decide (sm_skIndex sm = a)) tx
      end
  end.

Definition genericSRem (key : bytes) (rv : M RecordValue) (args : list bytes) (tx : RocksTxn T) : M (RocksTxn T * bytes) :=
  match rv with
  | Ret v =>
      sm ← expect_ok (SetMetaValue_decode (rv_value v));
      '(tx, cnt, reset) ← srem_loop key sm args 0 false tx;
      _ ← INVARIANT_D (cnt <=? sm_count sm);
      tx ← (if sm_count sm <=? cnt then Command_delKeyAndTTL cfg sess (set_key key) v tx now
            else RocksKVStore_setKV cfg (set_key key)
                   (set_record rv (mkSetMeta (u64 (sm_count sm - cnt)) (if reset : bool then [] else sm_skIndex sm))) tx now);
      Ret (tx, Command_fmtLongLong (s64 cnt))
  | Throw ERR_NOTFOUND _ | Throw ERR_EXPIRED _ => Ret (tx, Command_fmtZero)
  | Throw c msg => Throw c msg
  | Crash c => Crash c
  end.

Fixpoint sadd_loop (key : bytes) (sm : SetMetaValue) (args : list bytes) (cnt : Z) (reset : bool) (tx : RocksTxn T) : M (RocksTxn T * Z * bool) :=
  match args with
  | [] => Ret (tx, cnt, reset)
  | a :: args' =>
      o ← find_record (RocksKVStore_getKV cfg (member_key key a) tx);
      match o with
      | Some _ => sadd_loop key sm args' cnt reset tx
      | None =>
          tx ← RocksKVStore_setKV cfg (member_key key a) member_record tx now;
          sadd_loop key sm args' (u64 (cnt + 1)) (reset || (0 <? zlen (sm_skIndex sm)) && bytes_lt a (sm_skIndex sm)) tx
      end
  end.

(** The members are the arguments from the third on. *)
Definition genericSAdd (key : bytes) (rv : M RecordValue) (members : list bytes) (tx : RocksTxn T) : M (RocksTxn T * bytes) :=
  match members with
  | [] => Ret (tx, Command_fmtZero)
  | _ =>
      o ← meta_or_none rv;
      sm ← match o with Some v => expect_ok (SetMetaValue_decode (rv_value v)) | None => Ret (mkSetMeta 0 []) end;
      '(tx, cnt, reset) ← sadd_loop key sm members 0 false tx;
      let sm := mkSetMeta (u64 (sm_count sm + cnt)) (if reset : bool then [] else sm_skIndex sm) in
      tx ← RocksKVStore_setKV cfg (set_key key) (set_record rv sm) tx now;
      Ret (tx, Command_fmtLongLong (s64 cnt))
  end.

(** The loops around [genericSAdd] and [genericSRem] go on only when these ask for it, which no
    read or write of a transaction does: a failed commit is returned. *)
Definition SAdd_run (key : bytes) (members : list bytes) (w : World) : M (World * M bytes) :=
  '(w, rv) ← readMeta key w;
  or_return w (meta_or_none rv) (fun _ =>
  '(w, tx) ← SessionCtx_createTransaction sess w;
  _ ← txn_access tx;
  or_return w (genericSAdd key rv members tx) (fun '(tx, s) => commit_reply cfg sess w tx s)).

Definition SRem_run (key : bytes) (members : list bytes) (w : World) : M (World * M bytes) :=
  '(w, rv) ← readMeta key w;
  or_return w (meta_or_none rv) (fun _ =>
  '(w, tx) ← SessionCtx_createTransaction sess w;
  _ ← txn_access tx;
  or_return w (genericSRem key rv members tx) (fun '(tx, s) => commit_reply cfg sess w tx s)).

(** ** Reading *)

Definition SCard_run (key : bytes) (w : World) : M (World * M bytes) :=
  '(w, rv) ← readMeta key w;
  or_return w (meta_or_none rv) (fun o =>
  match o with
  | None => Ret (w, Ret Command_fmtZero)
  | Some v => or_return w (SetMetaValue_decode (rv_value v)) (fun sm => Ret (w, Ret (Command_fmtLongLong (s64 (sm_count sm)))))
  end).

Definition SIsMember_run (key subkey : bytes) (w : World) : M (World * M bytes) :=
  '(w, rv) ← readMeta key w;
  or_return w (meta_or_none rv) (fun o =>
  match o with
  | None => Ret (w, Ret Command_fmtZero)
  | Some _ =>
      '(w, tx) ← SessionCtx_createTransaction sess w;
      _ ← txn_access tx;
      or_return w (find_record (RocksKVStore_getKV cfg (member_key key subkey) tx)) (fun o =>
      Ret (w, Ret (match o with Some _ => Command_fmtOne | None => Command_fmtZero end)))
  end).

(** The members of a key, one after the other. *)
Definition scan_members {A} (key : bytes) (step : A -> bytes -> M A) (tx : RocksTxn T) (acc : A) : M A :=
  prefix ← RecordKey_prefixPk (member_key key []);
  prefix_fold (scan_fuel tx) (fun acc rcd => step acc (rk_sk (fst rcd))) prefix (DataCursor_seek (RocksTxn_createDataCursor tx) prefix) acc.

(** A string that the command keeps. *)
Definition charge (used : Z) (sk : bytes) : M Z :=
  _ ← memLimit (used + zlen sk);
  Ret (used + zlen sk).

Definition SMembers_run (key : bytes) (w : World) : M (World * M bytes) :=
  '(w, rv) ← readMeta key w;
  or_return w (meta_or_none rv) (fun o =>
  match o with
  | None => Ret (w, Ret Command_fmtZeroBulkLen)
  | Some v =>
      '(w, tx) ← SessionCtx_createTransaction sess w;
      _ ← txn_access tx;
      or_return w (expect_ok (SetMetaValue_decode (rv_value v))) (fun sm =>
      let ssize := s64 (sm_count sm) in
      or_return w (scan_members key (fun '(used, cnt, ss) sk => used ← charge used sk; Ret (used, cnt + 1, ss ++ Command_fmtBulk sk)) tx
                     (0, 0, Command_fmtMultiBulkLen [] ssize)) (fun '(_, cnt, ss) =>
      or_return w (_ ← INVARIANT_D (cnt =? ssize); if cnt =? ssize then Ret ss else
                     type ← RecordKey_getRecordValueType (set_key key); msg ← makeInvalidErrStr type key (u64 ssize) (u64 cnt); Throw ERR_DECODE msg) (fun ss =>
      Ret (w, Ret ss))))
  end).

(** SRANDMEMBER; [r] is the number that [random] gives. *)
Fixpoint rand_loop (fuel : nat) (beginIdx ssize remain : Z) (cursor : DataCursor) (cnt used : Z) (vals : list bytes) : M (list bytes * Z) :=
  match fuel with
  | O => Crash CUndefined
  | S fuel' =>
      '(cursor, exptRcd) ← BasicDataCursor_next cursor;
      match exptRcd with
      | Throw ERR_EXHAUST _ => Ret (vals, used)
      | Throw code msg => Throw code msg
      | Crash c => Crash c
      | Ret rcd =>
          let skip := cnt <? beginIdx in
          let cnt := u32 (cnt + 1) in
          if skip then rand_loop fuel' beginIdx ssize remain cursor cnt used vals else
          if ssize <? cnt then Ret (vals, used) else
          if zlen vals <? remain then
            used ← charge used (rk_sk (fst rcd));
            rand_loop fuel' beginIdx ssize remain cursor cnt used (vals ++ [rk_sk (fst rcd)])
          else Ret (vals, used)
      end
  end.

(** [n] bulk strings, going round the members. *)
Fixpoint rand_reply (n : nat) (cur vals : list bytes) (used : Z) (ss : bytes) : M bytes :=
  match n with
  | O => Ret ss
  | S n' =>
      match cur with
      | v :: cur' =>
          used ← charge used v;
          rand_reply n' cur' vals used (ss ++ Command_fmtBulk v)
      | [] =>
          match vals with
          | v :: cur' =>
              used ← charge used v;
              rand_reply n' cur' vals used (ss ++ Command_fmtBulk v)
          | [] => Crash CUndefined
          end
      end
  end.

(** Where the members start, and how many there are. *)
Definition rand_window (ssize bulk : Z) (negative : bool) (r : Z) : M (Z * Z) :=
  if ssize <? bulk then Ret (0, u32 (if negative then bulk else ssize)) else
  let remain := u32 bulk in
  let offset := u32 (ssize - remain + 1) in
  let n := if 1024 * 16 <? offset then 1024 * 16 else offset in
  if n =? 0 then Crash CUndefined else Ret (u32 r mod n, remain).

Definition invalid_set {A} (key : bytes) : M A := Throw ERR_DECODE (lit "invalid set meta" ++ key).

Definition rand_members (key : bytes) (v : RecordValue) (bulk : Z) (negative explictBulk : bool) (r : Z) (tx : RocksTxn T) : M bytes :=
  sm ← match SetMetaValue_decode (rv_value v) with Throw _ _ => _ ← INVARIANT_D false; invalid_set key | sm => sm end;
  let ssize := s64 (sm_count sm) in
  _ ← INVARIANT_D (negb (ssize =? 0));
  if ssize =? 0 then invalid_set key else
  '(beginIdx, remain) ← rand_window ssize bulk negative r;
  if 1024 * 16 <? remain then Throw ERR_INTERNAL (lit "bulk too big") else
  prefix ← RecordKey_prefixPk (member_key key []);
  '(vals, used) ← rand_loop (scan_fuel tx) beginIdx ssize remain (DataCursor_seek (RocksTxn_createDataCursor tx) prefix) 0 0 [];
  _ ← INVARIANT_D (negb (zlen vals =? 0));
  match vals with
  | [] => invalid_set key
  | v0 :: _ =>
      if (bulk =? 1) && negb explictBulk then Ret (Command_fmtBulk v0) else
      _ ← INVARIANT_D ((remain =? zlen vals) || negative);
      rand_reply (Z.to_nat remain) vals vals used (Command_fmtMultiBulkLen [] remain)
  end.

Definition SRandMember_run (key : bytes) (count : option bytes) (r : Z) (w : World) : M (World * M bytes) :=
  let go bulk negative explictBulk w :=
    '(w, rv) ← readMeta key w;
    or_return w (meta_or_none rv) (fun o =>
    match o with
    | None => Ret (w, Ret (if (bulk =? 1) && negb explictBulk then Command_fmtNull else Command_fmtZeroBulkLen))
    | Some v =>
        '(w, tx) ← SessionCtx_createTransaction sess w;
        _ ← txn_access tx;
        or_return w (rand_members key v bulk negative explictBulk r tx) (fun ss => Ret (w, Ret ss))
    end) in
  match count with
  | None => go 1 false false w
  | Some s =>
      or_return w (stoll s) (fun bulk =>
      if bulk =? 0 then Ret (w, Ret Command_fmtZeroBulkLen) else
      if bulk <? 0 then (if bulk =? LLONG_MIN then Crash CUndefined else go (- bulk) true true w)
      else go bulk false true w)
  end.

(** ** SPOP *)

Fixpoint spop_del (rcds : list (RecordKey * RecordValue)) (used : Z) (ss : bytes) (tx : RocksTxn T) : M (RocksTxn T * bytes * Z) :=
  match rcds with
  | [] => Ret (tx, ss, used)
  | rcd :: rcds' =>
      tx ← RocksKVStore_delKV cfg (fst rcd) tx now;
      used ← charge used (rk_sk (fst rcd));
      spop_del rcds' used (ss ++ Command_fmtBulk (rk_sk (fst rcd))) tx
  end.

(** The rounds; every one takes the members off the count again. *)
Fixpoint spop_rounds (n : nat) (key : bytes) (v : RecordValue) (sm : SetMetaValue) (rcds : list (RecordKey * RecordValue)) (used : Z) (skIndex : bytes)
  (specificCount deleteMeta : bool) (w : World) : M (World * M bytes) :=
  match n with
  | O => _ ← INVARIANT_D false; Ret (w, Throw ERR_INTERNAL (lit "not reachable"))
  | S n' =>
      '(w, tx) ← SessionCtx_createTransaction sess w;
      _ ← txn_access tx;
      or_return w (spop_del rcds used (if specificCount then Command_fmtMultiBulkLen [] (zlen rcds) else []) tx) (fun '(tx, ss, used) =>
      let sm := if deleteMeta then sm else mkSetMeta (u64 (sm_count sm - zlen rcds)) (if 0 <? zlen skIndex then skIndex else sm_skIndex sm) in
      or_return w (if deleteMeta then Command_delKeyAndTTL cfg sess (set_key key) v tx now
                   else RocksKVStore_setKV cfg (set_key key) (set_record (Ret v) sm) tx now) (fun tx =>
      '(w, expCmt) ← SessionCtx_commitTransaction cfg sess w tx;
      match expCmt with
      | Throw ERR_COMMIT_RETRY msg => if Nat.eqb n' 0 then Ret (w, Throw ERR_COMMIT_RETRY msg) else spop_rounds n' key v sm rcds used skIndex specificCount deleteMeta w
      | _ => Ret (w, _ ← expCmt; Ret ss)
      end))
  end.

(** The records of the next members, and the member after them: one more is read. *)
Definition spop_batch (key : bytes) (sm : SetMetaValue) (count : Z) (tx : RocksTxn T) : M (list (RecordKey * RecordValue) * bytes * Z) :=
  spopFrom ← (if 0 <? zlen (sm_skIndex sm) then RecordKey_encode (member_key key (sm_skIndex sm)) else Ret (lit "0"));
  let countAddNext := u32 (count + 1) in
  prefix ← RecordKey_prefixPk (member_key key []);
  batch ← Command_scanSimple memLimit prefix spopFrom countAddNext tx;
  let used := foldr (fun r n => record_memory r + n) 0 batch in
  if zlen batch =? countAddNext then
    match last batch with
    | Some rcd => Ret (removelast batch, rk_sk (fst rcd), used)
    | None => Crash CUndefined
    end
  else Ret (batch, [], used).

Definition SPop_run (key : bytes) (count : option bytes) (w : World) : M (World * M bytes) :=
  let specificCount := match count with Some _ => true | None => false end in
  or_return w (match count with None => Ret 1 | Some s => c ← stoul s; Ret (u32 c) end) (fun count =>
  '(w, rv) ← readMeta key w;
  or_return w (meta_or_none rv) (fun o =>
  match o with
  | None => Ret (w, Ret Command_fmtNull)
  | Some v =>
      or_return w (SetMetaValue_decode (rv_value v)) (fun sm =>
      '(w, tx) ← SessionCtx_createTransaction sess w;
      _ ← txn_access tx;
      or_return w (spop_batch key sm count tx) (fun '(rcds, skIndex, used) =>
      if zlen rcds =? 0 then Ret (w, Ret Command_fmtNull) else
      _ ← INVARIANT_D (zlen rcds <=? sm_count sm);
      _ ← INVARIANT_D ((zlen rcds =? count) || (zlen rcds =? sm_count sm));
      spop_rounds RETRY_CNT key v sm rcds used skIndex specificCount (sm_count sm <=? zlen rcds) w))
  end)).

(** ** Several sets *)

(** A transaction of the session that has written nothing reads the database as it is. *)
Definition open_read (w : World) : M (World * RocksTxn T) :=
  '(w, tx) ← SessionCtx_createTransaction sess w;
  _ ← txn_access tx;
  let tx := tx_with_db tx (w_db w) in
  Ret (mkWorld (w_store w) (w_db w) (Some tx), tx).

Fixpoint member_bulks (vals : list bytes) (used : Z) (ss : bytes) : M bytes :=
  match vals with
  | [] => Ret ss
  | v :: vals' =>
      used ← charge used v;
      member_bulks vals' used (ss ++ Command_fmtBulk v)
  end.

(** The settings of [delGeneric]. *)
Variables (srv : ServerParams) (multi : option Z) (currentTs : Z).

(** The members become the set [storeKey], which is deleted before. *)
Definition store_members (storeKey : bytes) (members : list bytes) (w : World) : M (World * M bytes) :=
  '(w, tx) ← open_read w;
  '(ks, db, deleted) ← Command_delKeyChkExpire cfg now srv sess multi (chunkOf storeKey) currentTs storeKey RT_DATA_META (w_store w) (w_db w) tx;
  let w := mkWorld ks db (w_txn w) in
  or_return w deleted (fun '(tx, _) =>
  or_return w (genericSAdd storeKey (Throw ERR_NOTFOUND []) members tx) (fun '(tx, s) => commit_reply cfg sess w tx s)).

(** SDIFF and SDIFFSTORE. *)
Definition sdiff_step (first : bool) (acc : Z * list bytes) (sk : bytes) : M (Z * list bytes) :=
  let '(used, result) := acc in
  if first then used ← charge used sk; Ret (used, sset_insert sk result) else Ret (used, sset_erase sk result).

Fixpoint sdiff_loop (first : bool) (keys : list bytes) (acc : Z * list bytes) (w : World) : M (World * M (Z * list bytes)) :=
  match keys with
  | [] => Ret (w, Ret acc)
  | key :: keys' =>
      '(w, rv) ← readMeta key w;
      or_return w (meta_or_none rv) (fun o =>
      match o with
      | None => sdiff_loop false keys' acc w
      | Some _ =>
          '(w, tx) ← open_read w;
          or_return w (scan_members key (sdiff_step first) tx acc) (fun acc =>
          sdiff_loop false keys' acc w)
      end)
  end.

Definition SDiff_run (store : option bytes) (keys : list bytes) (w : World) : M (World * M bytes) :=
  '(w, acc) ← sdiff_loop true keys (0, []) w;
  or_return w acc (fun '(used, result) =>
  match store with
  | None => or_return w (member_bulks result used (Command_fmtMultiBulkLen [] (zlen result))) (fun ss => Ret (w, Ret ss))
  | Some storeKey => store_members storeKey result w
  end).

(** SUNION and SUNIONSTORE; [order] is the order of the hash table. *)
Definition sunion_step (acc : Z * list bytes) (sk : bytes) : M (Z * list bytes) :=
  let '(used, result) := acc in
  if bool_decide (sk ∈ result) then Ret acc else used ← charge used sk; Ret (used, result ++ [sk]).

Fixpoint sunion_loop (keys : list bytes) (acc : Z * list bytes) (w : World) : M (World * M (Z * list bytes)) :=
  match keys with
  | [] => Ret (w, Ret acc)
  | key :: keys' =>
      '(w, rv) ← readMeta key w;
      or_return w (meta_or_none rv) (fun o =>
      match o with
      | None => sunion_loop keys' acc w
      | Some _ =>
          '(w, tx) ← open_read w;
          or_return w (scan_members key sunion_step tx acc) (fun acc =>
          sunion_loop keys' acc w)
      end)
  end.

Definition SUnion_run (order : list bytes -> list bytes) (store : option bytes) (keys : list bytes) (w : World) : M (World * M bytes) :=
  '(w, acc) ← sunion_loop keys (0, []) w;
  or_return w acc (fun '(_, result) =>
  match store with
  | None => Ret (w, Ret (Command_fmtMultiBulkLen [] (zlen result) ++ concat (map Command_fmtBulk (order result))))
  | Some storeKey => store_members storeKey (order result) w
  end).

(** SINTER and SINTERSTORE: the sets with their sizes; [None] when the reply is null. *)
Fixpoint sinter_sets (store : bool) (keys : list bytes) (setList : list (bytes * Z)) (w : World) : M (World * M (option (list (bytes * Z)))) :=
  match keys with
  | [] => Ret (w, Ret (Some setList))
  | key :: keys' =>
      '(w, rv) ← readMeta key w;
      or_return w (meta_or_none rv) (fun o =>
      match o with
      | None => if store then sinter_sets store keys' setList w else Ret (w, Ret None)
      | Some v =>
          match SetMetaValue_decode (rv_value v) with
          | Ret sm =>
              if sm_count sm =? 0 then (if store then sinter_sets store keys' setList w else Ret (w, Ret None))
              else sinter_sets store keys' (setList ++ [(key, sm_count sm)]) w
          | _ => Crash CUndefined
          end
      end)
  end.

(** The members that are in the set [key] too. *)
Fixpoint sinter_keep (key : bytes) (result : list bytes) (tx : RocksTxn T) : M (list bytes) :=
  match result with
  | [] => Ret []
  | sk :: result' =>
      subValue ← status_of (RocksKVStore_getKV cfg (member_key key sk) tx);
      rest ← sinter_keep key result' tx;
      Ret (match subValue with Ret _ => sk :: rest | _ => rest end)
  end.

Fixpoint sinter_loop (store : bool) (setList : list (bytes * Z)) (acc : Z * list bytes) (w : World) : M (World * M (option (Z * list bytes))) :=
  match setList with
  | [] => Ret (w, Ret (Some acc))
  | (key, _) :: setList' =>
      '(w, tx) ← open_read w;
      if zlen (snd acc) =? 0 then (if store then Ret (w, Ret (Some acc)) else Ret (w, Ret None)) else
      or_return w (sinter_keep key (snd acc) tx) (fun result =>
      sinter_loop store setList' (fst acc, result) w)
  end.

(** The smallest set comes first: its members are the start. [sort] is [std::sort] by the sizes. *)
Definition SInter_run (sort : list (bytes * Z) -> list (bytes * Z)) (store : option bytes) (keys : list bytes) (w : World) : M (World * M bytes) :=
  let isStore := match store with Some _ => true | None => false end in
  '(w, sets) ← sinter_sets isStore keys [] w;
  or_return w sets (fun sets =>
  '(w, acc) ←
    match sort <$> sets with
    | None => Ret (w, Ret None)
    | Some [] => Ret (w, Ret (Some (0, [])))
    | Some ((key, _) :: setList) =>
        '(w, tx) ← open_read w;
        or_return w (scan_members key (sdiff_step true) tx (0, [])) (fun acc => sinter_loop isStore setList acc w)
    end;
  or_return w acc (fun acc =>
  match acc, store with
  | None, _ => Ret (w, Ret Command_fmtNull)
  | Some (used, result), None => or_return w (member_bulks result used (Command_fmtMultiBulkLen [] (zlen result))) (fun ss => Ret (w, Ret ss))
  | Some (_, result), Some storeKey => store_members storeKey result w
  end)).

(** ** SMOVE *)

(** [rollbackAll] of the one transaction; [s] is the status of RocksDB's rollback. *)
Definition SessionCtx_rollbackAll (s : rocks unit) (w : World) : M World :=
  match w_txn w with
  | None => Ret w
  | Some tx =>
      '(ks, _) ← RocksTxn_rollback cfg (w_store w) tx s;
      Ret (mkWorld ks (w_db w) None)
  end.

(** The reply of a command whose transaction is rolled back. *)
Definition rolled_back (s : rocks unit) (w : World) (reply : M bytes) : M (World * M bytes) :=
  w ← SessionCtx_rollbackAll s w;
  Ret (w, reply).

Definition SMove_run (s : rocks unit) (source dest member : bytes) (w : World) : M (World * M bytes) :=
  '(w, rv) ← readMeta source w;
  or_return w (meta_or_none rv) (fun o =>
  match o with
  | None => Ret (w, Ret Command_fmtZero)
  | Some _ =>
      '(w, destRv) ← readMeta dest w;
      or_return w (meta_or_none destRv) (fun _ =>
      '(w, tx) ← open_read w;
      match genericSRem source rv [member] tx with
      | Crash c => Crash c
      | Throw c msg => rolled_back s w (Throw c msg)
      | Ret (tx, remRet) =>
          if negb (bool_decide (remRet = Command_fmtLongLong 1)) then rolled_back s w (Ret Command_fmtZero)
          else if bool_decide (source = dest) then rolled_back s w (Ret Command_fmtOne)
          else
            match genericSAdd dest destRv [member] tx with
            | Crash c => Crash c
            | Throw c msg => rolled_back s w (Throw c msg)
            | Ret (tx, addRet) =>
                '(w, _) ← SessionCtx_commitAll cfg sess w tx;
                Ret (w, Ret addRet)
            end
      end)
  end).

End Members.
