(* ===== verification/MembersSpec.v ===== *)
(** What the commands of sets (commands/set.cpp) do to the members and what they answer. *)

From Stdlib Require Import Strings.Byte ZArith Lia Sorting.Sorted.
From stdpp Require Import base list numbers strings gmap sets.
From S2P Require Import Prelude Status Varint Strings Number Record RecordValue RecordMeta ReplLog BinlogSeq Txn Store Replicate Cursor Command Elems Keys KeysSpec KeysDel Named Members.

Local Open Scope Z_scope.

(** A set as a map. *)
Definition as_map (X : gset bytes) : gmap bytes bytes := gset_to_gmap [] X.

Lemma as_map_insert X k : <[k := []]> (as_map X) = as_map ({[k]} ∪ X).
Proof. unfold as_map. by rewrite gset_to_gmap_union_singleton. Qed.

Lemma as_map_delete X k : delete k (as_map X) = as_map (X ∖ {[k]}).
Proof. unfold as_map. by rewrite gset_to_gmap_difference_singleton. Qed.

Lemma as_map_lookup X k : as_map X !! k = if bool_decide (k ∈ X) then Some [] else None.
Proof.
  unfold as_map. case_bool_decide; [by apply lookup_gset_to_gmap_Some|]. by apply lookup_gset_to_gmap_None.
Qed.

Lemma as_map_keys X : map fst (map_to_list (as_map X)) ≡ₚ elements X.
Proof.
  apply NoDup_Permutation; [apply NoDup_fst_map_to_list|apply NoDup_elements|]. intros k. rewrite elem_of_elements, list_elem_of_fmap. split.
  - intros ([k' v] & -> & Hin%elem_of_map_to_list). by apply lookup_gset_to_gmap_Some in Hin as [? _].
  - intros Hk. exists (k, []). split; [done|]. apply elem_of_map_to_list. by apply lookup_gset_to_gmap_Some.
Qed.

Definition zcard (X : gset bytes) : Z := Z.of_nat (size X).

Lemma zcard_nonneg X : 0 <= zcard X.
Proof. unfold zcard. lia. Qed.

Lemma zcard_0 X : zcard X = 0 -> X = ∅.
Proof. intros E. apply leibniz_equiv, size_empty_inv. unfold zcard in E. lia. Qed.

Lemma zcard_insert X k : zcard ({[k]} ∪ X) = if bool_decide (k ∈ X) then zcard X else zcard X + 1.
Proof.
  unfold zcard. case_bool_decide as Hk.
  - by replace ({[k]} ∪ X) with X by set_solver.
  - rewrite size_union by set_solver. rewrite size_singleton. lia.
Qed.

Lemma zcard_delete X k : zcard (X ∖ {[k]}) = if bool_decide (k ∈ X) then zcard X - 1 else zcard X.
Proof.
  unfold zcard. case_bool_decide as Hk.
  - rewrite size_difference by set_solver. rewrite size_singleton. assert (size X <> 0)%nat; [|lia]. intros E%size_empty_inv. set_solver.
  - by replace (X ∖ {[k]}) with X by set_solver.
Qed.

(** The set after additions and after removals. *)
Definition set_add (args : list bytes) (X : gset bytes) : gset bytes := list_to_set args ∪ X.
Definition set_rem (args : list bytes) (X : gset bytes) : gset bytes := X ∖ list_to_set args.

Lemma set_add_size args : forall X, zcard X <= zcard (set_add args X) <= zcard X + zlen args.
Proof.
  induction args as [|a args IH]; intros X; unfold set_add in *; cbn [list_to_set].
  - rewrite union_empty_l_L. change (zlen []) with 0. lia.
  - rewrite zlen_cons. specialize (IH ({[a]} ∪ X)). rewrite (zcard_insert X a) in IH. replace ({[a]} ∪ list_to_set args ∪ X) with (list_to_set args ∪ ({[a]} ∪ X)) by set_solver.
    case_bool_decide; lia.
Qed.

Lemma set_add_cons a args X : set_add (a :: args) X = set_add args ({[a]} ∪ X).
Proof. unfold set_add. cbn [list_to_set]. set_solver. Qed.

Lemma set_rem_cons a args X : set_rem (a :: args) X = set_rem args (X ∖ {[a]}).
Proof. unfold set_rem. cbn [list_to_set]. set_solver. Qed.

Lemma set_rem_size args : forall X, zcard X - zlen args <= zcard (set_rem args X) <= zcard X.
Proof.
  induction args as [|a args IH]; intros X.
  - unfold set_rem. cbn [list_to_set]. rewrite difference_empty_L. change (zlen []) with 0. lia.
  - rewrite set_rem_cons, zlen_cons. specialize (IH (X ∖ {[a]})). rewrite zcard_delete in IH. pose proof (zlen_nonneg args). case_bool_decide; lia.
Qed.

Lemma insert_present (X : gset bytes) a : a ∈ X -> {[a]} ∪ X = X.
Proof. set_solver. Qed.

Lemma delete_absent (X : gset bytes) a : a ∉ X -> X ∖ {[a]} = X.
Proof. set_solver. Qed.

(** The place of SPOP: no member is before it. *)
Definition index_ok (idx : bytes) (X : gset bytes) : Prop := forall x, x ∈ X -> bytes_lt x idx = false.

Lemma index_ok_insert idx X a : index_ok idx X -> (0 <? zlen idx) && bytes_lt a idx = false -> index_ok idx ({[a]} ∪ X).
Proof.
  intros Hi Ha x [->%elem_of_singleton|Hx]%elem_of_union; [|by apply Hi]. destruct idx as [|c idx]; [by destruct a|].
  rewrite zlen_cons in Ha. pose proof (zlen_nonneg idx). by replace (0 <? 1 + zlen idx) with true in Ha by lia.
Qed.

Lemma index_ok_subseteq idx X Y : Y ⊆ X -> index_ok idx X -> index_ok idx Y.
Proof. intros Hs Hi x Hx. by apply Hi, Hs. Qed.

(** * Scanning *)

Fixpoint foldM {A B} (step : A -> B -> M A) (l : list B) (acc : A) : M A :=
  match l with
  | [] => Ret acc
  | x :: l' => acc ← step acc x; foldM step l' acc
  end.

Lemma foldM_map {A B C} (f : C -> B) (step : A -> B -> M A) l : forall acc, foldM (fun acc x => step acc (f x)) l acc = foldM step (map f l) acc.
Proof. induction l as [|x l IH]; intros acc; [done|]. cbn [foldM map]. destruct (step acc (f x)); [apply IH|done|done]. Qed.

Lemma prefix_fold_ok {BM : BuildMode} {A} (step : A -> RecordKey * RecordValue -> M A) prefix good recs :
  Forall2 entry_record good recs -> Forall (fun r => rk_chunkId (fst r) < CLUSTER_SLOTS /\ RecordKey_prefixPk (fst r) = Ret prefix) recs ->
  forall fuel c acc later, dc_seeked c = true -> cursor_at (dc_base c) (good ++ later) -> stops prefix later -> (length good < fuel)%nat ->
  prefix_fold fuel step prefix c acc = foldM step recs acc.
Proof.
  induction 1 as [|e r good recs Her _ IH]; intros Hall fuel c acc later Hs Hc Hst Hf; (destruct fuel as [|fuel]; [cbn in Hf; lia|]); cbn [length] in Hf; cbn [prefix_fold app foldM] in *.
  - destruct later as [|e later]; [by destruct (basic_next_nil c Hs Hc) as (c' & ->)|]. destruct Hst as (r & p & Her & Ep & Hne).
    destruct (basic_next_cons c e later r Hs Hc Her) as (c' & -> & _). rewrite bind_Ret. destruct (Z.ltb_spec (rk_chunkId (fst r)) CLUSTER_SLOTS) as [Hlt|]; [|done].
    rewrite Ep, bind_Ret, bool_decide_false by auto. done.
  - inversion Hall as [|? ? [Hlt Ep] Hall']; subst. destruct (basic_next_cons c e _ r Hs Hc Her) as (c' & -> & Hs' & Hc').
    rewrite bind_Ret. rewrite (proj2 (Z.ltb_lt _ _)) by done. rewrite Ep, bind_Ret, bool_decide_true by done. cbn [negb]. destruct (step acc r) as [acc'| |]; [|done|done].
    rewrite !bind_Ret. by apply (IH Hall' fuel c' acc' later Hs' Hc' Hst); lia.
Qed.

Section Spec.
Context {BM : BuildMode} {T : Type} `{RocksIterLaws T} {HL : RocksDBLaws T} {HH : RocksDBHealthy T} {HI : RocksIterHealthy T}.
Variable cfg : StoreCfg.
Variable sess : SessionCtx.
Variable chunkOf : bytes -> Z.
Variable pk : bytes.
Hypothesis Hcat : cfg_isCatalog cfg = false.
Hypothesis Hchunk : is_u32 (chunkOf pk) /\ chunkOf pk < CLUSTER_SLOTS.
Hypothesis Hdb : is_u32 (sc_dbId sess).
Hypothesis Hpk : zlen pk < 2 ^ 61.
Hypothesis Hep : is_u64 (sc_versionEP sess).
Variable now : Z.

#[local] Abbreviation mk := (named_key sess (chunkOf pk) pk RT_SET_META).
#[local] Abbreviation ok := (sub_ok pk).
#[local] Abbreviation elements tx X := (named_elems cfg sess (chunkOf pk) pk RT_SET_ELE tx (as_map X)).
#[local] Abbreviation set_gone := (named_gone cfg sess (chunkOf pk) pk RT_SET_META RT_SET_ELE).
#[local] Abbreviation mkey := (sub_key (chunkOf pk) (sc_dbId sess) RT_SET_ELE pk).

(** A set with the members [X]: the meta record [rv] holds their number and the place of SPOP. *)
Definition set_stored (tx : RocksTxn T) (rv : RecordValue) (idx : bytes) (X : gset bytes) : Prop :=
  named_held cfg sess (chunkOf pk) pk RT_SET_META RT_SET_ELE tx rv (as_map X) /\
  SetMetaValue_decode (rv_value rv) = Ret (mkSetMeta (zcard X) idx) /\ X <> ∅ /\ zlen idx <= 2 ^ 61 /\ index_ok idx X.

(** What a command has found for the key: a set, or nothing. *)
Definition set_found (tx : RocksTxn T) (rv : M RecordValue) (idx : bytes) (X : gset bytes) : Prop :=
  match rv with
  | Ret v => set_stored tx v idx X
  | Throw c _ => (c = ERR_NOTFOUND \/ c = ERR_EXPIRED) /\ X = ∅ /\ idx = [] /\ elements tx ∅
  | Crash _ => False
  end.

Lemma set_found_parts tx rv idx X : set_found tx rv idx X ->
  elements tx X /\ old_ok rv /\ tx_done tx = false /\ zlen idx <= 2 ^ 61 /\ index_ok idx X /\
  exists o, meta_or_none rv = Ret o /\ (o = None <-> X = ∅) /\
    (match o with Some v => expect_ok (SetMetaValue_decode (rv_value v)) | None => Ret (mkSetMeta 0 []) end) = Ret (mkSetMeta (zcard X) idx).
Proof.
  destruct rv as [v|c msg|]; [intros ((_ & Hwf & _ & He) & Hd & Hx & Hl & Hi)|intros (Hc & -> & -> & He)|done].
  - split; [exact He|]. split; [done|]. split; [apply He|]. split; [done|]. split; [done|]. exists (Some v). split; [done|]. by rewrite Hd.
  - split; [exact He|]. split; [done|]. split; [apply He|]. split; [done|]. split; [by intros x|]. exists None. by destruct Hc as [-> | ->].
Qed.

Lemma member_wf : RecordValue_wf member_record.
Proof. unfold RecordValue_wf, member_record, RecordValue_new, MAXU64; cbn. by split_and!. Qed.

(** A read of a member. *)
Lemma member_find tx X k : elements tx X -> ok k ->
  exists o, find_record (RocksKVStore_getKV cfg (mkey k) tx) = Ret o /\ (match o with Some _ => true | None => false end) = bool_decide (k ∈ X).
Proof.
  intros He Hk. destruct (named_find cfg sess (chunkOf pk) pk RT_SET_ELE tx _ k He Hk) as (o & E & Eo). exists o. split; [done|].
  rewrite as_map_lookup in Eo. case_bool_decide; by destruct o.
Qed.

(** The meta record written over the members. *)
Lemma save_meta tx rv X idx : elements tx X -> zcard X < 2 ^ 64 -> zlen idx <= 2 ^ 61 -> old_ok rv ->
  exists tx' rv', RocksKVStore_setKV cfg mk (set_record sess rv (mkSetMeta (zcard X) idx)) tx now = Ret tx' /\
    named_held cfg sess (chunkOf pk) pk RT_SET_META RT_SET_ELE tx' rv' (as_map X) /\ SetMetaValue_decode (rv_value rv') = Ret (mkSetMeta (zcard X) idx) /\
    rv_ttl rv' = old_ttl rv /\ untouched pk tx tx'.
Proof.
  intros He Hz Hl Ho. pose proof (zcard_nonneg X). destruct (SetMetaValue_law (mkSetMeta (zcard X) idx)) as (s & [= <-] & Hdec & Hsz); [cbn; split; [unfold is_u; lia|done]|].
  destruct (update_value (SetMetaValue_encode (mkSetMeta (zcard X) idx)) RT_SET_META (sc_versionEP sess) (old_ttl rv) rv) as (E1 & E2 & E3).
  destruct (named_set_meta cfg sess (chunkOf pk) pk RT_SET_META RT_SET_ELE Hcat Hchunk Hdb Hpk tx _ (set_record sess rv (mkSetMeta (zcard X) idx)) now He) as (tx' & E & Hh & U);
    [apply update_wf; [done|lia|done|done]|done|].
  exists tx', (set_record sess rv (mkSetMeta (zcard X) idx)). split; [done|]. split; [done|]. split; [unfold set_record; by rewrite E1|]. split; [exact E2|done].
Qed.

Lemma save_set tx rv X idx : elements tx X -> X <> ∅ -> zcard X < 2 ^ 64 -> zlen idx <= 2 ^ 61 -> index_ok idx X -> old_ok rv ->
  exists tx' rv', RocksKVStore_setKV cfg mk (set_record sess rv (mkSetMeta (zcard X) idx)) tx now = Ret tx' /\
    set_stored tx' rv' idx X /\ rv_ttl rv' = old_ttl rv /\ untouched pk tx tx'.
Proof.
  intros He Hx Hz Hl Hi Ho. destruct (save_meta tx rv X idx He Hz Hl Ho) as (tx' & rv' & E & Hh & Hd & Ht & U). exists tx', rv'. done.
Qed.

(** ** SADD *)

Lemma sadd_loop_ok n idx args : forall cnt reset tx X, elements tx X -> Forall ok args -> 0 <= cnt -> cnt + zlen args < 2 ^ 64 ->
  exists tx' reset', sadd_loop cfg sess now chunkOf pk (mkSetMeta n idx) args cnt reset tx = Ret (tx', cnt + (zcard (set_add args X) - zcard X), reset') /\
    elements tx' (set_add args X) /\ untouched pk tx tx' /\ (reset' = false -> reset = false /\ (index_ok idx X -> index_ok idx (set_add args X))).
Proof.
  induction args as [|a args IH]; intros cnt reset tx X He Hall Hc Hn; cbn [sadd_loop].
  { exists tx, reset. unfold set_add. cbn [list_to_set]. rewrite union_empty_l_L, Z.sub_diag, Z.add_0_r. by split_and!. }
  inversion Hall as [|? ? Hk Hr]; subst. rewrite zlen_cons in Hn. pose proof (zlen_nonneg args).
  change (member_key sess chunkOf pk a) with (mkey a). destruct (member_find tx X a He Hk) as (o & -> & Eo). rewrite bind_Ret.
  rewrite set_add_cons. pose proof (zcard_insert X a) as Hz. rewrite <-Eo in Hz.
  destruct o as [v|].
  - symmetry in Eo. apply bool_decide_eq_true in Eo. rewrite insert_present by done.
    destruct (IH cnt reset tx X He Hr) as (tx' & reset' & -> & R); [lia|lia|]. by exists tx', reset'.
  - destruct (named_set cfg sess (chunkOf pk) pk RT_SET_META RT_SET_ELE Hcat Hchunk Hdb tx _ a member_record now He Hk member_wf eq_refl) as (tx1 & -> & He1 & U1 & _).
    rewrite bind_Ret. cbn [rv_value member_record RecordValue_new] in He1. rewrite as_map_insert in He1. rewrite wrap_id by (unfold is_u; lia). cbn [sm_skIndex].
    set (reset1 := reset || _). destruct (IH (cnt + 1) reset1 tx1 ({[a]} ∪ X) He1 Hr) as (tx' & reset' & -> & He' & U2 & Hi'); [lia|lia|].
    exists tx', reset'. split; [do 3 f_equal; lia|]. split; [done|]. split; [by etrans|].
    intros Hf. destruct (Hi' Hf) as [Hr1 Hi2]. subst reset1. apply orb_false_iff in Hr1 as [-> Hr1]. split; [done|]. intros Hi0. apply Hi2. by apply index_ok_insert.
Qed.

Lemma sadd_ok tx rv idx X args : set_found tx rv idx X -> args <> [] -> Forall ok args -> zlen args < 2 ^ 63 -> zcard X + zlen args < 2 ^ 64 ->
  exists tx' rv' idx', genericSAdd cfg sess now chunkOf pk rv args tx = Ret (tx', Command_fmtLongLong (zcard (set_add args X) - zcard X)) /\
    set_stored tx' rv' idx' (set_add args X) /\ rv_ttl rv' = old_ttl rv /\ untouched pk tx tx'.
Proof.
  intros Hf Hne Hall Hl Hz. destruct (set_found_parts _ _ _ _ Hf) as (He & Ho & Hd & Hix & Hi & o & Hom & _ & Hsm). pose proof (set_add_size args X) as Hs. pose proof (zcard_nonneg X).
  destruct (sadd_loop_ok (zcard X) idx args 0 false tx X He Hall) as (tx1 & reset & E1 & He1 & U1 & Hr); [lia|lia|].
  assert (index_ok (if reset then [] else idx) (set_add args X)) as Hi1 by (destruct reset; [by intros [|c x]|by apply Hr]).
  assert (set_add args X <> ∅) as Hx1 by (destruct args as [|a args]; [done|]; rewrite set_add_cons; clear; unfold set_add; set_solver).
  destruct (save_set tx1 rv (set_add args X) (if reset then [] else idx) He1 Hx1) as (tx' & rv' & E2 & Hst & Ht & U2); [lia|by destruct reset|done|done|].
  exists tx', rv', (if reset then [] else idx). split; [|split; [done|split; [done|by etrans]]].
  unfold genericSAdd. destruct args as [|a args]; [done|]. rewrite Hom, bind_Ret, Hsm, bind_Ret, E1, bind_Ret. cbn [sm_count sm_skIndex].
  rewrite Z.add_0_l, Zplus_minus, wrap_id by (unfold is_u; lia). change (set_key sess chunkOf pk) with mk. by rewrite E2, bind_Ret, s64_id by lia.
Qed.

(** ** SREM *)

Lemma srem_loop_ok n idx args : forall cnt reset tx X, elements tx X -> Forall ok args -> 0 <= cnt -> cnt + zlen args < 2 ^ 64 ->
  exists tx' reset', srem_loop cfg sess now chunkOf pk (mkSetMeta n idx) args cnt reset tx = Ret (tx', cnt + (zcard X - zcard (set_rem args X)), reset') /\
    elements tx' (set_rem args X) /\ untouched pk tx tx'.
Proof.
  induction args as [|a args IH]; intros cnt reset tx X He Hall Hc Hn; cbn [srem_loop].
  { exists tx, reset. unfold set_rem. cbn [list_to_set]. rewrite difference_empty_L, Z.sub_diag, Z.add_0_r. by split_and!. }
  inversion Hall as [|? ? Hk Hr]; subst. rewrite zlen_cons in Hn. pose proof (zlen_nonneg args).
  change (member_key sess chunkOf pk a) with (mkey a). destruct (member_find tx X a He Hk) as (o & -> & Eo). rewrite bind_Ret, set_rem_cons.
  pose proof (zcard_delete X a) as Hz. rewrite <-Eo in Hz. destruct o as [v|].
  - destruct (named_del cfg sess (chunkOf pk) pk RT_SET_META RT_SET_ELE Hcat Hchunk Hdb tx _ a now He Hk) as (tx1 & -> & He1 & U1). rewrite as_map_delete in He1.
    rewrite bind_Ret, wrap_id by (unfold is_u; lia). cbn [sm_skIndex]. set (reset1 := reset || _).
    destruct (IH (cnt + 1) reset1 tx1 (X ∖ {[a]}) He1 Hr) as (tx' & reset' & -> & He' & U2); [lia|lia|]. exists tx', reset'. split; [do 3 f_equal; lia|]. split; [done|by etrans].
  - symmetry in Eo. apply bool_decide_eq_false in Eo. rewrite delete_absent by done.
    destruct (IH cnt reset tx X He Hr) as (tx' & reset' & -> & R); [lia|lia|]. by exists tx', reset'.
Qed.

(** What is left of a set: nothing, or the members [X]. *)
Definition set_left (tx : RocksTxn T) (X : gset bytes) (ttl : Z) : Prop :=
  (X = ∅ -> set_gone tx) /\ (X <> ∅ -> exists rv idx, set_stored tx rv idx X /\ rv_ttl rv = ttl).

Lemma srem_ok tx v idx X args : set_stored tx v idx X -> Forall ok args -> zlen args < 2 ^ 63 -> zcard X < 2 ^ 64 ->
  exists tx', genericSRem cfg sess now chunkOf pk (Ret v) args tx = Ret (tx', Command_fmtLongLong (zcard X - zcard (set_rem args X))) /\
    set_left tx' (set_rem args X) (rv_ttl v) /\ untouched pk tx tx'.
Proof.
  intros ((_ & Hwf & Hty & He) & Hdec & Hx & Hix & Hi) Hall Hl Hz. pose proof (set_rem_size args X) as Hs. pose proof (zcard_nonneg (set_rem args X)). pose proof (zcard_nonneg X).
  destruct (srem_loop_ok (zcard X) idx args 0 false tx X He Hall) as (tx1 & reset & E1 & He1 & U1); [lia|lia|].
  unfold genericSRem. rewrite Hdec. cbn [expect_ok]. rewrite bind_Ret, E1, bind_Ret. cbn [sm_count sm_skIndex]. rewrite Z.add_0_l. inv_d by lia.
  change (set_key sess chunkOf pk) with mk. rewrite s64_id by lia. destruct (decide (set_rem args X = ∅)) as [Em|Em].
  - rewrite Em in *. change (zcard ∅) with 0 in *. rewrite Z.sub_0_r. replace (zcard X <=? zcard X) with true by lia.
    destruct (named_drop cfg sess (chunkOf pk) pk RT_SET_META RT_SET_ELE Hcat Hchunk Hdb Hpk tx1 v now) as (tx' & -> & Hg & U2); [|done|done|].
    { exact He1. }
    rewrite bind_Ret. exists tx'. split; [done|]. split; [by split|by etrans].
  - assert (zcard (set_rem args X) <> 0) by (by intros ?%zcard_0). replace (zcard X <=? zcard X - zcard (set_rem args X)) with false by lia.
    rewrite wrap_id by (unfold is_u; lia). replace (zcard X - (zcard X - zcard (set_rem args X))) with (zcard (set_rem args X)) by lia.
    destruct (save_set tx1 (Ret v) (set_rem args X) (if reset then [] else idx) He1 Em) as (tx' & rv' & -> & Hst & Ht & U2); [lia|by destruct reset| |done|].
    { destruct reset; [by intros [|c x]|]. eapply index_ok_subseteq; [|done]. unfold set_rem. apply subseteq_difference_l. reflexivity. }
    rewrite bind_Ret. exists tx'. split; [done|]. split; [split; [done|]|by etrans]. intros _. by exists rv', (if reset then [] else idx).
Qed.

(** ** Other keys *)

(** A transaction that wrote records of another key leaves the set as it is. *)
Section Frame.
Variables (other : bytes) (tx tx' : RocksTxn T).
Hypothesis Hne : pk <> other.
Hypothesis Hun : untouched other tx tx'.
Hypothesis Hw : writable tx'.

Lemma elems_frame m : named_elems cfg sess (chunkOf pk) pk RT_SET_ELE tx m -> named_elems cfg sess (chunkOf pk) pk RT_SET_ELE tx' m.
Proof.
  intros [[_ He] Hm]. pose proof (named_place sess (chunkOf pk) RT_SET_META RT_SET_ELE Hchunk Hdb) as Hpl. split; [|done]. split; [done|]. intros k Hk.
  pose proof (sub_key_data _ _ _ _ Hpl k Hk) as Hd. apply (elem_at_frame cfg RT_SET_ELE tx); [done| |by apply He]. apply Hun; [done|done|by rewrite sub_key_type].
Qed.

Lemma meta_frame : data_key mk /\ raw_record tx' mk = raw_record tx mk.
Proof. assert (data_key mk) as Hd by (by apply (whole_key_data (chunkOf pk) (sc_dbId sess) pk Hpk Hchunk Hdb)). split; [done|]. by apply Hun. Qed.

Lemma stored_frame rv idx X : set_stored tx rv idx X -> set_stored tx' rv idx X.
Proof.
  intros ((Eg & Hwf & Hty & He) & Hrest). destruct meta_frame as [Hd Er]. split; [|done]. split; [by apply (getKV_frame cfg _ tx)|]. split; [done|]. split; [done|]. by apply elems_frame.
Qed.

Lemma found_frame rv idx X : set_found tx rv idx X -> set_found tx' rv idx X.
Proof.
  intros Hf. destruct rv as [v|c msg|]; [by apply stored_frame| |done]. destruct Hf as (Hc & HX & Hi & He). split; [done|]. split; [done|]. split; [done|]. by apply elems_frame.
Qed.

Lemma left_frame X ttl : set_left tx X ttl -> set_left tx' X ttl.
Proof.
  intros [Hg Hs]. split.
  - intros HX. destruct (Hg HX) as [Hm He]. split; [|by apply elems_frame]. destruct meta_frame as [Hd Er]. by apply (elem_at_frame cfg RT_SET_ELE tx tx' _ None Hd Er).
  - intros HX. destruct (Hs HX) as (rv & idx & Hst & Ht). exists rv, idx. split; [|done]. by apply stored_frame.
Qed.

End Frame.

Lemma left_writable tx X ttl : set_left tx X ttl -> writable tx.
Proof.
  intros [Hg Hs]. destruct (decide (X = ∅)) as [HX|HX]; [by apply (Hg HX)|]. destruct (Hs HX) as (rv & idx & ((_ & _ & _ & [Hw _]) & _) & _). apply Hw.
Qed.

(** ** Scanning *)

Lemma scan_members_ok tx X : elements tx X -> x00 ∉ pk -> tidy (tx_db tx) ->
  exists l, l ≡ₚ base.elements X /\ forall A (step : A -> bytes -> M A) acc, scan_members sess chunkOf pk step tx acc = foldM step l acc.
Proof.
  intros He Hz Ht. pose proof (named_place sess (chunkOf pk) RT_SET_META RT_SET_ELE Hchunk Hdb) as Hpl. destruct (sub_prefix (chunkOf pk) (sc_dbId sess) pk Hpk RT_SET_ELE Hpl) as [p Hp].
  pose proof (empty_ok pk Hpk) as Hn. pose proof (family_records cfg (chunkOf pk) (sc_dbId sess) RT_SET_ELE pk Hpl Hz tx _ p Ht Hn Hp (proj1 He) (proj2 He)) as Hperm.
  destruct (scan_start tx (mkey []) p p Ht (sub_scan_key _ _ _ _ Hpl Hz _ Hn) Hp ltac:(done)) as (good & later & Hg & Hr & Hs & Hc & Hst & Hf). rewrite key_records_all in Hg, Hr.
  exists (map (fun r => rk_sk (fst r)) (key_records (tx_db tx) p)). split.
  - apply (Permutation_map fst) in Hperm. rewrite map_map in Hperm. cbn [fst] in Hperm. rewrite Hperm. apply as_map_keys.
  - intros A step acc. unfold scan_members. change (member_key sess chunkOf pk []) with (mkey []). rewrite Hp, bind_Ret.
    rewrite (prefix_fold_ok _ p good _ Hg Hr _ _ acc later Hs Hc Hst Hf). by rewrite foldM_map.
Qed.

End Spec.
