(* ===== verification/MembersCmd.v ===== *)
(** What the commands of sets (commands/set.cpp) promise, from the records in the store before the
    command to the transaction it commits. *)

From Stdlib Require Import Strings.Byte ZArith Lia.
From stdpp Require Import base list numbers strings gmap sets.
From S2P Require Import Prelude Status Varint Strings Number Record RecordValue RecordMeta ReplLog BinlogSeq Txn Store Replicate Cursor Command Elems Keys KeysSpec KeysDel Named Members MembersSpec.

Local Open Scope Z_scope.

Section Commands.
Context {BM : BuildMode} {T : Type} `{RocksIterLaws T} {HL : RocksDBLaws T} {HH : RocksDBHealthy T} {HI : RocksIterHealthy T} {HC : RocksDBCommits T}.
Variable cfg : StoreCfg.
Variable sess : SessionCtx.
Variables (now currentTs : Z) (srv : ServerParams) (multi : option Z) (chunkOf : bytes -> Z).
Variables (ks : RocksKVStore) (live : gmap Z Z) (dur : gset Z) (db : T).

#[local] Abbreviation command_ok pk := (command_ok cfg sess (chunkOf pk) pk ks live dur db).
#[local] Abbreviation readMeta := (fun key => read_meta cfg now srv sess multi (chunkOf key) currentTs RT_SET_META key).
#[local] Abbreviation is_set := (set_stored cfg sess chunkOf).
#[local] Abbreviation gone pk := (named_gone cfg sess (chunkOf pk) pk RT_SET_META RT_SET_ELE).
#[local] Abbreviation w := (mkWorld ks db None).
#[local] Abbreviation answers := (answers db).

(** The store holds the set [X], with the meta record that [rv] gives, or nothing. *)
Definition set_here (pk : bytes) (rv : M RecordValue) (idx : bytes) (X : gset bytes) : Prop :=
  let tx := RocksTxn_new 0 false db in
  RocksKVStore_getKV cfg (named_key sess (chunkOf pk) pk RT_SET_META) tx = rv /\ set_found cfg sess chunkOf pk tx rv idx X /\
  match rv with Ret v => live_record sess currentTs srv multi RT_SET_META v | _ => True end.

(** Any transaction over the database finds it. *)
Lemma set_here_tx pk rv idx X tx : set_here pk rv idx X -> writable tx -> tx_db tx = db -> set_found cfg sess chunkOf pk tx rv idx X.
Proof.
  intros (Eg & Hf & _) Hw Edb.
  assert (forall m, named_elems cfg sess (chunkOf pk) pk RT_SET_ELE (RocksTxn_new 0 false db) m -> named_elems cfg sess (chunkOf pk) pk RT_SET_ELE tx m) as He
    by (intros m; by apply (named_elems_db cfg sess (chunkOf pk) pk)).
  destruct rv as [v|c msg|]; [|destruct Hf as (Hc & -> & -> & Hf); split; [done|]; split; [done|]; split; [done|by apply He]|done].
  destruct Hf as ((Hg & Hwf & Ht & Hf) & Hd). split; [|done]. split; [by rewrite (getKV_same cfg _ tx (RocksTxn_new 0 false db))|]. split; [done|]. split; [done|by apply He].
Qed.

Lemma set_open pk rv idx X : command_ok pk -> set_here pk rv idx X ->
  exists ks0 ks1 tx, readMeta pk w = Ret (mkWorld ks0 db None, rv) /\ SessionCtx_createTransaction sess (mkWorld ks0 db None) = Ret (mkWorld ks1 db (Some tx), tx) /\
    tx_db tx = db /\ set_found cfg sess chunkOf pk tx rv idx X /\ (can_log sess ks -> opened (mkWorld ks1 db (Some tx)) tx).
Proof.
  intros [Hcat Hpk Hch Hdb Hep Hro Hi Hn Htd Hsz] Hh. pose proof Hh as (Eg & Hf & Hl).
  destruct (read_open cfg sess now currentTs srv multi (chunkOf pk) pk Hcat Hpk Hch Hdb Hro ks live dur db RT_SET_META Hi Hn eq_refl Htd Hsz) as (ks0 & ks1 & tx & Er & Ec & Hw & Edb & _ & Hop);
    change (whole_key (chunkOf pk) (sc_dbId sess) pk RT_SET_META) with (named_key sess (chunkOf pk) pk RT_SET_META) in *; rewrite Eg in *.
  { by destruct rv. }
  exists ks0, ks1, tx. split; [done|]. split; [done|]. split; [done|]. split; [by apply set_here_tx|]. intros [_ ?]. by apply Hop.
Qed.

Ltac open_set Hc Hh :=
  let Er := fresh "Er" in
  destruct (set_open _ _ _ _ Hc Hh) as (ks0 & ks1 & tx & Er & Ec & Edb & Hf & Hop); cbv beta in Er; rewrite Er, !bind_Ret;
  destruct (set_found_parts cfg sess chunkOf _ _ _ _ _ Hf) as (He & Ho & Hd & Hix & Hi & om & Hom & Hnone & Hsm); rewrite ?Hom; cbn [or_return].

Lemma stored_writable pk tx rv idx X : is_set pk tx rv idx X -> writable tx.
Proof. intros ((_ & _ & _ & [Hw _]) & _). apply Hw. Qed.

(** C24: SADD adds the members, creating the set where there is none, and answers with the number
    of those that are new; the expiry of the set stays. SREM removes members, answers with the
    number of those that were there, and deletes the set with its last member. Both keep the
    place of SPOP before every member, as the code compares names. The database accepts the commit;
    the store holds afterwards what the transaction saw. *)
Theorem sadd_srem_correct pk rv idx X args :
  command_ok pk -> can_log sess ks -> set_here pk rv idx X -> Forall (sub_ok pk) args -> zlen args < 2 ^ 63 -> zcard X + zlen args < 2 ^ 64 ->
  (args <> [] -> exists tx tx' rv' idx', tx_db tx = db /\ is_set pk tx' rv' idx' (set_add args X) /\ rv_ttl rv' = old_ttl rv /\ untouched pk tx tx' /\
     commits tx' (Command_fmtLongLong (zcard (set_add args X) - zcard X)) (SAdd_run cfg sess now chunkOf readMeta pk args w)) /\
  (X <> ∅ -> exists tx tx', tx_db tx = db /\ set_left cfg sess chunkOf pk tx' (set_rem args X) (old_ttl rv) /\ untouched pk tx tx' /\
     commits tx' (Command_fmtLongLong (zcard X - zcard (set_rem args X))) (SRem_run cfg sess now chunkOf readMeta pk args w)).
Proof.
  intros Hc Hcl Hh Hall Hl Hz. pose proof Hc as [Hcat [_ Hpk] Hch Hdb Hep _ _ _ _ _]. pose proof (zlen_nonneg args). split.
  - intros Hne. unfold SAdd_run, txn_access. open_set Hc Hh. rewrite Ec, !bind_Ret, Hd, bind_Ret.
    destruct (sadd_ok cfg sess chunkOf pk Hcat Hch Hdb Hpk Hep now tx rv idx X args Hf Hne Hall Hl Hz) as (tx' & rv' & idx' & -> & Hs & Ht & U).
    exists tx, tx', rv', idx'. repeat (split; [done|]). cbn [or_return]. by apply (commit_commits cfg sess (proj1 Hcl) _ tx tx' _ (Hop Hcl)); [apply U|eapply stored_writable].
  - intros Hx. unfold SRem_run, txn_access. open_set Hc Hh. rewrite Ec, !bind_Ret, Hd, bind_Ret. destruct rv as [v|c msg|]; [|destruct Hf as (_ & -> & _); done|done].
    destruct (srem_ok cfg sess chunkOf pk Hcat Hch Hdb Hpk Hep now tx v idx X args Hf Hall Hl ltac:(lia)) as (tx' & -> & Hs & U).
    exists tx, tx'. repeat (split; [done|]). cbn [or_return]. by apply (commit_commits cfg sess (proj1 Hcl) _ tx tx' _ (Hop Hcl)); [apply U|eapply left_writable].
Qed.

(** ** Reading *)

Variable memLimit : Z -> M unit.
Hypothesis Hmem : forall u, memLimit u = Ret tt.

Lemma charge_ok used sk : charge memLimit used sk = Ret (used + zlen sk).
Proof. unfold charge. by rewrite Hmem. Qed.

Lemma smembers_fold l : forall used cnt ss,
  exists used', foldM (fun '(used, cnt, ss) sk => used ← charge memLimit used sk; Ret (used, cnt + 1, ss ++ Command_fmtBulk sk)) l (used, cnt, ss) =
    Ret (used', cnt + zlen l, ss ++ concat (map Command_fmtBulk l)).
Proof.
  induction l as [|sk l IH]; intros used cnt ss; cbn [foldM map concat].
  { exists used. change (zlen []) with 0. by rewrite Z.add_0_r, app_nil_r. }
  rewrite charge_ok, !bind_Ret. destruct (IH (used + zlen sk) (cnt + 1) (ss ++ Command_fmtBulk sk)) as (used' & ->). exists used'.
  rewrite zlen_cons, <-app_assoc, Z.add_assoc. done.
Qed.

Lemma perm_zcard (l : list bytes) (X : gset bytes) : l ≡ₚ elements X -> zlen l = zcard X.
Proof. intros Hp. unfold zlen, zcard, size, set_size. cbn. by rewrite Hp. Qed.

(** SCARD and SISMEMBER answer with the number of members and whether one is there, SMEMBERS
    with every member once, in the order of the store; nothing changes. *)
Theorem set_reads_correct pk rv idx X sk :
  command_ok pk -> set_here pk rv idx X -> sub_ok pk sk -> zcard X < 2 ^ 63 ->
  answers (SCard_run readMeta pk w) (Command_fmtLongLong (zcard X)) /\
  answers (SIsMember_run cfg sess chunkOf readMeta pk sk w) (if bool_decide (sk ∈ X) then Command_fmtOne else Command_fmtZero) /\
  exists l, l ≡ₚ elements X /\ answers (SMembers_run sess chunkOf readMeta memLimit pk w) (Command_fmtMultiBulkLen [] (zcard X) ++ concat (map Command_fmtBulk l)).
Proof.
  intros Hc Hh Hk Hz. pose proof Hc as [Hcat [Hnul Hpk] Hch Hdb Hep _ _ _ Htd _]. pose proof (zcard_nonneg X).
  unfold SCard_run, SIsMember_run, SMembers_run, txn_access. open_set Hc Hh. destruct om as [v|].
  - rewrite Ec, !bind_Ret, Hd, !bind_Ret. rewrite Hsm. destruct rv as [v'| |]; [injection Hom as ->|destruct Hf as ([-> | ->] & _); done|done]. destruct Hf as (_ & Hdec & _). rewrite Hdec. cbn [or_return].
    cbn [sm_count]. rewrite s64_id by lia. split; [answered|]. split.
    + change (member_key sess chunkOf pk sk) with (sub_key (chunkOf pk) (sc_dbId sess) RT_SET_ELE pk sk).
      destruct (member_find cfg sess chunkOf pk tx X sk He Hk) as (o & -> & Eo). cbn [or_return]. rewrite <-Eo. destruct o; answered.
    + destruct (scan_members_ok cfg sess chunkOf pk Hch Hdb Hpk tx X He Hnul) as (l & Hp & Hfold); [by rewrite Edb|]. exists l. split; [done|]. rewrite Hfold.
      destruct (smembers_fold l 0 0 (Command_fmtMultiBulkLen [] (zcard X))) as (used' & ->). cbn [or_return]. rewrite (perm_zcard l X Hp), Z.add_0_l. inv_d by lia. rewrite Z.eqb_refl. answered.
  - assert (X = ∅) as -> by by apply Hnone. split; [answered|]. split; [rewrite bool_decide_false by (apply not_elem_of_empty); answered|].
    exists []. split; [by rewrite elements_empty|answered].
Qed.

End Commands.

(** * An example *)

#[local] Instance set_build : BuildMode := true.

Definition demo_sadd : SessionCtx := mkSess 0 MAXU64 false (lit "sadd").
Definition demo_snone : M RecordValue := Throw ERR_NOTFOUND [].
Definition demo_sempty : RocksTxn MemDB := RocksTxn_new 0 false ∅.
Definition demo_schunk : bytes -> Z := fun _ => 7.

(** A store with the sets [s], of [a] and [b], and [t], of [b] and [c], as SADD makes them. *)
Definition demo_add (key : bytes) (members : list bytes) (tx : RocksTxn MemDB) : RocksTxn MemDB :=
  match genericSAdd demo_cfg demo_sadd 0 demo_schunk key demo_snone members tx with Ret (tx, _) => tx | _ => tx end.

Definition demo_stxn1 : RocksTxn MemDB := demo_add (lit "s") [lit "a"; lit "b"] demo_sempty.
Definition demo_stxn : RocksTxn MemDB := demo_add (lit "t") [lit "b"; lit "c"] demo_stxn1.
Definition demo_sdb : MemDB := tx_db demo_stxn.

Definition demo_smeta : RecordValue := RecordValue_new (SetMetaValue_encode (mkSetMeta 2 [])) RT_SET_META MAXU64 0 (-1) 0 MAXU64.
Definition demo_sab : gset bytes := {[lit "a"; lit "b"]}.
Definition demo_sbc : gset bytes := {[lit "b"; lit "c"]}.

Lemma demo_sempty_members pk : zlen pk < 2 ^ 61 -> named_elems demo_cfg demo_sadd 7 pk RT_SET_ELE demo_sempty ∅.
Proof.
  intros Hpk. split; [split|apply map_Forall_empty].
  - split; [done|]. split; [done|]. split; [by vm_compute|done].
  - intros k Hk. rewrite lookup_empty. unfold elem_at. apply getKV_none.
    + apply sub_key_data; [|done]. split; [done|done|by split_and!].
    + unfold raw_record, demo_sempty. destruct (RecordKey_encode _); [|done..]. by rewrite mem_read.
Qed.

Lemma demo_sdb_puts : demo_sdb = put_record (demo_sub RT_SET_META (lit "t") []) demo_smeta
  (put_record (demo_sub RT_SET_ELE (lit "t") (lit "c")) member_record (put_record (demo_sub RT_SET_ELE (lit "t") (lit "b")) member_record
  (put_record (demo_sub RT_SET_META (lit "s") []) demo_smeta
  (put_record (demo_sub RT_SET_ELE (lit "s") (lit "b")) member_record (put_record (demo_sub RT_SET_ELE (lit "s") (lit "a")) member_record ∅))))).
Proof. apply (bool_decide_unpack _). vm_compute. exact I. Qed.

Lemma demo_sdb_tidy : tidy demo_sdb.
Proof.
  rewrite demo_sdb_puts. repeat (apply put_record_tidy; [|by apply RecordKey_wf_new|by apply (bool_decide_unpack _)|by split_and!; (done || (unfold is_u, MAXU64; cbn; lia))]).
  by intros k v.
Qed.

(** The effect of one of the additions. *)
Lemma demo_add_ok key members tx : zlen key < 2 ^ 61 -> named_elems demo_cfg demo_sadd 7 key RT_SET_ELE tx ∅ -> members <> [] -> Forall (sub_ok key) members -> zlen members < 2 ^ 63 ->
  exists rv idx, set_stored demo_cfg demo_sadd demo_schunk key (demo_add key members tx) rv idx (list_to_set members) /\ untouched key tx (demo_add key members tx).
Proof.
  intros Hk He Hne Hm Hl. destruct (sadd_ok demo_cfg demo_sadd demo_schunk key eq_refl ltac:(done) ltac:(done) Hk ltac:(done) 0 tx demo_snone [] ∅ members) as (tx' & rv' & idx' & E & Hst & _ & Hu).
  - split; [by left|]. split; [done|]. split; [done|exact He].
  - done.
  - done.
  - done.
  - change (zcard ∅) with 0. lia.
  - exists rv', idx'. unfold demo_add. rewrite E. split; [|done]. unfold set_add in Hst. by rewrite union_empty_r_L in Hst.
Qed.

Lemma demo_sets_stored :
  (exists rv idx, set_stored demo_cfg demo_sadd demo_schunk (lit "s") demo_stxn rv idx (list_to_set [lit "a"; lit "b"])) /\
  (exists rv idx, set_stored demo_cfg demo_sadd demo_schunk (lit "t") demo_stxn rv idx (list_to_set [lit "b"; lit "c"])).
Proof.
  destruct (demo_add_ok (lit "s") [lit "a"; lit "b"] demo_sempty) as (rv1 & idx1 & H1 & U1); [done|by apply demo_sempty_members|done|by repeat constructor|done|]. fold demo_stxn1 in H1, U1.
  assert (named_elems demo_cfg demo_sadd 7 (lit "t") RT_SET_ELE demo_stxn1 ∅) as He.
  { apply (elems_frame demo_cfg demo_sadd demo_schunk (lit "t") ltac:(done) ltac:(done) (lit "s") demo_sempty demo_stxn1); [done|exact U1|by eapply stored_writable|by apply demo_sempty_members]. }
  destruct (demo_add_ok (lit "t") [lit "b"; lit "c"] demo_stxn1) as (rv2 & idx2 & H2 & U2); [done|exact He|done|by repeat constructor|done|]. fold demo_stxn in H2, U2. split.
  - exists rv1, idx1. apply (stored_frame demo_cfg demo_sadd demo_schunk (lit "s") ltac:(done) ltac:(done) ltac:(done) (lit "t") demo_stxn1 demo_stxn); [done|exact U2|by eapply stored_writable|exact H1].
  - by exists rv2, idx2.
Qed.

#[local] Abbreviation demo_here := (set_here demo_cfg demo_sadd 3 demo_params None demo_schunk demo_sdb).

Lemma demo_here_of key X : (exists rv idx, set_stored demo_cfg demo_sadd demo_schunk key demo_stxn rv idx X) ->
  RocksKVStore_getKV demo_cfg (named_key demo_sadd 7 key RT_SET_META) demo_stxn = Ret demo_smeta -> demo_here key (Ret demo_smeta) [] X.
Proof.
  intros (rv & idx & ((Eg & Hwf & Ht & He) & Hd & Hne & Hl & Hi)) Er. change (demo_schunk key) with 7 in Eg. rewrite Er in Eg. injection Eg as <-.
  assert (SetMetaValue_decode (rv_value demo_smeta) = Ret (mkSetMeta 2 [])) as Ed by (vm_compute; reflexivity). rewrite Ed in Hd. injection Hd as Hz <-.
  assert (writable (RocksTxn_new 0 false demo_sdb)) as Hw by (split; [done|]; split; [done|]; split; [by vm_compute|done]).
  split; [by rewrite <-Er; apply getKV_same|]. split; [|by split_and!]. split; [split; [by rewrite <-Er; apply getKV_same|split; [done|split; [done|]]]|].
  - by apply (named_elems_db demo_cfg demo_sadd 7 key RT_SET_ELE demo_stxn).
  - split; [by rewrite Ed, <-Hz|]. split; [done|]. by split.
Qed.

Lemma demo_here_s : demo_here (lit "s") (Ret demo_smeta) [] demo_sab.
Proof.
  replace demo_sab with (list_to_set (C := gset bytes) [lit "a"; lit "b"]) by (apply (bool_decide_unpack _); vm_compute; exact I).
  apply demo_here_of; [apply demo_sets_stored|vm_compute; reflexivity].
Qed.

Lemma demo_here_t : demo_here (lit "t") (Ret demo_smeta) [] demo_sbc.
Proof.
  replace demo_sbc with (list_to_set (C := gset bytes) [lit "b"; lit "c"]) by (apply (bool_decide_unpack _); vm_compute; exact I).
  apply demo_here_of; [apply demo_sets_stored|vm_compute; reflexivity].
Qed.

Lemma demo_scommand : command_ok demo_cfg demo_sadd 7 (lit "s") demo_store ∅ ∅ demo_sdb.
Proof. split; [done|split; [by apply (bool_decide_unpack _)|done]|done|done|done|done|apply demo_store_inv|done|exact demo_sdb_tidy|vm_compute; reflexivity]. Qed.

#[local] Abbreviation demo_sread := (fun key => read_meta demo_cfg 0 demo_params demo_sadd None (demo_schunk key) 3 RT_SET_META key).
#[local] Abbreviation demo_sw := (mkWorld demo_store demo_sdb None).

Lemma demo_slog : can_log demo_sadd demo_store.
Proof. by repeat split. Qed.

Lemma sadd_srem_correct_witness :
  exists tx tx' rv' idx', tx_db tx = demo_sdb /\ set_stored demo_cfg demo_sadd demo_schunk (lit "s") tx' rv' idx' (set_add [lit "b"; lit "x"; lit "x"] demo_sab) /\
    rv_ttl rv' = old_ttl (Ret demo_smeta) /\ untouched (lit "s") tx tx' /\
    commits (BM := true) tx' (Command_fmtLongLong 1)
      (SAdd_run demo_cfg demo_sadd 0 demo_schunk demo_sread (lit "s") [lit "b"; lit "x"; lit "x"] demo_sw).
Proof.
  assert (zcard (set_add [lit "b"; lit "x"; lit "x"] demo_sab) - zcard demo_sab = 1) as Ez by (vm_compute; reflexivity). rewrite <-Ez.
  refine (proj1 (sadd_srem_correct demo_cfg demo_sadd 0 3 demo_params None demo_schunk demo_store ∅ ∅ demo_sdb (lit "s") (Ret demo_smeta) [] demo_sab [lit "b"; lit "x"; lit "x"] demo_scommand demo_slog demo_here_s _ _ _) _).
  - by repeat constructor.
  - reflexivity.
  - vm_compute. reflexivity.
  - intros E. discriminate E.
Defined.

Lemma set_reads_correct_witness :
  answers demo_sdb (SIsMember_run demo_cfg demo_sadd demo_schunk demo_sread (lit "s") (lit "c") demo_sw)
    (if bool_decide (lit "c" ∈ demo_sab) then Command_fmtOne else Command_fmtZero).
Proof.
  refine (proj1 (proj2 (set_reads_correct demo_cfg demo_sadd 0 3 demo_params None demo_schunk demo_store ∅ ∅ demo_sdb (fun _ => Ret tt) (fun _ => eq_refl) (lit "s") (Ret demo_smeta) [] demo_sab (lit "c")
    demo_scommand demo_here_s _ _))).
  - reflexivity.
  - vm_compute. reflexivity.
Defined.
