(* ===== verification/MembersMulti.v ===== *)
(** The commands on several sets (commands/set.cpp): SUNION, SDIFF, SINTER and the forms that store
    the result. *)

From Stdlib Require Import Strings.Byte ZArith Lia Sorting.Sorted.
From stdpp Require Import base list numbers strings gmap sets.
From S2P Require Import Prelude Status Varint Strings Number Record RecordValue RecordMeta ReplLog BinlogSeq Txn Store Replicate Cursor Command Elems Keys KeysSpec KeysDel Named Members MembersSpec MembersCmd.

Local Open Scope Z_scope.

(** * Ordered sets of the library *)

Definition name_lt (a b : bytes) : Prop := bytes_lt a b = true.

Lemma sset_insert_elem k l x : x ∈ sset_insert k l <-> x = k \/ x ∈ l.
Proof.
  induction l as [|k' l IH]; cbn [sset_insert]; [by rewrite list_elem_of_singleton, elem_of_nil; tauto|].
  case_bool_decide as E; [subst; rewrite elem_of_cons; tauto|]. destruct (bytes_lt k k'); rewrite !elem_of_cons, ?IH; tauto.
Qed.

Lemma sset_insert_sorted k l : StronglySorted name_lt l -> StronglySorted name_lt (sset_insert k l).
Proof.
  induction 1 as [|k' l Hl IH Hall]; cbn [sset_insert]; [by repeat constructor|]. case_bool_decide as E; [by constructor|].
  destruct (bytes_lt k k') eqn:Elt.
  - constructor; [by constructor|]. constructor; [done|]. eapply Forall_impl; [exact Hall|]. intros x Hx. by apply (bytes_lt_trans _ k').
  - constructor; [done|]. apply Forall_forall. intros x [->|Hx]%sset_insert_elem; [|rewrite Forall_forall in Hall; by apply Hall].
    unfold name_lt. destruct (bytes_lt k' k) eqn:E2; [done|]. by destruct (E (bytes_lt_total _ _ Elt E2)).
Qed.

Lemma name_sorted_NoDup l : StronglySorted name_lt l -> NoDup l.
Proof.
  induction 1 as [|x l Hl IH Hall]; [constructor|]. constructor; [|done]. intros Hx. rewrite Forall_forall in Hall. specialize (Hall x Hx).
  unfold name_lt in Hall. by rewrite bytes_lt_irrefl in Hall.
Qed.

(** The members of a set, in order. *)
Definition lists (l : list bytes) (X : gset bytes) : Prop := StronglySorted name_lt l /\ forall x, x ∈ l <-> x ∈ X.

Lemma listed_zlen (l : list bytes) (X : gset bytes) : NoDup l -> (forall x, x ∈ l <-> x ∈ X) -> zlen l = zcard X.
Proof. intros Hnd He. apply perm_zcard. apply NoDup_Permutation; [done|apply NoDup_elements|]. intros x. by rewrite He, elem_of_elements. Qed.

Lemma lists_zlen l X : lists l X -> zlen l = zcard X.
Proof. intros [Hs He]. by apply listed_zlen; [apply name_sorted_NoDup|]. Qed.

Lemma lists_insert l X k : lists l X -> lists (sset_insert k l) ({[k]} ∪ X).
Proof.
  intros [Hs He]. split; [by apply sset_insert_sorted|]. intros x. rewrite sset_insert_elem, He, elem_of_union, elem_of_singleton. done.
Qed.

Lemma lists_erase l X k : lists l X -> lists (sset_erase k l) (X ∖ {[k]}).
Proof.
  intros [Hs He]. split; [by apply filter_in_order|]. intros x. unfold sset_erase. rewrite elem_of_filter_bool, He, elem_of_difference, elem_of_singleton.
  by rewrite negb_true_iff, bool_decide_eq_false.
Qed.

Lemma lists_empty : lists [] ∅.
Proof. split; [constructor|]. intros x. by rewrite elem_of_nil, elem_of_empty. Qed.

(** ** The folds *)

Section Folds.
Variable memLimit : Z -> M unit.
Hypothesis Hmem : forall u, memLimit u = Ret tt.

Lemma insert_fold l : forall used r X, lists r X ->
  exists used' r', foldM (sdiff_step memLimit true) l (used, r) = Ret (used', r') /\ lists r' (list_to_set l ∪ X).
Proof.
  induction l as [|k l IH]; intros used r X Hr; cbn [foldM list_to_set].
  - exists used, r. by rewrite union_empty_l_L.
  - cbn [sdiff_step]. rewrite (charge_ok memLimit Hmem), !bind_Ret. destruct (IH (used + zlen k) _ _ (lists_insert r X k Hr)) as (used' & r' & -> & Hr').
    exists used', r'. split; [done|]. by rewrite (union_comm_L {[k]}), <-union_assoc_L.
Qed.

Lemma erase_fold l : forall used r X, lists r X ->
  exists r', foldM (sdiff_step memLimit false) l (used, r) = Ret (used, r') /\ lists r' (X ∖ list_to_set l).
Proof.
  induction l as [|k l IH]; intros used r X Hr; cbn [foldM list_to_set].
  - exists r. by rewrite difference_empty_L.
  - cbn [sdiff_step]. rewrite !bind_Ret. destruct (IH used _ _ (lists_erase r X k Hr)) as (r' & -> & Hr'). exists r'. split; [done|]. by rewrite difference_difference_l_L in Hr'.
Qed.

Lemma union_fold l : forall used r (X : gset bytes), NoDup r -> (forall x, x ∈ r <-> x ∈ X) ->
  exists used' r', foldM (sunion_step memLimit) l (used, r) = Ret (used', r') /\ NoDup r' /\ forall x, x ∈ r' <-> x ∈ list_to_set l ∪ X.
Proof.
  induction l as [|k l IH]; intros used r X Hnd Hr; cbn [foldM list_to_set].
  - exists used, r. split; [done|]. split; [done|]. intros x. by rewrite union_empty_l_L.
  - cbn [sunion_step]. case_bool_decide as Hk.
    + rewrite bind_Ret. destruct (IH used r X Hnd Hr) as (used' & r' & -> & Hnd' & Hr'). exists used', r'. split; [done|]. split; [done|].
      intros x. rewrite Hr', !elem_of_union, elem_of_singleton. apply Hr in Hk. split; [tauto|]. intros [[->|?]|?]; tauto.
    + rewrite (charge_ok memLimit Hmem), !bind_Ret. destruct (IH (used + zlen k) (r ++ [k]) ({[k]} ∪ X)) as (used' & r' & -> & Hnd' & Hr').
      * apply NoDup_app. split; [done|]. split; [|apply NoDup_singleton]. intros x Hx Hx2%list_elem_of_singleton. by subst.
      * intros x. rewrite elem_of_app, list_elem_of_singleton, elem_of_union, elem_of_singleton, Hr. tauto.
      * exists used', r'. split; [done|]. split; [done|]. intros x. rewrite Hr', !elem_of_union. tauto.
Qed.

Lemma member_bulks_ok l : forall used ss, member_bulks memLimit l used ss = Ret (ss ++ concat (map Command_fmtBulk l)).
Proof.
  induction l as [|k l IH]; intros used ss; cbn [member_bulks map concat]; [by rewrite app_nil_r|]. rewrite (charge_ok memLimit Hmem), !bind_Ret, IH. by rewrite <-app_assoc.
Qed.

End Folds.

(** The members of every one of the sets. *)
Definition in_all (Xs : list (gset bytes)) (x : bytes) : Prop := Forall (fun X => x ∈ X) Xs.

Lemma in_all_perm Xs Ys x : Xs ≡ₚ Ys -> in_all Xs x <-> in_all Ys x.
Proof. intros Hp. unfold in_all. by rewrite Hp. Qed.

Definition inter_from (X : gset bytes) (Ys : list (gset bytes)) : gset bytes := foldr intersection X Ys.

Lemma inter_from_elem X Ys x : x ∈ inter_from X Ys <-> in_all (X :: Ys) x.
Proof.
  unfold in_all. rewrite Forall_cons. induction Ys as [|Y Ys IH]; cbn [inter_from foldr]; [by rewrite Forall_nil; tauto|]. rewrite elem_of_intersection, Forall_cons. tauto.
Qed.

Lemma inter_from_cons X Y Ys : inter_from X (Y :: Ys) = inter_from (X ∩ Y) Ys.
Proof. apply set_eq. intros x. rewrite !inter_from_elem. unfold in_all. rewrite !Forall_cons, elem_of_intersection. tauto. Qed.

Lemma inter_from_empty Ys : inter_from ∅ Ys = ∅.
Proof. apply set_eq. intros x. rewrite inter_from_elem. unfold in_all. rewrite Forall_cons, elem_of_empty. tauto. Qed.

(** The sets that have a member. *)
Definition inhabited (Xs : list (gset bytes)) : list (gset bytes) := List.filter (fun X => negb (bool_decide (X = ∅))) Xs.

Lemma lists_filter l X Y : lists l X -> lists (List.filter (fun x => bool_decide (x ∈ Y)) l) (X ∩ Y).
Proof.
  intros [Hs He]. split; [by apply filter_in_order|]. intros x. rewrite elem_of_filter_bool, He, elem_of_intersection, bool_decide_eq_true. done.
Qed.

Lemma lists_nil X : lists [] X -> X = ∅.
Proof. intros [_ He]. apply set_eq. intros x. by rewrite <-He, elem_of_nil, elem_of_empty. Qed.

(** * The commands *)

(** Whether a command goes on to commit the transaction of its session. *)
Class Logging : Type := logging : bool.

(** The store knows the transaction of the session, if there is one, and has an id for its log. *)
Definition loggable {T : Type} (live : gmap Z Z) (w : World (T := T)) : Prop :=
  ks_nextBinlogSeq (w_store w) < 2 ^ 64 - 1 /\
  match w_txn w with Some tx => live !! tx_txnId tx = Some TXNID_UNINITED /\ log_ok tx | None => True end.

Section Multi.
Context {BM : BuildMode} {T : Type} `{RocksIterLaws T} {HL : RocksDBLaws T} {HH : RocksDBHealthy T} {HI : RocksIterHealthy T}.
Variable cfg : StoreCfg.
Variable sess : SessionCtx.
Variables (now currentTs : Z) (srv : ServerParams) (multi : option Z) (chunkOf : bytes -> Z).
Variables (dur : gset Z) (db : T).
Context {LG : Logging}.
Variable memLimit : Z -> M unit.
Hypothesis Hmem : forall u, memLimit u = Ret tt.

#[local] Abbreviation readMeta := (fun key => read_meta cfg now srv sess multi (chunkOf key) currentTs RT_SET_META key).
#[local] Abbreviation set_here := (set_here cfg sess currentTs srv multi chunkOf db).

(** The store and the session. *)
Record store_ok : Prop := mkStoreOk {
  so_cat : cfg_isCatalog cfg = false;
  so_db : is_u32 (sc_dbId sess);
  so_ep : is_u64 (sc_versionEP sess);
  so_ro : sc_replOnly sess = false;
  so_tidy : tidy db;
  so_size : zlen (scan_entries (rdb_scan db CF_Default None)) * 2 < MAXU32
}.

Hypothesis Hso : store_ok.

Definition key_ok (pk : bytes) : Prop := ((x00 ∉ pk) /\ zlen pk < 2 ^ 61) /\ is_u32 (chunkOf pk) /\ chunkOf pk < CLUSTER_SLOTS.

(** The keys hold these sets. *)
Definition sets_here (keys : list bytes) (Xs : list (gset bytes)) : Prop :=
  Forall2 (fun key X => key_ok key /\ exists rv idx, set_here key rv idx X) keys Xs.

(** A world in the middle of a command that has written nothing, with room for [n] transactions; the
    last one can be committed if the command is one that does. *)
Definition reading (n : Z) (w : World (T := T)) : Prop :=
  w_db w = db /\ (exists live, sys_inv (mkSys (w_store w) live dur) /\ (logging = true -> loggable live w)) /\ ks_nextTxnSeq (w_store w) + n < 2 ^ 64 - 1 /\
  match w_txn w with None => True | Some tx => writable (tx_with_db tx db) end.

Lemma reading_weaken n n' w : reading n w -> n' <= n -> reading n' w.
Proof. intros (A & B & C & D) Hn. split; [done|]. split; [done|]. split; [lia|done]. Qed.

(** A record of any type that is read in the middle of a command. *)
Lemma reading_read n w tp pk rv : 0 <= n -> reading (n + 1) w -> key_ok pk -> getRealKeyType tp = RT_DATA_META ->
  RocksKVStore_getKV cfg (whole_key (chunkOf pk) (sc_dbId sess) pk tp) (RocksTxn_new 0 false db) = rv ->
  match rv with Ret v => expired currentTs srv v = false /\ verdict sess multi pk tp true v = Ret v | Throw _ _ => True | Crash _ => False end ->
  exists w', read_meta cfg now srv sess multi (chunkOf pk) currentTs tp pk w = Ret (w', rv) /\ reading n w' /\ w_txn w' = w_txn w.
Proof.
  intros Hn0 (Edb & (live & Hi & Hlg) & Hn & Ht) [Hpk Hch] Htp Eg Hl. destruct Hso as [Hcat Hdb Hep Hro Htd Hsz].
  destruct (expire_ok cfg Hcat now currentTs srv sess multi (chunkOf pk) pk Hpk Hch Hdb (w_store w) live dur db tp true Hi ltac:(lia) Htp Htd Hsz) as (ks0 & Hi0 & Hq & Hx).
  exists (mkWorld ks0 db (w_txn w)). split; [|split; [|done]].
  - unfold read_meta. rewrite Edb. set (tx0 := RocksTxn_new _ _ db) in Hx.
    assert (RocksKVStore_getKV cfg (whole_key (chunkOf pk) (sc_dbId sess) pk tp) tx0 = rv) as Er by (rewrite <-Eg; by apply getKV_same). rewrite Er in Hx.
    destruct rv as [v|code msg|]; [|by rewrite Hx|done]. destruct Hl as (He & Hv). destruct Hx as [Hx _]. by rewrite (Hx He), bind_Ret, Hv.
  - split; [done|]. split; [|split; [cbn [w_store]; lia|done]]. exists live. split; [done|]. intros [Hb Hx']%Hlg. split; [cbn [w_store]; lia|done].
Qed.

Lemma live_verdict tp pk v : live_record sess currentTs srv multi tp v -> expired currentTs srv v = false /\ verdict sess multi pk tp true v = Ret v.
Proof. intros (Hty & He & Hv). split; [done|]. unfold verdict. by rewrite bool_decide_true, Hv by done. Qed.

Lemma reading_meta n w pk rv idx X : 0 <= n -> reading (n + 1) w -> key_ok pk -> set_here pk rv idx X ->
  exists w', readMeta pk w = Ret (w', rv) /\ reading n w' /\ w_txn w' = w_txn w.
Proof.
  intros Hn Hw Hk (Eg & Hf & Hl). apply reading_read; [done|done|done|done|done|]. destruct rv as [v| |]; [by apply live_verdict|done|done].
Qed.

Lemma reading_open n w : 0 <= n -> reading (n + 1) w ->
  exists w' tx, open_read sess w = Ret (w', tx) /\ reading n w' /\ w_txn w' = Some tx /\ writable tx /\ tx_db tx = db.
Proof.
  intros Hn0 (Edb & (live & Hi & Hlg) & Hn & Ht). destruct Hso as [Hcat Hdb Hep Hro Htd Hsz]. unfold open_read, SessionCtx_createTransaction, txn_access. destruct (w_txn w) as [tx|] eqn:Et.
  - rewrite bind_Ret. assert (tx_done tx = false) as -> by apply Ht. rewrite bind_Ret. rewrite Edb. eexists _, _. split; [reflexivity|]. cbn [w_store w_txn].
    split; [|done]. split; [done|]. split; [|split; [cbn [w_store]; lia|exact Ht]]. exists live. split; [done|]. intros [Hb Hx]%Hlg. rewrite Et in Hx. by split.
  - destruct (create_ok (w_store w) live dur (Some false) Hi ltac:(lia)) as (ks1 & b & Ec & Hi1 & _). destruct (create_txn_fields _ _ _ _ _ Ec) as (-> & _ & Eq & Eb).
    rewrite Hro, Ec, !bind_Ret. cbn [tx_done RocksTxn_new]. rewrite bind_Ret, Edb. cbn [w_db w_store].
    assert (writable (RocksTxn_new (ks_nextTxnSeq (w_store w)) false db)) as Hw by (split; [done|]; split; [done|]; split; [by vm_compute|done]).
    eexists _, _. split; [reflexivity|]. split; [|done]. split; [done|]. split; [|split; [cbn [w_store]|exact Hw]].
    { exists (<[ks_nextTxnSeq (w_store w) := TXNID_UNINITED]> live). split; [done|]. intros [Hb _]%Hlg. split; [cbn [w_store]; lia|]. split; [apply lookup_insert_eq|split; [done|constructor]]. }
    pose proof (si_seq _ Hi) as Hs. cbn in Hs. rewrite Eq, wrap_id by (unfold is_u; lia). lia.
Qed.

Lemma reading_opened n w tx : logging = true -> reading n w -> w_txn w = Some tx -> opened w tx.
Proof.
  intros Hl (_ & (live & Hi & Hlg) & _) Et. destruct (Hlg Hl) as [Hb Hx]. rewrite Et in Hx. split; [by rewrite Et|]. split; [apply Hx|]. split; [done|]. exists live, dur. by destruct Hx.
Qed.

(** The members of a set that is there. *)
Lemma reading_members w tx pk v idx X : w_txn w = Some tx -> writable tx -> tx_db tx = db -> key_ok pk -> set_here pk (Ret v) idx X ->
  exists l, list_to_set l = X /\ forall A (step : A -> bytes -> M A) acc, scan_members sess chunkOf pk step tx acc = foldM step l acc.
Proof.
  intros Et Hw Edb [[Hnul Hpk] Hch] Hh. pose proof (set_here_tx cfg sess currentTs srv multi chunkOf db pk _ _ _ tx Hh Hw Edb) as ((_ & _ & _ & He) & _).
  destruct (scan_members_ok cfg sess chunkOf pk Hch (so_db Hso) Hpk tx X He Hnul) as (l & Hp & Hfold); [rewrite Edb; apply Hso|]. exists l. split; [|done].
  apply set_eq. intros x. rewrite elem_of_list_to_set, Hp. apply elem_of_elements.
Qed.

Lemma absent_here pk rv idx X : set_here pk rv idx X -> exists o, meta_or_none rv = Ret o /\ (o = None -> X = ∅) /\ (forall v, o = Some v -> rv = Ret v).
Proof.
  intros (_ & Hf & _). destruct rv as [v|c msg|]; [|destruct Hf as ([-> | ->] & -> & _)|done]; (eexists; split; [reflexivity|split; [done|by intros ? [= ->]]]) || (eexists; split; [reflexivity|done]).
Qed.

(** The read of one of the sets of a command, and of its members when it is there. *)
Lemma reading_step keys n w key rv idx X : 0 <= n -> reading (n + 2 * zlen (key :: keys)) w -> key_ok key -> set_here key rv idx X ->
  exists w1 o, readMeta key w = Ret (w1, rv) /\ meta_or_none rv = Ret o /\ reading (n + 2 * zlen keys + 1) w1 /\
  match o with
  | Some v => exists w2 tx l, open_read sess w1 = Ret (w2, tx) /\ reading (n + 2 * zlen keys) w2 /\ list_to_set l = X /\
      forall A (step : A -> bytes -> M A) acc, scan_members sess chunkOf key step tx acc = foldM step l acc
  | None => X = ∅ /\ reading (n + 2 * zlen keys) w1
  end.
Proof.
  intros Hn Hw Hk Hh. rewrite zlen_cons in Hw. pose proof (zlen_nonneg keys). destruct (reading_meta (n + 2 * zlen keys + 1) w key rv idx X) as (w1 & E1 & Hw1 & _); [lia| |done|done|].
  { by replace (n + 2 * zlen keys + 1 + 1) with (n + 2 * (1 + zlen keys)) by lia. }
  destruct (absent_here _ _ _ _ Hh) as (o & Eo & Hnone & Hsome). exists w1, o. split; [done|]. split; [done|]. split; [done|]. destruct o as [v|].
  - destruct (reading_open (n + 2 * zlen keys) w1 ltac:(lia) Hw1) as (w2 & tx & E2 & Hw2 & Et & Hwr & Edb). rewrite (Hsome v eq_refl) in Hh.
    destruct (reading_members w2 tx key v idx X Et Hwr Edb Hk Hh) as (l & El & Hfold). by exists w2, tx, l.
  - split; [by apply Hnone|]. apply (reading_weaken _ _ w1 Hw1). lia.
Qed.

(** ** SUNION *)

Lemma sunion_loop_ok keys Xs : sets_here keys Xs -> forall n w used r X, 0 <= n -> reading (n + 2 * zlen keys) w -> NoDup r -> (forall x, x ∈ r <-> x ∈ X) ->
  exists w' used' r', sunion_loop sess chunkOf readMeta memLimit keys (used, r) w = Ret (w', Ret (used', r')) /\ reading n w' /\ NoDup r' /\
    forall x, x ∈ r' <-> x ∈ X ∪ ⋃ Xs.
Proof.
  induction 1 as [|key X1 keys Xs [Hk (rv & idx & Hh)] Hall IH]; intros n w used r X Hn Hw Hnd Hr; cbn [sunion_loop union_list foldr].
  { exists w, used, r. change (zlen []) with 0 in Hw. rewrite Z.add_0_r in Hw. by rewrite union_empty_r_L. }
  destruct (reading_step keys n w key rv idx X1 Hn Hw Hk Hh) as (w1 & o & E1 & Eo & Hw1 & Ho). cbv beta in E1. rewrite E1, bind_Ret, Eo. cbn [or_return]. destruct o as [v|].
  - destruct Ho as (w2 & tx & l & -> & Hw2 & <- & Hfold). rewrite bind_Ret, Hfold.
    destruct (union_fold memLimit Hmem l used r X Hnd Hr) as (used2 & r2 & -> & Hnd2 & Hr2). cbn [or_return].
    destruct (IH n w2 used2 r2 (list_to_set l ∪ X) Hn Hw2 Hnd2 Hr2) as (w' & used' & r' & -> & Hw' & Hnd' & Hr'). exists w', used', r'.
    by rewrite (union_comm_L _ X), <-union_assoc_L in Hr'.
  - destruct Ho as [-> Hw2]. destruct (IH n w1 used r X Hn Hw2 Hnd Hr) as (w' & used' & r' & -> & Hw' & Hnd' & Hr'). exists w', used', r'. by rewrite union_empty_l_L.
Qed.

(** ** SDIFF *)

Lemma sdiff_rest_ok keys Xs : sets_here keys Xs -> forall n w used r X, 0 <= n -> reading (n + 2 * zlen keys) w -> lists r X ->
  exists w' r', sdiff_loop sess chunkOf readMeta memLimit false keys (used, r) w = Ret (w', Ret (used, r')) /\ reading n w' /\ lists r' (X ∖ ⋃ Xs).
Proof.
  induction 1 as [|key X1 keys Xs [Hk (rv & idx & Hh)] Hall IH]; intros n w used r X Hn Hw Hr; cbn [sdiff_loop union_list foldr].
  { exists w, r. change (zlen []) with 0 in Hw. rewrite Z.add_0_r in Hw. by rewrite difference_empty_L. }
  destruct (reading_step keys n w key rv idx X1 Hn Hw Hk Hh) as (w1 & o & E1 & Eo & Hw1 & Ho). cbv beta in E1. rewrite E1, bind_Ret, Eo. cbn [or_return]. destruct o as [v|].
  - destruct Ho as (w2 & tx & l & -> & Hw2 & <- & Hfold). rewrite bind_Ret, Hfold. destruct (erase_fold memLimit l used r X Hr) as (r2 & -> & Hr2). cbn [or_return].
    destruct (IH n w2 used r2 _ Hn Hw2 Hr2) as (w' & r' & -> & Hw' & Hr'). exists w', r'. by rewrite difference_difference_l_L in Hr'.
  - destruct Ho as [-> Hw2]. destruct (IH n w1 used r X Hn Hw2 Hr) as (w' & r' & -> & Hw' & Hr'). exists w', r'. by rewrite union_empty_l_L.
Qed.

Lemma sdiff_loop_ok key keys X Xs n w : sets_here (key :: keys) (X :: Xs) -> 0 <= n -> reading (n + 2 * zlen (key :: keys)) w ->
  exists w' used r, sdiff_loop sess chunkOf readMeta memLimit true (key :: keys) (0, []) w = Ret (w', Ret (used, r)) /\ reading n w' /\ lists r (X ∖ ⋃ Xs).
Proof.
  intros [[Hk (rv & idx & Hh)] Hall]%Forall2_cons Hn Hw. cbn [sdiff_loop].
  destruct (reading_step keys n w key rv idx X Hn Hw Hk Hh) as (w1 & o & E1 & Eo & Hw1 & Ho). cbv beta in E1. rewrite E1, bind_Ret, Eo. cbn [or_return]. destruct o as [v|].
  - destruct Ho as (w2 & tx & l & -> & Hw2 & <- & Hfold). rewrite bind_Ret, Hfold. destruct (insert_fold memLimit Hmem l 0 [] ∅ lists_empty) as (used & r & -> & Hr). cbn [or_return].
    destruct (sdiff_rest_ok keys Xs Hall n w2 used r _ Hn Hw2 Hr) as (w' & r' & -> & Hw' & Hr'). exists w', used, r'. by rewrite union_empty_r_L in Hr'.
  - destruct Ho as [-> Hw2]. destruct (sdiff_rest_ok keys Xs Hall n w1 0 [] ∅ Hn Hw2 lists_empty) as (w' & r' & -> & Hw' & Hr'). by exists w', 0, r'.
Qed.

(** ** SINTER *)

(** A set of the list that SINTER sorts. *)
Definition set_at (p : bytes * Z) (X : gset bytes) : Prop := key_ok (fst p) /\ exists v idx, set_here (fst p) (Ret v) idx X.

Lemma sinter_sets_ok store keys Xs : sets_here keys Xs -> forall n w sl, 0 <= n -> reading (n + 2 * zlen keys) w ->
  exists w' o, sinter_sets readMeta store keys sl w = Ret (w', Ret o) /\ reading n w' /\
  match o with
  | None => store = false /\ ∅ ∈ Xs
  | Some l => exists l', l = sl ++ l' /\ Forall2 set_at l' (inhabited Xs) /\ (store = false -> inhabited Xs = Xs) /\ Forall (fun p => fst p ∈ keys) l'
  end.
Proof.
  induction 1 as [|key X keys Xs [Hk (rv & idx & Hh)] Hall IH]; intros n w sl Hn Hw; cbn [sinter_sets].
  { exists w, (Some sl). split; [done|]. split; [apply (reading_weaken _ _ w Hw); change (zlen []) with 0; lia|]. exists []. by rewrite app_nil_r. }
  destruct (reading_step keys n w key rv idx X Hn Hw Hk Hh) as (w1 & o & E1 & Eo & Hw1 & Ho). cbv beta in E1. rewrite E1, bind_Ret, Eo. cbn [or_return].
  apply (reading_weaken _ (n + 2 * zlen keys)) in Hw1; [|lia]. unfold inhabited. cbn [List.filter]. destruct o as [v|].
  - assert (rv = Ret v) as -> by (destruct rv as [?|[] ?|]; try done; cbn in Eo; congruence). pose proof Hh as (_ & (_ & Ed & Hne & _) & _). rewrite Ed. cbn [sm_count].
    destruct (Z.eqb_spec (zcard X) 0) as [E0|E0]; [by destruct (Hne (zcard_0 _ E0))|]. rewrite (bool_decide_false (X = ∅)) by done. cbn [negb].
    destruct (IH n w1 (sl ++ [(key, zcard X)]) Hn Hw1) as (w' & o & -> & Hw' & Hm). exists w', o. split; [done|]. split; [done|]. destruct o as [l|].
    + destruct Hm as (l' & -> & Hl & Hst & Hin). exists ((key, zcard X) :: l'). rewrite <-app_assoc. split; [done|]. split; [|split].
      * constructor; [split; [done|by exists v, idx]|done].
      * intros Hs. f_equal. by apply Hst.
      * constructor; [by left|]. eapply Forall_impl; [exact Hin|]. intros p Hp. by right.
    + split; [apply Hm|]. right. apply Hm.
  - destruct Ho as [-> _]. rewrite bool_decide_true by done. cbn [negb]. destruct store; [|exists w1, None; split; [done|]; split; [apply (reading_weaken _ _ w1 Hw1); pose proof (zlen_nonneg keys); lia|by split; [|left]]].
    destruct (IH n w1 sl Hn Hw1) as (w' & o & -> & Hw' & Hm). exists w', o. split; [done|]. split; [done|]. destruct o as [l|]; [|by split; [|right]; apply Hm].
    destruct Hm as (l' & -> & Hl & Hst & Hin). exists l'. split; [done|]. split; [done|]. split; [done|]. eapply Forall_impl; [exact Hin|]. intros p Hp. by right.
Qed.

Lemma sinter_keep_ok w tx key v idx X result : w_txn w = Some tx -> writable tx -> tx_db tx = db -> key_ok key -> set_here key (Ret v) idx X -> Forall (sub_ok key) result ->
  sinter_keep cfg sess chunkOf key result tx = Ret (List.filter (fun x => bool_decide (x ∈ X)) result).
Proof.
  intros Et Hw Edb [[Hnul Hpk] Hch] Hh. pose proof (set_here_tx cfg sess currentTs srv multi chunkOf db key _ _ _ tx Hh Hw Edb) as ((_ & _ & _ & He) & _).
  induction 1 as [|sk result Hsk Hall IH]; [done|]. cbn [sinter_keep List.filter].
  pose proof (named_get cfg sess (chunkOf key) key RT_SET_ELE tx _ sk He Hsk) as Hg. rewrite as_map_lookup in Hg. case_bool_decide.
  - destruct Hg as (rv & Eg & _). setoid_rewrite Eg. cbn [status_of]. by rewrite bind_Ret, IH, bind_Ret.
  - destruct Hg as (msg & Eg). setoid_rewrite Eg. cbn [status_of]. by rewrite bind_Ret, IH, bind_Ret.
Qed.

Lemma lists_Forall (P : bytes -> Prop) l X : lists l X -> (forall x, x ∈ X -> P x) -> Forall P l.
Proof. intros [_ He] HP. apply Forall_forall. intros x Hx. by apply HP, He. Qed.

Lemma sinter_loop_ok store l Ys : Forall2 set_at l Ys -> forall n w used r X, 0 <= n -> reading (n + zlen l) w -> lists r X ->
  (forall p x, p ∈ l -> x ∈ X -> sub_ok (fst p) x) ->
  exists w' o, sinter_loop cfg sess chunkOf store l (used, r) w = Ret (w', Ret o) /\ reading n w' /\
  match o with
  | Some (_, r') => lists r' (inter_from X Ys)
  | None => store = false /\ inter_from X Ys = ∅
  end.
Proof.
  induction 1 as [|[key c] Y l Ys [Hk (v & idx & Hh)] Hall IH]; intros n w used r X Hn Hw Hr Hsub; cbn [sinter_loop].
  { exists w, (Some (used, r)). change (zlen []) with 0 in Hw. rewrite Z.add_0_r in Hw. done. }
  rewrite zlen_cons in Hw. pose proof (zlen_nonneg l). destruct (reading_open (n + zlen l) w ltac:(lia)) as (w1 & tx & -> & Hw1 & Et & Hwr & Edb).
  { by replace (n + zlen l + 1) with (n + (1 + zlen l)) by lia. }
  rewrite bind_Ret. cbn [fst snd] in *. destruct (Z.eqb_spec (zlen r) 0) as [Hz|Hz].
  - destruct r as [|? r]; [|rewrite zlen_cons in Hz; pose proof (zlen_nonneg r); lia]. pose proof (lists_nil _ Hr) as ->. rewrite inter_from_empty.
    apply (reading_weaken _ n) in Hw1; [|lia]. destruct store; [by exists w1, (Some (used, []))|by exists w1, None].
  - rewrite (sinter_keep_ok w1 tx key v idx Y r) by (try done; apply (lists_Forall _ _ _ Hr); intros x; apply (Hsub (key, c)); by left). cbn [or_return].
    destruct (IH n w1 used _ (X ∩ Y) Hn Hw1 (lists_filter _ _ _ Hr)) as (w' & o & -> & Hw' & Hm); [intros p x Hp [Hx _]%elem_of_intersection; apply Hsub; [by right|done]|].
    exists w', o. by rewrite inter_from_cons.
Qed.

(** What SINTER computes from the sets that are there. *)
Definition inter_list (sort : list (bytes * Z) -> list (bytes * Z)) (isStore : bool) (sets : option (list (bytes * Z))) (w : World) : M (World * M (option (Z * list bytes))) :=
  match sort <$> sets with
  | None => Ret (w, Ret None)
  | Some [] => Ret (w, Ret (Some (0, [])))
  | Some ((key, _) :: setList) =>
      '(w, tx) ← open_read sess w;
      or_return w (scan_members sess chunkOf key (sdiff_step memLimit true) tx (0, [])) (fun acc => sinter_loop cfg sess chunkOf isStore setList acc w)
  end.

Lemma inter_list_ok sort isStore l Ys n w : (forall l, sort l ≡ₚ l) -> Forall2 set_at l Ys -> 0 <= n -> reading (n + zlen l + 1) w ->
  (forall p Y x, p ∈ l -> Y ∈ Ys -> x ∈ Y -> sub_ok (fst p) x) ->
  exists w' o, inter_list sort isStore (Some l) w = Ret (w', Ret o) /\ reading n w' /\
  match o with
  | Some (_, r) => StronglySorted name_lt r /\ forall x, x ∈ r <-> Ys <> [] /\ in_all Ys x
  | None => isStore = false /\ forall x, ~ in_all Ys x
  end.
Proof.
  intros Hsort Hat Hn Hw Hsub. unfold inter_list. cbn [fmap option_fmap option_map]. destruct (Permutation_Forall2 (symmetry (Hsort l)) Hat) as (Zs & HYZ & HZ).
  pose proof (zlen_perm _ _ (Hsort l)) as Hl. pose proof (zlen_nonneg l).
  destruct (sort l) as [|[key c] sl] eqn:Es.
  - inversion HZ. subst Zs. exists w, (Some (0, [])). split; [done|]. split; [apply (reading_weaken _ _ w Hw); lia|]. split; [constructor|].
    assert (Ys = []) as -> by (by apply Permutation_nil; symmetry). intros x. rewrite elem_of_nil. tauto.
  - inversion HZ as [|? Z1 ? Zs' [Hk (v & idx & Hh)] HZs]. subst. rewrite zlen_cons in Hl. pose proof (zlen_nonneg sl).
    assert (forall p, p ∈ (key, c) :: sl -> p ∈ l) as Hin by (intros p; by rewrite <-Es, Hsort).
    destruct (reading_open (n + zlen l) w ltac:(lia) Hw) as (w1 & tx & -> & Hw1 & Et & Hwr & Edb). rewrite bind_Ret.
    destruct (reading_members w1 tx key v idx Z1 Et Hwr Edb Hk Hh) as (lm & <- & Hfold). rewrite Hfold.
    destruct (insert_fold memLimit Hmem lm 0 [] ∅ lists_empty) as (used & r & -> & Hr). cbn [or_return]. rewrite union_empty_r_L in Hr.
    destruct (sinter_loop_ok isStore sl Zs' HZs n w1 used r _ Hn (reading_weaken (n + zlen l) (n + zlen sl) w1 Hw1 ltac:(lia)) Hr) as (w' & o & -> & Hw' & Hm).
    { intros p x Hp Hx. apply (Hsub p (list_to_set lm)); [apply Hin; by right|rewrite HYZ; by left|done]. }
    exists w', o. split; [done|]. split; [done|]. destruct o as [[u r']|].
    + split; [apply Hm|]. intros x. rewrite (proj2 Hm x), inter_from_elem, <-(in_all_perm _ _ x HYZ). split; [|tauto]. intros Hx. split; [|done].
      intros ->. by apply Permutation_nil_cons in HYZ.
    + split; [apply Hm|]. intros x Hx. rewrite (in_all_perm _ _ x HYZ), <-inter_from_elem, (proj2 Hm) in Hx. by apply elem_of_empty in Hx.
Qed.

(** ** The commands that answer with the members *)

Definition members_bulk (l : list bytes) : bytes := Command_fmtMultiBulkLen [] (zlen l) ++ concat (map Command_fmtBulk l).

Lemma sinter_reads sort keys Xs w : (forall l, sort l ≡ₚ l) -> keys <> [] -> sets_here keys Xs -> reading (3 * zlen keys + 1) w ->
  (forall key X x, key ∈ keys -> X ∈ Xs -> x ∈ X -> sub_ok key x) ->
  exists l, StronglySorted name_lt l /\ (forall x, x ∈ l <-> forall X, X ∈ Xs -> x ∈ X) /\
    let result := SInter_run cfg sess now chunkOf readMeta memLimit srv multi currentTs sort None keys w in
    answers db result (members_bulk l) \/ l = [] /\ answers db result Command_fmtNull.
Proof.
  intros Hsort Hne Hs Hw Hsub. assert (Xs <> []) as Hne' by (intros ->; by apply Forall2_nil_inv_r in Hs). pose proof (zlen_nonneg keys).
  destruct (sinter_sets_ok false keys Xs Hs (zlen keys + 1) w [] ltac:(lia) (reading_weaken _ (zlen keys + 1 + 2 * zlen keys) w Hw ltac:(lia))) as (w1 & o & E & Hw1 & Ho).
  unfold SInter_run. rewrite E, bind_Ret. cbn [or_return]. destruct o as [l|].
  - destruct Ho as (l' & -> & Hat & Hall & Hin). cbn [app]. rewrite (Hall eq_refl) in Hat.
    assert (zlen l' = zlen keys) as Hl by (apply Forall2_length in Hat, Hs; unfold zlen; lia).
    destruct (inter_list_ok sort false l' Xs 0 w1 Hsort Hat ltac:(lia)) as (w2 & o & E2 & Hw2 & Ho); [by rewrite Hl|intros p Y x Hp; apply Hsub; rewrite Forall_forall in Hin; by apply Hin|].
    setoid_rewrite E2. rewrite bind_Ret. cbn [or_return]. destruct o as [[u r]|].
    + exists r. split; [apply Ho|]. split; [intros x; rewrite (proj2 Ho x); unfold in_all; rewrite Forall_forall; tauto|]. left. rewrite (member_bulks_ok memLimit Hmem). cbn [or_return].
      exists w2. split; [done|apply Hw2].
    + exists []. split; [constructor|]. split; [intros x; rewrite elem_of_nil; destruct Ho as [_ Ho]; specialize (Ho x); unfold in_all in Ho; rewrite Forall_forall in Ho; tauto|].
      right. split; [done|]. exists w2. split; [done|apply Hw2].
  - destruct Ho as [_ Hemp]. cbn [fmap option_fmap option_map]. rewrite bind_Ret. cbn [or_return]. exists []. split; [constructor|]. split.
    + intros x. rewrite elem_of_nil. split; [done|]. intros Hx. by apply Hx, elem_of_empty in Hemp.
    + right. split; [done|]. exists w1. split; [done|apply Hw1].
Qed.

(** C25: SUNION answers with the members of any of the sets, each once; SDIFF with those of the
    first that none of the others has, in order; SINTER with those of all of them, in order, where
    no member in common may give the null reply. The order of the hash table of SUNION and the
    sort of SINTER do not matter, and nothing changes. *)
Theorem set_algebra_correct order sort keys Xs w :
  (forall l, order l ≡ₚ l) -> (forall l, sort l ≡ₚ l) -> keys <> [] -> sets_here keys Xs -> reading (3 * zlen keys + 1) w ->
  (forall key X x, key ∈ keys -> X ∈ Xs -> x ∈ X -> sub_ok key x) ->
  (exists l, NoDup l /\ (forall x, x ∈ l <-> exists X, X ∈ Xs /\ x ∈ X) /\
    answers db (SUnion_run cfg sess now chunkOf readMeta memLimit srv multi currentTs order None keys w) (members_bulk l)) /\
  (exists l, StronglySorted name_lt l /\ (forall x, x ∈ l <-> (exists X, Xs !! 0%nat = Some X /\ x ∈ X) /\ forall X, X ∈ drop 1 Xs -> x ∉ X) /\
    answers db (SDiff_run cfg sess now chunkOf readMeta memLimit srv multi currentTs None keys w) (members_bulk l)) /\
  (exists l, StronglySorted name_lt l /\ (forall x, x ∈ l <-> forall X, X ∈ Xs -> x ∈ X) /\
    let result := SInter_run cfg sess now chunkOf readMeta memLimit srv multi currentTs sort None keys w in
    answers db result (members_bulk l) \/ l = [] /\ answers db result Command_fmtNull).
Proof.
  intros Hord Hsort Hne Hs Hw Hsub. pose proof (zlen_nonneg keys) as Hz. split; [|split].
  - destruct (sunion_loop_ok keys Xs Hs 0 w 0 [] ∅ ltac:(lia) (reading_weaken _ (0 + 2 * zlen keys) w Hw ltac:(lia)) NoDup_nil_2) as (w' & u & r & E & Hw' & Hnd & Hr).
    { intros x. by rewrite elem_of_nil, elem_of_empty. }
    exists (order r). split; [by rewrite Hord|]. split.
    + intros x. by rewrite Hord, Hr, union_empty_l_L, elem_of_union_list.
    + unfold SUnion_run. rewrite E, bind_Ret. cbn [or_return]. exists w'. split; [|apply Hw']. unfold members_bulk. by rewrite (zlen_perm _ _ (Hord r)).
  - inversion Hs as [|key X keys' Xs' Hk Hs' Ek EX]; [by subst|]. subst. destruct (sdiff_loop_ok key keys' X Xs' 0 w Hs ltac:(lia) (reading_weaken _ (0 + 2 * zlen (key :: keys')) w Hw ltac:(lia)))
      as (w' & u & r & E & Hw' & Hr). exists r. split; [apply Hr|]. split.
    + intros x. rewrite (proj2 Hr x), elem_of_difference, elem_of_union_list. cbn. split; [intros [? Hn]; split; [by exists X|]; intros Y HY Hx; apply Hn; by exists Y|].
      intros [(? & [= <-] & ?) Hn]. split; [done|]. intros (Y & HY & Hx). by apply (Hn Y).
    + unfold SDiff_run. rewrite E, bind_Ret. cbn [or_return]. rewrite (member_bulks_ok memLimit Hmem). cbn [or_return]. exists w'. split; [done|apply Hw'].
  - exact (sinter_reads sort keys Xs w Hsort Hne Hs Hw Hsub).
Qed.

End Multi.

(** * An example *)

#[local] Instance multi_build : BuildMode := true.
#[local] Instance multi_logging : Logging := true.

Lemma demo_store_ok : store_ok demo_cfg demo_sadd demo_sdb.
Proof. split; [done|done|done|done|exact demo_sdb_tidy|vm_compute; reflexivity]. Qed.

Lemma demo_key_ok pk : x00 ∉ pk -> zlen pk < 2 ^ 61 -> key_ok demo_schunk pk.
Proof. intros Hn Hl. by split. Qed.

Lemma demo_sets_here : sets_here demo_cfg demo_sadd 3 demo_params None demo_schunk demo_sdb [lit "s"; lit "t"] [demo_sab; demo_sbc].
Proof.
  constructor; [|constructor; [|constructor]]; (split; [apply demo_key_ok; [by apply (bool_decide_unpack _)|done]|]); eexists _, _; [exact demo_here_s|exact demo_here_t].
Qed.

Lemma demo_reading n : n < 2 ^ 63 -> reading ∅ demo_sdb n (mkWorld demo_store demo_sdb None).
Proof. intros Hn. split; [done|]. split; [exists ∅; split; [exact demo_store_inv|by split]|]. split; [cbn; lia|done]. Qed.

Lemma demo_short key X x : key ∈ [lit "u"; lit "s"; lit "t"] -> X ∈ [demo_sab; demo_sbc] -> x ∈ X -> sub_ok key x.
Proof.
  intros Hk HX Hx. assert (zlen key = 1) as Hl by (rewrite !elem_of_cons, elem_of_nil in Hk; by destruct Hk as [->|[->|[->|[]]]]).
  assert (zlen x = 1) as Hlx.
  { rewrite !elem_of_cons, elem_of_nil in HX. unfold demo_sab, demo_sbc in HX. destruct HX as [->|[->|[]]]; rewrite elem_of_union, !elem_of_singleton in Hx; by destruct Hx as [-> | ->]. }
  unfold sub_ok. lia.
Qed.

Lemma set_algebra_correct_witness :
  exists l, StronglySorted name_lt l /\ (forall x, x ∈ l <-> forall X, X ∈ [demo_sab; demo_sbc] -> x ∈ X) /\
    let result := SInter_run demo_cfg demo_sadd 0 demo_schunk (fun key => read_meta demo_cfg 0 demo_params demo_sadd None (demo_schunk key) 3 RT_SET_META key) (fun _ => Ret tt)
      demo_params None 3 (fun l => rev l) None [lit "s"; lit "t"] (mkWorld demo_store demo_sdb None) in
    answers demo_sdb result (members_bulk l) \/ l = [] /\ answers demo_sdb result Command_fmtNull.
Proof.
  refine (proj2 (proj2 (set_algebra_correct demo_cfg demo_sadd 0 3 demo_params None demo_schunk ∅ demo_sdb (fun _ => Ret tt) (fun _ => eq_refl) demo_store_ok (fun l => l) (fun l => rev l)
    [lit "s"; lit "t"] [demo_sab; demo_sbc] (mkWorld demo_store demo_sdb None) _ _ _ demo_sets_here _ _))).
  - intros l. reflexivity.
  - intros l. symmetry. apply Permutation_rev.
  - intros E. discriminate E.
  - apply demo_reading. reflexivity.
  - intros key X x Hk. apply demo_short. by right.
Defined.
