(* ===== verification/MembersStore.v ===== *)
(** The commands of several sets that write (commands/set.cpp): SUNIONSTORE, SDIFFSTORE and
    SINTERSTORE, which replace a key, and SMOVE. *)

From Stdlib Require Import Strings.Byte ZArith Lia Sorting.Sorted.
From stdpp Require Import base list numbers strings gmap sets.
From S2P Require Import Prelude Status Varint Strings Number Record RecordValue RecordMeta ReplLog BinlogSeq Txn Store Replicate Cursor Command Elems Keys KeysSpec KeysDel Named Members MembersSpec MembersCmd MembersMulti.

Local Open Scope Z_scope.

Lemma zcard_empty : zcard ∅ = 0.
Proof. done. Qed.

Lemma zcard_mono (X Y : gset bytes) : X ⊆ Y -> zcard X <= zcard Y.
Proof. intros Hs. unfold zcard. apply inj_le. by apply subseteq_size. Qed.

#[local] Instance stores_logging : Logging := true.

Section Stores.
Context {BM : BuildMode} {T : Type} `{RocksIterLaws T} {HL : RocksDBLaws T} {HH : RocksDBHealthy T} {HI : RocksIterHealthy T} {HC : RocksDBCommits T}.
Variable cfg : StoreCfg.
Variable sess : SessionCtx.
Variables (now currentTs : Z) (srv : ServerParams) (multi : option Z) (chunkOf : bytes -> Z).
Variables (dur : gset Z) (db : T).
Variable memLimit : Z -> M unit.
Hypothesis Hmem : forall u, memLimit u = Ret tt.

#[local] Abbreviation readMeta := (fun key => read_meta cfg now srv sess multi (chunkOf key) currentTs RT_SET_META key).
#[local] Abbreviation set_here := (set_here cfg sess currentTs srv multi chunkOf db).
#[local] Abbreviation sets_here := (sets_here cfg sess currentTs srv multi chunkOf db).
#[local] Abbreviation reading := (reading dur db).
#[local] Abbreviation key_ok := (key_ok chunkOf).
#[local] Abbreviation gone pk := (named_gone cfg sess (chunkOf pk) pk RT_SET_META RT_SET_ELE).
#[local] Abbreviation left := (set_left cfg sess chunkOf).

Hypothesis Hso : store_ok cfg sess db.
Hypothesis Hlh : log_header sess.

(** What is under the key that is replaced: nothing, or a key of any type that has not expired and
    is not deleted by ranges; only a set has records of members. *)
Definition dest_here (pk : bytes) : Prop :=
  let tx := RocksTxn_new 0 false db in
  let mk := whole_key (chunkOf pk) (sc_dbId sess) pk RT_DATA_META in
  match RocksKVStore_getKV cfg mk tx with
  | Ret v => RecordValue_wf v /\ isDataMetaType (rv_type v) = true /\ expired currentTs srv v = false /\ SessionCtx_verifyVersion sess multi (rv_versionEP v) = true /\
      (exists cnt, getSubKeyCount mk v = Ret cnt /\ Command_useDeleteRange cnt (rv_type v) srv = false) /\
      (rv_type v <> RT_SET_META -> named_elems cfg sess (chunkOf pk) pk RT_SET_ELE tx ∅)
  | Throw c _ => c = ERR_NOTFOUND /\ named_elems cfg sess (chunkOf pk) pk RT_SET_ELE tx ∅
  | Crash _ => False
  end.

(** The type that a key is built with does not matter for a read. *)
Lemma getKV_absent_equiv k k' (tx : RocksTxn T) msg : data_key k -> data_key k' -> RecordKey_equiv k k' ->
  RocksKVStore_getKV cfg k tx = Throw ERR_NOTFOUND msg -> exists msg', RocksKVStore_getKV cfg k' tx = Throw ERR_NOTFOUND msg'.
Proof.
  intros Hk Hk' Hq Eg. pose proof (getKV_raw cfg k tx Hk) as G1. pose proof (getKV_raw cfg k' tx Hk') as G2. rewrite (raw_record_equiv tx k k' Hq) in G1.
  destruct (raw_record tx k') as [s|]; [|done]. exists msg. by rewrite G2, <-G1.
Qed.

(** Nothing of the key is left after it is deleted. *)
Lemma key_gone_gone pk types idx tx tx' : key_ok pk -> key_gone (chunkOf pk) (sc_dbId sess) pk types (whole_key (chunkOf pk) (sc_dbId sess) pk RT_DATA_META) idx tx tx' ->
  (RT_SET_ELE ∈ types \/ named_elems cfg sess (chunkOf pk) pk RT_SET_ELE tx ∅) -> gone pk tx'.
Proof.
  intros [[Hnul Hpk] Hch] (Hw & _ & Hr) Hele. assert (ele_place (chunkOf pk) (sc_dbId sess) RT_SET_ELE) as Hpl by (split; [done|apply Hso|done]).
  assert (data_key (named_key sess (chunkOf pk) pk RT_SET_META)) as Hmk by (by apply (whole_key_data (chunkOf pk) (sc_dbId sess) pk Hpk Hch (so_db _ _ _ Hso))). split.
  - apply getKV_none; [done|]. rewrite (Hr _ Hmk). replace (among _ _) with true; [by rewrite orb_true_r|]. symmetry. apply among_spec. eexists. split; [by left|]. by apply RecordKey_equiv_fields.
  - split; [|apply map_Forall_empty]. split; [done|]. intros k Hk. rewrite lookup_empty. pose proof (sub_key_data _ _ _ _ Hpl k Hk) as Hd. specialize (Hr _ Hd).
    destruct Hele as [Hin|[[_ He] _]].
    + apply getKV_none; [done|]. rewrite Hr, bool_decide_true; [done|]. split; [done|]. split; [done|]. split; [done|]. by rewrite sub_key_type.
    + destruct (_ || _); [by apply getKV_none|]. specialize (He k Hk). by apply (elem_at_frame cfg RT_SET_ELE tx).
Qed.

Lemma key_gone_untouched pk types mk idx (tx tx' : RocksTxn T) : rk_pk mk = pk -> Forall (fun k => rk_type k = RT_TTL_INDEX) idx ->
  key_gone (chunkOf pk) (sc_dbId sess) pk types mk idx tx tx' -> untouched pk tx tx'.
Proof.
  intros Hmk Hidx (_ & Hkp & Hr). split; [done|]. intros k Hd Hpk Hty. rewrite (Hr k Hd). rewrite bool_decide_false by (by intros (_ & _ & ? & _)). cbn [orb].
  destruct (among _ k) eqn:E; [|done]. apply among_spec in E as (j & Hj & (_ & _ & Et & Ep & _)%RecordKey_equiv_fields).
  apply elem_of_cons in Hj as [->|Hj]; [congruence|]. rewrite Forall_forall in Hidx. apply Hidx in Hj. congruence.
Qed.

Lemma index_keys_type ictx : Forall (fun k => rk_type k = RT_TTL_INDEX) (index_keys ictx).
Proof.
  unfold index_keys. destruct ictx as [t|]; [|constructor]. destruct (bool_decide _); [constructor|]. destruct (rt2Char _); repeat constructor.
Qed.

(** The key is deleted in the transaction of the session. *)
Lemma dest_delete pk w : reading 2 w -> key_ok pk -> dest_here pk ->
  exists w1 tx ks' b tx', open_read sess w = Ret (w1, tx) /\ w_db w1 = db /\ w_txn w1 = Some tx /\ tx_db tx = db /\
    Command_delKeyChkExpire cfg now srv sess multi (chunkOf pk) currentTs pk RT_DATA_META (w_store w1) (w_db w1) tx = Ret (ks', db, Ret (tx', b)) /\
    gone pk tx' /\ untouched pk tx tx' /\ opened (mkWorld ks' db (Some tx)) tx.
Proof.
  intros Hw Hk Hd. destruct (reading_open cfg sess dur db Hso 1 w ltac:(lia) Hw) as (w1 & tx & E & (Edb1 & (live & Hi & Hlg) & Hn & _) & Et & Hwr & Edb).
  pose proof Hk as [Hpk Hch]. pose proof Hso as [Hcat Hdb Hep Hro Htd Hsz].
  destruct (expire_ok cfg Hcat now currentTs srv sess multi (chunkOf pk) pk Hpk Hch Hdb (w_store w1) live dur db RT_DATA_META true Hi ltac:(lia) eq_refl Htd Hsz) as (ks0 & Hi0 & Hq & Hx).
  destruct (Hlg eq_refl) as [Hb Hlx]. rewrite Et in Hlx. destruct Hlx as [Hlive Hlok].
  assert (opened (mkWorld ks0 db (Some tx)) tx) as Hop by (split; [by eexists|split; [done|split; [cbn [w_store]; lia|by exists live, dur]]]).
  unfold dest_here in Hd. rewrite (getKV_same cfg _ _ (RocksTxn_new 0 false db)) in Hx by done. unfold Command_delKeyChkExpire.
  assert (tx_with_db tx db = tx) as Ew by (destruct tx; cbn in *; by subst). set (mk := whole_key _ _ _ _) in *.
  assert (forall m, named_elems cfg sess (chunkOf pk) pk RT_SET_ELE (RocksTxn_new 0 false db) m -> named_elems cfg sess (chunkOf pk) pk RT_SET_ELE tx m) as He
    by (intros m; by apply (named_elems_db cfg sess (chunkOf pk) pk)).
  destruct (RocksKVStore_getKV cfg mk (RocksTxn_new 0 false db)) as [v|c msg|] eqn:Eg; [|destruct Hd as [-> Hd]|done].
  - destruct Hd as (Hwf & Hm & Hexp & Hver & (cnt & Hcnt & Huse) & Hele). destruct Hx as [Hx _]. specialize (Hx Hexp). unfold verdict in Hx. rewrite Hver, andb_false_r in Hx. cbn [andb negb] in Hx.
    destruct (delKey_ok cfg Hcat now srv sess (chunkOf pk) pk Hpk Hch Hdb RT_DATA_META ks0 db tx v cnt) as (tx' & Edel & Hg); [by rewrite Edb|done|by rewrite Edb|done| |done..|].
    { by rewrite (getKV_same cfg _ _ (RocksTxn_new 0 false db)). }
    exists w1, tx, ks0, true, tx'. split; [done|]. split; [done|]. split; [done|]. split; [done|]. split; [by rewrite Edb1, Hx, !bind_Ret, Ew, Edel, bind_Ret|]. split.
    + apply (key_gone_gone _ _ _ _ _ Hk Hg). destruct (decide (rv_type v = RT_SET_META)) as [->|Hne]; [left; by left|right; by apply He, Hele].
    + split; [|done]. refine (key_gone_untouched pk _ _ _ _ _ _ _ Hg); [done|apply index_keys_type].
  - exists w1, tx, ks0, false, tx. split; [done|]. split; [done|]. split; [done|]. split; [done|]. split; [by rewrite Edb1, Hx, !bind_Ret, Ew|]. split; [|done].
    split; [|by apply He]. apply (getKV_absent_equiv mk _ tx msg); [by apply (whole_key_data (chunkOf pk) (sc_dbId sess) pk (proj2 Hpk) Hch Hdb)|by apply (whole_key_data (chunkOf pk) (sc_dbId sess) pk (proj2 Hpk) Hch Hdb)|by apply RecordKey_equiv_fields|].
    by rewrite (getKV_same cfg _ _ (RocksTxn_new 0 false db)).
Qed.

(** The key becomes the set of the members. *)
Definition stores (dest : bytes) (X : gset bytes) (result : M (World * M bytes)) : Prop :=
  exists tx tx', tx_db tx = db /\ left dest tx' X 0 /\ untouched dest tx tx' /\
    commits tx' (Command_fmtLongLong (zcard X)) result.

Lemma store_members_ok dest members X w : reading 2 w -> key_ok dest -> dest_here dest -> Forall (sub_ok dest) members -> zlen members < 2 ^ 63 ->
  (forall x, x ∈ members <-> x ∈ X) -> stores dest X (store_members cfg sess now chunkOf srv multi currentTs dest members w).
Proof.
  intros Hw Hk Hd Hsub Hl HX. destruct (dest_delete dest w Hw Hk Hd) as (w1 & tx & ks' & b & tx' & Eo & Edb1 & Et & Edb & Edel & Hgone & Hun & Hop).
  assert (list_to_set members = X) as <- by (apply set_eq; intros x; by rewrite elem_of_list_to_set).
  unfold store_members. rewrite Eo, bind_Ret, Edel, bind_Ret. cbn [or_return]. rewrite Et. destruct members as [|m ms] eqn:Em.
  - exists tx, tx'. split; [done|]. split; [split; [by intros _|by intros Hne; destruct Hne]|]. split; [done|]. apply (commit_commits cfg sess Hlh _ tx tx' _ Hop); [apply Hun|apply Hgone].
  - rewrite <-Em in *. pose proof Hk as [[Hnul Hpk] Hch]. destruct (sadd_ok cfg sess chunkOf dest (so_cat _ _ _ Hso) Hch (so_db _ _ _ Hso) Hpk (so_ep _ _ _ Hso) now tx' (Throw ERR_NOTFOUND []) [] ∅ members)
      as (tx2 & rv' & idx' & -> & Hst & Httl & Hun2); [|by subst|done|done|rewrite zcard_empty; lia|].
    { split; [by left|]. split; [done|]. split; [done|]. apply Hgone. }
    cbn [or_return]. unfold set_add in *. rewrite union_empty_r_L in Hst. rewrite union_empty_r_L. exists tx, tx2. split; [done|]. split; [|split].
    + split; [intros E; destruct Hst as (_ & _ & Hne & _); by destruct Hne|]. intros _. by exists rv', idx'.
    + by transitivity tx'.
    + rewrite zcard_empty, Z.sub_0_r. apply (commit_commits cfg sess Hlh _ tx tx2 _ Hop); [transitivity tx'; [apply Hun|apply Hun2]|by eapply stored_writable].
Qed.

Lemma inhabited_elem Xs X : X ∈ inhabited Xs -> X ∈ Xs.
Proof. unfold inhabited. rewrite elem_of_filter_bool. tauto. Qed.

Lemma inhabited_zlen Xs : zlen (inhabited Xs) <= zlen Xs.
Proof. unfold inhabited. induction Xs as [|X Xs IH]; [done|]. cbn [List.filter]. destruct (negb _); rewrite !zlen_cons; lia. Qed.

Lemma sinter_stores sort keys Xs dest w : (forall l, sort l ≡ₚ l) -> sets_here keys Xs -> reading (3 * zlen keys + 3) w -> key_ok dest -> dest_here dest ->
  (forall key X x, key ∈ dest :: keys -> X ∈ Xs -> x ∈ X -> sub_ok key x) -> zcard (⋃ Xs) < 2 ^ 63 ->
  exists R, (forall x, x ∈ R <-> inhabited Xs <> [] /\ in_all (inhabited Xs) x) /\
    stores dest R (SInter_run cfg sess now chunkOf readMeta memLimit srv multi currentTs sort (Some dest) keys w).
Proof.
  intros Hsort Hs Hw Hk Hd Hsub Hcard. pose proof (zlen_nonneg keys).
  destruct (sinter_sets_ok cfg sess now currentTs srv multi chunkOf dur db Hso true keys Xs Hs (zlen keys + 3) w [] ltac:(lia) (reading_weaken _ _ _ (zlen keys + 3 + 2 * zlen keys) w Hw ltac:(lia)))
    as (w1 & o & E & Hw1 & Ho). unfold SInter_run. rewrite E, bind_Ret. cbn [or_return]. destruct o as [l|]; [|by destruct Ho].
  destruct Ho as (l' & -> & Hat & _ & Hin). cbn [app]. pose proof (inhabited_zlen Xs) as Hil.
  assert (zlen l' <= zlen keys) as Hl by (apply Forall2_length in Hat, Hs; unfold zlen in *; lia).
  destruct (inter_list_ok cfg sess currentTs srv multi chunkOf dur db memLimit Hmem Hso sort true l' _ 2 w1 Hsort Hat ltac:(lia)) as (w2 & o & E2 & Hw2 & Ho).
  { apply (reading_weaken _ _ _ _ w1 Hw1). lia. }
  { intros p Y x Hp HY%inhabited_elem. apply Hsub; [right; rewrite Forall_forall in Hin; by apply Hin|done]. }
  setoid_rewrite E2. rewrite bind_Ret. cbn [or_return]. destruct o as [[u r]|]; [|by destruct Ho]. destruct Ho as [Hsrt Hr].
  assert (forall x, x ∈ r -> x ∈ ⋃ Xs /\ sub_ok dest x) as Hx.
  { intros x [Hne Hx]%Hr. destruct (inhabited Xs) as [|Y Ys] eqn:Ei; [done|]. assert (Y ∈ Xs) by (apply inhabited_elem; rewrite Ei; by left).
    apply Forall_cons in Hx as [Hx _]. split; [apply elem_of_union_list; by exists Y|]. apply (Hsub dest Y); [by left|done|done]. }
  exists (list_to_set r). split; [intros x; by rewrite elem_of_list_to_set|]. apply store_members_ok; [done..| | |intros x; by rewrite elem_of_list_to_set].
  - apply Forall_forall. intros x Hxr. by apply Hx.
  - rewrite (listed_zlen r (list_to_set r)); [|by apply name_sorted_NoDup|intros x; by rewrite elem_of_list_to_set].
    eapply Z.le_lt_trans; [|exact Hcard]. apply zcard_mono. intros x Hxr%elem_of_list_to_set. by apply Hx.
Qed.


(** ** SMOVE *)

Lemma open_fresh w : reading 1 w -> w_txn w = None ->
  exists ks1 tx, open_read sess w = Ret (mkWorld ks1 db (Some tx), tx) /\ writable tx /\ tx_db tx = db /\ opened (mkWorld ks1 db (Some tx)) tx /\
    forall reply, exists ks', rolled_back cfg (ROk tt) (mkWorld ks1 db (Some tx)) reply = Ret (mkWorld ks' db None, reply).
Proof.
  intros (Edb & (live & Hi & Hlg) & Hn & _) Et. destruct (Hlg eq_refl) as [Hb _]. destruct (create_ok (w_store w) live dur (Some false) Hi ltac:(lia)) as (ks1 & b & Ec & Hi1 & _).
  destruct (create_txn_fields _ _ _ _ _ Ec) as (-> & _ & _ & Eb). set (tx := RocksTxn_new (ks_nextTxnSeq (w_store w)) false db). exists ks1, tx. split; [|split; [|split; [|split]]].
  - unfold open_read, SessionCtx_createTransaction, txn_access. rewrite Et, (so_ro _ _ _ Hso), Ec, !bind_Ret, Edb. by cbn.
  - split; [done|]. split; [done|]. split; [by vm_compute|done].
  - done.
  - split; [by eexists|]. split; [split; [done|constructor]|]. split; [cbn [w_store]; lia|]. eexists _, dur. split; [exact Hi1|apply lookup_insert_eq].
  - intros reply. destruct (mark_ok ks1 _ dur (ks_nextTxnSeq (w_store w)) TXNID_UNINITED TXNID_UNINITED Hi1 (lookup_insert_eq _ _ _)) as (ks' & Em & _); [done|].
    exists ks'. unfold rolled_back, SessionCtx_rollbackAll, RocksTxn_rollback. cbn [w_txn w_store w_db]. inv_d by done. cbn [rocks_ok status_of tx tx_txnId RocksTxn_new]. rewrite !bind_Ret, Em, !bind_Ret. done.
Qed.

Lemma zcard_moved (X : gset bytes) sk : zcard X - zcard (set_rem [sk] X) = (if bool_decide (sk ∈ X) then 1 else 0) /\
  zcard (set_add [sk] X) - zcard X = (if bool_decide (sk ∈ X) then 0 else 1).
Proof.
  change (set_rem [sk] X) with (X ∖ ({[sk]} ∪ ∅)). change (set_add [sk] X) with (({[sk]} ∪ ∅) ∪ X). rewrite union_empty_r_L, zcard_delete, zcard_insert. case_bool_decide; lia.
Qed.

(** SMOVE takes a member of the source to the destination in one transaction, and does nothing
    when the source does not have it. The reply is the number of members that the destination
    gained: 0, as if nothing was moved, when the member was there already and only left the source. *)
Theorem smove_correct source dest sk v idx X rv2 idx2 Y ks live :
  sys_inv (mkSys ks live dur) -> ks_nextTxnSeq ks + 3 < 2 ^ 64 - 1 -> ks_nextBinlogSeq ks < 2 ^ 64 - 1 -> source <> dest -> key_ok source -> key_ok dest ->
  set_here source (Ret v) idx X -> set_here dest rv2 idx2 Y -> sub_ok source sk -> sub_ok dest sk -> zcard X < 2 ^ 64 -> zcard Y + 1 < 2 ^ 64 ->
  let result := SMove_run cfg sess now chunkOf readMeta (ROk tt) source dest sk (mkWorld ks db None) in
  (sk ∉ X -> exists ks', result = Ret (mkWorld ks' db None, Ret Command_fmtZero)) /\
  (sk ∈ X -> exists tx tx' rv' idx', tx_db tx = db /\ left source tx' (X ∖ {[sk]}) (rv_ttl v) /\ set_stored cfg sess chunkOf dest tx' rv' idx' ({[sk]} ∪ Y) /\
     (forall k, data_key k -> rk_pk k <> source -> rk_pk k <> dest -> rk_type k <> RT_TTL_INDEX -> raw_record tx' k = raw_record tx k) /\
     commits tx' (Command_fmtLongLong (if bool_decide (sk ∈ Y) then 0 else 1)) result).
Proof.
  intros Hi Hn Hbn Hne Hk1 Hk2 Hh1 Hh2 Hs1 Hs2 Hc1 Hc2 result. subst result. unfold SMove_run.
  destruct (reading_meta cfg sess now currentTs srv multi chunkOf dur db Hso 2 (mkWorld ks db None) source (Ret v) idx X ltac:(lia)) as (w1 & E1 & Hw1 & Et1); [|done|done|].
  { split; [done|]. split; [exists live; by split|]. split; [cbn; lia|done]. }
  cbv beta in E1. rewrite E1, bind_Ret. cbn [meta_or_none or_return].
  destruct (reading_meta cfg sess now currentTs srv multi chunkOf dur db Hso 1 w1 dest rv2 idx2 Y ltac:(lia) Hw1 Hk2 Hh2) as (w2 & E2 & Hw2 & Et2).
  cbv beta in E2. rewrite E2, bind_Ret. destruct (absent_here cfg sess currentTs srv multi chunkOf db dest rv2 idx2 Y Hh2) as (o & -> & _). cbn [or_return].
  destruct (open_fresh w2 Hw2) as (ks1 & tx & -> & Hwr & Edb & Hop & Hroll); [by rewrite Et2, Et1|]. rewrite bind_Ret.
  pose proof (set_here_tx cfg sess currentTs srv multi chunkOf db source _ _ _ tx Hh1 Hwr Edb) as Hf1. pose proof (set_here_tx cfg sess currentTs srv multi chunkOf db dest _ _ _ tx Hh2 Hwr Edb) as Hf2.
  pose proof Hk1 as [[_ Hp1] Hch1]. pose proof Hk2 as [[_ Hp2] Hch2]. pose proof Hso as [Hcat Hdb Hep _ _ _].
  destruct (srem_ok cfg sess chunkOf source Hcat Hch1 Hdb Hp1 Hep now tx v idx X [sk] Hf1) as (tx1 & -> & Hl1 & Hu1); [by constructor|done|done|].
  rewrite (proj1 (zcard_moved X sk)). replace (set_rem [sk] X) with (X ∖ {[sk]}) in Hl1 by (unfold set_rem; cbn [list_to_set]; by rewrite union_empty_r_L). split.
  - intros Hsk. rewrite (bool_decide_false (sk ∈ X)) by done. rewrite bool_decide_false by (by vm_compute). cbn [negb]. apply Hroll.
  - intros Hsk. rewrite (bool_decide_true (sk ∈ X)), (bool_decide_true (Command_fmtLongLong 1 = Command_fmtLongLong 1)) by done. cbn [negb]. rewrite (bool_decide_false (source = dest)) by done.
    pose proof (found_frame cfg sess chunkOf dest Hch2 Hdb Hp2 source tx tx1 (not_eq_sym Hne) Hu1 (left_writable _ _ _ _ _ _ _ Hl1) _ _ _ Hf2) as Hf2'.
    destruct (sadd_ok cfg sess chunkOf dest Hcat Hch2 Hdb Hp2 Hep now tx1 rv2 idx2 Y [sk] Hf2') as (tx2 & rv' & idx' & -> & Hst & _ & Hu2); [done|by constructor|done|done|].
    rewrite (proj2 (zcard_moved Y sk)). replace (set_add [sk] Y) with ({[sk]} ∪ Y) in Hst by (unfold set_add; cbn [list_to_set]; by rewrite union_empty_r_L).
    exists tx, tx2, rv', idx'. split; [done|]. split; [|split; [done|split]].
    + apply (left_frame cfg sess chunkOf source Hch1 Hdb Hp1 dest tx1 tx2 Hne Hu2); [|done]. destruct Hst as ((_ & _ & _ & [Hw _]) & _). apply Hw.
    + intros k Hd N1 N2 Hty. by rewrite (proj2 Hu2), (proj2 Hu1).
    + destruct (commit_opened cfg sess _ tx tx2 Hlh Hop) as (w3 & id & _ & Ec & Hcm); [transitivity tx1; [apply Hu1|apply Hu2]|by eapply stored_writable|]. exists w3. split; [|done]. by rewrite Ec, bind_Ret.
Qed.

End Stores.

(** * An example *)

#[local] Instance stores_build : BuildMode := true.

Lemma demo_dest_here : dest_here demo_cfg demo_sadd 3 demo_params None demo_schunk demo_sdb (lit "s").
Proof.
  unfold dest_here. replace (RocksKVStore_getKV _ _ _) with (Ret demo_smeta) by (vm_compute; reflexivity). split; [by split_and!; (done || (unfold is_u, MAXU64; cbn; lia))|].
  split; [done|]. split; [done|]. split; [done|]. split; [|done]. eexists. split; vm_compute; reflexivity.
Qed.

Lemma demo_slh : log_header demo_sadd.
Proof. by split. Qed.


Lemma smove_correct_witness :
  exists ks', SMove_run demo_cfg demo_sadd 0 demo_schunk (fun key => read_meta demo_cfg 0 demo_params demo_sadd None (demo_schunk key) 3 RT_SET_META key) (ROk tt)
    (lit "s") (lit "t") (lit "c") (mkWorld demo_store demo_sdb None) = Ret (mkWorld ks' demo_sdb None, Ret Command_fmtZero).
Proof.
  refine (proj1 (smove_correct demo_cfg demo_sadd 0 3 demo_params None demo_schunk ∅ demo_sdb demo_store_ok demo_slh (lit "s") (lit "t") (lit "c") demo_smeta [] demo_sab (Ret demo_smeta) [] demo_sbc
    demo_store ∅ demo_store_inv _ _ _ _ _ demo_here_s demo_here_t _ _ _ _) _).
  - reflexivity.
  - reflexivity.
  - intros E. discriminate E.
  - apply demo_key_ok; [by apply (bool_decide_unpack _)|reflexivity].
  - apply demo_key_ok; [by apply (bool_decide_unpack _)|reflexivity].
  - reflexivity.
  - reflexivity.
  - vm_compute. reflexivity.
  - vm_compute. reflexivity.
  - by apply (bool_decide_unpack _).
Defined.
