(* ===== verification/MembersPop.v ===== *)
(** SPOP (commands/set.cpp): the members it takes and those it leaves. *)

From Stdlib Require Import Strings.Byte ZArith Lia Sorting.Sorted.
From stdpp Require Import base list numbers strings gmap sets.
From S2P Require Import Prelude Status Varint Strings Number Record RecordValue RecordMeta ReplLog BinlogSeq Txn Store Replicate Cursor Command Elems Keys KeysSpec KeysDel Named Members MembersSpec MembersCmd MembersMulti MembersStore.

Local Open Scope Z_scope.

Section Pop.
Context {BM : BuildMode} {T : Type} `{RocksIterLaws T} {HL : RocksDBLaws T} {HH : RocksDBHealthy T} {HI : RocksIterHealthy T} {HC : RocksDBCommits T}.
Variable cfg : StoreCfg.
Variable sess : SessionCtx.
Variables (now currentTs : Z) (srv : ServerParams) (multi : option Z) (chunkOf : bytes -> Z).
Variables (ks : RocksKVStore) (live : gmap Z Z) (dur : gset Z) (db : T).
Variable memLimit : Z -> M unit.
Hypothesis Hmem : forall u, memLimit u = Ret tt.
Variable pk : bytes.
Hypothesis Hok : command_ok cfg sess (chunkOf pk) pk ks live dur db.
Hypothesis Hlog : can_log sess ks.

#[local] Abbreviation readMeta := (fun key => read_meta cfg now srv sess multi (chunkOf key) currentTs RT_SET_META key).
#[local] Abbreviation elems tx X := (named_elems cfg sess (chunkOf pk) pk RT_SET_ELE tx (as_map X)).
#[local] Abbreviation mkey := (sub_key (chunkOf pk) (sc_dbId sess) RT_SET_ELE pk).
#[local] Abbreviation member r := (rk_sk (fst r)).

(** The record of a member, as a cursor gives it. *)
Definition record_of (r : RecordKey * RecordValue) : Prop := sub_ok pk (member r) /\ RecordKey_equiv (mkey (member r)) (fst r) /\ RecordKey_wf (fst r).

Lemma record_data r : record_of r -> data_key (fst r).
Proof.
  intros (Hs & Hq & Hw). destruct Hok as [Hcat [_ Hpk] Hch Hdb _ _ _ _ _ _]. assert (ele_place (chunkOf pk) (sc_dbId sess) RT_SET_ELE) as Hpl by (split; [done|done|done]).
  pose proof (sub_key_data _ _ _ _ Hpl _ Hs) as (_ & Hty & Hc). apply RecordKey_equiv_fields in Hq as (E1 & E2 & E3 & _). rewrite E3, E1 in *. by split.
Qed.

Lemma del_record tx X r : elems tx X -> record_of r ->
  exists tx', RocksKVStore_delKV cfg (fst r) tx now = Ret tx' /\ elems tx' (X ∖ {[member r]}) /\ untouched pk tx tx'.
Proof.
  intros [He Hm] Hr. pose proof (record_data r Hr) as Hd. pose proof Hr as (Hs & Hq & _). destruct Hok as [Hcat [_ Hpk] Hch Hdb _ _ _ _ _ _].
  assert (ele_place (chunkOf pk) (sc_dbId sess) RT_SET_ELE) as Hpl by (split; [done|done|done]).
  destruct (delKV_ok cfg Hcat (fst r) tx now Hd (proj1 He)) as (tx' & E & Hw & Hn & Hf). exists tx'. split; [done|].
  assert (wrote_record tx tx' (mkey (member r)) None) as Hwr.
  { split; [done|]. split; [by rewrite (raw_record_equiv tx' _ _ Hq)|]. intros k' Hk' Hne. apply Hf; [done|]. intros Hq'. apply Hne. by rewrite Hq', Hq. }
  split; [|exact (wrote_untouched _ _ _ _ (delKV_kept cfg _ tx tx' now E Hd) Hwr)]. pose proof (sub_family _ _ _ pk Hpl) as Hfam.
  destruct (elems_wrote cfg mkey (sub_ok pk) RT_SET_ELE tx tx' _ (member r) None None He Hs Hwr) as [He' _].
  - by apply getKV_none; [apply (sub_key_data _ _ _ _ Hpl)|apply Hwr].
  - rewrite <-as_map_delete. split; [exact He'|]. by apply map_Forall_delete.
Qed.

Lemma spop_del_ok rcds : forall used ss tx X, Forall record_of rcds -> elems tx X ->
  exists tx' used', spop_del cfg now memLimit rcds used ss tx = Ret (tx', ss ++ concat (map Command_fmtBulk (map (fun r => member r) rcds)), used') /\
    elems tx' (X ∖ list_to_set (map (fun r => member r) rcds)) /\ untouched pk tx tx'.
Proof.
  induction rcds as [|r rcds IH]; intros used ss tx X Hr He; cbn [spop_del map concat list_to_set].
  - exists tx, used. rewrite app_nil_r, difference_empty_L. done.
  - apply Forall_cons in Hr as [Hr Hall]. destruct (del_record tx X r He Hr) as (tx1 & -> & He1 & U1). rewrite bind_Ret, (charge_ok memLimit Hmem), bind_Ret.
    destruct (IH (used + zlen (member r)) (ss ++ Command_fmtBulk (member r)) tx1 _ Hall He1) as (tx' & used' & -> & He' & U'). exists tx', used'.
    rewrite <-app_assoc. split; [done|]. split; [by rewrite difference_difference_l_L in He'|by etrans].
Qed.

(** ** The place *)

(** Where the store has a member, and the members at or behind the place: all, without one. *)
Definition stored_key (x : bytes) : bytes := encoded_key (mkey x).

Definition stored_lt (a b : bytes) : Prop := bytes_lt (stored_key a) (stored_key b) = true.

Definition behind (idx x : bytes) : bool := (zlen idx =? 0) || negb (bytes_lt (stored_key x) (stored_key idx)).

Lemma stored_key_encode x : sub_ok pk x -> RecordKey_encode (mkey x) = Ret (stored_key x) /\ stored_key x <> lit "0".
Proof.
  intros Hs. destruct Hok as [_ [_ Hpk] Hch Hdb _ _ _ _ _ _]. assert (ele_place (chunkOf pk) (sc_dbId sess) RT_SET_ELE) as Hpl by (split; [done|done|done]).
  destruct (RecordKey_encode_total _ (sub_key_wf _ _ _ pk Hpl x Hs)) as (c & _ & E). fold (rk_raw (mkey x) c) in E. unfold stored_key, encoded_key. rewrite E. split; [done|]. intros E0.
  pose proof (zlen_rk_raw (mkey x) c) as Hl. rewrite E0 in Hl. change (zlen (lit "0")) with 1 in Hl. pose proof (zlen_nonneg (rk_pk (mkey x))). pose proof (zlen_nonneg (rk_sk (mkey x))).
  pose proof (zlen_nonneg (varintEncode (zlen (rk_pk (mkey x))))). lia.
Qed.

(** The records at or behind the place, in the order of the store. *)
Lemma set_records tx X idx : elems tx X -> tidy (tx_db tx) -> sub_ok pk idx ->
  exists p, RecordKey_prefixPk (mkey []) = Ret p /\ scan_key (mkey []) /\
    let from := if 0 <? zlen idx then stored_key idx else p in
    let rs := key_records_from (tx_db tx) p from in
    p `prefix_of` from /\ Forall record_of rs /\ StronglySorted stored_lt (map (fun r => member r) rs) /\
    forall x, x ∈ map (fun r => member r) rs <-> x ∈ X /\ behind idx x = true.
Proof.
  intros He Ht Hi. destruct Hok as [Hcat [Hz Hpk] Hch Hdb _ _ _ _ _ _]. assert (ele_place (chunkOf pk) (sc_dbId sess) RT_SET_ELE) as Hpl by (split; [done|done|done]).
  destruct (sub_prefix (chunkOf pk) (sc_dbId sess) pk Hpk RT_SET_ELE Hpl) as [p Hp]. pose proof (empty_ok pk Hpk) as Hn. exists p. split; [done|]. split; [by apply (sub_scan_key _ _ _ _ Hpl Hz)|].
  intros from rs. assert (Forall record_of (key_records (tx_db tx) p)) as Hall.
  { apply Forall_forall. intros r Hr. apply (sub_record _ _ _ _ Hpl Hz _ _ _ Ht Hn Hp) in Hr as (Hq & ek & ev & _ & _ & Hw & _). split; [|by split].
    apply RecordKey_equiv_fields in Hq as (_ & _ & _ & E & _). destruct Hw as (_ & _ & _ & _ & _ & _ & Hl). unfold sub_ok. cbn in E. by rewrite E. }
  assert (forall r, r ∈ rs <-> r ∈ key_records (tx_db tx) p /\ bytes_lt (encoded_key (fst r)) from = false) as Hin by (intros r; by apply in_key_records_from).
  assert (forall r, record_of r -> encoded_key (fst r) = stored_key (member r)) as Henc by (intros r (_ & Hq & _); unfold stored_key, encoded_key; by rewrite (RecordKey_encode_proper _ _ Hq)).
  assert (Forall record_of rs) as Hrs by (rewrite Forall_forall in *; intros r [Hr _]%Hin; by apply Hall).
  split; [|split; [done|split]].
  - unfold from. destruct (0 <? zlen idx); [|done]. apply (prefixPk_selects (mkey []) (mkey idx)); [by apply sub_key_wf|by apply sub_key_wf|done|done|done|by apply stored_key_encode|done].
  - pose proof (key_records_from_sorted (tx_db tx) p from Ht) as Hs. fold rs in Hs. clear Hin. induction Hs as [|r l _ IH Hf]; [constructor|]. apply Forall_cons in Hrs as [Hr Hrs]. cbn [map]. constructor; [by apply IH|].
    apply Forall_forall. intros x (r2 & -> & Hr2)%list_elem_of_fmap. rewrite Forall_forall in Hf. rewrite Forall_forall in Hrs. unfold stored_lt.
    rewrite <-(Henc r Hr), <-(Henc r2 (Hrs r2 Hr2)). by apply Hf.
  - intros x. assert (x ∈ X <-> x ∈ map (fun r => member r) (key_records (tx_db tx) p)) as ->.
    { pose proof (family_records cfg (chunkOf pk) (sc_dbId sess) RT_SET_ELE pk Hpl Hz tx _ p Ht Hn Hp (proj1 He) (proj2 He)) as Hperm.
      apply (Permutation_map fst) in Hperm. rewrite map_map in Hperm. cbn [fst] in Hperm. rewrite Hperm. rewrite as_map_keys. by rewrite elem_of_elements. }
    assert (forall r, record_of r -> bytes_lt (encoded_key (fst r)) from = negb (behind idx (member r)) \/ (from = p /\ behind idx (member r) = true)) as Hb.
    { intros r Hr. unfold from, behind. rewrite Z.ltb_antisym. pose proof (zlen_nonneg idx). destruct (Z.leb_spec (zlen idx) 0), (Z.eqb_spec (zlen idx) 0); try lia; [by right|]. left. cbn [negb orb]. by rewrite Henc, negb_involutive. }
    rewrite !list_elem_of_fmap. rewrite Forall_forall in Hall. split.
    + intros (r & -> & [Hr Hf]%Hin). split; [by exists r|]. destruct (Hb r (Hall r Hr)) as [E|[_ E]]; [|done]. rewrite Hf in E. by apply negb_false_iff.
    + intros ((r & -> & Hr) & Hf). exists r. split; [done|]. apply Hin. split; [done|]. destruct (Hb r (Hall r Hr)) as [->|[-> _]]; [by rewrite Hf|].
      by rewrite <-key_records_all in Hr; apply in_key_records_from in Hr as [_ ?].
Qed.

Definition next_member (rs : list (RecordKey * RecordValue)) : bytes := match rs with r :: _ => member r | [] => [] end.

Lemma spop_batch_ok tx X n idx count : elems tx X -> tidy (tx_db tx) -> sub_ok pk idx -> 0 <= count < 2 ^ 32 - 1 ->
  exists rs used, Forall record_of rs /\ StronglySorted stored_lt (map (fun r => member r) rs) /\ (forall x, x ∈ map (fun r => member r) rs <-> x ∈ X /\ behind idx x = true) /\
    spop_batch sess chunkOf memLimit pk (mkSetMeta n idx) count tx = Ret (ztake count rs, next_member (zdrop count rs), used).
Proof.
  intros He Ht Hi Hc. destruct (set_records tx X idx He Ht Hi) as (p & Hp & Hsk & Hpre & Hall & Hs & Hin). set (from := if 0 <? zlen idx then stored_key idx else p) in *. set (rs := key_records_from (tx_db tx) p from) in *.
  exists rs. destruct (stored_key_encode idx Hi) as [Ei Hne]. unfold spop_batch. cbn [sm_skIndex]. change (member_key sess chunkOf pk idx) with (mkey idx).
  assert ((if 0 <? zlen idx then RecordKey_encode (mkey idx) else Ret (lit "0")) = Ret (if 0 <? zlen idx then stored_key idx else lit "0")) as -> by (destruct (0 <? zlen idx); done).
  rewrite bind_Ret. change (member_key sess chunkOf pk []) with (mkey []). rewrite Hp, bind_Ret, wrap_id by (unfold is_u; lia). unfold Command_scanSimple.
  assert ((if bool_decide ((if 0 <? zlen idx then stored_key idx else lit "0") = lit "0") then p else if 0 <? zlen idx then stored_key idx else lit "0") = from) as ->.
  { unfold from. destruct (0 <? zlen idx); [by rewrite bool_decide_false|by rewrite bool_decide_true]. }
  rewrite (prefix_records_from_ok memLimit _ (mkey []) p from [] tx Hmem Ht Hsk Hp Hpre), bind_Ret. fold rs. change (zlen []) with 0. rewrite Z.sub_0_r. cbn [app].
  pose proof (zlen_nonneg rs). destruct (Z.lt_ge_cases count (zlen rs)) as [Hlt|Hge].
  - rewrite zlen_take, Z.eqb_refl by lia. destruct (zdrop count rs) as [|r rest] eqn:Ed; [pose proof (zlen_drop count rs ltac:(lia)) as Hl; rewrite Ed in Hl; change (zlen []) with 0 in Hl; lia|].
    assert (ztake (count + 1) rs = ztake count rs ++ [r]) as ->.
    { rewrite <-(ztake_zdrop count rs) at 1. rewrite Ed. change (r :: rest) with ([r] ++ rest). rewrite app_assoc. apply ztake_app_eq. rewrite zlen_app, zlen_take by lia. done. }
    rewrite last_snoc, removelast_last. eexists. do 3 (split; [done|]). reflexivity.
  - rewrite !ztake_all by lia. replace (zlen rs =? count + 1) with false by lia. rewrite zdrop_all by lia. eexists. do 3 (split; [done|]). reflexivity.
Qed.

Lemma stored_NoDup l : StronglySorted stored_lt l -> NoDup l.
Proof.
  induction 1 as [|x l _ IH Hf]; [constructor|]. constructor; [|done]. intros Hin. rewrite Forall_forall in Hf. specialize (Hf x Hin). unfold stored_lt in Hf. by rewrite bytes_lt_irrefl in Hf.
Qed.

(** The set without members that it has. *)
Lemma taken (out : list bytes) (X : gset bytes) : NoDup out -> (forall x, x ∈ out -> x ∈ X) -> zcard (X ∖ list_to_set out) = zcard X - zlen out.
Proof.
  intros Hnd Hin. assert (list_to_set out ⊆ X) as Hsub by (intros x Hx%elem_of_list_to_set; by apply Hin). unfold zcard, zlen. rewrite size_difference, size_list_to_set by done.
  pose proof (subseteq_size _ _ Hsub) as Hle. rewrite size_list_to_set in Hle by done. lia.
Qed.

(** The count of a command: 1 without an argument. *)
Definition pop_count (count : option bytes) : M Z := match count with None => Ret 1 | Some s => c ← stoul s; Ret (u32 c) end.

(** Where the next call starts: at the next member, if its name is not empty, or where this one did. *)
Definition next_place (idx : bytes) (l : list bytes) : bytes := match l with x :: _ => if 0 <? zlen x then x else idx | [] => idx end.

(** What SPOP makes of a set: the members are gone, and the set with the last of them. *)
Definition popped (v : RecordValue) (X : gset bytes) (out : list bytes) (place : bytes) (tx tx' : RocksTxn T) : Prop :=
  untouched pk tx tx' /\
  let rest := X ∖ list_to_set out in
  if decide (rest = ∅) then named_gone cfg sess (chunkOf pk) pk RT_SET_META RT_SET_ELE tx'
  else exists rv', named_held cfg sess (chunkOf pk) pk RT_SET_META RT_SET_ELE tx' rv' (as_map rest) /\ rv_ttl rv' = rv_ttl v /\
    SetMetaValue_decode (rv_value rv') = Ret (mkSetMeta (zcard rest) place).

(** A round on a transaction that is open. *)
Lemma spop_round n v idx X rs count used (spec : bool) tx (w1 : World) :
  w_txn w1 = Some tx -> opened w1 tx -> elems tx X -> Forall record_of rs -> NoDup (map (fun r => member r) rs) -> (forall x, x ∈ map (fun r => member r) rs -> x ∈ X) ->
  zcard X < 2 ^ 64 -> (forall x, x ∈ X -> zlen x <= 2 ^ 61) -> zlen idx <= 2 ^ 61 -> RecordValue_wf v -> rv_type v = RT_SET_META ->
  let out := map (fun r => member r) (ztake count rs) in
  exists tx', popped v X out (next_place idx (map (fun r => member r) (zdrop count rs))) tx tx' /\
    commits tx' ((if spec then Command_fmtMultiBulkLen [] (zlen out) else []) ++ concat (map Command_fmtBulk out))
      (spop_rounds cfg sess now chunkOf memLimit (S n) pk v (mkSetMeta (zcard X) idx) (ztake count rs) used (next_member (zdrop count rs)) spec (zcard X <=? zlen (ztake count rs)) w1).
Proof.
  intros Et Hop He Hall Hnd Hsub Hz Hlen Hix Hwf Hty out. set (rest := X ∖ list_to_set out). rewrite <-(ztake_zdrop count rs), map_app in Hnd, Hsub. apply NoDup_app in Hnd as (Hno & _ & _).
  assert (zcard rest = zcard X - zlen (ztake count rs)) as Hcard by (unfold rest; rewrite taken; [unfold out; by rewrite zlen_map|done|]; intros x Hx; apply Hsub, elem_of_app; by left).
  destruct Hok as [Hcat [Hnul Hpk] Hch Hdb Hep Hro _ _ _ _]. cbn [spop_rounds]. unfold SessionCtx_createTransaction at 1. rewrite Et, bind_Ret. unfold txn_access.
  assert (tx_done tx = false) as -> by apply He. rewrite bind_Ret.
  destruct (spop_del_ok (ztake count rs) used (if spec then Command_fmtMultiBulkLen [] (zlen (ztake count rs)) else []) tx X) as (tx1 & used1 & -> & He1 & U1); [|done|].
  { rewrite <-(ztake_zdrop count rs) in Hall. by apply Forall_app in Hall as [Hall _]. }
  cbn [or_return]. fold out in He1 |- *. fold rest in He1. pose proof (zcard_nonneg rest). pose proof (zlen_nonneg (ztake count rs)). assert (zlen out = zlen (ztake count rs)) as -> by (unfold out; apply zlen_map).
  destruct (Z.leb_spec (zcard X) (zlen (ztake count rs))) as [Hle|Hgt].
  - assert (rest = ∅) as Hr0 by (apply zcard_0; lia). rewrite Hr0 in He1.
    destruct (named_drop cfg sess (chunkOf pk) pk RT_SET_META RT_SET_ELE Hcat Hch Hdb Hpk tx1 v now He1 Hwf Hty) as (tx' & E & Hg & U2). exists tx'. assert (untouched pk tx tx') as U by by etrans. split; [split; [done|]; cbv zeta; fold rest; by rewrite decide_True|].
    destruct (commit_opened cfg sess w1 tx tx' (proj1 Hlog) Hop (proj1 U) (proj1 (proj1 (proj2 Hg)))) as (w3 & id & Ec & _ & Hcm). exists w3. split; [|done].
    change (set_key sess chunkOf pk) with (named_key sess (chunkOf pk) pk RT_SET_META). rewrite E. cbn [or_return]. by rewrite Ec, bind_Ret.
  - assert (rest <> ∅) as Hr0 by (intros Hr0; rewrite Hr0 in Hcard; change (zcard ∅) with 0 in Hcard; lia). cbn [sm_count sm_skIndex]. rewrite wrap_id by (unfold is_u; lia). rewrite <-Hcard.
    set (place := next_place idx _). assert ((if 0 <? zlen (next_member (zdrop count rs)) then next_member (zdrop count rs) else idx) = place) as -> by (unfold place; by destruct (zdrop count rs)).
    assert (zlen place <= 2 ^ 61) as Hpl.
    { unfold place, next_place. destruct (zdrop count rs) as [|r rest']; [done|]. cbn [map]. destruct (0 <? _); [|done]. apply Hlen, Hsub, elem_of_app. right. by left. }
    destruct (save_meta cfg sess chunkOf pk Hcat Hch Hdb Hpk Hep now tx1 (Ret v) rest place He1) as (tx' & rv' & E & Hh & Hd & Ht & U2); [lia|done|done|].
    exists tx'. assert (untouched pk tx tx') as U by by etrans. split; [split; [done|]; cbv zeta; fold rest; rewrite decide_False by done; by exists rv'|].
    destruct (commit_opened cfg sess w1 tx tx' (proj1 Hlog) Hop (proj1 U) (proj1 (proj1 (proj2 (proj2 (proj2 Hh)))))) as (w3 & id & Ec & _ & Hcm). exists w3. split; [|done].
    change (set_key sess chunkOf pk) with (named_key sess (chunkOf pk) pk RT_SET_META). rewrite E. cbn [or_return]. by rewrite Ec, bind_Ret.
Qed.

(** C40: SPOP takes members in the order in which the store has them, from the place that the last call
    left, as many as asked for and as there are behind it, in one transaction that touches no other key.
    What is left stays a set with its count and its expiry and the place of the next call, and the set is
    deleted with its last member. The reply holds the members taken. When no member is behind the
    place, SPOP answers null and changes nothing, although the set has members; when there are fewer
    than asked for but others before the place, an assertion stops a debug build. The database accepts
    the commit, and the store holds afterwards what the transaction saw. *)
Theorem spop_correct arg count v idx X :
  set_here cfg sess currentTs srv multi chunkOf db pk (Ret v) idx X -> pop_count arg = Ret count -> 0 < count < 2 ^ 32 - 1 -> zcard X < 2 ^ 64 -> (forall x, x ∈ X -> zlen x <= 2 ^ 61) ->
  let run := SPop_run cfg sess now chunkOf readMeta memLimit pk arg (mkWorld ks db None) in
  exists l, StronglySorted stored_lt l /\ (forall x, x ∈ l <-> x ∈ X /\ behind idx x = true) /\
  let out := ztake count l in
  if decide (l = []) then answers db run Command_fmtNull
  else if novadb_DEBUG && negb ((zlen out =? count) || (zlen out =? zcard X)) then run = Crash CInvariant
  else exists tx tx', tx_db tx = db /\ popped v X out (next_place idx (zdrop count l)) tx tx' /\
    commits tx' (match arg with Some _ => Command_fmtMultiBulkLen [] (zlen out) | None => [] end ++ concat (map Command_fmtBulk out)) run.
Proof.
  intros Hh Hcnt Hc Hz Hlen run. destruct (set_open cfg sess now currentTs srv multi chunkOf ks live dur db pk (Ret v) idx X Hok Hh) as (ks0 & ks1 & tx & Er & Ec & Edb & Hf & Hop).
  pose proof Hf as ((_ & Hwf & Hty & He) & Hd & Hne & Hix & _). assert (sub_ok pk idx) as Hi by (destruct Hok as [_ [_ Hpk] _ _ _ _ _ _ _ _]; unfold sub_ok; lia).
  destruct (spop_batch_ok tx X (zcard X) idx count He) as (rs & used & Hall & Hs & Hin & Eb); [rewrite Edb; apply Hok|done|lia|].
  exists (map (fun r => member r) rs). split; [done|]. split; [done|]. rewrite ztake_map, zdrop_map.
  assert (run = if zlen (ztake count rs) =? 0 then Ret (mkWorld ks1 db (Some tx), Ret Command_fmtNull) else
    _ ← INVARIANT_D (zlen (ztake count rs) <=? zcard X); _ ← INVARIANT_D ((zlen (ztake count rs) =? count) || (zlen (ztake count rs) =? zcard X));
    spop_rounds cfg sess now chunkOf memLimit RETRY_CNT pk v (mkSetMeta (zcard X) idx) (ztake count rs) used (next_member (zdrop count rs)) (match arg with Some _ => true | None => false end) (zcard X <=? zlen (ztake count rs)) (mkWorld ks1 db (Some tx))) as Erun.
  { unfold run, SPop_run. fold (pop_count arg). rewrite Hcnt. cbn [or_return]. cbv beta in Er. rewrite Er, bind_Ret.
    cbn [meta_or_none or_return]. rewrite Hd. cbn [or_return]. rewrite Ec, bind_Ret. unfold txn_access. assert (tx_done tx = false) as -> by apply He. by rewrite bind_Ret, Eb. }
  destruct (decide (map (fun r => member r) rs = [])) as [El|El].
  { apply fmap_nil_inv in El. exists (mkWorld ks1 db (Some tx)). split; [|done]. rewrite Erun, El. by rewrite ztake_take, take_nil. }
  assert (rs <> []) as Hrs by by intros ->. pose proof (zcard_nonneg X). assert (zcard X <> 0) as Hx by (intros E; by apply Hne, zcard_0).
  assert (NoDup (map (fun r => member r) (ztake count rs))) as Hnd by (pose proof (stored_NoDup _ Hs) as Hnd; rewrite <-(ztake_zdrop count rs), map_app in Hnd; by apply NoDup_app in Hnd as (? & _)).
  assert (zlen (ztake count rs) <= zcard X) as Hle.
  { pose proof (zcard_nonneg (X ∖ list_to_set (map (fun r => member r) (ztake count rs)))) as Hc0. rewrite taken, zlen_map in Hc0; [lia|done|]. intros x Hx'. apply Hin. rewrite <-(ztake_zdrop count rs), map_app. apply elem_of_app. by left. }
  assert (0 < zlen (ztake count rs)) as Hpos by (destruct rs as [|r rs']; [done|]; rewrite ztake_take; replace (Z.to_nat count) with (S (Z.to_nat (count - 1))) by lia; cbn [take]; rewrite zlen_cons; pose proof (zlen_nonneg (take (Z.to_nat (count - 1)) rs')); lia).
  cbv zeta. rewrite Erun, zlen_map. destruct (Z.eqb_spec (zlen (ztake count rs)) 0) as [?|_]; [lia|]. inv_d by lia. set (e := (zlen (ztake count rs) =? count) || _).
  assert (INVARIANT_D e = if novadb_DEBUG && negb e then Crash CInvariant else Ret tt) as -> by (unfold INVARIANT_D; by destruct novadb_DEBUG, e). destruct (novadb_DEBUG && negb e); [done|].
  destruct (spop_round 2 v idx X rs count used (match arg with Some _ => true | None => false end) tx (mkWorld ks1 db (Some tx)) eq_refl (Hop Hlog) He Hall (stored_NoDup _ Hs)) as (tx' & Hp & Hcom);
    [intros x Hx'; by apply Hin|done|done|done|done|done|]. exists tx, tx'. split; [done|]. split; [done|].
  cbv zeta in Hcom. rewrite zlen_map in Hcom. rewrite bind_Ret. destruct arg; exact Hcom.
Qed.

End Pop.

(** * Examples *)

#[local] Instance pop_build : BuildMode := true.

#[local] Abbreviation demo_sread := (fun key => read_meta demo_cfg 0 demo_params demo_sadd None (demo_schunk key) 3 RT_SET_META key).
#[local] Abbreviation demo_spop := (SPop_run demo_cfg demo_sadd 0 demo_schunk demo_sread (fun _ => Ret tt)).

(** SPOP of one of the members [a] and [b]. *)
Lemma spop_correct_witness :
  exists l, (forall x, x ∈ l <-> x ∈ demo_sab) /\ exists tx tx', tx_db tx = demo_sdb /\
    popped demo_cfg demo_sadd demo_schunk (lit "s") demo_smeta demo_sab (ztake 1 l) (next_place [] (zdrop 1 l)) tx tx' /\
    commits tx' (Command_fmtMultiBulkLen [] (zlen (ztake 1 l)) ++ concat (map Command_fmtBulk (ztake 1 l)))
      (demo_spop (lit "s") (Some (lit "1")) (mkWorld demo_store demo_sdb None)).
Proof.
  destruct (spop_correct demo_cfg demo_sadd 0 3 demo_params None demo_schunk demo_store ∅ ∅ demo_sdb (fun _ => Ret tt) (fun _ => eq_refl) (lit "s") demo_scommand demo_slog
    (Some (lit "1")) 1 demo_smeta [] demo_sab demo_here_s) as (l & _ & Hl & Hp).
  - vm_compute. reflexivity.
  - lia.
  - vm_compute. reflexivity.
  - intros x Hx. unfold demo_sab in Hx. rewrite elem_of_union, !elem_of_singleton in Hx. by destruct Hx as [-> | ->].
  - assert (forall x, x ∈ l <-> x ∈ demo_sab) as Hl' by (intros x; rewrite Hl; split; [by intros [? _]|done]). exists l. split; [exact Hl'|].
    clear Hl. destruct (decide (l = [])) as [El|Hn].
    + exfalso. clear Hp. subst l. assert (lit "a" ∈ demo_sab) as Ha by (apply elem_of_union_l, elem_of_singleton; reflexivity). apply Hl', elem_of_nil in Ha. exact Ha.
    + assert ((zlen (ztake 1 l) =? 1) = true) as E by (clear Hp Hl'; destruct l; [destruct Hn; reflexivity|rewrite ztake_take; reflexivity]).
      cbv zeta in Hp. rewrite E in Hp. cbn [orb negb] in Hp. rewrite andb_false_r in Hp. exact Hp.
Defined.

(** A key of 64 characters. *)
Definition demo_long : bytes := lit "0123456789012345678901234567890123456789012345678901234567890123".

(** The commands, one after the other, and their replies. *)
Fixpoint run_all (cmds : list (World (T := MemDB) -> M (World (T := MemDB) * M bytes))) (w : World (T := MemDB)) : M (list (M bytes)) :=
  match cmds with
  | [] => Ret []
  | c :: cmds' =>
      '(w, r) ← c w;
      rs ← run_all cmds' w;
      Ret (r :: rs)
  end.

#[local] Abbreviation demo_saddm := (SAdd_run demo_cfg demo_sadd 0 demo_schunk demo_sread demo_long).

(** SPOP can lose a member. It keeps the next member of a set as the place where the next call
    starts; SADD of a member before the place resets it, by a comparison of the names, but the
    store orders names together with what follows them in the record key. Of a long key, a member
    that continues the place is stored before it: after [b1] is added to a set with the place [b],
    SPOP takes [b] and then answers that the set is empty, though SCARD counts a member and
    SISMEMBER finds it. *)
Lemma spop_loses_member :
  run_all [demo_saddm [lit "a"; lit "b"]; demo_spop demo_long None; demo_saddm [lit "b1"]; demo_spop demo_long None; demo_spop demo_long None;
           SCard_run demo_sread demo_long; SIsMember_run demo_cfg demo_sadd demo_schunk demo_sread demo_long (lit "b1")] (mkWorld demo_store ∅ None) =
  Ret [Ret (Command_fmtLongLong 2); Ret (Command_fmtBulk (lit "a")); Ret (Command_fmtLongLong 1); Ret (Command_fmtBulk (lit "b")); Ret Command_fmtNull;
       Ret (Command_fmtLongLong 1); Ret Command_fmtOne].
Proof. vm_compute. reflexivity. Qed.

(** The largest count wraps to a batch of no records, whose last one is then read. *)
Lemma spop_count_wraps : demo_spop (lit "s") (Some (lit "4294967295")) (mkWorld demo_store demo_sdb None) = Crash CUndefined.
Proof. vm_compute. reflexivity. Qed.
