(* ===== verification/Kv.v ===== *)
(** The commands of strings (commands/kv.cpp), and the reading of a bitmap as a string that GET
    does (commands/tbitmap.cpp). A string is one record, without records of elements; the
    arguments are those behind the key. *)

From Stdlib Require Import Strings.Byte ZArith Lia.
From stdpp Require Import base list numbers strings gmap.
From S2P Require Import Prelude Status Varint Strings Number Record RecordValue RecordMeta ReplLog BinlogSeq Txn Store Cursor Command Keys Bits Hash Members.

Local Open Scope Z_scope.

(** * Values *)

Definition REDIS_SET_NO_FLAGS : Z := 0.
Definition REDIS_SET_NX : Z := 1.
Definition REDIS_SET_XX : Z := 2.
Definition REDIS_SET_NXEX : Z := 4.

Definition flag_set (flags f : Z) : bool := negb (Z.land flags f =? 0).

(** The options of SET behind the value: the flags and the time to live in milliseconds. *)
Fixpoint Set_parse (args : list bytes) (flags expire : Z) : M (Z * Z) :=
  let expiry x scale rest k :=
    match std_stoll x with
    | None => Throw ERR_PARSEPKT (lit "value is not an integer or out of range")
    | Some v => let expire := s64 (u64 (v * scale)) in if expire <=? 0 then Throw ERR_PARSEPKT (lit "invalid expire time") else k rest expire
    end in
  match args with
  | [] => Ret (flags, expire)
  | a :: rest =>
      let s := toLower a in
      if bool_decide (s = lit "nx") then Set_parse rest (Z.lor flags REDIS_SET_NX) expire
      else if bool_decide (s = lit "xx") then Set_parse rest (Z.lor flags REDIS_SET_XX) expire
      else
        match rest with
        | x :: rest' =>
            if bool_decide (s = lit "ex") then expiry x 1000 rest' (fun r e => Set_parse r flags e)
            else if bool_decide (s = lit "px") then expiry x 1 rest' (fun r e => Set_parse r flags e)
            else Throw ERR_PARSEPKT (lit "syntax error")
        | [] => Throw ERR_PARSEPKT (lit "syntax error")
        end
  end.

(** A time in seconds as milliseconds, in signed arithmetic. *)
Definition mul_s64 (a b : Z) : M Z := if (LLONG_MIN <=? a * b) && (a * b <=? LLONG_MAX) then Ret (a * b) else Crash CUndefined.

(** A range of BITPOS, BITCOUNT and GETRANGE, whose places can be counted from the end. *)
Definition string_range (len start end_ : Z) : Z * Z :=
  let start := if start <? 0 then len + start else start in
  let end_ := if end_ <? 0 then len + end_ else end_ in
  let start := if start <? 0 then 0 else start in
  let end_ := if end_ <? 0 then 0 else end_ in
  (start, if len <=? end_ then len - 1 else end_).

(** [std::string::resize] that only grows. *)
Definition grow (s : bytes) (n : Z) : bytes := if zlen s <? n then s ++ zfill (n - zlen s) x00 else s.

(** Bytes written into a string, inside it. *)
Definition overwrite (s : bytes) (offset : Z) (val : bytes) : bytes := ztake offset s ++ val ++ zdrop (offset + zlen val) s.

(** The bit [pos] of a byte string, and the string with it set. *)
Definition bit_at (s : bytes) (pos : Z) : bool :=
  let byteval := match znth s (Z.shiftr pos 3) with Some c => bz c | None => 0 end in
  negb (Z.land byteval (Z.shiftl 1 (7 - Z.land pos 7)) =? 0).

Definition with_bit (s : bytes) (pos : Z) (on : bool) : bytes :=
  let i := Z.shiftr pos 3 in
  let byteval := match znth s i with Some c => bz c | None => 0 end in
  let bit := 7 - Z.land pos 7 in
  let byteval := Z.land byteval (Z.lnot (Z.shiftl 1 bit)) in
  zset s i (u8 (Z.lor byteval (Z.shiftl (if on then 1 else 0) bit))).

(** [BitopCommand::Op]. *)
Inductive BitOp : Type := BITOP_AND | BITOP_OR | BITOP_XOR | BITOP_NOT.
#[export] Instance BitOp_eq_dec : EqDecision BitOp.
Proof. solve_decision. Defined.

(** The length of the longest value. *)
Definition max_len (vals : list bytes) : Z := foldl (fun m v => if m <? zlen v then zlen v else m) 0 vals.

Definition byte_or_0 (v : bytes) (i : Z) : Z := match znth v i with Some c => bz c | None => 0 end.

(** The byte [i] of the result of BITOP: the first value, then the others. *)
Fixpoint bitop_fold {BM : BuildMode} (op : BitOp) (i : Z) (vals : list bytes) (output : Z) : M Z :=
  match vals with
  | [] => Ret output
  | v :: vals' =>
      let byte := byte_or_0 v i in
      match op with
      | BITOP_AND => bitop_fold op i vals' (Z.land output byte)
      | BITOP_OR => bitop_fold op i vals' (Z.lor output byte)
      | BITOP_XOR => bitop_fold op i vals' (Z.lxor output byte)
      | BITOP_NOT => _ ← INVARIANT_D false; bitop_fold op i vals' output
      end
  end.

Definition bitop_byte {BM : BuildMode} (op : BitOp) (vals : list bytes) (i : Z) : M Z :=
  let first := match vals with v :: _ => byte_or_0 v i | [] => 0 end in
  bitop_fold op i (tail vals) (match op with BITOP_NOT => wrap 8 (Z.lnot first) | _ => first end).

Fixpoint bitop_bytes {BM : BuildMode} (n : nat) (op : BitOp) (vals : list bytes) (i : Z) : M bytes :=
  match n with
  | O => Ret []
  | S n' =>
      output ← bitop_byte op vals i;
      rest ← bitop_bytes n' op vals (i + 1);
      Ret (u8 output :: rest)
  end.

Section Kv.
Context {BM : BuildMode} {T : Type} `{RocksIter T}.
Variable cfg : StoreCfg.
Variable sess : SessionCtx.
Variables (now currentTs : Z) (srv : ServerParams) (multi : option Z).
(** The slot of a key. *)
Variable chunkOf : bytes -> Z.
Variable memLimit : Z -> M unit.
(** [checkKeyTypeForSet] of the server. *)
Variable checkType : bool.

#[local] Abbreviation World := (World (T := T)).
#[local] Abbreviation readMeta tp key := (read_meta cfg now srv sess multi (chunkOf key) currentTs tp key).
#[local] Abbreviation Reply := (M (World * M bytes)).

Definition kv_key (key : bytes) : RecordKey := RecordKey_new (chunkOf key) (sc_dbId sess) RT_KV key [] 0.

Definition kv_record (v : bytes) (ttl : Z) : RecordValue := RecordValue_new v RT_KV (sc_versionEP sess) ttl (-1) 0 MAXU64.

(** * setGeneric *)

(** Whether the record is to be written, and then whether the key has another type. *)
Definition set_check (flags : Z) (checkType : bool) (key : bytes) (tx : RocksTxn T) : M (option bool) :=
  let other_type o := match o with Some v => negb (bool_decide (rv_type v = RT_KV)) | None => false end in
  if flag_set flags REDIS_SET_NX || flag_set flags REDIS_SET_XX || flag_set flags REDIS_SET_NXEX then
    o ← find_record (RocksKVStore_getKV cfg (kv_key key) tx);
    let exists_ := match o with Some v => negb (negb (rv_ttl v =? 0) && (rv_ttl v <=? currentTs)) | None => false end in
    if (flag_set flags REDIS_SET_NX && exists_) || (flag_set flags REDIS_SET_XX && negb exists_) || (flag_set flags REDIS_SET_NXEX && exists_) then Ret None
    else Ret (Some (other_type o))
  else if checkType then
    o ← find_record (RocksKVStore_getKV cfg (kv_key key) tx);
    Ret (Some (other_type o))
  else Ret (Some false).

(** A key of another type is deleted with its elements. *)
Definition set_clear (diffType : bool) (key : bytes) (tx : RocksTxn T) (w : World) : M (World * M (RocksTxn T)) :=
  if diffType then
    '(ks, db, s) ← Command_delKey cfg now srv sess (chunkOf key) key RT_DATA_META (w_store w) (w_db w) tx;
    Ret (mkWorld ks db (w_txn w), match s with Throw ERR_NOTFOUND _ => Ret tx | _ => s end)
  else Ret (w, Ret tx).

(** The write, without the commit; [None] when the flags forbid it. *)
Definition set_write (flags : Z) (checkType : bool) (key : bytes) (val : RecordValue) (tx : RocksTxn T) (w : World) : M (World * M (option (RocksTxn T))) :=
  or_return w (set_check flags checkType key tx) (fun o =>
  match o with
  | None => Ret (w, Ret None)
  | Some diffType =>
      '(w, cleared) ← set_clear diffType key tx w;
      or_return w cleared (fun tx =>
      or_return w (RocksKVStore_setKV cfg (kv_key key) val tx now) (fun tx => Ret (w, Ret (Some tx))))
  end).

(** With [endTxn]. *)
Definition setGeneric (flags : Z) (checkType : bool) (key : bytes) (val : RecordValue) (okReply abortReply : bytes) (tx : RocksTxn T) (w : World) : Reply :=
  '(w, r) ← set_write flags checkType key val tx w;
  or_return w r (fun o =>
  match o with
  | None => Ret (w, Ret (if bool_decide (abortReply = []) then Command_fmtNull else abortReply))
  | Some tx => commit_reply cfg sess w tx (if bool_decide (okReply = []) then Command_fmtOK else okReply)
  end).

(** A round of the loops around it. *)
Definition setGeneric_round (flags : Z) (checkType : bool) (key : bytes) (val : RecordValue) (okReply abortReply : bytes) (w : World) : Reply :=
  '(w, tx) ← SessionCtx_createTransaction sess w;
  _ ← txn_access tx;
  setGeneric flags checkType key val okReply abortReply tx w.

(** ** SET and its kin *)

(** All rounds of SET use one transaction, which stays in the session when its commit failed. *)
Definition Set_run (key value : bytes) (opts : list bytes) (w : World) : Reply :=
  or_return w (Set_parse opts REDIS_SET_NO_FLAGS 0) (fun '(flags, expire) =>
  let ts := if expire =? 0 then 0 else u64 (currentTs + expire) in
  retry RETRY_CNT (setGeneric_round flags checkType key (kv_record value ts) [] []) w).

Definition expire_time (s : bytes) : M Z :=
  e ← stoll s;
  if e <=? 0 then Throw ERR_PARSEPKT (lit "invalid expire time") else Ret e.

Definition SetexGeneral_runGeneral (key val : bytes) (ttl : Z) (w : World) : Reply :=
  retry RETRY_CNT (setGeneric_round REDIS_SET_NO_FLAGS checkType key (kv_record val ttl) [] []) w.

Definition SetEx_run (key seconds val : bytes) (w : World) : Reply :=
  or_return w (e ← expire_time seconds; mul_s64 e 1000) (fun ms => SetexGeneral_runGeneral key val (u64 (currentTs + ms)) w).

Definition PSetEx_run (key ms val : bytes) (w : World) : Reply :=
  or_return w (expire_time ms) (fun ms => SetexGeneral_runGeneral key val (u64 (currentTs + ms)) w).

Definition SetNx_run (key val : bytes) (w : World) : Reply :=
  retry RETRY_CNT (setGeneric_round REDIS_SET_NX checkType key (kv_record val 0) Command_fmtOne Command_fmtZero) w.

Definition SetNxEx_run (key seconds val : bytes) (w : World) : Reply :=
  or_return w (e ← expire_time seconds; mul_s64 e 1000) (fun ms =>
  retry RETRY_CNT (setGeneric_round REDIS_SET_NX checkType key (kv_record val (u64 (currentTs + ms))) Command_fmtOne Command_fmtZero) w).

(** * Reading *)

(** The value of a key, [None] when there is none. *)
Definition get_value (key : bytes) (w : World) : M (World * M (option bytes)) :=
  '(w, rv) ← readMeta RT_KV key w;
  Ret (w, o ← meta_or_none rv; Ret (option_map rv_value o)).

Definition Strlen_run (key : bytes) (w : World) : Reply :=
  '(w, v) ← get_value key w;
  or_return w v (fun o => Ret (w, Ret (match o with Some s => Command_fmtLongLong (zlen s) | None => Command_fmtZero end))).

(** BITPOS; the value lies at the address [addr]. *)
Definition BitPos_run (addr : Z) (key bit : bytes) (range : list bytes) (w : World) : Reply :=
  or_return w (if bool_decide (bit = lit "0") then Ret false else if bool_decide (bit = lit "1") then Ret true
               else Throw ERR_PARSEOPT (lit "The bit argument must be 1 or 0.")) (fun bit =>
  '(w, v) ← get_value key w;
  or_return w v (fun o =>
  match o with
  | None => Ret (w, Ret (Command_fmtLongLong (if bit : bool then -1 else 0)))
  | Some target =>
      let len := zlen target in
      or_return w (match range with
                   | [] => Ret (0, len - 1, false)
                   | [s] => start ← stoll s; let '(a, b) := string_range len start (len - 1) in Ret (a, b, false)
                   | [s; e] => start ← stoll s; end_ ← stoll e; let '(a, b) := string_range len start end_ in Ret (a, b, true)
                   | _ => Throw ERR_PARSEOPT (lit "syntax error")
                   end) (fun '(start, end_, endGiven) =>
      if end_ <? start then Ret (w, Ret (Command_fmtLongLong (-1))) else
      or_return w (bitPos_ptr (addr + start) (ztake (end_ - start + 1) (zdrop start target)) bit) (fun result =>
      if endGiven && negb bit && (result =? (end_ - start + 1) * 8) then Ret (w, Ret (Command_fmtLongLong (-1))) else
      Ret (w, Ret (Command_fmtLongLong (if result =? -1 then result else result + start * 8)))))
  end)).

Definition BitCount_run (addr : Z) (key : bytes) (range : list bytes) (w : World) : Reply :=
  '(w, v) ← get_value key w;
  or_return w v (fun o =>
  match o with
  | None => Ret (w, Ret Command_fmtZero)
  | Some target =>
      let len := zlen target in
      or_return w (match range with
                   | [] => Ret (Some (0, len - 1))
                   | [s; e] =>
                       start ← stoll s;
                       end_ ← stoll e;
                       if (start <? 0) && (end_ <? 0) && (end_ <? start) then Ret None else Ret (Some (string_range len start end_))
                   | _ => Throw ERR_PARSEOPT (lit "syntax error")
                   end) (fun r =>
      match r with
      | None => Ret (w, Ret Command_fmtZero)
      | Some (start, end_) =>
          if end_ <? start then Ret (w, Ret Command_fmtZero) else
          Ret (w, Ret (Command_fmtLongLong (popCount_ptr (addr + start) (ztake (end_ - start + 1) (zdrop start target)))))
      end)
  end).

Definition GetVsn_run (key : bytes) (w : World) : Reply :=
  '(w, rv) ← readMeta RT_KV key w;
  or_return w (meta_or_none rv) (fun o =>
  Ret (w, Ret (Command_fmtMultiBulkLen [] 2 ++
               match o with
               | None => Command_fmtLongLong (-1) ++ Command_fmtNull
               | Some v => Command_fmtLongLong (rv_cas v) ++ Command_fmtBulk (rv_value v)
               end))).

Definition GetRange_run (key start end_ : bytes) (w : World) : Reply :=
  or_return w (a ← stoll start; b ← stoll end_; Ret (a, b)) (fun '(start, end_) =>
  '(w, v) ← get_value key w;
  or_return w v (fun o =>
  match o with
  | None => Ret (w, Ret (Command_fmtBulk []))
  | Some s =>
      let '(start, end_) := string_range (zlen s) start end_ in
      if (end_ <? start) || (zlen s =? 0) then Ret (w, Ret (Command_fmtBulk []))
      else Ret (w, Ret (Command_fmtBulk (ztake (end_ - start + 1) (zdrop start s))))
  end)).

(** One place behind the string there is the zero that ends it. *)
Definition GetBit_run (key pos : bytes) (w : World) : Reply :=
  or_return w (p ← stoul pos; if 512 * 1024 * 1024 <=? Z.shiftr p 3 then Throw ERR_PARSEOPT (lit "bit offset is not an integer or out of range") else Ret p) (fun pos =>
  '(w, v) ← get_value key w;
  or_return w v (fun o =>
  match o with
  | None => Ret (w, Ret Command_fmtZero)
  | Some s => Ret (w, Ret (if zlen s <? Z.shiftr pos 3 then Command_fmtZero else if bit_at (s ++ [x00]) pos then Command_fmtOne else Command_fmtZero))
  end)).

(** ** Bitmaps *)

(** [std::string::replace]. *)
Definition string_replace (s : bytes) (pos n : Z) (v : bytes) : M bytes :=
  if zlen s <? pos then Crash CException else Ret (ztake pos s ++ v ++ zdrop (pos + n) s).

Definition fragmentIdDecode (input : bytes) : M Z :=
  if negb (zlen input =? 8) then Throw ERR_INTERNAL (lit "invalid fragmentId") else int64Decode input.

Definition getTBitmapString (key : bytes) (meta : TBitMapMetaValue) (tx : RocksTxn T) : M bytes :=
  result ← string_replace (zfill (TBitMapMetaValue_byteAmount meta) x00) 0 (zlen (tb_firstFragment meta)) (tb_firstFragment meta);
  prefix ← RecordKey_prefixPk (RecordKey_new (chunkOf key) (sc_dbId sess) RT_TBITMAP_ELE key [] 0);
  '(eleCnt, result) ← prefix_fold (scan_fuel tx) (fun '(eleCnt, result) rcd =>
      fragId ← fragmentIdDecode (rk_sk (fst rcd));
      let value := rv_value (snd rcd) in
      result ← string_replace result (u64 (fragId * tb_fragmentLen meta)) (zlen value) value;
      Ret (u32 (eleCnt + 1), result)) prefix (DataCursor_seek (RocksTxn_createDataCursor tx) prefix) (1, result);
  _ ← INVARIANT_D (eleCnt =? tb_eleCount meta);
  Ret result.

Definition getBitmap (key : bytes) (w : World) : M (World * M bytes) :=
  '(w, tx) ← SessionCtx_createTransaction sess w;
  '(w, emetaRv) ← readMeta RT_TBITMAP_META key w;
  match emetaRv with
  | Throw ERR_EXPIRED _ | Throw ERR_NOTFOUND _ => Ret (w, Ret [])
  | Throw ERR_WRONG_TYPE _ =>
      '(w, rv) ← readMeta RT_KV key w;
      or_return w (meta_or_none rv) (fun o => Ret (w, Ret (match o with Some v => rv_value v | None => [] end)))
  | _ =>
      or_return w emetaRv (fun v =>
      or_return w (TBitMapMetaValue_decode (rv_value v)) (fun meta =>
      _ ← txn_access tx;
      or_return w (getTBitmapString key meta tx) (fun s => Ret (w, Ret s))))
  end.

Definition Get_run (key : bytes) (w : World) : Reply :=
  '(w, rv) ← readMeta RT_KV key w;
  match rv with
  | Throw ERR_WRONG_TYPE _ =>
      '(w, tv) ← getBitmap key w;
      match tv with
      | Throw ERR_EXPIRED _ | Throw ERR_NOTFOUND _ => Ret (w, Ret Command_fmtNull)
      | _ => or_return w tv (fun s => Ret (w, Ret (Command_fmtBulk s)))
      end
  | _ => or_return w (meta_or_none rv) (fun o => Ret (w, Ret (match o with Some v => Command_fmtBulk (rv_value v) | None => Command_fmtNull end)))
  end.

(** * Updates of a value *)

(** The record that replaces [rv] and keeps its time to live. *)
Definition kv_update (rv : M RecordValue) (v : bytes) (ttl : Z) : RecordValue :=
  RecordValue_update v (match rv with Ret old => rv_type old | _ => RT_KV end) (sc_versionEP sess) ttl rv.

(** [newValue] gives the new record from the old one; [ERR_NOTFOUND] means that there is nothing
    to do. *)
Definition GetSetGeneral_round (newValue : M RecordValue -> M RecordValue) (replyNewValue : bool) (key : bytes) (rv : M RecordValue) (w : World)
  : M (World * M RecordValue) :=
  '(w, tx) ← SessionCtx_createTransaction sess w;
  match newValue rv with
  | Throw ERR_NOTFOUND _ => Ret (w, Ret (kv_record [] 0))
  | nv =>
      or_return w nv (fun nv =>
      _ ← txn_access tx;
      '(w, result) ← setGeneric REDIS_SET_NO_FLAGS false key nv [] [] tx w;
      Ret (w, _ ← result; Ret (if replyNewValue then nv else match rv with Ret old => old | _ => kv_record [] 0 end)))
  end.

Definition GetSetGeneral_runGeneral (newValue : M RecordValue -> M RecordValue) (replyNewValue : bool) (key : bytes) (w : World) : M (World * M RecordValue) :=
  '(w, rv) ← readMeta RT_KV key w;
  or_return w (meta_or_none rv) (fun _ => retry RETRY_CNT (GetSetGeneral_round newValue replyNewValue key rv) w).

(** The reply of a command made from the record that it gets back. *)
Definition reply_of (reply : RecordValue -> M bytes) (r : M (World * M RecordValue)) : Reply :=
  '(w, rv) ← r;
  Ret (w, v ← rv; reply v).

Definition Cas_newValue (cas val : bytes) (old : M RecordValue) : M RecordValue :=
  ecas ← stoul cas;
  let ret := RecordValue_update val RT_KV (sc_versionEP sess) (old_ttl old) old in
  match old with
  | Ret v => if negb (s64 ecas =? rv_cas v) && negb (rv_cas v =? -1) then Throw ERR_CAS (lit "cas unmatch") else Ret (RecordValue_setCas ret (s64 (u64 (ecas + 1))))
  | _ => Ret (RecordValue_setCas ret (s64 (u64 (ecas + 1))))
  end.

Definition Cas_run (key cas val : bytes) (w : World) : Reply :=
  reply_of (fun _ => Ret Command_fmtOK) (GetSetGeneral_runGeneral (Cas_newValue cas val) true key w).

Definition old_value (old : M RecordValue) : bytes := match old with Ret v => rv_value v | _ => [] end.

Definition Append_newValue (val : bytes) (old : M RecordValue) : M RecordValue := Ret (kv_update old (old_value old ++ val) (old_ttl old)).

Definition Append_run (key val : bytes) (w : World) : Reply :=
  reply_of (fun v => Ret (Command_fmtLongLong (zlen (rv_value v)))) (GetSetGeneral_runGeneral (Append_newValue val) true key w).

(** The offset is cut to 32 bits. *)
Definition SetRange_newValue (offset val : bytes) (old : M RecordValue) : M RecordValue :=
  if match old with Throw ERR_NOTFOUND _ | Throw ERR_EXPIRED _ => zlen val =? 0 | _ => false end then Throw ERR_NOTFOUND [] else
  eoffset ← stoll offset;
  if eoffset <? 0 then Throw ERR_PARSEOPT (lit "offset is out of range") else
  let offset := u32 eoffset in
  if 512 * 1024 * 1024 <? offset + zlen val then Throw ERR_PARSEOPT (lit "string exceeds maximum allowed size (512MB)") else
  Ret (kv_update old (overwrite (grow (old_value old) (offset + zlen val)) offset val) (old_ttl old)).

Definition SetRange_run (key offset val : bytes) (w : World) : Reply :=
  reply_of (fun v => Ret (Command_fmtLongLong (zlen (rv_value v)))) (GetSetGeneral_runGeneral (SetRange_newValue offset val) true key w).

Definition SetBit_newValue (pos bit : bytes) (old : M RecordValue) : M RecordValue :=
  pos ← stoul pos;
  if 512 * 1024 * 1024 <=? Z.shiftr pos 3 then Throw ERR_PARSEOPT (lit "bit offset is not an integer or out of range") else
  on ← (if bool_decide (bit = lit "1") then Ret true else if bool_decide (bit = lit "0") then Ret false
        else Throw ERR_PARSEOPT (lit "bit is not an integer or out of range"));
  Ret (kv_update old (with_bit (grow (old_value old) (Z.shiftr pos 3 + 1)) pos on) (old_ttl old)).

Definition SetBit_run (key pos bit : bytes) (w : World) : Reply :=
  reply_of (fun v => pos ← stoul pos; Ret (if bit_at (grow (rv_value v) (Z.shiftr pos 3 + 1)) pos then Command_fmtOne else Command_fmtZero))
    (GetSetGeneral_runGeneral (SetBit_newValue pos bit) false key w).

(** GETSET drops the time to live. *)
Definition GetSet_run (key val : bytes) (w : World) : Reply :=
  reply_of (fun v => Ret (if zlen (rv_value v) =? 0 then Command_fmtNull else Command_fmtBulk (rv_value v)))
    (GetSetGeneral_runGeneral (fun old => Ret (RecordValue_update val RT_KV (sc_versionEP sess) 0 old)) false key w).

(** ** Counters *)

Definition IncrDecr_sumIncr (esum : M RecordValue) (incr : Z) : M Z :=
  sum ← match esum with
        | Ret v =>
            match stoll (rv_value v) with
            | Ret n => Ret n
            | Throw _ _ => Throw ERR_DECODE (lit "value is not an integer or out of range")
            | Crash c => Crash c
            end
        | _ => Ret 0
        end;
  if (incr <? 0) && (sum <? 0) && (incr <? LLONG_MIN - sum) || (0 <? incr) && (0 <? sum) && (LLONG_MAX - sum <? incr)
  then Throw ERR_OVERFLOW (lit "increment or decrement would overflow") else Ret (sum + incr).

Definition incr_value (inc : M Z) (old : M RecordValue) : M RecordValue :=
  inc ← inc;
  newSum ← IncrDecr_sumIncr old inc;
  Ret (kv_update old (to_string newSum) (old_ttl old)).

Definition IncrDecr_run (newValue : M RecordValue -> M RecordValue) (key : bytes) (w : World) : Reply :=
  reply_of (fun v => n ← stoll (rv_value v); Ret (Command_fmtLongLong n)) (GetSetGeneral_runGeneral newValue true key w).

Definition int_arg (val : bytes) : M Z := match string2ll val with Some inc => Ret inc | None => Throw ERR_INTERGER [] end.

Definition Incrby_run (key val : bytes) : World -> Reply := IncrDecr_run (incr_value (int_arg val)) key.
Definition Incr_run (key : bytes) : World -> Reply := IncrDecr_run (incr_value (Ret 1)) key.
Definition Decr_run (key : bytes) : World -> Reply := IncrDecr_run (incr_value (Ret (-1))) key.

(** The negation of the smallest number overflows. *)
Definition Decrby_run (key val : bytes) : World -> Reply :=
  IncrDecr_run (incr_value (inc ← int_arg val; if inc =? LLONG_MIN then Crash CUndefined else Ret (- inc))) key.

(** INCREX sets the time to live of a key that has none. *)
Definition Increx_run (key seconds : bytes) : World -> Reply :=
  IncrDecr_run (fun old =>
    ettl ← stoll seconds;
    newSum ← IncrDecr_sumIncr old 1;
    ms ← mul_s64 ettl 1000;
    Ret (kv_update old (to_string newSum) (if old_ttl old =? 0 then u64 (ms + currentTs) else old_ttl old))) key.

(** * Several keys *)

(** [used] is what the values take so far; a key of another type counts as missing. *)
Fixpoint mget_loop (keys : list bytes) (used : Z) (ss : bytes) (w : World) : Reply :=
  match keys with
  | [] => Ret (w, Ret ss)
  | key :: keys' =>
      '(w, rv) ← readMeta RT_KV key w;
      match rv with
      | Throw ERR_EXPIRED _ | Throw ERR_NOTFOUND _ | Throw ERR_WRONG_TYPE _ => mget_loop keys' used (ss ++ Command_fmtNull) w
      | _ =>
          or_return w rv (fun v =>
          or_return w (charge memLimit used (rv_value v)) (fun used =>
          mget_loop keys' used (ss ++ Command_fmtBulk (rv_value v)) w))
      end
  end.

Definition MGet_run (keys : list bytes) (w : World) : Reply := mget_loop keys 0 (Command_fmtMultiBulkLen [] (zlen keys)) w.

(** ** BITOP *)

Definition bitop_name (opName : bytes) : M BitOp :=
  let s := toLower opName in
  if bool_decide (s = lit "and") then Ret BITOP_AND
  else if bool_decide (s = lit "or") then Ret BITOP_OR
  else if bool_decide (s = lit "xor") then Ret BITOP_XOR
  else if bool_decide (s = lit "not") then Ret BITOP_NOT
  else Throw ERR_PARSEPKT (lit "syntax error").

(** The values of the keys, empty for the missing ones. *)
Fixpoint bitop_vals (keys : list bytes) (w : World) : M (World * M (list bytes)) :=
  match keys with
  | [] => Ret (w, Ret [])
  | key :: keys' =>
      '(w, v) ← get_value key w;
      or_return w v (fun o =>
      '(w, vals) ← bitop_vals keys' w;
      or_return w vals (fun vals => Ret (w, Ret (match o with Some s => s | None => [] end :: vals))))
  end.

(** An empty result deletes the key of the result. *)
Definition Bitop_run (opName targetKey : bytes) (keys : list bytes) (w : World) : Reply :=
  or_return w (op ← bitop_name opName;
               if bool_decide (op = BITOP_NOT) && negb (zlen keys =? 1) then Throw ERR_PARSEPKT (lit "BITOP NOT must be called with a single source key.") else Ret op) (fun op =>
  '(w, vals) ← bitop_vals keys w;
  or_return w vals (fun vals =>
  let maxLen := max_len vals in
  if maxLen =? 0 then
    '(w, tx) ← open_read sess w;
    '(ks, db, s) ← Command_delKey cfg now srv sess (chunkOf targetKey) targetKey RT_KV (w_store w) (w_db w) tx;
    let w := mkWorld ks db (w_txn w) in
    or_return w s (fun tx => commit_reply cfg sess w tx Command_fmtZero)
  else
    result ← bitop_bytes (Z.to_nat maxLen) op vals 0;
    retry RETRY_CNT (setGeneric_round REDIS_SET_NO_FLAGS checkType targetKey (kv_record result 0) (Command_fmtLongLong (zlen result)) []) w)).

(** ** MSET and MSETNX *)

(** A round for a key: whether it was written; the write stays in the transaction of the session. *)
Definition mset_round (flags : Z) (key val : bytes) (w : World) : M (World * M bool) :=
  etxn ← status_of (SessionCtx_createTransaction sess w);
  match etxn with
  | Ret (w, tx) =>
      _ ← txn_access tx;
      '(w, result) ← set_write flags checkType key (kv_record val 0) tx w;
      or_return w result (fun o =>
      match o with
      | Some tx => Ret (mkWorld (w_store w) (w_db w) (Some tx), Ret true)
      | None => Ret (w, Ret false)
      end)
  | _ => Ret (w, Ret false)
  end.

(** Whether one of them failed. *)
Fixpoint mset_loop (flags : Z) (kvs : list (bytes * bytes)) (w : World) : M (World * bool) :=
  match kvs with
  | [] => Ret (w, false)
  | (key, val) :: kvs' =>
      '(w, result) ← retry RETRY_CNT (mset_round flags key val) w;
      match result with
      | Ret true => mset_loop flags kvs' w
      | Ret false | Throw _ _ => Ret (w, true)
      | Crash c => Crash c
      end
  end.

(** One commit or one rollback for all keys; [s] is the status of RocksDB's rollback. *)
Definition mset_end (s : rocks unit) (failed : bool) (w : World) : M (World * bool) :=
  if failed then w ← SessionCtx_rollbackAll cfg s w; Ret (w, true)
  else
    match w_txn w with
    | Some tx =>
        '(w, s) ← SessionCtx_commitAll cfg sess w tx;
        match s with
        | Ret _ => Ret (w, false)
        | _ => Ret (w, true)
        end
    | None => Ret (w, false)
    end.

(** MSET answers OK also when it failed. *)
Definition MSetGeneric_run (s : rocks unit) (flags : Z) (args : list bytes) (w : World) : Reply :=
  if negb (zlen args mod 2 =? 0) then Ret (w, Throw ERR_PARSEPKT (lit "wrong number of arguments for MSET")) else
  '(w, failed) ← mset_loop flags (pairs_of args) w;
  '(w, failed) ← mset_end s failed w;
  if flags =? REDIS_SET_NO_FLAGS then Ret (w, Ret Command_fmtOK)
  else if flags =? REDIS_SET_NX then Ret (w, Ret (if failed : bool then Command_fmtZero else Command_fmtOne))
  else _ ← INVARIANT_D false; Ret (w, Ret Command_fmtOK).

(** * RENAME and RENAMENX *)

Definition data_meta_key (key : bytes) : RecordKey := RecordKey_new (chunkOf key) (sc_dbId sess) RT_DATA_META key [] 0.

(** [getEleType]. *)
Definition rename_types (type : RecordType) : list RecordType :=
  match type with
  | RT_HASH_META => [RT_HASH_ELE]
  | RT_LIST_META => [RT_LIST_ELE]
  | RT_SET_META => [RT_SET_ELE]
  | RT_ZSET_META => [RT_ZSET_S_ELE; RT_ZSET_H_ELE]
  | RT_TBITMAP_META => [RT_TBITMAP_ELE]
  | _ => []
  end.

(** The records of the elements of [src]. *)
Fixpoint rename_pending (src : bytes) (types : list RecordType) (tx : RocksTxn T) : M (list (RecordKey * RecordValue)) :=
  match types with
  | [] => Ret []
  | type :: types' =>
      prefix ← RecordKey_prefixPk (RecordKey_new (chunkOf src) (sc_dbId sess) type src [] 0);
      rcds ← prefix_fold (scan_fuel tx) (fun acc rcd => Ret (acc ++ [rcd])) prefix (DataCursor_seek (RocksTxn_createDataCursor tx) prefix) [];
      rest ← rename_pending src types' tx;
      Ret (rcds ++ rest)
  end.

Fixpoint rename_add (dst : bytes) (pending : list (RecordKey * RecordValue)) (tx : RocksTxn T) : M (RocksTxn T) :=
  match pending with
  | [] => Ret tx
  | (srcRk, rv) :: pending' =>
      type ← RecordKey_getRecordType srcRk;
      tx ← RocksKVStore_setKV cfg (RecordKey_new (chunkOf dst) (sc_dbId sess) type dst (rk_sk srcRk) 0) rv tx now;
      rename_add dst pending' tx
  end.

Fixpoint rename_del (pending : list (RecordKey * RecordValue)) (tx : RocksTxn T) : M (RocksTxn T) :=
  match pending with
  | [] => Ret tx
  | (srcRk, _) :: pending' =>
      tx ← RocksKVStore_delKV cfg srcRk tx now;
      rename_del pending' tx
  end.

(** The index entry of a value with a time to live; a string has none. *)
Definition rename_index (dst : bytes) (rv : RecordValue) (tx : RocksTxn T) : M (RocksTxn T) :=
  if negb (bool_decide (rv_type rv = RT_KV)) && (0 <? rv_ttl rv) then
    k ← TTLIndex_encode (mkTTLIndex dst (rv_type rv) (sc_dbId sess) (rv_ttl rv));
    v ← RecordValue_encode (RecordValue_new [] RT_TTL_INDEX MAXU64 0 (-1) 0 MAXU64);
    RocksTxn_setKV cfg tx k v 0 now
  else Ret tx.

Definition rename_move (src dst : bytes) (rv : RecordValue) (tx : RocksTxn T) : M (RocksTxn T) :=
  tx ← Command_delKeyAndTTL cfg sess (data_meta_key src) rv tx now;
  tx ← RocksKVStore_setKV cfg (data_meta_key dst) rv tx now;
  tx ← rename_index dst rv tx;
  if bool_decide (rv_type rv = RT_KV) then Ret tx else
  _ ← getSubKeyCount (data_meta_key src) rv;
  pending ← rename_pending src (rename_types (rv_type rv)) tx;
  tx ← rename_add dst pending tx;
  rename_del pending tx.

(** The key [dst], which is replaced; an error of the deletion is answered as its text. *)
Definition rename_clear (dst : bytes) (o : option RecordValue) (tx : RocksTxn T) (w : World) : M (World * M (RocksTxn T + bytes)) :=
  match o with
  | None => Ret (w, Ret (inl tx))
  | Some _ =>
      '(ks, db, s) ← Command_delKey cfg now srv sess (chunkOf dst) dst RT_DATA_META (w_store w) (w_db w) tx;
      let w := mkWorld ks db (w_txn w) in
      match s with
      | Ret tx => Ret (w, Ret (inl tx))
      | Throw code msg => text ← Status_toString (mkStatus msg code); Ret (w, Ret (inr text))
      | Crash c => Crash c
      end
  end.

(** Both keys are in one store, and so in one transaction; the status of its commit is dropped. *)
Definition RenameGeneric_run (s : rocks unit) (nx : bool) (src dst : bytes) (w : World) : Reply :=
  '(w, _) ← SessionCtx_createTransaction sess w;
  '(w, rv) ← readMeta RT_DATA_META src w;
  match rv with
  | Throw ERR_NOTFOUND _ | Throw ERR_EXPIRED _ => Ret (w, Throw ERR_NO_KEY [])
  | _ =>
      if bool_decide (src = dst) then Ret (w, Ret (if nx then Command_fmtZero else Command_fmtOK)) else
      '(w, dstrv) ← readMeta RT_DATA_META dst w;
      or_return w (meta_or_none dstrv) (fun o =>
      if nx && bool_decide (is_Some o) then Ret (w, Ret Command_fmtZero) else
      '(w, tx) ← open_read sess w;
      '(w, cleared) ← rename_clear dst o tx w;
      or_return w cleared (fun r =>
      match r, rv with
      | inr text, _ => Ret (w, Ret text)
      | inl tx, Ret v =>
          match rename_move src dst v tx with
          | Crash c => Crash c
          | Throw c msg => rolled_back cfg s w (Throw c msg)
          | Ret tx =>
              '(w, _) ← SessionCtx_commitAll cfg sess w tx;
              Ret (w, Ret (if nx then Command_fmtOne else Command_fmtOK))
          end
      | inl _, _ => Crash CUndefined
      end))
  end.

End Kv.
