(* ===== verification/KvBits.v ===== *)
(** The bytes and the bits of the values that the commands of strings compute. *)

From Stdlib Require Import Strings.Byte ZArith Lia.
From stdpp Require Import base list numbers strings.
From S2P Require Import Prelude Status Bits ListSpec Kv.

Local Open Scope Z_scope.

(** Behind its end, a string counts as zeros. *)
Lemma byte_range s i : 0 <= byte_or_0 s i < 256.
Proof. unfold byte_or_0. destruct (znth s i); [apply bz_range|done]. Qed.

Lemma byte_outside s i : i < 0 \/ zlen s <= i -> byte_or_0 s i = 0.
Proof. intros Hi. unfold byte_or_0. by rewrite znth_outside. Qed.

Lemma byte_app s t i : 0 <= i -> byte_or_0 (s ++ t) i = if i <? zlen s then byte_or_0 s i else byte_or_0 t (i - zlen s).
Proof. intros Hi. unfold byte_or_0. destruct (Z.ltb_spec i (zlen s)); [by rewrite znth_app_l|by rewrite znth_app_r]. Qed.

Lemma byte_zeros n i : byte_or_0 (zfill n x00) i = 0.
Proof.
  unfold byte_or_0, zfill. destruct (Z.lt_ge_cases i 0); [by rewrite znth_outside by lia|]. rewrite znth_lookup by done.
  destruct (replicate _ _ !! Z.to_nat i) as [c|] eqn:E; [|done]. apply lookup_replicate in E as [-> _]. done.
Qed.

Lemma zlen_grow s n : zlen (grow s n) = Z.max (zlen s) n.
Proof. unfold grow. pose proof (zlen_nonneg s). destruct (Z.ltb_spec (zlen s) n); [rewrite zlen_app, zlen_fill by lia; lia|lia]. Qed.

Lemma byte_grow s n i : byte_or_0 (grow s n) i = byte_or_0 s i.
Proof.
  unfold grow. destruct (zlen s <? n); [|done]. destruct (Z.lt_ge_cases i 0); [by rewrite !byte_outside by lia|]. rewrite byte_app by done.
  destruct (Z.ltb_spec i (zlen s)); [done|]. by rewrite byte_zeros, byte_outside by lia.
Qed.

Lemma zlen_overwrite s offset val : 0 <= offset -> offset + zlen val <= zlen s -> zlen (overwrite s offset val) = zlen s.
Proof. intros Ho Hl. pose proof (zlen_nonneg val). unfold overwrite. rewrite !zlen_app, zlen_take, zlen_drop by lia. lia. Qed.

Lemma byte_overwrite s offset val i : 0 <= offset -> offset + zlen val <= zlen s -> 0 <= i ->
  byte_or_0 (overwrite s offset val) i = if (offset <=? i) && (i <? offset + zlen val) then byte_or_0 val (i - offset) else byte_or_0 s i.
Proof.
  intros Ho Hl Hi. pose proof (zlen_nonneg val). unfold overwrite. rewrite byte_app, zlen_take by lia. rewrite Z.ltb_antisym. destruct (Z.leb_spec offset i); cbn [negb andb].
  - rewrite byte_app by lia. replace (i - offset <? zlen val) with (i <? offset + zlen val) by (apply eq_true_iff_eq; rewrite !Z.ltb_lt; lia).
    destruct (Z.ltb_spec i (offset + zlen val)); [done|]. unfold byte_or_0. rewrite zdrop_drop, znth_lookup, lookup_drop by lia. rewrite znth_lookup by done. by replace (Z.to_nat (offset + zlen val) + Z.to_nat (i - offset - zlen val))%nat with (Z.to_nat i) by lia.
  - unfold byte_or_0. rewrite ztake_take, !znth_lookup by lia. by rewrite lookup_take_lt by lia.
Qed.

(** The new value of SETRANGE. *)
Lemma set_range s offset val : 0 <= offset ->
  let s' := overwrite (grow s (offset + zlen val)) offset val in
  zlen s' = Z.max (zlen s) (offset + zlen val) /\
  forall i, 0 <= i -> byte_or_0 s' i = if (offset <=? i) && (i <? offset + zlen val) then byte_or_0 val (i - offset) else byte_or_0 s i.
Proof.
  intros Ho s'. pose proof (zlen_grow s (offset + zlen val)) as Hg. split; [subst s'; rewrite zlen_overwrite by lia; lia|].
  intros i Hi. subst s'. rewrite byte_overwrite by lia. by rewrite byte_grow.
Qed.

(** ** Bits *)

Lemma bit_byte pos : Z.shiftr pos 3 = pos / 8.
Proof. by rewrite Z.shiftr_div_pow2. Qed.

Lemma bit_place pos : Z.land pos 7 = pos mod 8.
Proof. change 7 with (Z.ones 3). by rewrite Z.land_ones. Qed.

(** A place of a bit, as its byte and its place in it. *)
Lemma bit_at_testbit s pos : 0 <= pos -> bit_at s pos = Z.testbit (byte_or_0 s (pos / 8)) (7 - pos mod 8).
Proof.
  intros Hp. unfold bit_at. rewrite bit_byte, bit_place. fold (byte_or_0 s (pos / 8)).
  pose proof (Z.mod_pos_bound pos 8 ltac:(lia)). rewrite Z.shiftl_1_l, Z.land_comm. apply land_pow2. lia.
Qed.

Lemma bit_at_ext s t pos : 0 <= pos -> byte_or_0 s (pos / 8) = byte_or_0 t (pos / 8) -> bit_at s pos = bit_at t pos.
Proof. intros Hp E. by rewrite !bit_at_testbit, E. Qed.

Lemma bit_at_outside s pos : 0 <= pos -> zlen s * 8 <= pos -> bit_at s pos = false.
Proof. intros Hp Hl. rewrite bit_at_testbit, byte_outside by (try right; try apply Z.div_le_lower_bound; lia). apply Z.testbit_0_l. Qed.

(** The bit in a byte changed. *)
Lemma testbit_changed v bit on i : 0 <= v < 256 -> 0 <= bit < 8 -> 0 <= i < 8 ->
  Z.testbit (bz (u8 (Z.lor (Z.land v (Z.lnot (Z.shiftl 1 bit))) (Z.shiftl (if on : bool then 1 else 0) bit)))) i = if i =? bit then on else Z.testbit v i.
Proof.
  intros Hv Hb Hi. rewrite bz_u8. change 256 with (2 ^ 8). rewrite Z.mod_pow2_bits_low by lia. rewrite Z.lor_spec, Z.land_spec, Z.lnot_spec, !Z.shiftl_spec by lia.
  destruct (Z.eqb_spec i bit) as [->|Hn].
  - rewrite Z.sub_diag. change (Z.testbit 1 0) with true. rewrite andb_false_r. by destruct on.
  - assert (forall b : bool, Z.testbit (if b then 1 else 0) (i - bit) = false) as E.
    { intros b. destruct (Z.lt_ge_cases i bit); [by rewrite Z.testbit_neg_r by lia|]. destruct b; [|apply Z.testbit_0_l]. apply (testbit_high 1 1); [done|lia]. }
    rewrite (E on), (E true : Z.testbit 1 (i - bit) = false). by rewrite andb_true_r, orb_false_r.
Qed.

Lemma zlen_with_bit s pos on : zlen (with_bit s pos on) = zlen s.
Proof. apply zlen_set. Qed.

(** The new value of SETBIT. *)
Lemma bit_with_bit s pos on p : 0 <= pos < zlen s * 8 -> 0 <= p -> bit_at (with_bit s pos on) p = if p =? pos then on else bit_at s p.
Proof.
  intros Hpos Hp. rewrite !bit_at_testbit by done. unfold with_bit. rewrite bit_byte, bit_place.
  fold (byte_or_0 s (pos / 8)). pose proof (Z.mod_pos_bound pos 8 ltac:(lia)). pose proof (Z.mod_pos_bound p 8 ltac:(lia)).
  pose proof (Z.div_mod pos 8 ltac:(lia)). pose proof (Z.div_mod p 8 ltac:(lia)). assert (0 <= pos / 8 < zlen s) as Hi by (split; [apply Z.div_pos; lia|apply Z.div_lt_upper_bound; lia]).
  unfold byte_or_0 at 1. destruct (decide (p / 8 = pos / 8)) as [Eq|Hne].
  - rewrite Eq, znth_zset_eq by done. rewrite testbit_changed by (try apply byte_range; lia). destruct (Z.eqb_spec p pos) as [->|Hn]; [by rewrite Z.eqb_refl|]. destruct (Z.eqb_spec (7 - p mod 8) (7 - pos mod 8)); [exfalso; lia|done].
  - rewrite znth_zset_ne by done. fold (byte_or_0 s (p / 8)). destruct (Z.eqb_spec p pos); [congruence|done].
Qed.

Lemma set_bit s pos on : 0 <= pos ->
  let s' := with_bit (grow s (pos / 8 + 1)) pos on in
  zlen s' = Z.max (zlen s) (pos / 8 + 1) /\ forall p, 0 <= p -> bit_at s' p = if p =? pos then on else bit_at s p.
Proof.
  intros Hp s'. split; [subst s'; by rewrite zlen_with_bit, zlen_grow|]. intros p Hp'. subst s'. pose proof (Z.div_mod pos 8 ltac:(lia)). pose proof (Z.mod_pos_bound pos 8 ltac:(lia)).
  rewrite bit_with_bit by (try rewrite zlen_grow; lia). destruct (p =? pos); [done|]. apply bit_at_ext; [done|]. apply byte_grow.
Qed.

(** * BITOP *)

(** The operation on the bits at one place. *)
Definition bit_op (op : BitOp) (bits : list bool) : bool :=
  match op with
  | BITOP_AND => forallb id bits
  | BITOP_OR => existsb id bits
  | BITOP_XOR => foldr xorb false bits
  | BITOP_NOT => negb (existsb id bits)
  end.

Lemma bitop_fold_ok {BM : BuildMode} op i vals : (op = BITOP_NOT -> vals = []) -> forall out, 0 <= out < 256 ->
  exists r, bitop_fold op i vals out = Ret r /\ 0 <= r < 256 /\
    forall j, 0 <= j -> Z.testbit r j = match op with
                                        | BITOP_AND => Z.testbit out j && forallb (fun v => Z.testbit (byte_or_0 v i) j) vals
                                        | BITOP_OR => Z.testbit out j || existsb (fun v => Z.testbit (byte_or_0 v i) j) vals
                                        | BITOP_XOR => xorb (Z.testbit out j) (foldr (fun v b => xorb (Z.testbit (byte_or_0 v i) j) b) false vals)
                                        | BITOP_NOT => Z.testbit out j
                                        end.
Proof.
  assert (forall x, 0 <= x < 256 <-> is_u 8 x) as Hu by (intros x; done).
  assert (forall (f : Z -> Z -> Z) x y, (forall a b j, 0 <= j -> Z.testbit a j = false -> Z.testbit b j = false -> Z.testbit (f a b) j = false) -> 0 <= f x y -> 0 <= x < 256 -> 0 <= y < 256 -> 0 <= f x y < 256) as Hf.
  { intros f x y Hb Hp Hx Hy. split; [done|]. destruct (decide (f x y = 0)) as [->|Hne]; [done|]. apply (Z.log2_lt_pow2 _ 8); [lia|].
    destruct (Z.lt_ge_cases (Z.log2 (f x y)) 8) as [|Hge]; [done|]. assert (Z.testbit (f x y) (Z.log2 (f x y)) = true) as Ht by (apply Z.bit_log2; lia).
    rewrite Hb in Ht; [done|lia| |]; (apply (testbit_high _ 8); [by apply Hu|lia]). }
  induction vals as [|v vals IH]; intros Hn out Ho; cbn [bitop_fold forallb existsb foldr].
  - exists out. split; [done|]. split; [done|]. intros j _. destruct op; rewrite ?andb_true_r, ?orb_false_r, ?xorb_false_r; done.
  - pose proof (byte_range v i) as Hv. destruct op; [| | |by specialize (Hn eq_refl)].
    + destruct (IH ltac:(done) (Z.land out (byte_or_0 v i))) as (r & -> & Hr & Hb); [apply (Hf Z.land); [intros a b j Hj Ea Eb; by rewrite Z.land_spec, Ea|apply Z.land_nonneg; lia|done|done]|].
      exists r. split; [done|]. split; [done|]. intros j Hj. by rewrite Hb, Z.land_spec, andb_assoc by done.
    + destruct (IH ltac:(done) (Z.lor out (byte_or_0 v i))) as (r & -> & Hr & Hb); [apply (Hf Z.lor); [intros a b j Hj Ea Eb; by rewrite Z.lor_spec, Ea|apply Z.lor_nonneg; lia|done|done]|].
      exists r. split; [done|]. split; [done|]. intros j Hj. by rewrite Hb, Z.lor_spec, orb_assoc by done.
    + destruct (IH ltac:(done) (Z.lxor out (byte_or_0 v i))) as (r & -> & Hr & Hb); [apply (Hf Z.lxor); [intros a b j Hj Ea Eb; by rewrite Z.lxor_spec, Ea, Eb|apply Z.lxor_nonneg; lia|done|done]|].
      exists r. split; [done|]. split; [done|]. intros j Hj. by rewrite Hb, Z.lxor_spec, xorb_assoc by done.
Qed.

Lemma bitop_byte_ok {BM : BuildMode} op vals i : vals <> [] -> (op = BITOP_NOT -> zlen vals = 1) ->
  exists r, bitop_byte op vals i = Ret r /\ 0 <= r < 256 /\ forall j, 0 <= j < 8 -> Z.testbit r j = bit_op op (map (fun v => Z.testbit (byte_or_0 v i) j) vals).
Proof.
  intros Hne Hn. destruct vals as [|v vals]; [done|]. unfold bitop_byte. cbn [tail]. pose proof (byte_range v i) as Hv. set (out := match op with BITOP_NOT => _ | _ => _ end).
  assert (0 <= out < 256) as Ho by (subst out; destruct op; [done..|]; unfold wrap; apply Z.mod_pos_bound; done).
  assert (op = BITOP_NOT -> vals = []) as Hnil by (intros E; specialize (Hn E); rewrite zlen_cons in Hn; destruct vals; [done|]; rewrite zlen_cons in Hn; pose proof (zlen_nonneg vals); lia).
  destruct (bitop_fold_ok op i vals Hnil out Ho) as (r & Er & Hr & Hb). exists r. split; [done|]. split; [done|]. intros j Hj. rewrite Hb by lia. subst out. cbn [map bit_op].
  destruct op; cbn [bit_op forallb existsb foldr].
  - f_equal. clear. induction vals as [|u vals IH]; cbn; by rewrite ?IH.
  - f_equal. clear. induction vals as [|u vals IH]; cbn; by rewrite ?IH.
  - f_equal. clear. induction vals as [|u vals IH]; cbn; by rewrite ?IH.
  - rewrite (Hnil eq_refl). cbn. unfold wrap. rewrite orb_false_r, Z.mod_pow2_bits_low by lia. by rewrite Z.lnot_spec by lia.
Qed.

Lemma bitop_bytes_ok {BM : BuildMode} op vals : vals <> [] -> (op = BITOP_NOT -> zlen vals = 1) -> forall n i, 0 <= i ->
  exists s, bitop_bytes n op vals i = Ret s /\ zlen s = Z.of_nat n /\
    forall p, 0 <= p < 8 * Z.of_nat n -> bit_at s p = bit_op op (map (fun v => bit_at v (8 * i + p)) vals).
Proof.
  intros Hne Hn. induction n as [|n IH]; intros i Hi; cbn [bitop_bytes].
  - exists []. split; [done|]. split; [done|]. intros p. lia.
  - destruct (bitop_byte_ok op vals i Hne Hn) as (r & -> & Hr & Hb). destruct (IH (i + 1) ltac:(lia)) as (s & -> & Hl & Hs). rewrite !bind_Ret. exists (u8 r :: s).
    split; [done|]. split; [rewrite zlen_cons; lia|]. intros p Hp. rewrite bit_at_testbit by lia. pose proof (Z.div_mod p 8 ltac:(lia)). pose proof (Z.mod_pos_bound p 8 ltac:(lia)).
    change (u8 r :: s) with ([u8 r] ++ s). rewrite byte_app by (apply Z.div_pos; lia). change (zlen [u8 r]) with 1. destruct (Z.ltb_spec (p / 8) 1) as [Hq|Hq].
    + assert (p / 8 = 0) as E by (pose proof (Z.div_pos p 8 ltac:(lia) ltac:(lia)); lia). rewrite E. change (byte_or_0 [u8 r] 0) with (bz (u8 r)). rewrite bz_u8_small, Hb by lia. f_equal. apply map_ext. intros v.
      rewrite bit_at_testbit by lia. rewrite Z.add_comm, (Z.mul_comm 8 i), Z.div_add, Z.mod_add by lia. by rewrite E, Z.add_0_l.
    + pose proof (Hs (p - 8)) as Hs'. rewrite bit_at_testbit in Hs' by lia. replace ((p - 8) / 8) with (p / 8 - 1) in Hs' by (replace (p - 8) with (p + (-1) * 8) by lia; rewrite Z.div_add by lia; lia).
      replace ((p - 8) mod 8) with (p mod 8) in Hs' by (replace (p - 8) with (p + (-1) * 8) by lia; by rewrite Z.mod_add by lia). rewrite Hs' by lia. f_equal. apply map_ext. intros v. f_equal. lia.
Qed.

Lemma max_len_spec vals : (forall v, v ∈ vals -> zlen v <= max_len vals) /\ (max_len vals = 0 \/ exists v, v ∈ vals /\ zlen v = max_len vals) /\ 0 <= max_len vals.
Proof.
  unfold max_len. assert (forall m, 0 <= m -> let r := foldl (fun m v => if m <? zlen v then zlen v else m) m vals in
    m <= r /\ (forall v, v ∈ vals -> zlen v <= r) /\ (r = m \/ exists v, v ∈ vals /\ zlen v = r)) as Hg.
  { induction vals as [|v vals IH]; intros m Hm; cbn [foldl]; [split; [lia|]; split; [by intros v ?%elem_of_nil|by left]|].
    pose proof (zlen_nonneg v). destruct (IH (if m <? zlen v then zlen v else m)) as (H1 & H2 & H3); [destruct (Z.ltb_spec m (zlen v)); lia|].
    assert (m <= (if m <? zlen v then zlen v else m) /\ zlen v <= (if m <? zlen v then zlen v else m)) as [Ha Hb] by (destruct (Z.ltb_spec m (zlen v)); lia).
    split; [lia|]. split; [intros u [->|Hu]%elem_of_cons; [lia|by apply H2]|]. destruct H3 as [E|(u & Hu & E)]; [|right; exists u; split; [by right|done]].
    rewrite E. destruct (Z.ltb_spec m (zlen v)); [right; exists v; split; [by left|done]|by left]. }
  destruct (Hg 0 ltac:(lia)) as (H1 & H2 & H3). split; [done|]. by split.
Qed.

(** The value of BITOP: as long as the longest source, bit by bit. *)
Lemma bitop_value {BM : BuildMode} op vals : vals <> [] -> (op = BITOP_NOT -> zlen vals = 1) ->
  exists s, bitop_bytes (Z.to_nat (max_len vals)) op vals 0 = Ret s /\ zlen s = max_len vals /\
    forall p, 0 <= p < 8 * max_len vals -> bit_at s p = bit_op op (map (fun v => bit_at v p) vals).
Proof.
  intros Hne Hn. destruct (max_len_spec vals) as (_ & _ & Hm). destruct (bitop_bytes_ok op vals Hne Hn (Z.to_nat (max_len vals)) 0 ltac:(lia)) as (s & E & Hl & Hs).
  rewrite Z2Nat.id in Hl, Hs by done. exists s. split; [done|]. split; [done|]. intros p Hp. rewrite (Hs p Hp). done.
Qed.
