(* ===== verification/KvSpec.v ===== *)
(** What the commands of strings (commands/kv.cpp) that write one key promise: SET and its kin,
    and the commands that make a new value from the old one. *)

From Stdlib Require Import Strings.Byte ZArith Lia.
From stdpp Require Import base list numbers strings gmap.
From S2P Require Import Prelude Status Varint Strings Number Record RecordValue RecordMeta ReplLog BinlogSeq Txn Store Replicate Cursor Command Elems Keys KeysSpec KeysDel Named Hash HashSpec Members MembersCmd MembersMulti MembersStore Kv KvBits.

Local Open Scope Z_scope.

Section Strings.
Context {BM : BuildMode} {T : Type} `{RocksIterLaws T} {HL : RocksDBLaws T} {HH : RocksDBHealthy T} {HI : RocksIterHealthy T}.
Variable cfg : StoreCfg.
Variable sess : SessionCtx.
Variables (now currentTs : Z) (srv : ServerParams) (multi : option Z) (chunkOf : bytes -> Z).
Variable checkType : bool.
Variable pk : bytes.

#[local] Abbreviation mk := (kv_key sess chunkOf pk).
#[local] Abbreviation readMeta := (read_meta cfg now srv sess multi (chunkOf pk) currentTs RT_KV pk).
#[local] Abbreviation setWrite := (set_write cfg sess now currentTs srv chunkOf).
#[local] Abbreviation setRound := (setGeneric_round cfg sess now currentTs srv chunkOf).

Hypothesis Hcat : cfg_isCatalog cfg = false.
Hypothesis Hpk : (x00 ∉ pk) /\ zlen pk < 2 ^ 61.
Hypothesis Hchunk : is_u32 (chunkOf pk) /\ chunkOf pk < CLUSTER_SLOTS.
Hypothesis Hdb : is_u32 (sc_dbId sess).
Hypothesis Hep : is_u64 (sc_versionEP sess).

Lemma mk_data : data_key mk.
Proof. by apply (whole_key_data (chunkOf pk) (sc_dbId sess) pk (proj2 Hpk) Hchunk Hdb RT_KV). Qed.

(** The key holds the record [rv]. *)
Definition holds (tx : RocksTxn T) (rv : RecordValue) : Prop := writable tx /\ RocksKVStore_getKV cfg mk tx = Ret rv.

Lemma write_string tx rv : writable tx -> RecordValue_wf rv ->
  exists tx' s, RocksKVStore_setKV cfg mk rv tx now = Ret tx' /\ holds tx' rv /\ wrote_record tx tx' mk (Some s).
Proof.
  intros Hw Hwf. destruct (setKV_ok cfg Hcat mk rv tx now mk_data Hwf Hw) as (tx' & s & E & W & Ed). exists tx', s. split; [done|]. split; [|done].
  split; [apply W|]. pose proof (getKV_raw cfg mk tx' mk_data) as G. rewrite (proj1 (proj2 W)) in G. by rewrite G.
Qed.

Lemma kv_record_wf v ttl : zlen v < 2 ^ 62 -> is_u64 ttl -> RecordValue_wf (kv_record sess v ttl).
Proof. intros Hv Ht. unfold RecordValue_wf, kv_record, RecordValue_new, MAXU64; cbn. by split_and!. Qed.

(** ** SET and its kin *)

(** Whether the record counts as there, and whether the flags forbid the write. *)
Definition there (r : M RecordValue) : bool :=
  match r with Ret v => (rv_ttl v =? 0) || (currentTs <? rv_ttl v) | _ => false end.

Definition forbidden (flags : Z) (r : M RecordValue) : bool :=
  flag_set flags REDIS_SET_NX && there r || flag_set flags REDIS_SET_XX && negb (there r) || flag_set flags REDIS_SET_NXEX && there r.

(** The type of the old value matters when there are flags or the server checks it. *)
Definition checks (flags : Z) : bool := flag_set flags REDIS_SET_NX || flag_set flags REDIS_SET_XX || flag_set flags REDIS_SET_NXEX || checkType.

(** The value of another type that goes. *)
Definition replaced (flags : Z) (r : M RecordValue) : option RecordValue :=
  match r with Ret v => if checks flags && negb (bool_decide (rv_type v = RT_KV)) then Some v else None | _ => None end.

(** The records that go with it: its elements and its entry of the index of expiries. *)
Definition goes_with (v : RecordValue) (k : RecordKey) : bool :=
  bool_decide (element_of (chunkOf pk) (sc_dbId sess) pk (ele_list (rv_type v)) k) ||
  among (index_keys (if 0 <? rv_ttl v then Some (mkTTLIndex pk (rv_type v) (sc_dbId sess) (rv_ttl v)) else None)) k.

(** The old record, if there is one, is legal, and not so big that it is deleted by ranges. *)
Definition old_record (r : M RecordValue) : Prop :=
  match r with
  | Ret v => RecordValue_wf v /\ isDataMetaType (rv_type v) = true /\
      exists cnt, getSubKeyCount (whole_key (chunkOf pk) (sc_dbId sess) pk RT_DATA_META) v = Ret cnt /\ Command_useDeleteRange cnt (rv_type v) srv = false
  | Throw c _ => c = ERR_NOTFOUND
  | Crash _ => False
  end.

(** [tx'] is [tx] with the record [rv] for the key, and without what was there. *)
Definition set_done (flags : Z) (rv : RecordValue) (tx tx' : RocksTxn T) : Prop :=
  holds tx' rv /\ kept tx tx' /\
  forall k, data_key k -> ~ RecordKey_equiv k mk ->
    raw_record tx' k = match replaced flags (RocksKVStore_getKV cfg mk tx) with
                       | Some v => if goes_with v k then None else raw_record tx k
                       | None => raw_record tx k
                       end.

Lemma set_check_ok flags tx : old_record (RocksKVStore_getKV cfg mk tx) ->
  set_check cfg sess currentTs chunkOf flags checkType pk tx =
    Ret (if forbidden flags (RocksKVStore_getKV cfg mk tx) then None else Some (bool_decide (is_Some (replaced flags (RocksKVStore_getKV cfg mk tx))))).
Proof.
  intros Ho. unfold set_check, replaced, forbidden, checks, there. destruct (RocksKVStore_getKV cfg mk tx) as [v|c msg|]; [|cbn in Ho; subst c|done]; cbn [find_record]; rewrite ?bind_Ret.
  - rewrite negb_andb, negb_involutive, <-Z.ltb_antisym. set (h := (rv_ttl v =? 0) || _).
    destruct (flag_set flags REDIS_SET_NX), (flag_set flags REDIS_SET_XX), (flag_set flags REDIS_SET_NXEX), h, checkType; cbn; try done; by destruct (bool_decide (rv_type v = RT_KV)).
  - by destruct (flag_set flags REDIS_SET_NX), (flag_set flags REDIS_SET_XX), (flag_set flags REDIS_SET_NXEX), checkType.
Qed.

Lemma set_clear_ok flags tx w : writable tx -> tidy (tx_db tx) -> zlen (scan_entries (rdb_scan (tx_db tx) CF_Default None)) * 2 < MAXU32 ->
  let r := RocksKVStore_getKV cfg mk tx in
  old_record r ->
  exists tx', set_clear cfg sess now srv chunkOf (bool_decide (is_Some (replaced flags r))) pk tx w = Ret (w, Ret tx') /\ writable tx' /\ kept tx tx' /\
    forall k, data_key k -> ~ RecordKey_equiv k mk ->
      raw_record tx' k = match replaced flags r with Some v => if goes_with v k then None else raw_record tx k | None => raw_record tx k end.
Proof.
  intros Hw Htd Hsz r Ho. destruct (replaced flags r) as [v|] eqn:Er; [|exists tx; by split_and!]. unfold set_clear. rewrite bool_decide_true by by eexists.
  destruct r as [v'|c msg|] eqn:Eg; [|done|done]. cbn [replaced] in Er. destruct (checks flags && _); [|done]. injection Er as ->. destruct Ho as (Hwf & Hm & cnt & Hcnt & Huse).
  destruct (whole_key_data (chunkOf pk) (sc_dbId sess) pk (proj2 Hpk) Hchunk Hdb RT_DATA_META eq_refl) as [Hd _].
  assert (RecordKey_equiv mk (whole_key (chunkOf pk) (sc_dbId sess) pk RT_DATA_META)) as Hq by by apply RecordKey_equiv_fields.
  destruct (delKey_ok cfg Hcat now srv sess (chunkOf pk) pk Hpk Hchunk Hdb RT_DATA_META (w_store w) (w_db w) tx v cnt) as (tx' & E & Hw' & Hkp & Hg); try done.
  exists tx'. rewrite E, bind_Ret. split; [by destruct w|]. split; [done|]. split; [done|]. intros k Hk Hn. rewrite (Hg k Hk). unfold goes_with.
  change (among (whole_key _ _ _ _ :: ?l) k) with (RecordKey_eqb k (whole_key (chunkOf pk) (sc_dbId sess) pk RT_DATA_META) || among l k).
  destruct (RecordKey_eqb k (whole_key _ _ _ _)) eqn:Eq; [|done]. destruct Hn. etransitivity; [exact Eq|by symmetry].
Qed.

Lemma set_write_ok flags rv tx w : writable tx -> tidy (tx_db tx) -> zlen (scan_entries (rdb_scan (tx_db tx) CF_Default None)) * 2 < MAXU32 ->
  old_record (RocksKVStore_getKV cfg mk tx) -> RecordValue_wf rv ->
  if forbidden flags (RocksKVStore_getKV cfg mk tx) then setWrite flags checkType pk rv tx w = Ret (w, Ret None)
  else exists tx', setWrite flags checkType pk rv tx w = Ret (w, Ret (Some tx')) /\ set_done flags rv tx tx'.
Proof.
  intros Hw Htd Hsz Ho Hwf. unfold set_write. rewrite (set_check_ok flags tx Ho). destruct (forbidden _ _) eqn:Ef; [done|]. cbn [or_return].
  destruct (set_clear_ok flags tx w Hw Htd Hsz Ho) as (tx1 & E1 & Hw1 & Hk1 & Hr1). rewrite E1, bind_Ret. cbn [or_return].
  destruct (write_string tx1 rv Hw1 Hwf) as (tx' & s & E2 & Hh & W). rewrite E2. exists tx'. split; [done|]. split; [done|].
  split; [transitivity tx1; [done|by apply (setKV_kept cfg mk rv tx1 tx' now E2 mk_data)]|]. intros k Hk Hn. by rewrite (proj2 (proj2 W) k Hk Hn), Hr1.
Qed.

(** Records of other keys stay, apart from the index of expiries. *)
Lemma set_done_untouched flags rv tx tx' : set_done flags rv tx tx' -> untouched pk tx tx'.
Proof.
  intros (_ & Hkp & Hr). split; [done|]. intros k Hk Hp Ht. rewrite Hr; [|done|by intros (_ & _ & _ & ? & _)%RecordKey_equiv_fields]. destruct (replaced _ _) as [v|]; [|done].
  unfold goes_with. rewrite bool_decide_false by (by intros (_ & _ & ? & _)). cbn [orb]. destruct (among _ k) eqn:E; [|done].
  apply among_spec in E as (j & Hj & (_ & _ & Et & _)%RecordKey_equiv_fields). pose proof (index_keys_type (if 0 <? rv_ttl v then Some (mkTTLIndex pk (rv_type v) (sc_dbId sess) (rv_ttl v)) else None)) as Hi.
  rewrite Forall_forall in Hi. apply Hi in Hj. congruence.
Qed.

End Strings.

(** * The commands *)

Section Commands.
Context {BM : BuildMode} {T : Type} `{RocksIterLaws T} {HL : RocksDBLaws T} {HH : RocksDBHealthy T} {HI : RocksIterHealthy T} {HC : RocksDBCommits T}.
Variable cfg : StoreCfg.
Variable sess : SessionCtx.
Variables (now currentTs : Z) (srv : ServerParams) (multi : option Z) (chunkOf : bytes -> Z).
Variable checkType : bool.
Variable pk : bytes.
Variables (ks : RocksKVStore) (live : gmap Z Z) (dur : gset Z) (db : T).

#[local] Abbreviation command_ok := (command_ok cfg sess (chunkOf pk) pk ks live dur db).
#[local] Abbreviation mk := (kv_key sess chunkOf pk).
#[local] Abbreviation w := (mkWorld ks db None).
#[local] Abbreviation set_done := (set_done cfg sess chunkOf checkType pk).

(** What the store has under the key. *)
Definition found : M RecordValue := RocksKVStore_getKV cfg mk (RocksTxn_new 0 false db).

Lemma open_new : command_ok ->
  exists ks1 tx, SessionCtx_createTransaction sess w = Ret (mkWorld ks1 db (Some tx), tx) /\ writable tx /\ tx_db tx = db /\
    (can_log sess ks -> opened (mkWorld ks1 db (Some tx)) tx).
Proof.
  intros [Hcat Hpk Hch Hdb Hep Hro Hi Hn Htd Hsz]. destruct (create_ok ks live dur (Some false) Hi ltac:(lia)) as (ks1 & b & Ec & Hi1 & _).
  destruct (create_txn_fields _ _ _ _ _ Ec) as (-> & _ & _ & Eb). exists ks1, (RocksTxn_new (ks_nextTxnSeq ks) false db). split; [|split; [by split_and!|split; [done|]]].
  - unfold SessionCtx_createTransaction. cbn [w_txn w_store w_db]. by rewrite Hro, Ec, bind_Ret.
  - intros [_ Hl]. split; [by eexists|]. split; [split; [done|constructor]|]. cbn [w_store]. rewrite Eb. split; [done|]. eexists _, _. split; [exact Hi1|]. apply lookup_insert_eq.
Qed.

(** What SET and its kin do when the flags allow it, and when they do not. *)
Definition sets (flags : Z) (rv : RecordValue) (okReply abortReply : bytes) (result : M (World (T := T) * M bytes)) : Prop :=
  if forbidden currentTs flags found then answers db result abortReply
  else exists tx tx', tx_db tx = db /\ set_done flags rv tx tx' /\ untouched pk tx tx' /\ commits tx' okReply result.

Lemma set_rounds flags rv okReply abortReply : command_ok -> can_log sess ks -> old_record sess srv chunkOf pk found -> RecordValue_wf rv ->
  sets flags rv (if bool_decide (okReply = []) then Command_fmtOK else okReply) (if bool_decide (abortReply = []) then Command_fmtNull else abortReply)
    (retry RETRY_CNT (setGeneric_round cfg sess now currentTs srv chunkOf flags checkType pk rv okReply abortReply) w).
Proof.
  intros Hc Hlog Ho Hwf. destruct (open_new Hc) as (ks1 & tx & Eo & Hw & Edb & Hop). destruct Hc as [Hcat Hpk Hch Hdb Hep Hro Hi Hn Htd Hsz].
  assert (RocksKVStore_getKV cfg mk tx = found) as Ef by by apply getKV_same. unfold sets.
  pose proof (set_write_ok cfg sess now currentTs srv chunkOf checkType pk Hcat Hpk Hch Hdb flags rv tx (mkWorld ks1 db (Some tx)) Hw) as Hs.
  rewrite Edb, Ef in Hs. specialize (Hs Htd Hsz Ho Hwf). assert (txn_access tx = Ret tt) as Ha by (unfold txn_access; by rewrite (proj1 (proj2 Hw))).
  destruct (forbidden currentTs flags found).
  - exists (mkWorld ks1 db (Some tx)). split; [|done]. unfold RETRY_CNT. cbn [retry]. unfold setGeneric_round, setGeneric. by rewrite Eo, bind_Ret, Ha, bind_Ret, Hs.
  - destruct Hs as (tx' & E & Hd). exists tx, tx'. split; [done|]. split; [done|]. split; [by apply (set_done_untouched cfg sess chunkOf checkType pk flags rv)|].
    apply (retry_commits cfg sess (proj1 Hlog) _ _ _ (mkWorld ks1 db (Some tx)) tx); [by apply Hop|apply Hd|apply Hd|]. unfold setGeneric_round, setGeneric. by rewrite Eo, bind_Ret, Ha, bind_Ret, E.
Qed.

(** The time at which a value expires; 0 is never. *)
Definition deadline (ms : Z) : Z := if ms =? 0 then 0 else u64 (currentTs + ms).

Lemma deadline_u64 ms : is_u64 (deadline ms).
Proof. unfold deadline. destruct (ms =? 0); [done|]. unfold u64, wrap, is_u. apply Z.mod_pos_bound. done. Qed.

Lemma expire_time_ok s e : stoll s = Ret e -> 0 < e -> expire_time s = Ret e.
Proof. intros E He. unfold expire_time. rewrite E, bind_Ret. by rewrite (proj2 (Z.leb_gt e 0)). Qed.

Lemma mul_s64_ok a b : LLONG_MIN <= a * b <= LLONG_MAX -> mul_s64 a b = Ret (a * b).
Proof. intros [H1' H2']. unfold mul_s64. by rewrite (proj2 (Z.leb_le _ _) H1'), (proj2 (Z.leb_le _ _) H2'). Qed.


(** ** New values from old ones *)

(** The key holds a string that has not expired, or nothing. *)
Definition string_here : Prop :=
  match found with
  | Ret v => RecordValue_wf v /\ live_record sess currentTs srv multi RT_KV v
  | Throw c _ => c = ERR_NOTFOUND
  | Crash _ => False
  end.

Definition old_cas (r : M RecordValue) : Z := match r with Ret v => rv_cas v | _ => -1 end.

(** The command commits the value [v] for the key, and no other record changes. *)
Definition updates (v : bytes) (ttl cas : Z) (reply : bytes) (result : M (World (T := T) * M bytes)) : Prop :=
  exists rv tx tx', rv_value rv = v /\ rv_ttl rv = ttl /\ rv_cas rv = cas /\ rv_type rv = RT_KV /\ tx_db tx = db /\ holds cfg sess chunkOf pk tx' rv /\
    (forall k, data_key k -> ~ RecordKey_equiv k mk -> raw_record tx' k = raw_record tx k) /\ commits tx' reply result.

(** The command answers with an error, and the store stays as it is. *)
Definition fails (c : ErrorCodes) (result : M (World (T := T) * M bytes)) : Prop := exists w' msg, result = Ret (w', Throw c msg) /\ w_db w' = db.

#[local] Abbreviation general := (GetSetGeneral_runGeneral cfg sess now currentTs srv multi chunkOf).

Lemma string_open : command_ok -> string_here ->
  exists ks0 ks1 tx, read_meta cfg now srv sess multi (chunkOf pk) currentTs RT_KV pk w = Ret (mkWorld ks0 db None, found) /\
    (exists o, meta_or_none found = Ret o) /\
    SessionCtx_createTransaction sess (mkWorld ks0 db None) = Ret (mkWorld ks1 db (Some tx), tx) /\ writable tx /\ tx_db tx = db /\
    (can_log sess ks -> opened (mkWorld ks1 db (Some tx)) tx).
Proof.
  intros [Hcat Hpk Hch Hdb Hep Hro Hi Hn Htd Hsz] Hs. unfold string_here in Hs.
  destruct (read_open cfg sess now currentTs srv multi (chunkOf pk) pk Hcat Hpk Hch Hdb Hro ks live dur db RT_KV Hi Hn eq_refl Htd Hsz) as (ks0 & ks1 & tx & Er & Ec & Hw & Edb & _ & Hop).
  { change (RocksKVStore_getKV cfg _ _) with found. destruct found; [apply Hs|done|done]. }
  exists ks0, ks1, tx. split; [done|]. split; [destruct found as [v|c msg|]; [by eexists|subst c; by eexists|done]|].
  split; [done|]. split; [done|]. split; [done|]. intros [_ ?]. by apply Hop.
Qed.

(** Without flags and without a check of the type. *)
Lemma plain_write rv tx tx' w' : RocksKVStore_setKV cfg mk rv tx now = Ret tx' ->
  set_write cfg sess now currentTs srv chunkOf REDIS_SET_NO_FLAGS false pk rv tx w' = Ret (w', Ret (Some tx')).
Proof. intros E. unfold set_write. change (set_check _ _ _ _ _ _ _ tx) with (Ret (Some false) : M (option bool)). cbn [or_return]. unfold set_clear. rewrite bind_Ret. cbn [or_return]. by rewrite E. Qed.

Lemma updates_ok newValue (new : bool) reply nv rep : command_ok -> can_log sess ks -> string_here -> newValue found = Ret nv -> RecordValue_wf nv -> rv_type nv = RT_KV ->
  reply (if new then nv else match found with Ret old => old | _ => kv_record sess [] 0 end) = Ret rep ->
  updates (rv_value nv) (rv_ttl nv) (rv_cas nv) rep (reply_of reply (general newValue new pk w)).
Proof.
  intros Hc Hlog Hs En Hwf Ht Erep. destruct (string_open Hc Hs) as (ks0 & ks1 & tx & Er & (o & Eo) & Ec & Hw & Edb & Hop). destruct Hc as [Hcat Hpk Hch Hdb Hep Hro Hi Hn Htd Hsz].
  destruct (write_string cfg sess now chunkOf pk Hcat Hpk Hch Hdb tx nv Hw Hwf) as (tx' & s & E & Hh & W). exists nv, tx, tx'. do 6 (split; [done|]). split; [apply W|].
  assert (kept tx tx') as Hkp by (by apply (setKV_kept cfg mk nv tx tx' now E), Hwf; apply mk_data).
  destruct (commit_opened cfg sess _ tx tx' (proj1 Hlog) (Hop Hlog) Hkp (proj1 Hh)) as (w2 & id & Ecm & _ & Hcm). exists w2. split; [|done]. unfold reply_of, GetSetGeneral_runGeneral. rewrite Er, bind_Ret, Eo. cbn [or_return]. unfold RETRY_CNT. cbn [retry]. unfold GetSetGeneral_round. rewrite Ec, bind_Ret, En. cbn [or_return].
  unfold txn_access. rewrite (proj1 (proj2 Hw)), bind_Ret. unfold setGeneric. rewrite (plain_write _ _ _ _ E), bind_Ret. cbn [or_return].
  unfold commit_reply. rewrite Ecm, !bind_Ret. cbn. by rewrite Erep.
Qed.

Lemma update_error newValue new reply c msg : command_ok -> string_here -> newValue found = Throw c msg -> c <> ERR_NOTFOUND -> c <> ERR_COMMIT_RETRY ->
  fails c (reply_of reply (general newValue new pk w)).
Proof.
  intros Hc Hs En Hc1 Hc2. destruct (string_open Hc Hs) as (ks0 & ks1 & tx & Er & (o & Eo) & Ec & _ & Edb). exists (mkWorld ks1 db (Some tx)), msg. split; [|done].
  unfold reply_of, GetSetGeneral_runGeneral. rewrite Er, bind_Ret, Eo. cbn [or_return]. unfold RETRY_CNT. cbn [retry]. unfold GetSetGeneral_round. rewrite Ec, bind_Ret, En. by destruct c.
Qed.

Lemma stoll_to_string n : is_s64 n -> stoll (to_string n) = Ret n.
Proof.
  intros Hn. unfold stoll, parse_int, std_stoll. rewrite <-(app_nil_r (to_string n)), to_string_ends, strto_to_string by done. cbn.
  replace (if n <? 0 then - Z.abs n else Z.abs n) with n by (destruct (Z.ltb_spec n 0); lia). unfold is_s in Hn.
  by rewrite (proj2 (Z.leb_le (- 2 ^ 63) n)), (proj2 (Z.ltb_lt n (2 ^ 63))) by lia.
Qed.

(** The record of the update, with its own time to live. *)
Definition new_string (v : bytes) (ttl : Z) : RecordValue := RecordValue_update v RT_KV (sc_versionEP sess) ttl found.

Lemma new_string_ok v ttl : string_here ->
  kv_update sess found v ttl = new_string v ttl /\ rv_value (new_string v ttl) = v /\ rv_ttl (new_string v ttl) = ttl /\ rv_cas (new_string v ttl) = old_cas found /\
  (is_u64 (sc_versionEP sess) -> zlen v < 2 ^ 62 -> is_u64 ttl -> RecordValue_wf (new_string v ttl)).
Proof.
  unfold string_here, kv_update, new_string. intros Hs. destruct found as [o| |]; cbn; [|split_and!; try done; intros Hep Hv Ht; unfold RecordValue_wf; cbn; by split_and!|done].
  destruct Hs as [(_ & H1' & H2' & H3' & H4' & H5' & _ & _) [-> _]]. by split_and!.
Qed.

(** A new value of the key. *)
Lemma update_string newValue (new : bool) reply v ttl rep : command_ok -> can_log sess ks -> string_here -> newValue found = Ret (new_string v ttl) -> zlen v < 2 ^ 62 -> is_u64 ttl ->
  reply (if new then new_string v ttl else match found with Ret old => old | _ => kv_record sess [] 0 end) = Ret rep ->
  updates v ttl (old_cas found) rep (reply_of reply (general newValue new pk w)).
Proof.
  intros Hc Hlog Hs En Hv Ht Er. destruct (new_string_ok v ttl Hs) as (_ & E1 & E2 & E3 & Hwf).
  assert (rv_type (new_string v ttl) = RT_KV) as E4 by apply update_value.
  pose proof (updates_ok newValue new reply _ rep Hc Hlog Hs En (Hwf (co_ep _ _ _ _ _ _ _ _ Hc) Hv Ht) E4 Er) as Hu. by rewrite E1, E2, E3 in Hu.
Qed.

Lemma old_ttl_u64 : string_here -> is_u64 (old_ttl found).
Proof. unfold string_here, old_ttl. intros Hs. destruct found; [apply Hs|done|done]. Qed.

Lemma old_value_len : string_here -> 0 <= zlen (old_value found) < 2 ^ 62.
Proof. unfold string_here, old_value. intros Hs. destruct found as [v| |]; [|done|done]. split; [apply zlen_nonneg|apply Hs]. Qed.

(** The number that a counter has: 0 without a value. *)
Definition counter : M Z := match found with Ret v => stoll (rv_value v) | _ => Ret 0 end.

Lemma stoll_s64 s n : stoll s = Ret n -> is_s64 n.
Proof.
  unfold stoll, parse_int, std_stoll. destruct (space_at_end s); [done|]. destruct (strto s) as [[neg v]|]; cbn; [|done].
  destruct (_ && _) eqn:E; [|done]. intros [= <-]. apply andb_true_iff in E as [E1%Z.leb_le E2%Z.ltb_lt]. by split.
Qed.

Lemma sum_ok n inc : counter = Ret n -> is_s64 inc ->
  IncrDecr_sumIncr found inc = (if bool_decide (is_s64 (n + inc)) then Ret (n + inc) else Throw ERR_OVERFLOW (lit "increment or decrement would overflow")).
Proof.
  intros Ec Hi. assert (is_s64 n) as Hn by (unfold counter in Ec; destruct found; [by apply (stoll_s64 _ _ Ec)|by injection Ec as <-|by injection Ec as <-]).
  unfold IncrDecr_sumIncr. replace (match found with Ret v => _ | _ => _ end) with (Ret n : M Z) by (unfold counter in Ec; destruct found; [by rewrite Ec|done|done]). rewrite bind_Ret.
  unfold is_s in *. unfold LLONG_MIN, LLONG_MAX. destruct (_ || _) eqn:E.
  - rewrite bool_decide_false; [done|]. rewrite orb_true_iff, !andb_true_iff, !Z.ltb_lt in E. lia.
  - rewrite bool_decide_true; [done|]. rewrite orb_false_iff, !andb_false_iff, !Z.ltb_ge in E. lia.
Qed.

#[local] Abbreviation append := (Append_run cfg sess now currentTs srv multi chunkOf pk).
#[local] Abbreviation setrange := (SetRange_run cfg sess now currentTs srv multi chunkOf pk).
#[local] Abbreviation setbit := (SetBit_run cfg sess now currentTs srv multi chunkOf pk).
#[local] Abbreviation getset := (GetSet_run cfg sess now currentTs srv multi chunkOf pk).

Lemma append_ok val : command_ok -> can_log sess ks -> string_here -> zlen (old_value found ++ val) < 2 ^ 62 ->
  updates (old_value found ++ val) (old_ttl found) (old_cas found) (Command_fmtLongLong (zlen (old_value found ++ val))) (append val w).
Proof.
  intros Hc Hlog Hs Hv. destruct (new_string_ok (old_value found ++ val) (old_ttl found) Hs) as (E & E1 & _).
  apply update_string; [done|done|done| |done|by apply old_ttl_u64|by rewrite E1]. unfold Append_newValue. by rewrite E.
Qed.

Lemma setrange_ok offset n val : command_ok -> can_log sess ks -> string_here -> stoll offset = Ret n -> 0 <= n -> u32 n + zlen val <= 512 * 1024 * 1024 -> val <> [] ->
  let v := overwrite (grow (old_value found) (u32 n + zlen val)) (u32 n) val in
  updates v (old_ttl found) (old_cas found) (Command_fmtLongLong (zlen v)) (setrange offset val w).
Proof.
  intros Hc Hlog Hs Eo Hn Hl Hv v. destruct (new_string_ok v (old_ttl found) Hs) as (E & E1 & _). assert (0 <= u32 n) as Hu by (apply Z.mod_pos_bound; done).
  pose proof (old_value_len Hs). destruct (set_range (old_value found) (u32 n) val Hu) as [El _]. fold v in El.
  apply update_string; [done|done|done| |lia|by apply old_ttl_u64|by rewrite E1]. unfold SetRange_newValue.
  assert ((zlen val =? 0) = false) as -> by (destruct val; [done|apply Z.eqb_neq; rewrite zlen_cons; pose proof (zlen_nonneg val); lia]).
  replace (match found with Throw ERR_NOTFOUND _ | Throw ERR_EXPIRED _ => false | _ => false end) with false by (destruct found as [|c ?|]; [done|by destruct c|done]).
  rewrite Eo, bind_Ret, (proj2 (Z.ltb_ge n 0) Hn), (proj2 (Z.ltb_ge _ _) Hl). fold v. by rewrite E.
Qed.

Lemma setbit_ok pos p on : command_ok -> can_log sess ks -> string_here -> stoul pos = Ret p -> 0 <= p < 8 * (512 * 1024 * 1024) ->
  let v := with_bit (grow (old_value found) (p / 8 + 1)) p on in
  updates v (old_ttl found) (old_cas found) (if bit_at (old_value found) p then Command_fmtOne else Command_fmtZero) (setbit pos (if on then lit "1" else lit "0") w).
Proof.
  intros Hc Hlog Hs Ep Hp v. destruct (new_string_ok v (old_ttl found) Hs) as (E & E1 & _).
  pose proof (old_value_len Hs). destruct (set_bit (old_value found) p on ltac:(lia)) as [El _]. fold v in El. assert (p / 8 < 512 * 1024 * 1024) as Hq by (apply Z.div_lt_upper_bound; lia).
  apply update_string; [done|done|done| |lia|by apply old_ttl_u64|].
  - unfold SetBit_newValue. rewrite Ep, bind_Ret, bit_byte, (proj2 (Z.leb_gt _ _) Hq). destruct on; [rewrite bool_decide_true by done|rewrite bool_decide_false, bool_decide_true by done]; rewrite bind_Ret; fold v; by rewrite E.
  - rewrite Ep, bind_Ret, bit_byte. rewrite (bit_at_ext _ (old_value found)); [done|lia|]. rewrite byte_grow. unfold old_value. by destruct found.
Qed.

Lemma getset_ok val : command_ok -> can_log sess ks -> string_here -> zlen val < 2 ^ 62 ->
  updates val 0 (old_cas found) (if zlen (old_value found) =? 0 then Command_fmtNull else Command_fmtBulk (old_value found)) (getset val w).
Proof. intros Hc Hlog Hs Hv. apply update_string; [done|done|done|done|done|done|]. unfold old_value. by destruct found. Qed.

(** C18: APPEND, SETRANGE, SETBIT and GETSET make one record of the key from the value it has, a
    missing or expired one counting as the empty string with zeros behind it, and commit it without
    touching any other record. APPEND gives the old value with the argument behind it. SETRANGE gives
    the argument at its offset and the old bytes elsewhere, SETBIT the bit at its place and the old
    bits elsewhere, in the shortest string that holds them. They keep the time to live, GETSET drops
    it. The replies are the new length, the old bit and the old value. The database accepts the
    commit, and the store holds afterwards what the transaction saw. *)
Theorem string_update_correct val offset n pos p (on : bool) :
  command_ok -> can_log sess ks -> string_here -> zlen (old_value found ++ val) < 2 ^ 62 -> val <> [] ->
  stoll offset = Ret n -> 0 <= n < 2 ^ 32 -> n + zlen val <= 512 * 1024 * 1024 -> stoul pos = Ret p -> 0 <= p < 8 * (512 * 1024 * 1024) ->
  let old := old_value found in
  let keeps v := updates v (old_ttl found) (old_cas found) in
  keeps (old ++ val) (Command_fmtLongLong (zlen (old ++ val))) (append val w) /\
  (exists v, zlen v = Z.max (zlen old) (n + zlen val) /\
     (forall i, 0 <= i -> byte_or_0 v i = if (n <=? i) && (i <? n + zlen val) then byte_or_0 val (i - n) else byte_or_0 old i) /\
     keeps v (Command_fmtLongLong (zlen v)) (setrange offset val w)) /\
  (exists v, zlen v = Z.max (zlen old) (p / 8 + 1) /\ (forall q, 0 <= q -> bit_at v q = if q =? p then on else bit_at old q) /\
     keeps v (if bit_at old p then Command_fmtOne else Command_fmtZero) (setbit pos (if on then lit "1" else lit "0") w)) /\
  updates val 0 (old_cas found) (if zlen old =? 0 then Command_fmtNull else Command_fmtBulk old) (getset val w).
Proof.
  intros Hc Hlog Hs Hv Hne Eo Hn Hl Ep Hp old keeps. assert (u32 n = n) as Eu by by apply wrap_id. split_and!.
  - by apply append_ok.
  - pose proof (setrange_ok offset n val Hc Hlog Hs Eo (proj1 Hn)) as Hu. rewrite Eu in Hu. destruct (set_range old n val (proj1 Hn)) as [E1 E2].
    eexists. split; [exact E1|]. split; [exact E2|]. by apply Hu.
  - destruct (set_bit old p on (proj1 Hp)) as [E1 E2]. eexists. split; [exact E1|]. split; [exact E2|]. by apply setbit_ok.
  - apply getset_ok; [done|done|done|]. rewrite zlen_app in Hv. pose proof (zlen_nonneg (old_value found)). lia.
Qed.

(** ** Counters *)

#[local] Abbreviation incrby := (Incrby_run cfg sess now currentTs srv multi chunkOf pk).
#[local] Abbreviation incr := (Incr_run cfg sess now currentTs srv multi chunkOf pk).
#[local] Abbreviation decrby := (Decrby_run cfg sess now currentTs srv multi chunkOf pk).
#[local] Abbreviation decr := (Decr_run cfg sess now currentTs srv multi chunkOf pk).
#[local] Abbreviation increx := (Increx_run cfg sess now currentTs srv multi chunkOf pk).

(** The counter goes from [n] to [n + d], or the sum does not fit. *)
Definition counts (n d ttl : Z) (result : M (World (T := T) * M bytes)) : Prop :=
  if bool_decide (is_s64 (n + d)) then updates (to_string (n + d)) ttl (old_cas found) (Command_fmtLongLong (n + d)) result else fails ERR_OVERFLOW result.

Lemma counter_run newValue n d ttl : command_ok -> can_log sess ks -> string_here -> counter = Ret n -> is_s64 d -> is_u64 ttl ->
  newValue found = (s ← IncrDecr_sumIncr found d; Ret (new_string (to_string s) ttl)) ->
  counts n d ttl (IncrDecr_run cfg sess now currentTs srv multi chunkOf newValue pk w).
Proof.
  intros Hc Hlog Hs Ec Hd Ht En. rewrite (sum_ok n d Ec Hd) in En. unfold counts, IncrDecr_run. destruct (bool_decide (is_s64 (n + d))) eqn:Eb.
  - apply bool_decide_eq_true in Eb. rewrite bind_Ret in En. apply update_string; [done|done|done|done|by apply zlen_to_string_s64|done|].
    destruct (new_string_ok (to_string (n + d)) ttl Hs) as (_ & -> & _). by rewrite stoll_to_string.
  - by apply (update_error _ _ _ _ (lit "increment or decrement would overflow")).
Qed.

(** C19: INCRBY, INCR, DECRBY and DECR change a counter, which starts from 0, by their amount when
    the sum is a 64-bit number: the value is its decimal form, the reply the number, and the time to
    live stays. A sum that does not fit is an error and nothing changes. INCREX counts up by one and
    sets the time to live of a counter that has none. DECRBY of the smallest number negates it,
    which is undefined. The database accepts the commit, and the store holds afterwards what the
    transaction saw. *)
Theorem counter_correct n val inc secs s :
  command_ok -> can_log sess ks -> string_here -> counter = Ret n -> string2ll val = Some inc -> stoll secs = Ret s -> LLONG_MIN <= s * 1000 <= LLONG_MAX ->
  let ttl := old_ttl found in
  counts n inc ttl (incrby val w) /\ counts n 1 ttl (incr w) /\ counts n (-1) ttl (decr w) /\
  (if bool_decide (inc = LLONG_MIN) then decrby val w = Crash CUndefined else counts n (- inc) ttl (decrby val w)) /\
  counts n 1 (if ttl =? 0 then u64 (s * 1000 + currentTs) else ttl) (increx secs w).
Proof.
  intros Hc Hlog Hs Ec Ei Es Hr ttl. pose proof (old_ttl_u64 Hs) as Ht. apply string2ll_sound in Ei as Hi. destruct Hi as [Hi _].
  assert (int_arg val = Ret inc) as Ea by (unfold int_arg; by rewrite Ei).
  assert (forall m d, m = Ret d -> incr_value sess m found = (s ← IncrDecr_sumIncr found d; Ret (new_string (to_string s) ttl))) as En.
  { intros m d ->. unfold incr_value. rewrite bind_Ret. destruct (IncrDecr_sumIncr found d) as [x| |]; [|done|done]. rewrite !bind_Ret. fold ttl. by destruct (new_string_ok (to_string x) ttl Hs) as (-> & _). }
  split_and!.
  - apply counter_run; [done..|]. by apply En.
  - apply counter_run; [done..|]. by apply En.
  - apply counter_run; [done..|]. by apply En.
  - destruct (bool_decide (inc = LLONG_MIN)) eqn:Eb; [apply bool_decide_eq_true in Eb; subst inc|apply bool_decide_eq_false in Eb].
    + destruct (string_open Hc Hs) as (ks0 & ks1 & tx & Er & (o & Eo) & Eq & _). unfold Decrby_run, IncrDecr_run, reply_of, GetSetGeneral_runGeneral. rewrite Er, bind_Ret, Eo. cbn [or_return].
      unfold RETRY_CNT. cbn [retry]. unfold GetSetGeneral_round. rewrite Eq, bind_Ret. unfold incr_value. by rewrite Ea, bind_Ret.
    + apply counter_run; [done..| |done|]; [unfold is_s in *; unfold LLONG_MIN in Eb; lia|]. apply En. rewrite Ea, bind_Ret. by rewrite (proj2 (Z.eqb_neq _ _) Eb).
  - apply counter_run; [done..| |]; [destruct (ttl =? 0); [apply Z.mod_pos_bound; done|done]|]. rewrite Es, bind_Ret. destruct (IncrDecr_sumIncr found 1) as [x| |]; [|done|done].
    rewrite !bind_Ret, mul_s64_ok, bind_Ret by done. fold ttl. by destruct (new_string_ok (to_string x) (if ttl =? 0 then u64 (s * 1000 + currentTs) else ttl) Hs) as (-> & _).
Qed.

End Commands.

(** * An example *)

#[local] Instance kv_build : BuildMode := true.

Definition demo_kset : SessionCtx := mkSess 0 MAXU64 false (lit "set").
Definition demo_kv (v : bytes) : RecordValue := RecordValue_new v RT_KV MAXU64 0 (-1) 0 MAXU64.

(** The sets of the other example, with the strings [k], which is [abc], and [n], which is [41]. *)
Definition demo_kdb : MemDB := put_record (demo_sub RT_KV (lit "k") []) (demo_kv (lit "abc")) (put_record (demo_sub RT_KV (lit "n") []) (demo_kv (lit "41")) demo_sdb).

Lemma demo_kdb_tidy : tidy demo_kdb.
Proof.
  unfold demo_kdb. repeat (apply put_record_tidy; [|by apply RecordKey_wf_new|by apply (bool_decide_unpack _)|by split_and!; (done || (unfold is_u, MAXU64; cbn; lia))]).
  exact demo_sdb_tidy.
Qed.

Lemma demo_kcommand pk : x00 ∉ pk -> zlen pk < 2 ^ 61 -> command_ok demo_cfg demo_kset (demo_schunk pk) pk demo_store ∅ ∅ demo_kdb.
Proof. intros Hn Hl. split; [done|done|done|done|done|done|exact demo_store_inv|done|exact demo_kdb_tidy|vm_compute; reflexivity]. Qed.

Lemma demo_klog : can_log demo_kset demo_store.
Proof. by split; [split|]. Qed.

Lemma demo_kfound pk v : found demo_cfg demo_kset demo_schunk pk demo_kdb = Ret (demo_kv v) -> zlen v < 2 ^ 62 -> string_here demo_cfg demo_kset 3 demo_params None demo_schunk pk demo_kdb.
Proof. intros E Hv. unfold string_here. rewrite E. split; [|by split_and!]. split_and!; (done || (unfold is_u, MAXU64; cbn; lia)). Qed.

Lemma demo_here_k : string_here demo_cfg demo_kset 3 demo_params None demo_schunk (lit "k") demo_kdb.
Proof. by apply (demo_kfound _ (lit "abc")); [vm_compute|]. Qed.

Lemma demo_here_n : string_here demo_cfg demo_kset 3 demo_params None demo_schunk (lit "n") demo_kdb.
Proof. by apply (demo_kfound _ (lit "41")); [vm_compute|]. Qed.


Lemma string_update_correct_witness :
  updates demo_cfg demo_kset demo_schunk (lit "k") demo_kdb (lit "abcxy") 0 (-1) (Command_fmtLongLong 5)
    (Append_run demo_cfg demo_kset 0 3 demo_params None demo_schunk (lit "k") (lit "xy") (mkWorld demo_store demo_kdb None)).
Proof.
  refine (proj1 (string_update_correct demo_cfg demo_kset 0 3 demo_params None demo_schunk (lit "k") demo_store ∅ ∅ demo_kdb (lit "xy") (lit "1") 1 (lit "7") 7 true _ demo_klog demo_here_k _ _ _ _ _ _ _)).
  - apply demo_kcommand; [by apply (bool_decide_unpack _)|reflexivity].
  - vm_compute. reflexivity.
  - discriminate.
  - vm_compute. reflexivity.
  - split; [discriminate|reflexivity].
  - vm_compute. discriminate.
  - vm_compute. reflexivity.
  - split; [discriminate|reflexivity].
Defined.

Lemma counter_correct_witness :
  counts demo_cfg demo_kset demo_schunk (lit "n") demo_kdb 41 1 0 (Incr_run demo_cfg demo_kset 0 3 demo_params None demo_schunk (lit "n") (mkWorld demo_store demo_kdb None)).
Proof.
  refine (proj1 (proj2 (counter_correct demo_cfg demo_kset 0 3 demo_params None demo_schunk (lit "n") demo_store ∅ ∅ demo_kdb 41 (lit "-5") (-5) (lit "2") 2 _ demo_klog demo_here_n _ _ _ _))).
  - apply demo_kcommand; [by apply (bool_decide_unpack _)|reflexivity].
  - vm_compute. reflexivity.
  - vm_compute. reflexivity.
  - vm_compute. reflexivity.
  - split; vm_compute; discriminate.
Defined.
