(* ===== verification/KvRead.v ===== *)
(** What the commands of strings (commands/kv.cpp) that only read one key promise. *)

From Stdlib Require Import Strings.Byte ZArith Lia.
From stdpp Require Import base list numbers strings gmap.
From S2P Require Import Prelude Status Varint Strings Number Record RecordValue RecordMeta ReplLog BinlogSeq Txn Store Replicate Cursor Command Elems Keys KeysSpec KeysDel Named Bits Hash Members MembersCmd MembersMulti Kv KvBits KvSpec.

Local Open Scope Z_scope.

(** The places from [s] to [e] of a string, which count from its end when they are negative. *)
Definition from_place (v : bytes) (s : Z) : Z := Z.max 0 (if s <? 0 then zlen v + s else s).
Definition to_place (v : bytes) (e : Z) : Z := Z.min (zlen v - 1) (Z.max 0 (if e <? 0 then zlen v + e else e)).
Definition string_window (v : bytes) (s e : Z) : bytes := ztake (to_place v e - from_place v s + 1) (zdrop (from_place v s) v).

Lemma string_range_places v s e : string_range (zlen v) s e = (from_place v s, to_place v e).
Proof.
  unfold string_range, from_place, to_place. f_equal.
  - destruct (Z.ltb_spec s 0); [destruct (Z.ltb_spec (zlen v + s) 0)|rewrite (proj2 (Z.ltb_ge s 0)) by lia]; lia.
  - destruct (Z.ltb_spec e 0); [destruct (Z.ltb_spec (zlen v + e) 0)|rewrite (proj2 (Z.ltb_ge e 0)) by lia]; [..|]; match goal with |- (if ?a <=? ?b then _ else _) = _ => destruct (Z.leb_spec a b) end; lia.
Qed.

Lemma zlen_string_window v s e : from_place v s <= to_place v e -> zlen (string_window v s e) = to_place v e - from_place v s + 1.
Proof. unfold string_window, from_place, to_place. intros Hle. pose proof (zlen_nonneg v). rewrite zlen_take; [done|]. rewrite zlen_drop by lia. lia. Qed.

Lemma window_empty v s e : to_place v e < from_place v s -> string_window v s e = [].
Proof. intros Hlt. unfold string_window. rewrite ztake_take. by replace (Z.to_nat _) with O by lia. Qed.

Lemma window_short v s e : zlen (string_window v s e) <= zlen v.
Proof. destruct (Z.le_gt_cases (from_place v s) (to_place v e)) as [Hl|Hl]; [rewrite zlen_string_window by done; unfold from_place, to_place; lia|rewrite window_empty by done; apply zlen_nonneg]. Qed.

(** The whole string. *)
Lemma window_all v : string_window v 0 (zlen v - 1) = v.
Proof.
  pose proof (zlen_nonneg v). destruct (decide (zlen v = 0)) as [E|E]; [by destruct v|]. unfold string_window, from_place, to_place. cbn. rewrite (proj2 (Z.ltb_ge (zlen v - 1) 0)) by lia.
  rewrite Z.max_r, Z.min_l, zdrop_0 by lia. apply ztake_all. lia.
Qed.

(** The place of the first bit in the window, counted from the start of the string; [closed] is for a
    window with an end of its own: behind it there are no zeros. *)
Definition first_place (v : bytes) (s e : Z) (closed bit : bool) : Z :=
  let win := string_window v s e in
  let f := first_bit bit (bit_list win) in
  if (f <? 8 * zlen win) || (negb closed && negb bit && (0 <? zlen win)) then 8 * from_place v s + f else -1.

Section Reads.
Context {BM : BuildMode} {T : Type} `{RocksIterLaws T} {HL : RocksDBLaws T} {HH : RocksDBHealthy T} {HI : RocksIterHealthy T}.
Variable cfg : StoreCfg.
Variable sess : SessionCtx.
Variables (now currentTs : Z) (srv : ServerParams) (multi : option Z) (chunkOf : bytes -> Z).
Variables (ks : RocksKVStore) (live : gmap Z Z) (dur : gset Z) (db : T).
Variable addr : Z.
Variable pk : bytes.

#[local] Abbreviation command_ok := (command_ok cfg sess (chunkOf pk) pk ks live dur db).
#[local] Abbreviation found := (found cfg sess chunkOf pk db).
#[local] Abbreviation string_here := (string_here cfg sess currentTs srv multi chunkOf pk db).
#[local] Abbreviation w := (mkWorld ks db None).
#[local] Abbreviation getValue := (get_value cfg sess now currentTs srv multi chunkOf).
#[local] Abbreviation bitpos := (BitPos_run cfg sess now currentTs srv multi chunkOf addr pk).
#[local] Abbreviation bitcount := (BitCount_run cfg sess now currentTs srv multi chunkOf addr pk).
#[local] Abbreviation getrange := (GetRange_run cfg sess now currentTs srv multi chunkOf pk).
#[local] Abbreviation getbit := (GetBit_run cfg sess now currentTs srv multi chunkOf pk).
#[local] Abbreviation strlen := (Strlen_run cfg sess now currentTs srv multi chunkOf pk).
#[local] Abbreviation get := (Get_run cfg sess now currentTs srv multi chunkOf pk).

(** The value of the key. *)
Definition value : option bytes := match found with Ret v => Some (rv_value v) | _ => None end.

Lemma get_value_ok : command_ok -> string_here -> exists ks0, getValue pk w = Ret (mkWorld ks0 db None, Ret value).
Proof.
  intros Hc Hs. destruct (string_open cfg sess now currentTs srv multi chunkOf pk ks live dur db Hc Hs) as (ks0 & ks1 & tx & Er & (o & Eo) & _). exists ks0.
  unfold get_value, value. rewrite Er, bind_Ret. unfold KvSpec.string_here in Hs. destruct found as [v|c msg|]; [done|subst c; done|done].
Qed.

Lemma first_place_ok v s e closed bit : let a := from_place v s in let b := to_place v e in
  (if b <? a then -1
   else let r := pos_reply bit (string_window v s e) in
        if closed && negb bit && (r =? (b - a + 1) * 8) then -1 else if r =? -1 then r else r + a * 8) = first_place v s e closed bit.
Proof.
  intros a b. unfold first_place, pos_reply. pose proof (first_bit_bound bit (bit_list (string_window v s e))) as Hb. rewrite zlen_bit_list in Hb. fold a. set (f := first_bit _ _) in *.
  destruct (Z.ltb_spec b a) as [Hlt|Hle].
  - assert (zlen (string_window v s e) = 0) as -> by by rewrite window_empty. rewrite (proj2 (Z.ltb_ge f _)) by lia. by rewrite andb_false_r.
  - pose proof (zlen_string_window v s e Hle) as Hz. fold a b in Hz. rewrite <-Hz. rewrite (proj2 (Z.ltb_lt 0 _)) by lia. rewrite andb_true_r. cbv zeta.
    destruct (Z.ltb_spec f (8 * zlen (string_window v s e))).
    + rewrite (proj2 (Z.eqb_neq f _)) by lia. rewrite andb_false_r. rewrite (proj2 (Z.eqb_neq f (zlen (string_window v s e) * 8))) by lia. rewrite andb_false_r. cbn [orb]. rewrite (proj2 (Z.eqb_neq f (-1))) by lia. lia.
    + assert (f = 8 * zlen (string_window v s e)) as -> by lia. rewrite Z.eqb_refl. destruct bit; cbn [andb negb orb]; rewrite ?andb_false_r; [done|]. rewrite andb_true_r.
      destruct closed; cbn [andb negb orb]; [by rewrite (proj2 (Z.eqb_eq (8 * _) _)) by lia|]. rewrite (proj2 (Z.eqb_neq _ (-1))) by lia. lia.
Qed.

Lemma bitpos_ok (bit : bool) s e n m v : command_ok -> string_here -> value = Some v -> stoll s = Ret n -> stoll e = Ret m ->
  answers db (bitpos (if bit then lit "1" else lit "0") [s; e] w) (Command_fmtLongLong (first_place v n m true bit)) /\
  answers db (bitpos (if bit then lit "1" else lit "0") [s] w) (Command_fmtLongLong (first_place v n (zlen v - 1) false bit)) /\
  answers db (bitpos (if bit then lit "1" else lit "0") [] w) (Command_fmtLongLong (first_place v 0 (zlen v - 1) false bit)).
Proof.
  intros Hc Hs Ev Es Ee. destruct (get_value_ok Hc Hs) as [ks0 Eg]. rewrite Ev in Eg.
  assert (forall range a b (closed : bool), (match range with [] => Ret (0, zlen v - 1, false) | [s] => start ← stoll s; let '(a, b) := string_range (zlen v) start (zlen v - 1) in Ret (a, b, false)
      | [s; e] => start ← stoll s; end_ ← stoll e; let '(a, b) := string_range (zlen v) start end_ in Ret (a, b, true) | _ => Throw ERR_PARSEOPT (lit "syntax error") end) =
      Ret (from_place v a, to_place v b, closed) ->
    answers db (bitpos (if bit then lit "1" else lit "0") range w) (Command_fmtLongLong (first_place v a b closed bit))) as Hr.
  { intros range a b closed Er. unfold BitPos_run. replace (if bool_decide (_ = lit "0") then _ else _) with (Ret bit : M bool) by (destruct bit; [rewrite bool_decide_false, bool_decide_true by done|rewrite bool_decide_true by done]; done).
    cbn [or_return]. rewrite Eg, bind_Ret. cbn [or_return]. rewrite Er. cbn [or_return]. rewrite <-first_place_ok. exists (mkWorld ks0 db None). split; [|done].
    destruct (to_place v b <? from_place v a); [done|]. rewrite bitPos_ptr_ok. cbn [or_return]. fold (string_window v a b). by destruct (_ && _). }
  split_and!; apply Hr.
  - by rewrite Es, Ee, !bind_Ret, string_range_places.
  - by rewrite Es, !bind_Ret, string_range_places.
  - do 3 f_equal. unfold to_place. pose proof (zlen_nonneg v). destruct (Z.ltb_spec (zlen v - 1) 0); lia.
Qed.

Lemma getrange_ok s e n m v : command_ok -> string_here -> value = Some v -> stoll s = Ret n -> stoll e = Ret m -> answers db (getrange s e w) (Command_fmtBulk (string_window v n m)).
Proof.
  intros Hc Hs Ev Es Ee. destruct (get_value_ok Hc Hs) as [ks0 Eg]. rewrite Ev in Eg. exists (mkWorld ks0 db None). split; [|done].
  unfold GetRange_run. rewrite Es, Ee, !bind_Ret. cbn [or_return]. rewrite Eg, bind_Ret. cbn [or_return]. rewrite string_range_places. fold (string_window v n m).
  destruct (Z.ltb_spec (to_place v m) (from_place v n)); cbn [orb]; [by rewrite window_empty|]. destruct (Z.eqb_spec (zlen v) 0) as [E|]; [|done].
  pose proof (window_short v n m) as Hw. pose proof (zlen_nonneg (string_window v n m)). destruct (string_window v n m) as [|c l]; [done|]. rewrite zlen_cons in *. pose proof (zlen_nonneg l). lia.
Qed.

Lemma bitcount_ok s e n m v : command_ok -> string_here -> value = Some v -> zlen v < 2 ^ 61 -> stoll s = Ret n -> stoll e = Ret m ->
  answers db (bitcount [s; e] w) (Command_fmtLongLong (if (m <? n) && (n <? 0) then 0 else bit_count (string_window v n m))) /\
  answers db (bitcount [] w) (Command_fmtLongLong (bit_count v)).
Proof.
  intros Hc Hs Ev Hv Es Ee. destruct (get_value_ok Hc Hs) as [ks0 Eg]. rewrite Ev in Eg.
  assert (forall a b, (if to_place v b <? from_place v a then Command_fmtZero else
      Command_fmtLongLong (popCount_ptr (addr + from_place v a) (string_window v a b))) = Command_fmtLongLong (bit_count (string_window v a b))) as Hp.
  { intros a b. destruct (Z.ltb_spec (to_place v b) (from_place v a)); [by rewrite window_empty|]. rewrite popCount_ptr_ok; [done|]. pose proof (window_short v a b). lia. }
  split; exists (mkWorld ks0 db None); (split; [|done]); unfold BitCount_run; rewrite Eg, bind_Ret; cbn [or_return].
  - rewrite Es, Ee, !bind_Ret. replace ((n <? 0) && (m <? 0) && (m <? n)) with ((m <? n) && (n <? 0)) by (destruct (Z.ltb_spec n 0), (Z.ltb_spec m 0), (Z.ltb_spec m n); (done || lia)).
    destruct (_ && _); [done|]. cbn [or_return]. rewrite string_range_places, <-Hp. fold (string_window v n m). by destruct (_ <? _).
  - destruct (Z.eqb_spec (zlen v) 0) as [E|E]; [by destruct v|]. pose proof (zlen_nonneg v). rewrite (proj2 (Z.ltb_ge _ 0)) by lia.
    by rewrite zdrop_0, ztake_all, popCount_ptr_ok by lia.
Qed.

Lemma getbit_ok pos p v : command_ok -> string_here -> value = Some v -> stoul pos = Ret p -> 0 <= p < 8 * (512 * 1024 * 1024) ->
  answers db (getbit pos w) (if bit_at v p then Command_fmtOne else Command_fmtZero).
Proof.
  intros Hc Hs Ev Ep Hp. destruct (get_value_ok Hc Hs) as [ks0 Eg]. rewrite Ev in Eg. exists (mkWorld ks0 db None). split; [|done].
  assert (p / 8 < 512 * 1024 * 1024) as Hq by (apply Z.div_lt_upper_bound; lia). pose proof (Z.div_pos p 8 ltac:(lia) ltac:(lia)). pose proof (zlen_nonneg v).
  unfold GetBit_run. rewrite Ep, bind_Ret, bit_byte, (proj2 (Z.leb_gt _ _) Hq). cbn [or_return]. rewrite Eg, bind_Ret. cbn [or_return]. rewrite bit_byte.
  destruct (Z.ltb_spec (zlen v) (p / 8)) as [Hl|Hl].
  - rewrite (bit_at_outside v p); [done|lia|].  pose proof (Z.mul_div_le p 8 ltac:(lia)). lia.
  - rewrite (bit_at_ext _ v); [done|lia|]. rewrite byte_app by done. destruct (Z.ltb_spec (p / 8) (zlen v)); [done|].
    rewrite (byte_outside v) by lia. by replace (p / 8 - zlen v) with 0 by lia.
Qed.

Lemma get_strlen_ok : command_ok -> string_here ->
  answers db (get w) (match value with Some v => Command_fmtBulk v | None => Command_fmtNull end) /\
  answers db (strlen w) (match value with Some v => Command_fmtLongLong (zlen v) | None => Command_fmtZero end).
Proof.
  intros Hc Hs. split.
  - destruct (string_open cfg sess now currentTs srv multi chunkOf pk ks live dur db Hc Hs) as (ks0 & ks1 & tx & Er & _). exists (mkWorld ks0 db None). split; [|done].
    unfold Get_run, value. rewrite Er, bind_Ret. unfold KvSpec.string_here in Hs. destruct found as [v|c msg|]; [done|subst c; done|done].
  - destruct (get_value_ok Hc Hs) as [ks0 Eg]. exists (mkWorld ks0 db None). split; [|done]. unfold Strlen_run. by rewrite Eg.
Qed.

(** C20: the commands that read a string answer from its value and change nothing. GET and STRLEN give
    the value and its length, GETRANGE the bytes between two places that may count from the end, and
    GETBIT a bit, zero behind the end. BITCOUNT, which counts words at a time from any address, is the
    number of ones between the places, and BITPOS is the place of the first bit with the value sought
    between them: -1 when there is none, and for a zero in a range without an end of its own the place
    behind the string. A key that is missing counts as an empty string, with null for GET. *)
Theorem string_reads_correct s e n m pos p (bit : bool) :
  command_ok -> string_here -> stoll s = Ret n -> stoll e = Ret m -> stoul pos = Ret p -> 0 <= p < 8 * (512 * 1024 * 1024) ->
  (forall v, value = Some v -> zlen v < 2 ^ 61) ->
  let v := match value with Some v => v | None => [] end in
  let bit_arg := if bit then lit "1" else lit "0" in
  answers db (get w) (match value with Some v => Command_fmtBulk v | None => Command_fmtNull end) /\
  answers db (strlen w) (Command_fmtLongLong (zlen v)) /\
  answers db (getrange s e w) (Command_fmtBulk (string_window v n m)) /\
  answers db (getbit pos w) (if bit_at v p then Command_fmtOne else Command_fmtZero) /\
  answers db (bitcount [s; e] w) (Command_fmtLongLong (if (m <? n) && (n <? 0) then 0 else bit_count (string_window v n m))) /\
  answers db (bitcount [] w) (Command_fmtLongLong (bit_count v)) /\
  (value <> None -> answers db (bitpos bit_arg [s; e] w) (Command_fmtLongLong (first_place v n m true bit)) /\
                    answers db (bitpos bit_arg [s] w) (Command_fmtLongLong (first_place v n (zlen v - 1) false bit)) /\
                    answers db (bitpos bit_arg [] w) (Command_fmtLongLong (first_place v 0 (zlen v - 1) false bit))) /\
  (value = None -> forall range, answers db (bitpos bit_arg range w) (Command_fmtLongLong (if bit then -1 else 0))).
Proof.
  intros Hc Hs Es Ee Ep Hp Hv v bit_arg. destruct (get_strlen_ok Hc Hs) as [Hg Hl]. split; [done|]. destruct (get_value_ok Hc Hs) as [ks0 Eg]. subst v. destruct value as [v|] eqn:Ev.
  - split; [done|]. split; [by apply getrange_ok|]. split; [by apply getbit_ok|]. destruct (bitcount_ok s e n m v Hc Hs Ev (Hv v eq_refl) Es Ee) as [H1' H2'].
    split; [done|]. split; [done|]. split; [|done]. intros _. by apply bitpos_ok.
  - assert (forall a b, string_window [] a b = []) as Hw by (intros a b; pose proof (window_short [] a b) as Hz; destruct (string_window [] a b) as [|c l]; [done|]; rewrite zlen_cons in Hz; pose proof (zlen_nonneg l); change (zlen []) with 0 in Hz; lia).
    rewrite Hw, bit_at_outside by (change (zlen []) with 0; lia). replace (bit_count []) with 0 by done. replace (if (m <? n) && (n <? 0) then 0 else 0) with 0 by (by destruct (_ && _)).
    split; [done|]. unfold GetRange_run, GetBit_run, BitCount_run, BitPos_run. rewrite Es, Ee, Ep, !bind_Ret, bit_byte. cbn [or_return].
    assert (p / 8 < 512 * 1024 * 1024) as Hq by (apply Z.div_lt_upper_bound; lia). rewrite (proj2 (Z.leb_gt _ _) Hq). cbn [or_return]. rewrite Eg, !bind_Ret. cbn [or_return].
    split_and!; try (by exists (mkWorld ks0 db None)); [done|]. intros _ range. exists (mkWorld ks0 db None). split; [|done]. subst bit_arg.
    destruct bit; [rewrite bool_decide_false, bool_decide_true by done|rewrite bool_decide_true by done]; done.
Qed.

End Reads.

(** * An example *)

#[local] Instance kvread_build : BuildMode := true.

Lemma string_reads_correct_witness :
  answers demo_kdb (GetRange_run demo_cfg demo_kset 0 3 demo_params None demo_schunk (lit "k") (lit "-2") (lit "9") (mkWorld demo_store demo_kdb None)) (Command_fmtBulk (lit "bc")).
Proof.
  refine (proj1 (proj2 (proj2 (string_reads_correct demo_cfg demo_kset 0 3 demo_params None demo_schunk demo_store ∅ ∅ demo_kdb 0 (lit "k") (lit "-2") (lit "9") (-2) 9 (lit "5") 5 true _ demo_here_k _ _ _ _ _)))).
  - apply demo_kcommand; [by apply (bool_decide_unpack _)|reflexivity].
  - vm_compute. reflexivity.
  - vm_compute. reflexivity.
  - vm_compute. reflexivity.
  - split; [discriminate|reflexivity].
  - intros v E. assert (v = lit "abc") as -> by (vm_compute in E; by injection E as <-). reflexivity.
Defined.
