(* ===== verification/KvMulti.v ===== *)
(** What the commands of several strings (commands/kv.cpp) promise: MGET, BITOP, MSET and MSETNX. *)

From Stdlib Require Import Strings.Byte ZArith Lia.
From stdpp Require Import base list numbers strings gmap.
From S2P Require Import Prelude Status Varint Strings Number Record RecordValue RecordMeta ReplLog BinlogSeq Txn Store Replicate Cursor Command Elems Keys KeysSpec KeysDel Named Hash Members MembersCmd MembersMulti MembersStore Kv KvBits KvSpec KvRead.

Local Open Scope Z_scope.

(** The store keeps the log of the commands of this file. *)
#[local] Instance strings_logging : Logging := true.

Section Multi.
Context {BM : BuildMode} {T : Type} `{RocksIterLaws T} {HL : RocksDBLaws T} {HH : RocksDBHealthy T} {HI : RocksIterHealthy T} {HC : RocksDBCommits T}.
Variable cfg : StoreCfg.
Variable sess : SessionCtx.
Variables (now currentTs : Z) (srv : ServerParams) (multi : option Z) (chunkOf : bytes -> Z).
Variable memLimit : Z -> M unit.
Variable checkType : bool.
Variables (dur : gset Z) (db : T).
Hypothesis Hmem : forall u, memLimit u = Ret tt.

#[local] Abbreviation reading := (reading dur db).
#[local] Abbreviation key_ok := (key_ok chunkOf).
#[local] Abbreviation found pk := (found cfg sess chunkOf pk db).
#[local] Abbreviation string_here pk := (string_here cfg sess currentTs srv multi chunkOf pk db).
#[local] Abbreviation value := (value cfg sess chunkOf db).
#[local] Abbreviation readMeta pk := (read_meta cfg now srv sess multi (chunkOf pk) currentTs RT_KV pk).

Hypothesis Hso : store_ok cfg sess db.
Hypothesis Hlh : log_header sess.

Lemma reading_found n w pk : 0 <= n -> reading (n + 1) w -> key_ok pk -> string_here pk ->
  exists w', readMeta pk w = Ret (w', found pk) /\ reading n w' /\ w_txn w' = w_txn w.
Proof.
  intros Hn Hw Hk Hs. apply reading_read; [done|done|done|done|done|done|]. unfold KvSpec.string_here in Hs. destruct (found pk) as [v| |]; [|done|done]. apply live_verdict, Hs.
Qed.

Lemma reading_value n w pk : 0 <= n -> reading (n + 1) w -> key_ok pk -> string_here pk ->
  exists w', get_value cfg sess now currentTs srv multi chunkOf pk w = Ret (w', Ret (value pk)) /\ reading n w' /\ w_txn w' = w_txn w.
Proof.
  intros Hn Hw Hk Hs. destruct (reading_found n w pk Hn Hw Hk Hs) as (w' & E & Hr & Et). exists w'. split; [|done]. unfold get_value, KvRead.value. rewrite E, bind_Ret.
  unfold KvSpec.string_here in Hs. destruct (found pk) as [v|c msg|]; [done|by subst c|done].
Qed.

(** A command in the middle, which has not opened a transaction, goes on like one that starts. *)
Lemma reading_command pk w : reading 1 w -> w_txn w = None -> key_ok pk -> 
  exists ks live, w = mkWorld ks db None /\ command_ok cfg sess (chunkOf pk) pk ks live dur db /\ can_log sess ks.
Proof.
  intros (Edb & (live & Hi & Hlg) & Hn & _) Et [Hpk Hch]. exists (w_store w), live. split; [destruct w; cbn in *; by subst|]. split; [destruct Hso; by split; try done; lia|]. split; [done|]. by apply Hlg.
Qed.

(** ** MGET *)

(** The keys hold strings that have not expired, or nothing. *)
Definition strings_here (keys : list bytes) : Prop := Forall (fun key => key_ok key /\ string_here key) keys.

Definition bulk_or_null (o : option bytes) : bytes := match o with Some v => Command_fmtBulk v | None => Command_fmtNull end.

Lemma mget_loop_ok keys : forall n used ss w, 0 <= n -> strings_here keys -> reading (n + zlen keys) w ->
  exists w', mget_loop cfg sess now currentTs srv multi chunkOf memLimit keys used ss w = Ret (w', Ret (ss ++ concat (map (fun key => bulk_or_null (value key)) keys))) /\ w_db w' = db.
Proof.
  induction keys as [|key keys IH]; intros n used ss w Hn Hs Hw; cbn [mget_loop map concat].
  - exists w. rewrite app_nil_r. split; [done|apply Hw].
  - inversion Hs as [|? ? [Hk Hh] Hs']; subst. rewrite zlen_cons in Hw. destruct (reading_found (n + zlen keys) w key) as (w1 & E & Hr & _); [pose proof (zlen_nonneg keys); lia|by replace (n + zlen keys + 1) with (n + (1 + zlen keys)) by lia|done|done|].
    rewrite E, bind_Ret. unfold KvRead.value at 1. unfold KvSpec.string_here in Hh. rewrite app_assoc. destruct (found key) as [v|c msg|]; [|subst c|done]; cbn [or_return bulk_or_null].
    + unfold charge. rewrite Hmem, bind_Ret. cbn [or_return]. by apply (IH n).
    + by apply (IH n).
Qed.

(** ** BITOP *)

Definition value_or_empty (key : bytes) : bytes := match value key with Some v => v | None => [] end.

Lemma bitop_vals_ok keys : forall n w, 0 <= n -> strings_here keys -> reading (n + zlen keys) w ->
  exists w', bitop_vals cfg sess now currentTs srv multi chunkOf keys w = Ret (w', Ret (map value_or_empty keys)) /\ reading n w' /\ w_txn w' = w_txn w.
Proof.
  induction keys as [|key keys IH]; intros n w Hn Hs Hw; cbn [bitop_vals map].
  - exists w. split; [done|]. split; [|done]. apply (reading_weaken dur db _ n w Hw). change (zlen []) with 0. lia.
  - inversion Hs as [|? ? [Hk Hh] Hs']; subst. rewrite zlen_cons in Hw. destruct (reading_value (n + zlen keys) w key) as (w1 & E & Hr & Et); [pose proof (zlen_nonneg keys); lia|by replace (n + zlen keys + 1) with (n + (1 + zlen keys)) by lia|done|done|].
    rewrite E, bind_Ret. cbn [or_return]. destruct (IH n w1 Hn Hs' Hr) as (w2 & -> & Hr2 & Et2). rewrite bind_Ret. cbn [or_return]. exists w2. split; [done|]. split; [done|]. congruence.
Qed.

Lemma delKey_absent pk tp ks (tx : RocksTxn T) msg : RocksKVStore_getKV cfg (whole_key (chunkOf pk) (sc_dbId sess) pk tp) tx = Throw ERR_NOTFOUND msg ->
  Command_delKey cfg now srv sess (chunkOf pk) pk tp ks db tx = Ret (ks, db, Ret tx).
Proof. intros E. unfold Command_delKey, RETRY_CNT. cbn [delKey_rounds]. fold (whole_key (chunkOf pk) (sc_dbId sess) pk tp). by rewrite E. Qed.

(** What is left of a key that a command deletes. *)
Definition deleted (pk : bytes) (tx tx' : RocksTxn T) : Prop :=
  match found pk with
  | Ret v => key_gone (chunkOf pk) (sc_dbId sess) pk (ele_list (rv_type v)) (kv_key sess chunkOf pk)
               (index_keys (if 0 <? rv_ttl v then Some (mkTTLIndex pk (rv_type v) (sc_dbId sess) (rv_ttl v)) else None)) tx tx'
  | _ => tx' = tx
  end.

Lemma bitop_delete dest w : reading 1 w -> key_ok dest -> old_record sess srv chunkOf dest (found dest) ->
  exists ks1 tx tx', open_read sess w = Ret (mkWorld ks1 db (Some tx), tx) /\ tx_db tx = db /\ deleted dest tx tx' /\ opened (mkWorld ks1 db (Some tx)) tx /\ kept tx tx' /\ writable tx' /\
    Command_delKey cfg now srv sess (chunkOf dest) dest RT_KV ks1 db tx = Ret (ks1, db, Ret tx').
Proof.
  intros Hw Hk Ho. destruct (reading_open cfg sess dur db Hso 0 w ltac:(lia) Hw) as (w1 & tx & E & Hr1 & Et & Hwr & Edb). pose proof (reading_opened dur db 0 w1 tx eq_refl Hr1 Et) as Hop. pose proof (proj1 Hr1) as Edb1. pose proof Hk as [Hpk Hch]. pose proof Hso as [Hcat Hdb Hep Hro Htd Hsz].
  assert (w1 = mkWorld (w_store w1) db (Some tx)) as Ew by (destruct w1; cbn in *; by subst). exists (w_store w1), tx.
  assert (RocksKVStore_getKV cfg (whole_key (chunkOf dest) (sc_dbId sess) dest RT_KV) tx = found dest) as Ef by by apply getKV_same.
  unfold deleted. destruct (found dest) as [v|c msg|]; [|cbn in Ho; subst c|done].
  - destruct Ho as (Hwf & Hm & cnt & Hcnt & Huse).
    destruct (delKey_ok cfg Hcat now srv sess (chunkOf dest) dest Hpk Hch Hdb RT_KV (w_store w1) db tx v cnt) as (tx' & E' & Hg); [by rewrite Edb|done|by rewrite Edb|done..|].
    exists tx'. rewrite <-Ew. pose proof Hg as (Hw' & Hkp & _). by split_and!.
  - exists tx. rewrite <-Ew. do 6 (split; [done|]). by apply (delKey_absent dest RT_KV (w_store w1) tx msg).
Qed.

#[local] Abbreviation bitop := (Bitop_run cfg sess now currentTs srv multi chunkOf checkType).
#[local] Abbreviation mget := (MGet_run cfg sess now currentTs srv multi chunkOf memLimit).

(** C21: BITOP stores under its key a string as long as the longest source, every bit of which is the
    conjunction, disjunction, exclusive or or negation of the bits of the sources at that place, where
    a missing key and the places behind a value are zeros, and answers with its length. When all sources
    are empty, it deletes the key instead and answers zero. The database accepts the commit, and the
    store holds afterwards what the transaction saw. MGET of the same keys answers with their
    values in order, null for the missing ones. *)
Theorem bitop_correct opName op dest keys w :
  bitop_name opName = Ret op -> (op = BITOP_NOT -> zlen keys = 1) -> keys <> [] -> strings_here keys -> reading (zlen keys + 2) w -> w_txn w = None ->
  key_ok dest -> old_record sess srv chunkOf dest (found dest) ->
  let vals := map value_or_empty keys in
  (max_len vals <> 0 -> exists s, zlen s = max_len vals /\ (forall p, 0 <= p < 8 * max_len vals -> bit_at s p = bit_op op (map (fun v => bit_at v p) vals)) /\
     sets cfg sess currentTs chunkOf checkType dest db 0 (kv_record sess s 0) (Command_fmtLongLong (zlen s)) Command_fmtNull (bitop opName dest keys w)) /\
  (max_len vals = 0 -> exists tx tx', tx_db tx = db /\ deleted dest tx tx' /\ commits tx' Command_fmtZero (bitop opName dest keys w)) /\
  answers db (mget keys w) (Command_fmtMultiBulkLen [] (zlen keys) ++ concat (map (fun key => bulk_or_null (value key)) keys)).
Proof.
  intros En Hnot Hne Hs Hw Et Hk Ho vals.
  assert (bool_decide (op = BITOP_NOT) && negb (zlen keys =? 1) = false) as Eg by (destruct (decide (op = BITOP_NOT)) as [E|E]; [rewrite (Hnot E); by rewrite andb_false_r|by rewrite bool_decide_false]).
  split; [|split].
  - intros Hm. assert (vals <> []) as Hv by (by destruct keys). destruct (bitop_value op vals Hv) as (s & Es & El & Hb); [intros E; subst vals; rewrite zlen_map; by apply Hnot|].
    exists s. split; [done|]. split; [done|]. destruct (bitop_vals_ok keys 2 w ltac:(lia) Hs ltac:(by rewrite Z.add_comm)) as (w1 & Ev & Hr & Et1).
    unfold Bitop_run. rewrite En, bind_Ret, Eg.
    cbn [or_return]. rewrite Ev, bind_Ret. cbn [or_return]. fold vals. rewrite (proj2 (Z.eqb_neq _ _) Hm), Es, bind_Ret.
    destruct (reading_command dest w1 (reading_weaken dur db 2 1 w1 Hr ltac:(lia)) ltac:(congruence) Hk) as (ks & live & -> & Hc & Hlog).
    assert (zlen s < 2 ^ 62) as Hl.
    { rewrite El. destruct (max_len_spec vals) as (_ & [E|(v & Hin & <-)] & _); [lia|]. apply list_elem_of_fmap in Hin as (key & -> & Hin). unfold strings_here in Hs. rewrite Forall_forall in Hs.
      destruct (Hs key Hin) as [_ Hh]. unfold KvSpec.string_here in Hh. unfold value_or_empty, KvRead.value. destruct (found key); [apply Hh|done|done]. }
    pose proof (set_rounds cfg sess now currentTs srv chunkOf checkType dest ks live dur db 0 (kv_record sess s 0) (Command_fmtLongLong (zlen s)) [] Hc Hlog Ho) as Hsets.
    rewrite bool_decide_false in Hsets by done. apply Hsets. apply kv_record_wf; [apply Hso|done|done].
  - intros Hm. destruct (bitop_vals_ok keys 2 w ltac:(lia) Hs ltac:(by rewrite Z.add_comm)) as (w1 & Ev & Hr & Et1).
    destruct (bitop_delete dest w1 (reading_weaken dur db 2 1 w1 Hr ltac:(lia)) Hk Ho) as (ks1 & tx & tx' & Eo & Edb & Hd & Hop & Hkp & Hw' & Edel). exists tx, tx'. split; [done|]. split; [done|].
    unfold Bitop_run. rewrite En, bind_Ret, Eg.
    cbn [or_return]. rewrite Ev, bind_Ret. cbn [or_return]. fold vals. rewrite Hm, Eo, bind_Ret. cbn [w_store w_db Z.eqb]. rewrite Edel, bind_Ret. cbn [or_return w_txn]. by apply (commit_commits cfg sess Hlh _ tx).
  - destruct (mget_loop_ok keys 2 0 (Command_fmtMultiBulkLen [] (zlen keys)) w ltac:(lia) Hs ltac:(by rewrite Z.add_comm)) as (w' & E & Edb). by exists w'.
Qed.

(** ** MSET and MSETNX *)

(** The commit of the transaction, on a database that may refuse it. *)
Lemma commitAll_outcome w (tx tx' : RocksTxn T) : opened w tx -> kept tx tx' -> writable tx' ->
  exists w2 r, SessionCtx_commitAll cfg sess w tx' = Ret (w2, _ ← r; Ret tt) /\ w_txn w2 = None /\ commit_outcome (w_db w) tx' (w_db w2) r.
Proof.
  intros (_ & Hlog & Hn & live & dur' & Hi & Hl) [Eid Hk] Hw. rewrite <-Eid in Hl. pose proof Hlh as [Hep Hcmd].
  destruct (commit_total cfg (w_store w) live dur' (w_db w) tx' (sc_cmd sess) (sc_versionEP sess) Hi Hl Hn Hw (Hk Hlog) Hcmd Hep) as (ks & db' & r & dur2 & E & _ & Hr).
  exists (mkWorld ks db' None), r. unfold SessionCtx_commitAll. by rewrite E, bind_Ret.
Qed.

(** A read depends on the stored bytes only, up to the message of an error. *)
Definition same_read (r r' : M RecordValue) : Prop := r = r' \/ (exists m m', r = Throw ERR_NOTFOUND m /\ r' = Throw ERR_NOTFOUND m').

Lemma getKV_raw_same k (tx tx' : RocksTxn T) : data_key k -> raw_record tx' k = raw_record tx k -> same_read (RocksKVStore_getKV cfg k tx') (RocksKVStore_getKV cfg k tx).
Proof.
  intros Hk Er. pose proof (getKV_raw cfg k tx Hk) as G1. pose proof (getKV_raw cfg k tx' Hk) as G2. rewrite Er in G2.
  destruct (raw_record tx k); [left; by rewrite G1, G2|]. destruct G1 as [m G1], G2 as [m' G2]. right. by exists m', m.
Qed.

(** The write of a key under which there is no value of another type. *)
Lemma string_write flags pk rv (tx : RocksTxn T) w : key_ok pk -> writable tx -> same_read (RocksKVStore_getKV cfg (kv_key sess chunkOf pk) tx) (found pk) ->
  old_record sess srv chunkOf pk (found pk) -> replaced checkType flags (found pk) = None -> RecordValue_wf rv ->
  if forbidden currentTs flags (found pk) then set_write cfg sess now currentTs srv chunkOf flags checkType pk rv tx w = Ret (w, Ret None)
  else exists tx' s, set_write cfg sess now currentTs srv chunkOf flags checkType pk rv tx w = Ret (w, Ret (Some tx')) /\ kept tx tx' /\
    holds cfg sess chunkOf pk tx' rv /\ wrote_record tx tx' (kv_key sess chunkOf pk) (Some s).
Proof.
  intros [Hpk Hch] Hw Hr Ho Hn Hwf. remember (RocksKVStore_getKV _ _ tx) as r eqn:Er.
  assert (old_record sess srv chunkOf pk r /\ replaced checkType flags r = None /\ forbidden currentTs flags r = forbidden currentTs flags (found pk)) as (Ho' & Hn' & Hf).
  { destruct Hr as [->|(m & m' & -> & Ef)]; (split; [|split]); [exact Ho|exact Hn|reflexivity|reflexivity|reflexivity|by rewrite Ef]. }
  unfold set_write. rewrite (set_check_ok cfg sess currentTs srv chunkOf checkType pk flags tx) by by rewrite <-Er. rewrite <-Er, Hf, Hn'. cbn [or_return]. destruct (forbidden currentTs flags (found pk)); [done|].
  rewrite bool_decide_false by (by intros [? ?]). unfold set_clear. rewrite bind_Ret. cbn [or_return].
  destruct (write_string cfg sess now chunkOf pk (so_cat _ _ _ Hso) Hpk Hch (so_db _ _ _ Hso) tx rv Hw Hwf) as (tx' & s & E & Hh & W). rewrite E. exists tx', s.
  split; [done|]. split; [apply (setKV_kept cfg (kv_key sess chunkOf pk) rv tx tx' now E); [|done]; by apply (mk_data sess chunkOf pk Hpk Hch (so_db _ _ _ Hso))|done].
Qed.

(** A key that MSET writes. *)
Definition mset_key (flags : Z) (kv : bytes * bytes) : Prop :=
  key_ok kv.1 /\ zlen kv.2 < 2 ^ 62 /\ old_record sess srv chunkOf kv.1 (found kv.1) /\ replaced checkType flags (found kv.1) = None.

Definition string_stored (kv : bytes * bytes) (tx : RocksTxn T) : Prop := holds cfg sess chunkOf kv.1 tx (kv_record sess kv.2 0).

(** [tx'] is [tx] with all the values. *)
Definition mset_done (kvs : list (bytes * bytes)) (tx tx' : RocksTxn T) : Prop :=
  writable tx' /\ kept tx tx' /\ Forall (fun kv => string_stored kv tx') kvs /\
  forall k, data_key k -> (forall kv, kv ∈ kvs -> ~ RecordKey_equiv k (kv_key sess chunkOf kv.1)) -> raw_record tx' k = raw_record tx k.

Lemma kv_key_data pk : key_ok pk -> data_key (kv_key sess chunkOf pk).
Proof. intros [Hpk Hch]. by apply (mk_data sess chunkOf pk Hpk Hch (so_db _ _ _ Hso)). Qed.

Lemma kv_key_inj a b : RecordKey_equiv (kv_key sess chunkOf a) (kv_key sess chunkOf b) -> a = b.
Proof. by intros (_ & _ & _ & E & _)%RecordKey_equiv_fields. Qed.

Lemma mset_done_cons kv kvs tx tx1 tx' s : key_ok kv.1 -> (kv.1 ∉ map fst kvs) -> string_stored kv tx1 -> kept tx tx1 -> wrote_record tx tx1 (kv_key sess chunkOf kv.1) (Some s) ->
  mset_done kvs tx1 tx' -> mset_done (kv :: kvs) tx tx'.
Proof.
  intros Hk Hni Hst Hid (_ & _ & Hr) (Hw' & Hid' & Hall & Hr'). split; [done|]. split; [by transitivity tx1|]. split.
  - constructor; [|done]. split; [done|]. assert (raw_record tx' (kv_key sess chunkOf kv.1) = raw_record tx1 (kv_key sess chunkOf kv.1)) as Er.
    { apply Hr'; [by apply kv_key_data|]. intros kv' Hin E%kv_key_inj. apply Hni. rewrite E. by apply list_elem_of_fmap_2. }
    destruct (getKV_raw_same _ _ _ (kv_key_data _ Hk) Er) as [->|(m & m' & _ & E)]; [apply Hst|]. rewrite (proj2 Hst) in E. done.
  - intros k Hd Hne. rewrite Hr', Hr; [done|done| |done|]; [apply Hne; by left|]. intros kv' Hin. apply Hne. by right.
Qed.

#[local] Abbreviation msets := (mset_loop cfg sess now currentTs srv chunkOf checkType).

(** A key counts as taken when the flags forbid its write. *)
Definition keys_taken (flags : Z) (kvs : list (bytes * bytes)) : bool := existsb (fun kv => forbidden currentTs flags (found kv.1)) kvs.

Lemma mset_loop_ok flags kvs : forall ks (tx : RocksTxn T), NoDup (map fst kvs) -> Forall (mset_key flags) kvs -> writable tx ->
  (forall kv, kv ∈ kvs -> raw_record tx (kv_key sess chunkOf kv.1) = raw_record (RocksTxn_new 0 false db) (kv_key sess chunkOf kv.1)) ->
  exists tx', msets flags kvs (mkWorld ks db (Some tx)) = Ret (mkWorld ks db (Some tx'), keys_taken flags kvs) /\ tx_txnId tx' = tx_txnId tx /\ tx_done tx' = false /\
    (keys_taken flags kvs = false -> mset_done kvs tx tx').
Proof.
  induction kvs as [|[key val] kvs IH]; intros ks tx Hnd Hall Hw Hraw.
  { exists tx. split; [done|]. split; [done|]. split; [apply Hw|]. intros _. by split_and!. }
  inversion Hnd as [|? ? Hni Hnd']; subst. inversion Hall as [|? ? Hkv Hall']; subst. destruct Hkv as (Hk & Hv & Ho & Hn). cbn [fst snd] in Hk, Hv, Ho, Hn.
  assert (same_read (RocksKVStore_getKV cfg (kv_key sess chunkOf key) tx) (found key)) as Hr.
  { apply getKV_raw_same; [by apply kv_key_data|]. apply (Hraw (key, val)). by left. }
  pose proof (string_write flags key (kv_record sess val 0) tx (mkWorld ks db (Some tx)) Hk Hw Hr Ho Hn (kv_record_wf sess (so_ep _ _ _ Hso) val 0 Hv ltac:(done))) as Hs.
  cbn [mset_loop keys_taken existsb fst]. unfold RETRY_CNT. cbn [retry]. unfold mset_round. cbn [SessionCtx_createTransaction w_txn status_of]. rewrite bind_Ret. unfold txn_access. rewrite (proj1 (proj2 Hw)), bind_Ret.
  destruct (forbidden currentTs flags (found key)) eqn:Ef; cbn [orb].
  - rewrite Hs, !bind_Ret. cbn [or_return]. rewrite bind_Ret. exists tx. split; [done|]. split; [done|]. split; [apply Hw|done].
  - destruct Hs as (tx1 & s & Es & Hid & Hh & W). rewrite Es, !bind_Ret. cbn [or_return w_store w_db]. rewrite bind_Ret.
    destruct (IH ks tx1 Hnd' Hall' (proj1 W)) as (tx' & E' & Hid' & Hd' & Hdone).
    { intros kv Hin. rewrite (proj2 (proj2 W)); [apply Hraw; by right|apply kv_key_data|].
      - rewrite Forall_forall in Hall'. by apply Hall'.
      - intros E%kv_key_inj. apply Hni. rewrite <-E. by apply list_elem_of_fmap_2. }
    exists tx'. split; [exact E'|]. split; [rewrite Hid'; apply Hid|]. split; [done|]. intros Ht. by apply (mset_done_cons (key, val) kvs tx tx1 tx' s), Hdone.
Qed.

Lemma mset_first flags kv kvs ks0 ks1 (tx : RocksTxn T) : SessionCtx_createTransaction sess (mkWorld ks0 db None) = Ret (mkWorld ks1 db (Some tx), tx) ->
  msets flags (kv :: kvs) (mkWorld ks0 db None) = msets flags (kv :: kvs) (mkWorld ks1 db (Some tx)).
Proof.
  intros E. destruct kv as [key val]. cbn [mset_loop]. unfold RETRY_CNT. cbn [retry].
  assert (forall r, r = mset_round cfg sess now currentTs srv chunkOf checkType flags key val -> r (mkWorld ks0 db None) = r (mkWorld ks1 db (Some tx))) as Hr by (intros r ->; unfold mset_round; by rewrite E).
  by rewrite (Hr _ eq_refl).
Qed.

Lemma mset_open w : reading 1 w -> w_txn w = None ->
  exists ks1 tx, w = mkWorld (w_store w) db None /\ SessionCtx_createTransaction sess w = Ret (mkWorld ks1 db (Some tx), tx) /\ writable tx /\ tx_db tx = db /\ opened (mkWorld ks1 db (Some tx)) tx /\
    forall tx', tx_txnId tx' = tx_txnId tx -> tx_done tx' = false -> exists ks', SessionCtx_rollbackAll cfg (ROk tt) (mkWorld ks1 db (Some tx')) = Ret (mkWorld ks' db None).
Proof.
  intros (Edb & (live & Hi & Hlg) & Hn & _) Et. destruct (create_ok (w_store w) live dur (Some false) Hi ltac:(lia)) as (ks1 & b & Ec & Hi1 & _).
  destruct (create_txn_fields _ _ _ _ _ Ec) as (-> & _ & _ & Eb). set (tx := RocksTxn_new (ks_nextTxnSeq (w_store w)) false db). exists ks1, tx. split; [destruct w; cbn in *; by subst|]. split; [|split; [|split; [|split]]].
  - unfold SessionCtx_createTransaction. by rewrite Et, (so_ro _ _ _ Hso), Ec, !bind_Ret, Edb.
  - split; [done|]. split; [done|]. split; [by vm_compute|done].
  - done.
  - destruct (Hlg eq_refl) as [Hb _]. split; [by eexists|]. split; [split; [done|constructor]|]. cbn [w_store]. rewrite Eb. split; [done|]. eexists _, _. split; [exact Hi1|]. apply lookup_insert_eq.
  - intros tx' Hid Hd. destruct (mark_ok ks1 _ dur (ks_nextTxnSeq (w_store w)) TXNID_UNINITED TXNID_UNINITED Hi1 (lookup_insert_eq _ _ _)) as (ks' & Em & _); [done|].
    exists ks'. unfold SessionCtx_rollbackAll, RocksTxn_rollback. cbn [w_txn w_store w_db]. inv_d by (by rewrite Hd). cbn [rocks_ok status_of]. rewrite Hid. cbn [tx tx_txnId RocksTxn_new]. by rewrite !bind_Ret, Em, !bind_Ret.
Qed.

#[local] Abbreviation mset := (MSetGeneric_run cfg sess now currentTs srv chunkOf checkType (ROk tt)).

(** C22: MSETNX writes all its values or none: when one of the keys is taken it rolls back, changes
    nothing and answers zero; otherwise the values of all keys and no other record are in the one
    transaction that it commits. It answers one when the database accepts the commit, and the store
    then holds what the transaction saw, and zero when the database refuses it, and nothing changes
    then. MSET does the same for keys that are taken or not, but it answers OK in both cases. The keys
    are different and hold no value of another type that the server would have to delete. *)
Theorem mset_correct args w :
  zlen args mod 2 = 0 -> args <> [] -> NoDup (map fst (pairs_of args)) -> Forall (mset_key REDIS_SET_NX) (pairs_of args) ->
  reading 1 w -> w_txn w = None ->
  let kvs := pairs_of args in
  (if keys_taken REDIS_SET_NX kvs then exists ks', mset REDIS_SET_NX args w = Ret (mkWorld ks' db None, Ret Command_fmtZero)
   else exists tx tx' w2 r, tx_db tx = db /\ mset_done kvs tx tx' /\ w_txn w2 = None /\ commit_outcome db tx' (w_db w2) r /\
     mset REDIS_SET_NX args w = Ret (w2, Ret (match r with Ret _ => Command_fmtOne | _ => Command_fmtZero end))) /\
  (exists tx tx' w2 r, tx_db tx = db /\ mset_done kvs tx tx' /\ w_txn w2 = None /\ commit_outcome db tx' (w_db w2) r /\
     mset REDIS_SET_NO_FLAGS args w = Ret (w2, Ret Command_fmtOK)).
Proof.
  intros Ha Hne Hnd Hall Hw Et kvs. destruct (mset_open w Hw Et) as (ks1 & tx & Ew & Eo & Hwr & Edb & Hop & Hroll). rewrite Ew in Eo.
  assert (Forall (mset_key REDIS_SET_NO_FLAGS) kvs) as Hall0.
  { eapply Forall_impl; [exact Hall|]. intros kv (H1' & H2' & H3' & H4'). split; [done|]. split; [done|]. split; [done|]. unfold replaced in *. destruct (found kv.1) as [v| |]; [|done|done].
    unfold checks in *. cbn in H4'. destruct (bool_decide (rv_type v = RT_KV)); [by rewrite andb_false_r|done]. }
  assert (keys_taken REDIS_SET_NO_FLAGS kvs = false) as Et0 by (unfold keys_taken; clear; induction kvs; done).
  assert (forall kv, kv ∈ kvs -> raw_record tx (kv_key sess chunkOf kv.1) = raw_record (RocksTxn_new 0 false db) (kv_key sess chunkOf kv.1)) as Hraw by (intros kv _; unfold raw_record; by rewrite Edb).
  assert (exists kv l, kvs = kv :: l) as (kv & l & Ek) by (subst kvs; destruct args as [|a [|b args]]; [done|by vm_compute in Ha|by eexists _, _]).
  assert (forall flags, mset flags args w = ('(w, failed) ← msets flags kvs (mkWorld ks1 db (Some tx)); '(w, failed) ← mset_end cfg sess (ROk tt) failed w;
    if flags =? REDIS_SET_NO_FLAGS then Ret (w, Ret Command_fmtOK) else if flags =? REDIS_SET_NX then Ret (w, Ret (if failed : bool then Command_fmtZero else Command_fmtOne))
    else _ ← INVARIANT_D false; Ret (w, Ret Command_fmtOK))) as Erun.
  { intros flags. unfold MSetGeneric_run. rewrite Ha. cbn [negb Z.eqb]. fold kvs. rewrite Ew, Ek. by rewrite (mset_first flags kv l _ ks1 tx Eo). }
  assert (forall tx', mset_done kvs tx tx' -> exists w2 r, SessionCtx_commitAll cfg sess (mkWorld ks1 db (Some tx')) tx' = Ret (w2, _ ← r; Ret tt) /\ w_txn w2 = None /\ commit_outcome db tx' (w_db w2) r) as Hout.
  { intros tx' (Hw' & Hkp & _). apply (commitAll_outcome (mkWorld ks1 db (Some tx')) tx tx'); [|done|done]. destruct Hop as (_ & Hop). split; [by eexists|done]. }
  split.
  - rewrite Erun. destruct (mset_loop_ok REDIS_SET_NX kvs ks1 tx Hnd Hall Hwr Hraw) as (tx' & E & Hid & Hd & Hdone). rewrite E, bind_Ret. unfold mset_end. destruct (keys_taken REDIS_SET_NX kvs).
    + destruct (Hroll tx' Hid Hd) as [ks' Er]. exists ks'. by rewrite Er.
    + destruct (Hout tx' (Hdone eq_refl)) as (w2 & r & Ec & Et2 & Hr). exists tx, tx', w2, r. split; [done|]. split; [by apply Hdone|]. split; [done|]. split; [done|].
      cbn [w_txn]. rewrite Ec, bind_Ret. by destruct r.
  - rewrite Erun. destruct (mset_loop_ok REDIS_SET_NO_FLAGS kvs ks1 tx Hnd Hall0 Hwr Hraw) as (tx' & E & Hid & Hd & Hdone). rewrite Et0 in *. rewrite E, bind_Ret. unfold mset_end.
    destruct (Hout tx' (Hdone eq_refl)) as (w2 & r & Ec & Et2 & Hr). exists tx, tx', w2, r. split; [done|]. split; [by apply Hdone|]. split; [done|]. split; [done|].
    cbn [w_txn]. rewrite Ec, bind_Ret. by destruct r.
Qed.

End Multi.

(** * An example *)

#[local] Instance kvmulti_build : BuildMode := true.

Lemma demo_kstore_ok : store_ok demo_cfg demo_kset demo_kdb.
Proof. split; [done|done|done|done|exact demo_kdb_tidy|vm_compute; reflexivity]. Qed.

Lemma demo_kreading n : n < 2 ^ 63 -> reading ∅ demo_kdb n (mkWorld demo_store demo_kdb None).
Proof. intros Hn. split; [done|]. split; [exists ∅; split; [exact demo_store_inv|by split]|]. split; [cbn; lia|done]. Qed.

Lemma demo_klh : log_header demo_kset.
Proof. by split. Qed.

Lemma demo_absent_u : exists msg, found demo_cfg demo_kset demo_schunk (lit "u") demo_kdb = Throw ERR_NOTFOUND msg.
Proof. eexists. vm_compute. reflexivity. Qed.

(** The conjunction of [abc], [41] and a missing key, over the key [u]. *)
Lemma bitop_correct_witness :
  exists s, zlen s = 3 /\ sets demo_cfg demo_kset 3 demo_schunk true (lit "u") demo_kdb 0 (kv_record demo_kset s 0) (Command_fmtLongLong (zlen s)) Command_fmtNull
    (Bitop_run demo_cfg demo_kset 0 3 demo_params None demo_schunk true (lit "and") (lit "u") [lit "k"; lit "n"; lit "u"] (mkWorld demo_store demo_kdb None)).
Proof.
  destruct demo_absent_u as [msg Eu].
  destruct (bitop_correct demo_cfg demo_kset 0 3 demo_params None demo_schunk (fun _ => Ret tt) true ∅ demo_kdb (fun _ => eq_refl) demo_kstore_ok demo_klh (lit "and") BITOP_AND (lit "u") [lit "k"; lit "n"; lit "u"]
    (mkWorld demo_store demo_kdb None)) as [Hs _].
  - vm_compute. reflexivity.
  - discriminate.
  - discriminate.
  - repeat (apply Forall_cons_2 || apply Forall_nil_2); (split; [apply demo_key_ok; [by apply (bool_decide_unpack _)|reflexivity]|]); [exact demo_here_k|exact demo_here_n|]. unfold string_here. by rewrite Eu.
  - apply demo_kreading. vm_compute. reflexivity.
  - reflexivity.
  - apply demo_key_ok; [by apply (bool_decide_unpack _)|reflexivity].
  - by rewrite Eu.
  - destruct Hs as (s & Hl & _ & Hset); [vm_compute; discriminate|]. exists s. split; [rewrite Hl; vm_compute; reflexivity|exact Hset].
Defined.

(** MSETNX of a new key and of the key [k], which is taken, and MSET of both. *)
Lemma mset_correct_witness :
  (exists ks', MSetGeneric_run demo_cfg demo_kset 0 3 demo_params demo_schunk true (ROk tt) REDIS_SET_NX [lit "u"; lit "1"; lit "k"; lit "2"] (mkWorld demo_store demo_kdb None)
    = Ret (mkWorld ks' demo_kdb None, Ret Command_fmtZero)) /\
  (exists tx tx' w2 r, tx_db tx = demo_kdb /\ mset_done demo_cfg demo_kset demo_schunk [(lit "u", lit "1"); (lit "k", lit "2")] tx tx' /\ w_txn w2 = None /\ commit_outcome demo_kdb tx' (w_db w2) r /\
    MSetGeneric_run demo_cfg demo_kset 0 3 demo_params demo_schunk true (ROk tt) REDIS_SET_NO_FLAGS [lit "u"; lit "1"; lit "k"; lit "2"] (mkWorld demo_store demo_kdb None) = Ret (w2, Ret Command_fmtOK)).
Proof.
  destruct demo_absent_u as [msg Eu].
  refine (mset_correct demo_cfg demo_kset 0 3 demo_params demo_schunk true ∅ demo_kdb demo_kstore_ok demo_klh [lit "u"; lit "1"; lit "k"; lit "2"] (mkWorld demo_store demo_kdb None) _ _ _ _ _ _).
  - reflexivity.
  - discriminate.
  - by apply (bool_decide_unpack _); vm_compute.
  - repeat (apply Forall_cons_2 || apply Forall_nil_2); (split; [apply demo_key_ok; [by apply (bool_decide_unpack _)|reflexivity]|]); (split; [reflexivity|]).
    + cbn [fst]. by rewrite Eu.
    + split; [|vm_compute; reflexivity]. replace (found _ _ _ _ _) with (Ret (demo_kv (lit "abc"))) by (vm_compute; reflexivity). split; [by split_and!; (done || (unfold is_u, MAXU64; cbn; lia))|].
      split; [done|]. eexists. split; vm_compute; reflexivity.
  - apply demo_kreading. reflexivity.
  - reflexivity.
Defined.
