(* ===== verification/KvRename.v ===== *)
(** What RENAME and RENAMENX (commands/kv.cpp) promise for a key of any type. *)

From Stdlib Require Import Strings.Byte ZArith Lia.
From stdpp Require Import base list numbers strings gmap fin_maps.
From S2P Require Import Prelude Status Varint Strings Number Record RecordValue RecordMeta ReplLog BinlogSeq Txn Store Replicate Cursor Command Elems Keys KeysSpec KeysDel Named Tidy Hash Members MembersSpec MembersCmd MembersMulti MembersStore Kv KvSpec KvMulti.

Local Open Scope Z_scope.

(** The element that a record is. *)
Definition ele_pair (r : RecordKey * RecordValue) : bytes * bytes := (rk_sk (fst r), rv_value (snd r)).

(** The store keeps the log of the commands of this file. *)
#[local] Instance rename_logging : Logging := true.

Section Rename.
Context {BM : BuildMode} {T : Type} `{RocksIterLaws T} {HL : RocksDBLaws T} {HH : RocksDBHealthy T} {HI : RocksIterHealthy T}.
Variable cfg : StoreCfg.
Variable sess : SessionCtx.
Variables (now currentTs : Z) (srv : ServerParams) (multi : option Z) (chunkOf : bytes -> Z).
Variables (dur : gset Z) (db : T).
Hypothesis Hso : store_ok cfg sess db.
Hypothesis Hlh : log_header sess.

#[local] Abbreviation key_ok := (key_ok chunkOf).
#[local] Abbreviation ele pk ty := (sub_key (chunkOf pk) (sc_dbId sess) ty pk).
#[local] Abbreviation has pk ty := (named_elems (T := T) cfg sess (chunkOf pk) pk ty).
#[local] Abbreviation place pk ty := (ele_place (chunkOf pk) (sc_dbId sess) ty).

(** ** The elements of one type *)

(** The records that are not elements of the type of the key stay. *)
Definition elsewhere (pk : bytes) (ty : RecordType) (tx tx' : RocksTxn T) : Prop :=
  kept tx tx' /\ forall k, data_key k -> rk_pk k <> pk \/ rk_type k <> ty -> raw_record tx' k = raw_record tx k.

#[export] Instance elsewhere_preorder pk ty : PreOrder (elsewhere pk ty).
Proof. split; [by intros tx|]. intros x y z [K1 Hxy] [K2 Hyz]. split; [by transitivity y|]. intros k Hd Hp. by rewrite Hyz, Hxy. Qed.

Lemma outside_elsewhere pk ty tx tx' : place pk ty -> kept tx tx' -> same_outside (ele pk ty) (sub_ok pk) tx tx' -> elsewhere pk ty tx tx'.
Proof.
  intros Hpl Hkp Ho. split; [done|]. intros k Hd Hne. apply Ho. split; [done|]. intros sk _ (_ & _ & Et & Ep & _)%RecordKey_equiv_fields. rewrite sub_key_type in Et by done. cbn in Ep. destruct Hne; congruence.
Qed.

Lemma has_frame pk ty tx tx' m : place pk ty -> writable tx' -> (forall sk, sub_ok pk sk -> raw_record tx' (ele pk ty sk) = raw_record tx (ele pk ty sk)) -> has pk ty tx m -> has pk ty tx' m.
Proof.
  intros Hpl Hw Hr [[_ He] Hm]. split; [|done]. split; [done|]. intros sk Hs. apply (elem_at_frame cfg ty tx); [by apply sub_key_data|by apply Hr|by apply He].
Qed.

Lemma has_elsewhere pk ty pk' ty' tx tx' m : place pk ty -> writable tx' -> pk <> pk' \/ ty <> ty' -> elsewhere pk' ty' tx tx' -> has pk ty tx m -> has pk ty tx' m.
Proof.
  intros Hpl Hw Hne Hr. apply has_frame; [done|done|]. intros sk Hs. apply Hr; [by apply sub_key_data|]. rewrite sub_key_type by done. by destruct Hne; [left|right].
Qed.

Lemma ele_set pk ty tx m sk rv : place pk ty -> has pk ty tx m -> sub_ok pk sk -> RecordValue_wf rv -> rv_type rv = ty ->
  exists tx', RocksKVStore_setKV cfg (ele pk ty sk) rv tx now = Ret tx' /\ has pk ty tx' (<[sk := rv_value rv]> m) /\ elsewhere pk ty tx tx'.
Proof.
  intros Hpl [He Hm] Hs Hwf Ht. pose proof (sub_family _ _ _ pk Hpl) as Hfam.
  destruct (elems_set cfg (so_cat _ _ _ Hso) (ele pk ty) (sub_ok pk) ty tx m sk rv now He Hs Hwf Ht) as (tx' & E & He' & Ho). exists tx'.
  split; [done|]. split; [split; [done|by apply map_Forall_insert_2]|]. apply outside_elsewhere; [done| |done]. apply (setKV_kept cfg _ rv tx tx' now E); [by apply sub_key_data|done].
Qed.

Lemma delKV_equiv k k' (tx : RocksTxn T) : RecordKey_equiv k k' -> RocksKVStore_delKV cfg k tx now = RocksKVStore_delKV cfg k' tx now.
Proof. intros Hq. unfold RocksKVStore_delKV. by rewrite (RecordKey_encode_proper k k' Hq). Qed.

Lemma ele_del pk ty tx m k : place pk ty -> has pk ty tx m -> sub_ok pk (rk_sk k) -> RecordKey_equiv (ele pk ty (rk_sk k)) k ->
  exists tx', RocksKVStore_delKV cfg k tx now = Ret tx' /\ has pk ty tx' (delete (rk_sk k) m) /\ elsewhere pk ty tx tx'.
Proof.
  intros Hpl [He Hm] Hs Hq. pose proof (sub_family _ _ _ pk Hpl) as Hfam.
  destruct (elems_del cfg (so_cat _ _ _ Hso) (ele pk ty) (sub_ok pk) ty tx m (rk_sk k) now He Hs) as (tx' & E & He' & Ho). exists tx'.
  split; [by rewrite <-(delKV_equiv _ _ tx Hq)|]. split; [split; [done|by apply map_Forall_delete]|]. apply outside_elsewhere; [done| |done]. apply (delKV_kept cfg _ tx tx' now E). by apply sub_key_data.
Qed.

(** A record of an element of the type of the key. *)
Definition is_element (src : bytes) (ty : RecordType) (r : RecordKey * RecordValue) : Prop :=
  RecordKey_equiv (ele src ty (rk_sk (fst r))) (fst r) /\ sub_ok src (rk_sk (fst r)) /\ RecordValue_wf (snd r) /\ rv_type (snd r) = ty.

Lemma add_type src dst ty recs : place src ty -> place dst ty -> forall (tx : RocksTxn T) m,
  has dst ty tx m -> Forall (fun r => is_element src ty r /\ sub_ok dst (rk_sk (fst r))) recs -> NoDup (map fst (map ele_pair recs)) ->
  exists tx', rename_add cfg sess now chunkOf dst recs tx = Ret tx' /\ has dst ty tx' (list_to_map (map ele_pair recs) ∪ m) /\ elsewhere dst ty tx tx'.
Proof.
  intros Hps Hpd. induction recs as [|[k rv] recs IH]; intros tx m Hh Hall Hnd; cbn [rename_add]. 
  { exists tx. split; [done|]. split; [|done]. cbn. by rewrite (left_id_L ∅ (∪)). }
  inversion Hall as [|? ? [(Hq & _ & Hwf & Ht) Hd] Hall']; subst. cbn [fst snd] in *. inversion Hnd as [|? ? Hni Hnd']; subst.
  pose proof Hq as (_ & _ & Et & _)%RecordKey_equiv_fields. rewrite sub_key_type in Et by done. unfold RecordKey_getRecordType. rewrite <-Et. inv_d by apply Hps. rewrite bind_Ret.
  destruct (ele_set dst (rv_type rv) tx m (rk_sk k) rv Hpd Hh Hd Hwf eq_refl) as (tx1 & E1 & Hh1 & Ho1). fold (ele dst (rv_type rv) (rk_sk k)). rewrite E1, bind_Ret.
  destruct (IH tx1 _ Hh1 Hall' Hnd') as (tx' & E' & Hh' & Ho'). exists tx'. split; [done|]. split; [|by etransitivity].
  rewrite <-insert_union_r in Hh' by by apply not_elem_of_list_to_map_1. by rewrite insert_union_l in Hh'.
Qed.

Lemma del_type src ty recs : place src ty -> forall (tx : RocksTxn T) m, has src ty tx m -> Forall (is_element src ty) recs ->
  exists tx', rename_del cfg now recs tx = Ret tx' /\ has src ty tx' (m ∖ list_to_map (map ele_pair recs)) /\ elsewhere src ty tx tx'.
Proof.
  intros Hps. induction recs as [|[k rv] recs IH]; intros tx m Hh Hall; cbn [rename_del].
  { exists tx. split; [done|]. split; [|done]. cbn. by rewrite (right_id_L ∅ (∖)). }
  inversion Hall as [|? ? (Hq & Hs & _) Hall']; subst. cbn [fst snd] in *. destruct (ele_del src ty tx m k Hps Hh Hs Hq) as (tx1 & E1 & Hh1 & Ho1). rewrite E1, bind_Ret.
  destruct (IH tx1 _ Hh1 Hall') as (tx' & E' & Hh' & Ho'). exists tx'. split; [done|]. split; [|by etransitivity].
  replace (m ∖ _) with (delete (rk_sk k) m ∖ list_to_map (map ele_pair recs)); [done|]. apply map_eq. intros i. change (list_to_map (map ele_pair ((k, rv) :: recs))) with (<[rk_sk k := rv_value rv]> (list_to_map (map ele_pair recs) : gmap bytes bytes)).
  rewrite !lookup_difference, lookup_delete, lookup_insert. destruct (decide (rk_sk k = i)); [|done]. by destruct (list_to_map _ !! i).
Qed.

(** ** Scanning *)

Lemma scanned_element src ty (tx : RocksTxn T) m p r : key_ok src -> place src ty -> tidy (tx_db tx) -> has src ty tx m -> RecordKey_prefixPk (ele src ty []) = Ret p ->
  r ∈ key_records (tx_db tx) p -> is_element src ty r.
Proof.
  intros [[Hnul Hpk] _] Hpl Ht [[_ He] _] Hp Hr. pose proof (empty_ok src Hpk) as Hn.
  apply (sub_record _ _ _ _ Hpl Hnul _ _ _ Ht Hn Hp) in Hr as (Hq & ek & ev & Hrd & Hd & Hw & Hek & Hv).
  assert (sub_ok src (rk_sk (fst r))) as Hok by (apply RecordKey_equiv_fields in Hq as (_ & _ & _ & E & _); destruct Hw as (_ & _ & _ & _ & _ & _ & Hl); unfold sub_ok; cbn in E; by rewrite E).
  split; [done|]. split; [done|]. split; [done|]. pose proof (He _ Hok) as Ha. pose proof (getKV_raw cfg _ tx (sub_key_data _ _ _ _ Hpl _ Hok)) as Hg.
  assert (RecordKey_encode (ele src ty (rk_sk (fst r))) = Ret ek) as Hek' by (etransitivity; [by apply RecordKey_encode_proper|exact Hek]).
  unfold raw_record in Hg. rewrite Hek', Hrd in Hg. cbn [fst snd] in Hd. unfold Rec_decode in Hd. apply bind_Ret_inv in Hd as (k' & _ & Hd). apply bind_Ret_inv in Hd as (v' & Hv' & [= <-]). cbn [fst snd] in *.
  rewrite Hv' in Hg. unfold elem_at in Ha. destruct (m !! rk_sk k'); [destruct Ha as (rv & E & _ & Et & _)|destruct Ha as (msg & E)]; rewrite Hg in E; [by injection E as ->|done].
Qed.

Lemma foldM_snoc {A} (l : list A) : forall acc, foldM (fun acc x => Ret (acc ++ [x])) l acc = Ret (acc ++ l).
Proof. induction l as [|x l IH]; intros acc; cbn [foldM]; [by rewrite app_nil_r|]. rewrite bind_Ret, IH. by rewrite <-app_assoc. Qed.

Lemma scan_type src ty (tx : RocksTxn T) m : key_ok src -> place src ty -> tidy (tx_db tx) -> has src ty tx m ->
  exists recs, (forall types rest, rename_pending sess chunkOf src types tx = Ret rest -> rename_pending sess chunkOf src (ty :: types) tx = Ret (recs ++ rest)) /\
    Forall (is_element src ty) recs /\ map ele_pair recs ≡ₚ map_to_list m.
Proof.
  intros Hk Hpl Ht Hh. pose proof Hk as [[Hnul Hpk] _]. destruct (sub_prefix (chunkOf src) (sc_dbId sess) src Hpk ty Hpl) as [p Hp]. pose proof (empty_ok src Hpk) as Hn.
  exists (key_records (tx_db tx) p). split; [|split].
  - intros types rest E. cbn [rename_pending]. change (RecordKey_new (chunkOf src) (sc_dbId sess) ty src [] 0) with (ele src ty []). rewrite Hp, bind_Ret.
    destruct (scan_start tx (ele src ty []) p p Ht (sub_scan_key _ _ _ _ Hpl Hnul _ Hn) Hp ltac:(done)) as (good & later & Hg & Hr & Hs & Hc & Hst & Hf). rewrite key_records_all in Hg, Hr.
    rewrite (prefix_fold_ok _ p good _ Hg Hr _ _ [] later Hs Hc Hst Hf), foldM_snoc, bind_Ret, E, bind_Ret. done.
  - apply Forall_forall. intros r Hr. by apply (scanned_element src ty tx m p).
  - exact (family_records cfg (chunkOf src) (sc_dbId sess) ty src Hpl Hnul tx m p Ht Hn Hp (proj1 Hh) (proj2 Hh)).
Qed.

(** The records of all types. *)
Lemma scan_types src types (tx : RocksTxn T) m : key_ok src -> Forall (ele_place (chunkOf src) (sc_dbId sess)) types -> tidy (tx_db tx) -> Forall (fun ty => has src ty tx (m ty)) types ->
  exists recs, rename_pending sess chunkOf src types tx = Ret (concat recs) /\
    Forall2 (fun ty l => Forall (is_element src ty) l /\ map ele_pair l ≡ₚ map_to_list (m ty)) types recs.
Proof.
  intros Hk. induction types as [|ty types IH]; intros Hpl Ht Hh; [by exists []|]. inversion Hpl; subst. inversion Hh; subst.
  destruct IH as (recs & E & Hall); [done..|]. destruct (scan_type src ty tx (m ty)) as (l & Hl & Hi & Hp); [done..|]. exists (l :: recs). split; [by apply Hl|]. by constructor.
Qed.

(** ** The elements of all types *)

Lemma element_pairs (recs : list (RecordKey * RecordValue)) (m : gmap bytes bytes) : map ele_pair recs ≡ₚ map_to_list m -> NoDup (map fst (map ele_pair recs)) /\ list_to_map (map ele_pair recs) = m.
Proof.
  intros Hp. assert (NoDup (map fst (map ele_pair recs))) as Hnd by (rewrite Hp; apply NoDup_fst_map_to_list). split; [done|].
  rewrite (list_to_map_proper _ _ Hnd Hp). apply list_to_map_to_list.
Qed.

Definition elsewheres (pk : bytes) (types : list RecordType) (tx tx' : RocksTxn T) : Prop :=
  kept tx tx' /\ forall k, data_key k -> rk_pk k <> pk \/ (rk_type k ∉ types) -> raw_record tx' k = raw_record tx k.

Lemma elsewheres_cons pk ty types tx tx1 tx' : elsewhere pk ty tx tx1 -> elsewheres pk types tx1 tx' -> elsewheres pk (ty :: types) tx tx'.
Proof. intros [K1 H1'] [K2 H2']. split; [by transitivity tx1|]. intros k Hk Hne. rewrite H2', H1'; [done|done| |done|]; (destruct Hne as [Hne|Hne]; [by left|right; set_solver]). Qed.

Lemma has_elsewheres pk ty pk' types tx tx' m : place pk ty -> writable tx' -> pk <> pk' \/ (ty ∉ types) -> elsewheres pk' types tx tx' -> has pk ty tx m -> has pk ty tx' m.
Proof.
  intros Hpl Hw Hne Hr. apply has_frame; [done|done|]. intros sk Hs. apply Hr; [by apply sub_key_data|]. rewrite sub_key_type by done. done.
Qed.

Lemma rename_add_app dst a : forall b (tx : RocksTxn T), rename_add cfg sess now chunkOf dst (a ++ b) tx = (tx ← rename_add cfg sess now chunkOf dst a tx; rename_add cfg sess now chunkOf dst b tx).
Proof.
  induction a as [|[k rv] a IH]; intros b tx; [done|]. cbn [app rename_add]. destruct (RecordKey_getRecordType k); [|done|done]. rewrite !bind_Ret.
  destruct (RocksKVStore_setKV _ _ _ _ _); [|done|done]. by rewrite !bind_Ret, IH.
Qed.

Lemma rename_del_app a : forall b (tx : RocksTxn T), rename_del cfg now (a ++ b) tx = (tx ← rename_del cfg now a tx; rename_del cfg now b tx).
Proof. induction a as [|[k rv] a IH]; intros b tx; [done|]. cbn [app rename_del]. destruct (RocksKVStore_delKV _ _ _ _); [|done|done]. by rewrite !bind_Ret, IH. Qed.

(** The elements that a scan found. *)
Definition scanned (src : bytes) (m : RecordType -> gmap bytes bytes) (ty : RecordType) (l : list (RecordKey * RecordValue)) : Prop :=
  place src ty /\ Forall (is_element src ty) l /\ map ele_pair l ≡ₚ map_to_list (m ty).

Lemma add_types src dst m types recs : Forall2 (scanned src m) types recs -> NoDup types -> Forall (ele_place (chunkOf dst) (sc_dbId sess)) types ->
  Forall (fun ty => map_Forall (fun sk _ => sub_ok dst sk) (m ty)) types -> forall tx : RocksTxn T, writable tx -> Forall (fun ty => has dst ty tx ∅) types ->
  exists tx', rename_add cfg sess now chunkOf dst (concat recs) tx = Ret tx' /\ writable tx' /\ Forall (fun ty => has dst ty tx' (m ty)) types /\ elsewheres dst types tx tx'.
Proof.
  induction 1 as [|ty l types recs (Hps & Hi & Hp) _ IH]; intros Hnd Hpd Hok tx Hw Hh; [by exists tx|]. cbn [concat]. inversion Hnd as [|? ? Hni Hnd']; subst. inversion Hpd; subst. inversion Hok as [|? ? Hoky Hok']; subst. inversion Hh as [|? ? Hhy Hh']; subst.
  destruct (element_pairs l (m ty) Hp) as [Hndl Em]. rewrite rename_add_app. destruct (add_type src dst ty l Hps ltac:(done) tx ∅ Hhy) as (tx1 & E1 & Hh1 & Ho1); [|done|].
  { apply Forall_forall. intros r Hr. rewrite Forall_forall in Hi. split; [by apply Hi|]. assert (ele_pair r ∈ map_to_list (m ty)) as Hin by (rewrite <-Hp; by apply list_elem_of_fmap_2).
    destruct r as [k rv]. apply elem_of_map_to_list in Hin. exact (Hoky _ _ Hin). }
  rewrite E1, bind_Ret. rewrite Em, (right_id_L ∅ (∪)) in Hh1. pose proof (proj1 (proj1 Hh1)) as Hw1.
  destruct (IH Hnd' ltac:(done) Hok' tx1 Hw1) as (tx' & E' & Hw' & Hall & Ho').
  { rewrite Forall_forall in *. intros ty' Hin. apply (has_elsewhere dst ty' dst ty tx); [auto|done|right; by intros ->|done|by apply Hh']. }
  exists tx'. split; [done|]. split; [done|]. split; [constructor; [|done]|by apply (elsewheres_cons _ _ _ _ tx1)]. by apply (has_elsewheres dst ty dst types tx1); [..|right|done|done].
Qed.

Lemma del_types src m types recs : Forall2 (scanned src m) types recs -> NoDup types -> forall tx : RocksTxn T, writable tx -> Forall (fun ty => has src ty tx (m ty)) types ->
  exists tx', rename_del cfg now (concat recs) tx = Ret tx' /\ writable tx' /\ Forall (fun ty => has src ty tx' ∅) types /\ elsewheres src types tx tx'.
Proof.
  intros HF. assert (Forall (ele_place (chunkOf src) (sc_dbId sess)) types) as Hps by (induction HF as [|? ? ? ? (? & _) _ IH]; by constructor).
  induction HF as [|ty l types recs (_ & Hi & Hp) _ IH]; intros Hnd tx Hw Hh; [by exists tx|]. cbn [concat]. inversion Hnd as [|? ? Hni Hnd']; subst. inversion Hps; subst. inversion Hh as [|? ? Hhy Hh']; subst.
  destruct (element_pairs l (m ty) Hp) as [Hndl Em]. rewrite rename_del_app. destruct (del_type src ty l ltac:(done) tx (m ty) Hhy Hi) as (tx1 & E1 & Hh1 & Ho1).
  rewrite E1, bind_Ret. rewrite Em, map_difference_diag in Hh1. pose proof (proj1 (proj1 Hh1)) as Hw1.
  destruct (IH ltac:(done) Hnd' tx1 Hw1) as (tx' & E' & Hw' & Hall & Ho').
  { rewrite Forall_forall in *. intros ty' Hin. apply (has_elsewhere src ty' src ty tx); [auto|done|right; by intros ->|done|by apply Hh']. }
  exists tx'. split; [done|]. split; [done|]. split; [constructor; [|done]|by apply (elsewheres_cons _ _ _ _ tx1)]. by apply (has_elsewheres src ty src types tx1); [..|right|done|done].
Qed.

(** ** The move *)

#[local] Abbreviation meta pk := (data_meta_key sess chunkOf pk).

Lemma meta_data pk : key_ok pk -> data_key (meta pk) /\ rk_type (meta pk) = RT_DATA_META.
Proof. intros [Hpk Hch]. by apply (whole_key_data (chunkOf pk) (sc_dbId sess) pk (proj2 Hpk) Hch (so_db _ _ _ Hso) RT_DATA_META). Qed.

(** The records other than meta records of the key and entries of the index stay. *)
Definition but_meta (pk : bytes) (tx tx' : RocksTxn T) : Prop :=
  forall k, data_key k -> rk_type k <> RT_TTL_INDEX -> rk_type k <> RT_DATA_META \/ rk_pk k <> pk -> raw_record tx' k = raw_record tx k.

Lemma wrote_but_meta pk (tx tx' : RocksTxn T) s : wrote_record tx tx' (meta pk) s -> but_meta pk tx tx'.
Proof. intros (_ & _ & Hr) k Hk _ Hne. apply Hr; [done|]. intros (_ & _ & Et & Ep & _)%RecordKey_equiv_fields. cbn in Et, Ep. destruct Hne; congruence. Qed.

Lemma has_but_meta pk ty pk' tx tx' m : place pk ty -> ty <> RT_TTL_INDEX -> ty <> RT_DATA_META -> writable tx' -> but_meta pk' tx tx' -> has pk ty tx m -> has pk ty tx' m.
Proof. intros Hpl H1' H2' Hw Hr. apply has_frame; [done|done|]. intros sk Hs. apply Hr; [by apply sub_key_data|..]; rewrite sub_key_type by done; [done|by left]. Qed.

Lemma index_moved dst v (tx : RocksTxn T) : writable tx -> key_ok dst -> RecordValue_wf v -> isDataMetaType (rv_type v) = true ->
  exists tx', rename_index cfg sess now dst v tx = Ret tx' /\ writable tx' /\ kept tx tx' /\ (forall k, data_key k -> rk_type k <> RT_TTL_INDEX -> raw_record tx' k = raw_record tx k) /\
    (tidy (tx_db tx) -> tidy (tx_db tx')).
Proof.
  intros Hw [[_ Hpk] _] Hwf Hm. unfold rename_index. destruct (_ && _); [|exists tx; by split_and!]. set (t := mkTTLIndex _ _ _ _).
  assert (TTLIndex_wf t) as Ht by (unfold TTLIndex_wf, t; cbn; split; [apply Hwf|by split; [apply Hso|]]). destruct (TTLIndex_encode_total t Ht) as (c & _ & Et). rewrite Et.
  assert (data_key (ti_key t c)) as Hd by (split; [by apply ti_key_wf|done]). set (rvi := RecordValue_new [] RT_TTL_INDEX _ _ _ _ _).
  assert (RecordValue_wf rvi) as Hi by (unfold RecordValue_wf; by split_and!). destruct (setKV_ok cfg (so_cat _ _ _ Hso) (ti_key t c) rvi tx now Hd Hi Hw) as (tx' & s & E & (Hw' & _ & Hr) & _).
  exists tx'. split; [exact E|]. split; [done|]. split; [by apply (setKV_kept cfg _ rvi tx tx' now E)|]. split.
  - intros k Hk Hne. apply Hr; [done|]. by intros (_ & _ & Ety & _)%RecordKey_equiv_fields.
  - refine (setKV_tidy cfg tx tx' (ti_key t c) rvi now _ _ _ E); [by apply ti_key_wf| |done]. intros Hc. vm_compute in Hc. done.
Qed.

(** The key with its elements is under the other name in [tx']. *)
Definition moved (src dst : bytes) (v : RecordValue) (m : RecordType -> gmap bytes bytes) (tx tx' : RocksTxn T) : Prop :=
  writable tx' /\ kept tx tx' /\ RocksKVStore_getKV cfg (meta dst) tx' = Ret v /\ (exists msg, RocksKVStore_getKV cfg (meta src) tx' = Throw ERR_NOTFOUND msg) /\
  Forall (fun ty => has dst ty tx' (m ty) /\ has src ty tx' ∅) (rename_types (rv_type v)) /\
  forall k, data_key k -> rk_pk k <> src -> rk_pk k <> dst -> rk_type k <> RT_TTL_INDEX -> raw_record tx' k = raw_record tx k.

Lemma rename_places pk ty : key_ok pk -> Forall (fun t => place pk t /\ t <> RT_TTL_INDEX /\ t <> RT_DATA_META) (rename_types ty) /\ NoDup (rename_types ty).
Proof.
  intros [_ Hch]. split; [|by destruct ty; apply (bool_decide_unpack _)]. pose proof (so_db _ _ _ Hso).
  destruct ty; cbn [rename_types]; repeat (apply Forall_nil_2 || apply Forall_cons_2); (split; [|done]); by split; [| |split_and!].
Qed.

(** The meta record and its entry of the index move first. *)
Lemma meta_moved src dst v (tx : RocksTxn T) : writable tx -> tidy (tx_db tx) -> key_ok src -> key_ok dst -> src <> dst -> RecordValue_wf v -> isDataMetaType (rv_type v) = true ->
  exists tx1 tx2 tx3, Command_delKeyAndTTL cfg sess (meta src) v tx now = Ret tx1 /\ RocksKVStore_setKV cfg (meta dst) v tx1 now = Ret tx2 /\ rename_index cfg sess now dst v tx2 = Ret tx3 /\
    writable tx3 /\ kept tx tx3 /\ tidy (tx_db tx3) /\ RocksKVStore_getKV cfg (meta dst) tx3 = Ret v /\ raw_record tx3 (meta src) = None /\
    exists txm, writable txm /\ but_meta src tx txm /\ but_meta dst txm tx3.
Proof.
  intros Hw Ht Hs Hd Hne Hwf Hm. destruct (meta_data src Hs) as [Hms _], (meta_data dst Hd) as [Hmd _]. pose proof (so_cat _ _ _ Hso) as Hcat. pose proof (so_db _ _ _ Hso) as Hdb.
  destruct (delKeyAndTTL_ok cfg sess Hcat Hdb tx (meta src) v now Hw Hms (proj2 (proj1 Hs)) Hwf Hm) as (txa & tx1 & E1 & W1 & Hidx).
  assert (writable tx1 /\ forall k, data_key k -> rk_type k <> RT_TTL_INDEX -> raw_record tx1 k = raw_record txa k) as [Hw1 Hr1].
  { destruct Hidx as [->|(ki & Hti & _ & (Hwi & _ & Hri))]; [split; [apply W1|done]|]. split; [done|]. intros k Hk Hn. apply Hri; [done|]. intros (_ & _ & Et & _)%RecordKey_equiv_fields. congruence. }
  destruct (setKV_ok cfg Hcat (meta dst) v tx1 now Hmd Hwf Hw1) as (tx2 & s & E2 & W2 & Ed). destruct (index_moved dst v tx2 (proj1 W2) Hd Hwf Hm) as (tx3 & E3 & Hw3 & Hk3 & Hr3 & Ht3).
  assert (~ RecordKey_equiv (meta src) (meta dst)) as Hnq by (by intros (_ & _ & _ & Ep & _)%RecordKey_equiv_fields).
  exists tx1, tx2, tx3. split; [done|]. split; [done|]. split; [done|]. split; [done|]. split; [|split; [|split; [|split]]].
  - transitivity tx2; [|done]. transitivity tx1; [by apply (drop_kept cfg sess Hdb tx tx1 (meta src) v now E1); [|apply Hs|..]|by apply (setKV_kept cfg _ v tx1 tx2 now E2)].
  - apply Ht3. refine (setKV_tidy cfg tx1 tx2 (meta dst) v now _ _ Hwf E2 _); [apply Hmd|intros _; apply Hd|]. by apply (delKeyAndTTL_tidy cfg now sess _ _ _ _ E1).
  - pose proof (getKV_raw cfg (meta dst) tx3 Hmd) as G. rewrite Hr3, (proj1 (proj2 W2)) in G by done. by rewrite G.
  - rewrite Hr3, (proj2 (proj2 W2)), Hr1 by done. apply W1.
  - exists tx1. split; [done|]. split.
    + intros k Hk Hn Hne'. rewrite Hr1 by done. by apply (wrote_but_meta src tx txa None W1).
    + intros k Hk Hn Hne'. rewrite Hr3 by done. by apply (wrote_but_meta dst tx1 tx2 (Some s) W2).
Qed.

Lemma rename_move_ok src dst v m cnt (tx : RocksTxn T) : writable tx -> tidy (tx_db tx) -> key_ok src -> key_ok dst -> src <> dst -> RecordValue_wf v -> isDataMetaType (rv_type v) = true ->
  getSubKeyCount (meta src) v = Ret cnt ->
  Forall (fun ty => has src ty tx (m ty) /\ has dst ty tx ∅ /\ map_Forall (fun sk _ => sub_ok dst sk) (m ty)) (rename_types (rv_type v)) ->
  exists tx', rename_move cfg sess now chunkOf src dst v tx = Ret tx' /\ moved src dst v m tx tx'.
Proof.
  intros Hw Ht Hs Hd Hne Hwf Hm Hcnt Hall. destruct (meta_moved src dst v tx Hw Ht Hs Hd Hne Hwf Hm) as (tx1 & tx2 & tx3 & E1 & E2 & E3 & Hw3 & Kp3 & Ht3 & Hgd & Hgs & txm & Hwm & B1 & B2).
  destruct (rename_places src (rv_type v) Hs) as [Hps Hnd], (rename_places dst (rv_type v) Hd) as [Hpd _]. set (types := rename_types (rv_type v)) in *. rewrite !Forall_forall in *.
  assert (forall pk ty x, key_ok pk -> ty ∈ types -> place pk ty -> has pk ty tx x -> has pk ty tx3 x) as Hk3.
  { intros pk ty x Hk Hin Hpl Hh. destruct (Hps ty Hin) as (_ & N1 & N2). by apply (has_but_meta pk ty dst txm), (has_but_meta pk ty src tx). }
  destruct (scan_types src types tx3 m Hs) as (recs & Ep & Hrecs); [apply Forall_forall; intros ty Hin; by apply Hps|done|apply Forall_forall; intros ty Hin; apply Hk3; [done|done|by apply Hps|by apply Hall]|].
  assert (Forall2 (scanned src m) types recs) as Hsc.
  { apply Forall2_same_length_lookup. apply Forall2_same_length_lookup in Hrecs as [Hl Hx]. split; [done|]. intros i ty l Ei El. split; [apply Hps; by apply list_elem_of_lookup_2 in Ei|by apply (Hx i)]. }
  destruct (add_types src dst m types recs Hsc Hnd) with (tx := tx3) as (tx4 & E4 & Hw4 & Hall4 & O4); [apply Forall_forall; intros ty Hin; by apply Hpd|apply Forall_forall; intros ty Hin; by apply Hall|done|apply Forall_forall; intros ty Hin; apply Hk3; [done|done|by apply Hpd|by apply Hall]|].
  destruct (del_types src m types recs Hsc Hnd tx4 Hw4) as (tx5 & E5 & Hw5 & Hall5 & O5).
  { apply Forall_forall. intros ty Hin. apply (has_elsewheres src ty dst types tx3); [by apply Hps|done|by left|done|]. apply Hk3; [done|done|by apply Hps|by apply Hall]. }
  rewrite Forall_forall in Hall4. rewrite Forall_forall in Hall5.
  assert (RT_DATA_META ∉ types) as Hnm by (intros Hin; by destruct (Hps _ Hin) as (_ & _ & N)).
  assert (forall k, data_key k -> rk_type k <> RT_TTL_INDEX -> (rk_type k ∉ types) \/ (rk_pk k <> src /\ rk_pk k <> dst) -> raw_record tx5 k = raw_record tx3 k) as Hr5.
  { intros k Hk _ [Hn|[N1 N2]]; rewrite (proj2 O5), (proj2 O4); auto. }
  destruct (meta_data src Hs) as [Hms Ets], (meta_data dst Hd) as [Hmd Etd].
  assert (moved src dst v m tx tx5) as Hmv.
  { split; [done|]. split; [transitivity tx3; [done|]; transitivity tx4; [apply O4|apply O5]|]. split; [apply (getKV_frame cfg _ tx3); [done|apply Hr5; [done|by rewrite Etd|left; by rewrite Etd]|done]|]. split; [apply getKV_none; [done|]; rewrite Hr5; [done|done|by rewrite Ets|left; by rewrite Ets]|]. split.
    - apply Forall_forall. intros ty Hin. split; [|by apply Hall5]. apply (has_elsewheres dst ty src types tx4); [by apply Hpd|done|left; congruence|done|by apply Hall4].
    - intros k Hk N1 N2 N3. rewrite Hr5, B2, B1; auto. }
  exists tx5. split; [|done]. unfold rename_move. rewrite E1, bind_Ret, E2, bind_Ret, E3, bind_Ret. destruct (decide (rv_type v = RT_KV)) as [Ek|Ek].
  - rewrite bool_decide_true by done. subst types. rewrite Ek in Hrecs. inversion Hrecs; subst. cbn in E4, E5. congruence.
  - rewrite bool_decide_false by done. rewrite Hcnt, bind_Ret. fold types. by rewrite Ep, bind_Ret, E4, bind_Ret.
Qed.

(** ** The command *)

#[local] Abbreviation reading := (reading dur db).
#[local] Abbreviation tx0 := (RocksTxn_new 0 false db).

Lemma delKey_rounds_tidy n mk : forall ks (d : T) (tx tx' : RocksTxn T) ks' d', delKey_rounds cfg now srv sess n mk ks d tx = Ret (ks', d', Ret tx') -> tidy (tx_db tx) -> tidy d' -> tidy (tx_db tx').
Proof.
  induction n as [|n IH]; intros ks d tx tx' ks' d' E Ht Hd; cbn [delKey_rounds] in E; [by apply bind_Ret_inv in E as (? & _ & ?)|].
  apply bind_Ret_inv in E as (e & _ & E). destruct e as [[v|]| |]; [|by injection E as _ _ <-|done|done]. apply bind_Ret_inv in E as (c & _ & E). destruct c as [c| |]; [|done|done].
  destruct (Command_useDeleteRange _ _ _).
  - apply bind_Ret_inv in E as ([[ks1 d1] s] & _ & [= <- <- E]). by apply bind_Ret_inv in E as (? & _ & [= <-]).
  - apply bind_Ret_inv in E as (s & Es & E). destruct s as [tx1|code msg|].
    + injection E as _ _ <-. destruct (Command_delKeyOptimismInLock _ _ _ _ _ _) eqn:Eo; [injection Es as ->|done|done]. by apply (optimism_tidy cfg now _ _ _ _ _ Eo).
    + destruct code; try done. destruct (Nat.eqb n 0); [done|]. by apply (IH _ _ _ _ _ _ E).
    + done.
Qed.

(** What is under the new name: nothing, or a key of any type that has not expired and is not deleted
    by ranges, and no elements of these types but its own. *)
Definition target_here (dst : bytes) (types : list RecordType) : Prop :=
  match RocksKVStore_getKV cfg (meta dst) tx0 with
  | Ret v2 => RecordValue_wf v2 /\ isDataMetaType (rv_type v2) = true /\ expired currentTs srv v2 = false /\ SessionCtx_verifyVersion sess multi (rv_versionEP v2) = true /\
      (exists cnt, getSubKeyCount (meta dst) v2 = Ret cnt /\ Command_useDeleteRange cnt (rv_type v2) srv = false) /\
      Forall (fun ty => ty ∈ ele_list (rv_type v2) \/ has dst ty tx0 ∅) types
  | Throw c _ => c = ERR_NOTFOUND /\ Forall (fun ty => has dst ty tx0 ∅) types
  | Crash _ => False
  end.

Lemma has_db pk ty (tx tx' : RocksTxn T) m : place pk ty -> tx_db tx = tx_db tx' -> writable tx' -> has pk ty tx m -> has pk ty tx' m.
Proof. intros Hpl Edb Hw. apply has_frame; [done|done|]. intros sk _. unfold raw_record. by rewrite Edb. Qed.

Lemma has_untouched pk ty pk' (tx tx' : RocksTxn T) m : place pk ty -> ty <> RT_TTL_INDEX -> writable tx' -> pk <> pk' -> untouched pk' tx tx' -> has pk ty tx m -> has pk ty tx' m.
Proof. intros Hpl Hty Hw Hne Hu. apply has_frame; [done|done|]. intros sk Hs. apply Hu; [by apply sub_key_data|done|]. by rewrite sub_key_type. Qed.

(** The key of the new name goes. *)
Lemma target_cleared dst types ks (tx : RocksTxn T) o : key_ok dst -> Forall (fun t => place dst t /\ t <> RT_TTL_INDEX /\ t <> RT_DATA_META) types -> target_here dst types ->
  writable tx -> tx_db tx = db -> meta_or_none (RocksKVStore_getKV cfg (meta dst) tx0) = Ret o ->
  exists tx', rename_clear cfg sess now srv chunkOf dst o tx (mkWorld ks db (Some tx)) = Ret (mkWorld ks db (Some tx), Ret (inl tx')) /\ writable tx' /\ tidy (tx_db tx') /\
    untouched dst tx tx' /\ Forall (fun ty => has dst ty tx' ∅) types.
Proof.
  intros Hk Hpl Hth Hw Edb Ho. pose proof Hk as [Hpk Hch]. pose proof Hso as [Hcat Hdb Hep Hro Htd Hsz]. unfold target_here in Hth. rewrite Forall_forall in Hpl.
  assert (RocksKVStore_getKV cfg (meta dst) tx = RocksKVStore_getKV cfg (meta dst) tx0) as Eg by by apply getKV_same.
  destruct (RocksKVStore_getKV cfg (meta dst) tx0) as [v2|c msg|]; [|destruct Hth as [-> Hth]|done]; injection Ho as <-; unfold rename_clear.
  - destruct Hth as (Hwf & Hm & _ & _ & (cnt & Hcnt & Huse) & Hele).
    destruct (delKey_ok cfg Hcat now srv sess (chunkOf dst) dst Hpk Hch Hdb RT_DATA_META ks db tx v2 cnt) as (tx' & E & Hg); [by rewrite Edb|done|by rewrite Edb|done..|].
    cbn [w_store w_db]. rewrite E, bind_Ret. cbn [w_txn]. exists tx'. split; [done|]. pose proof Hg as (Hw' & _ & Hr). split; [done|].
    split; [apply (delKey_rounds_tidy _ _ _ _ _ _ _ _ E); [by rewrite Edb|done]|]. split; [refine (key_gone_untouched _ _ dst _ _ _ _ _ _ _ Hg); [done|apply index_keys_type]|].
    rewrite Forall_forall in Hele. apply Forall_forall. intros ty Hin. destruct (Hpl ty Hin) as (Hp & _). split; [|apply map_Forall_empty]. split; [done|]. intros sk Hs. rewrite lookup_empty. pose proof (sub_key_data _ _ _ _ Hp sk Hs) as Hd. specialize (Hr _ Hd).
    destruct (Hele ty Hin) as [Hi|[[_ He] _]].
    + apply getKV_none; [done|]. rewrite Hr, bool_decide_true; [done|]. split; [done|]. split; [done|]. split; [done|]. by rewrite sub_key_type.
    + destruct (_ || _); [by apply getKV_none|]. apply (elem_at_frame cfg ty tx0); [done| |by rewrite <-(lookup_empty (M := gmap bytes) (A := bytes) sk); apply He]. rewrite Hr. unfold raw_record. by rewrite Edb.
  - exists tx. split; [done|]. split; [done|]. split; [by rewrite Edb|]. split; [done|]. rewrite Forall_forall in *. intros ty Hin. apply (has_db dst ty tx0); [by apply Hpl|done|done|by apply Hth].
Qed.

Lemma reading_create n w : 0 <= n -> reading (n + 1) w -> w_txn w = None -> exists w' tx, SessionCtx_createTransaction sess w = Ret (w', tx) /\ reading n w' /\ w_txn w' = Some tx.
Proof.
  intros Hn0 (Edb & (live & Hi & Hlg) & Hn & _) Et. destruct (create_ok (w_store w) live dur (Some false) Hi ltac:(lia)) as (ks1 & b & Ec & Hi1 & _). destruct (create_txn_fields _ _ _ _ _ Ec) as (-> & _ & Eq & Eb).
  unfold SessionCtx_createTransaction. rewrite Et, (so_ro _ _ _ Hso), Ec, bind_Ret. eexists _, _. split; [reflexivity|]. split; [|done]. split; [done|].
  split; [eexists; split; [done|]; intros _; split; [cbn [w_store]; rewrite Eb; by apply Hlg|]; split; [apply lookup_insert_eq|split; [done|constructor]]|]. cbn [w_store w_txn]. split.
  - pose proof (si_seq _ Hi) as Hs. cbn in Hs. rewrite Eq, wrap_id by (unfold is_u; lia). lia.
  - split; [done|]. split; [done|]. split; [by vm_compute|done].
Qed.

#[local] Abbreviation rename := (RenameGeneric_run cfg sess now currentTs srv multi chunkOf (ROk tt)).

(** The record of a key that can be read. *)
Definition readable (pk : bytes) (v : RecordValue) : Prop :=
  RocksKVStore_getKV cfg (meta pk) tx0 = Ret v /\ RecordValue_wf v /\ isDataMetaType (rv_type v) = true /\ expired currentTs srv v = false /\ SessionCtx_verifyVersion sess multi (rv_versionEP v) = true.

Lemma readable_verdict pk v : expired currentTs srv v = false -> SessionCtx_verifyVersion sess multi (rv_versionEP v) = true ->
  expired currentTs srv v = false /\ verdict sess multi pk RT_DATA_META true v = Ret v.
Proof. intros He Hv. split; [done|]. unfold verdict. by rewrite (bool_decide_true (RT_DATA_META = RT_DATA_META)), Hv, !andb_false_r by done. Qed.


End Rename.

(** * An example *)

#[local] Instance rename_build : BuildMode := true.

