(* ===== verification/Expire.v ===== *)
(** The commands on the time to live of keys (commands/expire.cpp): EXPIRE and its kin, TTL and
    PTTL, EXISTS, TYPE, PERSIST and REVISION. *)

From Stdlib Require Import Strings.Byte ZArith Lia.
From stdpp Require Import base list numbers strings gmap.
From S2P Require Import Prelude Status Varint Strings Number Record RecordValue RecordMeta ReplLog BinlogSeq Txn Store Replicate Cursor Command Elems Keys Hash Members Kv.

Local Open Scope Z_scope.

Definition RecordValue_setVersionEP (rv : RecordValue) (versionEP : Z) : RecordValue :=
  mkRecordValue (rv_type rv) (rv_ttl rv) (rv_version rv) versionEP (rv_cas rv) (rv_pieceSize rv) (rv_totalSize rv) (rv_value rv).

(** [Command::getName] of the four commands. *)
Inductive ExpireName : Set := EXPIRE | PEXPIRE | EXPIREAT | PEXPIREAT.

Section Expire.
Context {BM : BuildMode} {T : Type} `{RocksIter T}.
Variable cfg : StoreCfg.
Variable sess : SessionCtx.
(** [currentTs] is the time that the check of the expiry sees; [started] and [clock] are the times
    that the command itself asks for, in this order. *)
Variables (now started clock currentTs : Z) (srv : ServerParams) (multi : option Z) (chunkOf : bytes -> Z).

#[local] Abbreviation World := (World (T := T)).
#[local] Abbreviation Reply := (M (World * M bytes)).
#[local] Abbreviation readMeta key := (read_meta cfg now srv sess multi (chunkOf key) currentTs RT_DATA_META key).
#[local] Abbreviation rk key := (data_meta_key sess chunkOf key).

(** ** EXPIRE, PEXPIRE, EXPIREAT, PEXPIREAT *)

(** The entry of the index moves to the new time; strings have none. *)
Definition expire_index (key : bytes) (rv : RecordValue) (expireAt : Z) (tx : RocksTxn T) : M (RocksTxn T) :=
  let vt := rv_type rv in
  if bool_decide (vt = RT_KV) then Ret tx else
  tx ← (if negb (rv_ttl rv =? 0) then
          k ← TTLIndex_encode (mkTTLIndex key vt (sc_dbId sess) (rv_ttl rv));
          RocksTxn_delKV cfg tx k 0 now
        else Ret tx);
  k ← TTLIndex_encode (mkTTLIndex key vt (sc_dbId sess) expireAt);
  v ← RecordValue_encode (RecordValue_new [] RT_TTL_INDEX MAXU64 0 (-1) 0 MAXU64);
  RocksTxn_setKV cfg tx k v 0 now.

(** The loop, whose first round returns. *)
Definition expire_update (key : bytes) (expireAt : Z) (tx : RocksTxn T) : M (RocksTxn T * bool) :=
  o ← find_record (RocksKVStore_getKV cfg (rk key) tx);
  match o with
  | None => Ret (tx, false)
  | Some rv =>
      tx ← expire_index key rv expireAt tx;
      tx ← RocksKVStore_setKV cfg (rk key) (RecordValue_setVersionEP (RecordValue_setTtl rv expireAt) (sc_versionEP sess)) tx now;
      Ret (tx, true)
  end.

(** In a session whose transaction has written nothing: it sees what the expiry has committed. *)
Definition expireAfterNow (key : bytes) (expireAt : Z) (tx : RocksTxn T) (w : World) : M (World * M (RocksTxn T * bool)) :=
  '(w, rv) ← readMeta key w;
  let tx := tx_with_db tx (w_db w) in
  or_return w (meta_or_none rv) (fun o =>
  match o with
  | None => Ret (w, Ret (tx, false))
  | Some _ => or_return w (expire_update key expireAt tx) (fun r => Ret (w, Ret r))
  end).

Definition expireBeforeNow (key : bytes) (tx : RocksTxn T) (w : World) : M (World * M (RocksTxn T * bool)) :=
  '(ks, db, done) ← Command_delKeyChkExpire cfg now srv sess multi (chunkOf key) currentTs key RT_DATA_META (w_store w) (w_db w) tx;
  Ret (mkWorld ks db (w_txn w), done).

Definition expireGeneric (expireAt : Z) (key : bytes) (tx : RocksTxn T) (w : World) : M (World * M (RocksTxn T * bytes)) :=
  '(w, done) ← (if (s64 clock <=? expireAt) || sp_noexpire srv then expireAfterNow key (u64 expireAt) tx w else expireBeforeNow key tx w);
  Ret (w, '(tx, b) ← done; Ret (tx, if b : bool then Command_fmtOne else Command_fmtZero)).

(** The product is a signed one, the sum an unsigned one. *)
Definition expire_millsecs (name : ExpireName) (n : Z) : M Z :=
  match name with
  | EXPIRE => ms ← mul_s64 n 1000; Ret (s64 (u64 (started + ms)))
  | PEXPIRE => Ret (s64 (u64 (started + n)))
  | EXPIREAT => mul_s64 n 1000
  | PEXPIREAT => Ret n
  end.

Definition GeneralExpire_run (name : ExpireName) (key val : bytes) (w : World) : Reply :=
  or_return w (stoll val) (fun expt =>
  '(w, tx) ← SessionCtx_createTransaction sess w;
  millsecs ← expire_millsecs name expt;
  '(w, s) ← expireGeneric millsecs key tx w;
  or_return w s (fun '(tx, reply) => commit_reply cfg sess w tx reply)).

(** ** TTL, PTTL, EXISTS, TYPE *)

(** The time that is left; a time that has passed since the check counts as 1. *)
Definition ttl_left (rv : RecordValue) : Z :=
  let ms := s64 (u64 (rv_ttl rv - clock)) in
  if ms <? 0 then 1 else ms.

Definition GenericTtl_run (pttl : bool) (key : bytes) (w : World) : Reply :=
  '(w, rv) ← readMeta key w;
  or_return w (meta_or_none rv) (fun o =>
  match o with
  | None => Ret (w, Ret (Command_fmtLongLong (-2)))
  | Some rv =>
      if rv_ttl rv =? 0 then Ret (w, Ret (Command_fmtLongLong (-1)))
      else if pttl then Ret (w, Ret (Command_fmtLongLong (ttl_left rv)))
      else ms ← add_s64 (ttl_left rv) 500; Ret (w, Ret (Command_fmtLongLong (Z.quot ms 1000)))
  end).

Fixpoint exists_loop (keys : list bytes) (count : Z) (w : World) : Reply :=
  match keys with
  | [] => Ret (w, Ret (Command_fmtLongLong count))
  | key :: keys' =>
      '(w, rv) ← readMeta key w;
      or_return w (meta_or_none rv) (fun o => exists_loop keys' (match o with Some _ => count + 1 | None => count end) w)
  end.

Definition Exists_run (keys : list bytes) : World -> Reply := exists_loop keys 0.

(** [lookup.at], which throws for a type it does not have. *)
Definition type_name (vt : RecordType) : M bytes :=
  match vt with
  | RT_KV => Ret (lit "string")
  | RT_LIST_META => Ret (lit "list")
  | RT_HASH_META => Ret (lit "hash")
  | RT_SET_META => Ret (lit "set")
  | RT_ZSET_META => Ret (lit "zset")
  | RT_TBITMAP_META => Ret (lit "tbitmap")
  | _ => Crash CException
  end.

Definition Type_run (key : bytes) (w : World) : Reply :=
  '(w, rv) ← readMeta key w;
  match rv with
  | Throw ERR_EXPIRED _ | Throw ERR_NOTFOUND _ => Ret (w, Ret (Command_fmtStatus (lit "none")))
  | Throw _ _ => Ret (w, Ret (Command_fmtStatus (lit "unknown")))
  | Crash c => Crash c
  | Ret rv => name ← type_name (rv_type rv); Ret (w, Ret (Command_fmtStatus name))
  end.

(** ** PERSIST, REVISION *)

(** The entry of the index stays. *)
Definition Persist_run (key : bytes) (w : World) : Reply :=
  '(w, rv) ← readMeta key w;
  or_return w (meta_or_none rv) (fun o =>
  match o with
  | None => Ret (w, Ret Command_fmtZero)
  | Some rv =>
      let mk := RecordKey_new (chunkOf key) (sc_dbId sess) (rv_type rv) key [] 0 in
      '(w, tx) ← SessionCtx_createTransaction sess w;
      or_return w (RocksKVStore_setKV cfg mk (RecordValue_setTtl rv 0) tx now) (fun tx => commit_reply cfg sess w tx Command_fmtOne)
  end).

(** The record of the new version, and the time to live if it is given and there was none. *)
Definition revision_record (rv : RecordValue) (expvs expire : Z) : M RecordValue :=
  let rv := RecordValue_setVersionEP rv expvs in
  if 0 <? expire then
    if negb (rv_ttl rv =? 0) then Throw ERR_INTERGER (lit "expire not empty " ++ to_string (rv_ttl rv)) else Ret (RecordValue_setTtl rv expire)
  else Ret rv.

(** [expire] is the third argument, if it is there. An expired key is an error here. *)
Definition Revision_run (key revision : bytes) (expire : option bytes) (w : World) : Reply :=
  or_return w (expvs ← stoul revision; expire ← (match expire with Some e => e ← stoul e; Ret (s64 e) | None => Ret 0 end); Ret (expvs, expire)) (fun '(expvs, expire) =>
  '(w, tx) ← SessionCtx_createTransaction sess w;
  '(w, exprv) ← readMeta key w;
  let tx := tx_with_db tx (w_db w) in
  or_return w (find_record exprv) (fun o =>
  match o with
  | None => commit_reply cfg sess w tx Command_fmtOK
  | Some rv =>
      or_return w (rv ← revision_record rv expvs expire; RocksKVStore_setKV cfg (rk key) rv tx now) (fun tx => commit_reply cfg sess w tx Command_fmtOK)
  end)).

End Expire.
