(* ===== verification/ExpireSpec.v ===== *)
(** What the commands on the time to live of keys (commands/expire.cpp) promise. *)

From Stdlib Require Import Strings.Byte ZArith Lia.
From stdpp Require Import base list numbers strings gmap.
From S2P Require Import Prelude Status Varint Strings Number Record RecordValue RecordMeta ReplLog BinlogSeq Txn Store Replicate Cursor Command Elems Keys KeysSpec KeysDel Named Hash Members MembersSpec MembersCmd MembersMulti MembersStore Kv KvSpec KvMulti KvRename Expire.

Local Open Scope Z_scope.

(** The store keeps the log of the commands of this file. *)
#[local] Instance expire_logging : Logging := true.

Section Expire.
Context {BM : BuildMode} {T : Type} `{RocksIterLaws T} {HL : RocksDBLaws T} {HH : RocksDBHealthy T} {HI : RocksIterHealthy T} {HC : RocksDBCommits T}.
Variable cfg : StoreCfg.
Variable sess : SessionCtx.
Variables (now started clock currentTs : Z) (srv : ServerParams) (multi : option Z) (chunkOf : bytes -> Z).
Variables (dur : gset Z) (db : T).
Hypothesis Hso : store_ok cfg sess db.
Hypothesis Hlh : log_header sess.
Variable pk : bytes.
Hypothesis Hk : key_ok chunkOf pk.

#[local] Abbreviation meta := (data_meta_key sess chunkOf pk).
#[local] Abbreviation tx0 := (RocksTxn_new 0 false db).
#[local] Abbreviation reading := (reading dur db).
#[local] Abbreviation readable := (readable cfg sess currentTs srv multi chunkOf db pk).
#[local] Abbreviation readMeta := (read_meta cfg now srv sess multi (chunkOf pk) currentTs RT_DATA_META pk).

(** ** The index of expiries *)

(** The entry for the record at a time. *)
Definition index_of (v : RecordValue) (ttl : Z) : TTLIndex := mkTTLIndex pk (rv_type v) (sc_dbId sess) ttl.

(** The value of the entries. *)
Definition index_value : RecordValue := RecordValue_new [] RT_TTL_INDEX MAXU64 0 (-1) 0 MAXU64.

Lemma index_value_wf : RecordValue_wf index_value.
Proof. unfold RecordValue_wf. by split_and!. Qed.

Lemma index_of_wf v ttl : isDataMetaType (rv_type v) = true -> is_u64 ttl -> TTLIndex_wf (index_of v ttl).
Proof. intros Hm Ht. unfold TTLIndex_wf. cbn. split; [done|]. split; [apply Hso|]. split; [done|apply Hk]. Qed.

(** [tx'] is [tx] with the entry moved from the time of [v] to [expireAt], and nothing else changed. *)
Definition index_moves (v : RecordValue) (expireAt : Z) (tx tx' : RocksTxn T) : Prop :=
  forall k, data_key k -> ~ RecordKey_equiv k meta ->
    if among (index_keys (Some (index_of v expireAt))) k then exists s, raw_record tx' k = Some s /\ RecordValue_decode s = Ret index_value
    else raw_record tx' k = if among (index_keys (if rv_ttl v =? 0 then None else Some (index_of v (rv_ttl v)))) k then None else raw_record tx k.

(** The record of the key in [tx'] is [v] with the new time, under the version of the session. *)
Definition retimed (v : RecordValue) (expireAt : Z) (tx tx' : RocksTxn T) : Prop :=
  writable tx' /\ kept tx tx' /\ RocksKVStore_getKV cfg meta tx' = Ret (RecordValue_setVersionEP (RecordValue_setTtl v expireAt) (sc_versionEP sess)) /\ index_moves v expireAt tx tx'.

Lemma retimed_wf v ttl ep : RecordValue_wf v -> isDataMetaType (rv_type v) = true -> is_u64 ttl -> is_u64 ep -> RecordValue_wf (RecordValue_setVersionEP (RecordValue_setTtl v ttl) ep).
Proof.
  intros (A & B & C & D & E & F & G & I & _) Hm Ht He. unfold RecordValue_wf. cbn [rv_type rv_ttl rv_version rv_versionEP rv_cas rv_pieceSize rv_totalSize rv_value RecordValue_setVersionEP RecordValue_setTtl]. repeat (split; [done|]). congruence.
Qed.

Lemma among_one j k : among [j] k = RecordKey_eqb k j.
Proof. apply orb_false_r. Qed.

Lemma index_keys_one v ttl : rv_type v <> RT_KV -> isDataMetaType (rv_type v) = true ->
  exists c, rt2Char (rv_type v) = Ret c /\ index_keys (Some (index_of v ttl)) = [ti_key (index_of v ttl) c].
Proof.
  intros Hn Hm. destruct (rt2Char_some (rv_type v)) as [c Hc]; [by intros E; rewrite E in Hm|]. exists c. split; [done|]. unfold index_keys. cbn [ti_type index_of].
  by rewrite bool_decide_false, Hc.
Qed.

Lemma expire_index_ok v expireAt (tx : RocksTxn T) : writable tx -> RecordValue_wf v -> isDataMetaType (rv_type v) = true -> is_u64 expireAt ->
  exists tx', expire_index cfg sess now pk v expireAt tx = Ret tx' /\ writable tx' /\ kept tx tx' /\ index_moves v expireAt tx tx'.
Proof.
  intros Hw Hwf Hm Ht. unfold expire_index. cbv zeta. fold (index_of v (rv_ttl v)) (index_of v expireAt). destruct (bool_decide (rv_type v = RT_KV)) eqn:Eb.
  { exists tx. split; [done|]. split; [done|]. split; [done|]. intros k _ _. unfold index_keys. cbn [ti_type index_of]. rewrite Eb. destruct (rv_ttl v =? 0); cbn; [done|]. by rewrite Eb. }
  destruct (del_index_ok cfg (so_cat _ _ _ Hso) now (if rv_ttl v =? 0 then None else Some (index_of v (rv_ttl v))) tx Hw) as (tx1 & E1 & Hw1 & Hk1 & Hr1).
  { intros t. destruct (rv_ttl v =? 0); intros [= <-]. apply index_of_wf; [done|apply Hwf]. }
  assert ((if negb (rv_ttl v =? 0) then k ← TTLIndex_encode (index_of v (rv_ttl v)); RocksTxn_delKV cfg tx k 0 now else Ret tx) = Ret tx1) as ->.
  { rewrite <-E1. destruct (rv_ttl v =? 0); cbn [negb del_index]; [done|]. cbn [ti_type index_of]. by rewrite Eb. }
  apply bool_decide_eq_false in Eb. rewrite bind_Ret. pose proof (index_of_wf v expireAt Hm Ht) as Hti. destruct (index_keys_one v expireAt Eb Hm) as (c & Hc & Ek).
  destruct (TTLIndex_encode_total _ Hti) as (c' & Hc' & Et). cbn [ti_type index_of] in Hc'. assert (c' = c) as -> by congruence. rewrite Et.
  assert (data_key (ti_key (index_of v expireAt) c)) as Hd by (split; [by apply ti_key_wf|done]).
  destruct (setKV_ok cfg (so_cat _ _ _ Hso) (ti_key (index_of v expireAt) c) index_value tx1 now Hd index_value_wf Hw1) as (tx' & s & E & (Hw' & Hs & Hr) & Es).
  exists tx'. split; [exact E|]. split; [done|]. split; [transitivity tx1; [done|exact (setKV_kept cfg _ index_value tx1 tx' now E Hd index_value_wf)]|]. intros k Hdk _. rewrite Ek, among_one.
  destruct (RecordKey_eqb k _) eqn:Eq; [exists s; split; [|done]; by rewrite (raw_record_equiv tx' k (ti_key (index_of v expireAt) c))|].
  rewrite Hr; [by apply Hr1|done|]. unfold RecordKey_equiv. congruence.
Qed.

Lemma expire_update_ok v expireAt (tx : RocksTxn T) : writable tx -> RecordValue_wf v -> isDataMetaType (rv_type v) = true -> is_u64 expireAt -> RocksKVStore_getKV cfg meta tx = Ret v ->
  exists tx', expire_update cfg sess now chunkOf pk expireAt tx = Ret (tx', true) /\ retimed v expireAt tx tx'.
Proof.
  intros Hw Hwf Hm Ht Eg. unfold expire_update. rewrite Eg. cbn [find_record]. rewrite bind_Ret. destruct (expire_index_ok v expireAt tx Hw Hwf Hm Ht) as (tx1 & E1 & Hw1 & Hk1 & Hi). rewrite E1, bind_Ret.
  destruct (meta_data cfg sess chunkOf db Hso pk Hk) as [Hmd Ety]. pose proof (retimed_wf v expireAt (sc_versionEP sess) Hwf Hm Ht (so_ep _ _ _ Hso)) as Hwf'.
  destruct (setKV_ok cfg (so_cat _ _ _ Hso) meta _ tx1 now Hmd Hwf' Hw1) as (tx' & s & E & W & Es). rewrite E, bind_Ret. exists tx'. split; [done|]. split; [apply W|].
  split; [transitivity tx1; [done|exact (setKV_kept cfg meta _ tx1 tx' now E Hmd Hwf')]|]. split.
  - pose proof (getKV_raw cfg meta tx' Hmd) as G. rewrite (proj1 (proj2 W)) in G. by rewrite G.
  - intros k Hdk Hne. specialize (Hi k Hdk Hne). by rewrite (proj2 (proj2 W) k Hdk Hne).
Qed.

(** ** EXPIRE and its kin *)

#[local] Abbreviation run := (GeneralExpire_run cfg sess now started clock currentTs srv multi chunkOf).
#[local] Abbreviation missing := (exists msg, RocksKVStore_getKV cfg meta tx0 = Throw ERR_NOTFOUND msg).

(** The key is there and has not expired, or is not there. *)
Lemma here_read n w (o : option RecordValue) : 0 <= n -> reading (n + 1) w -> match o with Some v => readable v | None => missing end ->
  exists w' rv, readMeta w = Ret (w', rv) /\ meta_or_none rv = Ret o /\ find_record rv = Ret o /\ reading n w' /\ w_txn w' = w_txn w /\ (forall v, o = Some v -> rv = Ret v).
Proof.
  intros Hn Hw Ho. destruct o as [v|].
  - destruct Ho as (Eg & _ & _ & He & Hv). destruct (reading_read cfg sess now currentTs srv multi chunkOf dur db Hso n w RT_DATA_META pk (Ret v) Hn Hw Hk eq_refl Eg) as (w' & E & Hr & Et); [by apply readable_verdict|].
    exists w', (Ret v). split_and!; try done. by intros ? [= ->].
  - destruct Ho as (msg & Eg). destruct (reading_read cfg sess now currentTs srv multi chunkOf dur db Hso n w RT_DATA_META pk _ Hn Hw Hk eq_refl Eg) as (w' & E & Hr & Et); [done|].
    by exists w', (Throw ERR_NOTFOUND msg).
Qed.

(** The transaction that the command opens, and what it reads with it. *)
Lemma here_open w (o : option RecordValue) : reading 2 w -> w_txn w = None -> match o with Some v => readable v | None => missing end ->
  exists w1 w2 txc rv, SessionCtx_createTransaction sess w = Ret (w1, txc) /\ readMeta w1 = Ret (w2, rv) /\ meta_or_none rv = Ret o /\ find_record rv = Ret o /\
    w2 = mkWorld (w_store w2) db (Some txc) /\ w1 = mkWorld (w_store w1) db (Some txc) /\ writable (tx_with_db txc db) /\ (forall v, o = Some v -> rv = Ret v) /\
    opened (mkWorld (w_store w2) db (Some txc)) (tx_with_db txc db).
Proof.
  intros Hw Et Ho. destruct (reading_create cfg sess dur db Hso 1 w ltac:(lia) Hw Et) as (w1 & txc & Ec & Hw1 & Et1). destruct (here_read 0 w1 o ltac:(lia) Hw1 Ho) as (w2 & rv & Er & Em & Ef & Hw2 & Et2 & Hv).
  exists w1, w2, txc, rv. do 4 (split; [done|]). rewrite Et1 in Et2. pose proof (reading_opened dur db 0 w2 txc eq_refl Hw2 Et2) as Hop. pose proof (proj1 Hw2) as Edb2. destruct Hw1 as (Edb1 & _ & _ & Hwr). rewrite Et1 in Hwr. split; [destruct w2; cbn in *; by subst|]. split; [destruct w1; cbn in *; by subst|]. do 2 (split; [done|]). destruct Hop as (_ & Hop). by split; [eexists|].
Qed.

(** The transaction [tx'] that a command goes on to commit, and its reply. *)
Definition closes (P : RocksTxn T -> RocksTxn T -> Prop) (reply : bytes) (result : M (World (T := T) * M bytes)) : Prop :=
  exists tx tx', tx_db tx = db /\ P tx tx' /\ commits tx' reply result.

Lemma closes_intro (P : RocksTxn T -> RocksTxn T -> Prop) reply ks1 txc tx tx' result : tx_db tx = db -> P tx tx' ->
  opened (mkWorld ks1 db (Some txc)) tx -> kept tx tx' -> writable tx' -> result = commit_reply cfg sess (mkWorld ks1 db (Some txc)) tx' reply -> closes P reply result.
Proof. intros Edb HP Hop Hkp Hw ->. exists tx, tx'. split; [done|]. split; [done|]. by apply (commit_commits cfg sess Hlh _ tx). Qed.

Lemma u64_range z : is_u64 (u64 z).
Proof. unfold u64, wrap, is_u. by apply Z.mod_pos_bound. Qed.

Lemma expire_after name val n expireAt w v : reading 2 w -> w_txn w = None -> readable v -> stoll val = Ret n -> expire_millsecs started name n = Ret expireAt -> s64 clock <= expireAt \/ sp_noexpire srv = true ->
  closes (retimed v (u64 expireAt)) Command_fmtOne (run name pk val w).
Proof.
  intros Hw Et Hv En Ea Hc. destruct (here_open w (Some v) Hw Et Hv) as (w1 & w2 & txc & rv & Ec & Er & Em & _ & Ew2 & _ & Hwr & _ & Hop). destruct Hv as (Eg & Hwf & Hm & _).
  destruct (expire_update_ok v (u64 expireAt) (tx_with_db txc db) Hwr Hwf Hm (u64_range _)) as (tx' & Eu & Hr); [rewrite <-Eg; by apply getKV_same|].
  apply (closes_intro _ _ (w_store w2) txc (tx_with_db txc db) tx'); [done|done|done|apply Hr|apply Hr|]. unfold GeneralExpire_run. rewrite En. cbn [or_return]. rewrite Ec, bind_Ret, Ea, bind_Ret. unfold expireGeneric.
  assert ((s64 clock <=? expireAt) || sp_noexpire srv = true) as -> by (destruct Hc as [Hc| ->]; [by rewrite (proj2 (Z.leb_le _ _) Hc)|apply orb_true_r]).
  unfold expireAfterNow. rewrite Er, bind_Ret, Em. cbn [or_return]. rewrite Ew2. cbn [w_db w_store]. rewrite Eu. done.
Qed.

(** The same check in front of a deletion. *)
Lemma chk_read w w' rv : readMeta w = Ret (w', rv) ->
  Command_expireKeyIfNeeded cfg now srv sess multi (chunkOf pk) currentTs pk RT_DATA_META true (w_store w) (w_db w) = Ret (w_store w', w_db w', rv) /\ w_txn w' = w_txn w.
Proof. unfold read_meta. intros E. apply bind_Ret_inv in E as ([[ks1 db1] r] & E & [= <- <-]). by rewrite E. Qed.

Lemma expire_missing name val n expireAt w : reading 2 w -> w_txn w = None -> missing -> stoll val = Ret n -> expire_millsecs started name n = Ret expireAt ->
  closes (fun tx tx' => tx' = tx) Command_fmtZero (run name pk val w).
Proof.
  intros Hw Et Hv En Ea. destruct (here_open w None Hw Et Hv) as (w1 & w2 & txc & rv & Ec & Er & Em & _ & Ew2 & _ & Hwr & _ & Hop).
  apply (closes_intro _ _ (w_store w2) txc (tx_with_db txc db) (tx_with_db txc db)); [done|done|done|done|done|]. unfold GeneralExpire_run. rewrite En. cbn [or_return]. rewrite Ec, bind_Ret, Ea, bind_Ret. unfold expireGeneric.
  destruct (_ || _).
  - unfold expireAfterNow. rewrite Er, bind_Ret, Em. cbn [or_return]. by rewrite Ew2.
  - unfold expireBeforeNow, Command_delKeyChkExpire. destruct (chk_read _ _ _ Er) as [-> Et2]. rewrite bind_Ret, <-Et2. rewrite Ew2. cbn [w_db w_store w_txn].
    destruct rv as [|c msg|]; [done| |done]. by destruct c.
Qed.

Lemma expire_before name val n expireAt w v cnt : reading 2 w -> w_txn w = None -> readable v -> stoll val = Ret n -> expire_millsecs started name n = Ret expireAt -> expireAt < s64 clock -> sp_noexpire srv = false ->
  getSubKeyCount meta v = Ret cnt -> Command_useDeleteRange cnt (rv_type v) srv = false ->
  closes (key_gone (chunkOf pk) (sc_dbId sess) pk (ele_list (rv_type v)) meta (index_keys (if 0 <? rv_ttl v then Some (index_of v (rv_ttl v)) else None))) Command_fmtOne (run name pk val w).
Proof.
  intros Hw Et Hv En Ea Hc Hne Hcnt Huse. destruct (here_open w (Some v) Hw Et Hv) as (w1 & w2 & txc & rv & Ec & Er & Em & _ & Ew2 & _ & Hwr & Hrv & Hop). destruct Hv as (Eg & Hwf & Hm & _).
  rewrite (Hrv v eq_refl) in Er. pose proof Hso as [Hcat Hdb Hep Hro Htd Hsz]. pose proof Hk as [Hpk Hch].
  destruct (delKey_ok cfg Hcat now srv sess (chunkOf pk) pk Hpk Hch Hdb RT_DATA_META (w_store w2) db (tx_with_db txc db) v cnt) as (tx' & Ed & Hg); try done.
  apply (closes_intro _ _ (w_store w2) txc (tx_with_db txc db) tx'); [done|done|done|apply Hg|apply Hg|]. unfold GeneralExpire_run. rewrite En. cbn [or_return]. rewrite Ec, bind_Ret, Ea, bind_Ret. unfold expireGeneric.
  rewrite Hne, (proj2 (Z.leb_gt _ _) Hc). cbn [orb]. unfold expireBeforeNow, Command_delKeyChkExpire. destruct (chk_read _ _ _ Er) as [-> Et2]. rewrite bind_Ret, <-Et2. rewrite Ew2. cbn [w_db w_store w_txn].
  by rewrite Ed.
Qed.


(** ** PERSIST and REVISION *)

#[local] Abbreviation persist := (Persist_run cfg sess now currentTs srv multi chunkOf).
#[local] Abbreviation revision := (Revision_run cfg sess now currentTs srv multi chunkOf).

(** [tx'] is [tx] with the record of the key replaced, and nothing else changed. *)
Definition rewritten (v : RecordValue) (tx tx' : RocksTxn T) : Prop :=
  writable tx' /\ kept tx tx' /\ RocksKVStore_getKV cfg meta tx' = Ret v /\ forall k, data_key k -> ~ RecordKey_equiv k meta -> raw_record tx' k = raw_record tx k.

Lemma rewrite_ok v (tx : RocksTxn T) : writable tx -> RecordValue_wf v -> exists tx', RocksKVStore_setKV cfg meta v tx now = Ret tx' /\ rewritten v tx tx'.
Proof.
  intros Hw Hwf. destruct (meta_data cfg sess chunkOf db Hso pk Hk) as [Hmd _]. destruct (setKV_ok cfg (so_cat _ _ _ Hso) meta v tx now Hmd Hwf Hw) as (tx' & s & E & W & Es).
  exists tx'. split; [done|]. split; [apply W|]. split; [exact (setKV_kept cfg meta v tx tx' now E Hmd Hwf)|]. split; [|apply W]. pose proof (getKV_raw cfg meta tx' Hmd) as G. rewrite (proj1 (proj2 W)) in G. by rewrite G.
Qed.

Lemma meta_of_type t v (tx : RocksTxn T) : isDataMetaType t = true -> RocksKVStore_setKV cfg (RecordKey_new (chunkOf pk) (sc_dbId sess) t pk [] 0) v tx now = RocksKVStore_setKV cfg meta v tx now.
Proof.
  intros Ht. assert (RecordKey_equiv (RecordKey_new (chunkOf pk) (sc_dbId sess) t pk [] 0) meta) as Hq by (apply RecordKey_equiv_fields; by destruct t).
  unfold RocksKVStore_setKV. by rewrite (RecordKey_encode_proper _ _ Hq).
Qed.

Lemma persist_ok v w : reading 2 w -> w_txn w = None -> readable v -> closes (rewritten (RecordValue_setTtl v 0)) Command_fmtOne (persist pk w).
Proof.
  intros Hw Et Hv. destruct (here_read 1 w (Some v) ltac:(lia) Hw Hv) as (w1 & rv & Er & Em & _ & Hw1 & Et1 & _). rewrite Et in Et1.
  destruct (reading_create cfg sess dur db Hso 0 w1 ltac:(lia) Hw1 Et1) as (w2 & tx & Ec & Hw2 & Et2). pose proof (reading_opened dur db 0 w2 tx eq_refl Hw2 Et2) as Hop. destruct Hw2 as (Edb2 & _ & _ & Hwr). rewrite Et2 in Hwr. destruct Hv as (Eg & Hwf & Hm & _).
  assert (tx_db tx = db) as Edb by (unfold SessionCtx_createTransaction in Ec; rewrite Et1 in Ec; apply bind_Ret_inv in Ec as ([[ks1 id] b] & _ & [= <- <-]); apply Hw1).
  assert (tx_with_db tx db = tx) as Etx by (destruct tx; cbn in *; by subst). rewrite Etx in Hwr.
  assert (RecordValue_wf (RecordValue_setTtl v 0)) as Hwf' by (destruct Hwf as (A & B & C & D & E & F & G & I & _); unfold RecordValue_wf; cbn [rv_type rv_ttl rv_version rv_versionEP rv_cas rv_pieceSize rv_totalSize rv_value RecordValue_setTtl]; repeat (split; [done|]); congruence).
  destruct (rewrite_ok _ tx Hwr Hwf') as (tx' & E & Hr). apply (closes_intro _ _ (w_store w2) tx tx tx'); [done|done|by destruct Hop as (_ & Hop); split; [eexists|]|apply Hr|apply Hr|]. unfold Persist_run. rewrite Er, bind_Ret, Em. cbn [or_return].
  rewrite Ec, bind_Ret, meta_of_type, E by done. cbn [or_return]. f_equal. destruct w2. cbn in *. by subst.
Qed.

(** The time that REVISION is given. *)
Definition revision_time (expire : option bytes) (x : Z) : Prop := match expire with Some t => exists z, stoul t = Ret z /\ x = s64 z | None => x = 0 end.

Lemma revision_open o rev e expire x w : reading 2 w -> w_txn w = None -> match o with Some v => readable v | None => missing end -> stoul rev = Ret e -> revision_time expire x ->
  exists ks1 txc, writable (tx_with_db txc db) /\ opened (mkWorld ks1 db (Some txc)) (tx_with_db txc db) /\ revision pk rev expire w =
    let w := mkWorld ks1 db (Some txc) in
    match o with
    | None => commit_reply cfg sess w (tx_with_db txc db) Command_fmtOK
    | Some v => or_return w (rv ← revision_record v e x; RocksKVStore_setKV cfg meta rv (tx_with_db txc db) now) (fun tx => commit_reply cfg sess w tx Command_fmtOK)
    end.
Proof.
  intros Hw Et Ho Ee Hx. destruct (here_open w o Hw Et Ho) as (w1 & w2 & txc & rv & Ec & Er & _ & Ef & Ew2 & _ & Hwr & _ & Hop). exists (w_store w2), txc. split; [done|]. split; [done|]. unfold Revision_run. rewrite Ee, bind_Ret.
  assert ((match expire with Some e => e ← stoul e; Ret (s64 e) | None => Ret 0 end) = Ret x) as -> by (destruct expire as [t|]; [destruct Hx as (z & -> & ->); done|by rewrite Hx]).
  rewrite bind_Ret. cbn [or_return]. rewrite Ec, bind_Ret, Er, bind_Ret, Ef. cbn [or_return]. by rewrite Ew2.
Qed.

Lemma revision_ok v rev e expire x v' w : reading 2 w -> w_txn w = None -> readable v -> stoul rev = Ret e -> revision_time expire x -> revision_record v e x = Ret v' -> RecordValue_wf v' ->
  closes (rewritten v') Command_fmtOK (revision pk rev expire w).
Proof.
  intros Hw Et Hv Ee Hx Ev Hwf'. destruct (revision_open (Some v) rev e expire x w Hw Et Hv Ee Hx) as (ks1 & txc & Hwr & Hop & ->). destruct (rewrite_ok v' _ Hwr Hwf') as (tx' & E & Hr).
  apply (closes_intro _ _ ks1 txc (tx_with_db txc db) tx'); [done|done|done|apply Hr|apply Hr|]. cbv zeta. by rewrite Ev, bind_Ret, E.
Qed.

Lemma stoul_u64 s n : stoul s = Ret n -> is_u64 n.
Proof.
  unfold stoul, parse_int, std_stoull, strto. destruct (space_at_end s); [done|]. destruct (take_sign _) as [neg [|c p]]; [done|]. destruct (isdigit c); [|done].
  pose proof (take_digits_ge (c :: p) 0 ltac:(lia)) as Hge. cbn [mbind option_bind]. destruct (Z.ltb_spec (take_digits 0 (c :: p)) (2 ^ 64)); [|done].
  destruct neg; intros [= <-]; [apply u64_range|]. by split.
Qed.

(** ** Exactness of the index *)

(** The index has the entry of the record for this time. *)
Definition in_index (v : RecordValue) (ttl : Z) (tx : RocksTxn T) : Prop := exists k, index_keys (Some (index_of v ttl)) = [k] /\ raw_record tx k <> None.

(** The index has the time of the record, and no other time for its key and type. *)
Definition index_exact (v : RecordValue) (tx : RocksTxn T) : Prop := forall ttl, is_u64 ttl -> in_index v ttl tx <-> rv_ttl v = ttl /\ ttl <> 0.

Lemma index_key_inj v a b c : is_u64 a -> is_u64 b -> RecordKey_equiv (ti_key (index_of v a) c) (ti_key (index_of v b) c) -> a = b.
Proof.
  intros Ha Hb (_ & _ & _ & E & _)%RecordKey_equiv_fields. cbn [rk_pk ti_key RecordKey_new] in E. unfold ti_raw in E. apply app_inj_1 in E as [E _]; [|by rewrite !length_be_bytes].
  by apply (be_bytes_inj 8).
Qed.

Lemma among_index v a b k : rv_type v <> RT_KV -> isDataMetaType (rv_type v) = true -> is_u64 a -> is_u64 b -> index_keys (Some (index_of v a)) = [k] -> among (index_keys (Some (index_of v b))) k = bool_decide (a = b).
Proof.
  intros Hn Hm Ha Hb Ek. destruct (index_keys_one v a Hn Hm) as (c & Hc & Ea), (index_keys_one v b Hn Hm) as (c' & Hc' & ->). assert (c' = c) as -> by congruence. rewrite Ek in Ea. injection Ea as ->. rewrite among_one.
  case_bool_decide as E; [subst; apply (reflexivity (R := RecordKey_equiv))|]. destruct (RecordKey_eqb _ _) eqn:Eq; [|done]. by apply index_key_inj in Eq.
Qed.

Lemma index_key_data v ttl k : isDataMetaType (rv_type v) = true -> is_u64 ttl -> index_keys (Some (index_of v ttl)) = [k] -> data_key k /\ ~ RecordKey_equiv k meta.
Proof.
  intros Hm Ht Ek. unfold index_keys in Ek. destruct (bool_decide _); [done|]. destruct (rt2Char _) as [c| |]; [|done|done]. injection Ek as <-. split.
  - split; [by apply ti_key_wf, index_of_wf|done].
  - by intros (_ & _ & Et & _)%RecordKey_equiv_fields.
Qed.

Lemma listed_raw v ttl tx k : index_keys (Some (index_of v ttl)) = [k] -> in_index v ttl tx <-> raw_record tx k <> None.
Proof. intros Ek. unfold in_index. rewrite Ek. split; [by intros (k' & [= <-] & ?)|intros ?; by exists k]. Qed.

Lemma retimed_exact v expireAt tx tx' : rv_type v <> RT_KV -> isDataMetaType (rv_type v) = true -> is_u64 (rv_ttl v) -> is_u64 expireAt -> expireAt <> 0 ->
  retimed v expireAt tx tx' -> index_exact v tx -> index_exact (RecordValue_setVersionEP (RecordValue_setTtl v expireAt) (sc_versionEP sess)) tx'.
Proof.
  intros Hn Hm Hv Ht Hz (_ & _ & _ & Hi) Hx ttl Hu. change (in_index (RecordValue_setVersionEP _ _) ttl tx') with (in_index v ttl tx'). cbn [rv_ttl RecordValue_setVersionEP RecordValue_setTtl].
  destruct (index_keys_one v ttl Hn Hm) as (c & Hc & Ek). destruct (index_key_data v ttl _ Hm Hu Ek) as [Hd Hne]. rewrite (listed_raw v ttl tx' _ Ek). specialize (Hi _ Hd Hne).
  rewrite (among_index v ttl expireAt _ Hn Hm Hu Ht Ek) in Hi. case_bool_decide as Ea; [destruct Hi as (s & -> & _); by subst|]. rewrite Hi. specialize (Hx ttl Hu). rewrite (listed_raw v ttl tx _ Ek) in Hx.
  destruct (Z.eqb_spec (rv_ttl v) 0) as [Ez|Ez]; [|rewrite (among_index v ttl (rv_ttl v) _ Hn Hm Hu Hv Ek); case_bool_decide as Eo].
  - cbn [index_keys among existsb]. rewrite Hx, Ez. naive_solver.
  - naive_solver.
  - rewrite Hx. naive_solver.
Qed.

Lemma rewritten_listed v v' ttl tx tx' : isDataMetaType (rv_type v) = true -> is_u64 ttl -> rv_type v' = rv_type v -> rewritten v' tx tx' -> in_index v' ttl tx' <-> in_index v ttl tx.
Proof.
  intros Hm Hu Et (_ & _ & _ & Hr). unfold in_index. replace (index_of v' ttl) with (index_of v ttl) by (unfold index_of; by rewrite Et).
  split; intros (k & Ek & Hl); exists k; (split; [done|]); destruct (index_key_data v ttl k Hm Hu Ek) as [Hd Hne]; [by rewrite <-(Hr k Hd Hne)|by rewrite (Hr k Hd Hne)].
Qed.

Lemma closes_mono (P Q : RocksTxn T -> RocksTxn T -> Prop) reply result : (forall tx tx', tx_db tx = db -> P tx tx' -> Q tx tx') -> closes P reply result -> closes Q reply result.
Proof. intros HPQ (tx & tx' & Edb & HP & Hc). exists tx, tx'. split; [done|]. split; [by apply HPQ|done]. Qed.

Lemma index_exact_db v (tx tx' : RocksTxn T) : tx_db tx = tx_db tx' -> index_exact v tx' -> index_exact v tx.
Proof. intros E Hx ttl Hu. rewrite <-(Hx ttl Hu). unfold in_index, raw_record. by rewrite E. Qed.

(** C14: when the index of expiries has exactly the time of a key that is not a string, EXPIRE and its
    kin leave it so, with the new time. PERSIST does not: it clears the time of the record and leaves
    the entry. REVISION does not either: it gives the record a time that the index does not have, so
    that the scan for expired keys never comes to it. The database accepts the commit, and the store
    holds afterwards what the transaction saw. *)
Theorem index_exactness name val n expireAt rev e arg x v w :
  reading 2 w -> w_txn w = None -> readable v -> rv_type v <> RT_KV -> index_exact v tx0 ->
  stoll val = Ret n -> expire_millsecs started name n = Ret expireAt -> s64 clock <= expireAt -> 0 < expireAt < 2 ^ 63 -> stoul rev = Ret e -> stoul arg = Ret x -> 0 < x < 2 ^ 63 ->
  closes (fun tx tx' => exists v', RocksKVStore_getKV cfg meta tx' = Ret v' /\ rv_ttl v' = expireAt /\ index_exact v' tx') Command_fmtOne (run name pk val w) /\
  closes (fun tx tx' => exists v', RocksKVStore_getKV cfg meta tx' = Ret v' /\ rv_ttl v' = 0 /\ (rv_ttl v <> 0 -> in_index v' (rv_ttl v) tx')) Command_fmtOne (persist pk w) /\
  (rv_ttl v = 0 -> closes (fun tx tx' => exists v', RocksKVStore_getKV cfg meta tx' = Ret v' /\ rv_ttl v' = x /\ ~ in_index v' x tx') Command_fmtOK (revision pk rev (Some arg) w)).
Proof.
  intros Hw Et Hv Hn Hx0 En Ea Hc Hp Ee Ex Hxr. pose proof Hv as (Eg & Hwf & Hm & _). assert (is_u64 (rv_ttl v)) as Hu by apply Hwf. assert (u64 expireAt = expireAt) as Eu by (apply wrap_id; unfold is_u; lia).
  split; [|split].
  - apply (closes_mono (retimed v (u64 expireAt))); [|apply (expire_after name val n); [done|done|done|done|done|by left]]. rewrite Eu. intros tx tx' Edb Hr. pose proof (index_exact_db v tx tx0 Edb Hx0) as Hx. eexists. split; [apply Hr|]. split; [done|].
    apply (retimed_exact v expireAt tx); [done|done|done|unfold is_u; lia|lia|done|done].
  - apply (closes_mono (rewritten (RecordValue_setTtl v 0))); [|by apply persist_ok]. intros tx tx' Edb Hr. pose proof (index_exact_db v tx tx0 Edb Hx0) as Hx. eexists. split; [apply Hr|]. split; [done|]. intros Hz.
    apply (rewritten_listed v _ _ tx); [done|done|done|done|]. by apply Hx.
  - intros Hz. assert (s64 x = x) as Es by (apply s64_id; lia). set (v' := RecordValue_setTtl (RecordValue_setVersionEP v e) x).
    assert (RecordValue_wf v') as Hwf'. { pose proof (retimed_wf v x e Hwf Hm) as Hq. apply Hq; [unfold is_u; lia|by apply (stoul_u64 rev)]. }
    apply (closes_mono (rewritten v')).
    + intros tx tx' Edb Hr. pose proof (index_exact_db v tx tx0 Edb Hx0) as Hx. exists v'. split; [apply Hr|]. split; [done|]. rewrite (rewritten_listed v v' x tx) by (done || unfold is_u; lia). rewrite (Hx x) by (unfold is_u; lia). lia.
    + apply (revision_ok v rev e (Some arg) x); [done|done|done|done|by exists x| |done]. unfold revision_record. rewrite (proj2 (Z.ltb_lt 0 x)) by lia. cbn [rv_ttl RecordValue_setVersionEP]. by rewrite Hz.
Qed.

Lemma s64_range z : s64 z < 2 ^ 63.
Proof. unfold signed. pose proof (Z.mod_pos_bound z (2 ^ 64) ltac:(done)) as Hm. change (z mod 2 ^ 64) with (wrap 64 z) in Hm. destruct (Z.leb_spec (2 ^ (64 - 1)) (wrap 64 z)); lia. Qed.

Lemma s64_u64_sub a b : 0 <= a < 2 ^ 63 -> 0 <= b < 2 ^ 63 -> s64 (u64 (a - b)) = a - b.
Proof.
  intros Ha Hb. unfold signed. rewrite (wrap_id 64 (wrap 64 (a - b))) by apply u64_range. destruct (Z.leb_spec 0 (a - b)).
  - rewrite wrap_id by (unfold is_u; lia). destruct (Z.leb_spec (2 ^ (64 - 1)) (a - b)); [lia|done].
  - assert (wrap 64 (a - b) = a - b + 2 ^ 64) as -> by (unfold wrap; rewrite <-(Z.mod_add _ 1) by done; apply Z.mod_small; lia). destruct (Z.leb_spec (2 ^ (64 - 1)) (a - b + 2 ^ 64)); lia.
Qed.

(** PERSIST of a key that is there commits its record without a time to live and touches no other
    record; its answer is 1 also when there was no time. REVISION gives the record its version, and its
    time when it has none; a second time is an error that changes nothing. For a key that is not there
    PERSIST answers 0 and REVISION OK, and nothing is written. *)
Theorem persist_revision_correct rev e expire x w :
  reading 2 w -> w_txn w = None -> stoul rev = Ret e -> revision_time expire x ->
  (missing -> answers db (persist pk w) Command_fmtZero /\ closes (fun tx tx' => tx' = tx) Command_fmtOK (revision pk rev expire w)) /\
  (forall v, readable v -> closes (rewritten (RecordValue_setTtl v 0)) Command_fmtOne (persist pk w)) /\
  (forall v, readable v -> x <= 0 -> closes (rewritten (RecordValue_setVersionEP v e)) Command_fmtOK (revision pk rev expire w)) /\
  (forall v, readable v -> 0 < x -> rv_ttl v = 0 -> closes (rewritten (RecordValue_setTtl (RecordValue_setVersionEP v e) x)) Command_fmtOK (revision pk rev expire w)) /\
  (forall v, readable v -> 0 < x -> rv_ttl v <> 0 -> fails db ERR_INTERGER (revision pk rev expire w)).
Proof.
  intros Hw Et Ee Hx. assert (is_u64 e) as He by by apply (stoul_u64 rev). assert (x < 2 ^ 63) as Hlt.
  { destruct expire as [t|]; [destruct Hx as (z & _ & ->)|by rewrite Hx]. apply s64_range. }
  assert (forall v, readable v -> RecordValue_wf (RecordValue_setVersionEP v e)) as Hwe.
  { intros v (_ & Hwf & Hm & _). exact (retimed_wf v (rv_ttl v) e Hwf Hm (proj1 (proj2 Hwf)) He). }
  split; [|split; [|split; [|split]]].
  - intros Hm. split.
    + destruct (here_read 1 w None ltac:(lia) Hw Hm) as (w1 & rv & Er & Em & _ & (Edb & _) & _ & _). exists w1. split; [|done]. unfold Persist_run. by rewrite Er, bind_Ret, Em.
    + destruct (revision_open None rev e expire x w Hw Et Hm Ee Hx) as (ks1 & txc & Hwr & Hop & ->). by apply (closes_intro _ _ ks1 txc (tx_with_db txc db) (tx_with_db txc db)).
  - intros v Hv. by apply persist_ok.
  - intros v Hv Hle. apply (revision_ok v rev e expire x); [done..| |by apply Hwe]. unfold revision_record. by rewrite (proj2 (Z.ltb_ge 0 x) Hle).
  - intros v Hv Hp Hz. apply (revision_ok v rev e expire x); [done..| |].
    + unfold revision_record. rewrite (proj2 (Z.ltb_lt 0 x) Hp). cbn [rv_ttl RecordValue_setVersionEP]. by rewrite Hz.
    + destruct Hv as (_ & Hwf & Hm & _). apply (retimed_wf v x e Hwf Hm); [unfold is_u; lia|done].
  - intros v Hv Hp Hz. destruct (revision_open (Some v) rev e expire x w Hw Et Hv Ee Hx) as (ks1 & txc & _ & _ & ->). cbv zeta. unfold revision_record. rewrite (proj2 (Z.ltb_lt 0 x) Hp).
    cbn [rv_ttl RecordValue_setVersionEP]. rewrite (proj2 (Z.eqb_neq _ _) Hz). cbn. eexists _, _. split; [reflexivity|done].
Qed.

(** ** TTL, PTTL and TYPE *)

(** What TYPE says of a key that is there. *)
Definition named_type (t : RecordType) : bytes := match type_name t with Ret s => s | _ => [] end.

Lemma type_name_known t : isDataMetaType t = true -> type_name t = Ret (named_type t).
Proof. by destruct t. Qed.

#[local] Abbreviation ttl := (GenericTtl_run cfg sess now clock currentTs srv multi chunkOf).
#[local] Abbreviation type := (Type_run cfg sess now currentTs srv multi chunkOf).

(** PTTL gives the milliseconds to the time of the key, and TTL the seconds, rounded to the nearest;
    a time that passed while the command ran counts as one millisecond. A key without a time gives -1
    and a key that is not there -2. TYPE names the type of the key, or none. They change nothing. *)
Theorem ttl_reads_correct w :
  reading 1 w -> 0 <= clock < 2 ^ 62 ->
  (missing -> (forall b, answers db (ttl b pk w) (Command_fmtLongLong (-2))) /\ answers db (type pk w) (Command_fmtStatus (lit "none"))) /\
  (forall v, readable v -> rv_ttl v = 0 -> forall b, answers db (ttl b pk w) (Command_fmtLongLong (-1))) /\
  (forall v, readable v -> 0 < rv_ttl v < 2 ^ 62 -> let ms := if rv_ttl v <? clock then 1 else rv_ttl v - clock in
     answers db (ttl true pk w) (Command_fmtLongLong ms) /\ answers db (ttl false pk w) (Command_fmtLongLong ((ms + 500) / 1000))) /\
  (forall v, readable v -> exists name, type_name (rv_type v) = Ret name /\ answers db (type pk w) (Command_fmtStatus name)).
Proof.
  intros Hw Hc. split; [|split; [|split]].
  - intros Hm. destruct (here_read 0 w None ltac:(lia) Hw Hm) as (w1 & rv & Er & Em & Ef & (Edb & _) & _ & _). split; [intros b; exists w1; unfold GenericTtl_run; by rewrite Er, bind_Ret, Em|].
    unfold Type_run. rewrite Er, bind_Ret. exists w1. split; [|done]. destruct rv as [|c msg|]; [done| |done]. by destruct c.
  - intros v Hv Hz b. destruct (here_read 0 w (Some v) ltac:(lia) Hw Hv) as (w1 & rv & Er & Em & _ & (Edb & _) & _ & _). unfold GenericTtl_run. rewrite Er, bind_Ret, Em. cbn [or_return]. rewrite Hz. by exists w1.
  - intros v Hv Ht ms. destruct (here_read 0 w (Some v) ltac:(lia) Hw Hv) as (w1 & rv & Er & Em & _ & (Edb & _) & _ & _).
    assert (ttl_left clock v = ms /\ 0 <= ms < 2 ^ 62) as [El Hms].
    { unfold ttl_left, ms. rewrite s64_u64_sub by lia. destruct (Z.ltb_spec (rv_ttl v) clock), (Z.ltb_spec (rv_ttl v - clock) 0); lia. }
    assert (add_s64 ms 500 = Ret (ms + 500)) as Ea by (unfold add_s64, LLONG_MIN, LLONG_MAX; destruct (Z.leb_spec (- 2 ^ 63) (ms + 500)), (Z.leb_spec (ms + 500) (2 ^ 63 - 1)); (done || lia)).
    split; exists w1; (split; [|done]); unfold GenericTtl_run; rewrite Er, bind_Ret, Em; cbn [or_return]; rewrite (proj2 (Z.eqb_neq (rv_ttl v) 0)), El by lia; [done|].
    by rewrite Ea, bind_Ret, Z.quot_div_nonneg by lia.
  - intros v Hv. exists (named_type (rv_type v)). pose proof Hv as (_ & _ & Hm & _). rewrite (type_name_known _ Hm). split; [done|].
    destruct (here_read 0 w (Some v) ltac:(lia) Hw Hv) as (w1 & rv & Er & _ & _ & (Edb & _) & _ & Erv). unfold Type_run. rewrite Er, bind_Ret, (Erv v eq_refl), (type_name_known _ Hm), bind_Ret. by exists w1.
Qed.

End Expire.

(** ** EXISTS *)

Section Exists.
Context {BM : BuildMode} {T : Type} `{RocksIterLaws T} {HL : RocksDBLaws T} {HH : RocksDBHealthy T} {HI : RocksIterHealthy T}.
Variable cfg : StoreCfg.
Variable sess : SessionCtx.
Variables (now currentTs : Z) (srv : ServerParams) (multi : option Z) (chunkOf : bytes -> Z).
Variables (dur : gset Z) (db : T).
Hypothesis Hso : store_ok cfg sess db.

(** The key is there and has not expired, or is not there. *)
Definition present (pk : bytes) (b : bool) : Prop :=
  key_ok chunkOf pk /\
  if b then exists v, readable cfg sess currentTs srv multi chunkOf db pk v else exists msg, RocksKVStore_getKV cfg (data_meta_key sess chunkOf pk) (RocksTxn_new 0 false db) = Throw ERR_NOTFOUND msg.

(** EXISTS counts the keys that are there, each as often as it is named. *)
Lemma exists_ok keys bs : Forall2 present keys bs -> forall n w, reading dur db (zlen keys) w ->
  answers db (exists_loop cfg sess now currentTs srv multi chunkOf keys n w) (Command_fmtLongLong (n + zlen (List.filter (fun b => b) bs))).
Proof.
  induction 1 as [|pk b keys bs [Hk Hb] _ IH]; intros n w Hw; [exists w; split; [by rewrite Z.add_0_r|apply Hw]|]. rewrite zlen_cons in Hw. pose proof (zlen_nonneg keys).
  assert (exists o : option RecordValue, bool_decide (is_Some o) = b /\ match o with Some v => readable cfg sess currentTs srv multi chunkOf db pk v | None => exists msg, RocksKVStore_getKV cfg (data_meta_key sess chunkOf pk) (RocksTxn_new 0 false db) = Throw ERR_NOTFOUND msg end) as (o & Eo & Ho).
  { destruct b; [destruct Hb as [v Hv]; by exists (Some v)|by exists None]. }
  destruct (here_read cfg sess now currentTs srv multi chunkOf dur db Hso pk Hk (zlen keys) w o ltac:(lia)) as (w1 & rv & Er & Em & _ & Hw1 & _ & _); [by rewrite Z.add_comm|done|].
  cbn [exists_loop]. rewrite Er, bind_Ret, Em. cbn [or_return]. destruct (IH (match o with Some _ => n + 1 | None => n end) w1 Hw1) as (w2 & E & Edb). exists w2. split; [|done]. rewrite E.
  subst b. cbn [List.filter]. destruct o; [rewrite bool_decide_true, zlen_cons, Z.add_assoc by done|rewrite bool_decide_false by (by intros [? [=]])]; done.
Qed.

End Exists.

(** * An example *)

#[local] Instance expire_build : BuildMode := true.

Lemma demo_skey : key_ok demo_schunk (lit "s").
Proof. apply demo_key_ok; [by apply (bool_decide_unpack _)|reflexivity]. Qed.

Lemma demo_sreadable : readable demo_cfg demo_sadd 3 demo_params None demo_schunk demo_sdb (lit "s") demo_smeta.
Proof. split; [vm_compute; reflexivity|]. assert (RecordValue_wf demo_smeta) as Hwf by (split_and!; (done || (unfold is_u, MAXU64; cbn; lia))). by split_and!. Qed.


(** The index has no entry for it, as it has no time. *)
Lemma demo_sexact : index_exact demo_sadd (lit "s") demo_smeta (RocksTxn_new 0 false demo_sdb).
Proof.
  intros ttl Hu. split; [|by intros [<- ?]]. intros (k & Ek & Hr). destruct Hr. unfold index_keys in Ek. cbn [ti_type index_of rv_type demo_smeta RecordValue_new] in Ek.
  rewrite bool_decide_false in Ek by done. cbn [rt2Char] in Ek. injection Ek as <-. set (k := ti_key _ _).
  assert (RecordKey_wf k) as Hk by (apply ti_key_wf; by split_and!). destruct (RecordKey_encode_total k Hk) as (c & _ & E). fold (rk_raw k c) in E. unfold raw_record. rewrite E, mem_read.
  assert (map_Forall (fun ck _ => take 4 ck.2 <> take 4 (rk_raw k c)) demo_sdb) as Hall by (change (take 4 (rk_raw k c)) with (be_bytes 4 TTLIndex_CHUNKID); apply (bool_decide_unpack _); by vm_compute).
  destruct (demo_sdb !! (CF_Default, rk_raw k c)) eqn:El; [|exact El]. by apply Hall in El.
Qed.

(** REVISION of it with a time that the index does not get. *)
Lemma index_exactness_witness :
  closes demo_sdb (fun tx tx' => exists v', RocksKVStore_getKV demo_cfg (data_meta_key demo_sadd demo_schunk (lit "s")) tx' = Ret v' /\ rv_ttl v' = 9 /\
    ~ in_index demo_sadd (lit "s") v' 9 tx') Command_fmtOK (Revision_run demo_cfg demo_sadd 0 3 demo_params None demo_schunk (lit "s") (lit "7") (Some (lit "9")) (mkWorld demo_store demo_sdb None)).
Proof.
  refine (proj2 (proj2 (index_exactness demo_cfg demo_sadd 0 3 3 3 demo_params None demo_schunk ∅ demo_sdb demo_store_ok demo_slh (lit "s") demo_skey EXPIRE (lit "100") 100 100003 (lit "7") 7 (lit "9") 9 demo_smeta
    (mkWorld demo_store demo_sdb None) _ _ demo_sreadable _ demo_sexact _ _ _ _ _ _ _)) _).
  - apply demo_reading. reflexivity.
  - reflexivity.
  - discriminate.
  - vm_compute. reflexivity.
  - vm_compute. reflexivity.
  - vm_compute. discriminate.
  - split; reflexivity.
  - vm_compute. reflexivity.
  - vm_compute. reflexivity.
  - split; reflexivity.
  - reflexivity.
Defined.

(** PERSIST of it. *)
Lemma persist_revision_correct_witness :
  closes demo_sdb (rewritten demo_cfg demo_sadd demo_schunk (lit "s") demo_smeta) Command_fmtOne
    (Persist_run demo_cfg demo_sadd 0 3 demo_params None demo_schunk (lit "s") (mkWorld demo_store demo_sdb None)).
Proof.
  refine (proj1 (proj2 (persist_revision_correct demo_cfg demo_sadd 0 3 demo_params None demo_schunk ∅ demo_sdb demo_store_ok demo_slh (lit "s") demo_skey (lit "7") 7 None 0 (mkWorld demo_store demo_sdb None) _ _ _ _)) demo_smeta demo_sreadable).
  - apply demo_reading. reflexivity.
  - reflexivity.
  - vm_compute. reflexivity.
  - reflexivity.
Defined.

(** TTL of it. *)
Lemma ttl_reads_correct_witness : answers demo_sdb (GenericTtl_run demo_cfg demo_sadd 0 3 3 demo_params None demo_schunk false (lit "s") (mkWorld demo_store demo_sdb None)) (Command_fmtLongLong (-1)).
Proof.
  refine (proj1 (proj2 (ttl_reads_correct demo_cfg demo_sadd 0 3 3 demo_params None demo_schunk ∅ demo_sdb demo_store_ok (lit "s") demo_skey (mkWorld demo_store demo_sdb None) _ _)) demo_smeta demo_sreadable _ false).
  - apply demo_reading. reflexivity.
  - split; [discriminate|reflexivity].
  - reflexivity.
Defined.
