(* ===== verification/IndexMgr.v ===== *)
(** The index manager (server/index_manager.cpp), for one store: the job that scans the index of
    expiries for keys that are due, and the job that deletes them. *)

From Stdlib Require Import Strings.Byte ZArith Lia.
From stdpp Require Import base list numbers strings gmap.
From S2P Require Import Prelude Status Varint Strings Number Record RecordValue RecordMeta ReplLog BinlogSeq Txn Store Replicate Cursor Command Elems Keys.

Local Open Scope Z_scope.

(** What the manager keeps for the store: the keys that are due, and the entry of the index at which
    the last scan ended. *)
Record IndexManager : Set := mkIndexMgr {
  im_expiredKeys : list TTLIndex;
  im_scanPoint : bytes;
  im_scanPointTtl : Z;
  im_disableStatus : bool;
  im_totalEnqueue : Z;
  im_totalDequeue : Z
}.

Definition IndexManager_new : IndexManager := mkIndexMgr [] [] MAXU64 false 0 0.

(** The counters are of all stores. *)
Definition IndexManager_stopStore (m : IndexManager) : IndexManager :=
  mkIndexMgr [] [] (im_scanPointTtl m) true (im_totalEnqueue m) (im_totalDequeue m).

(** A due key joins the queue and becomes the scan point. *)
Definition im_enqueue (m : IndexManager) (t : TTLIndex) (point : bytes) : IndexManager :=
  mkIndexMgr (im_expiredKeys m ++ [t]) point (ti_ttl t) (im_disableStatus m) (u64 (im_totalEnqueue m + 1)) (im_totalDequeue m).

Section Jobs.
Context {BM : BuildMode} {T : Type} `{RocksIter T}.

(** The loop of the scan; every round takes an entry of the index. *)
Fixpoint scan_loop (fuel : nat) (scanBatch : Z) (cursor : TTLIndexCursor) (m : IndexManager) : M IndexManager :=
  match fuel with
  | O => Crash CUndefined
  | S fuel' =>
      '(cursor, record) ← TTLIndexCursor_next cursor;
      match record with
      | Throw _ _ => Ret m
      | Crash c => Crash c
      | Ret t =>
          point ← TTLIndex_encode t;
          let m := im_enqueue m t point in
          if scanBatch <=? zlen (im_expiredKeys m) then Ret m else scan_loop fuel' scanBatch cursor m
      end
  end.

(** Behind the scan point; [None] when there is nothing from it on. *)
Definition scan_resume (prefix : bytes) (cursor : TTLIndexCursor) : M (option TTLIndexCursor) :=
  if 0 <? zlen prefix then
    let cursor := TTLIndexCursor_seek cursor prefix in
    key ← TTLIndexCursor_key cursor;
    match key with
    | Ret key => if bool_decide (prefix = key) then '(cursor, _) ← TTLIndexCursor_next cursor; Ret (Some cursor) else Ret (Some cursor)
    | _ => Ret None
    end
  else Ret (Some cursor).

(** The job, which the status flag keeps apart from another scan of the store; [migrating] is whether
    slots are being migrated, [currentTime] the time of the store. The transaction only reads. *)
Definition IndexManager_scanExpiredKeysJob (scanBatch currentTime : Z) (migrating : bool) (m : IndexManager) (ks : RocksKVStore) (db : T) : M (IndexManager * RocksKVStore * M unit) :=
  if im_disableStatus m then Ret (m, ks, Ret tt) else
  if migrating then Ret (m, ks, Ret tt) else
  if scanBatch <=? zlen (im_expiredKeys m) then Ret (m, ks, Ret tt) else
  if bool_decide (ks_mode ks = REPLICATE_ONLY) || bool_decide (ks_mode ks = STORE_NONE) then Ret (m, ks, Ret tt) else
  match RocksKVStore_createTransaction ks (Some false) with
  | Throw c msg => Ret (m, ks, Throw c msg)
  | Crash c => Crash c
  | Ret (ks, txnId, replOnly) =>
      let tx := RocksTxn_new txnId replOnly db in
      cursor ← RocksTxn_createTTLIndexCursor tx currentTime;
      cursor ← scan_resume (im_scanPoint m) cursor;
      m ← match cursor with Some cursor => scan_loop (scan_fuel tx) scanBatch cursor m | None => Ret m end;
      ks ← RocksTxn_destroy ks tx;
      Ret (m, ks, Ret tt)
  end.

(** ** Deleting *)

Variable cfg : StoreCfg.
Variable now : Z.
Variable srv : ServerParams.
Variable chunkOf : bytes -> Z.
(** The time at which each of the keys is looked at. *)
Variable clock : Z -> Z.

(** The session of the job. *)
Definition local_session (dbId : Z) : SessionCtx := mkSess dbId VERSIONEP_UNINITED false [].

Definition im_dequeue (m : IndexManager) (rest : list TTLIndex) : IndexManager :=
  mkIndexMgr rest (im_scanPoint m) (im_scanPointTtl m) (im_disableStatus m) (im_totalEnqueue m) (u64 (im_totalDequeue m + 1)).

(** The keys from the front of the queue, at most [delBatch] of them but at least one; what the check
    of a key gives is dropped. *)
Fixpoint del_loop (queue : list TTLIndex) (delBatch deletes : Z) (m : IndexManager) (ks : RocksKVStore) (db : T) : M (IndexManager * RocksKVStore * T * Z) :=
  match queue with
  | [] => Ret (m, ks, db, deletes)
  | index :: queue' =>
      let key := ti_priKey index in
      '(ks, db, _) ← Command_expireKeyIfNeeded cfg now srv (local_session (ti_dbId index)) None (chunkOf key) (clock deletes) key (ti_type index) true ks db;
      let m := im_dequeue m queue' in
      let deletes := u32 (deletes + 1) in
      if delBatch <=? deletes then Ret (m, ks, db, deletes) else del_loop queue' delBatch deletes m ks db
  end.

Definition IndexManager_tryDelExpiredKeysJob (delBatch : Z) (m : IndexManager) (ks : RocksKVStore) (db : T) : M (IndexManager * RocksKVStore * T * Z) :=
  if im_disableStatus m then Ret (m, ks, db, 0) else del_loop (im_expiredKeys m) delBatch 0 m ks db.

End Jobs.
