(* ===== verification/IndexMgrSpec.v ===== *)
(** What the jobs of the index manager (server/index_manager.cpp) promise: the scan queues the keys that
    are due, in their order and without a gap, and the deletion touches no key that is not due. *)

From Stdlib Require Import Strings.Byte ZArith Lia Sorting.Sorted.
From stdpp Require Import base list numbers strings gmap.
From S2P Require Import Prelude Status Varint Strings Number Record RecordValue RecordMeta ReplLog BinlogSeq Txn Store Replicate Cursor Command Elems Keys KeysSpec KeysDel Named IndexMgr.

Local Open Scope Z_scope.

Section Scan.
Context {BM : BuildMode} {T : Type} `{RocksIterLaws T} {HL : RocksDBLaws T} {HH : RocksDBHealthy T} {HI : RocksIterHealthy T}.

(** ** The entries of the index *)

(** An entry that is read back as it was written: the bytes of the database id are below 0x80. *)
Definition index_wf (t : TTLIndex) : Prop := TTLIndex_wf t /\ Forall (fun b => bz b < 128) (be_bytes 4 (ti_dbId t)).

(** The bytes of an entry. *)
Definition index_bytes (t : TTLIndex) : bytes := match TTLIndex_encode t with Ret s => s | _ => [] end.

Definition entry_index (e : bytes * bytes) (t : TTLIndex) : Prop := index_wf t /\ TTLIndex_encode t = Ret (fst e) /\ exists r, entry_record e r.

Lemma entry_index_decode e t r : entry_index e t -> entry_record e r -> rk_type (fst r) = RT_TTL_INDEX /\ TTLIndex_decode (fst r) = Ret t.
Proof.
  intros ([Hwf Hdb] & Ee & _) (Hd & Hwr & Her & _). destruct (TTLIndex_roundtrip t Hwf Hdb) as (s & k & E1 & E2 & E3). rewrite Ee in E1. apply (inj Ret) in E1 as <-.
  assert (RecordKey_decode (fst e) = Ret (fst r)) as E4. { unfold Rec_decode in Hd. apply bind_Ret_inv in Hd as (k' & E & Hd). apply bind_Ret_inv in Hd as (v' & _ & [= <-]). exact E. }
  rewrite E4 in E2. apply (inj Ret) in E2 as <-. split; [|done]. destruct (TTLIndex_encode_total t Hwf) as (c & _ & Et). rewrite Ee in Et.
  assert (RecordKey_equiv (fst r) (ti_key t c)) as (_ & _ & Ety & _)%RecordKey_equiv_fields by (apply (RecordKey_encode_inj _ _ (fst e)); [done|by apply ti_key_wf|done|done]). done.
Qed.

(** ** The loop *)

Lemma ttl_next c e l t : cursor_at (tc_base c) (e :: l) -> entry_index e t ->
  exists c', TTLIndexCursor_next c = Ret (c', if tc_until c <? ti_ttl t then Throw ERR_NOT_EXPIRED (lit "read until ttl") else Ret t) /\ cursor_at (tc_base c') l /\ tc_until c' = tc_until c.
Proof.
  intros Hc Hi. pose proof Hi as (_ & _ & r & Hr). destruct (entry_index_decode e t r Hi Hr) as [Hty Hd]. destruct e as [k v], r as [rk rv]. destruct (cursor_at_cons _ _ _ _ _ _ Hc (proj1 Hr)) as (b & E & Hb).
  unfold TTLIndexCursor_next. rewrite E, bind_Ret. cbn [fst] in *. rewrite Hty, bool_decide_true by done. cbn [negb]. rewrite Hd. cbn [status_of]. rewrite bind_Ret. by exists (mkTTLCursor (tc_until c) b).
Qed.

Lemma ttl_next_nil c : cursor_at (tc_base c) [] -> exists c' msg, TTLIndexCursor_next c = Ret (c', Throw ERR_EXHAUST msg).
Proof. intros Hc. unfold TTLIndexCursor_next. rewrite (cursor_at_nil _ Hc), bind_Ret. by eexists _, _. Qed.

(** The keys that join the queue. *)
Definition enqueue_all (m : IndexManager) (ts : list TTLIndex) : IndexManager := foldl (fun m t => im_enqueue m t (index_bytes t)) m ts.

Definition is_due (until : Z) (t : TTLIndex) : bool := ti_ttl t <=? until.

Definition ttl_le (a b : TTLIndex) : Prop := ti_ttl a <= ti_ttl b.

Lemma scan_loop_ok l ts : Forall2 entry_index l ts -> StronglySorted ttl_le ts -> forall fuel batch c m, cursor_at (tc_base c) l -> (length l < fuel)%nat -> zlen (im_expiredKeys m) < batch ->
  scan_loop fuel batch c m = Ret (enqueue_all m (ztake (batch - zlen (im_expiredKeys m)) (List.filter (is_due (tc_until c)) ts))).
Proof.
  induction 1 as [|e t l ts He _ IH]; intros Hs fuel batch c m Hc Hf Hb; (destruct fuel as [|fuel]; [cbn in Hf; lia|]); cbn [scan_loop].
  { destruct (ttl_next_nil c Hc) as (c' & msg & ->). rewrite bind_Ret. cbn [List.filter]. by rewrite ztake_take, take_nil. }
  inversion Hs as [|? ? Hs' Hall]; subst. destruct (ttl_next c e l t Hc He) as (c' & -> & Hc' & Eu). rewrite bind_Ret. cbn [List.filter]. unfold is_due at 1. rewrite Z.leb_antisym. destruct (Z.ltb_spec (tc_until c) (ti_ttl t)) as [Hlt|Hge]; cbn [negb].
  - replace (List.filter (is_due (tc_until c)) ts) with (@nil TTLIndex); [by rewrite ztake_take, take_nil|]. clear -Hall Hlt. induction Hall as [|x ts Hx _ IH]; [done|]. cbn. unfold ttl_le in Hx. unfold is_due at 1. by rewrite (proj2 (Z.leb_gt _ _)) by lia.
  - destruct He as (_ & Ee & _). rewrite Ee, bind_Ret. assert (index_bytes t = fst e) as <- by (unfold index_bytes; by rewrite Ee). set (m1 := im_enqueue m t (index_bytes t)).
    assert (zlen (im_expiredKeys m1) = zlen (im_expiredKeys m) + 1) as El by (cbn; by rewrite zlen_app). rewrite El. cbn in Hf.
    rewrite ztake_take. replace (Z.to_nat (batch - zlen (im_expiredKeys m))) with (S (Z.to_nat (batch - (zlen (im_expiredKeys m) + 1)))) by lia. cbn [take]. change (enqueue_all m (t :: ?x)) with (enqueue_all m1 x).
    destruct (Z.leb_spec batch (zlen (im_expiredKeys m) + 1)); [replace (Z.to_nat _) with 0%nat by lia; done|].
    rewrite (IH Hs' fuel batch c' m1 Hc') by lia. by rewrite Eu, El, ztake_take.
Qed.

(** ** Where a scan starts *)

(** Every entry is a record, and those of the chunk of the index are entries of the index. *)
Definition index_store (db : T) : Prop :=
  tidy db /\ forall k v r, rdb_read db CF_Default k = Some v -> entry_record (k, v) r -> rk_chunkId (fst r) = TTLIndex_CHUNKID -> exists t, index_wf t /\ TTLIndex_encode t = Ret k.

Definition index_prefix : bytes := match RecordKey_prefixTTLIndex with Ret p => p | _ => [] end.

Definition index_upper : bytes := RecordKey_prefixChunkid (RecordKey_new (u32 (TTLIndex_CHUNKID + 1)) 0 RT_INVALID [] [] 0).

(** The entries that a cursor of the index goes over. *)
Definition index_entries (db : T) : list (bytes * bytes) :=
  List.filter (fun e => negb (bytes_lt (fst e) index_prefix)) (scan_entries (rdb_scan db CF_Default (Some index_upper))).

Lemma index_region k r s : RecordKey_wf k -> RecordKey_encode k = Ret s -> bytes_lt s index_prefix = false -> bytes_lt s index_upper = true -> r = rk_chunkId k -> r = TTLIndex_CHUNKID.
Proof.
  intros Hw Hs Hlo Hhi ->. set (lo := RecordKey_new TTLIndex_CHUNKID 0 RT_KV [] [] 0). set (hi := RecordKey_new (TTLIndex_CHUNKID + 1) 0 RT_KV [] [] 0).
  apply (RecordKey_chunk_range k lo hi s); [done|by apply RecordKey_wf_new|by apply RecordKey_wf_new|done|done|]. split.
  - intros E. assert (bytes_lt s (RecordKey_prefixChunkid lo) = true) as E1 by (unfold bytes_lt; by rewrite E). assert (bytes_lt (RecordKey_prefixChunkid lo) index_prefix = true) as E2 by (vm_compute; reflexivity).
    by rewrite (bytes_lt_trans _ _ _ E1 E2) in Hlo.
  - change (RecordKey_prefixChunkid hi) with index_upper. unfold bytes_lt in Hhi. by destruct (bytes_compare s index_upper).
Qed.

Lemma index_entries_sorted db : StronglySorted entry_lt (index_entries db).
Proof. apply filter_in_order, scan_sorted. Qed.

Lemma index_entries_read db e : e ∈ index_entries db <-> rdb_read db CF_Default (fst e) = Some (snd e) /\ bytes_lt (fst e) index_upper = true /\ bytes_lt (fst e) index_prefix = false.
Proof.
  unfold index_entries. rewrite elem_of_filter_bool, negb_true_iff. destruct e as [k v]. rewrite (scan_content db CF_Default (Some index_upper) (scan_healthy _ _ _) k v). cbn. tauto.
Qed.

Lemma index_entries_index db : index_store db -> Forall (fun e => exists t, entry_index e t) (index_entries db).
Proof.
  intros [Ht Hx]. apply Forall_forall. intros e (Hr & Hhi & Hlo)%index_entries_read. destruct e as [k v]. cbn [fst snd] in *. destruct (Ht k v Hr) as (r & Her & _).
  destruct (Hx k v r Hr Her) as (t & Hwf & Et); [|exists t; split; [done|]; split; [done|by exists r]]. destruct Her as (_ & Hw & He & _). by apply (index_region (fst r) _ k).
Qed.

(** Behind the scan point. *)
Definition after (point : bytes) (l : list (bytes * bytes)) : list (bytes * bytes) := List.filter (fun e => bytes_lt point (fst e)) l.

Definition from (point : bytes) (l : list (bytes * bytes)) : list (bytes * bytes) := List.filter (fun e => negb (bytes_lt (fst e) point)) l.

Lemma after_all point l : Forall (fun e => bytes_lt point (fst e) = true) l -> after point l = l /\ from point l = l.
Proof. unfold after, from. induction 1 as [|e l He _ [IH1 IH2]]; [done|]. cbn [List.filter]. rewrite He, (bytes_lt_antisym _ _ He), IH1. cbn [negb]. by rewrite IH2. Qed.

Lemma after_from point l : StronglySorted entry_lt l -> after point l = match from point l with e :: l' => if bool_decide (point = fst e) then l' else e :: l' | [] => [] end.
Proof.
  induction 1 as [|e l _ IH Hf]; [done|]. unfold after, from in *. cbn [List.filter]. destruct (bytes_lt point (fst e)) eqn:E1.
  - rewrite (bytes_lt_antisym _ _ E1). cbn [negb]. rewrite bool_decide_false by (intros E; by rewrite <-E, bytes_lt_irrefl in E1). f_equal.
    destruct (after_all point l) as [E2 E3]; [|unfold after, from in *; by rewrite E2, E3]. eapply Forall_impl; [exact Hf|]. intros x Hx. by apply (bytes_lt_trans _ (fst e)).
  - destruct (bytes_lt (fst e) point) eqn:E2; cbn [negb]; [done|]. pose proof (bytes_lt_total _ _ E1 E2) as ->. rewrite bool_decide_true by done.
    destruct (after_all (fst e) l) as [E3 E4]; [done|unfold after, from in *; by rewrite E3, E4].
Qed.

(** The point of a scan: none, or an entry. *)
Definition point_ok (point : bytes) : Prop := point = [] \/ exists t, index_wf t /\ point = index_bytes t.

Lemma index_bytes_prefix t : index_wf t -> index_prefix `prefix_of` index_bytes t.
Proof. intros [Hwf _]. destruct (TTLIndex_order t t Hwf Hwf) as (s & _ & p & E & _ & Ep & Hp & _). unfold index_prefix, index_bytes. by rewrite E, Ep. Qed.

Lemma from_index db point : index_prefix `prefix_of` point -> from point (scan_entries (rdb_scan db CF_Default (Some index_upper))) = from point (index_entries db).
Proof.
  intros Hp. unfold index_entries, from. set (l := scan_entries _). induction l as [|e l IH]; [done|]. cbn [List.filter]. destruct (bytes_lt (fst e) index_prefix) eqn:E; cbn [negb List.filter]; [|by rewrite IH].
  assert (bytes_lt (fst e) point = true) as ->; [|done]. destruct (bytes_lt index_prefix point) eqn:E2; [by apply (bytes_lt_trans _ index_prefix)|].
  by rewrite <-(bytes_lt_total _ _ E2 (bytes_lt_prefix _ _ Hp)).
Qed.

Lemma seek_at db point : cursor_at (RocksKVCursor_seek (RocksKVCursor_new (rdb_scan db CF_Default (Some index_upper))) point) (from point (scan_entries (rdb_scan db CF_Default (Some index_upper)))).
Proof. split; [done|]. split; [apply scan_healthy|]. split; [apply zlen_nonneg|]. apply seek_rest, scan_sorted. Qed.

Lemma key_at c l : cursor_at c l -> RocksKVCursor_key c = Ret (match l with e :: _ => Ret (fst e) | [] => Throw ERR_EXHAUST (lit "no more data") end).
Proof.
  intros (Hk & He & Hp & Hd). unfold RocksKVCursor_key, cursor_entry. rewrite Hk, He. cbn [INVARIANT]. rewrite bind_Ret. rewrite zdrop_drop in Hd.
  assert (znth (scan_entries (cu_scan c)) (cu_pos c) = head l) as ->. { rewrite znth_lookup by done. by rewrite <-(Nat.add_0_r (Z.to_nat (cu_pos c))), <-lookup_drop, Hd; destruct l. }
  by destruct l as [|[k v] l].
Qed.

Lemma resume_ok db until point : index_store db -> point_ok point ->
  let c := mkTTLCursor until (RocksKVCursor_seek (RocksKVCursor_new (rdb_scan db CF_Default (Some index_upper))) index_prefix) in
  exists o, scan_resume point c = Ret o /\
    match o with Some c' => cursor_at (tc_base c') (after point (index_entries db)) /\ tc_until c' = until | None => after point (index_entries db) = [] end.
Proof.
  intros Hi Hp c. unfold scan_resume. destruct Hp as [->|(t & Ht & ->)].
  - exists (Some c). split; [done|]. split; [|done]. replace (after [] (index_entries db)) with (index_entries db); [apply seek_at|]. symmetry. apply after_all.
    apply Forall_forall. intros e (_ & _ & He)%index_entries_read. by destruct (fst e).
  - pose proof (index_bytes_prefix t Ht) as Hpre. assert ((0 <? zlen (index_bytes t)) = true) as -> by (destruct Hpre as [x ->]; rewrite zlen_app; apply Z.ltb_lt; pose proof (zlen_nonneg x); change (zlen index_prefix) with 9; lia).
    set (c1 := TTLIndexCursor_seek c (index_bytes t)). assert (cursor_at (tc_base c1) (from (index_bytes t) (index_entries db))) as Hc1 by (rewrite <-from_index by done; apply seek_at).
    unfold TTLIndexCursor_key. rewrite (key_at _ _ Hc1), bind_Ret. rewrite (after_from _ _ (index_entries_sorted db)). destruct (from (index_bytes t) (index_entries db)) as [|e l] eqn:Ef; [by exists None|].
    case_bool_decide as Eb; [|by exists (Some c1)]. assert (e ∈ index_entries db) as Hin. { assert (e ∈ from (index_bytes t) (index_entries db)) as Hin by (rewrite Ef; by left). by apply elem_of_filter_bool in Hin as [? _]. }
    pose proof (index_entries_index db Hi) as Hall. rewrite Forall_forall in Hall. destruct (Hall e Hin) as (te & Hte). destruct (ttl_next c1 e l te Hc1 Hte) as (c' & -> & Hc' & Eu). rewrite bind_Ret. by exists (Some c').
Qed.

(** ** The job *)

(** The index has the entry. *)
Definition indexed (db : T) (t : TTLIndex) : Prop := index_wf t /\ is_Some (rdb_read db CF_Default (index_bytes t)).

Definition index_lt (a b : TTLIndex) : Prop := bytes_lt (index_bytes a) (index_bytes b) = true.

Lemma entry_index_bytes e t : entry_index e t -> index_bytes t = fst e.
Proof. intros (_ & E & _). unfold index_bytes. by rewrite E. Qed.

Lemma index_bytes_inj a b : index_wf a -> index_wf b -> index_bytes a = index_bytes b -> a = b.
Proof.
  intros [Ha Hda] [Hb Hdb] E. unfold index_bytes in E. destruct (TTLIndex_roundtrip a Ha Hda) as (sa & ka & Ea & Ka & Da), (TTLIndex_roundtrip b Hb Hdb) as (sb & kb & Eb & Kb & Db).
  rewrite Ea, Eb in E. subst sb. rewrite Ka in Kb. apply (inj Ret) in Kb as ->. rewrite Da in Db. by apply (inj Ret) in Db.
Qed.

Lemma index_lt_ttl a b : index_wf a -> index_wf b -> index_lt a b -> ttl_le a b.
Proof.
  intros [Ha _] [Hb _] Hlt. unfold ttl_le. destruct (Z.le_gt_cases (ti_ttl a) (ti_ttl b)) as [|Hgt]; [done|]. exfalso. destruct (TTLIndex_order b a Hb Ha) as (sb & sa & p & Eb & Ea & _ & _ & Ho).
  specialize (Ho ltac:(lia)). assert (bytes_lt sb sa = true) as Hba by (unfold bytes_lt; by rewrite Ho). unfold index_lt, index_bytes in Hlt. rewrite Ea, Eb in Hlt. by rewrite (bytes_lt_antisym _ _ Hba) in Hlt.
Qed.

Lemma index_list l : Forall (fun e => exists t, entry_index e t) l -> StronglySorted entry_lt l -> exists ts, Forall2 entry_index l ts /\ StronglySorted index_lt ts /\ StronglySorted ttl_le ts.
Proof.
  intros Hall Hs. induction Hs as [|e l _ IH Hf]; [exists []; by repeat constructor|]. inversion Hall as [|? ? (t & Ht) Hall']; subst. destruct (IH Hall') as (ts & H2 & Hs1 & Hs2). exists (t :: ts).
  assert (Forall (index_lt t) ts) as Hlt.
  { clear -H2 Hf Ht. induction H2 as [|e' t' l ts He' _ IH]; [done|]. inversion Hf; subst. constructor; [|by apply IH]. unfold index_lt. by rewrite (entry_index_bytes e t), (entry_index_bytes e' t'). }
  assert (Forall index_wf ts) as Hwf by (clear -H2; induction H2 as [|? ? ? ? (? & _) _ IH]; by constructor). split; [by constructor|]. split; (constructor; [done|]); [done|].
  rewrite Forall_forall in *. intros t' Hin. apply index_lt_ttl; [apply Ht|by apply Hwf|by apply Hlt].
Qed.

Lemma indexed_entry db t : indexed db t -> exists v, (index_bytes t, v) ∈ index_entries db.
Proof.
  intros [Hwf [v Hv]]. exists v. apply index_entries_read. cbn [fst snd]. split; [done|]. split; [|by apply bytes_lt_prefix, index_bytes_prefix].
  destruct Hwf as [Ht _]. destruct (TTLIndex_encode_total t Ht) as (c & _ & E). pose proof (ti_key_wf t c Ht) as Hw.
  set (lo := RecordKey_new TTLIndex_CHUNKID 0 RT_KV [] [] 0). set (hi := RecordKey_new (TTLIndex_CHUNKID + 1) 0 RT_KV [] [] 0).
  destruct (RecordKey_encode_total _ Hw) as (c' & _ & E'). unfold index_bytes. rewrite E, E'. 
  destruct (RecordKey_chunk_range (ti_key t c) lo hi _ Hw ltac:(by apply RecordKey_wf_new) ltac:(by apply RecordKey_wf_new) eq_refl E') as [_ Hr]. destruct Hr as [_ Hr]; [done|].
  change index_upper with (RecordKey_prefixChunkid hi). unfold bytes_lt. by rewrite Hr.
Qed.

Lemma entries_fewer db point : (length (after point (index_entries db)) < scan_fuel (RocksTxn_new 0 false db))%nat.
Proof.
  unfold scan_fuel. cbn [tx_db RocksTxn_new]. assert (length (after point (index_entries db)) <= length (scan_entries (rdb_scan db CF_Default None)))%nat; [|lia].
  apply submseteq_length, NoDup_submseteq.
  - pose proof (filter_in_order _ _ _ (index_entries_sorted db) : StronglySorted entry_lt (after point (index_entries db))) as Hs. induction Hs as [|e l _ IH Hf]; [constructor|]. constructor; [|done]. intros Hin. rewrite Forall_forall in Hf. specialize (Hf e Hin). unfold entry_lt in Hf. by rewrite bytes_lt_irrefl in Hf.
  - intros e [(Hr & _)%index_entries_read _]%elem_of_filter_bool. by apply scan_entry.
Qed.

Lemma enqueue_all_ok ts : forall m, im_expiredKeys (enqueue_all m ts) = im_expiredKeys m ++ ts /\ im_scanPoint (enqueue_all m ts) = match last ts with Some t => index_bytes t | None => im_scanPoint m end.
Proof.
  induction ts as [|t ts IH]; intros m; [by rewrite app_nil_r|]. change (enqueue_all m (t :: ts)) with (enqueue_all (im_enqueue m t (index_bytes t)) ts). destruct (IH (im_enqueue m t (index_bytes t))) as [-> ->]. split; [by cbn; rewrite <-app_assoc|].
  rewrite last_cons. by destruct (last ts).
Qed.

Lemma after_indexed db point ts : index_store db -> Forall2 entry_index (after point (index_entries db)) ts -> forall t, t ∈ ts <-> indexed db t /\ bytes_lt point (index_bytes t) = true.
Proof.
  intros Hi H2 t. split.
  - intros (i & Et)%list_elem_of_lookup. destruct (Forall2_lookup_r _ _ _ _ _ H2 Et) as (e & Ee & He). apply list_elem_of_lookup_2, elem_of_filter_bool in Ee as [(Hr & _)%index_entries_read Ha].
    rewrite (entry_index_bytes e t He). split; [|done]. split; [apply He|]. rewrite (entry_index_bytes e t He). by eexists.
  - intros [Hx Ha]. destruct (indexed_entry db t Hx) as (v & Hin). assert ((index_bytes t, v) ∈ after point (index_entries db)) as (i & Ee)%list_elem_of_lookup by by apply elem_of_filter_bool.
    destruct (Forall2_lookup_l _ _ _ _ _ H2 Ee) as (t' & Et & He). assert (t' = t) as -> by (apply index_bytes_inj; [apply He|apply Hx|by rewrite (entry_index_bytes _ _ He)]). by apply list_elem_of_lookup_2 in Et.
Qed.

(** C12: a scan of the index of expiries puts behind the queue the entries of the index that are due at
    the time of the store and come after the scan point, in the order of the index, without a gap and
    without one that is not due, until the queue has its size. The scan point moves to the last of
    them, or stays, so that the next scan goes on behind it and no entry is queued twice. The store is
    not changed. The ids of the databases in the index have no byte of 0x80 or more: the decoder of an
    entry extends the sign of such a byte, and the key would be queued for another database. *)
Theorem scan_correct ks live dur (db : T) m batch until :
  sys_inv (mkSys ks live dur) -> ks_nextTxnSeq ks < 2 ^ 64 - 1 -> index_store db -> point_ok (im_scanPoint m) -> im_disableStatus m = false ->
  ks_mode ks <> REPLICATE_ONLY -> ks_mode ks <> STORE_NONE -> zlen (im_expiredKeys m) < batch ->
  exists due m' ks', IndexManager_scanExpiredKeysJob batch until false m ks db = Ret (m', ks', Ret tt) /\ sys_inv (mkSys ks' live dur) /\
    (forall t, t ∈ due <-> indexed db t /\ ti_ttl t <= until /\ bytes_lt (im_scanPoint m) (index_bytes t) = true) /\ StronglySorted index_lt due /\
    let new := ztake (batch - zlen (im_expiredKeys m)) due in
    im_expiredKeys m' = im_expiredKeys m ++ new /\ im_scanPoint m' = match last new with Some t => index_bytes t | None => im_scanPoint m end /\ point_ok (im_scanPoint m').
Proof.
  intros Hi Hn Hst Hp Hdis Hm1 Hm2 Hb. destruct (open_drop ks live dur false db Hi Hn) as (ks1 & ks' & Ec & Hi' & _ & Hd).
  set (l := after (im_scanPoint m) (index_entries db)). destruct (index_list l) as (ts & H2 & Hs1 & Hs2); [|apply filter_in_order, index_entries_sorted|].
  { apply Forall_forall. intros e [He _]%elem_of_filter_bool. pose proof (index_entries_index db Hst) as Hall. rewrite Forall_forall in Hall. by apply Hall. }
  exists (List.filter (is_due until) ts). set (due := List.filter (is_due until) ts). set (new := ztake (batch - zlen (im_expiredKeys m)) due). exists (enqueue_all m new), ks'.
  assert (forall t, t ∈ due <-> indexed db t /\ ti_ttl t <= until /\ bytes_lt (im_scanPoint m) (index_bytes t) = true) as Hdue.
  { intros t. unfold due. rewrite elem_of_filter_bool, (after_indexed db _ ts Hst H2). unfold is_due. rewrite Z.leb_le. tauto. }
  destruct (enqueue_all_ok new m) as [E1 E2]. split; [|split; [done|split; [done|split; [by apply filter_in_order|split; [done|split; [done|]]]]]].
  - unfold IndexManager_scanExpiredKeysJob. rewrite Hdis, (proj2 (Z.leb_gt _ _) Hb), !bool_decide_false by done. cbn [orb]. rewrite Ec.
    assert (RocksTxn_destroy ks1 (RocksTxn_new (ks_nextTxnSeq ks) false db) = Ret ks') as Ed by (specialize (Hd unit (Ret tt)); unfold drop_txn in Hd; apply bind_Ret_inv in Hd as (x & E & [= ->]); done).
    unfold RocksTxn_createTTLIndexCursor, TTLIndexCursor_new. replace RecordKey_prefixTTLIndex with (Ret index_prefix : M bytes) by done. rewrite !bind_Ret.
    destruct (resume_ok db until (im_scanPoint m) Hst Hp) as (o & Eo & Ho). change (bounded_scan (RocksTxn_new (ks_nextTxnSeq ks) false db) TTLIndex_CHUNKID) with (rdb_scan db CF_Default (Some index_upper)). rewrite Eo, bind_Ret.
    replace (match o with Some c => _ | None => _ end) with (Ret (enqueue_all m new)); [by rewrite bind_Ret, Ed, bind_Ret|]. destruct o as [c'|].
    + destruct Ho as [Hc Eu]. change (scan_fuel _) with (scan_fuel (RocksTxn_new 0 false db)). rewrite (scan_loop_ok l ts H2 Hs2 _ batch c' m Hc (entries_fewer db _) Hb). by rewrite Eu.
    + fold l in Ho. rewrite Ho in H2. apply Forall2_nil_inv_l in H2 as ->. unfold new, due. cbn [List.filter]. by rewrite ztake_take, take_nil.
  - rewrite E2. destruct (last new) as [t|] eqn:El; [|done]. right. exists t. split; [|done]. apply last_Some_elem_of in El. unfold new in El. rewrite ztake_take in El.
    assert (t ∈ due) as Hin by (rewrite <-(take_drop (Z.to_nat (batch - zlen (im_expiredKeys m))) due); apply elem_of_app; by left). by apply Hdue in Hin as [[? _] _].
Qed.

End Scan.

(** * An example *)

#[local] Instance index_build : BuildMode := true.

Definition demo_ttl (pk : bytes) (ttl : Z) : TTLIndex := mkTTLIndex pk RT_HASH_META 0 ttl.

Definition put_entry (t : TTLIndex) (db : MemDB) : MemDB := <[(CF_Default, index_bytes t) := match RecordValue_encode (RecordValue_new [] RT_TTL_INDEX MAXU64 0 (-1) 0 MAXU64) with Ret v => v | _ => [] end]> db.

(** The index of two keys, of which one is due at 5. *)
Definition demo_index : MemDB := put_entry (demo_ttl (lit "a") 4) (put_entry (demo_ttl (lit "b") 9) ∅).

Lemma put_entry_store t db : index_wf t -> index_store db -> index_store (put_entry t db).
Proof.
  intros Ht [Htd Hx]. destruct (TTLIndex_encode_total t (proj1 Ht)) as (c & Hc & Et). pose proof (ti_key_wf t c (proj1 Ht)) as Hw. destruct (RecordKey_encode_total _ Hw) as (c' & _ & Ek). rewrite Ek in Et.
  set (rvi := RecordValue_new [] RT_TTL_INDEX MAXU64 0 (-1) 0 MAXU64). assert (RecordValue_wf rvi) as Hi by (unfold RecordValue_wf; by split_and!). split.
  - eapply (tidy_put db (put_entry t db) (ti_key t c) rvi); [done|done|intros Hlt; by vm_compute in Hlt|done|exact Ek|reflexivity|]. unfold put_entry, index_bytes. by rewrite Et.
  - intros k v r Hr Her Hch. rewrite mem_read in Hr. unfold put_entry in Hr. apply lookup_insert_Some in Hr as [[[= Hk] _]|[_ Hr]]; [|rewrite <-mem_read in Hr; by apply (Hx k v r)].
    exists t. split; [done|]. subst k. unfold index_bytes. by rewrite Et.
Qed.

Lemma demo_ttl_wf pk ttl : zlen pk < 100 -> is_u64 ttl -> index_wf (demo_ttl pk ttl).
Proof. intros Hp Ht. split; [split; [done|]; split; [done|]; split; [done|cbn; lia]|]. by repeat (apply Forall_cons; split). Qed.

Lemma scan_correct_witness : exists due m' ks', IndexManager_scanExpiredKeysJob 10 5 false IndexManager_new demo_store demo_index = Ret (m', ks', Ret tt) /\
  demo_ttl (lit "a") 4 ∈ due /\ im_expiredKeys m' = ztake 10 due.
Proof.
  destruct (scan_correct demo_store ∅ ∅ demo_index IndexManager_new 10 5) as (due & m' & ks' & E & _ & Hd & _ & Hq & _).
  - exact demo_store_inv.
  - reflexivity.
  - apply put_entry_store; [apply demo_ttl_wf; [reflexivity|by split]|]. apply put_entry_store; [apply demo_ttl_wf; [reflexivity|by split]|]. split; intros k v; [|intros r]; rewrite mem_read, lookup_empty; discriminate.
  - left. reflexivity.
  - reflexivity.
  - discriminate.
  - discriminate.
  - reflexivity.
  - exists due, m', ks'. split; [exact E|]. split; [|exact Hq]. apply Hd. split; [|split; [discriminate|reflexivity]]. split; [apply demo_ttl_wf; [reflexivity|by split]|]. eexists. rewrite mem_read. vm_compute. reflexivity.
Defined.
