(* ===== verification/Reap.v ===== *)
(** What the deletion of expired keys leaves alone: the functions of commands/command.cpp that delete a
    key touch the records of that key and the index of expiries only, whatever their commits give, and
    so the job of the index manager (server/index_manager.cpp) keeps every key that has not expired. *)

From Stdlib Require Import Strings.Byte ZArith Lia.
From stdpp Require Import base list numbers strings gmap.
From S2P Require Import Prelude Status Varint Strings Number Record RecordValue RecordMeta ReplLog BinlogSeq Txn Store Replicate Cursor Command Elems Keys KeysSpec KeysDel KeysRange Tidy Members MembersCmd IndexMgr.

Local Open Scope Z_scope.

Section Shrink.
Context {BM : BuildMode} {T : Type} `{RocksIterLaws T} {HL : RocksDBLaws T} {HH : RocksDBHealthy T} {HI : RocksIterHealthy T} {HR : RocksRangeLaws T}.
Variable cfg : StoreCfg.
Hypothesis Hcf : cfg_binlogUsingDefaultCF cfg = false.
Variable now : Z.

(** Entries of the data whose keys are in [P] may go; the others stay. *)
Definition shrinks (P : bytes -> Prop) (db db' : T) : Prop :=
  forall s, rdb_read db' CF_Default s = rdb_read db CF_Default s \/ (P s /\ rdb_read db' CF_Default s = None).

#[export] Instance shrinks_preorder P : PreOrder (shrinks P).
Proof.
  split; [intros db s; by left|]. intros a b c Hab Hbc s. destruct (Hbc s) as [->|[? ->]]; [|by right]. apply Hab.
Qed.

Lemma shrinks_tidy P db db' : shrinks P db db' -> tidy db -> tidy db'.
Proof. intros Hs Ht k v E. destruct (Hs k) as [E'|[_ E']]; rewrite E' in E; [by apply Ht|done]. Qed.

Lemma shrinks_raw P db db' k s : shrinks P db db' -> RecordKey_encode k = Ret s -> ~ P s -> stored_raw db' k = stored_raw db k.
Proof. intros Hs E Hn. unfold stored_raw, raw_record. cbn [tx_db RocksTxn_new]. rewrite E. by destruct (Hs s) as [|[? _]]. Qed.

Lemma txn_del_shrinks (P : bytes -> Prop) (tx tx' : RocksTxn T) key ts t : RocksTxn_delKV cfg tx key ts t = Ret tx' -> P key -> shrinks P (tx_db tx) (tx_db tx').
Proof.
  unfold RocksTxn_delKV. destruct (tx_replOnly tx); [done|]. intros (type & _ & E)%bind_Ret_inv HP. apply bind_Ret_inv in E as (db & Ed%rocks_ok_inv & E).
  rewrite (log_entry_db cfg _ _ _ _ _ _ _ E). cbn [tx_with_db tx_db]. intros s. rewrite (rdb_read_del _ _ _ _ Ed). case_decide as Eq; [injection Eq as _ ->; by right|by left].
Qed.

Lemma commit_shrinks P ks db0 (tx : RocksTxn T) cmd ep ks' db r : RocksTxn_commit cfg ks db0 tx cmd ep = Ret (ks', db, r) -> shrinks P db0 (tx_db tx) -> shrinks P db0 db.
Proof.
  unfold RocksTxn_commit. intros (_ & _ & E)%bind_Ret_inv Hs. apply bind_Ret_inv in E as ([[[ks1 tx1] bid] e] & El & E).
  apply bind_Ret_inv in E as ([[db1 bid'] r'] & E1 & E). apply bind_Ret_inv in E as (_ & _ & E). apply bind_Ret_inv in E as (ks2 & _ & [= _ <- _]).
  assert (forall s, rdb_read (tx_db tx1) CF_Default s = rdb_read (tx_db tx) CF_Default s) as Hlog.
  { clear -El Hcf HL. unfold commit_log in El. destruct (last (tx_replLogValues tx)) as [back|]; [|by injection El as _ <- _ _]. apply bind_Ret_inv in El as (_ & _ & E). apply bind_Ret_inv in E as ([ks2 id] & _ & E).
    apply bind_Ret_inv in E as (_ & _ & E). apply bind_Ret_inv in E as (lk & _ & E). apply bind_Ret_inv in E as (lv & _ & E). cbn [tx_with_binlogId tx_db] in E. unfold RocksKVStore_getBinlogColumnFamilyHandle in E. rewrite Hcf in E.
    destruct (rdb_put (tx_db tx) CF_Binlog lk lv) as [db|msg|msg|msg|msg] eqn:Ep; try by apply bind_Ret_inv in E as (? & _ & [= <- <- <- _]).
    injection E as <- <- <- _. intros s. cbn [tx_with_db tx_db]. by rewrite (rdb_read_put _ _ _ _ _ Ep), decide_False. }
  destruct e as [u|c msg|]; [|by injection E1 as <-|done].
  destruct (rdb_commit (tx_db tx1)) as [db2|msg|msg|msg|msg] eqn:Ec; try by (apply bind_Ret_inv in E1 as (? & _ & [= <- _ _])).
  - injection E1 as <- _ _. intros s. rewrite (rdb_read_commit _ _ Ec), Hlog. apply Hs.
  - by injection E1 as <- _ _.
Qed.

Lemma close_shrinks P ks (db0 : T) tx cmd ep ks' db r : close_txn cfg ks db0 tx cmd ep = Ret (ks', db, r) -> shrinks P db0 (tx_db tx) -> shrinks P db0 db.
Proof. unfold close_txn. intros ([[ks1 db1] e] & E & [= _ <- _])%bind_Ret_inv. by apply (commit_shrinks P _ _ _ _ _ _ _ _ E). Qed.

(** The combinators of [open_txn] and [or_drop]. *)
Lemma drop_db {B} ks (db : T) tx (e : M B) ks' db' r : drop_txn ks db tx e = Ret (ks', db', r) -> db' = db.
Proof. unfold drop_txn. by intros (? & _ & [= _ <- _])%bind_Ret_inv. Qed.

Lemma or_drop_shrinks {A B} P (db0 : T) ks (db : T) tx (m : M A) (k : A -> M (RocksKVStore * T * M B)) ks' db' r : shrinks P db0 db ->
  (forall a ks' db' r, m = Ret a -> k a = Ret (ks', db', r) -> shrinks P db0 db') -> or_drop ks db tx m k = Ret (ks', db', r) -> shrinks P db0 db'.
Proof. intros Hs Hk. unfold or_drop. destruct m as [a|c msg|]; [by apply Hk| |done]. intros E. by rewrite (drop_db _ _ _ _ _ _ _ E). Qed.

Lemma open_shrinks {B} P ks (db : T) sess (k : RocksKVStore -> RocksTxn T -> M (RocksKVStore * T * M B)) ks' db' r :
  (forall ks1 id ro ks' db' r, k ks1 (RocksTxn_new id ro db) = Ret (ks', db', r) -> shrinks P db db') -> open_txn ks db sess k = Ret (ks', db', r) -> shrinks P db db'.
Proof. intros Hk. unfold open_txn. destruct (RocksKVStore_createTransaction ks sess) as [[[ks1 id] ro]|c msg|]; [by apply Hk| |done]. by intros [= _ <- _]. Qed.

Lemma deleteRange_shrinks (P : bytes -> Prop) ks (db : T) b e ks' db' r : (forall s v, rdb_read db CF_Default s = Some v -> in_range CF_Default CF_Default b e s false = true -> P s) ->
  RocksKVStore_deleteRange cfg now ks db b e = Ret (ks', db', r) -> shrinks P db db'.
Proof.
  intros HP. unfold RocksKVStore_deleteRange, RocksKVStore_getDataColumnFamilyHandle. destruct (rdb_del_range_healthy db CF_Default b e) as [db1 E1]. rewrite E1. cbn [rocks_ok].
  assert (shrinks P db db1) as Hs.
  { intros s. rewrite (rdb_read_del_range _ _ _ _ _ E1). destruct (in_range _ _ _ _ _ _) eqn:Er; [|by left]. destruct (rdb_read db CF_Default s) as [v|] eqn:Ev; [right; split; [by apply (HP s v)|done]|by left]. }
  intros E. transitivity db1; [done|]. refine (open_shrinks P _ _ _ _ _ _ _ _ E). clear E. intros ks1 id ro ks2 db2 r2 E. refine (or_drop_shrinks _ _ _ _ _ _ _ _ _ _ _ _ E); [done|]. clear E. intros tx ks3 db3 r3 Et E.
  apply (close_shrinks _ _ _ _ _ _ _ _ _ E). unfold RocksTxn_addDeleteRangeBinlog in Et. cbn [tx_replOnly RocksTxn_new] in Et. destruct ro; [done|]. destruct (cfg_enableRepllog cfg); [|by injection Et as <-].
  apply bind_Ret_inv in Et as (_ & _ & Et). apply bind_Ret_inv in Et as (tx1 & Ec & [= <-]). cbn [tx_emplace tx_db]. unfold RocksTxn_setChunkId in Ec. cbn in Ec. by injection Ec as <-.
Qed.

(** ** Deleting one key *)

Variables (chunkId dbId : Z) (pk : bytes).
Hypothesis Hpk : x00 ∉ pk.
Hypothesis Hlen : zlen pk < 2 ^ 61.
Hypothesis Hplace : is_u32 chunkId /\ chunkId < CLUSTER_SLOTS.
Hypothesis Hdb : is_u32 dbId.

(** The keys of its records, and those of the index. *)
Definition mine (s : bytes) : Prop :=
  exists k, RecordKey_wf k /\ RecordKey_encode k = Ret s /\ ((rk_chunkId k = chunkId /\ rk_dbId k = dbId /\ rk_pk k = pk) \/ rk_chunkId k = TTLIndex_CHUNKID).

Lemma not_mine k s : RecordKey_wf k -> RecordKey_encode k = Ret s -> rk_chunkId k < CLUSTER_SLOTS -> ~ (rk_chunkId k = chunkId /\ rk_dbId k = dbId /\ rk_pk k = pk) -> ~ mine s.
Proof.
  intros Hw E Hlt Hn (k' & Hw' & E' & Hk). assert (RecordKey_equiv k k') as (A & B & _ & D & _)%RecordKey_equiv_fields by by apply (RecordKey_encode_inj _ _ s).
  destruct Hk as [Hk|Hk]; [apply Hn; by rewrite A, B, D|]. rewrite <-A in Hk. rewrite Hk in Hlt. by vm_compute in Hlt.
Qed.

#[local] Abbreviation mk tp := (whole_key chunkId dbId pk tp).

Lemma mk_mine tp s : getRealKeyType tp = RT_DATA_META -> RecordKey_encode (mk tp) = Ret s -> mine s.
Proof. intros Htp E. destruct (whole_key_data chunkId dbId pk Hlen Hplace Hdb tp Htp) as [Hd _]. exists (mk tp). split; [apply Hd|]. split; [done|]. by left. Qed.

Lemma delKV_shrinks tp (tx tx' : RocksTxn T) t : getRealKeyType tp = RT_DATA_META -> RocksKVStore_delKV cfg (mk tp) tx t = Ret tx' -> shrinks mine (tx_db tx) (tx_db tx').
Proof. intros Htp. unfold RocksKVStore_delKV. intros (s & Es & E)%bind_Ret_inv. apply (txn_del_shrinks _ _ _ _ _ _ E). by apply (mk_mine tp). Qed.

Lemma index_mine t s : ti_priKey t = pk -> TTLIndex_encode t = Ret s -> mine s.
Proof.
  intros Ep. unfold TTLIndex_encode, TTLIndex_ttlIndex. intros (partial & E1 & E)%bind_Ret_inv. apply bind_Ret_inv in E1 as (_ & _ & E1). apply bind_Ret_inv in E1 as (c & _ & E1). apply (inj Ret) in E1 as <-.
  eexists. split; [|split; [exact E|by right]]. apply RecordKey_wf_new; [done|done|done|]. rewrite !zlen_app, !zlen_be_bytes, Ep. change (zlen [c]) with 1. change (zlen []) with 0. lia.
Qed.

Lemma del_index_shrinks ictx (tx tx' : RocksTxn T) : (forall t, ictx = Some t -> ti_priKey t = pk) -> del_index cfg now ictx tx = Ret tx' -> shrinks mine (tx_db tx) (tx_db tx').
Proof.
  intros Hi. unfold del_index. destruct ictx as [t|]; [|by intros [= <-]]. destruct (bool_decide _); [by intros [= <-]|]. intros (s & Es & E)%bind_Ret_inv. apply (txn_del_shrinks _ _ _ _ _ _ E). by apply (index_mine t); [apply Hi|].
Qed.

Lemma ele_types_place valueType types : ele_types valueType = Ret types -> Forall (ele_place chunkId dbId) types.
Proof.
  intros E. replace types with (ele_list valueType); [by apply ele_list_place|]. destruct valueType; cbn in E; try (by injection E as <-); by apply bind_Ret_inv in E as (_ & _ & [= <-]).
Qed.

Lemma range_mine type c (db : T) s v : tidy db -> ele_place chunkId dbId type -> rt2Char type = Ret c -> rdb_read db CF_Default s = Some v ->
  in_range CF_Default CF_Default (pk_prefix (sub_key chunkId dbId type pk []) c ++ [x00]) (pk_prefix (sub_key chunkId dbId type pk []) c ++ max_version) s false = true -> mine s.
Proof.
  intros Ht Hp Hc Er Hin. destruct (Ht s v Er) as (r & (_ & Hw & E & _) & Hn). pose proof (sub_key_wf _ _ _ _ Hp _ (empty_ok pk Hlen)) as Hwk.
  assert (rk_chunkId (fst r) = rk_chunkId (sub_key chunkId dbId type pk []) -> x00 ∉ rk_pk (fst r)) as Hn' by (intros Ec; apply Hn; rewrite Ec; apply Hplace).
  destruct (proj1 (record_in_range (sub_key chunkId dbId type pk []) c (fst r) s Hwk Hw ltac:(by rewrite sub_key_type) Hpk Hn' E) Hin) as (Ec & _ & Ed & Ep).
  exists (fst r). split; [done|]. split; [done|]. left. by rewrite <-Ec, <-Ed, <-Ep.
Qed.

Lemma delete_ranges_shrinks mk types : rk_chunkId mk = chunkId -> rk_dbId mk = dbId -> rk_pk mk = pk -> Forall (ele_place chunkId dbId) types ->
  forall ks (db : T) ks' db' r, tidy db -> delete_ranges cfg now mk types ks db = Ret (ks', db', r) -> shrinks mine db db'.
Proof.
  intros Ec Ed Ek. induction 1 as [|type types Hp _ IH]; intros ks db ks' db' r Ht E; cbn [delete_ranges] in E; [by injection E as _ <- _|]. rewrite Ec, Ed, Ek in E.
  apply bind_Ret_inv in E as (start & Es & E). apply bind_Ret_inv in E as (end_ & Ee & E). apply bind_Ret_inv in E as ([[ks1 db1] s1] & E1 & E).
  pose proof (sub_key_wf _ _ _ _ Hp _ (empty_ok pk Hlen)) as Hwk. destruct (rt2Char_some type) as [c Hc]; [by intros ->; destruct Hp as [_ _ (_ & ? & _)]|].
  rewrite (range_start (sub_key chunkId dbId type pk []) c) in Es by (done || by rewrite sub_key_type). injection Es as <-. rewrite (range_end chunkId dbId type pk c) in Ee by (done || apply Hp). injection Ee as <-.
  assert (shrinks mine db db1) as Hs by (refine (deleteRange_shrinks _ _ _ _ _ _ _ _ _ E1); intros s v Hr Hin; by apply (range_mine type c db s v)). transitivity db1; [done|].
  destruct s1 as [[]| |]; [|by injection E as _ <- _|by injection E as _ <- _]. by apply (IH _ _ _ _ _ (shrinks_tidy _ _ _ Hs Ht) E).
Qed.

Lemma subkeys_shrinks tp valueType ks (db : T) ks' db' r : tidy db -> Command_delSubkeysRange cfg now (mk tp) valueType ks db = Ret (ks', db', r) -> shrinks mine db db'.
Proof.
  intros Ht. unfold Command_delSubkeysRange. intros (ty & _ & E)%bind_Ret_inv. apply bind_Ret_inv in E as (_ & _ & E). destruct (bool_decide _); [by apply bind_Ret_inv in E as (_ & _ & [= _ <- _])|].
  apply bind_Ret_inv in E as (types & Et & E). by apply (delete_ranges_shrinks (mk tp) types eq_refl eq_refl eq_refl (ele_types_place _ _ Et) _ _ _ _ _ Ht E).
Qed.

Lemma pessimistic_shrinks sess tp valueType ictx ks (db : T) ks' db' r : tidy db -> getRealKeyType tp = RT_DATA_META -> (forall t, ictx = Some t -> ti_priKey t = pk) ->
  Command_delKeyPessimisticInLock cfg now sess (mk tp) valueType ictx ks db = Ret (ks', db', r) -> shrinks mine db db'.
Proof.
  intros Ht Htp Hi E. refine (open_shrinks mine _ _ _ _ _ _ _ _ E). clear E ks' db' r. intros ks1 id ro ks' db' r E. apply bind_Ret_inv in E as ([[ks2 db2] ret] & Es & E).
  pose proof (subkeys_shrinks tp valueType _ _ _ _ _ Ht Es) as Hs. refine (or_drop_shrinks mine _ _ _ _ _ _ _ _ _ Hs _ E). clear E ks' db' r. intros _ ks' db' r _ E.
  refine (or_drop_shrinks mine _ _ _ _ _ _ _ _ _ Hs _ E). clear E ks' db' r. intros tx1 ks' db' r E1 E. pose proof (delKV_shrinks tp _ _ _ Htp E1) as H1'. cbn [tx_with_db tx_db] in H1'.
  refine (or_drop_shrinks mine _ _ _ _ _ _ _ _ _ Hs _ E). clear E ks' db' r. intros tx2 ks' db' r E2 E. pose proof (del_index_shrinks ictx _ _ Hi E2) as H2'.
  transitivity db2; [done|]. apply (close_shrinks mine _ _ _ _ _ _ _ _ E). by transitivity (tx_db tx1).
Qed.

Lemma del_all_shrinks keys : Forall (fun k => exists s, RecordKey_encode k = Ret s /\ mine s) keys -> forall tx tx' : RocksTxn T, del_all cfg now keys tx = Ret tx' -> shrinks mine (tx_db tx) (tx_db tx').
Proof.
  induction 1 as [|k keys (s & Es & Hs) _ IH]; intros tx tx' E; cbn [del_all] in E; [by injection E as <-|]. apply bind_Ret_inv in E as (tx1 & E1%expect_ok_inv & E). transitivity (tx_db tx1); [|by apply IH].
  unfold RocksKVStore_delKV in E1. rewrite Es, bind_Ret in E1. by apply (txn_del_shrinks _ _ _ _ _ _ E1).
Qed.

Lemma pending_mine tp limit types (tx : RocksTxn T) : tidy (tx_db tx) -> Forall (ele_place chunkId dbId) types -> forall acc l, pending_delete (mk tp) limit types tx acc = Ret l ->
  Forall (fun r => exists s, RecordKey_encode (fst r) = Ret s /\ mine s) acc -> Forall (fun r => exists s, RecordKey_encode (fst r) = Ret s /\ mine s) l.
Proof.
  intros Ht. induction 1 as [|type types Hp _ IH]; intros acc l E Ha; cbn [pending_delete] in E; [by injection E as <-|]. apply bind_Ret_inv in E as (prefix & Ep & E). apply bind_Ret_inv in E as (pending & Er & E).
  change (RecordKey_new _ _ type _ [] 0) with (sub_key chunkId dbId type pk []) in Ep. pose proof (sub_scan_key _ _ _ _ Hp Hpk _ (empty_ok pk Hlen)) as Hsk.
  rewrite (prefix_records_ok _ limit (sub_key chunkId dbId type pk []) prefix acc tx) in Er by done. injection Er as <-. apply (IH _ _ E). apply Forall_app. split; [done|]. rewrite ztake_take. apply Forall_take, Forall_forall. intros r Hr.
  apply (in_key_records _ (sub_key chunkId dbId type pk [])) in Hr as ((A & _ & B & D) & ek & ev & _ & (_ & Hw & Ee & _)); [|done..]. exists ek. split; [done|]. exists (fst r). split; [done|]. split; [done|]. left. by rewrite <-A, <-B, <-D.
Qed.

Lemma optimism_shrinks tp valueType ictx (tx tx' : RocksTxn T) : tidy (tx_db tx) -> getRealKeyType tp = RT_DATA_META -> (forall t, ictx = Some t -> ti_priKey t = pk) ->
  Command_delKeyOptimismInLock cfg now (mk tp) valueType tx ictx = Ret tx' -> shrinks mine (tx_db tx) (tx_db tx').
Proof.
  intros Ht Htp Hi. unfold Command_delKeyOptimismInLock, Command_partialDelSubKeys. intros ([tx1 n] & E & [= <-])%bind_Ret_inv. apply bind_Ret_inv in E as (_ & _ & E). apply bind_Ret_inv in E as (t & _ & E).
  apply bind_Ret_inv in E as (_ & _ & E). destruct (bool_decide (valueType = RT_KV)).
  - apply bind_Ret_inv in E as (tx2 & E2%expect_ok_inv & [= <- _]). by apply (delKV_shrinks tp _ _ _ Htp E2).
  - apply bind_Ret_inv in E as (types & Et & E). apply bind_Ret_inv in E as (pending & Ep & E). apply bind_Ret_inv in E as (tx2 & E2 & E). apply bind_Ret_inv in E as (tx3 & E3%expect_ok_inv & [= <- _]).
    transitivity (tx_db tx2); [|by apply (del_index_shrinks ictx)]. refine (del_all_shrinks _ _ _ _ E2). apply Forall_app. split.
    + apply Forall_map. by apply (pending_mine tp _ types tx Ht (ele_types_place _ _ Et) [] pending Ep).
    + destruct (whole_key_data chunkId dbId pk Hlen Hplace Hdb tp Htp) as [Hd _]. destruct (RecordKey_encode_total _ (proj1 Hd)) as (c & _ & Es). apply Forall_singleton. eexists. split; [exact Es|]. by apply (mk_mine tp).
Qed.

(** Looking at a key touches the records of that key and the index only. *)
Lemma expire_shrinks srv sess multi currentTs tp hasVersion ks (db : T) ks' db' r : sc_dbId sess = dbId -> tidy db -> getRealKeyType tp = RT_DATA_META ->
  Command_expireKeyIfNeeded cfg now srv sess multi chunkId currentTs pk tp hasVersion ks db = Ret (ks', db', r) -> shrinks mine db db'.
Proof.
  intros Ed Ht Htp E. unfold Command_expireKeyIfNeeded in E. rewrite Ed in E. refine (open_shrinks mine _ _ _ _ _ _ _ _ E). clear E ks' db' r. intros ks1 id ro ks' db' r E.
  refine (or_drop_shrinks mine _ _ _ _ _ _ _ _ _ _ _ E); [done|]. clear E ks' db' r. intros v ks' db' r _ E. destruct (_ || _).
  { destruct (_ && _); [by rewrite (drop_db _ _ _ _ _ _ _ E)|]. destruct (_ && _); by rewrite (drop_db _ _ _ _ _ _ _ E). }
  destruct (tx_replOnly _); [by rewrite (drop_db _ _ _ _ _ _ _ E)|]. refine (or_drop_shrinks mine _ _ _ _ _ _ _ _ _ _ _ E); [done|]. clear E ks' db' r. intros cnt ks' db' r _ E.
  set (ictx := mkTTLIndex _ _ _ _) in E. assert (forall t, Some ictx = Some t -> ti_priKey t = pk) as Hi by (by intros t [= <-]). destruct (Command_useDeleteRange _ _ _).
  - apply bind_Ret_inv in E as ([[ks2 db2] s] & Ep & E). rewrite (drop_db _ _ _ _ _ _ _ E). by apply (pessimistic_shrinks _ _ _ _ _ _ _ _ _ Ht Htp Hi Ep).
  - refine (or_drop_shrinks mine _ _ _ _ _ _ _ _ _ _ _ E); [done|]. clear E ks' db' r. intros tx2 ks' db' r Eo E. apply bind_Ret_inv in E as ([[ks2 db2] e] & Ec & [= _ <- _]).
    apply (commit_shrinks mine _ _ _ _ _ _ _ _ Ec). exact (optimism_shrinks tp _ _ (RocksTxn_new id ro db) _ Ht Htp Hi Eo).
Qed.

(** Looking at a key that has not expired changes nothing. *)
Lemma live_kept srv sess multi currentTs tp hasVersion ks (db : T) ks' db' r v : sc_dbId sess = dbId -> RocksKVStore_getKV cfg (mk tp) (RocksTxn_new 0 false db) = Ret v -> expired currentTs srv v = false ->
  Command_expireKeyIfNeeded cfg now srv sess multi chunkId currentTs pk tp hasVersion ks db = Ret (ks', db', r) -> db' = db.
Proof.
  intros Ed Eg He E. unfold Command_expireKeyIfNeeded in E. rewrite Ed in E. unfold open_txn in E. destruct (RocksKVStore_createTransaction _ _) as [[[ks1 id] ro]|c msg|]; [|by injection E as _ <- _|done].
  change (RecordKey_new chunkId dbId tp pk [] 0) with (mk tp) in E. rewrite (getKV_same cfg (mk tp) _ (RocksTxn_new 0 false db)), Eg in E by done. cbn [or_drop] in E. unfold expired in He. apply negb_false_iff in He. rewrite He in E.
  destruct (_ && _); [by rewrite (drop_db _ _ _ _ _ _ _ E)|]. destruct (_ && _); by rewrite (drop_db _ _ _ _ _ _ _ E).
Qed.

End Shrink.

(** * The job *)

Section Reap.
Context {BM : BuildMode} {T : Type} `{RocksIterLaws T} {HL : RocksDBLaws T} {HH : RocksDBHealthy T} {HI : RocksIterHealthy T} {HR : RocksRangeLaws T}.
Variable cfg : StoreCfg.
Hypothesis Hcf : cfg_binlogUsingDefaultCF cfg = false.
Variables (now : Z) (srv : ServerParams) (chunkOf : bytes -> Z) (clock : Z -> Z).

(** The key of an entry is one that the store can have. *)
Definition reapable (t : TTLIndex) : Prop :=
  (x00 ∉ ti_priKey t) /\ zlen (ti_priKey t) < 2 ^ 61 /\ (is_u32 (chunkOf (ti_priKey t)) /\ chunkOf (ti_priKey t) < CLUSTER_SLOTS) /\ is_u32 (ti_dbId t) /\ isDataMetaType (ti_type t) = true.

(** The key is there, and does not expire while the job runs. *)
Definition unexpired (dbId : Z) (pk : bytes) (v : RecordValue) (db : T) : Prop :=
  RocksKVStore_getKV cfg (whole_key (chunkOf pk) dbId pk RT_DATA_META) (RocksTxn_new 0 false db) = Ret v /\ forall i, expired (clock i) srv v = false.

Lemma getKV_whole chunkId dbId pk tp (tx : RocksTxn T) : getRealKeyType tp = RT_DATA_META -> RocksKVStore_getKV cfg (whole_key chunkId dbId pk tp) tx = RocksKVStore_getKV cfg (whole_key chunkId dbId pk RT_DATA_META) tx.
Proof.
  intros Htp. assert (RecordKey_equiv (whole_key chunkId dbId pk tp) (whole_key chunkId dbId pk RT_DATA_META)) as Hq by (apply RecordKey_equiv_fields; cbn; by rewrite Htp).
  unfold RocksKVStore_getKV. by rewrite (RecordKey_encode_proper _ _ Hq).
Qed.

Variables (dbId : Z) (pk : bytes) (v : RecordValue).
Hypothesis Hpk : zlen pk < 2 ^ 61.
Hypothesis Hplace : is_u32 (chunkOf pk) /\ chunkOf pk < CLUSTER_SLOTS.
Hypothesis Hdb : is_u32 dbId.

(** A record of the key. *)
Definition of_key (k : RecordKey) : Prop := RecordKey_wf k /\ rk_chunkId k = chunkOf pk /\ rk_dbId k = dbId /\ rk_pk k = pk.

(** One key of the queue. *)
Lemma reap_one t i ks (db : T) ks' db' r : reapable t -> tidy db -> unexpired dbId pk v db ->
  Command_expireKeyIfNeeded cfg now srv (local_session (ti_dbId t)) None (chunkOf (ti_priKey t)) (clock i) (ti_priKey t) (ti_type t) true ks db = Ret (ks', db', r) ->
  tidy db' /\ unexpired dbId pk v db' /\ forall k, of_key k -> stored_raw db' k = stored_raw db k.
Proof.
  intros (Hn & Hl & Hc & Hd & Hm) Ht [Eg He] E. assert (getRealKeyType (ti_type t) = RT_DATA_META) as Htp by (unfold getRealKeyType; by rewrite Hm).
  destruct (decide (ti_priKey t = pk /\ ti_dbId t = dbId)) as [[Ep Ed]|Hne].
  - assert (db' = db) as ->; [|done]. rewrite Ep, Ed in E. refine (live_kept cfg now (chunkOf pk) dbId pk srv (local_session dbId) None (clock i) (ti_type t) true ks db ks' db' r v _ _ _ E); [done|by rewrite getKV_whole|apply He].
  - pose proof (expire_shrinks cfg Hcf now _ _ _ Hn Hl Hc Hd srv (local_session (ti_dbId t)) None (clock i) (ti_type t) true ks db ks' db' r eq_refl Ht Htp E) as Hs.
    assert (forall k, of_key k -> stored_raw db' k = stored_raw db k) as Hk.
    { intros k (Hw & Ec & Ed & Ep). destruct (RecordKey_encode_total k Hw) as (c & _ & Es). apply (shrinks_raw _ _ _ k _ Hs Es). apply (not_mine _ _ _ k _ Hw Es); [rewrite Ec; apply Hplace|].
      rewrite Ed, Ep. intros (_ & E1 & E2). by apply Hne. }
    split; [by apply (shrinks_tidy _ _ _ Hs)|]. split; [|done]. split; [|done]. destruct (whole_key_data (chunkOf pk) dbId pk Hpk Hplace Hdb RT_DATA_META eq_refl) as [Hmd _].
    apply (getKV_frame cfg _ (RocksTxn_new 0 false db)); [done| |done]. apply (Hk (whole_key (chunkOf pk) dbId pk RT_DATA_META)). split; [apply Hmd|done].
Qed.

Lemma reap_loop queue batch : Forall reapable queue -> forall n m ks (db : T) m' ks' db' n', del_loop cfg now srv chunkOf clock queue batch n m ks db = Ret (m', ks', db', n') -> im_expiredKeys m = queue -> tidy db -> unexpired dbId pk v db ->
  tidy db' /\ (exists done, queue = done ++ im_expiredKeys m' /\ (queue <> [] -> done <> [])) /\ forall k, of_key k -> stored_raw db' k = stored_raw db k.
Proof.
  induction 1 as [|t queue Hr _ IH]; intros n m ks db m' ks' db' n' E Eq Ht Hs; cbn [del_loop] in E; [injection E as <- _ <- _; split; [done|]; split; [exists []; by rewrite Eq|done]|].
  apply bind_Ret_inv in E as ([[ks1 db1] r] & E1 & E). destruct (reap_one t n ks db ks1 db1 r Hr Ht Hs E1) as (Ht1 & Hs1 & Hk1). destruct (batch <=? _).
  - injection E as <- _ <- _. split; [done|]. split; [by exists [t]|done].
  - destruct (IH _ _ _ _ _ _ _ _ E eq_refl Ht1 Hs1) as (Ht' & (done & Ed & _) & Hk'). split; [done|]. split; [exists (t :: done); by rewrite Ed|]. intros k Hk. by rewrite Hk', Hk1.
Qed.


End Reap.

(** * An example *)

#[local] Instance reap_build : BuildMode := true.

(** A hash that expired at 5, beside the set [s], which has no time but an entry in the queue. *)
Definition demo_reap : MemDB :=
  put_record (demo_sub RT_HASH_META (lit "h") []) demo_hash_meta (put_record (demo_sub RT_HASH_ELE (lit "h") (lit "f")) (demo_field (lit "1")) demo_sdb).

Definition demo_queue : IndexManager := mkIndexMgr [mkTTLIndex (lit "h") RT_HASH_META 0 5; mkTTLIndex (lit "s") RT_SET_META 0 6] [] 0 false 2 0.

Definition demo_job : M (IndexManager * RocksKVStore * MemDB * Z) := IndexManager_tryDelExpiredKeysJob demo_cfg 9 demo_params demo_schunk (fun _ => 9) 10 demo_queue demo_store demo_reap.

Definition demo_reaped : MemDB := match demo_job with Ret (_, _, db, _) => db | _ => ∅ end.

Lemma demo_reap_tidy : tidy demo_reap.
Proof.
  unfold demo_reap. do 2 (apply put_record_tidy; [|by apply RecordKey_wf_new|by apply (bool_decide_unpack _)|by split_and!; (done || (unfold is_u, MAXU64; cbn; lia))]). exact demo_sdb_tidy.
Qed.

Lemma demo_job_ok : match demo_job with Ret (m, _, _, n) => n = 2 /\ im_expiredKeys m = [] | _ => False end.
Proof. vm_compute. split; reflexivity. Qed.

