(* ===== verification/Guards.v ===== *)
(** The guards of stores, chunks and keys (lock/lock.cpp) and the part of a session they change
    (network/session_ctx.cpp). A guard takes its locks from the store down to the key, with the modes
    that announce it above, and gives them back when it is destroyed. The threads interleave at every
    operation of a lock, so a constructor or destructor is a program of such operations. *)

From Stdlib Require Import Strings.Byte ZArith Lia.
From stdpp Require Import base list numbers strings gmap relations.
From S2P Require Import Prelude Status Mgl MglSafe.

Local Open Scope Z_scope.

(** * Guards *)

(** The classes derived from [ILock], with the fields they add. *)
Inductive LockClass : Set :=
  | StoresLock_ | StoreLock_ (storeId : Z) | ChunkLock_ (chunkId : Z) | KeyLock_ (key : bytes).

#[export] Instance LockClass_eq_dec : EqDecision LockClass.
Proof. solve_decision. Defined.

(** A guard owns its parent and its [MGLock]. [il_sess] says that the session is not null; a pointer
    to a guard is the pointer to its [MGLock], which no other guard has. *)
Inductive ILock : Set := mkILock {
  il_class : LockClass;
  il_lockResult : LockRes;
  il_parent : option ILock;
  il_mgl : Z;
  il_sess : bool;
  il_isRecursive : bool
}.

Definition ILock_getLockResult (l : ILock) : LockRes := il_lockResult l.

Definition ILock_getMode (h : heap) (l : ILock) : M LockMode := o ← deref h (il_mgl l); Ret (mg_mode o).

Fixpoint ILock_getStoreId (l : ILock) : M Z :=
  match il_class l with
  | StoresLock_ => Ret 0
  | StoreLock_ s => Ret s
  | ChunkLock_ _ | KeyLock_ _ =>
      match il_parent l with Some p => ILock_getStoreId p | None => Crash CUndefined end
  end.

Fixpoint ILock_getChunkId (l : ILock) : M Z :=
  match il_class l with
  | StoresLock_ | StoreLock_ _ => Ret 0
  | ChunkLock_ c => Ret c
  | KeyLock_ _ => match il_parent l with Some p => ILock_getChunkId p | None => Crash CUndefined end
  end.

Definition ILock_getKey (l : ILock) : bytes := match il_class l with KeyLock_ k => k | _ => [] end.

(** [uitos] of utils/string.cpp. *)
Definition uitos (d : Z) : bytes := to_string d.

(** * The session *)

(** The members of [SessionCtx] that the guards change. *)
Record SessionLocks : Set := mkSessionLocks {
  sc_locks : list Z;
  sc_keylockmap : gmap bytes LockMode;
  sc_waitlock : Z * Z * bytes * LockMode
}.

Definition SessionLocks_new : SessionLocks := mkSessionLocks [] ∅ (0, 0, [], LOCK_NONE).

Section Guards.
Context {BM : BuildMode}.

Definition SessionCtx_addLock (lock : Z) (c : SessionLocks) : M (SessionLocks * unit) :=
  Ret (mkSessionLocks (sc_locks c ++ [lock]) (sc_keylockmap c) (sc_waitlock c), tt).

Definition SessionCtx_removeLock (lock : Z) (c : SessionLocks) : M (SessionLocks * unit) :=
  match list_remove_id (sc_locks c) lock with
  | Some locks => Ret (mkSessionLocks locks (sc_keylockmap c) (sc_waitlock c), tt)
  | None => _ ← INVARIANT_D false; Ret (c, tt)
  end.

Definition SessionCtx_setWaitLock (storeId chunkId : Z) (key : bytes) (mode : LockMode) (c : SessionLocks)
  : M (SessionLocks * unit) :=
  Ret (mkSessionLocks (sc_locks c) (sc_keylockmap c) (storeId, chunkId, key, mode), tt).

Definition SessionCtx_setKeylock (key : bytes) (mode : LockMode) (c : SessionLocks) : M (SessionLocks * unit) :=
  Ret (mkSessionLocks (sc_locks c) (<[key := mode]> (sc_keylockmap c)) (sc_waitlock c), tt).

Definition SessionCtx_unsetKeylock (key : bytes) (c : SessionLocks) : M (SessionLocks * unit) :=
  _ ← INVARIANT_D (bool_decide (is_Some (sc_keylockmap c !! key)));
  Ret (mkSessionLocks (sc_locks c) (delete key (sc_keylockmap c)) (sc_waitlock c), tt).

Definition SessionCtx_isLockedByMe (key : bytes) (mode : LockMode) (c : SessionLocks) : M (SessionLocks * bool) :=
  match sc_keylockmap c !! key with
  | Some held => _ ← INVARIANT_D (LockMode_int mode <=? LockMode_int held); Ret (c, true)
  | None => Ret (c, false)
  end.

(** * Programs *)

(** What a thread does at one moment, under the mutex of a shard or of its session. [Wait] is the end
    of the wait in [MGLock::lock]. *)
Inductive lockE : Set -> Type :=
  | New : lockE Z
  | Request (core : Z) (target : bytes) (mode : LockMode) : lockE unit
  | Wait (core : Z) : lockE LockRes
  | Unlock (core : Z) : lockE unit
  | Destroy (core : Z) : lockE unit
  | Ctx {B : Set} (f : SessionLocks -> M (SessionLocks * B)) : lockE B.

Inductive prog (A : Type) : Type :=
  | Done (a : A)
  | Act {B : Set} (e : lockE B) (k : B -> prog A).
#[global] Arguments Done {A} a.
#[global] Arguments Act {A B} e k.

#[export] Instance prog_ret : MRet prog := @Done.
#[export] Instance prog_bind : MBind prog := fun A B f =>
  fix go (p : prog A) : prog B :=
    match p with Done a => f a | Act e k => Act e (fun b => go (k b)) end.

Definition perform {B : Set} (e : lockE B) : prog B := Act e Done.

Definition lift {B : Set} (m : M B) : prog B := perform (Ctx (fun c => b ← m; Ret (c, b))).

Definition when (b : bool) (p : prog unit) : prog unit := if b then p else Done tt.

(** * Constructors and destructors *)

Definition getParentMode (mode : LockMode) : M LockMode :=
  match mode with
  | LOCK_IS | LOCK_S => Ret LOCK_IS
  | LOCK_IX | LOCK_X => Ret LOCK_IX
  | _ => _ ← INVARIANT_D false; Ret LOCK_NONE
  end.

Definition MGLock_lock (core : Z) (target : bytes) (mode : LockMode) : prog LockRes :=
  _ ← perform (Request core target mode); perform (Wait core).

Definition is_ok (r : LockRes) : bool := bool_decide (r = LOCKRES_OK).

Definition StoresLock (mode : LockMode) (sess : bool) : prog ILock :=
  core ← perform New;
  res ← MGLock_lock core (lit "stores") mode;
  Done (mkILock StoresLock_ res None core sess false).

(** The bodies of the constructors below: the lock on [target], and what the session is told. *)
Definition ILock_take (core : Z) (target : bytes) (storeId chunkId : Z) (key : bytes) (mode : LockMode)
  (sess isRecursive : bool) : prog LockRes :=
  _ ← when sess (perform (Ctx (SessionCtx_setWaitLock storeId chunkId key mode)));
  res ← MGLock_lock core target mode;
  _ ← when sess (perform (Ctx (SessionCtx_setWaitLock 0 0 [] LOCK_NONE)));
  _ ← when (sess && is_ok res && negb isRecursive) (perform (Ctx (SessionCtx_addLock core)));
  Done res.

Definition StoreLock (storeId : Z) (mode : LockMode) (sess isRecursive : bool) : prog ILock :=
  core ← perform New;
  res ← ILock_take core (lit "store_" ++ uitos storeId) storeId 0 [] mode sess isRecursive;
  Done (mkILock (StoreLock_ storeId) res None core sess isRecursive).

Definition ChunkLock (storeId chunkId : Z) (mode : LockMode) (sess isRecursive : bool) : prog ILock :=
  parentMode ← lift (getParentMode mode);
  parent ← StoreLock storeId parentMode sess true;
  core ← perform New;
  res ← (if negb (is_ok (ILock_getLockResult parent)) then Done (ILock_getLockResult parent)
         else ILock_take core (lit "chunk_" ++ uitos chunkId) storeId chunkId [] mode sess isRecursive);
  Done (mkILock (ChunkLock_ chunkId) res (Some parent) core sess isRecursive).

Definition KeyLock (storeId chunkId : Z) (key : bytes) (mode : LockMode) (sess : bool) : prog ILock :=
  parentMode ← lift (getParentMode mode);
  parent ← ChunkLock storeId chunkId parentMode sess true;
  core ← perform New;
  res ← (if negb (is_ok (ILock_getLockResult parent)) then Done (ILock_getLockResult parent)
         else
           res ← ILock_take core (lit "key_" ++ key) storeId chunkId key mode sess false;
           _ ← when (sess && is_ok res) (perform (Ctx (SessionCtx_setKeylock key mode)));
           Done res);
  Done (mkILock (KeyLock_ key) res (Some parent) core sess false).

(** [~KeyLock], then [~ILock] with the members it destroys. *)
Fixpoint ILock_destroy (l : ILock) : prog unit :=
  _ ← match il_class l with
      | KeyLock_ key => when (il_sess l && is_ok (il_lockResult l)) (perform (Ctx (SessionCtx_unsetKeylock key)))
      | _ => Done tt
      end;
  _ ← perform (Unlock (il_mgl l));
  _ ← match il_parent l with Some p => ILock_destroy p | None => Done tt end;
  _ ← when (il_sess l && is_ok (il_lockResult l) && negb (il_isRecursive l))
        (perform (Ctx (SessionCtx_removeLock (il_mgl l))));
  perform (Destroy (il_mgl l)).

(** A guard that has its lock is returned; another is destroyed on the way out. *)
Definition ILock_acquired (lock : ILock) : prog (M (option ILock)) :=
  if is_ok (ILock_getLockResult lock) then Done (Ret (Some lock))
  else if bool_decide (ILock_getLockResult lock = LOCKRES_TIMEOUT) then
    _ ← ILock_destroy lock;
    Done (Throw ERR_LOCK_TIMEOUT (lit "Lock wait timeout"))
  else
    _ ← lift (INVARIANT_D false);
    _ ← ILock_destroy lock;
    Done (Throw ERR_UNKNOWN (lit "unknown error")).

Definition AquireStoreLock (storeId : Z) (mode : LockMode) (sess : bool) : prog (M (option ILock)) :=
  lock ← StoreLock storeId mode sess false; ILock_acquired lock.

Definition AquireChunkLock (storeId chunkId : Z) (mode : LockMode) (sess : bool) : prog (M (option ILock)) :=
  lock ← ChunkLock storeId chunkId mode sess false; ILock_acquired lock.

(** A key that the session has locked gives a null guard. *)
Definition AquireKeyLock (storeId chunkId : Z) (key : bytes) (mode : LockMode) : prog (M (option ILock)) :=
  locked ← perform (Ctx (SessionCtx_isLockedByMe key mode));
  if locked : bool then Done (Ret None)
  else lock ← KeyLock storeId chunkId key mode true; ILock_acquired lock.

(** * Sessions *)

(** What a session asks for. *)
Inductive Acquire : Set :=
  | AcqStore (storeId : Z) (mode : LockMode) (sess : bool)
  | AcqChunk (storeId chunkId : Z) (mode : LockMode) (sess : bool)
  | AcqKey (storeId chunkId : Z) (key : bytes) (mode : LockMode).

Definition acq_mode (a : Acquire) : LockMode :=
  match a with AcqStore _ m _ | AcqChunk _ _ m _ | AcqKey _ _ _ m => m end.

Definition acquire (a : Acquire) : prog (M (option ILock)) :=
  match a with
  | AcqStore s m sess => AquireStoreLock s m sess
  | AcqChunk s c m sess => AquireChunkLock s c m sess
  | AcqKey s c k m => AquireKeyLock s c k m
  end.

(** A session holds guards, and runs a constructor or a destructor that ends with the guards it then
    holds. *)
Record Session := mkSession {
  s_ctx : SessionLocks;
  s_held : list ILock;
  s_run : option (prog (list ILock))
}.

Definition Session_new : Session := mkSession SessionLocks_new [] None.

Definition run_acquire (a : Acquire) (held : list ILock) : prog (list ILock) :=
  r ← acquire a; Done (match r with Ret (Some g) => g :: held | _ => held end).

Definition run_release (g : ILock) (held : list ILock) : prog (list ILock) :=
  _ ← ILock_destroy g; Done held.

Variable hash : bytes -> Z.

(** One operation; [fresh] is the address that [New] gets. *)
Definition act_exec {B : Set} (e : lockE B) (fresh : Z) (h : heap) (mgr : MGLockMgr) (c : SessionLocks)
  : M (heap * MGLockMgr * SessionLocks * B) :=
  match e in lockE B return M (heap * MGLockMgr * SessionLocks * B) with
  | New => Ret (<[fresh := MGLock_new]> h, mgr, c, fresh)
  | Request x t m => '(h, mgr) ← MGLock_request hash h mgr x t m; Ret (h, mgr, c, tt)
  | Wait x => r ← MGLock_result h x; Ret (h, mgr, c, r)
  | Unlock x => '(h, mgr) ← MGLock_unlock h mgr x; Ret (h, mgr, c, tt)
  | Destroy x => h ← MGLock_destroy h x; Ret (h, mgr, c, tt)
  | Ctx f => '(c, b) ← f c; Ret (h, mgr, c, b)
  end.

(** Memory that is not in use, and fewer than 65536 lock objects. *)
Definition fresh_ok {B : Set} (e : lockE B) (fresh : Z) (h : heap) : Prop :=
  match e with New => h !! fresh = None /\ Z.of_nat (size h) < 2 ^ 16 - 1 | _ => True end.

(** A mode for a guard; a key that the session has locked is not locked again in a greater mode, which
    [isLockedByMe] asserts. *)
Definition acq_ok (c : SessionLocks) (a : Acquire) : Prop :=
  acq_mode a ∈ [LOCK_IS; LOCK_IX; LOCK_S; LOCK_X] /\
  match a with
  | AcqKey _ _ k m => forall held, sc_keylockmap c !! k = Some held -> LockMode_int m <= LockMode_int held
  | _ => True
  end.

Record System := mkSystem { y_heap : heap; y_mgr : MGLockMgr; y_sessions : gmap Z Session }.

Definition System_new : System := mkSystem ∅ MGLockMgr_new ∅.

Definition set_session (y : System) (s : Z) (T : Session) : System :=
  mkSystem (y_heap y) (y_mgr y) (<[s := T]> (y_sessions y)).

(** The sessions interleave: one comes, starts to acquire a guard, starts to release one, takes one
    step of what it runs, ends it, or leaves without guards. *)
Inductive guard_step : System -> System -> Prop :=
  | gs_open y s : y_sessions y !! s = None -> guard_step y (set_session y s Session_new)
  | gs_acquire y s c held a :
      y_sessions y !! s = Some (mkSession c held None) -> acq_ok c a ->
      guard_step y (set_session y s (mkSession c held (Some (run_acquire a held))))
  | gs_release y s c held1 g held2 :
      y_sessions y !! s = Some (mkSession c (held1 ++ g :: held2) None) ->
      guard_step y (set_session y s (mkSession c (held1 ++ held2) (Some (run_release g (held1 ++ held2)))))
  | gs_act y s c held B (e : lockE B) k x h mgr c' b :
      y_sessions y !! s = Some (mkSession c held (Some (Act e k))) -> fresh_ok e x (y_heap y) ->
      act_exec e x (y_heap y) (y_mgr y) c = Ret (h, mgr, c', b) ->
      guard_step y (mkSystem h mgr (<[s := mkSession c' held (Some (k b))]> (y_sessions y)))
  | gs_done y s c held held' :
      y_sessions y !! s = Some (mkSession c held (Some (Done held'))) ->
      guard_step y (set_session y s (mkSession c held' None))
  | gs_close y s c :
      y_sessions y !! s = Some (mkSession c [] None) ->
      guard_step y (mkSystem (y_heap y) (y_mgr y) (delete s (y_sessions y))).

Definition guard_reachable (y : System) : Prop := rtc guard_step System_new y.

End Guards.
