(* ===== verification/GuardsLogic.v ===== *)
(** A logic for the programs of the guards (lock/lock.cpp): a session knows its own lock objects, the
    other sessions can only grant its requests, and so a proof about one program holds in every
    interleaving. *)

From Stdlib Require Import Strings.Byte ZArith Lia.
From stdpp Require Import base list numbers strings gmap relations.
From S2P Require Import Prelude Status Mgl MglSafe Guards.

Local Open Scope Z_scope.

(** * What an operation of a lock does to the lock objects *)

Section Frame.
Context {BM : BuildMode}.
Variable hash : bytes -> Z.

Local Abbreviation th := (target_hash hash).

Lemma setLockResult_Ret h x o res it h' :
  h !! x = Some o -> MGLock_setLockResult h x res it = Ret h' ->
  h' = <[x := mkMGLock (mg_target o) (mg_targetHash o) (mg_mode o) res it]> h.
Proof. intros Hx. unfold MGLock_setLockResult. rewrite (deref_obj _ _ _ Hx), bind_Ret. by intros [= <-]. Qed.

Lemma context_lock_heap h c x o h' c' :
  h !! x = Some o -> LockSchedCtx_lock h c x = Ret (h', c') ->
  exists res it, (res = LOCKRES_OK \/ res = LOCKRES_WAIT) /\
    h' = <[x := mkMGLock (mg_target o) (mg_targetHash o) (mg_mode o) res it]> h.
Proof.
  intros Hx. unfold LockSchedCtx_lock. rewrite (deref_obj _ _ _ Hx), bind_Ret. cbv zeta.
  intros (b & _ & E)%bind_Ret_inv. destruct (b || _);
    apply bind_Ret_inv in E as (c1 & _ & (h1 & E & [= <- _])%bind_Ret_inv);
    apply (setLockResult_Ret _ _ _ _ _ _ Hx) in E as ->; eauto.
Qed.

(** A request changes its own object only, and sets it up for its target. *)
Lemma request_frame h mgr S x o t m :
  mgr_rep hash h mgr S -> h !! x = Some o -> mg_res o = LOCKRES_UNINITED -> valid_mode m ->
  exists h' mgr' o', MGLock_request hash h mgr x t m = Ret (h', mgr') /\ (exists S', mgr_rep hash h' mgr' S') /\
    h' = <[x := o']> h /\ mg_target o' = t /\ mg_mode o' = m /\ (mg_res o' = LOCKRES_OK \/ mg_res o' = LOCKRES_WAIT).
Proof.
  intros Hrep Hx Hu Hm. destruct (request_refines _ _ _ _ _ _ t m Hrep Hx Hu Hm) as (h' & mgr' & E & Hrep').
  exists h', mgr'. pose proof E as E0. unfold MGLock_request in E.
  rewrite (deref_obj _ _ _ Hx), bind_Ret, (INVARIANT_D_bind _ _) in E by (by rewrite Hu).
  unfold MGLockMgr_lock in E. set (h1 := <[x := _]> h) in E.
  rewrite (deref_obj h1 x _ (lookup_insert_eq _ _ _)), bind_Ret in E.
  apply bind_Ret_inv in E as (sh & _ & ([h2 c2] & E & [= <- _])%bind_Ret_inv).
  apply (context_lock_heap _ _ _ _ _ _ (lookup_insert_eq _ _ _)) in E as (res & it & Hres & ->).
  eexists. split_and!; [exact E0|by eexists|unfold h1; by rewrite insert_insert_eq|done..].
Qed.

(** What another thread's release can do to an object: grant its request. *)
Definition granted_by (o o' : MGLock) : Prop :=
  mg_target o' = mg_target o /\ mg_mode o' = mg_mode o /\
  (mg_res o' = mg_res o \/ (mg_res o = LOCKRES_WAIT /\ mg_res o' = LOCKRES_OK)).

Lemma queue_object t h c q y m :
  ctx_rep t (th t) h c q -> (y, m) ∈ q_running q ++ q_pending q ->
  exists o, h !! y = Some o /\ mg_target o = t /\ mg_mode o = m /\ (mg_res o = LOCKRES_OK \/ mg_res o = LOCKRES_WAIT).
Proof.
  intros [_ _ _ _ Hr Hp _ _ _]. rewrite Forall_forall in Hr, Hp.
  intros [Hin|Hin]%elem_of_app; eexists; (split; [first [exact (Hr _ Hin)|exact (Hp _ Hin)]|]); cbn; auto.
Qed.

Lemma pending_granted t h c q h' c' x y :
  ctx_rep t (th t) h c q -> ctx_rep t (th t) h' c' (q_unlock q x) -> y <> x -> y ∈ (q_pending q).*1 ->
  exists o o', h !! y = Some o /\ h' !! y = Some o' /\ granted_by o o'.
Proof.
  intros Hr Hr' Hne ([y' m] & -> & Hin)%list_elem_of_fmap. cbn [fst] in *.
  pose proof (rep_nodup _ _ _ _ _ Hr) as Hnd. pose proof (rep_pending_heap _ _ _ _ _ Hr) as Hp.
  rewrite Forall_forall in Hp. specialize (Hp _ Hin).
  assert ((y', m) ∈ q_running (q_unlock q x) ++ q_pending (q_unlock q x)) as Hin'.
  { rewrite q_unlock_order by done. unfold q_drop. apply list_elem_of_filter. split; [done|].
    apply elem_of_app. by right. }
  destruct (queue_object _ _ _ _ _ _ Hr' Hin') as (o' & Ho' & Ht & Hm & Hres).
  eexists _, o'. split_and!; [exact Hp|done|]. unfold granted_by. cbn. split_and!; [done|done|].
  destruct Hres as [->| ->]; auto.
Qed.

(** A release leaves its own object unused; the others keep their targets, their modes and their
    results, except that it grants requests. *)
Lemma unlock_effect h mgr S x o :
  mgr_rep hash h mgr S -> h !! x = Some o ->
  exists h' mgr', MGLock_unlock h mgr x = Ret (h', mgr') /\ (exists S', mgr_rep hash h' mgr' S') /\
    (exists o', h' !! x = Some o' /\ mg_res o' = LOCKRES_UNINITED) /\
    (forall y, y <> x -> h' !! y = h !! y \/ exists o o', h !! y = Some o /\ h' !! y = Some o' /\ granted_by o o').
Proof.
  intros Hrep Hx. destruct (decide (mg_res o = LOCKRES_UNINITED)) as [Hu|Hu].
  { exists h, mgr. rewrite (unlock_unused _ _ _ _ Hx Hu). split_and!; eauto. }
  destruct (unlock_refines _ _ _ _ _ _ Hrep Hx Hu) as (h' & mgr' & m & E & Hrep' & Hx').
  exists h', mgr'. split_and!; [done|by eexists|by eexists|].
  destruct (mr_obj _ _ _ _ Hrep _ _ Hx) as [|(q & HS & Hth & Hin)]; [done|].
  destruct (mr_queue _ _ _ _ Hrep _ _ HS) as (c & Ec & Hr & _ & _).
  destruct (unlock_context _ _ _ _ _ _ _ Hr Hin) as (h1 & c1 & E1 & Hr1 & _ & Hf & _).
  assert (h' = h1) as ->.
  { unfold MGLock_unlock, MGLockMgr_unlock in E. rewrite (deref_obj _ _ _ Hx), !bind_Ret in E.
    rewrite bool_decide_eq_false_2 in E by done. rewrite Hth in E. unfold shard_at in E. unfold mgr_at in Ec.
    destruct (znth mgr _) as [sh|]; [|done].
    rewrite (INVARIANT_D_bind _ _) in E by (destruct Hin as [[-> _]|[-> _]]; done). rewrite !bind_Ret in E.
    rewrite (INVARIANT_D_bind _ _) in E by (destruct Hin as [[-> _]|[-> _]]; done).
    rewrite Ec, E1, !bind_Ret in E. apply bind_Ret_inv in E as (o2 & _ & (u & _ & [= <- _])%bind_Ret_inv). done. }
  intros y Hne. destruct (decide (y ∈ (q_pending q).*1)) as [Hy|Hy]; [right|left; by apply Hf].
  by eapply pending_granted.
Qed.

End Frame.

(** * The logic *)

(** What a session knows of a lock object of its own. *)
Inductive know : Set :=
  | Fresh | Asked (t : bytes) (m : LockMode) | Held (t : bytes) (m : LockMode).

Abbreviation known := (gmap Z know).

Definition agrees (h : heap) (x : Z) (k : know) : Prop :=
  exists o, h !! x = Some o /\
    match k with
    | Fresh => mg_res o = LOCKRES_UNINITED
    | Asked t m => mg_target o = t /\ mg_mode o = m /\ (mg_res o = LOCKRES_OK \/ mg_res o = LOCKRES_WAIT)
    | Held t m => mg_target o = t /\ mg_mode o = m /\ mg_res o = LOCKRES_OK
    end.

Definition agree (h : heap) (K : known) : Prop := forall x k, K !! x = Some k -> agrees h x k.

(** The program ends in [Q], if the other sessions leave its objects alone, and no operation of it
    fails. *)
Fixpoint wp {A} (p : prog A) (Q : A -> SessionLocks -> known -> Prop) (c : SessionLocks) (K : known) : Prop :=
  match p with
  | Done a => Q a c K
  | Act e k =>
      match e in lockE B return (B -> prog A) -> (B -> SessionLocks -> known -> Prop) -> Prop with
      | New => fun k go => forall x, K !! x = None -> go x c (<[x := Fresh]> K)
      | Request x t m => fun k go => K !! x = Some Fresh /\ valid_mode m /\ go tt c (<[x := Asked t m]> K)
      | Wait x => fun k go =>
          exists t m, K !! x = Some (Asked t m) /\ go LOCKRES_OK c (<[x := Held t m]> K) /\ go LOCKRES_TIMEOUT c K
      | Unlock x => fun k go => is_Some (K !! x) /\ go tt c (<[x := Fresh]> K)
      | Destroy x => fun k go => K !! x = Some Fresh /\ go tt c (delete x K)
      | Ctx f => fun k go => exists c' b, f c = Ret (c', b) /\ go b c' K
      end k (fun b => wp (k b) Q)
  end.

Lemma wp_bind {A B} (p : prog A) (f : A -> prog B) Q : forall c K,
  wp p (fun a => wp (f a) Q) c K -> wp (p ≫= f) Q c K.
Proof.
  induction p as [a|B' e k IH]; intros c K; [done|]. cbn. destruct e.
  - intros H x Hx. apply IH, H, Hx.
  - intros (H1 & H2 & H3). split_and!; [done|done|by apply IH].
  - intros (t & m & H1 & H2 & H3). exists t, m. split_and!; [done|by apply IH..].
  - intros (H1 & H2). split; [done|by apply IH].
  - intros (H1 & H2). split; [done|by apply IH].
  - intros (c' & b & H1 & H2). exists c', b. split; [done|by apply IH].
Qed.

Section Sound.
Context {BM : BuildMode}.
Variable hash : bytes -> Z.

(** The operations of a session leave what the others know. *)
Definition keeps (h h' : heap) (K K' : known) : Prop :=
  (forall y k, K !! y = None -> agrees h y k -> agrees h' y k) /\
  (forall y, is_Some (K' !! y) -> is_Some (K !! y) \/ h !! y = None) /\
  (forall y, is_Some (h' !! y) -> is_Some (K' !! y) \/ (K !! y = None /\ is_Some (h !! y))).

Lemma agrees_dom h x k : agrees h x k -> is_Some (h !! x).
Proof. intros (o & -> & _). by eexists. Qed.

Lemma agrees_granted h h' y k o o' :
  h !! y = Some o -> h' !! y = Some o' -> granted_by o o' -> agrees h y k -> agrees h' y k.
Proof.
  intros Ho Ho' (Ht & Hm & Hr) (o1 & E & H). rewrite Ho in E. injection E as <-. exists o'. split; [done|].
  rewrite Ht, Hm. destruct k; destruct Hr as [Hr|[Hr1 Hr2]]; rewrite ?Hr, ?Hr2; intuition congruence.
Qed.

(** An operation on one object [x] of the session. *)
Lemma keeps_one h h' K x k k' :
  K !! x = Some k -> agree h K -> agrees h' x k' ->
  (forall y, y <> x -> h' !! y = h !! y \/ exists o o', h !! y = Some o /\ h' !! y = Some o' /\ granted_by o o') ->
  agree h' (<[x := k']> K) /\ keeps h h' K (<[x := k']> K).
Proof.
  intros Hx HK Hx' Hf.
  assert (forall y k, y <> x -> agrees h y k -> agrees h' y k) as Hkeep.
  { intros y k0 Hne Hy. destruct (Hf y Hne) as [E|(o & o' & E1 & E2 & Hg)]; [|exact (agrees_granted _ _ _ _ _ _ E1 E2 Hg Hy)].
    unfold agrees in *. by rewrite E. }
  split; [|split_and!].
  - intros y k0. destruct (decide (y = x)) as [->|Hne]; [rewrite lookup_insert_eq; by intros [= <-]|].
    rewrite lookup_insert_ne by done. intros Hy. apply Hkeep; [done|by apply HK].
  - intros y k0 Hy. apply Hkeep. congruence.
  - intros y. destruct (decide (y = x)) as [->|Hne]; [left; by eexists|]. rewrite lookup_insert_ne by done. by left.
  - intros y Hy. destruct (decide (y = x)) as [->|Hne]; [left; rewrite lookup_insert_eq; by eexists|].
    rewrite lookup_insert_ne by done. destruct (K !! y) eqn:E; [left; by eexists|right]. split; [done|].
    destruct (Hf y Hne) as [<-|(o & o' & -> & _)]; [done|by eexists].
Qed.

Lemma keeps_heap h K : keeps h h K K.
Proof.
  split_and!; [done|by left|]. intros y Hy. destruct (K !! y) eqn:E; [left; by eexists|by right].
Qed.

(** A session can always go on, and what it knows stays true. *)
Lemma act_sound {A : Type} {B : Set} (e : lockE B) (k : B -> prog A) Q x h mgr S c K :
  mgr_rep hash h mgr S -> agree h K -> fresh_ok e x h -> wp (Act e k) Q c K ->
  exists h' mgr' c' b K', act_exec hash e x h mgr c = Ret (h', mgr', c', b) /\
    (exists S', mgr_rep hash h' mgr' S') /\ wp (k b) Q c' K' /\ agree h' K' /\ keeps h h' K K'.
Proof.
  intros Hrep HK Hfr Hwp. destruct e as [|y t m|y|y|y|B f]; cbn in Hfr, Hwp; cbn [act_exec].
  - destruct Hfr as [Hx Hsz]. assert (K !! x = None) as Hn.
    { destruct (K !! x) eqn:E; [|done]. destruct (HK _ _ E) as (o & E' & _). congruence. }
    assert (forall y k0, agrees h y k0 -> agrees (<[x := MGLock_new]> h) y k0) as Hk.
    { intros y k0 (o & E & H). exists o. rewrite lookup_insert_ne by congruence. done. }
    eexists _, _, _, _, _. split_and!; [done|exists S; by apply mgr_rep_new|by apply Hwp| |].
    + intros y k0. destruct (decide (y = x)) as [->|Hne].
      * rewrite lookup_insert_eq. intros [= <-]. eexists. rewrite lookup_insert_eq. done.
      * rewrite lookup_insert_ne by done. intros Hy. by apply Hk, HK.
    + split_and!; [auto| |]; intros y; (destruct (decide (y = x)) as [->|Hne];
        [by rewrite ?lookup_insert_eq; eauto|rewrite !lookup_insert_ne by done; intros Hy]); [by left|].
      destruct (K !! y) eqn:E; [left; by eexists|by right].
  - destruct Hwp as (Hy & Hm & Hwp). destruct (HK _ _ Hy) as (o & Ho & Hu).
    destruct (request_frame _ _ _ _ _ _ t m Hrep Ho Hu Hm) as (h' & mgr' & o' & E & Hrep' & Eh & Ht & Hmo & Hr).
    rewrite E, bind_Ret. eexists _, _, _, _, _. split_and!; [done|done|exact Hwp|..]; subst h';
      eapply keeps_one; try done; try (eexists; rewrite lookup_insert_eq; done);
      intros z Hz; left; by rewrite lookup_insert_ne.
  - destruct Hwp as (t & m & Hy & Hok & Hto). destruct (HK _ _ Hy) as (o & Ho & Ht & Hm & Hr).
    unfold MGLock_result. rewrite (deref_obj _ _ _ Ho), !bind_Ret. case_bool_decide as Hres.
    + eexists _, _, _, _, _. split_and!; [done|by eexists|exact Hok|..];
        eapply keeps_one; try done; try (by eexists); by left.
    + eexists _, _, _, _, _. split_and!; [done|by eexists|exact Hto|done|apply keeps_heap].
  - destruct Hwp as ([k0 Hy] & Hwp). destruct (HK _ _ Hy) as (o & Ho & _).
    destruct (unlock_effect _ _ _ _ _ _ Hrep Ho) as (h' & mgr' & E & Hrep' & (o' & Ho' & Hu) & Hf).
    rewrite E, bind_Ret. eexists _, _, _, _, _. split_and!; [done|done|exact Hwp|..];
      eapply keeps_one; try done; by eexists.
  - destruct Hwp as (Hy & Hwp). destruct (HK _ _ Hy) as (o & Ho & Hu).
    unfold MGLock_destroy. rewrite (deref_obj _ _ _ Ho), !bind_Ret, (INVARIANT_D_bind _ _) by (by rewrite Hu).
    rewrite bind_Ret. eexists _, _, _, _, _.
    split_and!; [done|exists S; by eapply mgr_rep_destroy|exact Hwp|..].
    + intros z k0 (Hne & Hz)%lookup_delete_Some. destruct (HK _ _ Hz) as (oz & Hoz & H).
      exists oz. by rewrite lookup_delete_ne.
    + split_and!.
      * intros z k0 Hz (oz & Hoz & H). exists oz. by rewrite lookup_delete_ne by congruence.
      * intros z (k0 & (Hne & Hz)%lookup_delete_Some). left. by eexists.
      * intros z (oz & (Hne & Hz)%lookup_delete_Some). rewrite lookup_delete_ne by done.
        destruct (K !! z) eqn:E; [left; by eexists|right; split; [done|by eexists]].
  - destruct Hwp as (c' & b & E & Hwp). rewrite E, bind_Ret.
    eexists _, _, _, _, _. split_and!; [done|by eexists|exact Hwp|done|apply keeps_heap].
Qed.

End Sound.
