(* ===== verification/GuardsSpec.v ===== *)
(** What the guards of stores, chunks and keys (lock/lock.cpp) promise in every interleaving of the
    sessions: exclusion along the hierarchy, exact accounts in the sessions, no lock left behind. *)

From Stdlib Require Import Strings.Byte ZArith Lia.
From stdpp Require Import base list numbers strings gmap relations.
From S2P Require Import Prelude Status Mgl MglSafe Guards GuardsLogic.

Local Open Scope Z_scope.

(** * What a guard owns *)

(** The target of the lock of a guard. *)
Definition target_of (cl : LockClass) : bytes :=
  match cl with
  | StoresLock_ => lit "stores"
  | StoreLock_ s => lit "store_" ++ uitos s
  | ChunkLock_ c => lit "chunk_" ++ uitos c
  | KeyLock_ k => lit "key_" ++ k
  end.

(** The modes that guards are asked for. *)
Definition real_mode (m : LockMode) : Prop := m ∈ [LOCK_IS; LOCK_IX; LOCK_S; LOCK_X].

(** The mode in which a guard of mode [m] locks what is above it. *)
Definition above (m : LockMode) : LockMode := match m with LOCK_IS | LOCK_S => LOCK_IS | _ => LOCK_IX end.

(** The parent that a constructor makes: it is not listed in the session. *)
Definition parent_of (cl : LockClass) (p : ILock) : Prop :=
  il_isRecursive p = true /\
  match cl, il_class p with ChunkLock_ _, StoreLock_ _ | KeyLock_ _, ChunkLock_ _ => True | _, _ => False end.

(** The lock objects of a guard and of its parents, in any state. *)
Fixpoint owned (l : ILock) (F : known) : Prop :=
  exists k Fp, F = <[il_mgl l := k]> Fp /\ Fp !! il_mgl l = None /\
    match il_parent l with
    | None => Fp = ∅
    | Some p => parent_of (il_class l) p /\ owned p Fp
    end.

(** The lock objects of a guard that has its lock in mode [m], and those above it. *)
Fixpoint guarded (l : ILock) (m : LockMode) (F : known) : Prop :=
  il_lockResult l = LOCKRES_OK /\
  exists Fp, F = <[il_mgl l := Held (target_of (il_class l)) m]> Fp /\ Fp !! il_mgl l = None /\
    match il_parent l with
    | None => Fp = ∅ /\ (exists s, il_class l = StoreLock_ s)
    | Some p => parent_of (il_class l) p /\ guarded p (above m) Fp
    end.

Section ILock_induction.
Variable P : ILock -> Prop.
Hypothesis Hroot : forall cl r x s b, P (mkILock cl r None x s b).
Hypothesis Hchild : forall cl r p x s b, P p -> P (mkILock cl r (Some p) x s b).

Fixpoint ILock_tree_ind (l : ILock) : P l :=
  match l with
  | mkILock cl r None x s b => Hroot cl r x s b
  | mkILock cl r (Some p) x s b => Hchild cl r p x s b (ILock_tree_ind p)
  end.

End ILock_induction.

Lemma guarded_owned l : forall m F, guarded l m F -> owned l F.
Proof.
  induction l as [cl r x s b|cl r p x s b IH] using ILock_tree_ind; intros m F (_ & Fp & -> & Hx & H);
    eexists _, _; (split_and!; [done|done|]); cbn in *.
  - by destruct H.
  - destruct H as [H1 H2]. split; [done|by eapply IH].
Qed.

(** * The constructors and the destructor *)

Section Programs.
Context {BM : BuildMode}.

Lemma getParentMode_real m : real_mode m -> getParentMode m = Ret (above m) /\ real_mode (above m) /\ valid_mode m.
Proof. unfold real_mode, valid_mode. by destruct m; intros H; set_solver. Qed.

(** What the construction and the destruction of a guard change in the session. *)
Definition listed (l : ILock) : list Z :=
  if il_sess l && is_ok (il_lockResult l) && negb (il_isRecursive l) then [il_mgl l] else [].

Definition key_noted (l : ILock) : option bytes :=
  match il_class l with KeyLock_ k => if il_sess l && is_ok (il_lockResult l) then Some k else None | _ => None end.

Definition note (l : ILock) (m : LockMode) (keys : gmap bytes LockMode) : gmap bytes LockMode :=
  match key_noted l with Some k => <[k := m]> keys | None => keys end.

Definition told (l : ILock) (m : LockMode) (c c' : SessionLocks) : Prop :=
  sc_locks c' = sc_locks c ++ listed l /\ sc_keylockmap c' = note l m (sc_keylockmap c).

(** The guard that a constructor makes: it has its lock, or a wait on the way has timed out. *)
Definition built (cl : LockClass) (m : LockMode) (sess isRecursive : bool) (l : ILock) (F : known) : Prop :=
  il_class l = cl /\ il_sess l = sess /\ il_isRecursive l = isRecursive /\ owned l F /\
  (guarded l m F \/ il_lockResult l = LOCKRES_TIMEOUT).

Lemma wp_perform_ctx {A : Type} {B : Set} (f : SessionLocks -> M (SessionLocks * B)) (k : B -> prog A) Q c K c' b :
  f c = Ret (c', b) -> wp (k b) Q c' K -> wp (perform (Ctx f) ≫= k) Q c K.
Proof. intros E H. cbn. by exists c', b. Qed.

Lemma wp_lift {A : Type} {B : Set} (m : M B) (k : B -> prog A) Q c K b :
  m = Ret b -> wp (k b) Q c K -> wp (lift m ≫= k) Q c K.
Proof. intros -> H. cbn. by exists c, b. Qed.

(** The body of a constructor: the lock is held, and the session is told if it is to be; or the wait
    has timed out and the session is told nothing. *)
Lemma take_wp core t s ch k m sess isRec Q c K :
  K !! core = Some Fresh -> valid_mode m ->
  (forall c', sc_keylockmap c' = sc_keylockmap c ->
    sc_locks c' = sc_locks c ++ (if sess && negb isRec then [core] else []) ->
    Q LOCKRES_OK c' (<[core := Held t m]> K)) ->
  (forall c', sc_keylockmap c' = sc_keylockmap c -> sc_locks c' = sc_locks c ->
    Q LOCKRES_TIMEOUT c' (<[core := Asked t m]> K)) ->
  wp (ILock_take core t s ch k m sess isRec) Q c K.
Proof.
  intros Hx Hm Hok Hto. unfold ILock_take, when, MGLock_lock.
  destruct sess; cbn; [eexists _, _; split; [done|]|]; (split_and!; [done|done|]);
    eexists t, m; (split_and!; [apply lookup_insert_eq|..]).
  - eexists _, _. split; [done|]. rewrite insert_insert_eq. destruct isRec; cbn.
    + apply Hok; [done|]. cbn. by rewrite app_nil_r.
    + eexists _, _. split; [done|]. by apply Hok.
  - eexists _, _. split; [done|]. by apply Hto.
  - rewrite insert_insert_eq. apply Hok; [done|]. by rewrite app_nil_r.
  - by apply Hto.
Qed.

Lemma own_frame x v (Fp K : known) :
  (Fp ∪ K) !! x = None -> Fp ##ₘ K ->
  <[x := v]> (<[x := Fresh]> (Fp ∪ K)) = <[x := v]> Fp ∪ K /\ <[x := v]> Fp ##ₘ K /\ Fp !! x = None.
Proof.
  intros [H1 H2]%lookup_union_None Hd. rewrite insert_insert_eq, insert_union_l. split_and!; [done| |done].
  by apply map_disjoint_insert_l.
Qed.

Lemma StoreLock_wp s m sess isRec Q c K :
  real_mode m ->
  (forall l F c', built (StoreLock_ s) m sess isRec l F -> F ##ₘ K -> told l m c c' -> Q l c' (F ∪ K)) ->
  wp (StoreLock s m sess isRec) Q c K.
Proof.
  intros Hm HQ. pose proof (getParentMode_real _ Hm) as (_ & _ & Hv). unfold StoreLock. cbn. intros x Hx.
  rewrite <-(map_empty_union K) in Hx |- *. pose proof (map_disjoint_empty_l K) as Hd.
  apply wp_bind, take_wp; [apply lookup_insert_eq|done|..]; intros c' E1 E2; cbn;
    rewrite (proj1 (own_frame _ _ _ _ Hx Hd)); destruct (own_frame x Fresh _ _ Hx Hd) as (_ & _ & Hn);
    (apply HQ; [|by apply own_frame|]).
  - unfold built, told, listed, note; cbn. split_and!; try done; [by eexists _, ∅|left].
    split; [done|]. exists ∅. split_and!; [done|done|done|by eexists].
  - unfold told, listed, note; cbn. by rewrite E1, E2, andb_true_r.
  - unfold built; cbn. split_and!; try done; [by eexists _, ∅|by right].
  - unfold told, listed, note; cbn. by rewrite E1, E2, andb_false_r, app_nil_r.
Qed.

(** A guard whose parent could not be locked takes no lock of its own. *)
Lemma child_failed cl cl' p Fp K x m sess isRec Q c c' :
  built cl' (above m) sess true p Fp -> il_lockResult p = LOCKRES_TIMEOUT -> parent_of cl p -> told p (above m) c c' ->
  Fp ##ₘ K -> (Fp ∪ K) !! x = None ->
  (forall l F c', built cl m sess isRec l F -> F ##ₘ K -> told l m c c' -> Q l c' (F ∪ K)) ->
  Q (mkILock cl (il_lockResult p) (Some p) x sess isRec) c' (<[x := Fresh]> (Fp ∪ K)).
Proof.
  intros (_ & _ & _ & Ho & _) Hto Hp Htold Hd Hx HQ. rewrite Hto.
  destruct (own_frame x Fresh _ _ Hx Hd) as (E & Hd' & Hn). rewrite insert_insert_eq in E. rewrite E.
  apply HQ; [|done|].
  - unfold built. cbn. split_and!; try done; [by eexists _, Fp|by right].
  - destruct Htold as [E1 E2]. unfold told, listed, note, key_noted in *. cbn. rewrite Hto in E1, E2. cbn in E1, E2.
    rewrite andb_false_r in *. rewrite E1, E2. split; [done|]. destruct (il_class p), cl; done.
Qed.

(** A guard whose parent is locked, when its own lock is held. *)
Lemma child_built cl p Fp x m sess isRec :
  guarded p (above m) Fp -> parent_of cl p -> Fp !! x = None ->
  built cl m sess isRec (mkILock cl LOCKRES_OK (Some p) x sess isRec) (<[x := Held (target_of cl) m]> Fp).
Proof.
  intros Hg Hp Hx. unfold built. cbn. split_and!; try done.
  - eexists _, Fp. split_and!; try done. by eapply guarded_owned.
  - left. split; [done|]. by exists Fp.
Qed.

Lemma child_timeout cl p Fp x t m sess isRec :
  owned p Fp -> parent_of cl p -> Fp !! x = None ->
  built cl m sess isRec (mkILock cl LOCKRES_TIMEOUT (Some p) x sess isRec) (<[x := Asked t m]> Fp).
Proof. intros Ho Hp Hx. unfold built. cbn. split_and!; try done; [by eexists _, Fp|by right]. Qed.

(** The guards above tell the session nothing. *)
Lemma told_parent cl p m c c' : parent_of cl p -> told p m c c' ->
  sc_locks c' = sc_locks c /\ sc_keylockmap c' = sc_keylockmap c.
Proof.
  intros [Hr Hc] [E1 E2]. unfold listed, note, key_noted in *. rewrite Hr, andb_false_r, app_nil_r in E1.
  split; [done|]. by destruct cl, (il_class p).
Qed.

Lemma guarded_ok l m F : guarded l m F -> il_lockResult l = LOCKRES_OK.
Proof. destruct l as [? ? [p|] ? ? ?]; by intros [? _]. Qed.

Lemma ChunkLock_wp s ch m sess isRec Q c K :
  real_mode m ->
  (forall l F c', built (ChunkLock_ ch) m sess isRec l F -> F ##ₘ K -> told l m c c' -> Q l c' (F ∪ K)) ->
  wp (ChunkLock s ch m sess isRec) Q c K.
Proof.
  intros Hm HQ. destruct (getParentMode_real _ Hm) as (Em & Hm' & Hv). unfold ChunkLock.
  apply (wp_lift _ _ _ _ _ _ Em), wp_bind, StoreLock_wp; [done|]. intros p Fp c1 Hb Hd Ht. cbn. intros x Hx.
  pose proof Hb as (Hcl & _ & Hr & Ho & Hres). assert (parent_of (ChunkLock_ ch) p) as Hp by (split; [done|by rewrite Hcl]).
  destruct Hres as [Hg|Hto].
  - unfold ILock_getLockResult, is_ok. rewrite (guarded_ok _ _ _ Hg). cbn.
    destruct (told_parent _ _ _ _ _ Hp Ht) as [E1 E2].
    apply wp_bind, take_wp; [apply lookup_insert_eq|done|..]; intros c' E3 E4; cbn;
      rewrite (proj1 (own_frame _ _ _ _ Hx Hd)); destruct (own_frame x Fresh _ _ Hx Hd) as (_ & _ & Hn);
      (apply HQ; [|by apply own_frame|]).
    + by apply child_built.
    + unfold told, listed, note; cbn. by rewrite E3, E4, E1, E2, andb_true_r.
    + by apply child_timeout.
    + unfold told, listed, note; cbn. by rewrite E3, E4, E1, E2, andb_false_r, app_nil_r.
  - unfold ILock_getLockResult, is_ok. rewrite bool_decide_eq_false_2 by congruence. cbn.
    by eapply child_failed.
Qed.

Lemma KeyLock_wp s ch k m sess Q c K :
  real_mode m ->
  (forall l F c', built (KeyLock_ k) m sess false l F -> F ##ₘ K -> told l m c c' -> Q l c' (F ∪ K)) ->
  wp (KeyLock s ch k m sess) Q c K.
Proof.
  intros Hm HQ. destruct (getParentMode_real _ Hm) as (Em & Hm' & Hv). unfold KeyLock.
  apply (wp_lift _ _ _ _ _ _ Em), wp_bind, ChunkLock_wp; [done|]. intros p Fp c1 Hb Hd Ht. cbn. intros x Hx.
  pose proof Hb as (Hcl & _ & Hr & Ho & Hres). assert (parent_of (KeyLock_ k) p) as Hp by (split; [done|by rewrite Hcl]).
  destruct Hres as [Hg|Hto].
  - unfold ILock_getLockResult, is_ok at 1. rewrite (guarded_ok _ _ _ Hg). cbn -[ILock_take when].
    destruct (told_parent _ _ _ _ _ Hp Ht) as [E1 E2].
    apply wp_bind, wp_bind, take_wp; [apply lookup_insert_eq|done|..]; intros c' E3 E4; cbn -[when];
      rewrite (proj1 (own_frame _ _ _ _ Hx Hd)); destruct (own_frame x Fresh _ _ Hx Hd) as (_ & _ & Hn).
    + destruct sess; cbn; [eexists _, _; split; [done|]|]; (apply HQ; [by apply child_built|by apply own_frame|]);
        unfold told, listed, note; cbn; by rewrite E3, E4, E1, E2.
    + rewrite andb_false_r. cbn. apply HQ; [by apply child_timeout|by apply own_frame|].
      unfold told, listed, note, key_noted; cbn. by rewrite E3, E4, E1, E2, andb_false_r, app_nil_r.
  - unfold ILock_getLockResult, is_ok at 1. rewrite bool_decide_eq_false_2 by congruence. cbn.
    by eapply child_failed.
Qed.

Lemma list_remove_id_in l x : x ∈ l -> exists l', list_remove_id l x = Some l' /\ l ≡ₚ x :: l'.
Proof.
  induction l as [|y l IH]; [by intros ?%not_elem_of_nil|]. cbn. intros H. destruct (decide (y = x)) as [->|Hne].
  - rewrite Z.eqb_refl. by eexists.
  - rewrite (proj2 (Z.eqb_neq x y)) by done.
    destruct IH as (l' & -> & Hl); [set_solver|]. cbn. eexists. split; [done|]. rewrite Hl. apply Permutation_swap.
Qed.

Definition unnote (l : ILock) (keys : gmap bytes LockMode) : gmap bytes LockMode :=
  match key_noted l with Some k => delete k keys | None => keys end.

Definition untold (l : ILock) (c c' : SessionLocks) : Prop :=
  sc_locks c ≡ₚ listed l ++ sc_locks c' /\ sc_keylockmap c' = unnote l (sc_keylockmap c).

(** What the session was told of a guard that is destroyed. *)
Definition noted (l : ILock) (c : SessionLocks) : Prop :=
  (forall x, x ∈ listed l -> x ∈ sc_locks c) /\
  (forall k, key_noted l = Some k -> is_Some (sc_keylockmap c !! k)).

Lemma noted_parent cl p c : parent_of cl p -> noted p c.
Proof.
  intros [Hr Hc]. unfold noted, listed, key_noted. rewrite Hr, andb_false_r. split.
  - by intros x ?%not_elem_of_nil.
  - by destruct cl, (il_class p).
Qed.

Lemma untold_parent cl p c c' : parent_of cl p -> untold p c c' ->
  sc_locks c ≡ₚ sc_locks c' /\ sc_keylockmap c' = sc_keylockmap c.
Proof.
  intros [Hr Hc] [E1 E2]. unfold listed, unnote, key_noted in *. rewrite Hr, andb_false_r in E1.
  split; [done|]. by destruct cl, (il_class p).
Qed.

(** The first lines of the destructor. *)
Lemma unset_wp {A} l (p : prog A) Q c K :
  noted l c ->
  (forall c', sc_locks c' = sc_locks c -> sc_keylockmap c' = unnote l (sc_keylockmap c) -> wp p Q c' K) ->
  wp (_ ← match il_class l with
          | KeyLock_ key => when (il_sess l && is_ok (il_lockResult l)) (perform (Ctx (SessionCtx_unsetKeylock key)))
          | _ => Done tt
          end; p) Q c K.
Proof.
  intros [_ Hk] H. unfold unnote, key_noted in *. destruct (il_class l) as [| | |k]; try (by apply H).
  unfold when. destruct (_ && _); [|by apply H]. apply (wp_perform_ctx _ _ _ _ _
    (mkSessionLocks (sc_locks c) (delete k (sc_keylockmap c)) (sc_waitlock c)) tt); [|by apply H].
  unfold SessionCtx_unsetKeylock. rewrite (INVARIANT_D_bind _ _); [done|]. apply bool_decide_eq_true_2. by apply Hk.
Qed.

(** Its last lines. *)
Lemma remove_wp {A} l (p : prog A) Q c K :
  (forall x, x ∈ listed l -> x ∈ sc_locks c) ->
  (forall locks, sc_locks c ≡ₚ listed l ++ locks -> wp p Q (mkSessionLocks locks (sc_keylockmap c) (sc_waitlock c)) K) ->
  wp (_ ← when (il_sess l && is_ok (il_lockResult l) && negb (il_isRecursive l))
            (perform (Ctx (SessionCtx_removeLock (il_mgl l)))); p) Q c K.
Proof.
  unfold listed, when. intros Hl H. destruct (_ && _ && _).
  - destruct (list_remove_id_in (sc_locks c) (il_mgl l)) as (l' & E & Hp); [apply Hl; by left|].
    apply (wp_perform_ctx _ _ _ _ _ (mkSessionLocks l' (sc_keylockmap c) (sc_waitlock c)) tt); [|by apply H].
    unfold SessionCtx_removeLock. by rewrite E.
  - destruct c as [locks keys w]. by apply H.
Qed.

Lemma own_release x k (Fp R : known) :
  R !! x = None -> Fp !! x = None -> <[x := Fresh]> (<[x := k]> Fp ∪ R) = Fp ∪ <[x := Fresh]> R.
Proof. intros HR Hx. rewrite insert_union_l, insert_insert_eq, <-insert_union_l. by apply insert_union_r. Qed.

(** The destruction of a guard frees its lock objects and those above it, and the session forgets it. *)
Lemma destroy_wp l : forall F R Q c,
  owned l F -> F ##ₘ R -> noted l c -> (forall c', untold l c c' -> Q tt c' R) -> wp (ILock_destroy l) Q c (F ∪ R).
Proof.
  induction l as [cl r x s b|cl r p x s b IH] using ILock_tree_ind; intros F R Q c (k & Fp & -> & Hx & Ho) Hd Hn HQ;
    cbn [il_mgl il_parent il_class] in *; apply map_disjoint_insert_l in Hd as [HR Hd].
  all: apply (unset_wp (mkILock _ _ _ _ _ _)); [done|]; intros c1 E1 E2; apply wp_bind; cbn [wp perform il_mgl il_parent];
    (split; [rewrite lookup_union_l, lookup_insert_eq; [by eexists|done]|]); rewrite own_release by done.
  - subst Fp. apply remove_wp; [by rewrite E1; apply Hn|]. intros locks Hl. cbn.
    rewrite map_empty_union, lookup_insert_eq, delete_insert_id by done. split; [done|]. apply HQ.
    split; [by rewrite <-E1|done].
  - destruct Ho as [Hp Ho]. apply wp_bind, IH; [done|by apply map_disjoint_insert_r|by eapply noted_parent|].
    intros c2 Hu. destruct (untold_parent _ _ _ _ Hp Hu) as [E3 E4].
    apply remove_wp; [intros y Hy; rewrite <-E3, E1; by apply Hn|]. intros locks Hl. cbn.
    rewrite lookup_insert_eq, delete_insert_id by done. split; [done|]. apply HQ. split; cbn.
    + by rewrite <-E1, E3.
    + by rewrite E4, E2.
Qed.

Lemma ILock_acquired_wp cl m sess l F Q c c1 K :
  built cl m sess false l F -> told l m c c1 -> F ##ₘ K ->
  (guarded l m F -> Q (Ret (Some l)) c1 (F ∪ K)) ->
  (forall c', sc_locks c ≡ₚ sc_locks c' -> sc_keylockmap c' = sc_keylockmap c ->
    Q (Throw ERR_LOCK_TIMEOUT (lit "Lock wait timeout")) c' K) ->
  wp (ILock_acquired l) Q c1 (F ∪ K).
Proof.
  intros (_ & _ & _ & Ho & [Hg|Hto]) [E1 E2] Hd Hok Hfail; unfold ILock_acquired, ILock_getLockResult, is_ok.
  - rewrite (guarded_ok _ _ _ Hg). by apply Hok.
  - rewrite Hto. cbn [bool_decide decide]. rewrite bool_decide_eq_false_2, bool_decide_eq_true_2 by done.
    assert (listed l = [] /\ key_noted l = None) as [El Ek].
    { unfold listed, key_noted. rewrite Hto. cbn. rewrite andb_false_r. split; [done|]. by destruct (il_class l). }
    apply wp_bind, destroy_wp; [done|done| |].
    + split; rewrite ?El, ?Ek; [by intros x ?%not_elem_of_nil|done].
    + intros c' [E3 E4]. unfold note, unnote in *. rewrite El, Ek in *. rewrite app_nil_r in E1.
      apply Hfail; [by rewrite <-E1|congruence].
Qed.

(** * The accounts of a session *)

(** The guards a session holds, what its context says of them, and the lock objects they own. *)
Fixpoint accounts (held : list ILock) (locks : list Z) (keys : gmap bytes LockMode) (K : known) : Prop :=
  match held with
  | [] => locks ≡ₚ [] /\ keys = ∅ /\ K = ∅
  | g :: gs => exists m F R locks' keys',
      (real_mode m /\ guarded g m F /\ il_isRecursive g = false /\ (forall k, il_class g = KeyLock_ k -> il_sess g = true)) /\
      F ##ₘ R /\ K = F ∪ R /\ locks ≡ₚ listed g ++ locks' /\ keys = note g m keys' /\
      (forall k, key_noted g = Some k -> keys' !! k = None) /\ accounts gs locks' keys' R
  end.

Lemma accounts_locks held locks locks' keys K : locks ≡ₚ locks' -> accounts held locks keys K -> accounts held locks' keys K.
Proof.
  intros Hp. destruct held as [|g gs]; cbn.
  - intros (H & ?). by rewrite <-Hp.
  - intros (m & F & R & l1 & k1 & Hg & Hd & HK & Hl & H). exists m, F, R, l1, k1. split; [done|]. split; [done|]. split; [done|]. split; [|done]. by rewrite <-Hp.
Qed.

Lemma note_comm g1 g2 m1 m2 keys :
  (forall k, key_noted g1 = Some k -> note g2 m2 keys !! k = None) ->
  note g1 m1 (note g2 m2 keys) = note g2 m2 (note g1 m1 keys).
Proof.
  unfold note. destruct (key_noted g1) as [k1|], (key_noted g2) as [k2|]; try done. intros H. specialize (H k1 eq_refl).
  apply lookup_insert_None in H as [_ Hne]. by apply insert_insert_ne.
Qed.

Lemma note_none g m keys k : note g m keys !! k = None <-> keys !! k = None /\ key_noted g <> Some k.
Proof. unfold note. destruct (key_noted g) as [k'|]; [rewrite lookup_insert_None|]; naive_solver. Qed.

Lemma accounts_perm held held' : held ≡ₚ held' -> forall locks keys K, accounts held locks keys K -> accounts held' locks keys K.
Proof.
  induction 1 as [|g gs gs' _ IH|g2 g1 gs|gs1 gs2 gs3 _ IH1 _ IH2]; intros locks keys K; [done| | |by auto].
  - cbn. intros (m & F & R & l1 & k1 & Hg & Hd & HK & Hl & Hk & Hn & H). exists m, F, R, l1, k1. do 6 (split; [done|]). by apply IH.
  - cbn. intros (m1 & F1 & R1 & l1 & k1 & Hg1 & Hd1 & -> & Hl1 & -> & Hn1 & m2 & F2 & R2 & l2 & k2 & Hg2 & Hd2 & -> & Hl2 & -> & Hn2 & H).
    apply map_disjoint_union_r in Hd1 as [Hd1 Hd3].
    exists m2, F2, (F1 ∪ R2), (listed g1 ++ l2), (note g1 m1 k2). split; [done|]. split_and!.
    + by apply map_disjoint_union_r.
    + by rewrite !map_union_assoc, (map_union_comm F1 F2).
    + rewrite Hl1, Hl2, !(assoc_L (++)). by apply Permutation_app_tail, Permutation_app_comm.
    + by apply note_comm.
    + intros k Hk. apply note_none. split; [by apply Hn2|]. intros Hk1. apply Hn1, note_none in Hk1. naive_solver.
    + exists m1, F1, R2, l2, k2. split; [done|]. split_and!; try done. intros k Hk. by apply Hn1, note_none in Hk as [? _].
Qed.

Lemma accounts_cons g m F held c c1 Kh :
  real_mode m -> guarded g m F -> il_isRecursive g = false -> (forall k, il_class g = KeyLock_ k -> il_sess g = true) ->
  F ##ₘ Kh -> told g m c c1 -> (forall k, key_noted g = Some k -> sc_keylockmap c !! k = None) ->
  accounts held (sc_locks c) (sc_keylockmap c) Kh ->
  accounts (g :: held) (sc_locks c1) (sc_keylockmap c1) (F ∪ Kh).
Proof.
  intros Hm Hg Hr Hs Hd [E1 E2] Hn Ha. exists m, F, Kh, (sc_locks c), (sc_keylockmap c). split_and!; try done.
  by rewrite E1, Permutation_app_comm.
Qed.

(** What a session has when its program ends, beside what it held all the time. *)
Definition settled (Kh : known) (held : list ILock) (c : SessionLocks) (K : known) : Prop :=
  K ##ₘ Kh -> accounts held (sc_locks c) (sc_keylockmap c) (K ∪ Kh).

Lemma settled_same Kh held c c' :
  accounts held (sc_locks c) (sc_keylockmap c) Kh -> sc_locks c ≡ₚ sc_locks c' -> sc_keylockmap c' = sc_keylockmap c ->
  settled Kh held c' ∅.
Proof. intros Ha Hl Hk _. rewrite map_empty_union, Hk. by eapply accounts_locks. Qed.

Lemma acquired_settles cl m sess held c c1 Kh l F :
  real_mode m -> accounts held (sc_locks c) (sc_keylockmap c) Kh -> (forall k, cl = KeyLock_ k -> sess = true /\ sc_keylockmap c !! k = None) ->
  built cl m sess false l F -> F ##ₘ ∅ -> told l m c c1 ->
  wp (ILock_acquired l) (fun r => wp (Done (match r with Ret (Some g) => g :: held | _ => held end)) (settled Kh)) c1 (F ∪ ∅).
Proof.
  intros Hm Ha Hc Hb Hd Ht. eapply ILock_acquired_wp; [done|done|done| |].
  - intros Hg. cbn. rewrite map_union_empty. intros HF. destruct Hb as (Ecl & Es & Er & _ & _).
    eapply accounts_cons; try done.
    + intros k Ek. rewrite Es. rewrite Ek in Ecl. by apply (Hc k).
    + unfold key_noted. intros k. destruct (il_class l) as [| | |k'] eqn:El; try done. destruct (_ && _); [|done].
      intros [= <-]. by apply (Hc k').
  - intros c' Hl Hk. cbn. by eapply settled_same.
Qed.

Lemma run_acquire_wp a held c Kh :
  acq_ok c a -> accounts held (sc_locks c) (sc_keylockmap c) Kh -> wp (run_acquire a held) (settled Kh) c ∅.
Proof.
  intros [Hm Hk] Ha. unfold run_acquire. destruct a as [s m sess|s ch m sess|s ch k m]; cbn [acquire acq_mode] in *.
  - apply wp_bind, wp_bind, StoreLock_wp; [done|]. intros l F c1 Hb Hd Ht. eapply (acquired_settles (StoreLock_ s) m); [done|exact Ha|done|exact Hb|exact Hd|exact Ht].
  - apply wp_bind, wp_bind, ChunkLock_wp; [done|]. intros l F c1 Hb Hd Ht. eapply (acquired_settles (ChunkLock_ ch) m); [done|exact Ha|done|exact Hb|exact Hd|exact Ht].
  - apply wp_bind. unfold AquireKeyLock, SessionCtx_isLockedByMe. cbn -[KeyLock].
    destruct (sc_keylockmap c !! k) as [mh|] eqn:E; cbn -[KeyLock].
    + rewrite (INVARIANT_D_bind _ _) by (apply Z.leb_le, Hk; done). eexists _, _. split; [done|]. by eapply settled_same.
    + eexists _, _. split; [done|]. apply wp_bind, KeyLock_wp; [done|]. intros l F c1 Hb Hd Ht.
      eapply (acquired_settles (KeyLock_ k) m); [done|exact Ha|by intros k' [= <-]|exact Hb|exact Hd|exact Ht].
Qed.

Lemma run_release_wp g held c K :
  accounts (g :: held) (sc_locks c) (sc_keylockmap c) K ->
  exists Kp Kh, K = Kp ∪ Kh /\ Kp ##ₘ Kh /\ (exists locks keys, accounts held locks keys Kh) /\
    wp (run_release g held) (settled Kh) c Kp.
Proof.
  intros (m & F & R & locks' & keys' & (Hm & Hg & Hr & Hs) & Hd & -> & Hl & Hk & Hn & Ha).
  exists F, R. split_and!; [done|done|by eauto|]. unfold run_release. rewrite <-(map_union_empty F).
  apply wp_bind, destroy_wp; [by eapply guarded_owned|apply map_disjoint_empty_r| |].
  - split; [intros x Hx; rewrite Hl; set_solver|]. intros k E. rewrite Hk. unfold note. rewrite E, lookup_insert_eq. by eexists.
  - intros c' [E1 E2] _. rewrite map_empty_union.
    assert (sc_keylockmap c' = keys') as ->.
    { rewrite E2, Hk. unfold unnote, note. destruct (key_noted g) eqn:E; [|done]. rewrite delete_insert_id; [done|by apply Hn]. }
    eapply accounts_locks; [|exact Ha]. rewrite Hl in E1. by apply Permutation_app_inv_l in E1.
Qed.

End Programs.

(** * What a guard has locked *)

Lemma guarded_here l m F : guarded l m F -> F !! il_mgl l = Some (Held (target_of (il_class l)) m).
Proof. destruct l as [? ? [p|] ? ? ?]; intros (_ & Fp & -> & _); apply lookup_insert_eq. Qed.

Lemma guarded_parent l m F : guarded l m F ->
  (exists s, il_class l = StoreLock_ s) \/
  exists p Fp, il_parent l = Some p /\ parent_of (il_class l) p /\ guarded p (above m) Fp /\ Fp ⊆ F.
Proof.
  destruct l as [cl r [p|] x s b]; intros (_ & Fp & -> & Hx & H); cbn in *; [right|by left; destruct H].
  destruct H as [Hp Hg]. exists p, Fp. split_and!; try done. by apply insert_subseteq.
Qed.

(** A level of the hierarchy that a guard is in. *)
Definition inside (g : ILock) (cl : LockClass) : Prop :=
  match cl with
  | StoresLock_ => False
  | StoreLock_ s => ILock_getStoreId g = Ret s
  | ChunkLock_ c => ILock_getChunkId g = Ret c /\ (forall s, il_class g <> StoreLock_ s)
  | KeyLock_ k => il_class g = KeyLock_ k
  end.

Lemma above_above m : above (above m) = above m.
Proof. by destruct m. Qed.

(** Below its own level a guard has the mode that announces it. *)
Lemma guarded_inside g : forall m F cl, guarded g m F -> inside g cl ->
  exists x, F !! x = Some (Held (target_of cl) (if decide (il_class g = cl) then m else above m)).
Proof.
  induction g as [gc r x s b|gc r p x s b IH] using ILock_tree_ind; intros m F cl Hg Hin.
  - destruct (guarded_parent _ _ _ Hg) as [[s' Es]|(p & Fp & E & _)]; [|done]. cbn in Es. subst gc.
    destruct cl; cbn in Hin; try done; [|by destruct Hin as [_ H]; destruct (H s')]. injection Hin as ->.
    exists x. rewrite decide_True by done. apply (guarded_here _ _ _ Hg).
  - destruct (decide (gc = cl)) as [->|Hne].
    { exists x. cbn. rewrite decide_True by done. apply (guarded_here _ _ _ Hg). }
    destruct (guarded_parent _ _ _ Hg) as [[s' Es]|(p' & Fp & [= <-] & Hp & Hgp & HF)].
    { cbn in Es. subst gc. destruct cl; cbn in Hin; try done; [congruence|by destruct Hin as [_ H]; destruct (H s')]. }
    assert (inside p cl) as Hin'.
    { destruct Hp as [_ Hp]. cbn in Hp. destruct cl, gc; cbn in Hin |- *; try done; destruct (il_class p); try done; naive_solver. }
    destruct (IH _ _ _ Hgp Hin') as [y Hy]. exists y. cbn [il_class]. rewrite (decide_False _ _ Hne).
    erewrite lookup_weaken by done. by rewrite above_above; case_decide.
Qed.

(** What the context of a session says of its guards. *)
Lemma accounts_locks_exact held : forall locks keys K,
  accounts held locks keys K -> locks ≡ₚ il_mgl <$> filter (fun g => il_sess g = true) held.
Proof.
  induction held as [|g gs IH]; intros locks keys K; [by intros [H _]|].
  intros (m & F & R & l' & k' & (_ & Hg & Hr & _) & _ & _ & Hl & _ & _ & Ha). apply IH in Ha. rewrite Hl, Ha.
  unfold listed. rewrite (guarded_ok _ _ _ Hg), Hr, filter_cons.
  destruct (il_sess g); [rewrite decide_True by done|rewrite decide_False by done]; done.
Qed.

Lemma accounts_keys_exact h held : forall locks keys K,
  accounts held locks keys K -> agree h K ->
  forall k m, keys !! k = Some m <-> exists g, g ∈ held /\ il_class g = KeyLock_ k /\ ILock_getMode h g = Ret m.
Proof.
  induction held as [|g gs IH]; intros locks keys K; cbn.
  - intros (_ & -> & _) _ k m. split; [by intros ?%lookup_empty_Some|]. by intros (g & ?%not_elem_of_nil & _).
  - intros (mg & F & R & l' & k' & (_ & Hg & _ & Hs) & Hd & -> & _ & -> & Hn & Ha) Hag k m.
    assert (agree h F) as HaF by (intros x w Hx; apply Hag; by apply lookup_union_Some_l).
    assert (agree h R) as HaR by (intros x w Hx; apply Hag; by apply lookup_union_Some_r).
    specialize (IH _ _ _ Ha HaR). assert (ILock_getMode h g = Ret mg) as Em.
    { destruct (HaF _ _ (guarded_here _ _ _ Hg)) as (o & Ho & _ & <- & _). unfold ILock_getMode. by rewrite (deref_obj _ _ _ Ho). }
    setoid_rewrite elem_of_cons. assert (key_noted g = Some k <-> il_class g = KeyLock_ k) as Hk.
    { unfold key_noted. rewrite (guarded_ok _ _ _ Hg). destruct (il_class g) as [| | |kg]; try done. rewrite (Hs kg eq_refl). cbn. naive_solver. }
    unfold note. destruct (key_noted g) as [kg|] eqn:E; [destruct (decide (kg = k)) as [->|Hne]|].
    + rewrite lookup_insert_eq. split; [intros [= <-]; exists g; naive_solver|]. intros (g' & [->|Hin] & Hc & Hm); [congruence|].
      assert (k' !! k = Some m) by (apply IH; eauto). rewrite Hn in *; done.
    + rewrite lookup_insert_ne, IH by done. naive_solver.
    + rewrite IH. naive_solver.
Qed.

(** * The system *)

Section Reachable.
Context {BM : BuildMode}.
Variable hash : bytes -> Z.

(** A session between programs, and in one: [Kh] are the objects of the guards that it keeps. *)
Definition sess_ok (T : Session) (K : known) : Prop :=
  exists Kp Kh, K = Kp ∪ Kh /\ Kp ##ₘ Kh /\
    match s_run T with
    | None => Kp = ∅ /\ accounts (s_held T) (sc_locks (s_ctx T)) (sc_keylockmap (s_ctx T)) Kh
    | Some p => (exists locks keys, accounts (s_held T) locks keys Kh) /\ wp p (settled Kh) (s_ctx T) Kp
    end.

(** Every lock object belongs to one session, which knows it. *)
Record sys_ok (y : System) (Ks : Z -> known) : Prop := mkSysOk {
  so_rep : exists S, mgr_rep hash (y_heap y) (y_mgr y) S;
  so_sess : forall s, match y_sessions y !! s with Some T => sess_ok T (Ks s) | None => Ks s = ∅ end;
  so_agree : forall s, agree (y_heap y) (Ks s);
  so_apart : forall s s', s <> s' -> Ks s ##ₘ Ks s';
  so_all : forall x, is_Some (y_heap y !! x) -> exists s, is_Some (Ks s !! x)
}.

Lemma sys_ok_new : sys_ok System_new (fun _ => ∅).
Proof.
  constructor; cbn; [by eexists; apply mgr_rep_initial| | | |].
  - intros s. by rewrite lookup_empty.
  - by intros s x k ?%lookup_empty_Some.
  - intros s s' _. apply map_disjoint_empty_l.
  - intros x [o Ho]. by apply lookup_empty_Some in Ho.
Qed.

(** A step that touches no lock object. *)
Lemma sys_ok_session y Ks s T : sys_ok y Ks -> sess_ok T (Ks s) -> sys_ok (set_session y s T) Ks.
Proof.
  intros [Hrep Hs Ha Hd Hall] HT. constructor; try done. intros s'. cbn.
  destruct (decide (s' = s)) as [->|Hne]; [by rewrite lookup_insert_eq|rewrite lookup_insert_ne by done; apply Hs].
Qed.

Lemma sys_ok_at y Ks s T : sys_ok y Ks -> y_sessions y !! s = Some T -> sess_ok T (Ks s).
Proof. intros Hy Hs. pose proof (so_sess _ _ Hy s) as H. by rewrite Hs in H. Qed.

Lemma sess_ok_idle c held K :
  sess_ok (mkSession c held None) K <-> accounts held (sc_locks c) (sc_keylockmap c) K.
Proof.
  split.
  - intros (Kp & Kh & -> & _ & -> & Ha). by rewrite map_empty_union.
  - intros Ha. exists ∅, K. split_and!; [by rewrite map_empty_union|apply map_disjoint_empty_l|done].
Qed.

(** An operation of a program: only what its session knows changes. *)
Lemma act_keeps h h' mgr' (Kp Kp' Kh : known) (Ks : Z -> known) s :
  (forall s, agree h (Ks s)) -> (forall s s', s <> s' -> Ks s ##ₘ Ks s') ->
  (forall x, is_Some (h !! x) -> exists s, is_Some (Ks s !! x)) ->
  Ks s = Kp ∪ Kh -> Kp ##ₘ Kh -> (exists S, mgr_rep hash h' mgr' S) -> agree h' Kp' -> keeps h h' Kp Kp' ->
  let Ks' := fun s' => if decide (s' = s) then Kp' ∪ Kh else Ks s' in
  Kp' ##ₘ Kh /\ (forall s, agree h' (Ks' s)) /\ (forall s s', s <> s' -> Ks' s ##ₘ Ks' s') /\
  (forall x, is_Some (h' !! x) -> exists s, is_Some (Ks' s !! x)).
Proof.
  intros Ha Hd Hall E HKp _ Hag (Hk1 & Hk2 & Hk3) Ks'.
  assert (forall K, Kp ##ₘ K -> agree h K -> Kp' ##ₘ K /\ agree h' K) as Hother.
  { intros K HK HaK. split.
    - apply map_disjoint_alt. intros x. destruct (Kp' !! x) as [k|] eqn:Ex; [right|by left].
      destruct (K !! x) as [k'|] eqn:Ex'; [|done]. destruct (HaK _ _ Ex') as (o & Ho & _).
      destruct (Hk2 x (mk_is_Some _ _ Ex)) as [[k2 H]|H]; [|congruence].
      apply (map_disjoint_Some_l _ _ _ _ HK) in H. congruence.
    - intros x k Hx. apply Hk1; [|by apply HaK]. by apply (map_disjoint_Some_r _ _ _ _ HK Hx). }
  pose proof (Ha s) as Has. rewrite E in Has.
  assert (agree h Kh) as HaKh by (intros x k Hx; apply Has; by apply lookup_union_Some_r).
  destruct (Hother Kh HKp HaKh) as [Hd1 Hag1].
  assert (forall s', s' <> s -> Kp' ∪ Kh ##ₘ Ks s' /\ agree h' (Ks s')) as Hoth.
  { intros s' Hne. specialize (Hd s s' (not_eq_sym Hne)). rewrite E in Hd. apply map_disjoint_union_l in Hd as [H1 H2].
    destruct (Hother _ H1 (Ha s')) as [H3 H4]. split; [by apply map_disjoint_union_l|done]. }
  split_and!; [done|..].
  - intros s'. unfold Ks'. destruct (decide (s' = s)) as [->|Hne]; [|by apply Hoth].
    intros x k [Hx|[_ Hx]]%lookup_union_Some_raw; [by apply Hag|by apply Hag1].
  - intros s1 s2 Hne. unfold Ks'. destruct (decide (s1 = s)) as [->|H1], (decide (s2 = s)) as [->|H2]; [done| | |by apply Hd].
    + by apply Hoth.
    + apply map_disjoint_sym. by apply Hoth.
  - intros x Hx. destruct (Hk3 x Hx) as [H|[H1 H2]].
    + exists s. unfold Ks'. rewrite decide_True by done. apply lookup_union_is_Some. by left.
    + destruct (Hall x H2) as [s' H]. exists s'. unfold Ks'. destruct (decide (s' = s)) as [->|]; [|done].
      rewrite E in H. apply lookup_union_is_Some in H. apply lookup_union_is_Some. right. destruct H as [[? H]|]; [congruence|done].
Qed.

Lemma guard_step_ok y y' Ks : guard_step hash y y' -> sys_ok y Ks -> exists Ks', sys_ok y' Ks'.
Proof.
  intros Hst Hy. destruct Hst as [y s Hs|y s c held a Hs Ha|y s c held1 g held2 Hs|y s c held B e k x h mgr c' b Hs Hf E
    |y s c held held' Hs|y s c Hs].
  - exists Ks. apply sys_ok_session; [done|]. pose proof (so_sess _ _ Hy s) as H. rewrite Hs in H. rewrite H.
    by apply sess_ok_idle.
  - exists Ks. apply sys_ok_session; [done|]. pose proof (sys_ok_at _ _ _ _ Hy Hs) as H%sess_ok_idle.
    exists ∅, (Ks s). split_and!; [by rewrite map_empty_union|apply map_disjoint_empty_l|].
    split; [by eauto|by apply run_acquire_wp].
  - exists Ks. apply sys_ok_session; [done|]. pose proof (sys_ok_at _ _ _ _ Hy Hs) as H%sess_ok_idle.
    apply (accounts_perm _ (g :: held1 ++ held2)), run_release_wp in H as (Kp & Kh & E & Hd & Ha & Hwp);
      [by exists Kp, Kh|symmetry; apply Permutation_middle].
  - destruct (sys_ok_at _ _ _ _ Hy Hs) as (Kp & Kh & EK & Hd & Hacc & Hwp). cbn [s_ctx] in Hwp.
    pose proof Hy as [[S Hrep] Hss Hag Hap Hall].
    assert (agree (y_heap y) Kp) as HaKp.
    { intros z k0 Hz. apply (Hag s). rewrite EK. by apply lookup_union_Some_l. }
    destruct (act_sound _ _ _ _ _ _ _ _ _ _ Hrep HaKp Hf Hwp) as (h1 & mgr1 & c1 & b1 & Kp' & E1 & Hrep' & Hwp' & Hag' & Hk).
    rewrite E in E1. injection E1 as <- <- <- <-.
    destruct (act_keeps _ _ _ _ _ _ _ s Hag Hap Hall EK Hd Hrep' Hag' Hk) as (H1 & H2 & H3 & H4).
    eexists. constructor; [exact Hrep'| |exact H2|exact H3|exact H4]. intros s'. cbn.
    destruct (decide (s' = s)) as [->|Hne]; [rewrite lookup_insert_eq|rewrite lookup_insert_ne by done; apply Hss].
    by exists Kp', Kh.
  - exists Ks. apply sys_ok_session; [done|]. destruct (sys_ok_at _ _ _ _ Hy Hs) as (Kp & Kh & EK & Hd & _ & Hwp).
    apply sess_ok_idle. rewrite EK. by apply Hwp.
  - exists Ks. pose proof (sys_ok_at _ _ _ _ Hy Hs) as (_ & _ & H)%sess_ok_idle. destruct Hy as [Hrep Hss Hag Hap Hall].
    constructor; try done. intros s'. cbn.
    destruct (decide (s' = s)) as [->|Hne]; [by rewrite lookup_delete_eq|rewrite lookup_delete_ne by done; apply Hss].
Qed.

Lemma guard_reachable_ok y : guard_reachable hash y -> exists Ks, sys_ok y Ks.
Proof.
  unfold guard_reachable. assert (exists Ks, sys_ok System_new Ks) as H0 by (eexists; apply sys_ok_new).
  revert H0. generalize System_new. intros y0 H0. induction 1 as [|y1 y2 y3 Hst _ IH]; [done|].
  apply IH. destruct H0 as [Ks H0]. by eapply guard_step_ok.
Qed.

(** ** The guards of a state *)

Lemma accounts_in held g locks keys K :
  accounts held locks keys K -> g ∈ held ->
  exists m F, real_mode m /\ guarded g m F /\ F ⊆ K /\ (forall k, il_class g = KeyLock_ k -> il_sess g = true).
Proof.
  intros Ha [l1 [l2 ->]]%list_elem_of_split.
  apply (accounts_perm _ (g :: l1 ++ l2)) in Ha as (m & F & R & l' & k' & (Hm & Hg & _ & Hs) & Hd & -> & _);
    [|symmetry; apply Permutation_middle].
  exists m, F. split_and!; try done. apply map_union_subseteq_l.
Qed.

Lemma accounts_two held g1 g2 locks keys K :
  accounts held locks keys K -> g1 ∈ held -> g2 ∈ held -> g1 <> g2 ->
  exists m1 F1 m2 F2, real_mode m1 /\ guarded g1 m1 F1 /\ F1 ⊆ K /\ real_mode m2 /\ guarded g2 m2 F2 /\ F2 ⊆ K /\ F1 ##ₘ F2.
Proof.
  intros Ha [l1 [l2 ->]]%list_elem_of_split H2 Hne.
  apply (accounts_perm _ (g1 :: l1 ++ l2)) in Ha as (m & F & R & l' & k' & (Hm & Hg & _ & Hs) & Hd & -> & _ & _ & _ & Ha);
    [|symmetry; apply Permutation_middle].
  apply (accounts_in _ g2) in Ha as (m2 & F2 & Hm2 & Hg2 & HF & _); [|set_solver].
  exists m, F, m2, F2. split_and!; try done; [apply map_union_subseteq_l| |].
  - etrans; [exact HF|]. by apply map_union_subseteq_r.
  - by eapply map_disjoint_weaken_r.
Qed.

(** The guards a session holds, also while it runs a program. *)
Lemma sess_ok_held T K : sess_ok T K -> exists Kh locks keys, accounts (s_held T) locks keys Kh /\ Kh ⊆ K.
Proof.
  intros (Kp & Kh & -> & Hd & H). exists Kh. assert (Kh ⊆ Kp ∪ Kh) by by apply map_union_subseteq_r.
  destruct (s_run T) as [p|]; [destruct H as [(locks & keys & Ha) _]|destruct H as [_ Ha]]; by eauto.
Qed.

(** Two guards of any sessions own different lock objects. *)
Lemma two_guards y Ks s1 s2 T1 T2 g1 g2 :
  sys_ok y Ks -> y_sessions y !! s1 = Some T1 -> y_sessions y !! s2 = Some T2 -> g1 ∈ s_held T1 -> g2 ∈ s_held T2 ->
  g1 <> g2 \/ s1 <> s2 ->
  exists m1 F1 m2 F2, real_mode m1 /\ guarded g1 m1 F1 /\ agree (y_heap y) F1 /\
    real_mode m2 /\ guarded g2 m2 F2 /\ agree (y_heap y) F2 /\ F1 ##ₘ F2.
Proof.
  intros Hy Hs1 Hs2 Hg1 Hg2 Hne.
  destruct (sess_ok_held _ _ (sys_ok_at _ _ _ _ Hy Hs1)) as (Kh1 & l1 & k1 & Ha1 & HK1).
  destruct (sess_ok_held _ _ (sys_ok_at _ _ _ _ Hy Hs2)) as (Kh2 & l2 & k2 & Ha2 & HK2).
  assert (forall s F, F ⊆ Ks s -> agree (y_heap y) F) as Hag.
  { intros s F HF x k Hx. apply (so_agree _ _ Hy s). by eapply lookup_weaken. }
  destruct (decide (s1 = s2)) as [<-|Hs].
  - rewrite Hs1 in Hs2. injection Hs2 as <-. destruct Hne as [Hne|]; [|done].
    destruct (accounts_two _ _ _ _ _ _ Ha1 Hg1 Hg2 Hne) as (m1 & F1 & m2 & F2 & H1 & H2 & H3 & H4 & H5 & H6 & H7).
    exists m1, F1, m2, F2. split_and!; try done; eapply Hag; by etrans.
  - destruct (accounts_in _ _ _ _ _ Ha1 Hg1) as (m1 & F1 & H1 & H2 & H3 & _).
    destruct (accounts_in _ _ _ _ _ Ha2 Hg2) as (m2 & F2 & H4 & H5 & H6 & _).
    exists m1, F1, m2, F2. split_and!; try done; try (eapply Hag; by etrans).
    eapply map_disjoint_weaken; [by apply (so_apart _ _ Hy s1 s2)|by etrans|by etrans].
Qed.

(** ** Exclusion *)

Lemma held_compatible y Ks F1 F2 x1 x2 t m1 m2 :
  sys_ok y Ks -> agree (y_heap y) F1 -> agree (y_heap y) F2 -> F1 ##ₘ F2 ->
  F1 !! x1 = Some (Held t m1) -> F2 !! x2 = Some (Held t m2) -> conflicts m1 m2 = false.
Proof.
  intros [[S Hrep] _ _ _ _] Ha1 Ha2 Hd H1 H2. destruct (Ha1 _ _ H1) as (o1 & Ho1 & Ht1 & Hm1 & Hr1).
  destruct (Ha2 _ _ H2) as (o2 & Ho2 & Ht2 & Hm2 & Hr2).
  assert (x1 <> x2) as Hne by (intros ->; pose proof (map_disjoint_Some_l _ _ _ _ Hd H1); congruence).
  destruct (mr_obj _ _ _ _ Hrep _ _ Ho1) as [|(q1 & HS1 & _ & [[_ Hq1]|[]])]; [congruence| |congruence].
  destruct (mr_obj _ _ _ _ Hrep _ _ Ho2) as [|(q2 & HS2 & _ & [[_ Hq2]|[]])]; [congruence| |congruence].
  rewrite Ht1 in HS1. rewrite Ht2, HS1 in HS2. injection HS2 as <-.
  destruct (mr_queue _ _ _ _ Hrep _ _ HS1) as (_ & _ & _ & [Hc _] & _). subst m1 m2. by apply (Hc (x1, _) (x2, _)).
Qed.

Lemma guarded_getMode h g m m' F : guarded g m F -> agree h F -> ILock_getMode h g = Ret m' -> m' = m.
Proof.
  intros Hg Ha. destruct (Ha _ _ (guarded_here _ _ _ Hg)) as (o & Ho & _ & Hm & _).
  unfold ILock_getMode. rewrite (deref_obj _ _ _ Ho), bind_Ret. by intros [= <-].
Qed.

(** ** What is left when nobody holds a guard *)

Lemma idle_nothing y Ks :
  sys_ok y Ks -> (forall s T, y_sessions y !! s = Some T -> s_held T = [] /\ s_run T = None) ->
  y_heap y = ∅ /\ forall t, mgr_at hash (y_mgr y) t = None.
Proof.
  intros [[S Hrep] Hs Hag Hap Hall] Hidle.
  assert (y_heap y = ∅) as Hh.
  { apply map_empty. intros x. destruct (y_heap y !! x) eqn:E; [|done]. destruct (Hall x (mk_is_Some _ _ E)) as [s [k Hk]].
    specialize (Hs s). destruct (y_sessions y !! s) as [[c held run]|] eqn:ET; [|by rewrite Hs in Hk].
    destruct (Hidle _ _ ET) as [E1 E2]. cbn in E1, E2. subst. apply sess_ok_idle in Hs as (_ & _ & Hs). by rewrite Hs in Hk. }
  split; [done|]. intros t. apply (mr_absent _ _ _ _ Hrep). destruct (S !! t) as [q|] eqn:E; [|done]. exfalso.
  destruct (mr_queue _ _ _ _ Hrep _ _ E) as (c & _ & [_ _ _ _ Hr Hp _ _ _] & _ & He). rewrite Hh in Hr, Hp.
  unfold q_empty in He. destruct q as [[|p l] [|p' l']]; cbn in *; try done;
    [apply Forall_cons in Hp as [Hp _]; by apply lookup_empty_Some in Hp|apply Forall_cons in Hr as [Hr _]; by apply lookup_empty_Some in Hr..].
Qed.

End Reachable.
