(* ===== verification/GuardsSafe.v ===== *)
(** The guards of stores, chunks and keys (lock/lock.cpp): the properties of every reachable state, and
    a scheduler to run sessions. *)

From Stdlib Require Import Strings.Byte ZArith Lia.
From stdpp Require Import base list numbers strings gmap relations.
From S2P Require Import Prelude Status Mgl MglSafe Guards GuardsLogic GuardsSpec.

Local Open Scope Z_scope.

(** * Runs *)

Section Runs.
Context {BM : BuildMode}.
Variable hash : bytes -> Z.

(** The steps as moves of a scheduler. *)
Inductive Move : Set :=
  | MOpen (s : Z) | MAcquire (s : Z) (a : Acquire) | MRelease (s : Z) (n : nat) | MAct (s fresh : Z)
  | MDone (s : Z) | MClose (s : Z).

Definition fresh_okb {B : Set} (e : lockE B) (fresh : Z) (h : heap) : bool :=
  match e with New => bool_decide (h !! fresh = None) && (Z.of_nat (size h) <? 2 ^ 16 - 1) | _ => true end.

Definition acq_okb (c : SessionLocks) (a : Acquire) : bool :=
  bool_decide (acq_mode a ∈ [LOCK_IS; LOCK_IX; LOCK_S; LOCK_X]) &&
  match a with
  | AcqKey _ _ k m =>
      match sc_keylockmap c !! k with Some held => LockMode_int m <=? LockMode_int held | None => true end
  | _ => true
  end.

Definition exec_move (y : System) (mv : Move) : option System :=
  match mv with
  | MOpen s => match y_sessions y !! s with None => Some (set_session y s Session_new) | _ => None end
  | MAcquire s a =>
      match y_sessions y !! s with
      | Some (mkSession c held None) =>
          if acq_okb c a then Some (set_session y s (mkSession c held (Some (run_acquire a held)))) else None
      | _ => None
      end
  | MRelease s n =>
      match y_sessions y !! s with
      | Some (mkSession c held None) =>
          g ← held !! n;
          let rest := take n held ++ drop (S n) held in
          Some (set_session y s (mkSession c rest (Some (run_release g rest))))
      | _ => None
      end
  | MAct s x =>
      match y_sessions y !! s with
      | Some (mkSession c held (Some (Act e k))) =>
          if fresh_okb e x (y_heap y) then
            '(h, mgr, c', b) ← ret_some (act_exec hash e x (y_heap y) (y_mgr y) c);
            Some (mkSystem h mgr (<[s := mkSession c' held (Some (k b))]> (y_sessions y)))
          else None
      | _ => None
      end
  | MDone s =>
      match y_sessions y !! s with
      | Some (mkSession c held (Some (Done held'))) => Some (set_session y s (mkSession c held' None))
      | _ => None
      end
  | MClose s =>
      match y_sessions y !! s with
      | Some (mkSession c [] None) => Some (mkSystem (y_heap y) (y_mgr y) (delete s (y_sessions y)))
      | _ => None
      end
  end.

Fixpoint exec_moves (y : System) (l : list Move) : option System :=
  match l with [] => Some y | mv :: l => y ← exec_move y mv; exec_moves y l end.

Lemma fresh_okb_ok {B : Set} (e : lockE B) x h : fresh_okb e x h = true -> fresh_ok e x h.
Proof. destruct e; [|done..]. cbn. intros [H1%bool_decide_eq_true H2%Z.ltb_lt]%andb_true_iff. done. Qed.

Lemma acq_okb_ok c a : acq_okb c a = true -> acq_ok c a.
Proof.
  intros [H1%bool_decide_eq_true H2]%andb_true_iff. split; [done|]. destruct a as [| |s ch k m]; [done..|].
  intros held E. rewrite E in H2. by apply Z.leb_le.
Qed.

Lemma exec_move_step y mv y' : exec_move y mv = Some y' -> guard_step hash y y'.
Proof.
  destruct mv as [s|s a|s n|s x|s|s]; cbn [exec_move]; destruct (y_sessions y !! s) as [[c held run]|] eqn:E; try done.
  - intros [= <-]. by constructor.
  - destruct run; [done|]. destruct (acq_okb c a) eqn:Ea; [|done]. intros [= <-]. constructor; [done|by apply acq_okb_ok].
  - destruct run; [done|]. destruct (held !! n) as [g|] eqn:Eg; [|done]. cbn. intros [= <-].
    apply gs_release. by rewrite take_drop_middle.
  - destruct run as [[|B e k]|]; try done. destruct (fresh_okb e x _) eqn:Ef; [|done].
    destruct (act_exec _ _ _ _ _ _) as [[[[h mgr] c'] b]|?|?] eqn:Ee; try done. cbn. intros [= <-].
    eapply gs_act; [done|by apply fresh_okb_ok|done].
  - destruct run as [[held'|]|]; try done. intros [= <-]. by eapply gs_done.
  - destruct held, run; try done. intros [= <-]. by eapply gs_close.
Qed.

Lemma exec_moves_reachable l y : exec_moves System_new l = Some y -> guard_reachable hash y.
Proof.
  unfold guard_reachable. generalize System_new. induction l as [|mv l IH]; intros y0; cbn [exec_moves].
  - intros [= ->]. apply rtc_refl.
  - destruct (exec_move y0 mv) as [y1|] eqn:E; [|done]. cbn. intros H. eapply rtc_l; [by eapply exec_move_step|by apply IH].
Qed.

End Runs.

(** * A run *)

(** [n] operations of a session, with addresses for new locks. *)
Definition acts (s : Z) (n : nat) (fresh : Z) : list Move := (fun i => MAct s (fresh + Z.of_nat i)) <$> seq 0 n.

(** Session 1 writes a key; session 2 announces changes in its chunk. Session 2 then asks for the store
    in mode S, which waits. *)
Definition demo_moves : list Move :=
  [MOpen 1; MOpen 2; MAcquire 1 (AcqKey 0 5 (lit "k") LOCK_X)] ++ acts 1 20 100 ++
  [MDone 1; MAcquire 2 (AcqChunk 0 5 LOCK_IX true)] ++ acts 2 12 200 ++
  [MDone 2; MAcquire 2 (AcqStore 0 LOCK_S true)] ++ acts 2 3 300.

Definition demo_hash : bytes -> Z := fun _ => 7.

Definition demo_system : System := default System_new (@exec_moves true demo_hash System_new demo_moves).

Lemma demo_guard_reachable : @guard_reachable true demo_hash demo_system.
Proof.
  unfold demo_system. destruct (exec_moves _ _ _) as [y|] eqn:E; [by eapply exec_moves_reachable|apply rtc_refl].
Qed.

Definition demo_session (s : Z) : Session := default Session_new (y_sessions demo_system !! s).

Lemma demo_session_at s :
  match y_sessions demo_system !! s with Some _ => true | None => false end = true ->
  y_sessions demo_system !! s = Some (demo_session s).
Proof. unfold demo_session. by destruct (y_sessions demo_system !! s). Qed.

Definition in_program (y : System) (s : Z) : bool :=
  match y_sessions y !! s with Some (mkSession _ _ (Some (Act _ _))) => true | _ => false end.

Definition demo_guard (s : Z) : ILock :=
  default (mkILock StoresLock_ LOCKRES_WAIT None 0 false false) (head (s_held (demo_session s))).

(** * Properties *)

(** C2: exclusion along the hierarchy. In every state that the interleavings of the sessions reach, a
    guard that another guard is inside of, be it of the same session, excludes it: at the same store,
    chunk or key the two modes do not conflict; a guard of a whole store or chunk that another guard is
    below never has mode X, and when it has mode S the other only reads. *)
Theorem guard_exclusion {BM : BuildMode} (hash : bytes -> Z) y s1 s2 T1 T2 g1 g2 m1 m2 :
  guard_reachable hash y -> y_sessions y !! s1 = Some T1 -> y_sessions y !! s2 = Some T2 ->
  g1 ∈ s_held T1 -> g2 ∈ s_held T2 -> (g1 <> g2 \/ s1 <> s2) -> inside g2 (il_class g1) ->
  ILock_getMode (y_heap y) g1 = Ret m1 -> ILock_getMode (y_heap y) g2 = Ret m2 ->
  if decide (il_class g2 = il_class g1) then conflicts m1 m2 = false
  else m1 <> LOCK_X /\ (m1 = LOCK_S -> m2 = LOCK_IS \/ m2 = LOCK_S).
Proof.
  intros Hr Hs1 Hs2 Hg1 Hg2 Hne Hin E1 E2. destruct (guard_reachable_ok _ _ Hr) as [Ks Hy].
  destruct (two_guards _ _ _ _ _ _ _ _ _ Hy Hs1 Hs2 Hg1 Hg2 Hne)
    as (m1' & F1 & m2' & F2 & Hm1 & H1 & Ha1 & Hm2 & H2 & Ha2 & Hd).
  apply (guarded_getMode _ _ _ _ _ H1 Ha1) in E1 as ->. apply (guarded_getMode _ _ _ _ _ H2 Ha2) in E2 as ->.
  destruct (guarded_inside _ _ _ _ H2 Hin) as [x Hx].
  pose proof (held_compatible _ _ _ _ _ _ _ _ _ _ Hy Ha1 Ha2 Hd (guarded_here _ _ _ H1) Hx) as Hc.
  case_decide; [done|]. unfold real_mode in Hm2. split; [intros ->|intros ->]; destruct m2'; cbn in Hc; try done; set_solver.
Qed.

Lemma guard_exclusion_witness :
  if decide (il_class (demo_guard 1) = il_class (demo_guard 2)) then conflicts LOCK_IX LOCK_X = false
  else LOCK_IX <> LOCK_X /\ (LOCK_IX = LOCK_S -> LOCK_X = LOCK_IS \/ LOCK_X = LOCK_S).
Proof.
  apply (@guard_exclusion true demo_hash demo_system 2 1 (demo_session 2) (demo_session 1) (demo_guard 2) (demo_guard 1)
    LOCK_IX LOCK_X demo_guard_reachable).
  - apply demo_session_at. by vm_compute.
  - apply demo_session_at. by vm_compute.
  - apply (list_elem_of_lookup_2 _ 0%nat). by vm_compute.
  - apply (list_elem_of_lookup_2 _ 0%nat). by vm_compute.
  - by right.
  - vm_compute. split; [done|]. by intros s.
  - by vm_compute.
  - by vm_compute.
Defined.

(** C3: the accounts are exact. Between its operations a session lists exactly the guards that it made
    with itself as the session; the keys it has noted as locked are those of its key guards, with their
    modes, so that a null guard for a key stands for a guard that the session holds; and when no
    session holds a guard or is about to, no lock object and no queue of the manager is left, whatever
    waits have timed out before. *)
Theorem guard_accounts {BM : BuildMode} (hash : bytes -> Z) y :
  guard_reachable hash y ->
  (forall s c held, y_sessions y !! s = Some (mkSession c held None) ->
    sc_locks c ≡ₚ il_mgl <$> filter (fun g => il_sess g = true) held /\
    (forall k m, sc_keylockmap c !! k = Some m <->
      exists g, g ∈ held /\ il_class g = KeyLock_ k /\ ILock_getMode (y_heap y) g = Ret m)) /\
  ((forall s T, y_sessions y !! s = Some T -> s_held T = [] /\ s_run T = None) ->
    y_heap y = ∅ /\ forall t, mgr_at hash (y_mgr y) t = None).
Proof.
  intros Hr. destruct (guard_reachable_ok _ _ Hr) as [Ks Hy]. split; [|by apply (idle_nothing _ _ Ks)].
  intros s c held Hs. pose proof (sys_ok_at _ _ _ _ _ Hy Hs) as Ha%sess_ok_idle. split.
  - by eapply accounts_locks_exact.
  - eapply accounts_keys_exact; [exact Ha|apply (so_agree _ _ _ Hy)].
Qed.

Lemma guard_accounts_witness :
  sc_locks (s_ctx (demo_session 1)) ≡ₚ il_mgl <$> filter (fun g => il_sess g = true) (s_held (demo_session 1)).
Proof.
  refine (proj1 (proj1 (@guard_accounts true demo_hash demo_system demo_guard_reachable) 1
    (s_ctx (demo_session 1)) (s_held (demo_session 1)) _)). by vm_compute.
Defined.

(** C29: the guards of stores, chunks and keys do not fail, as long as they are made as the code
    expects: in one of the modes IS, IX, S and X, and a key that the session has locked is not asked
    for in a greater mode, which an assertion of the session forbids. In every state that sessions reach
    this way, a session that is in a constructor or a destructor can take its next step: no assertion of
    the guards, of the session or of the locks fails, in either build, and no lock object is used after
    it is freed. The allocator gives the new lock a free address, and there are fewer than 2^16 - 1
    locks. The guard of all stores is not among them: it does not list itself in its session. *)
Theorem guard_total {BM : BuildMode} (hash : bytes -> Z) y s c held (B : Set) (e : lockE B) k x :
  guard_reachable hash y -> y_sessions y !! s = Some (mkSession c held (Some (Act e k))) ->
  fresh_ok e x (y_heap y) ->
  exists h mgr c' b, act_exec hash e x (y_heap y) (y_mgr y) c = Ret (h, mgr, c', b) /\
    guard_reachable hash (mkSystem h mgr (<[s := mkSession c' held (Some (k b))]> (y_sessions y))).
Proof.
  intros Hr Hs Hf. destruct (guard_reachable_ok _ _ Hr) as [Ks Hy].
  destruct (sys_ok_at _ _ _ _ _ Hy Hs) as (Kp & Kh & EK & Hd & _ & Hwp). destruct (so_rep _ _ _ Hy) as [S Hrep].
  assert (agree (y_heap y) Kp) as Ha.
  { intros z w Hz. apply (so_agree _ _ _ Hy s). rewrite EK. by apply lookup_union_Some_l. }
  destruct (act_sound _ _ _ _ _ _ _ _ _ _ Hrep Ha Hf Hwp) as (h & mgr & c' & b & Kp' & E & _).
  exists h, mgr, c', b. split; [done|]. eapply rtc_r; [exact Hr|]. by eapply gs_act.
Qed.

Lemma guard_total_witness :
  match y_sessions demo_system !! 2 with
  | Some (mkSession c held (Some (Act e k))) =>
      exists h mgr c' b, @act_exec true demo_hash _ e 400 (y_heap demo_system) (y_mgr demo_system) c = Ret (h, mgr, c', b) /\
        @guard_reachable true demo_hash (mkSystem h mgr (<[2 := mkSession c' held (Some (k b))]> (y_sessions demo_system)))
  | _ => False
  end.
Proof.
  assert (in_program demo_system 2 = true /\ y_heap demo_system !! 400 = None /\
    Z.of_nat (size (y_heap demo_system)) < 2 ^ 16 - 1) as H by by vm_compute.
  pose proof demo_guard_reachable as Hr. revert Hr H. generalize demo_system. intros y Hr [Ha Hf].
  unfold in_program in Ha. destruct (y_sessions y !! 2) as [[c held [[a|B e k]|]]|] eqn:E; try done.
  apply (@guard_total true demo_hash y 2 c held B e k 400 Hr E). by destruct e.
Defined.
